(* ===== verification/_CoqProject ===== *)
-Q . S2P
Prelude.v
Access.v
Object.v
ObjectInv.v
Handle.v
HandleInv.v
HandleThms.v
HandleInherit.v
HandleDup.v
Demo.v
Region.v
RegionInv.v
RegionOps.v
RegionThms.v
Wait.v
Sync.v
SyncInv.v
SyncSteps.v
SyncWake.v
SyncThms.v
SyncOps.v
SyncSelect.v
SelectThms.v
SyncDemo.v
SyncMachine.v
SyncSpecs.v
Bitmap.v
BitmapThms.v
Atom.v
AtomThms.v
UserHandle.v
UserHandleThms.v
RegText.v
RegTextThms.v
Registry.v
RegFile.v
RegLoad.v
RegistryInv.v
RegistryThms.v
RegistryKeys.v
RegistryCreate.v
RegistryRename.v
RegistryMachine.v
RegPathThms.v
RegFileThms.v
RegSaveThms.v
RegistrySpecs.v
RegFileSpecs.v
FileLock.v
HoleSpecs.v
FileLockInv.v
FileLockSpecs.v
UnixLockSpecs.v
SharingSpecs.v
MemRange.v
MemRangeSpecs.v
MapAddrInv.v
MapAddrSpecs.v
Timeout.v
TimeoutThms.v
TimeoutSpecs.v
Poll.v
PollThms.v
PollSpecs.v
Window.v
WindowOps.v
WindowReqs.v
WindowTree.v
WindowLink.v
WindowParent.v
WindowInv.v
WindowDestroy.v
WindowThread.v
WindowCreate.v
WindowProps.v
WindowMoves.v
WindowMachine.v
WindowList.v
WindowSpecs.v
