(* ===== verification/Prelude.v ===== *)
(** * A verification of the core of the Wine server

    Wine runs Windows programs on Unix.  The kernel objects those programs share
    (events, mutexes, handles, windows) live in one process, the wineserver
    ([src/server]); every client thread sends it requests and the server handles
    them one at a time.  This development models the parts of the server that the
    rest stands on, and one self-contained part of the client library, as
    executable functions, and proves what makes them correct.

    ** The parts and where they are

    - [Prelude]: machine words; the monad of the models, [ST S A], a function from
      a state to a result with the new state or to a [fault] (a failed [assert], a
      null or dangling pointer, an array access out of bounds, a read of memory
      never written, exhausted fuel); the triples [wp m Q s], which say that [m]
      started in [s] does not fault and ends in [Q]; sums over finite maps and
      counting in lists.
    - [Access]: server/token.c.  SIDs, ACLs, tokens and [token_access_check].
    - [Object], [ObjectInv]: server/object.c.  The server state, [server]: one store
      of reference-counted objects, the threads, the processes, the global handle
      table, the error codes.  A [struct object *] is a key of the store, so
      aliasing is explicit and a dangling pointer is a fault.  [ObjectInv] has the
      reference-count invariant, [heap_ok], and the proof that [release_object]
      consumes one reference and never faults, whatever chain of destructions it
      starts (a handle table releases the objects of its entries, an event,
      semaphore or mutex its sync object: three levels at most, which is the bound
      [release_depth] on the recursion).
    - [Handle], [HandleInv], [HandleThms], [HandleInherit],
      [HandleDup]: server/handle.c.  The array of a handle table with its [last] and
      [free] fields, growing and shrinking, opening, closing, duplicating and
      inheriting handles, and the requests.  [view] and [resolve] give the abstract
      map from handles to objects and rights; [server_ok] is the invariant every
      operation preserves.  [Demo] has an executable check of the invariant and the
      concrete server of the witnesses.
    - [Wait], [Sync]: the wait part of server/thread.c, with server/event.c,
      server/semaphore.c and server/mutex.c.  [Wait] has the wait structures and
      queues, [check_wait], [end_wait], [wake_thread], [wake_up]; [Sync] the
      operations that signal objects, their creation and requests, and [select_on].
    - [SyncInv], [SyncSteps], [SyncWake], [SyncThms], [SyncOps], [SyncSelect],
      [SelectThms]: the invariant of waits, [sync_ok] (every queue entry belongs to
      a wait of a thread and back, mutexes and their owners agree, reference counts
      are exact), and each routine under it: [SyncSteps] the acquisition of objects,
      [SyncWake] the check and the end of a wait, [SyncThms] the wakeup loops,
      [SyncOps] the operations of the sync objects, [SyncSelect] and [SelectThms]
      the start of a wait from handles.  [verdict] is the declarative reading of
      [check_wait]; [quiet] says that no waiting thread could go on.
    - [SyncMachine], [SyncSpecs]: the requests, the step relation of the
      wait machine, and the theorems; [SyncDemo] the concrete server of the
      witnesses.
    - [Region], [RegionInv], [RegionOps], [RegionThms]: server/region.c.  The banded
      lists of rectangles, [region_op] and its overlap callbacks; the meaning of a
      region is its set of points.  [region_ok] is what the code validates, with exact
      extents; [canonical] says in addition that no two bands could be merged.
    - [Atom], [AtomThms]: server/atom.c.  The array of atoms and the hash table of
      doubly linked lists, with addresses in a heap; they refine the abstract map
      [names] from atoms to strings and counts, which wrap like the [int]s they are.
    - [UserHandle], [UserHandleThms]: server/user.c.  The shared table of window
      manager handles with generations and its free list; [served] is any sequence of
      operations on it.
    - [Bitmap], [BitmapThms]: dlls/ntdll/rtlbitmap.c.
    - [RegText], [RegTextThms]: the escaped strings of server/unicode.c and the text
      of registry values in server/registry.c, on lists of bytes and of 16-bit
      characters.
    - [Registry], [RegFile]: server/registry.c.  [Registry] has the store of keys with
      their arrays of values and subkeys, searching, setting and deleting values,
      linking, creating, renaming and deleting keys, marks and notifications; the
      case map, loaded from a file, is the parameter [to_lower].  [RegFile] has the
      writing of keys and the reading of lines, values and key options.
    - [RegLoad]: the rest of the way to and from files: the lookup of paths with
      [lookup_named_object] of server/object.c, the creation of all keys of a path, the
      loop over the lines of a file, and the saving of a branch.  Where a symbolic link
      leads is looked up in the object namespace: it is the parameter [follow].
    - [RegistryInv] (names in order, bisection, parents, marks),
      [RegistryThms] (values), [RegistryKeys] (the invariant [reg_ok]
      of the tree), [RegistryCreate],
      [RegistryRename] (the operations on keys), [RegistryMachine] (any sequence of
      operations), [RegPathThms] (creating a path), [RegFileThms] (what was written is
      read back), [RegSaveThms] (the sections of a file, the text of a
      tree, and the tree of a text), [RegistrySpecs] and [RegFileSpecs] (the
      properties).  [value_at] and [child] give the abstract maps from names to
      values and to subkeys.
    - [FileLock]: server/fd.c, locks on ranges of files and sharing modes.  Each lock is in
      the lists of its descriptor, its file and its process; [remove_unix_locks]
      computes what no lock holds any more with a doubly linked list of holes in a
      buffer.  System calls are a record of the calls made, the results of [fcntl] a list
      given in advance.  [HoleSpecs] (the buffer of holes is used safely; the
      holes of locks in order), [FileLockInv] (the invariant [lock_inv], removing and adding
      locks), [FileLockSpecs] (the step relation [lock_step] and
      properties), [UnixLockSpecs] (what happens to the Unix locks), [SharingSpecs].
    - [Timeout], [TimeoutThms], [TimeoutSpecs]: server/fd.c, the two lists of
      timeout users and the round of the main loop that calls those that are due.  The
      callbacks are a parameter; the class [Callbacks] states what they promise,
      the theorems are proved against it, and callbacks that add and remove users are an
      instance.
    - [Poll], [PollThms], [PollSpecs]: server/fd.c, the arrays of polled descriptors with the
      free list threaded through them, and the loop that hands events to their handlers, a
      parameter with the class [Handlers].
    - [MemRange]: server/mapping.c, the committed ranges of a section and the free
      address ranges for images, two sorted arrays in buffers that grow.  [MemRangeSpecs]: the buffer stands for a list and the list for a set of
      bytes.  [MapAddrInv], [MapAddrSpecs]: the blocks of
      descriptors and the free ranges, under any sequence of operations.
    - [Window], [WindowOps], [WindowReqs]: server/window.c.  A [struct window *]
      is a key of the map [windows]; each window has the two lists of its children, linked
      in the Z-order and not linked.  [Window] has the lists, the Z-order
      ([link_window]) and [set_parent_window]; [WindowOps] properties, creation
      and destruction; [WindowReqs] the requests, with styles,
      positions and rectangles.  Handles are those of [UserHandle], property names those of
      [Atom].  What a routine asks of painting, hooks, clipboard and message queues is
      recorded in the list [win_calls]; what a creation gets from allocators, the class
      and the desktop is the record [create_env].
    - [WindowTree] (the invariant of the forest, [forest_ok]), [WindowLink] (the Z-order against a function on lists), [WindowParent], [WindowInv]
      (references and the invariant [ws_ok] of the whole state), [WindowDestroy],
      [WindowThread] (the end of windows and threads), [WindowCreate],
      [WindowProps], [WindowMoves] (the requests), [WindowMachine] (the step relation
      [win_step] and sample states), [WindowList] (descendants and owners) and
      [WindowSpecs] (the properties).

    ** What the theorems show

    Handles: an open grants exactly what the access check grants and uses the
    lowest free entry; a close, a duplication, an inheritance and a change of
    flags touch only the entry concerned; each of them fails exactly for the reasons
    stated, with the right status, and then changes nothing; lookups fail with the right
    status; all of them keep the reference counts exact.  Access checks: the loop over
    the ACL grants a request exactly when a declarative reading of the list does.  Waits: in every
    reachable state the invariant holds and no request faults; no wakeup is lost
    while the clock stands still; a select acquires exactly its objects, or changes
    none and leaves the thread waiting as asked.  Regions: the four operations
    compute the set operation on points, keep regions well formed, and leave no bands
    to merge when there were none, so that comparing the rectangles of such regions
    compares their points; queries are exact;
    sending a region and reading it back is the identity.  Atoms: the operations
    refine the abstract map.  User handles: a released handle designates nothing
    until its entry has been allocated 65534 times more, when its generation comes round.  Bitmaps: the word-wise routines agree
    with the bits.  Registry: the value operations refine a map from names without
    regard to case; creating, renaming and deleting keys change exactly the names
    concerned; every sequence of operations keeps the tree valid and completes; a
    branch of the registry without volatile keys, links, classes or odd names, saved to a
    file and loaded again, has all its keys with their values.  File locks: no sequence of operations leads to locks in conflict or to a
    Unix descriptor closed too early; a request for a lock has exactly the outcome its
    specification [lock_result] says, in every case; unlocking clears the Unix locks of exactly the bytes that
    are free, if the locks are in order; the check of sharing modes decides
    the rule between any two opens.  Timeouts, for times in a range the code does not check: a round calls those that are due,
    once, the absolute ones in the order of their times and then the relative ones in
    theirs, and the main loop waits no longer than to the next one; events go to the
    descriptors they were polled for.  Mappings:
    committing ranges is the union of sets but when the array cannot grow, the address ranges of images are
    disjoint and all return to one free range in the end.  Windows: under any sequence of
    admissible requests they stay a forest in step with handles, threads and atoms, and the next
    admissible request does not fault; linking puts a window where a function on lists says;
    creation, a change of parent, destruction and the end of a thread change exactly the
    windows they should; the list of descendants is their preorder; chains of owners
    stay finite; the array of properties is a map.
    Several theorems record where the code does something else than it means to;
    they are listed as findings.

    ** Bounds

    Loops that are not structural take fuel, and the theorems prove that the fuel
    given is enough: the length of a table for its scans, the number of waits of
    all threads for wakeups (every wakeup ends one), the size of the heap for the
    walk of a hash list, the size of a bitmap for its searches, the number of keys
    for walks up and down the tree of the registry, the length of the text for
    reading it, the length of a path for its lookup, three rounds for a Unix lock (each
    makes the lock weaker or the largest offset smaller), the number of locks of
    a file for its holes and for the removal of locks, the length of the lists for
    the expiry of timeouts, the number of windows for walks up the tree, down it and
    along a chain of owners, the size of the handle table for the windows of a
    thread.  For the loop over polled entries the theorem states
    that some fuel is enough and more does not change the result, since handlers may add
    any number of entries.

    ** What is not modelled

    Object names and directories other than registry keys ([open_object] of handle.c
    among them), what the close_handle and destroy operations of objects of other types do, default security descriptors, the write
    failures on wait pipes (and the killing of a thread that follows), APC queueing and
    contexts, the in-process synchronization device, processes and
    the request dispatcher.  Of the registry, the enumeration of keys and the
    requests are left out, and references to keys are not counted.  Of files, everything
    but locks, sharing modes, timeouts, the poll array and the two lists of ranges: opening,
    epoll, asynchronous I/O, views and PE images.  The loop is that for poll(), not
    those for epoll and kqueue.  An inode is not destroyed with its
    last descriptor, and the identity of a file is not tested before it is unlinked.
    Memory allocation may fail at every call: the fields [allocs], [rg_allocs],
    [f_allocs], [t_allocs], [m_allocs] and [p_allocs] list the results.
    Of windows: update regions and painting, hit testing, the mapping between DPI
    scales, captions, layered attributes and the fields in shared memory; message queues,
    hooks, classes, desktops, hot keys and the clipboard are only the calls made to them.
    The step relation of windows asks that the window a request moves another below is
    in the Z-order and that a creation finds its memory and queue; where
    it is otherwise, the theorems after it show what happens.
    [init_window_info] and [set_window_owner] are treated on their own: the first may
    break the order of topmost windows, the second has its own invariant.
    Timers, completion ports, asynchronous results and directories are not
    modelled either: they build on file descriptors and object names. *)

From stdpp Require Import gmap list fin_maps.
From Stdlib Require Export ZArith Lia.

Open Scope Z_scope.

(** * Machine words

    A C [unsigned int] is a [Z] in [[0, 2^32)]; [w32] is the reduction the
    hardware performs on every arithmetic result. *)

Definition w32 (x : Z) : Z := x mod 4294967296.

(** A C [int] from its 32 bits. *)
Definition int32 (x : Z) : Z := let u := w32 x in if u <? 2147483648 then u else u - 4294967296.

(** [~x] on an [unsigned int]. *)
Definition not32 (x : Z) : Z := Z.lxor (w32 x) 4294967295.

(** The C test [x & m], read as a boolean. *)
Definition has (x m : Z) : bool := negb (Z.land x m =? 0).

Definition u32 (x : Z) : Prop := 0 <= x < 4294967296.

(** C [int] comparisons and the ternary [max]/[min] macros are [Z.ltb],
    [Z.max] and [Z.min]. *)

(** * Computations of the server

    A server routine takes the server state and either returns a value with
    the new state or stops with a fault.  A fault is what the C code cannot
    recover from: a failed [assert], a wild or dangling pointer, an access out
    of the bounds of an array or to memory that was never written, and, for the
    routines whose recursion is bounded by fuel, the fuel running out. *)

Inductive fault := AssertFailed | NullDeref | OutOfBounds | Uninitialized | OutOfFuel.

Inductive outcome (S A : Type) :=
| Done (a : A) (s : S)
| Fault (f : fault).
Arguments Done {S A} _ _.
Arguments Fault {S A} _.

Definition ST (S A : Type) : Type := S → outcome S A.

Definition st_ret {S A} (a : A) : ST S A := λ s, Done a s.
Definition st_bind {S A B} (m : ST S A) (k : A → ST S B) : ST S B :=
  λ s, match m s with Done a s' => k a s' | Fault f => Fault f end.

Definition get {S} : ST S S := λ s, Done s s.
Definition gets {S A} (f : S → A) : ST S A := λ s, Done (f s) s.
Definition modify {S} (f : S → S) : ST S unit := λ s, Done tt (f s).
Definition fail {S A} (f : fault) : ST S A := λ _, Fault f.

(** [assert(b)]: the server aborts when [b] is false. *)
Definition assert {S} (b : bool) : ST S unit := if b then st_ret tt else fail AssertFailed.

(** Reading through a pointer that may be [NULL] or dangling. *)
Definition deref {S A} (o : option A) : ST S A :=
  match o with Some a => st_ret a | None => fail NullDeref end.

Declare Scope server_scope.
Delimit Scope server_scope with server.
Notation "x <- m ; k" := (st_bind m (λ x, k))
  (at level 100, m at next level, right associativity) : server_scope.
Notation "m ;; k" := (st_bind m (λ _, k))
  (at level 100, right associativity) : server_scope.
Notation "'ret' a" := (st_ret a) (at level 20) : server_scope.

(** ** Total-correctness triples

    [wp m Q s]: started in [s], the routine [m] does not fault and its result
    and final state satisfy [Q]. *)

Definition wp {S A} (m : ST S A) (Q : A → S → Prop) (s : S) : Prop :=
  match m s with Done a s' => Q a s' | Fault _ => False end.

Section wp.
Context {S : Type}.

Lemma wp_ret {A} (a : A) (Q : A → S → Prop) s : Q a s → wp (st_ret a) Q s.
Proof. done. Qed.

Lemma wp_bind {A B} (m : ST S A) (k : A → ST S B) Q s :
  wp m (λ a s', wp (k a) Q s') s → wp (st_bind m k) Q s.
Proof. unfold wp, st_bind. by destruct (m s). Qed.

Lemma wp_mono {A} (m : ST S A) (Q Q' : A → S → Prop) s :
  wp m Q s → (∀ a s', Q a s' → Q' a s') → wp m Q' s.
Proof. unfold wp. destruct (m s); naive_solver. Qed.

(** The first two of three routines in sequence. *)
Lemma wp_bind2 {A B C} (m : ST S A) (k : A → ST S B) (f : B → ST S C) P Q s :
  wp (st_bind m k) P s → (∀ b s', P b s' → wp (f b) Q s') → wp (st_bind m (λ a, st_bind (k a) f)) Q s.
Proof. unfold wp, st_bind. destruct (m s) as [a s1|]; [|done]. destruct (k a s1); naive_solver. Qed.

Lemma wp_gets {A} (f : S → A) (Q : A → S → Prop) s : Q (f s) s → wp (gets f) Q s.
Proof. done. Qed.

Lemma wp_get (Q : S → S → Prop) s : Q s s → wp get Q s.
Proof. done. Qed.

Lemma wp_modify (f : S → S) (Q : unit → S → Prop) s : Q tt (f s) → wp (modify f) Q s.
Proof. done. Qed.

Lemma wp_assert (b : bool) (Q : unit → S → Prop) s : b = true → Q tt s → wp (assert b) Q s.
Proof. by intros ->. Qed.

Lemma wp_deref {A} (o : option A) a (Q : A → S → Prop) s :
  o = Some a → Q a s → wp (deref o) Q s.
Proof. by intros ->. Qed.

Lemma wp_if {A} (b : bool) (m1 m2 : ST S A) Q s :
  (b = true → wp m1 Q s) → (b = false → wp m2 Q s) → wp (if b then m1 else m2) Q s.
Proof. destruct b; auto. Qed.

(** A triple gives the run it describes. *)
Lemma wp_run {A} (m : ST S A) Q s : wp m Q s → ∃ a s', m s = Done a s' ∧ Q a s'.
Proof. unfold wp. destruct (m s); naive_solver. Qed.

Lemma run_wp {A} (m : ST S A) (Q : A → S → Prop) s a s' : m s = Done a s' → Q a s' → wp m Q s.
Proof. unfold wp. by intros ->. Qed.
End wp.

(** One step of symbolic execution of a routine under [wp]. *)
Ltac wp_step :=
  match goal with
  | |- wp (st_bind _ _) _ _ => apply wp_bind
  | |- wp (st_ret _) _ _ => apply wp_ret
  | |- wp (gets _) _ _ => apply wp_gets
  | |- wp get _ _ => apply wp_get
  | |- wp (modify _) _ _ => apply wp_modify
  end.
Ltac wp_steps := cbn beta; repeat (wp_step; cbn beta).

(** * Sums over finite maps

    [msum f m] adds [f] over the values of [m]; the reference-count
    invariants are stated with it. *)

Definition msum {K} `{Countable K} {V} (f : V → Z) (m : gmap K V) : Z :=
  map_fold (λ _ v acc, f v + acc) 0 m.

Section msum.
Context {K} `{Countable K} {V : Type}.
Implicit Types (f g : V → Z) (m : gmap K V).

Lemma msum_empty f : msum f (∅ : gmap K V) = 0.
Proof. apply map_fold_empty. Qed.

Lemma msum_insert f m k v : m !! k = None → msum f (<[k:=v]> m) = f v + msum f m.
Proof.
  intros Hk. unfold msum. rewrite map_fold_insert_L; [done| |done].
  intros; lia.
Qed.

Lemma msum_delete f m k v : m !! k = Some v → msum f (delete k m) = msum f m - f v.
Proof.
  intros Hk. rewrite <-(insert_delete_id m k v Hk) at 2.
  rewrite msum_insert by apply lookup_delete_eq. lia.
Qed.

Lemma msum_update f m k v v' :
  m !! k = Some v → msum f (<[k:=v']> m) = msum f m - f v + f v'.
Proof.
  intros Hk. rewrite <-insert_delete_eq, msum_insert by apply lookup_delete_eq.
  rewrite (msum_delete _ _ _ _ Hk). lia.
Qed.

Lemma msum_nonneg f m : (∀ k v, m !! k = Some v → 0 <= f v) → 0 <= msum f m.
Proof.
  induction m as [|k v m Hk IH] using map_ind; intros Hf; [by rewrite msum_empty|].
  rewrite msum_insert by done.
  assert (0 <= f v) by (apply (Hf k v), lookup_insert_eq).
  assert (0 <= msum f m); [|lia]. apply IH. intros k' v' Hk'.
  apply (Hf k' v'). rewrite lookup_insert_ne; [done|congruence].
Qed.

Lemma msum_ext f g m :
  (∀ k v, m !! k = Some v → f v = g v) → msum f m = msum g m.
Proof.
  induction m as [|k v m Hk IH] using map_ind; intros Hfg; [by rewrite !msum_empty|].
  rewrite !msum_insert by done. rewrite (Hfg k v) by apply lookup_insert_eq.
  f_equal. apply IH. intros k' v' Hk'. apply (Hfg k').
  rewrite lookup_insert_ne; [done|congruence].
Qed.

Lemma msum_mono f g m :
  (∀ k v, m !! k = Some v → f v <= g v) → msum f m <= msum g m.
Proof.
  induction m as [|k v m Hk IH] using map_ind; intros Hfg; [by rewrite !msum_empty|].
  rewrite !msum_insert by done. pose proof (Hfg k v (lookup_insert_eq _ _ _)).
  assert (msum f m <= msum g m); [|lia]. apply IH. intros k' v' Hk'. apply (Hfg k').
  rewrite lookup_insert_ne; [done|congruence].
Qed.

Lemma msum_add f g m : msum (λ v, f v + g v) m = msum f m + msum g m.
Proof.
  induction m as [|k v m Hk IH] using map_ind; [by rewrite !msum_empty|].
  rewrite !msum_insert, IH by done. lia.
Qed.

Lemma msum_lookup_le f m k v :
  (∀ k v, m !! k = Some v → 0 <= f v) → m !! k = Some v → f v <= msum f m.
Proof.
  intros Hf Hk. pose proof (msum_delete f m k v Hk) as Hd.
  assert (0 <= msum f (delete k m)); [|lia]. apply msum_nonneg.
  intros k' v' [_ Hk']%lookup_delete_Some. eauto.
Qed.

Lemma msum_zero f m k v :
  (∀ k v, m !! k = Some v → 0 <= f v) → msum f m = 0 → m !! k = Some v → f v = 0.
Proof.
  intros Hf Hz Hk. pose proof (msum_lookup_le f m k v Hf Hk). pose proof (Hf k v Hk). lia.
Qed.

(** Maps with the same keys and values of the same weight. *)
Lemma msum_rel f m m' : (∀ k, option_Forall2 (λ v v', f v' = f v) (m !! k) (m' !! k)) → msum f m' = msum f m.
Proof.
  revert m. induction m' as [|k v m' Hk IH] using map_ind; intros m Hm.
  - destruct (decide (m = ∅)) as [->|Hne]; [done|]. exfalso. apply map_choose in Hne as (k & v & Hv).
    specialize (Hm k). rewrite lookup_empty, Hv in Hm. inversion Hm.
  - rewrite msum_insert by done. pose proof (Hm k) as E. rewrite lookup_insert_eq in E.
    destruct (m !! k) as [v0|] eqn:Hv0; inversion E as [? ? Ev|]; subst. rewrite (IH (delete k m)).
    + rewrite (msum_delete _ _ _ _ Hv0), Ev. lia.
    + intros k2. specialize (Hm k2). destruct (decide (k2 = k)) as [->|Hne].
      * rewrite Hk, lookup_delete_eq. constructor.
      * rewrite lookup_insert_ne in Hm by done. by rewrite lookup_delete_ne by congruence.
Qed.

(** A positive sum has a positive summand. *)
Lemma msum_pos f m : 0 < msum f m → ∃ k v, m !! k = Some v ∧ 0 < f v.
Proof.
  induction m as [|k v m Hk IH] using map_ind; [rewrite msum_empty; lia|].
  rewrite msum_insert by done. intros Hp. destruct (Z.ltb_spec 0 (f v)).
  - exists k, v. by rewrite lookup_insert_eq.
  - destruct IH as (k' & v' & Hk' & Hf); [lia|]. exists k', v'.
    rewrite lookup_insert_ne; [done|congruence].
Qed.
End msum.

(** * Counting in lists *)

Definition count_b {A} (p : A → bool) (l : list A) : Z :=
  Z.of_nat (length (List.filter p l)).

Section count.
Context {A : Type} (p : A → bool).

Lemma count_b_nil : count_b p [] = 0.
Proof. done. Qed.

Lemma count_b_cons x l : count_b p (x :: l) = (if p x then 1 else 0) + count_b p l.
Proof. unfold count_b. simpl. destruct (p x); simpl; lia. Qed.

Lemma count_b_app l k : count_b p (l ++ k) = count_b p l + count_b p k.
Proof. induction l as [|x l IH]; [done|]. simpl app. rewrite !count_b_cons, IH. lia. Qed.

Lemma count_b_nonneg l : 0 <= count_b p l.
Proof. unfold count_b. lia. Qed.

Lemma count_b_insert l i x y :
  l !! i = Some x →
  count_b p (<[i:=y]> l) = count_b p l - (if p x then 1 else 0) + (if p y then 1 else 0).
Proof.
  revert i. induction l as [|z l IH]; intros [|i] Hi; simplify_eq/=.
  - rewrite !count_b_cons. lia.
  - rewrite !count_b_cons, (IH i Hi). lia.
Qed.

Lemma count_b_false l : (∀ x, x ∈ l → p x = false) → count_b p l = 0.
Proof.
  induction l as [|x l IH]; intros Hf; [done|]. rewrite count_b_cons, IH, (Hf x); [done| |].
  - by left.
  - intros; apply Hf; by right.
Qed.

Lemma count_b_pos l x : x ∈ l → p x = true → 0 < count_b p l.
Proof.
  induction 1 as [x l|x y l Hx IH]; intros Hp; rewrite count_b_cons.
  - rewrite Hp. pose proof (count_b_nonneg l). lia.
  - specialize (IH Hp). destruct (p y); lia.
Qed.
End count.

(** * Filters *)

Lemma filter_same {A} (P Q : A → Prop) `{∀ x, Decision (P x), ∀ x, Decision (Q x)} (l : list A) : (∀ x, x ∈ l → P x ↔ Q x) → filter P l = filter Q l.
Proof.
  induction l as [|x l IH]; intros Hl; [done|]. rewrite !filter_cons. rewrite IH by (intros y Hy; apply Hl; by right). pose proof (Hl x (list_elem_of_here _ _)) as Hx. by repeat case_decide; tauto || done.
Qed.

(** * Array accesses

    [arr_get] and [arr_set] are [a[i]] and [a[i] = x] with a C [int] index. *)

Definition arr_get {S A} (a : list A) (i : Z) : ST S A :=
  if i <? 0 then fail OutOfBounds
  else match a !! Z.to_nat i with Some x => st_ret x | None => fail OutOfBounds end.

Definition arr_set {S A} (a : list A) (i : Z) (x : A) : ST S (list A) :=
  if (0 <=? i) && (i <? Z.of_nat (length a)) then st_ret (<[Z.to_nat i:=x]> a)
  else fail OutOfBounds.

Section arr.
Context {S A : Type}.

Lemma wp_arr_get (a : list A) i x (Q : A → S → Prop) s :
  0 <= i → a !! Z.to_nat i = Some x → Q x s → wp (arr_get a i) Q s.
Proof. intros Hi Hx HQ. unfold arr_get. rewrite (proj2 (Z.ltb_ge i 0)), Hx by lia. done. Qed.

Lemma wp_arr_set (a : list A) i x (Q : list A → S → Prop) s :
  0 <= i < Z.of_nat (length a) → Q (<[Z.to_nat i:=x]> a) s → wp (arr_set a i x) Q s.
Proof.
  intros Hi HQ. unfold arr_set.
  rewrite (proj2 (Z.leb_le 0 i)), (proj2 (Z.ltb_lt i _)) by lia. done.
Qed.
End arr.

(** * Bits *)

Lemma has_false x m : has x m = false ↔ Z.land x m = 0.
Proof. unfold has. rewrite negb_false_iff. apply Z.eqb_eq. Qed.

Lemma has_true x m : has x m = true ↔ Z.land x m ≠ 0.
Proof. unfold has. rewrite negb_true_iff. apply Z.eqb_neq. Qed.

Lemma w32_range x : u32 (w32 x).
Proof. unfold u32, w32. apply Z.mod_pos_bound. lia. Qed.

Lemma w32_small x : u32 x → w32 x = x.
Proof. apply Z.mod_small. Qed.

Lemma testbit_w32 x i : 0 <= i → Z.testbit (w32 x) i = (i <? 32) && Z.testbit x i.
Proof.
  intros Hi. unfold w32. change 4294967296 with (2 ^ 32).
  destruct (Z.ltb_spec i 32).
  - by rewrite Z.mod_pow2_bits_low by lia.
  - by rewrite Z.mod_pow2_bits_high by lia.
Qed.

Lemma testbit_ones32 i : 0 <= i → Z.testbit 4294967295 i = (i <? 32).
Proof.
  intros Hi. change 4294967295 with (Z.ones 32).
  destruct (Z.ltb_spec i 32); [apply Z.ones_spec_low|apply Z.ones_spec_high]; lia.
Qed.

Lemma testbit_not32 x i : 0 <= i → Z.testbit (not32 x) i = (i <? 32) && negb (Z.testbit x i).
Proof.
  intros Hi. unfold not32. rewrite Z.lxor_spec, testbit_w32, testbit_ones32 by done.
  by destruct (i <? 32), (Z.testbit x i).
Qed.

(** A word is determined by its 32 low bits. *)
Lemma u32_testbit_high x i : u32 x → 32 <= i → Z.testbit x i = false.
Proof.
  intros Hx Hi. rewrite <-(w32_small x Hx), testbit_w32 by lia.
  by rewrite (proj2 (Z.ltb_ge i 32)).
Qed.

Lemma u32_of_bits x : 0 <= x → (∀ i, 32 <= i → Z.testbit x i = false) → u32 x.
Proof.
  intros Hx Hbits. split; [done|].
  assert (x = w32 x) as ->; [|apply w32_range].
  apply Z.bits_inj'. intros i Hi. rewrite testbit_w32 by done.
  destruct (Z.ltb_spec i 32); [done|]. apply Hbits. lia.
Qed.

Lemma u32_land x y : u32 x → 0 <= y → u32 (Z.land x y).
Proof.
  intros Hx Hy. apply u32_of_bits; [by apply Z.land_nonneg; left; destruct Hx|].
  intros i Hi. rewrite Z.land_spec, (u32_testbit_high x) by done. done.
Qed.

Lemma u32_land_r x y : 0 <= x → u32 y → u32 (Z.land x y).
Proof. intros. rewrite Z.land_comm. by apply u32_land. Qed.

Lemma u32_lor x y : u32 x → u32 y → u32 (Z.lor x y).
Proof.
  intros Hx Hy. apply u32_of_bits; [apply Z.lor_nonneg; destruct Hx, Hy; done|].
  intros i Hi. by rewrite Z.lor_spec, !u32_testbit_high.
Qed.

Lemma u32_lxor x y : u32 x → u32 y → u32 (Z.lxor x y).
Proof.
  intros Hx Hy. apply u32_of_bits; [apply Z.lxor_nonneg; destruct Hx, Hy; done|].
  intros i Hi. by rewrite Z.lxor_spec, !u32_testbit_high.
Qed.

Lemma u32_not32 x : u32 (not32 x).
Proof. apply u32_lxor; [apply w32_range|done]. Qed.

(** Clearing the bits of a mask leaves none of them. *)
Lemma land_not32_mask x m : Z.land (Z.land x (not32 m)) m = 0.
Proof.
  apply Z.bits_inj'. intros i Hi. rewrite !Z.land_spec, testbit_not32, Z.bits_0 by done.
  destruct (i <? 32), (Z.testbit x i), (Z.testbit m i); done.
Qed.

Create HintDb server.
Create HintDb words.
#[export] Hint Resolve w32_range u32_land u32_lor u32_lxor u32_not32 : words.
#[export] Hint Extern 1 (u32 _) => (unfold u32; lia) : words.
