(* ===== verification/Access.v ===== *)
(** * Access checks (server/token.c, server/security.h, server/object.h)

    Security identifiers, tokens, discretionary ACLs and the check that decides
    which access rights a token gets on a security descriptor.  The loop over
    the ACEs is [dacl_loop]; [token_access_check] is the whole routine with its
    early returns; [map_access] expands the generic rights.

    The theorems relate the loop to a declarative reading of an ACL: the first
    ACE that speaks about a right decides it ([verdict]), and for
    [MAXIMUM_ALLOWED] the order of the ACEs does not matter. *)

From stdpp Require Import base list gmap.
From S2P Require Import Prelude.

Open Scope Z_scope.

(** ** Constants (include/winnt.h, include/ntstatus.h) *)

Definition GENERIC_READ : Z := 0x80000000.
Definition GENERIC_WRITE : Z := 0x40000000.
Definition GENERIC_EXECUTE : Z := 0x20000000.
Definition GENERIC_ALL : Z := 0x10000000.
Definition MAXIMUM_ALLOWED : Z := 0x02000000.
Definition ACCESS_SYSTEM_SECURITY : Z := 0x01000000.
Definition SYNCHRONIZE : Z := 0x00100000.
Definition STANDARD_RIGHTS_REQUIRED : Z := 0x000f0000.
Definition READ_CONTROL : Z := 0x00020000.
Definition STANDARD_RIGHTS_READ : Z := READ_CONTROL.
Definition STANDARD_RIGHTS_WRITE : Z := READ_CONTROL.
Definition STANDARD_RIGHTS_EXECUTE : Z := READ_CONTROL.

Definition STATUS_SUCCESS : Z := 0.
Definition STATUS_ACCESS_DENIED : Z := 0xC0000022.
Definition STATUS_BUFFER_TOO_SMALL : Z := 0xC0000023.
Definition STATUS_PRIVILEGE_NOT_HELD : Z := 0xC0000061.
Definition STATUS_INVALID_SECURITY_DESCR : Z := 0xC0000079.
Definition STATUS_GENERIC_NOT_MAPPED : Z := 0xC00000E6.

Definition SE_GROUP_ENABLED : Z := 4.
Definition SE_GROUP_USE_FOR_DENY_ONLY : Z := 16.
Definition SE_PRIVILEGE_USED_FOR_ACCESS : Z := 0x80000000.
Definition INHERIT_ONLY_ACE : Z := 8.
Definition ACCESS_ALLOWED_ACE_TYPE : Z := 0.
Definition ACCESS_DENIED_ACE_TYPE : Z := 1.

(** ** Generic rights *)

Record generic_map := GenericMap { gm_read : Z; gm_write : Z; gm_exec : Z; gm_all : Z }.

Definition generic_rights : Z :=
  Z.lor GENERIC_READ (Z.lor GENERIC_WRITE (Z.lor GENERIC_EXECUTE GENERIC_ALL)).

Definition map_access (access : Z) (mapping : generic_map) : Z :=
  let access := if has access GENERIC_READ then Z.lor access (gm_read mapping) else access in
  let access := if has access GENERIC_WRITE then Z.lor access (gm_write mapping) else access in
  let access := if has access GENERIC_EXECUTE then Z.lor access (gm_exec mapping) else access in
  let access := if has access GENERIC_ALL then Z.lor access (gm_all mapping) else access in
  Z.land access (not32 generic_rights).

(** ** Security identifiers and tokens *)

Record sid := Sid { sid_revision : Z; sid_authority : list Z; sub_auth : list Z }.

#[export] Instance sid_eq_dec : EqDecision sid.
Proof. solve_decision. Defined.

(** [sub_count] is the length of [sub_auth], so the comparison of the counts and
    of the [sid_len] first bytes is equality. *)
Definition equal_sid (sid1 sid2 : sid) : bool :=
  bool_decide (length (sub_auth sid1) = length (sub_auth sid2)) && bool_decide (sid1 = sid2).

Record luid := Luid { low_part : Z; high_part : Z }.
Record luid_attr := LuidAttr { la_luid : luid; la_attrs : Z }.
Record privilege := Privilege { priv_luid : luid; priv_enabled : bool; priv_def : bool }.
Record group := Group { grp_attrs : Z; grp_sid : sid }.

Definition SeSecurityPrivilege : luid := Luid 8 0.

Definition is_equal_luid (luid1 luid2 : luid) : bool :=
  (low_part luid1 =? low_part luid2) && (high_part luid1 =? high_part luid2).

Record token := Token { privileges : list privilege; groups : list group; user : sid }.

Definition token_find_privilege (t : token) (l : luid) (enabled_only : bool) : option privilege :=
  match List.find (λ p, is_equal_luid l (priv_luid p)) (privileges t) with
  | Some p => if enabled_only && negb (priv_enabled p) then None else Some p
  | None => None
  end.

(** Returns the verdict and the array [usedprivs]. *)
Definition token_check_privileges (t : token) (all_required : bool) (reqprivs : list luid_attr)
    : bool * list luid_attr :=
  let enabled r := match token_find_privilege t (la_luid r) true with
                   | Some p => priv_enabled p | None => false end in
  let enabled_count := count_b enabled reqprivs in
  let usedprivs :=
    map (λ r, if enabled r
              then LuidAttr (la_luid r) (Z.lor (la_attrs r) SE_PRIVILEGE_USED_FOR_ACCESS)
              else r) reqprivs in
  (if all_required then enabled_count =? Z.of_nat (length reqprivs) else 0 <? enabled_count,
   usedprivs).

Definition token_sid_present (t : token) (s : sid) (deny : bool) : bool :=
  equal_sid (user t) s ||
  existsb (λ g, has (grp_attrs g) SE_GROUP_ENABLED
                && negb (negb deny && has (grp_attrs g) SE_GROUP_USE_FOR_DENY_ONLY)
                && equal_sid (grp_sid g) s) (groups t).

(** ** Access control lists *)

Record ace := Ace { ace_type : Z; ace_flags : Z; ace_mask : Z; ace_sid : sid }.

(** [sd_owner] and [sd_group] are [None] where the descriptor has a zero
    length; [sd_dacl] is [None] when no DACL is present and [Some None] when one
    is present and null. *)
Record security_descriptor := SecurityDescriptor {
  sd_owner : option sid;
  sd_group : option sid;
  sd_dacl : option (option (list ace));
}.

(** The accumulators [current_access] and [denied_access] of the loop. *)
Definition dacl_step (t : token) (mapping : generic_map) (desired : Z) (a : ace)
    (acc : Z * Z) : bool * (Z * Z) :=
  let '(current, denied) := acc in
  if has (ace_flags a) INHERIT_ONLY_ACE then (false, acc)
  else
    let access := map_access (ace_mask a) mapping in
    if ace_type a =? ACCESS_DENIED_ACE_TYPE then
      if token_sid_present t (ace_sid a) true then
        if has desired MAXIMUM_ALLOWED then (false, (current, Z.lor denied access))
        else (has desired access,
              (current, Z.lor denied (Z.land access (not32 current))))
      else (false, acc)
    else if ace_type a =? ACCESS_ALLOWED_ACE_TYPE then
      if token_sid_present t (ace_sid a) false then
        if has desired MAXIMUM_ALLOWED then (false, (Z.lor current access, denied))
        else (false, (Z.lor current (Z.land access (not32 denied)), denied))
      else (false, acc)
    else (false, acc).

#[global] Arguments dacl_step : simpl never.

(** The loop over the ACEs: a step that answers [true] jumps to [done], and so
    does [desired_access == *granted_access], [*granted_access] being zero; an
    inherit-only ACE is skipped by [continue], before that test. *)
Fixpoint dacl_loop (t : token) (mapping : generic_map) (desired : Z) (dacl : list ace)
    (acc : Z * Z) : Z * Z :=
  match dacl with
  | [] => acc
  | a :: dacl' =>
      let '(stop, acc') := dacl_step t mapping desired a acc in
      if stop then acc'
      else if negb (has (ace_flags a) INHERIT_ONLY_ACE) && (desired =? 0) then acc'
      else dacl_loop t mapping desired dacl' acc'
  end.

(** What the caller sees: the returned status, and the output parameters
    [granted_access], [status] (when written), [priv_count] and [privs]. *)
Record access_result := AccessResult {
  ac_ret : Z;
  ac_granted : Z;
  ac_status : option Z;
  ac_priv_count : option Z;
  ac_privs : option luid_attr;
}.

(** The part of the routine after the [ACCESS_SYSTEM_SECURITY] test. *)
Definition access_check_owner_dacl (t : token) (owner : sid) (dacl : list ace) (desired : Z)
    (mapping : generic_map) (current : Z) (priv_count : option Z) (privs : option luid_attr)
    : access_result :=
  let is_owner := token_sid_present t owner false in
  let current :=
    if is_owner then Z.lor current (Z.lor STANDARD_RIGHTS_REQUIRED SYNCHRONIZE) else current in
  if is_owner && (desired =? current) then
    AccessResult STATUS_SUCCESS current (Some STATUS_SUCCESS) priv_count privs
  else
    let '(current, denied) := dacl_loop t mapping desired dacl (current, 0) in
    let granted :=
      if has desired MAXIMUM_ALLOWED then Z.land current (not32 denied)
      else if Z.land current desired =? desired then Z.land current desired else 0 in
    AccessResult STATUS_SUCCESS granted
      (Some (if granted =? 0 then STATUS_ACCESS_DENIED else STATUS_SUCCESS)) priv_count privs.

Definition token_access_check (t : token) (sd : security_descriptor) (desired : Z)
    (priv_count : option Z) (mapping : generic_map) : access_result :=
  let no_privs := option_map (λ _, 0) priv_count in
  if has desired generic_rights then
    AccessResult STATUS_GENERIC_NOT_MAPPED 0 None no_privs None
  else match sd_owner sd, sd_group sd with
  | Some owner, Some _ =>
      match sd_dacl sd with
      | None | Some None =>
          AccessResult STATUS_SUCCESS
            (if has desired MAXIMUM_ALLOWED then gm_all mapping else desired)
            (Some STATUS_SUCCESS) no_privs None
      | Some (Some dacl) =>
          if has desired ACCESS_SYSTEM_SECURITY then
            let '(held, used) :=
              token_check_privileges t true [LuidAttr SeSecurityPrivilege 0] in
            if held then
              match priv_count with
              | Some n =>
                  if 1 <=? n then
                    if desired =? ACCESS_SYSTEM_SECURITY then
                      AccessResult STATUS_SUCCESS ACCESS_SYSTEM_SECURITY (Some STATUS_SUCCESS)
                        (Some 1) (head used)
                    else access_check_owner_dacl t owner dacl desired mapping
                           ACCESS_SYSTEM_SECURITY (Some 1) (head used)
                  else AccessResult STATUS_BUFFER_TOO_SMALL 0 None (Some 1) None
              | None =>
                  if desired =? ACCESS_SYSTEM_SECURITY then
                    AccessResult STATUS_SUCCESS ACCESS_SYSTEM_SECURITY (Some STATUS_SUCCESS)
                      None None
                  else access_check_owner_dacl t owner dacl desired mapping
                         ACCESS_SYSTEM_SECURITY None None
              end
            else AccessResult STATUS_SUCCESS 0 (Some STATUS_PRIVILEGE_NOT_HELD) no_privs None
          else access_check_owner_dacl t owner dacl desired mapping 0 no_privs None
      end
  | _, _ => AccessResult STATUS_INVALID_SECURITY_DESCR 0 None no_privs None
  end.

(** [check_object_access] with the object's descriptor and the token already
    chosen: [None] is a denial, [Some a] the access the handle gets. *)
Definition check_access (t : token) (sd : option security_descriptor) (mapping : generic_map)
    (access : Z) : option Z :=
  match sd with
  | None => Some (if has access MAXIMUM_ALLOWED then gm_all mapping else access)
  | Some sd =>
      let r := token_access_check t sd access None mapping in
      if (ac_ret r =? STATUS_SUCCESS) && bool_decide (ac_status r = Some STATUS_SUCCESS)
      then Some (ac_granted r) else None
  end.

(** ** Declarative reading of an ACL *)

Section acl.
Context (t : token) (m : generic_map).

Definition ace_bits (a : ace) : Z := map_access (ace_mask a) m.

(** The ACE speaks for right [i] (a bit of the access mask). *)
Definition ace_allows (a : ace) (i : Z) : bool :=
  negb (has (ace_flags a) INHERIT_ONLY_ACE) && (ace_type a =? ACCESS_ALLOWED_ACE_TYPE)
  && token_sid_present t (ace_sid a) false && Z.testbit (ace_bits a) i.

Definition ace_denies (a : ace) (i : Z) : bool :=
  negb (has (ace_flags a) INHERIT_ONLY_ACE) && (ace_type a =? ACCESS_DENIED_ACE_TYPE)
  && token_sid_present t (ace_sid a) true && Z.testbit (ace_bits a) i.

(** The first ACE that speaks about a right decides it. *)
Fixpoint verdict (dacl : list ace) (i : Z) : option bool :=
  match dacl with
  | [] => None
  | a :: dacl => if ace_denies a i then Some false
                 else if ace_allows a i then Some true else verdict dacl i
  end.

(** An ACE that denies one of the desired rights. *)
Definition ace_stops (desired : Z) (a : ace) : bool :=
  negb (has (ace_flags a) INHERIT_ONLY_ACE) && (ace_type a =? ACCESS_DENIED_ACE_TYPE)
  && token_sid_present t (ace_sid a) true && has desired (ace_bits a).

(** The ACEs before the first one that denies a desired right. *)
Fixpoint before_deny (desired : Z) (dacl : list ace) : list ace :=
  match dacl with
  | [] => []
  | a :: dacl => if ace_stops desired a then [] else a :: before_deny desired dacl
  end.

Lemma has_bit x y : 0 <= x → has x y = true ↔ ∃ i, 0 <= i ∧ Z.testbit x i = true ∧ Z.testbit y i = true.
Proof.
  intros Hx. rewrite has_true. split.
  - intros Hne. destruct (decide (0 <= Z.land x y)) as [Hp|Hn].
    + exists (Z.log2 (Z.land x y)).
      assert (0 < Z.land x y) as Hpos by lia.
      pose proof (Z.bit_log2 _ Hpos) as Hb. rewrite Z.land_spec in Hb.
      apply andb_true_iff in Hb. split; [apply Z.log2_nonneg|done].
    + exfalso. apply Hn, Z.land_nonneg. by left.
  - intros (i & Hi & Hxi & Hyi) Heq.
    assert (Z.testbit (Z.land x y) i = true) as Hb by by rewrite Z.land_spec, Hxi, Hyi.
    by rewrite Heq, Z.bits_0 in Hb.
Qed.

Lemma testbit_ace_bits_high a i : 32 <= i → Z.testbit (ace_bits a) i = false.
Proof.
  intros Hi. unfold ace_bits, map_access. rewrite Z.land_spec, testbit_not32 by lia.
  rewrite (proj2 (Z.ltb_ge i 32)) by lia. by rewrite andb_false_r.
Qed.

Lemma ace_types_disjoint a i : ace_allows a i = true → ace_denies a i = false.
Proof.
  unfold ace_allows, ace_denies, ACCESS_ALLOWED_ACE_TYPE, ACCESS_DENIED_ACE_TYPE.
  destruct (Z.eqb_spec (ace_type a) 0) as [->|]; [|by rewrite andb_false_r].
  intros _. simpl. by rewrite andb_false_r.
Qed.

(** *** One step, bit by bit *)

(** The shape of [dacl_step] as far as one right is concerned. *)
Lemma dacl_step_bit desired a cur den stop cur' den' i :
  0 <= i → has desired MAXIMUM_ALLOWED = false →
  dacl_step t m desired a (cur, den) = (stop, (cur', den')) →
  Z.testbit cur' i = Z.testbit cur i || (ace_allows a i && negb (Z.testbit den i)) ∧
  Z.testbit den' i = Z.testbit den i || (ace_denies a i && negb (Z.testbit cur i)) ∧
  stop = ace_stops desired a.
Proof.
  intros Hi Hmax. unfold dacl_step, ace_allows, ace_denies, ace_stops.
  fold (ace_bits a). rewrite Hmax.
  destruct (has (ace_flags a) INHERIT_ONLY_ACE) eqn:Hio; simpl.
  { intros [= <- <- <-]. by rewrite !orb_false_r. }
  unfold ACCESS_ALLOWED_ACE_TYPE, ACCESS_DENIED_ACE_TYPE.
  assert (Z.testbit (ace_bits a) i && (i <? 32) = Z.testbit (ace_bits a) i) as Hhi.
  { destruct (Z.ltb_spec i 32); [by rewrite andb_true_r|].
    by rewrite testbit_ace_bits_high by lia. }
  destruct (Z.eqb_spec (ace_type a) 1) as [->|Hd]; simpl.
  - destruct (token_sid_present t (ace_sid a) true); simpl; intros [= <- <- <-];
      rewrite ?orb_false_r; [|done].
    rewrite Z.lor_spec, Z.land_spec, testbit_not32 by done.
    rewrite andb_assoc, Hhi. done.
  - destruct (Z.eqb_spec (ace_type a) 0) as [_|Ha]; simpl;
      [|intros [= <- <- <-]; by rewrite !orb_false_r].
    destruct (token_sid_present t (ace_sid a) false); simpl; intros [= <- <- <-];
      rewrite ?orb_false_r; [|done].
    rewrite Z.lor_spec, Z.land_spec, testbit_not32 by done.
    rewrite andb_assoc, Hhi. done.
Qed.

Lemma dacl_step_bit_max desired a cur den stop cur' den' i :
  0 <= i → has desired MAXIMUM_ALLOWED = true →
  dacl_step t m desired a (cur, den) = (stop, (cur', den')) →
  Z.testbit cur' i = Z.testbit cur i || ace_allows a i ∧
  Z.testbit den' i = Z.testbit den i || ace_denies a i ∧
  stop = false.
Proof.
  intros Hi Hmax. unfold dacl_step, ace_allows, ace_denies.
  fold (ace_bits a). rewrite Hmax.
  destruct (has (ace_flags a) INHERIT_ONLY_ACE) eqn:Hio; simpl.
  { intros [= <- <- <-]. by rewrite !orb_false_r. }
  unfold ACCESS_ALLOWED_ACE_TYPE, ACCESS_DENIED_ACE_TYPE.
  destruct (Z.eqb_spec (ace_type a) 1) as [->|Hd]; simpl.
  - destruct (token_sid_present t (ace_sid a) true); simpl; intros [= <- <- <-];
      rewrite ?Z.lor_spec, ?orb_false_r; done.
  - destruct (Z.eqb_spec (ace_type a) 0) as [_|Ha]; simpl;
      [|intros [= <- <- <-]; by rewrite !orb_false_r].
    destruct (token_sid_present t (ace_sid a) false); simpl; intros [= <- <- <-];
      rewrite ?Z.lor_spec, ?orb_false_r; done.
Qed.

(** *** The loop *)

(** A right the loop adds is one whose first ACE allows it. *)
Lemma dacl_loop_sound desired dacl cur den i :
  0 <= i → has desired MAXIMUM_ALLOWED = false →
  Z.testbit (dacl_loop t m desired dacl (cur, den)).1 i = true →
  Z.testbit cur i = true ∨ (Z.testbit den i = false ∧ verdict dacl i = Some true).
Proof.
  intros Hi Hmax. revert cur den. induction dacl as [|a dacl IH]; intros cur den; simpl; [by left|].
  destruct (dacl_step t m desired a (cur, den)) as [stop [cur' den']] eqn:Hstep.
  destruct (dacl_step_bit _ _ _ _ _ _ _ i Hi Hmax Hstep) as (Hc & Hd & _).
  assert (Z.testbit cur' i = true ∨ (Z.testbit den' i = false ∧ verdict dacl i = Some true) →
    Z.testbit cur i = true ∨ Z.testbit den i = false ∧
      (if ace_denies a i then Some false else if ace_allows a i then Some true
       else verdict dacl i) = Some true) as Hgoal.
  { rewrite Hc, Hd. destruct (ace_allows a i) eqn:Ha.
    - rewrite (ace_types_disjoint _ _ Ha). destruct (Z.testbit cur i), (Z.testbit den i); naive_solver.
    - destruct (ace_denies a i), (Z.testbit cur i), (Z.testbit den i); naive_solver. }
  destruct stop; [intros Hb; apply Hgoal; left; exact Hb|].
  destruct (_ && (desired =? 0)); [intros Hb; apply Hgoal; left; exact Hb|].
  intros Hb. apply Hgoal, IH, Hb.
Qed.

(** With some right desired, the loop collects exactly what the ACEs before
    the first relevant denial allow. *)
Lemma dacl_loop_exact desired dacl cur den i :
  u32 desired → desired ≠ 0 → 0 <= i → has desired MAXIMUM_ALLOWED = false →
  Z.testbit desired i = true → (∀ j, Z.testbit desired j = true → Z.testbit den j = false) →
  Z.testbit (dacl_loop t m desired dacl (cur, den)).1 i =
    Z.testbit cur i || existsb (λ a, ace_allows a i) (before_deny desired dacl).
Proof.
  intros Hu Hne Hi Hmax Hdi. revert cur den.
  induction dacl as [|a dacl IH]; intros cur den Hden; simpl; [by rewrite orb_false_r|].
  destruct (dacl_step t m desired a (cur, den)) as [stop [cur' den']] eqn:Hstep.
  destruct (dacl_step_bit _ _ _ _ _ _ _ i Hi Hmax Hstep) as (Hc & Hd & ->).
  rewrite (proj2 (Z.eqb_neq desired 0) Hne), andb_false_r.
  destruct (ace_stops desired a) eqn:Hs; simpl.
  - assert (ace_allows a i = false) as Ha.
    { unfold ace_stops, ace_allows in *. apply andb_true_iff in Hs as [[[_ Ht%Z.eqb_eq]%andb_true_iff _]%andb_true_iff _].
      rewrite Ht. simpl. by rewrite andb_false_r. }
    by rewrite Hc, Ha.
  - rewrite IH; [by rewrite Hc, (Hden i Hdi), andb_true_r, orb_assoc|].
    intros j Hj. destruct (decide (0 <= j)) as [Hj0|Hj0];
      [|rewrite Z.testbit_neg_r in Hj by lia; done].
    destruct (dacl_step_bit _ _ _ _ _ _ _ j Hj0 Hmax Hstep) as (_ & -> & _).
    rewrite (Hden j Hj). simpl.
    destruct (ace_denies a j) eqn:Hdj; [|done]. exfalso.
    unfold ace_denies in Hdj. unfold ace_stops in Hs.
    apply andb_true_iff in Hdj as [Hp Hb]. rewrite Hp in Hs. simpl in Hs.
    assert (has desired (ace_bits a) = true); [|congruence].
    apply has_bit; [by destruct Hu|]. eauto.
Qed.

Lemma dacl_loop_max desired dacl cur den i :
  0 <= i → has desired MAXIMUM_ALLOWED = true →
  let r := dacl_loop t m desired dacl (cur, den) in
  Z.testbit r.1 i = Z.testbit cur i || existsb (λ a, ace_allows a i) dacl ∧
  Z.testbit r.2 i = Z.testbit den i || existsb (λ a, ace_denies a i) dacl.
Proof.
  intros Hi Hmax. revert cur den.
  induction dacl as [|a dacl IH]; intros cur den; simpl; [by rewrite !orb_false_r|].
  destruct (dacl_step t m desired a (cur, den)) as [stop [cur' den']] eqn:Hstep.
  destruct (dacl_step_bit_max _ _ _ _ _ _ _ i Hi Hmax Hstep) as (Hc & Hd & ->).
  assert (desired =? 0 = false) as ->.
  { apply Z.eqb_neq. intros ->. by rewrite has_true in Hmax. }
  rewrite andb_false_r. destruct (IH cur' den') as [-> ->].
  by rewrite Hc, Hd, !orb_assoc.
Qed.
End acl.

(** ** The whole check *)

Definition owner_rights : Z := Z.lor STANDARD_RIGHTS_REQUIRED SYNCHRONIZE.

(** The rights a token holds before the DACL is read. *)
Definition owner_base (t : token) (owner : sid) (current : Z) : Z :=
  if token_sid_present t owner false then Z.lor current owner_rights else current.

(** Bitwise inclusion, and its reading as the C test [(x & y) == y]. *)
Lemma land_eq_bits x y :
  Z.land x y = y ↔ ∀ i, 0 <= i → Z.testbit y i = true → Z.testbit x i = true.
Proof.
  split.
  - intros Heq i Hi Hy. rewrite <-Heq, Z.land_spec in Hy. by apply andb_true_iff in Hy as [? _].
  - intros Hb. apply Z.bits_inj'. intros i Hi. rewrite Z.land_spec.
    destruct (Z.testbit y i) eqn:Hy; [by rewrite Hb|by rewrite andb_false_r].
Qed.

Lemma access_check_owner_dacl_granted t owner dacl desired m cur pc pv :
  has desired MAXIMUM_ALLOWED = false → desired ≠ 0 →
  let r := access_check_owner_dacl t owner dacl desired m cur pc pv in
  let final := (dacl_loop t m desired dacl (owner_base t owner cur, 0)).1 in
  ac_ret r = STATUS_SUCCESS ∧
  ((ac_status r = Some STATUS_SUCCESS ∧ ac_granted r = desired ∧
     (desired = owner_base t owner cur ∨ Z.land final desired = desired)) ∨
   (ac_status r = Some STATUS_ACCESS_DENIED ∧ ac_granted r = 0 ∧ Z.land final desired ≠ desired)).
Proof.
  intros Hmax Hne. unfold access_check_owner_dacl. fold owner_rights.
  fold (owner_base t owner cur).
  destruct (token_sid_present t owner false && (desired =? owner_base t owner cur)) eqn:Heq.
  { simpl. split; [done|]. left. apply andb_true_iff in Heq as [_ Heq%Z.eqb_eq]. auto. }
  destruct (dacl_loop t m desired dacl (owner_base t owner cur, 0)) as [c d]. rewrite Hmax. simpl.
  split; [done|]. destruct (Z.eqb_spec (Z.land c desired) desired) as [Hc|Hc]; simpl.
  - left. rewrite Hc, (proj2 (Z.eqb_neq desired 0) Hne). auto.
  - right. auto.
Qed.

Section check.
Context (t : token) (m : generic_map) (owner grp : sid) (dacl : list ace).

Definition protected_sd : security_descriptor :=
  SecurityDescriptor (Some owner) (Some grp) (Some (Some dacl)).

Lemma token_access_check_plain desired pc :
  has desired generic_rights = false → has desired ACCESS_SYSTEM_SECURITY = false →
  token_access_check t protected_sd desired pc m =
  access_check_owner_dacl t owner dacl desired m 0 (option_map (λ _, 0) pc) None.
Proof. intros Hg Hs. unfold token_access_check. by rewrite Hg, Hs. Qed.
End check.

(** C6: on an object with a DACL, an access request that names its rights (no
    generic right, no [MAXIMUM_ALLOWED], no system-security right) is granted,
    with exactly the rights asked for, when and only when every right is one of
    the owner's implicit rights or is allowed by an ACE that stands before the
    first ACE denying any of the requested rights; otherwise the check answers
    STATUS_ACCESS_DENIED and grants nothing. *)
Theorem access_check_grants_iff t m owner grp dacl desired
    (Hu : u32 desired) (Hne : desired ≠ 0)
    (Hgen : has desired generic_rights = false)
    (Hsys : has desired ACCESS_SYSTEM_SECURITY = false)
    (Hmax : has desired MAXIMUM_ALLOWED = false) :
  let r := token_access_check t (protected_sd owner grp dacl) desired None m in
  let covered := ∀ i, 0 <= i → Z.testbit desired i = true →
    (token_sid_present t owner false = true ∧ Z.testbit owner_rights i = true) ∨
    ∃ a, a ∈ before_deny t m desired dacl ∧ ace_allows t m a i = true in
  ac_ret r = STATUS_SUCCESS ∧
  ((covered ∧ ac_status r = Some STATUS_SUCCESS ∧ ac_granted r = desired) ∨
   (¬ covered ∧ ac_status r = Some STATUS_ACCESS_DENIED ∧ ac_granted r = 0)).
Proof.
  intros r covered. unfold r. rewrite token_access_check_plain by done.
  destruct (access_check_owner_dacl_granted t owner dacl desired m 0 None None Hmax Hne) as [Hret Hcases].
  split; [done|].
  assert (Hfinal : Z.land (dacl_loop t m desired dacl (owner_base t owner 0, 0)).1 desired = desired
                   ↔ covered).
  { rewrite land_eq_bits. unfold covered. apply forall_proper; intros i.
    split; intros H Hi Hd; specialize (H Hi Hd).
    - rewrite dacl_loop_exact in H by (done || (intros; apply Z.bits_0)).
      apply orb_true_iff in H as [H|H].
      + left. unfold owner_base in H. destruct (token_sid_present t owner false).
        * split; [done|]. by rewrite Z.lor_spec, Z.bits_0 in H.
        * by rewrite Z.bits_0 in H.
      + right. apply existsb_exists in H as (a & Ha & ?). exists a. by rewrite list_elem_of_In.
    - rewrite dacl_loop_exact by (done || (intros; apply Z.bits_0)).
      apply orb_true_iff. destruct H as [[Ho Hr]|(a & Ha & Hal)].
      + left. unfold owner_base. by rewrite Ho, Z.lor_spec, Hr, orb_true_r.
      + right. apply existsb_exists. exists a. by rewrite <-list_elem_of_In. }
  destruct Hcases as [(Hs & Hgr & [Heq|Hland])|(Hs & Hgr & Hland)].
  - left. split_and!; [|done|done]. intros i Hi Hd.
    rewrite Heq in Hd. unfold owner_base in Hd.
    destruct (token_sid_present t owner false); [|by rewrite Z.bits_0 in Hd].
    left. split; [done|]. by rewrite Z.lor_spec, Z.bits_0 in Hd.
  - left. split_and!; [by apply Hfinal|done|done].
  - right. split_and!; [by rewrite <-Hfinal|done|done].
Qed.

(** what the check grants is sound for the documented ACL order: whenever a
    request with named rights is granted, each requested right is an implicit
    right of the owner or is allowed by the first ACE of the DACL that mentions
    it, so a denial that stands before every allowing ACE is never overridden. *)
Theorem access_check_sound t m owner grp dacl desired
    (Hgen : has desired generic_rights = false)
    (Hsys : has desired ACCESS_SYSTEM_SECURITY = false)
    (Hmax : has desired MAXIMUM_ALLOWED = false)
    (Hok : ac_status (token_access_check t (protected_sd owner grp dacl) desired None m)
           = Some STATUS_SUCCESS) (i : Z) (Hi : 0 <= i) (Hd : Z.testbit desired i = true) :
  (token_sid_present t owner false = true ∧ Z.testbit owner_rights i = true) ∨
  verdict t m dacl i = Some true.
Proof.
  assert (desired ≠ 0) as Hne by (intros ->; by rewrite Z.bits_0 in Hd).
  rewrite token_access_check_plain in Hok by done.
  destruct (access_check_owner_dacl_granted t owner dacl desired m 0 None None Hmax Hne)
    as [_ [(_ & _ & [Heq|Hland])|(Hs & _)]]; [| |cbn in *; rewrite Hs in Hok; discriminate].
  - left. rewrite Heq in Hd. unfold owner_base in Hd.
    destruct (token_sid_present t owner false); [|by rewrite Z.bits_0 in Hd].
    split; [done|]. by rewrite Z.lor_spec, Z.bits_0 in Hd.
  - rewrite land_eq_bits in Hland. specialize (Hland i Hi Hd).
    apply dacl_loop_sound in Hland as [Hb|[_ Hv]]; [|by right|done|done].
    left. unfold owner_base in Hb. destruct (token_sid_present t owner false).
    + split; [done|]. by rewrite Z.lor_spec, Z.bits_0 in Hb.
    + by rewrite Z.bits_0 in Hb.
Qed.

(** for [MAXIMUM_ALLOWED] the rights granted are exactly those of the owner
    and of every allowing ACE, minus those of every denying ACE: the order of
    the ACEs is irrelevant. *)
Theorem access_check_maximum t m owner grp dacl desired
    (Hgen : has desired generic_rights = false)
    (Hsys : has desired ACCESS_SYSTEM_SECURITY = false)
    (Hmax : has desired MAXIMUM_ALLOWED = true) (i : Z) (Hi : 0 <= i < 32) :
  Z.testbit (ac_granted (token_access_check t (protected_sd owner grp dacl) desired None m)) i =
    (Z.testbit (owner_base t owner 0) i || existsb (λ a, ace_allows t m a i) dacl)
    && negb (existsb (λ a, ace_denies t m a i) dacl).
Proof.
  rewrite token_access_check_plain by done.
  unfold access_check_owner_dacl. fold owner_rights. fold (owner_base t owner 0).
  assert (token_sid_present t owner false && (desired =? owner_base t owner 0) = false) as ->.
  { unfold owner_base. destruct (token_sid_present t owner false); [|done].
    apply Z.eqb_neq. intros ->. by vm_compute in Hmax. }
  destruct (dacl_loop_max t m desired dacl (owner_base t owner 0) 0 i ltac:(lia) Hmax) as [Hc Hd].
  destruct (dacl_loop t m desired dacl (owner_base t owner 0, 0)) as [c d]. rewrite Hmax. simpl in *.
  rewrite Z.land_spec, testbit_not32, Hc, Hd, (proj2 (Z.ltb_lt i 32)) by lia.
  by rewrite Z.bits_0.
Qed.

(** A check that does not ask for [MAXIMUM_ALLOWED] never changes the access. *)
Lemma check_access_exact t sd m access access' :
  has access MAXIMUM_ALLOWED = false → check_access t sd m access = Some access' → access' = access.
Proof.
  intros Hmax. unfold check_access. destruct sd as [sd|]; [|rewrite Hmax; congruence].
  unfold token_access_check. rewrite Hmax.
  destruct (has access generic_rights); [done|].
  destruct (sd_owner sd) as [owner|], (sd_group sd) as [grp|]; try done.
  destruct (decide (access = 0)) as [->|Hne].
  { intros H. destruct (sd_dacl sd) as [[dacl|]|]; [|by simplify_eq/=|by simplify_eq/=].
    change (has 0 ACCESS_SYSTEM_SECURITY) with false in H. revert H.
    unfold access_check_owner_dacl. fold owner_rights. fold (owner_base t owner 0).
    destruct (token_sid_present t owner false && (0 =? owner_base t owner 0)) eqn:Heq.
    { unfold owner_base in Heq. by destruct (token_sid_present t owner false). }
    destruct (dacl_loop _ _ _ _ _) as [c d]. change (has 0 MAXIMUM_ALLOWED) with false.
    rewrite Z.land_0_r. simpl. done. }
  assert (Hod : ∀ dacl cur, let r := access_check_owner_dacl t owner dacl access m cur None None in
    (if (ac_ret r =? STATUS_SUCCESS) && bool_decide (ac_status r = Some STATUS_SUCCESS)
     then Some (ac_granted r) else None) = Some access' → access' = access).
  { intros dacl cur r. destruct (access_check_owner_dacl_granted t owner dacl access m cur None None Hmax Hne)
      as [Hret [(Hst & Hgr & _)|(Hst & _)]]; fold r in Hret, Hst; rewrite Hret, Hst; [|done].
    fold r in Hgr. rewrite Hgr. simpl. congruence. }
  destruct (sd_dacl sd) as [[dacl|]|]; [|simpl; congruence|simpl; congruence].
  destruct (has access ACCESS_SYSTEM_SECURITY); [|apply Hod].
  destruct (token_check_privileges t true _) as [held used]. destruct held; [|done].
  destruct (Z.eqb_spec access ACCESS_SYSTEM_SECURITY) as [->|]; [simpl; congruence|apply Hod].
Qed.

(** ** Witnesses *)

Definition demo_owner : sid := Sid 1 [0; 0; 0; 0; 0; 5] [21; 500].
Definition demo_caller : sid := Sid 1 [0; 0; 0; 0; 0; 5] [21; 1000].
Definition demo_caller_token : token := Token [] [] demo_caller.
Definition demo_mapping : generic_map := GenericMap 0x20001 0x20002 0x120000 0x1f0003.
(** Read is allowed, then write denied, then both allowed. *)
Definition demo_dacl : list ace :=
  [Ace 0 0 1 demo_caller; Ace 1 0 2 demo_caller; Ace 0 0 3 demo_caller].

Lemma access_check_grants_iff_witness :
  ac_ret (token_access_check demo_caller_token (protected_sd demo_owner demo_owner demo_dacl) 1 None demo_mapping)
  = STATUS_SUCCESS.
Proof.
  apply (access_check_grants_iff demo_caller_token demo_mapping demo_owner demo_owner demo_dacl 1);
    [split; done|done|reflexivity|reflexivity|reflexivity].
Defined.

Lemma access_check_sound_witness : verdict demo_caller_token demo_mapping demo_dacl 0 = Some true.
Proof.
  destruct (access_check_sound demo_caller_token demo_mapping demo_owner demo_owner demo_dacl 1
              eq_refl eq_refl eq_refl ltac:(vm_compute; reflexivity) 0 ltac:(lia) eq_refl) as [[H _]|H];
    [discriminate H|exact H].
Defined.

Lemma access_check_maximum_witness :
  Z.testbit (ac_granted (token_access_check demo_caller_token (protected_sd demo_owner demo_owner demo_dacl)
                           MAXIMUM_ALLOWED None demo_mapping)) 1 = false.
Proof.
  rewrite (access_check_maximum demo_caller_token demo_mapping demo_owner demo_owner demo_dacl MAXIMUM_ALLOWED
             eq_refl eq_refl eq_refl 1 ltac:(lia)). vm_compute. reflexivity.
Defined.
