(* ===== verification/Object.v ===== *)
(** * Kernel objects of the server (server/object.c, server/object.h)

    The server state and the life cycle of its reference-counted objects:
    [alloc_object], [grab_object], [release_object] with the [destroy] operation
    of every modelled object type.  All objects live in one store, [objs]; a
    [struct object *] is a key of it, so aliasing and dangling pointers are
    visible: reading a key that is not in the store is a [NullDeref] fault. *)

From stdpp Require Import base list gmap fin_maps.
From S2P Require Import Prelude Access.

Open Scope Z_scope.
Open Scope server_scope.

Notation oid := positive (only parsing).
Notation pid := positive (only parsing).
Notation tid := positive (only parsing).

Definition STATUS_NO_MEMORY : Z := 0xC0000017.
Definition INT_MAX : Z := 2147483647.

(** ** Object types

    [ops] is the identity of a [struct object_ops] table and [type_descr] that
    of its type descriptor.  A type that the development does not open is
    [opaque_ops k]; its objects carry the two entries of the table that the
    handle code calls, [map_access] (the generic mapping) and [close_handle]. *)

Inductive ops :=
| handle_table_ops | event_ops | event_sync_ops | keyed_event_ops
| semaphore_ops | semaphore_sync_ops | mutex_ops | mutex_sync_ops
| inproc_sync_ops | token_ops | opaque_ops (k : positive).

#[export] Instance ops_eq_dec : EqDecision ops.
Proof. solve_decision. Defined.

Inductive type_descr :=
| no_type | event_type | keyed_event_type | semaphore_type | mutex_type | token_type
| opaque_type (k : positive).

#[export] Instance type_descr_eq_dec : EqDecision type_descr.
Proof. solve_decision. Defined.

Record type_counts := TypeCounts {
  obj_count : Z;
  type_handle_count : Z;
  obj_max : Z;
  handle_max : Z;
}.

(** An object of a type that is not modelled.  Its [close_handle] operation answers
    from the process and the handle alone, and its [destroy] operation does nothing
    to the modelled state: what it does to objects of its own is not modelled. *)
Record opaque_object := OpaqueObject {
  op_ops : positive;
  op_mapping : generic_map;
  op_close_handle : option (pid → Z → bool);
}.

(** ** Handle tables (server/handle.c)

    The array is the list [ht_entries], whose length is the allocated count; a
    slot that was allocated and never written is [Uninit]. *)

Inductive handle_slot := Uninit | Slot (ptr : option oid) (access : Z).

Record handle_table := HandleTable {
  ht_process : option pid;
  ht_count : Z;
  ht_last : Z;
  ht_free : Z;
  ht_entries : list handle_slot;
}.

(** ** Objects *)

Inductive inproc_sync_type :=
| INPROC_SYNC_INTERNAL | INPROC_SYNC_EVENT | INPROC_SYNC_MUTEX | INPROC_SYNC_SEMAPHORE.

Inductive obj_data :=
| handle_table_data (table : handle_table)
| event_sync_data (manual signaled : bool)
| event_data (sync : option oid)
| keyed_event_data
| semaphore_sync_data (count max : Z)
| semaphore_data (sync : option oid)
| mutex_sync_data (owner : option tid) (count : Z) (abandoned : bool)
| mutex_data (sync : option oid)
| inproc_sync_data (type : inproc_sync_type) (fd : Z)
| token_data (t : token)
| opaque_data (v : opaque_object).

(** [struct wait_queue_entry]: the entry [wq_index] of the array [queues] of the
    wait [wq_wait] of thread [wq_thread]. *)
Record wait_queue_entry := WaitQueueEntry {
  wq_thread : tid;
  wq_wait : positive;
  wq_index : Z;
}.

#[export] Instance wait_queue_entry_eq_dec : EqDecision wait_queue_entry.
Proof. solve_decision. Defined.

Record object := Object {
  refcount : Z;
  handle_count : Z;
  is_permanent : bool;
  wait_queue : list wait_queue_entry;
  sd : option security_descriptor;
  data : obj_data;
}.

Definition obj_ops (ob : object) : ops :=
  match data ob with
  | handle_table_data _ => handle_table_ops
  | event_sync_data _ _ => event_sync_ops
  | event_data _ => event_ops
  | keyed_event_data => keyed_event_ops
  | semaphore_sync_data _ _ => semaphore_sync_ops
  | semaphore_data _ => semaphore_ops
  | mutex_sync_data _ _ _ => mutex_sync_ops
  | mutex_data _ => mutex_ops
  | inproc_sync_data _ _ => inproc_sync_ops
  | token_data _ => token_ops
  | opaque_data v => opaque_ops (op_ops v)
  end.

Definition ops_type (o : ops) : type_descr :=
  match o with
  | event_ops => event_type
  | keyed_event_ops => keyed_event_type
  | semaphore_ops => semaphore_type
  | mutex_ops => mutex_type
  | token_ops => token_type
  | opaque_ops k => opaque_type k
  | _ => no_type
  end.

(** ** Threads and processes

    The fields the handle and wait code uses.  A [struct thread] or [struct
    process] begins with its object header, so one pointer names both: the key
    of the header in [objs] and of the body in [threads] or [procs]. *)

Inductive select_opcode :=
| SELECT_NONE | SELECT_WAIT | SELECT_WAIT_ALL | SELECT_SIGNAL_AND_WAIT
| SELECT_KEYED_EVENT_WAIT | SELECT_KEYED_EVENT_RELEASE.

#[export] Instance select_opcode_eq_dec : EqDecision select_opcode.
Proof. solve_decision. Defined.

(** [w_id] stands for the address of the structure; [w_queues] holds the
    [obj] field of each element of [queues]. *)
Record thread_wait := ThreadWait {
  w_id : positive;
  w_queues : list oid;
  w_flags : Z;
  w_abandoned : bool;
  w_select : select_opcode;
  w_key : Z;
  w_cookie : Z;
  w_when : Z;
  w_user : bool;
  w_status : Z;
}.

Inductive run_state := RUNNING | TERMINATED.

#[export] Instance run_state_eq_dec : EqDecision run_state.
Proof. solve_decision. Defined.

(** The fields of [struct context] that the wait code reads: [cooperative], and
    whether [regs[CTX_NATIVE].flags] or [regs[CTX_WOW].flags] is not zero.  The
    context belongs to its thread here; it is not a separate object. *)
Record thread_context := ThreadContext { cooperative : bool; ctx_flags : bool }.

Record thread := Thread {
  t_process : pid;
  t_token : option oid;
  t_error : Z;
  t_state : run_state;
  t_wait : list thread_wait;
  t_mutex_list : list oid;
  t_suspend : Z;
  t_context : option thread_context;
  t_suspend_cookie : Z;
  t_bypass_proc_suspend : bool;
  t_system_apc : list positive;
  t_user_apc : list positive;
}.

Record process := Process {
  p_id : Z;
  p_handles : option oid;
  p_token : option oid;
  p_suspend : Z;
}.

(** ** The server *)

Record server := Server {
  objs : gmap oid object;
  threads : gmap tid thread;
  procs : gmap pid process;
  global_table : option oid;
  current : option tid;
  global_error : Z;
  types : type_descr → type_counts;
  inproc_device_fd : Z;
  current_time : Z;
  monotonic_time : Z;
  (** the replies written on the wait pipes, newest first: thread, cookie, status *)
  wakeups : list (tid * Z * Z);
  (** results of the next memory allocations; an exhausted list is success *)
  allocs : list bool;
}.

Notation M := (ST server).

Definition set_objs (f : gmap oid object → gmap oid object) (s : server) : server :=
  Server (f (objs s)) (threads s) (procs s) (global_table s) (current s) (global_error s)
    (types s) (inproc_device_fd s) (current_time s) (monotonic_time s) (wakeups s) (allocs s).
Definition set_threads (f : gmap tid thread → gmap tid thread) (s : server) : server :=
  Server (objs s) (f (threads s)) (procs s) (global_table s) (current s) (global_error s)
    (types s) (inproc_device_fd s) (current_time s) (monotonic_time s) (wakeups s) (allocs s).
Definition set_procs (f : gmap pid process → gmap pid process) (s : server) : server :=
  Server (objs s) (threads s) (f (procs s)) (global_table s) (current s) (global_error s)
    (types s) (inproc_device_fd s) (current_time s) (monotonic_time s) (wakeups s) (allocs s).
Definition set_global_table (g : option oid) (s : server) : server :=
  Server (objs s) (threads s) (procs s) g (current s) (global_error s)
    (types s) (inproc_device_fd s) (current_time s) (monotonic_time s) (wakeups s) (allocs s).
Definition set_global_error (e : Z) (s : server) : server :=
  Server (objs s) (threads s) (procs s) (global_table s) (current s) e
    (types s) (inproc_device_fd s) (current_time s) (monotonic_time s) (wakeups s) (allocs s).
Definition set_types (f : (type_descr → type_counts) → type_descr → type_counts) (s : server) : server :=
  Server (objs s) (threads s) (procs s) (global_table s) (current s) (global_error s)
    (f (types s)) (inproc_device_fd s) (current_time s) (monotonic_time s) (wakeups s) (allocs s).
Definition set_wakeups (f : list (tid * Z * Z) → list (tid * Z * Z)) (s : server) : server :=
  Server (objs s) (threads s) (procs s) (global_table s) (current s) (global_error s)
    (types s) (inproc_device_fd s) (current_time s) (monotonic_time s) (f (wakeups s)) (allocs s).
Definition set_allocs (l : list bool) (s : server) : server :=
  Server (objs s) (threads s) (procs s) (global_table s) (current s) (global_error s)
    (types s) (inproc_device_fd s) (current_time s) (monotonic_time s) (wakeups s) l.

(** Field updates of an object and of a thread. *)
Definition ob_refcount (n : Z) (ob : object) : object :=
  Object n (handle_count ob) (is_permanent ob) (wait_queue ob) (sd ob) (data ob).
Definition ob_handle_count (n : Z) (ob : object) : object :=
  Object (refcount ob) n (is_permanent ob) (wait_queue ob) (sd ob) (data ob).
Definition ob_permanent (b : bool) (ob : object) : object :=
  Object (refcount ob) (handle_count ob) b (wait_queue ob) (sd ob) (data ob).
Definition ob_queue (q : list wait_queue_entry) (ob : object) : object :=
  Object (refcount ob) (handle_count ob) (is_permanent ob) q (sd ob) (data ob).
Definition ob_data (d : obj_data) (ob : object) : object :=
  Object (refcount ob) (handle_count ob) (is_permanent ob) (wait_queue ob) (sd ob) d.

Definition th_error (e : Z) (t : thread) : thread :=
  Thread (t_process t) (t_token t) e (t_state t) (t_wait t) (t_mutex_list t)
    (t_suspend t) (t_context t) (t_suspend_cookie t) (t_bypass_proc_suspend t) (t_system_apc t) (t_user_apc t).
Definition th_wait (w : list thread_wait) (t : thread) : thread :=
  Thread (t_process t) (t_token t) (t_error t) (t_state t) w (t_mutex_list t)
    (t_suspend t) (t_context t) (t_suspend_cookie t) (t_bypass_proc_suspend t) (t_system_apc t) (t_user_apc t).
Definition th_mutex_list (l : list oid) (t : thread) : thread :=
  Thread (t_process t) (t_token t) (t_error t) (t_state t) (t_wait t) l
    (t_suspend t) (t_context t) (t_suspend_cookie t) (t_bypass_proc_suspend t) (t_system_apc t) (t_user_apc t).
Definition th_suspend (n : Z) (t : thread) : thread :=
  Thread (t_process t) (t_token t) (t_error t) (t_state t) (t_wait t) (t_mutex_list t)
    n (t_context t) (t_suspend_cookie t) (t_bypass_proc_suspend t) (t_system_apc t) (t_user_apc t).
Definition th_context (c : option thread_context) (t : thread) : thread :=
  Thread (t_process t) (t_token t) (t_error t) (t_state t) (t_wait t) (t_mutex_list t)
    (t_suspend t) c (t_suspend_cookie t) (t_bypass_proc_suspend t) (t_system_apc t) (t_user_apc t).

(** ** Primitive accesses *)

Definition get_obj (o : oid) : M object :=
  s <- get; deref (objs s !! o).
Definition put_obj (o : oid) (ob : object) : M unit := modify (set_objs (<[o:=ob]>)).

(** [set_error] writes the global error and, when there is a current thread,
    that thread's error; [get_error] reads the one that applies. *)
Definition set_error (e : Z) : M unit := modify (λ s,
  let s := set_global_error e s in
  match current s with
  | Some t => set_threads (alter (th_error e) t) s
  | None => s
  end).

Definition get_error : M Z := gets (λ s,
  match current s with
  | Some t => match threads s !! t with Some th => t_error th | None => global_error s end
  | None => global_error s
  end).

Definition clear_error : M unit := set_error 0.

(** The outcome of the next [malloc] or [realloc]. *)
Definition alloc_ok : M bool := λ s,
  match allocs s with
  | [] => Done true s
  | b :: l => Done b (set_allocs l s)
  end.

(** [mem_alloc]: on failure it records [STATUS_NO_MEMORY]. *)
Definition mem_alloc : M bool :=
  ok <- alloc_ok;
  if ok then ret true else (set_error STATUS_NO_MEMORY ;; ret false).

Definition update_type (ty : type_descr) (f : type_counts → type_counts) : M unit :=
  modify (set_types (λ g ty', if decide (ty' = ty) then f (g ty) else g ty')).

(** ** Reference counting *)

Definition alloc_object (d : obj_data) : M (option oid) :=
  ok <- mem_alloc;
  if negb ok then ret None
  else
    s <- get;
    (let o := fresh (dom (objs s)) in
     let ob := Object 1 0 false [] None d in
     put_obj o ob ;;
     update_type (ops_type (obj_ops ob)) (λ c,
       let n := w32 (obj_count c + 1) in
       TypeCounts n (type_handle_count c) (Z.max (obj_max c) n) (handle_max c)) ;;
     ret (Some o)).

Definition free_object (o : oid) : M unit :=
  ob <- get_obj o;
  update_type (ops_type (obj_ops ob)) (λ c,
    TypeCounts (w32 (obj_count c - 1)) (type_handle_count c) (obj_max c) (handle_max c)) ;;
  modify (set_objs (delete o)).

Definition grab_object (o : oid) : M oid :=
  ob <- get_obj o;
  assert (refcount ob <? INT_MAX) ;;
  put_obj o (ob_refcount (refcount ob + 1) ob) ;;
  ret o.

Definition make_object_permanent (o : oid) : M unit :=
  ob <- get_obj o; put_obj o (ob_permanent true ob).
Definition make_object_temporary (o : oid) : M unit :=
  ob <- get_obj o; put_obj o (ob_permanent false ob).

(** Handles are a multiple of 4; handle 0 is not used. *)
Definition index_to_handle (index : Z) : Z := w32 (Z.shiftl (index + 1) 2).

(** The table held by an object known to be a handle table. *)
Definition get_table (o : oid) : M handle_table :=
  ob <- get_obj o;
  match data ob with handle_table_data t => ret t | _ => fail AssertFailed end.
Definition put_table (o : oid) (t : handle_table) : M unit :=
  ob <- get_obj o; put_obj o (ob_data (handle_table_data t) ob).

Definition read_slot (sl : handle_slot) : M (option oid * Z) :=
  match sl with Uninit => fail Uninitialized | Slot p a => ret (p, a) end.

(** The [close_handle] entry of an object's operations, where it has one. *)
Definition ops_close_handle (ob : object) : option (pid → Z → bool) :=
  match data ob with opaque_data v => op_close_handle v | _ => None end.

Definition release_object_from_handle (release : oid → M unit) (o : oid) : M unit :=
  ob <- get_obj o;
  assert (negb (handle_count ob =? 0)) ;;
  update_type (ops_type (obj_ops ob)) (λ c,
    TypeCounts (obj_count c) (w32 (type_handle_count c - 1)) (obj_max c) (handle_max c)) ;;
  put_obj o (ob_handle_count (handle_count ob - 1) ob) ;;
  release o.

(** The loop of [handle_table_destroy] from entry [i] on; [n] bounds the
    iterations, one per slot of the table.  The [close_handle] operation called
    on each object only computes an answer in this model, and the loop ignores
    it. *)
Fixpoint handle_table_destroy_loop (release : oid → M unit) (o : oid) (n : nat) (i : Z) : M unit :=
  t <- get_table o;
  if ht_last t <? i then ret tt
  else match n with
  | O => fail OutOfFuel
  | S n =>
      sl <- arr_get (ht_entries t) i;
      e <- read_slot sl;
      es <- arr_set (ht_entries t) i (Slot None (snd e));
      put_table o (HandleTable (ht_process t) (ht_count t) (ht_last t) (ht_free t) es) ;;
      match fst e with
      | None => ret tt
      | Some p => release_object_from_handle release p
      end ;;
      handle_table_destroy_loop release o n (i + 1)
  end.

Definition handle_table_destroy (release : oid → M unit) (o : oid) : M unit :=
  t <- get_table o;
  handle_table_destroy_loop release o (length (ht_entries t)) 0.

(** The [destroy] operation of each object type; for the types that are not modelled
    it does nothing to the modelled state. *)
Definition ops_destroy (release : oid → M unit) (o : oid) : M unit :=
  ob <- get_obj o;
  match data ob with
  | handle_table_data _ => handle_table_destroy release o
  | event_data (Some sync) | semaphore_data (Some sync) | mutex_data (Some sync) => release sync
  | mutex_sync_data _ count _ => assert (count =? 0)
  | _ => ret tt
  end.

(** [release_object], with the depth of nested destructions bounded by [n].
    Objects are unnamed and own no kernel-mode objects in this model, so
    [free_kernel_objects] and [unlink_named_object] have nothing to do. *)
Fixpoint release_object_depth (n : nat) (o : oid) : M unit :=
  match n with
  | O => fail OutOfFuel
  | S n =>
      ob <- get_obj o;
      assert (negb (refcount ob =? 0)) ;;
      put_obj o (ob_refcount (refcount ob - 1) ob) ;;
      if refcount ob - 1 =? 0 then
        assert (handle_count ob =? 0) ;;
        assert (match wait_queue ob with [] => true | _ => false end) ;;
        ops_destroy (release_object_depth n) o ;;
        free_object o
      else ret tt
  end.

(** A handle table is destroyed with the objects it holds, and an event,
    semaphore or mutex with its sync object: three levels. *)
Definition release_depth : nat := 3.
Definition release_object (o : oid) : M unit := release_object_depth release_depth o.
