(* ===== verification/ObjectInv.v ===== *)
(** * The reference-count invariant of the object store

    [heap_ok x h] relates the counters stored in the objects of [h] to the
    references that exist: those held by other objects of [h] (handle-table
    entries, the sync object of an event, semaphore or mutex) and those held
    from outside, given by [x] (processes, threads, waits, and the pointers that
    a routine holds in its local variables).  The main result is that
    [release_object] consumes one outside reference, never faults and preserves
    the invariant, whatever the chain of destructions it starts. *)

From stdpp Require Import base list gmap fin_maps.
From S2P Require Import Prelude Access Object.

Open Scope Z_scope.
Open Scope server_scope.

(** ** References held by an object *)

Definition slot_target (sl : handle_slot) : option oid :=
  match sl with Slot p _ => p | Uninit => None end.

Definition table_targets (t : handle_table) : list oid := omap slot_target (ht_entries t).

Definition handle_targets (d : obj_data) : list oid :=
  match d with handle_table_data t => table_targets t | _ => [] end.

Definition sync_target (d : obj_data) : option oid :=
  match d with event_data s | semaphore_data s | mutex_data s => s | _ => None end.

Definition data_targets (d : obj_data) : list oid :=
  handle_targets d ++ option_list (sync_target d).

(** How deep the destruction of an object can go. *)
Definition rank (d : obj_data) : nat :=
  match d with
  | handle_table_data _ => 2
  | event_data _ | semaphore_data _ | mutex_data _ => 1
  | _ => 0
  end.

Definition occ (o : oid) (l : list oid) : Z := count_b (λ p, bool_decide (p = o)) l.

Lemma occ_nonneg o l : 0 <= occ o l.
Proof. apply count_b_nonneg. Qed.
Lemma occ_nil o : occ o [] = 0.
Proof. done. Qed.
Lemma occ_cons o p l : occ o (p :: l) = (if bool_decide (p = o) then 1 else 0) + occ o l.
Proof. unfold occ. by rewrite count_b_cons. Qed.
Lemma occ_app o l k : occ o (l ++ k) = occ o l + occ o k.
Proof. apply count_b_app. Qed.
Lemma occ_pos o l : o ∈ l → 0 < occ o l.
Proof. intros Hin. apply (count_b_pos _ _ o Hin). by rewrite bool_decide_eq_true. Qed.
Lemma occ_elem o l : 0 < occ o l → o ∈ l.
Proof.
  induction l as [|p l IH]; [by rewrite occ_nil|]. rewrite occ_cons.
  case_bool_decide; [subst; by left|]. intros. right. apply IH. lia.
Qed.

(** References to [o] from the objects of the store, and from its handle tables. *)
Definition hrefs (h : gmap oid object) (o : oid) : Z := msum (λ ob, occ o (data_targets (data ob))) h.
Definition thandles (h : gmap oid object) (o : oid) : Z := msum (λ ob, occ o (handle_targets (data ob))) h.

Lemma hrefs_nonneg h o : 0 <= hrefs h o.
Proof. apply msum_nonneg. intros; apply occ_nonneg. Qed.
Lemma thandles_nonneg h o : 0 <= thandles h o.
Proof. apply msum_nonneg. intros; apply occ_nonneg. Qed.

(** ** References from outside *)

Record xrefs := XRefs {
  x_ref : oid → Z;     (** references, all kinds *)
  x_handle : oid → Z;  (** handles among them *)
  x_held : oid → Z;    (** waits and mutex ownerships among them *)
}.

#[export] Instance xrefs_equiv : Equiv xrefs := λ x y,
  (∀ o, x_ref x o = x_ref y o) ∧ (∀ o, x_handle x o = x_handle y o) ∧ (∀ o, x_held x o = x_held y o).

#[export] Instance xrefs_equivalence : Equivalence (≡@{xrefs}).
Proof.
  split.
  - by intros [].
  - intros x y (?&?&?). split_and!; intros; symmetry; auto.
  - intros x y z (H1&H2&H3) (?&?&?). split_and!; intros; [rewrite H1|rewrite H2|rewrite H3]; auto.
Qed.

(** One more reference to [o] held by the running routine. *)
Definition pin (o : oid) (x : xrefs) : xrefs :=
  XRefs (λ p, x_ref x p + occ p [o]) (x_handle x) (x_held x).
(** The references of a list, and those of a list of handles. *)
Definition x_refs (l : list oid) (x : xrefs) : xrefs :=
  XRefs (λ p, x_ref x p + occ p l) (x_handle x) (x_held x).
Definition x_handles (l : list oid) (x : xrefs) : xrefs :=
  XRefs (λ p, x_ref x p + occ p l) (λ p, x_handle x p + occ p l) (x_held x).

(** ** The invariant *)

Record table_ok (t : handle_table) : Prop := {
  tb_count : ht_count t = Z.of_nat (length (ht_entries t));
  tb_range : 32 <= ht_count t <= 0x00ffffff;
  tb_last : -1 <= ht_last t < ht_count t;
  tb_init : ∀ i, 0 <= i <= ht_last t → ∃ p a, ht_entries t !! Z.to_nat i = Some (Slot p a) ∧ u32 a;
  tb_rest : ∀ i p a, ht_last t < i → ht_entries t !! Z.to_nat i = Some (Slot p a) → p = None;
  tb_free : 0 <= ht_free t <= ht_last t + 1;
  tb_used : ∀ i, 0 <= i < ht_free t → ∃ p a, ht_entries t !! Z.to_nat i = Some (Slot (Some p) a);
}.

Definition data_ok (d : obj_data) : Prop :=
  match d with handle_table_data t => table_ok t | _ => True end.

Record object_ok (x : xrefs) (h : gmap oid object) (o : oid) (ob : object) : Prop := {
  ob_refs : refcount ob = hrefs h o + x_ref x o;
  ob_live : 0 < refcount ob;
  ob_handles : handle_count ob = thandles h o + x_handle x o;
  ob_data_ok : data_ok (data ob);
  ob_targets : ∀ p, p ∈ data_targets (data ob) →
    ∃ obp, h !! p = Some obp ∧ (rank (data obp) < rank (data ob))%nat;
  ob_waited : wait_queue ob ≠ [] →
    ∃ e obe, 0 < x_held x e ∧ h !! e = Some obe ∧ (e = o ∨ sync_target (data obe) = Some o);
  ob_owned : ∀ ow c ab, data ob = mutex_sync_data ow c ab → c ≠ 0 → 0 < x_held x o;
}.

Record heap_ok (x : xrefs) (h : gmap oid object) : Prop := {
  hp_nonneg : ∀ o, 0 <= x_held x o <= x_ref x o ∧ 0 <= x_handle x o <= x_ref x o;
  hp_object : ∀ o ob, h !! o = Some ob → object_ok x h o ob;
  hp_none : ∀ o, h !! o = None → hrefs h o + x_ref x o = 0;
}.

#[export] Instance heap_ok_proper : Proper ((≡) ==> (=) ==> iff) heap_ok.
Proof.
  assert (∀ x y h, x ≡ y → heap_ok x h → heap_ok y h) as Himp.
  { intros x y h (H1&H2&H3) [Hn Ho Hz]. split.
    - intros o. rewrite <-H1, <-H2, <-H3. auto.
    - intros o ob Hob. destruct (Ho o ob Hob) as [A B C D E F G].
      split; [by rewrite <-H1|done|by rewrite <-H2|done|done| |].
      + intros Hq. destruct (F Hq) as (e & obe & He & ?). exists e, obe. by rewrite <-H3.
      + intros. rewrite <-H3. eauto.
    - intros o Hob. rewrite <-H1. auto. }
  intros x y Hxy h h' <-. split; apply Himp; [done|by symmetry].
Qed.

(** Objects that survive a release keep everything but their counters. *)
Definition same_body (ob ob' : object) : Prop :=
  data ob' = data ob ∧ wait_queue ob' = wait_queue ob ∧ sd ob' = sd ob ∧
  is_permanent ob' = is_permanent ob.

Definition shrinks (h h' : gmap oid object) : Prop :=
  ∀ o ob', h' !! o = Some ob' → ∃ ob, h !! o = Some ob ∧ same_body ob ob'.

Lemma same_body_refl ob : same_body ob ob.
Proof. done. Qed.
Lemma shrinks_refl h : shrinks h h.
Proof. intros o ob H. by exists ob. Qed.
Lemma shrinks_trans h1 h2 h3 : shrinks h1 h2 → shrinks h2 h3 → shrinks h1 h3.
Proof.
  intros H12 H23 o ob3 H3. destruct (H23 o ob3 H3) as (ob2 & H2 & A & B & C & D).
  destruct (H12 o ob2 H2) as (ob1 & H1 & A' & B' & C' & D').
  exists ob1. split; [done|]. split_and!; congruence.
Qed.

Lemma shrinks_disjoint (h h' z : gmap oid object) : shrinks h h' → h ##ₘ z → h' ##ₘ z.
Proof.
  intros Hs Hd. apply map_disjoint_spec. intros o ob1 ob2 H1 H2.
  destruct (Hs o ob1 H1) as (ob & Hob & _). by eapply map_disjoint_spec.
Qed.

(** ** Store updates and the reference sums *)

Lemma hrefs_update h o ob ob' p :
  h !! o = Some ob →
  hrefs (<[o:=ob']> h) p = hrefs h p - occ p (data_targets (data ob)) + occ p (data_targets (data ob')).
Proof. apply (msum_update (λ ob, occ p (data_targets (data ob)))). Qed.

Lemma thandles_update h o ob ob' p :
  h !! o = Some ob →
  thandles (<[o:=ob']> h) p = thandles h p - occ p (handle_targets (data ob)) + occ p (handle_targets (data ob')).
Proof. apply (msum_update (λ ob, occ p (handle_targets (data ob)))). Qed.

Lemma hrefs_same h o ob ob' p :
  h !! o = Some ob → data ob' = data ob → hrefs (<[o:=ob']> h) p = hrefs h p.
Proof. intros Ho Hd. rewrite (hrefs_update h o ob) by done. rewrite Hd. lia. Qed.

Lemma thandles_same h o ob ob' p :
  h !! o = Some ob → data ob' = data ob → thandles (<[o:=ob']> h) p = thandles h p.
Proof. intros Ho Hd. rewrite (thandles_update h o ob) by done. rewrite Hd. lia. Qed.

Lemma hrefs_delete h o ob p :
  h !! o = Some ob → hrefs (delete o h) p = hrefs h p - occ p (data_targets (data ob)).
Proof. apply (msum_delete (λ ob, occ p (data_targets (data ob)))). Qed.

Lemma thandles_delete h o ob p :
  h !! o = Some ob → thandles (delete o h) p = thandles h p - occ p (handle_targets (data ob)).
Proof. apply (msum_delete (λ ob, occ p (handle_targets (data ob)))). Qed.

Lemma hrefs_target h q obq p :
  h !! q = Some obq → p ∈ data_targets (data obq) → 0 < hrefs h p.
Proof.
  intros Hq Hin. assert (occ p (data_targets (data obq)) <= hrefs h p).
  { apply (msum_lookup_le (λ ob, occ p (data_targets (data ob))) h q);
      [intros; apply occ_nonneg|done]. }
  pose proof (occ_pos p _ Hin). lia.
Qed.

Lemma sync_target_in d p : sync_target d = Some p → p ∈ data_targets d.
Proof.
  intros Hs. unfold data_targets. rewrite Hs. apply elem_of_app. right. simpl. by left.
Qed.

(** ** Changing only the counters of one object *)

(** [retag] covers [grab_object], the handle counters and the permanence flag:
    the object keeps its data and queue, and its counters follow the change of
    the outside references. *)
Lemma heap_ok_retag x x' h o ob ob' :
  heap_ok x h → h !! o = Some ob → data ob' = data ob → wait_queue ob' = wait_queue ob →
  (∀ p, p ≠ o → x_ref x' p = x_ref x p ∧ x_handle x' p = x_handle x p) →
  (∀ p, x_held x' p = x_held x p) →
  refcount ob' = refcount ob + (x_ref x' o - x_ref x o) →
  handle_count ob' = handle_count ob + (x_handle x' o - x_handle x o) →
  0 <= x_handle x' o <= x_ref x' o → x_held x o <= x_ref x' o → 0 < refcount ob' →
  heap_ok x' (<[o:=ob']> h).
Proof.
  intros [Hn Ho Hz] Hob Hd Hq Hx Hheld Hr Hh Hrange Hhl Hpos. split.
  - intros p. destruct (decide (p = o)) as [->|Hne]; rewrite Hheld.
    + pose proof (Hn o). lia.
    + destruct (Hx p Hne) as [-> ->]. apply Hn.
  - intros p obp Hp. destruct (decide (p = o)) as [->|Hne].
    + rewrite lookup_insert_eq in Hp. simplify_eq.
      destruct (Ho o ob Hob) as [A B C D E F G]. split.
      * rewrite (hrefs_same h o ob) by done. lia.
      * done.
      * rewrite (thandles_same h o ob) by done. lia.
      * by rewrite Hd.
      * rewrite Hd. intros q Hin. destruct (E q Hin) as (obq & Hq' & Hrk).
        destruct (decide (q = o)) as [->|Hqne].
        { simplify_eq. lia. }
        exists obq. by rewrite lookup_insert_ne.
      * rewrite Hq. intros Hne. destruct (F Hne) as (e & obe & He & Hle & Hor).
        destruct (decide (e = o)) as [->|Hene].
        { simplify_eq. exists o, obp. rewrite Hheld, lookup_insert_eq, Hd. auto. }
        exists e, obe. rewrite Hheld, lookup_insert_ne by done. auto.
      * rewrite Hd, Hheld. apply G.
    + rewrite lookup_insert_ne in Hp by done.
      destruct (Ho p obp Hp) as [A B C D E F G], (Hx p Hne) as [Hxr Hxh]. split; rewrite ?Hxr, ?Hxh.
      * by rewrite (hrefs_same h o ob).
      * done.
      * by rewrite (thandles_same h o ob).
      * done.
      * intros q Hin. destruct (E q Hin) as (obq & Hq' & Hrk).
        destruct (decide (q = o)) as [->|Hqne].
        { simplify_eq. exists ob'. rewrite lookup_insert_eq, Hd. auto. }
        exists obq. by rewrite lookup_insert_ne.
      * intros Hne'. destruct (F Hne') as (e & obe & He & Hle & Hor).
        destruct (decide (e = o)) as [->|Hene].
        { simplify_eq. exists o, ob'. rewrite Hheld, lookup_insert_eq, Hd. auto. }
        exists e, obe. rewrite Hheld, lookup_insert_ne by done. auto.
      * rewrite Hheld. apply G.
  - intros p Hp. destruct (decide (p = o)) as [->|Hne].
    + by rewrite lookup_insert_eq in Hp.
    + rewrite lookup_insert_ne in Hp by done. rewrite (hrefs_same h o ob) by done.
      destruct (Hx p Hne) as [-> _]. auto.
Qed.

(** ** Taking a dying object out of the store *)

Definition x_ok (x : xrefs) : Prop :=
  ∀ o, 0 <= x_held x o <= x_ref x o ∧ 0 <= x_handle x o <= x_ref x o.

(** The references of a dying object become outside references, which its
    [destroy] operation will drop one by one. *)
Definition x_data (d : obj_data) (x : xrefs) : xrefs :=
  XRefs (λ p, x_ref x p + occ p (data_targets d)) (λ p, x_handle x p + occ p (handle_targets d))
    (x_held x).

Lemma occ_handle_targets o d : occ o (handle_targets d) <= occ o (data_targets d).
Proof.
  unfold data_targets. rewrite occ_app. pose proof (occ_nonneg o (option_list (sync_target d))). lia.
Qed.

Lemma thandles_le_hrefs h o : thandles h o <= hrefs h o.
Proof. apply msum_mono. intros. apply occ_handle_targets. Qed.

Lemma x_ok_pin o x : x_ok x → x_ok (pin o x).
Proof. intros Hx p. destruct (Hx p). pose proof (occ_nonneg p [o]). simpl. lia. Qed.

Lemma x_ok_data d x : x_ok x → x_ok (x_data d x).
Proof.
  intros Hx p. destruct (Hx p). pose proof (occ_nonneg p (handle_targets d)).
  pose proof (occ_handle_targets p d). simpl. lia.
Qed.

Lemma occ_self o : occ o [o] = 1.
Proof. by rewrite occ_cons, bool_decide_eq_true_2, occ_nil. Qed.
Lemma occ_other o p : p ≠ o → occ p [o] = 0.
Proof. intros. by rewrite occ_cons, bool_decide_eq_false_2, occ_nil by congruence. Qed.

Lemma heap_ok_kill x h o ob :
  x_ok x → heap_ok (pin o x) h → h !! o = Some ob → refcount ob = 1 →
  heap_ok (x_data (data ob) x) (delete o h) ∧ hrefs h o = 0 ∧ x_ref x o = 0.
Proof.
  intros Hx [Hn Ho Hz] Hob Hone. destruct (Ho o ob Hob) as [A _ _ _ _ _ _]. simpl in A.
  rewrite occ_self in A. pose proof (hrefs_nonneg h o). destruct (Hx o) as [Hheld _].
  assert (hrefs h o = 0) as Hr0 by lia. assert (x_ref x o = 0) as Hx0 by lia.
  split; [|done]. split.
  - apply x_ok_data, Hx.
  - intros p obp [Hne Hp]%lookup_delete_Some.
    destruct (Ho p obp Hp) as [A' B' C' D' E' F' G']. split; simpl in *.
    + rewrite (hrefs_delete h o ob) by done. rewrite occ_other in A' by congruence. lia.
    + done.
    + rewrite (thandles_delete h o ob) by done. lia.
    + done.
    + intros q Hin. destruct (E' q Hin) as (obq & Hq & Hrk).
      exists obq. split; [|done]. rewrite lookup_delete_ne; [done|]. intros <-.
      pose proof (hrefs_target h p obp _ Hp Hin). lia.
    + intros Hq. destruct (F' Hq) as (e & obe & He & Hle & Hor). exists e, obe.
      split_and!; [done| |done]. rewrite lookup_delete_ne; [done|]. intros <-. lia.
    + done.
  - intros p Hp. simpl. rewrite (hrefs_delete h o ob) by done.
    destruct (decide (p = o)) as [->|Hne]; [lia|].
    rewrite lookup_delete_ne in Hp by congruence. specialize (Hz p Hp). simpl in Hz.
    rewrite occ_other in Hz by done. lia.
Qed.

(** ** The parts of the state a release leaves alone *)

Definition same_env (s s' : server) : Prop :=
  threads s' = threads s ∧ procs s' = procs s ∧ global_table s' = global_table s ∧
  current s' = current s ∧ global_error s' = global_error s ∧
  inproc_device_fd s' = inproc_device_fd s ∧ current_time s' = current_time s ∧
  monotonic_time s' = monotonic_time s ∧ wakeups s' = wakeups s ∧ allocs s' = allocs s.

Lemma same_env_refl s : same_env s s.
Proof. done. Qed.
Lemma same_env_trans s1 s2 s3 : same_env s1 s2 → same_env s2 s3 → same_env s1 s3.
Proof. intros (?&?&?&?&?&?&?&?&?&?) (?&?&?&?&?&?&?&?&?&?). split_and!; congruence. Qed.

(** Triples of the primitives. *)
Lemma wp_get_obj o ob (Q : object → server → Prop) s :
  objs s !! o = Some ob → Q ob s → wp (get_obj o) Q s.
Proof. intros Ho HQ. unfold get_obj. wp_steps. by eapply wp_deref. Qed.

Lemma wp_put_obj o ob (Q : unit → server → Prop) s :
  Q tt (set_objs (<[o:=ob]>) s) → wp (put_obj o ob) Q s.
Proof. done. Qed.

Lemma wp_update_type ty f (Q : unit → server → Prop) s :
  (∀ s', objs s' = objs s → same_env s s' → Q tt s') → wp (update_type ty f) Q s.
Proof. intros HQ. by apply HQ. Qed.

Lemma wp_read_slot p a (Q : option oid * Z → server → Prop) s :
  Q (p, a) s → wp (read_slot (Slot p a)) Q s.
Proof. done. Qed.

Lemma same_env_objs f s : same_env s (set_objs f s).
Proof. done. Qed.

Lemma wp_free_object o ob (Q : unit → server → Prop) s :
  objs s !! o = Some ob →
  (∀ s', objs s' = delete o (objs s) → same_env s s' → Q tt s') → wp (free_object o) Q s.
Proof.
  intros Ho HQ. unfold free_object. apply wp_bind, (wp_get_obj o ob); [done|].
  apply wp_bind, wp_update_type. intros s' Hs' He. apply wp_modify, HQ; [|done].
  simpl. by rewrite Hs'.
Qed.

(** The state after a release that dropped the reference [x] no longer counts:
    the store is some [h'] beside the objects [z] that are being destroyed. *)
Definition released (x : xrefs) (h z : gmap oid object) (s s' : server) : Prop :=
  ∃ h', objs s' = h' ∪ z ∧ heap_ok x h' ∧ shrinks h h' ∧ same_env s s'.

(** What a release routine has to do for objects of rank below [n]. *)
Definition release_spec (n : nat) (release : oid → M unit) : Prop :=
  ∀ x h z o ob s,
    objs s = h ∪ z → h ##ₘ z → x_ok x → heap_ok (pin o x) h → h !! o = Some ob →
    (rank (data ob) < n)%nat →
    wp (release o) (λ _, released x h z s) s.

Lemma released_trans x1 x2 h z s s1 s2 :
  released x1 h z s s1 →
  (∀ h1, objs s1 = h1 ∪ z → heap_ok x1 h1 → shrinks h h1 → released x2 h1 z s1 s2) →
  released x2 h z s s2.
Proof.
  intros (h1 & Ho & Hok & Hs & He) H2. destruct (H2 h1 Ho Hok Hs) as (h2 & Ho2 & Hok2 & Hs2 & He2).
  exists h2. split_and!; [done|done|by eapply shrinks_trans|by eapply same_env_trans].
Qed.

(** ** Destroying a handle table *)

Section destroy.
Context (n : nat) (release : oid → M unit) (Hrel : release_spec n release).

(** Dropping a handle drops a reference and a handle. *)
Lemma release_from_handle_ok x h z o ob s :
  objs s = h ∪ z → h ##ₘ z → x_ok x → heap_ok (x_handles [o] x) h → h !! o = Some ob →
  (rank (data ob) < n)%nat →
  wp (release_object_from_handle release o) (λ _, released x h z s) s.
Proof using Hrel.
  intros Hs Hd Hx Hok Hob Hrk. unfold release_object_from_handle.
  assert (objs s !! o = Some ob) as Hso by (rewrite Hs; by apply lookup_union_Some_l).
  destruct (hp_object _ _ Hok o ob Hob) as [A B C _ _ _ _]. simpl in A, C.
  rewrite occ_self in A, C. pose proof (hrefs_nonneg h o). pose proof (thandles_nonneg h o).
  destruct (Hx o) as [[??] [??]].
  apply wp_bind, (wp_get_obj o ob); [done|].
  apply wp_bind, wp_assert. { apply negb_true_iff, Z.eqb_neq. lia. }
  apply wp_bind, wp_update_type. intros s1 Hs1 He1.
  apply wp_bind, wp_put_obj.
  set (ob1 := ob_handle_count (handle_count ob - 1) ob).
  eapply wp_mono.
  { eapply (Hrel x (<[o:=ob1]> h) z o ob1).
    - simpl. rewrite Hs1, Hs. apply insert_union_l.
    - apply map_disjoint_insert_l. split; [|done]. by eapply map_disjoint_Some_l.
    - done.
    - eapply (heap_ok_retag (x_handles [o] x)); simpl; try done; rewrite ?occ_self; try lia.
      intros p Hp. rewrite !occ_other by done. split; [done|lia].
    - apply lookup_insert_eq.
    - done. }
  intros [] s2 (h' & Ho' & Hok' & Hsh & He').
  exists h'. split_and!; [done|done| |].
  - eapply shrinks_trans; [|done]. intros p obp Hp.
    destruct (decide (p = o)) as [->|Hne].
    + rewrite lookup_insert_eq in Hp. simplify_eq. by exists ob.
    + rewrite lookup_insert_ne in Hp by done. by exists obp.
  - eapply same_env_trans; [exact He1|exact He'].
Qed.

Definition targets_from (i : Z) (es : list handle_slot) : list oid :=
  omap slot_target (drop (Z.to_nat i) es).

Lemma targets_from_step i es p a :
  0 <= i → es !! Z.to_nat i = Some (Slot p a) →
  targets_from i es = option_list p ++ targets_from (i + 1) es.
Proof.
  intros Hi He. unfold targets_from. rewrite (drop_S _ _ _ He). simpl.
  replace (Z.to_nat (i + 1)) with (S (Z.to_nat i)) by lia. by destruct p.
Qed.

Lemma x_ok_handles l x : x_ok x → x_ok (x_handles l x).
Proof. intros Hx p. destruct (Hx p). pose proof (occ_nonneg p l). simpl. lia. Qed.

Lemma x_handles_cons p l x : x_handles (p :: l) x ≡ x_handles [p] (x_handles l x).
Proof. split_and!; intros o; simpl; rewrite ?(occ_cons o p l), ?(occ_cons o p []), ?occ_nil; lia. Qed.

Lemma x_handles_nil x : x_handles [] x ≡ x.
Proof. split_and!; intros o; simpl; rewrite ?occ_nil; lia. Qed.

(** The table object [o] is being destroyed: it is beside the live store [h]. *)
Lemma destroy_loop_ok k i x h z o tob t s :
  objs s = h ∪ <[o:=tob]> z → h ##ₘ <[o:=tob]> z → data tob = handle_table_data t →
  0 <= i → (Z.to_nat (ht_last t + 1 - i) <= k)%nat →
  (∀ j, i <= j <= ht_last t → ∃ p a, ht_entries t !! Z.to_nat j = Some (Slot p a)) →
  (∀ j, i <= j → ht_last t < j → targets_from j (ht_entries t) = []) →
  x_ok x → heap_ok (x_handles (targets_from i (ht_entries t)) x) h →
  (∀ p ob, p ∈ targets_from i (ht_entries t) → h !! p = Some ob → (rank (data ob) < n)%nat) →
  wp (handle_table_destroy_loop release o k i)
    (λ _ s', ∃ h' tob', objs s' = h' ∪ <[o:=tob']> z ∧ h' ##ₘ <[o:=tob']> z ∧
               heap_ok x h' ∧ shrinks h h' ∧ same_env s s') s.
Proof using Hrel.
  revert i h tob t s. induction k as [|k IH]; intros i h tob t s Hs Hd Ht Hi Hk Hinit Hrest Hx Hok Hrk.
  all: cbn [handle_table_destroy_loop].
  all: assert (objs s !! o = Some tob) as Hso.
  1,3: rewrite Hs, lookup_union_r by (eapply map_disjoint_Some_r; [done|apply lookup_insert_eq]);
    apply lookup_insert_eq.
  all: apply wp_bind; unfold get_table; apply wp_bind, (wp_get_obj o tob); [done|]; rewrite Ht; wp_steps.
  all: destruct (Z.ltb_spec (ht_last t) i) as [Hlt|Hge].
  1,3: wp_steps; exists h, tob; split_and!; try done;
    [by rewrite Hrest, x_handles_nil in Hok by lia|apply shrinks_refl].
  { lia. }
  destruct (Hinit i ltac:(lia)) as (p & a & Hent).
  rewrite (targets_from_step i _ p a Hi Hent) in Hok, Hrk.
  pose proof (lookup_lt_Some _ _ _ Hent) as Hlen.
  apply wp_bind, (wp_arr_get _ _ (Slot p a)); [done|done|].
  apply wp_bind, wp_read_slot, wp_bind, wp_arr_set; [lia|].
  unfold put_table. apply wp_bind, wp_bind, (wp_get_obj o tob); [done|]. apply wp_put_obj.
  set (t' := HandleTable (ht_process t) (ht_count t) (ht_last t) (ht_free t)
               (<[Z.to_nat i:=Slot None a]> (ht_entries t))).
  set (tob' := ob_data (handle_table_data t') tob).
  assert (∀ j, i < j → targets_from j (ht_entries t') = targets_from j (ht_entries t)) as Htf.
  { intros j Hj. unfold targets_from. simpl. by rewrite drop_insert_lt by lia. }
  assert (Hinit' : ∀ j, i + 1 <= j <= ht_last t' →
            ∃ p a, ht_entries t' !! Z.to_nat j = Some (Slot p a)).
  { intros j Hj. simpl. rewrite list_lookup_insert_ne by lia. apply Hinit. simpl in Hj. lia. }
  set (s1 := set_objs (<[o:=tob']>) s).
  assert (objs s1 = h ∪ <[o:=tob']> z) as Hs1.
  { simpl. rewrite Hs, insert_union_r by (eapply map_disjoint_Some_r; [done|apply lookup_insert_eq]).
    by rewrite insert_insert_eq. }
  assert (h ##ₘ <[o:=tob']> z) as Hd1.
  { apply map_disjoint_insert_r in Hd as [Hno Hd]. by apply map_disjoint_insert_r. }
  assert (Hgo : ∀ h1 s2, objs s2 = h1 ∪ <[o:=tob']> z →
    heap_ok (x_handles (targets_from (i + 1) (ht_entries t)) x) h1 → shrinks h h1 → same_env s s2 →
    wp (handle_table_destroy_loop release o k (i + 1))
      (λ _ s', ∃ h' tob', objs s' = h' ∪ <[o:=tob']> z ∧ h' ##ₘ <[o:=tob']> z ∧
               heap_ok x h' ∧ shrinks h h' ∧ same_env s s') s2).
  { intros h1 s2 Hs2 Hok1 Hsh He.
    assert (h1 ##ₘ <[o:=tob']> z) as Hd1' by by eapply shrinks_disjoint.
    eapply wp_mono.
    - apply (IH (i + 1) h1 tob' t'); try done; simpl; [lia|lia|..].
      + intros. rewrite Htf by lia. apply Hrest; lia.
      + by rewrite Htf by lia.
      + rewrite Htf by lia. intros q obq Hin Hq.
        destruct (Hsh q obq Hq) as (obq0 & Hq0 & -> & _). eapply Hrk; [|done].
        apply elem_of_app. by right.
    - intros [] s3 (h3 & tob3 & ? & ? & ? & ? & ?). exists h3, tob3.
      split_and!; [done..|by eapply shrinks_trans|by eapply same_env_trans]. }
  cbn [fst]. destruct p as [p|]; apply wp_bind.
  - simpl in Hok, Hrk. assert (∃ obp, h !! p = Some obp) as [obp Hp].
    { destruct (h !! p) as [obp|] eqn:Hp; [by eexists|]. exfalso.
      pose proof (hp_none _ _ Hok p Hp) as Hz. simpl in Hz. rewrite occ_cons in Hz.
      rewrite bool_decide_eq_true_2 in Hz by done.
      pose proof (hrefs_nonneg h p). pose proof (occ_nonneg p (targets_from (i + 1) (ht_entries t))).
      destruct (Hx p). lia. }
    eapply wp_mono.
    + eapply (release_from_handle_ok (x_handles (targets_from (i + 1) (ht_entries t)) x) h).
      * exact Hs1.
      * done.
      * by apply x_ok_handles.
      * by rewrite <-x_handles_cons.
      * exact Hp.
      * eapply Hrk; [|done]. by left.
    + intros [] s2 (h1 & Hs2 & Hok1 & Hsh & He). by apply (Hgo h1).
  - apply wp_ret. apply (Hgo h); try done. apply shrinks_refl.
Qed.
End destroy.

(** ** Releasing an object *)

Lemma x_data_sync d x p :
  handle_targets d = [] → sync_target d = Some p → x_data d x ≡ pin p x.
Proof.
  intros Hh Hs. unfold x_data, data_targets. rewrite Hh, Hs. split_and!; intros o; simpl;
    rewrite ?occ_nil; lia.
Qed.

Lemma x_data_leaf d x : handle_targets d = [] → sync_target d = None → x_data d x ≡ x.
Proof.
  intros Hh Hs. unfold x_data, data_targets. rewrite Hh, Hs. split_and!; intros o; simpl;
    rewrite ?occ_nil; lia.
Qed.

Lemma x_data_table t x : x_data (handle_table_data t) x ≡ x_handles (table_targets t) x.
Proof.
  unfold x_data, data_targets. simpl. split_and!; intros o; simpl; rewrite ?app_nil_r; lia.
Qed.

Lemma targets_from_end j t : table_ok t → ht_last t < j → 0 <= j → targets_from j (ht_entries t) = [].
Proof.
  intros Ht Hj Hj0. unfold targets_from.
  assert (∀ sl, sl ∈ drop (Z.to_nat j) (ht_entries t) → slot_target sl = None) as Hnone.
  { intros sl [k Hk]%list_elem_of_lookup. rewrite lookup_drop in Hk.
    destruct sl as [|p a]; [done|]. simpl.
    apply (tb_rest t Ht (Z.of_nat (Z.to_nat j + k)) p a); [lia|]. by rewrite Nat2Z.id. }
  induction (drop (Z.to_nat j) (ht_entries t)) as [|sl l IH]; [done|].
  simpl. rewrite Hnone by (by left). apply IH. intros; apply Hnone. by right.
Qed.

(** The [destroy] operation of an object that has been taken out of the live
    store drops all the references it holds. *)
Lemma destroy_ok n release x h z o ob s :
  release_spec n release → (rank (data ob) <= n)%nat →
  objs s = h ∪ <[o:=ob]> z → h ##ₘ <[o:=ob]> z → x_ok x → heap_ok (x_data (data ob) x) h →
  data_ok (data ob) → (∀ ow c ab, data ob = mutex_sync_data ow c ab → c = 0) →
  (∀ p, p ∈ data_targets (data ob) → ∃ obp, h !! p = Some obp ∧ (rank (data obp) < rank (data ob))%nat) →
  wp (ops_destroy release o)
    (λ _ s', ∃ h' ob', objs s' = h' ∪ <[o:=ob']> z ∧ h' ##ₘ <[o:=ob']> z ∧
               heap_ok x h' ∧ shrinks h h' ∧ same_env s s') s.
Proof.
  intros Hrel Hrk Hs Hd Hx Hok Hdok Hmutex Htg. unfold ops_destroy.
  assert (objs s !! o = Some ob) as Hso.
  { rewrite Hs, lookup_union_r by (eapply map_disjoint_Some_r; [done|apply lookup_insert_eq]).
    apply lookup_insert_eq. }
  apply wp_bind, (wp_get_obj o ob); [done|].
  assert (Hleaf : handle_targets (data ob) = [] → sync_target (data ob) = None →
    ∃ h' ob', objs s = h' ∪ <[o:=ob']> z ∧ h' ##ₘ <[o:=ob']> z ∧
               heap_ok x h' ∧ shrinks h h' ∧ same_env s s).
  { intros Hh Hsy. exists h, ob. rewrite x_data_leaf in Hok by done.
    split_and!; [done..|apply shrinks_refl|done]. }
  assert (Hsync : ∀ p, handle_targets (data ob) = [] → sync_target (data ob) = Some p →
    wp (release p) (λ _ s', ∃ h' ob', objs s' = h' ∪ <[o:=ob']> z ∧ h' ##ₘ <[o:=ob']> z ∧
               heap_ok x h' ∧ shrinks h h' ∧ same_env s s') s).
  { intros p Hh Hsy. destruct (Htg p (sync_target_in _ _ Hsy)) as (obp & Hp & Hpr).
    eapply wp_mono.
    - apply (Hrel x h (<[o:=ob]> z) p obp); try done; [|lia]. by rewrite <-x_data_sync.
    - intros [] s' (h' & ? & ? & ? & ?). exists h', ob.
      split_and!; [done|by eapply shrinks_disjoint|done..]. }
  destruct (data ob) as [t|? ?|[p|]| |? ?|[p|]|ow c ab|[p|]|? ?|?|?] eqn:Hdata;
    try (apply wp_ret; apply Hleaf; reflexivity); try (apply Hsync; reflexivity).
  - unfold handle_table_destroy, get_table. apply wp_bind, wp_bind, (wp_get_obj o ob); [done|].
    rewrite Hdata. wp_steps. simpl in Hdok.
    eapply wp_mono; [eapply (destroy_loop_ok n release Hrel _ 0 x h z o ob t)|]; try done.
    + pose proof (tb_count t Hdok). pose proof (tb_last t Hdok). lia.
    + intros j Hj. destruct (tb_init t Hdok j ltac:(lia)) as (p & a & ? & _). eauto.
    + intros. apply targets_from_end; [done|lia|lia].
    + by rewrite x_data_table in Hok.
    + intros p obp Hin Hp. destruct (Htg p) as (obp' & Hp' & Hr).
      { unfold data_targets. simpl. by rewrite app_nil_r. }
      simplify_eq. simpl in *. lia.
  - apply wp_assert; [|apply Hleaf; reflexivity]. apply Z.eqb_eq. by eapply Hmutex.
Qed.

(** Releasing a reference is safe in every state that satisfies the invariant. *)
Theorem release_depth_ok n : release_spec n (release_object_depth n).
Proof.
  induction n as [|n IH]; intros x h z o ob s Hs Hd Hx Hok Hob Hrk; [lia|].
  cbn [release_object_depth].
  assert (objs s !! o = Some ob) as Hso by (rewrite Hs; by apply lookup_union_Some_l).
  destruct (hp_object _ _ Hok o ob Hob) as [A B C D E F G].
  assert (z !! o = None) as Hzo by by eapply map_disjoint_Some_l.
  apply wp_bind, (wp_get_obj o ob); [done|].
  apply wp_bind, wp_assert; [apply negb_true_iff, Z.eqb_neq; lia|].
  apply wp_bind, wp_put_obj.
  set (ob1 := ob_refcount (refcount ob - 1) ob).
  destruct (Z.eqb_spec (refcount ob - 1) 0) as [Hz|Hz].
  - destruct (heap_ok_kill x h o ob Hx Hok Hob ltac:(lia)) as (Hok2 & Hr0 & Hx0).
    destruct (Hx o) as [Hheld Hhand]. pose proof (thandles_nonneg h o).
    pose proof (thandles_le_hrefs h o).
    apply wp_bind, wp_assert. { apply Z.eqb_eq. simpl in C. lia. }
    apply wp_bind, wp_assert.
    { destruct (wait_queue ob) eqn:Hq; [done|]. exfalso.
      destruct F as (e & obe & He & Hle & [->|Hsy]); [done| |].
      - simpl in He. lia.
      - pose proof (hrefs_target h e obe o Hle (sync_target_in _ _ Hsy)). lia. }
    set (s1 := set_objs (<[o:=ob1]>) s).
    assert (objs s1 = delete o h ∪ <[o:=ob1]> z) as Hs1.
    { simpl. rewrite Hs. rewrite <-(insert_union_r (delete o h) z) by apply lookup_delete_eq.
      rewrite insert_union_l, <-insert_delete_eq, <-insert_union_l. done. }
    assert (delete o h ##ₘ <[o:=ob1]> z) as Hd1.
    { apply map_disjoint_insert_r. split; [apply lookup_delete_eq|]. by apply map_disjoint_delete_l. }
    apply wp_bind. eapply wp_mono.
    + apply (destroy_ok n (release_object_depth n) x (delete o h) z o ob1 s1 IH); try done.
      * simpl. lia.
      * intros ow c ab Hdt. destruct (decide (c = 0)) as [|Hne]; [done|].
        specialize (G ow c ab Hdt Hne). simpl in G. lia.
      * intros p Hin. destruct (E p Hin) as (obp & Hp & Hpr). exists obp. split; [|done].
        rewrite lookup_delete_ne; [done|]. intros <-. simplify_eq. lia.
    + intros [] s2 (h' & ob' & Hs2 & Hd2 & Hok' & Hsh & He).
      apply map_disjoint_insert_r in Hd2 as [Hno Hd2].
      apply (wp_free_object o ob').
      { rewrite Hs2, lookup_union_r by done. apply lookup_insert_eq. }
      intros s3 Hs3 He3. exists h'. split_and!; [|done| |].
      * rewrite Hs3, Hs2, delete_union, delete_insert_id, delete_id by done. done.
      * eapply shrinks_trans; [|done]. intros p obp [_ Hp]%lookup_delete_Some. by exists obp.
      * eapply same_env_trans; [exact He|exact He3].
  - apply wp_ret. exists (<[o:=ob1]> h). split_and!.
    + simpl. rewrite Hs. apply insert_union_l.
    + destruct (Hx o) as [[??] [??]]. simpl in A. rewrite occ_self in A.
      eapply (heap_ok_retag (pin o x)); simpl; try done; rewrite ?occ_self; try lia.
      intros p Hp. rewrite occ_other by done. split; [lia|done].
    + intros p obp Hp. destruct (decide (p = o)) as [->|Hne].
      * rewrite lookup_insert_eq in Hp. simplify_eq. by exists ob.
      * rewrite lookup_insert_ne in Hp by done. by exists obp.
    + apply same_env_objs.
Qed.

(** The form the rest of the development uses: no object is being destroyed. *)
Lemma release_object_ok x o ob s :
  x_ok x → heap_ok (pin o x) (objs s) → objs s !! o = Some ob →
  wp (release_object o) (λ _ s', heap_ok x (objs s') ∧ shrinks (objs s) (objs s') ∧ same_env s s') s.
Proof.
  intros Hx Hok Hob. eapply wp_mono.
  - apply (release_depth_ok release_depth x (objs s) ∅ o ob); try done.
    + by rewrite map_union_empty.
    + apply map_disjoint_empty_r.
    + unfold release_depth. destruct (data ob); simpl; lia.
  - intros [] s' (h' & Hs' & ?). rewrite map_union_empty in Hs'. subst h'. done.
Qed.
