(* ===== verification/Handle.v ===== *)
(** * Handle tables (server/handle.c)

    Every operation of the per-process and global handle tables: allocation,
    growth and shrinking, lookup, closing, flags, duplication, inheritance by a
    child process, and the request handlers on top of them.  Tables are objects
    of the store, so an operation here changes the counters of the objects it
    hands out ([Object.v]); invariants and theorems are in [HandleInv.v]. *)

From stdpp Require Import base list gmap fin_maps.
From S2P Require Import Prelude Access Object.

Open Scope Z_scope.
Open Scope server_scope.

(** ** Constants *)

Definition STATUS_INVALID_HANDLE : Z := 0xC0000008.
Definition STATUS_OBJECT_TYPE_MISMATCH : Z := 0xC0000024.
Definition STATUS_INSUFFICIENT_RESOURCES : Z := 0xC000009A.
Definition STATUS_PROCESS_IS_TERMINATING : Z := 0xC000010A.
Definition STATUS_NOT_SAME_OBJECT : Z := 0xC00001AC.
Definition STATUS_HANDLE_NOT_CLOSABLE : Z := 0xC0000235.

Definition RESERVED_SHIFT : Z := 26.
Definition RESERVED_INHERIT : Z := Z.shiftl 1 RESERVED_SHIFT.
Definition RESERVED_CLOSE_PROTECT : Z := Z.shiftl 2 RESERVED_SHIFT.
Definition RESERVED_ALL : Z := Z.lor RESERVED_INHERIT RESERVED_CLOSE_PROTECT.

Definition MIN_HANDLE_ENTRIES : Z := 32.
Definition MAX_HANDLE_ENTRIES : Z := 0x00ffffff.
Definition HANDLE_OBFUSCATOR : Z := 0x544a4def.

Definition OBJ_INHERIT : Z := 2.
Definition DUPLICATE_CLOSE_SOURCE : Z := 1.
Definition DUPLICATE_SAME_ACCESS : Z := 2.
Definition DUPLICATE_SAME_ATTRIBUTES : Z := 4.
Definition DUPLICATE_MAKE_GLOBAL : Z := 0x80000000.
Definition PROCESS_DUP_HANDLE : Z := 0x0040.
Definition DELETE : Z := 0x00010000.

(** The [process_ops] table, one of the types this development does not open. *)
Definition process_ops : ops := opaque_ops 1.

(** ** Handle values *)

Definition handle_to_index (handle : Z) : Z := Z.shiftr handle 2 - 1.

Definition handle_is_global (handle : Z) : bool :=
  Z.lxor handle HANDLE_OBFUSCATOR <=? Z.shiftl MAX_HANDLE_ENTRIES 2.

Definition handle_local_to_global (handle : Z) : Z :=
  if handle =? 0 then 0 else Z.lxor handle HANDLE_OBFUSCATOR.

Definition handle_global_to_local (handle : Z) : Z := Z.lxor handle HANDLE_OBFUSCATOR.

(** ** Access rights of an object *)

Definition EVENT_ALL_ACCESS : Z := Z.lor STANDARD_RIGHTS_REQUIRED (Z.lor SYNCHRONIZE 3).
Definition SEMAPHORE_ALL_ACCESS : Z := EVENT_ALL_ACCESS.
Definition MUTANT_ALL_ACCESS : Z := Z.lor STANDARD_RIGHTS_REQUIRED (Z.lor SYNCHRONIZE 1).
Definition KEYEDEVENT_ALL_ACCESS : Z := Z.lor STANDARD_RIGHTS_REQUIRED 3.
Definition TOKEN_ALL_ACCESS : Z := Z.lor STANDARD_RIGHTS_REQUIRED 0x1ff.

(** The [mapping] of each type descriptor. *)
Definition type_mapping (ob : object) : generic_map :=
  match data ob with
  | event_data _ =>
      GenericMap (Z.lor STANDARD_RIGHTS_READ 1) (Z.lor STANDARD_RIGHTS_WRITE 2)
        (Z.lor STANDARD_RIGHTS_EXECUTE SYNCHRONIZE) EVENT_ALL_ACCESS
  | semaphore_data _ =>
      GenericMap (Z.lor STANDARD_RIGHTS_READ 1) (Z.lor STANDARD_RIGHTS_WRITE 2)
        (Z.lor STANDARD_RIGHTS_EXECUTE SYNCHRONIZE) SEMAPHORE_ALL_ACCESS
  | mutex_data _ =>
      GenericMap (Z.lor STANDARD_RIGHTS_READ 1) STANDARD_RIGHTS_WRITE
        (Z.lor STANDARD_RIGHTS_EXECUTE SYNCHRONIZE) MUTANT_ALL_ACCESS
  | keyed_event_data =>
      GenericMap (Z.lor STANDARD_RIGHTS_READ 1) (Z.lor STANDARD_RIGHTS_WRITE 2)
        STANDARD_RIGHTS_EXECUTE KEYEDEVENT_ALL_ACCESS
  | token_data _ =>
      GenericMap (Z.lor STANDARD_RIGHTS_READ (Z.lor 0x10 (Z.lor 8 2)))
        (Z.lor STANDARD_RIGHTS_WRITE (Z.lor 0x100 (Z.lor 0x80 (Z.lor 0x40 0x20))))
        (Z.lor STANDARD_RIGHTS_EXECUTE (Z.lor 4 1)) TOKEN_ALL_ACCESS
  | opaque_data v => op_mapping v
  | _ => GenericMap STANDARD_RIGHTS_READ STANDARD_RIGHTS_WRITE STANDARD_RIGHTS_EXECUTE
           STANDARD_RIGHTS_REQUIRED
  end.

Definition map_obj_access (ob : object) (access : Z) : Z := map_access access (type_mapping ob).

(** ** The current thread *)

Definition get_current : M thread :=
  s <- get;
  match current s with
  | Some t => deref (threads s !! t)
  | None => fail NullDeref
  end.

Definition get_process (p : pid) : M process := s <- get; deref (procs s !! p).

Definition current_process : M pid := th <- get_current; ret (t_process th).

(** [check_object_access] (server/token.c): the access the token gets on the
    object, or [None] with [STATUS_ACCESS_DENIED]. *)
Definition check_object_access (tok : option oid) (o : oid) (access : Z) : M (option Z) :=
  ob <- get_obj o;
  tok <- match tok with
         | Some t => ret (Some t)
         | None =>
             th <- get_current;
             match t_token th with
             | Some t => ret (Some t)
             | None => p <- get_process (t_process th); ret (p_token p)
             end
         end;
  let all := map_obj_access ob GENERIC_ALL in
  match sd ob with
  | None => ret (Some (if has access MAXIMUM_ALLOWED then all else access))
  | Some d =>
      t <- deref tok;
      tob <- get_obj t;
      match data tob with
      | token_data tk =>
          let mapping := GenericMap (map_obj_access ob GENERIC_READ) (map_obj_access ob GENERIC_WRITE)
                           (map_obj_access ob GENERIC_EXECUTE) all in
          match check_access tk (Some d) mapping access with
          | Some a => ret (Some a)
          | None => set_error STATUS_ACCESS_DENIED ;; ret None
          end
      | _ => fail AssertFailed
      end
  end.

(** ** Counting handles *)

Definition grab_object_for_handle (o : oid) : M oid :=
  ob <- get_obj o;
  put_obj o (ob_handle_count (w32 (handle_count ob + 1)) ob) ;;
  update_type (ops_type (obj_ops ob)) (λ c,
    let n := w32 (type_handle_count c + 1) in
    TypeCounts (obj_count c) n (obj_max c) (Z.max (handle_max c) n)) ;;
  grab_object o.

(** ** Tables *)

Definition close_process_handles (p : pid) : M unit :=
  pr <- get_process p;
  modify (set_procs (<[p := Process (p_id pr) None (p_token pr) (p_suspend pr)]>)) ;;
  match p_handles pr with Some t => release_object t | None => ret tt end.

Definition alloc_handle_table (p : option pid) (count : Z) : M (option oid) :=
  let count := if count <? MIN_HANDLE_ENTRIES then MIN_HANDLE_ENTRIES else count in
  o <- alloc_object (handle_table_data (HandleTable p count (-1) 0 []));
  match o with
  | None => ret None
  | Some o =>
      ok <- mem_alloc;
      if ok then
        put_table o (HandleTable p count (-1) 0 (replicate (Z.to_nat count) Uninit)) ;;
        ret (Some o)
      else release_object o ;; ret None
  end.

Definition grow_handle_table (to : oid) : M bool :=
  t <- get_table to;
  let count := Z.min (ht_count t * 2) MAX_HANDLE_ENTRIES in
  if count =? ht_count t then set_error STATUS_INSUFFICIENT_RESOURCES ;; ret false
  else
    ok <- alloc_ok;
    if ok then
      put_table to (HandleTable (ht_process t) count (ht_last t) (ht_free t)
        (ht_entries t ++ replicate (Z.to_nat (count - ht_count t)) Uninit)) ;;
      ret true
    else set_error STATUS_INSUFFICIENT_RESOURCES ;; ret false.

(** The scan of [alloc_entry]: the index it stops at, and whether it found a
    free entry there. *)
Fixpoint find_free_entry (t : handle_table) (n : nat) (i : Z) : M (Z * bool) :=
  if ht_last t <? i then ret (i, false)
  else match n with
  | O => fail OutOfFuel
  | S n =>
      sl <- arr_get (ht_entries t) i;
      e <- read_slot sl;
      match fst e with
      | None => ret (i, true)
      | Some _ => find_free_entry t n (i + 1)
      end
  end.

(** Storing the entry found: the code from the [found] label on. *)
Definition store_entry (to : oid) (i : Z) (o : oid) (access : Z) : M Z :=
  t <- get_table to;
  put_table to (HandleTable (ht_process t) (ht_count t) (ht_last t) (i + 1) (ht_entries t)) ;;
  p <- grab_object_for_handle o;
  t <- get_table to;
  es <- arr_set (ht_entries t) i (Slot (Some p) access);
  put_table to (HandleTable (ht_process t) (ht_count t) (ht_last t) (ht_free t) es) ;;
  ret (index_to_handle i).

Definition alloc_entry (to : oid) (o : oid) (access : Z) : M Z :=
  t <- get_table to;
  r <- find_free_entry t (length (ht_entries t)) (ht_free t);
  let '(i, found) := r in
  if found then store_entry to i o access
  else
    ok <- (if ht_count t <=? i then grow_handle_table to else ret true);
    if negb ok then ret 0
    else
      t <- get_table to;
      put_table to (HandleTable (ht_process t) (ht_count t) i (ht_free t) (ht_entries t)) ;;
      store_entry to i o access.

Definition alloc_handle_entry (p : pid) (o : oid) (access attr : Z) : M Z :=
  assert (negb (has access RESERVED_ALL)) ;;
  let access := if has attr OBJ_INHERIT then Z.lor access RESERVED_INHERIT else access in
  pr <- get_process p;
  match p_handles pr with
  | None => set_error STATUS_PROCESS_IS_TERMINATING ;; ret 0
  | Some t => alloc_entry t o access
  end.

Definition alloc_handle_no_access_check (p : pid) (o : oid) (access attr : Z) : M Z :=
  ob <- get_obj o;
  let access := if has access MAXIMUM_ALLOWED then GENERIC_ALL else access in
  let access := Z.land (map_obj_access ob access) (not32 RESERVED_ALL) in
  alloc_handle_entry p o access attr.

Definition alloc_handle (p : pid) (o : oid) (access attr : Z) : M Z :=
  ob <- get_obj o;
  let access := Z.land (map_obj_access ob access) (not32 RESERVED_ALL) in
  if access =? 0 then set_error STATUS_ACCESS_DENIED ;; ret 0
  else
    r <- check_object_access None o access;
    match r with
    | None => ret 0
    | Some access => alloc_handle_entry p o access attr
    end.

Definition alloc_global_handle_no_access_check (o : oid) (access : Z) : M Z :=
  s <- get;
  t <- match global_table s with
       | Some t => ret (Some t)
       | None =>
           t <- alloc_handle_table None 0;
           match t with
           | None => ret None
           | Some t => modify (set_global_table (Some t)) ;; make_object_permanent t ;; ret (Some t)
           end
       end;
  match t with
  | None => ret 0
  | Some t => h <- alloc_entry t o access; ret (handle_local_to_global h)
  end.

Definition alloc_global_handle (o : oid) (access : Z) : M Z :=
  if access =? 0 then alloc_global_handle_no_access_check o access
  else
    r <- check_object_access None o access;
    match r with
    | None => ret 0
    | Some access => alloc_global_handle_no_access_check o access
    end.

(** ** Lookup *)

(** [get_handle]: the table and index of a valid handle with the entry's
    contents.  The pointer the C function returns is this position. *)
Definition get_handle (p : option pid) (handle : Z) : M (option (oid * Z * oid * Z)) :=
  pr <- match p with Some p => get_process p | None => fail NullDeref end;
  s <- get;
  let '(handle, table) :=
    if handle_is_global handle then (handle_global_to_local handle, global_table s)
    else (handle, p_handles pr) in
  match table with
  | None => ret None
  | Some to =>
      t <- get_table to;
      let index := handle_to_index handle in
      if index <? 0 then ret None
      else if ht_last t <? index then ret None
      else
        sl <- arr_get (ht_entries t) index;
        e <- read_slot sl;
        match fst e with
        | None => ret None
        | Some o => ret (Some (to, index, o, snd e))
        end
  end.

(** The pseudo-handles of the current thread and process. *)
Definition get_magic_handle (handle : Z) : M (option oid) :=
  if handle =? 0xfffffffa then
    th <- get_current;
    match t_token th with
    | Some t => ret (Some t)
    | None => p <- get_process (t_process th); ret (p_token p)
    end
  else if handle =? 0xfffffffb then th <- get_current; ret (t_token th)
  else if handle =? 0xfffffffc then
    th <- get_current; p <- get_process (t_process th); ret (p_token p)
  else if handle =? 0xfffffffe then
    s <- get; ret (current s)
  else if (handle =? 0x7fffffff) || (handle =? 0xffffffff) then
    p <- current_process; ret (Some p)
  else ret None.

Definition get_handle_obj (p : option pid) (handle access : Z) (want : option ops) : M (option oid) :=
  magic <- get_magic_handle handle;
  let mismatch ob := match want with Some w => negb (bool_decide (obj_ops ob = w)) | None => false end in
  match magic with
  | None =>
      e <- get_handle p handle;
      match e with
      | None => set_error STATUS_INVALID_HANDLE ;; ret None
      | Some (_, _, o, entry_access) =>
          ob <- get_obj o;
          if mismatch ob then set_error STATUS_OBJECT_TYPE_MISMATCH ;; ret None
          else if negb (Z.land entry_access access =? access) then
            set_error STATUS_ACCESS_DENIED ;; ret None
          else o <- grab_object o; ret (Some o)
      end
  | Some o =>
      ob <- get_obj o;
      if mismatch ob then set_error STATUS_OBJECT_TYPE_MISMATCH ;; ret None
      else o <- grab_object o; ret (Some o)
  end.

Definition get_handle_access (p : pid) (handle : Z) : M Z :=
  magic <- get_magic_handle handle;
  match magic with
  | Some _ => ret (not32 RESERVED_ALL)
  | None =>
      e <- get_handle (Some p) handle;
      match e with
      | None => ret 0
      | Some (_, _, _, a) => ret (Z.land a (not32 RESERVED_ALL))
      end
  end.

(** ** Shrinking and closing *)

(** The loop of [shrink_handle_table]: lower [last] to the highest used entry. *)
Fixpoint trim_last (es : list handle_slot) (n : nat) (last : Z) : M Z :=
  if last <? 0 then ret last
  else match n with
  | O => fail OutOfFuel
  | S n =>
      sl <- arr_get es last;
      e <- read_slot sl;
      match fst e with Some _ => ret last | None => trim_last es n (last - 1) end
  end.

Definition shrink_handle_table (to : oid) : M unit :=
  t <- get_table to;
  last <- trim_last (ht_entries t) (length (ht_entries t)) (ht_last t);
  let count := ht_count t in
  put_table to (HandleTable (ht_process t) count last (ht_free t) (ht_entries t)) ;;
  if count / 4 <=? last then ret tt
  else if count <? MIN_HANDLE_ENTRIES * 2 then ret tt
  else
    let count := count / 2 in
    ok <- alloc_ok;
    if ok then
      put_table to (HandleTable (ht_process t) count last (ht_free t)
                      (take (Z.to_nat count) (ht_entries t)))
    else ret tt.

(** [close_handle].  As in the source, the index that is cleared is computed
    from the handle as given, before a global handle is translated. *)
Definition close_handle (p : pid) (handle : Z) : M Z :=
  let index := handle_to_index handle in
  e <- get_handle (Some p) handle;
  match e with
  | None => ret STATUS_INVALID_HANDLE
  | Some (_, _, o, access) =>
      if has access RESERVED_CLOSE_PROTECT then ret STATUS_HANDLE_NOT_CLOSABLE
      else
        ob <- get_obj o;
        if match ops_close_handle ob with Some f => negb (f p handle) | None => false end
        then ret STATUS_HANDLE_NOT_CLOSABLE
        else
          s <- get;
          pr <- get_process p;
          to <- deref (if handle_is_global handle then global_table s else p_handles pr);
          t <- get_table to;
          sl <- arr_get (ht_entries t) index;
          es <- arr_set (ht_entries t) index
                  (match sl with Slot _ a => Slot None a | Uninit => Slot None 0 end);
          put_table to (HandleTable (ht_process t) (ht_count t) (ht_last t)
            (if index <? ht_free t then index else ht_free t) es) ;;
          (if index =? ht_last t then shrink_handle_table to else ret tt) ;;
          release_object_from_handle release_object o ;;
          ret STATUS_SUCCESS
  end.

(** ** Inheritance *)

Definition inherit_handle (parent : pid) (handle : Z) (to : oid) : M unit :=
  src <- get_handle (Some parent) handle;
  match src with
  | None => ret tt
  | Some (_, _, o, access) =>
      if negb (has access RESERVED_INHERIT) then ret tt
      else
        let index := handle_to_index handle in
        t <- get_table to;
        sl <- arr_get (ht_entries t) index;
        e <- read_slot sl;
        match fst e with
        | Some _ => ret tt
        | None =>
            o <- grab_object_for_handle o;
            t <- get_table to;
            es <- arr_set (ht_entries t) index (Slot (Some o) access);
            put_table to (HandleTable (ht_process t) (ht_count t) (Z.max (ht_last t) index)
                            (ht_free t) es)
        end
  end.

Fixpoint inherit_handles (parent : pid) (handles : list Z) (to : oid) : M unit :=
  match handles with
  | [] => ret tt
  | h :: handles => inherit_handle parent h to ;; inherit_handles parent handles to
  end.

(** The loop over the copied entries: an inheritable entry keeps its object,
    with one more handle on it, and any other entry is cleared. *)
Fixpoint inherit_entries (es : list handle_slot) : M (list handle_slot) :=
  match es with
  | [] => ret []
  | sl :: es =>
      e <- read_slot sl;
      sl <- match fst e with
            | None => ret (Slot None (snd e))
            | Some o =>
                if has (snd e) RESERVED_INHERIT
                then o <- grab_object_for_handle o; ret (Slot (Some o) (snd e))
                else ret (Slot None (snd e))
            end;
      es <- inherit_entries es;
      ret (sl :: es)
  end.

(** [handles = Some l] is the explicit list of handles to inherit. *)
Definition copy_handle_table (p : pid) (parent : pid) (handles : option (list Z))
    (std_handles : list Z) : M (option oid) :=
  ppr <- get_process parent;
  pto <- match p_handles ppr with Some t => ret t | None => fail AssertFailed end;
  pt <- get_table pto;
  to <- alloc_handle_table (Some p) (ht_count pt);
  match to with
  | None => ret None
  | Some to =>
      match handles with
      | Some handles =>
          t <- get_table to;
          put_table to (HandleTable (ht_process t) (ht_count t) (ht_last t) (ht_free t)
            (replicate (Z.to_nat (ht_count pt)) (Slot None 0)
             ++ drop (Z.to_nat (ht_count pt)) (ht_entries t))) ;;
          inherit_handles parent handles to ;;
          inherit_handles parent std_handles to
      | None =>
          if 0 <=? ht_last pt then
            es <- inherit_entries (take (Z.to_nat (ht_last pt + 1)) (ht_entries pt));
            t <- get_table to;
            put_table to (HandleTable (ht_process t) (ht_count t) (ht_last pt) (ht_free t)
              (es ++ drop (Z.to_nat (ht_last pt + 1)) (ht_entries t)))
          else
            t <- get_table to;
            put_table to (HandleTable (ht_process t) (ht_count t) (ht_last pt) (ht_free t)
              (ht_entries t))
      end ;;
      shrink_handle_table to ;;
      ret (Some to)
  end.

(** ** Flags *)

(** The flags returned, [-1] on error. *)
Definition set_handle_flags (p : option pid) (handle mask flags : Z) : M Z :=
  magic <- get_magic_handle handle;
  match magic with
  | Some _ => if negb (mask =? 0) then set_error STATUS_ACCESS_DENIED ;; ret 0 else ret 0
  | None =>
      e <- get_handle p handle;
      match e with
      | None => set_error STATUS_INVALID_HANDLE ;; ret (-1)
      | Some (to, index, o, old_access) =>
          let mask := Z.land (w32 (Z.shiftl mask RESERVED_SHIFT)) RESERVED_ALL in
          let flags := Z.land (w32 (Z.shiftl flags RESERVED_SHIFT)) mask in
          t <- get_table to;
          es <- arr_set (ht_entries t) index
                  (Slot (Some o) (Z.lor (Z.land old_access (not32 mask)) flags));
          put_table to (HandleTable (ht_process t) (ht_count t) (ht_last t) (ht_free t) es) ;;
          ret (Z.shiftr (Z.land old_access RESERVED_ALL) RESERVED_SHIFT)
      end
  end.

(** ** Duplication *)

Definition duplicate_handle (src : pid) (src_handle : Z) (dst : option pid)
    (access attr options : Z) : M Z :=
  obj <- get_handle_obj (Some src) src_handle 0 None;
  match obj with
  | None => ret 0
  | Some o =>
      entry <- get_handle (Some src) src_handle;
      ob <- get_obj o;
      let full_access := match entry with
                         | Some (_, _, _, a) => a
                         | None => map_obj_access ob GENERIC_ALL end in
      let src_flags := Z.shiftr (Z.land full_access RESERVED_ALL) RESERVED_SHIFT in
      let src_access := Z.land full_access (not32 RESERVED_ALL) in
      let access := if has options DUPLICATE_SAME_ACCESS then src_access
                    else Z.land (map_obj_access ob access) (not32 RESERVED_ALL) in
      res <- (if has access (not32 src_access) then
                (** more access rights than the source has *)
                th <- get_current;
                r <- match t_token th with
                     | Some tk => check_object_access (Some tk) o access
                     | None => ret (Some access)
                     end;
                match r with
                | None => ret None
                | Some access =>
                    dpr <- match dst with Some d => get_process d | None => fail NullDeref end;
                    r <- check_object_access (p_token dpr) o access;
                    match r with
                    | None => ret None
                    | Some access =>
                        h <- (if has options DUPLICATE_MAKE_GLOBAL then alloc_global_handle o access
                              else match dst with
                                   | Some d => alloc_handle_no_access_check d o access attr
                                   | None => fail NullDeref
                                   end);
                        ret (Some h)
                    end
                end
              else
                if has options DUPLICATE_MAKE_GLOBAL then
                  h <- alloc_global_handle_no_access_check o access; ret (Some h)
                else
                  match entry with
                  | Some (to, index, eo, eaccess) =>
                      if has options DUPLICATE_CLOSE_SOURCE && bool_decide (dst = Some src)
                         && negb (has eaccess RESERVED_CLOSE_PROTECT)
                      then
                        let access := if has attr OBJ_INHERIT then Z.lor access RESERVED_INHERIT
                                      else access in
                        t <- get_table to;
                        es <- arr_set (ht_entries t) index (Slot (Some eo) access);
                        put_table to (HandleTable (ht_process t) (ht_count t) (ht_last t)
                                        (ht_free t) es) ;;
                        ret (Some src_handle)
                      else
                        h <- match dst with
                             | Some d => alloc_handle_entry d o access attr
                             | None => fail NullDeref
                             end;
                        ret (Some h)
                  | None =>
                      h <- match dst with
                           | Some d => alloc_handle_entry d o access attr
                           | None => fail NullDeref
                           end;
                      ret (Some h)
                  end);
      match res with
      | None => release_object o ;; ret 0
      | Some res =>
          (if negb (res =? 0) && has options DUPLICATE_SAME_ATTRIBUTES
           then set_handle_flags dst res 0xffffffff src_flags ;; ret tt
           else ret tt) ;;
          release_object o ;;
          ret res
      end
  end.

(** ** Queries *)

Definition get_handle_table_count (p : pid) : M Z :=
  pr <- get_process p;
  match p_handles pr with
  | None => ret 0
  | Some to => t <- get_table to; ret (ht_count t)
  end.

(** The scan of [find_inherited_handle] over the entries from index [i]. *)
Fixpoint find_inherited (want : ops) (es : list handle_slot) (i : Z) : M Z :=
  match es with
  | [] => ret 0
  | sl :: es =>
      e <- read_slot sl;
      match fst e with
      | None => find_inherited want es (i + 1)
      | Some o =>
          ob <- get_obj o;
          if negb (bool_decide (obj_ops ob = want)) then find_inherited want es (i + 1)
          else if has (snd e) RESERVED_INHERIT then ret (index_to_handle i)
          else find_inherited want es (i + 1)
      end
  end.

Definition find_inherited_handle (p : pid) (want : ops) : M Z :=
  pr <- get_process p;
  match p_handles pr with
  | None => ret 0
  | Some to =>
      t <- get_table to;
      find_inherited want (take (Z.to_nat (ht_last t + 1)) (ht_entries t)) 0
  end.

Fixpoint count_handles (o : oid) (es : list handle_slot) : M Z :=
  match es with
  | [] => ret 0
  | sl :: es =>
      e <- read_slot sl;
      n <- count_handles o es;
      ret (if bool_decide (fst e = Some o) then n + 1 else n)
  end.

Definition get_obj_handle_count (p : pid) (o : oid) : M Z :=
  pr <- get_process p;
  match p_handles pr with
  | None => ret 0
  | Some to =>
      t <- get_table to;
      count_handles o (take (Z.to_nat (ht_last t + 1)) (ht_entries t))
  end.

(** ** Request handlers *)

Definition req_close_handle (handle : Z) : M unit :=
  p <- current_process;
  err <- close_handle p handle;
  set_error err.

Definition req_set_handle_info (handle mask flags : Z) : M Z :=
  p <- current_process;
  set_handle_flags (Some p) handle mask flags.

Definition get_process_from_handle (handle access : Z) : M (option pid) :=
  p <- current_process;
  get_handle_obj (Some p) handle access (Some process_ops).

Definition req_dup_handle (src_process src_handle dst_process access attributes options : Z) : M Z :=
  src <- get_process_from_handle src_process PROCESS_DUP_HANDLE;
  match src with
  | None => ret 0
  | Some src =>
      r <- (if has options DUPLICATE_MAKE_GLOBAL then
              h <- duplicate_handle src src_handle None access attributes options;
              ret (h, None)
            else
              dst <- get_process_from_handle dst_process PROCESS_DUP_HANDLE;
              match dst with
              | None => ret (0, None)
              | Some dst =>
                  h <- duplicate_handle src src_handle (Some dst) access attributes options;
                  release_object dst ;;
                  ret (h, Some dst)
              end);
      let '(handle, dst) := r in
      (if has options DUPLICATE_CLOSE_SOURCE
          && (negb (bool_decide (dst = Some src)) || negb (src_handle =? handle))
       then close_handle src src_handle ;; ret tt
       else ret tt) ;;
      release_object src ;;
      ret handle
  end.

(** The access, reference count and handle count of the object. *)
Definition req_get_object_info (handle : Z) : M (option (Z * Z * Z)) :=
  p <- current_process;
  obj <- get_handle_obj (Some p) handle 0 None;
  match obj with
  | None => ret None
  | Some o =>
      a <- get_handle_access p handle;
      ob <- get_obj o;
      release_object o ;;
      ret (Some (a, refcount ob, handle_count ob))
  end.

Definition req_set_object_permanence (handle : Z) (permanent : bool) : M unit :=
  p <- current_process;
  obj <- get_handle_obj (Some p) handle (if permanent then 0 else DELETE) None;
  match obj with
  | None => ret tt
  | Some o =>
      ob <- get_obj o;
      (if permanent && negb (is_permanent ob) then
         grab_object o ;; make_object_permanent o
       else if negb permanent && is_permanent ob then
         make_object_temporary o ;; release_object o
       else ret tt) ;;
      release_object o
  end.

Definition req_compare_objects (first second : Z) : M unit :=
  p <- current_process;
  obj1 <- get_handle_obj (Some p) first 0 None;
  match obj1 with
  | None => ret tt
  | Some o1 =>
      obj2 <- get_handle_obj (Some p) second 0 None;
      match obj2 with
      | None => release_object o1
      | Some o2 =>
          (if bool_decide (o1 = o2) then ret tt else set_error STATUS_NOT_SAME_OBJECT) ;;
          release_object o2 ;;
          release_object o1
      end
  end.
