(* ===== verification/HandleInv.v ===== *)
(** * Correctness of the handle tables

    Handle tables implement a partial map from indices to an object and an
    access mask ([view]).  The theorems say what each operation of [Handle.v]
    does to that map, and that it preserves [server_ok]: the reference counts of
    [ObjectInv.v], the shape of the tables, and the pointers from processes,
    threads and the global table. *)

From stdpp Require Import base list gmap fin_maps.
From S2P Require Import Prelude Access Object ObjectInv Handle.

Open Scope Z_scope.
Open Scope server_scope.

(** ** Handle values *)

Section handle_values.
Lemma index_to_handle_eq i : 0 <= i < MAX_HANDLE_ENTRIES → index_to_handle i = (i + 1) * 4.
Proof.
  intros Hi. unfold index_to_handle. rewrite Z.shiftl_mul_pow2 by lia.
  rewrite w32_small; unfold u32, MAX_HANDLE_ENTRIES in *; lia.
Qed.

Lemma handle_to_index_eq h : handle_to_index h = h / 4 - 1.
Proof. unfold handle_to_index. by rewrite Z.shiftr_div_pow2 by lia. Qed.

Lemma index_handle_roundtrip i :
  0 <= i < MAX_HANDLE_ENTRIES → handle_to_index (index_to_handle i) = i.
Proof.
  intros Hi. rewrite index_to_handle_eq, handle_to_index_eq, Z.div_mul by lia. lia.
Qed.

(** Bits 28 and up of the obfuscator keep every small value out of the global range. *)
Lemma obfuscated_large h : 0 <= h < 2 ^ 28 → 2 ^ 28 <= Z.lxor h HANDLE_OBFUSCATOR.
Proof.
  intros Hh.
  assert (Z.shiftr (Z.lxor h HANDLE_OBFUSCATOR) 28 = 5) as Hs.
  { rewrite Z.shiftr_lxor. rewrite (Z.shiftr_div_pow2 h) by lia.
    rewrite Z.div_small by done. reflexivity. }
  rewrite Z.shiftr_div_pow2 in Hs by lia.
  pose proof (Z.mul_div_le (Z.lxor h HANDLE_OBFUSCATOR) (2 ^ 28) ltac:(lia)). lia.
Qed.

Lemma local_not_global h : 0 <= h < 2 ^ 28 → handle_is_global h = false.
Proof.
  intros Hh. unfold handle_is_global. apply Z.leb_gt.
  pose proof (obfuscated_large h Hh). change (Z.shiftl MAX_HANDLE_ENTRIES 2) with 67108860. lia.
Qed.

Lemma obfuscate_involutive h : Z.lxor (Z.lxor h HANDLE_OBFUSCATOR) HANDLE_OBFUSCATOR = h.
Proof. by rewrite Z.lxor_assoc, Z.lxor_nilpotent, Z.lxor_0_r. Qed.
End handle_values.

(** ** The abstract map of a table *)

Definition entry (t : handle_table) (i : Z) : option (oid * Z) :=
  if (0 <=? i) && (i <=? ht_last t) then
    match ht_entries t !! Z.to_nat i with
    | Some (Slot (Some o) a) => Some (o, a)
    | _ => None
    end
  else None.

Definition table_of (h : gmap oid object) (to : oid) : option handle_table :=
  match h !! to with
  | Some ob => match data ob with handle_table_data t => Some t | _ => None end
  | None => None
  end.

(** What the handle index [i] of the table [to] refers to. *)
Definition view (s : server) (to : oid) (i : Z) : option (oid * Z) :=
  match table_of (objs s) to with Some t => entry t i | None => None end.

Lemma entry_some t i o a :
  entry t i = Some (o, a) ↔
  0 <= i <= ht_last t ∧ ht_entries t !! Z.to_nat i = Some (Slot (Some o) a).
Proof.
  unfold entry. destruct (Z.leb_spec 0 i), (Z.leb_spec i (ht_last t)); simpl;
    [|naive_solver lia..].
  destruct (ht_entries t !! Z.to_nat i) as [[|[?|] ?]|]; naive_solver.
Qed.

Lemma entry_out t i : i < 0 ∨ ht_last t < i → entry t i = None.
Proof.
  intros Hi. unfold entry. destruct (Z.leb_spec 0 i), (Z.leb_spec i (ht_last t)); simpl; try done. lia.
Qed.

(** Inside the used range the slots are initialised. *)
Lemma entry_slot t i : table_ok t → 0 <= i <= ht_last t →
  ∃ p a, ht_entries t !! Z.to_nat i = Some (Slot p a) ∧ u32 a ∧
         entry t i = match p with Some o => Some (o, a) | None => None end.
Proof.
  intros Ht Hi. destruct (tb_init t Ht i Hi) as (p & a & He & Ha). exists p, a.
  split_and!; [done..|]. unfold entry.
  rewrite (proj2 (Z.leb_le 0 i)), (proj2 (Z.leb_le i _)), He by lia. simpl. by destruct p.
Qed.

Lemma entry_access t i o a : table_ok t → entry t i = Some (o, a) → u32 a.
Proof.
  intros Ht He. apply entry_some in He as [Hi He].
  destruct (tb_init t Ht i Hi) as (p & a' & He' & Ha). by simplify_eq.
Qed.

Lemma entry_target t i o a : entry t i = Some (o, a) → o ∈ table_targets t.
Proof.
  intros [_ He]%entry_some. unfold table_targets. apply list_elem_of_omap.
  exists (Slot (Some o) a). split; [by eapply list_elem_of_lookup_2|done].
Qed.

(** ** Counting the targets of a table *)

Lemma occ_omap_insert p es i sl sl' :
  es !! i = Some sl →
  occ p (omap slot_target (<[i:=sl']> es))
  = occ p (omap slot_target es) - occ p (option_list (slot_target sl))
    + occ p (option_list (slot_target sl')).
Proof.
  revert i. induction es as [|e es IH]; intros [|i] Hi; simplify_eq/=.
  - destruct (slot_target sl), (slot_target sl'); simpl;
      rewrite ?occ_cons, ?occ_nil; lia.
  - specialize (IH i Hi). destruct (slot_target e); rewrite ?occ_cons; lia.
Qed.

Lemma omap_uninit n : omap slot_target (replicate n Uninit) = [].
Proof. by induction n. Qed.

(** ** Changing a table, and adding one *)

Lemma heap_ok_set_table x x' h to tob tob' t t' :
  heap_ok x h → h !! to = Some tob → data tob = handle_table_data t →
  data tob' = handle_table_data t' → wait_queue tob' = wait_queue tob →
  refcount tob' = refcount tob → handle_count tob' = handle_count tob →
  table_ok t' → x_ok x' →
  (∀ p, p ∈ table_targets t' → ∃ obp, h !! p = Some obp ∧ (rank (data obp) < 2)%nat) →
  (∀ p, x_ref x' p + occ p (table_targets t') = x_ref x p + occ p (table_targets t)) →
  (∀ p, x_handle x' p + occ p (table_targets t') = x_handle x p + occ p (table_targets t)) →
  (∀ p, x_held x' p = x_held x p) →
  x_ref x' to = x_ref x to → x_handle x' to = x_handle x to →
  heap_ok x' (<[to:=tob']> h).
Proof.
  intros [Hn Ho Hz] Hto Hd Hd' Hwq Hrc Hhc Ht' Hx' Htg Hr Hh Hheld Hrto Hhto.
  assert (∀ p, hrefs (<[to:=tob']> h) p + x_ref x' p = hrefs h p + x_ref x p) as Hrefs.
  { intros p. rewrite (hrefs_update h to tob), Hd, Hd' by done.
    unfold data_targets. simpl. rewrite !app_nil_r. specialize (Hr p). lia. }
  assert (∀ p, thandles (<[to:=tob']> h) p + x_handle x' p = thandles h p + x_handle x p) as Hths.
  { intros p. rewrite (thandles_update h to tob), Hd, Hd' by done. simpl. specialize (Hh p). lia. }
  assert (∀ p obp, h !! p = Some obp → p ≠ to → <[to:=tob']> h !! p = Some obp) as Hkeep
    by (intros; by rewrite lookup_insert_ne).
  assert (∀ p obp, h !! p = Some obp → (rank (data obp) < 2)%nat → p ≠ to) as Hnt.
  { intros p obp Hp Hrk ->. simplify_eq. rewrite Hd in Hrk. simpl in Hrk. lia. }
  assert (∀ o e obe, h !! e = Some obe → e = o ∨ sync_target (data obe) = Some o →
    ∃ obe', <[to:=tob']> h !! e = Some obe' ∧ (e = o ∨ sync_target (data obe') = Some o)) as Hwait.
  { intros o e obe He Hor. destruct (decide (e = to)) as [->|Hne].
    - exists tob'. rewrite lookup_insert_eq. split; [done|]. simplify_eq.
      destruct Hor as [->|Hor]; [by left|]. rewrite Hd in Hor. done.
    - exists obe. split; [by apply Hkeep|done]. }
  split; [done| |].
  - intros p obp Hp. destruct (decide (p = to)) as [->|Hne].
    + rewrite lookup_insert_eq in Hp. simplify_eq.
      destruct (Ho to tob Hto) as [A B C D E F G].
      split; rewrite ?Hrefs, ?Hths, ?Hd', ?Hwq; try lia; try done.
      * unfold data_targets. simpl. rewrite app_nil_r. intros q Hin.
        destruct (Htg q Hin) as (obq & Hq & Hrk). exists obq. split; [|done]. eauto.
      * intros Hne. destruct (F Hne) as (e & obe & He & Hle & Hor).
        destruct (Hwait to e obe Hle Hor) as (obe' & ? & ?). exists e, obe'.
        rewrite Hheld. done.
    + rewrite lookup_insert_ne in Hp by done. destruct (Ho p obp Hp) as [A B C D E F G].
      split; rewrite ?Hrefs, ?Hths; try lia; try done.
      * intros q Hin. destruct (E q Hin) as (obq & Hq & Hrk).
        destruct (decide (q = to)) as [->|Hqne].
        { exists tob'. rewrite lookup_insert_eq. simplify_eq. rewrite Hd' . rewrite Hd in Hrk. done. }
        exists obq. split; [|done]. by apply Hkeep.
      * intros Hne'. destruct (F Hne') as (e & obe & He & Hle & Hor).
        destruct (Hwait p e obe Hle Hor) as (obe' & ? & ?). exists e, obe'.
        rewrite Hheld. done.
      * rewrite Hheld. done.
  - intros p Hp. rewrite Hrefs. apply Hz.
    destruct (decide (p = to)) as [->|Hne]; [by rewrite lookup_insert_eq in Hp|].
    by rewrite lookup_insert_ne in Hp.
Qed.

(** A new object whose targets are alive; the routine holds its only reference,
    and the references it took on the targets move into the object. *)
Lemma heap_ok_alloc x h o d :
  x_ok x → heap_ok (x_data d x) h → h !! o = None → data_ok d →
  (∀ p, p ∈ data_targets d → ∃ obp, h !! p = Some obp ∧ (rank (data obp) < rank d)%nat) →
  (∀ ow c ab, d = mutex_sync_data ow c ab → c = 0) →
  heap_ok (pin o x) (<[o:=Object 1 0 false [] None d]> h).
Proof.
  intros Hx [Hn Ho Hz] Hno Hdok Htg Hmx.
  assert (∀ p, hrefs (<[o:=Object 1 0 false [] None d]> h) p = occ p (data_targets d) + hrefs h p) as Hr
    by (intros; by apply (msum_insert (λ ob, occ p (data_targets (data ob))))).
  assert (∀ p, thandles (<[o:=Object 1 0 false [] None d]> h) p = occ p (handle_targets d) + thandles h p) as Hh
    by (intros; by apply (msum_insert (λ ob, occ p (handle_targets (data ob))))).
  assert (o ∉ data_targets d) as Hnt.
  { intros Hin. destruct (Htg o Hin) as (? & ? & ?). congruence. }
  pose proof (Hz o Hno) as Hzo. simpl in Hzo. pose proof (hrefs_nonneg h o).
  pose proof (occ_nonneg o (data_targets d)). destruct (Hx o) as [Hxo Hxo'].
  pose proof (thandles_le_hrefs h o). pose proof (thandles_nonneg h o).
  pose proof (occ_handle_targets o d). pose proof (occ_nonneg o (handle_targets d)).
  split; [by apply x_ok_pin| |].
  - intros p obp Hp. destruct (decide (p = o)) as [->|Hne].
    + rewrite lookup_insert_eq in Hp. simplify_eq.
      split; simpl; rewrite ?Hr, ?Hh, ?occ_self; try lia; try done.
      * intros p Hin. destruct (Htg p Hin) as (obp & Hp & Hrk). exists obp. split; [|done].
        rewrite lookup_insert_ne; [done|]. congruence.
      * intros ow c ab Hd Hc. exfalso. eauto.
    + rewrite lookup_insert_ne in Hp by done. destruct (Ho p obp Hp) as [A B C D E F G]. simpl in *.
      split; simpl; rewrite ?Hr, ?Hh, ?(occ_other o p) by done; try lia; try done.
      * intros q Hin. destruct (E q Hin) as (obq & Hq & Hrk). exists obq. split; [|done].
        rewrite lookup_insert_ne; [done|]. congruence.
      * intros Hq. destruct (F Hq) as (e & obe & He & Hle & Hor). exists e, obe.
        split_and!; [done| |done]. rewrite lookup_insert_ne; [done|]. congruence.
  - intros p Hp. destruct (decide (p = o)) as [->|Hne]; [by rewrite lookup_insert_eq in Hp|].
    rewrite lookup_insert_ne in Hp by done. specialize (Hz p Hp). simpl in *.
    rewrite Hr, occ_other by done. lia.
Qed.

(** Nothing in the store refers to a handle table, so whoever keeps one alive is outside. *)
Lemma table_pinned x h to t : heap_ok x h → table_of h to = Some t → 0 < x_ref x to.
Proof.
  intros Hok Ht. unfold table_of in Ht. destruct (h !! to) as [tob|] eqn:Hto; [|done].
  destruct (data tob) eqn:Hd; simplify_eq. destruct (hp_object _ _ Hok to tob Hto) as [A B _ _ _ _ _].
  destruct (Z.ltb_spec 0 (hrefs h to)) as [Hp|]; [|lia]. exfalso.
  apply msum_pos in Hp as (q & obq & Hq & Hocc). apply occ_elem in Hocc.
  destruct (ob_targets _ _ _ _ (hp_object _ _ Hok q obq Hq) to Hocc) as (tob' & Hto' & Hrk).
  simplify_eq. rewrite Hd in Hrk. simpl in Hrk. destruct (data obq); simpl in Hrk; lia.
Qed.

(** ** The server invariant *)

(** An outside reference keeps [o], of type [k], alive. *)
Definition pinned (x : xrefs) (h : gmap oid object) (o : oid) (k : ops) : Prop :=
  0 < x_ref x o ∧ ∃ ob, h !! o = Some ob ∧ obj_ops ob = k.

Definition owned_table (s : server) (to : oid) : Prop :=
  global_table s = Some to ∨ ∃ p pr, procs s !! p = Some pr ∧ p_handles pr = Some to.

Definition owned_token (s : server) (tk : oid) : Prop :=
  (∃ p pr, procs s !! p = Some pr ∧ p_token pr = Some tk) ∨
  (∃ t th, threads s !! t = Some th ∧ t_token th = Some tk).

Record server_ok (x : xrefs) (s : server) : Prop := {
  so_heap : heap_ok x (objs s);
  so_tables : ∀ to, owned_table s to → pinned x (objs s) to handle_table_ops;
  so_tokens : ∀ tk, owned_token s tk → pinned x (objs s) tk token_ops;
  so_procs : ∀ p pr, procs s !! p = Some pr → ∃ k, pinned x (objs s) p (opaque_ops k);
  so_threads : ∀ t th, threads s !! t = Some th →
    (∃ k, pinned x (objs s) t (opaque_ops k)) ∧ is_Some (procs s !! t_process th);
}.

(** What the operations of this file leave alone outside the object store:
    everything but the error codes and the supply of memory. *)
Definition same_thread (th th' : thread) : Prop := th_error 0 th' = th_error 0 th.

Record keeps (s s' : server) : Prop := {
  kp_procs : procs s' = procs s;
  kp_global : global_table s' = global_table s;
  kp_current : current s' = current s;
  kp_threads : ∀ t, th_error 0 <$> threads s' !! t = th_error 0 <$> threads s !! t;
  kp_rest : inproc_device_fd s' = inproc_device_fd s ∧ current_time s' = current_time s ∧
            monotonic_time s' = monotonic_time s ∧ wakeups s' = wakeups s;
}.

#[export] Instance keeps_preorder : PreOrder keeps.
Proof.
  split.
  - by intros s; split.
  - intros s1 s2 s3 [A B C D (E&F&G&H)] [A' B' C' D' (E'&F'&G'&H')].
    split; [congruence..| |split_and!; congruence]. intros t. by rewrite D', D.
Qed.

Lemma same_env_keeps s s' : same_env s s' → keeps s s'.
Proof. intros (A&B&C&D&E&F&G&H&I&J). split; [done..| |done]. intros t. by rewrite A. Qed.

Lemma keeps_thread s s' t th' :
  keeps s s' → threads s' !! t = Some th' →
  ∃ th, threads s !! t = Some th ∧ t_process th = t_process th' ∧ t_token th = t_token th' .
Proof.
  intros Hk Ht. pose proof (kp_threads _ _ Hk t) as Heq. rewrite Ht in Heq.
  destruct (threads s !! t) as [th|]; simplify_eq/=. exists th.
  destruct th, th'; simpl in *; simplify_eq. done.
Qed.

(** Objects that are in both stores have the same type. *)
Definition kinds (h h' : gmap oid object) : Prop :=
  ∀ o ob ob', h !! o = Some ob → h' !! o = Some ob' → obj_ops ob' = obj_ops ob.

Lemma shrinks_kinds h h' : shrinks h h' → kinds h h'.
Proof.
  intros Hs o ob ob' Ho Ho'. destruct (Hs o ob' Ho') as (ob2 & Ho2 & Hd & _).
  simplify_eq. unfold obj_ops. by rewrite Hd.
Qed.

Lemma kinds_insert h o ob ob' :
  h !! o = Some ob → obj_ops ob' = obj_ops ob → kinds h (<[o:=ob']> h).
Proof.
  intros Ho Hk p obp obp' Hp Hp'. destruct (decide (p = o)) as [->|Hne].
  - rewrite lookup_insert_eq in Hp'. by simplify_eq.
  - rewrite lookup_insert_ne in Hp' by done. by simplify_eq.
Qed.

Lemma heap_ok_live x h o : heap_ok x h → 0 < x_ref x o → ∃ ob, h !! o = Some ob.
Proof.
  intros Hok Hx. destruct (h !! o) as [ob|] eqn:Ho; [by eexists|].
  pose proof (hp_none _ _ Hok o Ho). pose proof (hrefs_nonneg h o). lia.
Qed.

Lemma pinned_step x x' h h' o k :
  pinned x h o k → heap_ok x' h' → kinds h h' → 0 < x_ref x' o → pinned x' h' o k.
Proof.
  intros (_ & ob & Ho & <-) Hok Hk Hx. split; [done|].
  destruct (heap_ok_live x' h' o Hok Hx) as [ob' Ho']. exists ob'. split; [done|]. by eapply Hk.
Qed.

(** How [server_ok] survives a step. *)
Lemma server_ok_step x x' s s' :
  server_ok x s → keeps s s' → heap_ok x' (objs s') → kinds (objs s) (objs s') →
  (∀ o, 0 < x_ref x o → 0 < x_ref x' o) → server_ok x' s'.
Proof.
  intros [A B C D E] Hk Hok Hkd Hx.
  assert (∀ o k, pinned x (objs s) o k → pinned x' (objs s') o k) as Hp.
  { intros o k Hp. eapply pinned_step; [done..|]. apply Hx, Hp. }
  split; [done|..].
  - intros to Hto. apply Hp, B. unfold owned_table in *.
    by rewrite (kp_procs _ _ Hk), (kp_global _ _ Hk) in Hto.
  - intros tk Htk. apply Hp, C. destruct Htk as [Htk|(t & th' & Ht & Htk)].
    + left. by rewrite (kp_procs _ _ Hk) in Htk.
    + destruct (keeps_thread s s' t th' Hk Ht) as (th & Ht0 & _ & Heq).
      right. exists t, th. by rewrite Heq.
  - intros p pr Hpr. rewrite (kp_procs _ _ Hk) in Hpr. destruct (D p pr Hpr) as [k ?]. eauto.
  - intros t th' Ht. destruct (keeps_thread s s' t th' Hk Ht) as (th & Ht0 & Heq & _).
    destruct (E t th Ht0) as [[k ?] ?]. rewrite <-Heq, (kp_procs _ _ Hk). eauto.
Qed.

Lemma so_x_ok x s : server_ok x s → x_ok x.
Proof. intros [Hh _ _ _ _]. exact (hp_nonneg _ _ Hh). Qed.

(** ** Triples of the primitives *)

Lemma set_error_keeps e s : keeps s (match set_error e s with Done _ s' => s' | Fault _ => s end).
Proof.
  unfold set_error, modify. simpl. destruct (current s) as [c|] eqn:Hc; simpl; split; simpl; try done.
  intros t. destruct (decide (t = c)) as [->|Hne].
  - rewrite lookup_alter_eq. by destruct (threads s !! c).
  - by rewrite lookup_alter_ne.
Qed.

(** The error the next [get_error] reports. *)
Definition last_error (s : server) : Z :=
  match get_error s with Done e _ => e | Fault _ => 0 end.

Lemma wp_set_error e (Q : unit → server → Prop) s :
  (∀ s', objs s' = objs s → keeps s s' → last_error s' = e → Q tt s') → wp (set_error e) Q s.
Proof.
  intros HQ. pose proof (set_error_keeps e s) as Hk. unfold wp.
  unfold set_error, modify in *. apply HQ; [|done|]; simpl; [by destruct (current s)|].
  unfold last_error, get_error, gets. simpl. destruct (current s) as [c|] eqn:Hc; simpl; rewrite Hc; [|done].
  rewrite lookup_alter_eq. by destruct (threads s !! c).
Qed.

(** The next allocation fails. *)
Definition alloc_fails (s : server) : Prop := head (allocs s) = Some false.

Lemma wp_alloc_result (Q : bool → server → Prop) s :
  (∀ b s', objs s' = objs s → keeps s s' → (b = false ↔ alloc_fails s) → Q b s') → wp alloc_ok Q s.
Proof.
  intros HQ. unfold alloc_fails in HQ. unfold wp, alloc_ok. destruct (allocs s) as [|b l]; by apply HQ; [..|naive_solver].
Qed.

Lemma wp_alloc_ok (Q : bool → server → Prop) s :
  (∀ b s', objs s' = objs s → keeps s s' → Q b s') → wp alloc_ok Q s.
Proof. intros HQ. apply wp_alloc_result. eauto. Qed.

Lemma wp_mem_alloc (Q : bool → server → Prop) s :
  (∀ b s', objs s' = objs s → keeps s s' → Q b s') → wp mem_alloc Q s.
Proof.
  intros HQ. unfold mem_alloc. apply wp_bind, wp_alloc_ok. intros [] s1 Ho Hk.
  - apply wp_ret. by apply HQ.
  - apply wp_bind, wp_set_error. intros s2 Ho2 Hk2 _. apply wp_ret, HQ; [congruence|by etrans].
Qed.

(** The same with the result of the allocation and the error of a failure. *)
Lemma wp_mem_alloc_result (Q : bool → server → Prop) s :
  (∀ s', objs s' = objs s → keeps s s' → allocs s' = tail (allocs s) → ¬ alloc_fails s → Q true s') →
  (∀ s', objs s' = objs s → keeps s s' → last_error s' = STATUS_NO_MEMORY → alloc_fails s → Q false s') →
  wp mem_alloc Q s.
Proof.
  intros Htrue Hfalse. unfold alloc_fails in *. unfold mem_alloc, alloc_ok. apply wp_bind. unfold wp at 1.
  destruct (allocs s) as [|[] l] eqn:Ha; [apply wp_ret, Htrue; by rewrite ?Ha..|].
  apply wp_bind, wp_set_error. intros s2 Ho2 Hk2 He. apply wp_ret, Hfalse; try done. split; apply Hk2.
Qed.

Lemma same_env_error s s' : same_env s s' → last_error s' = last_error s.
Proof.
  intros (Ht & _ & _ & Hc & Hg & _). unfold last_error, get_error, gets. simpl. by rewrite Ht, Hc, Hg.
Qed.

Lemma wp_get_table to tob t (Q : handle_table → server → Prop) s :
  objs s !! to = Some tob → data tob = handle_table_data t → Q t s → wp (get_table to) Q s.
Proof.
  intros Hto Hd HQ. unfold get_table. apply wp_bind, (wp_get_obj to tob); [done|]. by rewrite Hd.
Qed.

Lemma wp_put_table to tob t (Q : unit → server → Prop) s :
  objs s !! to = Some tob → Q tt (set_objs (<[to:=ob_data (handle_table_data t) tob]>) s) →
  wp (put_table to t) Q s.
Proof.
  intros Hto HQ. unfold put_table. apply wp_bind, (wp_get_obj to tob); [done|]. done.
Qed.

Lemma keeps_objs f s : keeps s (set_objs f s).
Proof. by split. Qed.
#[export] Hint Resolve keeps_objs same_env_keeps : server.

(** ** Taking a reference for a handle *)

(** No object can hold more references than a C [int] counts. *)
Definition room (s : server) (n : Z) : Prop :=
  ∀ o ob, objs s !! o = Some ob → refcount ob + n <= INT_MAX.

Lemma handles_le_refs x h o ob : heap_ok x h → h !! o = Some ob →
  0 <= handle_count ob <= refcount ob.
Proof.
  intros Hok Ho. destruct (hp_object _ _ Hok o ob Ho) as [A B C _ _ _ _].
  destruct (hp_nonneg _ _ Hok o) as [_ ?]. pose proof (thandles_le_hrefs h o).
  pose proof (thandles_nonneg h o). lia.
Qed.

Definition handled (ob : object) : object :=
  ob_refcount (refcount ob + 1) (ob_handle_count (handle_count ob + 1) ob).

Lemma wp_grab_for_handle s o ob (Q : oid → server → Prop) :
  objs s !! o = Some ob → 0 <= handle_count ob < INT_MAX → refcount ob < INT_MAX →
  (∀ s', objs s' = <[o:=handled ob]> (objs s) → same_env s s' → Q o s') →
  wp (grab_object_for_handle o) Q s.
Proof.
  intros Ho Hle Hmax HQ.
  unfold grab_object_for_handle. apply wp_bind, (wp_get_obj o ob); [done|].
  apply wp_bind, wp_put_obj. rewrite w32_small by (unfold u32, INT_MAX in *; lia).
  set (ob1 := ob_handle_count (handle_count ob + 1) ob).
  apply wp_bind, wp_update_type. intros s1 Hs1 He1.
  unfold grab_object. apply wp_bind, (wp_get_obj o ob1).
  { rewrite Hs1. simpl. apply lookup_insert_eq. }
  apply wp_bind, wp_assert; [by apply Z.ltb_lt|]. apply wp_bind, wp_put_obj, wp_ret.
  apply HQ; [|done]. simpl. rewrite Hs1. simpl. by rewrite insert_insert_eq.
Qed.

Lemma heap_ok_handled x h o ob :
  heap_ok x h → h !! o = Some ob → heap_ok (x_handles [o] x) (<[o:=handled ob]> h).
Proof.
  intros Hok Ho. pose proof (handles_le_refs _ _ _ _ Hok Ho) as Hle.
  destruct (hp_nonneg _ _ Hok o) as [? ?]. pose proof (ob_live _ _ _ _ (hp_object _ _ Hok o ob Ho)).
  eapply (heap_ok_retag x); simpl; try done; rewrite ?occ_self; try lia.
  intros p Hp. rewrite occ_other by done. lia.
Qed.

Lemma same_body_handled ob : same_body ob (handled ob).
Proof. done. Qed.

(** ** Table updates that keep the table well formed *)

Definition set_entries (t : handle_table) (last free : Z) (es : list handle_slot) : handle_table :=
  HandleTable (ht_process t) (ht_count t) last free es.

Section table_updates.
Context (t : handle_table) (Ht : table_ok t).

Let len : ht_count t = Z.of_nat (length (ht_entries t)) := tb_count t Ht.

(** Storing an object at [i], the first free index from [ht_free] on. *)
Lemma table_ok_store i o a :
  ht_free t <= i <= ht_last t + 1 → i < ht_count t → u32 a →
  (∀ j, ht_free t <= j < i → ∃ p b, ht_entries t !! Z.to_nat j = Some (Slot (Some p) b)) →
  table_ok (set_entries t (Z.max (ht_last t) i) (i + 1) (<[Z.to_nat i:=Slot (Some o) a]> (ht_entries t))).
Proof using Ht.
  intros Hi Hc Ha Hused. destruct Ht as [T1 T2 T3 T4 T5 T6 T7].
  assert (Z.to_nat i < length (ht_entries t))%nat as Hlt by lia.
  split; simpl; rewrite ?length_insert; try done; try lia.
  - intros j Hj. destruct (decide (j = i)) as [->|Hne].
    + exists (Some o), a. by rewrite list_lookup_insert_eq.
    + rewrite list_lookup_insert_ne by lia. apply T4. lia.
  - intros j p b Hj. rewrite list_lookup_insert_ne by lia. apply T5. lia.
  - intros j Hj. destruct (decide (j = i)) as [->|Hne].
    + exists o, a. by rewrite list_lookup_insert_eq.
    + rewrite list_lookup_insert_ne by lia. destruct (Z.ltb_spec j (ht_free t)).
      * apply T7. lia.
      * apply Hused. lia.
Qed.

(** Overwriting a used slot with another access mask or object. *)
Lemma table_ok_replace i p a q b :
  0 <= i <= ht_last t → ht_entries t !! Z.to_nat i = Some (Slot (Some p) a) → u32 b →
  table_ok (set_entries t (ht_last t) (ht_free t) (<[Z.to_nat i:=Slot (Some q) b]> (ht_entries t))).
Proof using Ht.
  intros Hi He Hb. destruct Ht as [T1 T2 T3 T4 T5 T6 T7].
  pose proof (lookup_lt_Some _ _ _ He) as Hlt.
  split; simpl; rewrite ?length_insert; try done.
  - intros j Hj. destruct (decide (j = i)) as [->|Hne].
    + exists (Some q), b. by rewrite list_lookup_insert_eq.
    + rewrite list_lookup_insert_ne by lia. by apply T4.
  - intros j p' b' Hj. rewrite list_lookup_insert_ne by lia. by apply T5.
  - intros j Hj. destruct (decide (j = i)) as [->|Hne].
    + exists q, b. by rewrite list_lookup_insert_eq.
    + rewrite list_lookup_insert_ne by lia. by apply T7.
Qed.

(** Clearing a slot. *)
Lemma table_ok_clear i p a :
  0 <= i <= ht_last t → ht_entries t !! Z.to_nat i = Some (Slot p a) → u32 a →
  table_ok (set_entries t (ht_last t) (if i <? ht_free t then i else ht_free t)
              (<[Z.to_nat i:=Slot None a]> (ht_entries t))).
Proof using Ht.
  intros Hi He Ha. destruct Ht as [T1 T2 T3 T4 T5 T6 T7].
  pose proof (lookup_lt_Some _ _ _ He) as Hlt.
  split; simpl; rewrite ?length_insert; try done.
  - intros j Hj. destruct (decide (j = i)) as [->|Hne].
    + exists None, a. by rewrite list_lookup_insert_eq.
    + rewrite list_lookup_insert_ne by lia. by apply T4.
  - intros j p' b' Hj. rewrite list_lookup_insert_ne by lia. by apply T5.
  - destruct (Z.ltb_spec i (ht_free t)); lia.
  - intros j Hj. destruct (Z.ltb_spec i (ht_free t)).
    + rewrite list_lookup_insert_ne by lia. apply T7. lia.
    + rewrite list_lookup_insert_ne by lia. by apply T7.
Qed.

(** Growing: more slots, none of them written. *)
Lemma table_ok_grow n :
  ht_count t + Z.of_nat n <= MAX_HANDLE_ENTRIES →
  table_ok (HandleTable (ht_process t) (ht_count t + Z.of_nat n) (ht_last t) (ht_free t)
              (ht_entries t ++ replicate n Uninit)).
Proof using Ht.
  intros Hn. destruct Ht as [T1 T2 T3 T4 T5 T6 T7]. unfold MAX_HANDLE_ENTRIES in Hn.
  split; simpl; try lia.
  - rewrite length_app, length_replicate. lia.
  - intros i Hi. rewrite lookup_app_l by lia. by apply T4.
  - intros i p a Hi Hl. destruct (decide (Z.to_nat i < length (ht_entries t))%nat).
    + rewrite lookup_app_l in Hl by done. by eapply T5.
    + rewrite lookup_app_r in Hl by lia. apply lookup_replicate in Hl as [? _]. done.
  - intros i Hi. rewrite lookup_app_l by lia. by apply T7.
Qed.

(** Lowering [last] to the highest used entry, and cutting the tail of the array. *)
Lemma table_ok_trim last n :
  -1 <= last <= ht_last t → (∀ j, last < j <= ht_last t → entry t j = None) →
  (last + 1 <= Z.of_nat n) → 32 <= Z.of_nat n <= ht_count t →
  table_ok (HandleTable (ht_process t) (Z.of_nat n) last (ht_free t) (take n (ht_entries t))).
Proof using Ht.
  intros Hl Hnone Hn Hn32. pose proof (λ j, entry_slot t j Ht) as Hslot.
  destruct Ht as [T1 T2 T3 T4 T5 T6 T7].
  assert (ht_free t <= last + 1) as Hfree.
  { destruct (Z.ltb_spec (last + 1) (ht_free t)); [|lia]. exfalso.
    destruct (T7 (last + 1) ltac:(lia)) as (p & a & He).
    specialize (Hnone (last + 1) ltac:(lia)).
    rewrite (proj2 (entry_some t (last + 1) p a)) in Hnone; [done|]. split; [lia|done]. }
  split; simpl; try lia.
  - rewrite length_take. lia.
  - intros i Hi. rewrite lookup_take_lt by lia. apply T4. lia.
  - intros i p a Hi Hlk. apply lookup_take_Some in Hlk as [Hlk _].
    destruct (Z.leb_spec i (ht_last t)); [|by eapply T5].
    destruct (Hslot i ltac:(lia)) as (p' & a' & He & _ & Hent). simplify_eq.
    rewrite Hnone in Hent by lia. by destruct p.
  - intros i Hi. rewrite lookup_take_lt by lia. by apply T7.
Qed.
End table_updates.

(** ** Allocating an entry *)

Lemma find_free_ok t n i s :
  table_ok t → ht_free t <= i <= ht_last t + 1 → (Z.to_nat (ht_last t + 1 - i) <= n)%nat →
  wp (find_free_entry t n i) (λ r s', s' = s ∧ ∃ j found, r = (j, found) ∧
    i <= j <= ht_last t + 1 ∧ (∀ k, i <= k < j → is_Some (entry t k)) ∧ entry t j = None ∧
    found = bool_decide (j <= ht_last t)) s.
Proof.
  intros Ht. revert i. induction n as [|n IH]; intros i Hi Hn; cbn [find_free_entry];
    destruct (Z.ltb_spec (ht_last t) i) as [Hlt|Hge].
  1,3: apply wp_ret; split; [done|]; exists i, false; split_and!;
    [done|lia|lia|lia|by apply entry_out; right|by rewrite bool_decide_eq_false_2 by lia].
  { lia. }
  pose proof (tb_free t Ht) as Hf.
  destruct (entry_slot t i Ht ltac:(lia)) as (p & a & He & Ha & Hent).
  apply wp_bind, (wp_arr_get _ _ (Slot p a)); [lia|done|]. apply wp_bind, wp_read_slot. cbn [fst].
  destruct p as [p|].
  - eapply wp_mono; [apply (IH (i + 1)); lia|]. intros r s' (-> & j & found & -> & Hj & Hk & Hfree & Hfd).
    split; [done|]. exists j, found. split_and!; try done; try lia.
    intros k Hk'. destruct (decide (k = i)) as [->|]; [rewrite Hent; by eexists|]. apply Hk. lia.
  - apply wp_ret. split; [done|]. exists i, true. split_and!; [done|lia|lia|lia|done|].
    by rewrite bool_decide_eq_true_2 by lia.
Qed.

(** The lowest index of the table that is free. *)
Definition lowest_free (t : handle_table) (i : Z) : Prop :=
  0 <= i ∧ entry t i = None ∧ ∀ j, 0 <= j < i → is_Some (entry t j).

Lemma entry_store t i o a j :
  table_ok t → 0 <= i <= ht_last t + 1 → i < ht_count t →
  entry (set_entries t (Z.max (ht_last t) i) (i + 1) (<[Z.to_nat i:=Slot (Some o) a]> (ht_entries t))) j
  = if decide (j = i) then Some (o, a) else entry t j.
Proof.
  intros Ht Hi Hc. pose proof (tb_count t Ht). destruct (decide (j = i)) as [->|Hne].
  - apply entry_some. simpl. split; [lia|]. apply list_lookup_insert_eq. lia.
  - unfold entry. simpl. destruct (Z.leb_spec 0 j); simpl; [|done].
    rewrite list_lookup_insert_ne by lia.
    destruct (Z.leb_spec j (Z.max (ht_last t) i)), (Z.leb_spec j (ht_last t)); try done; lia.
Qed.

(** The state after an object was stored at index [i] of a table. *)
Record stored (x : xrefs) (to : oid) (i : Z) (e : oid * Z) (s s' : server) : Prop := {
  st_ok : heap_ok x (objs s');
  st_view : ∀ to' j, view s' to' j = if decide (to' = to ∧ j = i) then Some e else view s to' j;
  st_keeps : keeps s s';
  st_objs : ∀ o, o ≠ to → ∃ f, objs s' !! o = f <$> objs s !! o ∧ ∀ ob, same_body ob (f ob);
  st_kinds : kinds (objs s) (objs s');
}.

Lemma view_insert_table (s s' : server) (h : gmap oid object) to tob t' to' j :
  objs s' = <[to:=tob]> h → data tob = handle_table_data t' →
  view s' to' j = if decide (to' = to) then entry t' j
                  else match table_of h to' with Some t => entry t j | None => None end.
Proof.
  intros Hs Hd. unfold view, table_of. rewrite Hs. destruct (decide (to' = to)) as [->|Hne].
  - by rewrite lookup_insert_eq, Hd.
  - by rewrite lookup_insert_ne.
Qed.

Lemma table_of_same_body (h : gmap oid object) o ob ob' to :
  h !! o = Some ob → data ob' = data ob → table_of (<[o:=ob']> h) to = table_of h to.
Proof.
  intros Ho Hd. unfold table_of. destruct (decide (to = o)) as [->|Hne].
  - by rewrite lookup_insert_eq, Ho, Hd.
  - by rewrite lookup_insert_ne.
Qed.

Lemma rank_not_table (h : gmap oid object) to tob t o ob :
  h !! to = Some tob → data tob = handle_table_data t → h !! o = Some ob →
  (rank (data ob) < 2)%nat → o ≠ to.
Proof. intros Hto Hd Ho Hr ->. simplify_eq. rewrite Hd in Hr. simpl in Hr. lia. Qed.

(** A slot beyond the used entries, or a free one, has no target. *)
Lemma free_slot_target t i sl :
  table_ok t → 0 <= i → entry t i = None → ht_entries t !! Z.to_nat i = Some sl → slot_target sl = None.
Proof.
  intros Ht Hi Hfree Hsl. destruct (Z.leb_spec i (ht_last t)).
  - destruct (entry_slot t i Ht ltac:(lia)) as (p & b & He & _ & Hent). simplify_eq.
    rewrite Hfree in Hent. by destruct p.
  - destruct sl as [|p b]; [done|]. by apply (tb_rest t Ht i p b).
Qed.

Lemma heap_table_ok x h to tob t :
  heap_ok x h → h !! to = Some tob → data tob = handle_table_data t → table_ok t.
Proof.
  intros Hok Hto Hd. pose proof (ob_data_ok _ _ _ _ (hp_object _ _ Hok to tob Hto)) as Ht.
  by rewrite Hd in Ht.
Qed.

(** The target of an entry is alive and is not a table. *)
Lemma table_target_live x h to tob t p :
  heap_ok x h → h !! to = Some tob → data tob = handle_table_data t → p ∈ table_targets t →
  ∃ obp, h !! p = Some obp ∧ (rank (data obp) < 2)%nat.
Proof.
  intros Hok Hto Hd Hin.
  destruct (ob_targets _ _ _ _ (hp_object _ _ Hok to tob Hto) p) as (obp & Hp & Hr).
  { rewrite Hd. unfold data_targets. simpl. by rewrite app_nil_r. }
  exists obp. split; [done|]. by rewrite Hd in Hr.
Qed.

Section store.
Context (x : xrefs) (s : server) (to : oid) (tob : object) (t : handle_table).
Context (i : Z) (o : oid) (ob : object) (a : Z).
Context (Hok : heap_ok x (objs s)) (Hto : objs s !! to = Some tob)
  (Hd : data tob = handle_table_data t).
Context (Hi : ht_free t <= i <= ht_last t + 1) (Hc : i < ht_count t) (Ha : u32 a)
  (Hfree : entry t i = None) (Hused : ∀ j, ht_free t <= j < i → is_Some (entry t j)).
Context (Ho : objs s !! o = Some ob) (Hrk : (rank (data ob) < 2)%nat).

Let t3 := set_entries t (Z.max (ht_last t) i) (i + 1) (<[Z.to_nat i:=Slot (Some o) a]> (ht_entries t)).
Let tob3 := ob_data (handle_table_data t3) tob.

Lemma store_heap_ok : heap_ok x (<[to:=tob3]> (<[o:=handled ob]> (objs s))).
Proof using Hok Hto Hd Hi Hc Ha Hfree Hused Ho Hrk.
  pose proof (heap_table_ok x _ to tob t Hok Hto Hd) as Ht. pose proof (tb_free t Ht). pose proof (tb_count t Ht) as Hlen.
  pose proof (rank_not_table _ _ _ _ _ _ Hto Hd Ho Hrk) as Hne.
  destruct (lookup_lt_is_Some_2 (ht_entries t) (Z.to_nat i) ltac:(lia)) as [sl Hsl].
  assert (∀ p, occ p (table_targets t3) = occ p (table_targets t) + occ p [o]) as Hocc.
  { intros p. unfold table_targets. simpl. rewrite (occ_omap_insert _ _ _ sl) by done.
    rewrite (free_slot_target t i sl) by (done || lia). simpl. rewrite occ_nil. lia. }
  eapply (heap_ok_set_table (x_handles [o] x) _ _ to tob tob3 t t3); try done.
  - by apply heap_ok_handled.
  - by rewrite lookup_insert_ne by congruence.
  - apply table_ok_store; [done|lia|done|done|]. intros j Hj.
    destruct (Hused j Hj) as [[p b] He]. apply entry_some in He as [_ He]. eauto.
  - exact (hp_nonneg _ _ Hok).
  - intros p Hin. apply occ_pos in Hin. rewrite Hocc in Hin.
    destruct (decide (p = o)) as [->|Hpo].
    + exists (handled ob). by rewrite lookup_insert_eq.
    + rewrite occ_other, Z.add_0_r in Hin by done. apply occ_elem in Hin.
      rewrite lookup_insert_ne by congruence. by apply (table_target_live x _ to tob t).
  - intros p. rewrite Hocc. simpl. lia.
  - intros p. rewrite Hocc. simpl. lia.
  - simpl. rewrite (occ_other o to) by congruence. lia.
  - simpl. rewrite (occ_other o to) by congruence. lia.
Qed.

Lemma stored_intro s3 :
  objs s3 = <[to:=tob3]> (<[o:=handled ob]> (objs s)) → keeps s s3 → stored x to i (o, a) s s3.
Proof using Hok Hto Hd Hi Hc Ha Hfree Hused Ho Hrk.
  intros Hs3 Hk3. pose proof (heap_table_ok x _ to tob t Hok Hto Hd) as Ht. pose proof (tb_free t Ht).
  split; [rewrite Hs3; apply store_heap_ok|..|done| |].
  - intros to' j. rewrite (view_insert_table s s3 _ to tob3 t3) by done.
    rewrite (table_of_same_body _ o ob) by done. destruct (decide (to' = to)) as [->|Hne'].
    + unfold t3. rewrite entry_store by (done || lia). destruct (decide (j = i)).
      * by rewrite decide_True.
      * rewrite decide_False by naive_solver. unfold view, table_of. by rewrite Hto, Hd.
    + rewrite decide_False by naive_solver. done.
  - intros p Hp. rewrite Hs3, lookup_insert_ne by congruence.
    destruct (decide (p = o)) as [->|Hpo].
    + exists handled. by rewrite lookup_insert_eq, Ho.
    + exists id. rewrite lookup_insert_ne by congruence. split; [by destruct (objs s !! p)|done].
  - rewrite Hs3. intros p obp obp' Hp Hp'. destruct (decide (p = to)) as [->|].
    + rewrite lookup_insert_eq in Hp'. simplify_eq. unfold obj_ops. by rewrite Hd.
    + rewrite lookup_insert_ne in Hp' by done. revert Hp Hp'. by eapply kinds_insert.
Qed.

(** [store_entry] runs after [alloc_entry] raised [last] to cover the new index. *)
Lemma store_entry_ok s1 :
  objs s1 = <[to:=ob_data (handle_table_data
              (set_entries t (Z.max (ht_last t) i) (ht_free t) (ht_entries t))) tob]> (objs s) →
  keeps s s1 → refcount ob < INT_MAX →
  wp (store_entry to i o a) (λ h s', h = index_to_handle i ∧ stored x to i (o, a) s s') s1.
Proof using Hok Hto Hd Hi Hc Ha Hfree Hused Ho Hrk.
  intros Hs1 Hk1 Hmax. pose proof (heap_table_ok x _ to tob t Hok Hto Hd) as Ht. pose proof (tb_free t Ht).
  pose proof (tb_count t Ht) as Hlen.
  pose proof (rank_not_table _ _ _ _ _ _ Hto Hd Ho Hrk) as Hne.
  set (t1 := set_entries t (Z.max (ht_last t) i) (ht_free t) (ht_entries t)) in *.
  set (tob1 := ob_data (handle_table_data t1) tob) in *.
  unfold store_entry. apply wp_bind, (wp_get_table to tob1 t1); [by rewrite Hs1, lookup_insert_eq|done|].
  apply wp_bind, (wp_put_table to tob1); [by rewrite Hs1, lookup_insert_eq|].
  set (t2 := set_entries t (Z.max (ht_last t) i) (i + 1) (ht_entries t)).
  set (tob2 := ob_data (handle_table_data t2) tob).
  apply wp_bind, (wp_grab_for_handle _ o ob); [|pose proof (handles_le_refs _ _ _ _ Hok Ho); lia|done|].
  { simpl. rewrite Hs1, insert_insert_eq, lookup_insert_ne by congruence. done. }
  intros s2 Hs2 He2. simpl in Hs2. rewrite Hs1, insert_insert_eq in Hs2.
  assert (objs s2 !! to = Some tob2) as Hto2.
  { rewrite Hs2, lookup_insert_ne, lookup_insert_eq by congruence. done. }
  apply wp_bind, (wp_get_table to tob2 t2); [done..|].
  apply wp_bind, wp_arr_set; [simpl; lia|].
  apply wp_bind, (wp_put_table to tob2); [done|]. apply wp_ret. split; [done|].
  apply stored_intro.
  - simpl. rewrite Hs2, (insert_insert_ne _ o to) by congruence. by rewrite insert_insert_eq.
  - etrans; [exact Hk1|]. apply same_env_keeps in He2. split; simpl; apply He2.
Qed.
End store.

(** A step that keeps every view and every object but the table. *)
Lemma stored_from x to i e s s1 s' :
  stored x to i e s1 s' → keeps s s1 → (∀ to' j, view s1 to' j = view s to' j) →
  (∀ o, o ≠ to → objs s1 !! o = objs s !! o) → is_Some (objs s1 !! to) →
  kinds (objs s) (objs s1) → stored x to i e s s'.
Proof.
  intros [A B C D E] Hk Hv Ho Hto Hkd. split; [done| | | |].
  - intros to' j. by rewrite B, Hv.
  - by etrans.
  - intros o Hne. rewrite <-Ho by done. by apply D.
  - intros o ob ob' Hob Hob'. assert (is_Some (objs s1 !! o)) as [ob1 Hob1].
    { destruct (decide (o = to)) as [->|]; [done|]. rewrite Ho by done. by eexists. }
    rewrite (E o ob1 ob') by done. by apply (Hkd o).
Qed.

Lemma set_entries_id t : set_entries t (ht_last t) (ht_free t) (ht_entries t) = t.
Proof. by destruct t. Qed.
Lemma ob_data_id ob : ob_data (data ob) ob = ob.
Proof. by destruct ob. Qed.

(** Replacing a table by one with the same entries and targets. *)
Lemma retable_ok x h to tob t t' :
  heap_ok x h → h !! to = Some tob → data tob = handle_table_data t →
  table_ok t' → table_targets t' = table_targets t →
  heap_ok x (<[to:=ob_data (handle_table_data t') tob]> h).
Proof.
  intros Hok Hto Hd Ht' Htg.
  eapply (heap_ok_set_table x x h to tob _ t t'); simpl; try done; try (intros; by rewrite Htg).
  - exact (hp_nonneg _ _ Hok).
  - intros p. rewrite Htg. by eapply table_target_live.
Qed.

Definition grow_table (t : handle_table) (count : Z) : handle_table :=
  HandleTable (ht_process t) count (ht_last t) (ht_free t)
    (ht_entries t ++ replicate (Z.to_nat (count - ht_count t)) Uninit).

Lemma grow_table_ok t count :
  table_ok t → ht_count t <= count <= MAX_HANDLE_ENTRIES → table_ok (grow_table t count).
Proof.
  intros Ht Hc. pose proof (table_ok_grow t Ht (Z.to_nat (count - ht_count t)) ltac:(lia)) as Hg.
  replace (ht_count t + Z.of_nat (Z.to_nat (count - ht_count t))) with count in Hg by lia. done.
Qed.

Lemma grow_table_entry t count j : table_ok t → entry (grow_table t count) j = entry t j.
Proof.
  intros Ht. unfold entry. simpl. pose proof (tb_last t Ht). pose proof (tb_count t Ht).
  destruct (Z.leb_spec 0 j), (Z.leb_spec j (ht_last t)); simpl; [|done..].
  by rewrite lookup_app_l by lia.
Qed.

Lemma grow_table_targets t count : table_targets (grow_table t count) = table_targets t.
Proof. unfold table_targets. simpl. by rewrite omap_app, omap_uninit, app_nil_r. Qed.

Section alloc_entry.
Context (x : xrefs) (s : server) (to : oid) (tob : object) (t : handle_table).
Context (Hok : heap_ok x (objs s)) (Hto : objs s !! to = Some tob)
  (Hd : data tob = handle_table_data t).

(** Growing fails exactly when the table is at its maximum size or memory is short. *)
Lemma grow_ok (Q : bool → server → Prop) :
  (∀ s', objs s' = objs s → keeps s s' → last_error s' = STATUS_INSUFFICIENT_RESOURCES →
     ht_count t = MAX_HANDLE_ENTRIES ∨ alloc_fails s → Q false s') →
  (∀ s' count, ht_count t < count <= MAX_HANDLE_ENTRIES → ¬ alloc_fails s →
     objs s' = <[to:=ob_data (handle_table_data (grow_table t count)) tob]> (objs s) →
     keeps s s' → Q true s') →
  wp (grow_handle_table to) Q s.
Proof using Hok Hto Hd.
  intros Hfail Hgrow. pose proof (heap_table_ok x _ to tob t Hok Hto Hd) as Ht.
  pose proof (tb_range t Ht). unfold grow_handle_table.
  apply wp_bind, (wp_get_table to tob t); [done..|]. cbv zeta.
  destruct (Z.eqb_spec (Z.min (ht_count t * 2) MAX_HANDLE_ENTRIES) (ht_count t)) as [|Hne].
  { apply wp_bind, wp_set_error. intros. apply wp_ret, Hfail; [done..|]. left. lia. }
  apply wp_bind, wp_alloc_result. intros [] s1 Hs1 Hk1 Hal.
  - apply wp_bind, (wp_put_table to tob); [by rewrite Hs1|]. apply wp_ret.
    eapply (Hgrow _ (Z.min (ht_count t * 2) MAX_HANDLE_ENTRIES)).
    + unfold MAX_HANDLE_ENTRIES in *. lia.
    + by intros ?%Hal.
    + simpl. by rewrite Hs1.
    + etrans; [done|apply keeps_objs].
  - apply wp_bind, wp_set_error. intros s2 Hs2 Hk2 He. apply wp_ret, Hfail; [congruence|by etrans|done|].
    right. by apply Hal.
Qed.

Context (o : oid) (ob : object) (a : Z).
Context (Ho : objs s !! o = Some ob) (Hrk : (rank (data ob) < 2)%nat)
  (Hmax : refcount ob < INT_MAX) (Ha : u32 a).

(** Taking the first index beyond the used ones. *)
Lemma append_entry_ok i s1 :
  i = ht_last t + 1 → i < ht_count t → (∀ k, ht_free t <= k < i → is_Some (entry t k)) →
  objs s1 = objs s → keeps s s1 →
  wp (t <- get_table to;
      put_table to (HandleTable (ht_process t) (ht_count t) i (ht_free t) (ht_entries t)) ;;
      store_entry to i o a)
    (λ h s', h = index_to_handle i ∧ stored x to i (o, a) s s') s1.
Proof using Hok Hto Hd Ho Hrk Hmax Ha.
  intros Hi Hc Hused Hs1 Hk1. pose proof (heap_table_ok x _ to tob t Hok Hto Hd) as Ht.
  pose proof (tb_free t Ht).
  apply wp_bind, (wp_get_table to tob t); [by rewrite Hs1|done|].
  apply wp_bind, (wp_put_table to tob); [by rewrite Hs1|].
  eapply (store_entry_ok x s to tob t); try done; try lia.
  - by apply entry_out; right; lia.
  - simpl. rewrite Hs1. unfold set_entries. by rewrite Z.max_r by lia.
  - etrans; [done|apply keeps_objs].
Qed.
End alloc_entry.

Lemma used_below_free t k : table_ok t → 0 <= k < ht_free t → is_Some (entry t k).
Proof.
  intros Ht Hk. destruct (tb_used t Ht k Hk) as (p & a & He). pose proof (tb_free t Ht).
  exists (p, a). apply entry_some. split; [lia|done].
Qed.

(** No entry can be added to the table [to]: every entry it has memory for is
    used, and the array is at its largest size or cannot be enlarged. *)
Definition no_entry (s : server) (to : oid) : Prop :=
  ∃ t, table_of (objs s) to = Some t ∧ (∀ i, 0 <= i < ht_count t → is_Some (view s to i)) ∧
       (ht_count t = MAX_HANDLE_ENTRIES ∨ alloc_fails s).

Lemma no_entry_intro s to tob t :
  objs s !! to = Some tob → data tob = handle_table_data t →
  no_entry s to ↔ (∀ i, 0 <= i < ht_count t → is_Some (entry t i)) ∧
                  (ht_count t = MAX_HANDLE_ENTRIES ∨ alloc_fails s).
Proof.
  intros Hto Hd. assert (table_of (objs s) to = Some t) as Ht by (unfold table_of; by rewrite Hto, Hd).
  unfold no_entry, view. rewrite Ht. split.
  - intros (? & [= <-] & ? & ?). done.
  - intros [? ?]. eauto.
Qed.

Lemma alloc_entry_ok x s to tob t o ob a :
  heap_ok x (objs s) → objs s !! to = Some tob → data tob = handle_table_data t →
  objs s !! o = Some ob → (rank (data ob) < 2)%nat → refcount ob < INT_MAX → u32 a →
  wp (alloc_entry to o a) (λ h s',
    (¬ no_entry s to ∧
     ∃ i, lowest_free t i ∧ i < MAX_HANDLE_ENTRIES ∧ h = index_to_handle i ∧ stored x to i (o, a) s s') ∨
    (h = 0 ∧ objs s' = objs s ∧ keeps s s' ∧ last_error s' = STATUS_INSUFFICIENT_RESOURCES ∧
     no_entry s to)) s.
Proof.
  intros Hok Hto Hd Ho Hrk Hmax Ha. pose proof (heap_table_ok x _ to tob t Hok Hto Hd) as Ht.
  pose proof (tb_free t Ht). pose proof (tb_count t Ht). pose proof (tb_range t Ht). pose proof (tb_last t Ht).
  unfold alloc_entry. apply wp_bind, (wp_get_table to tob t); [done..|].
  apply wp_bind. eapply wp_mono; [apply find_free_ok; [done|lia|lia]|].
  intros r s0 (-> & i & found & -> & Hi & Hused & Hfree & Hfound).
  assert (lowest_free t i) as Hlow.
  { split_and!; [lia|done|]. intros j Hj. destruct (Z.ltb_spec j (ht_free t)).
    - apply used_below_free; [done|lia].
    - apply Hused. lia. }
  pose proof (no_entry_intro s to tob t Hto Hd) as Hnone.
  assert (i < ht_count t → ¬ no_entry s to) as Hroom.
  { intros Hlt [Hall _]%Hnone. destruct Hlow as (? & Hnf & _).
    destruct (Hall i ltac:(lia)) as [? Hsome]. congruence. }
  destruct found; symmetry in Hfound.
  - apply bool_decide_eq_true in Hfound. eapply wp_mono.
    + eapply (store_entry_ok x s to tob t i o ob a); try done; [lia|].
      rewrite Z.max_l, set_entries_id, <-Hd, ob_data_id by lia. by rewrite insert_id.
    + intros h s' [-> Hst]. left. split; [apply Hroom; lia|]. exists i.
      unfold MAX_HANDLE_ENTRIES. split_and!; [done|lia|done..].
  - apply bool_decide_eq_false in Hfound. assert (i = ht_last t + 1) as Hil by lia.
    apply wp_bind. destruct (Z.leb_spec (ht_count t) i).
    + apply (grow_ok x s to tob t Hok Hto Hd).
      * intros s1 Hs1 Hk1 He Hwhy. apply wp_ret. right. split_and!; try done.
        apply Hnone. split; [|done]. intros j Hj. apply Hlow. lia.
      * intros s1 count Hc Hal Hs1 Hk1. simpl.
        set (t1 := grow_table t count) in *. set (tob1 := ob_data (handle_table_data t1) tob) in *.
        assert (∀ j, entry t1 j = entry t j) as Hent by (intros; by apply grow_table_entry).
        eapply wp_mono.
        { apply (append_entry_ok x s1 to tob1 t1) with (ob := ob); try done; simpl; try lia.
          - rewrite Hs1. apply (retable_ok x _ to tob t); try done;
              [by apply grow_table_ok; [|lia]|apply grow_table_targets].
          - by rewrite Hs1, lookup_insert_eq.
          - rewrite Hs1, lookup_insert_ne; [done|]. intros <-.
            by apply (rank_not_table _ _ _ _ _ _ Hto Hd Ho Hrk).
          - intros k Hk. rewrite Hent. apply Hlow. lia. }
        intros h s' [-> Hst]. left. split; [intros [_ [?|?]]%Hnone; [lia|done]|].
        exists i. split_and!; [done|lia|done|].
        apply (stored_from x to i _ s s1 s' Hst Hk1).
        -- intros to' j. rewrite (view_insert_table s s1 _ to tob1 t1) by done.
           destruct (decide (to' = to)) as [->|]; [|done]. rewrite Hent. unfold view, table_of.
           by rewrite Hto, Hd.
        -- intros p Hp. by rewrite Hs1, lookup_insert_ne.
        -- rewrite Hs1, lookup_insert_eq. by eexists.
        -- rewrite Hs1. apply (kinds_insert _ _ tob); [done|]. unfold obj_ops. by rewrite Hd.
    + apply wp_ret. simpl. eapply wp_mono; [by apply (append_entry_ok x s to tob t) with (ob := ob)|].
      intros h s' [-> Hst]. left. split; [by apply Hroom|]. exists i.
      unfold MAX_HANDLE_ENTRIES. split_and!; [done|lia|done..].
Qed.
