(* ===== verification/HandleThms.v ===== *)
(** * What the handle operations do to the handle map

    Lookup, closing and shrinking of handle tables, on top of the invariants of
    [HandleInv.v].

    ** Theorems on the handle operations

    Each theorem runs a whole operation of [Handle.v] from any state that
    satisfies [server_ok] and says which positions of the handle map changed. *)

From stdpp Require Import base list gmap fin_maps.
From S2P Require Import Prelude Access Object ObjectInv Handle HandleInv.

Open Scope Z_scope.
Open Scope server_scope.

(** ** Lookup *)

(** The table and index a handle of a process denotes. *)
Definition handle_place (s : server) (pr : process) (handle : Z) : option (oid * Z) :=
  if handle_is_global handle
  then (λ to, (to, handle_to_index (handle_global_to_local handle))) <$> global_table s
  else (λ to, (to, handle_to_index handle)) <$> p_handles pr.

Definition resolve (s : server) (pr : process) (handle : Z) : option (oid * Z * oid * Z) :=
  match handle_place s pr handle with
  | Some (to, i) => match view s to i with Some (o, a) => Some (to, i, o, a) | None => None end
  | None => None
  end.

Lemma pinned_table x s to : server_ok x s → owned_table s to →
  ∃ tob t, objs s !! to = Some tob ∧ data tob = handle_table_data t ∧ table_ok t ∧ 0 < x_ref x to.
Proof.
  intros Hs Hto. destruct (so_tables _ _ Hs to Hto) as (Hx & tob & Htob & Hk).
  destruct (data tob) as [t|? ?|?| |? ?|?|? ? ?|?|? ?|?|?] eqn:Hd;
    unfold obj_ops in Hk; rewrite Hd in Hk; try done.
  exists tob, t. split_and!; try done. by eapply heap_table_ok; [apply Hs|..].
Qed.

Lemma handle_place_owned s p pr handle to i :
  procs s !! p = Some pr → handle_place s pr handle = Some (to, i) → owned_table s to.
Proof.
  intros Hp Hh. unfold handle_place in Hh. destruct (handle_is_global handle).
  - destruct (global_table s) as [g|] eqn:Hg; simplify_eq/=. by left.
  - destruct (p_handles pr) as [t|] eqn:Ht; simplify_eq/=. right. eauto.
Qed.

Lemma get_handle_ok x s p pr handle :
  server_ok x s → procs s !! p = Some pr →
  wp (get_handle (Some p) handle) (λ r s', r = resolve s pr handle ∧ s' = s) s.
Proof.
  intros Hs Hp. unfold get_handle. apply wp_bind. unfold get_process. wp_steps.
  apply (wp_deref _ pr); [done|]. wp_steps.
  assert ((if handle_is_global handle then (handle_global_to_local handle, global_table s)
           else (handle, p_handles pr))
          = ((if handle_is_global handle then handle_global_to_local handle else handle),
             if handle_is_global handle then global_table s else p_handles pr)) as ->
    by by destruct (handle_is_global handle).
  set (to := if handle_is_global handle then global_table s else p_handles pr).
  set (hl := if handle_is_global handle then handle_global_to_local handle else handle).
  assert (handle_place s pr handle = (λ to, (to, handle_to_index hl)) <$> to) as Hpl.
  { unfold handle_place, to, hl. by destruct (handle_is_global handle). }
  unfold resolve. rewrite Hpl. destruct to as [to|]; [|done]. simpl.
  destruct (pinned_table x s to Hs) as (tob & t & Hto & Hd & Ht & _).
  { by eapply handle_place_owned; [exact Hp|rewrite Hpl]. }
  apply wp_bind, (wp_get_table to tob t); [done..|]. cbv zeta.
  unfold view, table_of. rewrite Hto, Hd.
  destruct (Z.ltb_spec (handle_to_index hl) 0). { rewrite entry_out by lia. done. }
  destruct (Z.ltb_spec (ht_last t) (handle_to_index hl)). { rewrite entry_out by lia. done. }
  destruct (entry_slot t (handle_to_index hl) Ht ltac:(lia)) as (q & a & He & _ & ->).
  apply wp_bind, (wp_arr_get _ _ (Slot q a)); [done|done|]. apply wp_bind, wp_read_slot.
  by destruct q.
Qed.

Lemma resolve_some s pr handle to i o a :
  resolve s pr handle = Some (to, i, o, a) ↔
  handle_place s pr handle = Some (to, i) ∧ view s to i = Some (o, a).
Proof.
  unfold resolve. split.
  - destruct (handle_place s pr handle) as [[to' i']|]; [|done].
    destruct (view s to' i') as [[??]|] eqn:?; naive_solver.
  - by intros [-> ->].
Qed.

Lemma resolve_local s pr handle to :
  handle_is_global handle = false → p_handles pr = Some to →
  handle_place s pr handle = Some (to, handle_to_index handle).
Proof. intros Hg Ht. unfold handle_place. by rewrite Hg, Ht. Qed.

(** ** Shrinking *)

Lemma trim_last_ok t n last s :
  table_ok t → -1 <= last <= ht_last t → (Z.to_nat (last + 1) <= n)%nat →
  (∀ j, last < j <= ht_last t → entry t j = None) →
  wp (trim_last (ht_entries t) n last) (λ l s', s' = s ∧ -1 <= l <= last ∧
    (∀ j, l < j <= ht_last t → entry t j = None)) s.
Proof.
  intros Ht. revert last. induction n as [|n IH]; intros last Hl Hn Hnone; cbn [trim_last];
    destruct (Z.ltb_spec last 0) as [Hlt|Hge].
  1,3: apply wp_ret; split_and!; [done|lia|lia|done].
  { lia. }
  destruct (entry_slot t last Ht ltac:(lia)) as (p & a & He & _ & Hent).
  apply wp_bind, (wp_arr_get _ _ (Slot p a)); [lia|done|]. apply wp_bind, wp_read_slot. cbn [fst].
  destruct p as [p|].
  - apply wp_ret. split_and!; [done|lia|lia|done].
  - eapply wp_mono; [apply IH; [lia|lia|]|].
    + intros j Hj. destruct (decide (j = last)) as [->|]; [done|]. apply Hnone. lia.
    + intros l s' (-> & ? & ?). split_and!; [done|lia|lia|done].
Qed.

(** Two tables that implement the same map. *)
Record same_map (t t' : handle_table) : Prop := {
  sm_ok : table_ok t';
  sm_entry : ∀ j, entry t' j = entry t j;
  sm_targets : table_targets t' = table_targets t;
  sm_process : ht_process t' = ht_process t;
}.

Lemma same_map_trim t last n :
  table_ok t → -1 <= last <= ht_last t → (∀ j, last < j <= ht_last t → entry t j = None) →
  last + 1 <= Z.of_nat n → 32 <= Z.of_nat n <= ht_count t →
  same_map t (HandleTable (ht_process t) (Z.of_nat n) last (ht_free t) (take n (ht_entries t))).
Proof.
  intros Ht Hl Hnone Hn Hn32.
  pose proof (table_ok_trim t Ht last n Hl Hnone Hn Hn32) as Ht'.
  pose proof (tb_count t Ht) as Hlen. split; [done| |..].
  - intros j. unfold entry at 1. simpl.
    destruct (Z.leb_spec 0 j); simpl; [|by rewrite entry_out by lia].
    destruct (Z.leb_spec j last).
    + rewrite lookup_take_lt by lia. unfold entry.
      by rewrite (proj2 (Z.leb_le 0 j)), (proj2 (Z.leb_le j (ht_last t))) by lia.
    + destruct (Z.leb_spec j (ht_last t)); [by rewrite Hnone by lia|by rewrite entry_out by lia].
  - unfold table_targets. simpl. rewrite <-(take_drop n (ht_entries t)) at 2. rewrite omap_app.
    pose proof (table_ok_trim t Ht last (length (ht_entries t)) Hl Hnone ltac:(lia) ltac:(lia)) as Ht1.
    pose proof (targets_from_end (Z.of_nat n) _ Ht1 ltac:(simpl; lia) ltac:(lia)) as Hend.
    unfold targets_from in Hend. simpl in Hend.
    rewrite firstn_all, Nat2Z.id in Hend. by rewrite Hend, app_nil_r.
  - done.
Qed.

Lemma shrink_ok s to tob t (Q : unit → server → Prop) :
  objs s !! to = Some tob → data tob = handle_table_data t → table_ok t →
  (∀ s' t', same_map t t' → keeps s s' →
     objs s' = <[to:=ob_data (handle_table_data t') tob]> (objs s) → Q tt s') →
  wp (shrink_handle_table to) Q s.
Proof.
  intros Hto Hd Ht HQ. pose proof (tb_count t Ht) as Hlen. pose proof (tb_range t Ht).
  pose proof (tb_last t Ht). unfold shrink_handle_table.
  apply wp_bind, (wp_get_table to tob t); [done..|].
  apply wp_bind. eapply wp_mono; [apply trim_last_ok; [done|lia|lia|]|]; [intros; lia|].
  intros last s0 (-> & Hl & Hnone). cbv zeta.
  apply wp_bind, (wp_put_table to tob); [done|].
  set (t1 := HandleTable (ht_process t) (ht_count t) last (ht_free t) (ht_entries t)).
  assert (same_map t t1) as Hsm.
  { pose proof (same_map_trim t last (length (ht_entries t)) Ht Hl Hnone ltac:(lia) ltac:(lia)) as Hsm.
    by rewrite <-Hlen, firstn_all in Hsm. }
  set (s1 := set_objs _ s).
  destruct (Z.leb_spec (ht_count t / 4) last). { apply wp_ret. eapply HQ; [done|apply keeps_objs|done]. }
  destruct (Z.ltb_spec (ht_count t) (MIN_HANDLE_ENTRIES * 2)). { apply wp_ret. eapply HQ; [done|apply keeps_objs|done]. }
  unfold MIN_HANDLE_ENTRIES in *.
  apply wp_bind, wp_alloc_ok. intros b s2 Hs2 Hk2.
  assert (keeps s s2) as Hks by (trans s1; [apply keeps_objs|done]).
  destruct b; [|apply wp_ret; by eapply HQ; [| |rewrite Hs2]].
  eapply (wp_put_table to (ob_data (handle_table_data t1) tob)).
  { rewrite Hs2. simpl. apply lookup_insert_eq. }
  apply (HQ _ (HandleTable (ht_process t) (ht_count t / 2) last (ht_free t)
                 (take (Z.to_nat (ht_count t / 2)) (ht_entries t)))).
  - rewrite <-(Z2Nat.id (ht_count t / 2)) at 1 by (apply Z.div_pos; lia).
    apply same_map_trim; try done; rewrite Z2Nat.id by (apply Z.div_pos; lia).
    + pose proof (Z.div_le_compat_l (ht_count t) 2 4 ltac:(lia) ltac:(lia)). lia.
    + pose proof (Z.div_le_mono 64 (ht_count t) 2 ltac:(lia) ltac:(lia)) as Hm.
      change (64 / 2) with 32 in Hm. pose proof (Z.div_le_upper_bound (ht_count t) 2 (ht_count t)). lia.
  - trans s2; [done|apply keeps_objs].
  - simpl. rewrite Hs2. simpl. by rewrite insert_insert_eq.
Qed.

(** ** Removing an entry *)

Lemma entry_clear t i a free j :
  0 <= i → (Z.to_nat i < length (ht_entries t))%nat →
  entry (set_entries t (ht_last t) free (<[Z.to_nat i:=Slot None a]> (ht_entries t))) j
  = if decide (j = i) then None else entry t j.
Proof.
  intros Hi Hlt. unfold entry. simpl. destruct (Z.leb_spec 0 j), (Z.leb_spec j (ht_last t)); simpl;
    try (by destruct (decide (j = i))).
  destruct (decide (j = i)) as [->|Hne].
  - rewrite list_lookup_insert_eq by lia. done.
  - by rewrite list_lookup_insert_ne by lia.
Qed.

(** A store in which the entry [i] of [to] is gone and its reference on [o] is
    still counted: between the update of the table and the release of the object. *)
Lemma heap_ok_clear x h to tob t i o a t' :
  heap_ok x h → h !! to = Some tob → data tob = handle_table_data t → entry t i = Some (o, a) →
  same_map (set_entries t (ht_last t) (if i <? ht_free t then i else ht_free t)
              (<[Z.to_nat i:=Slot None a]> (ht_entries t))) t' →
  heap_ok (x_handles [o] x) (<[to:=ob_data (handle_table_data t') tob]> h) ∧ o ≠ to.
Proof.
  intros Hok Hto Hd He Hsm. pose proof (heap_table_ok x _ to tob t Hok Hto Hd) as Ht.
  pose proof (entry_target _ _ _ _ He) as Hin.
  destruct (table_target_live x h to tob t o Hok Hto Hd Hin) as (ob & Ho & Hrk).
  pose proof (rank_not_table _ _ _ _ _ _ Hto Hd Ho Hrk) as Hne.
  apply entry_some in He as [Hi He].
  assert (∀ p, occ p (table_targets t') = occ p (table_targets t) - occ p [o]) as Hocc.
  { intros p. rewrite (sm_targets _ _ Hsm). unfold table_targets. simpl.
    rewrite (occ_omap_insert _ _ _ _ _ He). simpl. rewrite occ_nil. lia. }
  split; [|done]. eapply (heap_ok_set_table x _ h to tob _ t t'); simpl; try done.
  - apply Hsm.
  - apply x_ok_handles. exact (hp_nonneg _ _ Hok).
  - intros p Hp. apply (table_target_live x h to tob t p Hok Hto Hd).
    apply occ_elem. apply occ_pos in Hp. rewrite Hocc in Hp. pose proof (occ_nonneg p [o]). lia.
  - intros p. rewrite Hocc. lia.
  - intros p. rewrite Hocc. lia.
  - rewrite occ_other by congruence. lia.
  - rewrite occ_other by congruence. lia.
Qed.

(** Releases do not touch the tables. *)
Lemma table_of_shrinks x h h' to :
  shrinks h h' → heap_ok x h' → (∀ t, table_of h to = Some t → 0 < x_ref x to) →
  table_of h' to = table_of h to.
Proof.
  intros Hs Hok Hx. unfold table_of in *. destruct (h' !! to) as [ob'|] eqn:Ho'.
  - destruct (Hs to ob' Ho') as (ob & Ho & -> & _). by rewrite Ho.
  - destruct (h !! to) as [ob|]; [|done]. destruct (data ob); try done.
    destruct (heap_ok_live x h' to Hok (Hx _ eq_refl)) as [? ?]. congruence.
Qed.

(** The state after the entry [i] of the table [to] was removed. *)
Record removed (x : xrefs) (to : oid) (i : Z) (s s' : server) : Prop := {
  rm_ok : heap_ok x (objs s');
  rm_view : ∀ to' j, view s' to' j = if decide (to' = to ∧ j = i) then None else view s to' j;
  rm_keeps : keeps s s';
  rm_kinds : kinds (objs s) (objs s');
}.

Section remove.
Context (x : xrefs) (s : server) (to : oid) (tob : object) (t : handle_table).
Context (i : Z) (o : oid) (a : Z).
Context (Hok : heap_ok x (objs s)) (Hto : objs s !! to = Some tob)
  (Hd : data tob = handle_table_data t) (Hent : entry t i = Some (o, a)).

Let t1 := set_entries t (ht_last t) (if i <? ht_free t then i else ht_free t)
            (<[Z.to_nat i:=Slot None a]> (ht_entries t)).

Lemma cleared_view s2 t2 to' j :
  same_map t1 t2 → objs s2 = <[to:=ob_data (handle_table_data t2) tob]> (objs s) →
  view s2 to' j = if decide (to' = to ∧ j = i) then None else view s to' j.
Proof using Hto Hd Hent.
  intros Hsm Hs2. pose proof Hent as [Hi He]%entry_some. pose proof (lookup_lt_Some _ _ _ He) as Hlt.
  rewrite (view_insert_table s s2 _ to (ob_data (handle_table_data t2) tob) t2) by done.
  destruct (decide (to' = to)) as [->|Hne'].
  - rewrite (sm_entry _ _ Hsm). unfold t1. rewrite entry_clear by (done || lia).
    destruct (decide (j = i)) as [->|]; [by rewrite decide_True|].
    rewrite decide_False by naive_solver. unfold view, table_of. by rewrite Hto, Hd.
  - rewrite decide_False by naive_solver. done.
Qed.

(** Dropping the reference of the removed entry. *)
Lemma removed_release s2 t2 :
  same_map t1 t2 → keeps s s2 →
  objs s2 = <[to:=ob_data (handle_table_data t2) tob]> (objs s) →
  wp (release_object_from_handle release_object o) (λ _ s', removed x to i s s') s2.
Proof using Hok Hto Hd Hent.
  intros Hsm Hk2 Hs2.
  destruct (heap_ok_clear x (objs s) to tob t i o a t2 Hok Hto Hd Hent Hsm) as [Hok2 Hne].
  rewrite <-Hs2 in Hok2.
  destruct (table_target_live x _ to tob t o Hok Hto Hd (entry_target _ _ _ _ Hent)) as (ob & Ho & Hrk).
  assert (objs s2 !! o = Some ob) as Ho2 by (by rewrite Hs2, lookup_insert_ne by congruence).
  eapply wp_mono.
  { apply (release_from_handle_ok release_depth release_object (release_depth_ok _) x (objs s2) ∅ o ob);
      try done; [by rewrite map_union_empty|apply map_disjoint_empty_r|exact (hp_nonneg _ _ Hok)|].
    unfold release_depth. lia. }
  intros [] s' (h' & Hs' & Hok' & Hsh & Hse). rewrite map_union_empty in Hs'. subst h'.
  split; [done| |trans s2; [done|by apply same_env_keeps]|].
  - intros to' j. unfold view at 1. rewrite (table_of_shrinks x (objs s2)); [by apply (cleared_view s2 t2)|done..|].
    intros t' Ht'. pose proof (table_pinned _ _ _ _ Hok2 Ht') as Hp. simpl in Hp.
    rewrite occ_other in Hp; [lia|]. intros ->. unfold table_of in Ht'. rewrite Ho2 in Ht'.
    destruct (data ob); simpl in Hrk; (done || lia).
  - intros p obp obp' Hp Hp'. destruct (Hsh p obp' Hp') as (obp2 & Hp2 & Hdp & _).
    rewrite Hs2 in Hp2. unfold obj_ops at 1. rewrite Hdp. fold (obj_ops obp2).
    revert Hp Hp2. apply (kinds_insert _ _ tob); [done|]. unfold obj_ops. by rewrite Hd.
Qed.

(** The code of [close_handle] once the entry was found and may be closed. *)
Lemma remove_entry_ok :
  wp (t <- get_table to;
      sl <- arr_get (ht_entries t) i;
      es <- arr_set (ht_entries t) i (match sl with Slot _ a => Slot None a | Uninit => Slot None 0 end);
      put_table to (HandleTable (ht_process t) (ht_count t) (ht_last t)
        (if i <? ht_free t then i else ht_free t) es) ;;
      (if i =? ht_last t then shrink_handle_table to else ret tt) ;;
      release_object_from_handle release_object o ;;
      ret STATUS_SUCCESS)
    (λ st s', st = STATUS_SUCCESS ∧ removed x to i s s') s.
Proof using Hok Hto Hd Hent.
  pose proof (heap_table_ok x _ to tob t Hok Hto Hd) as Ht.
  pose proof (entry_access _ _ _ _ Ht Hent) as Ha.
  pose proof Hent as [Hi He]%entry_some. pose proof (lookup_lt_Some _ _ _ He) as Hlt.
  apply wp_bind, (wp_get_table to tob t); [done..|].
  apply wp_bind, (wp_arr_get _ _ (Slot (Some o) a)); [lia|done|].
  apply wp_bind, wp_arr_set; [lia|].
  apply wp_bind, (wp_put_table to tob); [done|].
  assert (table_ok t1) as Ht1 by (by eapply table_ok_clear).
  set (s1 := set_objs _ s).
  assert (keeps s s1) as Hk1 by apply keeps_objs.
  apply wp_bind. destruct (i =? ht_last t).
  - apply (shrink_ok s1 to (ob_data (handle_table_data t1) tob) t1); [apply lookup_insert_eq|done..|].
    intros s2 t2 Hsm Hk2 Hs2. apply wp_bind. eapply wp_mono; [apply (removed_release s2 t2 Hsm)|done].
    + by trans s1.
    + rewrite Hs2. simpl. by rewrite insert_insert_eq.
  - apply wp_ret, wp_bind. eapply wp_mono; [by apply (removed_release s1 t1)|done].
Qed.
End remove.

(** * Theorems on the handle operations *)

(** ** Consequences of the updates of the map *)

Lemma stored_server_ok x to i e s s' : server_ok x s → stored x to i e s s' → server_ok x s'.
Proof. intros Hs [A B C D E]. by apply (server_ok_step x x s s'). Qed.

Lemma removed_server_ok x to i s s' : server_ok x s → removed x to i s s' → server_ok x s'.
Proof. intros Hs [A B C D]. by apply (server_ok_step x x s s'). Qed.

Lemma server_ok_same x s s' : server_ok x s → keeps s s' → objs s' = objs s → server_ok x s'.
Proof.
  intros Hs Hk Ho. apply (server_ok_step x x s s'); try done; rewrite Ho; [apply Hs|].
  intros o ob ob' H H'. congruence.
Qed.

Lemma wp_get_process p pr (Q : process → server → Prop) s :
  procs s !! p = Some pr → Q pr s → wp (get_process p) Q s.
Proof. intros Hp HQ. unfold get_process. wp_steps. by apply (wp_deref _ pr). Qed.

(** Handles handed out for a table index denote that index. *)
Lemma new_handle_place s pr to i :
  0 <= i < MAX_HANDLE_ENTRIES → p_handles pr = Some to →
  handle_place s pr (index_to_handle i) = Some (to, i).
Proof.
  intros Hi Ht. rewrite (resolve_local _ _ _ to), index_handle_roundtrip; try done.
  apply local_not_global. rewrite index_to_handle_eq by done. unfold MAX_HANDLE_ENTRIES in Hi. lia.
Qed.

Lemma handle_place_keeps s s' pr h : keeps s s' → handle_place s' pr h = handle_place s pr h.
Proof. intros Hk. unfold handle_place. by rewrite (kp_global _ _ Hk). Qed.

(** ** Allocation *)

(** A new handle [h] of the process [pr] on [o]: the lowest free index of its table. *)
Definition opened (x : xrefs) (s : server) (pr : process) (h : Z) (o : oid) (b : Z) (s' : server) : Prop :=
  ∃ to i, p_handles pr = Some to ∧ h = index_to_handle i ∧ 0 <= i < MAX_HANDLE_ENTRIES ∧
    view s to i = None ∧ (∀ j, 0 <= j < i → is_Some (view s to j)) ∧ stored x to i (o, b) s s'.

(** The access mask of a new entry, with the inherit flag of the attributes. *)
Definition with_inherit (attr access : Z) : Z :=
  if has attr OBJ_INHERIT then Z.lor access RESERVED_INHERIT else access.

(** The pseudo-handles that [get_magic_handle] knows. *)
Definition is_magic (handle : Z) : bool :=
  existsb (Z.eqb handle) [0xfffffffa; 0xfffffffb; 0xfffffffc; 0xfffffffe; 0x7fffffff; 0xffffffff].

Lemma stored_resolve x to i o b s s' pr h :
  stored x to i (o, b) s s' → handle_place s pr h = Some (to, i) → resolve s' pr h = Some (to, i, o, b).
Proof.
  intros Hst Hpl. apply resolve_some. rewrite (handle_place_keeps s s') by apply Hst. split; [done|].
  rewrite (st_view _ _ _ _ _ _ Hst). by rewrite decide_True.
Qed.

Lemma stored_others x to i e s s' to' j :
  stored x to i e s s' → (to', j) ≠ (to, i) → view s' to' j = view s to' j.
Proof. intros Hst Hne. rewrite (st_view _ _ _ _ _ _ Hst). rewrite decide_False; [done|]. naive_solver. Qed.

Lemma opened_resolve x s pr h o b s' : opened x s pr h o b s' →
  h ≠ 0 ∧ is_magic h = false ∧ resolve s pr h = None ∧
  ∃ to i, p_handles pr = Some to ∧ (∀ j, 0 <= j < i → is_Some (view s to j)) ∧
    resolve s' pr h = Some (to, i, o, b) ∧ stored x to i (o, b) s s'.
Proof.
  intros (to & i & Hto & -> & Hi & Hfree & Hlow & Hst).
  pose proof (new_handle_place s pr to i Hi Hto) as Hpl.
  pose proof (index_to_handle_eq i Hi) as Hh. unfold MAX_HANDLE_ENTRIES in Hi. split_and!.
  - lia.
  - unfold is_magic. simpl. rewrite !(proj2 (Z.eqb_neq _ _)) by lia. done.
  - unfold resolve. by rewrite Hpl, Hfree.
  - exists to, i. split_and!; [done|done| |done]. by eapply stored_resolve.
Qed.

(** Why a process cannot get a new handle, as the error that is reported. *)
Definition no_handle (s : server) (pr : process) (e : Z) : Prop :=
  match p_handles pr with
  | None => e = STATUS_PROCESS_IS_TERMINATING
  | Some to => no_entry s to ∧ e = STATUS_INSUFFICIENT_RESOURCES
  end.

(** A process that is not ending and whose table has, or can be given, a free entry. *)
Definition can_open (s : server) (pr : process) : Prop :=
  ∃ to, p_handles pr = Some to ∧ ¬ no_entry s to.

Lemma no_entry_same s s' to :
  (∀ to, table_of (objs s') to = table_of (objs s) to) → allocs s' = allocs s →
  no_entry s' to ↔ no_entry s to.
Proof. intros Ht Ha. unfold no_entry, view, alloc_fails. by setoid_rewrite Ht; rewrite Ha. Qed.

Lemma no_handle_same s s' pr e :
  (∀ to, table_of (objs s') to = table_of (objs s) to) → allocs s' = allocs s →
  no_handle s' pr e ↔ no_handle s pr e.
Proof. intros. unfold no_handle. destruct (p_handles pr); [|done]. by rewrite no_entry_same. Qed.

Lemma can_open_same s s' pr :
  (∀ to, table_of (objs s') to = table_of (objs s) to) → allocs s' = allocs s →
  can_open s' pr ↔ can_open s pr.
Proof. intros. unfold can_open. by setoid_rewrite no_entry_same. Qed.

(** [alloc_handle_entry] hands out the lowest free handle of the process, or
    fails with handle 0, no object changed, and the error that explains it. *)
Lemma alloc_handle_entry_ok x s p pr o ob access attr :
  server_ok x s → procs s !! p = Some pr →
  objs s !! o = Some ob → (rank (data ob) < 2)%nat → refcount ob < INT_MAX →
  u32 access → has access RESERVED_ALL = false →
  wp (alloc_handle_entry p o access attr) (λ h s',
    (h = 0 ∧ objs s' = objs s ∧ keeps s s' ∧ no_handle s pr (last_error s')) ∨
    (can_open s pr ∧ opened x s pr h o (with_inherit attr access) s')) s.
Proof.
  intros Hs Hp Ho Hrk Hmax Ha Hres. unfold alloc_handle_entry.
  apply wp_bind, wp_assert; [by rewrite Hres|]. fold (with_inherit attr access). cbv zeta.
  apply wp_bind, (wp_get_process p pr); [done|].
  destruct (p_handles pr) as [to|] eqn:Hh.
  2:{ apply wp_bind, wp_set_error. intros s' Hs' Hk He. apply wp_ret. left. split_and!; try done.
      unfold no_handle. by rewrite Hh. }
  destruct (pinned_table x s to Hs) as (tob & t & Hto & Hd & Ht & _); [right; eauto|].
  assert (u32 (with_inherit attr access)) as Ha'
    by (unfold with_inherit; destruct (has attr OBJ_INHERIT); [by apply u32_lor|done]).
  eapply wp_mono; [by apply (alloc_entry_ok x s to tob t o ob); [apply Hs|..]|].
  intros h s' [(Hno & i & (Hi0 & Hfree & Hlow) & Hi & -> & Hst)|(-> & Hos & Hk & He & Hfull)].
  - right. split; [by exists to|]. exists to, i.
    assert (∀ j, view s to j = entry t j) as Hv by (intros; unfold view, table_of; by rewrite Hto, Hd).
    split_and!; try done; [by rewrite Hv|]. intros j Hj. rewrite Hv. by apply Hlow.
  - left. split_and!; try done. unfold no_handle. by rewrite Hh.
Qed.

(** ** Closing *)

(** A handle that may be closed: its entry is not protected, and the object's
    own [close_handle] operation, if it has one, agrees. *)
Definition closable (s : server) (p : pid) (handle : Z) (o : oid) (a : Z) : bool :=
  negb (has a RESERVED_CLOSE_PROTECT) &&
  match ops_close_handle <$> objs s !! o with
  | Some (Some f) => f p handle
  | _ => true
  end.

(** [close_handle] on a handle of the process's own table.  A handle that
    denotes nothing is refused and a protected one is refused, both with the
    state unchanged; otherwise the handle's index no longer denotes anything,
    every other position keeps its contents, and the server invariant holds
    after the object's reference is dropped. *)
Lemma close_handle_ok x s p pr handle :
  server_ok x s → procs s !! p = Some pr → handle_is_global handle = false →
  wp (close_handle p handle) (λ st s', server_ok x s' ∧
    match resolve s pr handle with
    | None => st = STATUS_INVALID_HANDLE ∧ s' = s
    | Some (to, i, o, a) =>
        if closable s p handle o a
        then st = STATUS_SUCCESS ∧ removed x to i s s'
        else st = STATUS_HANDLE_NOT_CLOSABLE ∧ s' = s
    end) s.
Proof.
  intros Hs Hp Hg. unfold close_handle. cbv zeta. apply wp_bind.
  eapply wp_mono; [by apply (get_handle_ok x s p pr)|]. intros r s0 [-> ->].
  destruct (resolve s pr handle) as [[[[to i] o] a]|] eqn:Hr; [|done].
  unfold closable. destruct (has a RESERVED_CLOSE_PROTECT); [done|].
  pose proof Hr as [Hpl Hv]%resolve_some.
  destruct (pinned_table x s to Hs) as (tob & t & Hto & Hd & Ht & _); [by eapply handle_place_owned|].
  assert (entry t i = Some (o, a)) as Hent by (unfold view, table_of in Hv; by rewrite Hto, Hd in Hv).
  destruct (table_target_live x _ to tob t o (so_heap _ _ Hs) Hto Hd (entry_target _ _ _ _ Hent))
    as (ob & Ho & Hrk).
  apply wp_bind, (wp_get_obj o ob); [done|]. rewrite Ho. cbn [fmap option_fmap option_map negb andb].
  destruct (match ops_close_handle ob with Some f => negb (f p handle) | None => false end) eqn:Hcl.
  { apply wp_ret. split; [done|]. destruct (ops_close_handle ob) as [f|]; [|done].
    by apply negb_true_iff in Hcl as ->. }
  replace (match ops_close_handle ob with Some f => f p handle | None => true end) with true
    by (destruct (ops_close_handle ob) as [f|]; [by apply negb_false_iff in Hcl|done]).
  unfold handle_place in Hpl. rewrite Hg in Hpl.
  destruct (p_handles pr) as [to0|] eqn:Hh; simplify_eq/=.
  apply wp_bind, wp_get. apply wp_bind, (wp_get_process p pr); [done|].
  apply wp_bind, (wp_deref _ to); [by rewrite Hg|].
  eapply wp_mono; [by apply (remove_entry_ok x s to tob t _ o a); [apply Hs|..]|].
  intros st s' [-> Hrm]. split; [by eapply removed_server_ok|]. done.
Qed.

Lemma removed_resolve x to i s s' pr h :
  removed x to i s s' → handle_place s pr h = Some (to, i) → resolve s' pr h = None.
Proof.
  intros Hrm Hpl. unfold resolve. rewrite (handle_place_keeps s s'), Hpl by apply Hrm.
  rewrite (rm_view _ _ _ _ _ Hrm). by rewrite decide_True.
Qed.

Lemma removed_others x to i s s' to' j :
  removed x to i s s' → (to', j) ≠ (to, i) → view s' to' j = view s to' j.
Proof. intros Hrm Hne. rewrite (rm_view _ _ _ _ _ Hrm), decide_False; [done|naive_solver]. Qed.

(** closing a valid handle of the global table aborts or corrupts the
    server: the slot is computed from the untranslated handle, whose index lies
    beyond the end of any table. *)
Theorem close_global_handle_faults x s p pr handle to i o ob a :
  server_ok x s → procs s !! p = Some pr → u32 handle → handle_is_global handle = true →
  resolve s pr handle = Some (to, i, o, a) → has a RESERVED_CLOSE_PROTECT = false →
  objs s !! o = Some ob → ops_close_handle ob = None →
  close_handle p handle s = Fault OutOfBounds.
Proof.
  intros Hs Hp Hu Hg Hr Hcp Ho Hcl.
  assert (2 ^ 28 <= handle) as Hbig.
  { unfold handle_is_global in Hg. apply Z.leb_le in Hg.
    rewrite <-(obfuscate_involutive handle). apply obfuscated_large. split.
    - apply Z.lxor_nonneg. split; [intros _; done|intros _; apply Hu].
    - change (Z.shiftl MAX_HANDLE_ENTRIES 2) with 67108860 in Hg. lia. }
  destruct (wp_run _ _ _ (get_handle_ok x s p pr handle Hs Hp)) as (r & s0 & Hrun & -> & ->).
  pose proof Hr as [Hpl Hv]%resolve_some.
  destruct (pinned_table x s to Hs) as (tob & t & Hto & Hd & Ht & _); [by eapply handle_place_owned|].
  unfold handle_place in Hpl. rewrite Hg in Hpl. destruct (global_table s) as [g|] eqn:Hgt; simplify_eq/=.
  unfold close_handle, st_bind. rewrite Hrun, Hr, Hcp. unfold get_obj, st_bind, get. rewrite Ho. simpl.
  rewrite Hcl. unfold get_process, st_bind, get. rewrite Hp. simpl. rewrite Hg, Hgt. simpl.
  unfold get_table, get_obj, st_bind, get. rewrite Hto. simpl. rewrite Hd. simpl.
  unfold arr_get. pose proof (tb_count t Ht). pose proof (tb_range t Ht).
  assert (ht_count t <= handle_to_index handle) as Hidx.
  { rewrite handle_to_index_eq. pose proof (Z.div_le_mono (2 ^ 28) handle 4 ltac:(lia) Hbig) as Hm.
    change (2 ^ 28 / 4) with 67108864 in Hm. lia. }
  rewrite (proj2 (Z.ltb_ge _ _)) by lia.
  rewrite (lookup_ge_None_2 (ht_entries t)) by lia. done.
Qed.

(** ** Looking up an object *)

Lemma get_magic_handle_none handle s (Q : option oid → server → Prop) :
  is_magic handle = false → Q None s → wp (get_magic_handle handle) Q s.
Proof.
  unfold is_magic, get_magic_handle. simpl. rewrite !orb_false_iff.
  intros (-> & -> & -> & -> & -> & -> & _) HQ. done.
Qed.

(** A reference more on [o], held by the routine. *)
Lemma heap_ok_grab x h o ob :
  heap_ok x h → h !! o = Some ob →
  heap_ok (pin o x) (<[o:=ob_refcount (refcount ob + 1) ob]> h).
Proof.
  intros Hok Ho. destruct (hp_nonneg _ _ Hok o) as [? ?].
  pose proof (ob_live _ _ _ _ (hp_object _ _ Hok o ob Ho)).
  eapply (heap_ok_retag x); simpl; try done; rewrite ?occ_self; try lia.
  intros p Hp. rewrite occ_other by done. lia.
Qed.

Lemma wp_grab_object s o ob (Q : oid → server → Prop) :
  objs s !! o = Some ob → refcount ob < INT_MAX →
  (∀ s', s' = set_objs (<[o:=ob_refcount (refcount ob + 1) ob]>) s → Q o s') →
  wp (grab_object o) Q s.
Proof.
  intros Ho Hmax HQ. unfold grab_object. apply wp_bind, (wp_get_obj o ob); [done|].
  apply wp_bind, wp_assert; [by apply Z.ltb_lt|]. apply wp_bind, wp_put_obj, wp_ret. by apply HQ.
Qed.

Lemma grabbed_ok x s o ob :
  server_ok x s → objs s !! o = Some ob →
  let s' := set_objs (<[o:=ob_refcount (refcount ob + 1) ob]>) s in
  server_ok (pin o x) s' ∧ (∀ to i, view s' to i = view s to i).
Proof.
  intros Hs Ho s'. split.
  - apply (server_ok_step x _ s); [done|apply keeps_objs|apply heap_ok_grab; [apply Hs|done]| |].
    + by apply (kinds_insert _ _ ob).
    + intros p Hp. simpl. pose proof (occ_nonneg p [o]). lia.
  - intros to i. unfold view. simpl. by rewrite (table_of_same_body _ o ob).
Qed.

(** The test of [get_handle_obj] on the type of the object. *)
Definition has_type (want : option ops) (ob : object) : bool :=
  match want with Some w => bool_decide (obj_ops ob = w) | None => true end.

(** The branch of [get_handle_obj] taken for an entry of a table: what it
    returns, and the error it sets otherwise. *)
Definition entry_grants (want : option ops) (access : Z) (ob : object) (a : Z) : Z + unit :=
  if negb (has_type want ob) then inl STATUS_OBJECT_TYPE_MISMATCH
  else if negb (Z.land a access =? access) then inl STATUS_ACCESS_DENIED
  else inr tt.

(** [get_handle_obj] on a table handle returns the object, with one
    reference more for the caller, exactly when the handle is valid, the object
    has the wanted type and the entry carries every requested access bit;
    otherwise it returns nothing, changes no object, and the error says why. *)
Lemma get_handle_obj_run x s p pr handle access want :
  server_ok x s → procs s !! p = Some pr → is_magic handle = false → room s 1 →
  wp (get_handle_obj (Some p) handle access want) (λ r s',
    match resolve s pr handle with
    | None => r = None ∧ objs s' = objs s ∧ last_error s' = STATUS_INVALID_HANDLE ∧ server_ok x s' ∧ keeps s s'
    | Some (_, _, o, a) => ∃ ob, objs s !! o = Some ob ∧
        match entry_grants want access ob a with
        | inl e => r = None ∧ objs s' = objs s ∧ last_error s' = e ∧ server_ok x s' ∧ keeps s s'
        | inr _ => r = Some o ∧ s' = set_objs (<[o:=ob_refcount (refcount ob + 1) ob]>) s ∧
                   server_ok (pin o x) s'
        end
    end) s.
Proof.
  intros Hs Hp Hm Hroom. unfold get_handle_obj. apply wp_bind, get_magic_handle_none; [done|]. cbv zeta.
  apply wp_bind. eapply wp_mono; [by apply (get_handle_ok x s p pr)|]. intros r s0 [-> ->].
  destruct (resolve s pr handle) as [[[[to i] o] a]|] eqn:Hr.
  2:{ apply wp_bind, wp_set_error. intros s' Hs' Hk He. apply wp_ret.
      split_and!; try done. by apply (server_ok_same x s). }
  pose proof Hr as [Hpl Hv]%resolve_some.
  destruct (pinned_table x s to Hs) as (tob & t & Hto & Hd & Ht & _); [by eapply handle_place_owned|].
  assert (entry t i = Some (o, a)) as Hent by (unfold view, table_of in Hv; by rewrite Hto, Hd in Hv).
  destruct (table_target_live x _ to tob t o (so_heap _ _ Hs) Hto Hd (entry_target _ _ _ _ Hent))
    as (ob & Ho & Hrk).
  apply wp_bind, (wp_get_obj o ob); [done|]. unfold entry_grants, has_type.
  replace (match want with Some w => negb (bool_decide (obj_ops ob = w)) | None => false end)
    with (negb (match want with Some w => bool_decide (obj_ops ob = w) | None => true end))
    by by destruct want.
  destruct (negb _) eqn:Hty.
  { apply wp_bind, wp_set_error. intros s' Hs' Hk He. apply wp_ret. exists ob. rewrite Hty.
    split_and!; try done. by apply (server_ok_same x s). }
  destruct (negb (Z.land a access =? access)) eqn:Hac.
  { apply wp_bind, wp_set_error. intros s' Hs' Hk He. apply wp_ret. exists ob. rewrite Hty.
    split_and!; try done. by apply (server_ok_same x s). }
  apply wp_bind, (wp_grab_object _ o ob); [done|pose proof (Hroom o ob Ho); lia|].
  intros s' ->. apply wp_ret. exists ob. rewrite Hty. split_and!; try done.
  by apply grabbed_ok.
Qed.


Lemma get_handle_obj_ok x s p pr handle access want :
  server_ok x s → procs s !! p = Some pr → is_magic handle = false → room s 1 →
  wp (get_handle_obj (Some p) handle access want) (λ r s',
    match resolve s pr handle with
    | None => r = None ∧ objs s' = objs s ∧ last_error s' = STATUS_INVALID_HANDLE ∧ server_ok x s'
    | Some (_, _, o, a) => ∃ ob, objs s !! o = Some ob ∧
        match entry_grants want access ob a with
        | inl e => r = None ∧ objs s' = objs s ∧ last_error s' = e ∧ server_ok x s'
        | inr _ => r = Some o ∧ s' = set_objs (<[o:=ob_refcount (refcount ob + 1) ob]>) s ∧
                   server_ok (pin o x) s'
        end
    end) s.
Proof.
  intros Hs Hp Hm Hr. eapply wp_mono; [by apply (get_handle_obj_run x s p pr)|]. intros r s' H.
  destruct (resolve s pr handle) as [[[[to i] o] a]|]; [|naive_solver]. destruct H as (ob & Ho & H). exists ob. split; [done|].
  destruct (entry_grants want access ob a); naive_solver.
Qed.

(** ** Flags *)

Lemma entry_replace t i p a q b j :
  entry t i = Some (p, a) →
  entry (set_entries t (ht_last t) (ht_free t) (<[Z.to_nat i:=Slot (Some q) b]> (ht_entries t))) j
  = if decide (j = i) then Some (q, b) else entry t j.
Proof.
  intros [Hi He]%entry_some. apply lookup_lt_Some in He. destruct (decide (j = i)) as [->|Hne].
  - apply entry_some. simpl. split; [done|]. by apply list_lookup_insert_eq.
  - unfold entry. simpl. destruct (Z.leb_spec 0 j); simpl; [|done].
    by rewrite list_lookup_insert_ne by lia.
Qed.

(** Changing the access mask of the entry [i]. *)
Lemma remask_ok {A} x s p pr handle to i o a b (k : M A) Q :
  server_ok x s → procs s !! p = Some pr → resolve s pr handle = Some (to, i, o, a) → u32 b →
  (∀ s', stored x to i (o, b) s s' → wp k Q s') →
  wp (t <- get_table to;
      es <- arr_set (ht_entries t) i (Slot (Some o) b);
      put_table to (HandleTable (ht_process t) (ht_count t) (ht_last t) (ht_free t) es) ;; k) Q s.
Proof.
  intros Hs Hp [Hpl Hv]%resolve_some Hb HQ.
  destruct (pinned_table x s to Hs) as (tob & t & Hto & Hd & Ht & _); [by eapply handle_place_owned|].
  assert (entry t i = Some (o, a)) as Hent by (unfold view, table_of in Hv; by rewrite Hto, Hd in Hv).
  pose proof Hent as [Hi He]%entry_some. pose proof (lookup_lt_Some _ _ _ He).
  apply wp_bind, (wp_get_table to tob t); [done..|].
  apply wp_bind, wp_arr_set; [lia|]. apply wp_bind, (wp_put_table to tob); [done|]. apply HQ.
  set (t1 := HandleTable _ _ _ _ _). set (tob1 := ob_data (handle_table_data t1) tob).
  assert (∀ q, occ q (table_targets t1) = occ q (table_targets t)) as Hocc.
  { intros q. unfold table_targets. simpl. rewrite (occ_omap_insert _ _ _ _ _ He). simpl. lia. }
  split.
  - simpl. eapply (heap_ok_set_table x x _ to tob tob1 t t1); simpl; try done;
      try (intros; rewrite Hocc; done).
    + apply Hs.
    + by eapply table_ok_replace.
    + by apply (so_x_ok x s).
    + intros q Hq. apply (table_target_live x _ to tob t q (so_heap _ _ Hs) Hto Hd).
      apply occ_elem. rewrite <-Hocc. by apply occ_pos.
  - intros to' j. rewrite (view_insert_table s _ (objs s) to tob1 t1) by done.
    destruct (decide (to' = to)) as [->|Hne].
    + rewrite (entry_replace t i o a o b j Hent : entry t1 j = _). destruct (decide (j = i)) as [->|].
      * by rewrite decide_True.
      * rewrite decide_False by naive_solver. unfold view, table_of. by rewrite Hto, Hd.
    + rewrite decide_False by naive_solver. done.
  - apply keeps_objs.
  - intros q Hq. exists id. simpl. rewrite lookup_insert_ne by done.
    split; [by destruct (objs s !! q)|done].
  - apply (kinds_insert _ _ tob); [done|]. unfold obj_ops. by rewrite Hd.
Qed.

(** The flags and the access rights packed in an entry's mask. *)
Definition handle_flags (a : Z) : Z := Z.shiftr (Z.land a RESERVED_ALL) RESERVED_SHIFT.
Definition handle_rights (a : Z) : Z := Z.land a (not32 RESERVED_ALL).

(** The bits of an access mask after its flags were set. *)
Section flag_bits.
Lemma testbit_reserved k : 0 <= k → Z.testbit RESERVED_ALL k = (k =? 26) || (k =? 27).
Proof.
  intros Hk. change RESERVED_ALL with (Z.shiftl 3 26).
  rewrite Z.shiftl_spec by lia. destruct (Z.eqb_spec k 26) as [->|]; [done|].
  destruct (Z.eqb_spec k 27) as [->|]; [done|]. simpl.
  destruct (Z.ltb_spec (k - 26) 0); [by apply Z.testbit_neg_r|].
  apply (Z.bits_above_log2 3); [lia|]. change (Z.log2 3) with 1. lia.
Qed.

Definition flag_mask (mask : Z) : Z := Z.land (w32 (Z.shiftl mask RESERVED_SHIFT)) RESERVED_ALL.
Definition with_flags (a mask flags : Z) : Z :=
  Z.lor (Z.land a (not32 (flag_mask mask)))
    (Z.land (w32 (Z.shiftl flags RESERVED_SHIFT)) (flag_mask mask)).

Lemma testbit_flag_mask mask k : 0 <= k →
  Z.testbit (flag_mask mask) k = ((k =? 26) || (k =? 27)) && Z.testbit mask (k - 26).
Proof.
  intros Hk. unfold flag_mask, RESERVED_SHIFT.
  rewrite Z.land_spec, testbit_w32, Z.shiftl_spec, testbit_reserved by done.
  destruct (Z.eqb_spec k 26) as [->|]; [simpl; by rewrite andb_true_r|].
  destruct (Z.eqb_spec k 27) as [->|]; simpl; [by rewrite andb_true_r|apply andb_false_r].
Qed.

Lemma testbit_with_flags a mask flags k : 0 <= k < 32 →
  Z.testbit (with_flags a mask flags) k =
  if ((k =? 26) || (k =? 27)) && Z.testbit mask (k - 26)
  then Z.testbit flags (k - 26) else Z.testbit a k.
Proof.
  intros Hk. unfold with_flags. rewrite Z.lor_spec, !Z.land_spec, testbit_not32, testbit_w32 by lia.
  rewrite testbit_flag_mask, Z.shiftl_spec by lia. rewrite (proj2 (Z.ltb_lt k 32)) by lia.
  unfold RESERVED_SHIFT.
  destruct ((k =? 26) || (k =? 27)), (Z.testbit mask (k - 26)), (Z.testbit a k), (Z.testbit flags (k - 26)); done.
Qed.

Lemma with_flags_u32 a mask flags : u32 a → u32 (with_flags a mask flags).
Proof.
  intros Ha. unfold with_flags. apply u32_lor; apply u32_land; try apply w32_range; try done.
  - apply u32_not32.
  - apply Z.land_nonneg. left. apply w32_range.
Qed.

Lemma with_flags_rights a mask flags :
  handle_rights (with_flags a mask flags) = handle_rights a.
Proof.
  apply Z.bits_inj'. intros k Hk. unfold handle_rights.
  rewrite !Z.land_spec, testbit_not32, testbit_reserved by done.
  destruct (Z.ltb_spec k 32); [|by rewrite !andb_false_r].
  rewrite testbit_with_flags by lia.
  destruct ((k =? 26) || (k =? 27)); [|done]. simpl. by rewrite !andb_false_r.
Qed.

Lemma with_flags_flags a mask flags : u32 mask →
  handle_flags (with_flags a mask flags)
  = Z.lor (Z.land (handle_flags a) (not32 mask)) (Z.land (Z.land flags mask) 3).
Proof.
  intros Hm. apply Z.bits_inj'. intros k Hk. unfold handle_flags, RESERVED_SHIFT.
  rewrite Z.lor_spec, !Z.land_spec, !Z.shiftr_spec, !Z.land_spec, testbit_reserved, testbit_not32 by lia.
  assert (Z.testbit 3 k = ((k =? 0) || (k =? 1))) as ->.
  { destruct (Z.eqb_spec k 0) as [->|]; [done|]. destruct (Z.eqb_spec k 1) as [->|]; [done|].
    apply (Z.bits_above_log2 3); [lia|]. change (Z.log2 3) with 1. lia. }
  destruct (decide (k = 0 ∨ k = 1)) as [Hk01|Hk01].
  - rewrite testbit_with_flags by lia. replace (k + 26 - 26) with k by lia.
    destruct Hk01 as [-> | ->];
      [destruct (Z.testbit mask 0), (Z.testbit flags 0), (Z.testbit a (0 + 26))
      |destruct (Z.testbit mask 1), (Z.testbit flags 1), (Z.testbit a (1 + 26))]; done.
  - rewrite (proj2 (Z.eqb_neq (k + 26) 26)), (proj2 (Z.eqb_neq (k + 26) 27)),
      (proj2 (Z.eqb_neq k 0)), (proj2 (Z.eqb_neq k 1)) by lia. simpl. by rewrite !andb_false_r.
Qed.
End flag_bits.

(** [set_handle_flags] on a valid table handle changes the flags selected by
    the mask and nothing else, and returns the previous flags. *)
Lemma set_handle_flags_ok x s p pr handle mask flags to i o a :
  server_ok x s → procs s !! p = Some pr → is_magic handle = false →
  resolve s pr handle = Some (to, i, o, a) →
  wp (set_handle_flags (Some p) handle mask flags) (λ r s',
    r = handle_flags a ∧ stored x to i (o, with_flags a mask flags) s s') s.
Proof.
  intros Hs Hp Hm Hr. unfold set_handle_flags.
  apply wp_bind, get_magic_handle_none; [done|]. apply wp_bind.
  eapply wp_mono; [by apply (get_handle_ok x s p pr)|]. intros r s0 [-> ->]. rewrite Hr. cbv zeta.
  fold (flag_mask mask). fold (with_flags a mask flags).
  assert (u32 a) as Ha.
  { pose proof Hr as [Hpl Hv]%resolve_some.
    destruct (pinned_table x s to Hs) as (tob & t & Hto & Hd & Ht & _); [by eapply handle_place_owned|].
    unfold view, table_of in Hv. rewrite Hto, Hd in Hv. by eapply entry_access. }
  apply (remask_ok x s p pr handle to i o a); [done..|by apply with_flags_u32|].
  intros s' Hst. by apply wp_ret.
Qed.
