(* ===== verification/HandleInherit.v ===== *)
(** * Inheritance of handles by a child process (copy_handle_table in server/handle.c)

    The child's table is built from the parent's: either every inheritable
    entry, or those named by an explicit list of handles. *)

From stdpp Require Import base list gmap fin_maps.
From S2P Require Import Prelude Access Object ObjectInv Handle HandleInv HandleThms.

Open Scope Z_scope.
Open Scope server_scope.

(** ** A new table *)

Lemma wp_alloc_object d (Q : option oid → server → Prop) s :
  (∀ s', objs s' = objs s → keeps s s' → last_error s' = STATUS_NO_MEMORY → alloc_fails s → Q None s') →
  (∀ o s', objs s !! o = None → objs s' = <[o:=Object 1 0 false [] None d]> (objs s) →
     keeps s s' → allocs s' = tail (allocs s) → ¬ alloc_fails s → Q (Some o) s') →
  wp (alloc_object d) Q s.
Proof.
  intros Hnone Hsome. unfold alloc_object. apply wp_bind, wp_mem_alloc_result; intros s1 Hs1 Hk1 Ha1 Hal; simpl.
  2:{ apply wp_ret. by apply Hnone. }
  apply wp_bind, wp_get. apply wp_bind, wp_put_obj, wp_bind, wp_update_type. intros s2 Hs2 He2.
  apply wp_ret, Hsome; [| | | |done].
  - rewrite Hs1. apply not_elem_of_dom. apply is_fresh.
  - rewrite Hs2. simpl. by rewrite Hs1.
  - trans s1; [done|]. apply same_env_keeps in He2. split; simpl; apply He2.
  - rewrite <-Ha1. apply He2.
Qed.

(** Releasing a table that was never filled just frees it. *)
Lemma release_new_table s h to p count (Q : unit → server → Prop) :
  h !! to = None →
  objs s = <[to:=Object 1 0 false [] None (handle_table_data (HandleTable p count (-1) 0 []))]> h →
  (∀ s', objs s' = h → keeps s s' → last_error s' = last_error s → Q tt s') → wp (release_object to) Q s.
Proof.
  intros Hno Hs HQ. set (ob := Object 1 0 false [] None (handle_table_data (HandleTable p count (-1) 0 []))) in *.
  unfold release_object, release_depth. cbn [release_object_depth].
  apply wp_bind, (wp_get_obj to ob); [by rewrite Hs, lookup_insert_eq|].
  apply wp_bind, wp_assert; [done|]. apply wp_bind, wp_put_obj. cbn [refcount ob Z.sub Z.eqb].
  change (1 - 1 =? 0) with true. cbv iota.
  apply wp_bind, wp_assert; [done|]. apply wp_bind, wp_assert; [done|].
  set (s1 := set_objs _ s).
  assert (objs s1 !! to = Some (ob_refcount 0 ob)) as Hto1 by apply lookup_insert_eq.
  apply wp_bind. unfold ops_destroy. apply wp_bind, (wp_get_obj to (ob_refcount 0 ob)); [done|]. simpl.
  unfold handle_table_destroy. apply wp_bind, (wp_get_table to (ob_refcount 0 ob) (HandleTable p count (-1) 0 [])); [done..|].
  cbn [length ht_entries handle_table_destroy_loop].
  apply wp_bind, (wp_get_table to (ob_refcount 0 ob) (HandleTable p count (-1) 0 [])); [done..|]. apply wp_ret.
  apply (wp_free_object to (ob_refcount 0 ob)); [done|]. intros s2 Hs2 He2. apply HQ.
  - rewrite Hs2. simpl. rewrite Hs, insert_insert_eq. by apply delete_insert_id.
  - apply same_env_keeps in He2. split; simpl; apply He2.
  - rewrite (same_env_error _ _ He2). done.
Qed.

(** A new table needs two allocations: the object and its array. *)
Definition no_table (s : server) : Prop := false ∈ take 2 (allocs s).

Lemma no_table_cases s : no_table s ↔ alloc_fails s ∨ head (tail (allocs s)) = Some false.
Proof.
  unfold no_table, alloc_fails. destruct (allocs s) as [|a [|b l]]; simpl;
    rewrite ?elem_of_cons, ?elem_of_nil; naive_solver.
Qed.

Definition new_table (p : option pid) (count : Z) : handle_table :=
  HandleTable p count (-1) 0 (replicate (Z.to_nat count) Uninit).

Lemma new_table_ok p count : 32 <= count <= MAX_HANDLE_ENTRIES → table_ok (new_table p count).
Proof.
  intros Hc. split; simpl; try lia.
  - rewrite length_replicate. lia.
  - unfold MAX_HANDLE_ENTRIES in Hc. lia.
  - intros i q a _ Hl. by apply lookup_replicate in Hl as [? _].
Qed.

Lemma alloc_handle_table_ok p count s (Q : option oid → server → Prop) :
  32 <= count →
  (∀ s', objs s' = objs s → keeps s s' → no_table s → last_error s' = STATUS_NO_MEMORY → Q None s') →
  (∀ to s', objs s !! to = None → keeps s s' → ¬ no_table s →
     objs s' = <[to:=Object 1 0 false [] None (handle_table_data (new_table p count))]> (objs s) →
     Q (Some to) s') →
  wp (alloc_handle_table p count) Q s.
Proof.
  intros Hc Hnone Hsome. unfold alloc_handle_table, MIN_HANDLE_ENTRIES.
  rewrite (proj2 (Z.ltb_ge count 32)) by lia. cbv zeta. apply wp_bind, wp_alloc_object.
  { intros s1 Hs1 Hk1 He Hal. apply wp_ret. apply Hnone; try done. apply no_table_cases. by left. }
  intros to s1 Hno Hs1 Hk1 Ha1 Hal. apply wp_bind, wp_mem_alloc_result; intros s2 Hs2 Hk2 He2 Hal2.
  - apply wp_bind. eapply wp_put_table; [by rewrite Hs2, Hs1, lookup_insert_eq|].
    apply wp_ret, Hsome; [done| | |].
    + trans s1; [done|]. trans s2; [done|]. apply keeps_objs.
    + intros [?|?]%no_table_cases; [done|]. unfold alloc_fails in Hal2. by rewrite Ha1 in Hal2.
    + simpl. rewrite Hs2, Hs1, insert_insert_eq. done.
  - apply wp_bind, (release_new_table s2 (objs s) to p count); [done|congruence|].
    intros s3 Hs3 Hk3 He3. apply wp_ret, Hnone; [done| | |congruence].
    + trans s1; [done|]. by trans s2.
    + apply no_table_cases. right. unfold alloc_fails in Hal2. by rewrite Ha1 in Hal2.
Qed.

(** ** Copying the inheritable entries *)

(** What the child gets from an entry of the parent. *)
Definition inheritable (e : option (oid * Z)) : option (oid * Z) :=
  match e with Some (o, a) => if has a RESERVED_INHERIT then Some (o, a) else None | None => None end.

Definition inherit_slot (sl : handle_slot) : handle_slot :=
  match sl with
  | Slot (Some o) a => Slot (if has a RESERVED_INHERIT then Some o else None) a
  | _ => sl
  end.

(** Only counters went up, by at most [n]. *)
Definition bumped (n : Z) (h h' : gmap oid object) : Prop :=
  ∀ o, match h !! o, h' !! o with
       | Some ob, Some ob' => same_body ob ob' ∧ refcount ob' <= refcount ob + n
       | None, None => True
       | _, _ => False
       end.

Lemma bumped_refl h : bumped 0 h h.
Proof. intros o. destruct (h !! o); [|done]. split; [done|lia]. Qed.

Lemma bumped_some n h h' o ob : bumped n h h' → h !! o = Some ob →
  ∃ ob', h' !! o = Some ob' ∧ same_body ob ob' ∧ refcount ob' <= refcount ob + n.
Proof. intros Hb Ho. specialize (Hb o). rewrite Ho in Hb. destruct (h' !! o); [eauto|done]. Qed.

Lemma bumped_trans n m h1 h2 h3 : bumped n h1 h2 → bumped m h2 h3 → bumped (n + m) h1 h3.
Proof.
  intros H12 H23 o. specialize (H12 o). specialize (H23 o).
  destruct (h1 !! o), (h2 !! o), (h3 !! o); try done.
  destruct H12 as [(?&?&?&?) ?], H23 as [(?&?&?&?) ?]. split; [split_and!; congruence|lia].
Qed.

Lemma bumped_le n m h h' : bumped n h h' → n <= m → bumped m h h'.
Proof. intros H Hle o. specialize (H o). destruct (h !! o), (h' !! o); naive_solver lia. Qed.

Lemma bumped_handled h o ob : h !! o = Some ob → bumped 1 h (<[o:=handled ob]> h).
Proof.
  intros Ho p. destruct (decide (p = o)) as [->|Hne].
  - rewrite Ho, lookup_insert_eq. split; [done|simpl; lia].
  - rewrite lookup_insert_ne by done. destruct (h !! p); [|done]. split; [done|lia].
Qed.

Lemma bumped_table_of n h h' to : bumped n h h' → table_of h' to = table_of h to.
Proof.
  intros Hb. specialize (Hb to). unfold table_of. destruct (h !! to), (h' !! to); try done.
  destruct Hb as [(-> & _) _]. done.
Qed.

Lemma bumped_kinds n h h' : bumped n h h' → kinds h h'.
Proof.
  intros Hb o ob ob' Ho Ho'. specialize (Hb o). rewrite Ho, Ho' in Hb.
  destruct Hb as [(Hd & _) _]. unfold obj_ops. by rewrite Hd.
Qed.

Lemma x_handles_opt p l x :
  x_handles l (x_handles (option_list p) x) ≡ x_handles (option_list p ++ l) x.
Proof. split_and!; intros o; simpl; rewrite ?occ_app; lia. Qed.

Lemma omap_slot_cons sl es :
  omap slot_target (sl :: es) = option_list (slot_target sl) ++ omap slot_target es.
Proof. simpl. by destruct (slot_target sl). Qed.

(** The triple of [inherit_entries] for the entries [es]. *)
Definition inherits (es : list handle_slot) : Prop :=
  ∀ x s, heap_ok x (objs s) →
  (∀ p, p ∈ omap slot_target es → ∃ ob, objs s !! p = Some ob ∧
     refcount ob + Z.of_nat (length es) <= INT_MAX) →
  wp (inherit_entries es) (λ es' s', es' = inherit_slot <$> es ∧
    heap_ok (x_handles (omap slot_target es') x) (objs s') ∧ same_env s s' ∧
    bumped (Z.of_nat (length es)) (objs s) (objs s')) s.

(** The rest of the loop, once the first slot has been dealt with. *)
Lemma inherits_rest es sl sl1 x s s1 :
  inherits es → sl1 = inherit_slot sl →
  (∀ p, p ∈ omap slot_target (sl :: es) → ∃ ob, objs s !! p = Some ob ∧
     refcount ob + Z.of_nat (length (sl :: es)) <= INT_MAX) →
  heap_ok (x_handles (option_list (slot_target sl1)) x) (objs s1) → same_env s s1 →
  bumped 1 (objs s) (objs s1) →
  wp (es <- inherit_entries es; ret (sl1 :: es)) (λ es' s', es' = inherit_slot <$> sl :: es ∧
    heap_ok (x_handles (omap slot_target es') x) (objs s') ∧ same_env s s' ∧
    bumped (Z.of_nat (length (sl :: es))) (objs s) (objs s')) s1.
Proof.
  intros IH -> Hlive Hok1 He1 Hb1. apply wp_bind. eapply wp_mono; [apply (IH _ s1 Hok1)|].
  - intros q Hq. destruct (Hlive q) as (ob & Hob & Hr).
    { rewrite omap_slot_cons. apply elem_of_app. by right. }
    destruct (bumped_some _ _ _ _ _ Hb1 Hob) as (ob' & Hob' & _ & Hr').
    exists ob'. split; [done|]. simpl in Hr. lia.
  - intros es' s' (-> & Hok' & He' & Hb'). apply wp_ret. split_and!.
    + done.
    + rewrite omap_slot_cons. by rewrite <-x_handles_opt.
    + by eapply same_env_trans.
    + eapply bumped_le; [eapply bumped_trans; [exact Hb1|exact Hb']|]. simpl. lia.
Qed.

Lemma inherit_entries_ok es : (∀ sl, sl ∈ es → ∃ p a, sl = Slot p a) → inherits es.
Proof.
  induction es as [|sl es IH]; intros Hinit x s Hok Hlive; cbn [inherit_entries].
  { apply wp_ret. split_and!; [done| |done|apply bumped_refl]. by rewrite x_handles_nil. }
  assert (inherits es) as IH' by (apply IH; intros; apply Hinit; by right). clear IH.
  destruct (Hinit sl) as (p & a & ->); [by left|].
  apply wp_bind, wp_read_slot. cbn [fst snd]. apply wp_bind.
  assert (Hsame : inherit_slot (Slot p a) = Slot None a →
    wp (es <- inherit_entries es; ret (Slot None a :: es)) (λ es' s',
      es' = inherit_slot <$> Slot p a :: es ∧
      heap_ok (x_handles (omap slot_target es') x) (objs s') ∧ same_env s s' ∧
      bumped (Z.of_nat (length (Slot p a :: es))) (objs s) (objs s')) s).
  { intros Hn. apply inherits_rest; try done.
    - simpl. by rewrite x_handles_nil.
    - eapply bumped_le; [apply bumped_refl|lia]. }
  destruct p as [o|]; [|apply wp_ret; by apply Hsame].
  destruct (has a RESERVED_INHERIT) eqn:Hinh.
  - destruct (Hlive o) as (ob & Ho & Hr); [by left|]. pose proof (handles_le_refs _ _ _ _ Hok Ho). simpl in Hr.
    apply wp_bind, (wp_grab_for_handle _ o ob); [done|lia|lia|].
    intros s1 Hs1 He1. apply wp_ret. apply inherits_rest; try done.
    + simpl. by rewrite Hinh.
    + rewrite Hs1. by apply heap_ok_handled.
    + rewrite Hs1. by apply bumped_handled.
  - apply wp_ret, Hsame. simpl. by rewrite Hinh.
Qed.

(** ** The child's table *)

Section copy.
Context (x : xrefs) (s : server) (p parent : pid) (ppr : process) (pto : oid).
Context (Hs : server_ok x s) (Hpar : procs s !! parent = Some ppr) (Hph : p_handles ppr = Some pto).

(** The parent's table. *)
Lemma parent_table : ∃ ptob pt, objs s !! pto = Some ptob ∧ data ptob = handle_table_data pt ∧
  table_ok pt ∧ ∀ i, view s pto i = entry pt i.
Proof using Hs Hpar Hph.
  destruct (pinned_table x s pto Hs) as (ptob & pt & Hpto & Hd & Ht & _); [right; eauto|].
  exists ptob, pt. split_and!; try done. intros i. unfold view, table_of. by rewrite Hpto, Hd.
Qed.

(** The state in which the table [to] of the child has just been allocated. *)
Lemma new_table_server_ok to count s1 :
  32 <= count <= MAX_HANDLE_ENTRIES → objs s !! to = None → keeps s s1 →
  objs s1 = <[to:=Object 1 0 false [] None (handle_table_data (new_table (Some p) count))]> (objs s) →
  heap_ok (pin to x) (objs s1) ∧ server_ok (pin to x) s1.
Proof using Hs.
  intros Hc Hno Hk Hs1. assert (heap_ok (pin to x) (objs s1)) as Hok.
  { rewrite Hs1. apply heap_ok_alloc; try done.
    - by apply (so_x_ok x s).
    - rewrite x_data_table. unfold table_targets. simpl. rewrite omap_uninit, x_handles_nil. apply Hs.
    - by apply new_table_ok.
    - unfold data_targets, handle_targets, table_targets. simpl. rewrite omap_uninit. intros q Hq.
      by apply elem_of_nil in Hq. }
  split; [done|]. apply (server_ok_step x _ s s1); try done.
  - intros o ob ob' Ho Ho'. rewrite Hs1, lookup_insert_ne in Ho' by congruence. congruence.
  - intros o Ho. simpl. pose proof (occ_nonneg o [to]). lia.
Qed.
End copy.

(** The table filled with the inherited slots. *)
Definition inherited_table (p : option pid) (pt : handle_table) : handle_table :=
  let n := Z.to_nat (ht_last pt + 1) in
  HandleTable p (ht_count pt) (ht_last pt) 0
    ((inherit_slot <$> take n (ht_entries pt)) ++ drop n (replicate (Z.to_nat (ht_count pt)) Uninit)).

Lemma inherited_lookup p pt i : table_ok pt → 0 <= i <= ht_last pt →
  ht_entries (inherited_table p pt) !! Z.to_nat i = inherit_slot <$> ht_entries pt !! Z.to_nat i.
Proof.
  intros Ht Hi. pose proof (tb_count pt Ht). pose proof (tb_last pt Ht). simpl.
  rewrite lookup_app_l by (rewrite length_fmap, length_take; lia).
  rewrite list_lookup_fmap. by rewrite lookup_take_lt by lia.
Qed.

Lemma inherited_table_ok p pt : table_ok pt → table_ok (inherited_table p pt).
Proof.
  intros Ht. pose proof (inherited_lookup p pt) as Hlk. pose proof (tb_count pt Ht) as Hlen.
  pose proof (tb_last pt Ht) as Hl. pose proof (tb_range pt Ht). split; try done; try (simpl; lia).
  - simpl. rewrite length_app, length_fmap, length_take, length_drop, length_replicate. lia.
  - intros i Hi. destruct (tb_init pt Ht i Hi) as (q & a & He & Ha). rewrite Hlk, He by done. simpl.
    destruct q as [q|]; eauto.
  - intros i q a Hi Hlk'. simpl in *. rewrite lookup_app_r in Hlk' by (rewrite length_fmap, length_take; lia).
    rewrite drop_replicate in Hlk'. by apply lookup_replicate in Hlk' as [? _].
Qed.

Lemma inherited_entry p pt i : table_ok pt → entry (inherited_table p pt) i = inheritable (entry pt i).
Proof.
  intros Ht. destruct (decide (0 <= i <= ht_last pt)) as [Hi|Hi].
  - unfold entry at 1. rewrite (inherited_lookup p pt i Ht Hi). simpl.
    rewrite (proj2 (Z.leb_le 0 i)), (proj2 (Z.leb_le i _)) by lia. simpl.
    destruct (entry_slot pt i Ht Hi) as (q & a & -> & _ & ->). simpl.
    destruct q as [q|]; [|done]. simpl. by destruct (has a RESERVED_INHERIT).
  - rewrite (entry_out pt) by lia. apply entry_out. simpl. lia.
Qed.

Lemma inherited_targets p pt :
  table_targets (inherited_table p pt)
  = omap slot_target (inherit_slot <$> take (Z.to_nat (ht_last pt + 1)) (ht_entries pt)).
Proof.
  unfold table_targets. simpl. by rewrite omap_app, drop_replicate, omap_uninit, app_nil_r.
Qed.

(** What [copy_handle_table] leaves: the child's table [to] holds the entries
    [f] and every other table is as before; when one of the two allocations fails,
    there is no table, no object changes and the error says so. *)
Definition copied (x : xrefs) (f : Z → option (oid * Z)) (s : server) (r : option oid) (s' : server) : Prop :=
  match r with
  | None => no_table s ∧ server_ok x s' ∧ objs s' = objs s ∧ last_error s' = STATUS_NO_MEMORY
  | Some to => ¬ no_table s ∧ server_ok (pin to x) s' ∧ objs s !! to = None ∧
      (∀ i, view s' to i = f i) ∧ ∀ to' i, to' ≠ to → view s' to' i = view s to' i
  end.

(** The last step: shrink the filled table and return it. *)
Lemma finish_copy x f s to s1 tob t :
  ¬ no_table s → objs s !! to = None → objs s1 !! to = Some tob → data tob = handle_table_data t →
  heap_ok (pin to x) (objs s1) → server_ok (pin to x) s1 → (∀ i, entry t i = f i) →
  (∀ to' i, to' ≠ to → view s1 to' i = view s to' i) →
  wp (shrink_handle_table to ;; ret (Some to)) (copied x f s) s1.
Proof.
  intros Hmem Hno Hto Hd Hok Hs1 Hf Hv. pose proof (heap_table_ok _ _ _ _ _ Hok Hto Hd) as Ht.
  apply wp_bind, (shrink_ok s1 to tob t); [done..|]. intros s2 t2 Hsm Hk2 Hs2. apply wp_ret.
  assert (heap_ok (pin to x) (objs s2)) as Hok2.
  { rewrite Hs2. apply (retable_ok _ _ to tob t); try done; apply Hsm. }
  split_and!; [done| |done|..].
  - apply (server_ok_step (pin to x) _ s1); try done. rewrite Hs2.
    apply (kinds_insert _ _ tob); [done|]. unfold obj_ops. by rewrite Hd.
  - intros i. rewrite (view_insert_table s1 s2 _ to (ob_data (handle_table_data t2) tob) t2) by done.
    rewrite decide_True by done. rewrite (sm_entry _ _ Hsm). apply Hf.
  - intros to' i Hne. rewrite (view_insert_table s1 s2 _ to (ob_data (handle_table_data t2) tob) t2) by done.
    rewrite decide_False by done. by apply Hv.
Qed.

Section copy_all.
Context (x : xrefs) (s : server) (p parent : pid) (ppr : process) (pto : oid).
Context (ptob : object) (pt : handle_table).
Context (Hs : server_ok x s) (Hpto : objs s !! pto = Some ptob) (Hd : data ptob = handle_table_data pt).
Context (Hroom : room s MAX_HANDLE_ENTRIES).
Context (to : oid) (s1 : server).
Context (Hmem : ¬ no_table s) (Hno : objs s !! to = None) (Hk1 : keeps s s1)
  (Hs1 : objs s1 = <[to:=Object 1 0 false [] None (handle_table_data (new_table (Some p) (ht_count pt)))]> (objs s)).

Let t1 := inherited_table (Some p) pt.

(** Filling the new table moves the references taken on the inherited objects into it. *)
Lemma filled_ok s2 tob2 :
  heap_ok (x_handles (table_targets t1) (pin to x)) (objs s2) → same_env s1 s2 →
  bumped MAX_HANDLE_ENTRIES (objs s1) (objs s2) →
  objs s2 !! to = Some tob2 → data tob2 = handle_table_data (new_table (Some p) (ht_count pt)) →
  wp (put_table to t1) (λ _, wp (shrink_handle_table to ;; ret (Some to))
    (copied x (λ i, inheritable (view s pto i)) s)) s2.
Proof using Hs Hpto Hd Hmem Hno Hk1 Hs1.
  intros Hok2 He2 Hb2 Hto2 Hd2. pose proof (heap_table_ok _ _ _ _ _ (so_heap _ _ Hs) Hpto Hd) as Ht.
  pose proof (tb_range pt Ht) as Hrange.
  destruct (new_table_server_ok x s p Hs to (ht_count pt) s1) as [Hok1 Hsok1]; try done.
  assert (∀ q, q ∈ table_targets t1 → ∃ obq, objs s2 !! q = Some obq ∧ (rank (data obq) < 2)%nat ∧ q ≠ to) as Hlive.
  { intros q Hq. apply list_elem_of_omap in Hq as (sl & Hsl & Hq). unfold t1 in Hsl. simpl in Hsl.
    apply elem_of_app in Hsl as [Hsl|Hsl].
    - apply list_elem_of_fmap in Hsl as (sl0 & -> & Hsl0). apply list_elem_of_lookup in Hsl0 as [k Hk].
      apply lookup_take_Some in Hk as [Hk _].
      destruct (table_target_live x _ pto ptob pt q (so_heap _ _ Hs) Hpto Hd) as (obq & Hobq & Hrk).
      { unfold table_targets. apply list_elem_of_omap. exists sl0. split; [by eapply list_elem_of_lookup_2|].
        destruct sl0 as [|[?|] a0]; simpl in Hq; try done. by destruct (has a0 RESERVED_INHERIT). }
      assert (q ≠ to) as Hne by congruence.
      destruct (bumped_some _ _ _ q obq Hb2) as (obq' & Hobq' & (Hdq & _) & _).
      { by rewrite Hs1, lookup_insert_ne by congruence. }
      exists obq'. by rewrite Hdq.
    - rewrite drop_replicate in Hsl. apply elem_of_replicate in Hsl as [-> _]. done. }
  assert (to ∉ table_targets t1) as Hnt by (intros Hin; destruct (Hlive to Hin) as (?&?&?&?); done).
  assert (occ to (table_targets t1) = 0) as Hocc.
  { pose proof (occ_nonneg to (table_targets t1)). destruct (Z.ltb_spec 0 (occ to (table_targets t1))); [|lia].
    exfalso. by apply Hnt, occ_elem. }
  eapply wp_put_table; [done|]. set (tob1 := ob_data (handle_table_data t1) tob2).
  set (s3 := set_objs _ s2).
  assert (heap_ok (pin to x) (objs s3)) as Hok3.
  { simpl. eapply (heap_ok_set_table (x_handles (table_targets t1) (pin to x)) _ _ to _ _ _ t1); try done.
    - by apply inherited_table_ok.
    - exact (hp_nonneg _ _ Hok1).
    - intros q Hq. destruct (Hlive q Hq) as (obq & ? & ? & _). eauto.
    - intros q. unfold table_targets at 3. simpl. rewrite omap_uninit, occ_nil. lia.
    - intros q. unfold table_targets at 3. simpl. rewrite omap_uninit, occ_nil. lia.
    - simpl. lia.
    - simpl. lia. }
  assert (kinds (objs s1) (objs s3)) as Hkd.
  { intros o ob ob' Ho Ho'. simpl in Ho'. destruct (decide (o = to)) as [->|Hne].
    - rewrite lookup_insert_eq in Ho'. rewrite Hs1, lookup_insert_eq in Ho. by simplify_eq.
    - rewrite lookup_insert_ne in Ho' by done. by apply (bumped_kinds _ _ _ Hb2 o). }
  apply (finish_copy x _ s to s3 tob1 t1); try done.
  - simpl. rewrite lookup_insert_eq. done.
  - apply (server_ok_step (pin to x) _ s1); try done.
    trans s2; [by apply same_env_keeps|apply keeps_objs].
  - intros i. unfold t1. rewrite inherited_entry by done. unfold view, table_of. by rewrite Hpto, Hd.
  - intros to' i Hne. rewrite (view_insert_table s2 s3 (objs s2) to tob1 t1) by done.
    rewrite decide_False by done. rewrite (bumped_table_of _ _ _ _ Hb2), Hs1.
    unfold view, table_of. by rewrite lookup_insert_ne by done.
Qed.
End copy_all.

(** ** Copying the entries of an explicit list *)

(** The entries of the child after the handles with the indices [l]. *)
Definition chosen (s : server) (pto : oid) (l : list Z) (i : Z) : option (oid * Z) :=
  if bool_decide (i ∈ l) then inheritable (view s pto i) else None.

Lemma chosen_ext s pto l l' i : (i ∈ l ↔ i ∈ l') → chosen s pto l i = chosen s pto l' i.
Proof. intros Hl. unfold chosen. by rewrite (bool_decide_ext _ _ Hl). Qed.

(** Storing at any index of a table whose slots are all initialised. *)
Definition put_at (t : handle_table) (i : Z) (o : oid) (a : Z) : handle_table :=
  HandleTable (ht_process t) (ht_count t) (Z.max (ht_last t) i) (ht_free t)
    (<[Z.to_nat i:=Slot (Some o) a]> (ht_entries t)).

Definition all_init (t : handle_table) : Prop := ∀ sl, sl ∈ ht_entries t → ∃ p a, sl = Slot p a ∧ u32 a.

Lemma put_at_init t i o a : all_init t → u32 a → all_init (put_at t i o a).
Proof.
  intros Hall Ha sl [k Hk]%list_elem_of_lookup. simpl in Hk.
  apply list_lookup_insert_Some in Hk as [(_ & <- & _)|[_ Hk]]; [eauto|].
  by eapply Hall, list_elem_of_lookup_2.
Qed.

Lemma put_at_ok t i o a :
  table_ok t → all_init t → ht_free t = 0 → 0 <= i < ht_count t → u32 a → table_ok (put_at t i o a).
Proof.
  intros Ht Hall Hf Hi Ha. pose proof (put_at_init t i o a Hall Ha) as Hall'.
  pose proof (tb_count t Ht). pose proof (tb_last t Ht). pose proof (tb_range t Ht).
  split; simpl; rewrite ?length_insert; try lia.
  - intros k Hk. destruct (lookup_lt_is_Some_2 (ht_entries (put_at t i o a)) (Z.to_nat k)) as [sl Hsl].
    { simpl. rewrite length_insert. lia. }
    destruct (Hall' sl (list_elem_of_lookup_2 _ _ _ Hsl)) as (p & b & -> & Hb). eauto.
  - intros k p b Hk. rewrite list_lookup_insert_ne by lia. apply (tb_rest t Ht). lia.
Qed.

Lemma put_at_entry t i o a j :
  table_ok t → 0 <= i < ht_count t → entry (put_at t i o a) j = if decide (j = i) then Some (o, a) else entry t j.
Proof.
  intros Ht Hi. pose proof (tb_count t Ht). destruct (decide (j = i)) as [->|Hne].
  - apply entry_some. simpl. split; [lia|]. apply list_lookup_insert_eq. lia.
  - destruct (decide (0 <= j <= ht_last t)) as [Hj|Hj].
    + destruct (entry_slot t j Ht Hj) as (p & b & Hsl & _ & ->). unfold entry. simpl.
      rewrite list_lookup_insert_ne, Hsl by lia.
      rewrite (proj2 (Z.leb_le 0 j)), (proj2 (Z.leb_le j _)) by lia. by destruct p.
    + rewrite (entry_out t) by lia. destruct (entry (put_at t i o a) j) as [[p b]|] eqn:He; [|done].
      apply entry_some in He as [Hj' He]. simpl in Hj', He. rewrite list_lookup_insert_ne in He by lia.
      by apply (tb_rest t Ht) in He; [|lia].
Qed.

Section copy_list.
Context (x : xrefs) (s : server) (parent : pid) (ppr : process) (pto to : oid).
Context (ptob : object) (pt : handle_table).
Context (Hs : server_ok x s) (Hpar : procs s !! parent = Some ppr) (Hph : p_handles ppr = Some pto).
Context (Hpto : objs s !! pto = Some ptob) (Hd : data ptob = handle_table_data pt).
Context (Hno : objs s !! to = None).

(** The child's table while the handles with the indices [l] have been copied,
    with at most [n] new references. *)
Record filling (n : Z) (l : list Z) (s1 : server) : Prop := {
  fl_ok : server_ok (pin to x) s1;
  fl_keeps : keeps s s1;
  fl_table : ∃ tob t, objs s1 !! to = Some tob ∧ data tob = handle_table_data t ∧ ht_free t = 0 ∧
    ht_count t = ht_count pt ∧ all_init t ∧ ∀ i, entry t i = chosen s pto l i;
  fl_views : ∀ to' i, to' ≠ to → view s1 to' i = view s to' i;
  fl_refs : ∀ o ob, objs s !! o = Some ob →
    ∃ ob', objs s1 !! o = Some ob' ∧ data ob' = data ob ∧ refcount ob' <= refcount ob + n;
}.

(** One more entry copied. *)
Lemma filling_put n l s1 i o a tob t ob' :
  filling n l s1 → objs s1 !! to = Some tob → data tob = handle_table_data t → ht_free t = 0 →
  ht_count t = ht_count pt → all_init t → (∀ i, entry t i = chosen s pto l i) →
  view s pto i = Some (o, a) → has a RESERVED_INHERIT = true → entry t i = None →
  objs s1 !! o = Some ob' → (rank (data ob') < 2)%nat →
  ∀ s2, keeps s1 s2 → objs s2 = <[to:=ob_data (handle_table_data (put_at t i o a)) tob]> (<[o:=handled ob']> (objs s1)) →
  filling (n + 1) (i :: l) s2.
Proof using Hs Hpto Hd Hno.
  intros [A B _ D E] Hto Hdt Hf Hc Hall Hent Hv Hinh Hfree Ho Hrk s2 Hk2 Hs2.
  pose proof (heap_table_ok _ _ _ _ _ (so_heap _ _ A) Hto Hdt) as Ht.
  pose proof (heap_table_ok _ _ _ _ _ (so_heap _ _ Hs) Hpto Hd) as Hpt.
  assert (entry pt i = Some (o, a)) as Hpe by (unfold view, table_of in Hv; by rewrite Hpto, Hd in Hv).
  pose proof Hpe as [Hi _]%entry_some. pose proof (tb_last pt Hpt). pose proof (entry_access _ _ _ _ Hpt Hpe) as Ha.
  pose proof (tb_count t Ht) as Hlen. pose proof (rank_not_table _ _ _ _ _ _ Hto Hdt Ho Hrk) as Hne.
  destruct (lookup_lt_is_Some_2 (ht_entries t) (Z.to_nat i) ltac:(lia)) as [sl Hsl].
  set (t' := put_at t i o a) in *. set (tob' := ob_data (handle_table_data t') tob) in *.
  assert (∀ p, occ p (table_targets t') = occ p (table_targets t) + occ p [o]) as Hocc.
  { intros p. unfold table_targets. simpl. rewrite (occ_omap_insert _ _ _ sl) by done.
    rewrite (free_slot_target t i sl) by (done || lia). simpl. rewrite occ_nil. lia. }
  assert (heap_ok (pin to x) (objs s2)) as Hok2.
  { rewrite Hs2. eapply (heap_ok_set_table (x_handles [o] (pin to x)) _ _ to tob tob' t t'); try done.
    - apply heap_ok_handled; [apply A|done].
    - by rewrite lookup_insert_ne by congruence.
    - apply put_at_ok; (done || lia).
    - exact (hp_nonneg _ _ (so_heap _ _ A)).
    - intros p Hin. apply occ_pos in Hin. rewrite Hocc in Hin. destruct (decide (p = o)) as [->|Hpo].
      + exists (handled ob'). by rewrite lookup_insert_eq.
      + rewrite occ_other, Z.add_0_r in Hin by done. apply occ_elem in Hin.
        rewrite lookup_insert_ne by congruence. apply (table_target_live (pin to x) _ to tob t); [apply A|done..].
    - intros p. rewrite Hocc. simpl. lia.
    - intros p. rewrite Hocc. simpl. lia.
    - simpl. rewrite (occ_other o to) by congruence. lia.
    - simpl. rewrite (occ_other o to) by congruence. lia. }
  split.
  - apply (server_ok_step (pin to x) _ s1); try done. rewrite Hs2. intros p obp obp' Hp Hp'.
    destruct (decide (p = to)) as [->|].
    + rewrite lookup_insert_eq in Hp'. simplify_eq. unfold obj_ops. by rewrite Hdt.
    + rewrite lookup_insert_ne in Hp' by done. revert Hp Hp'. by eapply kinds_insert.
  - by trans s1.
  - exists tob', t'. split_and!; [by rewrite Hs2, lookup_insert_eq|done|done|done|by apply put_at_init|].
    intros j. unfold t'. rewrite put_at_entry by (done || lia). destruct (decide (j = i)) as [->|Hji].
    + unfold chosen. rewrite bool_decide_eq_true_2 by (by left). rewrite Hv. simpl. by rewrite Hinh.
    + rewrite Hent. apply chosen_ext. rewrite elem_of_cons. naive_solver.
  - intros to' j Hne'. rewrite (view_insert_table s1 s2 _ to tob' t') by done.
    rewrite decide_False, (table_of_same_body _ o ob') by done. by apply D.
  - intros p obp Hp. destruct (E p obp Hp) as (obp' & Hp' & Hdp & Hr). assert (p ≠ to) by congruence.
    rewrite Hs2, lookup_insert_ne by done. destruct (decide (p = o)) as [->|].
    + simplify_eq. exists (handled ob'). rewrite lookup_insert_eq. split_and!; [done|done|simpl; lia].
    + exists obp'. rewrite lookup_insert_ne by done. split_and!; [done..|lia].
Qed.

Lemma filling_more n l i s1 : filling n l s1 → chosen s pto (i :: l) i = chosen s pto l i →
  filling (n + 1) (i :: l) s1.
Proof.
  intros [A B (tob & t & C1 & C2 & C3 & C4 & C5 & C6) D E] Hi. split; [done..| |done|].
  - exists tob, t. split_and!; try done. intros j. rewrite C6. destruct (decide (j = i)) as [->|Hji]; [done|].
    apply chosen_ext. rewrite elem_of_cons. naive_solver.
  - intros p ob Hp. destruct (E p ob Hp) as (ob' & ? & ? & ?). exists ob'. split_and!; [done..|lia].
Qed.

Lemma inherit_handle_ok n l h s1 :
  filling n l s1 → handle_is_global h = false → room s (n + 1) → 0 <= n →
  wp (inherit_handle parent h to) (λ _, filling (n + 1) (handle_to_index h :: l)) s1.
Proof using Hs Hpar Hph Hpto Hd Hno.
  intros Hfl Hg Hroom Hn. unfold inherit_handle. set (i := handle_to_index h).
  assert (pto ≠ to) as Hne by congruence.
  apply wp_bind. eapply wp_mono; [apply (get_handle_ok (pin to x) s1 parent ppr); [apply Hfl|]|].
  { by rewrite (kp_procs _ _ (fl_keeps _ _ _ Hfl)). }
  intros r s1' [-> ->]. unfold resolve. rewrite (resolve_local _ _ _ pto) by done.
  rewrite (fl_views _ _ _ Hfl) by done. fold i.
  destruct (view s pto i) as [[o a]|] eqn:Hv.
  2:{ apply wp_ret, filling_more; [done|]. unfold chosen. rewrite Hv. simpl. by destruct (bool_decide _), (bool_decide _). }
  destruct (has a RESERVED_INHERIT) eqn:Hinh; simpl.
  2:{ apply wp_ret, filling_more; [done|]. unfold chosen. rewrite Hv. simpl. rewrite Hinh.
      by destruct (bool_decide _), (bool_decide _). }
  destruct (fl_table _ _ _ Hfl) as (tob & t & Hto & Hdt & Hf & Hc & Hall & Hent).
  pose proof (heap_table_ok _ _ _ _ _ (so_heap _ _ (fl_ok _ _ _ Hfl)) Hto Hdt) as Ht.
  pose proof (heap_table_ok _ _ _ _ _ (so_heap _ _ Hs) Hpto Hd) as Hpt.
  assert (entry pt i = Some (o, a)) as Hpe by (unfold view, table_of in Hv; by rewrite Hpto, Hd in Hv).
  pose proof Hpe as [Hi _]%entry_some. pose proof (tb_last pt Hpt). pose proof (tb_count t Ht).
  destruct (lookup_lt_is_Some_2 (ht_entries t) (Z.to_nat i) ltac:(lia)) as [sl Hsl].
  destruct (Hall sl (list_elem_of_lookup_2 _ _ _ Hsl)) as (p & b & -> & Hb).
  apply wp_bind, (wp_get_table to tob t); [done..|].
  apply wp_bind, (wp_arr_get _ _ (Slot p b)); [lia|done|]. apply wp_bind, wp_read_slot. cbn [fst].
  destruct p as [p|].
  { apply wp_ret, filling_more; [done|].
    assert (i <= ht_last t) as Hil.
    { destruct (Z.leb_spec i (ht_last t)); [done|]. by apply (tb_rest t Ht) in Hsl. }
    assert (chosen s pto l i = Some (p, b)) as Hch by (rewrite <-Hent; apply entry_some; split; [lia|done]).
    revert Hch. unfold chosen. destruct (bool_decide_reflect (i ∈ l)) as [Hil'|]; [|done].
    by rewrite bool_decide_eq_true_2 by (by right). }
  assert (entry t i = None) as Hfree.
  { destruct (entry t i) as [[p' b']|] eqn:He; [|done]. apply entry_some in He as [_ He]. simplify_eq. }
  destruct (table_target_live x _ pto ptob pt o (so_heap _ _ Hs) Hpto Hd (entry_target _ _ _ _ Hpe)) as (ob & Ho & Hrk).
  destruct (fl_refs _ _ _ Hfl o ob Ho) as (ob' & Ho' & Hd' & Hr). pose proof (Hroom o ob Ho).
  pose proof (handles_le_refs _ _ _ _ (so_heap _ _ (fl_ok _ _ _ Hfl)) Ho').
  apply wp_bind, (wp_grab_for_handle _ o ob'); [done|lia|lia|]. intros s2 Hs2 He2.
  assert (o ≠ to) as Hoto by congruence.
  assert (objs s2 !! to = Some tob) as Hto2 by (by rewrite Hs2, lookup_insert_ne).
  apply wp_bind, (wp_get_table to tob t); [done..|]. apply wp_bind, wp_arr_set; [lia|].
  apply (wp_put_table to tob); [done|]. eapply (filling_put n l s1); try done.
  - by rewrite Hd'.
  - trans s2; [by apply same_env_keeps|apply keeps_objs].
  - simpl. by rewrite Hs2.
Qed.

Lemma inherit_handles_ok hs : ∀ n l s1,
  filling n l s1 → Forall (λ h, handle_is_global h = false) hs → room s (n + Z.of_nat (length hs)) → 0 <= n →
  wp (inherit_handles parent hs to)
    (λ _, filling (n + Z.of_nat (length hs)) (reverse (handle_to_index <$> hs) ++ l)) s1.
Proof using Hs Hpar Hph Hpto Hd Hno.
  induction hs as [|h hs IH]; intros n l s1 Hfl Hg Hroom Hn; cbn [inherit_handles].
  { apply wp_ret. simpl. by rewrite Z.add_0_r. }
  apply Forall_cons in Hg as [Hg Hgs]. apply wp_bind. eapply wp_mono.
  { apply (inherit_handle_ok n l h); try done. intros o ob Ho. pose proof (Hroom o ob Ho). simpl in *. lia. }
  intros [] s2 Hfl2. eapply wp_mono; [apply (IH _ _ s2 Hfl2 Hgs)|].
  - intros o ob Ho. pose proof (Hroom o ob Ho). simpl in *. lia.
  - lia.
  - intros [] s3. simpl. rewrite reverse_cons, <-app_assoc. simpl.
    by replace (n + 1 + Z.of_nat (length hs)) with (n + Z.of_nat (S (length hs))) by lia.
Qed.

(** The table cleared by the memset. *)
Lemma filling_start p s1 s2 :
  keeps s s1 →
  objs s1 = <[to:=Object 1 0 false [] None (handle_table_data (new_table (Some p) (ht_count pt)))]> (objs s) →
  keeps s1 s2 →
  objs s2 = <[to:=Object 1 0 false [] None (handle_table_data (HandleTable (Some p) (ht_count pt) (-1) 0
               (replicate (Z.to_nat (ht_count pt)) (Slot None 0))))]> (objs s) →
  filling 0 [] s2.
Proof using Hs Hpto Hd Hno.
  intros Hk1 Hs1 Hk2 Hs2. pose proof (heap_table_ok _ _ _ _ _ (so_heap _ _ Hs) Hpto Hd) as Hpt.
  pose proof (tb_range pt Hpt) as Hrange.
  destruct (new_table_server_ok x s p Hs to (ht_count pt) s1) as [Hok1 Hsok1]; try done.
  set (tob1 := Object 1 0 false [] None (handle_table_data (new_table (Some p) (ht_count pt)))) in *.
  set (t2 := HandleTable (Some p) (ht_count pt) (-1) 0 (replicate (Z.to_nat (ht_count pt)) (Slot None 0))) in *.
  assert (objs s1 !! to = Some tob1) as Hto1 by by rewrite Hs1, lookup_insert_eq.
  assert (objs s2 = <[to:=ob_data (handle_table_data t2) tob1]> (objs s1)) as Hs2'.
  { by rewrite Hs1, insert_insert_eq. }
  assert (∀ n, omap slot_target (replicate n (Slot None 0)) = []) as Hnil by (by intros n; induction n).
  assert (table_ok t2) as Ht2.
  { split; simpl; rewrite ?length_replicate; try lia.
    - intros i q a _ Hl. by apply lookup_replicate in Hl as [[= <- _] _]. }
  split.
  - apply (server_ok_step (pin to x) _ s1); try done.
    + rewrite Hs2'. apply (retable_ok _ _ to tob1 (new_table (Some p) (ht_count pt))); try done.
      unfold table_targets. simpl. by rewrite Hnil, omap_uninit.
    + rewrite Hs2'. by apply (kinds_insert _ _ tob1).
  - by trans s1.
  - eexists _, t2. split_and!; [by rewrite Hs2, lookup_insert_eq|done..| |].
    + intros sl Hsl. apply elem_of_replicate in Hsl as [-> _]. by exists None, 0.
    + intros i. unfold chosen. rewrite bool_decide_eq_false_2 by apply not_elem_of_nil.
      apply entry_out. simpl. lia.
  - intros to' i Hne. unfold view, table_of. by rewrite Hs2, lookup_insert_ne.
  - intros o ob Ho. exists ob. rewrite Hs2, lookup_insert_ne by congruence. split_and!; [done..|lia].
Qed.
End copy_list.

(** The two ways to fill the new table. *)
Section fill.
Context (x : xrefs) (s : server) (p parent : pid) (ppr : process) (pto : oid).
Context (ptob : object) (pt : handle_table).
Context (Hs : server_ok x s) (Hpar : procs s !! parent = Some ppr) (Hph : p_handles ppr = Some pto).
Context (Hpto : objs s !! pto = Some ptob) (Hd : data ptob = handle_table_data pt).
Context (to : oid) (s1 : server) (Hno : objs s !! to = None) (Hk1 : keeps s s1) (Hmem : ¬ no_table s)
  (Hs1 : objs s1 = <[to:=Object 1 0 false [] None (handle_table_data (new_table (Some p) (ht_count pt)))]> (objs s)).

Lemma copy_some_ok l std_handles :
  room s (Z.of_nat (length (l ++ std_handles))) → Forall (λ h, handle_is_global h = false) (l ++ std_handles) →
  wp ((t <- get_table to;
       put_table to (HandleTable (ht_process t) (ht_count t) (ht_last t) (ht_free t)
         (replicate (Z.to_nat (ht_count pt)) (Slot None 0)
          ++ drop (Z.to_nat (ht_count pt)) (ht_entries t))) ;;
       inherit_handles parent l to ;; inherit_handles parent std_handles to) ;;
      shrink_handle_table to ;; ret (Some to))
    (copied x (λ i, if bool_decide (i ∈ handle_to_index <$> l ++ std_handles)
                    then inheritable (view s pto i) else None) s) s1.
Proof using Hs Hpar Hph Hpto Hd Hno Hk1 Hmem Hs1.
  intros Hroom [Hg1 Hg2]%Forall_app. rewrite length_app in Hroom.
  set (tob0 := Object 1 0 false [] None (handle_table_data (new_table (Some p) (ht_count pt)))) in *.
  assert (objs s1 !! to = Some tob0) as Hto1 by by rewrite Hs1, lookup_insert_eq.
  apply wp_bind, wp_bind, (wp_get_table to tob0 (new_table (Some p) (ht_count pt))); [done..|].
  apply wp_bind, (wp_put_table to tob0); [done|]. set (s2 := set_objs _ s1).
  assert (filling x s pto to pt 0 [] s2) as Hfl.
  { apply (filling_start x s pto to ptob pt Hs Hpto Hd Hno p s1); try done. simpl.
    rewrite Hs1, insert_insert_eq. unfold new_table. simpl.
    rewrite drop_replicate, Nat.sub_diag, app_nil_r. done. }
  apply wp_bind. eapply wp_mono.
  { apply (inherit_handles_ok x s parent ppr pto to ptob pt Hs Hpar Hph Hpto Hd Hno l 0 [] s2); try done.
    intros o ob Ho. pose proof (Hroom o ob Ho). lia. }
  intros [] s3 Hfl3. eapply wp_mono.
  { apply (inherit_handles_ok x s parent ppr pto to ptob pt Hs Hpar Hph Hpto Hd Hno std_handles _ _ s3 Hfl3); try done.
    - intros o ob Ho. pose proof (Hroom o ob Ho). lia.
    - lia. }
  intros [] s4 Hfl4. destruct (fl_table _ _ _ _ _ _ _ _ Hfl4) as (tob & t & Hto & Hdt & _ & _ & _ & Hent).
  pose proof (fl_ok _ _ _ _ _ _ _ _ Hfl4) as Hok4.
  apply (finish_copy x _ s to s4 tob t); try done; [apply Hok4| |apply Hfl4].
  intros i. rewrite Hent. apply (chosen_ext s pto). rewrite app_nil_r, fmap_app, !elem_of_app, !elem_of_reverse. tauto.
Qed.

Lemma copy_none_ok :
  room s MAX_HANDLE_ENTRIES →
  wp ((if 0 <=? ht_last pt then
         es <- inherit_entries (take (Z.to_nat (ht_last pt + 1)) (ht_entries pt));
         t <- get_table to;
         put_table to (HandleTable (ht_process t) (ht_count t) (ht_last pt) (ht_free t)
           (es ++ drop (Z.to_nat (ht_last pt + 1)) (ht_entries t)))
       else
         t <- get_table to;
         put_table to (HandleTable (ht_process t) (ht_count t) (ht_last pt) (ht_free t) (ht_entries t))) ;;
      shrink_handle_table to ;; ret (Some to))
    (copied x (λ i, inheritable (view s pto i)) s) s1.
Proof using Hs Hpto Hd Hno Hk1 Hmem Hs1.
  intros Hroom. pose proof (heap_table_ok _ _ _ _ _ (so_heap _ _ Hs) Hpto Hd) as Ht.
  pose proof (tb_range pt Ht). pose proof (tb_last pt Ht). pose proof (tb_count pt Ht).
  destruct (new_table_server_ok x s p Hs to (ht_count pt) s1) as [Hok1 Hsok1]; try done.
  assert (pto ≠ to) as Hne by congruence.
  pose proof (filled_ok x s p pto ptob pt Hs Hpto Hd to s1 Hmem Hno Hk1 Hs1) as Hfill.
  pose proof (inherited_targets (Some p) pt) as Htg.
  set (tob0 := Object 1 0 false [] None (handle_table_data (new_table (Some p) (ht_count pt)))) in *.
  assert (objs s1 !! to = Some tob0) as Hto1 by by rewrite Hs1, lookup_insert_eq.
  destruct (Z.leb_spec 0 (ht_last pt)) as [Hl|Hl].
  - apply wp_bind, wp_bind.
    assert (∀ sl, sl ∈ take (Z.to_nat (ht_last pt + 1)) (ht_entries pt) → ∃ q a, sl = Slot q a) as Hinit.
    { intros sl [k Hk]%list_elem_of_lookup. apply lookup_take_Some in Hk as [Hk Hkl].
      destruct (tb_init pt Ht (Z.of_nat k) ltac:(lia)) as (q & a & He & _). rewrite Nat2Z.id in He.
      simplify_eq. eauto. }
    eapply wp_mono; [apply (inherit_entries_ok _ Hinit (pin to x) s1 Hok1)|].
    + intros q Hq. destruct (table_target_live x _ pto ptob pt q (so_heap _ _ Hs) Hpto Hd) as (obq & Hobq & Hrk).
      { unfold table_targets. apply list_elem_of_omap in Hq as (sl & Hsl & Hq). apply list_elem_of_omap.
        exists sl. split; [|done]. apply list_elem_of_lookup in Hsl as [k Hk].
        apply lookup_take_Some in Hk as [Hk _]. by eapply list_elem_of_lookup_2. }
      exists obq. split; [by rewrite Hs1, lookup_insert_ne by congruence|].
      rewrite length_take. pose proof (Hroom q obq Hobq). unfold MAX_HANDLE_ENTRIES in *. lia.
    + intros es s2 (-> & Hok2 & He2 & Hb2). rewrite <-Htg in Hok2.
      assert (bumped MAX_HANDLE_ENTRIES (objs s1) (objs s2)) as Hb2'.
      { eapply bumped_le; [done|]. rewrite length_take. unfold MAX_HANDLE_ENTRIES. lia. }
      destruct (bumped_some _ _ _ _ _ Hb2 Hto1) as (tob2 & Hto2 & (Hd2 & _) & _).
      apply wp_bind, (wp_get_table to tob2 (new_table (Some p) (ht_count pt))); [done..|].
      exact (Hfill s2 tob2 Hok2 He2 Hb2' Hto2 Hd2).
  - apply wp_bind, wp_bind, (wp_get_table to tob0 (new_table (Some p) (ht_count pt))); [done..|].
    replace (HandleTable _ _ _ _ _) with (inherited_table (Some p) pt).
    + apply (Hfill s1 tob0); try done.
      * rewrite Htg. replace (Z.to_nat (ht_last pt + 1)) with 0%nat by lia. simpl. by rewrite x_handles_nil.
      * eapply bumped_le; [apply bumped_refl|done].
    + unfold inherited_table. replace (Z.to_nat (ht_last pt + 1)) with 0%nat by lia. done.
Qed.
End fill.

(** ** The result *)

(** The handles to copy: all of them, or an explicit list and the standard handles. *)
Definition listed (handles : option (list Z)) (std_handles : list Z) (i : Z) : bool :=
  match handles with
  | None => true
  | Some l => bool_decide (i ∈ handle_to_index <$> l ++ std_handles)
  end.

(** The room for new references that is enough, and no global handle in the list. *)
Definition inherit_room (handles : option (list Z)) (std_handles : list Z) : Z :=
  match handles with None => MAX_HANDLE_ENTRIES | Some l => Z.of_nat (length (l ++ std_handles)) end.

Definition local_handles (handles : option (list Z)) (std_handles : list Z) : Prop :=
  match handles with
  | None => True
  | Some l => Forall (λ h, handle_is_global h = false) (l ++ std_handles)
  end.

(** C5: [copy_handle_table] on a parent with a handle table, when every object has
    room for the references that may be added and an explicit list contains no
    global handle.  The child gets a new table whose entries are exactly the
    inheritable entries of the parent, at the same handles and with the same
    access: all of them without an explicit list, and those of the list and of
    the standard handles with one.  Every other table is unchanged, and each
    inherited object gains one reference and one handle (the server invariant
    holds with the child's table as the only new outside reference).  Exactly
    when one of the two allocations fails, no table is returned, no object
    changes and the error is [STATUS_NO_MEMORY]. *)
Theorem copy_handle_table_spec x s p parent ppr pto handles std_handles :
  server_ok x s → procs s !! parent = Some ppr → p_handles ppr = Some pto →
  room s (inherit_room handles std_handles) → local_handles handles std_handles →
  wp (copy_handle_table p parent handles std_handles)
    (copied x (λ i, if listed handles std_handles i then inheritable (view s pto i) else None) s) s.
Proof.
  intros Hs Hpar Hph Hroom Hloc.
  destruct (parent_table x s parent ppr pto Hs Hpar Hph) as (ptob & pt & Hpto & Hd & Ht & _).
  pose proof (tb_range pt Ht).
  unfold copy_handle_table. apply wp_bind, (wp_get_process parent ppr); [done|].
  rewrite Hph. apply wp_bind, wp_ret. apply wp_bind, (wp_get_table pto ptob pt); [done..|].
  apply wp_bind, alloc_handle_table_ok; [lia| |].
  { intros s1 Hs1 Hk1 Hmem He. apply wp_ret. split_and!; [done|by apply (server_ok_same x s)|done..]. }
  intros to s1 Hno Hk1 Hmem Hs1. destruct handles as [l|]; simpl in *.
  - by apply (copy_some_ok x s p parent ppr pto ptob pt).
  - eapply wp_mono; [by apply (copy_none_ok x s p pto ptob pt)|]. done.
Qed.
