(* ===== verification/HandleDup.v ===== *)
(** * Access checks on handles: opening, duplicating, and the request handlers

    [alloc_handle] grants a new handle only what the object's security
    descriptor allows; [duplicate_handle] never gives more rights than the
    source handle has unless the access checks grant them. *)

From stdpp Require Import base list gmap fin_maps.
From S2P Require Import Prelude Access Object ObjectInv Handle HandleInv HandleThms.

Open Scope Z_scope.
Open Scope server_scope.

#[local] Arguments check_access : simpl never.

(** ** [check_object_access] *)

(** The token that applies when none is given: the thread's, else its process's. *)
Definition effective_token (s : server) (tok : option oid) : option oid :=
  match tok with
  | Some t => Some t
  | None =>
      match current s with
      | Some c => match threads s !! c with
                  | Some th => match t_token th with
                               | Some t => Some t
                               | None => match procs s !! t_process th with Some p => p_token p | None => None end
                               end
                  | None => None
                  end
      | None => None
      end
  end.

Definition token_of (s : server) (o : oid) : option token :=
  match objs s !! o with
  | Some ob => match data ob with token_data t => Some t | _ => None end
  | None => None
  end.

Definition object_mapping (ob : object) : generic_map :=
  GenericMap (map_obj_access ob GENERIC_READ) (map_obj_access ob GENERIC_WRITE)
    (map_obj_access ob GENERIC_EXECUTE) (map_obj_access ob GENERIC_ALL).

(** The access the server's policy gives on an object. *)
Definition object_grant (s : server) (tok : option oid) (ob : object) (access : Z) : option Z :=
  match sd ob with
  | None => Some (if has access MAXIMUM_ALLOWED then map_obj_access ob GENERIC_ALL else access)
  | Some d => match effective_token s tok ≫= token_of s with
              | Some tk => check_access tk (Some d) (object_mapping ob) access
              | None => None
              end
  end.

(** A thread is running, and it has a token to check accesses with. *)
Definition has_current (s : server) : Prop :=
  ∃ c th pr, current s = Some c ∧ threads s !! c = Some th ∧ procs s !! t_process th = Some pr ∧
             is_Some (p_token pr).

Lemma keeps_has_current s s' : keeps s s' → has_current s → has_current s'.
Proof.
  intros Hk (c & th & pr & Hc & Hth & Hpr & Htk).
  pose proof (kp_threads _ _ Hk c) as Heq. rewrite Hth in Heq.
  destruct (threads s' !! c) as [th'|] eqn:Hth'; [|done]. simpl in Heq. simplify_eq.
  exists c, th', pr. rewrite (kp_current _ _ Hk), (kp_procs _ _ Hk).
  destruct th, th'; simpl in *; simplify_eq. done.
Qed.

Lemma token_pinned x s tk : server_ok x s → owned_token s tk →
  ∃ tob t, objs s !! tk = Some tob ∧ data tob = token_data t.
Proof.
  intros Hs Htk. destruct (so_tokens _ _ Hs tk Htk) as (_ & tob & Htob & Hk).
  destruct (data tob) as [?|? ?|?| |? ?|?|? ? ?|?|? ?|t|?] eqn:Hd;
    unfold obj_ops in Hk; rewrite Hd in Hk; try done. eauto.
Qed.

Lemma check_object_access_ok x s tok o ob access :
  server_ok x s → has_current s → objs s !! o = Some ob → (∀ tk, tok = Some tk → owned_token s tk) →
  wp (check_object_access tok o access) (λ r s', r = object_grant s tok ob access ∧
    objs s' = objs s ∧ keeps s s' ∧ (r = None → last_error s' = STATUS_ACCESS_DENIED) ∧
    (is_Some r → s' = s)) s.
Proof.
  intros Hs (c & th & pr & Hc & Hth & Hpr & [ptk Hptk]) Ho Htok. unfold check_object_access.
  apply wp_bind, (wp_get_obj o ob); [done|].
  assert (∃ tk, effective_token s tok = Some tk ∧ owned_token s tk) as (tk & Htk & Hown).
  { unfold effective_token. destruct tok as [tk|]; [eauto|]. rewrite Hc, Hth.
    destruct (t_token th) as [tk|] eqn:Ht.
    - exists tk. split; [done|]. right. eauto.
    - rewrite Hpr. exists ptk. split; [done|]. left. eauto. }
  apply wp_bind. eapply (wp_mono _ (λ r s', r = Some tk ∧ s' = s)).
  { unfold effective_token in Htk. destruct tok as [t0|]; [by simplify_eq|].
    rewrite Hc, Hth in Htk. unfold get_current. apply wp_bind. wp_steps. rewrite Hc.
    apply (wp_deref _ th); [done|]. destruct (t_token th); [by simplify_eq|].
    rewrite Hpr in Htk. apply wp_bind, (wp_get_process _ pr); [done|].
    apply wp_ret. split; [congruence|done]. }
  intros ? ? [-> ->]. unfold object_grant. cbv zeta. destruct (sd ob) as [d|]; [|apply wp_ret; split_and!; done].
  destruct (token_pinned x s tk Hs Hown) as (tob & t & Htob & Hd).
  apply wp_bind, (wp_deref _ tk); [done|]. apply wp_bind, (wp_get_obj tk tob); [done|].
  rewrite Hd, Htk. simpl. unfold token_of. rewrite Htob, Hd. fold (object_mapping ob).
  destruct (check_access t (Some d) (object_mapping ob) access); [apply wp_ret; split_and!; done|].
  apply wp_bind, wp_set_error. intros s' Hs' Hk He. apply wp_ret. done.
Qed.

Lemma object_grant_exact s tok ob access a :
  has access MAXIMUM_ALLOWED = false → object_grant s tok ob access = Some a → a = access.
Proof.
  intros Hm. unfold object_grant. rewrite Hm. destruct (sd ob) as [d|]; [|congruence].
  destruct (effective_token s tok ≫= token_of s); [|done]. by apply check_access_exact.
Qed.

(** ** Opening a handle *)

(** The access [alloc_handle] asks for. *)
Definition requested (ob : object) (access : Z) : Z := handle_rights (map_obj_access ob access).

Lemma requested_unreserved ob access : has (requested ob access) RESERVED_ALL = false.
Proof. apply has_false, land_not32_mask. Qed.

Lemma testbit_inherit k : 0 <= k → Z.testbit RESERVED_INHERIT k = (k =? 26).
Proof.
  intros Hk. change RESERVED_INHERIT with (2 ^ 26). by rewrite Z.pow2_bits_eqb, Z.eqb_sym by lia.
Qed.

Lemma with_inherit_rights attr m : handle_rights (with_inherit attr (handle_rights m)) = handle_rights m.
Proof.
  apply Z.bits_inj'. intros k Hk. unfold with_inherit, handle_rights.
  destruct (has attr OBJ_INHERIT);
    rewrite !Z.land_spec, ?Z.lor_spec, ?Z.land_spec, !testbit_not32, !testbit_reserved, ?testbit_inherit by done;
    destruct (k <? 32), (Z.testbit m k), (k =? 26), (k =? 27); done.
Qed.

Lemma with_inherit_flag attr m :
  has (with_inherit attr (handle_rights m)) RESERVED_INHERIT = has attr OBJ_INHERIT.
Proof.
  unfold with_inherit. destruct (has attr OBJ_INHERIT).
  - apply has_true. intros Hz. apply (f_equal (λ z, Z.testbit z 26)) in Hz.
    by rewrite Z.land_spec, Z.lor_spec, testbit_inherit, orb_true_r in Hz.
  - apply has_false, Z.bits_inj'. intros k Hk. unfold handle_rights.
    rewrite !Z.land_spec, testbit_not32, testbit_reserved, testbit_inherit, Z.bits_0 by done.
    destruct (k <? 32), (Z.testbit m k), (k =? 26), (k =? 27); done.
Qed.

Lemma with_inherit_unprotected attr access :
  has access RESERVED_ALL = false → has (with_inherit attr access) RESERVED_CLOSE_PROTECT = false.
Proof.
  intros Hz%has_false. apply has_false, Z.bits_inj'. intros k Hk.
  apply (f_equal (λ z, Z.testbit z 27)) in Hz. rewrite Z.land_spec, testbit_reserved, Z.bits_0 in Hz by done.
  rewrite Z.land_spec, Z.bits_0. change RESERVED_CLOSE_PROTECT with (2 ^ 27).
  rewrite Z.pow2_bits_eqb, Z.eqb_sym by lia. destruct (Z.eqb_spec k 27) as [->|]; [|apply andb_false_r].
  unfold with_inherit. destruct (has attr OBJ_INHERIT);
    rewrite ?Z.lor_spec, ?testbit_inherit by done; rewrite andb_true_r in Hz; by rewrite Hz.
Qed.

(** C1: [alloc_handle] without [MAXIMUM_ALLOWED], called for an object whose
    reference count is below [INT_MAX].  When the mapped access is empty or the
    object's security descriptor does not grant it to the current token, no
    object changes, the handle is 0 and the error is access denied.  Otherwise,
    when the process still has a table and that table has or can be given a free
    entry ([can_open]), the handle is the lowest free one of the table, it denotes
    the object with exactly the mapped access, and no other handle of any process
    changes; and exactly in the remaining cases (the process is terminating; all
    entries are used and the array is at its largest size or the allocation of a
    larger one fails) the handle is 0, no object changes and the error is
    [STATUS_PROCESS_IS_TERMINATING] or [STATUS_INSUFFICIENT_RESOURCES]. *)
Theorem alloc_handle_spec x s p pr o ob access attr :
  server_ok x s → has_current s → procs s !! p = Some pr →
  objs s !! o = Some ob → (rank (data ob) < 2)%nat → refcount ob < INT_MAX →
  u32 (map_obj_access ob access) → has (requested ob access) MAXIMUM_ALLOWED = false →
  wp (alloc_handle p o access attr) (λ h s', server_ok x s' ∧
    if (requested ob access =? 0) || bool_decide (object_grant s None ob (requested ob access) = None)
    then h = 0 ∧ objs s' = objs s ∧ last_error s' = STATUS_ACCESS_DENIED
    else (h = 0 ∧ objs s' = objs s ∧ no_handle s pr (last_error s')) ∨
         (can_open s pr ∧ h ≠ 0 ∧ resolve s pr h = None ∧ ∃ to i b, resolve s' pr h = Some (to, i, o, b) ∧
           handle_rights b = requested ob access ∧
           has b RESERVED_INHERIT = has attr OBJ_INHERIT ∧
           (∀ j, 0 <= j < i → is_Some (view s to j)) ∧
           ∀ to' j, (to', j) ≠ (to, i) → view s' to' j = view s to' j)) s.
Proof.
  intros Hs Hcur Hp Ho Hrk Hmax Hu Hm. unfold alloc_handle.
  apply wp_bind, (wp_get_obj o ob); [done|]. fold (handle_rights (map_obj_access ob access)).
  fold (requested ob access). cbv zeta.
  destruct (requested ob access =? 0) eqn:Hz.
  { apply wp_bind, wp_set_error. intros s' Hs' Hk He. apply wp_ret.
    split; [by apply (server_ok_same x s)|done]. }
  apply wp_bind. eapply wp_mono; [by apply (check_object_access_ok x s None o ob)|].
  intros r s1 (-> & Hs1 & Hk1 & He1 & Hsame). simpl orb.
  destruct (object_grant s None ob (requested ob access)) as [a|] eqn:Hg.
  2:{ rewrite bool_decide_eq_true_2 by done. apply wp_ret. split; [by apply (server_ok_same x s)|]. auto. }
  rewrite bool_decide_eq_false_2 by done.
  apply object_grant_exact in Hg as ->; [|done]. rewrite (Hsame ltac:(eauto)) in *. clear s1 Hs1 Hk1 He1 Hsame.
  assert (u32 (requested ob access)) as Hur by (apply u32_land; [done|apply u32_not32]).
  eapply wp_mono; [apply (alloc_handle_entry_ok x s p pr o ob); try done; apply requested_unreserved|].
  intros h s' [(-> & Ho' & Hk' & Hwhy)|[Hcan Hop]].
  { split; [by apply (server_ok_same x s)|]. by left. }
  apply opened_resolve in Hop as (Hh & _ & Hr & to & i & Hto & Hlow & Hr' & Hst).
  split; [by eapply stored_server_ok|]. right. split_and!; [done..|].
  exists to, i. eexists. split_and!; [exact Hr'|apply with_inherit_rights|apply with_inherit_flag|done|].
  intros to' j Hne. by apply (stored_others _ _ _ _ _ _ _ _ Hst Hne).
Qed.

(** ** Pins *)

(** Every object is still there, with the same type. *)
Definition evolves (h h' : gmap oid object) : Prop :=
  ∀ o ob, h !! o = Some ob → ∃ ob', h' !! o = Some ob' ∧ obj_ops ob' = obj_ops ob.

#[export] Instance evolves_preorder : PreOrder evolves.
Proof.
  split.
  - intros h o ob Ho. eauto.
  - intros h1 h2 h3 H12 H23 o ob Ho. destruct (H12 o ob Ho) as (ob2 & H2 & <-). by apply H23.
Qed.

Lemma evolves_insert h o ob ob' :
  h !! o = Some ob → obj_ops ob' = obj_ops ob → evolves h (<[o:=ob']> h).
Proof.
  intros Ho Hk p obp Hp. destruct (decide (p = o)) as [->|Hne].
  - rewrite lookup_insert_eq. simplify_eq. eauto.
  - rewrite lookup_insert_ne by done. eauto.
Qed.

Lemma stored_evolves x to i e s s' : stored x to i e s s' → evolves (objs s) (objs s').
Proof.
  intros [A B C D E] o ob Ho. destruct (decide (o = to)) as [->|Hne].
  - destruct (objs s' !! to) as [ob'|] eqn:Ho'; [exists ob'; split; [done|]; by apply (E to)|].
    specialize (B to i). rewrite decide_True in B by done. unfold view, table_of in B.
    by rewrite Ho' in B.
  - destruct (D o Hne) as (f & Hf & Hsb). rewrite Ho in Hf. exists (f ob). split; [done|].
    unfold obj_ops. by rewrite (proj1 (Hsb ob)).
Qed.

(** Dropping the reference a routine took on [o] since the state [s]. *)
Lemma unpin_ok x s s2 o ob :
  server_ok x s → keeps s s2 → evolves (objs s) (objs s2) → heap_ok (pin o x) (objs s2) →
  objs s2 !! o = Some ob → (rank (data ob) < 2)%nat →
  wp (release_object o) (λ _ s', server_ok x s' ∧ keeps s s' ∧ last_error s' = last_error s2 ∧
    ∀ to j, view s' to j = view s2 to j) s2.
Proof.
  intros Hs Hk Hev Hok Ho Hrk. eapply wp_mono.
  { apply (release_object_ok x o ob); [by apply (so_x_ok x s)|done..]. }
  intros [] s' (Hok' & Hsh & Henv). assert (keeps s s') as Hk' by (trans s2; [done|by apply same_env_keeps]).
  split_and!; [|done|by apply same_env_error|].
  - apply (server_ok_step x x s s'); try done. intros p obp obp' Hp Hp'.
    destruct (Hev p obp Hp) as (obp2 & Hp2 & <-). by apply (shrinks_kinds _ _ Hsh p).
  - intros to j. unfold view. rewrite (table_of_shrinks x (objs s2)); [done..|].
    intros t Ht. pose proof (table_pinned _ _ _ _ Hok Ht) as Hp. simpl in Hp.
    rewrite occ_other in Hp; [lia|]. intros ->. unfold table_of in Ht. rewrite Ho in Ht.
    destruct (data ob); simpl in Hrk; (done || lia).
Qed.

Lemma stored_object x to i e s s' o ob :
  stored x to i e s s' → objs s !! o = Some ob → o ≠ to →
  ∃ ob', objs s' !! o = Some ob' ∧ data ob' = data ob.
Proof.
  intros Hst Ho Hne. destruct (st_objs _ _ _ _ _ _ Hst o Hne) as (f & Hf & Hsb).
  rewrite Ho in Hf. exists (f ob). split; [done|]. apply (Hsb ob).
Qed.

(** ** Duplication *)

(** The access a duplication asks for, from the source entry's mask [a]. *)
Definition dup_request (ob : object) (a access options : Z) : Z :=
  if has options DUPLICATE_SAME_ACCESS then handle_rights a else requested ob access.

(** The end of [duplicate_handle]: set the attributes, drop the reference. *)
Section dup_end.
Context (x : xrefs) (s s2 : server) (d : pid) (dpr : process) (o : oid) (ob2 : object).
Context (Hs : server_ok x s) (Hk : keeps s s2) (Hev : evolves (objs s) (objs s2)).
Context (Hs2 : server_ok (pin o x) s2) (Ho2 : objs s2 !! o = Some ob2) (Hrk : (rank (data ob2) < 2)%nat).

Definition dup_end (res options flags : Z) : M Z :=
  (if negb (res =? 0) && has options DUPLICATE_SAME_ATTRIBUTES
   then set_handle_flags (Some d) res 0xffffffff flags ;; ret tt else ret tt) ;;
  release_object o ;; ret res.

(** The mask of the new entry after the attributes are set. *)
Definition dup_mask (b options flags : Z) : Z :=
  if has options DUPLICATE_SAME_ATTRIBUTES then with_flags b 0xffffffff flags else b.

Lemma dup_end_failed options flags :
  wp (dup_end 0 options flags) (λ r s', r = 0 ∧ server_ok x s' ∧
    last_error s' = last_error s2 ∧ ∀ to j, view s' to j = view s2 to j) s2.
Proof using Hs Hk Hev Hs2 Ho2 Hrk.
  unfold dup_end. apply wp_bind, wp_ret, wp_bind.
  eapply wp_mono; [by apply (unpin_ok x s s2 o ob2); [..|apply Hs2| |]|].
  intros [] s' (? & ? & ? & ?). by apply wp_ret.
Qed.

Lemma dup_end_ok res to i b options flags :
  procs s2 !! d = Some dpr → is_magic res = false → res ≠ 0 →
  resolve s2 dpr res = Some (to, i, o, b) → o ≠ to →
  wp (dup_end res options flags) (λ r s', r = res ∧ server_ok x s' ∧
    resolve s' dpr res = Some (to, i, o, dup_mask b options flags) ∧
    ∀ to' j, (to', j) ≠ (to, i) → view s' to' j = view s2 to' j) s2.
Proof using Hs Hk Hev Hs2 Ho2 Hrk.
  intros Hd Hm Hne Hr Hoto. unfold dup_end. rewrite (proj2 (Z.eqb_neq res 0)) by done. cbn [negb andb].
  pose proof Hr as [Hpl Hv]%resolve_some.
  assert (Hfin : ∀ s3 b', keeps s s3 → evolves (objs s) (objs s3) → heap_ok (pin o x) (objs s3) →
    view s3 to i = Some (o, b') → b' = dup_mask b options flags →
    (∃ ob3, objs s3 !! o = Some ob3 ∧ data ob3 = data ob2) → keeps s2 s3 →
    (∀ to' j, (to', j) ≠ (to, i) → view s3 to' j = view s2 to' j) →
    wp (release_object o ;; ret res) (λ r s', r = res ∧ server_ok x s' ∧
      resolve s' dpr res = Some (to, i, o, dup_mask b options flags) ∧
      ∀ to' j, (to', j) ≠ (to, i) → view s' to' j = view s2 to' j) s3).
  { intros s3 b' Hk3 Hev3 Hok3 Hv3 -> (ob3 & Ho3 & Hd3) Hk23 Hoth. apply wp_bind.
    eapply wp_mono; [apply (unpin_ok x s s3 o ob3); try done; by rewrite Hd3|].
    intros [] s' (Hsok & Hk' & _ & Hvw). apply wp_ret. split_and!; [done|done| |].
    - apply resolve_some. rewrite Hvw. split; [|done].
      rewrite (handle_place_keeps s s') by done. by rewrite <-(handle_place_keeps s s2).
    - intros to' j Hne'. rewrite Hvw. by apply Hoth. }
  apply wp_bind. destruct (has options DUPLICATE_SAME_ATTRIBUTES) eqn:Hsa.
  - apply wp_bind. eapply wp_mono; [by apply (set_handle_flags_ok (pin o x) s2 d dpr res _ _ to i o b)|].
    intros r s3 [_ Hst]. apply wp_ret. eapply (Hfin s3).
    + trans s2; [done|apply Hst].
    + trans (objs s2); [done|by eapply stored_evolves].
    + apply Hst.
    + rewrite (st_view _ _ _ _ _ _ Hst). by rewrite decide_True.
    + unfold dup_mask. by rewrite Hsa.
    + by eapply stored_object.
    + apply Hst.
    + intros. by eapply stored_others.
  - apply wp_ret. apply (Hfin s2 b); try done; [apply Hs2|unfold dup_mask; by rewrite Hsa|eauto].
Qed.
End dup_end.

(** The flags of the duplicate: those of the source entry's mask [a], or the
    inherit flag of the attributes. *)
Definition dup_flags (a attr options : Z) : Z :=
  if has options DUPLICATE_SAME_ATTRIBUTES then handle_flags a else if has attr OBJ_INHERIT then 1 else 0.

Lemma handle_flags_bits a k : 0 <= k →
  Z.testbit (handle_flags a) k = Z.testbit a (k + 26) && (k <? 2).
Proof.
  intros Hk. unfold handle_flags, RESERVED_SHIFT.
  rewrite Z.shiftr_spec, Z.land_spec, testbit_reserved by lia. f_equal.
  destruct (Z.eqb_spec (k + 26) 26), (Z.eqb_spec (k + 26) 27), (Z.ltb_spec k 2); (done || lia).
Qed.

Lemma dup_mask_rights b options flags : handle_rights (dup_mask b options flags) = handle_rights b.
Proof. unfold dup_mask. destruct (has options DUPLICATE_SAME_ATTRIBUTES); [apply with_flags_rights|done]. Qed.

Lemma dup_mask_flags a attr options req : has req RESERVED_ALL = false →
  handle_flags (dup_mask (with_inherit attr req) options (handle_flags a)) = dup_flags a attr options.
Proof.
  intros Hz%has_false. unfold dup_mask, dup_flags. destruct (has options DUPLICATE_SAME_ATTRIBUTES).
  - rewrite with_flags_flags by done. apply Z.bits_inj'. intros k Hk.
    rewrite Z.lor_spec, !Z.land_spec, !handle_flags_bits, testbit_not32 by done.
    change 0xffffffff with (Z.ones 32). change 3 with (Z.ones 2). rewrite !Z.testbit_ones_nonneg by lia.
    destruct (Z.ltb_spec k 2), (Z.ltb_spec k 32); try lia; by destruct (Z.testbit a (k + 26)), (Z.testbit _ _).
  - assert (handle_flags req = 0) as H0 by (unfold handle_flags; by rewrite Hz).
    unfold with_inherit. destruct (has attr OBJ_INHERIT); [|done].
    apply Z.bits_inj'. intros k Hk. apply (f_equal (λ z, Z.testbit z k)) in H0.
    rewrite handle_flags_bits, Z.bits_0 in H0 by done.
    rewrite handle_flags_bits, Z.lor_spec, testbit_inherit, andb_orb_distrib_l, H0 by lia.
    change 1 with (Z.ones 1). rewrite Z.testbit_ones_nonneg by lia. simpl.
    destruct (Z.eqb_spec (k + 26) 26), (Z.ltb_spec k 2), (Z.ltb_spec k 1); (done || lia).
Qed.

(** The source entry is changed in place instead of adding an entry. *)
Definition dup_in_place (src d : pid) (a options : Z) : bool :=
  has options DUPLICATE_CLOSE_SOURCE && bool_decide (Some d = Some src) && negb (has a RESERVED_CLOSE_PROTECT).

(** What a duplication of the entry [(o, a)] of the handle [h] leaves, with the
    rights [req]. *)
Definition duplicated (x : xrefs) (s : server) (src : pid) (h : Z) (d : pid) (dpr : process)
    (o : oid) (a attr options req : Z) (r : Z) (s' : server) : Prop :=
  server_ok x s' ∧
  ((dup_in_place src d a options = false ∧ r = 0 ∧ no_handle s dpr (last_error s') ∧
    ∀ to j, view s' to j = view s to j) ∨
   (r ≠ 0 ∧
    (if dup_in_place src d a options then r = h else can_open s dpr ∧ resolve s dpr r = None) ∧
    ∃ to i b, resolve s' dpr r = Some (to, i, o, b) ∧ handle_rights b = req ∧
      handle_flags b = dup_flags a attr options ∧
      ∀ to' j, (to', j) ≠ (to, i) → view s' to' j = view s to' j)).

Lemma resolve_same s s' pr h : keeps s s' → (∀ to j, view s' to j = view s to j) →
  resolve s' pr h = resolve s pr h.
Proof.
  intros Hk Hv. unfold resolve. rewrite (handle_place_keeps s s') by done.
  destruct (handle_place s pr h) as [[to i]|]; [|done]. by rewrite Hv.
Qed.

Lemma resolve_live x s p pr h to i o a :
  server_ok x s → procs s !! p = Some pr → resolve s pr h = Some (to, i, o, a) →
  u32 a ∧ 0 <= i ∧ o ≠ to ∧ ∃ ob, objs s !! o = Some ob ∧ (rank (data ob) < 2)%nat.
Proof.
  intros Hs Hp [Hpl Hv]%resolve_some.
  destruct (pinned_table x s to Hs) as (tob & t & Hto & Hd & Ht & _); [by eapply handle_place_owned|].
  unfold view, table_of in Hv. rewrite Hto, Hd in Hv.
  destruct (table_target_live x _ to tob t o (so_heap _ _ Hs) Hto Hd (entry_target _ _ _ _ Hv))
    as (ob & Ho & Hrk).
  split_and!; [by eapply entry_access|by apply entry_some in Hv as [? _]; lia| |eauto].
  by apply (rank_not_table _ _ _ _ _ _ Hto Hd Ho Hrk).
Qed.

Lemma resolve_nonzero s pr h to i o a : resolve s pr h = Some (to, i, o, a) → 0 <= i → h ≠ 0.
Proof.
  intros [Hpl _]%resolve_some Hi ->. unfold handle_place in Hpl.
  rewrite local_not_global in Hpl by lia. destruct (p_handles pr); simplify_eq/=. by destruct Hi.
Qed.

(** C4: [duplicate_handle] on a handle in the table of the source process,
    without [DUPLICATE_MAKE_GLOBAL], asking for no right the source handle lacks,
    with room for two more references on every object.  With
    [DUPLICATE_CLOSE_SOURCE] within one process and an unprotected entry the
    source handle itself gets the requested rights.  Otherwise, exactly when the
    target process still has a table with or with room for a free entry
    ([can_open]), a handle of the target process that was free before denotes the
    same object with exactly the requested rights; else 0 is returned, no handle
    changes, and the error is [STATUS_PROCESS_IS_TERMINATING] or
    [STATUS_INSUFFICIENT_RESOURCES].  The inherit and protect flags are those of
    the source with [DUPLICATE_SAME_ATTRIBUTES], else those of the attributes.  No
    other handle of any process changes, and the reference taken during the call
    is dropped. *)
Theorem duplicate_handle_within_source x s src spr h d dpr access attr options to i o a ob :
  server_ok x s → procs s !! src = Some spr → procs s !! d = Some dpr → is_magic h = false → room s 2 →
  resolve s spr h = Some (to, i, o, a) → objs s !! o = Some ob →
  has options DUPLICATE_MAKE_GLOBAL = false →
  u32 (map_obj_access ob access) →
  has (dup_request ob a access options) (not32 (handle_rights a)) = false →
  wp (duplicate_handle src h (Some d) access attr options)
    (duplicated x s src h d dpr o a attr options (dup_request ob a access options)) s.
Proof.
  intros Hs Hsrc Hdst Hm Hroom Hr Ho Hglob Hu Hsub.
  destruct (resolve_live x s src spr h to i o a Hs Hsrc Hr) as (Ha & Hi & Hoto & ob0 & Ho0 & Hrk). simplify_eq.
  pose proof (resolve_nonzero _ _ _ _ _ _ _ Hr Hi) as Hh0.
  set (req := dup_request ob a access options) in *.
  assert (u32 req) as Hreq.
  { unfold req, dup_request. destruct (has options DUPLICATE_SAME_ACCESS);
      (apply u32_land; [done|apply u32_not32]). }
  assert (has req RESERVED_ALL = false) as Hres.
  { unfold req, dup_request. destruct (has options DUPLICATE_SAME_ACCESS); apply has_false, land_not32_mask. }
  assert (handle_rights (with_inherit attr req) = req) as Hri.
  { unfold req, dup_request. destruct (has options DUPLICATE_SAME_ACCESS); apply with_inherit_rights. }
  unfold duplicate_handle. apply wp_bind.
  eapply wp_mono; [apply (get_handle_obj_ok x s src spr h 0 None); try done|].
  { intros q obq Hq. pose proof (Hroom q obq Hq). lia. }
  intros r s1. rewrite Hr. intros (ob1 & Ho1 & Hg). assert (ob1 = ob) as -> by congruence. unfold entry_grants in Hg. simpl in Hg.
  rewrite Z.land_0_r in Hg. simpl in Hg. destruct Hg as (-> & -> & Hs1).
  set (s1 := set_objs _ s) in *. set (ob1 := ob_refcount (refcount ob + 1) ob) in *.
  destruct (grabbed_ok x s o ob Hs Ho) as [_ Hv1]. fold s1 in Hv1.
  assert (keeps s s1) as Hk1 by apply keeps_objs.
  assert (objs s1 !! o = Some ob1) as Ho1' by apply lookup_insert_eq.
  assert (evolves (objs s) (objs s1)) as Hev1 by (by apply (evolves_insert _ _ ob)).
  assert (∀ to, table_of (objs s1) to = table_of (objs s) to) as Ht1 by (intros; by apply (table_of_same_body _ o ob)).
  apply wp_bind. eapply wp_mono; [by apply (get_handle_ok (pin o x) s1 src spr)|]. intros r1 s1' [-> ->].
  rewrite (resolve_same s s1), Hr by done.
  apply wp_bind, (wp_get_obj o ob1); [done|]. cbv zeta.
  change (if has options DUPLICATE_SAME_ACCESS then Z.land a (not32 RESERVED_ALL)
          else Z.land (map_obj_access ob1 access) (not32 RESERVED_ALL)) with req.
  fold (handle_rights a). fold (handle_flags a). rewrite Hsub. apply wp_bind. rewrite Hglob.
  assert (Hdone : ∀ s2 res to2 i2, stored (pin o x) to2 i2 (o, with_inherit attr req) s1 s2 →
    is_magic res = false → res ≠ 0 →
    (if dup_in_place src d a options then res = h else can_open s dpr ∧ resolve s dpr res = None) →
    resolve s2 dpr res = Some (to2, i2, o, with_inherit attr req) → o ≠ to2 →
    wp (dup_end d o res options (handle_flags a)) (duplicated x s src h d dpr o a attr options req) s2).
  { intros s2 res to2 i2 Hst Hm2 Hne Hnew Hr2 Hoto2.
    destruct (stored_object _ _ _ _ _ _ o ob1 Hst Ho1' Hoto2) as (ob2 & Ho2 & Hd2).
    eapply wp_mono; [apply (dup_end_ok x s s2 d dpr o ob2) with (to := to2) (i := i2) (b := with_inherit attr req); try done|].
    - trans s1; [done|apply Hst].
    - trans (objs s1); [done|by eapply stored_evolves].
    - by eapply stored_server_ok.
    - by rewrite Hd2.
    - rewrite (kp_procs s1 s2) by apply Hst. done.
    - intros r s' (-> & Hsok & Hr' & Hoth). split; [done|]. right. split_and!; [done..|].
      eexists to2, i2, _. split_and!; [exact Hr'|by rewrite dup_mask_rights|by apply dup_mask_flags|].
      intros to' j Hne'. by rewrite Hoth, (stored_others _ _ _ _ _ _ _ _ Hst Hne'), Hv1. }
  destruct (has options DUPLICATE_CLOSE_SOURCE && bool_decide (Some d = Some src)
            && negb (has a RESERVED_CLOSE_PROTECT)) eqn:Hcl.
  - pose proof Hcl as [[_ Hds%bool_decide_eq_true]%andb_true_iff _]%andb_true_iff.
    injection Hds as ->. assert (dpr = spr) as -> by congruence.
    fold (with_inherit attr req).
    apply (remask_ok (pin o x) s1 src spr h to i o a); [done..|by rewrite (resolve_same s s1)| |].
    { unfold with_inherit. destruct (has attr OBJ_INHERIT); [by apply u32_lor|done]. }
    intros s2 Hst. apply wp_ret. apply (Hdone s2 h to i); try done.
    + unfold dup_in_place. by rewrite Hcl.
    + eapply stored_resolve; [done|]. apply resolve_some in Hr as [Hpl _].
      by rewrite (handle_place_keeps s s1).
  - apply wp_bind. eapply wp_mono; [apply (alloc_handle_entry_ok (pin o x) s1 d dpr o ob1 req attr); try done|].
    { simpl. pose proof (Hroom o ob Ho). lia. }
    intros r s2 [(-> & Ho2 & Hk2 & Hwhy)|[Hcan Hop]]; apply wp_ret.
    + eapply wp_mono; [apply (dup_end_failed x s s2 d o ob1); try done|].
      * by trans s1.
      * by rewrite Ho2.
      * by apply (server_ok_same (pin o x) s1).
      * by rewrite Ho2.
      * intros r s' (-> & Hsok & He' & Hv'). split; [done|]. left. split_and!; [done|done| |].
        -- rewrite He'. by rewrite (no_handle_same s s1) in Hwhy.
        -- intros to' j. rewrite Hv', <-Hv1. unfold view. by rewrite Ho2.
    + pose proof (opened_resolve _ _ _ _ _ _ _ Hop) as (Hne & Hm2 & Hnew & to2 & i2 & Hto2 & _ & Hr2 & Hst).
      eapply Hdone; try done.
      * unfold dup_in_place. rewrite Hcl, <-(can_open_same s s1), <-(resolve_same s s1) by done. done.
      * intros Heq.
        destruct (pinned_table _ _ to2 Hs1) as (tob & t & Htob & Hd & _); [right; eauto|].
        rewrite <-Heq, Ho1' in Htob. injection Htob as <-. simpl in Hd. rewrite Hd in Hrk. simpl in Hrk. lia.
Qed.

(** ** Request handlers *)

Section requests.
Context (x : xrefs) (s : server) (c : tid) (th : thread) (pr : process).
Context (Hs : server_ok x s) (Hc : current s = Some c) (Hth : threads s !! c = Some th)
  (Hpr : procs s !! t_process th = Some pr).

Lemma current_process_ok (Q : pid → server → Prop) : Q (t_process th) s → wp current_process Q s.
Proof using Hc Hth.
  intros HQ. unfold current_process, get_current. apply wp_bind. wp_steps. rewrite Hc.
  by apply (wp_deref _ th).
Qed.

(** C2: the close_handle request on a handle of the caller's table (not a
    global one).  A handle that denotes nothing gives [STATUS_INVALID_HANDLE];
    one whose entry is protected, or whose object's close_handle operation
    refuses, gives [STATUS_HANDLE_NOT_CLOSABLE]; both change no object.  Any
    other handle is closed: the status is success, the handle no longer denotes
    anything, and no other handle of any process changes. *)
Theorem req_close_handle_spec handle :
  handle_is_global handle = false →
  wp (req_close_handle handle) (λ _ s', server_ok x s' ∧
    match resolve s pr handle with
    | None => last_error s' = STATUS_INVALID_HANDLE ∧ objs s' = objs s
    | Some (to, i, o, a) =>
        if closable s (t_process th) handle o a then
          last_error s' = STATUS_SUCCESS ∧ resolve s' pr handle = None ∧
          ∀ to' j, (to', j) ≠ (to, i) → view s' to' j = view s to' j
        else last_error s' = STATUS_HANDLE_NOT_CLOSABLE ∧ objs s' = objs s
    end) s.
Proof using Hs Hc Hth Hpr.
  intros Hg. unfold req_close_handle. apply wp_bind, current_process_ok.
  apply wp_bind. eapply wp_mono; [by apply (close_handle_ok x s (t_process th) pr)|].
  intros st s1 [Hs1 Hpost]. apply wp_set_error. intros s2 Ho2 Hk2 He2.
  split; [by apply (server_ok_same x s1)|].
  assert (∀ to j, view s2 to j = view s1 to j) as Hv by (intros; unfold view; by rewrite Ho2).
  destruct (resolve s pr handle) as [[[[to i] o] a]|] eqn:Hr; [|by destruct Hpost as [-> ->]].
  apply resolve_some in Hr as [Hpl _].
  destruct (closable s (t_process th) handle o a); destruct Hpost as [-> Hrm].
  - split_and!; [done| |].
    + rewrite (resolve_same s1 s2) by done. by eapply removed_resolve.
    + intros to' j Hne. rewrite Hv. by eapply removed_others.
  - by rewrite Ho2, Hrm.
Qed.

(** the set_handle_info request on a valid table handle changes the flags
    selected by the mask and nothing else: the handle keeps its object and
    every access right, no other position of any table changes, and the
    previous flags are returned. *)
Theorem req_set_handle_info_spec handle mask flags to i o a :
  is_magic handle = false → u32 mask → resolve s pr handle = Some (to, i, o, a) →
  wp (req_set_handle_info handle mask flags) (λ r s', server_ok x s' ∧ r = handle_flags a ∧
    (∃ b, resolve s' pr handle = Some (to, i, o, b) ∧ handle_rights b = handle_rights a ∧
       handle_flags b = Z.lor (Z.land (handle_flags a) (not32 mask)) (Z.land (Z.land flags mask) 3)) ∧
    ∀ to' j, (to', j) ≠ (to, i) → view s' to' j = view s to' j) s.
Proof using Hs Hc Hth Hpr.
  intros Hm Hu Hr. unfold req_set_handle_info. apply wp_bind, current_process_ok.
  eapply wp_mono; [by apply (set_handle_flags_ok x s (t_process th) pr)|].
  intros r s' [-> Hst]. split_and!; [by eapply stored_server_ok|done| |].
  - eexists. split_and!; [|apply with_flags_rights|by apply with_flags_flags].
    eapply stored_resolve; [done|]. by apply resolve_some in Hr as [? _].
  - intros. by eapply stored_others.
Qed.
End requests.

(** C3: [get_handle_obj] on a table handle returns the object, with one
    reference more for the caller, exactly when the handle is valid, the object
    has the wanted type and the entry carries every requested access bit;
    otherwise it returns nothing, changes no object, and the error says why. *)
Theorem get_handle_obj_spec x s p pr handle access want :
  server_ok x s → procs s !! p = Some pr → is_magic handle = false → room s 1 →
  wp (get_handle_obj (Some p) handle access want) (λ r s',
    match resolve s pr handle with
    | None => r = None ∧ objs s' = objs s ∧ last_error s' = STATUS_INVALID_HANDLE ∧ server_ok x s'
    | Some (_, _, o, a) => ∃ ob, objs s !! o = Some ob ∧
        match entry_grants want access ob a with
        | inl e => r = None ∧ objs s' = objs s ∧ last_error s' = e ∧ server_ok x s'
        | inr _ => r = Some o ∧ s' = set_objs (<[o:=ob_refcount (refcount ob + 1) ob]>) s ∧
                   server_ok (pin o x) s'
        end
    end) s.
Proof. apply get_handle_obj_ok. Qed.

(** a handle that is opened and closed again leaves every handle of every
    process as it was, and the server invariant holds with the same outside
    references: the object's counters are back where they were. *)
Theorem open_close_roundtrip x s p pr o ob access attr :
  server_ok x s → procs s !! p = Some pr → is_Some (p_handles pr) →
  objs s !! o = Some ob → (rank (data ob) < 2)%nat → refcount ob < INT_MAX → ops_close_handle ob = None →
  u32 access → has access RESERVED_ALL = false →
  wp (h <- alloc_handle_entry p o access attr;
      if h =? 0 then ret None else st <- close_handle p h; ret (Some st))
    (λ r s', server_ok x s' ∧ (r = None ∨ r = Some STATUS_SUCCESS) ∧
             ∀ to j, view s' to j = view s to j) s.
Proof.
  intros Hs Hp [hto Hhto] Ho Hrk Hmax Hcl Hu Hres. apply wp_bind.
  eapply wp_mono; [by apply (alloc_handle_entry_ok x s p pr o ob)|].
  intros h s1 [(-> & Ho1 & Hk1 & _)|[_ Hop]].
  { apply wp_ret. split_and!; [by apply (server_ok_same x s)|by left|]. intros. unfold view. by rewrite Ho1. }
  pose proof (opened_resolve _ _ _ _ _ _ _ Hop) as (Hne & Hm & Hr0 & to & i & Hto & _ & Hr1 & Hst).
  rewrite (proj2 (Z.eqb_neq h 0)) by done. apply wp_bind.
  assert (server_ok x s1) as Hs1 by by eapply stored_server_ok.
  assert (procs s1 !! p = Some pr) as Hp1 by (rewrite (kp_procs s s1) by apply Hst; done).
  assert (handle_is_global h = false) as Hg.
  { destruct Hop as (? & i' & _ & -> & Hi & _). apply local_not_global.
    rewrite index_to_handle_eq by done. unfold MAX_HANDLE_ENTRIES in Hi. lia. }
  eapply wp_mono; [by apply (close_handle_ok x s1 p pr)|]. intros st s2 [Hs2 Hpost]. apply wp_ret.
  rewrite Hr1 in Hpost. pose proof (with_inherit_unprotected attr access Hres) as Hpr.
  assert (closable s1 p h o (with_inherit attr access) = true) as Hclo.
  { unfold closable. rewrite Hpr. simpl. destruct (decide (o = to)) as [->|Hoto].
    - destruct (pinned_table x s to Hs) as (tob & t & Htob & Hd & _); [right; eauto|].
      simplify_eq. rewrite Hd in Hrk. simpl in Hrk. lia.
    - destruct (stored_object _ _ _ _ _ _ o ob Hst Ho Hoto) as (ob' & Ho' & Hd').
      rewrite Ho'. simpl. unfold ops_close_handle in *. by rewrite Hd', Hcl. }
  rewrite Hclo in Hpost. destruct Hpost as [-> Hrm].
  split_and!; [done|by right|]. intros to' j. destruct (decide ((to', j) = (to, i))) as [Heq|Hne'].
  - injection Heq as -> ->. rewrite (rm_view _ _ _ _ _ Hrm), decide_True by done.
    destruct Hop as (to1 & i1 & Hto1 & -> & Hi1 & Hfree & _). assert (to1 = to) as -> by congruence.
    apply resolve_some in Hr1 as [Hpl1 _].
    rewrite (new_handle_place s1 pr to i1 Hi1 Hto) in Hpl1. injection Hpl1 as ->. done.
  - by rewrite (removed_others _ _ _ _ _ _ _ Hrm Hne'), (stored_others _ _ _ _ _ _ _ _ Hst Hne').
Qed.
