(* ===== verification/Demo.v ===== *)
(** * A concrete server

    An executable check of the server invariant on closed states, with its
    soundness proof, and a small server (a process with a handle table, a thread,
    a token, an event and a global table) on which the theorems are exercised. *)

From stdpp Require Import base list gmap fin_maps.
From S2P Require Import Prelude Access Object ObjectInv Handle HandleInv HandleThms HandleInherit HandleDup.

Open Scope Z_scope.
Open Scope server_scope.

(** Outside references given by a list, none of them handles or waits. *)
Definition x_list (l : list oid) : xrefs := XRefs (λ o, occ o l) (λ _, 0) (λ _, 0).

Definition slot_okb (sl : handle_slot) : bool :=
  match sl with Slot _ a => (0 <=? a) && (a <? 4294967296) | Uninit => false end.
Definition slot_usedb (sl : handle_slot) : bool :=
  match sl with Slot (Some _) _ => true | _ => false end.
Definition slot_freeb (sl : handle_slot) : bool :=
  match slot_target sl with None => true | Some _ => false end.

Definition table_okb (t : handle_table) : bool :=
  let es := ht_entries t in
  (ht_count t =? Z.of_nat (length es)) && (32 <=? ht_count t) && (ht_count t <=? 0x00ffffff) &&
  (-1 <=? ht_last t) && (ht_last t <? ht_count t) &&
  forallb slot_okb (take (Z.to_nat (ht_last t + 1)) es) &&
  forallb slot_freeb (drop (Z.to_nat (ht_last t + 1)) es) &&
  (0 <=? ht_free t) && (ht_free t <=? ht_last t + 1) &&
  forallb slot_usedb (take (Z.to_nat (ht_free t)) es).

Lemma forallb_lookup {A} (f : A → bool) l i a : forallb f l = true → l !! i = Some a → f a = true.
Proof.
  rewrite forallb_forall. intros Hf Hl. apply Hf. apply list_elem_of_In. by eapply list_elem_of_lookup_2.
Qed.

Lemma table_okb_sound t : table_okb t = true → table_ok t.
Proof.
  unfold table_okb. rewrite !andb_true_iff, !Z.leb_le, !Z.ltb_lt, Z.eqb_eq.
  intros [[[[[[[[[A B] C] D] E] F] G] H] I] J]. split; try done; try lia.
  - intros i Hi. destruct (lookup_lt_is_Some_2 (ht_entries t) (Z.to_nat i) ltac:(lia)) as [sl Hsl].
    assert (slot_okb sl = true) as Hok.
    { apply (forallb_lookup _ _ (Z.to_nat i) sl F). by rewrite lookup_take_lt by lia. }
    destruct sl as [|p a]; [done|]. exists p, a. split; [done|]. simpl in Hok.
    apply andb_true_iff in Hok as [?%Z.leb_le ?%Z.ltb_lt]. done.
  - intros i p a Hi Hl. assert (slot_freeb (Slot p a) = true) as Hok.
    { apply (forallb_lookup _ _ (Z.to_nat i - Z.to_nat (ht_last t + 1)) _ G). rewrite lookup_drop.
      by replace (Z.to_nat (ht_last t + 1) + (Z.to_nat i - Z.to_nat (ht_last t + 1)))%nat with (Z.to_nat i) by lia. }
    by destruct p.
  - intros i Hi. destruct (lookup_lt_is_Some_2 (ht_entries t) (Z.to_nat i) ltac:(lia)) as [sl Hsl].
    assert (slot_usedb sl = true) as Hok.
    { apply (forallb_lookup _ _ (Z.to_nat i) sl J). by rewrite lookup_take_lt by lia. }
    destruct sl as [|[p|] a]; [done| |done]. eauto.
Qed.

Definition target_okb (h : gmap oid object) (ob : object) (p : oid) : bool :=
  match h !! p with Some obp => (rank (data obp) <? rank (data ob))%nat | None => false end.

Definition object_okb (l : list oid) (h : gmap oid object) (o : oid) (ob : object) : bool :=
  (refcount ob =? hrefs h o + occ o l) && (0 <? refcount ob) && (handle_count ob =? thandles h o) &&
  match data ob with
  | handle_table_data t => table_okb t
  | mutex_sync_data _ c _ => c =? 0
  | _ => true
  end &&
  forallb (target_okb h ob) (data_targets (data ob)) &&
  match wait_queue ob with [] => true | _ => false end.

Definition heap_okb (l : list oid) (h : gmap oid object) : bool :=
  forallb (λ p, object_okb l h (fst p) (snd p)) (map_to_list h) &&
  forallb (λ o, bool_decide (is_Some (h !! o))) l.

Lemma heap_okb_sound l h : heap_okb l h = true → heap_ok (x_list l) h.
Proof.
  unfold heap_okb. rewrite andb_true_iff, !forallb_forall. intros [Hobj Hl].
  assert (∀ o ob, h !! o = Some ob → object_okb l h o ob = true) as Hok.
  { intros o ob Ho. apply (Hobj (o, ob)). apply list_elem_of_In. by apply elem_of_map_to_list. }
  assert (∀ o ob p, h !! o = Some ob → p ∈ data_targets (data ob) → target_okb h ob p = true) as Htg.
  { intros o ob p Ho Hin. specialize (Hok o ob Ho). unfold object_okb in Hok.
    rewrite !andb_true_iff, forallb_forall in Hok. apply Hok. by apply list_elem_of_In. }
  split.
  - intros o. simpl. pose proof (occ_nonneg o l). lia.
  - intros o ob Ho. specialize (Hok o ob Ho). unfold object_okb in Hok.
    rewrite !andb_true_iff, !Z.eqb_eq, Z.ltb_lt in Hok. destruct Hok as [[[[[A B] C] D] E] F].
    split; simpl; try done; try lia.
    + destruct (data ob); try done. by apply table_okb_sound.
    + intros p Hin. specialize (Htg o ob p Ho Hin). unfold target_okb in Htg.
      destruct (h !! p) as [obp|]; [|done]. exists obp. split; [done|]. by apply Nat.ltb_lt.
    + by destruct (wait_queue ob).
    + intros ow c ab Hd Hc. rewrite Hd in D. by apply Z.eqb_eq in D.
  - intros o Ho. simpl. assert (occ o l = 0) as ->.
    { pose proof (occ_nonneg o l). destruct (Z.ltb_spec 0 (occ o l)) as [Hp|]; [|lia].
      apply occ_elem, list_elem_of_In in Hp. apply Hl, bool_decide_eq_true in Hp as [??]. congruence. }
    pose proof (hrefs_nonneg h o). destruct (Z.ltb_spec 0 (hrefs h o)) as [Hp|]; [|lia].
    apply msum_pos in Hp as (q & obq & Hq & Hin). apply occ_elem in Hin.
    specialize (Htg q obq o Hq Hin). unfold target_okb in Htg. by rewrite Ho in Htg.
Qed.

(** The pointers from processes, threads and the global table. *)
Definition pinnedb (l : list oid) (h : gmap oid object) (p : ops → bool) (o : oid) : bool :=
  (0 <? occ o l) && match h !! o with Some ob => p (obj_ops ob) | None => false end.

Definition is_opaque (k : ops) : bool := match k with opaque_ops _ => true | _ => false end.
Definition opt_all {A} (f : A → bool) (o : option A) : bool := match o with Some a => f a | None => true end.

(** The tables, tokens, processes and threads of the server are held by [l]. *)
Definition pins_okb (l : list oid) (s : server) : bool :=
  let h := objs s in
  let table := pinnedb l h (λ k, bool_decide (k = handle_table_ops)) in
  let token := pinnedb l h (λ k, bool_decide (k = token_ops)) in
  opt_all table (global_table s) &&
  forallb (λ p, opt_all table (p_handles (snd p)) && opt_all token (p_token (snd p)) &&
                pinnedb l h is_opaque (fst p)) (map_to_list (procs s)) &&
  forallb (λ t, opt_all token (t_token (snd t)) && pinnedb l h is_opaque (fst t) &&
                bool_decide (is_Some (procs s !! t_process (snd t)))) (map_to_list (threads s)).

Definition server_okb (l : list oid) (s : server) : bool := heap_okb l (objs s) && pins_okb l s.

Section sound.
Context (l : list oid) (x : xrefs) (Hx : ∀ o, 0 < x_ref (x_list l) o → 0 < x_ref x o).

Lemma pinnedb_sound h p o : pinnedb l h p o = true → ∃ k, p k = true ∧ pinned x h o k.
Proof using Hx.
  unfold pinnedb. rewrite andb_true_iff, Z.ltb_lt. intros [Hl Ho].
  destruct (h !! o) as [ob|] eqn:Hob; [|done]. exists (obj_ops ob). split; [done|]. split; [by apply Hx|]. eauto.
Qed.

Lemma pinnedb_kind h k o : pinnedb l h (λ k', bool_decide (k' = k)) o = true → pinned x h o k.
Proof using Hx. intros (k' & Hk & Hp)%pinnedb_sound. apply bool_decide_eq_true in Hk. by subst. Qed.

Lemma pinnedb_opaque h o : pinnedb l h is_opaque o = true → ∃ k, pinned x h o (opaque_ops k).
Proof using Hx. intros (k & Hk & Hp)%pinnedb_sound. destruct k; try done. eauto. Qed.

Lemma pins_okb_sound s : heap_ok x (objs s) → pins_okb l s = true → server_ok x s.
Proof using Hx.
  intros Hh. unfold pins_okb. rewrite !andb_true_iff, !forallb_forall. intros [[Hg Hp] Ht].
  assert (∀ p pr, procs s !! p = Some pr → In (p, pr) (map_to_list (procs s))) as Hpin
    by (intros; by apply list_elem_of_In, elem_of_map_to_list).
  assert (∀ t th, threads s !! t = Some th → In (t, th) (map_to_list (threads s))) as Htin
    by (intros; by apply list_elem_of_In, elem_of_map_to_list).
  split; [done|..].
  - intros to [Hto|(p & pr & Hpr & Hto)]; apply pinnedb_kind.
    + by rewrite Hto in Hg.
    + specialize (Hp _ (Hpin p pr Hpr)). simpl in Hp. rewrite Hto, !andb_true_iff in Hp. apply Hp.
  - intros tk [(p & pr & Hpr & Htk)|(t & th & Hth & Htk)]; apply pinnedb_kind.
    + specialize (Hp _ (Hpin p pr Hpr)). simpl in Hp. rewrite Htk, !andb_true_iff in Hp. apply Hp.
    + specialize (Ht _ (Htin t th Hth)). simpl in Ht. rewrite Htk, !andb_true_iff in Ht. apply Ht.
  - intros p pr Hpr. specialize (Hp _ (Hpin p pr Hpr)). rewrite !andb_true_iff in Hp.
    apply pinnedb_opaque, Hp.
  - intros t th Hth. specialize (Ht _ (Htin t th Hth)). rewrite !andb_true_iff, bool_decide_eq_true in Ht.
    split; [apply pinnedb_opaque, Ht|apply Ht].
Qed.
End sound.

Lemma server_okb_sound l s : server_okb l s = true → server_ok (x_list l) s.
Proof. intros [Hh Hp]%andb_true_iff. by apply (pins_okb_sound l); [..|apply heap_okb_sound|]. Qed.

(** ** The server used by the witnesses

    Objects: 1 and 8 are processes, 2 a thread, 3 and 9 their handle tables, 4
    the token they share, 5 an event with its sync object 6, 7 the global table. *)

Definition demo_user : sid := Sid 1 [0; 0; 0; 0; 0; 5] [21; 1000].
Definition demo_token : token := Token [] [] demo_user.
Definition demo_opaque (k : positive) : obj_data :=
  opaque_data (OpaqueObject k (GenericMap 0x20000 0x20000 0x20000 0xf0000) None).

Definition demo_table (p : option pid) (es : list handle_slot) : handle_table :=
  let n := Z.of_nat (length es) in
  HandleTable p 32 (n - 1) n (es ++ replicate (32 - length es) Uninit).

Definition demo_entries : list handle_slot :=
  [Slot (Some 5%positive) 0x041f0003; Slot (Some 5%positive) 0x00100001; Slot (Some 5%positive) 0x081f0003].

Definition demo_acl : security_descriptor :=
  SecurityDescriptor (Some demo_user) (Some demo_user) (Some (Some [Ace 0 0 0x1f0003 demo_user])).

Definition demo_objs : gmap oid object := list_to_map [
  (1%positive, Object 1 0 false [] None (demo_opaque 1));
  (2%positive, Object 1 0 false [] None (demo_opaque 2));
  (3%positive, Object 1 0 false [] None (handle_table_data (demo_table (Some 1%positive) demo_entries)));
  (4%positive, Object 2 0 false [] None (token_data demo_token));
  (5%positive, Object 4 4 false [] (Some demo_acl) (event_data (Some 6%positive)));
  (6%positive, Object 1 0 false [] None (event_sync_data true false));
  (7%positive, Object 1 0 true [] None (handle_table_data (demo_table None [Slot (Some 5%positive) 0x00100000])));
  (8%positive, Object 1 0 false [] None (demo_opaque 1));
  (9%positive, Object 1 0 false [] None (handle_table_data (demo_table (Some 8%positive) [])))].

Definition demo_process : process := Process 8 (Some 3%positive) (Some 4%positive) 0.
Definition demo_child : process := Process 12 (Some 9%positive) (Some 4%positive) 0.
Definition demo_thread : thread := Thread 1%positive None 0 RUNNING [] [] 0 None 0 false [] [].

Definition demo : server :=
  Server demo_objs {[ 2%positive := demo_thread ]}
    (list_to_map [(1%positive, demo_process); (8%positive, demo_child)])
    (Some 7%positive) (Some 2%positive) 0 (λ _, TypeCounts 4 4 4 4) (-1) 0 0 [] [].

Definition demo_refs : list oid := [1; 2; 3; 4; 4; 7; 8; 9]%positive.

Lemma demo_ok : server_ok (x_list demo_refs) demo.
Proof. apply server_okb_sound. vm_compute. reflexivity. Qed.

Lemma demo_room n : n <= 1000000000 → room demo n.
Proof.
  intros Hn. assert (map_Forall (λ _ ob, refcount ob <= 4) (objs demo)) as Hall.
  { apply (bool_decide_eq_true_1 (map_Forall (λ _ ob, refcount ob <= 4) (objs demo))).
    vm_compute. reflexivity. }
  intros o ob Ho. specialize (Hall o ob Ho). simpl in Hall. unfold INT_MAX. lia.
Qed.

Lemma demo_current : has_current demo.
Proof. exists 2%positive, demo_thread, demo_process. repeat split. by exists 4%positive. Qed.

Definition demo_event : object := Object 4 4 false [] (Some demo_acl) (event_data (Some 6%positive)).
Definition demo_global_handle : Z := handle_local_to_global 4.

Lemma demo_resolve_4 : resolve demo demo_process 4 = Some (3%positive, 0, 5%positive, 0x041f0003).
Proof. vm_compute. reflexivity. Qed.
Lemma demo_event_lookup : objs demo !! 5%positive = Some demo_event.
Proof. vm_compute. reflexivity. Qed.

(** ** Witnesses *)

(** Closing handle 4 of the demonstration process. *)
Lemma req_close_handle_witness :
  wp (req_close_handle 4) (λ _ s', resolve s' demo_process 4 = None ∧ last_error s' = STATUS_SUCCESS) demo.
Proof.
  eapply wp_mono.
  - apply (req_close_handle_spec (x_list demo_refs) demo 2%positive demo_thread demo_process
             demo_ok eq_refl eq_refl eq_refl 4). reflexivity.
  - intros u s' [_ H]. rewrite demo_resolve_4 in H.
    replace (closable demo _ _ _ _) with true in H by (vm_compute; reflexivity).
    destruct H as (He & Hr & _). done.
Defined.

(** Protecting handle 8 from being closed. *)
Lemma req_set_handle_info_witness :
  wp (req_set_handle_info 8 2 2) (λ r s', r = 0 ∧ ∃ b,
    resolve s' demo_process 8 = Some (3%positive, 1, 5%positive, b) ∧ handle_flags b = 2) demo.
Proof.
  eapply wp_mono.
  - apply (req_set_handle_info_spec (x_list demo_refs) demo 2%positive demo_thread demo_process
             demo_ok eq_refl eq_refl eq_refl 8 2 2 3%positive 1 5%positive 0x00100001);
      [reflexivity|split; done|vm_compute; reflexivity].
  - intros r s' (_ & -> & (b & Hr & _ & Hf) & _). split; [reflexivity|]. exists b. split; [done|].
    rewrite Hf. vm_compute. reflexivity.
Defined.

(** Looking handle 4 up as an event with modify access. *)
Lemma get_handle_obj_witness :
  wp (get_handle_obj (Some 1%positive) 4 2 (Some event_ops)) (λ r _, r = Some 5%positive) demo.
Proof.
  eapply wp_mono.
  - apply (get_handle_obj_spec (x_list demo_refs) demo 1%positive demo_process 4 2 (Some event_ops) demo_ok);
      [reflexivity|reflexivity|]. apply demo_room. lia.
  - intros r s'. rewrite demo_resolve_4. intros (ob & Ho & H). rewrite demo_event_lookup in Ho.
    injection Ho as <-. destruct H as [H _]. done.
Defined.

Lemma demo_free_entry : ¬ no_entry demo 3%positive.
Proof.
  intros (t & Ht & Hall & _). assert (is_Some (view demo 3%positive 5)) as [? Hv].
  { apply Hall. injection Ht as <-. vm_compute. done. }
  vm_compute in Hv. discriminate.
Qed.

(** Opening the event with full access. *)
Lemma alloc_handle_witness :
  wp (alloc_handle 1%positive 5%positive GENERIC_ALL OBJ_INHERIT) (λ h s', h ≠ 0 ∧
    ∃ to i b, resolve s' demo_process h = Some (to, i, 5%positive, b) ∧ handle_rights b = EVENT_ALL_ACCESS) demo.
Proof.
  eapply wp_mono.
  - apply (alloc_handle_spec (x_list demo_refs) demo 1%positive demo_process 5%positive demo_event
             GENERIC_ALL OBJ_INHERIT demo_ok demo_current);
      [reflexivity|vm_compute; reflexivity|simpl; lia|reflexivity|split; done|reflexivity].
  - intros h s' [_ H]. revert H. replace (_ || _) with false by (vm_compute; reflexivity).
    intros [(_ & _ & [Hno _])|(_ & Hh & _ & to & i & b & Hr & Hb & _)].
    + destruct (demo_free_entry Hno).
    + split; [done|]. exists to, i, b. split; [done|]. rewrite Hb. vm_compute. reflexivity.
Defined.

(** Opening the event and closing the new handle. *)
Lemma open_close_witness :
  wp (h <- alloc_handle_entry 1%positive 5%positive 3 0;
      if h =? 0 then ret None else st <- close_handle 1%positive h; ret (Some st))
    (λ r s', ∀ to j, view s' to j = view demo to j) demo.
Proof.
  eapply wp_mono.
  - apply (open_close_roundtrip (x_list demo_refs) demo 1%positive demo_process 5%positive demo_event 3 0 demo_ok);
      [reflexivity|by exists 3%positive|vm_compute; reflexivity|simpl; lia|reflexivity|reflexivity|split; done|reflexivity].
  - intros r s' (_ & _ & H). exact H.
Defined.

(** Duplicating handle 4 into the second process with modify access only. *)
Lemma duplicate_handle_witness :
  wp (duplicate_handle 1%positive 4 (Some 8%positive) 2 0 0)
    (duplicated (x_list demo_refs) demo 1%positive 4 8%positive demo_child 5%positive 0x041f0003 0 0 2) demo.
Proof.
  apply (duplicate_handle_within_source (x_list demo_refs) demo 1%positive demo_process 4 8%positive demo_child
           2 0 0 3%positive 0 5%positive 0x041f0003 demo_event demo_ok);
    [reflexivity|reflexivity|reflexivity|apply demo_room; lia|exact demo_resolve_4|exact demo_event_lookup
    |reflexivity|split; done|reflexivity].
Defined.

(** The child table of a process created by process 1: without a list the child
    inherits handle 4, and a list of handle 8 alone selects nothing. *)
Lemma copy_handle_table_witness :
  wp (copy_handle_table 8%positive 1%positive None [])
    (λ r s', ∃ to, r = Some to ∧ view s' to 0 = Some (5%positive, 0x041f0003) ∧ view s' to 1 = None) demo ∧
  wp (copy_handle_table 8%positive 1%positive (Some [8]) [0; 0; 0])
    (λ r s', ∃ to, r = Some to ∧ view s' to 0 = None ∧ view s' to 1 = None) demo.
Proof.
  split; (eapply wp_mono;
    [apply (copy_handle_table_spec (x_list demo_refs) demo 8%positive 1%positive demo_process 3%positive);
      [exact demo_ok|reflexivity|reflexivity|apply demo_room; vm_compute; congruence|repeat constructor]|]).
  all: intros [to|] s' H; [|destruct H as [Hno _]; destruct (not_elem_of_nil _ Hno)].
  all: destruct H as (_ & _ & _ & Hv & _); exists to; rewrite !Hv; split_and!; vm_compute; reflexivity.
Defined.

(** Closing the global handle of the demonstration server. *)
Lemma close_global_handle_witness :
  close_handle 1%positive demo_global_handle demo = Fault OutOfBounds.
Proof.
  apply (close_global_handle_faults (x_list demo_refs) demo 1%positive demo_process demo_global_handle
           7%positive 0 5%positive demo_event 0x00100000 demo_ok);
    [reflexivity|split; done|reflexivity|vm_compute; reflexivity|reflexivity|vm_compute; reflexivity|reflexivity].
Defined.
