(* ===== verification/Region.v ===== *)
(** * Window regions (server/region.c)

    A region is a list of rectangles in y-x-banded order with its bounding box.
    Every operation of the file is here; a region is passed by value, and the
    result of an operation is the new contents of its [dst] argument.  The array
    of rectangles is the list [rects], whose length is [num_rects]; [size] is the
    number of rectangles allocated.  Coordinates are C [int]s: the operations only
    compare and copy them, except [offset_region], [mirror_region] and
    [scale_region]. *)

From stdpp Require Import base list.
From S2P Require Import Prelude.

Open Scope Z_scope.

(** ** Allocation failures

    [AL A]: a computation that consumes the outcomes of its memory allocations
    (an exhausted list is success); [None] is the error return, taken only with
    [STATUS_NO_MEMORY]. *)

Definition AL (A : Type) : Type := list bool → option A * list bool.

Definition al_ret {A} (a : A) : AL A := λ l, (Some a, l).
Definition al_bind {A B} (m : AL A) (k : A → AL B) : AL B := λ l,
  match m l with (Some a, l) => k a l | (None, l) => (None, l) end.
Definition al_alloc : AL unit := λ l,
  match l with
  | [] => (Some tt, [])
  | true :: l => (Some tt, l)
  | false :: l => (None, l)
  end.
(** A [realloc] whose failure the code ignores. *)
Definition al_try : AL bool := λ l, match l with [] => (Some true, []) | b :: l => (Some b, l) end.

Declare Scope region_scope.
Notation "x <- m ; k" := (al_bind m (λ x, k))
  (at level 100, m at next level, right associativity) : region_scope.
Open Scope region_scope.

(** ** Rectangles (server/user.h) *)

Record rectangle := Rect { left : Z; top : Z; right : Z; bottom : Z }.

#[export] Instance rectangle_eq_dec : EqDecision rectangle.
Proof. solve_decision. Defined.

Definition empty_rect : rectangle := Rect 0 0 0 0.

Definition is_rect_empty (r : rectangle) : bool := (right r <=? left r) || (bottom r <=? top r).

Definition is_rect_equal (r1 r2 : rectangle) : bool :=
  (left r1 =? left r2) && (right r1 =? right r2) && (top r1 =? top r2) && (bottom r1 =? bottom r2).

Definition point_in_rect (r : rectangle) (x y : Z) : bool :=
  (left r <=? x) && (x <? right r) && (top r <=? y) && (y <? bottom r).

Definition offset_rect (r : rectangle) (x y : Z) : rectangle :=
  Rect (int32 (left r + x)) (int32 (top r + y)) (int32 (right r + x)) (int32 (bottom r + y)).

Definition mirror_rect (client r : rectangle) : rectangle :=
  let width := int32 (right client - left client) in
  Rect (int32 (width - right r)) (top r) (int32 (width - left r)) (bottom r).

Record ratio := Ratio { num : Z; den : Z }.

(** Both branches are computed in [unsigned int]: [val] is converted. *)
Definition scale_dpi (val : Z) (from to : ratio) : Z :=
  let n := w32 (num to * den from) in
  let d := w32 (num from * den to) in
  if 0 <=? val then int32 (w32 (val * n + d / 2) / d) else int32 (w32 (val * n - d / 2) / d).

Definition scale_dpi_rect (r : rectangle) (from to : ratio) : rectangle :=
  Rect (scale_dpi (left r) from to) (scale_dpi (top r) from to)
    (scale_dpi (right r) from to) (scale_dpi (bottom r) from to).

(** ** Regions *)

Record region := Region { size : Z; rects : list rectangle; extents : rectangle }.

Definition num_rects (reg : region) : Z := Z.of_nat (length (rects reg)).

Definition RGN_DEFAULT_RECTS : Z := 2.

Definition EXTENTCHECK (r1 r2 : rectangle) : bool :=
  (left r2 <? right r1) && (left r1 <? right r2) && (top r2 <? bottom r1) && (top r1 <? bottom r2).

(** [add_rect] and the stores that every caller makes into the new rectangle. *)
Definition add_rect (reg : region) (r : rectangle) : AL region :=
  size' <- (if size reg <=? num_rects reg
            then _ <- al_alloc; al_ret (size reg * 2)
            else al_ret (size reg));
  al_ret (Region size' (rects reg ++ [r]) (extents reg)).

Fixpoint validate_rectangles (rs : list rectangle) : bool :=
  match rs with
  | [] => true
  | r0 :: rest =>
      if is_rect_empty r0 then false
      else match rest with
      | [] => true
      | r1 :: _ =>
          if top r0 =? top r1 then
            if negb (bottom r0 =? bottom r1) then false
            else if left r1 <=? right r0 then false
            else validate_rectangles rest
          else if top r1 <? bottom r0 then false
          else validate_rectangles rest
      end
  end.

(** The band at the head of a list of rectangles, and what follows it. *)
Fixpoint same_top (t : Z) (rs : list rectangle) : list rectangle :=
  match rs with
  | r :: rest => if top r =? t then r :: same_top t rest else []
  | [] => []
  end.
Definition first_band (rs : list rectangle) : list rectangle :=
  match rs with r :: _ => same_top (top r) rs | [] => [] end.
Definition after_band (rs : list rectangle) : list rectangle := drop (length (first_band rs)) rs.

(** The comparison loop of [coalesce_region]. *)
Fixpoint same_x (prev cur : list rectangle) : bool :=
  match prev, cur with
  | p :: prev, c :: cur => (left p =? left c) && (right p =? right c) && same_x prev cur
  | _, _ => true
  end.

(** Giving each rectangle of the previous band the bottom of its successor. *)
Fixpoint extend_band (prev cur : list rectangle) : list rectangle :=
  match prev, cur with
  | p :: prev, c :: cur => Rect (left p) (top p) (right p) (bottom c) :: extend_band prev cur
  | _, _ => []
  end.

(** The start of the last band of a list: the backward scan from its end. *)
Definition last_band_start (rs : list rectangle) : nat :=
  length rs - length (first_band (rev rs)).

Definition coalesce_region (rs : list rectangle) (prevStart curStart : nat) : list rectangle * nat :=
  let cur := first_band (drop curStart rs) in
  let curNumRects := length cur in
  let rest := drop (curStart + curNumRects) rs in
  let prevNumRects := (curStart - prevStart)%nat in
  let prev := take prevNumRects (drop prevStart rs) in
  let curStart := match rest with [] => curStart | _ => last_band_start rs end in
  if bool_decide (curNumRects = prevNumRects) && negb (bool_decide (curNumRects = 0%nat)) then
    match prev, cur with
    | p :: _, c :: _ =>
        if bottom p =? top c then
          if same_x prev cur then
            (take prevStart rs ++ extend_band prev cur ++ rest,
             match rest with [] => prevStart | _ => curStart end)
          else (rs, curStart)
        else (rs, curStart)
    | _, _ => (rs, curStart)
    end
  else (rs, curStart).

(** ** Overlap functions *)

Fixpoint intersect_loop (fuel : nat) (reg : region) (r1s r2s : list rectangle)
    (t b : Z) : AL region :=
  match r1s, r2s with
  | r1 :: r1s', r2 :: r2s' =>
      match fuel with
      | O => λ l, (None, l)
      | S fuel =>
          let l := Z.max (left r1) (left r2) in
          let r := Z.min (right r1) (right r2) in
          reg <- (if l <? r then add_rect reg (Rect l t r b) else al_ret reg);
          if right r1 <? right r2 then intersect_loop fuel reg r1s' r2s t b
          else if right r2 <? right r1 then intersect_loop fuel reg r1s r2s' t b
          else intersect_loop fuel reg r1s' r2s' t b
      end
  | _, _ => al_ret reg
  end.

Definition intersect_overlapping (reg : region) (r1s r2s : list rectangle) (t b : Z) : AL region :=
  intersect_loop (length r1s + length r2s) reg r1s r2s t b.

(** [subtract_non_overlapping] and [union_non_overlapping] have the same body. *)
Fixpoint copy_band (reg : region) (rs : list rectangle) (t b : Z) : AL region :=
  match rs with
  | [] => al_ret reg
  | r :: rs => reg <- add_rect reg (Rect (left r) t (right r) b); copy_band reg rs t b
  end.
Definition subtract_non_overlapping := copy_band.
Definition union_non_overlapping := copy_band.

(** The value of [left] after [r1++]: the next rectangle's, if there is one. *)
Definition next_left (l : Z) (r1s : list rectangle) : Z :=
  match r1s with r :: _ => left r | [] => l end.

(** The last loop of [subtract_overlapping]: what is left of [r1] is kept. *)
Fixpoint subtract_tail (reg : region) (l : Z) (r1s : list rectangle) (t b : Z) : AL region :=
  match r1s with
  | [] => al_ret reg
  | r1 :: r1s' =>
      reg <- add_rect reg (Rect l t (right r1) b);
      subtract_tail reg (next_left l r1s') r1s' t b
  end.

Fixpoint subtract_loop (fuel : nat) (reg : region) (l : Z) (r1s r2s : list rectangle)
    (t b : Z) : AL region :=
  match r1s, r2s with
  | r1 :: r1s', r2 :: r2s' =>
      match fuel with
      | O => λ al, (None, al)
      | S fuel =>
          if right r2 <=? l then subtract_loop fuel reg l r1s r2s' t b
          else if left r2 <=? l then
            let l := right r2 in
            if right r1 <=? l then subtract_loop fuel reg (next_left l r1s') r1s' r2s t b
            else subtract_loop fuel reg l r1s r2s' t b
          else if left r2 <? right r1 then
            reg <- add_rect reg (Rect l t (left r2) b);
            let l := right r2 in
            if right r1 <=? l then subtract_loop fuel reg (next_left l r1s') r1s' r2s t b
            else subtract_loop fuel reg l r1s r2s' t b
          else
            reg <- (if l <? right r1 then add_rect reg (Rect l t (right r1) b) else al_ret reg);
            subtract_loop fuel reg (next_left l r1s') r1s' r2s t b
      end
  | _, _ => subtract_tail reg l r1s t b
  end.

Definition subtract_overlapping (reg : region) (r1s r2s : list rectangle) (t b : Z) : AL region :=
  match r1s with
  | r1 :: _ => subtract_loop (length r1s + length r2s) reg (left r1) r1s r2s t b
  | [] => λ al, (None, al)
  end.

(** The macro [MERGERECT]. *)
Definition MERGERECT (reg : region) (r : rectangle) (t b : Z) : AL region :=
  match last (rects reg) with
  | Some e =>
      if (top e =? t) && (bottom e =? b) && (left r <=? right e) then
        if right e <? right r then
          al_ret (Region (size reg)
            (take (length (rects reg) - 1) (rects reg) ++ [Rect (left e) (top e) (right r) (bottom e)])
            (extents reg))
        else al_ret reg
      else add_rect reg (Rect (left r) t (right r) b)
  | None => add_rect reg (Rect (left r) t (right r) b)
  end.

Fixpoint merge_all (reg : region) (rs : list rectangle) (t b : Z) : AL region :=
  match rs with
  | [] => al_ret reg
  | r :: rs => reg <- MERGERECT reg r t b; merge_all reg rs t b
  end.

Fixpoint union_loop (fuel : nat) (reg : region) (r1s r2s : list rectangle)
    (t b : Z) : AL region :=
  match r1s, r2s with
  | r1 :: r1s', r2 :: r2s' =>
      match fuel with
      | O => λ al, (None, al)
      | S fuel =>
          if left r1 <? left r2
          then reg <- MERGERECT reg r1 t b; union_loop fuel reg r1s' r2s t b
          else reg <- MERGERECT reg r2 t b; union_loop fuel reg r1s r2s' t b
      end
  | _ :: _, [] => merge_all reg r1s t b
  | [], _ => merge_all reg r2s t b
  end.

Definition union_overlapping (reg : region) (r1s r2s : list rectangle) (t b : Z) : AL region :=
  union_loop (length r1s + length r2s) reg r1s r2s t b.

(** ** Combining two regions *)

Definition overlap_func_t : Type := region → list rectangle → list rectangle → Z → Z → AL region.
Definition non_overlap_func_t : Type := region → list rectangle → Z → Z → AL region.

Definition call_non_overlap (f : option non_overlap_func_t) (reg : region) (rs : list rectangle)
    (t b : Z) : AL region :=
  match f with Some f => if negb (t =? b) then f reg rs t b else al_ret reg | None => al_ret reg end.

(** [if (newReg->num_rects != curBand) prevBand = coalesce_region(...)]. *)
Definition coalesce_new (reg : region) (prevBand curBand : nat) : region * nat :=
  if bool_decide (length (rects reg) = curBand) then (reg, prevBand)
  else let '(rs, p) := coalesce_region (rects reg) prevBand curBand in
       (Region (size reg) rs (extents reg), p).

Section region_op.
Context (overlap_func : overlap_func_t) (non_overlap1_func non_overlap2_func : option non_overlap_func_t).

(** The first loop of [region_op]; each iteration leaves a band of [r1] or of
    [r2] behind. *)
Fixpoint region_op_loop (fuel : nat) (newReg : region) (r1s r2s : list rectangle) (ybot : Z)
    (prevBand : nat) : AL (region * list rectangle * list rectangle * Z * nat) :=
  match r1s, r2s with
  | r1 :: _, r2 :: _ =>
      match fuel with
      | O => λ l, (None, l)
      | S fuel =>
          let curBand := length (rects newReg) in
          let r1Band := first_band r1s in
          let r2Band := first_band r2s in
          newReg <- (if top r1 <? top r2 then
                       call_non_overlap non_overlap1_func newReg r1Band
                         (Z.max (top r1) ybot) (Z.min (bottom r1) (top r2))
                     else if top r2 <? top r1 then
                       call_non_overlap non_overlap2_func newReg r2Band
                         (Z.max (top r2) ybot) (Z.min (bottom r2) (top r1))
                     else al_ret newReg);
          let ytop := if top r1 <? top r2 then top r2 else top r1 in
          let '(newReg, prevBand) := coalesce_new newReg prevBand curBand in
          let ybot := Z.min (bottom r1) (bottom r2) in
          let curBand := length (rects newReg) in
          newReg <- (if ytop <? ybot then overlap_func newReg r1Band r2Band ytop ybot else al_ret newReg);
          let '(newReg, prevBand) := coalesce_new newReg prevBand curBand in
          let r1s := if bottom r1 =? ybot then after_band r1s else r1s in
          let r2s := if bottom r2 =? ybot then after_band r2s else r2s in
          region_op_loop fuel newReg r1s r2s ybot prevBand
      end
  | _, _ => al_ret (newReg, r1s, r2s, ybot, prevBand)
  end.

(** The loops over the bands that remain in one of the regions. *)
Fixpoint remaining_bands (fuel : nat) (f : non_overlap_func_t) (newReg : region)
    (rs : list rectangle) (ybot : Z) : AL region :=
  match rs with
  | [] => al_ret newReg
  | r :: _ =>
      match fuel with
      | O => λ l, (None, l)
      | S fuel =>
          newReg <- f newReg (first_band rs) (Z.max (top r) ybot) (bottom r);
          remaining_bands fuel f newReg (after_band rs) ybot
      end
  end.

Definition finish_bands (newReg : region) (r1s r2s : list rectangle) (ybot : Z) : AL region :=
  match r1s with
  | _ :: _ => match non_overlap1_func with
              | Some f => remaining_bands (length r1s) f newReg r1s ybot
              | None => al_ret newReg
              end
  | [] => match r2s, non_overlap2_func with
          | _ :: _, Some f => remaining_bands (length r2s) f newReg r2s ybot
          | _, _ => al_ret newReg
          end
  end.

(** Giving memory back; a failed [realloc] keeps the array. *)
Definition shrink_region (reg : region) : AL region :=
  if (num_rects reg <? size reg / 2) && (2 <? size reg) then
    ok <- al_try;
    al_ret (if ok : bool then Region (Z.max (num_rects reg) RGN_DEFAULT_RECTS) (rects reg) (extents reg)
            else reg)
  else al_ret reg.

(** [region_op] with [newReg]'s own extents [ext], which it leaves alone. *)
Definition region_op (ext : rectangle) (reg1 reg2 : region) : AL region :=
  _ <- al_alloc;
  let newReg := Region (Z.max (num_rects reg1) (num_rects reg2) * 2) [] ext in
  let ybot := if top (extents reg1) <? top (extents reg2) then top (extents reg1)
              else top (extents reg2) in
  res <- region_op_loop (length (rects reg1) + length (rects reg2)) newReg (rects reg1) (rects reg2) ybot 0;
  let '(newReg, r1s, r2s, ybot, prevBand) := res in
  let curBand := length (rects newReg) in
  newReg <- finish_bands newReg r1s r2s ybot;
  shrink_region (fst (coalesce_new newReg prevBand curBand)).
End region_op.

(** ** The operations of the file *)

Fixpoint widen (rs : list rectangle) (e : rectangle) : rectangle :=
  match rs with
  | [] => e
  | r :: rs =>
      let l := if left r <? left e then left r else left e in
      let rt := if right e <? right r then right r else right e in
      widen rs (Rect l (top e) rt (bottom e))
  end.

Definition set_region_extents (reg : region) : region :=
  match rects reg, last (rects reg) with
  | r :: _, Some e => Region (size reg) (rects reg) (widen (rects reg) (Rect (left r) (top r) (right e) (bottom e)))
  | _, _ => Region (size reg) (rects reg) empty_rect
  end.

Definition create_empty_region : AL region :=
  _ <- al_alloc; _ <- al_alloc; al_ret (Region RGN_DEFAULT_RECTS [] empty_rect).

(** [inl e] is the error [e]. *)
Definition create_region_from_req_data (data : list rectangle) : AL (Z + region) :=
  let data := if bool_decide (data = [empty_rect]) then [] else data in
  if negb (validate_rectangles data) then al_ret (inl 0xC000000D)
  else
    _ <- al_alloc; _ <- al_alloc;
    al_ret (inr (set_region_extents
      (Region (Z.max (Z.of_nat (length data)) RGN_DEFAULT_RECTS) data empty_rect))).

Definition set_region_rect (reg : region) (r : rectangle) : region :=
  if negb (is_rect_empty r) then Region (size reg) [r] r else Region (size reg) [] empty_rect.

(** The rectangles sent to a client that accepts [max_size] bytes, with the total size. *)
Definition get_region_data (reg : region) (max_size : Z) : AL (option (list rectangle) * Z) :=
  let data := match rects reg with [] => [empty_rect] | rs => rs end in
  let total_size := Z.of_nat (length data) * 16 in
  if total_size <=? max_size then _ <- al_alloc; al_ret (Some data, total_size)
  else al_ret (None, total_size).

Definition is_region_empty (reg : region) : bool := num_rects reg =? 0.

Fixpoint rects_equal (l1 l2 : list rectangle) : bool :=
  match l1, l2 with
  | r1 :: l1, r2 :: l2 => is_rect_equal r1 r2 && rects_equal l1 l2
  | _, _ => true
  end.

Definition is_region_equal (region1 region2 : region) : bool :=
  if negb (num_rects region1 =? num_rects region2) then false
  else if num_rects region1 =? 0 then true
  else if negb (is_rect_equal (extents region1) (extents region2)) then false
  else rects_equal (rects region1) (rects region2).

Definition offset_region (reg : region) (x y : Z) : region :=
  if num_rects reg =? 0 then reg
  else Region (size reg) (map (λ r, offset_rect r x y) (rects reg)) (offset_rect (extents reg) x y).

Definition scale_region (reg : region) (from to : ratio) : region :=
  if num_rects reg =? 0 then reg
  else Region (size reg) (map (λ r, scale_dpi_rect r from to) (rects reg))
         (scale_dpi_rect (extents reg) from to).

(** The swap loop of [mirror_region] on one band: as in the source, the saved
    rectangle is [rects[j]], the one that is about to be copied over [rects[i]]. *)
Fixpoint mirror_swap (client : rectangle) (n : nat) (band : list rectangle) (i j : nat) : list rectangle :=
  match n with
  | O => band
  | S n =>
      if (i <? j)%nat then
        match band !! j with
        | Some rj =>
            let band := <[j:=rj]> (<[i:=rj]> band) in
            let band := alter (mirror_rect client) j band in
            let band := alter (mirror_rect client) i band in
            mirror_swap client n band (S i) (j - 1)
        | None => band
        end
      else if (i =? j)%nat then alter (mirror_rect client) i band else band
  end.

Fixpoint mirror_bands (client : rectangle) (fuel : nat) (rs : list rectangle) : list rectangle :=
  match rs, fuel with
  | _ :: _, S fuel =>
      let band := first_band rs in
      mirror_swap client (S (length band)) band 0 (length band - 1)
        ++ mirror_bands client fuel (after_band rs)
  | _, _ => []
  end.

Definition mirror_region (client : rectangle) (reg : region) : region :=
  Region (size reg) (mirror_bands client (length (rects reg)) (rects reg)) (mirror_rect client (extents reg)).

Definition copy_region (dst src : region) : AL region :=
  size' <- (if size dst <? num_rects src then _ <- al_alloc; al_ret (num_rects src) else al_ret (size dst));
  al_ret (Region size' (rects src) (extents src)).

Definition disjoint_extents (src1 src2 : region) : bool :=
  (num_rects src1 =? 0) || (num_rects src2 =? 0) || negb (EXTENTCHECK (extents src1) (extents src2)).

Definition intersect_region (dst src1 src2 : region) : AL region :=
  if disjoint_extents src1 src2 then al_ret (Region (size dst) [] empty_rect)
  else reg <- region_op intersect_overlapping None None (extents dst) src1 src2;
       al_ret (set_region_extents reg).

Definition subtract_region (dst src1 src2 : region) : AL region :=
  if disjoint_extents src1 src2 then copy_region dst src1
  else reg <- region_op subtract_overlapping (Some subtract_non_overlapping) None (extents dst) src1 src2;
       al_ret (set_region_extents reg).

(** [src2] is a single rectangle that covers the other region. *)
Definition covers (src1 src2 : region) : bool :=
  (num_rects src1 =? 1) && (left (extents src1) <=? left (extents src2)) &&
  (top (extents src1) <=? top (extents src2)) && (right (extents src2) <=? right (extents src1)) &&
  (bottom (extents src2) <=? bottom (extents src1)).

(** [same]: whether [src1] and [src2] are the same region object. *)
Definition union_region (same : bool) (dst src1 src2 : region) : AL region :=
  if same then copy_region dst src1
  else if num_rects src1 =? 0 then copy_region dst src2
  else if num_rects src2 =? 0 then copy_region dst src1
  else if covers src1 src2 then copy_region dst src1
  else if covers src2 src1 then copy_region dst src2
  else
    reg <- region_op union_overlapping (Some union_non_overlapping) (Some union_non_overlapping)
             (extents dst) src1 src2;
    let e1 := extents src1 in
    let e2 := extents src2 in
    al_ret (Region (size reg) (rects reg)
      (Rect (Z.min (left e1) (left e2)) (Z.min (top e1) (top e2))
            (Z.max (right e1) (right e2)) (Z.max (bottom e1) (bottom e2)))).

Definition xor_region (dst src1 src2 : region) : AL region :=
  tmp <- create_empty_region;
  tmp <- subtract_region tmp src1 src2;
  dst <- subtract_region dst src2 src1;
  union_region false dst dst tmp.

Fixpoint point_in_rects (rs : list rectangle) (x y : Z) : bool :=
  match rs with
  | [] => false
  | r :: rs =>
      if y <? top r then false
      else if bottom r <=? y then point_in_rects rs x y
      else if x <? left r then false
      else if right r <=? x then point_in_rects rs x y
      else true
  end.
Definition point_in_region (reg : region) (x y : Z) : bool := point_in_rects (rects reg) x y.

Fixpoint rect_in_rects (rs : list rectangle) (q : rectangle) : bool :=
  match rs with
  | [] => false
  | r :: rs =>
      if bottom q <=? top r then false
      else if bottom r <=? top q then rect_in_rects rs q
      else if right q <=? left r then rect_in_rects rs q
      else if right r <=? left q then rect_in_rects rs q
      else true
  end.
Definition rect_in_region (reg : region) (q : rectangle) : bool := rect_in_rects (rects reg) q.
