(* ===== verification/RegionInv.v ===== *)
(** * Correctness of the region operations: bands

    A region is read as a set of points.  This file relates the band-level
    routines of [Region.v] to set operations on one line: what each overlap
    function emits, and that the result is again properly ordered. *)

From stdpp Require Import base list.
From S2P Require Import Prelude Region.

Open Scope Z_scope.
Open Scope region_scope.

(** ** Allocating computations

    [al m Q]: [m] returns a value that satisfies [Q], unless one of the memory
    allocations it makes fails.  In particular its loops terminate. *)

Definition al {A} (m : AL A) (Q : A → Prop) : Prop :=
  ∀ l, ∃ used l', l = used ++ l' ∧ snd (m l) = l' ∧
    match fst (m l) with Some a => Q a | None => false ∈ used end.

Lemma al_ret_ok {A} (a : A) (Q : A → Prop) : Q a → al (al_ret a) Q.
Proof. intros HQ l. exists [], l. done. Qed.

Lemma al_bind_ok {A B} (m : AL A) (k : A → AL B) P Q :
  al m P → (∀ a, P a → al (k a) Q) → al (al_bind m k) Q.
Proof.
  intros Hm Hk l. destruct (Hm l) as (u & l' & Hl & Hs & Hr). unfold al_bind.
  destruct (m l) as [[a|] l1]; simpl in *; subst l1.
  - destruct (Hk a Hr l') as (u2 & l2 & Hl2 & Hs2 & Hr2). exists (u ++ u2), l2.
    split_and!; [by rewrite <-app_assoc, <-Hl2|done|].
    destruct (fst (k a l')); [done|]. apply elem_of_app. by right.
  - exists u, l'. done.
Qed.

Lemma al_mono {A} (m : AL A) (P Q : A → Prop) : al m P → (∀ a, P a → Q a) → al m Q.
Proof.
  intros Hm HPQ l. destruct (Hm l) as (u & l' & Hl & Hs & Hr). exists u, l'.
  split_and!; [done..|]. destruct (fst (m l)); auto.
Qed.

Lemma al_alloc_ok (Q : unit → Prop) : Q tt → al al_alloc Q.
Proof.
  intros HQ [|[] l]; [exists [], []|exists [true], l|exists [false], l]; simpl; split_and!; try done.
  by left.
Qed.

Lemma al_try_ok (Q : bool → Prop) : Q true → Q false → al al_try Q.
Proof.
  intros Ht Hf [|b l]; [exists [], []|exists [b], l]; simpl; split_and!; try done. by destruct b.
Qed.

(** A computation whose allocations succeed returns a value. *)
Lemma al_run {A} (m : AL A) Q : al m Q → ∃ a, m [] = (Some a, []) ∧ Q a.
Proof.
  intros Hm. destruct (Hm []) as (u & l' & Hl & Hs & Hr).
  symmetry in Hl. apply app_nil in Hl as [-> ->].
  destruct (m []) as [[a|] l1]; simpl in *; subst; [eauto|]. by apply elem_of_nil in Hr.
Qed.

(** ** Points on a line and in the plane *)

Definition inx (rs : list rectangle) (x : Z) : Prop := ∃ r, r ∈ rs ∧ left r <= x < right r.

Definition inxy (rs : list rectangle) (x y : Z) : Prop :=
  ∃ r, r ∈ rs ∧ left r <= x < right r ∧ top r <= y < bottom r.

Lemma inx_nil x : inx [] x ↔ False.
Proof. split; [|done]. by intros (r & Hr & _)%id; apply elem_of_nil in Hr. Qed.
Lemma inx_cons r rs x : inx (r :: rs) x ↔ left r <= x < right r ∨ inx rs x.
Proof.
  unfold inx. split.
  - intros (q & [->|Hq]%elem_of_cons & Hx); [by left|right; eauto].
  - intros [Hx|(q & Hq & Hx)]; [exists r; split; [by left|done]|exists q; split; [by right|done]].
Qed.
Lemma inx_app l k x : inx (l ++ k) x ↔ inx l x ∨ inx k x.
Proof.
  induction l as [|r l IH]; simpl app; [rewrite inx_nil; tauto|]. rewrite !inx_cons, IH. tauto.
Qed.

Lemma inxy_nil x y : inxy [] x y ↔ False.
Proof. split; [|done]. by intros (r & Hr & _)%id; apply elem_of_nil in Hr. Qed.
Lemma inxy_cons r rs x y :
  inxy (r :: rs) x y ↔ (left r <= x < right r ∧ top r <= y < bottom r) ∨ inxy rs x y.
Proof.
  unfold inxy. split.
  - intros (q & [->|Hq]%elem_of_cons & Hx); [by left|right; eauto].
  - intros [Hx|(q & Hq & Hx)]; [exists r; split; [by left|done]|exists q; split; [by right|done]].
Qed.
Lemma inxy_app l k x y : inxy (l ++ k) x y ↔ inxy l x y ∨ inxy k x y.
Proof.
  induction l as [|r l IH]; simpl app; [rewrite inxy_nil; tauto|]. rewrite !inxy_cons, IH. tauto.
Qed.

Lemma inx_dec rs x : inx rs x ∨ ¬ inx rs x.
Proof.
  induction rs as [|r rs IH]; [right; rewrite inx_nil; tauto|]. rewrite inx_cons.
  destruct IH; [tauto|]. destruct (decide (left r <= x < right r)); tauto.
Qed.

Lemma inxy_dec rs x y : inxy rs x y ∨ ¬ inxy rs x y.
Proof.
  induction rs as [|r rs IH]; [right; rewrite inxy_nil; tauto|]. rewrite inxy_cons.
  destruct IH; [tauto|]. destruct (decide (left r <= x < right r ∧ top r <= y < bottom r)); tauto.
Qed.

(** ** Bands *)

(** Non-empty intervals in increasing order, not even touching. *)
Fixpoint hsep (rs : list rectangle) : Prop :=
  match rs with
  | [] => True
  | r :: rs => left r < right r ∧ (∀ q, q ∈ rs → right r < left q) ∧ hsep rs
  end.

(** All the rectangles span the lines from [t] to [b]. *)
Definition spans (t b : Z) (rs : list rectangle) : Prop := ∀ r, r ∈ rs → top r = t ∧ bottom r = b.

Lemma spans_nil t b : spans t b [].
Proof. intros r Hr. by apply elem_of_nil in Hr. Qed.
Lemma spans_cons t b r rs : spans t b (r :: rs) ↔ (top r = t ∧ bottom r = b) ∧ spans t b rs.
Proof.
  unfold spans. split.
  - intros H. split; [apply H; by left|]. intros q Hq. apply H. by right.
  - intros [H1 H2] q [->|Hq]%elem_of_cons; auto.
Qed.
Lemma spans_app t b l k : spans t b (l ++ k) ↔ spans t b l ∧ spans t b k.
Proof.
  induction l as [|r l IH]; simpl app; [split; [split; [apply spans_nil|done]|tauto]|].
  rewrite !spans_cons, IH. tauto.
Qed.

Lemma inxy_spans t b rs x y : spans t b rs → (inxy rs x y ↔ t <= y < b ∧ inx rs x).
Proof.
  induction rs as [|r rs IH]; [rewrite inxy_nil, inx_nil; tauto|].
  intros [[Ht Hb] Hs]%spans_cons. rewrite inxy_cons, inx_cons, (IH Hs), Ht, Hb. tauto.
Qed.

Lemma hsep_after r rs x : hsep (r :: rs) → inx rs x → right r < x.
Proof. intros (_ & Hs & _) (q & Hq & Hx). specialize (Hs q Hq). lia. Qed.

Lemma hsep_pos rs r : hsep rs → r ∈ rs → left r < right r.
Proof.
  induction rs as [|q rs IH]; intros Hh Hin; [by apply elem_of_nil in Hin|].
  destruct Hh as (Hq & _ & Hh). apply elem_of_cons in Hin as [->|Hin]; [done|auto].
Qed.

Lemma hsep_app l k : hsep (l ++ k) ↔ hsep l ∧ hsep k ∧ ∀ p q, p ∈ l → q ∈ k → right p < left q.
Proof.
  induction l as [|r l IH]; simpl.
  - split; [|tauto]. intros Hk. split_and!; [done|done|]. intros p q Hp. by apply elem_of_nil in Hp.
  - rewrite IH. split.
    + intros (Hr & Hs & Hl & Hk & Hlk). split_and!; [done| |done..|].
      * intros q Hq. apply Hs, elem_of_app. by left.
      * intros p q [->|Hp]%elem_of_cons Hq; [apply Hs, elem_of_app; by right|auto].
    + intros ((Hr & Hs & Hl) & Hk & Hlk). split_and!; [done| |done..|].
      * intros q [Hq|Hq]%elem_of_app; [auto|apply Hlk; [by left|done]].
      * intros p q Hp Hq. apply Hlk; [by right|done].
Qed.

(** ** Regions under construction *)

Definition sized (reg : region) : Prop := 0 < size reg ∧ num_rects reg <= size reg.

(** [out] was appended to [reg]: one band over the lines from [t] to [b]. *)
Record emitted (reg : region) (out : list rectangle) (t b : Z) (reg' : region) : Prop := {
  em_rects : rects reg' = rects reg ++ out;
  em_extents : extents reg' = extents reg;
  em_sized : sized reg';
  em_spans : spans t b out;
  em_hsep : hsep out;
}.

Lemma emitted_nil reg t b : sized reg → emitted reg [] t b reg.
Proof. intros Hs. split; try done; [by rewrite app_nil_r|apply spans_nil]. Qed.

Lemma add_rect_ok reg r : sized reg →
  al (add_rect reg r) (λ reg', rects reg' = rects reg ++ [r] ∧ extents reg' = extents reg ∧ sized reg').
Proof.
  intros [Hp Hn]. unfold add_rect. unfold num_rects in *.
  eapply (al_bind_ok _ _ (λ s, 0 < s ∧ Z.of_nat (length (rects reg)) < s)).
  - destruct (Z.leb_spec (size reg) (Z.of_nat (length (rects reg)))).
    + eapply al_bind_ok; [by apply (al_alloc_ok (λ _, True))|]. intros _ _. apply al_ret_ok. lia.
    + apply al_ret_ok. lia.
  - intros s [Hs1 Hs2]. apply al_ret_ok. split_and!; [done..|]. unfold sized, num_rects. simpl.
    rewrite length_app. simpl. lia.
Qed.

Lemma emitted_cons reg r out t b reg1 reg' :
  rects reg1 = rects reg ++ [r] → extents reg1 = extents reg → emitted reg1 out t b reg' →
  top r = t → bottom r = b → left r < right r → (∀ q, q ∈ out → right r < left q) →
  emitted reg (r :: out) t b reg'.
Proof.
  intros Hr He [A B C D E] Ht Hb Hlr Hs. split; [|congruence|done|by apply spans_cons|done].
  rewrite A, Hr, <-app_assoc. done.
Qed.

Lemma copy_band_ok reg rs t b : hsep rs → sized reg →
  al (copy_band reg rs t b) (λ reg', ∃ out, emitted reg out t b reg' ∧
    (∀ x, inx out x ↔ inx rs x) ∧ ∀ q, q ∈ out → ∃ r, r ∈ rs ∧ left q = left r).
Proof.
  revert reg. induction rs as [|r rs IH]; intros reg Hh Hs; cbn [copy_band].
  { apply al_ret_ok. exists []. split_and!; [by apply emitted_nil|done|].
    intros q Hq. by apply elem_of_nil in Hq. }
  destruct Hh as (Hlr & Hsep & Hh). eapply al_bind_ok; [by apply add_rect_ok|].
  intros reg1 (Hr1 & He1 & Hs1). eapply al_mono; [by apply IH|].
  intros reg' (out & Hem & Hin & Hq). exists (Rect (left r) t (right r) b :: out). split_and!.
  - eapply emitted_cons; try done. intros q Hqo. destruct (Hq q Hqo) as (r' & Hr' & ->). simpl. auto.
  - intros x. rewrite !inx_cons, Hin. done.
  - intros q [->|Hqo]%elem_of_cons; [exists r; split; [by left|done]|].
    destruct (Hq q Hqo) as (r' & ? & ?). exists r'. split; [by right|done].
Qed.

(** Decides membership of [x] in the tail [rs] of a band and computes with the answer. *)
Ltac case_inx rs x :=
  let H := fresh "H" in
  let H' := fresh "H" in
  destruct (inx_dec rs x) as [H|H];
  [assert (inx rs x ↔ True) as H' by tauto|assert (inx rs x ↔ False) as H' by tauto];
  rewrite H' in *; clear H H'.

(** ** The overlap functions *)

Lemma emitted_app reg h out t b reg1 reg' :
  emitted reg h t b reg1 → emitted reg1 out t b reg' →
  (∀ p q, p ∈ h → q ∈ out → right p < left q) → emitted reg (h ++ out) t b reg'.
Proof.
  intros [A B C D E] [A' B' C' D' E'] Hs. split.
  - by rewrite A', A, <-app_assoc.
  - congruence.
  - done.
  - by apply spans_app.
  - by apply hsep_app.
Qed.

(** Emitting the interval from [l] to [r]. *)
Lemma add_one_ok reg l r t b : l < r → sized reg →
  al (add_rect reg (Rect l t r b)) (λ reg1, ∃ h, emitted reg h t b reg1 ∧
    (∀ x, inx h x ↔ l <= x < r) ∧ ∀ q, q ∈ h → left q = l ∧ right q = r).
Proof.
  intros Hlr Hs. eapply al_mono; [by apply add_rect_ok|]. intros reg1 (? & ? & ?).
  exists [Rect l t r b]. split_and!.
  - split; try done; [apply spans_cons; split; [done|apply spans_nil]|].
    simpl. split_and!; [done| |done]. intros q Hq. by apply elem_of_nil in Hq.
  - intros x. rewrite inx_cons, inx_nil. simpl. tauto.
  - intros q Hq. by apply list_elem_of_singleton in Hq as ->.
Qed.

Lemma add_some_ok reg l r t b : sized reg →
  al (if l <? r then add_rect reg (Rect l t r b) else al_ret reg) (λ reg1, ∃ h, emitted reg h t b reg1 ∧
    (∀ x, inx h x ↔ l <= x < r) ∧ ∀ q, q ∈ h → left q = l ∧ right q = r).
Proof.
  intros Hs. destruct (Z.ltb_spec l r); [by apply add_one_ok|].
  apply al_ret_ok. exists []. split_and!; [by apply emitted_nil| |].
  - intros x. rewrite inx_nil. lia.
  - intros q Hq. by apply elem_of_nil in Hq.
Qed.

Section intersect.
Context (t b : Z).

(** What intersecting the bands [r1s] and [r2s] must emit. *)
Definition intersected (reg : region) (r1s r2s : list rectangle) (reg' : region) : Prop :=
  ∃ out, emitted reg out t b reg' ∧ (∀ x, inx out x ↔ inx r1s x ∧ inx r2s x) ∧
    ∀ q, q ∈ out → (∃ r, r ∈ r1s ∧ left r <= left q) ∧ ∃ r, r ∈ r2s ∧ left r <= left q.

Lemma intersected_nil reg r1s r2s : sized reg → r1s = [] ∨ r2s = [] → intersected reg r1s r2s reg.
Proof.
  intros Hs Hor. exists []. split_and!; [by apply emitted_nil| |].
  - intros x. rewrite inx_nil. destruct Hor as [-> | ->]; rewrite inx_nil; tauto.
  - intros q Hq. by apply elem_of_nil in Hq.
Qed.

(** One interval emitted, then the rest. *)
Lemma intersected_step reg reg1 reg' h r1 r1s r2 r2s r1s' r2s' :
  let l := Z.max (left r1) (left r2) in let r := Z.min (right r1) (right r2) in
  emitted reg h t b reg1 → (∀ x, inx h x ↔ l <= x < r) →
  (∀ q, q ∈ h → left q = l ∧ right q = r) → intersected reg1 r1s' r2s' reg' →
  (∀ q, q ∈ r1s' → q ∈ r1 :: r1s) → (∀ q, q ∈ r2s' → q ∈ r2 :: r2s) →
  ((∀ q, q ∈ r1s' → r < left q) ∨ (∀ q, q ∈ r2s' → r < left q)) →
  (∀ x, (l <= x < r ∨ inx r1s' x ∧ inx r2s' x) ↔ inx (r1 :: r1s) x ∧ inx (r2 :: r2s) x) →
  intersected reg (r1 :: r1s) (r2 :: r2s) reg'.
Proof.
  intros l r Hem Hhx Hhq (out & Hem' & Hin & Hq) Hsub1 Hsub2 Hor Hx. exists (h ++ out). split_and!.
  - eapply emitted_app; [done..|]. intros p q Hp Hqo. destruct (Hhq p Hp) as [_ ->].
    destruct (Hq q Hqo) as [(a1 & Ha & Hl1) (a2 & Ha' & Hl2)].
    destruct Hor as [Hor|Hor]; [specialize (Hor a1 Ha)|specialize (Hor a2 Ha')]; lia.
  - intros x. rewrite inx_app, Hhx, Hin. apply Hx.
  - intros q [Hqh|Hqo]%elem_of_app.
    + destruct (Hhq q Hqh) as [-> _]. split; [exists r1|exists r2]; (split; [by left|lia]).
    + destruct (Hq q Hqo) as [(a1 & ? & ?) (a2 & ? & ?)]. split; [exists a1|exists a2]; auto.
Qed.

Lemma intersect_loop_ok fuel reg r1s r2s :
  hsep r1s → hsep r2s → sized reg → (length r1s + length r2s <= fuel)%nat →
  al (intersect_loop fuel reg r1s r2s t b) (intersected reg r1s r2s).
Proof.
  revert reg r1s r2s. induction fuel as [|fuel IH]; intros reg r1s r2s H1 H2 Hs Hf;
    (destruct r1s as [|r1 r1s]; [apply al_ret_ok, intersected_nil; auto|]);
    (destruct r2s as [|r2 r2s]; [apply al_ret_ok, intersected_nil; auto|]);
    [simpl in Hf; lia|]. cbn [intersect_loop].
  pose proof (λ x, hsep_after r1 r1s x H1) as Ha1. pose proof (λ x, hsep_after r2 r2s x H2) as Ha2.
  pose proof H1 as (Hp1 & Hs1 & Ht1). pose proof H2 as (Hp2 & Hs2 & Ht2). simpl in Hf.
  eapply al_bind_ok; [by apply add_some_ok|]. intros reg1 (h & Hem & Hhx & Hhq).
  pose proof (em_sized _ _ _ _ _ Hem) as Hsz1.
  destruct (Z.ltb_spec (right r1) (right r2)); [|destruct (Z.ltb_spec (right r2) (right r1))];
    (eapply al_mono; [apply IH; try done; simpl; lia|]); intros reg' Hrest;
    (eapply intersected_step; try done; try (intros; by right)).
  1,5: left; intros q Hq; specialize (Hs1 q Hq); lia.
  2: right; intros q Hq; specialize (Hs2 q Hq); lia.
  all: intros x; rewrite !inx_cons; specialize (Ha1 x); specialize (Ha2 x);
    case_inx r1s x; case_inx r2s x; lia.
Qed.
End intersect.

Section subtract.
Context (t b : Z).

(** What is left of a band when its first rectangle is used up to [l]. *)
Definition remains (l : Z) (rs : list rectangle) (x : Z) : Prop :=
  match rs with [] => False | r :: rs => l <= x < right r ∨ inx rs x end.

Definition subtracted (reg : region) (l : Z) (r1s r2s : list rectangle) (reg' : region) : Prop :=
  ∃ out, emitted reg out t b reg' ∧ (∀ x, inx out x ↔ remains l r1s x ∧ ¬ inx r2s x) ∧
    ∀ q, q ∈ out → r1s ≠ [] ∧ l <= left q.

(** [l] lies inside the first rectangle. *)
Definition inside (l : Z) (rs : list rectangle) : Prop :=
  match rs with [] => True | r :: _ => left r <= l < right r end.

Lemma remains_next l rs x : remains (next_left l rs) rs x ↔ inx rs x.
Proof. destruct rs as [|r rs]; simpl; [by rewrite inx_nil|by rewrite inx_cons]. Qed.

Lemma inside_next l rs : hsep rs → inside (next_left l rs) rs.
Proof. destruct rs as [|r rs]; simpl; [done|]. intros (? & _). lia. Qed.

Lemma next_left_after r rs l : hsep (r :: rs) → rs ≠ [] → right r < next_left l rs.
Proof. intros (_ & Hs & _). destruct rs as [|q rs]; [done|]. intros _. simpl. apply Hs. by left. Qed.

(** An interval that ends before everything emitted later. *)
Lemma subtracted_step reg reg1 reg' h l r l' r1s' r2s' r1 r1s r2s :
  emitted reg h t b reg1 → (∀ x, inx h x ↔ l <= x < r) → (∀ q, q ∈ h → left q = l ∧ right q = r) →
  subtracted reg1 l' r1s' r2s' reg' → (r1s' ≠ [] → r < l') → l <= r →
  (∀ x, l <= x < r ∨ remains l' r1s' x ∧ ¬ inx r2s' x ↔ remains l (r1 :: r1s) x ∧ ¬ inx r2s x) →
  subtracted reg l (r1 :: r1s) r2s reg'.
Proof.
  intros Hem Hhx Hhq (out & Hem' & Hin & Hq) Hr Hlr Hx. exists (h ++ out). split_and!.
  - eapply emitted_app; [done..|]. intros p q Hp Hqo. destruct (Hhq p Hp) as [_ ->].
    destruct (Hq q Hqo) as [Hne ?]. specialize (Hr Hne). lia.
  - intros x. rewrite inx_app, Hhx, Hin. apply Hx.
  - intros q [Hqh|Hqo]%elem_of_app; split; try done.
    + destruct (Hhq q Hqh) as [-> _]. lia.
    + destruct (Hq q Hqo) as [Hne ?]. specialize (Hr Hne). lia.
Qed.

(** Nothing to emit in this step. *)
Lemma subtracted_skip reg reg' l l' r1s' r2s' r1 r1s r2s :
  subtracted reg l' r1s' r2s' reg' → (r1s' ≠ [] → l <= l') →
  (∀ x, remains l' r1s' x ∧ ¬ inx r2s' x ↔ remains l (r1 :: r1s) x ∧ ¬ inx r2s x) →
  subtracted reg l (r1 :: r1s) r2s reg'.
Proof.
  intros (out & Hem & Hin & Hq) Hl Hx. exists out. split_and!; [done| |].
  - intros x. by rewrite Hin, Hx.
  - intros q Hqo. destruct (Hq q Hqo) as [Hne ?]. specialize (Hl Hne). split; [done|lia].
Qed.

Lemma subtract_tail_ok reg l r1s : hsep r1s → inside l r1s → sized reg →
  al (subtract_tail reg l r1s t b) (subtracted reg l r1s []).
Proof.
  revert reg l. induction r1s as [|r1 r1s IH]; intros reg l Hh Hl Hs; cbn [subtract_tail].
  { apply al_ret_ok. exists []. split_and!; [by apply emitted_nil| |].
    - intros x. simpl. rewrite inx_nil. tauto.
    - intros q Hq. by apply elem_of_nil in Hq. }
  pose proof Hh as (Hp & Hs1 & Ht). simpl in Hl.
  eapply al_bind_ok; [by apply (add_one_ok reg l (right r1)); [lia|]|].
  intros reg1 (h & Hem & Hhx & Hhq).
  eapply al_mono; [apply IH; [done|by apply inside_next|apply Hem]|]. intros reg' Hrest.
  eapply subtracted_step; [done..| |lia|].
  - intros Hne. by apply next_left_after.
  - intros x. rewrite remains_next. simpl. rewrite inx_nil. tauto.
Qed.

Lemma subtract_loop_ok fuel reg l r1s r2s :
  hsep r1s → hsep r2s → inside l r1s → sized reg → (length r1s + length r2s <= fuel)%nat →
  al (subtract_loop fuel reg l r1s r2s t b) (subtracted reg l r1s r2s).
Proof.
  revert reg l r1s r2s. induction fuel as [|fuel IH]; intros reg l r1s r2s H1 H2 Hl Hs Hf;
    (destruct r2s as [|r2 r2s]; [destruct r1s; by apply subtract_tail_ok|]);
    (destruct r1s as [|r1 r1s]; [apply al_ret_ok; exists []; split_and!;
      [by apply emitted_nil|intros x; simpl; rewrite inx_nil; tauto|intros q Hq; by apply elem_of_nil in Hq]|]);
    [simpl in Hf; lia|]. cbn [subtract_loop].
  pose proof (λ x, hsep_after r1 r1s x H1) as Ha1. pose proof (λ x, hsep_after r2 r2s x H2) as Ha2.
  pose proof H1 as (Hp1 & Hs1 & Ht1). pose proof H2 as (Hp2 & Hs2 & Ht2). simpl in Hf, Hl.
  assert (Hnext : ∀ l', r1s ≠ [] → right r1 < next_left l' r1s) by (intros; by apply next_left_after).
  assert (Hin : ∀ l', inside (next_left l' r1s) r1s) by (intros; by apply inside_next).
  destruct (Z.leb_spec (right r2) l); [|destruct (Z.leb_spec (left r2) l); [|destruct (Z.ltb_spec (left r2) (right r1))]].
  - eapply al_mono; [apply IH; try done; simpl; lia|]. intros reg' Hrest.
    eapply subtracted_skip; [done|lia|]. intros x. simpl. rewrite !inx_cons.
    specialize (Ha1 x). specialize (Ha2 x). case_inx r1s x; case_inx r2s x; lia.
  - destruct (Z.leb_spec (right r1) (right r2)).
    + eapply al_mono; [apply IH; try done; simpl; lia|]. intros reg' Hrest.
      eapply subtracted_skip; [done|intros Hne; specialize (Hnext (right r2) Hne); lia|].
      intros x. rewrite remains_next. simpl. rewrite !inx_cons.
      specialize (Ha1 x). specialize (Ha2 x). case_inx r1s x; case_inx r2s x; lia.
    + eapply al_mono; [apply IH; try done; simpl; lia|]. intros reg' Hrest.
      eapply subtracted_skip; [done|lia|]. intros x. simpl. rewrite !inx_cons.
      specialize (Ha1 x). specialize (Ha2 x). case_inx r1s x; case_inx r2s x; lia.
  - eapply al_bind_ok; [by apply (add_one_ok reg l (left r2))|]. intros reg1 (h & Hem & Hhx & Hhq).
    pose proof (em_sized _ _ _ _ _ Hem). destruct (Z.leb_spec (right r1) (right r2)).
    + eapply al_mono; [apply IH; try done; simpl; lia|]. intros reg' Hrest.
      eapply subtracted_step; [done..|intros Hne; specialize (Hnext (right r2) Hne); lia|lia|].
      intros x. rewrite remains_next. simpl. rewrite !inx_cons.
      specialize (Ha1 x). specialize (Ha2 x). case_inx r1s x; case_inx r2s x; lia.
    + eapply al_mono; [apply IH; try done; simpl; lia|]. intros reg' Hrest.
      eapply subtracted_step; [done..|lia|lia|]. intros x. simpl. rewrite !inx_cons.
      specialize (Ha1 x). specialize (Ha2 x). case_inx r1s x; case_inx r2s x; lia.
  - eapply al_bind_ok; [by apply add_some_ok|]. intros reg1 (h & Hem & Hhx & Hhq).
    pose proof (em_sized _ _ _ _ _ Hem).
    eapply al_mono; [apply IH; try done; simpl; lia|]. intros reg' Hrest.
    eapply subtracted_step; [done..|intros Hne; apply (Hnext l Hne)|lia|].
    intros x. rewrite remains_next. simpl. rewrite !inx_cons.
    specialize (Ha1 x). specialize (Ha2 x). case_inx r1s x; case_inx r2s x; lia.
Qed.
End subtract.

Section union.
Context (t b : Z) (Htb : t < b).
Context (pre : list rectangle) (Hpre : ∀ q, q ∈ pre → bottom q <= t) (ext : rectangle).

(** The region holds [pre] and then the part [cur] of the band built so far,
    to the left of [bound]. *)
Record merging (cur : list rectangle) (reg : region) : Prop := {
  mg_rects : rects reg = pre ++ cur;
  mg_extents : extents reg = ext;
  mg_sized : sized reg;
  mg_spans : spans t b cur;
  mg_hsep : hsep cur;
}.

Lemma merging_snoc cur reg r : merging cur reg → left r < right r →
  (∀ q, q ∈ cur → right q < left r) →
  al (add_rect reg (Rect (left r) t (right r) b)) (merging (cur ++ [Rect (left r) t (right r) b])).
Proof.
  intros [A B C D E] Hlr Hs. eapply al_mono; [by apply add_rect_ok|]. intros reg1 (Hr & He & Hsz).
  split; [by rewrite Hr, A, <-app_assoc|congruence|done| |].
  - apply spans_app. split; [done|]. apply spans_cons. split; [done|apply spans_nil].
  - apply hsep_app. split_and!; [done| |].
    + simpl. split_and!; [done| |done]. intros q Hq. by apply elem_of_nil in Hq.
    + intros p q Hp Hq. apply list_elem_of_singleton in Hq as ->. simpl. auto.
Qed.

Lemma MERGERECT_ok cur reg r :
  merging cur reg → left r < right r → (∀ q, q ∈ cur → left q <= left r) →
  al (MERGERECT reg r t b) (λ reg', ∃ cur', merging cur' reg' ∧
    (∀ x, inx cur' x ↔ inx cur x ∨ left r <= x < right r) ∧ ∀ q, q ∈ cur' → left q <= left r).
Proof.
  intros Hm Hlr Hle. pose proof Hm as [A B C D E]. unfold MERGERECT.
  assert (Hadd : (∀ q, q ∈ cur → right q < left r) →
    al (add_rect reg (Rect (left r) t (right r) b)) (λ reg', ∃ cur', merging cur' reg' ∧
      (∀ x, inx cur' x ↔ inx cur x ∨ left r <= x < right r) ∧ ∀ q, q ∈ cur' → left q <= left r)).
  { intros Hs. eapply al_mono; [by apply merging_snoc|]. intros reg' Hm'. eexists. split_and!; [done| |].
    - intros x. rewrite inx_app, inx_cons, inx_nil. simpl. tauto.
    - intros q [Hq|Hq]%elem_of_app; [auto|]. apply list_elem_of_singleton in Hq as ->. simpl. lia. }
  destruct cur as [|e0 cur0] eqn:Hcur using rev_ind; [|clear IHcur0].
  { rewrite A, app_nil_r. destruct (last pre) as [e|] eqn:Hlast; [|apply Hadd; intros q Hq; by apply elem_of_nil in Hq].
    apply last_Some_elem_of, Hpre in Hlast.
    destruct (Z.eqb_spec (bottom e) b); [lia|]. rewrite andb_false_r. simpl.
    apply Hadd. intros q Hq. by apply elem_of_nil in Hq. }
  rewrite A, app_assoc, last_snoc. apply spans_app in D as [D0 [De _]%spans_cons].
  destruct De as [-> ->]. rewrite !Z.eqb_refl. simpl.
  pose proof E as (E0 & Ee & Esep)%hsep_app. destruct Ee as (Hpe & _).
  assert (left e0 <= left r) as Hel by (apply Hle, elem_of_app; right; by left).
  destruct (Z.leb_spec (left r) (right e0)).
  2:{ apply Hadd. intros q [Hq|Hq]%elem_of_app; [|apply list_elem_of_singleton in Hq; by subst].
      specialize (Esep q e0 Hq ltac:(by left)). lia. }
  destruct (Z.ltb_spec (right e0) (right r)).
  2:{ apply al_ret_ok. eexists. split_and!; [done| |done]. intros x. rewrite inx_app, inx_cons, inx_nil.
      case_inx cur0 x; lia. }
  apply al_ret_ok. exists (cur0 ++ [Rect (left e0) t (right r) b]). split_and!.
  - rewrite app_assoc in A. split; simpl; try done.
    + rewrite length_app. simpl. rewrite Nat.add_sub, take_app_length. by rewrite <-app_assoc.
    + unfold sized, num_rects in *. simpl in *. rewrite A in C. rewrite !length_app in *. simpl in *.
      rewrite length_take, !length_app. simpl. lia.
    + apply spans_app. split; [done|]. apply spans_cons. split; [done|apply spans_nil].
    + apply hsep_app. split_and!; [done| |].
      * simpl. split_and!; [lia| |done]. intros q Hq. by apply elem_of_nil in Hq.
      * intros p' q Hp Hq. apply list_elem_of_singleton in Hq as ->. simpl. apply Esep; [done|by left].
  - intros x. rewrite !inx_app, !inx_cons, !inx_nil. simpl. case_inx cur0 x; lia.
  - intros q [Hq|Hq]%elem_of_app; [apply Hle, elem_of_app; by left|].
    apply list_elem_of_singleton in Hq as ->. done.
Qed.

(** What merging the remaining rectangles [r1s] and [r2s] must give. *)
Definition united (cur r1s r2s : list rectangle) (reg' : region) : Prop :=
  ∃ out, merging out reg' ∧ ∀ x, inx out x ↔ inx cur x ∨ inx r1s x ∨ inx r2s x.

Lemma merge_all_ok cur reg rs : merging cur reg → hsep rs →
  (∀ q r, q ∈ cur → r ∈ rs → left q <= left r) →
  al (merge_all reg rs t b) (united cur rs []).
Proof using Htb Hpre.
  revert cur reg. induction rs as [|r rs IH]; intros cur reg Hm Hh Hle; cbn [merge_all].
  { apply al_ret_ok. exists cur. split; [done|]. intros x. rewrite inx_nil. tauto. }
  pose proof Hh as (Hp & Hs & Ht).
  eapply al_bind_ok; [apply (MERGERECT_ok cur); [done..|]; intros q Hq; apply Hle; [done|by left]|].
  intros reg1 (cur1 & Hm1 & Hx1 & Hle1). eapply al_mono; [apply (IH cur1); try done|].
  - intros q r' Hq Hr'. specialize (Hle1 q Hq). specialize (Hs r' Hr'). lia.
  - intros reg' (out & Hm' & Hx'). exists out. split; [done|]. intros x.
    rewrite Hx', Hx1, inx_cons. tauto.
Qed.

Lemma union_loop_nil fuel reg r2s : union_loop fuel reg [] r2s t b = merge_all reg r2s t b.
Proof. by destruct fuel. Qed.

Lemma union_loop_ok fuel cur reg r1s r2s :
  merging cur reg → hsep r1s → hsep r2s → (length r1s + length r2s <= fuel)%nat →
  (∀ q r, q ∈ cur → r ∈ r1s → left q <= left r) → (∀ q r, q ∈ cur → r ∈ r2s → left q <= left r) →
  al (union_loop fuel reg r1s r2s t b) (united cur r1s r2s).
Proof using Htb Hpre.
  revert cur reg r1s r2s. induction fuel as [|fuel IH]; intros cur reg r1s r2s Hm H1 H2 Hf Hle1 Hle2;
    (destruct r1s as [|r1 r1s];
      [rewrite union_loop_nil; eapply al_mono; [by apply (merge_all_ok cur)|];
       intros reg' (out & Hm' & Hx); exists out; split; [done|]; intros x; rewrite Hx; tauto|]);
    (destruct r2s as [|r2 r2s]; [by apply (merge_all_ok cur)|]); [simpl in Hf; lia|].
  cbn [union_loop]. pose proof H1 as (Hp1 & Hs1 & Ht1). pose proof H2 as (Hp2 & Hs2 & Ht2). simpl in Hf.
  destruct (Z.ltb_spec (left r1) (left r2)).
  - eapply al_bind_ok; [apply (MERGERECT_ok cur); [done..|]; intros q Hq; apply Hle1; [done|by left]|].
    intros reg1 (cur1 & Hm1 & Hx1 & Hl1). eapply al_mono; [apply (IH cur1); try done; simpl; [lia|..]|].
    + intros q r Hq Hr. specialize (Hl1 q Hq). specialize (Hs1 r Hr). lia.
    + intros q r Hq [->|Hr]%elem_of_cons; specialize (Hl1 q Hq); [lia|]. specialize (Hs2 r Hr). lia.
    + intros reg' (out & Hm' & Hx'). exists out. split; [done|]. intros x.
      rewrite Hx', Hx1, !inx_cons. tauto.
  - eapply al_bind_ok; [apply (MERGERECT_ok cur); [done..|]; intros q Hq; apply Hle2; [done|by left]|].
    intros reg1 (cur1 & Hm1 & Hx1 & Hl1). eapply al_mono; [apply (IH cur1); try done; simpl; [lia|..]|].
    + intros q r Hq [->|Hr]%elem_of_cons; specialize (Hl1 q Hq); [lia|]. specialize (Hs1 r Hr). lia.
    + intros q r Hq Hr. specialize (Hl1 q Hq). specialize (Hs2 r Hr). lia.
    + intros reg' (out & Hm' & Hx'). exists out. split; [done|]. intros x.
      rewrite Hx', Hx1, !inx_cons. tauto.
Qed.
End union.
