(* ===== verification/RegionOps.v ===== *)
(** * Correctness of the region operations: the band sweep

    [region_op] combines two regions line by line.  Its loop is verified once,
    for any point-wise operation [f] and any overlap functions that compute [f]
    on a line. *)

From stdpp Require Import base list.
From S2P Require Import Prelude Region RegionInv.

Open Scope Z_scope.
Open Scope region_scope.

(** ** Lists of bands *)

(** Non-empty bands one below the other, all at or below the line [lo]. *)
Inductive bands : Z → list rectangle → Prop :=
| bands_nil lo : bands lo []
| bands_cons lo band t b rest :
    band ≠ [] → lo <= t → t < b → spans t b band → hsep band → bands b rest →
    bands lo (band ++ rest).

Lemma bands_weaken lo lo' rs : bands lo rs → lo' <= lo → bands lo' rs.
Proof. intros [|? band t b rest]; intros; [constructor|]. by apply (bands_cons _ band t b); [|lia|..]. Qed.

Lemma bands_one lo t b band : lo <= t → t < b → spans t b band → hsep band → bands lo band.
Proof.
  intros Hlo Htb Hs Hh. destruct band as [|r band]; [constructor|]. rewrite <-(app_nil_r (r :: band)).
  apply (bands_cons _ _ t b); try done. constructor.
Qed.

Lemma bands_app lo hi l k : bands lo l → lo <= hi → (∀ r, r ∈ l → bottom r <= hi) → bands hi k → bands lo (l ++ k).
Proof.
  induction 1 as [lo|lo band t b rest Hne Hlo Htb Hs Hh Hrest IH]; intros Hhi Hbot Hk.
  - by apply (bands_weaken hi).
  - rewrite <-app_assoc. apply (bands_cons _ band t b); try done. apply IH.
    + destruct band as [|r band]; [done|]. destruct (Hs r ltac:(by left)) as [_ <-].
      apply Hbot, elem_of_app. left. by left.
    + intros r Hr. apply Hbot, elem_of_app. by right.
    + done.
Qed.

Lemma bands_above lo rs r : bands lo rs → r ∈ rs → lo <= top r < bottom r ∧ left r < right r.
Proof.
  induction 1 as [lo|lo band t b rest Hne Hlo Htb Hs Hh Hrest IH]; intros Hin; [by apply elem_of_nil in Hin|].
  apply elem_of_app in Hin as [Hin|Hin].
  - destruct (Hs r Hin) as [-> ->]. pose proof (hsep_pos _ _ Hh Hin). lia.
  - destruct (IH Hin) as [? ?]. lia.
Qed.

Lemma inxy_above lo rs x y : bands lo rs → inxy rs x y → lo <= y.
Proof. intros Hb (r & Hr & _ & Hy). destruct (bands_above lo rs r Hb Hr). lia. Qed.

(** ** The first band of a list *)

Lemma same_top_all t rs : (∀ r, r ∈ rs → top r = t) → same_top t rs = rs.
Proof.
  induction rs as [|r rs IH]; intros Ht; [done|]. simpl. rewrite Ht by (by left).
  rewrite Z.eqb_refl, IH; [done|]. intros q Hq. apply Ht. by right.
Qed.

Lemma same_top_app t l k : (∀ r, r ∈ l → top r = t) → (∀ r, r ∈ k → top r ≠ t) → same_top t (l ++ k) = l.
Proof.
  induction l as [|r l IH]; intros Hl Hk; simpl.
  - destruct k as [|q k]; [done|]. simpl. by rewrite (proj2 (Z.eqb_neq _ _)) by (apply Hk; by left).
  - rewrite Hl by (by left). rewrite Z.eqb_refl, IH; [done| |done]. intros q Hq. apply Hl. by right.
Qed.

Lemma first_band_app t b band rest lo :
  band ≠ [] → spans t b band → t < b → b <= lo → bands lo rest →
  first_band (band ++ rest) = band ∧ after_band (band ++ rest) = rest.
Proof.
  intros Hne Hs Htb Hlo Hb. assert (first_band (band ++ rest) = band) as Hf.
  { destruct band as [|r band]; [done|]. 
    change (same_top (top r) ((r :: band) ++ rest) = r :: band).
    destruct (Hs r ltac:(by left)) as [-> _]. apply same_top_app.
    - intros q Hq. apply (Hs q Hq).
    - intros q Hq. destruct (bands_above _ _ _ Hb Hq). lia. }
  split; [done|]. unfold after_band. rewrite Hf. by rewrite drop_app_length.
Qed.

(** A list of bands starts with one. *)
Lemma bands_inv lo r rs : bands lo (r :: rs) →
  let band := first_band (r :: rs) in let rest := after_band (r :: rs) in
  r :: rs = band ++ rest ∧ band ≠ [] ∧ lo <= top r ∧ top r < bottom r ∧
  spans (top r) (bottom r) band ∧ hsep band ∧ bands (bottom r) rest.
Proof.
  intros Hb. inversion Hb as [|? band t b rest Hne Hlo Htb Hs Hh Hrest Heq1 Heq]. subst.
  pose proof (first_band_app t b band rest b Hne Hs Htb ltac:(lia) Hrest) as [Hf Ha].
  cbv zeta. rewrite Hf, Ha. destruct band as [|q band]; [done|].
  injection Heq as -> Heq. destruct (Hs r ltac:(by left)) as [<- <-].
  done.
Qed.

(** ** Valid rectangles are bands *)

Lemma validate_cons r rs : validate_rectangles (r :: rs) = true →
  is_rect_empty r = false ∧ validate_rectangles rs = true ∧
  match rs with
  | [] => True
  | q :: _ => top r = top q ∧ bottom r = bottom q ∧ right r < left q ∨ top r ≠ top q ∧ bottom r <= top q
  end.
Proof.
  cbn [validate_rectangles]. destruct (is_rect_empty r); [done|].
  destruct rs as [|q rs]; [done|]. destruct (Z.eqb_spec (top r) (top q)).
  - destruct (Z.eqb_spec (bottom r) (bottom q)); [|done]. simpl.
    destruct (Z.leb_spec (left q) (right r)); [done|]. intros ->. split_and!; [done..|]. left. lia.
  - destruct (Z.ltb_spec (top q) (bottom r)); [done|]. intros ->. split_and!; [done..|]. right. lia.
Qed.

Lemma not_empty_rect r : is_rect_empty r = false ↔ left r < right r ∧ top r < bottom r.
Proof. unfold is_rect_empty. rewrite orb_false_iff, !Z.leb_gt. done. Qed.

Definition head_top (rs : list rectangle) : Z := match rs with r :: _ => top r | [] => 0 end.

Lemma validate_bands rs : validate_rectangles rs = true → bands (head_top rs) rs.
Proof.
  induction rs as [|r rs IH]; [constructor|]. intros (Hne & Hv & Hnext)%validate_cons. simpl.
  apply not_empty_rect in Hne as [Hlr Htb]. specialize (IH Hv).
  destruct rs as [|q rs].
  { apply (bands_one _ (top r) (bottom r)); [lia|done| |].
    - apply spans_cons. split; [done|apply spans_nil].
    - simpl. split_and!; [done| |done]. intros q Hq. by apply elem_of_nil in Hq. }
  simpl in IH. destruct Hnext as [(Ht & Hb & Hs)|(Ht & Hb)].
  - apply bands_inv in IH as (Heq & Hbn & _ & _ & Hsp & Hh & Hrest). rewrite Heq.
    change (r :: first_band (q :: rs) ++ after_band (q :: rs))
      with ((r :: first_band (q :: rs)) ++ after_band (q :: rs)).
    apply (bands_cons _ _ (top r) (bottom r)); [done|lia|done| | |by rewrite Hb].
    + apply spans_cons. split; [done|]. by rewrite Ht, Hb.
    + destruct (first_band (q :: rs)) as [|q' band]; [done|]. simplify_eq/=.
      destruct Hh as (Hq & Hqs & Hh). split_and!; try done. intros p [->|Hp]%elem_of_cons; [done|].
      specialize (Hqs p Hp). lia.
  - change (r :: q :: rs) with ([r] ++ q :: rs).
    apply (bands_cons _ _ (top r) (bottom r)); [done|lia|done| | |by eapply bands_weaken].
    + apply spans_cons. split; [done|apply spans_nil].
    + simpl. split_and!; [done| |done]. intros p Hp. by apply elem_of_nil in Hp.
Qed.

Lemma bands_validate lo rs : bands lo rs → validate_rectangles rs = true.
Proof.
  induction 1 as [lo|lo band t b rest Hne Hlo Htb Hs Hh Hrest IH]; [done|].
  clear Hne. induction band as [|r band IHb]; [done|].
  apply spans_cons in Hs as [[Ht Hb] Hs]. destruct Hh as (Hlr & Hsep & Hh).
  specialize (IHb Hs Hh). simpl app. cbn [validate_rectangles].
  rewrite (proj2 (not_empty_rect r)) by lia. destruct band as [|q band]; simpl app.
  - destruct rest as [|q rest]; [done|]. destruct (bands_above _ _ q Hrest ltac:(by left)) as [??].
    rewrite (proj2 (Z.eqb_neq _ _)), (proj2 (Z.ltb_ge _ _)) by lia. done.
  - destruct (Hs q ltac:(by left)) as [-> ->]. rewrite Ht, Hb, !Z.eqb_refl. simpl.
    rewrite (proj2 (Z.leb_gt _ _)); [done|]. apply Hsep. by left.
Qed.

(** ** Bands that cannot be merged *)

(** Where one band ends and another begins, the two lines hold different points:
    no two bands could be written as one. *)
Definition coalesced (rs : list rectangle) : Prop :=
  ∀ p q, p ∈ rs → q ∈ rs → bottom p = top q → ¬ ∀ x, inxy rs x (top q - 1) ↔ inxy rs x (top q).

Lemma coalesced_nil : coalesced [].
Proof. intros p q Hp. by apply elem_of_nil in Hp. Qed.

Lemma coalesced_band t b rs : spans t b rs → t < b → coalesced rs.
Proof. intros Hs Htb p q Hp Hq Heq. destruct (Hs p Hp), (Hs q Hq). lia. Qed.

(** The intervals of a band are determined by its points. *)
Lemma hsep_head r rs x : hsep (r :: rs) → inx (r :: rs) x → left r <= x.
Proof. intros Hh [Hx|Hx]%inx_cons; [lia|]. pose proof (hsep_after _ _ _ Hh Hx). destruct Hh. lia. Qed.

Lemma hsep_gap r rs : hsep (r :: rs) → ¬ inx (r :: rs) (right r).
Proof. intros Hh [Hx|Hx]%inx_cons; [lia|]. pose proof (hsep_after _ _ _ Hh Hx). lia. Qed.

Lemma inx_left r rs : left r < right r → inx (r :: rs) (left r).
Proof. intros. apply inx_cons. lia. Qed.

Lemma hsep_inj P Q : hsep P → hsep Q → (∀ x, inx P x ↔ inx Q x) →
  length P = length Q ∧ same_x P Q = true.
Proof.
  revert Q. induction P as [|p P IH]; intros [|q Q] HP HQ Hx; [done| | |].
  - destruct HQ. pose proof (proj2 (Hx _) (inx_left q Q ltac:(done))) as Hin. by apply inx_nil in Hin.
  - destruct HP. pose proof (proj1 (Hx _) (inx_left p P ltac:(done))) as Hin. by apply inx_nil in Hin.
  - assert (left p = left q) as Hl.
    { pose proof (hsep_head _ _ _ HQ (proj1 (Hx _) (inx_left p P ltac:(apply HP)))).
      pose proof (hsep_head _ _ _ HP (proj2 (Hx _) (inx_left q Q ltac:(apply HQ)))). lia. }
    assert (right p = right q) as Hr.
    { pose proof (hsep_gap _ _ HP) as H1. pose proof (hsep_gap _ _ HQ) as H2.
      rewrite Hx, inx_cons in H1. rewrite <-Hx, inx_cons in H2. destruct HP, HQ. lia. }
    pose proof (λ x, hsep_after p P x HP) as HaP. pose proof (λ x, hsep_after q Q x HQ) as HaQ.
    destruct HP as (_ & _ & HP), HQ as (_ & _ & HQ). destruct (IH Q HP HQ) as [Hlen Hsx].
    { intros x. specialize (Hx x). rewrite !inx_cons in Hx. specialize (HaP x). specialize (HaQ x).
      case_inx P x; case_inx Q x; lia. }
    simpl. rewrite Hl, Hr, !Z.eqb_refl. auto.
Qed.

(** Two lists of bands, one below the other. *)
Lemma inxy_app_upper hi l k x y : bands hi k → y < hi → (inxy (l ++ k) x y ↔ inxy l x y).
Proof.
  intros Hk Hy. rewrite inxy_app. split; [|tauto]. intros [?|H]; [done|].
  pose proof (inxy_above _ _ _ _ Hk H). lia.
Qed.

Lemma inxy_app_lower hi l k x y :
  (∀ r, r ∈ l → bottom r <= hi) → hi <= y → (inxy (l ++ k) x y ↔ inxy k x y).
Proof.
  intros Hl Hy. rewrite inxy_app. split; [|tauto]. intros [(r & Hr & H)|?]; [|done].
  specialize (Hl r Hr). lia.
Qed.

(** The parts of a coalesced list are coalesced, and conversely if the lines on
    both sides of the boundary differ. *)
Lemma coalesced_lower hi l k : (∀ r, r ∈ l → bottom r <= hi) → bands hi k → coalesced (l ++ k) → coalesced k.
Proof.
  intros Hl Hk Hc p q Hp Hq Heq Hx. apply (Hc p q); [apply elem_of_app; by right..|done|].
  destruct (bands_above _ _ _ Hk Hp), (bands_above _ _ _ Hk Hq).
  intros x. rewrite !(inxy_app_lower hi) by (done || lia). apply Hx.
Qed.

Lemma coalesced_app lo hi l k : bands lo l → (∀ r, r ∈ l → bottom r <= hi) → bands hi k →
  coalesced l → coalesced k →
  (∀ p q, p ∈ l → q ∈ k → bottom p = hi → top q = hi → ¬ ∀ x, inxy l x (hi - 1) ↔ inxy k x hi) →
  coalesced (l ++ k).
Proof.
  intros Hbl Hl Hk Hcl Hck Hcut p q Hp Hq Heq Hx.
  apply elem_of_app in Hp as [Hp|Hp], Hq as [Hq|Hq].
  - specialize (Hl q Hq). destruct (bands_above _ _ _ Hbl Hq). apply (Hcl p q); try done.
    intros x. specialize (Hx x). rewrite !(inxy_app_upper hi) in Hx by (done || lia). done.
  - specialize (Hl p Hp) as Hp'. destruct (bands_above _ _ _ Hk Hq). assert (top q = hi) as Ht by lia.
    apply (Hcut p q); [done..|lia|done|]. intros x. specialize (Hx x). rewrite Ht in Hx.
    rewrite (inxy_app_upper hi), (inxy_app_lower hi) in Hx by (done || lia). done.
  - specialize (Hl q Hq). destruct (bands_above _ _ _ Hk Hp), (bands_above _ _ _ Hbl Hq). lia.
  - destruct (bands_above _ _ _ Hk Hp), (bands_above _ _ _ Hk Hq). apply (Hck p q); try done.
    intros x. specialize (Hx x). rewrite !(inxy_app_lower hi) in Hx by (done || lia). done.
Qed.

Lemma coalesced_upper lo hi l k : bands lo l → (∀ r, r ∈ l → bottom r <= hi) → bands hi k →
  coalesced (l ++ k) → coalesced l.
Proof.
  intros Hbl Hl Hk Hc p q Hp Hq Heq Hx. apply (Hc p q); [apply elem_of_app; by left..|done|].
  specialize (Hl q Hq). destruct (bands_above _ _ _ Hbl Hq).
  intros x. rewrite !(inxy_app_upper hi) by (done || lia). apply Hx.
Qed.

(** The lines of a band, with other bands below it or above it. *)
Lemma inxy_band_below t b P rest x y : spans t b P → bands b rest → t <= y < b →
  (inxy (P ++ rest) x y ↔ inx P x).
Proof. intros Hs Hb Hy. rewrite (inxy_app_upper b), (inxy_spans t b) by (done || lia). tauto. Qed.

Lemma inxy_band_above t b A P x y : (∀ r, r ∈ A → bottom r <= t) → spans t b P → t <= y < b →
  (inxy (A ++ P) x y ↔ inx P x).
Proof. intros HA Hs Hy. rewrite (inxy_app_lower t), (inxy_spans t b) by (done || lia). tauto. Qed.

(** ** Coalescing *)

(** The rectangles of the region under construction: bands [A] and then the last
    band [P], which starts at [k]; all of them above the line [hi], and no two
    of the bands could be merged. *)
Definition staged (lo hi : Z) (rs : list rectangle) (k : nat) : Prop :=
  ∃ A P t b, rs = A ++ P ∧ k = length A ∧ bands lo A ∧ (∀ r, r ∈ A → bottom r <= t) ∧
    lo <= t ∧ t < b ∧ spans t b P ∧ hsep P ∧ (P = [] → A = []) ∧ coalesced rs ∧ ∀ r, r ∈ rs → bottom r <= hi.

Lemma staged_bands lo hi rs k : staged lo hi rs k → bands lo rs.
Proof.
  intros (A & P & t & b & -> & -> & HA & HAt & Hlo & Htb & Hs & Hh & _ & _ & _).
  apply (bands_app _ t); [done..|]. by apply (bands_one _ t b).
Qed.

Lemma staged_start lo : staged lo lo [] 0.
Proof.
  exists [], [], lo, (lo + 1). split_and!; try done; try lia; try apply bands_nil;
    try apply spans_nil; try apply coalesced_nil; intros r Hr; by apply elem_of_nil in Hr.
Qed.

Lemma staged_weaken lo hi hi' rs k : staged lo hi rs k → hi <= hi' → staged lo hi' rs k.
Proof.
  intros (A & P & t & b & Hrs & Hk & HA & HAt & Hlo & Htb & Hs & Hh & Hn & Hc & Hhi) Hle.
  exists A, P, t, b. split_and!; try done. intros r Hr. specialize (Hhi r Hr). lia.
Qed.

(** Extending the rectangles of a band down to the bottom of the next one. *)
Lemma extend_band_ok t m b P out :
  length P = length out → spans t m P → spans m b out → hsep P → same_x P out = true → t < m → m < b →
  spans t b (extend_band P out) ∧ hsep (extend_band P out) ∧
  (∀ x, inx (extend_band P out) x ↔ inx P x) ∧ (∀ x, inx out x ↔ inx P x) ∧
  (∀ q, q ∈ extend_band P out → ∃ p, p ∈ P ∧ left q = left p).
Proof.
  revert out. induction P as [|p P IH]; intros [|c out] Hlen HsP Hso Hh Hx Htm Hmb; simpl in Hlen; try lia.
  - simpl. split_and!; [apply spans_nil|done..|]. intros q Hq. by apply elem_of_nil in Hq.
  - simpl in Hx. rewrite !andb_true_iff, !Z.eqb_eq in Hx. destruct Hx as [[Hl Hr] Hx].
    apply spans_cons in HsP as [[Hpt Hpm] HsP], Hso as [[Hct Hcb] Hso]. destruct Hh as (Hlr & Hsep & Hh).
    destruct (IH out) as (I1 & I2 & I3 & I4 & I5); try done; [lia|]. simpl. split_and!.
    + apply spans_cons. split; [done|done].
    + done.
    + intros q Hq. destruct (I5 q Hq) as (p' & Hp' & ->). simpl. auto.
    + done.
    + intros x. rewrite !inx_cons, I3. done.
    + intros x. rewrite !inx_cons, I4, Hl, Hr. done.
    + intros q [->|Hq]%elem_of_cons; [exists p; split; [by left|done]|].
      destruct (I5 q Hq) as (p' & ? & ?). exists p'. split; [by right|done].
Qed.

Lemma extend_band_length P out : (length (extend_band P out) <= length out)%nat.
Proof.
  revert out. induction P as [|p P IH]; intros [|c out]; simpl; [lia..|]. specialize (IH out). lia.
Qed.

(** The pieces [coalesce_region] works on. *)
Lemma coalesce_pieces A P out rest b lo :
  out ≠ [] → spans lo b out → lo < b → bands b rest →
  let rs := (A ++ P) ++ out ++ rest in
  first_band (drop (length (A ++ P)) rs) = out ∧
  drop (length (A ++ P) + length out) rs = rest ∧
  take (length (A ++ P) - length A) (drop (length A) rs) = P ∧ take (length A) rs = A.
Proof.
  intros Hne Hs Hlb Hb rs. unfold rs.
  destruct (first_band_app lo b out rest b) as [Hf _]; try done. split_and!.
  - by rewrite drop_app_length.
  - rewrite app_assoc, <-length_app. by rewrite drop_app_length.
  - rewrite <-app_assoc, drop_app_length, length_app.
    replace (length A + length P - length A)%nat with (length P) by lia. by rewrite take_app_length.
  - by rewrite <-app_assoc, take_app_length.
Qed.

Lemma inxy_merged A P' rest P out x y t m b :
  spans t m P → spans m b out → spans t b P' → t < m → m < b →
  (inx P' x ↔ inx P x) → (inx out x ↔ inx P x) →
  inxy (A ++ P' ++ rest) x y ↔ inxy ((A ++ P) ++ out ++ rest) x y.
Proof.
  intros H1 H2 H3 Htm Hmb Hx1 Hx2. rewrite !inxy_app.
  rewrite (inxy_spans _ _ _ _ _ H1), (inxy_spans _ _ _ _ _ H2), (inxy_spans _ _ _ _ _ H3), Hx1, Hx2.
  assert (t <= y < b ↔ t <= y < m ∨ m <= y < b) as -> by lia. tauto.
Qed.

(** Two bands that differ are kept apart, and the list remains coalesced. *)
Lemma coalesced_keep lo A P tp bp out t b rest :
  bands lo A → (∀ r, r ∈ A → bottom r <= tp) → spans tp bp P → hsep P → lo <= tp → tp < bp → (P = [] → A = []) →
  (∀ r, r ∈ A ++ P → bottom r <= t) → spans t b out → hsep out → out ≠ [] → t < b → bands b rest →
  (bp = t → ¬ (length P = length out ∧ same_x P out = true)) →
  coalesced (A ++ P) → coalesced (out ++ rest) → coalesced ((A ++ P) ++ out ++ rest).
Proof.
  intros HA HAt HsP HhP Hlo Htbp HPn Hall Hso Hho Hne Htb Hrest Hdiff Hc1 Hc2.
  apply (coalesced_app lo t); try done.
  - apply (bands_app _ tp); [done..|]. by apply (bands_one _ tp bp).
  - apply (bands_cons _ _ t b); done.
  - intros p q Hp _ Hpt _ Hx.
    destruct P as [|p0 P']; [rewrite HPn in Hp by done; by apply elem_of_nil in Hp|].
    pose proof (HsP p0 ltac:(by left)) as [_ Hp0]. specialize (Hall p0 ltac:(apply elem_of_app; right; by left)).
    assert (bp = t) as -> by (apply elem_of_app in Hp as [Hp|Hp]; [specialize (HAt p Hp)|destruct (HsP p Hp)]; lia).
    apply Hdiff; [done|]. apply hsep_inj; [done..|]. intros x. specialize (Hx x).
    rewrite (inxy_band_above tp t), (inxy_band_below t b) in Hx by (done || lia). done.
Qed.

(** The band [P] extended down to [b] by the equal band [out]. *)
Lemma coalesced_merge lo A P P' tp out t b rest :
  bands lo A → (∀ r, r ∈ A → bottom r <= tp) → spans tp t P → hsep P → P ≠ [] → lo <= tp → tp < t →
  spans t b out → hsep out → out ≠ [] → t < b → bands b rest → spans tp b P' → hsep P' →
  (∀ x, inx P' x ↔ inx P x) → (∀ x, inx out x ↔ inx P x) →
  coalesced (A ++ P) → coalesced (out ++ rest) → coalesced (A ++ P' ++ rest).
Proof.
  intros HA HAt HsP HhP HPn Hlo Htp Hso Hho Hon Htb Hrest Hs' Hh' Hx' Hxo Hc1 Hc2.
  assert (bands tp P) as HbP by (by apply (bands_one _ tp t)).
  assert (bands tp P') as HbP' by (apply (bands_one _ tp b); [lia|lia|done..]).
  assert (∀ r, r ∈ P' → bottom r <= b) as HPb by (intros r Hr; destruct (Hs' r Hr); lia).
  assert (∀ r, r ∈ out → bottom r <= b) as Hob by (intros r Hr; destruct (Hso r Hr); lia).
  destruct P as [|p0 P]; [done|]. destruct out as [|o out]; [done|].
  apply (coalesced_app lo tp); try done.
  - apply (bands_app _ b); [done|lia|done..].
  - by apply (coalesced_upper lo tp A (p0 :: P)).
  - apply (coalesced_app tp b); try done; [by apply (coalesced_band tp b); [|lia]|by apply (coalesced_lower b (o :: out))|].
    intros _ q _ Hq _ Hqb Hx. pose proof (Hso o ltac:(by left)) as [_ Ho].
    apply (Hc2 o q); [by left|apply elem_of_app; by right|lia|]. intros x. specialize (Hx x). rewrite Hqb.
    rewrite (inxy_spans tp b) in Hx by done.
    rewrite (inxy_band_below t b), (inxy_app_lower b) by (done || lia). rewrite Hxo, <-Hx', <-Hx.
    intuition lia.
  - intros p q Hp _ Hpt _ Hx. pose proof (HsP p0 ltac:(by left)) as [Hp0 _].
    apply (Hc1 p p0); [apply elem_of_app; by left|apply elem_of_app; right; by left|lia|].
    intros x. specialize (Hx x). rewrite Hp0.
    rewrite (inxy_app_upper tp), (inxy_band_above tp t) by (done || lia).
    rewrite (inxy_band_below tp b) in Hx by (done || lia). by rewrite <-Hx'.
Qed.

(** What [coalesce_region] must give for the list [rs0]. *)
Definition coalesces (lo b : Z) (rs0 tail rest rs' : list rectangle) (k' : nat) : Prop :=
  (∀ x y, inxy rs' x y ↔ inxy rs0 x y) ∧ bands lo rs' ∧ (length rs' <= length rs0)%nat ∧
  (coalesced tail → coalesced rs') ∧ (rest = [] → staged lo b rs' k').

Lemma coalesces_keep lo hi A P tp bp out t b rest k' :
  bands lo A → (∀ r, r ∈ A → bottom r <= tp) → spans tp bp P → hsep P → lo <= tp → tp < bp → (P = [] → A = []) →
  coalesced (A ++ P) → (∀ r, r ∈ A ++ P → bottom r <= hi) → hi <= t → lo <= hi →
  spans t b out → hsep out → out ≠ [] → t < b → bands b rest →
  (bp = t → ¬ (length P = length out ∧ same_x P out = true)) → (rest = [] → k' = length (A ++ P)) →
  coalesces lo b ((A ++ P) ++ out ++ rest) (out ++ rest) rest ((A ++ P) ++ out ++ rest) k'.
Proof.
  intros HA HAt HsP HhP Hlo Htbp HPn HcP Hall Hhi Hlohi Hso Hho Hne Htb Hrest Hdiff Hk.
  assert (bands lo (A ++ P)) as HAP by (apply (bands_app _ tp); [done..|]; by apply (bands_one _ tp bp)).
  assert (∀ r, r ∈ A ++ P → bottom r <= t) as Hallt by (intros r Hr; specialize (Hall r Hr); lia).
  split_and!; [done| |done| |].
  - apply (bands_app _ t); [done|lia|done|by apply (bands_cons _ _ t b)].
  - by apply (coalesced_keep lo A P tp bp out t b).
  - intros ->. rewrite app_nil_r. exists (A ++ P), out, t, b. split_and!; try done; [by apply Hk|lia| |].
    + rewrite <-(app_nil_r out). apply (coalesced_keep lo A P tp bp out t b []); try done.
      rewrite app_nil_r. by apply (coalesced_band t b).
    + intros r [Hr|Hr]%elem_of_app; [specialize (Hallt r Hr); lia|]. destruct (Hso r Hr). lia.
Qed.

Lemma coalesces_merge lo A P tp out t b rest k' :
  bands lo A → (∀ r, r ∈ A → bottom r <= tp) → spans tp t P → hsep P → P ≠ [] → lo <= tp → tp < t →
  coalesced (A ++ P) → spans t b out → hsep out → out ≠ [] → t < b → bands b rest →
  length P = length out → same_x P out = true → (rest = [] → k' = length A) →
  coalesces lo b ((A ++ P) ++ out ++ rest) (out ++ rest) rest (A ++ extend_band P out ++ rest) k'.
Proof.
  intros HA HAt HsP HhP HPn Hlo Htp HcP Hso Hho Hon Htb Hrest Hlen Hx Hk.
  destruct (extend_band_ok tp t b P out) as (E1 & E2 & E3 & E4 & _); try done.
  assert (coalesced (out ++ rest) → coalesced (A ++ extend_band P out ++ rest)) as Hco.
  { by apply (coalesced_merge lo A P _ tp out t b). }
  assert (extend_band P out ≠ []) as Hen by (by destruct P, out).
  split_and!; [| | |done|].
  - intros x y. by apply (inxy_merged A _ rest _ _ x y tp t b).
  - apply (bands_app _ tp); [done..|]. apply (bands_cons _ _ tp b); [done|lia|lia|done..].
  - rewrite !length_app. pose proof (extend_band_length P out). lia.
  - intros ->. rewrite !app_nil_r in Hco. rewrite app_nil_r. exists A, (extend_band P out), tp, b.
    split_and!; try done; [by apply Hk|lia|by apply Hco, (coalesced_band t b)|].
    intros r [Hr|Hr]%elem_of_app; [specialize (HAt r Hr); lia|]. destruct (E1 r Hr). lia.
Qed.

Lemma coalesce_ok lo hi rs k out t b rest rs' k' :
  staged lo hi rs k → out ≠ [] → spans t b out → hsep out → hi <= t → t < b → lo <= hi → bands b rest →
  coalesce_region (rs ++ out ++ rest) k (length rs) = (rs', k') →
  coalesces lo b (rs ++ out ++ rest) (out ++ rest) rest rs' k'.
Proof.
  intros (A & P & tp & bp & -> & -> & HA & HAt & Hlo & Htbp & HsP & HhP & HPn & HcP & Hall)
    Hne Hso Hho Hhi Htb Hlohi Hrest Hc.
  destruct (coalesce_pieces A P out rest b t Hne Hso Htb Hrest) as (Hf & Hd & Hp & Ht).
  unfold coalesce_region in Hc. rewrite Hf, Hd, Hp, Ht in Hc. rewrite length_app in Hc.
  replace (length A + length P - length A)%nat with (length P) in Hc by lia.
  destruct (bool_decide _ && negb _) eqn:Hcond.
  2:{ simplify_eq. eapply coalesces_keep; try done; [|intros ->; by rewrite length_app].
      intros _ [Hlen _]. rewrite bool_decide_true in Hcond by done.
      destruct out; [done|]. by rewrite bool_decide_false in Hcond. }
  apply andb_true_iff in Hcond as [Hlen%bool_decide_eq_true _].
  destruct P as [|p P]; [by destruct out|]. destruct out as [|c out]; [done|].
  destruct (HsP p ltac:(by left)) as [_ Hpb]. destruct (Hso c ltac:(by left)) as [Hct _].
  destruct (Z.eqb_spec (bottom p) (top c)) as [Hpc|];
    [|injection Hc as <- <-; eapply coalesces_keep; try done; [lia|intros ->; by rewrite length_app]].
  assert (bp = t) as -> by lia.
  destruct (same_x (p :: P) (c :: out)) eqn:Hx;
    [|injection Hc as <- <-; eapply coalesces_keep; try done; [intros _ [_ ?]; congruence|intros ->; by rewrite length_app]].
  injection Hc as <- <-. eapply coalesces_merge; try done; by intros ->.
Qed.

(** The state of the region under construction. *)
Record built (ext : rectangle) (lo hi : Z) (reg : region) (k : nat) : Prop := {
  bt_staged : staged lo hi (rects reg) k;
  bt_sized : sized reg;
  bt_extents : extents reg = ext;
  bt_lo : lo <= hi;
}.

(** One band appended, then coalesced with the previous one. *)
Lemma coalesce_new_ok ext lo hi reg k out t b reg1 :
  built ext lo hi reg k → emitted reg out t b reg1 → hi <= t → t <= b → (out ≠ [] → t < b) →
  let '(reg2, k2) := coalesce_new reg1 k (length (rects reg)) in
  built ext lo b reg2 k2 ∧
  ∀ x y, inxy (rects reg2) x y ↔ inxy (rects reg) x y ∨ t <= y < b ∧ inx out x.
Proof.
  intros [Hst Hsz Hext Hlo] [A B C D E] Hhi Hle Htb. unfold coalesce_new.
  assert (∀ x y, inxy (rects reg1) x y ↔ inxy (rects reg) x y ∨ t <= y < b ∧ inx out x) as Hin.
  { intros x y. by rewrite A, inxy_app, (inxy_spans _ _ _ _ _ D). }
  destruct (bool_decide_reflect (length (rects reg1) = length (rects reg))) as [Heq|Hne].
  - assert (out = []) as ->. { rewrite A, length_app in Heq. destruct out; [done|simpl in Heq; lia]. }
    rewrite app_nil_r in A. split; [|done]. split; [|done|congruence|lia]. rewrite A.
    eapply staged_weaken; [done|lia].
  - destruct (coalesce_region (rects reg1) k (length (rects reg))) as [rs' k'] eqn:Hc.
    assert (out ≠ []) as Hon. { intros ->. apply Hne. by rewrite A, app_nil_r. }
    rewrite A, <-(app_nil_r out) in Hc.
    destruct (coalesce_ok lo hi (rects reg) k out t b [] rs' k') as (H1 & H2 & H3 & _ & H4); try done; [by apply Htb|constructor|].
    rewrite app_nil_r, <-A in H1, H3. split.
    + split; [by apply H4| |simpl; congruence|lia]. unfold sized, num_rects in *. simpl. destruct C. lia.
    + intros x y. simpl. by rewrite H1, Hin.
Qed.

Section sweep.
Context (overlap : overlap_func_t) (non1 non2 : option non_overlap_func_t).
Context (f : Prop → Prop → Prop).
Context (f_proper : Proper (iff ==> iff ==> iff) f).
Context (f_none : ¬ f False False).

(** [out] is what [P] says, on the lines from [t] to [b]. *)
Definition emits (m : AL region) (reg : region) (t b : Z) (P : Z → Prop) : Prop :=
  al m (λ reg', ∃ out, emitted reg out t b reg' ∧ ∀ x, inx out x ↔ P x).

Context (overlap_ok : ∀ reg r1 r2 t b, t < b → r1 ≠ [] → hsep r1 → hsep r2 → sized reg →
  (∀ q, q ∈ rects reg → bottom q <= t) →
  emits (overlap reg r1 r2 t b) reg t b (λ x, f (inx r1 x) (inx r2 x))).
Context (non1_ok : match non1 with
  | Some g => ∀ reg rs t b, hsep rs → sized reg → emits (g reg rs t b) reg t b (λ x, f (inx rs x) False)
  | None => ∀ P, ¬ f P False end).
Context (non2_ok : match non2 with
  | Some g => ∀ reg rs t b, hsep rs → sized reg → emits (g reg rs t b) reg t b (λ x, f False (inx rs x))
  | None => ∀ P, ¬ f False P end).

(** The part of a band above the other region. *)
Lemma call_non1_ok reg rs t b : hsep rs → sized reg → t <= b →
  al (call_non_overlap non1 reg rs t b) (λ reg', ∃ out, emitted reg out t b reg' ∧
    (out ≠ [] → t < b) ∧ ∀ x, t < b → inx out x ↔ f (inx rs x) False).
Proof using non1_ok.
  intros Hh Hs Htb. unfold call_non_overlap. destruct non1 as [g|].
  - destruct (Z.eqb_spec t b).
    + apply al_ret_ok. exists []. split_and!; [by apply emitted_nil|done|lia].
    + eapply al_mono; [by apply non1_ok|]. intros reg' (out & ? & ?).
      exists out. split_and!; [done|lia|done].
  - apply al_ret_ok. exists []. split_and!; [by apply emitted_nil|done|]. intros x _. rewrite inx_nil.
    pose proof (non1_ok (inx rs x)). tauto.
Qed.

Lemma call_non2_ok reg rs t b : hsep rs → sized reg → t <= b →
  al (call_non_overlap non2 reg rs t b) (λ reg', ∃ out, emitted reg out t b reg' ∧
    (out ≠ [] → t < b) ∧ ∀ x, t < b → inx out x ↔ f False (inx rs x)).
Proof using non2_ok.
  intros Hh Hs Htb. unfold call_non_overlap. destruct non2 as [g|].
  - destruct (Z.eqb_spec t b).
    + apply al_ret_ok. exists []. split_and!; [by apply emitted_nil|done|lia].
    + eapply al_mono; [by apply non2_ok|]. intros reg' (out & ? & ?).
      exists out. split_and!; [done|lia|done].
  - apply al_ret_ok. exists []. split_and!; [by apply emitted_nil|done|]. intros x _. rewrite inx_nil.
    pose proof (non2_ok (inx rs x)). tauto.
Qed.

(** A list of bands seen from its first band, on the lines before the second. *)
Lemma inxy_first lo r rs x y : bands lo (r :: rs) → y < bottom r →
  (inxy (r :: rs) x y ↔ top r <= y ∧ inx (first_band (r :: rs)) x).
Proof.
  intros Hb Hy. destruct (bands_inv _ _ _ Hb) as (Heq & _ & _ & _ & Hs & _ & Hrest).
  rewrite Heq at 1. rewrite inxy_app, (inxy_spans _ _ _ _ _ Hs). split.
  - intros [[[??] ?]|Hr]; [done|]. pose proof (inxy_above _ _ _ _ Hrest Hr). lia.
  - intros [??]. left. split; [lia|done].
Qed.

Lemma inxy_rest lo r rs x y : bands lo (r :: rs) → bottom r <= y →
  (inxy (r :: rs) x y ↔ inxy (after_band (r :: rs)) x y).
Proof.
  intros Hb Hy. destruct (bands_inv _ _ _ Hb) as (Heq & _ & _ & _ & Hs & _ & Hrest).
  rewrite Heq at 1. rewrite inxy_app, (inxy_spans _ _ _ _ _ Hs). intuition lia.
Qed.

Definition tops (r1 r2 : rectangle) : Z := if top r1 <? top r2 then top r2 else top r1.

(** The lines above the overlap of the two first bands. *)
Lemma non_overlap_ok reg r1 r1s r2 r2s l1 l2 ybot :
  bands l1 (r1 :: r1s) → bands l2 (r2 :: r2s) → sized reg →
  ybot < bottom r1 → ybot < bottom r2 → ybot <= Z.max (top r1) (top r2) →
  let w := Z.min (tops r1 r2) (Z.min (bottom r1) (bottom r2)) in
  al (if top r1 <? top r2 then
        call_non_overlap non1 reg (first_band (r1 :: r1s)) (Z.max (top r1) ybot) (Z.min (bottom r1) (top r2))
      else if top r2 <? top r1 then
        call_non_overlap non2 reg (first_band (r2 :: r2s)) (Z.max (top r2) ybot) (Z.min (bottom r2) (top r1))
      else al_ret reg)
    (λ reg', ∃ out u, emitted reg out u w reg' ∧ ybot <= u <= w ∧ (out ≠ [] → u < w) ∧
       ∀ x y, ybot <= y < w → u <= y ∧ inx out x ↔ f (inxy (r1 :: r1s) x y) (inxy (r2 :: r2s) x y)).
Proof using f_proper f_none non1_ok non2_ok.
  intros Hb1 Hb2 Hs Hy1 Hy2 Hyt w. unfold tops in w.
  destruct (bands_inv _ _ _ Hb1) as (_ & _ & _ & Ht1 & _ & Hh1 & _).
  destruct (bands_inv _ _ _ Hb2) as (_ & _ & _ & Ht2 & _ & Hh2 & _).
  assert (Habove : ∀ r rs l x y, bands l (r :: rs) → y < top r → (inxy (r :: rs) x y ↔ False)).
  { intros r rs l x y Hb Hy. rewrite (inxy_first l) by (try done; pose proof (bands_above _ _ r Hb ltac:(by left)); lia).
    lia. }
  destruct (Z.ltb_spec (top r1) (top r2)); [|destruct (Z.ltb_spec (top r2) (top r1))].
  - assert (w = Z.min (bottom r1) (top r2)) as -> by lia.
    eapply al_mono; [apply call_non1_ok; [done|done|lia]|]. intros reg' (out & Hem & Hlt & Hx).
    exists out, (Z.max (top r1) ybot). split_and!; [done|lia|lia|done|]. intros x y Hy.
    rewrite (Habove r2 r2s l2) by (done || lia). rewrite (inxy_first l1) by (done || lia).
    destruct (decide (top r1 <= y)) as [Hle|Hgt].
    + rewrite Hx by lia. assert (top r1 <= y ∧ inx (first_band (r1 :: r1s)) x ↔ inx (first_band (r1 :: r1s)) x)
        as -> by tauto. intuition lia.
    + assert (top r1 <= y ∧ inx (first_band (r1 :: r1s)) x ↔ False) as -> by tauto. intuition lia.
  - assert (w = Z.min (bottom r2) (top r1)) as -> by lia.
    eapply al_mono; [apply call_non2_ok; [done|done|lia]|]. intros reg' (out & Hem & Hlt & Hx).
    exists out, (Z.max (top r2) ybot). split_and!; [done|lia|lia|done|]. intros x y Hy.
    rewrite (Habove r1 r1s l1) by (done || lia). rewrite (inxy_first l2) by (done || lia).
    destruct (decide (top r2 <= y)) as [Hle|Hgt].
    + rewrite Hx by lia. assert (top r2 <= y ∧ inx (first_band (r2 :: r2s)) x ↔ inx (first_band (r2 :: r2s)) x)
        as -> by tauto. intuition lia.
    + assert (top r2 <= y ∧ inx (first_band (r2 :: r2s)) x ↔ False) as -> by tauto. intuition lia.
  - apply al_ret_ok. exists [], w. split_and!; [by apply emitted_nil|lia|lia|done|]. intros x y Hy.
    rewrite (Habove r1 r1s l1), (Habove r2 r2s l2) by (done || lia). intuition lia.
Qed.

(** The lines where the two first bands overlap. *)
Lemma overlap_band_ok reg r1 r1s r2 r2s l1 l2 :
  bands l1 (r1 :: r1s) → bands l2 (r2 :: r2s) → sized reg →
  let ytop := tops r1 r2 in let ybot := Z.min (bottom r1) (bottom r2) in
  (∀ q, q ∈ rects reg → bottom q <= Z.min ytop ybot) →
  al (if ytop <? ybot then overlap reg (first_band (r1 :: r1s)) (first_band (r2 :: r2s)) ytop ybot
      else al_ret reg)
    (λ reg', ∃ out, emitted reg out (Z.min ytop ybot) ybot reg' ∧ (out ≠ [] → Z.min ytop ybot < ybot) ∧
       ∀ x y, Z.min ytop ybot <= y < ybot → inx out x ↔ f (inxy (r1 :: r1s) x y) (inxy (r2 :: r2s) x y)).
Proof using f_proper overlap_ok.
  intros Hb1 Hb2 Hs ytop ybot Hbot.
  destruct (bands_inv _ _ _ Hb1) as (_ & Hn1 & _ & Ht1 & _ & Hh1 & _).
  destruct (bands_inv _ _ _ Hb2) as (_ & _ & _ & Ht2 & _ & Hh2 & _).
  destruct (Z.ltb_spec ytop ybot).
  - rewrite Z.min_l in * by lia. eapply al_mono; [by apply overlap_ok|].
    intros reg' (out & Hem & Hx). exists out. split_and!; [done|lia|]. intros x y Hy.
    rewrite Hx, (inxy_first l1), (inxy_first l2) by (done || lia).
    assert (top r1 <= y ∧ top r2 <= y) as [??] by (unfold ytop, tops in *; destruct (top r1 <? top r2) eqn:E; lia).
    apply f_proper; tauto.
  - rewrite Z.min_r in * by lia. apply al_ret_ok. exists []. split_and!; [by apply emitted_nil|done|]. lia.
Qed.

(** The invariant of the loop: above the line [ybot] the new region is
    complete, below it nothing has been emitted and the remaining bands of the
    two regions are [r1s] and [r2s]. *)
Record sweep_inv (R1 R2 : list rectangle) (ext : rectangle) (lo : Z) (reg : region)
    (r1s r2s : list rectangle) (ybot : Z) (k : nat) : Prop := {
  si_built : built ext lo ybot reg k;
  si_bands1 : ∃ l, bands l r1s;
  si_bands2 : ∃ l, bands l r2s;
  si_below1 : ∀ r, r ∈ r1s → ybot < bottom r;
  si_below2 : ∀ r, r ∈ r2s → ybot < bottom r;
  si_top : ∀ r1 l1 r2 l2, r1s = r1 :: l1 → r2s = r2 :: l2 → ybot <= Z.max (top r1) (top r2);
  si_done : ∀ x y, y < ybot → inxy (rects reg) x y ↔ f (inxy R1 x y) (inxy R2 x y);
  si_rest1 : ∀ x y, ybot <= y → inxy R1 x y ↔ inxy r1s x y;
  si_rest2 : ∀ x y, ybot <= y → inxy R2 x y ↔ inxy r2s x y;
  si_coalesced1 : coalesced R1 → coalesced r1s;
  si_coalesced2 : coalesced R2 → coalesced r2s;
}.

(** Leaving a band behind when its bottom line is reached. *)
Lemma advance_ok l r rs ybot :
  bands l (r :: rs) → ybot <= bottom r →
  let rs' := if bottom r =? ybot then after_band (r :: rs) else r :: rs in
  (∃ l, bands l rs') ∧ (∀ q, q ∈ rs' → ybot < bottom q) ∧
  (∀ x y, ybot <= y → inxy (r :: rs) x y ↔ inxy rs' x y) ∧
  (length rs' <= length (r :: rs))%nat ∧ (coalesced (r :: rs) → coalesced rs') ∧
  (bottom r = ybot → (length rs' < length (r :: rs))%nat ∧ ∀ q, q ∈ rs' → ybot <= top q).
Proof.
  intros Hb Hy. destruct (bands_inv _ _ _ Hb) as (Heq & Hn & _ & Ht & Hs & _ & Hrest).
  destruct (Z.eqb_spec (bottom r) ybot) as [Heb|Hne]; cbv zeta.
  - assert (length (after_band (r :: rs)) < length (r :: rs))%nat as Hlen.
    { rewrite Heq at 2. rewrite length_app. destruct (first_band (r :: rs)); [done|simpl; lia]. }
    split_and!; [eauto| | |lia| |].
    + intros q Hq. destruct (bands_above _ _ q Hrest Hq). lia.
    + intros x y Hxy. apply (inxy_rest l); [done|lia].
    + rewrite Heq at 1. apply (coalesced_lower (bottom r)); [|done]. intros q Hq. destruct (Hs q Hq). lia.
    + intros _. split; [done|]. intros q Hq. destruct (bands_above _ _ q Hrest Hq). lia.
  - split_and!; [eauto| |done|lia|done|lia]. intros q Hq. rewrite Heq in Hq. apply elem_of_app in Hq as [Hq|Hq].
    + destruct (Hs q Hq). lia.
    + destruct (bands_above _ _ q Hrest Hq). lia.
Qed.

Lemma staged_coalesced lo hi rs k : staged lo hi rs k → coalesced rs.
Proof. intros (A & P & t & b & _ & _ & _ & _ & _ & _ & _ & _ & _ & Hc & _). apply Hc. Qed.

Lemma staged_bottom lo hi rs k q : staged lo hi rs k → q ∈ rs → bottom q <= hi.
Proof. intros (A & P & t & b & _ & _ & _ & _ & _ & _ & _ & _ & _ & _ & Hall). apply Hall. Qed.

(** The point set after both parts of an iteration. *)
Lemma sweep_points R1 R2 ext lo reg r1 r1s r2 r2s ybot k reg1 reg2 out1 out2 u :
  let ybot' := Z.min (bottom r1) (bottom r2) in let w := Z.min (tops r1 r2) ybot' in
  sweep_inv R1 R2 ext lo reg (r1 :: r1s) (r2 :: r2s) ybot k →
  ybot <= u <= w →
  (∀ x y, inxy (rects reg1) x y ↔ inxy (rects reg) x y ∨ u <= y < w ∧ inx out1 x) →
  (∀ x y, inxy (rects reg2) x y ↔ inxy (rects reg1) x y ∨ w <= y < ybot' ∧ inx out2 x) →
  (∀ x y, ybot <= y < w → u <= y ∧ inx out1 x ↔ f (inxy (r1 :: r1s) x y) (inxy (r2 :: r2s) x y)) →
  (∀ x y, w <= y < ybot' → inx out2 x ↔ f (inxy (r1 :: r1s) x y) (inxy (r2 :: r2s) x y)) →
  ∀ x y, y < ybot' → inxy (rects reg2) x y ↔ f (inxy R1 x y) (inxy R2 x y).
Proof using f_proper.
  intros ybot' w Hi Hu H1 H2 Hx1 Hx2 x y Hy.
  assert (Hreg : inxy (rects reg) x y → y < ybot).
  { intros (q & Hq & _ & Hqy). pose proof (staged_bottom _ _ _ _ q (bt_staged _ _ _ _ _ (si_built _ _ _ _ _ _ _ _ _ Hi)) Hq). lia. }
  rewrite H2, H1. destruct (decide (y < ybot)) as [Hlt|Hge].
  - rewrite (si_done _ _ _ _ _ _ _ _ _ Hi) by done. intuition lia.
  - rewrite (si_rest1 _ _ _ _ _ _ _ _ _ Hi), (si_rest2 _ _ _ _ _ _ _ _ _ Hi) by lia.
    destruct (decide (y < w)).
    + rewrite <-Hx1 by lia. intuition lia.
    + rewrite <-Hx2 by lia. intuition lia.
Qed.

Lemma region_op_loop_ok R1 R2 ext lo fuel reg r1s r2s ybot k :
  sweep_inv R1 R2 ext lo reg r1s r2s ybot k → (length r1s + length r2s <= fuel)%nat →
  al (region_op_loop overlap non1 non2 fuel reg r1s r2s ybot k) (λ res,
    let '(reg', r1s', r2s', ybot', k') := res in
    sweep_inv R1 R2 ext lo reg' r1s' r2s' ybot' k' ∧ (r1s' = [] ∨ r2s' = [])).
Proof using All.
  revert reg r1s r2s ybot k. induction fuel as [|fuel IH]; intros reg r1s r2s ybot k Hi Hf;
    (destruct r1s as [|r1 r1s]; [apply al_ret_ok; auto|]);
    (destruct r2s as [|r2 r2s]; [apply al_ret_ok; auto|]); [simpl in Hf; lia|].
  cbn [region_op_loop]. pose proof Hi as [Hbt [l1 Hb1] [l2 Hb2] Hy1 Hy2 Htop Hdone Hr1 Hr2 Hk1 Hk2].
  specialize (Htop r1 r1s r2 r2s eq_refl eq_refl).
  pose proof (Hy1 r1 ltac:(by left)) as Hyb1. pose proof (Hy2 r2 ltac:(by left)) as Hyb2.
  eapply al_bind_ok; [apply (non_overlap_ok reg r1 r1s r2 r2s l1 l2 ybot); try done; apply Hbt|].
  intros reg1 (out1 & u & Hem1 & Hu & Hlt1 & Hx1). fold (tops r1 r2).
  set (ybot' := Z.min (bottom r1) (bottom r2)) in *. set (w := Z.min (tops r1 r2) ybot') in *.
  pose proof (coalesce_new_ok ext lo ybot reg k out1 u w reg1 Hbt Hem1 ltac:(lia) ltac:(lia) Hlt1) as Hc1.
  destruct (coalesce_new reg1 k (length (rects reg))) as [reg2 k2]. destruct Hc1 as [Hbt2 Hin2].
  eapply al_bind_ok; [apply (overlap_band_ok reg2 r1 r1s r2 r2s l1 l2); try done; [apply Hbt2|]|].
  { intros q Hq. by apply (staged_bottom _ _ _ _ q (bt_staged _ _ _ _ _ Hbt2)). }
  intros reg3 (out2 & Hem2 & Hlt2 & Hx2). fold ybot' w in Hem2, Hlt2, Hx2.
  pose proof (coalesce_new_ok ext lo w reg2 k2 out2 w ybot' reg3 Hbt2 Hem2 ltac:(lia) ltac:(lia) Hlt2) as Hc2.
  destruct (coalesce_new reg3 k2 (length (rects reg2))) as [reg4 k4]. destruct Hc2 as [Hbt4 Hin4].
  destruct (advance_ok l1 r1 r1s ybot' Hb1 ltac:(lia)) as (Ha1 & Ha2 & Ha3 & Ha4 & Hka & Ha5).
  destruct (advance_ok l2 r2 r2s ybot' Hb2 ltac:(lia)) as (Hc1 & Hc2 & Hc3 & Hc4 & Hkc & Hc5).
  apply IH.
  - split; try done.
    + intros q1 t1 q2 t2 Hq1 Hq2. destruct (Z.min_spec (bottom r1) (bottom r2)) as [[_ Hmin]|[_ Hmin]].
      * destruct Ha5 as [_ Ha5]; [done|]. specialize (Ha5 q1). rewrite Hq1 in Ha5. specialize (Ha5 ltac:(by left)). lia.
      * destruct Hc5 as [_ Hc5]; [done|]. specialize (Hc5 q2). rewrite Hq2 in Hc5. specialize (Hc5 ltac:(by left)). lia.
    + eapply (sweep_points R1 R2 ext lo reg r1 r1s r2 r2s ybot k reg2 reg4 out1 out2 u); try done.
    + intros x y Hy. rewrite Hr1 by lia. by apply Ha3.
    + intros x y Hy. rewrite Hr2 by lia. by apply Hc3.
    + auto.
    + auto.
  - destruct (Z.min_spec (bottom r1) (bottom r2)) as [[_ Hmin]|[_ Hmin]].
    + destruct Ha5 as [Ha5 _]; [done|]. simpl in *. lia.
    + destruct Hc5 as [Hc5 _]; [done|]. simpl in *. lia.
Qed.

(** The rectangle [q] ends where one of [rs] does, and begins where one does or
    at the line [ybot]. *)
Definition edges (ybot : Z) (rs : list rectangle) (q : rectangle) : Prop :=
  (∃ r, r ∈ rs ∧ bottom r = bottom q) ∧ (ybot < top q → ∃ r, r ∈ rs ∧ top r = top q).

Lemma edges_app ybot l k q : edges ybot k q → edges ybot (l ++ k) q.
Proof.
  intros [(r & Hr & Hb) Ht]. split; [exists r; split; [apply elem_of_app; by right|done]|].
  intros Hlt. destruct (Ht Hlt) as (r' & Hr' & ?). exists r'. split; [apply elem_of_app; by right|done].
Qed.

(** The lines of a coalesced list from [ybot] on. *)
Lemma coalesced_cut ybot rs out : coalesced rs → bands ybot out → (∀ q, q ∈ out → edges ybot rs q) →
  (∀ x y, inxy out x y ↔ ybot <= y ∧ inxy rs x y) → coalesced out.
Proof.
  intros Hc Hb He Hx p q Hp Hq Heq Hrows. destruct (bands_above _ _ _ Hb Hp).
  destruct (He p Hp) as [(p' & Hp' & Hpb) _]. destruct (He q Hq) as [_ Hqt].
  destruct Hqt as (q' & Hq' & Hqt); [lia|]. apply (Hc p' q'); [done..|lia|].
  intros x. specialize (Hrows x). rewrite !Hx in Hrows. rewrite Hqt.
  assert (ybot <= top q - 1 ∧ ybot <= top q) as [??] by lia. tauto.
Qed.

(** The bands that remain in one region, each emitted as [h] says. *)
Lemma remaining_ok (g : non_overlap_func_t) (h : Prop → Prop) ybot :
  Proper (iff ==> iff) h → ¬ h False →
  (∀ reg rs t b, hsep rs → sized reg → emits (g reg rs t b) reg t b (λ x, h (inx rs x))) →
  ∀ fuel reg rs lo, bands lo rs → (∀ r, r ∈ rs → ybot < bottom r) → sized reg → (length rs <= fuel)%nat →
  al (remaining_bands fuel g reg rs ybot) (λ reg', ∃ out, rects reg' = rects reg ++ out ∧
    extents reg' = extents reg ∧ sized reg' ∧ bands (Z.max lo ybot) out ∧
    (∀ q, q ∈ out → edges ybot rs q) ∧
    ∀ x y, inxy out x y ↔ ybot <= y ∧ h (inxy rs x y)).
Proof.
  intros Hp Hh Hg. induction fuel as [|fuel IH]; intros reg rs lo Hb Hy Hs Hf;
    (destruct rs as [|r rs]; [apply al_ret_ok; exists []; split_and!;
      [by rewrite app_nil_r|done|done|constructor|intros q Hq; by apply elem_of_nil in Hq|
       intros x y; rewrite inxy_nil; tauto]|]); [simpl in Hf; lia|].
  cbn [remaining_bands]. destruct (bands_inv _ _ _ Hb) as (Heq & Hn & Hlo & Ht & Hsp & Hhs & Hrest).
  pose proof (Hy r ltac:(by left)) as Hyr.
  eapply al_bind_ok; [by apply Hg|]. intros reg1 (o1 & [A B C D E] & Hx1).
  eapply al_mono; [apply (IH reg1 (after_band (r :: rs)) (bottom r)); try done|].
  { intros q Hq. apply Hy. rewrite Heq. apply elem_of_app. by right. }
  { rewrite Heq, length_app in Hf. destruct (first_band (r :: rs)); [done|]. simpl in Hf. lia. }
  intros reg' (out & Hr' & He' & Hs' & Hbo & Heo & Hxo). exists (o1 ++ out). split_and!.
  - by rewrite Hr', A, <-app_assoc.
  - congruence.
  - done.
  - rewrite (Z.max_l (bottom r)) in Hbo by lia. apply (bands_app _ (bottom r)); try done; [|lia|].
    + apply (bands_one _ (Z.max (top r) ybot) (bottom r)); [lia|lia|done..].
    + intros q Hq. destruct (D q Hq). lia.
  - intros q [Hq|Hq]%elem_of_app; [|rewrite Heq; apply edges_app; auto].
    destruct (D q Hq). split; [exists r; split; [by left|lia]|]. intros ?. exists r. split; [by left|lia].
  - intros x y. rewrite inxy_app, (inxy_spans _ _ _ _ _ D), Hx1, Hxo.
    destruct (decide (y < bottom r)).
    + rewrite (inxy_first lo) by done.
      assert (inxy (after_band (r :: rs)) x y ↔ False) as ->.
      { split; [|done]. intros Hr. pose proof (inxy_above _ _ _ _ Hrest Hr). lia. }
      destruct (decide (top r <= y)).
      * assert (top r <= y ∧ inx (first_band (r :: rs)) x ↔ inx (first_band (r :: rs)) x) as -> by tauto.
        intuition lia.
      * assert (top r <= y ∧ inx (first_band (r :: rs)) x ↔ False) as -> by tauto. intuition lia.
    + rewrite (inxy_rest lo) by (done || lia). intuition lia.
Qed.

Context (non1_copies : non1 ≠ None → ∀ P, f P False ↔ P).
Context (non2_copies : non2 ≠ None → ∀ P, f False P ↔ P).

(** The tail of [region_op]: whatever remains of either region. *)
Lemma finish_bands_ok R1 R2 ext lo reg r1s r2s ybot k :
  sweep_inv R1 R2 ext lo reg r1s r2s ybot k → r1s = [] ∨ r2s = [] →
  al (finish_bands non1 non2 reg r1s r2s ybot) (λ reg', ∃ out, rects reg' = rects reg ++ out ∧
    extents reg' = extents reg ∧ sized reg' ∧ bands ybot out ∧ (coalesced R1 → coalesced R2 → coalesced out) ∧
    ∀ x y, inxy out x y ↔ ybot <= y ∧ f (inxy R1 x y) (inxy R2 x y)).
Proof using All.
  intros [Hbt [l1 Hb1] [l2 Hb2] Hy1 Hy2 _ _ Hr1 Hr2 Hk1 Hk2] Hor. pose proof (bt_sized _ _ _ _ _ Hbt) as Hs.
  assert (Hnone : (∀ x y, ybot <= y → ¬ f (inxy R1 x y) (inxy R2 x y)) →
    al (al_ret reg) (λ reg', ∃ out, rects reg' = rects reg ++ out ∧ extents reg' = extents reg ∧ sized reg' ∧
      bands ybot out ∧ (coalesced R1 → coalesced R2 → coalesced out) ∧
      ∀ x y, inxy out x y ↔ ybot <= y ∧ f (inxy R1 x y) (inxy R2 x y))).
  { intros Hn. apply al_ret_ok. exists [].
    split_and!; [by rewrite app_nil_r|done|done|constructor|intros; apply coalesced_nil|].
    intros x y. rewrite inxy_nil. specialize (Hn x y). tauto. }
  assert (∀ x y, ybot <= y → f (inxy R1 x y) (inxy R2 x y) ↔ f (inxy r1s x y) (inxy r2s x y)) as Hf.
  { intros x y Hy. by rewrite Hr1, Hr2. }
  unfold finish_bands. destruct r1s as [|r1 r1s].
  - destruct r2s as [|r2 r2s].
    { apply Hnone. intros x y Hy. rewrite Hf, !inxy_nil by done. done. }
    destruct non2 as [g|]; [|apply Hnone; intros x y Hy; rewrite Hf, inxy_nil by done; apply non2_ok].
    eapply al_mono; [apply (remaining_ok g (λ P, f False P) ybot) with (lo := l2); try done|].
    { intros P Q HPQ. by rewrite HPQ. }
    intros reg' (out & ? & ? & ? & Hbo & He & Hx).
    assert (bands ybot out) by (eapply bands_weaken; [done|lia]). exists out. split_and!; try done.
    + intros Hc1 Hc2. apply (coalesced_cut ybot (r2 :: r2s)); [auto..|]. intros x y. rewrite Hx. by rewrite non2_copies.
    + intros x y. rewrite Hx. split; intros [Hy HH]; (split; [done|]); [rewrite Hf, inxy_nil by done|rewrite Hf, inxy_nil in HH by done]; done.
  - destruct Hor as [|Hor]; [done|]. subst r2s.
    destruct non1 as [g|]; [|apply Hnone; intros x y Hy; rewrite Hf, inxy_nil by done; apply non1_ok].
    eapply al_mono; [apply (remaining_ok g (λ P, f P False) ybot) with (lo := l1); try done|].
    { intros P Q HPQ. by rewrite HPQ. }
    intros reg' (out & ? & ? & ? & Hbo & He & Hx).
    assert (bands ybot out) by (eapply bands_weaken; [done|lia]). exists out. split_and!; try done.
    + intros Hc1 Hc2. apply (coalesced_cut ybot (r1 :: r1s)); [auto..|]. intros x y. rewrite Hx. by rewrite non1_copies.
    + intros x y. rewrite Hx. split; intros [Hy HH]; (split; [done|]); [rewrite Hf, inxy_nil by done|rewrite Hf, inxy_nil in HH by done]; done.
Qed.

Lemma shrink_region_ok reg : sized reg →
  al (shrink_region reg) (λ reg', rects reg' = rects reg ∧ extents reg' = extents reg ∧ sized reg').
Proof.
  intros Hs. unfold shrink_region. destruct (_ && _); [|by apply al_ret_ok].
  eapply al_bind_ok; [by apply (al_try_ok (λ _, True))|]. intros [] _; apply al_ret_ok; [|done].
  split_and!; try done. unfold sized, num_rects, RGN_DEFAULT_RECTS. simpl. lia.
Qed.

Lemma sweep_start reg1 reg2 ext size0 ybot l1 l2 :
  rects reg1 ≠ [] → rects reg2 ≠ [] → bands l1 (rects reg1) → bands l2 (rects reg2) → 0 < size0 →
  ybot = Z.min (head_top (rects reg1)) (head_top (rects reg2)) →
  sweep_inv (rects reg1) (rects reg2) ext ybot (Region size0 [] ext) (rects reg1) (rects reg2) ybot 0.
Proof using f_proper f_none.
  intros Hn1 Hn2 Hb1 Hb2 Hsz ->.
  assert (∀ rs l, bands l rs → rs ≠ [] → bands (head_top rs) rs) as Hhead.
  { intros [|r rs] l Hb Hn; [done|]. apply validate_bands. by eapply bands_validate. }
  apply Hhead in Hb1; [|done]. apply Hhead in Hb2; [|done].
  split; eauto.
  - split; simpl; [apply staged_start|unfold sized, num_rects; simpl; lia|done|lia].
  - intros r Hr. destruct (bands_above _ _ r Hb1 Hr). lia.
  - intros r Hr. destruct (bands_above _ _ r Hb2 Hr). lia.
  - intros r1 t1 r2 t2 -> ->. simpl. lia.
  - intros x y Hy. simpl. rewrite inxy_nil.
    assert (inxy (rects reg1) x y ↔ False) as ->.
    { split; [|done]. intros Hr. pose proof (inxy_above _ _ _ _ Hb1 Hr). lia. }
    assert (inxy (rects reg2) x y ↔ False) as ->; [|tauto].
    split; [|done]. intros Hr. pose proof (inxy_above _ _ _ _ Hb2 Hr). lia.
Qed.

(** [region_op] computes [f] point by point; its result is properly banded, and
    coalesced if its arguments are. *)
Lemma region_op_ok ext reg1 reg2 l1 l2 :
  rects reg1 ≠ [] → rects reg2 ≠ [] → bands l1 (rects reg1) → bands l2 (rects reg2) →
  top (extents reg1) = head_top (rects reg1) → top (extents reg2) = head_top (rects reg2) →
  al (region_op overlap non1 non2 ext reg1 reg2) (λ reg', sized reg' ∧ (∃ lo, bands lo (rects reg')) ∧
    (coalesced (rects reg1) → coalesced (rects reg2) → coalesced (rects reg')) ∧
    ∀ x y, inxy (rects reg') x y ↔ f (inxy (rects reg1) x y) (inxy (rects reg2) x y)).
Proof using All.
  intros Hn1 Hn2 Hb1 Hb2 Ht1 Ht2. unfold region_op.
  eapply al_bind_ok; [by apply (al_alloc_ok (λ _, True))|]. intros _ _. cbv zeta.
  set (ybot := if _ <? _ then _ else _).
  assert (ybot = Z.min (head_top (rects reg1)) (head_top (rects reg2))) as Hy.
  { unfold ybot. rewrite Ht1, Ht2. destruct (Z.ltb_spec (head_top (rects reg1)) (head_top (rects reg2))); lia. }
  eapply al_bind_ok.
  { apply (region_op_loop_ok (rects reg1) (rects reg2) ext ybot); [|lia].
    eapply sweep_start; try done. unfold num_rects. destruct (rects reg1); [done|]. simpl. lia. }
  intros [[[[reg3 r1s] r2s] yb] k] [Hi Hor].
  eapply al_bind_ok; [by eapply finish_bands_ok|]. intros reg4 (out & Hr4 & He4 & Hs4 & Hbo & Hco & Hx4).
  assert (∀ x y, inxy (rects reg4) x y ↔ f (inxy (rects reg1) x y) (inxy (rects reg2) x y)) as Hpt.
  { intros x y. rewrite Hr4, inxy_app, Hx4. destruct (decide (y < yb)).
    - rewrite (si_done _ _ _ _ _ _ _ _ _ Hi) by done. intuition lia.
    - assert (inxy (rects reg3) x y ↔ False) as ->; [|intuition lia]. split; [|done].
      intros (q & Hq & _ & Hqy). pose proof (staged_bottom _ _ _ _ q (bt_staged _ _ _ _ _ (si_built _ _ _ _ _ _ _ _ _ Hi)) Hq). lia. }
  pose proof (si_built _ _ _ _ _ _ _ _ _ Hi) as [Hst Hsz Hex Hlo].
  assert (sized (fst (coalesce_new reg4 k (length (rects reg3)))) ∧
          (∃ lo, bands lo (rects (fst (coalesce_new reg4 k (length (rects reg3)))))) ∧
          (coalesced out → coalesced (rects (fst (coalesce_new reg4 k (length (rects reg3)))))) ∧
          ∀ x y, inxy (rects (fst (coalesce_new reg4 k (length (rects reg3))))) x y ↔ inxy (rects reg4) x y)
    as (Hs5 & Hb5 & Hc5 & Hx5).
  { unfold coalesce_new. destruct (bool_decide_reflect (length (rects reg4) = length (rects reg3))) as [Heq|Hne]; simpl.
    - assert (out = []) as -> by (rewrite Hr4, length_app in Heq; destruct out; [done|simpl in Heq; lia]).
      rewrite app_nil_r in Hr4. rewrite Hr4.
      split_and!; [done|exists ybot; by eapply staged_bands|intros _; by eapply staged_coalesced|done].
    - destruct out as [|o out]; [rewrite app_nil_r in Hr4; congruence|].
      destruct (bands_inv _ _ _ Hbo) as (Heq & Hnn & Hlo' & Htb & Hsp & Hhs & Hrest).
      destruct (coalesce_region (rects reg4) k (length (rects reg3))) as [rs' k'] eqn:Hc. simpl.
      rewrite Hr4, Heq in Hc.
      destruct (coalesce_ok ybot yb (rects reg3) k (first_band (o :: out)) (top o) (bottom o)
                  (after_band (o :: out)) rs' k') as (H1 & H2 & H3 & H4 & _); try done.
      rewrite <-Heq in H4. rewrite <-Heq, <-Hr4 in H1, H3. split_and!; [|eauto|done|done].
      unfold sized, num_rects in *. simpl. destruct Hs4. lia. }
  eapply al_mono; [by apply shrink_region_ok|]. intros reg6 (Hr6 & He6 & Hs6).
  split_and!; [done|by rewrite Hr6|rewrite Hr6; auto|]. intros x y. by rewrite Hr6, Hx5.
Qed.
End sweep.
