(* ===== verification/RegionThms.v ===== *)
(** * Theorems on regions

    The set operations of [Region.v] compute the set operations on points, keep
    regions well formed, and fail only when memory runs out. *)

From stdpp Require Import base list.
From S2P Require Import Prelude Region RegionInv RegionOps.

Open Scope Z_scope.
Open Scope region_scope.

(** ** Well-formed regions *)

(** [e] is the bounding box of the points of [rs]. *)
Definition bbox (rs : list rectangle) (e : rectangle) : Prop :=
  (∀ x y, inxy rs x y → left e <= x < right e ∧ top e <= y < bottom e) ∧
  (∃ y, inxy rs (left e) y) ∧ (∃ y, inxy rs (right e - 1) y) ∧
  (∃ x, inxy rs x (top e)) ∧ (∃ x, inxy rs x (bottom e - 1)).

Record region_ok (reg : region) : Prop := {
  rg_valid : validate_rectangles (rects reg) = true;
  rg_sized : sized reg;
  rg_empty : rects reg = [] → extents reg = empty_rect;
  rg_extents : rects reg ≠ [] → bbox (rects reg) (extents reg);
}.

(** The points of a region. *)
Definition points (reg : region) (x y : Z) : Prop := inxy (rects reg) x y.

(** A bounding box only depends on the points. *)
Lemma bbox_points rs rs' e : (∀ x y, inxy rs' x y ↔ inxy rs x y) → bbox rs e → bbox rs' e.
Proof.
  intros Hx (A & (y1 & B) & (y2 & C) & (x1 & D) & (x2 & E)). split_and!.
  - intros x y Hxy. apply A. by apply Hx.
  - exists y1. by apply Hx.
  - exists y2. by apply Hx.
  - exists x1. by apply Hx.
  - exists x2. by apply Hx.
Qed.

Lemma inxy_corner lo rs r : bands lo rs → r ∈ rs →
  inxy rs (left r) (top r) ∧ inxy rs (right r - 1) (bottom r - 1) ∧ inxy rs (left r) (bottom r - 1) ∧
  inxy rs (right r - 1) (top r).
Proof. intros Hb Hr. destruct (bands_above _ _ _ Hb Hr). split_and!; exists r; (split; [done|lia]). Qed.

(** ** The extents *)

Lemma widen_ok rs e : (∀ r, r ∈ rs → left r < right r) →
  let e' := widen rs e in
  top e' = top e ∧ bottom e' = bottom e ∧ left e' <= left e ∧ right e <= right e' ∧
  (∀ r, r ∈ rs → left e' <= left r ∧ right r <= right e') ∧
  (left e' = left e ∨ ∃ r, r ∈ rs ∧ left r = left e') ∧
  (right e' = right e ∨ ∃ r, r ∈ rs ∧ right r = right e').
Proof.
  revert e. induction rs as [|r rs IH]; intros e Hpos; cbv zeta.
  - simpl. split_and!; try done; try lia; [|by left..]. intros r Hr. by apply elem_of_nil in Hr.
  - simpl widen. set (l := if left r <? left e then left r else left e).
    set (rt := if right e <? right r then right r else right e).
    assert (l <= left r ∧ l <= left e ∧ (l = left e ∨ l = left r)) as (Hl1 & Hl2 & Hl3)
      by (unfold l; destruct (Z.ltb_spec (left r) (left e)); lia).
    assert (right r <= rt ∧ right e <= rt ∧ (rt = right e ∨ rt = right r)) as (Hr1 & Hr2 & Hr3)
      by (unfold rt; destruct (Z.ltb_spec (right e) (right r)); lia).
    destruct (IH (Rect l (top e) rt (bottom e))) as (A & B & C & D & E & F & G).
    { intros q Hq. apply Hpos. by right. }
    cbv zeta in *. simpl in A, B, C, D, F, G. split_and!; try done; try lia.
    + intros q [->|Hq]%elem_of_cons; [lia|]. by apply E.
    + destruct F as [F|(q & Hq & F)]; [|right; exists q; split; [by right|done]].
      destruct Hl3 as [->|Hl3]; [by left|]. right. exists r. split; [by left|lia].
    + destruct G as [G|(q & Hq & G)]; [|right; exists q; split; [by right|done]].
      destruct Hr3 as [->|Hr3]; [by left|]. right. exists r. split; [by left|lia].
Qed.

Lemma bands_last lo rs e : bands lo rs → last rs = Some e → ∀ r, r ∈ rs → bottom r <= bottom e.
Proof.
  induction 1 as [lo|lo band t b rest Hne Hlo Htb Hs Hh Hrest IH]; [done|].
  intros Hl r Hr. destruct rest as [|q rest].
  - rewrite app_nil_r in *. apply last_Some_elem_of in Hl. destruct (Hs r Hr), (Hs e Hl). lia.
  - rewrite last_app_cons in Hl. apply elem_of_app in Hr as [Hr|Hr]; [|by apply IH].
    destruct (Hs r Hr) as [_ ->]. apply last_Some_elem_of in Hl.
    destruct (bands_above _ _ _ Hrest Hl). lia.
Qed.

Lemma bands_head lo r rs q : bands lo (r :: rs) → q ∈ r :: rs → top r <= top q.
Proof.
  intros Hb Hq. apply bands_validate, validate_bands in Hb. simpl in Hb.
  destruct (bands_above _ _ _ Hb Hq). lia.
Qed.

Lemma set_region_extents_ok reg lo : bands lo (rects reg) → sized reg → region_ok (set_region_extents reg).
Proof.
  intros Hb Hs. unfold set_region_extents. destruct (rects reg) as [|r rs] eqn:Hr.
  { split; simpl; try done. unfold sized, num_rects in *. rewrite Hr in Hs. done. }
  destruct (last (r :: rs)) as [e|] eqn:Hlast; [|by apply last_None in Hlast].
  assert (∀ q, q ∈ r :: rs → left q < right q) as Hpos by (intros q Hq; apply (bands_above _ _ _ Hb Hq)).
  pose proof (last_Some_elem_of _ _ Hlast) as Hel. assert (r ∈ r :: rs) as Hr0 by by left.
  destruct (widen_ok (r :: rs) (Rect (left r) (top r) (right e) (bottom e)) Hpos) as (A & B & C & D & E & F & G).
  set (e' := widen (r :: rs) _) in *. cbn [left right top bottom] in A, B, C, D, F, G.
  split; cbn [rects extents]; try done;
    [by eapply bands_validate|unfold sized, num_rects in *; by rewrite Hr in Hs|].
  intros _. split_and!.
  - intros x y (q & Hq & Hx & Hy). destruct (E q Hq). pose proof (bands_head _ _ _ _ Hb Hq).
    pose proof (bands_last _ _ _ Hb Hlast q Hq). lia.
  - destruct F as [F|(q & Hq & F)]; [exists (top r)|exists (top q)]; [rewrite F|rewrite <-F];
      by apply (inxy_corner lo).
  - destruct G as [G|(q & Hq & G)]; [exists (top e)|exists (top q)]; [rewrite G|rewrite <-G];
      by apply (inxy_corner lo).
  - exists (left r). rewrite A. by apply (inxy_corner lo).
  - exists (left e). rewrite B. by apply (inxy_corner lo).
Qed.

(** ** The overlap functions as point-wise operations *)

#[export] Instance and_not_proper : Proper (iff ==> iff ==> iff) (λ P Q : Prop, P ∧ ¬ Q).
Proof. intros P P' HP Q Q' HQ. tauto. Qed.

Lemma intersect_overlapping_ok reg r1 r2 t b : t < b → r1 ≠ [] → hsep r1 → hsep r2 → sized reg →
  (∀ q, q ∈ rects reg → bottom q <= t) →
  emits (intersect_overlapping reg r1 r2 t b) reg t b (λ x, inx r1 x ∧ inx r2 x).
Proof.
  intros _ _ H1 H2 Hs _. eapply al_mono; [by apply intersect_loop_ok|].
  intros reg' (out & Hem & Hx & _). eauto.
Qed.

Lemma subtract_overlapping_ok reg r1 r2 t b : t < b → r1 ≠ [] → hsep r1 → hsep r2 → sized reg →
  (∀ q, q ∈ rects reg → bottom q <= t) →
  emits (subtract_overlapping reg r1 r2 t b) reg t b (λ x, inx r1 x ∧ ¬ inx r2 x).
Proof.
  intros _ Hn H1 H2 Hs _. destruct r1 as [|q r1]; [done|]. unfold subtract_overlapping, emits.
  eapply al_mono; [apply subtract_loop_ok; try done; simpl; destruct H1; lia|].
  intros reg' (out & Hem & Hx & _). exists out. split; [done|]. intros x. rewrite Hx, inx_cons. done.
Qed.

Lemma union_overlapping_ok reg r1 r2 t b : t < b → r1 ≠ [] → hsep r1 → hsep r2 → sized reg →
  (∀ q, q ∈ rects reg → bottom q <= t) →
  emits (union_overlapping reg r1 r2 t b) reg t b (λ x, inx r1 x ∨ inx r2 x).
Proof.
  intros Htb _ H1 H2 Hs Hbot. unfold union_overlapping, emits.
  eapply al_mono; [apply (union_loop_ok t b Htb (rects reg) Hbot (extents reg) _ []); try done|].
  - split; try done; [by rewrite app_nil_r|apply spans_nil].
  - intros q r Hq. by apply elem_of_nil in Hq.
  - intros q r Hq. by apply elem_of_nil in Hq.
  - intros reg' (out & [A B C D E] & Hx). exists out. split; [by split|]. intros x.
    rewrite Hx, inx_nil. tauto.
Qed.

Lemma copy_band_emits reg rs t b (P : Z → Prop) : hsep rs → sized reg → (∀ x, P x ↔ inx rs x) →
  emits (copy_band reg rs t b) reg t b P.
Proof.
  intros Hh Hs HP. eapply al_mono; [by apply copy_band_ok|]. intros reg' (out & Hem & Hx & _).
  exists out. split; [done|]. intros x. by rewrite Hx, HP.
Qed.

(** ** Facts about well-formed regions *)

Lemma region_ok_bands reg : region_ok reg → bands (head_top (rects reg)) (rects reg).
Proof. intros Hr. apply validate_bands, Hr. Qed.

Lemma region_ok_top reg : region_ok reg → rects reg ≠ [] → top (extents reg) = head_top (rects reg).
Proof.
  intros Hr Hne. pose proof (region_ok_bands reg Hr) as Hb.
  destruct (rg_extents _ Hr Hne) as (Hall & _ & _ & (x & Hx) & _).
  pose proof (inxy_above _ _ _ _ Hb Hx). destruct (rects reg) as [|r rs]; [done|].
  destruct (inxy_corner _ _ r Hb ltac:(by left)) as (Hc & _). destruct (Hall _ _ Hc). simpl in *. lia.
Qed.

Lemma num_rects_zero reg : (num_rects reg =? 0) = true ↔ rects reg = [].
Proof. unfold num_rects. rewrite Z.eqb_eq. destruct (rects reg); simpl; split; (done || lia). Qed.

Lemma num_rects_nonzero reg : (num_rects reg =? 0) = false ↔ rects reg ≠ [].
Proof. rewrite <-not_true_iff_false. by rewrite num_rects_zero. Qed.

Lemma copy_region_ok dst src : region_ok src → 0 < size dst →
  al (copy_region dst src) (λ reg', region_ok reg' ∧ rects reg' = rects src).
Proof.
  intros [A B C D] Hd. unfold copy_region.
  eapply (al_bind_ok _ _ (λ s, 0 < s ∧ num_rects src <= s)).
  - destruct (Z.ltb_spec (size dst) (num_rects src)); [|apply al_ret_ok; lia].
    eapply al_bind_ok; [by apply (al_alloc_ok (λ _, True))|]. intros _ _. apply al_ret_ok.
    destruct B. lia.
  - intros s Hs. apply al_ret_ok. split; [|done]. split; simpl; try done.
Qed.

(** No common points when the extents do not overlap. *)
Lemma disjoint_extents_ok src1 src2 x y : region_ok src1 → region_ok src2 →
  disjoint_extents src1 src2 = true → points src1 x y → points src2 x y → False.
Proof.
  intros H1 H2 Hd Hp1 Hp2. unfold points in *. unfold disjoint_extents in Hd.
  assert (rects src1 ≠ []) as Hn1 by (intros Hn; rewrite Hn, inxy_nil in Hp1; done).
  assert (rects src2 ≠ []) as Hn2 by (intros Hn; rewrite Hn, inxy_nil in Hp2; done).
  rewrite (proj2 (num_rects_nonzero _) Hn1), (proj2 (num_rects_nonzero _) Hn2) in Hd. simpl in Hd.
  apply negb_true_iff in Hd. unfold EXTENTCHECK in Hd.
  destruct (rg_extents _ H1 Hn1) as (Ha1 & _), (rg_extents _ H2 Hn2) as (Ha2 & _).
  destruct (Ha1 _ _ Hp1), (Ha2 _ _ Hp2).
  rewrite !(proj2 (Z.ltb_lt _ _)) in Hd by lia. done.
Qed.

Lemma overlapping_nonempty src1 src2 :
  disjoint_extents src1 src2 = false → rects src1 ≠ [] ∧ rects src2 ≠ [].
Proof.
  unfold disjoint_extents. intros [[Hn1 Hn2]%orb_false_iff _]%orb_false_iff.
  by apply num_rects_nonzero in Hn1, Hn2.
Qed.

Lemma set_region_extents_rects reg : rects (set_region_extents reg) = rects reg.
Proof. unfold set_region_extents. destruct (rects reg); [done|]. by destruct (last _). Qed.

(** A single rectangle whose extents include those of the other region. *)
Lemma covers_ok src1 src2 x y : region_ok src1 → region_ok src2 → rects src2 ≠ [] →
  covers src1 src2 = true → points src2 x y → points src1 x y.
Proof.
  intros H1 H2 Hn2 Hc Hp. unfold covers in Hc. rewrite !andb_true_iff, !Z.leb_le, Z.eqb_eq in Hc.
  destruct Hc as [[[[Hn Hl] Ht] Hr] Hb]. unfold num_rects in Hn.
  destruct (rects src1) as [|r [|? ?]] eqn:Hrs; simpl in Hn; try lia.
  assert (rects src1 ≠ []) as Hn1 by (by rewrite Hrs).
  destruct (rg_extents _ H1 Hn1) as (Ha & (y1 & Hy1) & (y2 & Hy2) & (x1 & Hx1) & (x2 & Hx2)).
  destruct (rg_extents _ H2 Hn2) as (Ha2 & _). destruct (Ha2 _ _ Hp).
  rewrite Hrs, inxy_cons, inxy_nil in Hy1, Hy2, Hx1, Hx2. unfold points. rewrite Hrs, inxy_cons. left. lia.
Qed.

Lemma bbox_union rs1 rs2 rs e1 e2 : bbox rs1 e1 → bbox rs2 e2 → (∀ x y, inxy rs x y ↔ inxy rs1 x y ∨ inxy rs2 x y) →
  bbox rs (Rect (Z.min (left e1) (left e2)) (Z.min (top e1) (top e2))
             (Z.max (right e1) (right e2)) (Z.max (bottom e1) (bottom e2))).
Proof.
  intros (A1 & B1 & C1 & D1 & E1) (A2 & B2 & C2 & D2 & E2) Hx. split_and!; simpl.
  - intros x y [Hp|Hp]%Hx; [destruct (A1 _ _ Hp)|destruct (A2 _ _ Hp)]; lia.
  - destruct (Z.min_spec (left e1) (left e2)) as [[_ ->]|[_ ->]]; [destruct B1 as [y ?]|destruct B2 as [y ?]];
      exists y; apply Hx; auto.
  - destruct (Z.max_spec (right e1) (right e2)) as [[_ ->]|[_ ->]]; [destruct C2 as [y ?]|destruct C1 as [y ?]];
      exists y; apply Hx; auto.
  - destruct (Z.min_spec (top e1) (top e2)) as [[_ ->]|[_ ->]]; [destruct D1 as [y ?]|destruct D2 as [y ?]];
      exists y; apply Hx; auto.
  - destruct (Z.max_spec (bottom e1) (bottom e2)) as [[_ ->]|[_ ->]]; [destruct E2 as [y ?]|destruct E1 as [y ?]];
      exists y; apply Hx; auto.
Qed.

(** ** Canonical regions *)

(** A well-formed region in which no two bands could be merged. *)
Definition canonical (reg : region) : Prop := region_ok reg ∧ coalesced (rects reg).

(** The first bands of two lists with the same points end on the same line. *)
Lemma first_bottom t b1 b2 B1 rest1 B2 rest2 :
  B1 ≠ [] → spans t b1 B1 → t < b1 → hsep B1 → bands b1 rest1 → coalesced (B1 ++ rest1) →
  spans t b2 B2 → bands b2 rest2 → (∀ x, inx B1 x ↔ inx B2 x) →
  (∀ x y, inxy (B1 ++ rest1) x y ↔ inxy (B2 ++ rest2) x y) → b2 <= b1.
Proof.
  intros Hne Hs1 Htb Hh Hr1 Hc Hs2 Hr2 Hx Hxy. destruct (decide (b2 <= b1)) as [|Hgt]; [done|]. exfalso.
  assert (∀ x, inxy (B1 ++ rest1) x b1 ↔ inx B1 x) as Hrow.
  { intros x. by rewrite Hxy, (inxy_band_below t b2), Hx by (done || lia). }
  destruct B1 as [|p B1]; [done|]. destruct (Hs1 p ltac:(by left)) as [_ Hpb].
  destruct (proj2 (Hrow (left p)) (inx_left p B1 ltac:(apply Hh))) as (q & Hq & _ & Hqy).
  assert (top q = b1 ∧ q ∈ (p :: B1) ++ rest1) as [Hqt Hqin].
  { split; [|done]. apply elem_of_app in Hq as [Hq|Hq]; [destruct (Hs1 q Hq)|destruct (bands_above _ _ _ Hr1 Hq)]; lia. }
  apply (Hc p q); [by left|done|lia|]. intros x. rewrite Hqt, Hrow. by apply (inxy_band_below t b1); [..|lia].
Qed.

Lemma first_top t b B rest t' b' B' rest' : B ≠ [] → spans t b B → t < b → hsep B →
  B' ≠ [] → spans t' b' B' → t' < b' → hsep B' → bands b' rest' →
  (∀ x y, inxy (B ++ rest) x y → inxy (B' ++ rest') x y) → t' <= t.
Proof.
  intros HB Hs Htb Hh HB' Hs' Htb' Hh' Hr' Hsub. destruct B as [|p B]; [done|].
  apply (inxy_above _ (B' ++ rest') (left p)); [by apply (bands_cons _ _ t' b'); [|lia|..]|].
  apply Hsub, inxy_app. left. apply (inxy_spans t b); [done|]. split; [lia|]. apply inx_left, Hh.
Qed.

Lemma same_band t b P Q : spans t b P → spans t b Q → length P = length Q → same_x P Q = true → P = Q.
Proof.
  revert Q. induction P as [|p P IH]; intros [|q Q] HP HQ Hlen Hx; try done.
  apply spans_cons in HP as [[] HP], HQ as [[] HQ]. simpl in Hlen, Hx.
  rewrite !andb_true_iff, !Z.eqb_eq in Hx. destruct Hx as [[Hl Hr] Hx].
  f_equal; [destruct p, q; simpl in *; congruence|]. apply IH; [done..|lia|done].
Qed.

Lemma inxy_nonempty lo rs : bands lo rs → (∀ x y, ¬ inxy rs x y) → rs = [].
Proof.
  intros Hb Hno. destruct rs as [|r rs]; [done|]. exfalso.
  destruct (inxy_corner _ _ r Hb ltac:(by left)) as [H _]. by apply Hno in H.
Qed.

(** The rectangles of a canonical region are determined by its points. *)
Lemma coalesced_unique lo1 lo2 rs1 rs2 : bands lo1 rs1 → bands lo2 rs2 → coalesced rs1 → coalesced rs2 →
  (∀ x y, inxy rs1 x y ↔ inxy rs2 x y) → rs1 = rs2.
Proof.
  intros Hb1. revert lo2 rs2.
  induction Hb1 as [lo1|lo1 B1 t1 b1 rest1 Hne1 Hlo1 Htb1 Hs1 Hh1 Hrest1 IH]; intros lo2 rs2 Hb2 Hc1 Hc2 Hxy.
  { symmetry. apply (inxy_nonempty lo2); [done|]. intros x y. rewrite <-Hxy, inxy_nil. tauto. }
  destruct Hb2 as [lo2|lo2 B2 t2 b2 rest2 Hne2 Hlo2 Htb2 Hs2 Hh2 Hrest2].
  { apply (inxy_nonempty lo1); [by apply (bands_cons _ _ t1 b1)|]. intros x y. rewrite Hxy, inxy_nil. tauto. }
  assert (t1 = t2) as <-.
  { assert (t2 <= t1) by (apply (first_top t1 b1 B1 rest1 t2 b2 B2 rest2); try done; intros x y; apply Hxy).
    assert (t1 <= t2) by (apply (first_top t2 b2 B2 rest2 t1 b1 B1 rest1); try done; intros x y; apply Hxy). lia. }
  assert (∀ x, inx B1 x ↔ inx B2 x) as Hx.
  { intros x. specialize (Hxy x t1).
    rewrite (inxy_band_below t1 b1), (inxy_band_below t1 b2) in Hxy by (done || lia). done. }
  assert (b1 = b2) as <-.
  { assert (b2 <= b1) by (by apply (first_bottom t1 b1 b2 B1 rest1 B2 rest2)).
    assert (b1 <= b2) by (apply (first_bottom t1 b2 b1 B2 rest2 B1 rest1); try done; by symmetry). lia. }
  destruct (hsep_inj B1 B2 Hh1 Hh2 Hx) as [Hlen Hsx].
  pose proof (same_band t1 b1 B1 B2 Hs1 Hs2 Hlen Hsx) as ->.
  assert (∀ r, r ∈ B2 → bottom r <= b1) as Hbot by (intros r Hr; destruct (Hs2 r Hr); lia).
  f_equal. apply (IH b1); [done|by apply (coalesced_lower b1 B2)|by apply (coalesced_lower b1 B2)|].
  intros x y. destruct (decide (y < b1)).
  - split; intros Hp; [pose proof (inxy_above _ _ _ _ Hrest1 Hp)|pose proof (inxy_above _ _ _ _ Hrest2 Hp)]; lia.
  - specialize (Hxy x y). rewrite !(inxy_app_lower b1) in Hxy by (done || lia). done.
Qed.

(** ** The set operations *)

(** Running one of them on [src1] and [src2]: a well-formed region with the
    points that [P] says, canonical if the sources are, unless an allocation
    fails. *)
Definition computes (m : AL region) (src1 src2 : region) (P : Z → Z → Prop) : Prop :=
  al m (λ reg, region_ok reg ∧ (canonical src1 → canonical src2 → canonical reg) ∧
    ∀ x y, points reg x y ↔ P x y).

Section set_operations.
Context (dst src1 src2 : region).
Context (Hdst : region_ok dst) (H1 : region_ok src1) (H2 : region_ok src2).

(** The empty region is canonical. *)
Lemma canonical_empty n : 0 < n → canonical (Region n [] empty_rect).
Proof. intros Hn. split; [|apply coalesced_nil]. split; simpl; try done. unfold sized, num_rects. simpl. lia. Qed.

(** Copying one of the sources. *)
Lemma copy_region_computes src P : region_ok src → src = src1 ∨ src = src2 →
  (∀ x y, points src x y ↔ P x y) → computes (copy_region dst src) src1 src2 P.
Proof using Hdst.
  intros Hok Hsrc Hx. eapply al_mono; [apply (copy_region_ok dst src); [done|apply Hdst]|].
  intros reg [Hr Heq]. split_and!; [done| |].
  - intros [_ Hc1] [_ Hc2]. split; [done|]. rewrite Heq. by destruct Hsrc as [-> | ->].
  - intros x y. unfold points at 1. rewrite Heq. apply Hx.
Qed.

(** The extents of a result of [region_op] recomputed from its rectangles. *)
Lemma set_extents_computes m P :
  al m (λ reg', sized reg' ∧ (∃ lo, bands lo (rects reg')) ∧
    (coalesced (rects src1) → coalesced (rects src2) → coalesced (rects reg')) ∧
    ∀ x y, inxy (rects reg') x y ↔ P x y) →
  computes (reg <- m; al_ret (set_region_extents reg)) src1 src2 P.
Proof.
  intros Hm. eapply al_bind_ok; [exact Hm|]. intros reg (Hs & [lo Hb] & Hc & Hx). apply al_ret_ok.
  assert (region_ok (set_region_extents reg)) by (by eapply set_region_extents_ok).
  unfold canonical, points. rewrite set_region_extents_rects. split_and!; [done| |done].
  intros [_ ?] [_ ?]. split; [done|]. auto.
Qed.

Lemma intersect_region_ok :
  computes (intersect_region dst src1 src2) src1 src2 (λ x y, points src1 x y ∧ points src2 x y).
Proof using All.
  unfold intersect_region. destruct (disjoint_extents src1 src2) eqn:Hd.
  - apply al_ret_ok. destruct Hdst as [_ [Hs ?] _ _]. pose proof (canonical_empty (size dst) Hs) as Hc.
    split_and!; [apply Hc|done|]. intros x y. unfold points at 1. simpl. rewrite inxy_nil.
    pose proof (disjoint_extents_ok src1 src2 x y H1 H2 Hd). tauto.
  - destruct (overlapping_nonempty _ _ Hd) as [Hn1 Hn2]. apply set_extents_computes.
    eapply (region_op_ok _ None None and _ ltac:(tauto) intersect_overlapping_ok);
      [tauto|tauto|done|done|done|done|..];
      [by apply region_ok_bands|by apply region_ok_bands|by apply region_ok_top|by apply region_ok_top].
Qed.

Lemma subtract_region_ok :
  computes (subtract_region dst src1 src2) src1 src2 (λ x y, points src1 x y ∧ ¬ points src2 x y).
Proof using All.
  unfold subtract_region. destruct (disjoint_extents src1 src2) eqn:Hd.
  - apply copy_region_computes; [done|by left|]. intros x y.
    pose proof (disjoint_extents_ok src1 src2 x y H1 H2 Hd). tauto.
  - destruct (overlapping_nonempty _ _ Hd) as [Hn1 Hn2]. apply set_extents_computes.
    eapply (region_op_ok _ (Some subtract_non_overlapping) None _ and_not_proper ltac:(tauto) subtract_overlapping_ok);
      [|tauto|tauto|done|done|done|..];
      [|by apply region_ok_bands|by apply region_ok_bands|by apply region_ok_top|by apply region_ok_top].
    intros reg rs t b Hh Hs. apply copy_band_emits; [done..|]. tauto.
Qed.

(** The part of [union_region] after its shortcuts. *)
Lemma union_op_ok : rects src1 ≠ [] → rects src2 ≠ [] →
  computes (union_region false dst src1 src2) src1 src2 (λ x y, points src1 x y ∨ points src2 x y).
Proof using All.
  intros Hn1 Hn2. unfold union_region.
  rewrite (proj2 (num_rects_nonzero _) Hn1), (proj2 (num_rects_nonzero _) Hn2).
  destruct (covers src1 src2) eqn:Hc1.
  { apply copy_region_computes; [done|by left|]. intros x y.
    pose proof (covers_ok src1 src2 x y H1 H2 Hn2 Hc1). tauto. }
  destruct (covers src2 src1) eqn:Hc2.
  { apply copy_region_computes; [done|by right|]. intros x y.
    pose proof (covers_ok src2 src1 x y H2 H1 Hn1 Hc2). tauto. }
  eapply al_bind_ok.
  - eapply (region_op_ok _ (Some union_non_overlapping) (Some union_non_overlapping) or _ ltac:(tauto) union_overlapping_ok);
      [| |tauto|tauto|done|done|..];
      [| |by apply region_ok_bands|by apply region_ok_bands|by apply region_ok_top|by apply region_ok_top];
      intros reg rs t b Hh Hs; (apply copy_band_emits; [done..|]; tauto).
  - intros reg (Hs & [lo Hb] & Hc & Hx). apply al_ret_ok.
    assert (bbox (rects reg) (Rect (Z.min (left (extents src1)) (left (extents src2)))
      (Z.min (top (extents src1)) (top (extents src2))) (Z.max (right (extents src1)) (right (extents src2)))
      (Z.max (bottom (extents src1)) (bottom (extents src2))))) as Hbb.
    { apply (bbox_union (rects src1) (rects src2)); [by apply H1|by apply H2|done]. }
    assert (rects reg ≠ []) as Hrn.
    { intros Hr. destruct Hbb as (_ & (y & Hy) & _). by rewrite Hr, inxy_nil in Hy. }
    assert (region_ok (Region (size reg) (rects reg) (Rect (Z.min (left (extents src1)) (left (extents src2)))
      (Z.min (top (extents src1)) (top (extents src2))) (Z.max (right (extents src1)) (right (extents src2)))
      (Z.max (bottom (extents src1)) (bottom (extents src2)))))) as Hok.
    { split; cbn [rects extents]; [by eapply bands_validate|done|done|done]. }
    split_and!; [done| |done]. intros [_ ?] [_ ?]. split; [done|]. simpl. auto.
Qed.

Lemma union_region_ok same : (same = true → src1 = src2) →
  computes (union_region same dst src1 src2) src1 src2 (λ x y, points src1 x y ∨ points src2 x y).
Proof using All.
  intros Hsame. destruct same.
  { apply copy_region_computes; [done|by left|]. rewrite Hsame by done. tauto. }
  destruct (decide (rects src1 = [])) as [Hn1|Hn1];
    [|destruct (decide (rects src2 = [])) as [Hn2|Hn2]; [|by apply union_op_ok]];
    unfold union_region; [rewrite (proj2 (num_rects_zero _) Hn1)|
      rewrite (proj2 (num_rects_nonzero _) Hn1), (proj2 (num_rects_zero _) Hn2)].
  - apply copy_region_computes; [done|by right|]. intros x y. unfold points. rewrite Hn1, inxy_nil. tauto.
  - apply copy_region_computes; [done|by left|]. intros x y. unfold points. rewrite Hn2, inxy_nil. tauto.
Qed.
End set_operations.

(** [intersect_region] returns a well-formed region whose points are those in
    both sources, canonical if they are, unless a memory allocation fails. *)
Theorem intersect_region_spec dst src1 src2 :
  region_ok dst → region_ok src1 → region_ok src2 →
  computes (intersect_region dst src1 src2) src1 src2 (λ x y, points src1 x y ∧ points src2 x y).
Proof. apply intersect_region_ok. Qed.

(** [subtract_region] returns a well-formed region whose points are those of
    the first source outside the second, canonical if the sources are, unless a
    memory allocation fails. *)
Theorem subtract_region_spec dst src1 src2 :
  region_ok dst → region_ok src1 → region_ok src2 →
  computes (subtract_region dst src1 src2) src1 src2 (λ x y, points src1 x y ∧ ¬ points src2 x y).
Proof. apply subtract_region_ok. Qed.

(** C36: unless a memory allocation fails, [union_region] returns, through every
    shortcut of the code, a well-formed region (non-empty rectangles in y-x-banded
    order, extents that are the bounding box, an array that holds them) whose
    points are those of either source; and if in both sources no two adjacent
    bands could be merged, then none could in the result. *)
Theorem union_region_spec same dst src1 src2 :
  region_ok dst → region_ok src1 → region_ok src2 → (same = true → src1 = src2) →
  computes (union_region same dst src1 src2) src1 src2 (λ x y, points src1 x y ∨ points src2 x y).
Proof. intros. by apply union_region_ok. Qed.

(** [xor_region], built from two subtractions and a union, returns the points
    that are in exactly one source. *)
Theorem xor_region_spec dst src1 src2 :
  region_ok dst → region_ok src1 → region_ok src2 →
  computes (xor_region dst src1 src2) src1 src2
    (λ x y, points src1 x y ∧ ¬ points src2 x y ∨ points src2 x y ∧ ¬ points src1 x y).
Proof.
  intros Hd H1 H2. unfold xor_region, create_empty_region.
  eapply (al_bind_ok _ _ region_ok).
  { eapply al_bind_ok; [by apply (al_alloc_ok (λ _, True))|]. intros _ _.
    eapply al_bind_ok; [by apply (al_alloc_ok (λ _, True))|]. intros _ _. apply al_ret_ok.
    by apply canonical_empty. }
  intros tmp Ht. eapply al_bind_ok; [by apply subtract_region_ok|]. intros tmp' (Ht' & Hc1 & Hx1).
  eapply al_bind_ok; [by apply subtract_region_ok|]. intros dst' (Hd' & Hc2 & Hx2).
  eapply al_mono; [by apply (union_region_ok dst' dst' tmp')|]. intros reg (Hr & Hc & Hx).
  split_and!; [done|auto|]. intros x y. rewrite Hx, Hx1, Hx2. tauto.
Qed.

(** ** Comparing regions *)

Lemma is_rect_equal_spec r1 r2 : is_rect_equal r1 r2 = true ↔ r1 = r2.
Proof.
  unfold is_rect_equal. rewrite !andb_true_iff, !Z.eqb_eq. destruct r1, r2; simpl. split; [|by intros [=]].
  intros [[[-> ->] ->] ->]. done.
Qed.

Lemma rects_equal_spec l k : length l = length k → rects_equal l k = true ↔ l = k.
Proof.
  revert k. induction l as [|r l IH]; intros [|q k] Hlen; try done. simpl in *.
  destruct (is_rect_equal r q) eqn:He.
  - apply is_rect_equal_spec in He as ->. simpl. rewrite IH by lia. split; congruence.
  - simpl. split; [done|]. intros [= -> _]. by rewrite (proj2 (is_rect_equal_spec q q) eq_refl) in He.
Qed.

Lemma bbox_unique rs e1 e2 : bbox rs e1 → bbox rs e2 → e1 = e2.
Proof.
  intros (A1 & (y1 & B1) & (y2 & C1) & (x1 & D1) & (x2 & E1)) (A2 & (y3 & B2) & (y4 & C2) & (x3 & D2) & (x4 & E2)).
  pose proof (A1 _ _ B2). pose proof (A1 _ _ C2). pose proof (A1 _ _ D2). pose proof (A1 _ _ E2).
  pose proof (A2 _ _ B1). pose proof (A2 _ _ C1). pose proof (A2 _ _ D1). pose proof (A2 _ _ E1).
  destruct e1, e2; simpl in *. f_equal; lia.
Qed.

(** [is_region_equal], which compares the rectangles one by one, decides on
    canonical regions whether they have the same points. *)
Theorem is_region_equal_points reg1 reg2 : canonical reg1 → canonical reg2 →
  is_region_equal reg1 reg2 = true ↔ ∀ x y, points reg1 x y ↔ points reg2 x y.
Proof.
  intros [H1 Hc1] [H2 Hc2]. unfold is_region_equal, points. split.
  - destruct (Z.eqb_spec (num_rects reg1) (num_rects reg2)) as [Hn|]; [|done]. unfold num_rects in *. simpl.
    destruct (Z.eqb_spec (Z.of_nat (length (rects reg1))) 0).
    { intros _. assert (rects reg1 = [] ∧ rects reg2 = []) as [-> ->]; [|done].
      split; apply nil_length_inv; lia. }
    destruct (is_rect_equal _ _); [|done]. simpl. intros ->%rects_equal_spec; [done|lia].
  - intros Hx. assert (rects reg1 = rects reg2) as Heq.
    { eapply coalesced_unique; [by apply region_ok_bands|by apply region_ok_bands|done..]. }
    unfold num_rects. rewrite Heq, Z.eqb_refl. simpl.
    destruct (Z.eqb_spec (Z.of_nat (length (rects reg2))) 0) as [|Hn]; [done|].
    assert (rects reg2 ≠ []) as Hne by (intros Hr; by rewrite Hr in Hn).
    pose proof (rg_extents _ H1) as Hb1. rewrite Heq in Hb1.
    rewrite (bbox_unique _ _ _ (Hb1 Hne) (rg_extents _ H2 Hne)), (proj2 (is_rect_equal_spec _ _) eq_refl). simpl.
    by apply rects_equal_spec.
Qed.

(** ** Queries *)

Lemma point_in_rects_ok lo rs x y : bands lo rs → point_in_rects rs x y = true ↔ inxy rs x y.
Proof.
  induction 1 as [lo|lo band t b rest Hne Hlo Htb Hs Hh Hrest IH]; [rewrite inxy_nil; split; done|].
  rewrite inxy_app, <-IH. clear Hne. induction band as [|r band IHb].
  { simpl. rewrite inxy_nil. tauto. }
  pose proof (λ x, hsep_after r band x Hh) as Haf. apply spans_cons in Hs as [[Ht Hb] Hs].
  pose proof Hh as (Hlr & _ & Hhb). specialize (IHb Hs Hhb). simpl app. cbn [point_in_rects].
  rewrite inxy_cons, Ht, Hb.
  assert (Hrest_no : y < b → point_in_rects rest x y = true → False).
  { intros Hy Hp. apply IH in Hp. pose proof (inxy_above _ _ _ _ Hrest Hp). lia. }
  destruct (Z.ltb_spec y t).
  { split; [done|]. intros [[?|Hin]|Hp]; [lia| |exfalso; apply Hrest_no; [lia|done]].
    apply (inxy_spans _ _ _ _ _ Hs) in Hin. lia. }
  destruct (Z.leb_spec b y).
  { rewrite IHb. intuition lia. }
  destruct (Z.ltb_spec x (left r)).
  { split; [done|]. intros [[?|Hin]|Hp]; [lia| |exfalso; apply Hrest_no; [lia|done]].
    apply (inxy_spans _ _ _ _ _ Hs) in Hin as [_ Hin]. specialize (Haf x Hin). lia. }
  destruct (Z.leb_spec (right r) x).
  - rewrite IHb. intuition lia.
  - split; [intros _; left; left; lia|done].
Qed.

Lemma rect_in_rects_ok lo rs q : bands lo rs → left q < right q → top q < bottom q →
  rect_in_rects rs q = true ↔ ∃ x y, inxy rs x y ∧ left q <= x < right q ∧ top q <= y < bottom q.
Proof.
  intros Hb Hlr Htb. assert (Hv := bands_validate _ _ Hb). apply validate_bands in Hv. clear Hb.
  induction rs as [|r rs IH].
  { simpl. split; [done|]. intros (x & y & Hin & _). by rewrite inxy_nil in Hin. }
  pose proof (bands_above _ _ r Hv ltac:(by left)) as [Hr1 Hr2].
  pose proof (bands_validate _ _ Hv) as (_ & Hvr & _)%validate_cons. apply validate_bands in Hvr.
  specialize (IH Hvr). cbn [rect_in_rects].
  assert (Hskip : ¬ (∃ x y, (left r <= x < right r ∧ top r <= y < bottom r) ∧ left q <= x < right q ∧ top q <= y < bottom q) →
    rect_in_rects rs q = true ↔ ∃ x y, inxy (r :: rs) x y ∧ left q <= x < right q ∧ top q <= y < bottom q).
  { intros Hno. rewrite IH. split; intros (x & y & Hin & Hq).
    - exists x, y. rewrite inxy_cons. tauto.
    - exists x, y. rewrite inxy_cons in Hin. destruct Hin as [Hin|Hin]; [|tauto]. exfalso. apply Hno. eauto. }
  destruct (Z.leb_spec (bottom q) (top r)).
  { split; [done|]. intros (x & y & Hin & Hq). pose proof (inxy_above _ _ _ _ Hv Hin). simpl in *. lia. }
  destruct (Z.leb_spec (bottom r) (top q)). { apply Hskip. intros (x & y & ?). lia. }
  destruct (Z.leb_spec (right q) (left r)). { apply Hskip. intros (x & y & ?). lia. }
  destruct (Z.leb_spec (right r) (left q)). { apply Hskip. intros (x & y & ?). lia. }
  split; [intros _|done]. exists (Z.max (left r) (left q)), (Z.max (top r) (top q)).
  rewrite inxy_cons. split; [left; lia|lia].
Qed.

(** the queries are exact: [point_in_region] answers whether the point is in
    the region, although it stops at the first rectangle below or to the right of
    it, and [rect_in_region] whether a non-empty rectangle meets the region. *)
Theorem region_queries_spec reg :
  region_ok reg →
  (∀ x y, point_in_region reg x y = true ↔ points reg x y) ∧
  (∀ q, is_rect_empty q = false →
    rect_in_region reg q = true ↔ ∃ x y, points reg x y ∧ point_in_rect q x y = true).
Proof.
  intros Hr. split; [intros x y; eapply point_in_rects_ok, region_ok_bands, Hr|].
  intros q [Hlr Htb]%not_empty_rect. unfold rect_in_region.
  rewrite (rect_in_rects_ok _ _ q (region_ok_bands reg Hr)) by done.
  split; intros (x & y & Hin & Hq); exists x, y; (split; [done|]); unfold point_in_rect in *.
  - rewrite !andb_true_iff, !Z.leb_le, !Z.ltb_lt. lia.
  - rewrite !andb_true_iff, !Z.leb_le, !Z.ltb_lt in Hq. lia.
Qed.

(** ** Client data *)

Lemma create_region_ok data : al (create_region_from_req_data data) (λ r,
  let data' := if bool_decide (data = [empty_rect]) then [] else data in
  match r with
  | inl e => e = 0xC000000D ∧ validate_rectangles data' = false
  | inr reg => region_ok reg ∧ rects reg = data'
  end).
Proof.
  unfold create_region_from_req_data. set (data' := if bool_decide _ then _ else _).
  destruct (validate_rectangles data') eqn:Hv; simpl; [|by apply al_ret_ok].
  eapply al_bind_ok; [by apply (al_alloc_ok (λ _, True))|]. intros _ _.
  eapply al_bind_ok; [by apply (al_alloc_ok (λ _, True))|]. intros _ _. apply al_ret_ok.
  split; [|apply set_region_extents_rects]. eapply set_region_extents_ok; simpl.
  - by apply validate_bands.
  - unfold sized, num_rects, RGN_DEFAULT_RECTS. simpl. lia.
Qed.

(** the rectangles a client sends are accepted exactly when they are
    non-empty and y-x-banded (a single all-zero rectangle stands for the empty
    region), and the region created is well formed and made of them. *)
Theorem create_region_from_req_data_spec data :
  al (create_region_from_req_data data) (λ r,
    let data' := if bool_decide (data = [empty_rect]) then [] else data in
    match r with
    | inl e => e = 0xC000000D ∧ validate_rectangles data' = false
    | inr reg => region_ok reg ∧ rects reg = data'
    end).
Proof. apply create_region_ok. Qed.

(** what [get_region_data] sends for a well-formed region, when the buffer is
    large enough, creates a region with the same rectangles. *)
Theorem region_data_roundtrip reg max_size :
  region_ok reg → Z.max 1 (num_rects reg) * 16 <= max_size →
  al (d <- get_region_data reg max_size;
      match fst d with
      | Some data => r <- create_region_from_req_data data; al_ret (Some r)
      | None => al_ret None
      end)
    (λ r, ∃ reg', r = Some (inr reg') ∧ rects reg' = rects reg ∧ region_ok reg').
Proof.
  intros Hr Hm. unfold get_region_data. cbv zeta.
  set (data := match rects reg with [] => [empty_rect] | rs => rs end).
  assert (Z.of_nat (length data) * 16 <= max_size) as Hle.
  { unfold data, num_rects in *. destruct (rects reg); simpl length in *; lia. }
  rewrite (proj2 (Z.leb_le _ _) Hle).
  eapply (al_bind_ok _ _ (λ d, fst d = Some data)).
  { eapply al_bind_ok; [by apply (al_alloc_ok (λ _, True))|]. intros _ _. by apply al_ret_ok. }
  intros [d n] Hd. simpl in *. subst d. eapply al_bind_ok; [apply create_region_ok|].
  cbv zeta. assert ((if bool_decide (data = [empty_rect]) then [] else data) = rects reg) as ->.
  { unfold data. destruct (rects reg) as [|r0 rs] eqn:Hrs; [done|].
    case_bool_decide as He; [|done]. exfalso. pose proof (rg_valid _ Hr) as Hv. rewrite Hrs, He in Hv. done. }
  intros [e|reg'] H; apply al_ret_ok.
  - destruct H as [_ H]. rewrite (rg_valid _ Hr) in H. done.
  - destruct H. eauto.
Qed.

(** ** Geometry *)

(** the band-reversal loop of [mirror_region] saves the wrong element: on a
    band of two rectangles the first one is lost and the second appears twice, so
    the result is not even a valid region. *)
Theorem mirror_region_loses_rectangle :
  let reg := Region 2 [Rect 0 0 2 1; Rect 5 0 9 1] (Rect 0 0 9 1) in
  let client := Rect 0 0 10 10 in
  rects (mirror_region client reg) = [Rect 1 0 5 1; Rect 1 0 5 1] ∧
  validate_rectangles (rects (mirror_region client reg)) = false ∧
  points reg 0 0 ∧ ¬ points (mirror_region client reg) 9 0.
Proof.
  cbv zeta. split_and!; [vm_compute; reflexivity|vm_compute; reflexivity|by exists (Rect 0 0 2 1); split; [left|]; simpl; lia|].
  change (¬ inxy [Rect 1 0 5 1; Rect 1 0 5 1] 9 0). rewrite !inxy_cons, inxy_nil. simpl. lia.
Qed.

(** [scale_dpi] computes negative coordinates in unsigned arithmetic: scaling
    -10 by one half gives 22369615. *)
Theorem scale_dpi_negative_wraps :
  scale_dpi (-10) (Ratio 192 1) (Ratio 96 1) = 22369615 ∧ scale_dpi 10 (Ratio 192 1) (Ratio 96 1) = 5.
Proof. split; vm_compute; reflexivity. Qed.

(** ** Witnesses *)

Definition demo_region1 : region := Region 2 [Rect 0 0 10 10; Rect 12 0 14 10] (Rect 0 0 14 10).
Definition demo_region2 : region := Region 2 [Rect 5 5 13 15] (Rect 5 5 13 15).

Lemma demo_region1_ok : region_ok demo_region1.
Proof.
  change (region_ok (set_region_extents demo_region1)).
  apply (set_region_extents_ok _ 0); [apply (validate_bands (rects demo_region1)); reflexivity|split; vm_compute; done].
Qed.

Lemma demo_region2_ok : region_ok demo_region2.
Proof.
  change (region_ok (set_region_extents demo_region2)).
  apply (set_region_extents_ok _ 5); [apply (validate_bands (rects demo_region2)); reflexivity|split; vm_compute; done].
Qed.

Lemma intersect_region_witness :
  ∃ reg, intersect_region demo_region1 demo_region1 demo_region2 [] = (Some reg, []) ∧ points reg 6 7.
Proof.
  destruct (al_run _ _ (intersect_region_spec demo_region1 demo_region1 demo_region2
              demo_region1_ok demo_region1_ok demo_region2_ok)) as (reg & Hrun & _ & _ & Hx).
  exists reg. split; [exact Hrun|]. apply Hx. split; [exists (Rect 0 0 10 10)|exists (Rect 5 5 13 15)];
    (split; [by left|simpl; lia]).
Defined.

Lemma subtract_region_witness :
  ∃ reg, subtract_region demo_region1 demo_region1 demo_region2 [] = (Some reg, []) ∧ points reg 1 7.
Proof.
  destruct (al_run _ _ (subtract_region_spec demo_region1 demo_region1 demo_region2
              demo_region1_ok demo_region1_ok demo_region2_ok)) as (reg & Hrun & _ & _ & Hx).
  exists reg. split; [exact Hrun|]. apply Hx. split.
  - exists (Rect 0 0 10 10). split; [by left|simpl; lia].
  - unfold points. simpl. rewrite inxy_cons, inxy_nil. simpl. lia.
Defined.

Lemma demo_regions_canonical : canonical demo_region1 ∧ canonical demo_region2.
Proof.
  split; (split; [apply demo_region1_ok || apply demo_region2_ok|]).
  - apply (coalesced_band 0 10); [|lia]. by repeat (apply spans_cons; split; [done|]); apply spans_nil.
  - apply (coalesced_band 5 15); [|lia]. by repeat (apply spans_cons; split; [done|]); apply spans_nil.
Qed.

Lemma union_region_witness :
  ∃ reg, union_region false demo_region1 demo_region1 demo_region2 [] = (Some reg, []) ∧
    points reg 6 14 ∧ canonical reg.
Proof.
  destruct (al_run _ _ (union_region_spec false demo_region1 demo_region1 demo_region2
              demo_region1_ok demo_region1_ok demo_region2_ok ltac:(done))) as (reg & Hrun & _ & Hc & Hx).
  exists reg. split_and!; [exact Hrun| |by apply Hc; apply demo_regions_canonical].
  apply Hx. right. exists (Rect 5 5 13 15). split; [by left|simpl; lia].
Defined.

Lemma xor_region_witness :
  ∃ reg, xor_region demo_region1 demo_region1 demo_region2 [] = (Some reg, []) ∧ points reg 6 14.
Proof.
  destruct (al_run _ _ (xor_region_spec demo_region1 demo_region1 demo_region2
              demo_region1_ok demo_region1_ok demo_region2_ok)) as (reg & Hrun & _ & _ & Hx).
  exists reg. split; [exact Hrun|]. apply Hx. right. split.
  - exists (Rect 5 5 13 15). split; [by left|simpl; lia].
  - unfold points. simpl. rewrite !inxy_cons, inxy_nil. simpl. lia.
Defined.

Lemma region_queries_witness :
  points demo_region1 13 9 ∧ ∃ x y, points demo_region1 x y ∧ point_in_rect (Rect 10 5 13 30) x y = true.
Proof.
  destruct (region_queries_spec demo_region1 demo_region1_ok) as [Hp Hq]. split.
  - apply (Hp 13 9). reflexivity.
  - apply (Hq (Rect 10 5 13 30)); reflexivity.
Defined.

Lemma region_data_roundtrip_witness :
  ∃ reg', (d <- get_region_data demo_region1 64;
           match fst d with
           | Some data => r <- create_region_from_req_data data; al_ret (Some r)
           | None => al_ret None
           end) [] = (Some (Some (inr reg')), []) ∧ rects reg' = rects demo_region1.
Proof.
  destruct (al_run _ _ (region_data_roundtrip demo_region1 64 demo_region1_ok ltac:(vm_compute; done)))
    as (r & Hrun & reg' & -> & Hr & _).
  exists reg'. split; [exact Hrun|exact Hr].
Defined.
