(* ===== verification/Wait.v ===== *)
(** * Waits (server/thread.c, and the wait operations of server/event.c,
    server/semaphore.c and server/mutex.c)

    A thread has a stack of wait structures, [t_wait], the current one first.  A
    wait has one queue entry per object, linked in the [wait_queue] of the sync
    object.  The routines below check a wait, finish it, and wake the threads of
    an object's queue.

    Keyed events make the routines recursive: checking a wait on a keyed event
    may wake another thread, whose other waits are checked in turn.  Every level
    ends at least one wait, so [nwaits], the number of waits of all threads,
    bounds the depth. *)

From stdpp Require Import base list gmap fin_maps.
From S2P Require Import Prelude Access Object Handle.

Open Scope Z_scope.
Open Scope server_scope.

Definition STATUS_ABANDONED_WAIT_0 : Z := 0x80.
Definition STATUS_USER_APC : Z := 0xC0.
Definition STATUS_KERNEL_APC : Z := 0x100.
Definition STATUS_TIMEOUT : Z := 0x102.
Definition STATUS_THREAD_WAS_SUSPENDED : Z := 0x40000001.

Definition SELECT_ALERTABLE : Z := 1.
Definition SELECT_INTERRUPTIBLE : Z := 2.
Definition SELECT_COOPERATIVE_SUSPEND : Z := 4.

Definition nwaits (s : server) : nat :=
  Z.to_nat (msum (λ th, Z.of_nat (length (t_wait th))) (threads s)).

Definition get_thread (t : tid) : M thread := s <- get; deref (threads s !! t).
Definition put_thread (t : tid) (th : thread) : M unit := modify (set_threads (<[t:=th]>)).

(** The wait [thread->wait], with the waits behind it. *)
Definition top_wait (th : thread) : option thread_wait := head (t_wait th).

Definition set_top_wait (t : tid) (w : thread_wait) : M unit :=
  th <- get_thread t; put_thread t (th_wait (w :: tail (t_wait th)) th).

(** The wait a queue entry belongs to. *)
Definition find_wait (th : thread) (id : positive) : option thread_wait :=
  List.find (λ w, bool_decide (w_id w = id)) (t_wait th).
Definition get_wait_queue_wait (e : wait_queue_entry) : M thread_wait :=
  th <- get_thread (wq_thread e); deref (find_wait th (wq_wait e)).
Definition get_wait_queue_select_op (e : wait_queue_entry) : M select_opcode :=
  w <- get_wait_queue_wait e; ret (w_select w).
Definition get_wait_queue_key (e : wait_queue_entry) : M Z :=
  w <- get_wait_queue_wait e; ret (w_key w).

Definition is_thread_suspended (th : thread) (pr : process) : bool :=
  match t_context th with
  | Some c => if cooperative c then false
              else if negb (t_suspend th =? 0) then true
              else negb (t_bypass_proc_suspend th) && negb (p_suspend pr =? 0)
  | None => if negb (t_suspend th =? 0) then true
            else negb (t_bypass_proc_suspend th) && negb (p_suspend pr =? 0)
  end.
Definition thread_suspended (t : tid) : M bool :=
  th <- get_thread t; pr <- get_process (t_process th); ret (is_thread_suspended th pr).

(** ** Queues *)

Definition add_queue (o : oid) (e : wait_queue_entry) : M bool :=
  ob <- get_obj o; put_obj o (ob_queue (wait_queue ob ++ [e]) ob) ;; ret true.
Definition remove_queue (o : oid) (e : wait_queue_entry) : M unit :=
  ob <- get_obj o; put_obj o (ob_queue (filter (λ e', e' ≠ e) (wait_queue ob)) ob).

(** Whether the operations of an object have an [add_queue] entry. *)
Definition has_add_queue (ob : object) : bool :=
  match data ob with
  | event_sync_data _ _ | keyed_event_data | semaphore_sync_data _ _ | mutex_sync_data _ _ _ => true
  | _ => false
  end.

(** [get_obj_sync]: the sync object of an event, semaphore or mutex, and the
    object itself for the other types; grabbed. *)
Definition get_obj_sync (o : oid) : M oid :=
  ob <- get_obj o;
  match data ob with
  | event_data sync | semaphore_data sync | mutex_data sync => so <- deref sync; grab_object so
  | _ => grab_object o
  end.

(** ** Taking a mutex *)

Definition do_grab (o : oid) (t : tid) : M unit :=
  ob <- get_obj o;
  match data ob with
  | mutex_sync_data owner count abandoned =>
      assert ((count =? 0) || bool_decide (owner = Some t)) ;;
      if count =? 0 then
        put_obj o (ob_data (mutex_sync_data owner (w32 (count + 1)) abandoned) ob) ;;
        assert (match owner with None => true | Some _ => false end) ;;
        grab_object o ;;
        ob <- get_obj o;
        put_obj o (ob_data (mutex_sync_data (Some t) (w32 (count + 1)) abandoned) ob) ;;
        th <- get_thread t;
        put_thread t (th_mutex_list (o :: t_mutex_list th) th)
      else put_obj o (ob_data (mutex_sync_data owner (w32 (count + 1)) abandoned) ob)
  | _ => fail AssertFailed
  end.

(** ** The [satisfied] operations

    They tell whether the wait was made abandoned ([make_wait_abandoned]); [t] is
    the thread of the queue entry. *)

Definition event_sync_satisfied (o : oid) (ob : object) (manual signaled : bool) : M bool :=
  put_obj o (ob_data (event_sync_data manual (if manual then signaled else false)) ob) ;; ret false.

Definition semaphore_sync_satisfied (o : oid) (ob : object) (count max : Z) : M bool :=
  assert (negb (count =? 0)) ;;
  put_obj o (ob_data (semaphore_sync_data (count - 1) max) ob) ;; ret false.

Definition mutex_sync_satisfied (o : oid) (t : tid) : M bool :=
  do_grab o t ;;
  ob <- get_obj o;
  match data ob with
  | mutex_sync_data owner count abandoned =>
      put_obj o (ob_data (mutex_sync_data owner count false) ob) ;; ret abandoned
  | _ => fail AssertFailed
  end.

Definition ops_satisfied (o : oid) (t : tid) : M bool :=
  ob <- get_obj o;
  match data ob with
  | event_sync_data manual signaled => event_sync_satisfied o ob manual signaled
  | semaphore_sync_data count max => semaphore_sync_satisfied o ob count max
  | mutex_sync_data _ _ _ => mutex_sync_satisfied o t
  | _ => ret false
  end.

Definition object_sync_satisfied (o : oid) (t : tid) : M bool :=
  sync <- get_obj_sync o;
  r <- ops_satisfied sync t;
  release_object sync ;;
  ret r.

Definition object_sync_remove_queue (o : oid) (e : wait_queue_entry) : M unit :=
  sync <- get_obj_sync o;
  ob <- get_obj sync;
  (if has_add_queue ob then remove_queue sync e else fail NullDeref) ;;
  release_object sync.

Definition object_sync_add_queue (o : oid) (e : wait_queue_entry) : M bool :=
  sync <- get_obj_sync o;
  ob <- get_obj sync;
  r <- (if has_add_queue ob then add_queue sync e
        else set_error STATUS_OBJECT_TYPE_MISMATCH ;; ret false);
  release_object sync ;;
  ret r.

(** ** Finishing a wait *)

(** The loop over the objects of a wait on all of them. *)
Fixpoint satisfy_all (t : tid) (l : list oid) : M bool :=
  match l with
  | [] => ret false
  | o :: l => r <- object_sync_satisfied o t; r' <- satisfy_all t l; ret (r || r')
  end.

(** The loop that unlinks the entries, from entry [i] on. *)
Fixpoint unlink_queues (t : tid) (id : positive) (l : list oid) (i : Z) : M unit :=
  match l with
  | [] => ret tt
  | o :: l =>
      object_sync_remove_queue o (WaitQueueEntry t id i) ;;
      release_object o ;;
      unlink_queues t id l (i + 1)
  end.

(** The structure is unlinked from the thread at once; it is then read and
    written only here, so [abandoned] is the result of the [satisfied] calls. *)
Definition end_wait (t : tid) (status : Z) : M Z :=
  th <- get_thread t;
  match t_wait th with
  | [] => fail AssertFailed
  | wait :: next =>
      put_thread t (th_wait next th) ;;
      r <- (if status <? Z.of_nat (length (w_queues wait)) then
              ab <- match w_select wait with
                    | SELECT_WAIT_ALL => satisfy_all t (w_queues wait)
                    | _ => o <- deref (w_queues wait !! Z.to_nat status); object_sync_satisfied o t
                    end;
              ret (if w_abandoned wait || ab then status + STATUS_ABANDONED_WAIT_0 else status)
            else ret status);
      unlink_queues t (w_id wait) (w_queues wait) 0 ;;
      ret r
  end.

(** ** Waking a thread *)

(** The reply written on the wait pipe of the thread; the write is taken to
    succeed. *)
Definition send_thread_wakeup (t : tid) (cookie signaled : Z) : M unit :=
  th <- get_thread t;
  signaled <- match t_context th with
              | Some c =>
                  if (t_suspend_cookie th =? cookie) && negb (signaled =? STATUS_KERNEL_APC) &&
                     negb (signaled =? STATUS_USER_APC)
                  then if negb (ctx_flags c) then put_thread t (th_context None th) ;; ret signaled
                       else ret STATUS_KERNEL_APC
                  else ret signaled
              | None => ret signaled
              end;
  modify (set_wakeups (cons (t, cookie, signaled))).

Definition matching_op (op : select_opcode) : select_opcode :=
  match op with
  | SELECT_KEYED_EVENT_WAIT => SELECT_KEYED_EVENT_RELEASE
  | SELECT_KEYED_EVENT_RELEASE => SELECT_KEYED_EVENT_WAIT
  | op => op
  end.

Section check.
(** [wake_thread_queue_entry]. *)
Context (wake_entry : wait_queue_entry → M bool).

(** The loop of [keyed_event_signaled] over the entries of the queue. *)
Fixpoint keyed_event_match (e : wait_queue_entry) (p : pid) (op : select_opcode) (key : Z)
    (l : list wait_queue_entry) : M bool :=
  match l with
  | [] => ret false
  | ptr :: l =>
      if bool_decide (ptr = e) then keyed_event_match e p op key l
      else
        th <- get_thread (wq_thread ptr);
        if negb (bool_decide (t_process th = p)) then keyed_event_match e p op key l
        else
          op' <- get_wait_queue_select_op ptr;
          if negb (bool_decide (op' = matching_op op)) then keyed_event_match e p op key l
          else
            key' <- get_wait_queue_key ptr;
            if negb (key' =? key) then keyed_event_match e p op key l
            else
              r <- wake_entry ptr;
              if r : bool then ret true else keyed_event_match e p op key l
  end.

Definition keyed_event_signaled (ob : object) (e : wait_queue_entry) : M bool :=
  th <- get_thread (wq_thread e);
  op <- get_wait_queue_select_op e;
  match op with
  | SELECT_KEYED_EVENT_WAIT | SELECT_KEYED_EVENT_RELEASE =>
      key <- get_wait_queue_key e;
      keyed_event_match e (t_process th) op key (wait_queue ob)
  | _ => ret true
  end.

(** The [signaled] operation of each sync object. *)
Definition ops_signaled (o : oid) (e : wait_queue_entry) : M bool :=
  ob <- get_obj o;
  match data ob with
  | event_sync_data _ signaled => ret signaled
  | semaphore_sync_data count _ => ret (0 <? count)
  | mutex_sync_data owner count _ => ret ((count =? 0) || bool_decide (owner = Some (wq_thread e)))
  | keyed_event_data => keyed_event_signaled ob e
  | _ => fail NullDeref
  end.

Definition object_sync_signaled (o : oid) (e : wait_queue_entry) : M bool :=
  sync <- get_obj_sync o;
  r <- ops_signaled sync e;
  release_object sync ;;
  ret r.

(** The two loops of [check_wait], from entry [i] on: all the objects are asked
    in the first, the first signaled one ends the second. *)
Fixpoint all_signaled (t : tid) (id : positive) (l : list oid) (i : Z) : M bool :=
  match l with
  | [] => ret true
  | o :: l =>
      r <- object_sync_signaled o (WaitQueueEntry t id i);
      r' <- all_signaled t id l (i + 1);
      ret (r && r')
  end.

Fixpoint first_signaled (t : tid) (id : positive) (l : list oid) (i : Z) : M Z :=
  match l with
  | [] => ret (-1)
  | o :: l =>
      r <- object_sync_signaled o (WaitQueueEntry t id i);
      if r : bool then ret i else first_signaled t id l (i + 1)
  end.

(** The end of [check_wait]: user APCs and the timeout. *)
Definition check_timeout (th : thread) (wait : thread_wait) : M Z :=
  s <- get;
  if has (w_flags wait) SELECT_ALERTABLE && negb (bool_decide (t_user_apc th = [])) then ret STATUS_USER_APC
  else if (0 <=? w_when wait) && (w_when wait <=? current_time s) then ret STATUS_TIMEOUT
  else if (w_when wait <? 0) && (- w_when wait <=? monotonic_time s) then ret STATUS_TIMEOUT
  else ret (-1).

Definition check_wait (t : tid) : M Z :=
  th <- get_thread t;
  wait <- match t_wait th with [] => fail AssertFailed | w :: _ => ret w end;
  if has (w_flags wait) SELECT_INTERRUPTIBLE && negb (bool_decide (t_system_apc th = []))
  then ret STATUS_KERNEL_APC
  else
    match (if has (w_flags wait) SELECT_COOPERATIVE_SUSPEND then t_context th else None) with
    | Some c =>
        put_thread t (th_context (Some (ThreadContext true (ctx_flags c))) th) ;;
        ret STATUS_THREAD_WAS_SUSPENDED
    | None =>
        suspended <- thread_suspended t;
        if suspended : bool then ret (-1)
        else
          r <- match w_select wait with
               | SELECT_WAIT_ALL =>
                   ok <- all_signaled t (w_id wait) (w_queues wait) 0; ret (if ok : bool then 0 else -1)
               | _ => first_signaled t (w_id wait) (w_queues wait) 0
               end;
          if negb (r =? -1) then ret r
          else th <- get_thread t; check_timeout th wait
    end.

(** The loop of [wake_thread]; [n] bounds the waits of the thread. *)
Fixpoint wake_thread_loop (n : nat) (t : tid) (count : Z) : M Z :=
  th <- get_thread t;
  match t_wait th with
  | [] => ret count
  | _ =>
      match n with
      | O => fail OutOfFuel
      | S n =>
          signaled <- check_wait t;
          if signaled =? -1 then ret count
          else
            th <- get_thread t;
            wait <- deref (top_wait th);
            signaled <- end_wait t signaled;
            (if negb (w_cookie wait =? 0) then send_thread_wakeup t (w_cookie wait) signaled else ret tt) ;;
            wake_thread_loop n t (count + 1)
      end
  end.
End check.

(** [wake_thread_queue_entry], with [n] levels of recursion through keyed events
    left; each level ends a wait. *)
Fixpoint wake_entry_depth (n : nat) (e : wait_queue_entry) : M bool :=
  th <- get_thread (wq_thread e);
  match t_wait th with
  | wait :: _ =>
      if negb (bool_decide (w_id wait = wq_wait e)) then ret false
      else
        suspended <- thread_suspended (wq_thread e);
        if suspended : bool then ret false
        else
          assert (negb (bool_decide (w_select wait = SELECT_WAIT_ALL))) ;;
          match n with
          | O => fail OutOfFuel
          | S n =>
              signaled <- end_wait (wq_thread e) (wq_index e);
              (if negb (w_cookie wait =? 0)
               then send_thread_wakeup (wq_thread e) (w_cookie wait) signaled else ret tt) ;;
              s <- get;
              wake_thread_loop (wake_entry_depth n) (nwaits s) (wq_thread e) 0 ;;
              ret true
          end
  | [] => ret false
  end.

Definition wake_thread_queue_entry (e : wait_queue_entry) : M bool :=
  s <- get; wake_entry_depth (nwaits s) e.

Definition check_wait_now (t : tid) : M Z :=
  s <- get; check_wait (wake_entry_depth (nwaits s)) t.

Definition wake_thread (t : tid) : M Z :=
  s <- get; wake_thread_loop (wake_entry_depth (nwaits s)) (nwaits s) t 0.

(** ** Waking the threads of an object *)

(** The entries linked after [e]. *)
Fixpoint next_after (e : wait_queue_entry) (l : list wait_queue_entry) : list wait_queue_entry :=
  match l with
  | [] => []
  | e' :: l => if bool_decide (e' = e) then l else next_after e l
  end.

(** The loop of [wake_up] with the entries [l] still to visit.  After a wakeup it
    starts again at the head of the list; [n] bounds the iterations. *)
Fixpoint wake_up_loop (n : nat) (o : oid) (max : Z) (l : list wait_queue_entry) : M unit :=
  match l with
  | [] => ret tt
  | e :: _ =>
      match n with
      | O => fail OutOfFuel
      | S n =>
          r <- wake_thread (wq_thread e);
          if r =? 0 then ob <- get_obj o; wake_up_loop n o max (next_after e (wait_queue ob))
          else if (0 <? r) && negb (max =? 0) && (max - 1 =? 0) then ret tt
          else
            ob <- get_obj o;
            wake_up_loop n o (if (0 <? r) && negb (max =? 0) then max - 1 else max) (wait_queue ob)
      end
  end.

(** Between two wakeups the loop visits the queue at most once, and every wakeup
    ends a wait. *)
Definition wake_up (o : oid) (max : Z) : M unit :=
  s <- get;
  ob <- get_obj o;
  wake_up_loop (S (nwaits s) * S (length (wait_queue ob))) o max (wait_queue ob).
