(* ===== verification/Sync.v ===== *)
(** * Events, semaphores, mutexes and the select operation (server/event.c,
    server/semaphore.c, server/mutex.c, server/thread.c, server/object.c)

    The operations that change the state of a sync object and wake its waiters,
    the creation of the objects, their requests, and [select_on], which starts a
    wait.  Objects are created here without a name and without an explicit
    security descriptor.  The server is the build without the in-process
    synchronization device, so [get_inproc_device_fd] is [-1] and the
    [create_inproc_*_sync] functions return [NULL]. *)

From stdpp Require Import base list gmap fin_maps.
From S2P Require Import Prelude Access Object Handle Wait.

Open Scope Z_scope.
Open Scope server_scope.

Definition STATUS_PENDING : Z := 0x103.
Definition STATUS_INVALID_PARAMETER : Z := 0xC000000D.
Definition STATUS_MUTANT_NOT_OWNED : Z := 0xC0000046.
Definition STATUS_SEMAPHORE_LIMIT_EXCEEDED : Z := 0xC0000047.
Definition STATUS_SUSPEND_COUNT_EXCEEDED : Z := 0xC000004A.
Definition STATUS_OBJECT_NAME_EXISTS : Z := 0x40000000.

Definition EVENT_QUERY_STATE : Z := 1.
Definition EVENT_MODIFY_STATE : Z := 2.
Definition SEMAPHORE_QUERY_STATE : Z := 1.
Definition SEMAPHORE_MODIFY_STATE : Z := 2.
Definition MUTANT_QUERY_STATE : Z := 1.
Definition KEYEDEVENT_WAIT : Z := 1.
Definition KEYEDEVENT_WAKE : Z := 2.
Definition OBJ_PERMANENT : Z := 0x10.

Definition MAXIMUM_WAIT_OBJECTS : Z := 64.
Definition MAXIMUM_SUSPEND_COUNT : Z := 127.
Definition TIMEOUT_INFINITE : Z := 0x7fffffffffffffff.

(** ** Changing the state of a sync object *)

Definition event_sync_signal (o : oid) (signal : Z) : M bool :=
  ob <- get_obj o;
  match data ob with
  | event_sync_data manual _ =>
      let signaled := negb (signal =? 0) in
      put_obj o (ob_data (event_sync_data manual signaled) ob) ;;
      (if signaled then wake_up o (if manual then 0 else 1) else ret tt) ;;
      ret true
  | _ => fail AssertFailed
  end.

(** The new count is computed in unsigned arithmetic, and the number of threads
    to wake is an [int]; the previous count is the value stored through [prev]. *)
Definition release_semaphore (o : oid) (n : Z) : M (bool * Z) :=
  ob <- get_obj o;
  match data ob with
  | semaphore_sync_data count max =>
      if (w32 (count + n) <? count) || (max <? w32 (count + n)) then
        set_error STATUS_SEMAPHORE_LIMIT_EXCEEDED ;; ret (false, count)
      else if negb (count =? 0) then
        put_obj o (ob_data (semaphore_sync_data (w32 (count + n)) max) ob) ;; ret (true, count)
      else
        put_obj o (ob_data (semaphore_sync_data n max) ob) ;;
        wake_up o (int32 n) ;; ret (true, count)
  | _ => fail AssertFailed
  end.

(** [list_remove] of a mutex from the list of its owner. *)
Definition unlink_mutex (o : oid) (t : tid) : M unit :=
  th <- get_thread t; put_thread t (th_mutex_list (filter (λ p, p ≠ o) (t_mutex_list th)) th).

Definition do_release (o : oid) (t : tid) (n : Z) : M bool :=
  ob <- get_obj o;
  match data ob with
  | mutex_sync_data owner count abandoned =>
      if (count =? 0) || negb (bool_decide (owner = Some t)) then
        set_error STATUS_MUTANT_NOT_OWNED ;; ret false
      else
        let count := w32 (count - n) in
        put_obj o (ob_data (mutex_sync_data owner count abandoned) ob) ;;
        (if count =? 0 then
           unlink_mutex o t ;;
           ob <- get_obj o;
           put_obj o (ob_data (mutex_sync_data None count abandoned) ob) ;;
           wake_up o 0 ;;
           release_object o
         else ret tt) ;;
        ret true
  | _ => fail AssertFailed
  end.

(** The loop of [abandon_mutexes]; [n] bounds the mutexes the thread owns. *)
Fixpoint abandon_loop (n : nat) (t : tid) : M unit :=
  th <- get_thread t;
  match t_mutex_list th with
  | [] => ret tt
  | o :: _ =>
      match n with
      | O => fail OutOfFuel
      | S n =>
          ob <- get_obj o;
          match data ob with
          | mutex_sync_data owner count _ =>
              assert (bool_decide (owner = Some t)) ;;
              put_obj o (ob_data (mutex_sync_data owner count true) ob) ;;
              do_release o t count ;;
              abandon_loop n t
          | _ => fail AssertFailed
          end
      end
  end.

Definition abandon_mutexes (t : tid) : M unit :=
  th <- get_thread t; abandon_loop (length (t_mutex_list th)) t.

(** [signal_sync] and [reset_sync] call the [signal] operation of a sync object. *)
Definition signal_sync (o : oid) : M bool := event_sync_signal o 1.
Definition reset_sync (o : oid) : M bool := event_sync_signal o 0.

(** ** The [signal] operation of the objects, called by [signal_object] *)

(** The sync object of an event, semaphore or mutex, checked to be of the kind
    the server implements itself. *)
Definition own_sync (sync : option oid) (kind : ops) : M oid :=
  so <- deref sync; ob <- get_obj so; assert (bool_decide (obj_ops ob = kind)) ;; ret so.

Definition event_signal (sync : option oid) (access : Z) : M bool :=
  so <- own_sync sync event_sync_ops;
  if negb (has access EVENT_MODIFY_STATE) then set_error STATUS_ACCESS_DENIED ;; ret false
  else event_sync_signal so 1.

Definition semaphore_signal (sync : option oid) (access : Z) : M bool :=
  so <- own_sync sync semaphore_sync_ops;
  if negb (has access SEMAPHORE_MODIFY_STATE) then set_error STATUS_ACCESS_DENIED ;; ret false
  else r <- release_semaphore so 1; ret (fst r).

Definition mutex_signal (sync : option oid) (access : Z) : M bool :=
  so <- own_sync sync mutex_sync_ops;
  if negb (has access SYNCHRONIZE) then set_error STATUS_ACCESS_DENIED ;; ret false
  else s <- get; t <- deref (current s); do_release so t 1.

Definition signal_object (handle : Z) : M bool :=
  p <- current_process;
  o <- get_handle_obj (Some p) handle 0 None;
  match o with
  | None => ret false
  | Some o =>
      ob <- get_obj o;
      access <- get_handle_access p handle;
      r <- match data ob with
           | event_data sync => event_signal sync access
           | semaphore_data sync => semaphore_signal sync access
           | mutex_data sync => mutex_signal sync access
           | event_sync_data _ _ => event_sync_signal o (-1)
           | inproc_sync_data _ _ => fail AssertFailed
           | _ => set_error STATUS_OBJECT_TYPE_MISMATCH ;; ret false
           end;
      release_object o ;;
      ret r
  end.

(** ** Starting a wait *)

Definition wait_ids (s : server) : gset positive :=
  list_to_set (w_id <$> (map_to_list (threads s) ≫= λ p, t_wait (snd p))).

(** The loop of [wait_on] over the objects not yet queued: [i] is the index of
    the first of them.  [w_queues] holds the entries queued so far, which is what
    [wait->count] is set to when one fails. *)
Fixpoint queue_objects (t : tid) (objects : list oid) (i : Z) : M bool :=
  match objects with
  | [] => ret true
  | o :: objects =>
      th <- get_thread t;
      wait <- deref (top_wait th);
      ok <- object_sync_add_queue o (WaitQueueEntry t (w_id wait) i);
      if negb ok then err <- get_error; end_wait t err ;; ret false
      else
        o <- grab_object o;
        set_top_wait t (ThreadWait (w_id wait) (w_queues wait ++ [o]) (w_flags wait) (w_abandoned wait)
          (w_select wait) (w_key wait) (w_cookie wait) (w_when wait) (w_user wait) (w_status wait)) ;;
        queue_objects t objects (i + 1)
  end.

Definition wait_on (op : select_opcode) (objects : list oid) (flags when : Z) : M bool :=
  ok <- mem_alloc;
  if negb ok then ret false
  else
    s <- get;
    t <- deref (current s);
    th <- get_thread t;
    put_thread t (th_wait (ThreadWait (fresh (wait_ids s)) [] flags false op 0 0 when false 0 :: t_wait th) th) ;;
    ok <- queue_objects t objects 0;
    if negb ok then ret false
    else th <- get_thread t; ret (match t_wait th with [] => false | _ => true end).

(** The objects of the handles, up to the first invalid one; the flag tells
    whether all were valid. *)
Fixpoint get_objects (p : pid) (handles : list Z) : M (list oid * bool) :=
  match handles with
  | [] => ret ([], true)
  | h :: handles =>
      o <- get_handle_obj (Some p) h SYNCHRONIZE None;
      match o with
      | None => ret ([], false)
      | Some o => r <- get_objects p handles; ret (o :: fst r, snd r)
      end
  end.

(** [while (i > 0) release_object( objects[--i] )]. *)
Fixpoint release_objects (l : list oid) : M unit :=
  match l with
  | [] => ret tt
  | o :: l => release_objects l ;; release_object o
  end.

Definition wait_on_handles (op : select_opcode) (handles : list Z) (flags when : Z) : M bool :=
  assert (Z.of_nat (length handles) <=? MAXIMUM_WAIT_OBJECTS) ;;
  p <- current_process;
  r <- get_objects p handles;
  ok <- (if snd r : bool then wait_on op (fst r) flags when else ret false);
  release_objects (fst r) ;;
  ret ok.

(** [union select_op]: the handles of the two wait operations are [None] when the
    request is too short to hold the opcode and the array. *)
Inductive select_op :=
| sel_none
| sel_wait (all : bool) (handles : option (list Z))
| sel_signal_and_wait (wait signal : Z)
| sel_keyed_event (release : bool) (handle key : Z)
| sel_unknown.

Definition opcode (op : select_op) : select_opcode :=
  match op with
  | sel_none | sel_unknown => SELECT_NONE
  | sel_wait all _ => if all then SELECT_WAIT_ALL else SELECT_WAIT
  | sel_signal_and_wait _ _ => SELECT_SIGNAL_AND_WAIT
  | sel_keyed_event release _ _ => if release then SELECT_KEYED_EVENT_RELEASE else SELECT_KEYED_EVENT_WAIT
  end.

(** The [switch] of [select_on]: whether the wait was queued and is to be checked. *)
Definition select_start (op : select_op) (flags when : Z) : M bool :=
  match op with
  | sel_none => wait_on (opcode op) [] flags when
  | sel_wait _ handles =>
      match handles with
      | None => set_error STATUS_INVALID_PARAMETER ;; ret false
      | Some hs =>
          if MAXIMUM_WAIT_OBJECTS <? Z.of_nat (length hs)
          then set_error STATUS_INVALID_PARAMETER ;; ret false
          else wait_on_handles (opcode op) hs flags when
      end
  | sel_signal_and_wait wait signal =>
      ok <- wait_on_handles (opcode op) [wait] flags when;
      if negb ok then ret false
      else if negb (signal =? 0) then
        ok <- signal_object signal;
        s <- get;
        t <- deref (current s);
        if negb ok then err <- get_error; end_wait t err ;; ret false
        else th <- get_thread t; ret (match t_wait th with [] => false | _ => true end)
      else ret true
  | sel_keyed_event release handle key =>
      p <- current_process;
      o <- get_handle_obj (Some p) handle (if release then KEYEDEVENT_WAKE else KEYEDEVENT_WAIT)
             (Some keyed_event_ops);
      match o with
      | None => ret false
      | Some o =>
          ok <- wait_on (opcode op) [o] flags when;
          release_object o ;;
          if negb ok then ret false
          else
            s <- get;
            t <- deref (current s);
            th <- get_thread t;
            w <- deref (top_wait th);
            set_top_wait t (ThreadWait (w_id w) (w_queues w) (w_flags w) (w_abandoned w)
              (w_select w) key (w_cookie w) (w_when w) (w_user w) (w_status w)) ;;
            ret true
      end
  | sel_unknown => set_error STATUS_INVALID_PARAMETER ;; ret false
  end.

(** [select_on] returns 1 when the wait is over, successfully or not, and 0 when
    the thread has to wait.  The timeout user of a wait is its flag [w_user]. *)
Definition select_on (op : select_op) (cookie flags when : Z) : M Z :=
  ok <- select_start op flags when;
  if negb ok then ret 1
  else
    s <- get;
    t <- deref (current s);
    r <- check_wait_now t;
    if negb (r =? -1) then e <- end_wait t r; set_error e ;; ret 1
    else
      th <- get_thread t;
      w <- deref (top_wait th);
      user <- (if negb (w_when w =? TIMEOUT_INFINITE) then ok <- mem_alloc; ret (Some ok : option bool)
               else ret None);
      match user with
      | Some false => err <- get_error; end_wait t err ;; ret 1
      | _ =>
          set_top_wait t (ThreadWait (w_id w) (w_queues w) (w_flags w) (w_abandoned w) (w_select w) (w_key w)
            cookie (w_when w) (match user with Some _ => true | None => w_user w end) (w_status w)) ;;
          set_error STATUS_PENDING ;; ret 0
      end.

(** The callback of the timeout of wait [id] of thread [t]. *)
Definition thread_timeout (t : tid) (id : positive) : M unit :=
  th <- get_thread t;
  wait <- deref (find_wait th id);
  put_thread t (th_wait ((λ w, if bool_decide (w_id w = id)
    then ThreadWait (w_id w) (w_queues w) (w_flags w) (w_abandoned w) (w_select w) (w_key w)
           (w_cookie w) (w_when w) false (w_status w) else w) <$> t_wait th) th) ;;
  if negb (match top_wait th with Some w => bool_decide (w_id w = id) | None => false end) then ret tt
  else
    suspended <- thread_suspended t;
    if suspended : bool then ret tt
    else
      end_wait t STATUS_TIMEOUT ;;
      assert (negb (w_cookie wait =? 0)) ;;
      send_thread_wakeup t (w_cookie wait) STATUS_TIMEOUT ;;
      wake_thread t ;;
      ret tt.

(** ** Creating the objects *)

(** The in-process variants of a build without the device. *)
Definition create_inproc_event_sync : M (option oid) := ret None.
Definition create_inproc_semaphore_sync : M (option oid) := ret None.
Definition create_inproc_mutex_sync : M (option oid) := ret None.

Definition create_event_sync (manual signaled : bool) : M (option oid) :=
  fd <- gets inproc_device_fd;
  if 0 <=? fd then create_inproc_event_sync
  else alloc_object (event_sync_data manual signaled).

Definition create_semaphore_sync (initial max : Z) : M (option oid) :=
  fd <- gets inproc_device_fd;
  if 0 <=? fd then create_inproc_semaphore_sync
  else alloc_object (semaphore_sync_data initial max).

Definition create_mutex_sync (owned : bool) : M (option oid) :=
  fd <- gets inproc_device_fd;
  if 0 <=? fd then create_inproc_mutex_sync
  else
    o <- alloc_object (mutex_sync_data None 0 false);
    match o with
    | None => ret None
    | Some o =>
        (if owned then s <- get; t <- deref (current s); do_grab o t else ret tt) ;;
        ret (Some o)
    end.

(** The [init] operations store the new sync object and tell whether there is one. *)
Definition event_init (manual signaled : bool) (o : oid) : M bool :=
  sync <- create_event_sync manual signaled;
  ob <- get_obj o;
  put_obj o (ob_data (event_data sync) ob) ;;
  ret (match sync with Some _ => true | None => false end).

Definition semaphore_init (initial max : Z) (o : oid) : M bool :=
  sync <- create_semaphore_sync initial max;
  ob <- get_obj o;
  put_obj o (ob_data (semaphore_data sync) ob) ;;
  ret (match sync with Some _ => true | None => false end).

Definition mutex_init (owned : bool) (o : oid) : M bool :=
  sync <- create_mutex_sync owned;
  ob <- get_obj o;
  put_obj o (ob_data (mutex_data sync) ob) ;;
  ret (match sync with Some _ => true | None => false end).

Definition create_object_without_name (d : obj_data) (init : oid → M bool) : M (option oid) :=
  o <- alloc_object d;
  match o with
  | None => ret None
  | Some o =>
      ok <- init o;
      if ok : bool then ret (Some o) else free_object o ;; ret None
  end.

(** [create_named_obj_handle] with an empty name. *)
Definition create_obj_handle (p : pid) (d : obj_data) (init : oid → M bool) (access attr : Z) : M Z :=
  clear_error ;;
  o <- create_object_without_name d init;
  match o with
  | None => ret 0
  | Some o =>
      err <- get_error;
      if err =? STATUS_OBJECT_NAME_EXISTS then
        h <- alloc_handle p o access attr; release_object o ;; ret h
      else
        h <- alloc_handle_no_access_check p o access attr;
        (if negb (h =? 0) && has attr OBJ_PERMANENT then make_object_permanent o else release_object o) ;;
        ret h
  end.

(** ** Requests *)

Definition req_create_event (access attr : Z) (manual_reset initial_state : bool) : M Z :=
  p <- current_process;
  create_obj_handle p (event_data None) (event_init manual_reset initial_state) access attr.

Definition req_create_keyed_event (access attr : Z) : M Z :=
  p <- current_process;
  create_obj_handle p keyed_event_data (λ _, ret true) access attr.

Definition req_create_semaphore (access attr initial max : Z) : M Z :=
  if (max =? 0) || (max <? initial) then set_error STATUS_INVALID_PARAMETER ;; ret 0
  else
    p <- current_process;
    create_obj_handle p (semaphore_data None) (semaphore_init initial max) access attr.

Definition req_create_mutex (access attr : Z) (owned : bool) : M Z :=
  p <- current_process;
  create_obj_handle p (mutex_data None) (mutex_init owned) access attr.

(** The sync object of an object known to be of type [kind]. *)
Definition sync_of (o : oid) (kind : ops) : M oid :=
  ob <- get_obj o;
  own_sync (match data ob with event_data s | semaphore_data s | mutex_data s => s | _ => None end) kind.

Inductive event_op := PULSE_EVENT | SET_EVENT | RESET_EVENT | UNKNOWN_EVENT_OP.

Definition set_event (sync : oid) : M bool := signal_sync sync.
Definition reset_event (sync : oid) : M bool := reset_sync sync.

(** The state of the event before the operation. *)
Definition req_event_op (handle : Z) (op : event_op) : M (option bool) :=
  p <- current_process;
  o <- get_handle_obj (Some p) handle EVENT_MODIFY_STATE (Some event_ops);
  match o with
  | None => ret None
  | Some o =>
      so <- sync_of o event_sync_ops;
      ob <- get_obj so;
      state <- match data ob with event_sync_data _ signaled => ret signaled | _ => fail AssertFailed end;
      match op with
      | PULSE_EVENT => set_event so ;; reset_event so ;; ret tt
      | SET_EVENT => set_event so ;; ret tt
      | RESET_EVENT => reset_event so ;; ret tt
      | UNKNOWN_EVENT_OP => set_error STATUS_INVALID_PARAMETER
      end ;;
      release_object o ;;
      ret (Some state)
  end.

(** Manual reset and state. *)
Definition req_query_event (handle : Z) : M (option (bool * bool)) :=
  p <- current_process;
  o <- get_handle_obj (Some p) handle EVENT_QUERY_STATE (Some event_ops);
  match o with
  | None => ret None
  | Some o =>
      so <- sync_of o event_sync_ops;
      ob <- get_obj so;
      r <- match data ob with event_sync_data m s => ret (m, s) | _ => fail AssertFailed end;
      release_object o ;;
      ret (Some r)
  end.

(** The count before the release. *)
Definition req_release_semaphore (handle count : Z) : M (option Z) :=
  p <- current_process;
  o <- get_handle_obj (Some p) handle SEMAPHORE_MODIFY_STATE (Some semaphore_ops);
  match o with
  | None => ret None
  | Some o =>
      so <- sync_of o semaphore_sync_ops;
      r <- release_semaphore so count;
      release_object o ;;
      ret (Some (snd r))
  end.

(** Current and maximum count. *)
Definition req_query_semaphore (handle : Z) : M (option (Z * Z)) :=
  p <- current_process;
  o <- get_handle_obj (Some p) handle SEMAPHORE_QUERY_STATE (Some semaphore_ops);
  match o with
  | None => ret None
  | Some o =>
      so <- sync_of o semaphore_sync_ops;
      ob <- get_obj so;
      r <- match data ob with semaphore_sync_data c m => ret (c, m) | _ => fail AssertFailed end;
      release_object o ;;
      ret (Some r)
  end.

(** The recursion count before the release. *)
Definition req_release_mutex (handle : Z) : M (option Z) :=
  p <- current_process;
  o <- get_handle_obj (Some p) handle 0 (Some mutex_ops);
  match o with
  | None => ret None
  | Some o =>
      so <- sync_of o mutex_sync_ops;
      ob <- get_obj so;
      count <- match data ob with mutex_sync_data _ c _ => ret c | _ => fail AssertFailed end;
      s <- get;
      t <- deref (current s);
      do_release so t 1 ;;
      release_object o ;;
      ret (Some count)
  end.

(** Count, whether the current thread owns it, and whether it was abandoned. *)
Definition req_query_mutex (handle : Z) : M (option (Z * bool * bool)) :=
  p <- current_process;
  o <- get_handle_obj (Some p) handle MUTANT_QUERY_STATE (Some mutex_ops);
  match o with
  | None => ret None
  | Some o =>
      so <- sync_of o mutex_sync_ops;
      ob <- get_obj so;
      s <- get;
      r <- match data ob with
           | mutex_sync_data owner c ab => ret (c, bool_decide (owner = current s), ab)
           | _ => fail AssertFailed
           end;
      release_object o ;;
      ret (Some r)
  end.
