(* ===== verification/SyncInv.v ===== *)
(** * The invariant of waits and sync objects

    A wait of a thread holds a reference on each of its objects and has an entry
    in the queue of the sync object of each; a thread that owns a mutex holds a
    reference on its sync object.  [waits_ok] relates queues, waits and mutex
    owners; [sync_ok] adds the reference counts of [ObjectInv].  Both take a list
    [D] of detached entries: those of a wait that [end_wait] has taken off its
    thread and not unlinked yet. *)

From stdpp Require Import base list gmap fin_maps.
From S2P Require Import Prelude Access Object ObjectInv Handle HandleInv HandleThms Wait.

Open Scope Z_scope.
Open Scope server_scope.

(** ** Waits and their objects *)

Notation pair_entry := (wait_queue_entry * oid)%type (only parsing).

Definition wait_pairs (t : tid) (w : thread_wait) : list pair_entry :=
  imap (λ i o, (WaitQueueEntry t (w_id w) (Z.of_nat i), o)) (w_queues w).
Definition thread_pairs (t : tid) (th : thread) : list pair_entry := t_wait th ≫= wait_pairs t.

(** The references a thread holds: the objects it waits on and the mutexes it owns. *)
Definition thread_refs (th : thread) : list oid := (t_wait th ≫= w_queues) ++ t_mutex_list th.

Definition wrefs (s : server) (o : oid) : Z := msum (λ th, occ o (thread_refs th)) (threads s).

(** The number of entries of all waits. *)
Definition npairs (s : server) : Z := msum (λ th, Z.of_nat (length (t_wait th ≫= w_queues))) (threads s).

(** Outside references [x], with those of the threads and of the detached entries. *)
Definition wx (x : xrefs) (D : list pair_entry) (s : server) : xrefs :=
  XRefs (λ o, x_ref x o + (wrefs s o + occ o (snd <$> D))) (x_handle x) (λ o, wrefs s o + occ o (snd <$> D)).

(** The sync object of an object. *)
Definition sync_at (h : gmap oid object) (o : oid) : option oid :=
  ob ← h !! o;
  match data ob with event_data s | semaphore_data s | mutex_data s => s | _ => Some o end.

(** A queue entry of a thread or of a detached wait. *)
Definition pending (s : server) (D : list pair_entry) (e : wait_queue_entry) (o : oid) : Prop :=
  (∃ th, threads s !! wq_thread e = Some th ∧ (e, o) ∈ thread_pairs (wq_thread e) th) ∨ (e, o) ∈ D.

Definition plain_op (op : select_opcode) : bool :=
  match op with SELECT_KEYED_EVENT_WAIT | SELECT_KEYED_EVENT_RELEASE => false | _ => true end.

(** A wait the theorems cover: not on the key of a keyed event, on at most 64
    objects and, when it waits for all of them, on distinct sync objects. *)
Definition wait_ok (h : gmap oid object) (w : thread_wait) : Prop :=
  plain_op (w_select w) = true ∧ (length (w_queues w) <= 64)%nat ∧
  (w_select w = SELECT_WAIT_ALL → NoDup (sync_at h <$> w_queues w)).

Definition sync_data_ok (s : server) (so : oid) (d : obj_data) : Prop :=
  match d with
  | mutex_sync_data owner count _ =>
      match owner with
      | None => count = 0
      | Some t => 0 < count ∧ ∃ th, threads s !! t = Some th ∧ so ∈ t_mutex_list th
      end
  | semaphore_sync_data count max => 0 <= count <= max ∧ max < 4294967296
  | _ => True
  end.

Record waits_ok (D : list pair_entry) (s : server) : Prop := {
  wk_queue : ∀ so sob e, objs s !! so = Some sob → e ∈ wait_queue sob →
    ∃ o, pending s D e o ∧ sync_at (objs s) o = Some so;
  wk_entries : ∀ so sob, objs s !! so = Some sob → NoDup (wait_queue sob);
  wk_sync : ∀ e o, pending s D e o → ∃ so sob, sync_at (objs s) o = Some so ∧
    objs s !! so = Some sob ∧ has_add_queue sob = true;
  wk_wait : ∀ t th w, threads s !! t = Some th → w ∈ t_wait th → wait_ok (objs s) w;
  wk_data : ∀ so sob, objs s !! so = Some sob → sync_data_ok s so (data sob);
  wk_owned : ∀ t th so, threads s !! t = Some th → so ∈ t_mutex_list th →
    ∃ sob c ab, objs s !! so = Some sob ∧ data sob = mutex_sync_data (Some t) c ab;
  wk_nodup : ∀ t th, threads s !! t = Some th → NoDup (t_mutex_list th);
  wk_proc : ∀ t th, threads s !! t = Some th → is_Some (procs s !! t_process th);
  wk_linked : ∀ t th e o so sob, threads s !! t = Some th → (e, o) ∈ thread_pairs t th →
    sync_at (objs s) o = Some so → objs s !! so = Some sob → e ∈ wait_queue sob;
  wk_ids : ∀ t th, threads s !! t = Some th → NoDup (w_id <$> t_wait th);
  wk_detached : ∀ e o th w, (e, o) ∈ D → threads s !! wq_thread e = Some th → w ∈ t_wait th → w_id w ≠ wq_wait e;
}.

Record sync_ok (x : xrefs) (D : list pair_entry) (s : server) : Prop := {
  sy_heap : heap_ok (wx x D s) (objs s);
  sy_waits : waits_ok D s;
  sy_x : ∀ o, 0 <= x_handle x o <= x_ref x o;
}.

(** Room for [n] more references and recursive acquisitions. *)
Definition slack (s : server) (n : Z) : Prop :=
  ∀ o ob, objs s !! o = Some ob → refcount ob + n <= INT_MAX ∧
    ∀ ow c ab, data ob = mutex_sync_data ow c ab → c + n < 4294967296.

Lemma slack_weaken s n m : slack s n → m <= n → slack s m.
Proof. intros Hs Hm o ob Ho. destruct (Hs o ob Ho) as [A B]. split; [lia|]. intros. specialize (B _ _ _ H). lia. Qed.

(** ** Elementary facts *)

Lemma wait_pairs_snd t w : snd <$> wait_pairs t w = w_queues w.
Proof.
  unfold wait_pairs. rewrite fmap_imap. apply list_eq. intros i. rewrite list_lookup_imap.
  by destruct (w_queues w !! i).
Qed.

Lemma thread_pairs_snd t th : snd <$> thread_pairs t th = t_wait th ≫= w_queues.
Proof.
  unfold thread_pairs. induction (t_wait th) as [|w l IH]; [done|].
  change (snd <$> (wait_pairs t w ++ (l ≫= wait_pairs t)) = w_queues w ++ (l ≫= w_queues)).
  by rewrite fmap_app, wait_pairs_snd, IH.
Qed.

Lemma wrefs_nonneg s o : 0 <= wrefs s o.
Proof. apply msum_nonneg. intros. apply occ_nonneg. Qed.

Lemma wrefs_thread s t th o : threads s !! t = Some th → o ∈ thread_refs th → 0 < wrefs s o.
Proof.
  intros Ht Ho. assert (occ o (thread_refs th) <= wrefs s o).
  { apply (msum_lookup_le (λ th, occ o (thread_refs th)) _ t); [intros; apply occ_nonneg|done]. }
  pose proof (occ_pos o _ Ho). lia.
Qed.

(** A pending entry holds its object. *)
Lemma pending_held x D s e o : pending s D e o → 0 < x_held (wx x D s) o.
Proof.
  intros Hp. simpl. pose proof (wrefs_nonneg s o). pose proof (occ_nonneg o (snd <$> D)).
  destruct Hp as [(th & Ht & Hin)|Hin].
  - assert (0 < wrefs s o); [|lia]. eapply wrefs_thread; [done|]. apply elem_of_app. left.
    rewrite <-(thread_pairs_snd (wq_thread e)). apply list_elem_of_fmap. by exists (e, o).
  - assert (0 < occ o (snd <$> D)); [|lia]. apply occ_pos. apply list_elem_of_fmap. by exists (e, o).
Qed.

Lemma sync_at_cases h o so : sync_at h o = Some so → ∃ ob, h !! o = Some ob ∧ (o = so ∨ sync_target (data ob) = Some so).
Proof.
  unfold sync_at. destruct (h !! o) as [ob|]; [|done]. simpl. intros H. exists ob. split; [done|].
  destruct (data ob); simplify_eq/=; auto.
Qed.

(** The conditions of [heap_ok] on queues and owners follow from [waits_ok]. *)
Lemma waits_waited x D s so sob : waits_ok D s → objs s !! so = Some sob → wait_queue sob ≠ [] →
  ∃ e obe, 0 < x_held (wx x D s) e ∧ objs s !! e = Some obe ∧ (e = so ∨ sync_target (data obe) = Some so).
Proof.
  intros Hw Hso Hq. destruct (wait_queue sob) as [|e q] eqn:Eq; [done|].
  destruct (wk_queue _ _ Hw so sob e Hso) as (o & Hp & Hsy); [rewrite Eq; by left|].
  destruct (sync_at_cases _ _ _ Hsy) as (ob & Ho & Hor). exists o, ob.
  split; [by eapply pending_held|]. done.
Qed.

Lemma waits_owned x D s so sob ow c ab : waits_ok D s → objs s !! so = Some sob →
  data sob = mutex_sync_data ow c ab → c ≠ 0 → 0 < x_held (wx x D s) so.
Proof.
  intros Hw Hso Hd Hc. pose proof (wk_data _ _ Hw so sob Hso) as H. rewrite Hd in H. simpl in H.
  destruct ow as [t|]; [|done]. destruct H as (_ & th & Ht & Hin). simpl. pose proof (occ_nonneg so (snd <$> D)).
  assert (0 < wrefs s so); [|lia]. eapply wrefs_thread; [done|]. apply elem_of_app. by right.
Qed.

(** ** Store updates that keep the references of an object *)

Lemma heap_ok_mutate x x' h o ob ob' :
  heap_ok x h → h !! o = Some ob → data_targets (data ob) = [] → data_targets (data ob') = [] →
  rank (data ob') = rank (data ob) → data_ok (data ob') →
  (∀ p, p ≠ o → x_ref x' p = x_ref x p) → (∀ p, x_handle x' p = x_handle x p) →
  refcount ob' = refcount ob + (x_ref x' o - x_ref x o) → x_ref x o <= x_ref x' o → handle_count ob' = handle_count ob →
  (∀ p, 0 <= x_held x' p <= x_ref x' p) →
  (∀ q obq, <[o:=ob']> h !! q = Some obq → wait_queue obq ≠ [] → ∃ e obe, 0 < x_held x' e ∧
     <[o:=ob']> h !! e = Some obe ∧ (e = q ∨ sync_target (data obe) = Some q)) →
  (∀ q obq ow c ab, <[o:=ob']> h !! q = Some obq → data obq = mutex_sync_data ow c ab → c ≠ 0 → 0 < x_held x' q) →
  heap_ok x' (<[o:=ob']> h).
Proof.
  intros [Hn Ho Hz] Hob Hd Hd' Hrk Hok Hx Hxh Hr Hle Hh Hheld Hw Hm.
  assert (Hht : handle_targets (data ob) = [] ∧ handle_targets (data ob') = []).
  { unfold data_targets in Hd, Hd'. apply app_nil in Hd as [? _]. apply app_nil in Hd' as [? _]. done. }
  assert (Hhr : ∀ p, hrefs (<[o:=ob']> h) p = hrefs h p).
  { intros p. rewrite (hrefs_update h o ob) by done. rewrite Hd, Hd'. lia. }
  assert (Hth : ∀ p, thandles (<[o:=ob']> h) p = thandles h p).
  { intros p. rewrite (thandles_update h o ob) by done. destruct Hht as [-> ->]. lia. }
  split.
  - intros p. split; [apply Hheld|]. destruct (Hn p) as [_ Hp]. rewrite Hxh.
    destruct (decide (p = o)) as [->|Hne]; [lia|]. by rewrite Hx.
  - intros p obp Hp. assert (Hp' := Hp). destruct (decide (p = o)) as [->|Hne].
    + rewrite lookup_insert_eq in Hp. injection Hp as <-. destruct (Ho o ob Hob) as [A B C D E F G].
      split; rewrite ?Hhr, ?Hth, ?Hd'; try done; [lia|lia|rewrite Hxh; lia| | |].
      * intros q Hq. by apply not_elem_of_nil in Hq.
      * intros Hq. eapply Hw; [exact Hp'|done].
      * intros ow c ab He Hc. by eapply Hm.
    + rewrite lookup_insert_ne in Hp by done. destruct (Ho p obp Hp) as [A B C D E F G].
      split; rewrite ?Hhr, ?Hth, ?Hxh; try done; [rewrite Hx; done| | |].
      * intros q Hq. destruct (E q Hq) as (obq & Hlq & Hrq). destruct (decide (q = o)) as [->|Hqo].
        { exists ob'. rewrite lookup_insert_eq. split; [done|]. simplify_eq. by rewrite Hrk. }
        exists obq. by rewrite lookup_insert_ne.
      * intros Hq. eapply Hw; [exact Hp'|done].
      * intros ow c ab He Hc. by eapply Hm.
  - intros p Hp. destruct (decide (p = o)) as [->|Hne]; [by rewrite lookup_insert_eq in Hp|].
    rewrite lookup_insert_ne in Hp by done. rewrite Hhr, Hx by done. auto.
Qed.

(** Only what counts as held changes. *)
Lemma heap_ok_reheld x x' h :
  heap_ok x h → (∀ p, x_ref x' p = x_ref x p) → (∀ p, x_handle x' p = x_handle x p) →
  (∀ p, 0 <= x_held x' p <= x_ref x' p) →
  (∀ q obq, h !! q = Some obq → wait_queue obq ≠ [] → ∃ e obe, 0 < x_held x' e ∧
     h !! e = Some obe ∧ (e = q ∨ sync_target (data obe) = Some q)) →
  (∀ q obq ow c ab, h !! q = Some obq → data obq = mutex_sync_data ow c ab → c ≠ 0 → 0 < x_held x' q) →
  heap_ok x' h.
Proof.
  intros [Hn Ho Hz] Hx Hxh Hheld Hw Hm. split.
  - intros p. split; [apply Hheld|]. rewrite Hxh, Hx. apply Hn.
  - intros p obp Hp. destruct (Ho p obp Hp) as [A B C D E F G].
    split; rewrite ?Hx, ?Hxh; try done; [intros; eapply Hw; [exact Hp|done]|]. intros. by eapply Hm.
  - intros p Hp. rewrite Hx. auto.
Qed.

(** ** Grabbing and dropping a reference around a call *)

Lemma set_objs_twice o a b s : set_objs (<[o:=b]>) (set_objs (<[o:=a]>) s) = set_objs (<[o:=b]>) s.
Proof. destruct s. unfold set_objs. simpl. by rewrite insert_insert_eq. Qed.

Lemma set_objs_same o a s : objs s !! o = Some a → set_objs (<[o:=a]>) s = s.
Proof. destruct s. unfold set_objs. simpl. intros. by rewrite insert_id. Qed.

Lemma wp_release_dec o ob (Q : unit → server → Prop) s :
  objs s !! o = Some ob → 1 < refcount ob →
  Q tt (set_objs (<[o:=ob_refcount (refcount ob - 1) ob]>) s) → wp (release_object o) Q s.
Proof.
  intros Ho Hr HQ. unfold release_object, release_depth. cbn [release_object_depth].
  apply wp_bind, (wp_get_obj o ob); [done|].
  apply wp_bind, wp_assert; [apply negb_true_iff, Z.eqb_neq; lia|]. apply wp_bind, wp_put_obj.
  rewrite (proj2 (Z.eqb_neq _ 0)) by lia. by apply wp_ret.
Qed.

Lemma wp_get_thread t th (Q : thread → server → Prop) s :
  threads s !! t = Some th → Q th s → wp (get_thread t) Q s.
Proof. intros Ht HQ. unfold get_thread. wp_steps. by eapply wp_deref. Qed.

Lemma wp_get_obj_sync o so sob (Q : oid → server → Prop) s :
  sync_at (objs s) o = Some so → objs s !! so = Some sob → refcount sob < INT_MAX →
  Q so (set_objs (<[so:=ob_refcount (refcount sob + 1) sob]>) s) → wp (get_obj_sync o) Q s.
Proof.
  intros Hsy Hso Hr HQ. unfold sync_at in Hsy. destruct (objs s !! o) as [ob|] eqn:Ho; [|done]. simpl in Hsy.
  unfold get_obj_sync. apply wp_bind, (wp_get_obj o ob); [done|].
  assert (wp (grab_object so) Q s) by (apply (wp_grab_object _ _ sob); [done..|]; by intros ? ->).
  destruct (data ob); simplify_eq/=; try done; by apply wp_bind, (wp_deref _ so).
Qed.

(** ** Frame conditions *)

(** The sync object of an object does not depend on the state of sync objects. *)
Lemma sync_at_insert h so sob sob' o :
  h !! so = Some sob → has_add_queue sob = true → has_add_queue sob' = true →
  sync_at (<[so:=sob']> h) o = sync_at h o.
Proof.
  intros Hso Hq Hq'. unfold sync_at. destruct (decide (o = so)) as [->|Hne]; [|by rewrite lookup_insert_ne].
  rewrite lookup_insert_eq, Hso. simpl. unfold has_add_queue in *. by destruct (data sob), (data sob').
Qed.

Lemma sync_at_same h h' o ob ob' :
  h !! o = Some ob → h' !! o = Some ob' → data ob' = data ob → sync_at h' o = sync_at h o.
Proof. intros Ho Ho' Hd. unfold sync_at. rewrite Ho, Ho'. simpl. by rewrite Hd. Qed.

Lemma add_queue_targets ob : has_add_queue ob = true → data_targets (data ob) = [] ∧ rank (data ob) = 0%nat ∧ data_ok (data ob).
Proof. unfold has_add_queue. by destruct (data ob). Qed.

(** References from a store that lost objects. *)
Lemma hrefs_shrinks h h' o : shrinks h h' → hrefs h' o <= hrefs h o.
Proof.
  unfold hrefs. revert h. induction h' as [|q obq h' Hq IH] using map_ind; intros h Hsh.
  { rewrite msum_empty. apply msum_nonneg. intros. apply occ_nonneg. }
  rewrite msum_insert by done. destruct (Hsh q obq (lookup_insert_eq _ _ _)) as (ob & Hob & Hd & _).
  rewrite Hd. enough (msum (λ ob, occ o (data_targets (data ob))) h' <= msum (λ ob, occ o (data_targets (data ob))) (delete q h)).
  { rewrite (msum_delete _ _ _ _ Hob) in H. lia. }
  apply IH. intros p obp Hp. destruct (decide (p = q)) as [->|Hne]; [congruence|].
  rewrite lookup_delete_ne by congruence. apply Hsh. by rewrite lookup_insert_ne by congruence.
Qed.

Lemma pending_threads s s' D e o :
  (∀ t th, threads s !! t = Some th → ∃ th', threads s' !! t = Some th' ∧ t_wait th' = t_wait th) →
  pending s D e o → pending s' D e o.
Proof.
  intros Hth [(th & Ht & Hin)|?]; [left|by right]. destruct (Hth _ _ Ht) as (th' & Ht' & Hw).
  exists th'. split; [done|]. unfold thread_pairs. by rewrite Hw.
Qed.

Lemma held_alive x h o : heap_ok x h → 0 < x_held x o → ∃ ob, h !! o = Some ob.
Proof.
  intros Hok Hx. destruct (h !! o) as [ob|] eqn:Ho; [eauto|].
  pose proof (hp_none _ _ Hok o Ho). destruct (hp_nonneg _ _ Hok o). pose proof (hrefs_nonneg h o). lia.
Qed.

Lemma sync_alive x h o so : heap_ok x h → sync_at h o = Some so → ∃ sob, h !! so = Some sob.
Proof.
  intros Hok Hsy. destruct (sync_at_cases _ _ _ Hsy) as (ob & Ho & [->|Ht]); [eauto|].
  destruct (ob_targets _ _ _ _ (hp_object _ _ Hok o ob Ho) so (sync_target_in _ _ Ht)) as (sob & ? & _). eauto.
Qed.

Lemma owned_held x D s t th so : threads s !! t = Some th → so ∈ t_mutex_list th → 0 < x_held (wx x D s) so.
Proof.
  intros Ht Hin. simpl. pose proof (occ_nonneg so (snd <$> D)).
  assert (0 < wrefs s so); [|lia]. eapply wrefs_thread; [done|]. apply elem_of_app. by right.
Qed.

Lemma pending_wait s D t th w o : threads s !! t = Some th → w ∈ t_wait th → o ∈ w_queues w →
  ∃ e, pending s D e o ∧ wq_thread e = t.
Proof.
  intros Ht Hw Ho. apply list_elem_of_lookup in Ho as [i Hi]. exists (WaitQueueEntry t (w_id w) (Z.of_nat i)).
  split; [|done]. left. exists th. split; [done|]. unfold thread_pairs. apply list_elem_of_bind.
  exists w. split; [|done]. apply list_elem_of_lookup. exists i. unfold wait_pairs. by rewrite list_lookup_imap, Hi.
Qed.

Lemma thread_pairs_inv t th e o : (e, o) ∈ thread_pairs t th →
  wq_thread e = t ∧ ∃ w, w ∈ t_wait th ∧ w_id w = wq_wait e ∧ o ∈ w_queues w.
Proof.
  intros (w & Hin & Hw)%list_elem_of_bind. apply list_elem_of_lookup in Hin as [i Hi]. unfold wait_pairs in Hi.
  rewrite list_lookup_imap in Hi. destruct (w_queues w !! i) as [p|] eqn:Hp; simplify_eq/=. split; [done|].
  exists w. split_and!; try done. by eapply list_elem_of_lookup_2.
Qed.

Lemma thread_pairs_pending s D t th e o : threads s !! t = Some th → (e, o) ∈ thread_pairs t th → pending s D e o.
Proof. intros Ht Hin. destruct (thread_pairs_inv _ _ _ _ Hin) as [<- _]. left. eauto. Qed.

(** Losing objects nobody refers to. *)
Lemma waits_ok_shrinks x D s s' :
  waits_ok D s → heap_ok (wx x D s') (objs s') → shrinks (objs s) (objs s') →
  threads s' = threads s → procs s' = procs s → waits_ok D s'.
Proof.
  intros Hw Hok Hsh Hth Hpr.
  assert (∀ e o, pending s' D e o ↔ pending s D e o) as Hp by (intros; unfold pending; by rewrite Hth).
  assert (∀ e o, pending s' D e o → sync_at (objs s') o = sync_at (objs s) o) as Hsy.
  { intros e o He. destruct (held_alive _ _ o Hok) as [ob' Ho']; [by eapply pending_held|].
    destruct (Hsh _ _ Ho') as (ob & Ho & Hd & _). by eapply sync_at_same. }
  split.
  - intros so sob e Hso He. destruct (Hsh _ _ Hso) as (sob0 & Hso0 & Hd & Hq & _). rewrite Hq in He.
    destruct (wk_queue _ _ Hw so sob0 e Hso0 He) as (o & Hpe & Hsyo). apply Hp in Hpe.
    exists o. split; [done|]. by rewrite (Hsy e).
  - intros so sob Hso. destruct (Hsh _ _ Hso) as (sob0 & Hso0 & Hd & Hq & _). rewrite Hq. by eapply wk_entries.
  - intros e o He. destruct (wk_sync _ _ Hw e o) as (so & sob & Hsyo & Hso & Hadd); [by apply Hp|].
    rewrite <-(Hsy e o He) in Hsyo. destruct (sync_alive _ _ _ _ Hok Hsyo) as [sob' Hso'].
    exists so, sob'. split_and!; [done|done|]. destruct (Hsh _ _ Hso') as (sob0 & Hso0 & Hd & _).
    simplify_eq. unfold has_add_queue in *. by rewrite Hd.
  - intros t th w Ht Hin. rewrite Hth in Ht. destruct (wk_wait _ _ Hw t th w Ht Hin) as (A & B & C).
    split_and!; [done|done|]. intros Hall. specialize (C Hall).
    replace (sync_at (objs s') <$> w_queues w) with (sync_at (objs s) <$> w_queues w); [done|].
    apply list_fmap_ext. intros i o Ho. apply list_elem_of_lookup_2 in Ho.
    destruct (pending_wait s D t th w o Ht Hin Ho) as (e & He & _). symmetry. apply (Hsy e). by apply Hp.
  - intros so sob Hso. destruct (Hsh _ _ Hso) as (sob0 & Hso0 & Hd & _). rewrite Hd.
    pose proof (wk_data _ _ Hw so sob0 Hso0) as H. destruct (data sob0); try done. simpl in *. by rewrite Hth.
  - intros t th so Ht Hin. rewrite Hth in Ht. destruct (held_alive _ _ so Hok) as [sob' Hso'].
    { eapply (owned_held x D s' t); [by rewrite Hth|done]. }
    destruct (Hsh _ _ Hso') as (sob & Hso & Hd & _). destruct (wk_owned _ _ Hw t th so Ht Hin) as (? & c & ab & ? & Hm).
    simplify_eq. exists sob', c, ab. split; [done|]. congruence.
  - intros t th Ht. rewrite Hth in Ht. by eapply wk_nodup.
  - intros t th Ht. rewrite Hth in Ht. rewrite Hpr. by eapply wk_proc.
  - intros t th e o so sob' Ht Hin Hsyo Hso'. rewrite Hth in Ht.
    rewrite (Hsy e) in Hsyo by (apply Hp; by eapply thread_pairs_pending).
    destruct (Hsh _ _ Hso') as (sob & Hso & _ & Hq & _). rewrite Hq. by apply (wk_linked _ _ Hw t th e o so sob).
  - intros t th. rewrite Hth. apply (wk_ids _ _ Hw).
  - intros e o th w. rewrite Hth. apply (wk_detached _ _ Hw).
Qed.

(** ** Changing one sync object *)

(** Threads that differ at most in whether they own [so]. *)
Definition thread_sim (so : oid) (th th' : thread) : Prop :=
  t_wait th' = t_wait th ∧ t_process th' = t_process th ∧
  (NoDup (t_mutex_list th) → NoDup (t_mutex_list th')) ∧
  ∀ p, p ≠ so → p ∈ t_mutex_list th' ↔ p ∈ t_mutex_list th.
Definition threads_sim (so : oid) (m m' : gmap tid thread) : Prop :=
  ∀ t, option_Forall2 (thread_sim so) (m !! t) (m' !! t).

Lemma thread_sim_refl so th : thread_sim so th th.
Proof. done. Qed.
Lemma threads_sim_refl so m : threads_sim so m m.
Proof. intros t. destruct (m !! t); constructor. apply thread_sim_refl. Qed.
Lemma threads_sim_insert so m t th th' : m !! t = Some th → thread_sim so th th' → threads_sim so m (<[t:=th']> m).
Proof.
  intros Ht Hs t'. destruct (decide (t' = t)) as [->|Hne].
  - rewrite Ht, lookup_insert_eq. by constructor.
  - rewrite lookup_insert_ne by done. apply threads_sim_refl.
Qed.
Lemma threads_sim_l so m m' t th : threads_sim so m m' → m !! t = Some th →
  ∃ th', m' !! t = Some th' ∧ thread_sim so th th'.
Proof. intros Hs Ht. specialize (Hs t). rewrite Ht in Hs. inversion Hs; subst. eauto. Qed.
Lemma threads_sim_r so m m' t th' : threads_sim so m m' → m' !! t = Some th' →
  ∃ th, m !! t = Some th ∧ thread_sim so th th'.
Proof. intros Hs Ht. specialize (Hs t). rewrite Ht in Hs. inversion Hs; subst. eauto. Qed.

Lemma pending_sim so D s s' e o : threads_sim so (threads s) (threads s') → pending s' D e o ↔ pending s D e o.
Proof.
  intros Hs. unfold pending, thread_pairs. split; (intros [(th & Ht & Hin)|?]; [left|by right]).
  - destruct (threads_sim_r _ _ _ _ _ Hs Ht) as (th' & ? & Hw & _). exists th'. by rewrite <-Hw.
  - destruct (threads_sim_l _ _ _ _ _ Hs Ht) as (th' & ? & Hw & _). exists th'. by rewrite Hw.
Qed.

Record sync_update (s s' : server) (so : oid) (sob sob' : object) : Prop := {
  su_old : objs s !! so = Some sob;
  su_new : objs s' = <[so:=sob']> (objs s);
  su_procs : procs s' = procs s;
  su_threads : threads_sim so (threads s) (threads s');
  su_add : has_add_queue sob = true;
  su_add' : has_add_queue sob' = true;
  su_queue : ∀ e, e ∈ wait_queue sob' → e ∈ wait_queue sob;
  su_nodup : NoDup (wait_queue sob) → NoDup (wait_queue sob');
  su_kept : ∀ t th e o, threads s !! t = Some th → (e, o) ∈ thread_pairs t th →
    e ∈ wait_queue sob → e ∈ wait_queue sob';
  su_data : sync_data_ok s' so (data sob');
  su_owned : ∀ t th, threads s' !! t = Some th → so ∈ t_mutex_list th →
    ∃ c ab, data sob' = mutex_sync_data (Some t) c ab;
}.

Lemma waits_ok_update D s s' so sob sob' : waits_ok D s → sync_update s s' so sob sob' → waits_ok D s'.
Proof.
  intros Hw [Hso Hso' Hpr Hth Ha Ha' Hq Hnd Hkp Hd Ho].
  assert (∀ e o, pending s' D e o ↔ pending s D e o) as Hp by (intros; by apply (pending_sim so)).
  assert (∀ o, sync_at (objs s') o = sync_at (objs s) o) as Hsy by (intros; rewrite Hso'; by eapply sync_at_insert).
  split.
  - intros so2 sob2 e Hso2 He. assert (∃ sob3, objs s !! so2 = Some sob3 ∧ e ∈ wait_queue sob3) as (sob3 & H3 & He3).
    { rewrite Hso' in Hso2. destruct (decide (so2 = so)) as [->|Hne].
      - rewrite lookup_insert_eq in Hso2. simplify_eq. exists sob. split; [done|auto].
      - rewrite lookup_insert_ne in Hso2 by done. eauto. }
    destruct (wk_queue _ _ Hw so2 sob3 e H3 He3) as (o & Hpe & Hsyo). exists o. by rewrite Hp, Hsy.
  - intros so2 sob2 Hso2. rewrite Hso' in Hso2. destruct (decide (so2 = so)) as [->|Hne].
    + rewrite lookup_insert_eq in Hso2. simplify_eq. apply Hnd. by eapply wk_entries.
    + rewrite lookup_insert_ne in Hso2 by done. by eapply wk_entries.
  - intros e o He. apply Hp in He. destruct (wk_sync _ _ Hw e o He) as (so2 & sob2 & Hsyo & Hso2 & Hadd).
    exists so2, (if decide (so2 = so) then sob' else sob2). rewrite Hsy, Hso'. split; [done|]. case_decide.
    + subst. by rewrite lookup_insert_eq.
    + by rewrite lookup_insert_ne.
  - intros t th w Ht Hin. destruct (threads_sim_r _ _ _ _ _ Hth Ht) as (th0 & Ht0 & Hwt & _). rewrite Hwt in Hin.
    destruct (wk_wait _ _ Hw t th0 w Ht0 Hin) as (A & B & C). split_and!; [done|done|]. intros Hall.
    rewrite (list_fmap_ext _ (sync_at (objs s)) (w_queues w)); [by apply C|]. done.
  - intros so2 sob2 Hso2. rewrite Hso' in Hso2. destruct (decide (so2 = so)) as [->|Hne].
    + rewrite lookup_insert_eq in Hso2. by simplify_eq.
    + rewrite lookup_insert_ne in Hso2 by done. pose proof (wk_data _ _ Hw so2 sob2 Hso2) as H.
      destruct (data sob2) as [| | | | | |[t|]| | | |]; try done. simpl in *. destruct H as (? & th & Ht & Hin).
      split; [done|]. destruct (threads_sim_l _ _ _ _ _ Hth Ht) as (th' & Ht' & _ & _ & _ & Hm).
      exists th'. split; [done|]. by apply Hm.
  - intros t th so2 Ht Hin. destruct (decide (so2 = so)) as [->|Hne].
    + destruct (Ho t th Ht Hin) as (c & ab & Hda). exists sob', c, ab. by rewrite Hso', lookup_insert_eq.
    + destruct (threads_sim_r _ _ _ _ _ Hth Ht) as (th0 & Ht0 & _ & _ & _ & Hm). apply Hm in Hin; [|done].
      destruct (wk_owned _ _ Hw t th0 so2 Ht0 Hin) as (sob2 & c & ab & ? & ?). exists sob2, c, ab.
      by rewrite Hso', lookup_insert_ne.
  - intros t th Ht. destruct (threads_sim_r _ _ _ _ _ Hth Ht) as (th0 & Ht0 & _ & _ & Hm & _). apply Hm.
    by eapply wk_nodup.
  - intros t th Ht. destruct (threads_sim_r _ _ _ _ _ Hth Ht) as (th0 & Ht0 & _ & Hp0 & _). rewrite Hpr, Hp0.
    by eapply wk_proc.
  - intros t th e o so2 sob2 Ht Hin Hsyo Hso2. rewrite Hsy in Hsyo.
    destruct (threads_sim_r _ _ _ _ _ Hth Ht) as (th0 & Ht0 & Hwt & _).
    assert ((e, o) ∈ thread_pairs t th0) as Hin0 by (unfold thread_pairs; by rewrite <-Hwt).
    rewrite Hso' in Hso2. destruct (decide (so2 = so)) as [->|Hne].
    + rewrite lookup_insert_eq in Hso2. injection Hso2 as <-. apply (Hkp t th0 e o Ht0 Hin0).
      by apply (wk_linked _ _ Hw t th0 e o so sob).
    + rewrite lookup_insert_ne in Hso2 by done. by apply (wk_linked _ _ Hw t th0 e o so2 sob2).
  - intros t th Ht. destruct (threads_sim_r _ _ _ _ _ Hth Ht) as (th0 & Ht0 & -> & _). by apply (wk_ids _ _ Hw t).
  - intros e o th w He Ht Hin. destruct (threads_sim_r _ _ _ _ _ Hth Ht) as (th0 & Ht0 & Hwt & _). rewrite Hwt in Hin.
    by apply (wk_detached _ _ Hw e o th0).
Qed.

Lemma sync_ok_update x x' D s s' so sob sob' :
  sync_ok x D s → sync_update s s' so sob sob' →
  (∀ p, p ≠ so → x_ref x' p + wrefs s' p = x_ref x p + wrefs s p) →
  (∀ p, x_handle x' p = x_handle x p) → (∀ p, 0 <= x_handle x' p <= x_ref x' p) →
  refcount sob' = refcount sob + (x_ref x' so + wrefs s' so - (x_ref x so + wrefs s so)) →
  x_ref x so + wrefs s so <= x_ref x' so + wrefs s' so → handle_count sob' = handle_count sob →
  sync_ok x' D s'.
Proof.
  intros [Hok Hw Hx] Hu Href Hhd Hx' Hrc Hle Hhc.
  assert (waits_ok D s') as Hw' by by eapply waits_ok_update. split; [|done|done].
  rewrite (su_new _ _ _ _ _ Hu). destruct (add_queue_targets sob (su_add _ _ _ _ _ Hu)) as (? & Hr & ?).
  destruct (add_queue_targets sob' (su_add' _ _ _ _ _ Hu)) as (? & Hr' & ?).
  apply (heap_ok_mutate (wx x D s) _ _ _ sob); try done.
  - apply Hu.
  - by rewrite Hr, Hr'.
  - intros p Hp. simpl. specialize (Href p Hp). lia.
  - simpl. lia.
  - simpl. lia.
  - intros p. simpl. pose proof (wrefs_nonneg s' p). pose proof (occ_nonneg p (snd <$> D)). specialize (Hx' p). lia.
  - rewrite <-(su_new _ _ _ _ _ Hu). intros q obq Hq Hne. by eapply waits_waited.
  - rewrite <-(su_new _ _ _ _ _ Hu). intros q obq ow c ab Hq Hd Hc. by eapply waits_owned.
Qed.

Lemma wrefs_same s s' p : threads s' = threads s → wrefs s' p = wrefs s p.
Proof. unfold wrefs. by intros ->. Qed.

(** The case where no reference moves. *)
Lemma sync_ok_set x D s so sob sob' :
  sync_ok x D s → sync_update s (set_objs (<[so:=sob']>) s) so sob sob' →
  refcount sob' = refcount sob → handle_count sob' = handle_count sob →
  sync_ok x D (set_objs (<[so:=sob']>) s).
Proof.
  intros Hs Hu Hr Hh. eapply (sync_ok_update x); try done; [apply Hs|].
  rewrite (wrefs_same s _ so) by done. lia.
Qed.
