(* ===== verification/SyncSteps.v ===== *)
(** * The steps of a wait

    What the routines of [Wait] do to a server that satisfies [sync_ok]: asking
    a sync object, acquiring it, unlinking the entries of a wait, ending a wait
    and checking one. *)

From stdpp Require Import base list gmap fin_maps.
From S2P Require Import Prelude Access Object ObjectInv Handle HandleInv HandleThms Wait SyncInv.

Open Scope Z_scope.
Open Scope server_scope.

(** ** Asking a sync object *)

(** Whether thread [t] can acquire a sync object. *)
Definition sync_ready (t : tid) (d : obj_data) : bool :=
  match d with
  | event_sync_data _ signaled => signaled
  | semaphore_sync_data count _ => 0 <? count
  | mutex_sync_data owner count _ => (count =? 0) || bool_decide (owner = Some t)
  | keyed_event_data => true
  | _ => false
  end.

Definition object_ready (s : server) (t : tid) (o : oid) : bool :=
  match sync_at (objs s) o ≫= λ so, objs s !! so with
  | Some sob => sync_ready t (data sob)
  | None => false
  end.

Lemma object_ready_sync s t o so sob :
  sync_at (objs s) o = Some so → objs s !! so = Some sob → object_ready s t o = sync_ready t (data sob).
Proof. intros Hsy Hso. unfold object_ready. rewrite Hsy. simpl. by rewrite Hso. Qed.

(** The routine grabs the sync object for the time of the call only. *)
Lemma wp_object_sync_signaled wake x D s o so sob t th w next id i (Q : bool → server → Prop) :
  sync_ok x D s → slack s 1 → sync_at (objs s) o = Some so → objs s !! so = Some sob → has_add_queue sob = true →
  threads s !! t = Some th → t_wait th = w :: next → w_id w = id → plain_op (w_select w) = true →
  Q (object_ready s t o) s → wp (object_sync_signaled wake o (WaitQueueEntry t id i)) Q s.
Proof.
  intros Hs Hsl Hsy Hso Hadd Ht Hw Hid Hop HQ. rewrite (object_ready_sync _ _ _ _ _ Hsy Hso) in HQ.
  destruct (Hsl so sob Hso) as [Hr _]. unfold object_sync_signaled.
  apply wp_bind, (wp_get_obj_sync o so sob); [done|done|lia|]. set (sob1 := ob_refcount (refcount sob + 1) sob).
  set (s1 := set_objs (<[so:=sob1]>) s). assert (objs s1 !! so = Some sob1) as Hs1 by apply lookup_insert_eq.
  apply wp_bind. apply (wp_mono _ (λ r s', r = sync_ready t (data sob) ∧ s' = s1)).
  - unfold ops_signaled. apply wp_bind, (wp_get_obj so sob1); [done|]. simpl.
    unfold has_add_queue in Hadd. destruct (data sob); try done; try (by apply wp_ret).
    unfold keyed_event_signaled. apply wp_bind, (wp_get_thread _ th); [done|].
    unfold get_wait_queue_select_op, get_wait_queue_wait. apply wp_bind, wp_bind, wp_bind, (wp_get_thread _ th); [done|].
    apply (wp_deref _ w). { unfold find_wait. rewrite Hw. simpl. by rewrite bool_decide_eq_true_2. }
    wp_steps. by destruct (w_select w).
  - intros r s' [-> ->]. apply wp_bind. pose proof (ob_live _ _ _ _ (hp_object _ _ (sy_heap _ _ _ Hs) so sob Hso)).
    apply (wp_release_dec so sob1); [done|simpl; lia|]. apply wp_ret. unfold s1. rewrite set_objs_twice.
    replace (ob_refcount (refcount sob1 - 1) sob1) with sob; [by rewrite set_objs_same|].
    destruct sob; unfold sob1, ob_refcount; simpl. f_equal. lia.
Qed.

(** ** Acquiring a sync object *)

Definition acquired_data (t : tid) (d : obj_data) : obj_data :=
  match d with
  | event_sync_data manual signaled => event_sync_data manual (if manual then signaled else false)
  | semaphore_sync_data count max => semaphore_sync_data (count - 1) max
  | mutex_sync_data _ count _ => mutex_sync_data (Some t) (count + 1) false
  | d => d
  end.

(** A mutex acquired for the first time is linked in the list of its owner, with
    a reference. *)
Definition first_acquire (d : obj_data) : bool :=
  match d with mutex_sync_data _ count _ => count =? 0 | _ => false end.

Definition acquired_state (t : tid) (th : thread) (so : oid) (sob : object) (s : server) : server :=
  let sob' := ob_data (acquired_data t (data sob)) sob in
  if first_acquire (data sob)
  then set_threads (<[t:=th_mutex_list (so :: t_mutex_list th) th]>)
         (set_objs (<[so:=ob_refcount (refcount sob + 1) sob']>) s)
  else set_objs (<[so:=sob']>) s.

Definition was_abandoned (d : obj_data) : bool :=
  match d with mutex_sync_data _ _ abandoned => abandoned | _ => false end.

Lemma set_threads_objs f g s : set_threads f (set_objs g s) = set_objs g (set_threads f s).
Proof. done. Qed.

Lemma wp_object_sync_satisfied x D s o so sob t th (Q : bool → server → Prop) :
  sync_ok x D s → slack s 2 → sync_at (objs s) o = Some so → objs s !! so = Some sob → has_add_queue sob = true →
  threads s !! t = Some th → sync_ready t (data sob) = true →
  Q (was_abandoned (data sob)) (acquired_state t th so sob s) → wp (object_sync_satisfied o t) Q s.
Proof.
  intros Hs Hsl Hsy Hso Hadd Ht Hrd HQ. destruct (Hsl so sob Hso) as [Hr Hc]. unfold object_sync_satisfied.
  pose proof (ob_live _ _ _ _ (hp_object _ _ (sy_heap _ _ _ Hs) so sob Hso)) as Hpos.
  pose proof (wk_data _ _ (sy_waits _ _ _ Hs) so sob Hso) as Hd.
  apply wp_bind, (wp_get_obj_sync o so sob); [done|done|lia|]. set (sob1 := ob_refcount (refcount sob + 1) sob).
  set (s1 := set_objs (<[so:=sob1]>) s). assert (objs s1 !! so = Some sob1) as Hs1 by apply lookup_insert_eq.
  apply wp_bind. unfold ops_satisfied. apply wp_bind, (wp_get_obj so sob1); [done|]. cbn [data sob1 ob_refcount].
  unfold acquired_state, acquired_data, was_abandoned, first_acquire in HQ. unfold has_add_queue in Hadd.
  assert (∀ d s2, s2 = set_objs (<[so:=ob_data d sob1]>) s → ∀ Q' : unit → server → Prop,
    Q' tt (set_objs (<[so:=ob_data d sob]>) s) → wp (release_object so) Q' s2) as Hrel.
  { intros d s2 -> Q' HQ'. apply (wp_release_dec so (ob_data d sob1)); [apply lookup_insert_eq|simpl; lia|].
    rewrite set_objs_twice. replace (ob_refcount _ _) with (ob_data d sob); [done|].
    destruct sob; unfold sob1, ob_refcount, ob_data; simpl. f_equal. lia. }
  destruct (data sob) as [|manual signaled| | |count max| |owner count ab| | | |] eqn:Edata; try done.
  - unfold event_sync_satisfied. apply wp_bind, wp_put_obj, wp_ret.
    apply wp_bind. apply (Hrel _ _ (set_objs_twice _ _ _ _)). by apply wp_ret.
  - apply wp_ret, wp_bind. apply (Hrel keyed_event_data). { unfold s1. by destruct sob; simpl in *; subst. }
    apply wp_ret. by destruct sob; simpl in *; subst.
  - unfold semaphore_sync_satisfied. simpl in Hrd. apply wp_bind, wp_assert; [apply negb_true_iff, Z.eqb_neq; lia|].
    apply wp_bind, wp_put_obj, wp_ret. apply wp_bind. apply (Hrel _ _ (set_objs_twice _ _ _ _)). by apply wp_ret.
  - unfold mutex_sync_satisfied, do_grab. specialize (Hc _ _ _ eq_refl). simpl in Hrd, Hd.
    apply wp_bind, wp_bind, (wp_get_obj so sob1); [done|]. cbn [data sob1 ob_refcount]. rewrite Edata.
    apply wp_bind, wp_assert; [done|].
    assert (w32 (count + 1) = count + 1) as Hw. { apply w32_small. unfold u32. destruct owner; lia. }
    rewrite Hw. destruct (Z.eqb_spec count 0) as [->|Hne].
    + assert (owner = None) as -> by (destruct owner; [lia|done]).
      apply wp_bind, wp_put_obj, wp_bind, wp_assert; [done|].
      apply wp_bind. eapply wp_grab_object; [apply lookup_insert_eq|simpl; lia|]. intros s2 ->.
      apply wp_bind. eapply wp_get_obj; [apply lookup_insert_eq|].
      apply wp_bind, wp_put_obj, wp_bind. apply (wp_get_thread _ th); [done|].
      unfold put_thread. apply wp_modify. unfold s1. rewrite !set_objs_twice.
      apply wp_bind. eapply wp_get_obj; [apply lookup_insert_eq|]. cbn [data ob_data ob_refcount].
      apply wp_bind, wp_put_obj, wp_ret, wp_bind.
      eapply wp_release_dec; [apply lookup_insert_eq|simpl; lia|]. apply wp_ret.
      rewrite set_objs_twice, set_threads_objs, set_objs_twice, <-set_threads_objs.
      match goal with |- Q _ (set_threads _ (set_objs (<[so:=?a]>) _)) =>
        match type of HQ with Q _ (set_threads _ (set_objs (<[so:=?b]>) _)) => replace a with b; [done|] end end.
      unfold ob_refcount, ob_data; destruct sob; simpl. f_equal. lia.
    + simpl in Hrd. apply bool_decide_eq_true in Hrd as ->.
      apply wp_put_obj. unfold s1. rewrite set_objs_twice.
      apply wp_bind. eapply wp_get_obj; [apply lookup_insert_eq|]. cbn [data ob_data ob_refcount].
      apply wp_bind, wp_put_obj, wp_ret. rewrite set_objs_twice. apply wp_bind.
      eapply Hrel; [reflexivity|]. by apply wp_ret.
Qed.

Lemma wrefs_update s f t th th' p : threads s !! t = Some th →
  wrefs (set_threads (<[t:=th']>) (set_objs f s)) p = wrefs s p - occ p (thread_refs th) + occ p (thread_refs th').
Proof. intros Ht. unfold wrefs. simpl. by rewrite (msum_update _ _ t th). Qed.

Lemma slack_set s so sob' n m :
  slack s n → m <= n → refcount sob' + m <= INT_MAX →
  (∀ ow c ab, data sob' = mutex_sync_data ow c ab → c + m < 4294967296) →
  ∀ f, slack (set_threads f (set_objs (<[so:=sob']>) s)) m.
Proof.
  intros Hs Hm Hr Hc f o ob Ho. simpl in Ho. destruct (decide (o = so)) as [->|Hne].
  - rewrite lookup_insert_eq in Ho. simplify_eq. done.
  - rewrite lookup_insert_ne in Ho by done. by eapply (slack_weaken s n).
Qed.

Lemma set_threads_id s : set_threads (λ m, m) s = s.
Proof. by destruct s. Qed.

Lemma acquired_slack t th so sob s n : objs s !! so = Some sob → slack s n → slack (acquired_state t th so sob s) (n - 1).
Proof.
  intros Hso Hs. destruct (Hs so sob Hso) as [Hr Hc].
  assert (∀ ow c ab, acquired_data t (data sob) = mutex_sync_data ow c ab → c + (n - 1) < 4294967296) as Hc'.
  { intros ow c ab. unfold acquired_data. destruct (data sob) as [| | | | | |ow' c' ab'| | | |]; try done. intros [= <- <- <-].
    specialize (Hc _ _ _ eq_refl). lia. }
  unfold acquired_state. destruct (first_acquire (data sob)).
  - apply (slack_set s so _ n); simpl; [done|lia|lia|done].
  - rewrite <-(set_threads_id (set_objs _ s)). apply (slack_set s so _ n); simpl; [done|lia|lia|done].
Qed.

Lemma unowned_mutex D s so sob c ab t th :
  waits_ok D s → objs s !! so = Some sob → data sob = mutex_sync_data None c ab → threads s !! t = Some th →
  so ∉ t_mutex_list th.
Proof.
  intros Hw Hso Hd Ht Hin. destruct (wk_owned _ _ Hw t th so Ht Hin) as (? & ? & ? & ? & ?). congruence.
Qed.

Lemma owned_elsewhere D s so sob d t th :
  waits_ok D s → objs s !! so = Some sob → data sob = d → threads s !! t = Some th → so ∈ t_mutex_list th →
  ∃ c ab, d = mutex_sync_data (Some t) c ab.
Proof.
  intros Hw Hso Hd Ht Hin. destruct (wk_owned _ _ Hw t th so Ht Hin) as (? & c & ab & ? & ?). exists c, ab. congruence.
Qed.

(** Writing the data of a sync object. *)
Lemma sync_update_data D s so sob d' :
  waits_ok D s → objs s !! so = Some sob → has_add_queue sob = true → has_add_queue (ob_data d' sob) = true →
  sync_data_ok s so d' → (∀ t c ab, data sob = mutex_sync_data (Some t) c ab → ∃ c ab, d' = mutex_sync_data (Some t) c ab) →
  sync_update s (set_objs (<[so:=ob_data d' sob]>) s) so sob (ob_data d' sob).
Proof.
  intros Hw Hso Ha Ha' Hd Hm. split; try done; [apply threads_sim_refl|].
  intros t th Ht Hin. destruct (owned_elsewhere _ _ _ _ _ _ _ Hw Hso eq_refl Ht Hin) as (c & ab & E). by eapply Hm.
Qed.

Lemma acquired_add t sob : has_add_queue sob = true → has_add_queue (ob_data (acquired_data t (data sob)) sob) = true.
Proof. unfold has_add_queue, acquired_data. simpl. by destruct (data sob). Qed.

Lemma acquired_ok x D s so sob t th :
  sync_ok x D s → objs s !! so = Some sob → has_add_queue sob = true → threads s !! t = Some th →
  sync_ready t (data sob) = true → sync_ok x D (acquired_state t th so sob s).
Proof.
  intros Hs Hso Ha Ht Hrd. assert (Hw := sy_waits _ _ _ Hs). pose proof (wk_data _ _ Hw so sob Hso) as Hd.
  pose proof (acquired_add t sob Ha) as Ha'. unfold acquired_state. destruct (first_acquire (data sob)) eqn:Ef.
  - unfold first_acquire in Ef. destruct (data sob) as [| | | | | |ow c ab| | | |] eqn:Ed; try done.
    apply Z.eqb_eq in Ef as ->. simpl in Hd. destruct ow; [lia|]. cbn [acquired_data] in *.
    pose proof (unowned_mutex _ _ _ _ _ _ _ _ Hw Hso Ed Ht) as Hno.
    set (th' := th_mutex_list (so :: t_mutex_list th) th).
    set (s' := set_threads _ _). assert (∀ p, wrefs s' p = wrefs s p + occ p [so]) as Hwr.
    { intros p. unfold s'. rewrite (wrefs_update s _ t th th') by done. unfold thread_refs. simpl.
      rewrite !occ_app, (occ_cons p so (t_mutex_list th)), (occ_cons p so []), occ_nil. lia. }
    eapply (sync_ok_update x x D s s' so sob (ob_refcount (refcount sob + 1) (ob_data (mutex_sync_data (Some t) (0 + 1) false) sob)));
      [done| | |done|apply Hs| | |done].
    + split; try done.
      * apply (threads_sim_insert _ _ _ th); [done|]. split_and!; try done.
        -- intros. by apply NoDup_cons.
        -- intros p Hp. simpl. rewrite elem_of_cons. naive_solver.
      * simpl. split; [lia|]. exists th'. rewrite lookup_insert_eq. split; [done|]. by left.
      * intros t2 th2 Ht2 Hin. simpl in Ht2. destruct (decide (t2 = t)) as [->|Hne]; [simpl; eauto|].
        rewrite lookup_insert_ne in Ht2 by done. by destruct (unowned_mutex _ _ _ _ _ _ _ _ Hw Hso Ed Ht2).
    + intros p Hp. rewrite Hwr, occ_other by done. lia.
    + rewrite Hwr, occ_self. simpl. lia.
    + rewrite Hwr, occ_self. lia.
  - apply (sync_ok_set x D s so sob); [done| |done|done]. apply (sync_update_data D); try done.
    + destruct (data sob) as [| | | | | |ow c ab| | | |] eqn:Ed; try done; simpl in *; [lia|].
      destruct ow as [t2|]; [|by subst]. rewrite Ef in Hrd. simpl in Hrd. apply bool_decide_eq_true in Hrd as [= ->].
      split; [lia|apply Hd].
    + intros t2 c ab Ed. rewrite Ed in *. simpl in *. rewrite Ef in Hrd. apply bool_decide_eq_true in Hrd as [= ->]. eauto.
Qed.

(** ** Unlinking the entries of a wait *)

Fixpoint entries (t : tid) (id : positive) (l : list oid) (i : Z) : list pair_entry :=
  match l with [] => [] | o :: l => (WaitQueueEntry t id i, o) :: entries t id l (i + 1) end.

Lemma imap_entries t id l i : imap (λ k o, (WaitQueueEntry t id (i + Z.of_nat k), o)) l = entries t id l i.
Proof.
  revert i. induction l as [|o l IH]; intros i; [done|]. simpl. rewrite Z.add_0_r. f_equal. rewrite <-IH.
  apply imap_ext. intros k p _. simpl. f_equal. f_equal. lia.
Qed.

Lemma wait_pairs_entries t w : wait_pairs t w = entries t (w_id w) (w_queues w) 0.
Proof. rewrite <-imap_entries. done. Qed.

(** The entries of a queue of [so] that are left when the entries of [D] are unlinked. *)
Definition unlinked (h : gmap oid object) (so : oid) (D : list pair_entry) (q : list wait_queue_entry) :=
  filter (λ e, e ∉ (fst <$> filter (λ p : pair_entry, sync_at h (snd p) = Some so) D)) q.

Lemma unlinked_nil h so q : unlinked h so [] q = q.
Proof.
  induction q as [|e q IH]; [done|]. unfold unlinked in *. rewrite filter_cons_True by apply not_elem_of_nil.
  by f_equal.
Qed.

Lemma unlinked_cons_eq h so e o D q : sync_at h o = Some so →
  unlinked h so ((e, o) :: D) q = unlinked h so D (filter (λ e', e' ≠ e) q).
Proof.
  intros Hsy. unfold unlinked. rewrite list_filter_filter. apply list_filter_iff. intros e'.
  rewrite filter_cons_True by done. rewrite fmap_cons, not_elem_of_cons. simpl. tauto.
Qed.

Lemma unlinked_cons_ne h so e o D q : sync_at h o ≠ Some so → unlinked h so ((e, o) :: D) q = unlinked h so D q.
Proof. intros Hsy. unfold unlinked. by rewrite filter_cons_False. Qed.

Lemma unlinked_ext h h' so D q : (∀ p, p ∈ D → sync_at h' (snd p) = sync_at h (snd p)) →
  unlinked h' so D q = unlinked h so D q.
Proof.
  intros Hs. unfold unlinked. apply list_filter_iff. intros e. f_equiv. rewrite !list_elem_of_fmap.
  f_equiv. intros p. rewrite !list_elem_of_filter. split; intros (-> & Hsy & Hin); split_and!; try done.
  - by rewrite <-Hs.
  - by rewrite Hs.
Qed.

(** What unlinking leaves of a store: objects may be gone, and no counter has grown. *)
Definition unlinked_objs (D : list pair_entry) (h h' : gmap oid object) : Prop :=
  ∀ so sob', h' !! so = Some sob' → ∃ sob, h !! so = Some sob ∧ data sob' = data sob ∧
    refcount sob' <= refcount sob ∧ wait_queue sob' = unlinked h so D (wait_queue sob).

Lemma slack_unlinked D s s' n : slack s n → unlinked_objs D (objs s) (objs s') → slack s' n.
Proof.
  intros Hs Hu o ob' Ho'. destruct (Hu o ob' Ho') as (ob & Ho & Hd & Hr & _). destruct (Hs o ob Ho) as [A B].
  split; [lia|]. rewrite Hd. apply B.
Qed.

(** A detached entry that is in no queue any more is forgotten. *)
Lemma waits_ok_forget e o D s :
  waits_ok ((e, o) :: D) s →
  (∀ so sob, sync_at (objs s) o = Some so → objs s !! so = Some sob → e ∉ wait_queue sob) → waits_ok D s.
Proof.
  intros [A B C E F G H I J K L] Hno. split; try done.
  - intros so sob e' Hso He. destruct (A so sob e' Hso He) as (o' & Hp & Hsy). exists o'. split; [|done].
    destruct Hp as [?|[[= -> ->]|?]%elem_of_cons]; [by left| |by right]. by destruct (Hno so sob).
  - intros e' o' [?|?]; apply (C e'); [by left|right; by right].
  - intros e' o' th w Hin. apply (L e' o' th w). by right.
Qed.

Lemma wp_object_sync_remove_queue x D s o so sob e (Q : unit → server → Prop) :
  sync_ok x D s → slack s 1 → sync_at (objs s) o = Some so → objs s !! so = Some sob → has_add_queue sob = true →
  Q tt (set_objs (<[so:=ob_queue (filter (λ e', e' ≠ e) (wait_queue sob)) sob]>) s) →
  wp (object_sync_remove_queue o e) Q s.
Proof.
  intros Hs Hsl Hsy Hso Hadd HQ. destruct (Hsl so sob Hso) as [Hr _]. unfold object_sync_remove_queue.
  pose proof (ob_live _ _ _ _ (hp_object _ _ (sy_heap _ _ _ Hs) so sob Hso)) as Hpos.
  apply wp_bind, (wp_get_obj_sync o so sob); [done|done|lia|].
  apply wp_bind. eapply wp_get_obj; [apply lookup_insert_eq|].
  replace (has_add_queue _) with true by done. unfold remove_queue.
  apply wp_bind, wp_bind. eapply wp_get_obj; [apply lookup_insert_eq|]. apply wp_put_obj. rewrite set_objs_twice.
  eapply wp_release_dec; [apply lookup_insert_eq|simpl; lia|]. rewrite set_objs_twice.
  replace (ob_refcount _ _) with (ob_queue (filter (λ e', e' ≠ e) (wait_queue sob)) sob); [done|].
  destruct sob; unfold ob_refcount, ob_queue; simpl. f_equal. lia.
Qed.

Lemma wx_x_ok x D s : (∀ o, 0 <= x_handle x o <= x_ref x o) → x_ok (wx x D s).
Proof.
  intros Hx o. specialize (Hx o). simpl. pose proof (wrefs_nonneg s o). pose proof (occ_nonneg o (snd <$> D)). lia.
Qed.

Lemma wx_threads x D s s' : threads s' = threads s → wx x D s' = wx x D s.
Proof. intros H. unfold wx, wrefs. by rewrite H. Qed.

(** Unlinking an entry from its queue. *)
Lemma unlink_entry_ok x D s so sob e o :
  sync_ok x D s → (e, o) ∈ D → objs s !! so = Some sob → has_add_queue sob = true →
  sync_ok x D (set_objs (<[so:=ob_queue (filter (λ e', e' ≠ e) (wait_queue sob)) sob]>) s).
Proof.
  intros Hs HinD Hso Hadd. assert (Hw := sy_waits _ _ _ Hs). apply (sync_ok_set x D s so sob); try done.
  split; try done.
  - apply threads_sim_refl.
  - intros e' [_ ?]%list_elem_of_filter. done.
  - intros. by apply NoDup_filter.
  - intros t th e' o' Ht Hin He. apply list_elem_of_filter. split; [|done]. intros ->.
    destruct (thread_pairs_inv _ _ _ _ Hin) as (<- & w & Hw' & Hid & _). by apply (wk_detached _ _ Hw e o th w).
  - apply (wk_data _ _ Hw so sob Hso).
  - intros t th Ht Hin. by eapply (owned_elsewhere D s so sob).
Qed.

(** Dropping the reference of a detached entry that is in no queue. *)
Lemma drop_entry_ok x e o ob D s :
  sync_ok x ((e, o) :: D) s → objs s !! o = Some ob →
  (∀ so sob, sync_at (objs s) o = Some so → objs s !! so = Some sob → e ∉ wait_queue sob) →
  wp (release_object o) (λ _ s', sync_ok x D s' ∧ same_env s s' ∧ shrinks (objs s) (objs s') ∧
    ∀ p ob ob', objs s !! p = Some ob → objs s' !! p = Some ob' → refcount ob' <= refcount ob) s.
Proof.
  intros [Hok Hw Hx] Ho Hno. assert (waits_ok D s) as Hw1 by by eapply waits_ok_forget.
  assert (∀ p, x_ref (wx x ((e, o) :: D) s) p = x_ref (pin o (wx x D s)) p) as Hxr.
  { intros p. cbn [x_ref wx pin]. rewrite fmap_cons, (occ_cons p o []), occ_nil. cbn [snd]. rewrite occ_cons. lia. }
  assert (heap_ok (pin o (wx x D s)) (objs s)) as Hok1.
  { apply (heap_ok_reheld _ _ _ Hok); try done.
    - intros p. destruct (wx_x_ok x D s Hx p). simpl in *. pose proof (occ_nonneg p [o]). lia.
    - intros q obq Hq Hne. by apply (waits_waited x D s q obq).
    - intros q obq ow c ab Hq Hd Hc. by eapply (waits_owned x D s). }
  eapply wp_mono; [apply (release_object_ok (wx x D s) o ob); [by apply wx_x_ok|done|done]|].
  intros [] s' (Hok' & Hsh & He). assert (threads s' = threads s) as Hth by apply He. split_and!; try done.
  - split; [by rewrite (wx_threads x D s)| |done].
    apply (waits_ok_shrinks x D s s'); try done; [by rewrite (wx_threads x D s)|apply He].
  - intros p obp obp' Hp Hp'. pose proof (ob_refs _ _ _ _ (hp_object _ _ Hok1 p obp Hp)) as A.
    pose proof (ob_refs _ _ _ _ (hp_object _ _ Hok' p obp' Hp')) as B.
    pose proof (hrefs_shrinks _ _ p Hsh). pose proof (occ_nonneg p [o]). simpl in A, B. lia.
Qed.

Lemma unlink_step x e o D s :
  sync_ok x ((e, o) :: D) s → slack s 1 →
  wp (object_sync_remove_queue o e ;; release_object o)
    (λ _ s', sync_ok x D s' ∧ same_env s s' ∧ unlinked_objs [(e, o)] (objs s) (objs s')) s.
Proof.
  intros Hs Hsl. destruct (wk_sync _ _ (sy_waits _ _ _ Hs) e o) as (so & sob & Hsy & Hso & Hadd).
  { right. by left. }
  destruct (sync_at_cases _ _ _ Hsy) as (ob & Ho & _).
  apply wp_bind. eapply wp_object_sync_remove_queue; try done. set (sob1 := ob_queue _ sob).
  set (s1 := set_objs _ s). pose proof (unlink_entry_ok x _ s so sob e o Hs ltac:(by left) Hso Hadd) as Hs1.
  fold sob1 s1 in Hs1. assert (∀ p, sync_at (objs s1) p = sync_at (objs s) p) as Hsya.
  { intros p. by apply (sync_at_insert _ _ sob). }
  assert (∃ ob1, objs s1 !! o = Some ob1) as [ob1 Ho1].
  { simpl. destruct (decide (o = so)) as [->|Hne]; [rewrite lookup_insert_eq|rewrite lookup_insert_ne by done]; eauto. }
  eapply wp_mono; [apply (drop_entry_ok x e o ob1 D s1 Hs1 Ho1)|].
  - intros so' sob' Hsy' Hso'. rewrite Hsya in Hsy'. simplify_eq. simpl in Hso'. rewrite lookup_insert_eq in Hso'.
    injection Hso' as <-. intros [Hne _]%list_elem_of_filter. done.
  - intros [] s' (Hs' & He & Hsh & Hrc). split_and!; try done.
    intros p obp' Hp'. destruct (Hsh p obp' Hp') as (obp1 & Hp1 & Hd & Hq & _). specialize (Hrc p obp1 obp' Hp1 Hp').
    simpl in Hp1. destruct (decide (p = so)) as [->|Hne].
    + rewrite lookup_insert_eq in Hp1. injection Hp1 as <-. exists sob. split_and!; try done.
      by rewrite unlinked_cons_eq, unlinked_nil.
    + rewrite lookup_insert_ne in Hp1 by done. exists obp1. split_and!; try done.
      rewrite unlinked_cons_ne, unlinked_nil by congruence. done.
Qed.

Lemma unlinked_objs_trans e o D h h1 h2 :
  unlinked_objs [(e, o)] h h1 → unlinked_objs D h1 h2 → (∀ p, p ∈ D → sync_at h1 (snd p) = sync_at h (snd p)) →
  unlinked_objs ((e, o) :: D) h h2.
Proof.
  intros H1 H2 Hsy so sob2 Hso2. destruct (H2 so sob2 Hso2) as (sob1 & Hso1 & Hd1 & Hr1 & Hq1).
  destruct (H1 so sob1 Hso1) as (sob & Hso & Hd & Hr & Hq). exists sob. split_and!; [done|congruence|lia|].
  rewrite Hq1, Hq, (unlinked_ext h h1) by done. destruct (decide (sync_at h o = Some so)) as [E|E].
  - by rewrite !unlinked_cons_eq, unlinked_nil by done.
  - by rewrite !unlinked_cons_ne, unlinked_nil by done.
Qed.

(** The sync object of an object that is still waited on does not change. *)
Lemma unlinked_sync_at x E D s s' e o :
  unlinked_objs E (objs s) (objs s') → sync_ok x D s' → pending s' D e o → sync_at (objs s') o = sync_at (objs s) o.
Proof.
  intros Hu Hs' Hp. destruct (held_alive _ _ o (sy_heap _ _ _ Hs')) as [ob' Ho']; [by eapply pending_held|].
  destruct (Hu o ob' Ho') as (ob & Ho & Hd & _). by eapply sync_at_same.
Qed.

Lemma unlink_queues_ok x t id l i s :
  sync_ok x (entries t id l i) s → slack s 1 →
  wp (unlink_queues t id l i) (λ _ s', sync_ok x [] s' ∧ same_env s s' ∧ unlinked_objs (entries t id l i) (objs s) (objs s')) s.
Proof.
  revert i s. induction l as [|o l IH]; intros i s Hs Hsl; simpl.
  - apply wp_ret. split_and!; try done. intros so sob Hso. exists sob. by rewrite unlinked_nil.
  - eapply (wp_bind2 _ (λ _, release_object o)); [by apply (unlink_step x _ o (entries t id l (i + 1)))|].
    intros [] s1 (Hs1 & He1 & Hu1). eapply wp_mono; [by apply IH; [|eapply slack_unlinked]|].
    intros [] s2 (Hs2 & He2 & Hu2).
    split_and!; [done|by eapply same_env_trans|]. eapply unlinked_objs_trans; [done..|].
    intros [e p] Hin. eapply unlinked_sync_at; [done|done|by right].
Qed.

(** ** Acquiring the objects of a wait *)

Definition same_rest (s s' : server) : Prop :=
  procs s' = procs s ∧ global_table s' = global_table s ∧ current s' = current s ∧
  global_error s' = global_error s ∧ inproc_device_fd s' = inproc_device_fd s ∧
  current_time s' = current_time s ∧ monotonic_time s' = monotonic_time s ∧ allocs s' = allocs s.

Lemma same_rest_trans s1 s2 s3 : same_rest s1 s2 → same_rest s2 s3 → same_rest s1 s3.
Proof. intros (?&?&?&?&?&?&?&?) (?&?&?&?&?&?&?&?). split_and!; congruence. Qed.
Lemma same_env_rest s s' : same_env s s' → same_rest s s'.
Proof. intros (?&?&?&?&?&?&?&?&?&?). split_and!; congruence. Qed.

(** The sync objects of [l] are acquired by [t], and only they change. *)
Definition acquired_objs (t : tid) (l : list oid) (h h' : gmap oid object) : Prop :=
  ∀ so, match h !! so, h' !! so with
  | Some sob, Some sob' => wait_queue sob' = wait_queue sob ∧
      data sob' = (if decide (so ∈ l) then acquired_data t (data sob) else data sob)
  | None, None => True
  | _, _ => False
  end.

(** Only the mutexes that [t] owns change. *)
Definition acquired_env (t : tid) (s s' : server) : Prop :=
  (∀ t', t' ≠ t → threads s' !! t' = threads s !! t') ∧
  (∀ th, threads s !! t = Some th → ∃ l, threads s' !! t = Some (th_mutex_list l th)) ∧
  same_rest s s' ∧ wakeups s' = wakeups s.

Definition any_abandoned (h : gmap oid object) (l : list oid) : bool :=
  existsb (λ so, match h !! so with Some sob => was_abandoned (data sob) | None => false end) l.

Lemma acquired_objs_refl t h : acquired_objs t [] h h.
Proof. intros so. destruct (h !! so); [|done]. by rewrite decide_False by apply not_elem_of_nil. Qed.

Lemma th_mutex_list_twice l l' th : th_mutex_list l' (th_mutex_list l th) = th_mutex_list l' th.
Proof. done. Qed.
Lemma th_mutex_list_same th : th_mutex_list (t_mutex_list th) th = th.
Proof. by destruct th. Qed.

Lemma acquired_env_refl t s : acquired_env t s s.
Proof. split_and!; try done. intros th. exists (t_mutex_list th). by rewrite th_mutex_list_same. Qed.

Lemma acquired_env_trans t s1 s2 s3 : acquired_env t s1 s2 → acquired_env t s2 s3 → acquired_env t s1 s3.
Proof.
  intros (A & B & C & E) (A' & B' & C' & E'). split_and!; [|..|by eapply same_rest_trans|congruence].
  - intros t' Ht'. by rewrite A', A.
  - intros th Hth. destruct (B th Hth) as [l Hl]. destruct (B' _ Hl) as [l' Hl']. by exists l'.
Qed.

Lemma acquired_objs_cons t so l h h1 h2 :
  so ∉ l → acquired_objs t [so] h h1 → acquired_objs t l h1 h2 → acquired_objs t (so :: l) h h2.
Proof.
  intros Hno H1 H2 p. specialize (H1 p). specialize (H2 p).
  destruct (h !! p), (h1 !! p), (h2 !! p); try done. destruct H1 as [Hq1 Hd1], H2 as [Hq2 Hd2].
  split; [congruence|]. rewrite Hd2, Hd1. destruct (decide (p = so)) as [->|Hne].
  - rewrite (decide_False (P:=so ∈ l)), !decide_True by (done || by left). done.
  - rewrite (decide_False (P:=p ∈ [so])) by (by rewrite list_elem_of_singleton).
    destruct (decide (p ∈ l)); [rewrite decide_True|rewrite decide_False]; rewrite ?elem_of_cons; naive_solver.
Qed.

Lemma acquired_step t th so sob s : objs s !! so = Some sob → threads s !! t = Some th →
  acquired_objs t [so] (objs s) (objs (acquired_state t th so sob s)) ∧ acquired_env t s (acquired_state t th so sob s).
Proof.
  intros Hso Ht. split.
  - intros p. assert (∀ sob', wait_queue sob' = wait_queue sob → data sob' = acquired_data t (data sob) →
      match objs s !! p, (<[so:=sob']> (objs s)) !! p with Some ob, Some ob' => wait_queue ob' = wait_queue ob ∧
      data ob' = (if decide (p ∈ [so]) then acquired_data t (data ob) else data ob) | None, None => True | _, _ => False end) as H.
    { intros sob' Hq Hd. destruct (decide (p = so)) as [->|Hne].
      - rewrite Hso, lookup_insert_eq, decide_True by (by left). done.
      - rewrite lookup_insert_ne by done. destruct (objs s !! p); [|done].
        by rewrite decide_False by (by rewrite list_elem_of_singleton). }
    unfold acquired_state. destruct (first_acquire (data sob)); by apply H.
  - unfold acquired_state. destruct (first_acquire (data sob)); [|destruct (acquired_env_refl t s) as (?&?&?&?); by split_and!].
    split_and!; try done.
    + intros t' Hne. simpl. by rewrite lookup_insert_ne.
    + intros th' Hth'. simpl. rewrite lookup_insert_eq. simplify_eq. eauto.
Qed.

(** Acquiring one object after another does not change the sync objects of the rest. *)
Lemma acquired_sync_at t l h h' o : acquired_objs t l h h' → sync_at h' o = sync_at h o.
Proof.
  intros H. unfold sync_at. specialize (H o). destruct (h !! o), (h' !! o); try done. simpl.
  destruct H as [_ ->]. unfold acquired_data. case_decide; [|done]. by destruct (data o0).
Qed.

(** An object of a wait with its sync object. *)
Definition sync_pair (h : gmap oid object) (o so : oid) : Prop :=
  sync_at h o = Some so ∧ ∃ sob, h !! so = Some sob ∧ has_add_queue sob = true.

Lemma acquired_sync_pair t l h h' o so : acquired_objs t l h h' → sync_pair h o so → sync_pair h' o so.
Proof.
  intros H (Hsy & sob & Hso & Ha). split; [by rewrite (acquired_sync_at t l h)|].
  specialize (H so). rewrite Hso in H. destruct (h' !! so) as [sob'|]; [|done]. exists sob'. split; [done|].
  destruct H as [_ Hd]. unfold has_add_queue in *. rewrite Hd. unfold acquired_data. case_decide; [|done]. by destruct (data sob).
Qed.

Lemma satisfy_all_ok x D t l syncs s n :
  sync_ok x D s → slack s n → Z.of_nat (length l) + 1 <= n → is_Some (threads s !! t) →
  Forall2 (sync_pair (objs s)) l syncs → NoDup syncs → (∀ o, o ∈ l → object_ready s t o = true) →
  wp (satisfy_all t l) (λ ab s', ab = any_abandoned (objs s) syncs ∧ sync_ok x D s' ∧
    slack s' (n - Z.of_nat (length l)) ∧ acquired_objs t syncs (objs s) (objs s') ∧ acquired_env t s s') s.
Proof.
  intros Hs Hsl Hn Hth Hl. revert s n Hs Hsl Hn Hth Hl. induction l as [|o l IH] in syncs |- *; intros s n Hs Hsl Hn [th Hth] Hl Hnd Hrd.
  { inversion Hl; subst. apply wp_ret. split_and!; [done|done| |apply acquired_objs_refl|apply acquired_env_refl].
    eapply slack_weaken; [done|simpl; lia]. }
  apply Forall2_cons_inv_l in Hl as (so & syncs' & (Hsy & sob & Hso & Ha) & Hl & ->).
  apply NoDup_cons in Hnd as [Hno Hnd]. assert (object_ready s t o = true) as Hr by (apply Hrd; by left).
  rewrite (object_ready_sync _ _ _ _ _ Hsy Hso) in Hr. cbn [satisfy_all length] in *. apply wp_bind.
  eapply (wp_object_sync_satisfied x D s o so sob t th); try done; [eapply slack_weaken; [done|lia]|].
  destruct (acquired_step t th so sob s Hso Hth) as [Ho1 He1]. pose proof (acquired_ok x D s so sob t th Hs Hso Ha Hth Hr) as Hs1.
  pose proof (acquired_slack t th so sob s n Hso Hsl) as Hsl1. set (s1 := acquired_state t th so sob s) in *.
  assert (Hsame : ∀ p, p ≠ so → objs s1 !! p = objs s !! p).
  { intros p Hp. unfold s1, acquired_state. destruct (first_acquire (data sob)); simpl; by rewrite lookup_insert_ne. }
  apply wp_bind. eapply wp_mono; [apply (IH syncs' s1 (n - 1)); try done; [lia|..]|].
  - destruct He1 as (_ & He & _). destruct (He th Hth) as [l' Hl']. eauto.
  - eapply Forall2_impl; [exact Hl|]. intros p q. by apply acquired_sync_pair with t [so].
  - intros p Hp. rewrite <-(Hrd p (list_elem_of_further _ _ _ Hp)). unfold object_ready.
    rewrite (acquired_sync_at t [so] (objs s)) by done. apply list_elem_of_lookup in Hp as [i Hi].
    destruct (Forall2_lookup_l _ _ _ _ _ Hl Hi) as (q & Hq & (-> & _)). simpl. rewrite Hsame; [done|].
    intros ->. by apply list_elem_of_lookup_2 in Hq.
  - intros ab s2 (-> & Hs2 & Hsl2 & Ho2 & He2). apply wp_ret. split_and!; try done.
    + simpl. rewrite Hso. f_equal. unfold any_abandoned. clear -Hsame Hno. induction syncs' as [|q l IH]; [done|].
      simpl. apply not_elem_of_cons in Hno as [? Hno]. rewrite Hsame by done. f_equal. by apply IH.
    + eapply slack_weaken; [done|lia].
    + by eapply acquired_objs_cons.
    + by eapply acquired_env_trans.
Qed.
