(* ===== verification/SyncWake.v ===== *)
(** * Ending and checking waits

    [end_wait] under the invariant: what a thread acquires when its wait ends,
    and what is left of the queues.  [check_wait] has an exact answer, [verdict],
    and [wake_thread] and [wake_up] never fault, terminate, and leave no thread in
    the queue that could have been woken. *)

From stdpp Require Import base list gmap fin_maps.
From S2P Require Import Prelude Access Object ObjectInv Handle HandleInv HandleThms Wait SyncInv SyncSteps.

Open Scope Z_scope.
Open Scope server_scope.

(** ** Detaching a wait from its thread *)

Definition detached (t : tid) (th : thread) (next : list thread_wait) (s : server) : server :=
  set_threads (<[t:=th_wait next th]>) s.

Lemma wait_pairs_thread t w e o : (e, o) ∈ wait_pairs t w → wq_thread e = t.
Proof.
  intros [i Hi]%list_elem_of_lookup. unfold wait_pairs in Hi. rewrite list_lookup_imap in Hi.
  destruct (w_queues w !! i); simplify_eq/=. done.
Qed.

Lemma wait_pairs_id t w e o : (e, o) ∈ wait_pairs t w → wq_wait e = w_id w.
Proof.
  intros [i Hi]%list_elem_of_lookup. unfold wait_pairs in Hi. rewrite list_lookup_imap in Hi.
  destruct (w_queues w !! i); simplify_eq/=. done.
Qed.

Lemma pending_detach s t th w next e o :
  threads s !! t = Some th → t_wait th = w :: next →
  pending (detached t th next s) (wait_pairs t w) e o ↔ pending s [] e o.
Proof.
  intros Ht Hw. unfold pending, detached. simpl. split.
  - intros [(th' & Ht' & Hin)|Hin]; left.
    + destruct (decide (wq_thread e = t)) as [<-|Hne].
      * rewrite lookup_insert_eq in Ht'. simplify_eq. exists th. split; [done|]. unfold thread_pairs in *. rewrite Hw.
        apply elem_of_app. by right.
      * rewrite lookup_insert_ne in Ht' by done. eauto.
    + assert (wq_thread e = t) as <- by by eapply wait_pairs_thread. exists th. split; [done|].
      unfold thread_pairs. rewrite Hw. apply elem_of_app. by left.
  - intros [(th' & Ht' & Hin)|Hin]; [|by apply not_elem_of_nil in Hin].
    destruct (decide (wq_thread e = t)) as [<-|Hne].
    + simplify_eq. unfold thread_pairs in Hin. rewrite Hw in Hin. apply elem_of_app in Hin as [Hin|Hin]; [by right|].
      left. eexists. split; [apply lookup_insert_eq|done].
    + left. exists th'. by rewrite lookup_insert_ne.
Qed.

Lemma detached_wx x s t th w next :
  threads s !! t = Some th → t_wait th = w :: next → wx x (wait_pairs t w) (detached t th next s) ≡ wx x [] s.
Proof.
  intros Ht Hw. assert (∀ o, wrefs (detached t th next s) o + occ o (snd <$> wait_pairs t w) = wrefs s o) as H.
  { intros o. unfold wrefs, detached. simpl. rewrite (msum_update _ _ t th) by done. rewrite wait_pairs_snd.
    unfold thread_refs. simpl. rewrite Hw. change ((w :: next) ≫= w_queues) with (w_queues w ++ (next ≫= w_queues)).
    rewrite !occ_app. lia. }
  split_and!; intros o; [| done|]; cbn [x_ref x_held wx]; rewrite H; change (snd <$> []) with (@nil oid); rewrite occ_nil; lia.
Qed.

Lemma detach_ok x s t th w next :
  sync_ok x [] s → threads s !! t = Some th → t_wait th = w :: next →
  sync_ok x (wait_pairs t w) (detached t th next s).
Proof.
  intros [Hok Hw Hx] Ht Hwt. split; [|split|done].
  - by rewrite (detached_wx x s t th w next).
  - intros so sob e Hso He. destruct (wk_queue _ _ Hw so sob e Hso He) as (o & Hp & Hsy).
    exists o. by rewrite pending_detach.
  - apply (wk_entries _ _ Hw).
  - intros e o Hp. rewrite pending_detach in Hp by done. by apply (wk_sync _ _ Hw e).
  - intros t' th' w' Ht' Hin. simpl in Ht'. destruct (decide (t' = t)) as [->|Hne].
    + rewrite lookup_insert_eq in Ht'. simplify_eq. apply (wk_wait _ _ Hw t th w' Ht). rewrite Hwt. by right.
    + rewrite lookup_insert_ne in Ht' by done. by eapply (wk_wait _ _ Hw).
  - intros so sob Hso. pose proof (wk_data _ _ Hw so sob Hso) as H. destruct (data sob) as [| | | | | |[t'|]| | | |]; try done.
    simpl in *. destruct H as (? & th' & Ht' & Hin). split; [done|]. destruct (decide (t' = t)) as [->|Hne].
    + simplify_eq. eexists. split; [apply lookup_insert_eq|done].
    + exists th'. by rewrite lookup_insert_ne.
  - intros t' th' so Ht' Hin. simpl in Ht'. destruct (decide (t' = t)) as [->|Hne].
    + rewrite lookup_insert_eq in Ht'. simplify_eq. by apply (wk_owned _ _ Hw t th so Ht).
    + rewrite lookup_insert_ne in Ht' by done. by eapply (wk_owned _ _ Hw).
  - intros t' th' Ht'. simpl in Ht'. destruct (decide (t' = t)) as [->|Hne].
    + rewrite lookup_insert_eq in Ht'. simplify_eq. by apply (wk_nodup _ _ Hw t th Ht).
    + rewrite lookup_insert_ne in Ht' by done. by eapply (wk_nodup _ _ Hw).
  - intros t' th' Ht'. simpl in Ht'. destruct (decide (t' = t)) as [->|Hne].
    + rewrite lookup_insert_eq in Ht'. simplify_eq. by apply (wk_proc _ _ Hw t th Ht).
    + rewrite lookup_insert_ne in Ht' by done. by eapply (wk_proc _ _ Hw).
  - intros t' th' e o so sob Ht' Hin Hsy Hso. simpl in Ht'. destruct (decide (t' = t)) as [->|Hne].
    + rewrite lookup_insert_eq in Ht'. simplify_eq. apply (wk_linked _ _ Hw t th e o so sob); try done.
      unfold thread_pairs in *. rewrite Hwt. apply elem_of_app. by right.
    + rewrite lookup_insert_ne in Ht' by done. by apply (wk_linked _ _ Hw t' th' e o so sob).
  - intros t' th' Ht'. simpl in Ht'. destruct (decide (t' = t)) as [->|Hne].
    + rewrite lookup_insert_eq in Ht'. simplify_eq. pose proof (wk_ids _ _ Hw t th Ht) as Hnd. rewrite Hwt in Hnd.
      by apply NoDup_cons in Hnd as [_ ?].
    + rewrite lookup_insert_ne in Ht' by done. by apply (wk_ids _ _ Hw t').
  - intros e o th' w' Hin Ht' Hw' Hid. pose proof (wait_pairs_thread t w e o Hin) as Et. rewrite Et in Ht'. simpl in Ht'.
    rewrite lookup_insert_eq in Ht'. injection Ht' as <-. pose proof (wk_ids _ _ Hw t th Ht) as Hnd. rewrite Hwt in Hnd.
    apply NoDup_cons in Hnd as [Hno _]. apply Hno. apply list_elem_of_fmap. exists w'. split; [|done].
    rewrite Hid. symmetry. by eapply wait_pairs_id.
Qed.

Lemma npairs_nonneg s : 0 <= npairs s.
Proof. apply msum_nonneg. intros. lia. Qed.

Lemma npairs_update s t th th' f : threads s !! t = Some th →
  npairs (set_threads (<[t:=th']>) (set_objs f s)) =
    npairs s - Z.of_nat (length (t_wait th ≫= w_queues)) + Z.of_nat (length (t_wait th' ≫= w_queues)).
Proof. intros Ht. unfold npairs. simpl. by rewrite (msum_update _ _ t th). Qed.

(** Two servers in which the threads have the same waits. *)
Definition same_stacks (s s' : server) : Prop :=
  ∀ t, t_wait <$> threads s' !! t = t_wait <$> threads s !! t.

Lemma msum_waits (f : list thread_wait → Z) s s' :
  same_stacks s s' → msum (λ th, f (t_wait th)) (threads s') = msum (λ th, f (t_wait th)) (threads s).
Proof.
  intros H. apply msum_rel. intros t. specialize (H t).
  destruct (threads s' !! t), (threads s !! t); simplify_eq/=; constructor. by f_equal.
Qed.

Lemma npairs_stacks s s' : same_stacks s s' → npairs s' = npairs s.
Proof. apply (msum_waits (λ l, Z.of_nat (length (l ≫= w_queues)))). Qed.
Lemma nwaits_stacks s s' : same_stacks s s' → nwaits s' = nwaits s.
Proof. intros H. unfold nwaits. by rewrite (msum_waits (λ l, Z.of_nat (length l)) s s'). Qed.

Lemma acquired_stacks t s s' : acquired_env t s s' → is_Some (threads s !! t) → same_stacks s s'.
Proof.
  intros (A & B & _) [th Hth] t'. destruct (decide (t' = t)) as [->|Hne]; [|by rewrite A].
  destruct (B th Hth) as [l Hl]. by rewrite Hl, Hth.
Qed.

Lemma same_stacks_eq s s' : threads s' = threads s → same_stacks s s'.
Proof. intros E t. by rewrite E. Qed.

(** ** Ending a wait *)

(** The sync objects a wait acquires when it ends with [status]. *)
Definition wait_acquires (h : gmap oid object) (w : thread_wait) (status : Z) : list oid :=
  if status <? Z.of_nat (length (w_queues w)) then
    match w_select w with
    | SELECT_WAIT_ALL => omap (sync_at h) (w_queues w)
    | _ => option_list (w_queues w !! Z.to_nat status ≫= sync_at h)
    end
  else [].

(** A status that tells of signaled objects, or one that is not an index. *)
Definition status_ok (s : server) (t : tid) (w : thread_wait) (status : Z) : Prop :=
  status < Z.of_nat (length (w_queues w)) → 0 <= status ∧
  match w_select w with
  | SELECT_WAIT_ALL => ∀ o, o ∈ w_queues w → object_ready s t o = true
  | _ => ∃ o, w_queues w !! Z.to_nat status = Some o ∧ object_ready s t o = true
  end.

Definition wait_status (s : server) (w : thread_wait) (status : Z) : Z :=
  if (status <? Z.of_nat (length (w_queues w))) && (w_abandoned w || any_abandoned (objs s) (wait_acquires (objs s) w status))
  then status + STATUS_ABANDONED_WAIT_0 else status.

(** Room for the references and acquisitions of all the waits. *)
Definition wait_room (s : server) : Prop := slack s (npairs s + 2).

(** The state after the wait [w] of [t] ended, acquiring the sync objects of [l]. *)
Record ended (t : tid) (th : thread) (w : thread_wait) (next : list thread_wait) (l : list oid) (s s' : server) : Prop := {
  en_thread : ∃ ms, threads s' !! t = Some (th_mutex_list ms (th_wait next th));
  en_threads : ∀ t', t' ≠ t → threads s' !! t' = threads s !! t';
  en_rest : same_rest s s';
  en_wakeups : wakeups s' = wakeups s;
  en_objs : ∀ so sob', objs s' !! so = Some sob' → ∃ sob, objs s !! so = Some sob ∧
    data sob' = (if decide (so ∈ l) then acquired_data t (data sob) else data sob) ∧
    wait_queue sob' = unlinked (objs s) so (wait_pairs t w) (wait_queue sob);
}.

Lemma wait_sync_pairs D s t th w :
  waits_ok D s → threads s !! t = Some th → w ∈ t_wait th → Forall (λ o, ∃ so, sync_pair (objs s) o so) (w_queues w).
Proof.
  intros Hw Ht Hin. apply Forall_forall. intros o Ho.
  destruct (pending_wait s D t th w o Ht Hin Ho) as (e & He & _).
  destruct (wk_sync _ _ Hw e o He) as (so & sob & ? & ? & ?). exists so. split; [done|]. eauto.
Qed.

Lemma sync_pairs_list h l : Forall (λ o, ∃ so, sync_pair h o so) l →
  Forall2 (sync_pair h) l (omap (sync_at h) l) ∧ Some <$> omap (sync_at h) l = sync_at h <$> l.
Proof.
  induction 1 as [|o l (so & Hsy & Hso) _ [IH1 IH2]]; [split; [constructor|done]|]. simpl. rewrite Hsy. simpl.
  split; [constructor; [done|exact IH1]|]. f_equal. exact IH2.
Qed.

(** Acquiring the objects of a wait, as [end_wait] does before it unlinks them. *)
Lemma acquire_wait_ok x D s t th w status n :
  sync_ok x D s → slack s n → Z.of_nat (length (w_queues w)) + 1 <= n → threads s !! t = Some th →
  Forall (λ o, ∃ so, sync_pair (objs s) o so) (w_queues w) → wait_ok (objs s) w → status_ok s t w status →
  status < Z.of_nat (length (w_queues w)) →
  wp (match w_select w with
      | SELECT_WAIT_ALL => satisfy_all t (w_queues w)
      | _ => o <- deref (w_queues w !! Z.to_nat status); object_sync_satisfied o t
      end)
    (λ ab s', ab = any_abandoned (objs s) (wait_acquires (objs s) w status) ∧ sync_ok x D s' ∧
      slack s' (n - Z.of_nat (length (w_queues w))) ∧
      acquired_objs t (wait_acquires (objs s) w status) (objs s) (objs s') ∧ acquired_env t s s') s.
Proof.
  intros Hs Hsl Hn Ht Hp (_ & _ & Hnd) Hst Hlt. destruct (Hst Hlt) as [H0 Hr]. unfold wait_acquires.
  rewrite (proj2 (Z.ltb_lt _ _) Hlt). destruct (sync_pairs_list _ _ Hp) as [Hl Hf].
  assert (Hone : (∃ o, w_queues w !! Z.to_nat status = Some o ∧ object_ready s t o = true) →
    wp (o <- deref (w_queues w !! Z.to_nat status); object_sync_satisfied o t)
      (λ ab s', ab = any_abandoned (objs s) (option_list (w_queues w !! Z.to_nat status ≫= sync_at (objs s))) ∧ sync_ok x D s' ∧
        slack s' (n - Z.of_nat (length (w_queues w))) ∧
        acquired_objs t (option_list (w_queues w !! Z.to_nat status ≫= sync_at (objs s))) (objs s) (objs s') ∧ acquired_env t s s') s).
  { intros (o & Ho & Hro). pose proof (lookup_lt_Some _ _ _ Ho). rewrite Ho. wp_steps. apply (wp_deref _ o); [done|].
    destruct (Forall_lookup_1 _ _ _ _ Hp Ho) as (so & Hsy & sob & Hso & Ha). simpl. rewrite Hsy. simpl. rewrite Hso.
    rewrite (object_ready_sync _ _ _ _ _ Hsy Hso) in Hro.
    eapply (wp_object_sync_satisfied x D s o so sob t th); try done; [eapply slack_weaken; [done|lia]|].
    destruct (acquired_step t th so sob s Hso Ht). split_and!; try done; [by rewrite orb_false_r|by eapply acquired_ok|].
    eapply slack_weaken; [by apply acquired_slack|lia]. }
  destruct (w_select w) eqn:Esel; try (by apply Hone).
  apply satisfy_all_ok; try done. specialize (Hnd eq_refl). rewrite <-Hf in Hnd.
  by apply NoDup_fmap_1 in Hnd.
Qed.

Lemma th_mutex_wait l next th : th_mutex_list l (th_wait next th) = th_wait next (th_mutex_list l th).
Proof. done. Qed.

(** Unlinking what has been acquired. *)
Lemma acquired_unlinked t l D h h1 h2 so sob2 :
  acquired_objs t l h h1 → unlinked_objs D h1 h2 → h2 !! so = Some sob2 → ∃ sob, h !! so = Some sob ∧
    data sob2 = (if decide (so ∈ l) then acquired_data t (data sob) else data sob) ∧
    wait_queue sob2 = unlinked h so D (wait_queue sob).
Proof.
  intros H1 H2 Hso2. destruct (H2 so sob2 Hso2) as (sob1 & Hso1 & Hd1 & _ & Hq1). pose proof (H1 so) as H.
  rewrite Hso1 in H. destruct (h !! so) as [sob|]; [|done]. destruct H as [Hq Hd]. exists sob.
  split_and!; [done|by rewrite Hd1|]. rewrite Hq1, Hq. apply unlinked_ext. intros. by apply acquired_sync_at with t l.
Qed.

Lemma end_wait_ok x s t th w next status :
  sync_ok x [] s → wait_room s → threads s !! t = Some th → t_wait th = w :: next → status_ok s t w status →
  wp (end_wait t status) (λ r s', r = wait_status s w status ∧ sync_ok x [] s' ∧ wait_room s' ∧
    ended t th w next (wait_acquires (objs s) w status) s s') s.
Proof.
  intros Hs Hroom Ht Hw Hst. set (n := Z.of_nat (length (w_queues w))). unfold end_wait.
  apply wp_bind, (wp_get_thread _ th); [done|]. rewrite Hw. apply wp_bind. unfold put_thread. apply wp_modify.
  change (set_threads _ s) with (detached t th next s). set (s1 := detached t th next s).
  pose proof (detach_ok x s t th w next Hs Ht Hw) as Hs1. fold s1 in Hs1.
  assert (threads s1 !! t = Some (th_wait next th)) as Ht1 by apply lookup_insert_eq.
  assert (npairs s1 = npairs s - n) as Hnp.
  { unfold s1, detached, npairs. simpl. rewrite (msum_update _ _ t th) by done. simpl. rewrite Hw.
    change ((w :: next) ≫= w_queues) with (w_queues w ++ (next ≫= w_queues)). rewrite length_app. unfold n. lia. }
  assert (Forall (λ o, ∃ so, sync_pair (objs s) o so) (w_queues w)) as Hp.
  { apply (wait_sync_pairs [] s t th); [apply Hs|done|]. rewrite Hw. by left. }
  assert (wait_ok (objs s) w) as Hwok. { apply (wk_wait _ _ (sy_waits _ _ _ Hs) t th); [done|]. rewrite Hw. by left. }
  apply wp_bind. apply (wp_mono _ (λ r s', r = wait_status s w status ∧ sync_ok x (wait_pairs t w) s' ∧
    slack s' (npairs s1 + 2) ∧ acquired_objs t (wait_acquires (objs s) w status) (objs s) (objs s') ∧ acquired_env t s1 s')).
  - fold n. unfold wait_status. fold n. destruct (Z.ltb_spec status n) as [Hlt|Hge].
    + apply wp_bind. eapply wp_mono.
      * apply (acquire_wait_ok x (wait_pairs t w) s1 t (th_wait next th) w status (npairs s + 2)); try done.
        fold n. pose proof (npairs_nonneg s1). lia.
      * intros ab s2 (-> & Hs2 & Hsl2 & Ho2 & He2). apply wp_ret. split_and!; try done.
        eapply slack_weaken; [done|]. fold n. lia.
    + apply wp_ret. simpl. split_and!; try done.
      * eapply (slack_weaken s1 (npairs s + 2)); [done|]. pose proof (npairs_nonneg s). unfold n in *. lia.
      * unfold wait_acquires. fold n. rewrite (proj2 (Z.ltb_ge _ _)) by done. apply acquired_objs_refl.
      * apply acquired_env_refl.
  - intros r s2 (-> & Hs2 & Hsl2 & Ho2 & He2). rewrite (wait_pairs_entries t w) in Hs2.
    pose proof (npairs_nonneg s1). apply wp_bind. eapply wp_mono.
    + apply (unlink_queues_ok x); [done|]. eapply slack_weaken; [done|lia].
    + intros [] s3 (Hs3 & He3 & Hu3). apply wp_ret. assert (threads s3 = threads s2) as Hth3 by apply He3.
      assert (same_stacks s1 s2) as Hst12 by (apply (acquired_stacks t); [done|by rewrite Ht1]).
      split_and!; try done.
      * unfold wait_room. replace (npairs s3) with (npairs s1); [by eapply slack_unlinked|].
        rewrite <-(npairs_stacks s1 s2) by done. symmetry. by apply npairs_stacks, same_stacks_eq.
      * destruct He2 as (A & B & C & E). split.
        -- destruct (B _ Ht1) as [ms Hms]. exists ms. by rewrite Hth3.
        -- intros t' Hne. rewrite Hth3, A by done. simpl. by rewrite lookup_insert_ne.
        -- apply (same_rest_trans s s1); [done|]. eapply same_rest_trans; [done|]. by apply same_env_rest.
        -- transitivity (wakeups s2); [apply He3|done].
        -- intros so sob3 Hso3. rewrite <-wait_pairs_entries in Hu3. by eapply acquired_unlinked.
Qed.

(** ** Checking a wait *)

(** The first object of [l] that is ready according to [rd]; [i] is the index of the head. *)
Fixpoint first_ready (rd : oid → bool) (l : list oid) (i : Z) : Z :=
  match l with
  | [] => -1
  | o :: l => if rd o then i else first_ready rd l (i + 1)
  end.

Definition scan (rd : oid → bool) (w : thread_wait) : Z :=
  match w_select w with
  | SELECT_WAIT_ALL => if forallb rd (w_queues w) then 0 else -1
  | _ => first_ready rd (w_queues w) 0
  end.

Definition late (s : server) (th : thread) (w : thread_wait) : Z :=
  if has (w_flags w) SELECT_ALERTABLE && negb (bool_decide (t_user_apc th = [])) then STATUS_USER_APC
  else if (0 <=? w_when w) && (w_when w <=? current_time s) then STATUS_TIMEOUT
  else if (w_when w <? 0) && (- w_when w <=? monotonic_time s) then STATUS_TIMEOUT
  else -1.

(** The status of the wait [w] of a thread, and [-1] when it has to go on. *)
Definition verdict_with (rd : oid → bool) (s : server) (th : thread) (pr : process) (w : thread_wait) : Z :=
  if has (w_flags w) SELECT_INTERRUPTIBLE && negb (bool_decide (t_system_apc th = [])) then STATUS_KERNEL_APC
  else if has (w_flags w) SELECT_COOPERATIVE_SUSPEND && bool_decide (is_Some (t_context th)) then STATUS_THREAD_WAS_SUSPENDED
  else if is_thread_suspended th pr then -1
  else if scan rd w =? -1 then late s th w else scan rd w.

Notation verdict s t th pr w := (verdict_with (object_ready s t) s th pr w).

Definition checked_thread (th : thread) (w : thread_wait) : thread :=
  if has (w_flags w) SELECT_INTERRUPTIBLE && negb (bool_decide (t_system_apc th = [])) then th
  else if has (w_flags w) SELECT_COOPERATIVE_SUSPEND then
    match t_context th with Some c => th_context (Some (ThreadContext true (ctx_flags c))) th | None => th end
  else th.

Lemma first_ready_spec rd l i : first_ready rd l i = -1 ∨
  ∃ k o, first_ready rd l i = i + Z.of_nat k ∧ l !! k = Some o ∧ rd o = true.
Proof.
  revert i. induction l as [|o l IH]; intros i; simpl; [by left|]. destruct (rd o) eqn:E.
  - right. exists 0%nat, o. split_and!; [lia|done|done].
  - destruct (IH (i + 1)) as [?|(k & o' & -> & Hk & ?)]; [by left|]. right. exists (S k), o'. split_and!; [lia|done|done].
Qed.

Section check.
Context (wake : wait_queue_entry → M bool) (x : xrefs) (s : server) (t : tid) (th : thread) (w : thread_wait) (next : list thread_wait).
Context (Hs : sync_ok x [] s) (Hsl : slack s 1) (Ht : threads s !! t = Some th) (Hw : t_wait th = w :: next).

Lemma top_wait_ok : wait_ok (objs s) w ∧ Forall (λ o, ∃ so, sync_pair (objs s) o so) (w_queues w).
Proof using Hs Ht Hw.
  assert (w ∈ t_wait th) as Hin by (rewrite Hw; by left). split.
  - by apply (wk_wait _ _ (sy_waits _ _ _ Hs) t th).
  - by apply (wait_sync_pairs [] s t th); [apply Hs|..].
Qed.

Lemma wp_signaled o i (Q : bool → server → Prop) : o ∈ w_queues w → Q (object_ready s t o) s →
  wp (object_sync_signaled wake o (WaitQueueEntry t (w_id w) i)) Q s.
Proof using Hs Hsl Ht Hw.
  intros Hin HQ. destruct top_wait_ok as [(Hop & _) Hp]. rewrite Forall_forall in Hp.
  destruct (Hp o Hin) as (so & Hsy & sob & Hso & Ha). by eapply wp_object_sync_signaled.
Qed.

Lemma wp_all_signaled l i (Q : bool → server → Prop) : (∀ o, o ∈ l → o ∈ w_queues w) →
  Q (forallb (object_ready s t) l) s → wp (all_signaled wake t (w_id w) l i) Q s.
Proof using Hs Hsl Ht Hw.
  revert i Q. induction l as [|o l IH]; intros i Q Hl HQ; [done|]. simpl.
  apply wp_bind, wp_signaled; [apply Hl; by left|]. apply wp_bind, IH; [intros; apply Hl; by right|]. done.
Qed.

Lemma wp_first_signaled l i (Q : Z → server → Prop) : (∀ o, o ∈ l → o ∈ w_queues w) →
  Q (first_ready (object_ready s t) l i) s → wp (first_signaled wake t (w_id w) l i) Q s.
Proof using Hs Hsl Ht Hw.
  revert i. induction l as [|o l IH]; intros i Hl HQ; [done|]. simpl in *.
  apply wp_bind, wp_signaled; [apply Hl; by left|]. destruct (object_ready s t o); [done|].
  apply IH; [intros; apply Hl; by right|done].
Qed.

Lemma wp_check_wait pr (Q : Z → server → Prop) : procs s !! t_process th = Some pr →
  Q (verdict s t th pr w) (set_threads (<[t:=checked_thread th w]>) s) → wp (check_wait wake t) Q s.
Proof using Hs Hsl Ht Hw.
  intros Hpr HQ. assert (set_threads (<[t:=th]>) s = s) as Hid.
  { destruct s. unfold set_threads. simpl in *. by rewrite insert_id. }
  unfold check_wait. apply wp_bind, (wp_get_thread _ th); [done|]. rewrite Hw. wp_steps.
  unfold verdict_with, checked_thread in HQ. destruct (_ && negb _); [rewrite Hid in HQ; by apply wp_ret|].
  assert (Hgo : Q (if is_thread_suspended th pr then -1 else if scan (object_ready s t) w =? -1 then late s th w else scan (object_ready s t) w) s →
    wp (suspended <- thread_suspended t;
        if suspended : bool then ret (-1)
        else r <- match w_select w with
                  | SELECT_WAIT_ALL =>
                      ok <- all_signaled wake t (w_id w) (w_queues w) 0; ret (if ok : bool then 0 else -1)
                  | _ => first_signaled wake t (w_id w) (w_queues w) 0
                  end;
             if negb (r =? -1) then ret r else th <- get_thread t; check_timeout th w) Q s).
  { clear HQ. intros HQ. unfold thread_suspended. apply wp_bind, wp_bind, (wp_get_thread _ th); [done|].
    apply wp_bind, (wp_get_process _ pr); [done|]. wp_steps. destruct (is_thread_suspended th pr); [by apply wp_ret|].
    apply wp_bind. apply (wp_mono _ (λ r s', r = scan (object_ready s t) w ∧ s' = s)).
    - unfold scan. destruct (w_select w); try (by apply wp_first_signaled).
      apply wp_bind, wp_all_signaled; [done|]. by apply wp_ret.
    - intros r s' [-> ->]. destruct (scan (object_ready s t) w =? -1); simpl; [|by apply wp_ret].
      apply wp_bind, (wp_get_thread _ th); [done|]. unfold check_timeout, late in *. wp_steps.
      repeat (case_match; try by apply wp_ret). }
  destruct (has (w_flags w) SELECT_COOPERATIVE_SUSPEND); [|rewrite Hid in HQ; by apply Hgo].
  destruct (t_context th) as [c|] eqn:Ec; [|rewrite Hid in HQ; by apply Hgo].
  apply wp_bind. unfold put_thread. apply wp_modify, wp_ret. rewrite bool_decide_eq_true_2 in HQ by eauto. exact HQ.
Qed.

(** Every status but [-1] is an index of a signaled object or beyond the last index. *)
Lemma verdict_ok pr : verdict s t th pr w ≠ -1 → status_ok s t w (verdict s t th pr w).
Proof using Hs Ht Hw.
  destruct top_wait_ok as [(_ & Hlen & _) _]. unfold status_ok. intros Hne Hlt. revert Hne Hlt. unfold verdict_with.
  destruct (_ && negb _). { unfold STATUS_KERNEL_APC. lia. }
  destruct (_ && bool_decide _). { unfold STATUS_THREAD_WAS_SUSPENDED. lia. }
  destruct (is_thread_suspended th pr); [done|]. destruct (Z.eqb_spec (scan (object_ready s t) w) (-1)) as [E|E].
  { unfold late, STATUS_USER_APC, STATUS_TIMEOUT. intros Hne Hlt. repeat case_match; try done; lia. }
  intros _ _. revert E. unfold scan. assert (Hone : first_ready (object_ready s t) (w_queues w) 0 ≠ -1 →
    0 <= first_ready (object_ready s t) (w_queues w) 0 ∧ ∃ o, w_queues w !! Z.to_nat (first_ready (object_ready s t) (w_queues w) 0) = Some o ∧ object_ready s t o = true).
  { intros E. destruct (first_ready_spec (object_ready s t) (w_queues w) 0) as [?|(k & o & -> & Hk & ?)]; [done|]. split; [lia|].
    exists o. replace (Z.to_nat (0 + Z.of_nat k)) with k by lia. done. }
  destruct (w_select w); try done. destruct (forallb (object_ready s t) (w_queues w)) eqn:Ef; [|done].
  intros _. split; [lia|]. rewrite forallb_forall in Ef. intros o Ho. by apply Ef, list_elem_of_In.
Qed.

(** A wait that goes on leaves its thread alone. *)
Lemma blocked_thread pr : verdict s t th pr w = -1 → checked_thread th w = th.
Proof.
  unfold verdict_with, checked_thread. destruct (_ && negb _); [done|]. destruct (has (w_flags w) SELECT_COOPERATIVE_SUSPEND); [|done].
  by destruct (t_context th).
Qed.
End check.

(** ** Steps that keep waits, mutexes and objects *)

Definition same_fields (th th' : thread) : Prop :=
  t_wait th' = t_wait th ∧ t_mutex_list th' = t_mutex_list th ∧ t_process th' = t_process th.
Definition same_sync (s s' : server) : Prop :=
  objs s' = objs s ∧ procs s' = procs s ∧ ∀ t, option_Forall2 same_fields (threads s !! t) (threads s' !! t).

Lemma same_sync_stacks s s' : same_sync s s' → same_stacks s s'.
Proof. intros (_ & _ & H) t. destruct (H t) as [th th' (Hw & _)|]; simpl; congruence. Qed.

Lemma same_sync_l s s' t th : same_sync s s' → threads s !! t = Some th →
  ∃ th', threads s' !! t = Some th' ∧ same_fields th th'.
Proof. intros (_ & _ & H) Ht. specialize (H t). rewrite Ht in H. inversion H; subst. eauto. Qed.
Lemma same_sync_r s s' t th' : same_sync s s' → threads s' !! t = Some th' →
  ∃ th, threads s !! t = Some th ∧ same_fields th th'.
Proof. intros (_ & _ & H) Ht. specialize (H t). rewrite Ht in H. inversion H; subst. eauto. Qed.

Lemma same_sync_pending s s' D e o : same_sync s s' → pending s' D e o ↔ pending s D e o.
Proof.
  intros H. unfold pending, thread_pairs. split; (intros [(th & Ht & Hin)|?]; [left|by right]).
  - destruct (same_sync_r _ _ _ _ H Ht) as (th' & ? & Hw & _). exists th'. by rewrite <-Hw.
  - destruct (same_sync_l _ _ _ _ H Ht) as (th' & ? & Hw & _). exists th'. by rewrite Hw.
Qed.

Lemma same_sync_wrefs s s' o : same_sync s s' → wrefs s' o = wrefs s o.
Proof.
  intros (_ & _ & H). apply msum_rel. intros t. destruct (H t) as [th th' (Hw & Hl & _)|]; constructor.
  unfold thread_refs. by rewrite Hw, Hl.
Qed.

Lemma same_sync_ok x D s s' : sync_ok x D s → same_sync s s' → sync_ok x D s'.
Proof.
  intros [Hok Hw Hx] Hsm. assert (Ho : objs s' = objs s) by apply Hsm. assert (Hp : procs s' = procs s) by apply Hsm.
  assert (∀ e o, pending s' D e o ↔ pending s D e o) as Hpe by (intros; by apply same_sync_pending).
  split; [|split|done].
  - assert (wx x D s' ≡ wx x D s) as -> by (split_and!; intros o; simpl; rewrite ?(same_sync_wrefs s s') by done; done).
    by rewrite Ho.
  - intros so sob e. rewrite Ho. intros Hso He. destruct (wk_queue _ _ Hw so sob e Hso He) as (o & ? & ?). exists o. by rewrite Hpe.
  - rewrite Ho. apply (wk_entries _ _ Hw).
  - intros e o. rewrite Ho, Hpe. apply (wk_sync _ _ Hw).
  - intros t th w Ht Hin. destruct (same_sync_r _ _ _ _ Hsm Ht) as (th0 & Ht0 & Hwt & _). rewrite Hwt in Hin. rewrite Ho.
    by apply (wk_wait _ _ Hw t th0).
  - intros so sob. rewrite Ho. intros Hso. pose proof (wk_data _ _ Hw so sob Hso) as H.
    destruct (data sob) as [| | | | | |[t|]| | | |]; try done. simpl in *. destruct H as (? & th & Ht & Hin). split; [done|].
    destruct (same_sync_l _ _ _ _ Hsm Ht) as (th' & Ht' & _ & Hl & _). exists th'. by rewrite Hl.
  - intros t th so Ht Hin. destruct (same_sync_r _ _ _ _ Hsm Ht) as (th0 & Ht0 & _ & Hl & _). rewrite Hl in Hin. rewrite Ho.
    by apply (wk_owned _ _ Hw t th0).
  - intros t th Ht. destruct (same_sync_r _ _ _ _ Hsm Ht) as (th0 & Ht0 & _ & -> & _). by apply (wk_nodup _ _ Hw t).
  - intros t th Ht. destruct (same_sync_r _ _ _ _ Hsm Ht) as (th0 & Ht0 & _ & _ & ->). rewrite Hp. by apply (wk_proc _ _ Hw t).
  - intros t th e o so sob Ht Hin. rewrite Ho. destruct (same_sync_r _ _ _ _ Hsm Ht) as (th0 & Ht0 & Hwt & _).
    apply (wk_linked _ _ Hw t th0); [done|]. unfold thread_pairs in *. by rewrite <-Hwt.
  - intros t th Ht. destruct (same_sync_r _ _ _ _ Hsm Ht) as (th0 & Ht0 & -> & _). by apply (wk_ids _ _ Hw t).
  - intros e o th w He Ht Hin. destruct (same_sync_r _ _ _ _ Hsm Ht) as (th0 & Ht0 & Hwt & _). rewrite Hwt in Hin.
    by apply (wk_detached _ _ Hw e o th0).
Qed.

Lemma same_sync_room s s' : same_sync s s' → wait_room s → wait_room s'.
Proof.
  intros H Hr. unfold wait_room. rewrite (npairs_stacks s s') by by apply same_sync_stacks.
  intros o ob Ho. destruct H as (H & _ & _). rewrite H in Ho. exact (Hr o ob Ho).
Qed.

Lemma same_fields_refl th : same_fields th th.
Proof. done. Qed.

Lemma same_sync_put s s' t th th' : threads s !! t = Some th → same_fields th th' →
  objs s' = objs s → procs s' = procs s → threads s' = <[t:=th']> (threads s) → same_sync s s'.
Proof.
  intros Ht Hf Ho Hp Hth. split_and!; [done|done|]. intros t'. rewrite Hth. destruct (decide (t' = t)) as [->|Hne].
  - rewrite Ht, lookup_insert_eq. by constructor.
  - rewrite lookup_insert_ne by done. destruct (threads s !! t'); constructor. apply same_fields_refl.
Qed.

Lemma same_fields_checked th w : same_fields th (checked_thread th w).
Proof. unfold checked_thread. repeat case_match; done. Qed.

(** A reply changes only the context of the thread. *)
Lemma send_thread_wakeup_ok t th cookie status s : threads s !! t = Some th →
  wp (send_thread_wakeup t cookie status) (λ _ s', same_rest s s' ∧ objs s' = objs s ∧
    ∃ c r, threads s' = <[t:=th_context c th]> (threads s) ∧ wakeups s' = (t, cookie, r) :: wakeups s) s.
Proof.
  intros Ht. unfold send_thread_wakeup. apply wp_bind, (wp_get_thread _ th); [done|].
  assert (<[t:=th_context (t_context th) th]> (threads s) = threads s) as Hid.
  { replace (th_context (t_context th) th) with th by by destruct th. by rewrite insert_id. }
  assert (Hkeep : ∀ r, same_rest s (set_wakeups (cons (t, cookie, r)) s) ∧ objs (set_wakeups (cons (t, cookie, r)) s) = objs s ∧
    ∃ c r', threads (set_wakeups (cons (t, cookie, r)) s) = <[t:=th_context c th]> (threads s) ∧
      wakeups (set_wakeups (cons (t, cookie, r)) s) = (t, cookie, r') :: wakeups s).
  { intros r. split_and!; try done. exists (t_context th), r. by rewrite Hid. }
  apply wp_bind. destruct (t_context th) as [c|]; [|by apply wp_ret, wp_modify].
  destruct (_ && _); [|by apply wp_ret, wp_modify]. destruct (negb (ctx_flags c)); [|by apply wp_ret, wp_modify].
  apply wp_bind. unfold put_thread. apply wp_modify, wp_ret, wp_modify. split_and!; try done. by exists None, status.
Qed.
