(* ===== verification/SyncThms.v ===== *)
(** * Waking threads, and the operations of the sync objects

    [wake_thread] and [wake_up] under the invariant, and with them the operations
    that signal events, release semaphores and release or abandon mutexes. *)

From stdpp Require Import base list gmap fin_maps.
From S2P Require Import Prelude Access Object ObjectInv Handle HandleInv HandleThms Wait Sync SyncInv SyncSteps SyncWake.

Open Scope Z_scope.
Open Scope server_scope.

(** ** Threads that have to wait *)

(** The current wait of [t] has to go on, were the objects of [rd] the ready ones. *)
Definition blocked_with (rd : oid → bool) (s : server) (t : tid) : Prop :=
  ∀ th w next pr, threads s !! t = Some th → t_wait th = w :: next → procs s !! t_process th = Some pr →
    verdict_with rd s th pr w = -1.
Definition blocked (s : server) (t : tid) : Prop := blocked_with (object_ready s t) s t.

(** Readiness with the sync object [o] left out. *)
Definition ready_but (o : oid) (s : server) (t : tid) (p : oid) : bool :=
  object_ready s t p && negb (bool_decide (sync_at (objs s) p = Some o)).
Definition blocked_but (o : oid) (s : server) (t : tid) : Prop := blocked_with (ready_but o s t) s t.

(** No thread waits that could go on. *)
Definition quiet (s : server) : Prop := ∀ t, blocked s t.

Lemma first_ready_none rd l i : 0 <= i → first_ready rd l i = -1 ↔ ∀ p, p ∈ l → rd p = false.
Proof.
  revert i. induction l as [|o l IH]; intros i Hi; simpl.
  - split; [by intros _ p ?%not_elem_of_nil|done].
  - destruct (rd o) eqn:E.
    + split; [lia|]. intros H. rewrite H in E by (by left). done.
    + rewrite IH by lia. split; [|intros H p Hp; apply H; by right].
      intros H p [->|Hp]%elem_of_cons; auto.
Qed.

Lemma scan_none rd w : scan rd w = -1 ↔
  if decide (w_select w = SELECT_WAIT_ALL) then ∃ p, p ∈ w_queues w ∧ rd p = false else ∀ p, p ∈ w_queues w → rd p = false.
Proof.
  unfold scan. destruct (w_select w); simpl; try (apply first_ready_none; lia).
  destruct (forallb rd (w_queues w)) eqn:E.
  - split; [done|]. intros (p & Hp & Hr). rewrite forallb_forall in E. rewrite E in Hr; [done|]. by apply list_elem_of_In.
  - split; [intros _|done]. induction (w_queues w) as [|p l IH]; [done|]. simpl in E. destruct (rd p) eqn:Ep.
    + destruct (IH E) as (q & ? & ?). exists q. split; [by right|done].
    + exists p. split; [by left|done].
Qed.

(** With fewer ready objects a wait that has to go on still has to. *)
Lemma verdict_mono rd rd' s s' th pr w :
  (∀ p, p ∈ w_queues w → rd' p = true → rd p = true) → current_time s' = current_time s →
  monotonic_time s' = monotonic_time s → verdict_with rd s th pr w = -1 → verdict_with rd' s' th pr w = -1.
Proof.
  intros Hrd Ht Hm. unfold verdict_with, late. rewrite Ht, Hm. destruct (_ && _); [done|]. destruct (_ && _); [done|].
  destruct (is_thread_suspended th pr); [done|]. destruct (Z.eqb_spec (scan rd w) (-1)) as [E|E]; [|done].
  assert (scan rd' w = -1) as ->; [|done]. rewrite scan_none in *. case_decide.
  - destruct E as (p & Hp & Hr). exists p. split; [done|]. destruct (rd' p) eqn:E'; [|done]. rewrite Hrd in Hr; done.
  - intros p Hp. destruct (rd' p) eqn:E'; [|done]. rewrite <-(E p Hp). symmetry. auto.
Qed.

Lemma blocked_mono rd rd' s s' t :
  threads s' !! t = threads s !! t → procs s' = procs s → current_time s' = current_time s → monotonic_time s' = monotonic_time s →
  (∀ th w p, threads s !! t = Some th → w ∈ t_wait th → p ∈ w_queues w → rd' p = true → rd p = true) →
  blocked_with rd s t → blocked_with rd' s' t.
Proof.
  intros Hth Hp Ht Hm Hrd Hb th w next pr. rewrite Hth, Hp. intros Hx Hw Hpr.
  apply (verdict_mono rd rd' s s'); try done; [|by apply (Hb th w next)].
  intros p Hin. apply (Hrd th w p Hx); [|done]. rewrite Hw. by left.
Qed.

Lemma blocked_blocked_but o s t : blocked s t → blocked_but o s t.
Proof. apply blocked_mono; try done. intros th w p _ _ _. unfold ready_but. by intros [??]%andb_true_iff. Qed.

(** A thread that has to wait but for [o] acquires it when its wait ends. *)
Lemma acquires_anchor o s t th w pr :
  verdict_with (ready_but o s t) s th pr w = -1 → verdict s t th pr w ≠ -1 → (length (w_queues w) <= 64)%nat →
  o ∈ wait_acquires (objs s) w (verdict s t th pr w).
Proof.
  unfold verdict_with. destruct (_ && _); [done|]. destruct (_ && _); [done|]. destruct (is_thread_suspended th pr); [done|].
  intros H1 H2 Hlen. destruct (Z.eqb_spec (scan (ready_but o s t) w) (-1)) as [E|E]; [|done].
  destruct (Z.eqb_spec (scan (object_ready s t) w) (-1)) as [E2|E2]; [congruence|]. clear H1 H2.
  unfold wait_acquires. unfold scan in *. assert (Hone : first_ready (ready_but o s t) (w_queues w) 0 = -1 →
    first_ready (object_ready s t) (w_queues w) 0 ≠ -1 → o ∈ if first_ready (object_ready s t) (w_queues w) 0 <? Z.of_nat (length (w_queues w))
      then option_list (w_queues w !! Z.to_nat (first_ready (object_ready s t) (w_queues w) 0) ≫= sync_at (objs s)) else []).
  { intros Hb Hr. destruct (first_ready_spec (object_ready s t) (w_queues w) 0) as [?|(k & p & -> & Hk & Hrp)]; [done|].
    pose proof (lookup_lt_Some _ _ _ Hk). rewrite (proj2 (Z.ltb_lt _ _)) by lia.
    replace (Z.to_nat (0 + Z.of_nat k)) with k by lia. rewrite Hk. simpl.
    apply list_elem_of_lookup_2 in Hk. apply (proj1 (first_ready_none _ _ 0 ltac:(lia)) Hb) in Hk. unfold ready_but in Hk.
    rewrite Hrp in Hk. simpl in Hk. apply negb_false_iff, bool_decide_eq_true in Hk as ->. by left. }
  destruct (w_select w); try (by apply Hone).
  destruct (forallb (object_ready s t) (w_queues w)) eqn:Ef; [|done].
  destruct (forallb (ready_but o s t) (w_queues w)) eqn:Eb; [done|]. rewrite forallb_forall in Ef.
  assert (∃ p, p ∈ w_queues w ∧ sync_at (objs s) p = Some o) as (p & Hp & Hsy).
  { clear -Ef Eb. induction (w_queues w) as [|p l IH]; [done|]. simpl in Eb. destruct (ready_but o s t p) eqn:Ep.
    - destruct IH as (q & ? & ?); [done|intros; apply Ef; by right|]. exists q. split; [by right|done].
    - exists p. split; [by left|]. unfold ready_but in Ep. rewrite Ef in Ep by (by left).
      by apply negb_false_iff, bool_decide_eq_true in Ep. }
  rewrite (proj2 (Z.ltb_lt _ _)) by (destruct (w_queues w); [by apply not_elem_of_nil in Hp|simpl; lia]).
  apply list_elem_of_omap. eauto.
Qed.

(** ** What waking threads changes *)

(** How acquisitions change the data of an object. *)
Definition evolves (d d' : obj_data) : Prop :=
  match d, d' with
  | event_sync_data manual b, event_sync_data manual' b' =>
      manual' = manual ∧ (b' = true → b = true) ∧ (manual = true → b' = b)
  | semaphore_sync_data count max, semaphore_sync_data count' max' => max' = max ∧ count' <= count
  | mutex_sync_data _ _ _, mutex_sync_data (Some _) _ _ => True
  | _, _ => d' = d
  end.

Lemma evolves_refl d : evolves d d.
Proof. by destruct d as [| | | | | |[]| | | |]. Qed.
Lemma evolves_trans d1 d2 d3 : evolves d1 d2 → evolves d2 d3 → evolves d1 d3.
Proof.
  unfold evolves. destruct d1, d2 as [| | | | | |[]| | | |]; try done; intros H1; try (by simplify_eq);
    destruct d3 as [| | | | | |[]| | | |]; try done; naive_solver lia.
Qed.
Lemma evolves_acquired t d : evolves d (acquired_data t d).
Proof. destruct d as [|[] []| | | | | | | | |]; simpl; try done; lia. Qed.
Lemma evolves_kind d d' : evolves d d' → sync_target d' = sync_target d.
Proof. destruct d, d' as [| | | | | |[]| | | |]; simpl; intros; by simplify_eq. Qed.

(** Objects may go, queues lose entries, and threads end waits; a thread that
    does not wait is left alone. *)
Record woken (s s' : server) : Prop := {
  wo_objs : ∀ o ob', objs s' !! o = Some ob' → ∃ ob, objs s !! o = Some ob ∧
    evolves (data ob) (data ob') ∧ wait_queue ob' `sublist_of` wait_queue ob;
  wo_stack : ∀ t th, threads s !! t = Some th → ∃ th', threads s' !! t = Some th' ∧ t_wait th' `suffix_of` t_wait th;
  wo_idle : ∀ t th, threads s !! t = Some th → t_wait th = [] → threads s' !! t = Some th;
  wo_rest : same_rest s s';
  wo_replies : ∃ l, wakeups s' = l ++ wakeups s;
}.

Lemma woken_refl s : woken s s.
Proof. split; try done; [eauto using evolves_refl|eauto|by exists []]. Qed.

Lemma woken_trans s1 s2 s3 : woken s1 s2 → woken s2 s3 → woken s1 s3.
Proof.
  intros [A B C E [l F]] [A' B' C' E' [l' F']]. split.
  - intros o ob3 Ho3. destruct (A' o ob3 Ho3) as (ob2 & Ho2 & Hd2 & Hq2).
    destruct (A o ob2 Ho2) as (ob1 & Ho1 & Hd1 & Hq1). exists ob1. split_and!; [done|by eapply evolves_trans|].
    by etransitivity.
  - intros t th Ht. destruct (B t th Ht) as (th2 & Ht2 & Hs2). destruct (B' t th2 Ht2) as (th3 & Ht3 & Hs3).
    exists th3. split; [done|]. by etransitivity.
  - intros t th Ht Hi. apply C'; [by apply C|done].
  - by eapply same_rest_trans.
  - exists (l' ++ l). by rewrite F', F, app_assoc.
Qed.

#[export] Instance woken_preorder : PreOrder woken.
Proof. split; [exact woken_refl|exact woken_trans]. Qed.

Lemma ended_woken t th w next l s s' :
  threads s !! t = Some th → t_wait th = w :: next → ended t th w next l s s' → woken s s'.
Proof.
  intros Ht Hw [[ms A] B C E F]. split.
  - intros o ob' Ho'. destruct (F o ob' Ho') as (ob & Ho & Hd & Hq). exists ob. split_and!; [done| |].
    + rewrite Hd. case_decide; [apply evolves_acquired|apply evolves_refl].
    + rewrite Hq. apply sublist_filter.
  - intros t' th' Ht'. destruct (decide (t' = t)) as [->|Hne].
    + simplify_eq. eexists. split; [exact A|]. simpl. rewrite Hw. by apply suffix_cons_r.
    + exists th'. by rewrite B.
  - intros t' th' Ht' Hi. destruct (decide (t' = t)) as [->|Hne]; [simplify_eq; congruence|]. by rewrite B.
  - done.
  - by exists [].
Qed.

Lemma evolves_sync_at h h' p ob ob' : h !! p = Some ob → h' !! p = Some ob' → evolves (data ob) (data ob') →
  sync_at h' p = sync_at h p.
Proof. intros Hp Hp' He. unfold sync_at. rewrite Hp, Hp'. simpl. destruct (data ob), (data ob') as [| | | | | |[]| | | |]; simplify_eq/=; done. Qed.

(** A step of thread [t]: the other threads are left alone, and what they wait
    for is not ready for them if it was not. *)
Record spares (t : tid) (s s' : server) : Prop := {
  sp_threads : ∀ t', t' ≠ t → threads s' !! t' = threads s !! t';
  sp_rest : same_rest s s';
  sp_ready : ∀ t' th w p, t' ≠ t → threads s !! t' = Some th → w ∈ t_wait th → p ∈ w_queues w →
    sync_at (objs s') p = sync_at (objs s) p ∧ (object_ready s' t' p = true → object_ready s t' p = true);
}.

Lemma spares_same t s s' : objs s' = objs s → same_rest s s' →
  (∀ t', t' ≠ t → threads s' !! t' = threads s !! t') → spares t s s'.
Proof. intros Ho Hr Ht. split; try done. intros. unfold object_ready. by rewrite Ho. Qed.

Lemma spares_trans t s1 s2 s3 : spares t s1 s2 → spares t s2 s3 → spares t s1 s3.
Proof.
  intros [A B C] [A' B' C']. split; [|by eapply same_rest_trans|].
  - intros t' Hne. by rewrite A', A.
  - intros t' th w p Hne Ht Hw Hp. destruct (C t' th w p Hne Ht Hw Hp) as [Hs Hr].
    destruct (C' t' th w p Hne) as [Hs' Hr']; [by rewrite A|done|done|]. split; [congruence|auto].
Qed.

Lemma ready_acquired t t' d s so : t' ≠ t → sync_data_ok s so d → sync_ready t' (acquired_data t d) = true → sync_ready t' d = true.
Proof.
  intros Hne Hd. destruct d as [|manual b| | |c m| |ow c ab| | | |]; simpl; try done; [by destruct manual|lia|].
  rewrite orb_true_iff, bool_decide_eq_true, Z.eqb_eq. simpl in Hd. intros [?|[= ?]]; [destruct ow; lia|congruence].
Qed.

Lemma ended_spares x t th w next l s s' :
  sync_ok x [] s → sync_ok x [] s' → ended t th w next l s s' → spares t s s'.
Proof.
  intros Hs Hs' [_ B C _ F]. split; [done..|]. intros t' th' w' p Hne Ht' Hw' Hp.
  destruct (pending_wait s [] t' th' w' p Ht' Hw' Hp) as (e & He & Het).
  assert (pending s' [] e p) as He'.
  { destruct He as [(th2 & Ht2 & Hin)|?]; [left|by right]. exists th2. by rewrite Het, B in *. }
  destruct (held_alive _ _ p (sy_heap _ _ _ Hs')) as [ob' Ho']; [by eapply pending_held|].
  destruct (F p ob' Ho') as (ob & Ho & Hd & _).
  assert (evolves (data ob) (data ob')) as Hev by (rewrite Hd; case_decide; [apply evolves_acquired|apply evolves_refl]).
  pose proof (evolves_sync_at _ _ _ _ _ Ho Ho' Hev) as Hsy. split; [done|].
  destruct (wk_sync _ _ (sy_waits _ _ _ Hs') e p He') as (so & sob' & Hsy' & Hso' & _).
  destruct (F so sob' Hso') as (sob & Hso & Hds & _). rewrite (object_ready_sync s' t' p so sob') by done.
  rewrite Hsy in Hsy'. rewrite (object_ready_sync s t' p so sob) by done. rewrite Hds. case_decide; [|done].
  by apply (ready_acquired t t' _ s so), (wk_data _ _ (sy_waits _ _ _ Hs)).
Qed.

Lemma spares_blocked_but t o s s' t' : spares t s s' → t' ≠ t → blocked_but o s t' → blocked_but o s' t'.
Proof.
  intros [A B C] Hne. apply blocked_mono; try apply B; [by apply A|]. intros th w p Ht Hw Hp. unfold ready_but.
  destruct (C t' th w p Hne Ht Hw Hp) as [-> Hr]. rewrite !andb_true_iff. intros [??]. auto.
Qed.

(** How often a sync object can still be acquired. *)
Definition capacity (d : obj_data) : option Z :=
  match d with
  | event_sync_data false signaled => Some (if signaled then 1 else 0)
  | semaphore_sync_data count _ => Some count
  | _ => None
  end.

Lemma capacity_evolves d d' k : evolves d d' → capacity d = Some k → ∃ k', capacity d' = Some k' ∧ k' <= k.
Proof.
  intros He Hk. destruct d as [|[] b| | |c m| | | | | |]; try done; destruct d'; try done; simpl in He.
  - destruct He as (-> & Hb & _). injection Hk as <-. eexists. split; [done|]. destruct b, signaled; naive_solver lia.
  - destruct He as [-> ?]. injection Hk as <-. eexists. split; [done|lia].
Qed.
Lemma capacity_acquired t d k : sync_ready t d = true → capacity d = Some k → capacity (acquired_data t d) = Some (k - 1).
Proof. destruct d as [|[] b| | |c m| | | | | |]; simpl; intros; simplify_eq; done. Qed.
Lemma capacity_ready t d k : capacity d = Some k → sync_ready t d = true → 0 < k.
Proof. destruct d as [|[] b| | |c m| | | | | |]; simpl; intros; simplify_eq; lia. Qed.

(** The sync object [o] has been acquired between the two states. *)
Definition drained (o : oid) (s s' : server) : Prop :=
  ∀ ob ob' k, objs s !! o = Some ob → objs s' !! o = Some ob' → capacity (data ob) = Some k →
    ∃ k', capacity (data ob') = Some k' ∧ k' < k.

Lemma drained_woken o s s1 s2 : drained o s s1 → woken s1 s2 → drained o s s2.
Proof.
  intros Hd Hw ob ob2 k Ho Ho2 Hk. destruct (wo_objs _ _ Hw o ob2 Ho2) as (ob1 & Ho1 & He & _).
  destruct (Hd ob ob1 k Ho Ho1 Hk) as (k1 & Hk1 & ?). destruct (capacity_evolves _ _ _ He Hk1) as (k2 & ? & ?).
  exists k2. split; [done|lia].
Qed.

Lemma acquires_ready s t w status o ob :
  status_ok s t w status → o ∈ wait_acquires (objs s) w status → objs s !! o = Some ob → sync_ready t (data ob) = true.
Proof.
  unfold wait_acquires. intros Hst Hin Ho. destruct (Z.ltb_spec status (Z.of_nat (length (w_queues w)))) as [Hlt|]; [|by apply not_elem_of_nil in Hin].
  destruct (Hst Hlt) as [_ Hr]. assert (Hone : (∃ p, w_queues w !! Z.to_nat status = Some p ∧ object_ready s t p = true) →
    o ∈ option_list (w_queues w !! Z.to_nat status ≫= sync_at (objs s)) → sync_ready t (data ob) = true).
  { intros (p & -> & Hp). simpl. destruct (sync_at (objs s) p) as [so|] eqn:E; simpl; [|by intros ?%not_elem_of_nil].
    intros ->%list_elem_of_singleton. by rewrite (object_ready_sync _ _ _ _ _ E Ho) in Hp. }
  destruct (w_select w); try (by apply Hone). apply list_elem_of_omap in Hin as (p & Hp & E). specialize (Hr p Hp).
  by rewrite (object_ready_sync _ _ _ _ _ E Ho) in Hr.
Qed.

Lemma ended_drained t th w next status s s' o :
  status_ok s t w status → ended t th w next (wait_acquires (objs s) w status) s s' →
  o ∈ wait_acquires (objs s) w status → drained o s s'.
Proof.
  intros Hst [_ _ _ _ F] Hin ob ob' k Ho Ho' Hk. destruct (F o ob' Ho') as (ob0 & Ho0 & Hd & _). simplify_eq.
  rewrite decide_True in Hd by done. exists (k - 1). split; [|lia]. rewrite Hd. apply capacity_acquired; [|done].
  by eapply acquires_ready.
Qed.

Lemma ended_nwaits t th w next l s s' :
  threads s !! t = Some th → t_wait th = w :: next → ended t th w next l s s' → nwaits s = S (nwaits s').
Proof.
  intros Ht Hw [[ms A] B _ _ _]. rewrite (nwaits_stacks (detached t th next s) s').
  - unfold nwaits, detached. simpl. rewrite (msum_update _ _ t th) by done. simpl. rewrite Hw. cbn [length].
    assert (Z.of_nat (length (t_wait th)) <= msum (λ th, Z.of_nat (length (t_wait th))) (threads s)).
    { apply (msum_lookup_le (λ th, Z.of_nat (length (t_wait th))) _ t); [intros; lia|done]. }
    rewrite Hw in H. cbn [length] in H. lia.
  - intros t'. simpl. destruct (decide (t' = t)) as [->|Hne].
    + by rewrite A, lookup_insert_eq.
    + by rewrite B, lookup_insert_ne.
Qed.

(** A reply, with the check before the wait ended. *)
Lemma same_sync_woken s s' t th th' : threads s !! t = Some th → t_wait th ≠ [] → t_wait th' = t_wait th →
  objs s' = objs s → same_rest s s' → threads s' = <[t:=th']> (threads s) → (∃ l, wakeups s' = l ++ wakeups s) → woken s s'.
Proof.
  intros Ht Hne Hw Ho Hr Hth Hl. split; try done.
  - intros o ob'. rewrite Ho. eauto using evolves_refl.
  - intros t' th2 Ht2. rewrite Hth. destruct (decide (t' = t)) as [->|Hn].
    + simplify_eq. exists th'. rewrite lookup_insert_eq, Hw. done.
    + exists th2. by rewrite lookup_insert_ne.
  - intros t' th2 Ht2 Hi. rewrite Hth. destruct (decide (t' = t)) as [->|Hn]; [congruence|]. by rewrite lookup_insert_ne.
Qed.

Lemma woken_reply s s1 s2 t th th1 th2 : woken s s1 → threads s !! t = Some th → t_wait th ≠ [] →
  threads s1 !! t = Some th1 → t_wait th2 = t_wait th1 → threads s2 = <[t:=th2]> (threads s1) →
  objs s2 = objs s1 → same_rest s1 s2 → (∃ l, wakeups s2 = l ++ wakeups s1) → woken s s2.
Proof.
  intros [A B C E [l F]] Ht Hne Ht1 Hw Hth Ho Hr [l' Hl]. split.
  - rewrite Ho. exact A.
  - intros t' th' Ht'. destruct (B t' th' Ht') as (th3 & Ht3 & Hs3). rewrite Hth. destruct (decide (t' = t)) as [->|Hn].
    + simplify_eq. exists th2. rewrite lookup_insert_eq, Hw. done.
    + exists th3. by rewrite lookup_insert_ne.
  - intros t' th' Ht' Hi. destruct (decide (t' = t)) as [->|Hn]; [simplify_eq; congruence|].
    rewrite Hth, lookup_insert_ne by done. by apply C.
  - by eapply same_rest_trans.
  - exists (l' ++ l). by rewrite Hl, F, app_assoc.
Qed.

(** ** Waking a thread *)

(** The state after a check that ends the wait, with the reply. *)
Lemma finish_wait_ok x s t th pr w next :
  sync_ok x [] s → wait_room s → threads s !! t = Some th → t_wait th = w :: next → procs s !! t_process th = Some pr →
  verdict s t th pr w ≠ -1 →
  wp (status <- end_wait t (verdict s t th pr w);
      if negb (w_cookie w =? 0) then send_thread_wakeup t (w_cookie w) status else ret tt)
    (λ _ s', sync_ok x [] s' ∧ wait_room s' ∧ woken s s' ∧ nwaits s = S (nwaits s') ∧
      (∃ th', threads s' !! t = Some th' ∧ t_wait th' = next) ∧ spares t s s' ∧
      ∀ o, o ∈ wait_acquires (objs s) w (verdict s t th pr w) → drained o s s')
    (set_threads (<[t:=checked_thread th w]>) s).
Proof.
  intros Hs Hr Ht Hw Hpr Hv. set (th1 := checked_thread th w). set (s1 := set_threads (<[t:=th1]>) s).
  assert (Hsm : same_sync s s1) by (apply (same_sync_put s s1 t th th1); try done; apply same_fields_checked).
  pose proof (same_sync_ok x [] s s1 Hs Hsm) as Hs1. pose proof (same_sync_room s s1 Hsm Hr) as Hr1.
  assert (threads s1 !! t = Some th1) as Ht1 by apply lookup_insert_eq.
  assert (t_wait th1 = w :: next) as Hw1 by (rewrite <-Hw; apply same_fields_checked).
  assert (status_ok s1 t w (verdict s t th pr w)) as Hst by exact (verdict_ok x s t th w next Hs Ht Hw pr Hv).
  assert (woken s s1) as Hwo1.
  { apply (same_sync_woken s s1 t th th1); try done; [congruence|by rewrite Hw, Hw1|by exists []]. }
  apply wp_bind. eapply wp_mono; [apply (end_wait_ok x s1 t th1 w next); done|].
  intros r s2 (_ & Hs2 & Hr2 & Hen). assert (spares t s s2) as Hsp.
  { apply (spares_trans t s s1); [|exact (ended_spares x _ _ _ _ _ _ _ Hs1 Hs2 Hen)]. apply spares_same; try done. intros t' Hne. simpl. by rewrite lookup_insert_ne. }
  assert (∀ o, o ∈ wait_acquires (objs s) w (verdict s t th pr w) → drained o s s2) as Hdr.
  { intros o Ho. exact (ended_drained _ _ _ _ _ _ _ o Hst Hen Ho). }
  pose proof (ended_nwaits _ _ _ _ _ _ _ Ht1 Hw1 Hen) as Hn.
  rewrite (nwaits_stacks s s1) in Hn by by apply same_sync_stacks.
  pose proof (ended_woken _ _ _ _ _ _ _ Ht1 Hw1 Hen) as Hwo2. destruct (en_thread _ _ _ _ _ _ _ Hen) as [ms Ht2].
  assert (woken s s2) as Hwo by by etransitivity.
  destruct (negb (w_cookie w =? 0)).
  - eapply wp_mono; [by apply send_thread_wakeup_ok|]. intros [] s3 (Hrest & Ho3 & cx & rr & Hth3 & Hwk).
    assert (same_sync s2 s3) as Hsm3 by (eapply same_sync_put; [exact Ht2| |done|apply Hrest|exact Hth3]; done).
    split_and!.
    + by eapply same_sync_ok.
    + by eapply same_sync_room.
    + eapply woken_reply; [exact Hwo|exact Ht|congruence|exact Ht2| |exact Hth3|done|done|]; [done|].
      by exists [(t, w_cookie w, rr)].
    + rewrite Hn. f_equal. symmetry. by apply nwaits_stacks, same_sync_stacks.
    + eexists. rewrite Hth3, lookup_insert_eq. split; [done|]. done.
    + eapply spares_trans; [done|]. apply spares_same; try done. intros t' Hne. by rewrite Hth3, lookup_insert_ne.
    + intros o Ho ob ob3 k. rewrite Ho3. by apply Hdr.
  - apply wp_ret. split_and!; try done. eexists. split; [exact Ht2|]. done.
Qed.

Lemma wake_loop_ok wake x n t c s th :
  sync_ok x [] s → wait_room s → threads s !! t = Some th → (length (t_wait th) <= n)%nat →
  wp (wake_thread_loop wake n t c) (λ r s', c <= r ∧ (r = c → s' = s) ∧ (nwaits s' + Z.to_nat (r - c) = nwaits s)%nat ∧
    sync_ok x [] s' ∧ wait_room s' ∧ woken s s' ∧ blocked s' t ∧ spares t s s' ∧
    ∀ o, blocked_but o s t → c < r → drained o s s') s.
Proof.
  revert c s th. induction n as [|n IH]; intros c s th Hs Hr Ht Hlen; cbn [wake_thread_loop];
    (apply wp_bind, (wp_get_thread _ th); [done|]); destruct (t_wait th) as [|w next] eqn:Hw.
  1, 3: apply wp_ret; split_and!; try done; try (intros; lia); try (by apply spares_same); intros th' w next pr Ht'; congruence.
  { simpl in Hlen. lia. }
  destruct (wk_proc _ _ (sy_waits _ _ _ Hs) t th Ht) as [pr Hpr]. pose proof (npairs_nonneg s).
  apply wp_bind. eapply (wp_check_wait _ x s t th w next Hs); try done; [eapply slack_weaken; [exact Hr|lia]|].
  destruct (Z.eqb_spec (verdict s t th pr w) (-1)) as [Hv|Hv].
  - rewrite (blocked_thread s t th w pr Hv). apply wp_ret.
    replace (set_threads (<[t:=th]>) s) with s by (destruct s; unfold set_threads; simpl in *; by rewrite insert_id).
    split_and!; try done; try (intros; lia); try (by apply spares_same). intros th' w' next' pr' Ht' Hw' Hpr'. congruence.
  - apply wp_bind. eapply wp_get_thread; [apply lookup_insert_eq|]. apply wp_bind, (wp_deref _ w).
    { unfold top_wait. destruct (same_fields_checked th w) as [-> _]. by rewrite Hw. }
    eapply wp_bind2; [by apply (finish_wait_ok x s t th pr w next)|].
    intros [] s2 (Hs2 & Hr2 & Hwo & Hn & (th2 & Ht2 & Hw2) & Hsp & Hdr). simpl in Hlen.
    eapply wp_mono; [apply (IH (c + 1) s2 th2 Hs2 Hr2 Ht2); rewrite Hw2; lia|].
    intros r3 s3 (A & _ & B & C & D & E & F & G & _).
    split_and!; try done; [lia|intros; lia|lia|by etransitivity|by eapply spares_trans|].
    intros o Hb _. eapply drained_woken; [|exact E]. apply Hdr, acquires_anchor; [by apply (Hb th w next)|done|].
    destruct (top_wait_ok x s t th w next Hs Ht Hw) as [(_ & ? & _) _]. done.
Qed.

Lemma stack_nwaits s t th : threads s !! t = Some th → (length (t_wait th) <= nwaits s)%nat.
Proof.
  intros Ht. unfold nwaits. assert (Z.of_nat (length (t_wait th)) <= msum (λ th, Z.of_nat (length (t_wait th))) (threads s)); [|lia].
  apply (msum_lookup_le (λ th, Z.of_nat (length (t_wait th))) _ t); [intros; lia|done].
Qed.

Lemma wake_thread_ok x t s th :
  sync_ok x [] s → wait_room s → threads s !! t = Some th →
  wp (wake_thread t) (λ r s', 0 <= r ∧ (r = 0 → s' = s) ∧ (nwaits s' + Z.to_nat r = nwaits s)%nat ∧
    sync_ok x [] s' ∧ wait_room s' ∧ woken s s' ∧ blocked s' t ∧ spares t s s' ∧
    ∀ o, blocked_but o s t → 0 < r → drained o s s') s.
Proof.
  intros Hs Hr Ht. unfold wake_thread. wp_steps. eapply wp_mono.
  - apply (wake_loop_ok _ x (nwaits s) t 0 s th); try done. by eapply stack_nwaits.
  - intros r s' (A & B & C & E). rewrite Z.sub_0_r in C. done.
Qed.

(** ** Waking the threads of a queue *)

(** A reference that keeps the sync object [o] for the time of a call. *)
Definition anchored (x : xrefs) (s : server) (o : oid) : Prop :=
  ∃ p ob, 0 < x_ref x p ∧ objs s !! p = Some ob ∧ (p = o ∨ sync_target (data ob) = Some o).

Lemma anchored_alive x D s o : sync_ok x D s → anchored x s o → ∃ ob, objs s !! o = Some ob.
Proof.
  intros Hs (p & ob & _ & Hp & [->|Ht]); [eauto|].
  destruct (ob_targets _ _ _ _ (hp_object _ _ (sy_heap _ _ _ Hs) p ob Hp) o (sync_target_in _ _ Ht)) as (ob' & ? & _). eauto.
Qed.

Lemma anchored_woken x D s s' o : anchored x s o → sync_ok x D s' → woken s s' → anchored x s' o.
Proof.
  intros (p & ob & Hx & Hp & Hor) Hs' Hw. destruct (objs s' !! p) as [ob'|] eqn:Hp'.
  - exists p, ob'. split_and!; try done. destruct (wo_objs _ _ Hw p ob' Hp') as (ob0 & Hp0 & Ht & _). simplify_eq.
    by rewrite (evolves_kind _ _ Ht).
  - pose proof (hp_none _ _ (sy_heap _ _ _ Hs') p Hp') as H. pose proof (hrefs_nonneg (objs s') p). simpl in H.
    pose proof (wrefs_nonneg s' p). pose proof (occ_nonneg p (snd <$> D)). lia.
Qed.

Lemma next_after_middle e l1 l2 : e ∉ l1 → next_after e (l1 ++ e :: l2) = l2.
Proof.
  induction l1 as [|e' l1 IH]; simpl; intros Hn.
  - by rewrite bool_decide_eq_true_2.
  - apply not_elem_of_cons in Hn as [? ?]. rewrite bool_decide_eq_false_2 by congruence. by apply IH.
Qed.

(** At most [max] threads can acquire [o], where [max] is a limit. *)
Definition limited (o : oid) (max : Z) (s : server) : Prop :=
  max <= 0 ∨ ∀ ob, objs s !! o = Some ob → ∃ k, capacity (data ob) = Some k ∧ k <= max.

Lemma entry_thread s o ob e : waits_ok [] s → objs s !! o = Some ob → e ∈ wait_queue ob → ∃ th, threads s !! wq_thread e = Some th.
Proof.
  intros Hw Ho He. destruct (wk_queue _ _ Hw o ob e Ho He) as (p & [(th & ? & _)|Hin] & _); [eauto|].
  by apply not_elem_of_nil in Hin.
Qed.

(** The threads outside the queue of [o] do not wait for it. *)
Lemma queue_blocked_quiet s o ob : waits_ok [] s → objs s !! o = Some ob → (∀ t, blocked_but o s t) →
  (∀ e, e ∈ wait_queue ob → blocked s (wq_thread e)) → quiet s.
Proof.
  intros Hw Ho Hb Hq t. destruct (decide (t ∈ wq_thread <$> wait_queue ob)) as [(e & -> & He)%list_elem_of_fmap|Hno]; [by apply Hq|].
  specialize (Hb t). revert Hb. apply blocked_mono; try done. intros th w p Ht Hin Hp Hr. unfold ready_but.
  rewrite Hr. simpl. apply negb_true_iff, bool_decide_eq_false. intros Hsy. apply Hno, list_elem_of_fmap.
  apply list_elem_of_lookup in Hp as [i Hi]. exists (WaitQueueEntry t (w_id w) (Z.of_nat i)). split; [done|].
  apply (wk_linked _ _ Hw t th _ p o ob); try done. apply list_elem_of_bind. exists w. split; [|done].
  apply list_elem_of_lookup. exists i. unfold wait_pairs. by rewrite list_lookup_imap, Hi.
Qed.

(** A sync object that cannot be acquired any more lets nobody go on. *)
Lemma exhausted_quiet s o ob k : objs s !! o = Some ob → capacity (data ob) = Some k → k <= 0 →
  (∀ t, blocked_but o s t) → quiet s.
Proof.
  intros Ho Hk Hk0 Hb t. specialize (Hb t). revert Hb. apply blocked_mono; try done. intros th w p Ht Hin Hp Hr.
  unfold ready_but. rewrite Hr. simpl. apply negb_true_iff, bool_decide_eq_false. intros Hsy.
  rewrite (object_ready_sync _ _ _ _ _ Hsy Ho) in Hr. pose proof (capacity_ready t _ _ Hk Hr). lia.
Qed.

Lemma wake_up_loop_ok x o L n max l pre s ob :
  sync_ok x [] s → wait_room s → anchored x s o → objs s !! o = Some ob → wait_queue ob = pre ++ l →
  (length (wait_queue ob) <= L)%nat → (∀ e, e ∈ pre → blocked s (wq_thread e)) →
  (nwaits s * S L + length l <= n)%nat →
  wp (wake_up_loop n o max l) (λ _ s', sync_ok x [] s' ∧ wait_room s' ∧ woken s s' ∧ (nwaits s' <= nwaits s)%nat ∧
    (nwaits s' = nwaits s → s' = s) ∧ ((∀ t, blocked_but o s t) → limited o max s → quiet s')) s.
Proof.
  revert max l pre s ob. induction n as [|n IH]; intros max l pre s ob Hs Hr Ha Ho Hq HL Hpre Hn; destruct l as [|e l].
  1, 3: apply wp_ret; split_and!; try done; intros Hb _; apply (queue_blocked_quiet s o ob); try done; [apply Hs|];
    intros e He; rewrite Hq, app_nil_r in He; auto.
  { simpl in Hn. lia. }
  cbn [wake_up_loop]. destruct (entry_thread s o ob e) as [th Ht]; [apply Hs|done|rewrite Hq; set_solver|].
  apply wp_bind. eapply wp_mono; [by eapply (wake_thread_ok x)|].
  intros r s1 (Hr0 & Hsame & Hnw & Hs1 & Hroom1 & Hwo & Hbl & Hsp & Hdr). destruct (Z.eqb_spec r 0) as [->|Hne].
  - rewrite (Hsame eq_refl) in *. apply wp_bind, (wp_get_obj o ob); [done|]. rewrite Hq, next_after_middle.
    + apply (IH max l (pre ++ [e]) s ob); try done; [by rewrite <-app_assoc| |simpl in Hn; lia].
      intros e' [?| ->%list_elem_of_singleton]%elem_of_app; auto.
    + pose proof (wk_entries _ _ (sy_waits _ _ _ Hs) o ob Ho) as Hnd. rewrite Hq in Hnd.
      apply NoDup_app in Hnd as (_ & Hd & _). intros Hin. apply (Hd e Hin). by left.
  - rewrite (proj2 (Z.ltb_lt 0 r)) by lia. cbn [andb]. pose proof (anchored_woken x [] s s1 o Ha Hs1 Hwo) as Ha1.
    destruct (anchored_alive x [] s1 o Hs1 Ha1) as [ob1 Ho1]. destruct (wo_objs _ _ Hwo o ob1 Ho1) as (ob0 & Ho0 & _ & Hsub).
    simplify_eq. apply sublist_length in Hsub. simpl in Hn.
    assert (nwaits s1 + 1 <= nwaits s)%nat as Hlt by lia.
    assert (nwaits s1 * S L + S L <= nwaits s * S L)%nat by (rewrite <-Nat.mul_succ_l; apply Nat.mul_le_mono_r; lia).
    assert ((∀ t, blocked_but o s t) → ∀ t, blocked_but o s1 t) as Hbut.
    { intros Hb t. destruct (decide (t = wq_thread e)) as [->|Hte]; [by apply blocked_blocked_but|].
      by eapply spares_blocked_but. }
    assert (Hcap : (∀ t, blocked_but o s t) → limited o max s → max <= 0 ∨ ∃ k, capacity (data ob1) = Some k ∧ k <= max - 1).
    { intros Hb [?|Hl]; [by left|right]. destruct (Hl ob Ho) as (k & Hk & Hle).
      destruct (Hdr o (Hb _) ltac:(lia) ob ob1 k Ho Ho1 Hk) as (k' & ? & ?). exists k'. split; [done|lia]. }
    destruct (negb (max =? 0) && (max - 1 =? 0)) eqn:E.
    + apply andb_true_iff in E as [E1 E2%Z.eqb_eq]. apply wp_ret. split_and!; try done; [lia|lia|].
      intros Hb Hl. destruct (Hcap Hb Hl) as [?|(k & Hk & ?)]; [lia|]. apply (exhausted_quiet s1 o ob1 k); [done|done|lia|auto].
    + apply wp_bind, (wp_get_obj o ob1); [done|]. eapply wp_mono.
      { apply (IH _ (wait_queue ob1) [] s1 ob1); try done; [lia|by intros ? ?%not_elem_of_nil|lia]. }
      intros [] s2 (Hs2 & Hr2 & Hwo2 & Hn2 & _ & Hqt). split_and!; try done; [by etransitivity|lia|lia|].
      intros Hb Hl. apply Hqt; [auto|]. destruct (Hcap Hb Hl) as [?|Hk].
      * left. destruct (Z.eqb_spec max 0); simpl; lia.
      * destruct (Z.eqb_spec max 0); simpl; [left; lia|]. right. intros ob' Ho'. simplify_eq. done.
Qed.

(** Waking the queue of a sync object: no fault, enough fuel, and no thread is
    left that could go on when only [o] could have let it. *)
Lemma wake_up_ok x o max s :
  sync_ok x [] s → wait_room s → anchored x s o →
  wp (wake_up o max) (λ _ s', sync_ok x [] s' ∧ wait_room s' ∧ woken s s' ∧ (nwaits s' <= nwaits s)%nat ∧
    (nwaits s' = nwaits s → s' = s) ∧ ((∀ t, blocked_but o s t) → limited o max s → quiet s')) s.
Proof.
  intros Hs Hr Ha. destruct (anchored_alive x [] s o Hs Ha) as [ob Ho]. unfold wake_up. wp_steps.
  apply (wp_get_obj o ob); [done|]. eapply (wake_up_loop_ok x o (length (wait_queue ob)) _ max _ [] s ob); try done.
  - by intros ? ?%not_elem_of_nil.
  - lia.
Qed.
