(* ===== verification/SyncOps.v ===== *)
(** * Events, semaphores and mutexes

    The operations that change a sync object, under the invariant: each has its
    documented effect on every branch, keeps the invariant, and leaves no thread
    waiting that could go on ([quiet]). *)

From stdpp Require Import base list gmap fin_maps.
From S2P Require Import Prelude Access Object ObjectInv Handle HandleInv HandleThms Wait Sync SyncInv SyncSteps SyncWake SyncThms.

Open Scope Z_scope.
Open Scope server_scope.

(** ** Writing a sync object *)

Lemma ready_elsewhere s o sob' t p ob :
  objs s !! o = Some ob → has_add_queue ob = true → has_add_queue sob' = true →
  ready_but o (set_objs (<[o:=sob']>) s) t p = true → object_ready s t p = true.
Proof.
  intros Ho Ha Ha'. unfold ready_but. rewrite andb_true_iff, negb_true_iff, bool_decide_eq_false. unfold object_ready. simpl.
  rewrite (sync_at_insert _ _ ob) by done. destruct (sync_at (objs s) p) as [so|]; [|by intros [? _]]. simpl.
  intros [Hr Hne]. rewrite lookup_insert_ne in Hr by congruence. done.
Qed.

(** Threads that differ only in fields the check of a wait does not read. *)
Definition same_check (th th' : thread) : Prop := th_mutex_list [] (th_error 0 th') = th_mutex_list [] (th_error 0 th).

Lemma same_check_verdict rd s th th' pr w : same_check th th' → verdict_with rd s th' pr w = verdict_with rd s th pr w.
Proof.
  intros H. destruct th, th'. unfold same_check, th_mutex_list, th_error in H. simpl in H. injection H as -> -> -> -> -> -> -> -> -> ->.
  done.
Qed.

Lemma same_check_fields th th' : same_check th th' → t_wait th' = t_wait th ∧ t_process th' = t_process th.
Proof. intros H. split; [apply (f_equal t_wait H)|apply (f_equal t_process H)]. Qed.

Definition same_checks (s s' : server) : Prop :=
  (∀ t th', threads s' !! t = Some th' → ∃ th, threads s !! t = Some th ∧ same_check th th') ∧
  procs s' = procs s ∧ current_time s' = current_time s ∧ monotonic_time s' = monotonic_time s.

Lemma same_checks_refl s : same_checks s s.
Proof. split_and!; try done. intros t th. by exists th. Qed.

Lemma blocked_checks rd rd' s s' t : same_checks s s' →
  (∀ th w p, threads s !! t = Some th → w ∈ t_wait th → p ∈ w_queues w → rd' p = true → rd p = true) →
  blocked_with rd s t → blocked_with rd' s' t.
Proof.
  intros (Hth & Hp & Ht & Hm) Hrd Hb th' w next pr Ht' Hw Hpr. destruct (Hth t th' Ht') as (th & Htt & Hsc).
  destruct (same_check_fields th th' Hsc) as [Ew Ep].
  rewrite (same_check_verdict _ _ th th') by done. rewrite Ew in Hw. rewrite Ep, Hp in Hpr.
  apply (verdict_mono rd rd' s s'); try done; [|by apply (Hb th w next)].
  intros p Hin. apply (Hrd th w p Htt); [|done]. rewrite Hw. by left.
Qed.

Lemma quiet_set s o ob sob' :
  objs s !! o = Some ob → has_add_queue ob = true → has_add_queue sob' = true → quiet s →
  ∀ t, blocked_but o (set_objs (<[o:=sob']>) s) t.
Proof.
  intros Ho Ha Ha' Hq t. apply (blocked_checks (object_ready s t) _ s); [exact (same_checks_refl s)| |apply Hq].
  intros th w p _ _ _. by apply (ready_elsewhere s o sob' t p ob).
Qed.

(** A write that makes nobody ready keeps everybody waiting. *)
Lemma quiet_unready s o ob sob' :
  objs s !! o = Some ob → has_add_queue ob = true → has_add_queue sob' = true →
  (∀ t, sync_ready t (data sob') = true → sync_ready t (data ob) = true) → quiet s → quiet (set_objs (<[o:=sob']>) s).
Proof.
  intros Ho Ha Ha' Hr Hq t. apply (blocked_checks (object_ready s t) _ s); [exact (same_checks_refl s)| |apply Hq].
  intros th w p _ _ _. unfold object_ready. simpl. rewrite (sync_at_insert _ _ ob) by done.
  destruct (sync_at (objs s) p) as [so|]; [|done]. simpl. destruct (decide (so = o)) as [->|Hne].
  - rewrite lookup_insert_eq, Ho. apply Hr.
  - by rewrite lookup_insert_ne.
Qed.

Lemma sync_ok_data x s o ob d' :
  sync_ok x [] s → objs s !! o = Some ob → has_add_queue ob = true → has_add_queue (ob_data d' ob) = true →
  sync_data_ok s o d' → (∀ t c ab, data ob = mutex_sync_data (Some t) c ab → ∃ c ab, d' = mutex_sync_data (Some t) c ab) →
  sync_ok x [] (set_objs (<[o:=ob_data d' ob]>) s).
Proof.
  intros Hs Ho Ha Ha' Hd Hm. apply (sync_ok_set x [] s o ob); try done. by apply (sync_update_data []); [apply Hs|..].
Qed.

Lemma room_data s o ob d' :
  wait_room s → objs s !! o = Some ob → (∀ ow c ab, d' = mutex_sync_data ow c ab → ∃ ow' c' ab', data ob = mutex_sync_data ow' c' ab' ∧ c <= c') →
  wait_room (set_objs (<[o:=ob_data d' ob]>) s).
Proof.
  intros Hr Ho Hd. unfold wait_room. change (npairs (set_objs _ s)) with (npairs s). intros p obp Hp. simpl in Hp.
  destruct (decide (p = o)) as [->|Hne].
  - rewrite lookup_insert_eq in Hp. injection Hp as <-. destruct (Hr o ob Ho) as [A B]. split; [done|]. simpl.
    intros ow c ab E. destruct (Hd ow c ab E) as (ow' & c' & ab' & E' & ?). specialize (B _ _ _ E'). lia.
  - rewrite lookup_insert_ne in Hp by done. by apply (Hr p).
Qed.

Lemma anchored_set x s o ob sob' p : objs s !! o = Some ob → sync_target (data sob') = sync_target (data ob) →
  anchored x s p → anchored x (set_objs (<[o:=sob']>) s) p.
Proof.
  intros Ho Ht (q & obq & Hx & Hq & Hor). destruct (decide (q = o)) as [->|Hne].
  - simplify_eq. exists o, sob'. simpl. rewrite lookup_insert_eq, Ht. done.
  - exists q, obq. simpl. by rewrite lookup_insert_ne.
Qed.

(** ** Events *)

Lemma event_sync_signal_ok x s o ob manual b signal :
  sync_ok x [] s → wait_room s → anchored x s o → objs s !! o = Some ob → data ob = event_sync_data manual b →
  let s1 := set_objs (<[o:=ob_data (event_sync_data manual (negb (signal =? 0))) ob]>) s in
  wp (event_sync_signal o signal) (λ r s', r = true ∧ sync_ok x [] s' ∧ wait_room s' ∧ woken s1 s' ∧ (quiet s → quiet s') ∧
    (signal = 0 → s' = s1) ∧ (nwaits s' <= nwaits s)%nat ∧ (nwaits s' = nwaits s → s' = s1)) s.
Proof.
  intros Hs Hr Ha Ho Hd s1. assert (has_add_queue ob = true) as Hadd by (unfold has_add_queue; by rewrite Hd).
  unfold event_sync_signal. apply wp_bind, (wp_get_obj o ob); [done|]. rewrite Hd. cbv zeta. apply wp_bind, wp_put_obj. fold s1.
  assert (sync_ok x [] s1) as Hs1 by (apply sync_ok_data; try done; intros; congruence).
  assert (wait_room s1) as Hr1 by (apply room_data; done).
  destruct (Z.eqb_spec signal 0) as [->|Hne]; cbn [negb].
  - apply wp_bind, wp_ret, wp_ret. split_and!; try done. intros Hq. apply (quiet_unready s o ob); try done.
  - apply wp_bind. eapply wp_mono.
    + apply (wake_up_ok x o _ s1); try done. apply (anchored_set x s o ob); try done. by rewrite Hd.
    + intros [] s2 (Hs2 & Hr2 & Hw2 & Hn2 & He2 & Hq2). apply wp_ret. split_and!; try done.
      intros Hq. apply Hq2; [by apply (quiet_set s o ob)|]. destruct manual; [left; lia|right]. intros ob' Ho'.
      simpl in Ho'. rewrite lookup_insert_eq in Ho'. injection Ho' as <-. exists 1. split; [done|lia].
Qed.

(** ** Semaphores *)

Lemma release_semaphore_ok x s o ob count max n :
  sync_ok x [] s → wait_room s → anchored x s o → objs s !! o = Some ob → data ob = semaphore_sync_data count max → u32 n →
  wp (release_semaphore o n) (λ r s',
    if max <? count + n then r = (false, count) ∧ objs s' = objs s ∧ keeps s s' ∧ last_error s' = STATUS_SEMAPHORE_LIMIT_EXCEEDED
    else let s1 := set_objs (<[o:=ob_data (semaphore_sync_data (count + n) max) ob]>) s in
      r = (true, count) ∧ sync_ok x [] s' ∧ wait_room s' ∧ woken s1 s' ∧ (quiet s → quiet s') ∧
      (0 < count → s' = s1) ∧ (nwaits s' <= nwaits s)%nat ∧ (nwaits s' = nwaits s → s' = s1)) s.
Proof.
  intros Hs Hr Ha Ho Hd Hn. assert (has_add_queue ob = true) as Hadd by (unfold has_add_queue; by rewrite Hd).
  pose proof (wk_data _ _ (sy_waits _ _ _ Hs) o ob Ho) as Hdo. rewrite Hd in Hdo. simpl in Hdo. unfold u32 in Hn.
  unfold release_semaphore. apply wp_bind, (wp_get_obj o ob); [done|]. rewrite Hd.
  assert (((w32 (count + n) <? count) || (max <? w32 (count + n))) = (max <? count + n)) as ->.
  { unfold w32. destruct (Z.ltb_spec (count + n) 4294967296).
    - rewrite Z.mod_small by lia. rewrite (proj2 (Z.ltb_ge (count + n) count)) by lia. done.
    - replace ((count + n) mod 4294967296) with (count + n - 4294967296) by (apply Z.mod_unique with 1; lia).
      rewrite (proj2 (Z.ltb_lt _ count)) by lia. symmetry. apply Z.ltb_lt. lia. }
  destruct (Z.ltb_spec max (count + n)) as [Hlt|Hge].
  { apply wp_bind, wp_set_error. intros s' Ho' Hk He. by apply wp_ret. }
  cbv zeta. set (s1 := set_objs _ s).
  assert (sync_ok x [] s1) as Hs1. { apply sync_ok_data; try done; [simpl; lia|intros; congruence]. }
  assert (wait_room s1) as Hr1 by (apply room_data; done).
  destruct (Z.eqb_spec count 0) as [->|Hne]; cbn [negb].
  - apply wp_bind, wp_put_obj. replace (set_objs _ s) with s1 by done. apply wp_bind. eapply wp_mono.
    + apply (wake_up_ok x o _ s1); try done. apply (anchored_set x s o ob); try done. by rewrite Hd.
    + intros [] s2 (Hs2 & Hr2 & Hw2 & Hn2 & He2 & Hq2). apply wp_ret. split_and!; try done.
      intros Hq. apply Hq2; [by apply (quiet_set s o ob)|]. unfold limited, int32.
      rewrite w32_small by (unfold u32; lia). destruct (Z.ltb_spec n 2147483648); [right|left; lia].
      intros ob' Ho'. simpl in Ho'. rewrite lookup_insert_eq in Ho'. injection Ho' as <-. exists (0 + n). split; [done|lia].
  - rewrite (w32_small (count + n)) by (unfold u32; lia). apply wp_bind, wp_put_obj. fold s1. apply wp_ret. split_and!; try done.
    intros Hq. apply (quiet_unready s o ob); try done. intros t _. rewrite Hd. simpl. lia.
Qed.

(** ** Dropping a reference *)

Lemma wx_pin x o D s : wx (pin o x) D s ≡ pin o (wx x D s).
Proof. split_and!; intros p; simpl; lia. Qed.

(** Releasing a reference the routine holds. *)
Lemma drop_ok x o ob s :
  sync_ok (pin o x) [] s → (∀ p, 0 <= x_handle x p <= x_ref x p) → objs s !! o = Some ob →
  wp (release_object o) (λ _ s', sync_ok x [] s' ∧ same_env s s' ∧ shrinks (objs s) (objs s') ∧
    ∀ p ob ob', objs s !! p = Some ob → objs s' !! p = Some ob' → refcount ob' <= refcount ob) s.
Proof.
  intros [Hok Hw _] Hx Ho. rewrite wx_pin in Hok.
  eapply wp_mono; [apply (release_object_ok (wx x [] s) o ob); [by apply wx_x_ok|done|done]|].
  intros [] s' (Hok' & Hsh & He). assert (threads s' = threads s) as Hth by apply He. split_and!; try done.
  - split; [by rewrite (wx_threads x [] s)| |done].
    apply (waits_ok_shrinks x [] s s'); try done; [by rewrite (wx_threads x [] s)|apply He].
  - intros p obp obp' Hp Hp'. pose proof (ob_refs _ _ _ _ (hp_object _ _ Hok p obp Hp)) as A.
    pose proof (ob_refs _ _ _ _ (hp_object _ _ Hok' p obp' Hp')) as B.
    pose proof (hrefs_shrinks _ _ p Hsh). pose proof (occ_nonneg p [o]). simpl in A, B. lia.
Qed.

Lemma room_shrinks s s' : wait_room s → same_env s s' → shrinks (objs s) (objs s') →
  (∀ p ob ob', objs s !! p = Some ob → objs s' !! p = Some ob' → refcount ob' <= refcount ob) → wait_room s'.
Proof.
  intros Hr He Hsh Hrc. unfold wait_room. rewrite (npairs_stacks s s') by (apply same_stacks_eq, He).
  intros p obp' Hp'. destruct (Hsh p obp' Hp') as (obp & Hp & Hd & _). destruct (Hr p obp Hp) as [A B].
  specialize (Hrc p obp obp' Hp Hp'). split; [lia|]. by rewrite Hd.
Qed.

Lemma blocked_shrinks x s s' t : sync_ok x [] s' → same_env s s' → shrinks (objs s) (objs s') → blocked s t → blocked s' t.
Proof.
  intros Hs' He Hsh. assert (threads s' = threads s) as Hth by apply He. apply blocked_checks.
  { split_and!; try apply He. rewrite Hth. intros t' th'. by exists th'. }
  intros th w p Ht Hw Hp. rewrite <-Hth in Ht. destruct (pending_wait s' [] t th w p Ht Hw Hp) as (e & Hpe & _).
  destruct (wk_sync _ _ (sy_waits _ _ _ Hs') e p Hpe) as (so & sob & Hsy & Hso & _).
  rewrite (object_ready_sync s' t p so sob) by done. destruct (sync_at_cases _ _ _ Hsy) as (ob' & Ho' & _).
  destruct (Hsh p ob' Ho') as (ob & Ho & Hd & _). rewrite (sync_at_same _ _ _ ob ob') in Hsy by done.
  destruct (Hsh so sob Hso) as (sob0 & Hso0 & Hds & _). rewrite (object_ready_sync s t p so sob0) by done. by rewrite Hds.
Qed.

Lemma quiet_shrinks x s s' : sync_ok x [] s' → same_env s s' → shrinks (objs s) (objs s') → quiet s → quiet s'.
Proof. intros Hs' He Hsh Hq t. by apply (blocked_shrinks x s). Qed.

(** ** Mutexes *)

Lemma occ_filter_ne p o l : occ p (filter (λ q, q ≠ o) l) = if decide (p = o) then 0 else occ p l.
Proof.
  induction l as [|q l IH]; [by destruct (decide (p = o))|]. destruct (decide (q = o)) as [->|Hne].
  - rewrite filter_cons_False, IH, occ_cons by tauto. destruct (decide (p = o)); [done|].
    by rewrite bool_decide_eq_false_2 by congruence.
  - rewrite filter_cons_True, !occ_cons, IH by done. destruct (decide (p = o)) as [->|]; [|done].
    by rewrite bool_decide_eq_false_2.
Qed.

Lemma occ_nodup o l : NoDup l → o ∈ l → occ o l = 1.
Proof.
  induction 1 as [|q l Hq Hl IH]; intros Hin; [by apply not_elem_of_nil in Hin|]. rewrite occ_cons.
  apply elem_of_cons in Hin as [->|Hin].
  - rewrite bool_decide_eq_true_2 by done. assert (occ q l = 0) as ->; [|done]. pose proof (occ_nonneg q l).
    destruct (Z.ltb_spec 0 (occ q l)) as [?%occ_elem|]; [done|lia].
  - rewrite bool_decide_eq_false_2 by (intros ->; done). rewrite IH by done. lia.
Qed.

(** The owner gives the mutex up: the reference of its list is now the routine's. *)
Definition disowned (t : tid) (th : thread) (o : oid) (ob : object) (ab : bool) (s : server) : server :=
  set_objs (<[o:=ob_data (mutex_sync_data None 0 ab) ob]>)
    (set_threads (<[t:=th_mutex_list (filter (λ p, p ≠ o) (t_mutex_list th)) th]>) s).

Lemma disown_ok x s t th o ob c ab ab' :
  sync_ok x [] s → objs s !! o = Some ob → data ob = mutex_sync_data (Some t) c ab → threads s !! t = Some th →
  sync_ok (pin o x) [] (disowned t th o ob ab' s).
Proof.
  intros Hs Ho Hd Ht. assert (Hw := sy_waits _ _ _ Hs). set (th' := th_mutex_list (filter (λ p, p ≠ o) (t_mutex_list th)) th).
  set (s' := disowned t th o ob ab' s).
  pose proof (wk_data _ _ Hw o ob Ho) as Hdo. rewrite Hd in Hdo. destruct Hdo as (_ & th0 & Ht0 & Hin).
  rewrite Ht in Ht0. injection Ht0 as <-. pose proof (wk_nodup _ _ Hw t th Ht) as Hnd.
  assert (∀ p, wrefs s' p = wrefs s p - occ p [o]) as Hwr.
  { intros p. unfold s', disowned. rewrite <-set_threads_objs, (wrefs_update s _ t th th') by done. unfold thread_refs. simpl.
    rewrite !occ_app, occ_filter_ne. destruct (decide (p = o)) as [->|Hne].
    - rewrite (occ_nodup o (t_mutex_list th)), occ_self by done. lia.
    - rewrite occ_other by done. lia. }
  eapply (sync_ok_update x (pin o x) [] s s' o ob (ob_data (mutex_sync_data None 0 ab') ob)); [done| | |done| | | |done].
  - split; try done.
    + apply (threads_sim_insert _ _ _ th); [done|]. split_and!; try done.
      * intros. by apply NoDup_filter.
      * intros p Hp. simpl. rewrite list_elem_of_filter. tauto.
    + unfold has_add_queue. by rewrite Hd.
    + intros t2 th2 Ht2 Hin2. exfalso. simpl in Ht2. destruct (decide (t2 = t)) as [->|Hne].
      * rewrite lookup_insert_eq in Ht2. injection Ht2 as <-. simpl in Hin2. apply list_elem_of_filter in Hin2. tauto.
      * rewrite lookup_insert_ne in Ht2 by done.
        destruct (owned_elsewhere [] s o ob _ t2 th2 Hw Ho Hd Ht2 Hin2) as (? & ? & ?). congruence.
  - intros p Hp. simpl. rewrite Hwr, occ_other by done. lia.
  - intros p. simpl. pose proof (occ_nonneg p [o]). pose proof (sy_x _ _ _ Hs p). lia.
  - simpl. rewrite Hwr, occ_self. lia.
  - simpl. rewrite Hwr, occ_self. lia.
Qed.

Lemma disowned_checks t th o ob ab s : threads s !! t = Some th → same_checks s (disowned t th o ob ab s).
Proof.
  intros Ht. split_and!; try done. intros t' th' Ht'. simpl in Ht'. destruct (decide (t' = t)) as [->|Hne].
  - rewrite lookup_insert_eq in Ht'. injection Ht' as <-. by exists th.
  - rewrite lookup_insert_ne in Ht' by done. by exists th'.
Qed.

Lemma disowned_room s t th o ob c ab ab' :
  wait_room s → objs s !! o = Some ob → data ob = mutex_sync_data (Some t) c ab → 0 <= c → threads s !! t = Some th →
  wait_room (disowned t th o ob ab' s).
Proof.
  intros Hr Ho Hd Hc Ht. unfold disowned. apply room_data; [|done|].
  - unfold wait_room. assert (same_stacks s (set_threads (<[t:=th_mutex_list (filter (λ p, p ≠ o) (t_mutex_list th)) th]>) s)) as Hst.
    { intros t'. simpl. destruct (decide (t' = t)) as [->|Hne]; [by rewrite lookup_insert_eq, Ht|by rewrite lookup_insert_ne]. }
    rewrite (npairs_stacks _ _ Hst). exact Hr.
  - intros ow c' ab2 [= <- <- <-]. eauto 6.
Qed.

Lemma shrinks_woken s s' : same_env s s' → shrinks (objs s) (objs s') → woken s s'.
Proof.
  intros He Hsh. assert (threads s' = threads s) as Hth by apply He. split.
  - intros o ob' Ho'. destruct (Hsh o ob' Ho') as (ob & Ho & Hd & Hq & _). exists ob. rewrite Hd, Hq. split_and!; [done|apply evolves_refl|done].
  - rewrite Hth. eauto.
  - by rewrite Hth.
  - by apply same_env_rest.
  - exists []. apply He.
Qed.

Lemma mutex_unowned x s o ob owner c ab t : sync_ok x [] s → objs s !! o = Some ob → data ob = mutex_sync_data owner c ab →
  (c =? 0) || negb (bool_decide (owner = Some t)) = negb (bool_decide (owner = Some t)).
Proof.
  intros Hs Ho Hd. pose proof (wk_data _ _ (sy_waits _ _ _ Hs) o ob Ho) as H. rewrite Hd in H. simpl in H.
  destruct owner as [t'|]; [|by rewrite bool_decide_eq_false_2, orb_true_r]. by rewrite (proj2 (Z.eqb_neq c 0)) by lia.
Qed.

Lemma disowned_blocked t th o ob c ab ab' s t' : objs s !! o = Some ob → data ob = mutex_sync_data (Some t) c ab →
  threads s !! t = Some th → quiet s → blocked_but o (disowned t th o ob ab' s) t'.
Proof.
  intros Ho Hd Ht Hq. eapply blocked_checks; [by apply disowned_checks| |apply Hq]. intros th' w p _ _ _ Hr.
  apply (ready_elsewhere s o (ob_data (mutex_sync_data None 0 ab') ob) t' p ob); [done|unfold has_add_queue; by rewrite Hd|done|].
  exact Hr.
Qed.

Lemma do_release_ok x s o ob t th owner c ab n :
  sync_ok x [] s → wait_room s → objs s !! o = Some ob → data ob = mutex_sync_data owner c ab →
  threads s !! t = Some th → 0 < n → (owner = Some t → n <= c) →
  wp (do_release o t n) (λ r s',
    if bool_decide (owner = Some t) then
      r = true ∧ sync_ok x [] s' ∧ wait_room s' ∧ (quiet s → quiet s') ∧
      (if n <? c then s' = set_objs (<[o:=ob_data (mutex_sync_data owner (c - n) ab) ob]>) s
       else woken (disowned t th o ob ab s) s')
    else r = false ∧ objs s' = objs s ∧ keeps s s' ∧ last_error s' = STATUS_MUTANT_NOT_OWNED) s.
Proof.
  intros Hs Hr Ho Hd Ht Hn Hnc. assert (has_add_queue ob = true) as Hadd by (unfold has_add_queue; by rewrite Hd).
  unfold do_release. apply wp_bind, (wp_get_obj o ob); [done|]. rewrite Hd, (mutex_unowned x s o ob owner c ab t Hs Ho Hd).
  case_bool_decide as Hown; cbn [negb]; [subst owner|].
  2:{ apply wp_bind, wp_set_error. intros s' ???. by apply wp_ret. }
  specialize (Hnc eq_refl). pose proof (wk_data _ _ (sy_waits _ _ _ Hs) o ob Ho) as Hdo. rewrite Hd in Hdo. destruct Hdo as [Hc Hlist].
  destruct (Hr o ob Ho) as [_ Hmax]. specialize (Hmax _ _ _ Hd). pose proof (npairs_nonneg s).
  cbv zeta. rewrite w32_small by (unfold u32; lia). apply wp_bind, wp_put_obj.
  destruct (Z.eqb_spec (c - n) 0) as [E|E].
  - rewrite (proj2 (Z.ltb_ge n c)), E by lia. apply wp_bind, wp_bind. unfold unlink_mutex.
    apply wp_bind, (wp_get_thread _ th); [done|]. unfold put_thread. apply wp_modify.
    apply wp_bind. eapply wp_get_obj; [apply lookup_insert_eq|]. apply wp_bind, wp_put_obj.
    rewrite set_threads_objs, set_objs_twice. change (set_objs _ _) with (disowned t th o ob ab s). set (s2 := disowned t th o ob ab s).
    pose proof (disown_ok x s t th o ob c ab ab Hs Ho Hd Ht) as Hs2. fold s2 in Hs2.
    assert (objs s2 !! o = Some (ob_data (mutex_sync_data None 0 ab) ob)) as Ho2 by apply lookup_insert_eq.
    apply wp_bind. eapply wp_mono.
    { apply (wake_up_ok (pin o x) o 0 s2 Hs2); [eapply disowned_room; [done..|lia|done]|]. eexists o, _. split_and!; [|exact Ho2|by left].
      simpl. rewrite occ_self. pose proof (sy_x _ _ _ Hs o). lia. }
    intros [] s3 (Hs3 & Hr3 & Hw3 & _ & _ & Hq3).
    destruct (heap_ok_live _ _ o (sy_heap _ _ _ Hs3)) as [ob3 Ho3].
    { simpl. rewrite occ_self. pose proof (sy_x _ _ _ Hs o). pose proof (wrefs_nonneg s3 o). pose proof (occ_nonneg o []). lia. }
    eapply wp_mono; [by apply (drop_ok x o ob3 s3 Hs3); [apply Hs|]|].
    intros [] s4 (Hs4 & He4 & Hsh4 & Hrc4). apply wp_ret. split_and!; try done.
    + by eapply room_shrinks.
    + intros Hq. apply (quiet_shrinks x s3); try done. apply Hq3; [|left; lia]. intros t'. by apply (disowned_blocked t th o ob c ab).
    + etransitivity; [exact Hw3|]. by apply shrinks_woken.
  - rewrite (proj2 (Z.ltb_lt n c)) by lia. apply wp_bind, wp_ret, wp_ret. split_and!; try done.
    + apply sync_ok_data; try done; [simpl; split; [lia|done]|]. intros t' c' ab' E'. rewrite Hd in E'. injection E' as <- <- <-. eauto.
    + apply room_data; try done. intros ow c' ab' [= <- <- <-]. exists (Some t), c, ab. split; [done|lia].
    + intros Hq. apply (quiet_unready s o ob); try done. intros t'. rewrite Hd. simpl. rewrite !orb_true_iff, !Z.eqb_eq.
      intros [?|?]; [lia|by right].
Qed.

(** ** Abandoned mutexes *)

(** The mutexes a thread leaves behind: not owned by it, and marked until somebody
    else acquires them. *)
Definition left_behind (t : tid) (s : server) (o : oid) : Prop :=
  ∀ ob, objs s !! o = Some ob → ∃ owner c ab, data ob = mutex_sync_data owner c ab ∧ owner ≠ Some t ∧ (owner = None → ab = true).

Lemma abandon_step x s t th o rest ob c ab :
  sync_ok x [] s → wait_room s → threads s !! t = Some th → t_wait th = [] → t_mutex_list th = o :: rest →
  objs s !! o = Some ob → data ob = mutex_sync_data (Some t) c ab →
  wp (put_obj o (ob_data (mutex_sync_data (Some t) c true) ob) ;; do_release o t c)
    (λ _ s', sync_ok x [] s' ∧ wait_room s' ∧ (quiet s → quiet s') ∧ threads s' !! t = Some (th_mutex_list rest th) ∧
      left_behind t s' o ∧ ∀ p, p ≠ o → p ∉ rest → left_behind t s p → left_behind t s' p) s.
Proof.
  intros Hs Hr Ht Hi Hl Ho Hd. assert (has_add_queue ob = true) as Hadd by (unfold has_add_queue; by rewrite Hd).
  pose proof (wk_data _ _ (sy_waits _ _ _ Hs) o ob Ho) as Hdo. rewrite Hd in Hdo. destruct Hdo as [Hc Hlist].
  pose proof (wk_nodup _ _ (sy_waits _ _ _ Hs) t th Ht) as Hnd. rewrite Hl in Hnd. apply NoDup_cons in Hnd as [Hno Hnd].
  set (ob1 := ob_data (mutex_sync_data (Some t) c true) ob). set (s1 := set_objs (<[o:=ob1]>) s).
  assert (sync_ok x [] s1) as Hs1.
  { apply sync_ok_data; try done. intros t' c' ab' E'. rewrite Hd in E'. injection E' as <- <- <-. eauto. }
  assert (wait_room s1) as Hr1.
  { apply room_data; [done..|]. intros ow c' ab' [= <- <- <-]. exists (Some t), c, ab. split; [done|lia]. }
  assert (quiet s → quiet s1) as Hq1. { intros Hq. apply (quiet_unready s o ob); try done. intros t'. by rewrite Hd. }
  apply wp_bind, wp_put_obj. fold ob1 s1. eapply wp_mono.
  { apply (do_release_ok x s1 o ob1 t th (Some t) c true c); try done. apply lookup_insert_eq. }
  intros r s' H. rewrite bool_decide_eq_true_2, Z.ltb_irrefl in H by done. destruct H as (_ & Hs' & Hr' & Hq & Hwo).
  assert (filter (λ p, p ≠ o) (t_mutex_list th) = rest) as Hf.
  { rewrite Hl, filter_cons_False by tauto. clear -Hno. induction rest as [|p l IH]; [done|].
    apply not_elem_of_cons in Hno as [? ?]. rewrite filter_cons_True by congruence. f_equal. auto. }
  assert (threads s' !! t = Some (th_mutex_list rest th)) as Ht'.
  { apply (wo_idle _ _ Hwo); [|done]. simpl. rewrite lookup_insert_eq, Hf. done. }
  assert (∀ p ob' c' ab', objs s' !! p = Some ob' → data ob' = mutex_sync_data (Some t) c' ab' → p ∈ rest) as Hmine.
  { intros p ob' c' ab' Hp Hdp. pose proof (wk_data _ _ (sy_waits _ _ _ Hs') p ob' Hp) as H. rewrite Hdp in H.
    destruct H as (_ & th' & Hth' & Hin). rewrite Ht' in Hth'. by injection Hth' as <-. }
  split_and!; try done; [auto| |].
  - intros ob' Ho'. destruct (wo_objs _ _ Hwo o ob' Ho') as (ob2 & Ho2 & He & _). simpl in Ho2. rewrite lookup_insert_eq in Ho2.
    injection Ho2 as <-. simpl in He. destruct (data ob') as [| | | | | |ow c' ab'| | | |] eqn:Hd'; try done.
    exists ow, c', ab'. split_and!; [done| |].
    + intros ->. by apply Hno, (Hmine o ob' c' ab').
    + intros ->. by injection He.
  - intros p Hp Hpr Hlb ob' Hp'. destruct (wo_objs _ _ Hwo p ob' Hp') as (ob2 & Hp2 & He & _). simpl in Hp2.
    rewrite lookup_insert_ne, lookup_insert_ne in Hp2 by done. destruct (Hlb ob2 Hp2) as (ow & c2 & ab2 & Hd2 & Hne & Hab).
    rewrite Hd2 in He. destruct (data ob') as [| | | | | |ow' c' ab'| | | |] eqn:Hd'; try done. exists ow', c', ab'. split_and!; [done| |].
    + intros ->. by apply Hpr, (Hmine p ob' c' ab').
    + intros ->. simpl in He. simplify_eq. auto.
Qed.

Lemma abandon_loop_ok x s t th :
  sync_ok x [] s → wait_room s → threads s !! t = Some th → t_wait th = [] →
  wp (abandon_loop (length (t_mutex_list th)) t) (λ _ s', sync_ok x [] s' ∧ wait_room s' ∧ (quiet s → quiet s') ∧
    threads s' !! t = Some (th_mutex_list [] th) ∧ (∀ p, p ∈ t_mutex_list th → left_behind t s' p) ∧
    ∀ p, p ∉ t_mutex_list th → left_behind t s p → left_behind t s' p) s.
Proof.
  remember (t_mutex_list th) as l eqn:El. revert s th El. induction l as [|o l IH]; intros s th El Hs Hr Ht Hi; symmetry in El; cbn [length abandon_loop];
    (apply wp_bind, (wp_get_thread _ th); [done|]); rewrite El.
  { apply wp_ret. split_and!; try done; [|by intros p ?%not_elem_of_nil]. rewrite <-El, th_mutex_list_same. done. }
  destruct (wk_owned _ _ (sy_waits _ _ _ Hs) t th o Ht) as (ob & c & ab & Ho & Hd); [rewrite El; by left|].
  pose proof (wk_nodup _ _ (sy_waits _ _ _ Hs) t th Ht) as Hnd. rewrite El in Hnd. apply NoDup_cons in Hnd as [Hno Hnd].
  apply wp_bind, (wp_get_obj o ob); [done|]. rewrite Hd. apply wp_bind, wp_assert; [by apply bool_decide_eq_true_2|].
  eapply wp_bind2; [by apply (abandon_step x s t th o l ob c ab)|].
  intros r s1 (Hs1 & Hr1 & Hq1 & Ht1 & Hb1 & Hk1). eapply wp_mono; [by apply (IH s1 (th_mutex_list l th))|].
  intros [] s2 (Hs2 & Hr2 & Hq2 & Ht2 & Hb2 & Hk2). split_and!; try done; [auto| |].
  - intros p [->|Hp]%elem_of_cons; auto.
  - intros p [? ?]%not_elem_of_cons Hlb. auto.
Qed.
