(* ===== verification/SyncSelect.v ===== *)
(** * Starting a wait

    [wait_on] and [select_on] under the invariant: the entries of a new wait are
    linked in the queues of its objects one by one, then the wait is checked; it
    ends at once or the thread is left waiting. *)

From stdpp Require Import base list gmap fin_maps.
From S2P Require Import Prelude Access Object ObjectInv Handle HandleInv HandleThms Wait Sync SyncInv SyncSteps SyncWake SyncThms SyncOps.

Open Scope Z_scope.
Open Scope server_scope.

(** ** Stores with the same data *)

Definition same_data (h h' : gmap oid object) : Prop := ∀ p, data <$> h' !! p = data <$> h !! p.

Lemma same_data_sync_at h h' p : same_data h h' → sync_at h' p = sync_at h p.
Proof. intros H. specialize (H p). unfold sync_at. destruct (h' !! p), (h !! p); simplify_eq/=; [|done]. by rewrite H. Qed.

Lemma same_data_l h h' p ob : same_data h h' → h !! p = Some ob → ∃ ob', h' !! p = Some ob' ∧ data ob' = data ob.
Proof. intros H Hp. specialize (H p). rewrite Hp in H. destruct (h' !! p) as [ob'|]; simplify_eq/=. eauto. Qed.
Lemma same_data_r h h' p ob' : same_data h h' → h' !! p = Some ob' → ∃ ob, h !! p = Some ob ∧ data ob' = data ob.
Proof. intros H Hp. specialize (H p). rewrite Hp in H. destruct (h !! p) as [ob|]; simplify_eq/=. eauto. Qed.

Lemma same_data_insert h p ob ob' : h !! p = Some ob → data ob' = data ob → same_data h (<[p:=ob']> h).
Proof.
  intros Hp Hd q. destruct (decide (q = p)) as [->|Hne]; [by rewrite lookup_insert_eq, Hp; simpl; rewrite Hd|by rewrite lookup_insert_ne].
Qed.
Lemma same_data_trans h1 h2 h3 : same_data h1 h2 → same_data h2 h3 → same_data h1 h3.
Proof. intros H1 H2 p. by rewrite H2, H1. Qed.

(** More of the references count as held. *)
Lemma heap_ok_more_held x x' h :
  heap_ok x h → (∀ p, x_ref x' p = x_ref x p) → (∀ p, x_handle x' p = x_handle x p) →
  (∀ p, x_held x p <= x_held x' p <= x_ref x' p) → heap_ok x' h.
Proof.
  intros Hok Hr Hh Hl. apply (heap_ok_reheld x); try done.
  - intros p. pose proof (hp_nonneg _ _ Hok p). specialize (Hl p). lia.
  - intros q obq Hq Hne. destruct (ob_waited _ _ _ _ (hp_object _ _ Hok q obq Hq) Hne) as (e & obe & He & ? & ?).
    exists e, obe. split; [|done]. specialize (Hl e). lia.
  - intros q obq ow c ab Hq Hd Hc. pose proof (ob_owned _ _ _ _ (hp_object _ _ Hok q obq Hq) ow c ab Hd Hc). specialize (Hl q). lia.
Qed.

(** ** Waits with the same entries *)

(** The threads have the entries they had, in waits that are still in order. *)
Definition same_entries (h : gmap oid object) (t : tid) (th th' : thread) : Prop :=
  t_mutex_list th' = t_mutex_list th ∧ t_process th' = t_process th ∧ thread_pairs t th' = thread_pairs t th ∧
  NoDup (w_id <$> t_wait th') ∧ ∀ w, w ∈ t_wait th' → wait_ok h w.

Lemma same_entries_refl D s t th : waits_ok D s → threads s !! t = Some th → same_entries (objs s) t th th.
Proof. intros Hw Ht. split_and!; try done; [by apply (wk_ids _ _ Hw t)|]. intros w. by apply (wk_wait _ _ Hw t). Qed.

Lemma sync_ok_entries x s s' : sync_ok x [] s → objs s' = objs s → procs s' = procs s →
  (∀ t, option_Forall2 (same_entries (objs s) t) (threads s !! t) (threads s' !! t)) → sync_ok x [] s'.
Proof.
  intros [Hok Hw Hx] Ho Hp Hth.
  assert (Hl : ∀ t th, threads s !! t = Some th → ∃ th', threads s' !! t = Some th' ∧ same_entries (objs s) t th th').
  { intros t th Ht. specialize (Hth t). rewrite Ht in Hth. inversion Hth; subst. eauto. }
  assert (Hr : ∀ t th', threads s' !! t = Some th' → ∃ th, threads s !! t = Some th ∧ same_entries (objs s) t th th').
  { intros t th Ht. specialize (Hth t). rewrite Ht in Hth. inversion Hth; subst. eauto. }
  assert (∀ e o, pending s' [] e o ↔ pending s [] e o) as Hpe.
  { intros e o. unfold pending. split; (intros [(th & Ht & Hin)|?]; [left|by right]).
    - destruct (Hr _ _ Ht) as (th' & ? & _ & _ & E & _). exists th'. by rewrite <-E.
    - destruct (Hl _ _ Ht) as (th' & ? & _ & _ & E & _). exists th'. by rewrite E. }
  assert (∀ o, wrefs s' o = wrefs s o) as Hwr.
  { intros o. apply msum_rel. intros t. destruct (Hth t) as [th th' (Hm & _ & E & _)|]; constructor.
    unfold thread_refs. by rewrite <-!(thread_pairs_snd t), E, Hm. }
  split; [|split|done].
  - assert (wx x [] s' ≡ wx x [] s) as -> by (split_and!; intros o; simpl; rewrite ?Hwr; done). by rewrite Ho.
  - intros so sob e. rewrite Ho. intros Hso He. destruct (wk_queue _ _ Hw so sob e Hso He) as (o & ? & ?). exists o. by rewrite Hpe.
  - rewrite Ho. apply (wk_entries _ _ Hw).
  - intros e o. rewrite Ho, Hpe. apply (wk_sync _ _ Hw).
  - intros t th' w Ht' Hin. rewrite Ho. destruct (Hr _ _ Ht') as (th & _ & _ & _ & _ & _ & H). by apply H.
  - intros so sob. rewrite Ho. intros Hso. pose proof (wk_data _ _ Hw so sob Hso) as H.
    destruct (data sob) as [| | | | | |[t|]| | | |]; try done. simpl in *. destruct H as (? & th & Ht & Hin). split; [done|].
    destruct (Hl _ _ Ht) as (th' & Ht' & E & _). exists th'. by rewrite E.
  - intros t th' so Ht' Hin. destruct (Hr _ _ Ht') as (th & Ht & E & _). rewrite E in Hin. rewrite Ho. by apply (wk_owned _ _ Hw t th).
  - intros t th' Ht'. destruct (Hr _ _ Ht') as (th & Ht & -> & _). by apply (wk_nodup _ _ Hw t).
  - intros t th' Ht'. destruct (Hr _ _ Ht') as (th & Ht & _ & -> & _). rewrite Hp. by apply (wk_proc _ _ Hw t).
  - intros t th' e o so sob Ht' Hin. destruct (Hr _ _ Ht') as (th & Ht & _ & _ & E & _). rewrite E in Hin. rewrite Ho.
    by apply (wk_linked _ _ Hw t th).
  - intros t th' Ht'. by destruct (Hr _ _ Ht') as (th & _ & _ & _ & _ & ? & _).
  - by intros e o th w ?%not_elem_of_nil.
Qed.

Lemma sync_ok_put x s t th th' : sync_ok x [] s → threads s !! t = Some th → same_entries (objs s) t th th' →
  sync_ok x [] (set_threads (<[t:=th']>) s).
Proof.
  intros Hs Ht He. apply (sync_ok_entries x s); try done. intros t'. simpl. destruct (decide (t' = t)) as [->|Hne].
  - rewrite Ht, lookup_insert_eq. by constructor.
  - rewrite lookup_insert_ne by done. destruct (threads s !! t') as [th0|] eqn:E; constructor. by apply (same_entries_refl []); [apply Hs|].
Qed.

(** ** A new wait, with no entries yet *)

Definition pushed (t : tid) (th : thread) (w : thread_wait) (s : server) : server :=
  set_threads (<[t:=th_wait (w :: t_wait th) th]>) s.

Lemma push_ok x s t th w :
  sync_ok x [] s → threads s !! t = Some th → w_queues w = [] → plain_op (w_select w) = true → w_id w ∉ w_id <$> t_wait th →
  sync_ok x [] (pushed t th w s).
Proof.
  intros Hs Ht Hq Hop Hid. assert (Hw := sy_waits _ _ _ Hs). apply (sync_ok_put x s t th); [done..|]. split_and!; try done.
  - unfold thread_pairs. cbn [t_wait th_wait]. change (wait_pairs t w ++ (t_wait th ≫= wait_pairs t) = t_wait th ≫= wait_pairs t).
    unfold wait_pairs at 1. by rewrite Hq.
  - apply NoDup_cons. split; [done|]. by apply (wk_ids _ _ Hw t).
  - intros w' [->|Hin]%elem_of_cons; [|by apply (wk_wait _ _ Hw t th)].
    split_and!; [done|rewrite Hq; simpl; lia|]. rewrite Hq. intros _. constructor.
Qed.

(** The same wait with another cookie and timeout user. *)
Lemma retop_ok x s t th w w' next :
  sync_ok x [] s → threads s !! t = Some th → t_wait th = w :: next → w_id w' = w_id w → w_queues w' = w_queues w →
  w_select w' = w_select w → sync_ok x [] (set_threads (<[t:=th_wait (w' :: next) th]>) s).
Proof.
  intros Hs Ht Hwt Hi Hq Hsel. assert (Hw := sy_waits _ _ _ Hs). apply (sync_ok_put x s t th); [done..|]. split_and!; try done.
  - unfold thread_pairs. cbn [t_wait th_wait]. rewrite Hwt.
    change (wait_pairs t w' ++ (next ≫= wait_pairs t) = wait_pairs t w ++ (next ≫= wait_pairs t)). f_equal. unfold wait_pairs. by rewrite Hi, Hq.
  - pose proof (wk_ids _ _ Hw t th Ht) as Hnd. rewrite Hwt in Hnd. cbn [t_wait th_wait fmap list_fmap]. rewrite Hi. exact Hnd.
  - intros w2 [->|Hin]%elem_of_cons.
    + destruct (wk_wait _ _ Hw t th w Ht) as (A & B & C); [rewrite Hwt; by left|]. unfold wait_ok. rewrite Hsel, Hq. done.
    + apply (wk_wait _ _ Hw t th w2 Ht). rewrite Hwt. by right.
Qed.

(** ** Linking the next entry *)

Definition w_add (o : oid) (w : thread_wait) : thread_wait :=
  ThreadWait (w_id w) (w_queues w ++ [o]) (w_flags w) (w_abandoned w) (w_select w) (w_key w) (w_cookie w) (w_when w) (w_user w) (w_status w).

Definition next_entry (t : tid) (w : thread_wait) : wait_queue_entry := WaitQueueEntry t (w_id w) (Z.of_nat (length (w_queues w))).

Definition enqueued (so : oid) (sob : object) (e : wait_queue_entry) (s : server) : server :=
  set_objs (<[so:=ob_queue (wait_queue sob ++ [e]) sob]>) s.
Definition linked (t : tid) (th : thread) (w : thread_wait) (next : list thread_wait) (o : oid) (ob1 : object) (s1 : server) : server :=
  set_threads (<[t:=th_wait (w_add o w :: next) th]>) (set_objs (<[o:=ob_refcount (refcount ob1 + 1) ob1]>) s1).

Lemma wait_pairs_add t w o : wait_pairs t (w_add o w) = wait_pairs t w ++ [(next_entry t w, o)].
Proof.
  unfold wait_pairs, w_add, next_entry. simpl. rewrite imap_app. f_equal. simpl. by rewrite Nat.add_0_r.
Qed.

Section link.
Context (x : xrefs) (s : server) (t : tid) (th : thread) (w : thread_wait) (next : list thread_wait) (o so : oid) (sob ob1 : object).
Context (Hs : sync_ok x [] s) (Ht : threads s !! t = Some th) (Hw : t_wait th = w :: next).
Context (Hsy : sync_at (objs s) o = Some so) (Hso : objs s !! so = Some sob) (Hadd : has_add_queue sob = true).
Let e := next_entry t w.
Let s1 := enqueued so sob e s.
Let s' := linked t th w next o ob1 s1.
Context (Ho1 : objs s1 !! o = Some ob1).

Lemma link_data : same_data (objs s) (objs s').
Proof using Hso Ho1.
  apply (same_data_trans _ (objs s1)); [by apply (same_data_insert _ so sob)|]. by apply (same_data_insert _ o ob1).
Qed.

Lemma link_queue p obp : objs s' !! p = Some obp → ∃ obp0, objs s !! p = Some obp0 ∧ data obp = data obp0 ∧
  wait_queue obp = wait_queue obp0 ++ (if decide (p = so) then [e] else []).
Proof using Hso Ho1.
  intros Hp. assert (∃ obp1, objs s1 !! p = Some obp1 ∧ data obp = data obp1 ∧ wait_queue obp = wait_queue obp1) as (obp1 & Hp1 & Hd & Hq).
  { simpl in Hp. destruct (decide (p = o)) as [->|Hne].
    - rewrite lookup_insert_eq in Hp. injection Hp as <-. eauto.
    - rewrite lookup_insert_ne in Hp by done. eauto. }
  rewrite Hd, Hq. simpl in Hp1. destruct (decide (p = so)) as [->|Hne].
  - rewrite lookup_insert_eq in Hp1. injection Hp1 as <-. eauto.
  - rewrite lookup_insert_ne in Hp1 by done. exists obp1. by rewrite app_nil_r.
Qed.

Lemma link_pairs t' th' : threads s' !! t' = Some th' → ∃ th0, threads s !! t' = Some th0 ∧
  t_mutex_list th' = t_mutex_list th0 ∧ t_process th' = t_process th0 ∧ w_id <$> t_wait th' = w_id <$> t_wait th0 ∧
  (∀ e' o', (e', o') ∈ thread_pairs t' th' ↔ (e', o') ∈ thread_pairs t' th0 ∨ t' = t ∧ e' = e ∧ o' = o) ∧
  (∀ w', w' ∈ t_wait th' → w' ∈ t_wait th0 ∨ w' = w_add o w).
Proof using Ht Hw.
  intros Ht'. simpl in Ht'. destruct (decide (t' = t)) as [->|Hne].
  - rewrite lookup_insert_eq in Ht'. injection Ht' as <-. exists th. split_and!; try done.
    + simpl. by rewrite Hw.
    + intros e' o'. unfold thread_pairs. simpl. rewrite Hw.
      change ((w_add o w :: next) ≫= wait_pairs t) with (wait_pairs t (w_add o w) ++ (next ≫= wait_pairs t)).
      change ((w :: next) ≫= wait_pairs t) with (wait_pairs t w ++ (next ≫= wait_pairs t)).
      rewrite wait_pairs_add, !elem_of_app, list_elem_of_singleton. fold e. naive_solver.
    + simpl. rewrite Hw. intros w' [->|Hin]%elem_of_cons; [by right|left; by right].
  - rewrite lookup_insert_ne in Ht' by done. exists th'. split_and!; try done; [naive_solver|auto].
Qed.

Lemma link_thread : ∃ th', threads s' !! t = Some th' ∧ (e, o) ∈ thread_pairs t th'.
Proof.
  eexists. split; [apply lookup_insert_eq|]. unfold thread_pairs. simpl.
  change ((w_add o w :: next) ≫= wait_pairs t) with (wait_pairs t (w_add o w) ++ (next ≫= wait_pairs t)).
  rewrite wait_pairs_add, !elem_of_app, list_elem_of_singleton. auto.
Qed.

Lemma link_pending e' o' : pending s' [] e' o' ↔ pending s [] e' o' ∨ e' = e ∧ o' = o.
Proof using Ht Hw Ho1.
  split.
  - intros [(th' & Ht' & Hin)|Hin]; [|by apply not_elem_of_nil in Hin].
    destruct (link_pairs _ _ Ht') as (th0 & Ht0 & _ & _ & _ & Hp & _). destruct (proj1 (Hp _ _) Hin) as [Hin0|(_ & -> & ->)]; [|by right].
    left. left. eauto.
  - intros [[(th0 & Ht0 & Hin)|Hin]|[-> ->]]; [|by apply not_elem_of_nil in Hin|].
    + destruct (threads s' !! wq_thread e') as [th'|] eqn:Ht'.
      * destruct (link_pairs _ _ Ht') as (th1 & Ht1 & _ & _ & _ & Hp & _). rewrite Ht0 in Ht1. injection Ht1 as <-. left. exists th'. split; [done|]. apply Hp. by left.
      * exfalso. simpl in Ht'. destruct (decide (wq_thread e' = t)) as [<-|Hne];
          [by rewrite lookup_insert_eq in Ht'|rewrite lookup_insert_ne in Ht' by done; congruence].
    + destruct link_thread as (th' & Ht' & Hin). left. exists th'. done.
Qed.

(** The entry is new. *)
Lemma link_fresh p obp : objs s !! p = Some obp → e ∉ wait_queue obp.
Proof using Hs Ht Hw.
  intros Hp Hin. destruct (wk_queue _ _ (sy_waits _ _ _ Hs) p obp e Hp Hin) as (o' & [(th0 & Ht0 & Hin')|Hin'] & _);
    [|by apply not_elem_of_nil in Hin']. simpl in Ht0. rewrite Ht in Ht0. injection Ht0 as <-.
  unfold thread_pairs in Hin'. apply list_elem_of_bind in Hin' as (w' & Hin' & Hw').
  assert (w' = w) as ->.
  { pose proof (wait_pairs_id _ _ _ _ Hin') as E. simpl in E. pose proof (wk_ids _ _ (sy_waits _ _ _ Hs) t th Ht) as Hnd. rewrite Hw in *.
    simpl in Hnd. apply NoDup_cons in Hnd as [Hno _]. apply elem_of_cons in Hw' as [->|Hw']; [done|]. exfalso. apply Hno. rewrite E.
    apply list_elem_of_fmap. eauto. }
  apply list_elem_of_lookup in Hin' as [i Hi]. unfold wait_pairs in Hi. rewrite list_lookup_imap in Hi.
  destruct (w_queues w !! i) as [q|] eqn:Hq; [|done]. apply lookup_lt_Some in Hq. simpl in Hi. unfold e, next_entry in Hi. injection Hi as Hi _. lia.
Qed.

Context (Hlen : (length (w_queues w) < 64)%nat).
Context (Hdist : w_select w = SELECT_WAIT_ALL → sync_at (objs s) o ∉ sync_at (objs s) <$> w_queues w).

Lemma link_waits_ok : waits_ok [] s'.
Proof using Hs Ht Hw Hsy Hso Hadd Ho1 Hlen Hdist.
  assert (Hk := sy_waits _ _ _ Hs). pose proof link_data as Hd. assert (∀ p, sync_at (objs s') p = sync_at (objs s) p) as Hsya.
  { intros p. by apply same_data_sync_at. }
  split.
  - intros q obq e' Hq He'. destruct (link_queue q obq Hq) as (obq0 & Hq0 & _ & Eq). rewrite Eq in He'.
    apply elem_of_app in He' as [He'|He'].
    + destruct (wk_queue _ _ Hk q obq0 e' Hq0 He') as (o' & ? & ?). exists o'. rewrite link_pending, Hsya. auto.
    + destruct (decide (q = so)) as [->|]; [|by apply not_elem_of_nil in He']. apply list_elem_of_singleton in He' as ->.
      exists o. rewrite link_pending, Hsya. auto.
  - intros q obq Hq. destruct (link_queue q obq Hq) as (obq0 & Hq0 & _ & ->). apply NoDup_app. split_and!.
    + by apply (wk_entries _ _ Hk q).
    + intros e' He' Hin. case_decide; [|by apply not_elem_of_nil in Hin]. apply list_elem_of_singleton in Hin as ->.
      by apply (link_fresh q obq0).
    + case_decide; [apply NoDup_singleton|constructor].
  - intros e' o' He'. apply link_pending in He'. assert (∃ so' sob', sync_at (objs s) o' = Some so' ∧ objs s !! so' = Some sob' ∧ has_add_queue sob' = true)
      as (so' & sob' & E1 & E2 & E3). { destruct He' as [He'|[-> ->]]; [by apply (wk_sync _ _ Hk e')|eauto]. }
    destruct (same_data_l _ _ _ _ Hd E2) as (sob2 & ? & Ed). exists so', sob2. rewrite Hsya. split_and!; try done. unfold has_add_queue in *. by rewrite Ed.
  - intros t' th' w' Ht' Hin. destruct (link_pairs _ _ Ht') as (th0 & Ht0 & _ & _ & _ & _ & Hws).
    assert (Hsyl : ∀ l, sync_at (objs s') <$> l = sync_at (objs s) <$> l) by (intros l; by apply list_fmap_ext).
    destruct (Hws w' Hin) as [Hin0| ->].
    + destruct (wk_wait _ _ Hk t' th0 w' Ht0 Hin0) as (A & B & C). split_and!; try done. by rewrite Hsyl.
    + destruct (wk_wait _ _ Hk t th w Ht) as (A & B & C); [rewrite Hw; by left|]. split_and!; [done|simpl; rewrite length_app; simpl; lia|].
      simpl. intros E. rewrite Hsyl, fmap_app. apply NoDup_app. split_and!; [auto| |apply NoDup_singleton].
      intros q Hq Hin'. apply list_elem_of_singleton in Hin' as ->. by apply Hdist.
  - intros q obq Hq. destruct (link_queue q obq Hq) as (obq0 & Hq0 & Ed & _). rewrite Ed. pose proof (wk_data _ _ Hk q obq0 Hq0) as H.
    destruct (data obq0) as [| | | | | |[t'|]| | | |]; try done. simpl in *. destruct H as (? & th' & Ht' & Hin). split; [done|].
    destruct (decide (t' = t)) as [->|Hne]; [simplify_eq; eexists; split; [apply lookup_insert_eq|done]|].
    exists th'. by rewrite lookup_insert_ne.
  - intros t' th' q Ht' Hin. destruct (link_pairs _ _ Ht') as (th0 & Ht0 & Em & _). rewrite Em in Hin.
    destruct (wk_owned _ _ Hk t' th0 q Ht0 Hin) as (obq & c & ab & Hq & Ed). destruct (same_data_l _ _ _ _ Hd Hq) as (obq' & ? & ?).
    exists obq', c, ab. split; [done|congruence].
  - intros t' th' Ht'. destruct (link_pairs _ _ Ht') as (th0 & Ht0 & -> & _). by apply (wk_nodup _ _ Hk t').
  - intros t' th' Ht'. destruct (link_pairs _ _ Ht') as (th0 & Ht0 & _ & -> & _). by apply (wk_proc _ _ Hk t').
  - intros t' th' e' o' q obq Ht' Hin Hsyq Hq. rewrite Hsya in Hsyq. destruct (link_queue q obq Hq) as (obq0 & Hq0 & _ & ->).
    destruct (link_pairs _ _ Ht') as (th0 & Ht0 & _ & _ & _ & Hp & _). apply elem_of_app. destruct (proj1 (Hp _ _) Hin) as [Hin0|(_ & -> & ->)].
    + left. by apply (wk_linked _ _ Hk t' th0 e' o' q).
    + right. rewrite Hsy in Hsyq. injection Hsyq as ->. rewrite decide_True by done. by left.
  - intros t' th' Ht'. destruct (link_pairs _ _ Ht') as (th0 & Ht0 & _ & _ & -> & _). by apply (wk_ids _ _ Hk t').
  - by intros e' o' th' w' ?%not_elem_of_nil.
Qed.

Lemma link_wrefs p : wrefs s' p = wrefs s p + occ p [o].
Proof using Ht Hw.
  clear Hlen Hdist.
  unfold s', linked. rewrite (wrefs_update s1 _ t th) by done. change (wrefs s1 p) with (wrefs s p). unfold thread_refs.
  cbn [t_wait t_mutex_list th_wait]. rewrite Hw.
  change ((w_add o w :: next) ≫= w_queues) with ((w_queues w ++ [o]) ++ (next ≫= w_queues)).
  change ((w :: next) ≫= w_queues) with (w_queues w ++ (next ≫= w_queues)). rewrite !occ_app. lia.
Qed.

(** The store with the reference taken first. *)
Lemma link_objs : ∃ ob sobg, objs s !! o = Some ob ∧ <[o:=ob_refcount (refcount ob + 1) ob]> (objs s) !! so = Some sobg ∧
  data sobg = data sob ∧ objs s' = <[so:=ob_queue (wait_queue sobg ++ [e]) sobg]> (<[o:=ob_refcount (refcount ob + 1) ob]> (objs s)).
Proof using Hso Ho1.
  clear Hlen Hdist Hsy.
  simpl in Ho1. destruct (decide (o = so)) as [Heq|Hne].
  - subst o. rewrite lookup_insert_eq in Ho1. injection Ho1 as <-. exists sob, (ob_refcount (refcount sob + 1) sob). split_and!; try done.
    + by rewrite lookup_insert_eq.
    + simpl. by rewrite !insert_insert_eq.
  - rewrite lookup_insert_ne in Ho1 by done. exists ob1, sob. split_and!; try done.
    + by rewrite lookup_insert_ne.
    + simpl. by rewrite insert_insert_ne.
Qed.

Lemma link_ok : sync_ok x [] s'.
Proof using Hs Ht Hw Hsy Hso Hadd Ho1 Hlen Hdist.
  pose proof link_waits_ok as Hk. split; [|done|apply Hs].
  destruct link_objs as (ob & sobg & Ho & Hsg & Hd & Hobjs). rewrite Hobjs.
  assert (Hx := sy_x _ _ _ Hs). assert (Hnil : ∀ p, occ p (snd <$> ([] : list pair_entry)) = 0) by done.
  assert (heap_ok (wx x [] s') (<[o:=ob_refcount (refcount ob + 1) ob]> (objs s))) as Hok1.
  { eapply heap_ok_more_held; [by apply (heap_ok_grab (wx x [] s)), Ho; apply Hs|..]; intros p; cbn [x_ref x_held x_handle wx pin];
      rewrite ?link_wrefs, ?Hnil; try done; pose proof (occ_nonneg p [o]); pose proof (Hx p); pose proof (wrefs_nonneg s p); lia. }
  assert (has_add_queue sobg = true) as Hag by (unfold has_add_queue in *; by rewrite Hd).
  destruct (add_queue_targets sobg Hag) as (? & ? & ?).
  apply (heap_ok_mutate (wx x [] s') _ _ _ sobg); try done; try (simpl; lia).
  - intros p. apply (hp_nonneg _ _ Hok1).
  - rewrite <-Hobjs. intros q obq Hq Hne. by eapply waits_waited.
  - rewrite <-Hobjs. intros q obq ow c ab Hq Hdq Hc. by eapply waits_owned.
Qed.

Lemma link_npairs : npairs s' = npairs s + 1.
Proof using Ht Hw.
  clear Hlen Hdist.
  unfold s', linked. rewrite (npairs_update s1 t th) by done. change (npairs s1) with (npairs s).
  cbn [t_wait t_mutex_list th_wait]. rewrite Hw.
  change ((w_add o w :: next) ≫= w_queues) with ((w_queues w ++ [o]) ++ (next ≫= w_queues)).
  change ((w :: next) ≫= w_queues) with (w_queues w ++ (next ≫= w_queues)). rewrite !length_app. simpl. lia.
Qed.

Lemma link_slack n : slack s n → slack s' (n - 1).
Proof using Hso Ho1.
  clear Hlen Hdist.
  intros Hsl p obp Hp. destruct (link_queue p obp Hp) as (obp0 & Hp0 & Hd & _). destruct (Hsl p obp0 Hp0) as [A B]. split.
  - assert (refcount obp <= refcount obp0 + 1); [|lia]. destruct link_objs as (ob & sobg & Ho & Hsg & Hd' & Hobjs). rewrite Hobjs in Hp.
    assert (∀ q obq, <[o:=ob_refcount (refcount ob + 1) ob]> (objs s) !! q = Some obq → ∀ obq0, objs s !! q = Some obq0 → refcount obq <= refcount obq0 + 1) as Hr.
    { intros q obq Hq obq0 Hq0. destruct (decide (q = o)) as [->|Hne].
      - rewrite lookup_insert_eq in Hq. rewrite Ho in Hq0. injection Hq as <-. injection Hq0 as <-. simpl. lia.
      - rewrite lookup_insert_ne, Hq0 in Hq by done. injection Hq as <-. lia. }
    destruct (decide (p = so)) as [->|Hne].
    + rewrite lookup_insert_eq in Hp. injection Hp as <-. simpl. by apply (Hr so).
    + rewrite lookup_insert_ne in Hp by done. by apply (Hr p).
  - rewrite Hd. intros ow c ab E. specialize (B _ _ _ E). lia.
Qed.
End link.

(** ** The loop of [wait_on] *)

Lemma wp_object_sync_add_queue x s o so sob e (Q : bool → server → Prop) :
  sync_ok x [] s → slack s 1 → sync_at (objs s) o = Some so → objs s !! so = Some sob →
  (has_add_queue sob = true → Q true (enqueued so sob e s)) →
  (has_add_queue sob = false → ∀ s', objs s' = objs s → keeps s s' → last_error s' = STATUS_OBJECT_TYPE_MISMATCH → Q false s') →
  wp (object_sync_add_queue o e) Q s.
Proof.
  intros Hs Hsl Hsy Hso HQ HQ'. destruct (Hsl so sob Hso) as [Hr _]. unfold object_sync_add_queue.
  pose proof (ob_live _ _ _ _ (hp_object _ _ (sy_heap _ _ _ Hs) so sob Hso)) as Hpos.
  apply wp_bind, (wp_get_obj_sync o so sob); [done|done|lia|].
  apply wp_bind. eapply wp_get_obj; [apply lookup_insert_eq|].
  replace (has_add_queue _) with (has_add_queue sob) by done. destruct (has_add_queue sob).
  - unfold add_queue. apply wp_bind, wp_bind. eapply wp_get_obj; [apply lookup_insert_eq|]. apply wp_bind, wp_put_obj, wp_ret. rewrite set_objs_twice.
    apply wp_bind. eapply wp_release_dec; [apply lookup_insert_eq|simpl; lia|]. rewrite set_objs_twice. apply wp_ret.
    replace (ob_refcount _ _) with (ob_queue (wait_queue sob ++ [e]) sob); [by apply HQ|].
    destruct sob; unfold ob_refcount, ob_queue; simpl. f_equal. lia.
  - apply wp_bind, wp_bind, wp_set_error. intros s' Ho' Hk' He'. apply wp_ret, wp_bind.
    assert (objs s' !! so = Some (ob_refcount (refcount sob + 1) sob)) as Hso' by (rewrite Ho'; apply lookup_insert_eq).
    eapply wp_release_dec; [exact Hso'|simpl; lia|]. apply wp_ret. apply HQ'; [done|..].
    + simpl. rewrite Ho'. simpl. rewrite insert_insert_eq. apply insert_id. rewrite Hso. f_equal.
      destruct sob; unfold ob_refcount; simpl. f_equal. lia.
    + etransitivity; [|apply keeps_objs]. etransitivity; [|exact Hk']. apply keeps_objs.
    + exact He'.
Qed.

(** ** Steps seen by the other threads *)

(** The clock stands still, the threads other than [t] are what they were (but for
    the error code that a request sets), and those that have to wait still have to. *)
Definition calm (t : tid) (s s' : server) : Prop :=
  current_time s' = current_time s ∧ monotonic_time s' = monotonic_time s ∧
  (∀ t', t' ≠ t → th_error 0 <$> threads s' !! t' = th_error 0 <$> threads s !! t') ∧
  ∀ t', t' ≠ t → blocked s t' → blocked s' t'.

#[export] Instance calm_preorder t : PreOrder (calm t).
Proof.
  split; [by intros s; split_and!|]. intros s1 s2 s3 (A & B & C & E) (A' & B' & C' & E'). split_and!; [congruence..| |auto].
  intros t' Hne. by rewrite C', C.
Qed.

Lemma spares_calm t s s' : spares t s s' → calm t s s'.
Proof.
  intros [A B C]. split_and!; [apply B..|by intros t' Hne; rewrite A|]. intros t' Hne. apply blocked_mono; [by apply A|apply B|apply B|apply B|]. intros th w p Ht Hw Hp.
  destruct (C t' th w p Hne Ht Hw Hp) as [_ Hr]. auto.
Qed.

Lemma same_data_ready s s' t p : same_data (objs s) (objs s') → object_ready s' t p = object_ready s t p.
Proof.
  intros H. unfold object_ready. rewrite (same_data_sync_at (objs s)) by done. destruct (sync_at (objs s) p) as [so|]; [|done]. simpl.
  specialize (H so). destruct (objs s' !! so), (objs s !! so); simplify_eq/=; [|done]. by rewrite H.
Qed.

Lemma same_data_calm t s s' : same_data (objs s) (objs s') → (∀ t', t' ≠ t → threads s' !! t' = threads s !! t') →
  procs s' = procs s → current_time s' = current_time s → monotonic_time s' = monotonic_time s → calm t s s'.
Proof.
  intros Hd Ht Hp Hc Hm. split_and!; [done..|by intros t' Hne; rewrite Ht|]. intros t' Hne. apply blocked_mono; try done; [by apply Ht|]. intros th w p _ _ _. by rewrite (same_data_ready s).
Qed.

Lemma keeps_thread_check s s' t th' : keeps s s' → threads s' !! t = Some th' →
  ∃ th, threads s !! t = Some th ∧ th_error 0 th' = th_error 0 th.
Proof.
  intros Hk Ht. pose proof (kp_threads _ _ Hk t) as E. rewrite Ht in E. destruct (threads s !! t) as [th|]; [|done].
  exists th. split; [done|]. by apply (inj Some).
Qed.

Lemma error_fields th th' : th_error 0 th' = th_error 0 th → same_fields th th' ∧ same_check th th'.
Proof.
  intros E. split; [split_and!|unfold same_check; by rewrite E].
  - exact (f_equal t_wait E).
  - exact (f_equal t_mutex_list E).
  - exact (f_equal t_process E).
Qed.

Lemma keeps_same_sync s s' : objs s' = objs s → keeps s s' → same_sync s s'.
Proof.
  intros Ho Hk. split_and!; [done|apply Hk|]. intros t. pose proof (kp_threads _ _ Hk t) as E.
  destruct (threads s' !! t), (threads s !! t); try done; constructor. apply error_fields. by apply (inj Some).
Qed.

Lemma keeps_calm t s s' : objs s' = objs s → keeps s s' → calm t s s'.
Proof.
  intros Ho Hk. split_and!; [apply (kp_rest _ _ Hk)..|intros t' _; apply (kp_threads _ _ Hk)|]. intros t' _. apply blocked_checks.
  - split_and!; try apply Hk. intros t0 th' Ht. destruct (keeps_thread_check s s' t0 th' Hk Ht) as (th & ? & E). exists th. split; [done|].
    by apply error_fields.
  - intros th w p _ _ _. by rewrite (same_data_ready s s') by (intros q; by rewrite Ho).
Qed.

Definition waitable (h : gmap oid object) (o : oid) : bool :=
  match sync_at h o ≫= λ so, h !! so with Some sob => has_add_queue sob | None => false end.

Lemma same_data_waitable h h' o : same_data h h' → waitable h' o = waitable h o.
Proof.
  intros H. unfold waitable. rewrite (same_data_sync_at h) by done. destruct (sync_at h o) as [so|]; [|done]. simpl.
  specialize (H so). destruct (h' !! so), (h !! so); simplify_eq/=; [|done]. unfold has_add_queue. by rewrite H.
Qed.

Lemma same_data_waitables h h' l : same_data h h' → forallb (waitable h') l = forallb (waitable h) l.
Proof. intros H. induction l as [|o l IH]; [done|]. simpl. by rewrite IH, (same_data_waitable h). Qed.

Definition w_extend (l : list oid) (w : thread_wait) : thread_wait :=
  ThreadWait (w_id w) (w_queues w ++ l) (w_flags w) (w_abandoned w) (w_select w) (w_key w) (w_cookie w) (w_when w) (w_user w) (w_status w).

Lemma w_extend_add o l w : w_extend l (w_add o w) = w_extend (o :: l) w.
Proof. unfold w_extend, w_add. simpl. by rewrite <-app_assoc. Qed.
Lemma w_extend_nil w : w_extend [] w = w.
Proof. unfold w_extend. rewrite app_nil_r. by destruct w. Qed.

(** The outcome of queueing: every object is linked, or the wait is gone again. *)
Definition queued (x : xrefs) (t : tid) (th : thread) (w : thread_wait) (next : list thread_wait) (l : list oid) (s : server) (r : bool) (s' : server) : Prop :=
  sync_ok x [] s' ∧ wait_room s' ∧ calm t s s' ∧ procs s' = procs s ∧ current s' = current s ∧ r = forallb (waitable (objs s)) l ∧
  if r then same_data (objs s) (objs s') ∧ allocs s' = allocs s ∧ threads s' !! t = Some (th_wait (w_extend l w :: next) th)
  else ∃ th', threads s' !! t = Some th' ∧ t_wait th' = next.

Lemma mismatch_ok x s s1 t th w next :
  sync_ok x [] s → wait_room s → threads s !! t = Some th → t_wait th = w :: next → objs s1 = objs s → keeps s s1 →
  last_error s1 = STATUS_OBJECT_TYPE_MISMATCH →
  wp (err <- get_error; end_wait t err ;; ret false) (λ r s', sync_ok x [] s' ∧ wait_room s' ∧ calm t s s' ∧ procs s' = procs s ∧
    current s' = current s ∧ r = false ∧ ∃ th', threads s' !! t = Some th' ∧ t_wait th' = next) s1.
Proof.
  intros Hs Hr Ht Hw Ho Hk He. pose proof (keeps_same_sync s s1 Ho Hk) as Hsm.
  pose proof (same_sync_ok x [] s s1 Hs Hsm) as Hs1. pose proof (same_sync_room s s1 Hsm Hr) as Hr1.
  destruct (same_sync_l _ _ _ _ Hsm Ht) as (th1 & Ht1 & (Hw1 & _)). rewrite Hw in Hw1.
  destruct (wk_wait _ _ (sy_waits _ _ _ Hs1) t th1 w Ht1) as (_ & Hlen & _); [rewrite Hw1; by left|].
  unfold last_error in He. apply wp_bind. unfold get_error in *. apply wp_gets. cbn in He |- *. rewrite He.
  apply wp_bind. eapply wp_mono.
  - apply (end_wait_ok x s1 t th1 w next _ Hs1 Hr1 Ht1 Hw1). intros Hlt. unfold STATUS_OBJECT_TYPE_MISMATCH in Hlt. lia.
  - intros r s2 (_ & Hs2 & Hr2 & Hen). pose proof (ended_spares x _ _ _ _ _ _ _ Hs1 Hs2 Hen) as Hsp. destruct Hen as [[ms A] B C _ _].
    apply wp_ret. split_and!; try done.
    + etransitivity; [by apply (keeps_calm t s s1)|]. by apply spares_calm.
    + transitivity (procs s1); [apply C|apply Hk].
    + transitivity (current s1); [apply C|apply Hk].
    + eexists. split; [exact A|]. done.
Qed.

Lemma queue_objects_ok x t l : ∀ s th w next,
  sync_ok x [] s → slack s (npairs s + 2 * Z.of_nat (length l) + 2) → threads s !! t = Some th → t_wait th = w :: next →
  (∀ o, o ∈ l → is_Some (sync_at (objs s) o)) → (length (w_queues w) + length l <= 64)%nat →
  (w_select w = SELECT_WAIT_ALL → NoDup (sync_at (objs s) <$> (w_queues w ++ l))) →
  wp (queue_objects t l (Z.of_nat (length (w_queues w)))) (queued x t th w next l s) s.
Proof.
  induction l as [|o l IH]; intros s th w next Hs Hsl Ht Hw Hal Hlen Hnd; cbn [queue_objects].
  - apply wp_ret. split_and!; try done.
    + eapply slack_weaken; [exact Hsl|]. simpl. lia.
    + rewrite w_extend_nil, <-Hw. by destruct th.
  - assert (wait_room s) as Hroom by (eapply slack_weaken; [exact Hsl|lia]). pose proof (npairs_nonneg s).
    destruct (Hal o ltac:(by left)) as [so Hsy]. destruct (sync_alive _ _ _ _ (sy_heap _ _ _ Hs) Hsy) as [sob Hso].
    destruct (sync_at_cases _ _ _ Hsy) as (ob & Ho & _).
    apply wp_bind, (wp_get_thread _ th); [done|]. apply wp_bind, (wp_deref _ w); [unfold top_wait; by rewrite Hw|].
    apply wp_bind. eapply (wp_object_sync_add_queue x s o so sob); try done; [eapply slack_weaken; [exact Hsl|lia]|..].
    2:{ intros Ha s1 Ho1 Hk1 He1. eapply wp_mono; [by apply (mismatch_ok x s s1 t th w next)|].
        intros r s2 (A & B & C & E & F & -> & G). split_and!; try done. simpl. unfold waitable at 1. rewrite Hsy. simpl. by rewrite Hso, Ha. }
    intros Ha. cbn [negb]. change (WaitQueueEntry t (w_id w) (Z.of_nat (length (w_queues w)))) with (next_entry t w).
    set (s1 := enqueued so sob (next_entry t w) s). assert (∃ ob1, objs s1 !! o = Some ob1 ∧ refcount ob1 = refcount ob) as (ob1 & Ho1 & Hrc).
    { simpl. destruct (decide (o = so)) as [->|Hne]; [rewrite lookup_insert_eq; eexists; split; [done|]; simplify_eq; done|].
      rewrite lookup_insert_ne by done. eauto. }
    destruct (Hsl o ob Ho) as [Hmax _]. apply wp_bind. apply (wp_grab_object _ _ ob1); [done|lia|]. intros s2 ->.
    apply wp_bind. unfold set_top_wait. apply wp_bind, (wp_get_thread _ th); [done|]. unfold put_thread. apply wp_modify.
    rewrite Hw. cbn [tail]. change (ThreadWait (w_id w) (w_queues w ++ [o]) _ _ _ _ _ _ _ _) with (w_add o w).
    change (set_threads _ _) with (linked t th w next o ob1 s1). set (s' := linked t th w next o ob1 s1).
    assert (w_select w = SELECT_WAIT_ALL → sync_at (objs s) o ∉ sync_at (objs s) <$> w_queues w) as Hdist.
    { intros E. specialize (Hnd E). rewrite fmap_app in Hnd. apply NoDup_app in Hnd as (_ & Hd & _). intros Hin.
      apply (Hd _ Hin). simpl. by left. }
    pose proof (link_data s t th w next o so sob ob1 Hso Ho1) as Hdata. fold s1 s' in Hdata.
    pose proof (link_ok x s t th w next o so sob ob1 Hs Ht Hw Hsy Hso Ha Ho1 ltac:(simpl in Hlen; lia) Hdist) as Hs'. fold s1 s' in Hs'.
    pose proof (link_slack s t th w next o so sob ob1 Hso Ho1 _ Hsl) as Hsl'. fold s1 s' in Hsl'.
    pose proof (link_npairs s t th w next o so sob ob1 Ht Hw) as Hnp. fold s1 s' in Hnp.
    replace (Z.of_nat (length (w_queues w)) + 1) with (Z.of_nat (length (w_queues (w_add o w)))) by (simpl; rewrite length_app; simpl; lia).
    eapply wp_mono; [apply (IH s' (th_wait (w_add o w :: next) th) (w_add o w) next); try done|].
    + eapply slack_weaken; [exact Hsl'|]. cbn [length]. lia.
    + apply lookup_insert_eq.
    + intros p Hp. rewrite (same_data_sync_at (objs s)) by done. apply Hal. by right.
    + simpl in *. rewrite length_app. simpl. lia.
    + simpl. intros E. rewrite (list_fmap_ext _ (sync_at (objs s)) (_ ++ l)); [|intros; by apply same_data_sync_at].
      rewrite <-app_assoc. by apply Hnd.
    + intros r s3 (A & B & C & E & F & G & K). split_and!; try done.
      * etransitivity; [|exact C]. apply same_data_calm; try done. intros t' Hne. simpl. by rewrite lookup_insert_ne.
      * simpl. unfold waitable at 1. rewrite Hsy. simpl. rewrite Hso, Ha. simpl. rewrite G. by apply same_data_waitables.
      * destruct r; [|done]. destruct K as (K1 & Ka & K2). split_and!; [by eapply same_data_trans|done|]. rewrite w_extend_add in K2. exact K2.
Qed.
