(* ===== verification/SelectThms.v ===== *)
(** * The select request

    [select_on] on the handles of a wait: the handles are resolved, the wait is
    queued and checked, and it ends at once or the thread is left waiting. *)

From stdpp Require Import base list gmap fin_maps.
From S2P Require Import Prelude Access Object ObjectInv Handle HandleInv HandleThms Wait Sync SyncInv SyncSteps SyncWake SyncThms SyncOps SyncSelect.

Open Scope Z_scope.
Open Scope server_scope.

(** ** The two invariants together *)

Lemma wx_equiv x y D s : x ≡ y → wx x D s ≡ wx y D s.
Proof. intros (A & B & C). split_and!; intros o; simpl; rewrite ?A, ?B; done. Qed.

Lemma sync_ok_equiv x y D s : x ≡ y → sync_ok x D s → sync_ok y D s.
Proof.
  intros Hxy [Hok Hw Hx]. split; [by rewrite <-(wx_equiv x y)|done|]. intros o. destruct Hxy as (A & B & _). rewrite <-A, <-B. apply Hx.
Qed.

Record full_ok (x : xrefs) (s : server) : Prop := {
  fu_server : server_ok (wx x [] s) s;
  fu_sync : sync_ok x [] s;
}.

Lemma server_ok_wx x y s : server_ok x s → heap_ok y (objs s) → (∀ o, 0 < x_ref x o → 0 < x_ref y o) → server_ok y s.
Proof.
  intros Hs Hok Hx. apply (server_ok_step x y s s); try done. intros o ob ob' H H'. congruence.
Qed.

Lemma full_ok_equiv x y s : x ≡ y → full_ok x s → full_ok y s.
Proof.
  intros Hxy [A B]. assert (sync_ok y [] s) as B' by by apply (sync_ok_equiv x). split; [|done].
  apply (server_ok_wx (wx x [] s)); [done|apply B'|]. intros o. destruct (wx_equiv x y [] s Hxy) as (E & _). by rewrite E.
Qed.

Lemma full_ok_keeps x s s' : full_ok x s → objs s' = objs s → keeps s s' → full_ok x s'.
Proof.
  intros [A B] Ho Hk. pose proof (keeps_same_sync s s' Ho Hk) as Hsm. assert (sync_ok x [] s') as B' by by apply (same_sync_ok x [] s).
  split; [|done]. apply (server_ok_wx (wx x [] s)); [by apply (server_ok_same _ s)|apply B'|]. intros o. simpl.
  by rewrite (same_sync_wrefs s s').
Qed.

(** Grabbing an object. *)
Lemma full_ok_grab x s o ob : full_ok x s → objs s !! o = Some ob →
  full_ok (pin o x) (set_objs (<[o:=ob_refcount (refcount ob + 1) ob]>) s).
Proof.
  intros [A B] Ho. set (s' := set_objs _ s). destruct (grabbed_ok _ s o ob A Ho) as [Hs' _]. fold s' in Hs'.
  assert (heap_ok (wx (pin o x) [] s') (objs s')) as Hok by (rewrite wx_pin; apply Hs').
  split; [apply (server_ok_wx _ _ s' Hs' Hok); intros p; simpl; rewrite (wrefs_same s s') by done; lia|]. split; [done| |].
  - assert (same_data (objs s) (objs s')) as Hd by (by apply (same_data_insert _ o ob)). assert (Hw := sy_waits _ _ _ B).
    assert (Hq : ∀ p obp, objs s' !! p = Some obp → ∃ obp0, objs s !! p = Some obp0 ∧ data obp = data obp0 ∧ wait_queue obp = wait_queue obp0).
    { intros p obp Hp. simpl in Hp. destruct (decide (p = o)) as [->|Hne].
      - rewrite lookup_insert_eq in Hp. injection Hp as <-. eauto.
      - rewrite lookup_insert_ne in Hp by done. eauto. }
    assert (Hsy : ∀ p, sync_at (objs s') p = sync_at (objs s) p) by (intros; by apply same_data_sync_at).
    split.
    + intros so sob e Hso He. destruct (Hq so sob Hso) as (sob0 & Hso0 & _ & Eq). rewrite Eq in He.
      destruct (wk_queue _ _ Hw so sob0 e Hso0 He) as (q & ? & ?). exists q. by rewrite Hsy.
    + intros so sob Hso. destruct (Hq so sob Hso) as (sob0 & Hso0 & _ & ->). by apply (wk_entries _ _ Hw so).
    + intros e q He. destruct (wk_sync _ _ Hw e q He) as (so & sob & ? & Hso & ?). destruct (same_data_l _ _ _ _ Hd Hso) as (sob' & ? & E).
      exists so, sob'. rewrite Hsy. unfold has_add_queue in *. by rewrite E.
    + intros t th w Ht Hin. destruct (wk_wait _ _ Hw t th w Ht Hin) as (E & F & G). split_and!; try done. intros H.
      rewrite (list_fmap_ext _ (sync_at (objs s))); auto.
    + intros so sob Hso. destruct (Hq so sob Hso) as (sob0 & Hso0 & -> & _). exact (wk_data _ _ Hw so sob0 Hso0).
    + intros t th so Ht Hin. destruct (wk_owned _ _ Hw t th so Ht Hin) as (sob & c & ab & Hso & ?).
      destruct (same_data_l _ _ _ _ Hd Hso) as (sob' & ? & ?). exists sob', c, ab. split; [done|congruence].
    + apply (wk_nodup _ _ Hw).
    + apply (wk_proc _ _ Hw).
    + intros t th e q so sob Ht Hin. rewrite Hsy. intros Hsyq Hso. destruct (Hq so sob Hso) as (sob0 & Hso0 & _ & ->).
      by apply (wk_linked _ _ Hw t th e q so).
    + apply (wk_ids _ _ Hw).
    + by intros e q th w ?%not_elem_of_nil.
  - intros p. simpl. pose proof (occ_nonneg p [o]). pose proof (sy_x _ _ _ B p). lia.
Qed.

(** ** Resolving the handles of a wait *)

Fixpoint resolve_waits (s : server) (pr : process) (handles : list Z) : list oid * bool :=
  match handles with
  | [] => ([], true)
  | h :: handles =>
      match resolve s pr h with
      | Some (_, _, o, a) => if Z.land a SYNCHRONIZE =? SYNCHRONIZE
                             then (o :: fst (resolve_waits s pr handles), snd (resolve_waits s pr handles)) else ([], false)
      | None => ([], false)
      end
  end.

Lemma same_data_resolve s s' pr h : same_data (objs s) (objs s') → global_table s' = global_table s → resolve s' pr h = resolve s pr h.
Proof.
  intros Hd Hg. unfold resolve, handle_place, view, table_of. rewrite Hg. destruct (if handle_is_global h then _ else _) as [[to i]|]; [|done].
  specialize (Hd to). destruct (objs s' !! to), (objs s !! to); simplify_eq/=; [|done]. by rewrite Hd.
Qed.

Lemma same_data_resolve_waits s s' pr hs : same_data (objs s) (objs s') → global_table s' = global_table s →
  resolve_waits s' pr hs = resolve_waits s pr hs.
Proof. intros Hd Hg. induction hs as [|h hs IH]; [done|]. simpl. by rewrite IH, (same_data_resolve s). Qed.

Lemma x_refs_cons o l x : x_refs (o :: l) x ≡ x_refs l (pin o x).
Proof. split_and!; intros p; simpl; rewrite ?(occ_cons p o l), ?(occ_cons p o []), ?occ_nil; lia. Qed.
Lemma x_refs_nil x : x_refs [] x ≡ x.
Proof. split_and!; intros p; simpl; rewrite ?occ_nil; lia. Qed.

Lemma slack_grab s o ob n : objs s !! o = Some ob → slack s n → slack (set_objs (<[o:=ob_refcount (refcount ob + 1) ob]>) s) (n - 1).
Proof.
  intros Ho Hs p obp Hp. simpl in Hp. destruct (decide (p = o)) as [->|Hne].
  - rewrite lookup_insert_eq in Hp. injection Hp as <-. destruct (Hs o ob Ho) as [A B]. simpl. split; [lia|]. intros ow c ab E.
    specialize (B _ _ _ E). lia.
  - rewrite lookup_insert_ne in Hp by done. destruct (Hs p obp Hp) as [A B]. split; [lia|]. intros ow c ab E. specialize (B _ _ _ E). lia.
Qed.

Lemma get_objects_ok p pr hs : ∀ x s n,
  full_ok x s → procs s !! p = Some pr → Forall (λ h, is_magic h = false) hs → slack s n → Z.of_nat (length hs) + 1 <= n →
  wp (get_objects p hs) (λ r s', r = resolve_waits s pr hs ∧ full_ok (x_refs (fst r) x) s' ∧ same_data (objs s) (objs s') ∧
    keeps s s' ∧ slack s' (n - Z.of_nat (length hs)) ∧ (snd r = true → allocs s' = allocs s)) s.
Proof.
  induction hs as [|h hs IH]; intros x s n Hf Hp Hm Hsl Hn; cbn [get_objects length] in *.
  - apply wp_ret. split_and!; try done; [by apply (full_ok_equiv x); [symmetry; apply x_refs_nil|]|].
    eapply slack_weaken; [exact Hsl|lia].
  - apply Forall_cons in Hm as [Hm Hms]. apply wp_bind. eapply wp_mono.
    { apply (get_handle_obj_run (wx x [] s) s p pr); [apply Hf|done|done|]. intros o ob Ho. destruct (Hsl o ob Ho) as [? _]. lia. }
    intros r s1 H. cbn [resolve_waits]. destruct (resolve s pr h) as [[[[to i] o] a]|].
    + destruct H as (ob & Ho & H). unfold entry_grants, has_type in H. cbn [negb] in H. destruct (Z.land a SYNCHRONIZE =? SYNCHRONIZE) eqn:E; cbn [negb] in H.
      * destruct H as (-> & -> & _). set (s1 := set_objs _ s). apply wp_bind.
        assert (same_data (objs s) (objs s1)) as Hd1 by (by apply (same_data_insert _ o ob)).
        eapply wp_mono; [apply (IH (pin o x) s1 (n - 1)); [by apply full_ok_grab|done|done|by apply slack_grab|lia]|].
        intros r s2 (-> & Hf2 & Hd2 & Hk2 & Hsl2 & Ha2). apply wp_ret. rewrite (same_data_resolve_waits s s1) in * by done. split_and!; try done.
        -- apply (full_ok_equiv (x_refs (fst (resolve_waits s pr hs)) (pin o x))); [symmetry; apply x_refs_cons|done].
        -- by eapply same_data_trans.
        -- etransitivity; [|exact Hk2]. apply keeps_objs.
        -- eapply slack_weaken; [exact Hsl2|lia].
      * destruct H as (-> & Ho1 & _ & _ & Hk1). apply wp_ret. split_and!; try done.
        -- apply (full_ok_equiv x); [symmetry; apply x_refs_nil|]. by apply (full_ok_keeps x s).
        -- intros q. by rewrite Ho1.
        -- intros q obq Hq. rewrite Ho1 in Hq. eapply slack_weaken; [exact Hsl|lia|done].
    + destruct H as (-> & Ho1 & _ & _ & Hk1). apply wp_ret. split_and!; try done.
      * apply (full_ok_equiv x); [symmetry; apply x_refs_nil|]. by apply (full_ok_keeps x s).
      * intros q. by rewrite Ho1.
      * intros q obq Hq. rewrite Ho1 in Hq. eapply slack_weaken; [exact Hsl|lia|done].
Qed.

(** ** Dropping the references of the handles *)

Lemma release_objects_ok l : ∀ x s,
  sync_ok (x_refs l x) [] s → (∀ p, 0 <= x_handle x p <= x_ref x p) →
  wp (release_objects l) (λ _ s', sync_ok x [] s' ∧ same_env s s' ∧ shrinks (objs s) (objs s') ∧
    ∀ p ob ob', objs s !! p = Some ob → objs s' !! p = Some ob' → refcount ob' <= refcount ob) s.
Proof.
  induction l as [|o l IH]; intros x s Hs Hx; cbn [release_objects].
  - apply wp_ret. split_and!; try done; [by apply (sync_ok_equiv (x_refs [] x)); [apply x_refs_nil|]|apply shrinks_refl|].
    intros p ob ob' H H'. simplify_eq. lia.
  - assert (∀ p, 0 <= x_handle (pin o x) p <= x_ref (pin o x) p) as Hx'.
    { intros p. simpl. pose proof (occ_nonneg p [o]). specialize (Hx p). lia. }
    apply wp_bind. eapply wp_mono; [apply (IH (pin o x)); [|done]|].
    { apply (sync_ok_equiv (x_refs (o :: l) x)); [apply x_refs_cons|done]. }
    intros [] s1 (Hs1 & He1 & Hsh1 & Hr1). destruct (heap_ok_live _ _ o (sy_heap _ _ _ Hs1)) as [ob1 Ho1].
    { simpl. rewrite occ_self. specialize (Hx o). pose proof (wrefs_nonneg s1 o). pose proof (occ_nonneg o []). lia. }
    eapply wp_mono; [by apply (drop_ok x o ob1)|]. intros [] s2 (Hs2 & He2 & Hsh2 & Hr2). split_and!; [done|by eapply same_env_trans|by eapply shrinks_trans|].
    intros p ob ob2 Hp Hp2. destruct (Hsh2 p ob2 Hp2) as (obm & Hpm & _). specialize (Hr1 p ob obm Hp Hpm). specialize (Hr2 p obm ob2 Hpm Hp2). lia.
Qed.

(** ** Queueing the wait *)

(** The wait [select_on] queues; neither its address nor its cookie matters to the check. *)
Definition new_wait (id : positive) (op : select_opcode) (l : list oid) (flags when : Z) : thread_wait :=
  ThreadWait id l flags false op 0 0 when false 0.

(** Thread [t] is as [th], with a new wait in front of its waits. *)
Definition waits_on (t : tid) (th : thread) (op : select_opcode) (l : list oid) (flags when : Z) (s : server) : Prop :=
  ∃ th' id, threads s !! t = Some th' ∧ t_wait th' = new_wait id op l flags when :: t_wait th ∧
    th_error 0 (th_wait [] th') = th_error 0 (th_wait [] th).

Lemma fresh_wait s t th : threads s !! t = Some th → fresh (wait_ids s) ∉ w_id <$> t_wait th.
Proof.
  intros Ht (w & E & Hw)%list_elem_of_fmap. apply (is_fresh (wait_ids s)). rewrite E. unfold wait_ids. apply elem_of_list_to_set.
  apply list_elem_of_fmap. exists w. split; [done|]. apply list_elem_of_bind. exists (t, th). split; [done|]. by apply elem_of_map_to_list.
Qed.

Lemma pushed_npairs s t th w : threads s !! t = Some th → w_queues w = [] → npairs (pushed t th w s) = npairs s.
Proof.
  intros Ht Hq. unfold pushed, npairs. simpl. rewrite (msum_update _ _ t th) by done. cbn [t_wait th_wait].
  change ((w :: t_wait th) ≫= w_queues) with (w_queues w ++ (t_wait th ≫= w_queues)). rewrite Hq. simpl. lia.
Qed.

Lemma wait_on_ok x s t th op l flags when :
  sync_ok x [] s → slack s (npairs s + 2 * Z.of_nat (length l) + 2) → current s = Some t → threads s !! t = Some th →
  plain_op op = true → (∀ o, o ∈ l → is_Some (sync_at (objs s) o)) → (length l <= 64)%nat →
  (op = SELECT_WAIT_ALL → NoDup (sync_at (objs s) <$> l)) →
  wp (wait_on op l flags when) (λ r s', sync_ok x [] s' ∧ wait_room s' ∧ calm t s s' ∧ procs s' = procs s ∧ current s' = Some t ∧
    if r then forallb (waitable (objs s)) l = true ∧ same_data (objs s) (objs s') ∧
      (allocs s' = tail (allocs s) ∧ ¬ alloc_fails s) ∧ waits_on t th op l flags when s'
    else (∃ th', threads s' !! t = Some th' ∧ t_wait th' = t_wait th) ∧
      (forallb (waitable (objs s)) l = true →
       same_data (objs s) (objs s') ∧ last_error s' = STATUS_NO_MEMORY ∧ alloc_fails s)) s.
Proof.
  intros Hs Hsl Hc Ht Hop Hal Hlen Hnd. unfold wait_on.
  assert (Hany : ∀ s1, objs s1 = objs s → keeps s s1 → sync_ok x [] s1 ∧ calm t s s1 ∧ npairs s1 = npairs s ∧
    procs s1 = procs s ∧ current s1 = Some t ∧ slack s1 (npairs s + 2 * Z.of_nat (length l) + 2) ∧
    ∃ th1, threads s1 !! t = Some th1 ∧ t_wait th1 = t_wait th).
  { intros s1 Ho1 Hk1. pose proof (keeps_same_sync s s1 Ho1 Hk1) as Hsm.
    destruct (same_sync_l _ _ _ _ Hsm Ht) as (th1 & Ht1 & (Hw1 & _)). split_and!.
    - by apply (same_sync_ok x [] s).
    - by apply keeps_calm.
    - by apply npairs_stacks, same_sync_stacks.
    - apply Hk1.
    - rewrite <-Hc. apply Hk1.
    - intros q obq Hq. rewrite Ho1 in Hq. exact (Hsl q obq Hq).
    - by exists th1. }
  apply wp_bind, wp_mem_alloc_result; intros s1 Ho1 Hk1 He1 Hal1;
    destruct (Hany s1 Ho1 Hk1) as (Hs1 & Hcalm & Hnp & Hp1 & Hc1 & Hsl1 & th1 & Ht1 & Hw1); cbn [negb].
  2:{ apply wp_ret. split_and!; try done; [eapply slack_weaken; [exact Hsl1|lia]|by exists th1|].
      intros _. split; [|done]. intros q. by rewrite Ho1. }
  wp_steps. apply (wp_deref _ t); [done|]. apply wp_bind, (wp_get_thread _ th1); [done|]. unfold put_thread. wp_steps.
  set (w := new_wait (fresh (wait_ids s1)) op [] flags when). change (set_threads _ s1) with (pushed t th1 w s1).
  set (s2 := pushed t th1 w s1). assert (sync_ok x [] s2) as Hs2 by (apply push_ok; try done; by apply (fresh_wait s1 t)).
  assert (same_data (objs s) (objs s1)) as Hd1 by (intros q; by rewrite Ho1).
  change (queue_objects t l 0) with (queue_objects t l (Z.of_nat (length (w_queues w)))). eapply wp_mono.
  - apply (queue_objects_ok x t l s2 (th_wait (w :: t_wait th1) th1) w (t_wait th1)); try done.
    + unfold s2. rewrite pushed_npairs, Hnp by done. exact Hsl1.
    + apply lookup_insert_eq.
    + intros o Hin. simpl. rewrite Ho1. auto.
    + intros E. simpl. rewrite Ho1. auto.
  - intros r s3 (A & B & C & E & F & G & K).
    assert (calm t s s3) as Hcalm3.
    { etransitivity; [exact Hcalm|]. etransitivity; [|exact C]. apply same_data_calm; try done. intros t' Hne. simpl. by rewrite lookup_insert_ne. }
    assert (procs s3 = procs s ∧ current s3 = Some t) as [Hp3 Hc3] by (split; [rewrite E; done|rewrite F; done]).
    destruct r; cbn [negb].
    + destruct K as (K1 & Ka & K2). apply wp_bind. eapply wp_get_thread; [exact K2|]. apply wp_ret. cbn [t_wait th_wait]. split_and!; try done.
      * rewrite G. symmetry. by apply same_data_waitables.
      * eapply same_data_trans; [exact Hd1|exact K1].
      * rewrite <-He1. exact Ka.
      * eexists _, (fresh (wait_ids s1)). split; [exact K2|]. rewrite <-Hw1. split; [done|].
        destruct (keeps_thread_check s s1 t th1 Hk1 Ht1) as (th0 & Ht0 & E0). rewrite Ht in Ht0. injection Ht0 as <-. exact (f_equal (th_wait []) E0).
    + apply wp_ret. split_and!; try done.
      * destruct K as (th' & ? & ?). exists th'. split; [done|congruence].
      * intros Hall. exfalso. rewrite (same_data_waitables (objs s)) in G by done. congruence.
Qed.

(** ** The end of [select_on] *)

(** What [select_on] does with the wait it has queued. *)
Definition select_finish (cookie : Z) : M Z :=
  s <- get;
  t <- deref (current s);
  r <- check_wait_now t;
  if negb (r =? -1) then e <- end_wait t r; set_error e ;; ret 1
  else
    th <- get_thread t;
    w <- deref (top_wait th);
    user <- (if negb (w_when w =? TIMEOUT_INFINITE) then ok <- mem_alloc; ret (Some ok : option bool)
             else ret None);
    match user with
    | Some false => err <- get_error; end_wait t err ;; ret 1
    | _ =>
        set_top_wait t (ThreadWait (w_id w) (w_queues w) (w_flags w) (w_abandoned w) (w_select w) (w_key w)
          cookie (w_when w) (match user with Some _ => true | None => w_user w end) (w_status w)) ;;
        set_error STATUS_PENDING ;; ret 0
    end.

Lemma select_on_eq op cookie flags when s :
  select_on op cookie flags when s = (ok <- select_start op flags when; if negb ok then ret 1 else select_finish cookie) s.
Proof. done. Qed.

Lemma wp_run_eq {A} (m m' : M A) (Q : A → server → Prop) s : m s = m' s → wp m' Q s → wp m Q s.
Proof. intros E. unfold wp. by rewrite E. Qed.

Lemma wp_get_error (Q : Z → server → Prop) s : Q (last_error s) s → wp get_error Q s.
Proof. done. Qed.

Lemma ended_error t th w next l s s' : threads s !! t = Some th → ended t th w next l s s' → last_error s' = last_error s.
Proof.
  intros Ht [[ms A] B (_ & _ & Hc & Hg & _) _ _]. unfold last_error, get_error, gets. rewrite Hc, Hg.
  destruct (current s) as [c|]; [|done]. destruct (decide (c = t)) as [->|Hne]; [by rewrite A, Ht|by rewrite B].
Qed.

(** Two waits the check cannot tell apart. *)
Lemma verdict_same_wait rd s th pr w w' : w_flags w' = w_flags w → w_queues w' = w_queues w → w_select w' = w_select w →
  w_when w' = w_when w → verdict_with rd s th pr w' = verdict_with rd s th pr w.
Proof. intros Hf Hq Hs Hw. unfold verdict_with, scan, late. by rewrite Hf, Hq, Hs, Hw. Qed.

(** Objects that survive keep their data. *)
Definition data_from (h h' : gmap oid object) : Prop := ∀ p ob', h' !! p = Some ob' → ∃ ob, h !! p = Some ob ∧ data ob' = data ob.

(** The wait of a thread that has to wait: [w] with the cookie, and the timeout
    running when it is finite. *)
Definition started (cookie : Z) (w : thread_wait) : thread_wait :=
  ThreadWait (w_id w) (w_queues w) (w_flags w) (w_abandoned w) (w_select w) (w_key w) cookie (w_when w)
    (negb (w_when w =? TIMEOUT_INFINITE) || w_user w) (w_status w).

(** The thread is left waiting on [w], and no object has changed since [s]. *)
Definition left_waiting (t : tid) (w : thread_wait) (next : list thread_wait) (cookie : Z) (s s' : server) : Prop :=
  blocked s' t ∧ last_error s' = STATUS_PENDING ∧
  (∃ th, threads s' !! t = Some th ∧ t_wait th = started cookie w :: next) ∧
  data_from (objs s) (objs s').

(** The wait is over: the thread is back where it was, with the objects it acquired. *)
Definition wait_over (t : tid) (next : list thread_wait) (acquired : list oid) (s s' : server) : Prop :=
  (∃ th', threads s' !! t = Some th' ∧ t_wait th' = next) ∧
  ∀ so sob', objs s' !! so = Some sob' → ∃ sob, objs s !! so = Some sob ∧
    data sob' = (if decide (so ∈ acquired) then acquired_data t (data sob) else data sob).

Lemma pend_ok x s s1 t th pr w next cookie user :
  sync_ok x [] s → wait_room s → threads s !! t = Some th → t_wait th = w :: next → procs s !! t_process th = Some pr →
  verdict s t th pr w = -1 → objs s1 = objs s → keeps s s1 →
  user = negb (w_when w =? TIMEOUT_INFINITE) || w_user w →
  wp (set_top_wait t (ThreadWait (w_id w) (w_queues w) (w_flags w) (w_abandoned w) (w_select w) (w_key w) cookie (w_when w) user (w_status w)) ;;
      set_error STATUS_PENDING ;; ret 0)
    (λ r s', sync_ok x [] s' ∧ wait_room s' ∧ calm t s s' ∧ r = 0 ∧ left_waiting t w next cookie s s') s1.
Proof.
  intros Hs Hr Ht Hw Hpr Hv Ho1 Hk1 ->. fold (started cookie w). set (w' := started cookie w).
  pose proof (keeps_same_sync s s1 Ho1 Hk1) as Hsm. pose proof (same_sync_ok x [] s s1 Hs Hsm) as Hs1.
  pose proof (same_sync_room s s1 Hsm Hr) as Hr1. destruct (same_sync_l _ _ _ _ Hsm Ht) as (th1 & Ht1 & (Hw1 & _ & Hp1)). rewrite Hw in Hw1.
  destruct (keeps_thread_check s s1 t th1 Hk1 Ht1) as (th0 & Ht0 & E0). rewrite Ht in Ht0. injection Ht0 as <-.
  unfold set_top_wait. apply wp_bind, wp_bind, (wp_get_thread _ th1); [done|]. unfold put_thread. apply wp_modify. rewrite Hw1. cbn [tail].
  set (s2 := set_threads _ s1). assert (sync_ok x [] s2) as Hs2 by by apply (retop_ok x s1 t th1 w).
  assert (npairs s2 = npairs s1) as Hnp.
  { unfold s2, npairs. simpl. rewrite (msum_update _ _ t th1) by done. cbn [t_wait th_wait]. rewrite Hw1.
    change ((w' :: next) ≫= w_queues) with (w_queues w ++ (next ≫= w_queues)).
    change ((w :: next) ≫= w_queues) with (w_queues w ++ (next ≫= w_queues)). lia. }
  assert (wait_room s2) as Hr2 by (unfold wait_room; rewrite Hnp; exact Hr1).
  assert (threads s2 !! t = Some (th_wait (w' :: next) th1)) as Ht2 by apply lookup_insert_eq.
  assert (blocked s2 t) as Hb2.
  { intros th2 w2 next2 pr2 Ht2' Hw2 Hpr2. rewrite Ht2 in Ht2'. injection Ht2' as <-. cbn [t_wait th_wait] in Hw2. injection Hw2 as <- <-.
    assert (pr2 = pr) as ->. { cbn [t_process th_wait] in Hpr2. rewrite Hp1 in Hpr2. simpl in Hpr2. rewrite (kp_procs _ _ Hk1) in Hpr2. congruence. }
    rewrite <-Hv. rewrite (verdict_same_wait _ _ _ _ w w') by done.
    assert (∀ rd, verdict_with rd s2 (th_wait (w' :: next) th1) pr w = verdict_with rd s2 th1 pr w) as -> by done.
    rewrite (same_check_verdict _ _ th th1) by by apply error_fields. unfold verdict_with, late.
    destruct (kp_rest _ _ Hk1) as (_ & Hc & Hm & _). simpl. rewrite Hc, Hm.
    assert (scan (object_ready s2 t) w = scan (object_ready s t) w) as ->; [|done].
    unfold scan. assert (∀ p, object_ready s2 t p = object_ready s t p) as E by (intros p; apply same_data_ready; intros q; simpl; by rewrite Ho1).
    assert (∀ l i, first_ready (object_ready s2 t) l i = first_ready (object_ready s t) l i) as E2.
    { induction l as [|q l IH]; intros i; [done|]. cbn [first_ready]. by rewrite E, IH. }
    assert (∀ l, forallb (object_ready s2 t) l = forallb (object_ready s t) l) as E3.
    { induction l as [|q l IH]; [done|]. cbn [forallb]. by rewrite E, IH. }
    destruct (w_select w); rewrite ?E2, ?E3; done. }
  apply wp_bind, wp_set_error. intros s3 Ho3 Hk3 He3. apply wp_ret. pose proof (keeps_same_sync s2 s3 Ho3 Hk3) as Hsm3.
  split_and!; try done.
  - by apply (same_sync_ok x [] s2).
  - by apply (same_sync_room s2).
  - etransitivity; [by apply (keeps_calm t s s1)|]. etransitivity; [|by apply (keeps_calm t s2 s3)].
    apply same_data_calm; try done. intros t' Hne. simpl. by rewrite lookup_insert_ne.
  - split_and!; [|done|..].
    + revert Hb2. apply blocked_checks.
      * split_and!; try apply Hk3. intros t0 th0 Hth0. destruct (keeps_thread_check s2 s3 t0 th0 Hk3 Hth0) as (th4 & ? & E). exists th4.
        split; [done|]. by apply error_fields.
      * intros th4 w4 p _ _ _. rewrite (same_data_ready s2 s3) by (intros q; by rewrite Ho3). done.
    + destruct (same_sync_l _ _ _ _ Hsm3 Ht2) as (th3 & Ht3 & (Hw3 & _)). exists th3. done.
    + intros q obq Hq. rewrite Ho3 in Hq. simpl in Hq. rewrite Ho1 in Hq. eauto.
Qed.

(** The timeout of a wait needs memory, and there is none. *)
Definition no_timer (s : server) (w : thread_wait) : Prop := w_when w ≠ TIMEOUT_INFINITE ∧ alloc_fails s.

Lemma select_finish_ok x s t th pr w next cookie :
  sync_ok x [] s → wait_room s → current s = Some t → threads s !! t = Some th → t_wait th = w :: next → procs s !! t_process th = Some pr →
  wp (select_finish cookie) (λ r s', sync_ok x [] s' ∧ wait_room s' ∧ calm t s s' ∧
    if verdict s t th pr w =? -1 then
      r = 0 ∧ ¬ no_timer s w ∧ left_waiting t w next cookie s s' ∨
      r = 1 ∧ no_timer s w ∧ last_error s' = STATUS_NO_MEMORY ∧ wait_over t next [] s s'
    else r = 1 ∧ last_error s' = wait_status s w (verdict s t th pr w) ∧
      wait_over t next (wait_acquires (objs s) w (verdict s t th pr w)) s s') s.
Proof.
  intros Hs Hr Hc Ht Hw Hpr. pose proof (npairs_nonneg s). unfold select_finish. wp_steps. apply (wp_deref _ t); [done|].
  unfold check_wait_now. wp_steps. eapply (wp_check_wait _ x s t th w next Hs); try done; [eapply slack_weaken; [exact Hr|lia]|].
  destruct (Z.eqb_spec (verdict s t th pr w) (-1)) as [Hv|Hv]; cbn [negb].
  - rewrite (blocked_thread s t th w pr Hv).
    replace (set_threads (<[t:=th]>) s) with s by (destruct s; unfold set_threads; simpl in *; by rewrite insert_id).
    apply wp_bind, (wp_get_thread _ th); [done|]. apply wp_bind, (wp_deref _ w); [unfold top_wait; by rewrite Hw|].
    destruct (Z.eqb_spec (w_when w) TIMEOUT_INFINITE) as [Hinf|Hfin]; cbn [negb].
    { apply wp_bind, wp_ret. eapply wp_mono.
      { apply (pend_ok x s s t th pr w next cookie); try done. rewrite Hinf. done. }
      intros r s' (?&?&?&?&?). split_and!; try done. left. split_and!; try done. by intros [? _]. }
    apply wp_bind, wp_bind, wp_mem_alloc_result; intros s1 Ho1 Hk1 He1 Hal; apply wp_ret.
    { eapply wp_mono.
      { apply (pend_ok x s s1 t th pr w next cookie); try done. by rewrite (proj2 (Z.eqb_neq _ _) Hfin). }
      intros r s' (?&?&?&?&?). split_and!; try done. left. split_and!; try done. by intros [_ ?]. }
    pose proof (keeps_same_sync s s1 Ho1 Hk1) as Hsm. pose proof (same_sync_ok x [] s s1 Hs Hsm) as Hs1. pose proof (same_sync_room s s1 Hsm Hr) as Hr1.
    destruct (same_sync_l _ _ _ _ Hsm Ht) as (th1 & Ht1 & (Hw1 & _)). rewrite Hw in Hw1.
    destruct (wk_wait _ _ (sy_waits _ _ _ Hs1) t th1 w Ht1) as (_ & Hlen & _); [rewrite Hw1; by left|].
    apply wp_bind, wp_get_error. rewrite He1. apply wp_bind. assert (wait_acquires (objs s1) w STATUS_NO_MEMORY = []) as Eacq.
    { unfold wait_acquires. rewrite (proj2 (Z.ltb_ge _ _)); [done|]. unfold STATUS_NO_MEMORY. lia. }
    eapply wp_mono; [apply (end_wait_ok x s1 t th1 w next _ Hs1 Hr1 Ht1 Hw1); unfold status_ok, STATUS_NO_MEMORY; lia|].
    intros r s2 (_ & Hs2 & Hr2 & Hen). apply wp_ret. rewrite Eacq in Hen. split_and!; try done.
    + etransitivity; [by apply (keeps_calm t s s1)|]. apply spares_calm. exact (ended_spares x _ _ _ _ _ _ _ Hs1 Hs2 Hen).
    + right. split_and!; [done|done|by rewrite (ended_error _ _ _ _ _ _ _ Ht1 Hen)|]. split.
      * destruct (en_thread _ _ _ _ _ _ _ Hen) as [ms A]. eexists. split; [exact A|done].
      * intros so sob' Hso'. destruct (en_objs _ _ _ _ _ _ _ Hen so sob' Hso') as (sob & Hso & Hd & _). rewrite Ho1 in Hso. eauto.
  - set (th1 := checked_thread th w). set (s1 := set_threads (<[t:=th1]>) s).
    assert (Hsm : same_sync s s1) by (apply (same_sync_put s s1 t th th1); try done; apply same_fields_checked).
    pose proof (same_sync_ok x [] s s1 Hs Hsm) as Hs1. pose proof (same_sync_room s s1 Hsm Hr) as Hr1.
    assert (threads s1 !! t = Some th1) as Ht1 by apply lookup_insert_eq.
    assert (t_wait th1 = w :: next) as Hw1 by (rewrite <-Hw; apply same_fields_checked).
    assert (status_ok s1 t w (verdict s t th pr w)) as Hst by exact (verdict_ok x s t th w next Hs Ht Hw pr Hv).
    apply wp_bind. eapply wp_mono; [apply (end_wait_ok x s1 t th1 w next _ Hs1 Hr1 Ht1 Hw1 Hst)|].
    intros r s2 (-> & Hs2 & Hr2 & Hen). apply wp_bind, wp_set_error. intros s3 Ho3 Hk3 He3. apply wp_ret.
    pose proof (keeps_same_sync s2 s3 Ho3 Hk3) as Hsm3. split_and!; try done.
    + by apply (same_sync_ok x [] s2).
    + by apply (same_sync_room s2).
    + etransitivity; [|by apply (keeps_calm t s2 s3)]. etransitivity; [|apply spares_calm; exact (ended_spares x _ _ _ _ _ _ _ Hs1 Hs2 Hen)].
      apply same_data_calm; try done. intros t' Hne. simpl. by rewrite lookup_insert_ne.
    + split; [destruct (en_thread _ _ _ _ _ _ _ Hen) as [ms A]; destruct (same_sync_l _ _ _ _ Hsm3 A) as (th3 & Ht3 & (Hw3 & _)); by exists th3|].
      intros so sob' Hso'. rewrite Ho3 in Hso'. destruct (en_objs _ _ _ _ _ _ _ Hen so sob' Hso') as (sob & Hso & Hd & _). eauto.
Qed.

(** ** The request on handles *)

(** Two stores agree on the sync objects of [l]. *)
Definition agree_on (l : list oid) (h h' : gmap oid object) : Prop :=
  ∀ o, o ∈ l → ∃ so sob sob', sync_at h o = Some so ∧ sync_at h' o = Some so ∧ h !! so = Some sob ∧ h' !! so = Some sob' ∧ data sob' = data sob.

Lemma agree_ready l s s' t o : agree_on l (objs s) (objs s') → o ∈ l → object_ready s' t o = object_ready s t o.
Proof.
  intros H Ho. destruct (H o Ho) as (so & sob & sob' & A & B & C & E & F).
  by rewrite (object_ready_sync s t o so sob), (object_ready_sync s' t o so sob'), F.
Qed.

Lemma agree_scan s s' t w : agree_on (w_queues w) (objs s) (objs s') → scan (object_ready s' t) w = scan (object_ready s t) w.
Proof.
  intros H. assert (∀ o, o ∈ w_queues w → object_ready s' t o = object_ready s t o) as E by (intros; by eapply agree_ready).
  unfold scan. assert (∀ i, first_ready (object_ready s' t) (w_queues w) i = first_ready (object_ready s t) (w_queues w) i) as E2.
  { clear H. induction (w_queues w) as [|q l IH]; intros i; [done|]. simpl. rewrite E by (by left). rewrite IH; [done|]. intros; apply E; by right. }
  assert (forallb (object_ready s' t) (w_queues w) = forallb (object_ready s t) (w_queues w)) as E3.
  { clear H E2. induction (w_queues w) as [|q l IH]; [done|]. simpl. rewrite E by (by left). rewrite IH; [done|]. intros; apply E; by right. }
  destruct (w_select w); rewrite ?E2, ?E3; done.
Qed.

Lemma agree_acquires h h' w st : agree_on (w_queues w) h h' → wait_acquires h' w st = wait_acquires h w st.
Proof.
  intros H. assert (∀ o, o ∈ w_queues w → sync_at h' o = sync_at h o) as E by (intros o Ho; destruct (H o Ho) as (? & ? & ? & -> & -> & _); done).
  unfold wait_acquires. assert (omap (sync_at h') (w_queues w) = omap (sync_at h) (w_queues w)) as E2.
  { clear H. induction (w_queues w) as [|q l IH]; [done|].
    change (match sync_at h' q with Some b => b :: omap (sync_at h') l | None => omap (sync_at h') l end =
            match sync_at h q with Some b => b :: omap (sync_at h) l | None => omap (sync_at h) l end).
    rewrite E by (by left). rewrite IH; [done|]. intros; apply E; by right. }
  assert (w_queues w !! Z.to_nat st ≫= sync_at h' = w_queues w !! Z.to_nat st ≫= sync_at h) as E3.
  { destruct (w_queues w !! Z.to_nat st) as [o|] eqn:Ho; [|done]. simpl. apply E. by eapply list_elem_of_lookup_2. }
  by rewrite E2, E3.
Qed.

Lemma acquires_elem h w st so : so ∈ wait_acquires h w st → ∃ o, o ∈ w_queues w ∧ sync_at h o = Some so.
Proof.
  unfold wait_acquires. destruct (st <? _); [|by intros ?%not_elem_of_nil].
  assert (so ∈ option_list (w_queues w !! Z.to_nat st ≫= sync_at h) → ∃ o, o ∈ w_queues w ∧ sync_at h o = Some so) as Hone.
  { destruct (w_queues w !! Z.to_nat st) as [o|] eqn:Ho; simpl; [|by intros ?%not_elem_of_nil].
    destruct (sync_at h o) eqn:E; simpl; [|by intros ?%not_elem_of_nil]. intros ->%list_elem_of_singleton. exists o. split; [|done].
    by eapply list_elem_of_lookup_2. }
  destruct (w_select w); try done. intros (o & ? & ?)%list_elem_of_omap. eauto.
Qed.

Lemma agree_status s s' w st : agree_on (w_queues w) (objs s) (objs s') → wait_status s' w st = wait_status s w st.
Proof.
  intros H. unfold wait_status. rewrite (agree_acquires (objs s)) by done. replace (any_abandoned (objs s') _) with (any_abandoned (objs s) (wait_acquires (objs s) w st)); [done|].
  assert (∀ so, so ∈ wait_acquires (objs s) w st → ∃ sob sob', objs s !! so = Some sob ∧ objs s' !! so = Some sob' ∧ data sob' = data sob) as E.
  { intros so Hin. destruct (acquires_elem _ _ _ _ Hin) as (o & Ho & Hsy). destruct (H o Ho) as (so' & sob & sob' & A & _ & B & C & F). simplify_eq. eauto. }
  clear H. unfold any_abandoned. induction (wait_acquires (objs s) w st) as [|so l IH]; [done|]. simpl.
  destruct (E so) as (sob & sob' & -> & -> & ->); [by left|]. f_equal. apply IH. intros; apply E; by right.
Qed.

Lemma wait_over_from t next acq s s1 s' : data_from (objs s) (objs s1) → wait_over t next acq s1 s' → wait_over t next acq s s'.
Proof.
  intros H [A B]. split; [done|]. intros so sob' Hso'. destruct (B so sob' Hso') as (sob1 & Hso1 & Hd1). destruct (H so sob1 Hso1) as (sob & ? & E).
  exists sob. split; [done|]. by rewrite <-E.
Qed.

Lemma wait_on_handles_ok x s t th pr op hs flags when l :
  full_ok x s → current s = Some t → threads s !! t = Some th → procs s !! t_process th = Some pr →
  Forall (λ h, is_magic h = false) hs → (length hs <= 64)%nat → resolve_waits s pr hs = (l, true) →
  (∀ o, o ∈ l → waitable (objs s) o = true) → plain_op op = true → (op = SELECT_WAIT_ALL → NoDup (sync_at (objs s) <$> l)) →
  slack s (npairs s + 3 * Z.of_nat (length hs) + 3) →
  wp (wait_on_handles op hs flags when) (λ r s', sync_ok x [] s' ∧ wait_room s' ∧ calm t s s' ∧ procs s' = procs s ∧ current s' = Some t ∧
    data_from (objs s) (objs s') ∧
    if r then waits_on t th op l flags when s' ∧ agree_on l (objs s) (objs s') ∧
      allocs s' = tail (allocs s) ∧ ¬ alloc_fails s
    else last_error s' = STATUS_NO_MEMORY ∧ alloc_fails s ∧ ∃ th', threads s' !! t = Some th' ∧ t_wait th' = t_wait th) s.
Proof.
  intros Hf Hc Ht Hpr Hm Hlen Hrw Hwt Hop Hnd Hsl. pose proof (npairs_nonneg s). unfold wait_on_handles, MAXIMUM_WAIT_OBJECTS.
  apply wp_bind, wp_assert; [apply Z.leb_le; lia|]. unfold current_process, get_current. wp_steps. rewrite Hc.
  apply (wp_deref _ th); [done|]. apply wp_ret, wp_bind. eapply wp_mono; [apply (get_objects_ok _ pr hs x s _ Hf Hpr Hm Hsl); lia|].
  intros r s1 (-> & Hf1 & Hd1 & Hk1 & Hsl1 & Ha1). rewrite Hrw in *. cbn [fst snd] in *. specialize (Ha1 eq_refl).
  assert (alloc_fails s1 ↔ alloc_fails s) as Haf by (unfold alloc_fails; by rewrite Ha1).
  assert (∃ th1, threads s1 !! t = Some th1 ∧ th_error 0 th1 = th_error 0 th) as (th1 & Ht1 & E1).
  { pose proof (kp_threads _ _ Hk1 t) as E. rewrite Ht in E. destruct (threads s1 !! t) as [th1|]; [|done]. exists th1. split; [done|].
    by apply (inj Some). }
  assert (t_wait th1 = t_wait th) as Hw1 by exact (f_equal t_wait E1).
  assert (same_stacks s s1) as Hst.
  { intros t'. pose proof (kp_threads _ _ Hk1 t') as E. destruct (threads s1 !! t'), (threads s !! t'); try done. simpl. f_equal.
    apply (inj Some) in E. exact (f_equal t_wait E). }
  assert (length l = length hs) as Hll.
  { clear -Hrw. revert l Hrw. induction hs as [|h hs IH]; intros l; cbn [resolve_waits]; [by intros [= <-]|].
    destruct (resolve s pr h) as [[[[? ?] o] a]|]; [|done]. destruct (_ =? _); [|done]. destruct (resolve_waits s pr hs) as [l' b]. simpl.
    intros [= <- ->]. simpl. f_equal. by apply IH. }
  apply wp_bind. eapply wp_mono.
  { apply (wait_on_ok (x_refs l x) s1 t th1 op l flags when); try done.
    - apply Hf1.
    - rewrite (npairs_stacks s s1), Hll by done. eapply slack_weaken; [exact Hsl1|lia].
    - rewrite <-Hc. apply Hk1.
    - intros o Ho. specialize (Hwt o Ho). rewrite (same_data_sync_at (objs s)) by done. unfold waitable in Hwt. by destruct (sync_at (objs s) o).
    - lia.
    - intros E. rewrite (list_fmap_ext _ (sync_at (objs s))); [auto|]. intros. by apply same_data_sync_at. }
  intros r s2 (Hs2 & Hr2 & Hcalm2 & Hp2 & Hc2 & K).
  assert (forallb (waitable (objs s1)) l = true) as Hall.
  { apply forallb_forall. intros o Ho%list_elem_of_In. rewrite (same_data_waitable (objs s)) by done. auto. }
  assert (same_data (objs s) (objs s2)) as Hd2.
  { eapply same_data_trans; [exact Hd1|]. destruct r; [by destruct K as (_ & ? & _)|]. by destruct K as [_ K]; destruct (K Hall). }
  apply wp_bind. eapply wp_mono; [apply (release_objects_ok l x s2 Hs2), Hf|].
  intros [] s3 (Hs3 & He3 & Hsh3 & Hrc3). apply wp_ret. assert (threads s3 = threads s2) as Hth3 by apply He3.
  assert (calm t s s3) as Hcalm.
  { apply (transitivity (y := s2)); [|split_and!; [apply He3..|intros t' _; by rewrite Hth3|]; intros t' _; by apply (blocked_shrinks x s2)]. etransitivity; [|exact Hcalm2].
    split_and!; [apply (kp_rest _ _ Hk1)..|intros t' _; apply (kp_threads _ _ Hk1)|]. intros t' _. apply blocked_checks.
    - split_and!; try apply Hk1. intros t0 th' Hth'. destruct (keeps_thread_check s s1 t0 th' Hk1 Hth') as (th2 & ? & E). exists th2. split; [done|].
      by apply error_fields.
    - intros th' w p _ _ _. by rewrite (same_data_ready s s1). }
  split_and!; try done.
  - by eapply room_shrinks.
  - transitivity (procs s2); [apply He3|]. transitivity (procs s1); [done|apply Hk1].
  - rewrite <-Hc2. apply He3.
  - intros p ob' Hp'. destruct (Hsh3 p ob' Hp') as (ob2 & Hob2 & E & _). destruct (same_data_r _ _ _ _ Hd2 Hob2) as (ob & ? & ?). exists ob. split; [done|congruence].
  - destruct r.
    + destruct K as (_ & _ & [Ha2 Hna] & th' & id & Hth' & Hw' & E'). split; [|split; [|split]].
      { exists th', id. rewrite Hth3, Hw', Hw1. split_and!; try done. rewrite E'. exact (f_equal (th_wait []) E1). }
      2:{ transitivity (allocs s2); [apply He3|]. by rewrite Ha2, Ha1. }
      2:{ by rewrite <-Haf. }
      intros o Ho. specialize (Hwt o Ho). unfold waitable in Hwt. destruct (sync_at (objs s) o) as [so|] eqn:Hsy; [|done]. simpl in Hwt.
      destruct (objs s !! so) as [sob|] eqn:Hso; [|done]. destruct (pending_wait s3 [] t th' (new_wait id op l flags when) o) as (e & Hpe & _);
        [by rewrite Hth3|rewrite Hw'; by left|done|]. destruct (wk_sync _ _ (sy_waits _ _ _ Hs3) e o Hpe) as (so3 & sob3 & Hsy3 & Hso3 & _).
      destruct (sync_at_cases _ _ _ Hsy3) as (ob3 & Ho3 & _). destruct (Hsh3 o ob3 Ho3) as (ob2 & Ho2 & Ed & _).
      assert (sync_at (objs s3) o = Some so) as Hsy'. { rewrite (sync_at_same _ _ _ ob2 ob3 Ho2 Ho3 Ed), (same_data_sync_at (objs s)); done. }
      rewrite Hsy' in Hsy3. injection Hsy3 as <-. destruct (Hsh3 so sob3 Hso3) as (sob2 & Hso2 & Ed2 & _).
      destruct (same_data_r _ _ _ _ Hd2 Hso2) as (sob0 & Hso0 & Ed0). exists so, sob, sob3. split_and!; try done. congruence.
    + destruct K as [(th' & Hth' & Hw') K]. destruct (K Hall) as (_ & Herr & Hal). split_and!; [|by apply Haf|exists th'; rewrite Hth3, Hw'; done].
      rewrite <-Herr. unfold last_error, get_error, gets. destruct He3 as (_ & _ & _ & Ec & Eg & _). by rewrite Ec, Eg, Hth3.
Qed.

Lemma verdict_idle rd s s' th th' pr w : current_time s' = current_time s → monotonic_time s' = monotonic_time s →
  th_error 0 (th_wait [] th') = th_error 0 (th_wait [] th) → verdict_with rd s' th' pr w = verdict_with rd s th pr w.
Proof.
  intros Hc Hm E. destruct th, th'. unfold th_error, th_wait in E. simpl in E. injection E as -> -> -> -> -> -> -> -> -> ->.
  unfold verdict_with, late. by rewrite Hc, Hm.
Qed.

(** The memory a select request needs is missing: for the wait itself, or for
    the timeout of a wait that has to go on. *)
Definition no_wait_memory (s : server) (pending : bool) (when : Z) : Prop :=
  alloc_fails s ∨ (pending = true ∧ when ≠ TIMEOUT_INFINITE ∧ head (tail (allocs s)) = Some false).

(** C9: a select request on at most 64 handles of the caller's table with
    SYNCHRONIZE access to waitable objects (for a wait on all, to distinct ones),
    when every object has room for the references of the wait.  The wait is
    checked against the state of the objects before the call.  If it can end, it
    acquires exactly its objects (all of them for a wait on all, the first ready
    one otherwise), the error is the index of the object, plus
    [STATUS_ABANDONED_WAIT_0] when an abandoned mutex is among them, and the data
    of no other object changes.  If it cannot, the data of no object changes, the
    error is [STATUS_PENDING], and the thread waits with exactly the objects,
    opcode, flags, timeout and cookie of the request, its timeout running unless
    it is infinite.  Exactly when one of the allocations this needs fails, nothing
    is acquired, the thread is back where it was and the error is
    [STATUS_NO_MEMORY].  The clock stands still, no other thread changes but for
    its error code, and none that had to wait can go on. *)
Theorem select_wait_spec x s t th pr (all : bool) hs cookie flags when l :
  full_ok x s → current s = Some t → threads s !! t = Some th → procs s !! t_process th = Some pr →
  Forall (λ h, is_magic h = false) hs → (length hs <= 64)%nat → resolve_waits s pr hs = (l, true) →
  (∀ o, o ∈ l → waitable (objs s) o = true) → (all = true → NoDup (sync_at (objs s) <$> l)) →
  slack s (npairs s + 3 * Z.of_nat (length hs) + 3) →
  let w id := new_wait id (if all then SELECT_WAIT_ALL else SELECT_WAIT) l flags when in
  let v := verdict s t th pr (w 1%positive) in
  wp (select_on (sel_wait all (Some hs)) cookie flags when) (λ r s', sync_ok x [] s' ∧ wait_room s' ∧ calm t s s' ∧
    (no_wait_memory s (v =? -1) when ∧ r = 1 ∧ last_error s' = STATUS_NO_MEMORY ∧ wait_over t (t_wait th) [] s s' ∨
     ¬ no_wait_memory s (v =? -1) when ∧
     if v =? -1 then r = 0 ∧ ∃ id, left_waiting t (w id) (t_wait th) cookie s s'
     else r = 1 ∧ last_error s' = wait_status s (w 1%positive) v ∧
          wait_over t (t_wait th) (wait_acquires (objs s) (w 1%positive) v) s s')) s.
Proof.
  intros Hf Hc Ht Hpr Hm Hlen Hrw Hwt Hnd Hsl w v. set (op := if all then SELECT_WAIT_ALL else SELECT_WAIT) in *.
  eapply wp_run_eq; [apply select_on_eq|].
  apply wp_bind. unfold select_start. rewrite (proj2 (Z.ltb_ge _ _)) by (unfold MAXIMUM_WAIT_OBJECTS; lia).
  change (opcode (sel_wait all (Some hs))) with op. eapply wp_mono.
  { apply (wait_on_handles_ok x s t th pr op hs flags when l); try done; [by destruct all|]. intros E. apply Hnd. by destruct all. }
  intros r s1 (Hs1 & Hr1 & Hcalm1 & Hp1 & Hc1 & Hd1 & K). destruct r; cbn [negb].
  2:{ apply wp_ret. destruct K as (Herr & Hal & Hth). split_and!; [done..|]. left. split_and!; [by left|done..|]. split; [done|exact Hd1]. }
  destruct K as [(th1 & id & Ht1 & Hw1 & E1) (Hag & Ha1 & Hal)]. assert (t_process th1 = t_process th) as Ep by exact (f_equal t_process E1).
  destruct Hcalm1 as (Hct & Hmt & Hbl). assert (Hcalm1 : calm t s s1) by done.
  assert (verdict s1 t th1 pr (w id) = v) as Ev.
  { unfold v. rewrite (verdict_idle _ s s1 th th1) by done. unfold verdict_with. change (late s th (w id)) with (late s th (w 1%positive)).
    assert (scan (object_ready s1 t) (w id) = scan (object_ready s t) (w 1%positive)) as -> by exact (agree_scan s s1 t (w 1%positive) Hag). done. }
  eapply wp_mono; [by apply (select_finish_ok x s1 t th1 pr (w id) (t_wait th) cookie); [..|rewrite Hp1, Ep]|].
  rewrite Ev. intros r s2 (Hs2 & Hr2 & Hcalm2 & K). split_and!; [done|done|by transitivity s1|].
  assert (no_wait_memory s (v =? -1) when ↔ (v =? -1) = true ∧ no_timer s1 (w id)) as Hmem.
  { unfold no_wait_memory, no_timer. unfold alloc_fails at 2. rewrite Ha1. simpl. naive_solver. }
  destruct (v =? -1).
  - destruct K as [(-> & Hno & Hlw)|(-> & Hno & Herr & Hov)]; [right|left].
    + split; [by intros [_ ?]%Hmem|]. split; [done|]. exists id. destruct Hlw as (A & B & C & E). split_and!; try done.
      intros q ob' Hq. destruct (E q ob' Hq) as (ob1 & Hob1 & Ed). destruct (Hd1 q ob1 Hob1) as (ob & ? & ?). exists ob. split; [done|congruence].
    + split_and!; [by apply Hmem|done..|]. by apply (wait_over_from t _ _ s s1).
  - right. destruct K as (-> & Herr & Hov). split_and!; [by intros [? _]%Hmem|done| |].
    + rewrite Herr. exact (agree_status s s1 (w 1%positive) v Hag).
    + apply (wait_over_from t _ _ s s1); [done|]. rewrite <-(agree_acquires (objs s) (objs s1) (w 1%positive) v Hag). exact Hov.
Qed.
