(* ===== verification/SyncDemo.v ===== *)
(** * Concrete servers with waiting threads

    An executable check of [sync_ok] on closed states, with its soundness proof,
    and the servers on which the theorems on waits are exercised. *)

From stdpp Require Import base list gmap fin_maps.
From S2P Require Import Prelude Access Object ObjectInv Handle HandleInv HandleThms Demo Wait Sync SyncInv SyncSteps SyncWake SyncThms SyncOps SyncSelect SelectThms.

Open Scope Z_scope.
Open Scope server_scope.

(** ** Checking the invariant *)

Definition all_pairs (s : server) : list (wait_queue_entry * oid) :=
  map_to_list (threads s) ≫= λ p, thread_pairs (fst p) (snd p).
Definition all_refs (s : server) : list oid := map_to_list (threads s) ≫= λ p, thread_refs (snd p).

Lemma threads_in s t th : threads s !! t = Some th → (t, th) ∈ map_to_list (threads s).
Proof. by rewrite elem_of_map_to_list. Qed.

Lemma occ_all_refs s o : occ o (all_refs s) = wrefs s o.
Proof.
  unfold all_refs, wrefs, msum. rewrite map_fold_foldr. generalize (map_to_list (threads s)) as l.
  induction l as [|[t th] l IH]; [done|].
  change (occ o (thread_refs th ++ (l ≫= λ p, thread_refs (snd p))) =
    occ o (thread_refs th) + foldr (uncurry (λ _ v acc, occ o (thread_refs v) + acc)) 0 l). rewrite occ_app. lia.
Qed.

Lemma pending_all s e o : pending s [] e o ↔ (e, o) ∈ all_pairs s.
Proof.
  unfold all_pairs. rewrite list_elem_of_bind. split.
  - intros [(th & Ht & Hin)|Hin]; [|by apply not_elem_of_nil in Hin]. exists (wq_thread e, th). split; [done|by apply threads_in].
  - intros ([t th] & Hin & Ht). apply elem_of_map_to_list in Ht. simpl in *. left. exists th.
    destruct (thread_pairs_inv _ _ _ _ Hin) as [-> _]. done.
Qed.

Definition opt_check {A} (f : A → bool) (o : option A) : bool := match o with Some a => f a | None => false end.
Definition wait_okb (h : gmap oid object) (w : thread_wait) : bool :=
  plain_op (w_select w) && (length (w_queues w) <=? 64)%nat &&
  (negb (bool_decide (w_select w = SELECT_WAIT_ALL)) || bool_decide (NoDup (sync_at h <$> w_queues w))).
Definition sync_data_okb (s : server) (so : oid) (d : obj_data) : bool :=
  match d with
  | mutex_sync_data owner count _ =>
      match owner with
      | None => count =? 0
      | Some t => (0 <? count) && opt_check (λ th, bool_decide (so ∈ t_mutex_list th)) (threads s !! t)
      end
  | semaphore_sync_data count max => (0 <=? count) && (count <=? max) && (max <? 4294967296)
  | _ => true
  end.

Definition queue_okb (s : server) (so : oid) (sob : object) : bool :=
  forallb (λ e, existsb (λ p, bool_decide (fst p = e) && bool_decide (sync_at (objs s) (snd p) = Some so)) (all_pairs s)) (wait_queue sob) &&
  bool_decide (NoDup (wait_queue sob)) && sync_data_okb s so (data sob).
Definition pair_okb (s : server) (p : wait_queue_entry * oid) : bool :=
  opt_check (λ so, opt_check (λ sob, has_add_queue sob && bool_decide (fst p ∈ wait_queue sob)) (objs s !! so)) (sync_at (objs s) (snd p)).
Definition thread_okb (s : server) (t : tid) (th : thread) : bool :=
  forallb (wait_okb (objs s)) (t_wait th) &&
  forallb (λ so, opt_check (λ sob, match data sob with mutex_sync_data ow _ _ => bool_decide (ow = Some t) | _ => false end) (objs s !! so)) (t_mutex_list th) &&
  bool_decide (NoDup (t_mutex_list th)) && bool_decide (is_Some (procs s !! t_process th)) && bool_decide (NoDup (w_id <$> t_wait th)).

Definition waits_okb (s : server) : bool :=
  forallb (λ p, queue_okb s (fst p) (snd p)) (map_to_list (objs s)) && forallb (pair_okb s) (all_pairs s) &&
  forallb (λ p, thread_okb s (fst p) (snd p)) (map_to_list (threads s)).

Lemma opt_check_true {A} (f : A → bool) o : opt_check f o = true → ∃ a, o = Some a ∧ f a = true.
Proof. destruct o; simpl; eauto. done. Qed.

Lemma forallb_elem {A} (f : A → bool) l a : forallb f l = true → a ∈ l → f a = true.
Proof. rewrite forallb_forall. intros H Hin. by apply H, list_elem_of_In. Qed.

Lemma waits_okb_sound s : waits_okb s = true → waits_ok [] s.
Proof.
  unfold waits_okb. rewrite !andb_true_iff. intros [[Hobj Hpair] Hth].
  assert (Ho : ∀ so sob, objs s !! so = Some sob → queue_okb s so sob = true).
  { intros so sob H. apply (forallb_elem _ _ (so, sob) Hobj). by apply elem_of_map_to_list. }
  assert (Ht : ∀ t th, threads s !! t = Some th → thread_okb s t th = true).
  { intros t th H. apply (forallb_elem _ _ (t, th) Hth). by apply elem_of_map_to_list. }
  assert (Hp : ∀ e o, pending s [] e o → ∃ so sob, sync_at (objs s) o = Some so ∧ objs s !! so = Some sob ∧ has_add_queue sob = true ∧ e ∈ wait_queue sob).
  { intros e o He. apply pending_all in He. pose proof (forallb_elem _ _ _ Hpair He) as H. apply opt_check_true in H as (so & ? & H).
    apply opt_check_true in H as (sob & ? & [? ?%bool_decide_eq_true]%andb_true_iff). exists so, sob. done. }
  unfold queue_okb in Ho. unfold thread_okb in Ht. split.
  - intros so sob e Hso He. specialize (Ho so sob Hso). rewrite !andb_true_iff in Ho. destruct Ho as [[Hq _] _].
    pose proof (forallb_elem _ _ _ Hq He) as H. apply existsb_exists in H as ([e' o] & Hin & [E1%bool_decide_eq_true E2%bool_decide_eq_true]%andb_true_iff).
    simpl in *. subst e'. exists o. split; [|done]. apply pending_all. by apply list_elem_of_In.
  - intros so sob Hso. specialize (Ho so sob Hso). rewrite !andb_true_iff in Ho. by apply (bool_decide_eq_true_1 _), Ho.
  - intros e o He. destruct (Hp e o He) as (so & sob & ? & ? & ? & _). eauto.
  - intros t th w Hth' Hw. specialize (Ht t th Hth'). rewrite !andb_true_iff in Ht. destruct Ht as [[[[Hwk _] _] _] _].
    pose proof (forallb_elem _ _ _ Hwk Hw) as H. unfold wait_okb in H. rewrite !andb_true_iff, orb_true_iff, negb_true_iff, Nat.leb_le in H.
    destruct H as [[A B] C]. split_and!; try done. intros E. destruct C as [C|C]; [by apply bool_decide_eq_false in C|by apply bool_decide_eq_true in C].
  - intros so sob Hso. specialize (Ho so sob Hso). rewrite !andb_true_iff in Ho. destruct Ho as [_ H]. unfold sync_data_okb in H.
    destruct (data sob) as [| | | |c m| |ow c ab| | | |]; simpl; try done; [lia|]. destruct ow as [t|]; [|lia].
    apply andb_true_iff in H as [? (th & ? & ?%bool_decide_eq_true)%opt_check_true]. split; [lia|]. eauto.
  - intros t th so Hth' Hin. specialize (Ht t th Hth'). rewrite !andb_true_iff in Ht. destruct Ht as [[[[_ Hm] _] _] _].
    pose proof (forallb_elem _ _ _ Hm Hin) as H. apply opt_check_true in H as (sob & Hso & H).
    destruct (data sob) as [| | | | | |ow c ab| | | |] eqn:Ed; try done. apply bool_decide_eq_true in H as ->. exists sob, c, ab. done.
  - intros t th Hth'. specialize (Ht t th Hth'). rewrite !andb_true_iff in Ht. by apply (bool_decide_eq_true_1 _), Ht.
  - intros t th Hth'. specialize (Ht t th Hth'). rewrite !andb_true_iff in Ht. by apply (bool_decide_eq_true_1 _), Ht.
  - intros t th e o so sob Hth' Hin Hsy Hso. destruct (Hp e o) as (so' & sob' & ? & ? & _ & ?); [by eapply thread_pairs_pending|].
    by simplify_eq.
  - intros t th Hth'. specialize (Ht t th Hth'). rewrite !andb_true_iff in Ht. by apply (bool_decide_eq_true_1 _), Ht.
  - by intros e o th w ?%not_elem_of_nil.
Qed.

(** The counters of the objects, when threads hold references. *)
Definition count_okb (l : list oid) (h : gmap oid object) (o : oid) (ob : object) : bool :=
  (refcount ob =? hrefs h o + occ o l) && (0 <? refcount ob) && (handle_count ob =? thandles h o) &&
  match data ob with handle_table_data t => table_okb t | _ => true end &&
  forallb (target_okb h ob) (data_targets (data ob)).
Definition counts_okb (l : list oid) (h : gmap oid object) : bool :=
  forallb (λ p, count_okb l h (fst p) (snd p)) (map_to_list h) && forallb (λ o, bool_decide (is_Some (h !! o))) l.

Definition sync_okb (l : list oid) (s : server) : bool := counts_okb (l ++ all_refs s) (objs s) && waits_okb s.

Lemma sync_okb_sound l s : sync_okb l s = true → sync_ok (x_list l) [] s.
Proof.
  unfold sync_okb, counts_okb. rewrite !andb_true_iff. intros [[Hc Hl] Hw%waits_okb_sound].
  assert (Hxr : ∀ o, x_ref (wx (x_list l) [] s) o = occ o (l ++ all_refs s)).
  { intros o. simpl. change (snd <$> []) with (@nil oid). rewrite occ_nil, occ_app, occ_all_refs. lia. }
  assert (Hok : ∀ o ob, objs s !! o = Some ob → count_okb (l ++ all_refs s) (objs s) o ob = true).
  { intros o ob Ho. apply (forallb_elem _ _ (o, ob) Hc). by apply elem_of_map_to_list. }
  assert (Htg : ∀ o ob p, objs s !! o = Some ob → p ∈ data_targets (data ob) → target_okb (objs s) ob p = true).
  { intros o ob p Ho Hin. specialize (Hok o ob Ho). unfold count_okb in Hok. rewrite !andb_true_iff in Hok. by eapply forallb_elem; [apply Hok|]. }
  split; [split| |].
  - intros o. simpl. pose proof (occ_nonneg o l). pose proof (wrefs_nonneg s o). change (snd <$> []) with (@nil oid). rewrite occ_nil. lia.
  - intros o ob Ho. pose proof (Hok o ob Ho) as H. unfold count_okb in H. rewrite !andb_true_iff, !Z.eqb_eq, Z.ltb_lt in H.
    destruct H as [[[[A B] C] E] F]. split.
    + by rewrite Hxr.
    + done.
    + simpl. lia.
    + destruct (data ob); try done. by apply table_okb_sound.
    + intros p Hin. pose proof (Htg o ob p Ho Hin) as H. unfold target_okb in H. destruct (objs s !! p) as [obp|]; [|done].
      exists obp. split; [done|]. by apply Nat.ltb_lt.
    + intros Hq. by apply (waits_waited (x_list l) [] s o ob).
    + intros ow c ab Hd Hne. by eapply (waits_owned (x_list l) [] s).
  - intros o Ho. rewrite Hxr. assert (occ o (l ++ all_refs s) = 0) as ->.
    { pose proof (occ_nonneg o (l ++ all_refs s)). destruct (Z.ltb_spec 0 (occ o (l ++ all_refs s))) as [Hp%occ_elem|]; [|lia].
      pose proof (forallb_elem _ _ _ Hl Hp) as Hs. apply bool_decide_eq_true in Hs as [??]. congruence. }
    pose proof (hrefs_nonneg (objs s) o). destruct (Z.ltb_spec 0 (hrefs (objs s) o)) as [Hp|]; [|lia].
    apply msum_pos in Hp as (q & obq & Hq & Hin). apply occ_elem in Hin.
    specialize (Htg q obq o Hq Hin). unfold target_okb in Htg. by rewrite Ho in Htg.
  - done.
  - intros o. simpl. pose proof (occ_nonneg o l). lia.
Qed.

(** ** Checking that everybody has to wait *)

Definition blockedb (s : server) (t : tid) (th : thread) : bool :=
  match t_wait th with
  | [] => true
  | w :: _ => opt_check (λ pr, verdict s t th pr w =? -1) (procs s !! t_process th)
  end.
Definition quietb (s : server) : bool := forallb (λ p, blockedb s (fst p) (snd p)) (map_to_list (threads s)).

Lemma quietb_sound s : quietb s = true → quiet s.
Proof.
  intros H t th w next pr Ht Hw Hpr. assert (blockedb s t th = true) as Hb.
  { apply (forallb_elem _ _ (t, th) H). by apply elem_of_map_to_list. }
  unfold blockedb in Hb. rewrite Hw, Hpr in Hb. simpl in Hb. lia.
Qed.

Definition slackb (s : server) (n : Z) : bool :=
  forallb (λ p, (refcount (snd p) + n <=? INT_MAX) &&
    match data (snd p) with mutex_sync_data _ c _ => c + n <? 4294967296 | _ => true end) (map_to_list (objs s)).
Lemma slackb_sound s n : slackb s n = true → slack s n.
Proof.
  intros H o ob Ho. pose proof (forallb_elem _ _ (o, ob) H) as Hb. rewrite elem_of_map_to_list in Hb. specialize (Hb Ho). simpl in Hb.
  apply andb_true_iff in Hb as [?%Z.leb_le Hd]. split; [done|]. intros ow c ab E. rewrite E in Hd. lia.
Qed.

(** ** A server with waiting threads

    Objects: 1 is a process with the handle table 5 and the token 6; 2, 3 and 4
    are its threads; 10 is an auto-reset event with its sync object 11, 12 a
    semaphore with 13 and 14 a mutex with 15.  Thread 2 owns the mutex twice;
    thread 3 waits for the event, and thread 4 for the semaphore and the mutex. *)

Definition wd_wait (id : positive) (l : list oid) (op : select_opcode) (cookie : Z) : thread_wait :=
  ThreadWait id l 0 false op 0 cookie 9000 false 0.
Definition wd_thread (ws : list thread_wait) (ms : list oid) : thread :=
  Thread 1%positive None 0 RUNNING ws ms 0 None 0 false [] [].

Definition wd_entries : list handle_slot :=
  [Slot (Some 10%positive) 0x1f0003; Slot (Some 12%positive) 0x1f0003; Slot (Some 14%positive) 0x1f0001].

Definition wd_objs : gmap oid object := list_to_map [
  (1%positive, Object 1 0 false [] None (demo_opaque 1));
  (2%positive, Object 1 0 false [] None (demo_opaque 2));
  (3%positive, Object 1 0 false [] None (demo_opaque 2));
  (4%positive, Object 1 0 false [] None (demo_opaque 2));
  (5%positive, Object 1 0 false [] None (handle_table_data (demo_table (Some 1%positive) wd_entries)));
  (6%positive, Object 1 0 false [] None (token_data demo_token));
  (10%positive, Object 2 1 false [] None (event_data (Some 11%positive)));
  (11%positive, Object 1 0 false [WaitQueueEntry 3 1 0] None (event_sync_data false false));
  (12%positive, Object 2 1 false [] None (semaphore_data (Some 13%positive)));
  (13%positive, Object 1 0 false [WaitQueueEntry 4 2 0] None (semaphore_sync_data 0 10));
  (14%positive, Object 2 1 false [] None (mutex_data (Some 15%positive)));
  (15%positive, Object 2 0 false [WaitQueueEntry 4 2 1] None (mutex_sync_data (Some 2%positive) 2 false))].

Definition wd : server :=
  Server wd_objs
    (list_to_map [(2%positive, wd_thread [] [15%positive]);
                  (3%positive, wd_thread [wd_wait 1 [10%positive] SELECT_WAIT 7] []);
                  (4%positive, wd_thread [wd_wait 2 [12; 14]%positive SELECT_WAIT_ALL 8] [])])
    {[1%positive := Process 8 (Some 5%positive) (Some 6%positive) 0]}
    None (Some 2%positive) 0 (λ _, TypeCounts 4 4 4 4) (-1) 1000 1000 [] [].

Definition wd_refs : list oid := [1; 2; 3; 4; 5; 6]%positive.

Lemma wd_ok : sync_ok (x_list wd_refs) [] wd.
Proof. apply sync_okb_sound. vm_compute. reflexivity. Qed.
Lemma wd_quiet : quiet wd.
Proof. apply quietb_sound. vm_compute. reflexivity. Qed.
Lemma wd_room : wait_room wd.
Proof. apply slackb_sound. vm_compute. reflexivity. Qed.
Lemma wd_full : full_ok (x_list wd_refs) wd.
Proof.
  split; [|exact wd_ok]. apply (pins_okb_sound wd_refs); [|apply wd_ok|vm_compute; reflexivity].
  intros o Ho. simpl. pose proof (wrefs_nonneg wd o). change (snd <$> []) with (@nil oid). rewrite occ_nil. simpl in Ho. lia.
Qed.
