(* ===== verification/SyncMachine.v ===== *)
(** * The wait machine

    The timeout callback, and the requests on sync objects as the steps of a
    machine: every step that is enabled runs without a fault and keeps the
    invariant, and the steps at a fixed time keep the server [quiet].

    ** The requests on events, semaphores and mutexes

    A request resolves its handle, which takes a reference to the object, works on
    the sync object, and drops the reference.  The two ends are proved once, the
    requests with them. *)

From stdpp Require Import base list gmap fin_maps relations.
From S2P Require Import Prelude Access Object ObjectInv Handle HandleInv HandleThms Demo Wait.
From S2P Require Import Sync SyncInv SyncSteps SyncWake SyncThms SyncOps SyncSelect SelectThms SyncDemo.

Open Scope Z_scope.
Open Scope server_scope.

(** ** Ending a wait by its timeout *)

Definition clear_user (id : positive) (w : thread_wait) : thread_wait :=
  if bool_decide (w_id w = id)
  then ThreadWait (w_id w) (w_queues w) (w_flags w) (w_abandoned w) (w_select w) (w_key w) (w_cookie w) (w_when w) false (w_status w) else w.

Lemma clear_user_same id w : w_id (clear_user id w) = w_id w ∧ w_queues (clear_user id w) = w_queues w ∧
  w_select (clear_user id w) = w_select w ∧ w_cookie (clear_user id w) = w_cookie w.
Proof. unfold clear_user. by case_bool_decide. Qed.

Lemma clear_user_entries D s t th id : waits_ok D s → threads s !! t = Some th →
  same_entries (objs s) t th (th_wait (clear_user id <$> t_wait th) th).
Proof.
  intros Hw Ht. assert (∀ l, (clear_user id <$> l) ≫= wait_pairs t = l ≫= wait_pairs t) as Hp.
  { induction l as [|w l IH]; [done|]. change (wait_pairs t (clear_user id w) ++ ((clear_user id <$> l) ≫= wait_pairs t) = wait_pairs t w ++ (l ≫= wait_pairs t)).
    rewrite IH. f_equal. unfold wait_pairs. by destruct (clear_user_same id w) as (-> & -> & _). }
  split_and!; try done.
  - apply Hp.
  - cbn [t_wait th_wait]. rewrite <-list_fmap_compose. rewrite (list_fmap_ext _ w_id (t_wait th)); [by apply (wk_ids _ _ Hw t)|].
    intros i w _. apply clear_user_same.
  - intros w' (w & -> & Hin)%list_elem_of_fmap. destruct (wk_wait _ _ Hw t th w Ht Hin) as (A & B & C). unfold wait_ok.
    by destruct (clear_user_same id w) as (_ & -> & -> & _).
Qed.

Lemma npairs_entries s t th th' : threads s !! t = Some th → thread_pairs t th' = thread_pairs t th →
  npairs (set_threads (<[t:=th']>) s) = npairs s.
Proof.
  intros Ht E. unfold npairs. simpl. rewrite (msum_update _ _ t th) by done.
  assert (t_wait th' ≫= w_queues = t_wait th ≫= w_queues) as -> by (rewrite <-!(thread_pairs_snd t); by rewrite E). lia.
Qed.

Lemma clear_user_quiet s t th id : threads s !! t = Some th →
  quiet s → quiet (set_threads (<[t:=th_wait (clear_user id <$> t_wait th) th]>) s).
Proof.
  intros Ht Hq t' th' w' next' pr Ht' Hw' Hpr. simpl in *. destruct (decide (t' = t)) as [->|Hne].
  - rewrite lookup_insert_eq in Ht'. injection Ht' as <-. simpl in *. destruct (t_wait th) as [|w next] eqn:Hw; [done|].
    injection Hw' as <- <-. rewrite <-(Hq t th w next pr Ht Hw Hpr). change (th_wait _ th) with (th_wait (clear_user id <$> (w :: next)) th).
    rewrite (verdict_same_wait _ _ _ _ w) by (unfold clear_user; by case_bool_decide). done.
  - rewrite lookup_insert_ne in Ht' by done. exact (Hq t' th' w' next' pr Ht' Hw' Hpr).
Qed.

(** The callback of the timeout: the wait ends with [STATUS_TIMEOUT] when it is
    the current one of a thread that is not suspended. *)
Lemma thread_timeout_ok x s t th id w :
  sync_ok x [] s → wait_room s → threads s !! t = Some th → find_wait th id = Some w → w_cookie w ≠ 0 →
  wp (thread_timeout t id) (λ _ s', sync_ok x [] s' ∧ wait_room s' ∧ (quiet s → quiet s')) s.
Proof.
  intros Hs Hr Ht Hf Hck. unfold thread_timeout. apply wp_bind, (wp_get_thread _ th); [done|].
  apply wp_bind, (wp_deref _ w); [done|]. unfold put_thread. apply wp_bind, wp_modify. fold (clear_user id).
  set (th1 := th_wait _ th). set (s1 := set_threads _ s).
  pose proof (clear_user_entries [] s t th id (sy_waits _ _ _ Hs) Ht) as He.
  assert (sync_ok x [] s1) as Hs1 by by apply (sync_ok_put x s t th).
  assert (wait_room s1) as Hr1. { unfold wait_room, s1. rewrite (npairs_entries s t th) by (done || apply He). exact Hr. }
  assert (threads s1 !! t = Some th1) as Ht1 by apply lookup_insert_eq.
  assert (calm t s s1) as Hcalm1.
  { apply same_data_calm; try done. intros t' Hne. simpl. by rewrite lookup_insert_ne. }
  assert (quiet s → quiet s1) as Hq1 by by apply clear_user_quiet.
  destruct (negb _) eqn:Etop; [by apply wp_ret|].
  unfold thread_suspended. apply wp_bind, wp_bind, (wp_get_thread _ th1); [done|].
  destruct (wk_proc _ _ (sy_waits _ _ _ Hs1) t th1 Ht1) as [pr Hpr]. apply wp_bind, (wp_get_process _ pr); [done|]. apply wp_ret.
  destruct (is_thread_suspended th1 pr); [by apply wp_ret|].
  unfold top_wait in Etop. destruct (t_wait th) as [|w0 next] eqn:Hw; [done|]. simpl in Etop. apply negb_false_iff, bool_decide_eq_true in Etop.
  assert (w0 = w) as ->. { unfold find_wait in Hf. rewrite Hw in Hf. simpl in Hf. rewrite bool_decide_eq_true_2 in Hf by done. congruence. }
  assert (t_wait th1 = clear_user id w :: (clear_user id <$> next)) as Hw1 by done.
  destruct (wk_wait _ _ (sy_waits _ _ _ Hs1) t th1 (clear_user id w) Ht1) as (_ & Hlen & _); [rewrite Hw1; by left|].
  apply wp_bind. eapply wp_mono; [apply (end_wait_ok x s1 t th1 _ _ _ Hs1 Hr1 Ht1 Hw1); unfold status_ok, STATUS_TIMEOUT; lia|].
  intros r s2 (_ & Hs2 & Hr2 & Hen). destruct (en_thread _ _ _ _ _ _ _ Hen) as [ms Ht2].
  apply wp_bind, wp_assert; [by apply negb_true_iff, Z.eqb_neq|].
  apply wp_bind. eapply wp_mono; [by apply send_thread_wakeup_ok|]. intros [] s3 (Hrest & Ho3 & cx & rr & Hth3 & _).
  assert (same_sync s2 s3) as Hsm3 by (eapply same_sync_put; [exact Ht2| |done|apply Hrest|exact Hth3]; done).
  destruct (same_sync_l _ _ _ _ Hsm3 Ht2) as (th3 & Ht3 & _). apply wp_bind.
  eapply wp_mono; [apply (wake_thread_ok x t s3 th3); [by apply (same_sync_ok x [] s2)|by apply (same_sync_room s2)|done]|].
  intros r4 s4 (_ & _ & _ & A & B & _ & C & E & _). apply wp_ret. split_and!; try done.
  intros Hq t'. destruct (decide (t' = t)) as [->|Hne]; [done|].
  assert (calm t s1 s4) as (_ & _ & _ & Hb).
  { etransitivity; [apply spares_calm; exact (ended_spares x _ _ _ _ _ _ _ Hs1 Hs2 Hen)|]. etransitivity; [|by apply spares_calm].
    apply spares_calm, spares_same; try done. intros t0 Hne0. by rewrite Hth3, lookup_insert_ne. }
  apply Hb; [done|]. by apply Hq1.
Qed.

(** ** Waiting on objects *)

(** What [select_on] does once the objects of the wait are known. *)
Definition wait_objects (op : select_opcode) (l : list oid) (cookie flags when : Z) : M Z :=
  ok <- wait_on op l flags when; if negb ok then ret 1 else select_finish cookie.

Lemma wait_objects_ok x s t th op l cookie flags when :
  sync_ok x [] s → slack s (npairs s + 2 * Z.of_nat (length l) + 2) → current s = Some t → threads s !! t = Some th →
  plain_op op = true → (∀ o, o ∈ l → is_Some (sync_at (objs s) o)) → (length l <= 64)%nat →
  (op = SELECT_WAIT_ALL → NoDup (sync_at (objs s) <$> l)) →
  wp (wait_objects op l cookie flags when) (λ _ s', sync_ok x [] s' ∧ wait_room s' ∧ calm t s s' ∧ (t_wait th = [] → blocked s' t)) s.
Proof.
  intros Hs Hsl Hc Ht Hop Hal Hlen Hnd. unfold wait_objects. apply wp_bind.
  assert (Hidle : ∀ s' next, (∃ th', threads s' !! t = Some th' ∧ t_wait th' = next) → next = [] → blocked s' t).
  { intros s' next (th' & Ht' & Hw') -> th0 w nx pr H0 Hw0. simplify_eq. congruence. }
  eapply wp_mono; [by apply (wait_on_ok x s t th)|].
  intros r s1 (Hs1 & Hr1 & Hcalm1 & Hp1 & Hc1 & K). destruct r; cbn [negb].
  2:{ apply wp_ret. destruct K as [K _]. split_and!; try done. by apply Hidle. }
  destruct K as (_ & _ & _ & th1 & id & Ht1 & Hw1 & E1). destruct (wk_proc _ _ (sy_waits _ _ _ Hs1) t th1 Ht1) as [pr Hpr].
  eapply wp_mono; [by apply (select_finish_ok x s1 t th1 pr (new_wait id op l flags when) (t_wait th) cookie)|].
  intros r s2 (Hs2 & Hr2 & Hcalm2 & K). split_and!; try done; [by transitivity s1|]. intros Hi.
  destruct (_ =? _); [destruct K as [(_ & _ & K)|(_ & _ & _ & K)]|destruct K as (_ & _ & K)]; [apply K|..]; destruct K as [K _]; by apply (Hidle _ _ K).
Qed.

(** ** The steps *)

Inductive request :=
| RSignal (o : oid) (signal : Z)
| RPost (o : oid) (n : Z)
| RUnlock (o : oid)
| RAbandon (t : tid)
| RWait (op : select_opcode) (l : list oid) (cookie flags when : Z)
| RTimeout (t : tid) (id : positive)
| RWake (t : tid)
| RSwitch (t : tid)
| RTick (now mono : Z).

Definition set_current (t : tid) (s : server) : server :=
  Server (objs s) (threads s) (procs s) (global_table s) (Some t) (global_error s)
    (types s) (inproc_device_fd s) (current_time s) (monotonic_time s) (wakeups s) (allocs s).
Definition set_clock (now mono : Z) (s : server) : server :=
  Server (objs s) (threads s) (procs s) (global_table s) (current s) (global_error s)
    (types s) (inproc_device_fd s) now mono (wakeups s) (allocs s).

Definition void {A} (m : M A) : M unit := m ;; ret tt.

Definition run (r : request) : M unit :=
  match r with
  | RSignal o signal => void (event_sync_signal o signal)
  | RPost o n => void (release_semaphore o n)
  | RUnlock o => s <- get; t <- deref (current s); void (do_release o t 1)
  | RAbandon t => abandon_mutexes t
  | RWait op l cookie flags when => void (wait_objects op l cookie flags when)
  | RTimeout t id => thread_timeout t id
  | RWake t => void (wake_thread t)
  | RSwitch t => modify (set_current t)
  | RTick now mono => modify (set_clock now mono)
  end.

(** What the callers of the operations see to: the object is of the right kind and
    the caller has a reference to it; the thread exists.  A wait on all objects
    has to name each once. *)
Definition enabled (x : xrefs) (s : server) (r : request) : Prop :=
  match r with
  | RSignal o _ => anchored x s o ∧ ∃ ob m b, objs s !! o = Some ob ∧ data ob = event_sync_data m b
  | RPost o n => anchored x s o ∧ u32 n ∧ ∃ ob c m, objs s !! o = Some ob ∧ data ob = semaphore_sync_data c m
  | RUnlock o => (∃ t th, current s = Some t ∧ threads s !! t = Some th) ∧
      ∃ ob ow c ab, objs s !! o = Some ob ∧ data ob = mutex_sync_data ow c ab
  | RAbandon t => ∃ th, threads s !! t = Some th ∧ t_wait th = []
  | RWait op l _ _ _ => (∃ t th, current s = Some t ∧ threads s !! t = Some th) ∧ plain_op op = true ∧
      (∀ o, o ∈ l → is_Some (sync_at (objs s) o)) ∧ (length l <= 64)%nat ∧
      (op = SELECT_WAIT_ALL → NoDup (sync_at (objs s) <$> l)) ∧ slack s (npairs s + 2 * Z.of_nat (length l) + 2)
  | RTimeout t id => ∃ th w, threads s !! t = Some th ∧ find_wait th id = Some w ∧ w_cookie w ≠ 0
  | RWake t | RSwitch t => is_Some (threads s !! t)
  | RTick _ _ => True
  end.

(** The requests that neither move the clock nor start a wait inside another. *)
Definition prompt (s : server) (r : request) : Prop :=
  match r with
  | RTick _ _ => False
  | RWait _ _ _ _ _ => ∀ t th, current s = Some t → threads s !! t = Some th → t_wait th = []
  | _ => True
  end.

Lemma wp_void {A} (m : M A) (Q : unit → server → Prop) s : wp m (λ _ s', Q tt s') s → wp (void m) Q s.
Proof. intros H. unfold void. apply wp_bind. eapply wp_mono; [exact H|]. intros a s' HQ. by apply wp_ret. Qed.

Lemma calm_quiet t s s' : calm t s s' → blocked s' t → quiet s → quiet s'.
Proof. intros (_ & _ & _ & H) Hb Hq t'. destruct (decide (t' = t)) as [->|Hne]; auto. Qed.

Lemma quiet_keeps s s' : objs s' = objs s → keeps s s' → quiet s → quiet s'.
Proof. intros Ho Hk Hq t. destruct (keeps_calm (t + 1)%positive s s' Ho Hk) as (_ & _ & _ & H). apply H; [lia|apply Hq]. Qed.

Lemma set_current_ok x t s : sync_ok x [] s → wait_room s → sync_ok x [] (set_current t s) ∧ wait_room (set_current t s).
Proof.
  intros Hs Hr. assert (same_sync s (set_current t s)) as Hsm.
  { split_and!; try done. intros t'. simpl. destruct (threads s !! t'); constructor. apply same_fields_refl. }
  split; [by apply (same_sync_ok x [] s)|by apply (same_sync_room s)].
Qed.

Lemma set_clock_ok x a b s : sync_ok x [] s → wait_room s → sync_ok x [] (set_clock a b s) ∧ wait_room (set_clock a b s).
Proof.
  intros Hs Hr. assert (same_sync s (set_clock a b s)) as Hsm.
  { split_and!; try done. intros t'. simpl. destruct (threads s !! t'); constructor. apply same_fields_refl. }
  split; [by apply (same_sync_ok x [] s)|by apply (same_sync_room s)].
Qed.

(** Every enabled request runs to its end and keeps the invariant. *)
Lemma run_ok x s r : sync_ok x [] s → wait_room s → enabled x s r →
  wp (run r) (λ _ s', sync_ok x [] s' ∧ wait_room s' ∧ (prompt s r → quiet s → quiet s')) s.
Proof.
  intros Hs Hr He. destruct r as [o sg|o n|o|t|op l ck fl wh|t id|t|t|now mono]; cbn [run enabled] in *.
  - destruct He as (Ha & ob & m & b & Ho & Hd). apply wp_void. eapply wp_mono; [by eapply (event_sync_signal_ok x s o ob)|]. naive_solver.
  - destruct He as (Ha & Hn & ob & c & m & Ho & Hd). apply wp_void. eapply wp_mono; [by eapply (release_semaphore_ok x s o ob)|].
    intros r s'. destruct (m <? c + n); [|naive_solver]. intros (_ & Ho' & Hk & _).
    pose proof (keeps_same_sync s s' Ho' Hk) as Hsm. split_and!; [by apply (same_sync_ok x [] s)|by apply (same_sync_room s)|].
    intros _ Hq. by apply (quiet_keeps s).
  - destruct He as ((t & th & Hc & Ht) & ob & ow & c & ab & Ho & Hd). wp_steps. apply (wp_deref _ t); [done|]. apply wp_void.
    eapply wp_mono; [eapply (do_release_ok x s o ob t th); try done|].
    { intros ->. pose proof (wk_data _ _ (sy_waits _ _ _ Hs) o ob Ho) as H. rewrite Hd in H. destruct H. lia. }
    intros r s'. case_bool_decide; [naive_solver|]. intros (_ & Ho' & Hk & _).
    pose proof (keeps_same_sync s s' Ho' Hk) as Hsm. split_and!; [by apply (same_sync_ok x [] s)|by apply (same_sync_room s)|].
    intros _ Hq. by apply (quiet_keeps s).
  - destruct He as (th & Ht & Hi). unfold abandon_mutexes. apply wp_bind, (wp_get_thread _ th); [done|].
    eapply wp_mono; [by apply abandon_loop_ok|]. naive_solver.
  - destruct He as ((t & th & Hc & Ht) & Hop & Hal & Hlen & Hnd & Hsl). apply wp_void.
    eapply wp_mono; [by apply (wait_objects_ok x s t th)|]. intros r s' (A & B & C & D). split_and!; try done.
    intros Hp. apply (calm_quiet t); [done|]. apply D. by apply (Hp t th).
  - destruct He as (th & w & Ht & Hf & Hck). eapply wp_mono; [by apply (thread_timeout_ok x s t th id w)|]. naive_solver.
  - destruct He as [th Ht]. apply wp_void. eapply wp_mono; [by apply (wake_thread_ok x t s th)|].
    intros r s' (_ & _ & _ & A & B & _ & C & D & _). split_and!; try done. intros _. apply (calm_quiet t); [by apply spares_calm|done].
  - destruct (set_current_ok x t s Hs Hr). apply wp_modify. done.
  - destruct (set_clock_ok x now mono s Hs Hr). apply wp_modify. done.
Qed.

(** * The requests on events, semaphores and mutexes *)

Lemma same_data_quiet s s' : same_data (objs s) (objs s') → threads s' = threads s → procs s' = procs s →
  current_time s' = current_time s → monotonic_time s' = monotonic_time s → quiet s → quiet s'.
Proof.
  intros Hd Hth Hp Ht Hm Hq t. destruct (same_data_calm (t + 1)%positive s s') as (_ & _ & _ & H); try done; [by intros; rewrite Hth|].
  apply H; [lia|apply Hq].
Qed.

(** Dropping the reference of a request. *)
Lemma close_ok x o s : sync_ok (pin o x) [] s → wait_room s → (∀ p, 0 <= x_handle x p <= x_ref x p) →
  wp (release_object o) (λ _ s', sync_ok x [] s' ∧ wait_room s' ∧ (quiet s → quiet s') ∧ woken s s' ∧ same_env s s' ∧ shrinks (objs s) (objs s')) s.
Proof.
  intros Hs Hr Hx. destruct (heap_ok_live _ _ o (sy_heap _ _ _ Hs)) as [ob Ho].
  { simpl. rewrite occ_self. pose proof (wrefs_nonneg s o). specialize (Hx o). pose proof (occ_nonneg o []). lia. }
  eapply wp_mono; [by apply (drop_ok x o ob)|]. intros [] s' (Hs' & He & Hsh & Hrc). split_and!; try done.
  - by eapply room_shrinks.
  - by apply (quiet_shrinks x).
  - by apply shrinks_woken.
Qed.

Section request.
Context (x : xrefs) (s : server) (t : tid) (th : thread) (pr : process) (h : Z).
Context (to : oid) (i : Z) (o : oid) (a : Z) (ob : object) (so : oid) (sob : object).
Context (Hf : full_ok x s) (Hc : current s = Some t) (Ht : threads s !! t = Some th).
Context (Hpr : procs s !! t_process th = Some pr) (Hm : is_magic h = false) (Hroom : slack s (npairs s + 3)).
Context (Hres : resolve s pr h = Some (to, i, o, a)) (Ho : objs s !! o = Some ob).
Context (Hsy : sync_target (data ob) = Some so) (Hso : objs s !! so = Some sob).

Definition grabbed : server := set_objs (<[o:=ob_refcount (refcount ob + 1) ob]>) s.

Record opened : Prop := {
  op_sync : sync_ok (pin o x) [] grabbed;
  op_room : wait_room grabbed;
  op_anchor : anchored (pin o x) grabbed so;
  op_target : objs grabbed !! so = Some sob;
  op_quiet : quiet s → quiet grabbed;
}.

Lemma grabbed_opened : opened.
Proof using Hf Hroom Hsy Ho Hso.
  destruct (full_ok_grab x s o ob Hf Ho) as [_ Hs1]. assert (so ≠ o) as Hne.
  { intros ->. destruct (ob_targets _ _ _ _ (hp_object _ _ (sy_heap _ _ _ (fu_sync _ _ Hf)) o ob Ho) o (sync_target_in _ _ Hsy)) as (ob' & ? & Hrk).
    simplify_eq. lia. }
  split; [done|..].
  - eapply slack_weaken; [by apply (slack_grab s o ob _ Ho Hroom)|]. unfold grabbed, npairs. simpl. lia.
  - exists o, (ob_refcount (refcount ob + 1) ob). simpl. rewrite lookup_insert_eq. split_and!; [|done|by right].
    rewrite occ_self. pose proof (occ_nonneg o []). pose proof (sy_x _ _ _ (fu_sync _ _ Hf) o). lia.
  - simpl. by rewrite lookup_insert_ne.
  - apply same_data_quiet; try done. by apply (same_data_insert _ o ob).
Qed.

(** The start of a request. *)
Lemma open_ok {A} want access kind (f : oid → oid → M (option A)) Q :
  entry_grants (Some want) access ob a = inr tt → obj_ops sob = kind → (opened → wp (f o so) Q grabbed) →
  wp (p <- current_process; r <- get_handle_obj (Some p) h access (Some want);
      match r with None => ret None | Some o => so <- sync_of o kind; f o so end) Q s.
Proof using Hf Hc Ht Hpr Hm Hroom Hres Ho Hsy Hso.
  intros Hg Hk Hbody. pose proof grabbed_opened as Hop. unfold current_process, get_current. wp_steps. rewrite Hc.
  apply (wp_deref _ th); [done|]. apply wp_ret, wp_bind. pose proof (npairs_nonneg s).
  eapply wp_mono; [apply (get_handle_obj_run (wx x [] s) s _ pr); [apply Hf|done|done|]|].
  { intros p obp Hp. destruct (Hroom p obp Hp) as [? _]. lia. }
  rewrite Hres. intros r s' (ob' & Ho' & Hr). rewrite Ho in Ho'. injection Ho' as <-. rewrite Hg in Hr. destruct Hr as (-> & -> & _).
  change (set_objs _ s) with grabbed. apply wp_bind. unfold sync_of.
  apply wp_bind, (wp_get_obj o (ob_refcount (refcount ob + 1) ob)); [apply lookup_insert_eq|].
  change (match data (ob_refcount _ ob) with event_data s0 | semaphore_data s0 | mutex_data s0 => s0 | _ => None end) with (sync_target (data ob)).
  rewrite Hsy. unfold own_sync. apply wp_bind, (wp_deref _ so); [done|]. apply wp_bind, (wp_get_obj so sob); [apply Hop|].
  apply wp_bind, wp_assert; [by apply bool_decide_eq_true|]. apply wp_ret. by apply Hbody.
Qed.

(** Neither end of the request touches data or queues. *)
Lemma grabbed_set_woken sob' : so ≠ o → woken (set_objs (<[so:=sob']>) s) (set_objs (<[so:=sob']>) grabbed).
Proof using Ho.
  intros Hne. split; try done; [|by eauto|by exists []]. intros p obp Hp. simpl in *. destruct (decide (p = so)) as [->|Hps].
  - rewrite lookup_insert_eq in *. injection Hp as <-. exists sob'. split_and!; [done|apply evolves_refl|done].
  - rewrite lookup_insert_ne in Hp by done. rewrite lookup_insert_ne by done. destruct (decide (p = o)) as [->|Hpo].
    + rewrite lookup_insert_eq in Hp. injection Hp as <-. exists ob. split_and!; [done|apply evolves_refl|done].
    + rewrite lookup_insert_ne in Hp by done. exists obp. split_and!; [done|apply evolves_refl|done].
Qed.
End request.

(** ** The requests *)

(** The current thread [t] makes a request with the handle [h], which is valid for
    an object of type [want] with the rights [access]; its sync object is [so].
    There is room for the references of the request and of the waits. *)
Record request_on (x : xrefs) (s : server) (h access : Z) (want : ops) (t : tid) (so : oid) (sob : object) : Prop := {
  rq_full : full_ok x s;
  rq_current : current s = Some t;
  rq_magic : is_magic h = false;
  rq_room : slack s (npairs s + 3);
  rq_target : objs s !! so = Some sob;
  rq_handle : ∃ th pr to i o a ob, threads s !! t = Some th ∧ procs s !! t_process th = Some pr ∧
    resolve s pr h = Some (to, i, o, a) ∧ objs s !! o = Some ob ∧ entry_grants (Some want) access ob a = inr tt ∧
    sync_target (data ob) = Some so;
}.

Definition with_data (so : oid) (sob : object) (d : obj_data) (s : server) : server := set_objs (<[so:=ob_data d sob]>) s.

(** The work of a request on the sync object, between its two ends. *)
Lemma request_ok {A} x s h access want t so sob kind (f : oid → oid → M (option A)) Q :
  request_on x s h access want t so sob → obj_ops sob = kind →
  (∀ o ob th, objs s !! o = Some ob → so ≠ o → threads s !! t = Some th → opened x s o ob so sob → wp (f o so) Q (grabbed s o ob)) →
  wp (p <- current_process; r <- get_handle_obj (Some p) h access (Some want);
      match r with None => ret None | Some o => so <- sync_of o kind; f o so end) Q s.
Proof.
  intros [Hf Hc Hm Hr Hso (th & pr & to & i & o & a & ob & Ht & Hpr & Hres & Ho & Hg & Hsy)] Hk Hbody.
  eapply (open_ok x s t th pr h to i o a ob so sob); try done. intros Hop. apply (Hbody o ob th); try done.
  intros ->. destruct (ob_targets _ _ _ _ (hp_object _ _ (sy_heap _ _ _ (fu_sync _ _ Hf)) o ob Ho) o (sync_target_in _ _ Hsy)) as (ob' & ? & Hrk).
  simplify_eq. lia.
Qed.

Lemma request_x x s h access want t so sob : request_on x s h access want t so sob → ∀ p, 0 <= x_handle x p <= x_ref x p.
Proof. intros H. apply (sy_x _ _ _ (fu_sync _ _ (rq_full _ _ _ _ _ _ _ _ H))). Qed.

(** A request that only sets the error. *)
Lemma refused_ok x s o ob so sob s2 :
  opened x s o ob so sob → objs s !! o = Some ob → (∀ p, 0 <= x_handle x p <= x_ref x p) →
  objs s2 = objs (grabbed s o ob) → keeps (grabbed s o ob) s2 →
  wp (release_object o) (λ _ s', sync_ok x [] s' ∧ wait_room s' ∧ (quiet s → quiet s') ∧ last_error s' = last_error s2 ∧ shrinks (objs s) (objs s')) s2.
Proof.
  intros Hop Ho Hx Ho2 Hk2. pose proof (keeps_same_sync _ s2 Ho2 Hk2) as Hsm. eapply wp_mono.
  { apply (close_ok x); [apply (same_sync_ok _ [] (grabbed s o ob)); [apply Hop|done]|by apply (same_sync_room (grabbed s o ob)); [|apply Hop]|done]. }
  intros [] s' (A & B & C & _ & D & E). split_and!; try done.
  - intros Hq. apply C, (quiet_keeps (grabbed s o ob)); try done. by apply Hop.
  - by apply same_env_error.
  - eapply shrinks_trans; [|exact E]. rewrite Ho2. intros p obp Hp. simpl in Hp. destruct (decide (p = o)) as [->|Hne].
    + rewrite lookup_insert_eq in Hp. injection Hp as <-. exists ob. done.
    + rewrite lookup_insert_ne in Hp by done. exists obp. done.
Qed.

(** a valid release request on a semaphore returns its count; beyond the maximum
    it fails with [STATUS_SEMAPHORE_LIMIT_EXCEEDED] and changes no object, for
    every 32-bit count; otherwise the count grows by [n] and waiters are woken, and
    no thread is left waiting that could go on. *)
Theorem req_release_semaphore_spec x s h t so sob count max n :
  request_on x s h SEMAPHORE_MODIFY_STATE semaphore_ops t so sob → data sob = semaphore_sync_data count max → u32 n →
  wp (req_release_semaphore h n) (λ r s', r = Some count ∧ sync_ok x [] s' ∧ wait_room s' ∧ (quiet s → quiet s') ∧
    if max <? count + n then last_error s' = STATUS_SEMAPHORE_LIMIT_EXCEEDED ∧ shrinks (objs s) (objs s')
    else woken (with_data so sob (semaphore_sync_data (count + n) max) s) s') s.
Proof.
  intros Hrq Hd Hn. pose proof (request_x _ _ _ _ _ _ _ _ Hrq) as Hx. unfold req_release_semaphore.
  apply (request_ok x s h SEMAPHORE_MODIFY_STATE semaphore_ops t so sob semaphore_sync_ops
    (λ o so, r <- release_semaphore so n; release_object o ;; ret (Some (snd r))) _ Hrq); [unfold obj_ops; by rewrite Hd|].
  intros o ob th Ho Hne Ht Hop. apply wp_bind; eapply wp_mono; [eapply (release_semaphore_ok (pin o x) _ so sob count max n); try done; apply Hop|].
  intros r s2 H2. cbv beta zeta in H2. apply wp_bind. destruct (max <? count + n).
  - destruct H2 as (-> & Ho2 & Hk2 & He2). eapply wp_mono; [by apply (refused_ok x s o ob so sob)|].
    intros [] s3 (A & B & C & D & E). apply wp_ret. split_and!; try done. congruence.
  - destruct H2 as (-> & Hs2 & Hr2 & Hw2 & Hq2 & _). eapply wp_mono; [by apply (close_ok x o s2)|].
    intros [] s3 (A & B & C & D & E). apply wp_ret. split_and!; try done.
    + intros Hq. by apply C, Hq2, Hop.
    + etransitivity; [by apply (grabbed_set_woken s o ob so)|]. by etransitivity.
Qed.

(** a valid release request on a mutex returns its recursion count; a thread that
    does not own it gets [STATUS_MUTANT_NOT_OWNED] and changes no object; the owner
    gives up one level, and with the last one the mutex, which is unlinked from the
    list of the thread and given to waiters: no thread is left waiting that could
    go on. *)
Theorem req_release_mutex_spec x s h t th so sob owner c ab :
  request_on x s h 0 mutex_ops t so sob → threads s !! t = Some th → data sob = mutex_sync_data owner c ab →
  wp (req_release_mutex h) (λ r s', r = Some c ∧ sync_ok x [] s' ∧ wait_room s' ∧ (quiet s → quiet s') ∧
    if bool_decide (owner = Some t) then
      if 1 <? c then woken (with_data so sob (mutex_sync_data owner (c - 1) ab) s) s'
      else woken (disowned t th so sob ab s) s'
    else last_error s' = STATUS_MUTANT_NOT_OWNED ∧ shrinks (objs s) (objs s')) s.
Proof.
  intros Hrq Ht Hd. pose proof (request_x _ _ _ _ _ _ _ _ Hrq) as Hx. pose proof (rq_current _ _ _ _ _ _ _ _ Hrq) as Hc. unfold req_release_mutex.
  apply (request_ok x s h 0 mutex_ops t so sob mutex_sync_ops
    (λ o so, ob <- get_obj so; count <- match data ob with mutex_sync_data _ c _ => ret c | _ => fail AssertFailed end;
      s <- get; t <- deref (current s); do_release so t 1 ;; release_object o ;; ret (Some count)) _ Hrq); [unfold obj_ops; by rewrite Hd|].
  intros o ob th' Ho Hne Ht' Hop. rewrite Ht in Ht'. injection Ht' as <-. apply wp_bind, (wp_get_obj so sob); [apply Hop|]. rewrite Hd.
  apply wp_bind, wp_ret. wp_steps. apply (wp_deref _ t); [done|]. assert (owner = Some t → 1 <= c) as Hc1.
  { intros ->. pose proof (wk_data _ _ (sy_waits _ _ _ (op_sync _ _ _ _ _ _ Hop)) so sob (op_target _ _ _ _ _ _ Hop)) as H. rewrite Hd in H. destruct H. lia. }
  apply wp_bind; eapply wp_mono; [eapply (do_release_ok (pin o x) _ so sob t th owner c ab 1); try done; apply Hop|].
  intros r s2 H2. cbv beta zeta in H2. apply wp_bind. case_bool_decide.
  - destruct H2 as (-> & Hs2 & Hr2 & Hq2 & Hw2). eapply wp_mono; [by apply (close_ok x o s2)|].
    intros [] s3 (A & B & C & D & E). apply wp_ret. split_and!; try done; [intros Hq; by apply C, Hq2, Hop|]. destruct (1 <? c).
    + subst s2. etransitivity; [by apply (grabbed_set_woken s o ob so)|]. exact D.
    + etransitivity; [|etransitivity; [exact Hw2|exact D]]. unfold disowned.
      by apply (grabbed_set_woken (set_threads _ s) o ob so).
  - destruct H2 as (-> & Ho2 & Hk2 & He2). eapply wp_mono; [by apply (refused_ok x s o ob so sob)|].
    intros [] s3 (A & B & C & D & E). apply wp_ret. split_and!; try done. congruence.
Qed.

#[export] Instance event_op_eq_dec : EqDecision event_op.
Proof. solve_decision. Defined.

(** What an operation on an event does to it and to its waiters. *)
Definition event_outcome (op : event_op) (so : oid) (sob : object) (manual : bool) (s s' : server) : Prop :=
  let set b := with_data so sob (event_sync_data manual b) in
  match op with
  | SET_EVENT => woken (set true s) s'
  | RESET_EVENT => woken (set false s) s'
  | PULSE_EVENT => ∃ s1 sob1, woken (set true s) s1 ∧ objs s1 !! so = Some sob1 ∧
      woken (with_data so sob1 (event_sync_data manual false) s1) s'
  | UNKNOWN_EVENT_OP => last_error s' = STATUS_INVALID_PARAMETER ∧ shrinks (objs s) (objs s')
  end.

(** The calls of [event_sync_signal] in [req_event_op]. *)
Lemma event_op_ok x s o ob so sob manual b op :
  opened x s o ob so sob → objs s !! o = Some ob → so ≠ o → data sob = event_sync_data manual b → op ≠ UNKNOWN_EVENT_OP →
  wp (match op with
      | PULSE_EVENT => set_event so ;; reset_event so ;; ret tt
      | SET_EVENT => set_event so ;; ret tt
      | RESET_EVENT => reset_event so ;; ret tt
      | UNKNOWN_EVENT_OP => set_error STATUS_INVALID_PARAMETER
      end) (λ _ s', sync_ok (pin o x) [] s' ∧ wait_room s' ∧ (quiet s → quiet s') ∧ event_outcome op so sob manual s s') (grabbed s o ob).
Proof.
  intros Hop Ho Hne Hd Hk. pose proof (grabbed_set_woken s o ob so Ho) as Hgw.
  assert (Hcall : ∀ sg, wp (event_sync_signal so sg) (λ _ s', sync_ok (pin o x) [] s' ∧ wait_room s' ∧ (quiet s → quiet s') ∧
    woken (with_data so sob (event_sync_data manual (negb (sg =? 0))) s) s' ∧
    woken (with_data so sob (event_sync_data manual (negb (sg =? 0))) (grabbed s o ob)) s') (grabbed s o ob)).
  { intros sg. eapply wp_mono; [eapply (event_sync_signal_ok (pin o x) _ so sob manual b); try done; apply Hop|].
    intros r s2 (_ & A & B & C & D & _). split_and!; try done; [intros Hq; by apply D, Hop|]. etransitivity; [by apply Hgw|exact C]. }
  unfold set_event, reset_event, signal_sync, reset_sync. destruct op; try done; apply wp_bind.
  - eapply wp_mono; [apply (Hcall 1)|]. intros r s2 (Hs2 & Hr2 & Hq2 & Hw2 & Hw2').
    assert (anchored (pin o x) s2 so) as Ha2.
    { eapply anchored_woken; [|exact Hs2|exact Hw2']. apply (anchored_set _ _ so sob); [apply Hop|by rewrite Hd|apply Hop]. }
    destruct (anchored_alive _ _ _ _ Hs2 Ha2) as [sob2 Hso2]. destruct (wo_objs _ _ Hw2' so sob2 Hso2) as (sob0 & Hso0 & Hev & _).
    simpl in Hso0. rewrite lookup_insert_eq in Hso0. injection Hso0 as <-. simpl in Hev.
    destruct (data sob2) as [|m2 b2| | | | | | | | |] eqn:Hd2; try done. destruct Hev as [-> _].
    apply wp_bind. eapply wp_mono; [by eapply (event_sync_signal_ok (pin o x) s2 so sob2 manual b2 0)|].
    intros r3 s3 (_ & A & B & C & D & _). apply wp_ret. split_and!; try done; [auto|]. exists s2, sob2. done.
  - eapply wp_mono; [apply (Hcall 1)|]. intros r s2 (A & B & C & D & _). by apply wp_ret.
  - eapply wp_mono; [apply (Hcall 0)|]. intros r s2 (A & B & C & D & _). by apply wp_ret.
Qed.

(** a valid request on an event returns its previous state; setting it signals it
    and wakes waiters (all of them, or one for an auto-reset event), resetting it
    wakes nobody, a pulse sets and then resets it, and an unknown operation is
    refused and changes no object; no thread is left waiting that could go on. *)
Theorem req_event_op_spec x s h t so sob manual b op :
  request_on x s h EVENT_MODIFY_STATE event_ops t so sob → data sob = event_sync_data manual b →
  wp (req_event_op h op) (λ r s', r = Some b ∧ sync_ok x [] s' ∧ wait_room s' ∧ (quiet s → quiet s') ∧ event_outcome op so sob manual s s') s.
Proof.
  intros Hrq Hd. pose proof (request_x _ _ _ _ _ _ _ _ Hrq) as Hx. unfold req_event_op.
  apply (request_ok x s h EVENT_MODIFY_STATE event_ops t so sob event_sync_ops
    (λ o so, ob <- get_obj so; state <- match data ob with event_sync_data _ signaled => ret signaled | _ => fail AssertFailed end;
      match op with
      | PULSE_EVENT => set_event so ;; reset_event so ;; ret tt
      | SET_EVENT => set_event so ;; ret tt
      | RESET_EVENT => reset_event so ;; ret tt
      | UNKNOWN_EVENT_OP => set_error STATUS_INVALID_PARAMETER
      end ;; release_object o ;; ret (Some state)) _ Hrq); [unfold obj_ops; by rewrite Hd|].
  intros o ob th Ho Hne Ht Hop. apply wp_bind, (wp_get_obj so sob); [apply Hop|]. rewrite Hd. apply wp_bind, wp_ret, wp_bind.
  destruct (decide (op = UNKNOWN_EVENT_OP)) as [->|Hk].
  - apply wp_set_error. intros s2 Ho2 Hk2 He2. apply wp_bind. eapply wp_mono; [by apply (refused_ok x s o ob so sob)|].
    intros [] s3 (A & B & C & D & E). apply wp_ret. split_and!; try done. split; [congruence|done].
  - eapply wp_mono; [by apply (event_op_ok x s o ob so sob manual b)|]. intros [] s2 (Hs2 & Hr2 & Hq2 & Hw2). apply wp_bind.
    eapply wp_mono; [by apply (close_ok x o s2)|]. intros [] s3 (A & B & C & D & E). apply wp_ret. split_and!; try done; [auto|].
    destruct op; try done; simpl in *; [|by etransitivity..]. destruct Hw2 as (s1 & sob1 & ? & ? & ?). exists s1, sob1. split_and!; try done. by etransitivity.
Qed.
