(* ===== verification/SyncSpecs.v ===== *)
(** * The properties of waits and sync objects

    The theorems on [select_on], the wakeups and the three sync objects, each with
    a concrete run on the server [wd]; the runs of the wait machine keep the
    invariant; and two defects of the code, exhibited on concrete servers. *)

From stdpp Require Import base list gmap fin_maps relations.
From S2P Require Import Prelude Access Object ObjectInv Handle HandleInv HandleThms Demo Wait Sync SyncInv SyncSteps SyncWake SyncThms SyncOps SyncSelect SelectThms SyncDemo SyncMachine.

Open Scope Z_scope.
Open Scope server_scope.

(** ** Runs of the machine *)

(** A step by an enabled request that satisfies [P], in a state with room for the
    references and acquisitions of the waits. *)
Definition step (x : xrefs) (P : server → request → Prop) (s s' : server) : Prop :=
  ∃ r, wait_room s ∧ enabled x s r ∧ P s r ∧ run r s = Done tt s'.

(** A mutex is held by the thread that lists it and by no other. *)
Definition exclusive (s : server) : Prop :=
  ∀ so sob owner c ab, objs s !! so = Some sob → data sob = mutex_sync_data owner c ab →
    (owner = None ↔ c = 0) ∧ ∀ t th, threads s !! t = Some th → so ∈ t_mutex_list th ↔ owner = Some t.

Lemma waits_exclusive s : waits_ok [] s → exclusive s.
Proof.
  intros Hw so sob owner c ab Hso Hd. pose proof (wk_data _ _ Hw so sob Hso) as H. rewrite Hd in H. split.
  - destruct owner; simpl in H; [|done]. destruct H. split; [done|lia].
  - intros t th Ht. split.
    + intros Hin. destruct (wk_owned _ _ Hw t th so Ht Hin) as (sob' & c' & ab' & ? & ?). congruence.
    + intros ->. destruct H as (_ & th' & Ht' & Hin). by simplify_eq.
Qed.

Lemma step_ok x P s s' : sync_ok x [] s → step x P s s' → sync_ok x [] s' ∧ wait_room s' ∧ ((∀ r, P s r → prompt s r) → quiet s → quiet s').
Proof.
  intros Hs (r & Hr & He & HP & Hrun). pose proof (run_ok x s r Hs Hr He) as H. unfold wp in H. rewrite Hrun in H.
  destruct H as (A & B & C). split_and!; auto.
Qed.

Lemma steps_ok x P s s' : sync_ok x [] s → wait_room s → rtc (step x P) s s' → sync_ok x [] s' ∧ wait_room s'.
Proof.
  intros Hs Hr Hst. induction Hst as [|s s1 s2 H _ IH]; [done|]. destruct (step_ok x P s s1 Hs H) as (? & ? & _). auto.
Qed.

(** C7: whatever sequence of requests the threads make on events, semaphores and
    mutexes (signals, releases, abandoned mutexes, waits, timeouts, wakeups, in any
    order and at any time), the queues, waits and reference counts stay
    consistent, every mutex has at most one owner, and in the state reached every
    enabled request runs to its end: no assertion fails, no pointer dangles and
    the loops terminate. *)
Theorem sync_reachable x s s' :
  sync_ok x [] s → wait_room s → rtc (step x (λ _ _, True)) s s' →
  sync_ok x [] s' ∧ exclusive s' ∧ ∀ r, enabled x s' r → ∃ s'', run r s' = Done tt s''.
Proof.
  intros Hs Hr Hst. destruct (steps_ok _ _ _ _ Hs Hr Hst) as [Hs' Hr']. split_and!; [done|apply waits_exclusive, Hs'|].
  intros r He. pose proof (run_ok x s' r Hs' Hr' He) as H. unfold wp in H. destruct (run r s') as [[] s''|]; [eauto|done].
Qed.

(** C8: no wakeup is lost: from a state in which every waiting thread has to wait,
    no sequence of requests at a fixed time, without waits inside other waits,
    leads to a state in which some waiting thread could go on. *)
Theorem no_lost_wakeup x s s' :
  sync_ok x [] s → wait_room s → quiet s → rtc (step x prompt) s s' → quiet s'.
Proof.
  intros Hs Hr Hq Hst. induction Hst as [|s s1 s2 H _ IH]; [done|]. destruct (step_ok x _ s s1 Hs H) as (? & ? & Hk).
  apply IH; try done. by apply Hk.
Qed.

(** [wd] while requests on the event and on the semaphore are handled, which hold a
    reference to them. *)
Definition wd_req : server :=
  set_objs (alter (λ ob, ob_refcount (refcount ob + 1) ob) 10%positive ∘ alter (λ ob, ob_refcount (refcount ob + 1) ob) 12%positive) wd.
Definition wd_req_refs : list oid := wd_refs ++ [10; 12]%positive.

Lemma wd_req_ok : sync_ok (x_list wd_req_refs) [] wd_req.
Proof. apply sync_okb_sound. vm_compute. reflexivity. Qed.
Lemma wd_req_quiet : quiet wd_req.
Proof. apply quietb_sound. vm_compute. reflexivity. Qed.
Lemma wd_req_room : wait_room wd_req.
Proof. apply slackb_sound. vm_compute. reflexivity. Qed.

Definition after (r : request) (s : server) : server := match run r s with Done _ s' => s' | Fault _ => s end.

Lemma step_after x (P : server → request → Prop) s r : sync_ok x [] s → wait_room s → enabled x s r → P s r → step x P s (after r s).
Proof.
  intros Hs Hr He HP. exists r. split_and!; try done. pose proof (run_ok x s r Hs Hr He) as H. unfold wp in H. unfold after.
  destruct (run r s) as [[] s'|]; done.
Qed.

(** Thread 2 releases the mutex once, the semaphore is posted, and the mutex is
    released again: now thread 4 has both. *)
Definition wd1 : server := after (RUnlock 15) wd_req.
Definition wd2 : server := after (RPost 13 1) wd1.
Definition wd3 : server := after (RUnlock 15) wd2.

Lemma wd_steps (P : server → request → Prop) :
  (∀ s r, match r with RUnlock _ | RPost _ _ => P s r | _ => True end) → rtc (step (x_list wd_req_refs) P) wd_req wd3.
Proof.
  intros HP. set (x := x_list wd_req_refs).
  assert (step x P wd_req wd1) as H1.
  { apply step_after; [exact wd_req_ok|exact wd_req_room| |exact (HP _ (RUnlock 15))].
    split; [eexists _, _; split; vm_compute; reflexivity|]. eexists _, _, _, _. split; vm_compute; reflexivity. }
  destruct (step_ok x P _ _ wd_req_ok H1) as (Hs1 & Hr1 & _).
  assert (step x P wd1 wd2) as H2.
  { apply step_after; [exact Hs1|exact Hr1| |exact (HP _ (RPost 13 1))]. split_and!; [|unfold u32; lia|].
    - eexists 12%positive, _. split_and!; [by apply Z.ltb_lt; vm_compute|vm_compute; reflexivity|right; vm_compute; reflexivity].
    - eexists _, _, _. split; vm_compute; reflexivity. }
  destruct (step_ok x P _ _ Hs1 H2) as (Hs2 & Hr2 & _).
  assert (step x P wd2 wd3) as H3.
  { apply step_after; [exact Hs2|exact Hr2| |exact (HP _ (RUnlock 15))].
    split; [eexists _, _; split; vm_compute; reflexivity|]. eexists _, _, _, _. split; vm_compute; reflexivity. }
  by apply rtc_l with wd1; [|apply rtc_l with wd2; [|apply rtc_once]].
Qed.

Lemma sync_reachable_witness : exclusive wd3 ∧ ∀ t, enabled (x_list wd_req_refs) wd3 (RWake t) → ∃ s, run (RWake t) wd3 = Done tt s.
Proof.
  destruct (sync_reachable (x_list wd_req_refs) wd_req wd3 wd_req_ok wd_req_room) as (_ & He & Hp); [by apply wd_steps; intros ? []|].
  split; [exact He|]. intros t. exact (Hp (RWake t)).
Defined.

Lemma no_lost_wakeup_witness : quiet wd3 ∧ wakeups wd3 = [(4%positive, 8, 0)].
Proof.
  split; [|vm_compute; reflexivity].
  exact (no_lost_wakeup (x_list wd_req_refs) wd_req wd3 wd_req_ok wd_req_room wd_req_quiet (wd_steps prompt ltac:(by intros ? []))).
Defined.

(** ** The requests on [wd] *)

Ltac eval_ok := vm_compute; reflexivity.

(** A handle of thread 2 in [wd], with the sync object behind it. *)
Lemma wd_request h access want so sob : is_magic h = false → objs wd !! so = Some sob →
  (∃ i o a ob, resolve wd (Process 8 (Some 5%positive) (Some 6%positive) 0) h = Some (5%positive, i, o, a) ∧ objs wd !! o = Some ob ∧
    entry_grants (Some want) access ob a = inr tt ∧ sync_target (data ob) = Some so) →
  request_on (x_list wd_refs) wd h access want 2 so sob.
Proof.
  intros Hm Hso (i & o & a & ob & Hr & Ho & Hg & Hsy). split; [exact wd_full|done|done|apply slackb_sound; eval_ok|done|].
  eexists _, _, 5%positive, i, o, a, ob. split; [eval_ok|]. split; [eval_ok|]. done.
Qed.

Definition wd_event : object := Object 1 0 false [WaitQueueEntry 3 1 0] None (event_sync_data false false).
Definition wd_semaphore : object := Object 1 0 false [WaitQueueEntry 4 2 0] None (semaphore_sync_data 0 10).
Definition wd_mutex : object := Object 2 0 false [WaitQueueEntry 4 2 1] None (mutex_sync_data (Some 2%positive) 2 false).

Lemma wd_event_request : request_on (x_list wd_refs) wd 4 EVENT_MODIFY_STATE event_ops 2 11 wd_event.
Proof. apply wd_request; [eval_ok..|]. eexists 0, 10%positive, _, _. split_and!; eval_ok. Qed.
Lemma wd_semaphore_request : request_on (x_list wd_refs) wd 8 SEMAPHORE_MODIFY_STATE semaphore_ops 2 13 wd_semaphore.
Proof. apply wd_request; [eval_ok..|]. eexists 1, 12%positive, _, _. split_and!; eval_ok. Qed.
Lemma wd_mutex_request : request_on (x_list wd_refs) wd 12 0 mutex_ops 2 15 wd_mutex.
Proof. apply wd_request; [eval_ok..|]. eexists 2, 14%positive, _, _. split_and!; eval_ok. Qed.

Lemma req_event_op_witness : wp (req_event_op 4 SET_EVENT) (λ r s', r = Some false ∧ quiet s') wd.
Proof.
  eapply wp_mono; [exact (req_event_op_spec (x_list wd_refs) wd 4 2 11 wd_event false false SET_EVENT wd_event_request eq_refl)|].
  intros r s' (A & _ & _ & B & _). exact (conj A (B wd_quiet)).
Defined.

Lemma req_release_semaphore_witness : wp (req_release_semaphore 8 4294967295) (λ r s', r = Some 0 ∧
  last_error s' = STATUS_SEMAPHORE_LIMIT_EXCEEDED) wd.
Proof.
  eapply wp_mono; [apply (req_release_semaphore_spec (x_list wd_refs) wd 8 2 13 wd_semaphore 0 10 4294967295 wd_semaphore_request eq_refl); unfold u32; lia|].
  intros r s' (A & _ & _ & _ & B). exact (conj A (proj1 B)).
Defined.

Lemma req_release_mutex_witness : wp (req_release_mutex 12) (λ r s', r = Some 2 ∧ quiet s') wd.
Proof.
  eapply wp_mono; [exact (req_release_mutex_spec (x_list wd_refs) wd 12 2 (wd_thread [] [15%positive]) 15 wd_mutex (Some 2%positive) 2 false
    wd_mutex_request eq_refl eq_refl)|].
  intros r s' (A & _ & _ & B & _). exact (conj A (B wd_quiet)).
Defined.

(** Thread 2 waits for the mutex, which it owns, or the event. *)
Lemma select_wait_witness :
  wp (select_on (sel_wait false (Some [4; 12])) 9 0 TIMEOUT_INFINITE) (λ r s', r = 1 ∧ last_error s' = 1) wd.
Proof.
  eapply wp_mono.
  - apply (select_wait_spec (x_list wd_refs) wd 2 (wd_thread [] [15%positive]) (Process 8 (Some 5%positive) (Some 6%positive) 0) false [4; 12] 9 0 TIMEOUT_INFINITE
      [10; 14]%positive wd_full eq_refl eq_refl eq_refl).
    + repeat constructor.
    + simpl. lia.
    + eval_ok.
    + intros o Ho. apply list_elem_of_In in Ho as [<-|[<-|[]]]; eval_ok.
    + done.
    + apply slackb_sound. eval_ok.
  - intros r s' (_ & _ & _ & [([H|(_ & _ & H)] & _)|[_ H]]); [discriminate H..|].
    destruct H as (-> & H & _). split; [done|]. rewrite H. eval_ok.
Defined.

(** ** Wakeups *)

(** [end_wait] takes the current wait off the thread and its entries off the
    queues of its objects; when the status tells that the objects are signaled it
    acquires them, for a wait on all of them in one go, each exactly once; no
    other object, queue or thread changes, and the result tells whether a mutex
    among them was abandoned. *)
Theorem end_wait_spec x s t th w next status :
  sync_ok x [] s → wait_room s → threads s !! t = Some th → t_wait th = w :: next → status_ok s t w status →
  wp (end_wait t status) (λ r s', r = wait_status s w status ∧ sync_ok x [] s' ∧ wait_room s' ∧
    ended t th w next (wait_acquires (objs s) w status) s s') s.
Proof. exact (end_wait_ok x s t th w next status). Qed.

(** C10: [wake_up] terminates without a fault for every limit; if every thread has to
    wait but for the object [o], and [o] can be acquired no more often than the
    limit says, then afterwards no thread is left waiting that could go on; if it
    wakes nobody it changes nothing. *)
Theorem wake_up_spec x o max s :
  sync_ok x [] s → wait_room s → anchored x s o →
  wp (wake_up o max) (λ _ s', sync_ok x [] s' ∧ wait_room s' ∧ woken s s' ∧
    (nwaits s' = nwaits s → s' = s) ∧ ((∀ t, blocked_but o s t) → limited o max s → quiet s')) s.
Proof. intros Hs Hr Ha. eapply wp_mono; [by apply wake_up_ok|]. naive_solver. Qed.

(** a thread that ends abandons the mutexes it owns: its list is empty
    afterwards, and each of these mutexes, if it still exists, either has been
    given to another thread or is free and marked abandoned; no thread is left
    waiting that could go on. *)
Theorem abandon_mutexes_spec x s t th :
  sync_ok x [] s → wait_room s → threads s !! t = Some th → t_wait th = [] →
  wp (abandon_mutexes t) (λ _ s', sync_ok x [] s' ∧ wait_room s' ∧ (quiet s → quiet s') ∧
    threads s' !! t = Some (th_mutex_list [] th) ∧ ∀ p, p ∈ t_mutex_list th → left_behind t s' p) s.
Proof.
  intros Hs Hr Ht Hi. unfold abandon_mutexes. apply wp_bind, (wp_get_thread _ th); [done|].
  eapply wp_mono; [by apply abandon_loop_ok|]. naive_solver.
Qed.

Lemma end_wait_witness : wp (end_wait 4 STATUS_TIMEOUT) (λ r s', r = STATUS_TIMEOUT ∧ sync_ok (x_list wd_refs) [] s') wd.
Proof.
  eapply wp_mono; [apply (end_wait_spec (x_list wd_refs) wd 4 _ (wd_wait 2 [12; 14]%positive SELECT_WAIT_ALL 8) [] STATUS_TIMEOUT wd_ok wd_room eq_refl eq_refl)|].
  - intros H. vm_compute in H. discriminate H.
  - intros r s' (A & B & _). split; [exact A|exact B].
Defined.

Lemma wake_up_witness : wp (wake_up 11 1) (λ _ s', quiet s') wd_req.
Proof.
  eapply wp_mono; [apply (wake_up_spec (x_list wd_req_refs) 11 1 wd_req wd_req_ok wd_req_room)|].
  - eexists 10%positive, _. split_and!; [by apply Z.ltb_lt; vm_compute|eval_ok|right; eval_ok].
  - intros [] s' (_ & _ & _ & _ & H). apply H; [intros t; apply blocked_blocked_but, wd_req_quiet|].
    right. intros ob Hob. vm_compute in Hob. injection Hob as <-. exists 0. split; [done|lia].
Defined.

Lemma abandon_mutexes_witness : wp (abandon_mutexes 2) (λ _ s', quiet s' ∧ left_behind 2 s' 15) wd.
Proof.
  eapply wp_mono; [exact (abandon_mutexes_spec (x_list wd_refs) wd 2 (wd_thread [] [15%positive]) wd_ok wd_room eq_refl eq_refl)|].
  intros [] s' (_ & _ & Hq & _ & H). split; [exact (Hq wd_quiet)|]. apply H. by left.
Defined.

(** ** Defects *)

(** [wd] with one unit in the semaphore and nobody waiting for it. *)
Definition wd_one : server :=
  set_objs (<[13%positive:=Object 1 0 false [] None (semaphore_sync_data 1 10)]>) (set_threads (alter (th_wait []) 4%positive) wd).

(** a wait on all of two equal handles of a semaphore with count one finds both
    signaled and takes it twice: the assertion on the count fails and the server
    stops.  The handles of a request are not checked for duplicates. *)
Theorem select_all_duplicate : select_on (sel_wait true (Some [8; 8])) 9 0 TIMEOUT_INFINITE wd_one = Fault AssertFailed.
Proof. eval_ok. Qed.

(** Threads 3 and 4 wait on the auto-reset event: thread 3, queued first, on all of
    the semaphore and the event, and its timeout has passed, which the server has
    not handled yet; thread 4 on the event alone. *)
Definition wd_late : server :=
  set_objs (λ h, <[11%positive:=Object 1 0 false [WaitQueueEntry 3 1 1; WaitQueueEntry 4 2 0] None (event_sync_data false false)]>
    (<[10%positive:=Object 4 1 false [] None (event_data (Some 11%positive))]>
    (<[13%positive:=Object 1 0 false [WaitQueueEntry 3 1 0] None (semaphore_sync_data 0 10)]>
    (<[15%positive:=Object 2 0 false [] None (mutex_sync_data (Some 2%positive) 2 false)]>
    (<[14%positive:=Object 1 1 false [] None (mutex_data (Some 15%positive))]> h)))))
  (set_threads (λ m, <[3%positive:=wd_thread [ThreadWait 1 [12; 10]%positive 0 false SELECT_WAIT_ALL 0 7 500 true 0] []]>
    (<[4%positive:=wd_thread [wd_wait 2 [10]%positive SELECT_WAIT 8] []]> m)) wd).

Lemma wd_late_ok : sync_ok (x_list (wd_refs ++ [10%positive])) [] wd_late.
Proof. apply sync_okb_sound. eval_ok. Qed.

(** C11: signaling an auto-reset event can lose the wakeup: the thread whose timeout
    has passed is woken with [STATUS_TIMEOUT], which counts as the one wakeup
    allowed, so the loop stops; the event stays signaled and the thread that waits
    for it alone is left waiting although it could go on. *)
Theorem event_signal_lost_wakeup : ∃ s', event_sync_signal 11 1 wd_late = Done true s' ∧
  wakeups s' = [(3%positive, 7, STATUS_TIMEOUT)] ∧ data <$> objs s' !! 11%positive = Some (event_sync_data false true) ∧
  blocked wd_late 4 ∧ ¬ blocked s' 4.
Proof.
  eexists. split; [eval_ok|]. split; [done|]. split; [eval_ok|]. split.
  - intros th w next pr Ht Hw Hpr. vm_compute in Ht. injection Ht as <-. vm_compute in Hpr. injection Hpr as <-. injection Hw as <- <-. eval_ok.
  - intros H. specialize (H (wd_thread [wd_wait 2 [10]%positive SELECT_WAIT 8] []) _ [] (Process 8 (Some 5%positive) (Some 6%positive) 0) eq_refl eq_refl eq_refl).
    vm_compute in H. discriminate H.
Qed.
