(* ===== verification/Bitmap.v ===== *)
(** * Bitmaps (dlls/ntdll/rtlbitmap.c)

    Every routine of the file.  A bitmap is its size in bits and the array of
    32-bit words that stores it; bit [i] is bit [i mod 32] of word [i / 32].  The
    byte-wise routines read the words as little-endian bytes. *)

From stdpp Require Import base list.
From S2P Require Import Prelude.

Open Scope Z_scope.
Open Scope server_scope.

Record bitmap := Bitmap { SizeOfBitMap : Z; Buffer : list Z }.

Notation BM := (ST bitmap).

Definition ALL_ONES : Z := 4294967295.

(** [~0u << (idx & 31)]. *)
Definition maskbits (idx : Z) : Z := w32 (Z.shiftl ALL_ONES (Z.land idx 31)).

Definition read_word (pos : Z) : BM Z := bm <- get; arr_get (Buffer bm) pos.
Definition write_word (pos x : Z) : BM unit :=
  bm <- get; b <- arr_set (Buffer bm) pos x; modify (λ _, Bitmap (SizeOfBitMap bm) b).
Definition update_word (pos : Z) (f : Z → Z) : BM unit := x <- read_word pos; write_word pos (f x).

Definition RtlInitializeBitMap (lpBuff : list Z) (ulSize : Z) : bitmap := Bitmap ulSize lpBuff.

(** [while (pos < end_pos) Buffer[pos++] = x]. *)
Fixpoint fill_words (n : nat) (pos x : Z) : BM unit :=
  match n with
  | O => ret tt
  | S n => write_word pos x ;; fill_words n (pos + 1) x
  end.

(** The [memset] over the words that hold the bits of the bitmap. *)
Definition words_used (size : Z) : Z := Z.shiftr (Z.land (w32 (size + 31)) (not32 31)) 5.
Definition RtlSetAllBits : BM unit :=
  bm <- get; fill_words (Z.to_nat (words_used (SizeOfBitMap bm))) 0 ALL_ONES.
Definition RtlClearAllBits : BM unit :=
  bm <- get; fill_words (Z.to_nat (words_used (SizeOfBitMap bm))) 0 0.

(** The test that starts the four range routines. *)
Definition bad_range (bm : bitmap) (start count : Z) : bool :=
  (count =? 0) || (SizeOfBitMap bm <=? start) || (w32 (SizeOfBitMap bm - start) <? count).

Definition RtlSetBits (start count : Z) : BM unit :=
  bm <- get;
  let end_ := w32 (start + count) in
  let pos := start / 32 in
  let end_pos := end_ / 32 in
  if bad_range bm start count then ret tt
  else if pos <? end_pos then
    update_word pos (λ x, Z.lor x (maskbits start)) ;;
    fill_words (Z.to_nat (end_pos - (pos + 1))) (pos + 1) ALL_ONES ;;
    (if negb (Z.land end_ 31 =? 0)
     then update_word end_pos (λ x, Z.lor x (not32 (maskbits end_))) else ret tt)
  else update_word pos (λ x, Z.lor x (Z.land (maskbits start) (not32 (maskbits end_)))).

Definition RtlClearBits (start count : Z) : BM unit :=
  bm <- get;
  let end_ := w32 (start + count) in
  let pos := start / 32 in
  let end_pos := end_ / 32 in
  if bad_range bm start count then ret tt
  else if pos <? end_pos then
    update_word pos (λ x, Z.land x (not32 (maskbits start))) ;;
    fill_words (Z.to_nat (end_pos - (pos + 1))) (pos + 1) 0 ;;
    (if negb (Z.land end_ 31 =? 0)
     then update_word end_pos (λ x, Z.land x (maskbits end_)) else ret tt)
  else update_word pos (λ x, Z.land x (Z.lor (not32 (maskbits start)) (maskbits end_))).

(** [while (pos < end_pos) if (Buffer[pos++] != x) return FALSE]. *)
Fixpoint words_are (n : nat) (pos x : Z) : BM bool :=
  match n with
  | O => ret true
  | S n => w <- read_word pos; if w =? x then words_are n (pos + 1) x else ret false
  end.

Definition RtlAreBitsSet (start count : Z) : BM bool :=
  bm <- get;
  let end_ := w32 (start + count) in
  let pos := start / 32 in
  let end_pos := end_ / 32 in
  if bad_range bm start count then ret false
  else if end_pos =? pos then
    w <- read_word pos;
    ret (Z.lor (Z.lor w (not32 (maskbits start))) (maskbits end_) =? ALL_ONES)
  else
    w <- read_word pos;
    if negb (Z.lor w (not32 (maskbits start)) =? ALL_ONES) then ret false
    else
      ok <- words_are (Z.to_nat (end_pos - (pos + 1))) (pos + 1) ALL_ONES;
      if negb ok then ret false
      else if Z.land end_ 31 =? 0 then ret true
      else w <- read_word end_pos; ret (Z.lor w (maskbits end_) =? ALL_ONES).

Definition RtlAreBitsClear (start count : Z) : BM bool :=
  bm <- get;
  let end_ := w32 (start + count) in
  let pos := start / 32 in
  let end_pos := end_ / 32 in
  if bad_range bm start count then ret false
  else if end_pos =? pos then
    w <- read_word pos;
    ret (Z.land (Z.land w (maskbits start)) (not32 (maskbits end_)) =? 0)
  else
    w <- read_word pos;
    if negb (Z.land w (maskbits start) =? 0) then ret false
    else
      ok <- words_are (Z.to_nat (end_pos - (pos + 1))) (pos + 1) 0;
      if negb ok then ret false
      else if Z.land end_ 31 =? 0 then ret true
      else w <- read_word end_pos; ret (Z.land w (not32 (maskbits end_)) =? 0).

(** The search loop of [RtlFindSetBits] and [RtlFindClearBits], with the test
    [are] that tells them apart. *)
Section find.
Context (are : Z → Z → BM bool).

Fixpoint find_loop (fuel : nat) (ulCount ulPos ulEnd ulHint : Z) : BM Z :=
  if ulPos <? ulEnd then
    match fuel with
    | O => fail OutOfFuel
    | S fuel =>
        ok <- are ulPos ulCount;
        if ok : bool then ret ulPos
        else if (ulPos =? ulEnd - 1) && negb (ulHint =? 0)
        then find_loop fuel ulCount 0 ulHint 0
        else find_loop fuel ulCount (ulPos + 1) ulEnd ulHint
    end
  else ret ALL_ONES.

Definition find_bits (ulCount ulHint : Z) : BM Z :=
  bm <- get;
  let size := SizeOfBitMap bm in
  if (ulCount =? 0) || (size <? ulCount) then ret ALL_ONES
  else
    let ulHint := if size <? w32 (ulHint + ulCount) then 0 else ulHint in
    find_loop (Z.to_nat size) ulCount ulHint size ulHint.
End find.

Definition RtlFindSetBits : Z → Z → BM Z := find_bits RtlAreBitsSet.
Definition RtlFindClearBits : Z → Z → BM Z := find_bits RtlAreBitsClear.

Definition RtlFindSetBitsAndClear (ulCount ulHint : Z) : BM Z :=
  ulPos <- RtlFindSetBits ulCount ulHint;
  (if negb (ulPos =? ALL_ONES) then RtlClearBits ulPos ulCount else ret tt) ;;
  ret ulPos.

Definition RtlFindClearBitsAndSet (ulCount ulHint : Z) : BM Z :=
  ulPos <- RtlFindClearBits ulCount ulHint;
  (if negb (ulPos =? ALL_ONES) then RtlSetBits ulPos ulCount else ret tt) ;;
  ret ulPos.

(** [__popcnt]: the number of one bits of a word. *)
Definition popcnt (x : Z) : Z := count_b (λ i, Z.testbit x (Z.of_nat i)) (seq 0 32).

Fixpoint popcnt_words (n : nat) (i acc : Z) : BM Z :=
  match n with
  | O => ret acc
  | S n => w <- read_word i; popcnt_words n (i + 1) (w32 (acc + popcnt w))
  end.

Definition RtlNumberOfSetBits : BM Z :=
  bm <- get;
  let size := SizeOfBitMap bm in
  acc <- popcnt_words (Z.to_nat (size / 32)) 0 0;
  if negb (Z.land size 31 =? 0) then
    w <- read_word (size / 32);
    ret (w32 (acc + popcnt (Z.land w (not32 (maskbits size)))))
  else ret acc.

Definition RtlNumberOfClearBits : BM Z :=
  bm <- get; n <- RtlNumberOfSetBits; ret (w32 (SizeOfBitMap bm - n)).

(** ** Most and least significant bits of a 64-bit integer *)

Definition NTDLL_leastSignificant : list Z := [0; 0; 1; 0; 2; 0; 1; 0; 3; 0; 1; 0; 2; 0; 1; 0].
Definition NTDLL_mostSignificant : list Z := [-1; 0; 1; 1; 2; 2; 2; 2; 3; 3; 3; 3; 3; 3; 3; 3].

Definition RtlFindMostSignificantBit (ulLong : Z) : Z :=
  let hi := Z.shiftr ulLong 32 in
  let '(dw, pos) := if hi =? 0 then (w32 ulLong, 0) else (hi, 32) in
  let '(dw, pos) := if has dw 0xffff0000 then (Z.shiftr dw 16, pos + 16) else (dw, pos) in
  let '(dw, pos) := if has dw 0xff00 then (Z.shiftr dw 8, pos + 8) else (dw, pos) in
  let '(dw, pos) := if has dw 0xf0 then (Z.shiftr dw 4, pos + 4) else (dw, pos) in
  pos + default 0 (NTDLL_mostSignificant !! Z.to_nat dw).

Definition RtlFindLeastSignificantBit (ulLong : Z) : Z :=
  let lo := w32 ulLong in
  let hi := Z.shiftr ulLong 32 in
  if (lo =? 0) && (hi =? 0) then -1
  else
    let '(dw, pos) := if lo =? 0 then (hi, 32) else (lo, 0) in
    let '(dw, pos) := if negb (has dw 0xffff) then (Z.shiftr dw 16, pos + 16) else (dw, pos) in
    let '(dw, pos) := if negb (has dw 0xff) then (Z.shiftr dw 8, pos + 8) else (dw, pos) in
    let '(dw, pos) := if negb (has dw 0x0f) then (Z.shiftr dw 4, pos + 4) else (dw, pos) in
    pos + default 0 (NTDLL_leastSignificant !! Z.to_nat (Z.land dw 15)).

(** ** Runs *)

(** Byte [k] of the buffer. *)
Definition read_byte (k : Z) : BM Z :=
  w <- read_word (k / 4); ret (Z.land (Z.shiftr w (8 * (k mod 4))) 255).

(** The count of the bits of [bFirst] from [ulOffset] on that are one; the flag
    tells whether they reach the end of the byte. *)
Fixpoint count_first (n : nat) (bFirst ulOffset ulCount : Z) : Z * bool :=
  match n with
  | O => (ulCount, true)
  | S n => if Z.testbit bFirst ulOffset then count_first n bFirst (ulOffset + 1) (ulCount + 1)
           else (ulCount, false)
  end.

(** The final loop: leading one bits of a byte that is not [0xff], seven at most. *)
Fixpoint count_last (n : nat) (byte ulOffset ulCount : Z) : Z :=
  match n with
  | O => ulCount
  | S n => if Z.testbit byte ulOffset then count_last n byte (ulOffset + 1) (ulCount + 1) else ulCount
  end.

(** [NTDLL_FindSetRun] and [NTDLL_FindClearRun] differ in the complement: [inv]
    is [0] for the first and [0xff] for the second.  The result is the position
    (all ones when there is none) and, when one was stored, the size. *)
Section runs.
Context (inv : Z).

Fixpoint count_blocks (fuel : nat) (size ulFoundAt ulCount ulStart k : Z) : BM (Z * option Z) :=
  b <- read_byte k;
  let b := Z.lxor b inv in
  if b =? 0xff then
    let ulCount := w32 (ulCount + 8) in
    let ulStart := w32 (ulStart + 8) in
    if size <=? ulStart then ret (ulFoundAt, Some (w32 (ulCount - (ulStart - size))))
    else match fuel with
    | O => fail OutOfFuel
    | S fuel => count_blocks fuel size ulFoundAt ulCount ulStart (k + 1)
    end
  else ret (ulFoundAt, Some (if Z.testbit b 0 then count_last 7 b 0 ulCount else ulCount)).

(** After the first byte with a bit of the run. *)
Definition run_tail (size ulFoundAt ulCount ulStart k : Z) : BM (Z * option Z) :=
  if size <=? ulStart then ret (ulFoundAt, Some (w32 (ulCount - (ulStart - size))))
  else count_blocks (Z.to_nat size) size ulFoundAt ulCount ulStart k.

Fixpoint find_run (fuel : nat) (size ulStart k : Z) : BM (Z * option Z) :=
  b <- read_byte k;
  let bMask := Z.land (Z.shiftl 0xff (Z.land ulStart 7)) 0xff in
  let bFirst := Z.land (Z.lxor b inv) bMask in
  if negb (bFirst =? 0) then
    if negb (bFirst =? bMask) then
      let ulOffset := if has bFirst 0x0f
                      then default 0 (NTDLL_leastSignificant !! Z.to_nat (Z.land bFirst 15))
                      else 4 + default 0 (NTDLL_leastSignificant !! Z.to_nat (Z.shiftr bFirst 4)) in
      let ulStart := w32 (ulStart + ulOffset) in
      let ulFoundAt := ulStart in
      let '(ulCount, to_end) := count_first (8 - Z.to_nat ulOffset) bFirst ulOffset 0 in
      if negb to_end then ret (ulFoundAt, Some ulCount)
      else run_tail size ulFoundAt ulCount (w32 (ulStart + ulCount)) (k + 1)
    else
      run_tail size ulStart (8 - Z.land ulStart 7) (w32 (Z.land ulStart (not32 7) + 8)) (k + 1)
  else
    let ulStart := w32 (Z.land ulStart (not32 7) + 8) in
    if size <=? ulStart then ret (ALL_ONES, None)
    else match fuel with
    | O => fail OutOfFuel
    | S fuel => find_run fuel size ulStart (k + 1)
    end.

Definition FindRun (ulStart : Z) : BM (Z * option Z) :=
  bm <- get; find_run (Z.to_nat (SizeOfBitMap bm)) (SizeOfBitMap bm) ulStart (Z.shiftr ulStart 3).
End runs.

Definition NTDLL_FindSetRun : Z → BM (Z * option Z) := FindRun 0.
Definition NTDLL_FindClearRun : Z → BM (Z * option Z) := FindRun 0xff.

(** The size returned and the position stored, when one is. *)
Definition next_forward_run (find : Z → BM (Z * option Z)) (ulStart : Z) : BM (Z * option Z) :=
  bm <- get;
  if ulStart <? SizeOfBitMap bm then r <- find ulStart; ret (default 0 (snd r), Some (fst r))
  else ret (0, None).
Definition RtlFindNextForwardRunSet : Z → BM (Z * option Z) := next_forward_run NTDLL_FindSetRun.
Definition RtlFindNextForwardRunClear : Z → BM (Z * option Z) := next_forward_run NTDLL_FindClearRun.
