(* ===== verification/BitmapThms.v ===== *)
(** * Correctness of the bitmap routines

    [bit bm i] is bit [i] of a bitmap.  The range routines are related to it: what
    they write, what they test and which block the searches return. *)

From stdpp Require Import base list.
From S2P Require Import Prelude Bitmap.

Open Scope Z_scope.
Open Scope server_scope.

Definition word (bm : bitmap) (q : Z) : Z := default 0 (Buffer bm !! Z.to_nat q).
Definition bit (bm : bitmap) (i : Z) : bool := Z.testbit (word bm (i / 32)) (i mod 32).
Definition bit_room (bm : bitmap) : Z := Z.of_nat (length (Buffer bm)).

(** A bitmap whose buffer holds its bits. *)
Definition wf_bitmap (bm : bitmap) : Prop :=
  u32 (SizeOfBitMap bm) ∧ SizeOfBitMap bm <= 32 * bit_room bm ∧ Forall u32 (Buffer bm).

(** Same shape, other bits: [bm'] is [bm] with bit [i] equal to [g i]. *)
Definition rebits (bm bm' : bitmap) (g : Z → bool) : Prop :=
  wf_bitmap bm' ∧ SizeOfBitMap bm' = SizeOfBitMap bm ∧ bit_room bm' = bit_room bm ∧
  (∀ i, 0 <= i < 32 * bit_room bm → bit bm' i = g i).

Definition in_range (start count i : Z) : bool := (start <=? i) && (i <? start + count).

Lemma word_u32 bm q : wf_bitmap bm → u32 (word bm q).
Proof.
  intros (_ & _ & Hb). unfold word. destruct (Buffer bm !! Z.to_nat q) eqn:E; [|done].
  by eapply Forall_lookup_1 in E.
Qed.

Lemma word_lookup bm q : 0 <= q < bit_room bm → Buffer bm !! Z.to_nat q = Some (word bm q).
Proof.
  intros Hq. unfold word, bit_room in *. destruct (lookup_lt_is_Some_2 (Buffer bm) (Z.to_nat q)) as [x Hx]; [lia|].
  by rewrite Hx.
Qed.

Lemma testbit_maskbits n j : 0 <= n → 0 <= j → Z.testbit (maskbits n) j = (n mod 32 <=? j) && (j <? 32).
Proof.
  intros Hn Hj. unfold maskbits. change 31 with (Z.ones 5). rewrite Z.land_ones by lia.
  change (2 ^ 5) with 32. assert (0 <= n mod 32 < 32) by (apply Z.mod_pos_bound; lia).
  rewrite testbit_w32 by done. destruct (Z.ltb_spec j 32); [|by rewrite andb_false_r]. simpl.
  rewrite Z.shiftl_spec by done. destruct (Z.leb_spec (n mod 32) j); simpl.
  - unfold ALL_ONES. rewrite testbit_ones32 by lia. apply Z.ltb_lt. lia.
  - by rewrite Z.testbit_neg_r by lia.
Qed.

Lemma u32_maskbits n : u32 (maskbits n).
Proof. apply w32_range. Qed.
Lemma u32_ones : u32 ALL_ONES.
Proof. done. Qed.
Lemma maskbits_nonneg n : 0 <= maskbits n.
Proof. apply w32_range. Qed.
Lemma not32_nonneg n : 0 <= not32 n.
Proof. apply u32_not32. Qed.
#[export] Hint Resolve u32_maskbits word_u32 u32_ones maskbits_nonneg not32_nonneg : words.

(** A whole word is determined by its bits. *)
Lemma word_eqb w m : u32 w → u32 m →
  (w =? m) = true ↔ ∀ r, 0 <= r < 32 → Z.testbit w r = Z.testbit m r.
Proof.
  intros Hw Hm. rewrite Z.eqb_eq. split; [by intros ->|]. intros H. apply Z.bits_inj'. intros r Hr.
  destruct (Z.ltb_spec r 32); [apply H; lia|]. by rewrite !u32_testbit_high.
Qed.

(** ** Single accesses *)

Lemma wp_read_word q Q bm : 0 <= q < bit_room bm → Q (word bm q) bm → wp (read_word q) Q bm.
Proof.
  intros Hq HQ. unfold read_word. wp_steps. eapply wp_arr_get; [lia|by apply word_lookup|done].
Qed.

Lemma wp_write_word q x (Q : unit → bitmap → Prop) bm : wf_bitmap bm → 0 <= q < bit_room bm → u32 x →
  (∀ bm', rebits bm bm' (λ i, if i / 32 =? q then Z.testbit x (i mod 32) else bit bm i) → Q tt bm') →
  wp (write_word q x) Q bm.
Proof.
  intros (Hs & Hr & Hb) Hq Hx HQ. unfold write_word. wp_steps. apply wp_arr_set; [done|]. wp_steps.
  apply HQ. unfold rebits, wf_bitmap, bit_room in *; simpl. rewrite length_insert.
  split_and!; try done; try lia.
  - by apply Forall_insert.
  - intros i Hi. unfold bit, word; simpl.
    destruct (Z.eqb_spec (i / 32) q) as [->|Hne].
    + by rewrite list_lookup_insert_eq by lia.
    + rewrite list_lookup_insert_ne; [done|]. assert (0 <= i / 32) by (apply Z.div_pos; lia). lia.
Qed.

Lemma wp_update_word q f (Q : unit → bitmap → Prop) bm : wf_bitmap bm → 0 <= q < bit_room bm →
  (∀ x, u32 x → u32 (f x)) →
  (∀ bm', rebits bm bm' (λ i, if i / 32 =? q then Z.testbit (f (word bm q)) (i mod 32) else bit bm i) → Q tt bm') →
  wp (update_word q f) Q bm.
Proof.
  intros Hwf Hq Hf HQ. unfold update_word. wp_steps. apply wp_read_word; [done|].
  apply wp_write_word; auto with words.
Qed.

Lemma wp_fill_words n q x (Q : unit → bitmap → Prop) bm : wf_bitmap bm → 0 <= q → q + Z.of_nat n <= bit_room bm → u32 x →
  (∀ bm', rebits bm bm' (λ i, if (q <=? i / 32) && (i / 32 <? q + Z.of_nat n)
                               then Z.testbit x (i mod 32) else bit bm i) → Q tt bm') →
  wp (fill_words n q x) Q bm.
Proof.
  revert q Q bm. induction n as [|n IH]; intros q Q bm Hwf Hq Hn Hx HQ; simpl.
  - apply wp_ret, HQ. do 3 (split; [done|]). intros i Hi.
    destruct (Z.leb_spec q (i / 32)), (Z.ltb_spec (i / 32) (q + Z.of_nat 0)); simpl; done || lia.
  - wp_steps. apply wp_write_word; [done|lia|done|]. intros bm1 (Hwf1 & Hs1 & Hr1 & Hb1).
    apply IH; [done|lia|lia|done|]. intros bm2 (Hwf2 & Hs2 & Hr2 & Hb2). apply HQ.
    do 3 (split; [done||congruence|]). intros i Hi. rewrite Hb2, Hb1 by lia.
    destruct (Z.leb_spec (q + 1) (i / 32)), (Z.ltb_spec (i / 32) (q + 1 + Z.of_nat n)),
      (Z.leb_spec q (i / 32)), (Z.ltb_spec (i / 32) (q + Z.of_nat (S n))), (Z.eqb_spec (i / 32) q);
      simpl; done || lia.
Qed.

(** The two halves of a bit position. *)
Lemma split_bit i : 0 <= i → ∃ q r, i = 32 * q + r ∧ 0 <= q ∧ 0 <= r < 32 ∧ i / 32 = q ∧ i mod 32 = r.
Proof.
  intros Hi. exists (i / 32), (i mod 32). pose proof (Z.mod_pos_bound i 32).
  pose proof (Z.div_mod i 32). pose proof (Z.div_pos i 32). repeat split; lia.
Qed.

Lemma land_31 n : 0 <= n → Z.land n 31 = n mod 32.
Proof. intros. change 31 with (Z.ones 5). by rewrite Z.land_ones. Qed.

Lemma bad_range_spec bm start count : u32 (SizeOfBitMap bm) → u32 start → u32 count →
  bad_range bm start count = negb ((0 <? count) && (start + count <=? SizeOfBitMap bm)).
Proof.
  unfold u32, bad_range. intros Hs Hst Hc.
  destruct (Z.eqb_spec count 0); [subst; done|]. rewrite (proj2 (Z.ltb_lt 0 count)) by lia. simpl.
  destruct (Z.leb_spec (SizeOfBitMap bm) start); simpl.
  - by rewrite (proj2 (Z.leb_gt _ _)) by lia.
  - rewrite w32_small by (unfold u32; lia).
    destruct (Z.ltb_spec (SizeOfBitMap bm - start) count), (Z.leb_spec (start + count) (SizeOfBitMap bm)); done || lia.
Qed.

(** Case analysis on every comparison of the goal, the impossible cases closed. *)
Ltac bool_cases :=
  repeat match goal with
  | |- context [?a =? ?b] => destruct (Z.eqb_spec a b); try lia
  | |- context [?a <=? ?b] => destruct (Z.leb_spec a b); try lia
  | |- context [?a <? ?b] => destruct (Z.ltb_spec a b); try lia
  end; simpl; try done; try lia.

(** ** Setting and clearing a range *)

(** What the three kinds of word updates do to one bit. *)
Lemma testbit_lor_mask w m r : Z.testbit (Z.lor w m) r = if Z.testbit m r then true else Z.testbit w r.
Proof. rewrite Z.lor_spec. by destruct (Z.testbit m r), (Z.testbit w r). Qed.
Lemma testbit_land_mask w m r : Z.testbit (Z.land w m) r = if Z.testbit m r then Z.testbit w r else false.
Proof. rewrite Z.land_spec. by destruct (Z.testbit m r), (Z.testbit w r). Qed.

Ltac mask_bits :=
  rewrite ?testbit_lor_mask, ?testbit_land_mask, ?Z.lor_spec, ?Z.land_spec;
  rewrite ?testbit_not32, ?testbit_maskbits by lia;
  rewrite ?testbit_lor_mask, ?testbit_land_mask, ?testbit_not32, ?testbit_maskbits by lia.

(** The writers share their shape: a partial first word, full words, a partial
    last word, or one word that is both first and last.  [b] is the value written
    and [f1], [f2], [f12] are the three updates. *)
Section write_range.
Context (b : bool) (f1 f2 f12 : Z → Z → Z → Z) (full : Z).
Context (Hfull : u32 full ∧ ∀ r, 0 <= r < 32 → Z.testbit full r = b).
Context (Hu : ∀ s e x, u32 x → u32 (f1 s e x) ∧ u32 (f2 s e x) ∧ u32 (f12 s e x)).
Context (Hf1 : ∀ s e x r, 0 <= s → 0 <= e → 0 <= r < 32 →
  Z.testbit (f1 s e x) r = if s mod 32 <=? r then b else Z.testbit x r).
Context (Hf2 : ∀ s e x r, 0 <= s → 0 <= e → 0 <= r < 32 →
  Z.testbit (f2 s e x) r = if r <? e mod 32 then b else Z.testbit x r).
Context (Hf12 : ∀ s e x r, 0 <= s → 0 <= e → 0 <= r < 32 →
  Z.testbit (f12 s e x) r = if (s mod 32 <=? r) && (r <? e mod 32) then b else Z.testbit x r).

Definition write_range (start count : Z) : BM unit :=
  bm <- get;
  let end_ := w32 (start + count) in
  let pos := start / 32 in
  let end_pos := end_ / 32 in
  if bad_range bm start count then ret tt
  else if pos <? end_pos then
    update_word pos (f1 start end_) ;;
    fill_words (Z.to_nat (end_pos - (pos + 1))) (pos + 1) full ;;
    (if negb (Z.land end_ 31 =? 0) then update_word end_pos (f2 start end_) else ret tt)
  else update_word pos (f12 start end_).

Definition range_ok (bm : bitmap) (start count : Z) : bool :=
  (0 <? count) && (start + count <=? SizeOfBitMap bm).

Definition written (bm : bitmap) (start count i : Z) : bool :=
  if range_ok bm start count && in_range start count i then b else bit bm i.

Lemma wp_write_range start count bm :
  wf_bitmap bm → u32 start → u32 count →
  wp (write_range start count) (λ _ bm', rebits bm bm' (written bm start count)) bm.
Proof.
  intros Hwf Hst Hc. pose proof Hwf as (Hs & Hroom & _).
  unfold write_range, written. wp_steps. cbv zeta. rewrite bad_range_spec by done. fold (range_ok bm start count).
  unfold u32 in Hs, Hst, Hc. destruct (range_ok bm start count) eqn:Hok; simpl.
  2: { apply wp_ret. by do 3 (split; [done|]). }
  unfold range_ok in Hok. apply andb_prop in Hok as [?%Z.ltb_lt ?%Z.leb_le].
  rewrite w32_small by (unfold u32; lia).
  destruct (split_bit start) as (q1 & r1 & E1 & Hq1 & Hr1 & D1 & M1); [lia|].
  destruct (split_bit (start + count)) as (q2 & r2 & E2 & Hq2 & Hr2 & D2 & M2); [lia|].
  rewrite D1, D2, land_31, M2 by lia.
  destruct (Z.ltb_spec q1 q2).
  - wp_steps. apply wp_update_word; [done|lia|by intros; apply Hu|]. intros bm1 (Hwf1 & Hs1 & Hro1 & Hb1).
    wp_steps. apply wp_fill_words; [done|lia|lia|apply Hfull|]. intros bm2 (Hwf2 & Hs2 & Hro2 & Hb2).
    assert (Hmid : ∀ i, 0 <= i < 32 * bit_room bm →
      bit bm2 i = if (start <=? i) && (i <? 32 * q2) then b else bit bm i).
    { intros i Hi. rewrite Hb2, Hb1 by lia.
      destruct (split_bit i) as (q & r & Ei & Hq & Hr & Di & Mi); [lia|]. rewrite Di, Mi.
      rewrite Hf1, M1, (proj2 Hfull) by lia. unfold bit. rewrite Di, Mi. bool_cases; by f_equal; f_equal. }
    destruct (Z.eqb_spec r2 0); simpl.
    + apply wp_ret. split; [done|]. split; [congruence|]. split; [congruence|]. intros i Hi. rewrite Hmid by lia.
      unfold in_range. by replace (32 * q2) with (start + count) by lia.
    + apply wp_update_word; [done|lia|by intros; apply Hu|]. intros bm3 (Hwf3 & Hs3 & Hro3 & Hb3).
      split; [done|]. split; [congruence|]. split; [congruence|]. intros i Hi. rewrite Hb3 by lia.
      destruct (split_bit i) as (q & r & Ei & Hq & Hr & Di & Mi); [lia|]. rewrite Di, Mi.
      destruct (Z.eqb_spec q q2) as [->|].
      * rewrite Hf2, M2 by lia. specialize (Hmid i Hi). unfold bit in Hmid at 1. rewrite Di, Mi in Hmid.
        rewrite Hmid. unfold in_range. bool_cases.
      * rewrite Hmid by lia. unfold in_range. bool_cases.
  - apply wp_update_word; [done|lia|by intros; apply Hu|]. intros bm1 (Hwf1 & Hs1 & Hro1 & Hb1).
    do 3 (split; [done|]). intros i Hi. rewrite Hb1 by lia.
    destruct (split_bit i) as (q & r & Ei & Hq & Hr & Di & Mi); [lia|]. rewrite Di, Mi.
    unfold in_range. destruct (Z.eqb_spec q q1) as [->|].
    + rewrite Hf12, M1, M2 by lia. unfold bit. rewrite Di, Mi. bool_cases.
    + bool_cases.
Qed.
End write_range.

Lemma ones_bits : u32 ALL_ONES ∧ ∀ r, 0 <= r < 32 → Z.testbit ALL_ONES r = true.
Proof. split; [done|]. intros r Hr. unfold ALL_ONES. rewrite testbit_ones32 by lia. apply Z.ltb_lt. lia. Qed.
Lemma zero_bits : u32 0 ∧ ∀ r, 0 <= r < 32 → Z.testbit 0 r = false.
Proof. split; [done|]. intros r Hr. apply Z.bits_0. Qed.

(** [RtlSetBits] on a bitmap whose buffer is large enough never touches memory
    outside it, and sets exactly the bits of the range when the range is not empty
    and lies in the bitmap; otherwise it changes nothing.  Bits of the buffer past
    the end of the bitmap are included in what is left alone. *)
Lemma RtlSetBits_ok bm start count :
  wf_bitmap bm → u32 start → u32 count →
  wp (RtlSetBits start count) (λ _ bm', rebits bm bm' (written true bm start count)) bm.
Proof.
  apply (wp_write_range true (λ s e x, Z.lor x (maskbits s)) (λ s e x, Z.lor x (not32 (maskbits e)))
           (λ s e x, Z.lor x (Z.land (maskbits s) (not32 (maskbits e)))) ALL_ONES ones_bits).
  - intros s e x Hx. split_and!; auto 7 with words.
  - intros s e x r ???. mask_bits. bool_cases.
  - intros s e x r ???. mask_bits. bool_cases.
  - intros s e x r ???. mask_bits. bool_cases.
Qed.

(** [RtlClearBits] clears exactly the bits of a valid range and otherwise
    changes nothing, without leaving the buffer. *)
Lemma RtlClearBits_ok bm start count :
  wf_bitmap bm → u32 start → u32 count →
  wp (RtlClearBits start count) (λ _ bm', rebits bm bm' (written false bm start count)) bm.
Proof.
  apply (wp_write_range false (λ s e x, Z.land x (not32 (maskbits s))) (λ s e x, Z.land x (maskbits e))
           (λ s e x, Z.land x (Z.lor (not32 (maskbits s)) (maskbits e))) 0 zero_bits).
  - intros s e x Hx. split_and!; apply u32_land; auto with words; apply u32_not32 || apply Z.lor_nonneg || apply w32_range.
    split; [apply u32_not32|apply w32_range].
  - intros s e x r ???. mask_bits. bool_cases.
  - intros s e x r ???. mask_bits. bool_cases.
  - intros s e x r ???. mask_bits. bool_cases.
Qed.

(** ** Testing a range *)

(** Every bit of the range has the value [b]. *)
Definition all_bits (b : bool) (bm : bitmap) (start count : Z) : Prop :=
  ∀ i, start <= i < start + count → bit bm i = b.

(** Bits of word [q] from [lo] to [hi]. *)
Definition word_bits (b : bool) (bm : bitmap) (q lo hi : Z) : Prop :=
  ∀ r, lo <= r < hi → Z.testbit (word bm q) r = b.

Lemma all_bits_word b bm q lo hi : 0 <= q → 0 <= lo → hi <= 32 →
  word_bits b bm q lo hi ↔ all_bits b bm (32 * q + lo) (hi - lo).
Proof.
  intros Hq Hlo Hhi. split.
  - intros H i Hi. unfold bit. destruct (split_bit i) as (q' & r & Ei & ? & ? & -> & ->); [lia|].
    replace q' with q by lia. apply H. lia.
  - intros H r Hr. specialize (H (32 * q + r)). unfold bit in H.
    destruct (split_bit (32 * q + r)) as (q' & r' & Ei & ? & ? & D & M); [lia|].
    rewrite D, M in H. replace q' with q in H by lia. replace r' with r in H by lia. apply H. lia.
Qed.

Lemma all_bits_app b bm start c1 c2 : 0 <= c1 → 0 <= c2 →
  all_bits b bm start (c1 + c2) ↔ all_bits b bm start c1 ∧ all_bits b bm (start + c1) c2.
Proof.
  intros H1 H2. unfold all_bits. split.
  - intros H. split; intros i Hi; apply H; lia.
  - intros [Ha Hb] i Hi. destruct (Z.ltb_spec i (start + c1)); [apply Ha|apply Hb]; lia.
Qed.

Lemma words_are_ok n q x b bm : wf_bitmap bm → 0 <= q → q + Z.of_nat n <= bit_room bm →
  u32 x ∧ (∀ r, 0 <= r < 32 → Z.testbit x r = b) →
  wp (words_are n q x) (λ ok bm', bm' = bm ∧ (ok = true ↔ all_bits b bm (32 * q) (32 * Z.of_nat n))) bm.
Proof.
  intros Hwf Hq Hn [Hx Hxb]. revert q Hq Hn. induction n as [|n IH]; intros q Hq Hn; simpl.
  - apply wp_ret. split; [done|]. split; [|done]. intros _ i Hi. lia.
  - wp_steps. apply wp_read_word; [lia|].
    assert (Hw : (word bm q =? x) = true ↔ all_bits b bm (32 * q) 32).
    { rewrite word_eqb by auto with words. replace (32 * q) with (32 * q + 0) by lia.
      rewrite <-(all_bits_word b bm q 0 32) by lia. unfold word_bits.
      split; intros H r Hr; [rewrite <-(Hxb r) by lia|rewrite (Hxb r) by lia]; by apply H. }
    assert (Hsplit : all_bits b bm (32 * q) (32 * Z.of_nat (S n)) ↔
      all_bits b bm (32 * q) 32 ∧ all_bits b bm (32 * (q + 1)) (32 * Z.of_nat n)).
    { replace (32 * Z.of_nat (S n)) with (32 + 32 * Z.of_nat n) by lia.
      rewrite all_bits_app by lia. by replace (32 * q + 32) with (32 * (q + 1)) by lia. }
    apply wp_if; intros E; rewrite E in Hw.
    + eapply wp_mono; [apply IH; lia|]. cbv beta. intros ok bm' [-> Hok]. split; [done|]. tauto.
    + apply wp_ret. split; [done|]. split; [done|]. intros H. apply Hw. by apply Hsplit.
Qed.

(** The readers share their shape too: [t1], [t2] and [t12] test a first word, a
    last word and a word that is both. *)
Section test_range.
Context (b : bool) (t1 t2 t12 : Z → Z → Z → bool) (full : Z).
Context (Hfull : u32 full ∧ ∀ r, 0 <= r < 32 → Z.testbit full r = b).
Context (Ht1 : ∀ s e w, 0 <= s → 0 <= e → u32 w →
  t1 s e w = true ↔ ∀ r, s mod 32 <= r < 32 → Z.testbit w r = b).
Context (Ht2 : ∀ s e w, 0 <= s → 0 <= e → u32 w →
  t2 s e w = true ↔ ∀ r, 0 <= r < e mod 32 → Z.testbit w r = b).
Context (Ht12 : ∀ s e w, 0 <= s → 0 <= e → u32 w →
  t12 s e w = true ↔ ∀ r, s mod 32 <= r < e mod 32 → Z.testbit w r = b).

Definition test_range (start count : Z) : BM bool :=
  bm <- get;
  let end_ := w32 (start + count) in
  let pos := start / 32 in
  let end_pos := end_ / 32 in
  if bad_range bm start count then ret false
  else if end_pos =? pos then w <- read_word pos; ret (t12 start end_ w)
  else
    w <- read_word pos;
    if negb (t1 start end_ w) then ret false
    else
      ok <- words_are (Z.to_nat (end_pos - (pos + 1))) (pos + 1) full;
      if negb ok then ret false
      else if Z.land end_ 31 =? 0 then ret true
      else w <- read_word end_pos; ret (t2 start end_ w).

Lemma wp_test_range start count bm :
  wf_bitmap bm → u32 start → u32 count →
  wp (test_range start count) (λ ok bm', bm' = bm ∧
    (ok = true ↔ range_ok bm start count = true ∧ all_bits b bm start count)) bm.
Proof.
  intros Hwf Hst Hc. pose proof Hwf as (Hs & Hroom & _).
  unfold test_range. wp_steps. cbv zeta. rewrite bad_range_spec by done. fold (range_ok bm start count).
  unfold u32 in Hs, Hst, Hc. destruct (range_ok bm start count) eqn:Hok; simpl.
  2: { apply wp_ret. split; [done|]. split; [done|]. by intros []. }
  unfold range_ok in Hok. apply andb_prop in Hok as [?%Z.ltb_lt ?%Z.leb_le].
  rewrite w32_small by (unfold u32; lia).
  destruct (split_bit start) as (q1 & r1 & E1 & Hq1 & Hr1 & D1 & M1); [lia|].
  destruct (split_bit (start + count)) as (q2 & r2 & E2 & Hq2 & Hr2 & D2 & M2); [lia|].
  rewrite D1, D2, land_31, M2 by lia.
  destruct (Z.eqb_spec q2 q1) as [->|].
  - wp_steps. apply wp_read_word; [lia|]. wp_steps. split; [done|].
    rewrite Ht12, M1, M2 by (lia || auto with words). fold (word_bits b bm q1 r1 r2).
    rewrite all_bits_word by lia. rewrite <-E1. replace (r2 - r1) with count by lia. tauto.
  - assert (Hsplit : all_bits b bm start count ↔ word_bits b bm q1 r1 32 ∧
      all_bits b bm (32 * (q1 + 1)) (32 * (q2 - (q1 + 1))) ∧ word_bits b bm q2 0 r2).
    { rewrite !all_bits_word by lia.
      replace count with ((32 - r1) + (32 * (q2 - (q1 + 1)) + r2)) by lia.
      rewrite !all_bits_app by lia. rewrite <-E1.
      replace (start + (32 - r1)) with (32 * (q1 + 1)) by lia.
      replace (32 * (q1 + 1) + 32 * (q2 - (q1 + 1))) with (32 * q2 + 0) by lia.
      by rewrite Z.sub_0_r. }
    wp_steps. apply wp_read_word; [lia|].
    assert (H1 := Ht1 start (start + count) (word bm q1)). rewrite M1 in H1.
    specialize (H1 ltac:(lia) ltac:(lia) ltac:(auto with words)). fold (word_bits b bm q1 r1 32) in H1.
    apply wp_if; intros E.
    { apply wp_ret. apply negb_true_iff in E. rewrite E in H1. split; [done|]. split; [done|].
      intros [_ Hall]. apply H1. tauto. }
    apply negb_false_iff in E. wp_steps.
    eapply wp_mono; [apply (words_are_ok _ _ _ b); [done|lia|lia|apply Hfull]|]. cbv beta.
    intros ok bm' [-> Hmid]. rewrite Z2Nat.id in Hmid by lia.
    apply wp_if; intros Eok.
    { apply wp_ret. apply negb_true_iff in Eok. rewrite Eok in *. split; [done|]. split; [done|]. tauto. }
    apply negb_false_iff in Eok.
    destruct (Z.eqb_spec r2 0) as [->|].
    + apply wp_ret. split; [done|]. split; [|done]. intros _. split; [done|]. apply Hsplit.
      split; [tauto|]. split; [tauto|]. intros r Hr. lia.
    + wp_steps. apply wp_read_word; [lia|]. wp_steps. split; [done|].
      rewrite Ht2, M2 by (lia || auto with words). fold (word_bits b bm q2 0 r2). tauto.
Qed.
End test_range.

(** A test of a masked word, as a statement about the bits the mask selects. *)
Ltac mask_test full :=
  intros s e w ? ? Hw; assert (0 <= s mod 32 < 32) by (apply Z.mod_pos_bound; lia);
  assert (0 <= e mod 32 < 32) by (apply Z.mod_pos_bound; lia);
  rewrite word_eqb by auto 8 with words;
  split; intros Hr r ?; (assert (0 <= r < 32) by lia); specialize (Hr r);
  rewrite (proj2 full r) in * by lia; revert Hr; mask_bits;
  destruct (Z.testbit w r); bool_cases; intuition lia.

Definition are_spec (b : bool) (are : Z → Z → BM bool) : Prop :=
  ∀ bm start count, wf_bitmap bm → u32 start → u32 count →
  wp (are start count) (λ ok bm', bm' = bm ∧
    (ok = true ↔ range_ok bm start count = true ∧ all_bits b bm start count)) bm.

Lemma RtlAreBitsSet_ok : are_spec true RtlAreBitsSet.
Proof.
  intros bm start count.
  apply (wp_test_range true (λ s e w, Z.lor w (not32 (maskbits s)) =? ALL_ONES)
           (λ s e w, Z.lor w (maskbits e) =? ALL_ONES)
           (λ s e w, Z.lor (Z.lor w (not32 (maskbits s))) (maskbits e) =? ALL_ONES) ALL_ONES ones_bits).
  - mask_test ones_bits.
  - mask_test ones_bits.
  - mask_test ones_bits.
Qed.

Lemma RtlAreBitsClear_ok : are_spec false RtlAreBitsClear.
Proof.
  intros bm start count.
  apply (wp_test_range false (λ s e w, Z.land w (maskbits s) =? 0)
           (λ s e w, Z.land w (not32 (maskbits e)) =? 0)
           (λ s e w, Z.land (Z.land w (maskbits s)) (not32 (maskbits e)) =? 0) 0 zero_bits).
  - mask_test zero_bits.
  - mask_test zero_bits.
  - mask_test zero_bits.
Qed.

(** ** Searching a block *)

(** A block of [count] bits of value [b] starts at [p]. *)
Definition block (b : bool) (bm : bitmap) (count p : Z) : Prop :=
  range_ok bm p count = true ∧ all_bits b bm p count.

Lemma block_range b bm count p : block b bm count p → 0 < count ∧ p + count <= SizeOfBitMap bm.
Proof. intros [H _]. unfold range_ok in H. apply andb_prop in H as [?%Z.ltb_lt ?%Z.leb_le]. done. Qed.

(** The block found: the first one at or after the hint, or else the first one
    from the beginning; the hint counts only when a block can start there.  When the
    sum of hint and count wraps to something small, the hint counts although no
    block can start there, and a hint outside the bitmap ends the search at once. *)
Definition gives_up (bm : bitmap) (count hint : Z) : bool :=
  (4294967296 <=? hint + count) && (w32 (hint + count) <=? SizeOfBitMap bm) && (SizeOfBitMap bm <=? hint).
Definition found (b : bool) (bm : bitmap) (count hint r : Z) : Prop :=
  let h := if SizeOfBitMap bm <? w32 (hint + count) then 0 else hint in
  if gives_up bm count hint then r = ALL_ONES else
  (r = ALL_ONES ∧ ∀ p, 0 <= p → ¬ block b bm count p) ∨
  (0 <= r ∧ block b bm count r ∧
   (if h <=? r then ∀ p, h <= p < r → ¬ block b bm count p
    else ∀ p, h <= p ∨ 0 <= p < r → ¬ block b bm count p)).

Section find.
Context (b : bool) (are : Z → Z → BM bool) (Hare : are_spec b are).
Context (bm : bitmap) (Hwf : wf_bitmap bm) (count : Z) (Hcount : u32 count).
Let B := block b bm count.

(** The first block of [[pos, end)], if there is one. *)
Definition first_in (pos end_ r : Z) : Prop :=
  (pos <= r < end_ ∧ B r ∧ ∀ p, pos <= p < r → ¬ B p) ∨
  (r = ALL_ONES ∧ ∀ p, pos <= p < end_ → ¬ B p).

Lemma first_in_step pos end_ r : ¬ B pos → first_in (pos + 1) end_ r → first_in pos end_ r.
Proof.
  intros Hn [(? & ? & Hf)|[-> Hf]]; [left|right]; split_and!; try done; try lia;
    intros p Hp; destruct (Z.eq_dec p pos) as [->|]; try done; apply Hf; lia.
Qed.

Lemma are_block pos Q : u32 pos → (∀ ok : bool, (ok = true ↔ B pos) → Q ok bm) → wp (are pos count) Q bm.
Proof.
  intros Hp HQ. eapply wp_mono; [apply (Hare bm pos count Hwf Hp Hcount)|].
  cbv beta. intros ok bm' [-> Hok]. by apply HQ.
Qed.

(** Without a hint: one pass. *)
Lemma find_loop_pass fuel pos end_ : 0 <= pos → end_ <= SizeOfBitMap bm → end_ - pos <= Z.of_nat fuel →
  wp (find_loop are fuel count pos end_ 0) (λ r bm', bm' = bm ∧ first_in pos end_ r) bm.
Proof.
  pose proof Hwf as (Hs & _). unfold u32 in Hs.
  revert pos. induction fuel as [|fuel IH]; intros pos Hpos Hend Hfuel; simpl;
    (destruct (Z.ltb_spec pos end_); [|apply wp_ret; split; [done|]; right; split; [done|]; lia]); [lia|].
  wp_steps. apply are_block; [unfold u32; lia|]. intros [] Hok.
  - apply wp_ret. split; [done|]. left. split; [lia|]. split; [by apply Hok|]. lia.
  - rewrite andb_false_r. eapply wp_mono; [apply IH; lia|]. cbv beta. intros r bm' [-> Hr].
    split; [done|]. apply first_in_step; [|done]. intros HB. by apply Hok in HB.
Qed.

(** With a hint: a pass to the end, then one up to the hint. *)
Lemma find_loop_hint fuel pos hint : 0 < hint → hint <= pos → pos < SizeOfBitMap bm →
  hint <= SizeOfBitMap bm → SizeOfBitMap bm - pos + hint <= Z.of_nat fuel →
  wp (find_loop are fuel count pos (SizeOfBitMap bm) hint) (λ r bm', bm' = bm ∧
    (pos <= r ∧ first_in pos (SizeOfBitMap bm) r ∧ r ≠ ALL_ONES ∨
     (∀ p, pos <= p → ¬ B p) ∧ first_in 0 hint r)) bm.
Proof.
  pose proof Hwf as (Hs & _). unfold u32 in Hs.
  revert pos. induction fuel as [|fuel IH]; intros pos Hh Hpos Hlt Hhs Hfuel; [lia|]. simpl.
  rewrite (proj2 (Z.ltb_lt pos _)) by lia. wp_steps. apply are_block; [unfold u32; lia|]. intros [] Hok.
  { apply wp_ret. split; [done|]. left. split; [lia|]. split; [|unfold ALL_ONES; lia].
    left. split; [lia|]. split; [by apply Hok|]. lia. }
  assert (HnB : ¬ B pos) by (intros HB; by apply Hok in HB).
  rewrite (proj2 (Z.eqb_neq hint 0)) by lia. simpl. rewrite andb_true_r.
  destruct (Z.eqb_spec pos (SizeOfBitMap bm - 1)).
  - eapply wp_mono; [apply find_loop_pass; lia|]. cbv beta. intros r bm' [-> Hr]. split; [done|]. right.
    split; [|done]. intros p Hp HB. destruct (Z.eq_dec p pos) as [->|]; [done|].
    apply block_range in HB. lia.
  - eapply wp_mono; [apply IH; lia|]. cbv beta. intros r bm' [-> Hr]. split; [done|].
    destruct Hr as [(? & Hf & ?)|[Hno Hf]].
    + left. split; [lia|]. split; [|done]. by apply first_in_step.
    + right. split; [|done]. intros p Hp HB. destruct (Z.eq_dec p pos) as [->|]; [done|].
      apply (Hno p); [lia|done].
Qed.

Lemma find_bits_ok hint : u32 hint →
  wp (find_bits are count hint) (λ r bm', bm' = bm ∧ found b bm count hint r) bm.
Proof.
  pose proof Hwf as (Hs & _). unfold u32 in *. intros Hh. unfold find_bits, found. wp_steps.
  assert (Hnone : count = 0 ∨ SizeOfBitMap bm < count → ∀ p, 0 <= p → ¬ B p).
  { intros Hc p Hp HB. apply block_range in HB. lia. }
  destruct (Z.eqb_spec count 0); [apply wp_ret; split; [done|]; destruct (gives_up _ _ _); [done|left; by auto]|].
  destruct (Z.ltb_spec (SizeOfBitMap bm) count); simpl;
    [apply wp_ret; split; [done|]; destruct (gives_up _ _ _); [done|left; by auto]|].
  pose proof (w32_range (hint + count)) as Hw. unfold u32 in Hw.
  destruct (gives_up bm count hint) eqn:Hg; unfold gives_up in Hg.
  { rewrite !andb_true_iff, !Z.leb_le in Hg. destruct Hg as [[_ Hle] Hout].
    rewrite (proj2 (Z.ltb_ge _ _)) by lia. destruct (Z.to_nat (SizeOfBitMap bm)); simpl;
      rewrite (proj2 (Z.ltb_ge _ _)) by lia; by wp_steps. }
  assert (∀ r, first_in 0 (SizeOfBitMap bm) r →
    r = ALL_ONES ∧ (∀ p, 0 <= p → ¬ B p) ∨ 0 <= r ∧ B r ∧ (if 0 <=? r then ∀ p, 0 <= p < r → ¬ B p
      else ∀ p, 0 <= p ∨ 0 <= p < r → ¬ B p)) as Hpass.
  { intros r [(? & ? & Hf)|[-> Hf]]; [right|left].
    - split; [lia|]. split; [done|]. by rewrite (proj2 (Z.leb_le 0 r)) by lia.
    - split; [done|]. intros p Hp HB. apply (Hf p); [|done]. apply block_range in HB. lia. }
  destruct (Z.ltb_spec (SizeOfBitMap bm) (w32 (hint + count))).
  { eapply wp_mono; [apply find_loop_pass; lia|]. cbv beta. intros r bm' [-> Hr]. auto. }
  destruct (Z.eq_dec hint 0) as [->|].
  { eapply wp_mono; [apply find_loop_pass; lia|]. cbv beta. intros r bm' [-> Hr]. auto. }
  assert (hint < SizeOfBitMap bm).
  { rewrite !andb_false_iff, !Z.leb_gt in Hg. destruct Hg as [[?|?]|?]; [|lia|done].
    rewrite w32_small in * by (unfold u32; lia). lia. }
  eapply wp_mono; [apply find_loop_hint; lia|]. cbv beta. intros r bm' [-> Hr]. split; [done|].
  destruct Hr as [(? & [(? & ? & Hf)|[-> ?]] & ?)|[Hno [(? & ? & Hf)|[-> Hf]]]]; [|done| |].
  - right. split; [lia|]. split; [done|]. by rewrite (proj2 (Z.leb_le hint r)) by lia.
  - right. split; [lia|]. split; [done|]. rewrite (proj2 (Z.leb_gt hint r)) by lia. intros p [?|?]; auto.
  - left. split; [done|]. intros p Hp. destruct (Z.ltb_spec p hint); [apply Hf|apply Hno]; lia.
Qed.
End find.

(** [RtlAreBitsSet] and [RtlAreBitsClear] never read outside the buffer, leave
    the bitmap alone, and answer true exactly when the range is a non-empty part
    of the bitmap all of whose bits are set, respectively clear. *)
Theorem RtlAreBits_spec bm start count :
  wf_bitmap bm → u32 start → u32 count →
  wp (RtlAreBitsSet start count) (λ ok bm', bm' = bm ∧ (ok = true ↔
      (0 < count ∧ start + count <= SizeOfBitMap bm) ∧ all_bits true bm start count)) bm ∧
  wp (RtlAreBitsClear start count) (λ ok bm', bm' = bm ∧ (ok = true ↔
      (0 < count ∧ start + count <= SizeOfBitMap bm) ∧ all_bits false bm start count)) bm.
Proof.
  intros Hwf Hs Hc.
  assert (Hr : range_ok bm start count = true ↔ 0 < count ∧ start + count <= SizeOfBitMap bm).
  { unfold range_ok. by rewrite andb_true_iff, Z.ltb_lt, Z.leb_le. }
  split; (eapply wp_mono; [by apply RtlAreBitsSet_ok || apply RtlAreBitsClear_ok|]); cbv beta;
    intros ok bm' [-> Hok]; (split; [done|]); tauto.
Qed.

(** Find a block of bits of value [b] and write the opposite value over it. *)
Lemma find_and_write b are write bm count hint :
  are_spec b are →
  (∀ bm start count, wf_bitmap bm → u32 start → u32 count →
     wp (write start count) (λ _ bm', rebits bm bm' (written (negb b) bm start count)) bm) →
  wf_bitmap bm → u32 count → u32 hint →
  wp (ulPos <- find_bits are count hint;
      (if negb (ulPos =? ALL_ONES) then write ulPos count else ret tt) ;; ret ulPos)
    (λ r bm', found b bm count hint r ∧
       if r =? ALL_ONES then bm' = bm
       else rebits bm bm' (λ i, if in_range r count i then negb b else bit bm i)) bm.
Proof.
  intros Hare Hwrite Hwf Hc Hh. pose proof Hwf as (Hs & _).
  wp_steps. eapply wp_mono; [by apply find_bits_ok|]. cbv beta. intros r bm' [-> Hfound].
  destruct (Z.eqb_spec r ALL_ONES) as [->|Hne]; simpl; wp_steps; [by rewrite Z.eqb_refl|].
  pose proof Hfound as Hf. unfold found in Hf. destruct (gives_up bm count hint); [done|].
  destruct Hf as [[-> _]|(Hr & HB & Hord)]; [done|]. pose proof (block_range _ _ _ _ HB) as [??].
  eapply wp_mono; [apply Hwrite; unfold u32 in *; done || lia|]. cbv beta. intros _ bm' Hbits. wp_steps.
  rewrite (proj2 (Z.eqb_neq _ _) Hne). split; [done|]. revert Hbits. unfold written. by rewrite (proj1 HB).
Qed.

(** C39: [RtlFindClearBitsAndSet] works as an allocator: it terminates without
    leaving the buffer, returns the first free block at or after the hint (from
    the start of the bitmap when there is none), sets exactly that block, and
    fails, with the bitmap unchanged, when there is no free block at all, or when
    the 32-bit sum of hint and count wraps to at most the size while the hint
    lies outside the bitmap.  [RtlFindSetBitsAndClear] does the same for set bits. *)
Theorem RtlFindBits_spec bm count hint :
  wf_bitmap bm → u32 count → u32 hint →
  wp (RtlFindClearBitsAndSet count hint) (λ r bm', found false bm count hint r ∧
       if r =? ALL_ONES then bm' = bm
       else rebits bm bm' (λ i, if in_range r count i then true else bit bm i)) bm ∧
  wp (RtlFindSetBitsAndClear count hint) (λ r bm', found true bm count hint r ∧
       if r =? ALL_ONES then bm' = bm
       else rebits bm bm' (λ i, if in_range r count i then false else bit bm i)) bm.
Proof.
  intros ???. split.
  - apply find_and_write; try done; [apply RtlAreBitsClear_ok|apply RtlSetBits_ok].
  - apply find_and_write; try done; [apply RtlAreBitsSet_ok|apply RtlClearBits_ok].
Qed.

(** A hint so large that [ulHint + ulCount] wraps is taken as it is, and the
    search gives up at once: in an empty bitmap of 64 bits a block of two clear
    bits is found with hint 0 and not found with hint [0xffffffff]. *)
Example RtlFindClearBits_hint_wraps :
  let bm := Bitmap 64 [0; 0] in
  RtlFindClearBits 2 0 bm = Done 0 bm ∧ RtlFindClearBits 2 ALL_ONES bm = Done ALL_ONES bm.
Proof. split; vm_compute; reflexivity. Qed.

(** [NTDLL_FindSetRun] adds the position in the byte to a start that may lie
    inside it: in the byte [0x09] the run after bit 1 is bit 3, and the routine
    says bit 4, which is clear. *)
Theorem NTDLL_FindSetRun_unaligned :
  let bm := Bitmap 32 [0x09] in
  NTDLL_FindSetRun 1 bm = Done (4, Some 1) bm ∧ bit bm 3 = true ∧ bit bm 4 = false.
Proof. vm_compute. split_and!; reflexivity. Qed.

(** ** Counting *)

Definition bits_upto (bm : bitmap) (n : nat) : Z := count_b (λ i, bit bm (Z.of_nat i)) (seq 0 n).

Lemma count_b_ext {A} (f g : A → bool) l : (∀ x, x ∈ l → f x = g x) → count_b f l = count_b g l.
Proof.
  induction l as [|x l IH]; intros H; [done|]. rewrite !count_b_cons, (H x), IH; [done| |by left].
  intros y Hy. apply H. by right.
Qed.

Lemma count_b_seq_shift f s n : count_b f (seq s n) = count_b (λ i, f (s + i)%nat) (seq 0 n).
Proof.
  revert f s. induction n as [|n IH]; intros f s; [done|]. cbn [seq]. rewrite !count_b_cons.
  rewrite Nat.add_0_r. f_equal. rewrite IH, (IH _ 1%nat). apply count_b_ext. intros x _. f_equal. lia.
Qed.

Lemma count_b_le f n s : count_b f (seq s n) <= Z.of_nat n.
Proof.
  revert s. induction n as [|n IH]; intros s; [done|]. cbn [seq]. rewrite count_b_cons.
  specialize (IH (S s)). destruct (f s); lia.
Qed.

Lemma bits_upto_split bm q r : (r <= 32)%nat →
  bits_upto bm (32 * q + r) = bits_upto bm (32 * q) +
    count_b (λ i, Z.testbit (word bm (Z.of_nat q)) (Z.of_nat i)) (seq 0 r).
Proof.
  intros Hr. unfold bits_upto. rewrite seq_app, count_b_app. f_equal. rewrite count_b_seq_shift.
  apply count_b_ext. intros i Hi%elem_of_seq. unfold bit.
  destruct (split_bit (Z.of_nat (0 + 32 * q + i))) as (q' & r' & ? & ? & ? & -> & ->); [lia|].
  f_equal; [f_equal|]; lia.
Qed.

Lemma popcnt_words_ok n q acc bm : 0 <= q → q + Z.of_nat n <= bit_room bm →
  acc = bits_upto bm (32 * Z.to_nat q) → 32 * (q + Z.of_nat n) < 4294967296 →
  wp (popcnt_words n q acc) (λ r bm', bm' = bm ∧ r = bits_upto bm (32 * (Z.to_nat q + n))) bm.
Proof.
  revert q acc. induction n as [|n IH]; intros q acc Hq Hn Hacc Hlt; simpl.
  - apply wp_ret. split; [done|]. rewrite Hacc. f_equal. lia.
  - wp_steps. apply wp_read_word; [lia|].
    assert (Hstep : acc + popcnt (word bm q) = bits_upto bm (32 * Z.to_nat (q + 1))).
    { rewrite Hacc. replace (32 * Z.to_nat (q + 1))%nat with (32 * Z.to_nat q + 32)%nat by lia.
      rewrite bits_upto_split by lia. unfold popcnt. by rewrite Z2Nat.id. }
    rewrite Hstep. rewrite w32_small.
    2: { unfold u32, bits_upto. pose proof (count_b_le (λ i, bit bm (Z.of_nat i)) (32 * Z.to_nat (q + 1)) 0).
         pose proof (count_b_nonneg (λ i, bit bm (Z.of_nat i)) (seq 0 (32 * Z.to_nat (q + 1)))). lia. }
    eapply wp_mono; [apply IH; lia|]. cbv beta. intros r bm' [-> ->]. split; [done|]. f_equal. lia.
Qed.

Lemma RtlNumberOfSetBits_ok bm : wf_bitmap bm →
  wp RtlNumberOfSetBits (λ r bm', bm' = bm ∧ r = bits_upto bm (Z.to_nat (SizeOfBitMap bm))) bm.
Proof.
  intros Hwf. pose proof Hwf as (Hs & Hroom & _). unfold u32 in Hs. unfold RtlNumberOfSetBits. wp_steps.
  destruct (split_bit (SizeOfBitMap bm)) as (q & r & E & Hq & Hr & D & M); [lia|]. rewrite D, land_31, M by lia.
  eapply wp_mono; [apply popcnt_words_ok; lia || done|]. cbv beta. intros acc bm' [-> ->].
  rewrite Nat.add_0_l. destruct (Z.eqb_spec r 0); simpl.
  - apply wp_ret. split; [done|]. f_equal. lia.
  - wp_steps. apply wp_read_word; [lia|]. wp_steps. split; [done|].
    assert (Hlast : popcnt (Z.land (word bm q) (not32 (maskbits (SizeOfBitMap bm)))) =
      count_b (λ i, Z.testbit (word bm q) (Z.of_nat i)) (seq 0 (Z.to_nat r))).
    { unfold popcnt. replace 32%nat with (Z.to_nat r + (32 - Z.to_nat r))%nat by lia.
      rewrite seq_app, count_b_app, (count_b_false _ (seq (0 + _) _)), Z.add_0_r.
      - apply count_b_ext. intros i Hi%elem_of_seq. mask_bits. rewrite M. bool_cases.
      - intros i Hi%elem_of_seq. mask_bits. rewrite M. bool_cases. }
    rewrite Hlast. replace (Z.to_nat (SizeOfBitMap bm)) with (32 * Z.to_nat q + Z.to_nat r)%nat by lia.
    rewrite bits_upto_split, Z2Nat.id by lia. apply w32_small.
    unfold u32, bits_upto. pose proof (count_b_le (λ i, bit bm (Z.of_nat i)) (32 * Z.to_nat q) 0).
    pose proof (count_b_le (λ i, Z.testbit (word bm q) (Z.of_nat i)) (Z.to_nat r) 0).
    pose proof (count_b_nonneg (λ i, bit bm (Z.of_nat i)) (seq 0 (32 * Z.to_nat q))).
    pose proof (count_b_nonneg (λ i, Z.testbit (word bm q) (Z.of_nat i)) (seq 0 (Z.to_nat r))). lia.
Qed.

(** [RtlNumberOfSetBits] counts the set bits of the bitmap, ignoring those of
    the last word that lie past its end, and [RtlNumberOfClearBits] the clear
    ones; neither wraps nor reads outside the buffer. *)
Theorem RtlNumberOfBits_spec bm :
  wf_bitmap bm →
  wp RtlNumberOfSetBits (λ r bm', bm' = bm ∧
    r = count_b (λ i, bit bm (Z.of_nat i)) (seq 0 (Z.to_nat (SizeOfBitMap bm)))) bm ∧
  wp RtlNumberOfClearBits (λ r bm', bm' = bm ∧
    r = count_b (λ i, negb (bit bm (Z.of_nat i))) (seq 0 (Z.to_nat (SizeOfBitMap bm)))) bm.
Proof.
  intros Hwf. split; [by apply RtlNumberOfSetBits_ok|].
  pose proof Hwf as (Hs & _). unfold u32 in Hs. unfold RtlNumberOfClearBits. wp_steps.
  eapply wp_mono; [by apply RtlNumberOfSetBits_ok|]. cbv beta. intros r bm' [-> ->]. wp_steps. split; [done|].
  set (f := λ i, bit bm (Z.of_nat i)). unfold bits_upto. fold f.
  assert (Hsum : ∀ l, count_b f l + count_b (λ i, negb (f i)) l = Z.of_nat (length l)).
  { induction l as [|x l IH]; [done|]. rewrite !count_b_cons. simpl length. destruct (f x); simpl; lia. }
  specialize (Hsum (seq 0 (Z.to_nat (SizeOfBitMap bm)))). rewrite length_seq, Z2Nat.id in Hsum by lia.
  pose proof (count_b_nonneg f (seq 0 (Z.to_nat (SizeOfBitMap bm)))).
  pose proof (count_b_nonneg (λ i, negb (f i)) (seq 0 (Z.to_nat (SizeOfBitMap bm)))).
  rewrite w32_small by (unfold u32; lia). unfold f in *. lia.
Qed.

(** ** The highest and lowest one bit *)

Lemma log2_shift x n : 0 <= n → 2 ^ n <= x → Z.log2 x = n + Z.log2 (Z.shiftr x n).
Proof.
  intros Hn Hx. pose proof (Z.pow_pos_nonneg 2 n). rewrite Z.log2_shiftr by lia.
  assert (n <= Z.log2 x) by (apply Z.log2_le_pow2; lia). lia.
Qed.

(** [has x m] for the mask of the bits from [a] to [b] is a comparison on a number below [2^b]. *)
Lemma has_high x a b m : m = Z.shiftl (Z.ones (b - a)) a → 0 <= a <= b → 0 <= x < 2 ^ b →
  has x m = (2 ^ a <=? x).
Proof.
  intros -> Ha Hx.
  assert (Hland : Z.land x (Z.shiftl (Z.ones (b - a)) a) = Z.shiftl (Z.shiftr x a) a).
  { apply Z.bits_inj'. intros i Hi. rewrite Z.land_spec, !Z.shiftl_spec by lia.
    destruct (Z.ltb_spec i a); [rewrite !(Z.testbit_neg_r _ (i - a)) by lia; apply andb_false_r|].
    rewrite Z.shiftr_spec by lia. replace (i - a + a) with i by lia.
    destruct (Z.ltb_spec i b); [by rewrite Z.ones_spec_low, andb_true_r by lia|].
    rewrite Z.ones_spec_high, andb_false_r by lia. symmetry.
    rewrite <-(Z.mod_small x (2 ^ b)) by lia. apply Z.mod_pow2_bits_high. lia. }
  unfold has. rewrite Hland, Z.shiftl_mul_pow2, Z.shiftr_div_pow2 by lia.
  pose proof (Z.pow_pos_nonneg 2 a).
  destruct (Z.leb_spec (2 ^ a) x) as [Hle|Hlt].
  - assert (1 <= x / 2 ^ a) by (apply Z.div_le_lower_bound; lia).
    rewrite (proj2 (Z.eqb_neq _ 0)); [done|]. nia.
  - by rewrite Z.div_small by lia.
Qed.

Definition halve (a : Z) (m : Z) (dp : Z * Z) : Z * Z :=
  let '(dw, pos) := dp in if has dw m then (Z.shiftr dw a, pos + a) else (dw, pos).

Lemma halve_log2 a m x dw pos : m = Z.shiftl (Z.ones a) a → 0 <= a →
  0 < dw < 2 ^ (2 * a) → Z.log2 x = pos + Z.log2 dw →
  let '(dw', pos') := halve a m (dw, pos) in 0 < dw' < 2 ^ a ∧ Z.log2 x = pos' + Z.log2 dw'.
Proof.
  intros -> Ha Hdw Hx. unfold halve. rewrite (has_high dw a (2 * a)); [|f_equal; f_equal; lia|lia|lia].
  destruct (Z.leb_spec (2 ^ a) dw).
  - pose proof (Z.pow_pos_nonneg 2 a). split.
    + rewrite Z.shiftr_div_pow2 by lia. split.
      * apply Z.div_str_pos. lia.
      * apply Z.div_lt_upper_bound; [lia|]. rewrite <-Z.pow_add_r by lia. replace (a + a) with (2 * a) by lia. lia.
    + rewrite Hx, (log2_shift dw a) by lia. lia.
  - split; [lia|done].
Qed.

Lemma RtlFindMostSignificantBit_ok x :
  0 <= x < 2 ^ 64 → RtlFindMostSignificantBit x = if x =? 0 then -1 else Z.log2 x.
Proof.
  intros Hx. destruct (Z.eqb_spec x 0) as [->|]; [done|].
  unfold RtlFindMostSignificantBit. cbv zeta.
  assert (H32 : 0 <= Z.shiftr x 32 < 2 ^ 32).
  { rewrite Z.shiftr_div_pow2 by lia. split; [apply Z.div_pos; lia|apply Z.div_lt_upper_bound; lia]. }
  destruct (if Z.shiftr x 32 =? 0 then (w32 x, 0) else (Z.shiftr x 32, 32)) as [dw pos] eqn:E0.
  assert (Hstart : 0 < dw < 2 ^ 32 ∧ Z.log2 x = pos + Z.log2 dw).
  { destruct (Z.eqb_spec (Z.shiftr x 32) 0) as [Hz|Hz]; injection E0 as <- <-.
    - rewrite Z.shiftr_div_pow2 in Hz by lia. apply Z.div_small_iff in Hz; [|lia].
      rewrite w32_small by (unfold u32; lia). lia.
    - split; [lia|]. apply log2_shift; [lia|]. rewrite Z.shiftr_div_pow2 in * by lia.
      destruct (Z.ltb_spec x (2 ^ 32)); [|lia]. by rewrite Z.div_small in Hz by lia. }
  clear E0. destruct Hstart as [Hdw Hlog].
  pose proof (halve_log2 16 0xffff0000 x dw pos eq_refl ltac:(lia) Hdw Hlog) as H1.
  unfold halve in H1. destruct (if has dw _ then _ else _) as [dw1 pos1]. destruct H1 as [Hdw1 Hlog1].
  pose proof (halve_log2 8 0xff00 x dw1 pos1 eq_refl ltac:(lia) Hdw1 Hlog1) as H2.
  unfold halve in H2. destruct (if has dw1 _ then _ else _) as [dw2 pos2]. destruct H2 as [Hdw2 Hlog2].
  pose proof (halve_log2 4 0xf0 x dw2 pos2 eq_refl ltac:(lia) Hdw2 Hlog2) as H3.
  unfold halve in H3. destruct (if has dw2 _ then _ else _) as [dw3 pos3]. destruct H3 as [Hdw3 Hlog3]. rewrite Hlog3. f_equal.
  assert (Htab : ∀ d, (0 < d < 16)%nat → default 0 (NTDLL_mostSignificant !! d) = Z.log2 (Z.of_nat d)).
  { intros d Hd. do 16 (destruct d as [|d]; [lia || reflexivity|]). lia. }
  rewrite Htab by lia. by rewrite Z2Nat.id by lia.
Qed.

(** The position of the lowest one bit. *)
Definition lowest (x r : Z) : Prop :=
  0 <= r ∧ Z.testbit x r = true ∧ ∀ i, 0 <= i < r → Z.testbit x i = false.

Lemma low_zero x a : 0 <= a → Z.land x (Z.ones a) = 0 ↔ ∀ i, 0 <= i < a → Z.testbit x i = false.
Proof.
  intros Ha. split.
  - intros H i Hi. assert (Z.testbit (Z.land x (Z.ones a)) i = false) as Hb by (rewrite H; apply Z.bits_0).
    by rewrite Z.land_spec, Z.ones_spec_low, andb_true_r in Hb by lia.
  - intros H. apply Z.bits_inj'. intros i Hi. rewrite Z.land_spec, Z.bits_0.
    destruct (Z.ltb_spec i a); [by rewrite H by lia|]. by rewrite Z.ones_spec_high, andb_false_r by lia.
Qed.

(** One step: when the low [a] bits are zero they are shifted out, and then the
    new low [a] bits are not all zero. *)
Lemma skip_low a dw pos x : 0 < a → 0 <= pos → Z.land dw (Z.ones (2 * a)) ≠ 0 →
  (∀ r, lowest dw r → lowest x (pos + r)) →
  let '(dw', pos') := if negb (has dw (Z.ones a)) then (Z.shiftr dw a, pos + a) else (dw, pos) in
  0 <= pos' ∧ Z.land dw' (Z.ones a) ≠ 0 ∧ (∀ r, lowest dw' r → lowest x (pos' + r)).
Proof.
  intros Ha Hpos Hdw Hx. unfold has. rewrite negb_involutive.
  destruct (Z.eqb_spec (Z.land dw (Z.ones a)) 0) as [Hz|Hz]; [|done].
  rewrite low_zero in Hz by lia. split; [lia|]. split.
  - intros Hz'. apply Hdw. rewrite low_zero in * by lia. intros i Hi.
    destruct (Z.ltb_spec i a); [apply Hz; lia|]. specialize (Hz' (i - a)). rewrite Z.shiftr_spec in Hz' by lia.
    replace (i - a + a) with i in Hz' by lia. apply Hz'. lia.
  - intros r (Hr & Hb & Hlow). replace (pos + a + r) with (pos + (r + a)) by lia. apply Hx.
    split; [lia|]. rewrite Z.shiftr_spec in Hb by lia. split; [done|]. intros i Hi.
    destruct (Z.ltb_spec i a); [apply Hz; lia|]. specialize (Hlow (i - a)). rewrite Z.shiftr_spec in Hlow by lia.
    replace (i - a + a) with i in Hlow by lia. apply Hlow. lia.
Qed.

Lemma leastSignificant_table dw : Z.land dw 15 ≠ 0 →
  lowest dw (default 0 (NTDLL_leastSignificant !! Z.to_nat (Z.land dw 15))).
Proof.
  intros Hz. set (d := Z.land dw 15) in *.
  assert (Hd : 0 <= d < 16) by (unfold d; change 15 with (Z.ones 4); rewrite Z.land_ones by lia; apply Z.mod_pos_bound; lia).
  assert (Hbits : ∀ i, 0 <= i < 4 → Z.testbit dw i = Z.testbit d i).
  { intros i Hi. unfold d. change 15 with (Z.ones 4). by rewrite Z.land_spec, Z.ones_spec_low, andb_true_r by lia. }
  clearbody d. assert (Htab : ∀ n, (0 < n < 16)%nat →
    let r := default 0 (NTDLL_leastSignificant !! n) in 0 <= r < 4 ∧ Z.testbit (Z.of_nat n) r = true ∧
    (∀ i, 0 <= i < r → Z.testbit (Z.of_nat n) i = false)).
  { intros n Hn. do 16 (destruct n as [|n]; [first [lia | simpl; split_and!; [lia|lia|reflexivity|];
      intros i Hi; assert (i = 0 ∨ i = 1 ∨ i = 2) as [->|[->| ->]] by lia; reflexivity || lia]|]). lia. }
  destruct (Htab (Z.to_nat d)) as (Hr & Hb & Hlow); [lia|]. rewrite Z2Nat.id in Hb, Hlow by lia.
  split; [lia|]. split; [by rewrite Hbits by lia|]. intros i Hi. rewrite Hbits by lia. by apply Hlow.
Qed.

Lemma RtlFindLeastSignificantBit_ok x :
  0 <= x < 2 ^ 64 →
  if x =? 0 then RtlFindLeastSignificantBit x = -1 else lowest x (RtlFindLeastSignificantBit x).
Proof.
  intros Hx. destruct (Z.eqb_spec x 0) as [->|Hne]; [done|]. unfold RtlFindLeastSignificantBit. cbv zeta.
  assert (Hlo : w32 x = Z.land x (Z.ones 32)) by (unfold w32; by rewrite Z.land_ones).
  assert (Hhi : w32 x = 0 → Z.land (Z.shiftr x 32) (Z.ones 32) ≠ 0).
  { intros Hz Hh. apply Hne. apply Z.bits_inj'. intros i Hi. rewrite Z.bits_0. rewrite Hlo in Hz.
    rewrite low_zero in Hz, Hh by lia. destruct (Z.ltb_spec i 32); [apply Hz; lia|].
    destruct (Z.ltb_spec i 64).
    - specialize (Hh (i - 32)). rewrite Z.shiftr_spec in Hh by lia. replace (i - 32 + 32) with i in Hh by lia.
      apply Hh. lia.
    - rewrite <-(Z.mod_small x (2 ^ 64)) by lia. apply Z.mod_pow2_bits_high. lia. }
  assert (Hboth : (w32 x =? 0) && (Z.shiftr x 32 =? 0) = false).
  { destruct (Z.eqb_spec (w32 x) 0); [|done]. apply Z.eqb_neq. intros Hz. apply Hhi; [done|]. by rewrite Hz. }
  rewrite Hboth.
  destruct (if w32 x =? 0 then (Z.shiftr x 32, 32) else (w32 x, 0)) as [dw pos] eqn:E0.
  assert (Hstart : 0 <= pos ∧ Z.land dw (Z.ones 32) ≠ 0 ∧ (∀ r, lowest dw r → lowest x (pos + r))).
  { destruct (Z.eqb_spec (w32 x) 0) as [Hz|Hz]; injection E0 as <- <-.
    - pose proof (skip_low 32 x 0 x ltac:(lia) ltac:(lia)) as Hs. unfold has in Hs. rewrite <-Hlo, Hz in Hs.
      apply Hs; [|done]. intros H64. apply (Hhi Hz). rewrite low_zero in * by lia. intros i Hi.
      rewrite Z.shiftr_spec by lia. apply H64. lia.
    - split; [done|]. rewrite Hlo in *. split; [by rewrite <-Z.land_assoc, Z.land_diag|].
      intros r (Hr & Hb & Hl). rewrite Z.land_spec in Hb. apply andb_prop in Hb as [Hb Hb'].
      split; [lia|]. split; [done|]. intros i Hi. specialize (Hl i ltac:(lia)).
      assert (r < 32) by (destruct (Z.ltb_spec r 32); [done|]; by rewrite Z.ones_spec_high in Hb' by lia).
      by rewrite Z.land_spec, Z.ones_spec_low, andb_true_r in Hl by lia. }
  clear E0. destruct Hstart as (Hp & Hz & Hlow).
  pose proof (skip_low 16 dw pos x ltac:(lia) Hp Hz Hlow) as H1. change (Z.ones 16) with 0xffff in H1.
  destruct (if negb (has dw _) then _ else _) as [dw1 pos1]. destruct H1 as (Hp1 & Hz1 & Hlow1).
  pose proof (skip_low 8 dw1 pos1 x ltac:(lia) Hp1 Hz1 Hlow1) as H2. change (Z.ones 8) with 0xff in H2.
  destruct (if negb (has dw1 _) then _ else _) as [dw2 pos2]. destruct H2 as (Hp2 & Hz2 & Hlow2).
  pose proof (skip_low 4 dw2 pos2 x ltac:(lia) Hp2 Hz2 Hlow2) as H3. change (Z.ones 4) with 0x0f in H3.
  destruct (if negb (has dw2 _) then _ else _) as [dw3 pos3]. destruct H3 as (Hp3 & Hz3 & Hlow3).
  apply Hlow3. by apply leastSignificant_table.
Qed.

(** On a 64-bit number [RtlFindMostSignificantBit] returns the position of the
    highest one bit, which is the base-2 logarithm, and [RtlFindLeastSignificantBit]
    that of the lowest one; both return -1 for zero. *)
Theorem RtlFindSignificantBits_spec x :
  0 <= x < 2 ^ 64 →
  RtlFindMostSignificantBit x = (if x =? 0 then -1 else Z.log2 x) ∧
  if x =? 0 then RtlFindLeastSignificantBit x = -1 else lowest x (RtlFindLeastSignificantBit x).
Proof. intros Hx. split; [by apply RtlFindMostSignificantBit_ok|by apply RtlFindLeastSignificantBit_ok]. Qed.

(** ** Instances *)

Definition demo_bitmap : bitmap := Bitmap 40 [0xfffffff5; 0x83].

Lemma demo_bitmap_wf : wf_bitmap demo_bitmap.
Proof. split_and!; [done|done|]. by repeat constructor. Qed.

Lemma RtlAreBits_witness :
  wp (RtlAreBitsSet 4 30) (λ ok bm', bm' = demo_bitmap ∧ (ok = true ↔
      (0 < 30 ∧ 4 + 30 <= SizeOfBitMap demo_bitmap) ∧ all_bits true demo_bitmap 4 30)) demo_bitmap.
Proof. exact (proj1 (RtlAreBits_spec demo_bitmap 4 30 demo_bitmap_wf ltac:(done) ltac:(done))). Defined.

Lemma RtlFindBits_witness :
  RtlFindClearBitsAndSet 3 5 demo_bitmap = Done 34 (Bitmap 40 [0xfffffff5; 0x9f]) ∧
  wp (RtlFindClearBitsAndSet 3 5) (λ r bm', found false demo_bitmap 3 5 r ∧
       if r =? ALL_ONES then bm' = demo_bitmap
       else rebits demo_bitmap bm' (λ i, if in_range r 3 i then true else bit demo_bitmap i)) demo_bitmap.
Proof.
  split; [by vm_compute|].
  exact (proj1 (RtlFindBits_spec demo_bitmap 3 5 demo_bitmap_wf ltac:(done) ltac:(done))).
Defined.

Lemma RtlNumberOfBits_witness :
  wp RtlNumberOfSetBits (λ r bm', bm' = demo_bitmap ∧
    r = count_b (λ i, bit demo_bitmap (Z.of_nat i)) (seq 0 (Z.to_nat (SizeOfBitMap demo_bitmap)))) demo_bitmap ∧
  RtlNumberOfSetBits demo_bitmap = Done 33 demo_bitmap.
Proof. split; [exact (proj1 (RtlNumberOfBits_spec demo_bitmap demo_bitmap_wf))|by vm_compute]. Defined.

Lemma RtlFindSignificantBits_witness :
  RtlFindMostSignificantBit 0x5000000000 = 38 ∧ lowest 0x5000000000 (RtlFindLeastSignificantBit 0x5000000000).
Proof.
  assert (H := RtlFindSignificantBits_spec 0x5000000000 ltac:(lia)). split; [reflexivity|exact (proj2 H)].
Defined.
