(* ===== verification/Atom.v ===== *)
(** * Atom tables (server/atom.c, and the string routines of server/unicode.c)

    A table has an array of pointers to entries, indexed by atom, and a hash table
    of doubly linked lists of the same entries.  The entries live in a heap,
    [at_heap], and the links are addresses in it, so unlinking an entry is what
    the code does: four pointer updates.

    The case map is a table of the [l_intl.nls] file that the server loads when it
    starts; it appears as the function [to_lower], a parameter of the model. *)

From stdpp Require Import base list gmap fin_maps.
From S2P Require Import Prelude.

Open Scope Z_scope.
Open Scope server_scope.

Notation addr := positive (only parsing).

Definition HASH_SIZE : Z := 37.
Definition MIN_STR_ATOM : Z := 0xc000.
Definition MAX_ATOMS : Z := 0x4000.
Definition MAX_ATOM_LEN : Z := 255.
Definition MAXINTATOM : Z := 0xc000.

Definition ATOM_INVALID_HANDLE : Z := 0xC0000008.
Definition ATOM_INVALID_PARAMETER : Z := 0xC000000D.
Definition ATOM_NO_MEMORY : Z := 0xC0000017.
Definition ATOM_NAME_INVALID : Z := 0xC0000033.
Definition ATOM_NAME_NOT_FOUND : Z := 0xC0000034.

(** A string is the list of its 16-bit characters.  The reference count is an
    [int] that [add_atom] and [grab_atom] increment without a check: it wraps at
    its width. *)
Record atom_entry := AtomEntry {
  ae_next : option addr;
  ae_prev : option addr;
  ae_count : Z;
  ae_atom : Z;
  ae_hash : Z;
  ae_str : list Z;
}.

(** [at_error] is the error of the request and [at_allocs] the results of the next
    allocations, an exhausted list being success. *)
Record atom_table := AtomTable {
  at_count : Z;
  at_atoms : list (option addr);
  at_entries : list (option addr);
  at_heap : gmap addr atom_entry;
  at_error : Z;
  at_allocs : list bool;
}.

Notation AT := (ST atom_table).

Definition set_at_count (n : Z) (t : atom_table) : atom_table :=
  AtomTable n (at_atoms t) (at_entries t) (at_heap t) (at_error t) (at_allocs t).
Definition set_at_atoms (l : list (option addr)) (t : atom_table) : atom_table :=
  AtomTable (at_count t) l (at_entries t) (at_heap t) (at_error t) (at_allocs t).
Definition set_at_entries (l : list (option addr)) (t : atom_table) : atom_table :=
  AtomTable (at_count t) (at_atoms t) l (at_heap t) (at_error t) (at_allocs t).
Definition set_at_heap (f : gmap addr atom_entry → gmap addr atom_entry) (t : atom_table) : atom_table :=
  AtomTable (at_count t) (at_atoms t) (at_entries t) (f (at_heap t)) (at_error t) (at_allocs t).
Definition set_at_error (e : Z) (t : atom_table) : atom_table :=
  AtomTable (at_count t) (at_atoms t) (at_entries t) (at_heap t) e (at_allocs t).
Definition set_at_allocs (l : list bool) (t : atom_table) : atom_table :=
  AtomTable (at_count t) (at_atoms t) (at_entries t) (at_heap t) (at_error t) l.

Definition set_next (p : option addr) (e : atom_entry) : atom_entry :=
  AtomEntry p (ae_prev e) (ae_count e) (ae_atom e) (ae_hash e) (ae_str e).
Definition set_prev (p : option addr) (e : atom_entry) : atom_entry :=
  AtomEntry (ae_next e) p (ae_count e) (ae_atom e) (ae_hash e) (ae_str e).
Definition set_count (n : Z) (e : atom_entry) : atom_entry :=
  AtomEntry (ae_next e) (ae_prev e) n (ae_atom e) (ae_hash e) (ae_str e).

Definition atom_error (e : Z) : AT unit := modify (set_at_error e).
Definition get_entry (a : addr) : AT atom_entry := t <- get; deref (at_heap t !! a).
Definition put_entry (a : addr) (e : atom_entry) : AT unit := modify (set_at_heap (<[a:=e]>)).
Definition get_atoms (i : Z) : AT (option addr) := t <- get; arr_get (at_atoms t) i.
Definition put_atoms (i : Z) (p : option addr) : AT unit :=
  t <- get; l <- arr_set (at_atoms t) i p; modify (set_at_atoms l).
Definition get_bucket (h : Z) : AT (option addr) := t <- get; arr_get (at_entries t) h.
Definition put_bucket (h : Z) (p : option addr) : AT unit :=
  t <- get; l <- arr_set (at_entries t) h p; modify (set_at_entries l).

(** [mem_alloc] of an entry: its address.  The fields the code has not written
    yet are zero here; none of them is read before it is written. *)
Definition alloc_atom_node : AT (option addr) := λ t,
  let '(ok, l) := match at_allocs t with [] => (true, []) | b :: l => (b, l) end in
  let t := set_at_allocs l t in
  if ok : bool then
    let a := fresh (dom (at_heap t)) in
    Done (Some a) (set_at_heap (<[a:=AtomEntry None None 0 0 0 []]>) t)
  else Done None (set_at_error ATOM_NO_MEMORY t).

Definition free_entry (a : addr) : AT unit := modify (set_at_heap (delete a)).

Definition create_atom_table (allocs : list bool) : atom_table :=
  AtomTable 1 (replicate (Z.to_nat MAX_ATOMS) None) (replicate (Z.to_nat HASH_SIZE) None) ∅ 0 allocs.

(** ** Atoms *)

Definition get_atom_entry (atom : Z) : AT (option addr) :=
  t <- get;
  e <- (if (MIN_STR_ATOM <=? atom) && (atom <? MIN_STR_ATOM + at_count t)
        then get_atoms (atom - MIN_STR_ATOM) else ret None);
  match e with
  | None => atom_error ATOM_INVALID_HANDLE ;; ret None
  | Some a => ret (Some a)
  end.

(** The first free index from [i] on, or the count. *)
Fixpoint find_free_atom (n : nat) (i : Z) : AT Z :=
  t <- get;
  if at_count t <=? i then ret i
  else match n with
  | O => fail OutOfFuel
  | S n => p <- get_atoms i; match p with None => ret i | Some _ => find_free_atom n (i + 1) end
  end.

Definition add_atom_entry (a : addr) : AT Z :=
  t <- get;
  i <- find_free_atom (Z.to_nat (at_count t)) 1;
  if i =? MAX_ATOMS then ret 0
  else
    (if i =? at_count t then modify (set_at_count (at_count t + 1)) else ret tt) ;;
    put_atoms i (Some a) ;;
    e <- get_entry a;
    put_entry a (AtomEntry (ae_next e) (ae_prev e) (ae_count e) (i + MIN_STR_ATOM) (ae_hash e) (ae_str e)) ;;
    ret (i + MIN_STR_ATOM).

(** The digits after the [#], with the value read so far. *)
Fixpoint int_atom_digits (l : list Z) (acc : Z) : Z :=
  match l with
  | [] => acc
  | c :: l =>
      if (c <? 48) || (57 <? c) then 0
      else
        let acc := acc * 10 + c - 48 in
        if MAXINTATOM <=? acc then 0 else int_atom_digits l acc
  end.

Definition get_int_atom_value (name : list Z) : Z :=
  match name with
  | c :: l => if negb (c =? 35) then 0 else int_atom_digits l 0
  | [] => 0
  end.

Section table.
Context (to_lower : Z → Z).

(** [memicmp_strW(...) == 0] on strings of the same length. *)
Fixpoint memicmp_eq (l k : list Z) : bool :=
  match l, k with
  | c :: l, d :: k => if negb (to_lower c - to_lower d =? 0) then false else memicmp_eq l k
  | _, _ => true
  end.

Definition hash_strW (l : list Z) (size : Z) : Z :=
  foldl (λ h c, w32 (h * 65599 + to_lower c)) 0 l mod size.

(** The walk of a hash list from [p]; [n] bounds its length. *)
Fixpoint find_in_list (n : nat) (p : option addr) (str : list Z) : AT (option addr) :=
  match p with
  | None => ret None
  | Some a =>
      match n with
      | O => fail OutOfFuel
      | S n =>
          e <- get_entry a;
          if Nat.eqb (length (ae_str e)) (length str) && memicmp_eq (ae_str e) str then ret (Some a)
          else find_in_list n (ae_next e) str
      end
  end.

Definition find_atom_entry (str : list Z) (hash : Z) : AT (option addr) :=
  t <- get;
  p <- get_bucket hash;
  find_in_list (size (at_heap t)) p str.

(** The checks that start [add_atom] and [find_atom]: whether to go on. *)
Definition check_atom_name (str : list Z) : AT bool :=
  if Nat.eqb (length str) 0 then atom_error ATOM_NAME_INVALID ;; ret false
  else if MAX_ATOM_LEN * 2 <? 2 * Z.of_nat (length str) then atom_error ATOM_INVALID_PARAMETER ;; ret false
  else ret true.

Definition add_atom (str : list Z) : AT Z :=
  ok <- check_atom_name str;
  if negb ok then ret 0
  else if negb (get_int_atom_value str =? 0) then ret (get_int_atom_value str)
  else
    let hash := hash_strW str HASH_SIZE in
    found <- find_atom_entry str hash;
    match found with
    | Some a => e <- get_entry a; put_entry a (set_count (int32 (ae_count e + 1)) e) ;; ret (ae_atom e)
    | None =>
        p <- alloc_atom_node;
        match p with
        | None => ret 0
        | Some a =>
            atom <- add_atom_entry a;
            if negb (atom =? 0) then
              next <- get_bucket hash;
              match next with
              | Some b => f <- get_entry b; put_entry b (set_prev (Some a) f)
              | None => ret tt
              end ;;
              put_bucket hash (Some a) ;;
              e <- get_entry a;
              put_entry a (AtomEntry next None 1 (ae_atom e) hash str) ;;
              ret atom
            else atom_error ATOM_NO_MEMORY ;; free_entry a ;; ret 0
        end
    end.

Definition find_atom (str : list Z) : AT Z :=
  ok <- check_atom_name str;
  if negb ok then ret 0
  else if negb (get_int_atom_value str =? 0) then ret (get_int_atom_value str)
  else
    found <- find_atom_entry str (hash_strW str HASH_SIZE);
    match found with
    | None => atom_error ATOM_NAME_NOT_FOUND ;; ret 0
    | Some a => e <- get_entry a; ret (ae_atom e)
    end.

End table.

Definition delete_atom (atom : Z) : AT unit :=
  p <- get_atom_entry atom;
  match p with
  | None => ret tt
  | Some a =>
      e <- get_entry a;
      let n := int32 (ae_count e - 1) in
      put_entry a (set_count n e) ;;
      if n =? 0 then
        match ae_next e with
        | Some b => f <- get_entry b; put_entry b (set_prev (ae_prev e) f)
        | None => ret tt
        end ;;
        match ae_prev e with
        | Some b => f <- get_entry b; put_entry b (set_next (ae_next e) f)
        | None => put_bucket (ae_hash e) (ae_next e)
        end ;;
        put_atoms (atom - MIN_STR_ATOM) None ;;
        free_entry a
      else ret tt
  end.

Definition grab_atom (atom : Z) : AT Z :=
  if MIN_STR_ATOM <=? atom then
    p <- get_atom_entry atom;
    match p with
    | None => ret 0
    | Some a => e <- get_entry a; put_entry a (set_count (int32 (ae_count e + 1)) e) ;; ret atom
    end
  else ret atom.

Definition release_atom (atom : Z) : AT unit :=
  if MIN_STR_ATOM <=? atom then delete_atom atom else ret tt.

(** The request: the part of the name that fits in [max] bytes, the reference
    count ([-1] for an invalid atom) and the length in bytes. *)
Definition get_atom_information (atom max : Z) : AT (list Z * Z * Z) :=
  p <- get_atom_entry atom;
  match p with
  | Some a =>
      e <- get_entry a;
      let total := 2 * Z.of_nat (length (ae_str e)) in
      ret (take (Z.to_nat (Z.min total max / 2)) (ae_str e), ae_count e, total)
  | None => ret ([], -1, 0)
  end.
