(* ===== verification/AtomThms.v ===== *)
(** * Correctness of the atom tables

    [names t] is what a table means: the string and the reference count of every
    atom.  The pointer structure is related to it by [atom_ok]: every entry is
    in the array at its atom and in the list of its hash, the lists are well
    formed doubly linked lists, and no two entries have the same name up to case.
    Each operation preserves [atom_ok] and does to [names] what it should. *)

From stdpp Require Import base list gmap fin_maps.
From S2P Require Import Prelude Atom.

Open Scope Z_scope.
Open Scope server_scope.

(** ** Doubly linked lists

    [L] gives the links of a node, next then previous. *)

Notation links := (addr → option (option addr * option addr)) (only parsing).

(** [dseg L pv p l q]: from [p], whose predecessor is [pv], the nodes [l], then [q]. *)
Fixpoint dseg (L : links) (pv p : option addr) (l : list addr) (q : option addr) : Prop :=
  match l with
  | [] => p = q
  | a :: l => p = Some a ∧ ∃ nx, L a = Some (nx, pv) ∧ dseg L (Some a) nx l q
  end.

Notation dll L p l := (dseg L None p l None).

(** The last node of a segment, or what precedes it. *)
Fixpoint last_of (pv : option addr) (l : list addr) : option addr :=
  match l with [] => pv | a :: l => last_of (Some a) l end.

Lemma dseg_app L pv p l k q :
  dseg L pv p (l ++ k) q ↔ ∃ m, dseg L pv p l m ∧ dseg L (last_of pv l) m k q.
Proof.
  revert pv p. induction l as [|a l IH]; intros pv p; simpl.
  - split; [by eauto|]. by intros (m & -> & ?).
  - split.
    + intros (-> & nx & Ha & (m & Hl & Hk)%IH). exists m. eauto.
    + intros (m & (-> & nx & Ha & Hl) & Hk). split; [done|]. exists nx. split; [done|]. apply IH. eauto.
Qed.

Lemma dseg_ext L L' pv p l q : (∀ a, a ∈ l → L' a = L a) → dseg L pv p l q → dseg L' pv p l q.
Proof.
  revert pv p. induction l as [|a l IH]; intros pv p HL; simpl; [done|].
  intros (-> & nx & Ha & Hl). split; [done|]. exists nx. rewrite HL by (by left). split; [done|].
  apply IH; [|done]. intros b Hb. apply HL. by right.
Qed.

(** The links after the predecessor of the first node changes. *)
Lemma dseg_set_prev L L' pv pv' p l q :
  dseg L pv p l q → NoDup l →
  (∀ a, a ∈ l → L' a = if bool_decide (p = Some a) then (λ x, (fst x, pv')) <$> L a else L a) →
  dseg L' pv' p l q.
Proof.
  destruct l as [|a l]; simpl; [done|]. intros (-> & nx & Ha & Hl) [Hnot Hnd]%NoDup_cons HL. split; [done|].
  exists nx. rewrite HL by (by left). rewrite bool_decide_eq_true_2 by done. rewrite Ha. split; [done|].
  eapply dseg_ext; [|done]. intros b Hb. rewrite HL by (by right).
  rewrite bool_decide_eq_false_2; [done|]. intros [= ->]. done.
Qed.

(** The links after the last node points elsewhere. *)
Lemma dseg_set_last L L' pv p l q q' :
  dseg L pv p l q → NoDup l → l ≠ [] →
  (∀ a, a ∈ l → L' a = if bool_decide (last_of pv l = Some a) then (λ x, (q', snd x)) <$> L a else L a) →
  dseg L' pv p l q'.
Proof.
  revert pv p. induction l as [|a l IH]; intros pv p; [done|]. simpl.
  intros (-> & nx & Ha & Hl) [Hnot Hnd]%NoDup_cons _ HL. split; [done|].
  destruct l as [|b l].
  - exists q'. rewrite HL by (by left). simpl. rewrite bool_decide_eq_true_2 by done. by rewrite Ha.
  - assert (Hlast : ∀ pv b l, ∃ c, last_of pv (b :: l) = Some c ∧ c ∈ b :: l).
    { clear. intros pv b l. revert pv b. induction l as [|d l IH]; intros pv b; simpl.
      - exists b. split; [done|]. by left.
      - destruct (IH (Some b) d) as (c & Hc & Hin). exists c. split; [done|]. by right. }
    exists nx. rewrite HL by (by left). rewrite bool_decide_eq_false_2.
    + split; [done|]. apply IH; [done|done|done|]. intros c Hc. rewrite HL; [done|by right].
    + intros Heq. destruct (Hlast (Some a) b l) as (c & Hc & Hin). simpl in *. congruence.
Qed.

(** ** The meaning of a table *)

Definition lnk (h : gmap addr atom_entry) (a : addr) : option (option addr * option addr) :=
  (λ e, (ae_next e, ae_prev e)) <$> h !! a.

Definition entry_at (t : atom_table) (i : Z) : option addr :=
  if 0 <=? i then mjoin (at_atoms t !! Z.to_nat i) else None.

Definition names (t : atom_table) (atom : Z) : option (list Z * Z) :=
  a ← entry_at t (atom - MIN_STR_ATOM); e ← at_heap t !! a; Some (ae_str e, ae_count e).

(** What an [int] can hold, and that it holds the results of [int32]. *)
Definition is_int32 (n : Z) : Prop := -2147483648 <= n < 2147483648.

Lemma int32_in_range n : is_int32 (int32 n).
Proof.
  unfold is_int32, int32, w32. cbv zeta. pose proof (Z.mod_pos_bound n 4294967296 eq_refl).
  destruct (Z.ltb_spec (n mod 4294967296) 2147483648); lia.
Qed.

Lemma int32_id n : is_int32 n → int32 n = n.
Proof.
  unfold is_int32, int32, w32. cbv zeta. intros Hn.
  destruct (decide (0 <= n)).
  - rewrite Z.mod_small by lia. destruct (Z.ltb_spec n 2147483648); lia.
  - assert (n mod 4294967296 = n + 4294967296) as -> by (symmetry; apply (Z.mod_unique _ _ (-1)); lia).
    destruct (Z.ltb_spec (n + 4294967296) 2147483648); lia.
Qed.

Lemma int32_zero n : is_int32 n → int32 (n - 1) = 0 ↔ n = 1.
Proof.
  unfold is_int32. intros Hn. split; [|by intros ->].
  destruct (decide (n = -2147483648)) as [->|]; [by vm_compute|]. rewrite int32_id by (unfold is_int32; lia). lia.
Qed.

Lemma int32_round n : is_int32 n → 0 < n → int32 (n + 1) ≠ 1 ∧ int32 (int32 (n + 1) - 1) = n.
Proof.
  unfold is_int32. intros Hn Hp. destruct (decide (n = 2147483647)) as [->|]; [by vm_compute|].
  rewrite (int32_id (n + 1)), int32_id by (unfold is_int32; lia). lia.
Qed.

Section spec.
Context (to_lower : Z → Z).

(** Strings that name the same atom. *)
Definition same_name (l k : list Z) : Prop := to_lower <$> l = to_lower <$> k.

Lemma memicmp_same l k :
  Nat.eqb (length l) (length k) && memicmp_eq to_lower l k = true ↔ same_name l k.
Proof.
  unfold same_name. revert k. induction l as [|c l IH]; intros [|d k]; simpl; [done..|].
  rewrite andb_true_iff. destruct (Z.eqb_spec (to_lower c - to_lower d) 0) as [Hz|Hz]; simpl.
  - rewrite <-andb_true_iff, IH. split; [intros Heq; f_equal; [lia|exact Heq]|by intros [= _ Heq]].
  - split; [by intros []|]. intros [= ? _]. lia.
Qed.

Lemma hash_same l k n : same_name l k → hash_strW to_lower l n = hash_strW to_lower k n.
Proof.
  unfold same_name, hash_strW. intros H. f_equal.
  assert (Hf : ∀ l h, foldl (λ h c, w32 (h * 65599 + to_lower c)) h l =
    foldl (λ h c, w32 (h * 65599 + c)) h (to_lower <$> l)).
  { clear. induction l as [|c l IH]; intros h; [done|]. simpl. apply IH. }
  by rewrite !Hf, H.
Qed.

Lemma hash_range l : 0 <= hash_strW to_lower l HASH_SIZE < HASH_SIZE.
Proof. unfold hash_strW, HASH_SIZE. by apply Z.mod_pos_bound. Qed.

(** A string that is stored: of a legal length and not an integer atom. *)
Definition string_name (str : list Z) : Prop :=
  (1 <= length str <= 255)%nat ∧ get_int_atom_value str = 0.

Record entry_ok (t : atom_table) (a : addr) (e : atom_entry) : Prop := {
  eo_atom : MIN_STR_ATOM < ae_atom e < MIN_STR_ATOM + at_count t;
  eo_array : entry_at t (ae_atom e - MIN_STR_ATOM) = Some a;
  eo_hash : ae_hash e = hash_strW to_lower (ae_str e) HASH_SIZE;
  eo_count : is_int32 (ae_count e);
  eo_name : string_name (ae_str e);
}.

Definition bucket_ok (t : atom_table) (h : Z) : Prop :=
  ∃ p l, at_entries t !! Z.to_nat h = Some p ∧ dll (lnk (at_heap t)) p l ∧ NoDup l ∧
    ∀ a, a ∈ l ↔ ∃ e, at_heap t !! a = Some e ∧ ae_hash e = h.

Record atom_ok (t : atom_table) : Prop := {
  ao_count : 1 <= at_count t <= MAX_ATOMS;
  ao_atoms : Z.of_nat (length (at_atoms t)) = MAX_ATOMS;
  ao_entries : Z.of_nat (length (at_entries t)) = HASH_SIZE;
  ao_used : ∀ i a, entry_at t i = Some a → 0 < i < at_count t ∧
    ∃ e, at_heap t !! a = Some e ∧ ae_atom e = i + MIN_STR_ATOM;
  ao_entry : ∀ a e, at_heap t !! a = Some e → entry_ok t a e;
  ao_lists : ∀ h, 0 <= h < HASH_SIZE → bucket_ok t h;
  ao_unique : ∀ a b e f, at_heap t !! a = Some e → at_heap t !! b = Some f →
    same_name (ae_str e) (ae_str f) → a = b;
}.

(** Two tables with the same atoms, up to the error and the supply of memory. *)
Definition same_table (t t' : atom_table) : Prop :=
  at_count t' = at_count t ∧ at_atoms t' = at_atoms t ∧ at_entries t' = at_entries t ∧ at_heap t' = at_heap t.

Lemma same_table_ok t t' : same_table t t' → atom_ok t → atom_ok t'.
Proof.
  intros (Hc & Ha & He & Hh) [A B C D E F G].
  assert (Hat : ∀ i, entry_at t' i = entry_at t i) by (intros i; unfold entry_at; by rewrite Ha).
  split; rewrite ?Hc, ?Ha, ?He, ?Hh; [done|done|done| | | |done].
  - intros i a. rewrite Hat. apply D.
  - intros a e Hae. destruct (E a e Hae). split; rewrite ?Hc, ?Hat; done.
  - intros h Hr. destruct (F h Hr) as (p & l & ?). exists p, l. by rewrite He, Hh.
Qed.

Lemma same_table_names t t' atom : same_table t t' → names t' atom = names t atom.
Proof. intros (Hc & Ha & He & Hh). unfold names, entry_at. by rewrite Ha, Hh. Qed.

(** ** Looking up *)

Lemma names_entry t atom s n : names t atom = Some (s, n) →
  ∃ a e, entry_at t (atom - MIN_STR_ATOM) = Some a ∧ at_heap t !! a = Some e ∧ s = ae_str e ∧ n = ae_count e.
Proof.
  unfold names. destruct (entry_at t _) as [a|]; [|done]. simpl.
  destruct (at_heap t !! a) as [e|] eqn:He; [|done]. simpl. intros [= <- <-]. by exists a, e.
Qed.

Lemma entry_names t a e : atom_ok t → at_heap t !! a = Some e →
  names t (ae_atom e) = Some (ae_str e, ae_count e).
Proof. intros Ht He. unfold names. rewrite (eo_array _ _ _ (ao_entry _ Ht a e He)). simpl. by rewrite He. Qed.

Lemma wp_get_atoms t i Q : atom_ok t → 0 <= i < MAX_ATOMS → Q (entry_at t i) t → wp (get_atoms i) Q t.
Proof.
  intros Ht Hi HQ. unfold get_atoms. wp_steps.
  destruct (lookup_lt_is_Some_2 (at_atoms t) (Z.to_nat i)) as [p Hp]; [pose proof (ao_atoms _ Ht); lia|].
  eapply wp_arr_get; [lia|done|]. revert HQ. unfold entry_at. rewrite (proj2 (Z.leb_le 0 i)), Hp by lia. done.
Qed.

Lemma entry_at_range t i : atom_ok t → ¬ (0 < i < at_count t) → entry_at t i = None.
Proof.
  intros Ht Hi. destruct (entry_at t i) as [a|] eqn:E; [|done]. by destruct (ao_used _ Ht i a E).
Qed.

(** [get_atom_entry] finds the entry of an atom, or reports an invalid handle. *)
Lemma get_atom_entry_ok t atom : atom_ok t →
  wp (get_atom_entry atom) (λ r t', r = entry_at t (atom - MIN_STR_ATOM) ∧
    t' = if r then t else set_at_error ATOM_INVALID_HANDLE t) t.
Proof.
  intros Ht. pose proof (ao_count _ Ht). unfold get_atom_entry, atom_error. wp_steps.
  destruct (Z.leb_spec MIN_STR_ATOM atom), (Z.ltb_spec atom (MIN_STR_ATOM + at_count t)); simpl.
  1: { apply wp_get_atoms; [done|lia|]. destruct (entry_at t _); wp_steps; done. }
  all: wp_steps; split; [symmetry; apply entry_at_range; [done|lia]|done].
Qed.

(** The walk of a list finds the entry of the string, if there is one. *)
Lemma find_in_list_ok n t p l pv str : atom_ok t → dseg (lnk (at_heap t)) pv p l None → (length l <= n)%nat →
  wp (find_in_list to_lower n p str) (λ r t', t' = t ∧
    match r with
    | Some a => a ∈ l ∧ ∃ e, at_heap t !! a = Some e ∧ same_name (ae_str e) str
    | None => ∀ a e, a ∈ l → at_heap t !! a = Some e → ¬ same_name (ae_str e) str
    end) t.
Proof.
  intros Ht. revert p l pv. induction n as [|n IH]; intros p [|a l] pv; simpl; try lia.
  - intros -> _. wp_steps. split; [done|]. by intros a e ?%not_elem_of_nil.
  - intros -> _. wp_steps. split; [done|]. by intros a e ?%not_elem_of_nil.
  - intros (-> & nx & Ha & Hl) Hn. unfold get_entry. wp_steps.
    unfold lnk in Ha. destruct (at_heap t !! a) as [e|] eqn:He; [|done]. simpl in Ha. injection Ha as <- _.
    eapply wp_deref; [done|]. apply wp_if; intros Hm.
    + wp_steps. split; [done|]. split; [by left|]. exists e. split; [done|]. by apply memicmp_same.
    + eapply wp_mono; [apply (IH _ l _ Hl); lia|]. cbv beta. intros [b|] t' [-> Hr]; (split; [done|]).
      * split; [by right; apply Hr|]. apply Hr.
      * intros b f [->|Hb]%elem_of_cons Hf; [|by eapply Hr]. simplify_eq. rewrite <-memicmp_same. congruence.
Qed.

Lemma dll_in_heap h pv p l q : dseg (lnk h) pv p l q → ∀ a, a ∈ l → is_Some (h !! a).
Proof.
  revert pv p. induction l as [|b l IH]; intros pv p; simpl; [by intros _ a ?%not_elem_of_nil|].
  intros (-> & nx & Hb & Hl) a [->|Ha]%elem_of_cons; [|by eapply IH].
  unfold lnk in Hb. destruct (h !! b); [done|done].
Qed.

Lemma dll_length h pv p l q : dseg (lnk h) pv p l q → NoDup l → (length l <= size h)%nat.
Proof.
  intros Hl Hnd. assert (Hs : (list_to_set l : gset addr) ⊆ dom h).
  { intros a Ha%elem_of_list_to_set. apply elem_of_dom. by eapply dll_in_heap. }
  apply subseteq_size in Hs. by rewrite size_list_to_set, size_dom in Hs.
Qed.

Lemma find_atom_entry_ok t str : atom_ok t →
  wp (find_atom_entry to_lower str (hash_strW to_lower str HASH_SIZE)) (λ r t', t' = t ∧
    match r with
    | Some a => ∃ e, at_heap t !! a = Some e ∧ same_name (ae_str e) str
    | None => ∀ a e, at_heap t !! a = Some e → ¬ same_name (ae_str e) str
    end) t.
Proof.
  intros Ht. pose proof (hash_range str) as Hr. destruct (ao_lists _ Ht _ Hr) as (p & l & Hp & Hl & Hnd & Hin).
  unfold find_atom_entry, get_bucket. wp_steps. eapply wp_arr_get; [lia|done|].
  eapply wp_mono; [eapply find_in_list_ok; [done|done|by eapply dll_length]|]. cbv beta.
  intros [a|] t' [-> Hres]; (split; [done|]); [apply Hres|].
  intros a e He Hs. apply (Hres a e); [|done|done]. apply Hin. exists e. split; [done|].
  rewrite (eo_hash _ _ _ (ao_entry _ Ht a e He)). by apply hash_same.
Qed.

(** ** Changing a reference count *)

(** Atom [atom] now means [v], the others what they meant. *)
Definition renamed (t t' : atom_table) (atom : Z) (v : option (list Z * Z)) : Prop :=
  names t' atom = v ∧ ∀ b, b ≠ atom → names t' b = names t b.

Lemma lnk_set_count h a e n b : h !! a = Some e → lnk (<[a:=set_count n e]> h) b = lnk h b.
Proof.
  intros He. unfold lnk. destruct (decide (b = a)) as [->|Hne]; [by rewrite lookup_insert_eq, He|].
  by rewrite lookup_insert_ne.
Qed.

Lemma entry_at_inj t i j a : atom_ok t → entry_at t i = Some a → entry_at t j = Some a → i = j.
Proof.
  intros Ht Hi Hj. destruct (ao_used _ Ht i a Hi) as (_ & e & He & Hei).
  destruct (ao_used _ Ht j a Hj) as (_ & f & Hf & Hfj). simplify_eq. lia.
Qed.

Lemma recount_ok t a e n : atom_ok t → at_heap t !! a = Some e → is_int32 n →
  let t' := set_at_heap (<[a:=set_count n e]>) t in
  atom_ok t' ∧ renamed t t' (ae_atom e) (Some (ae_str e, n)).
Proof.
  intros Ht He Hn t'. pose proof Ht as [A B C D E F G].
  assert (Hh : ∀ b f, at_heap t' !! b = Some f → ∃ f0, at_heap t !! b = Some f0 ∧
    ae_atom f = ae_atom f0 ∧ ae_hash f = ae_hash f0 ∧ ae_str f = ae_str f0 ∧ is_int32 (ae_count f)).
  { intros b f Hf. unfold t' in Hf; simpl in Hf. destruct (decide (b = a)) as [->|Hne].
    - rewrite lookup_insert_eq in Hf. injection Hf as <-. exists e. done.
    - rewrite lookup_insert_ne in Hf by done. exists f. split_and!; try done. by eapply eo_count, E. }
  split.
  - split; [done|done|done| | | |].
    + intros i b Hib. destruct (D i b Hib) as (Hi & f & Hf & Hfi). split; [done|].
      simpl. destruct (decide (b = a)) as [->|Hne].
      * rewrite lookup_insert_eq. simplify_eq. by eexists.
      * rewrite lookup_insert_ne by done. by exists f.
    + intros b f Hf. destruct (Hh b f Hf) as (f0 & Hf0 & Ha & Hs & Hst & Hc).
      destruct (E b f0 Hf0). split; rewrite ?Ha, ?Hs, ?Hst; done.
    + intros h Hr. destruct (F h Hr) as (p & l & Hp & Hl & Hnd & Hin). exists p, l.
      split_and!; [done| |done|].
      * eapply dseg_ext; [|done]. intros b _. by apply lnk_set_count.
      * intros b. rewrite Hin. simpl. destruct (decide (b = a)) as [->|Hne].
        -- rewrite lookup_insert_eq. split; intros (f & Hf & Hfh); simplify_eq; by eexists.
        -- by rewrite lookup_insert_ne.
    + intros b c f g Hf Hg Hs. destruct (Hh b f Hf) as (f0 & Hf0 & _ & _ & Hst & _).
      destruct (Hh c g Hg) as (g0 & Hg0 & _ & _ & Hst' & _). rewrite Hst, Hst' in Hs. by eapply G.
  - split.
    + unfold names. change (entry_at t') with (entry_at t). rewrite (eo_array _ _ _ (E a e He)). simpl.
      by rewrite lookup_insert_eq.
    + intros b Hb. unfold names. change (entry_at t') with (entry_at t).
      destruct (entry_at t (b - MIN_STR_ATOM)) as [c|] eqn:Hc; [|done]. simpl.
      rewrite lookup_insert_ne; [done|]. intros <-. apply Hb.
      pose proof (entry_at_inj t _ _ a Ht Hc (eo_array _ _ _ (E a e He))). lia.
Qed.

(** ** Adding an entry *)

Lemma entry_at_insert t i p j : 0 <= i < Z.of_nat (length (at_atoms t)) →
  entry_at (set_at_atoms (<[Z.to_nat i:=p]> (at_atoms t)) t) j = if j =? i then p else entry_at t j.
Proof.
  intros Hi. unfold entry_at. simpl. destruct (Z.leb_spec 0 j).
  - destruct (Z.eqb_spec j i) as [->|Hne].
    + by rewrite list_lookup_insert_eq by lia.
    + rewrite list_lookup_insert_ne by lia. done.
  - destruct (Z.eqb_spec j i); [lia|done].
Qed.

Section add.
Context (t t' : atom_table) (a : addr) (i : Z) (str : list Z) (next : option addr).
Let hash := hash_strW to_lower str HASH_SIZE.
Let new := AtomEntry next None 1 (i + MIN_STR_ATOM) hash str.
Context (Ht : atom_ok t) (Hfresh : at_heap t !! a = None) (Hstr : string_name str).
Context (Hnew : ∀ b e, at_heap t !! b = Some e → ¬ same_name (ae_str e) str).
Context (Hi : 0 < i < MAX_ATOMS) (Hic : i <= at_count t) (Hfree : entry_at t i = None).
Context (Hnext : at_entries t !! Z.to_nat hash = Some next).
Context (Hcount' : at_count t' = Z.max (at_count t) (i + 1)).
Context (Hatoms' : at_atoms t' = <[Z.to_nat i:=Some a]> (at_atoms t)).
Context (Hentries' : at_entries t' = <[Z.to_nat hash:=Some a]> (at_entries t)).
Context (Hheap' : ∀ b, at_heap t' !! b = if bool_decide (b = a) then Some new
  else if bool_decide (next = Some b) then set_prev (Some a) <$> at_heap t !! b else at_heap t !! b).

Lemma added_entry_at j : entry_at t' j = if j =? i then Some a else entry_at t j.
Proof.
  pose proof (ao_atoms _ Ht). rewrite <-(entry_at_insert t i (Some a) j) by lia.
  unfold entry_at. by rewrite Hatoms'.
Qed.

Lemma added_heap b f : at_heap t' !! b = Some f → b = a ∧ f = new ∨
  b ≠ a ∧ ∃ f0, at_heap t !! b = Some f0 ∧ ae_atom f = ae_atom f0 ∧ ae_hash f = ae_hash f0 ∧
    ae_str f = ae_str f0 ∧ ae_count f = ae_count f0.
Proof.
  rewrite Hheap'. case_bool_decide as Hba; [intros [= <-]; by left|]. right. split; [done|].
  case_bool_decide; [|by exists f]. destruct (at_heap t !! b) as [f0|]; [|done].
  simplify_eq/=. by exists f0.
Qed.

Lemma kept_heap b f0 : at_heap t !! b = Some f0 → b ≠ a ∧ ∃ f, at_heap t' !! b = Some f ∧
  ae_atom f = ae_atom f0 ∧ ae_hash f = ae_hash f0 ∧ ae_str f = ae_str f0 ∧ ae_count f = ae_count f0.
Proof.
  intros Hf. assert (Hne : b ≠ a) by congruence. split; [done|].
  rewrite Hheap', bool_decide_eq_false_2 by done. case_bool_decide; rewrite Hf; by eexists.
Qed.

Lemma added_bucket h : 0 <= h < HASH_SIZE → bucket_ok t' h.
Proof.
  intros Hh. pose proof (hash_range str) as Hr. fold hash in Hr.
  pose proof (ao_entries _ Ht) as Hlen.
  destruct (ao_lists _ Ht h Hh) as (p & l & Hp & Hl & Hnd & Hin).
  assert (Hal : a ∉ l). { intros (e & He & _)%Hin. congruence. }
  assert (Hin' : ∀ b, (∃ e, at_heap t' !! b = Some e ∧ ae_hash e = h) ↔ b = a ∧ hash = h ∨ b ∈ l).
  { intros b. rewrite Hin. split.
    - intros (e & [[-> ->]|(Hne & f0 & Hf0 & _ & Hhash & _)]%added_heap & Heh); [by left|].
      right. exists f0. by rewrite <-Hhash.
    - intros [[-> <-]|(e & He & Heh)].
      + exists new. by rewrite Hheap', bool_decide_eq_true_2.
      + destruct (kept_heap b e He) as (_ & f & Hf & _ & Hhash & _). exists f. by rewrite Hhash. }
  assert (Hlnk : ∀ b, b ∈ l → lnk (at_heap t') b =
    if bool_decide (next = Some b) then (λ x, (fst x, Some a)) <$> lnk (at_heap t) b else lnk (at_heap t) b).
  { intros b Hb. unfold lnk. rewrite Hheap', bool_decide_eq_false_2 by congruence.
    case_bool_decide; by destruct (at_heap t !! b). }
  destruct (Z.eq_dec h hash) as [->|Hne].
  - exists (Some a), (a :: l). rewrite Hentries', list_lookup_insert_eq by lia. rewrite Hnext in Hp.
    injection Hp as <-. split_and!; [done| | |].
    + simpl. split; [done|]. exists next. split; [unfold lnk; by rewrite Hheap', bool_decide_eq_true_2|].
      eapply dseg_set_prev; [done|done|]. done.
    + by constructor.
    + intros b. rewrite Hin', elem_of_cons. tauto.
  - exists p, l. rewrite Hentries', list_lookup_insert_ne by lia. split_and!; [done| |done|].
    + eapply dseg_ext; [|done]. intros b Hb. rewrite (Hlnk b Hb). rewrite bool_decide_eq_false_2; [done|].
      intros Hnb. apply Hin in Hb as (e & He & Heh). apply Hne. rewrite <-Heh.
      destruct (ao_lists _ Ht hash Hr) as (p' & l' & Hp' & Hl' & _ & Hin'').
      rewrite Hnext in Hp'. injection Hp' as <-. destruct l' as [|c l']; simpl in Hl'; [by rewrite Hnb in Hl'|].
      destruct Hl' as (Hc & _). rewrite Hnb in Hc. injection Hc as ->.
      destruct (proj1 (Hin'' c)) as (f & Hf & Hfh); [by left|]. congruence.
    + intros b. rewrite Hin'. split; [by right|]. intros [[_ ?]|?]; [congruence|done].
Qed.

Lemma added_ok : atom_ok t' ∧ renamed t t' (i + MIN_STR_ATOM) (Some (str, 1)).
Proof.
  pose proof Ht as [A B C D E F G]. split.
  - split.
    + rewrite Hcount'. lia.
    + by rewrite Hatoms', length_insert.
    + by rewrite Hentries', length_insert.
    + intros j b. rewrite added_entry_at, Hcount'. destruct (Z.eqb_spec j i) as [->|Hne].
      * intros [= <-]. split; [lia|]. exists new. by rewrite Hheap', bool_decide_eq_true_2.
      * intros Hb. destruct (D j b Hb) as (Hj & f & Hf & Hfj). split; [lia|].
        destruct (kept_heap b f Hf) as (_ & f' & Hf' & Hat & _). exists f'. by rewrite Hat.
    + intros b f [[-> ->]|(Hne & f0 & Hf0 & Hat & Hhash & Hst & Hc)]%added_heap.
      * split; simpl; [rewrite Hcount'; lia| |done|unfold is_int32; lia|done].
        rewrite added_entry_at. replace (i + MIN_STR_ATOM - MIN_STR_ATOM) with i by lia. by rewrite Z.eqb_refl.
      * destruct (E b f0 Hf0). split; rewrite ?Hat, ?Hhash, ?Hst, ?Hc; [rewrite Hcount'; lia| |done|done|done].
        rewrite added_entry_at. destruct (Z.eqb_spec (ae_atom f0 - MIN_STR_ATOM) i) as [Heq|]; [|done]. congruence.
    + apply added_bucket.
    + intros b c f g [[-> ->]|(Hb & f0 & Hf0 & _ & _ & Hst & _)]%added_heap
        [[-> ->]|(Hc & g0 & Hg0 & _ & _ & Hst' & _)]%added_heap Hs; simpl in *.
      * done.
      * exfalso. apply (Hnew c g0 Hg0). rewrite <-Hst'. unfold same_name in *. congruence.
      * exfalso. apply (Hnew b f0 Hf0). by rewrite <-Hst.
      * eapply G; [done|done|]. by rewrite <-Hst, <-Hst'.
  - split.
    + unfold names. rewrite added_entry_at. replace (i + MIN_STR_ATOM - MIN_STR_ATOM) with i by lia.
      rewrite Z.eqb_refl. simpl. by rewrite Hheap', bool_decide_eq_true_2.
    + intros b Hb. unfold names. rewrite added_entry_at.
      destruct (Z.eqb_spec (b - MIN_STR_ATOM) i); [lia|].
      destruct (entry_at t (b - MIN_STR_ATOM)) as [c|] eqn:Hc; [|done]. simpl.
      destruct (D _ _ Hc) as (_ & f & Hf & _). destruct (kept_heap c f Hf) as (_ & f' & Hf' & _ & _ & Hst & Hcn).
      by rewrite Hf, Hf'; simpl; rewrite Hst, Hcn.
Qed.
End add.

(** ** Removing an entry *)

Section remove.
Context (t t' : atom_table) (a : addr) (e : atom_entry).
Let hash := ae_hash e.
Let i := ae_atom e - MIN_STR_ATOM.
Context (Ht : atom_ok t) (He : at_heap t !! a = Some e).
Definition unlinked (b : addr) (f : atom_entry) : atom_entry :=
  let f := if bool_decide (ae_next e = Some b) then set_prev (ae_prev e) f else f in
  if bool_decide (ae_prev e = Some b) then set_next (ae_next e) f else f.
Context (Hcount' : at_count t' = at_count t).
Context (Hatoms' : at_atoms t' = <[Z.to_nat i:=None]> (at_atoms t)).
Context (Hentries' : at_entries t' =
  if ae_prev e then at_entries t else <[Z.to_nat hash:=ae_next e]> (at_entries t)).
Context (Hheap' : ∀ b, at_heap t' !! b = if bool_decide (b = a) then None else unlinked b <$> at_heap t !! b).

Lemma unlinked_same b f : ae_atom (unlinked b f) = ae_atom f ∧ ae_hash (unlinked b f) = ae_hash f ∧
  ae_str (unlinked b f) = ae_str f ∧ ae_count (unlinked b f) = ae_count f.
Proof. unfold unlinked. by repeat case_bool_decide. Qed.

Lemma removed_entry_at j : entry_at t' j = if j =? i then None else entry_at t j.
Proof.
  pose proof (ao_atoms _ Ht). pose proof (ao_count _ Ht). destruct (ao_entry _ Ht a e He) as [Hr _ _ _ _].
  rewrite <-(entry_at_insert t i None j) by (unfold i; lia). unfold entry_at. by rewrite Hatoms'.
Qed.

Lemma removed_heap b f : at_heap t' !! b = Some f → b ≠ a ∧ ∃ f0, at_heap t !! b = Some f0 ∧
  ae_atom f = ae_atom f0 ∧ ae_hash f = ae_hash f0 ∧ ae_str f = ae_str f0 ∧ ae_count f = ae_count f0.
Proof.
  rewrite Hheap'. case_bool_decide; [done|]. destruct (at_heap t !! b) as [f0|]; [|done].
  intros [= <-]. split; [done|]. exists f0. split; [done|]. apply unlinked_same.
Qed.

Lemma survivor b f0 : at_heap t !! b = Some f0 → b ≠ a → ∃ f, at_heap t' !! b = Some f ∧
  ae_atom f = ae_atom f0 ∧ ae_hash f = ae_hash f0 ∧ ae_str f = ae_str f0 ∧ ae_count f = ae_count f0.
Proof.
  intros Hf Hne. rewrite Hheap', bool_decide_eq_false_2, Hf by done. simpl. eexists. split; [done|].
  apply unlinked_same.
Qed.

(** The nodes around [a] in its list. *)
Lemma neighbours : ∃ p l1 l2, at_entries t !! Z.to_nat hash = Some p ∧
  dseg (lnk (at_heap t)) None p l1 (Some a) ∧ dseg (lnk (at_heap t)) (Some a) (ae_next e) l2 None ∧
  ae_prev e = last_of None l1 ∧ NoDup (l1 ++ a :: l2) ∧
  ∀ b, b ∈ l1 ++ a :: l2 ↔ ∃ f, at_heap t !! b = Some f ∧ ae_hash f = hash.
Proof.
  assert (Hr : 0 <= hash < HASH_SIZE).
  { unfold hash. rewrite (eo_hash _ _ _ (ao_entry _ Ht a e He)). apply hash_range. }
  destruct (ao_lists _ Ht hash Hr) as (p & l & Hp & Hl & Hnd & Hin).
  assert (Ha : a ∈ l) by (apply Hin; eauto).
  apply list_elem_of_split in Ha as (l1 & l2 & ->). exists p, l1, l2.
  apply dseg_app in Hl as (m & Hl1 & Hl2). simpl in Hl2. destruct Hl2 as (-> & nx & Ha & Hl2).
  unfold lnk in Ha. rewrite He in Ha. simpl in Ha. injection Ha as <- Hprev. done.
Qed.

Lemma last_of_elem pv l b : last_of pv l = Some b → b ∈ l ∨ pv = Some b.
Proof.
  revert pv. induction l as [|c l IH]; intros pv; simpl; [by right|].
  intros [?|[= ->]]%IH; left; [by right|by left].
Qed.
Lemma last_of_none l : last_of None l = None → l = [].
Proof.
  destruct l as [|c l]; [done|]. simpl. revert c. induction l as [|d l IH]; intros c; simpl; [done|]. intros H. by apply IH in H.
Qed.
Lemma dseg_head L pv p l q b : dseg L pv p l q → p = Some b → q = None → b ∈ l.
Proof. destruct l; simpl; [by intros -> -> [=]|]. intros (-> & _) [= ->] _. by left. Qed.

Lemma removed_bucket h : 0 <= h < HASH_SIZE → bucket_ok t' h.
Proof.
  intros Hh. pose proof (ao_entries _ Ht) as Hlen.
  destruct neighbours as (p & l1 & l2 & Hp & Hl1 & Hl2 & Hprev & Hnd & Hin).
  assert (Hin' : ∀ b h', (∃ f, at_heap t' !! b = Some f ∧ ae_hash f = h') ↔
    b ≠ a ∧ ∃ f, at_heap t !! b = Some f ∧ ae_hash f = h').
  { intros b h'. split.
    - intros (f & (Hne & f0 & Hf0 & _ & Hhash & _)%removed_heap & Hfh). split; [done|]. exists f0. by rewrite <-Hhash.
    - intros (Hne & f & Hf & Hfh). destruct (survivor b f Hf Hne) as (f' & Hf' & _ & Hhash & _).
      exists f'. by rewrite Hhash. }
  assert (Hnext_in : ∀ b, ae_next e = Some b → b ∈ l2) by (intros b Hb; by eapply dseg_head).
  assert (Hprev_in : ∀ b, ae_prev e = Some b → b ∈ l1).
  { intros b Hb. rewrite Hprev in Hb. by destruct (last_of_elem _ _ _ Hb). }
  assert (Hlnk : ∀ b, b ≠ a → lnk (at_heap t') b = (λ f, (ae_next f, ae_prev f)) <$> (unlinked b <$> at_heap t !! b)).
  { intros b Hb. unfold lnk. by rewrite Hheap', bool_decide_eq_false_2. }
  assert (Hnd' := Hnd). apply NoDup_app in Hnd' as (Hnd1 & Hdisj & [Hna2 Hnd2]%NoDup_cons).
  assert (Hna1 : a ∉ l1) by (intros Hin1; apply (Hdisj a Hin1); by left).
  assert (Hd12 : ∀ b, b ∈ l1 → b ∉ l2) by (intros b Hb Hb2; apply (Hdisj b Hb); by right).
  assert (Hlnk1 : ∀ b, b ∈ l1 → lnk (at_heap t') b =
    if bool_decide (last_of None l1 = Some b) then (λ x, (ae_next e, snd x)) <$> lnk (at_heap t) b
    else lnk (at_heap t) b).
  { intros b Hb. rewrite Hlnk by congruence. unfold lnk, unlinked. rewrite <-Hprev.
    rewrite (bool_decide_eq_false_2 (ae_next e = Some b)) by (intros Hb2%Hnext_in; by eapply Hd12).
    case_bool_decide; by destruct (at_heap t !! b). }
  assert (Hlnk2 : ∀ b, b ∈ l2 → lnk (at_heap t') b =
    if bool_decide (ae_next e = Some b) then (λ x, (fst x, ae_prev e)) <$> lnk (at_heap t) b
    else lnk (at_heap t) b).
  { intros b Hb. rewrite Hlnk by congruence. unfold lnk, unlinked.
    rewrite (bool_decide_eq_false_2 (ae_prev e = Some b)) by (intros Hb1%Hprev_in; by eapply Hd12).
    case_bool_decide; by destruct (at_heap t !! b). }
  assert (Hl2' : dseg (lnk (at_heap t')) (last_of None l1) (ae_next e) l2 None).
  { rewrite <-Hprev. eapply dseg_set_prev; [exact Hl2|done|]. exact Hlnk2. }
  destruct (Z.eq_dec h hash) as [->|Hne].
  - exists (if ae_prev e then p else ae_next e), (l1 ++ l2). split_and!.
    + rewrite Hentries'. destruct (ae_prev e); [done|]. rewrite list_lookup_insert_eq; [done|lia].
    + apply dseg_app. exists (ae_next e). split; [|done]. destruct (decide (l1 = [])) as [->|Hne1].
      * simpl in Hprev. by rewrite Hprev.
      * destruct (ae_prev e) as [b|] eqn:Hpe; [|by symmetry in Hprev; apply last_of_none in Hprev].
        eapply dseg_set_last; [exact Hl1|done|done|]. exact Hlnk1.
    + apply NoDup_app. split_and!; [done| |done]. done.
    + intros b. rewrite Hin'. rewrite <-Hin, !elem_of_app, elem_of_cons. split; [|tauto].
      intros [Hb|Hb]; (split; [congruence|tauto]).
  - destruct (ao_lists _ Ht h Hh) as (q & l & Hq & Hl & Hndl & Hinl).
    assert (Hout : ∀ b, b ∈ l → b ∉ l1 ++ a :: l2).
    { intros b (f & Hf & Hfh)%Hinl (f' & Hf' & Hfh')%Hin. apply Hne. congruence. }
    assert (Hnota : ∀ b, b ∈ l → b ≠ a).
    { intros b Hb ->. apply (Hout a Hb). apply elem_of_app. right. by left. }
    exists q, l. split_and!; [| |done|].
    + rewrite Hentries'. destruct (ae_prev e); [done|]. rewrite list_lookup_insert_ne; [done|].
      assert (0 <= hash); [|lia]. unfold hash. rewrite (eo_hash _ _ _ (ao_entry _ Ht a e He)). apply hash_range.
    + eapply dseg_ext; [|done]. intros b Hb. rewrite Hlnk by auto. unfold lnk, unlinked.
      rewrite (bool_decide_eq_false_2 (ae_next e = Some b)),
        (bool_decide_eq_false_2 (ae_prev e = Some b)); [by destruct (at_heap t !! b)| |].
      * intros Hb1%Hprev_in. apply (Hout b Hb). apply elem_of_app. by left.
      * intros Hb2%Hnext_in. apply (Hout b Hb). apply elem_of_app. right. by right.
    + intros b. rewrite Hin', Hinl. split; [|tauto]. intros Hb. split; [|done]. apply Hnota. by apply Hinl.
Qed.

Lemma removed_ok : atom_ok t' ∧ renamed t t' (ae_atom e) None.
Proof.
  pose proof Ht as [A B C D E F G]. destruct (E a e He) as [Hr Harr _ _ _]. split.
  - split.
    + by rewrite Hcount'.
    + by rewrite Hatoms', length_insert.
    + rewrite Hentries'. destruct (ae_prev e); [done|by rewrite length_insert].
    + intros j b. rewrite removed_entry_at, Hcount'. destruct (Z.eqb_spec j i) as [|Hj]; [done|].
      intros Hb. destruct (D j b Hb) as (Hjr & f & Hf & Hfj). split; [done|].
      assert (Hne : b ≠ a). { intros ->. apply Hj. eapply entry_at_inj; [done|done|]. exact Harr. }
      destruct (survivor b f Hf Hne) as (f' & Hf' & Hat & _). exists f'. by rewrite Hat.
    + intros b f (Hne & f0 & Hf0 & Hat & Hhash & Hst & Hc)%removed_heap.
      destruct (E b f0 Hf0) as [Hfr Hfa ? ? ?]. split; rewrite ?Hat, ?Hhash, ?Hst, ?Hc, ?Hcount'; try done.
      rewrite removed_entry_at. destruct (Z.eqb_spec (ae_atom f0 - MIN_STR_ATOM) i) as [Heq|]; [|done].
      unfold i in Heq. rewrite Heq in Hfa. congruence.
    + apply removed_bucket.
    + intros b c f g (Hb & f0 & Hf0 & _ & _ & Hst & _)%removed_heap
        (Hc & g0 & Hg0 & _ & _ & Hst' & _)%removed_heap Hs. eapply G; [done|done|]. by rewrite <-Hst, <-Hst'.
  - split.
    + unfold names. rewrite removed_entry_at. unfold i. by rewrite Z.eqb_refl.
    + intros b Hb. unfold names. rewrite removed_entry_at.
      destruct (Z.eqb_spec (b - MIN_STR_ATOM) i) as [Heq|Hi]; [unfold i in Heq; lia|].
      destruct (entry_at t (b - MIN_STR_ATOM)) as [c|] eqn:Hc; [|done]. simpl.
      destruct (D _ _ Hc) as (_ & f & Hf & _).
      assert (Hne : c ≠ a). { intros ->. apply Hi. eapply entry_at_inj; [done|done|]. exact Harr. }
      destruct (survivor c f Hf Hne) as (f' & Hf' & _ & _ & Hst & Hcn).
      by rewrite Hf, Hf'; simpl; rewrite Hst, Hcn.
Qed.
End remove.

(** ** The operations *)

Lemma wp_get_entry t a e (Q : atom_entry → atom_table → Prop) :
  at_heap t !! a = Some e → Q e t → wp (get_entry a) Q t.
Proof. intros He HQ. unfold get_entry. wp_steps. by eapply wp_deref. Qed.

Lemma wp_put_bucket t h p (Q : unit → atom_table → Prop) : 0 <= h < Z.of_nat (length (at_entries t)) →
  Q tt (set_at_entries (<[Z.to_nat h:=p]> (at_entries t)) t) → wp (put_bucket h p) Q t.
Proof. intros Hh HQ. unfold put_bucket. wp_steps. apply wp_arr_set; [done|]. by wp_steps. Qed.

Lemma wp_put_atoms t i p (Q : unit → atom_table → Prop) : 0 <= i < Z.of_nat (length (at_atoms t)) →
  Q tt (set_at_atoms (<[Z.to_nat i:=p]> (at_atoms t)) t) → wp (put_atoms i p) Q t.
Proof. intros Hi HQ. unfold put_atoms. wp_steps. apply wp_arr_set; [done|]. by wp_steps. Qed.

(** The first free atom of a table with the arrays of [t]. *)
Definition first_free (t : atom_table) (i : Z) : Prop :=
  1 <= i <= at_count t ∧ entry_at t i = None ∧ ∀ j, 1 <= j < i → entry_at t j ≠ None.

Lemma find_free_atom_ok n t u i : atom_ok t → at_atoms u = at_atoms t → at_count u = at_count t →
  1 <= i <= at_count t → at_count t - i <= Z.of_nat n → (∀ j, 1 <= j < i → entry_at t j ≠ None) →
  wp (find_free_atom n i) (λ r u', u' = u ∧ first_free t r) u.
Proof.
  intros Ht Ha Hc. revert i. induction n as [|n IH]; intros i Hi Hn Hused; simpl; wp_steps; rewrite Hc;
    (destruct (Z.leb_spec (at_count t) i);
     [wp_steps; split; [done|]; split; [lia|]; split; [apply entry_at_range; [done|lia]|done]|]); [lia|].
  wp_steps. pose proof (ao_count _ Ht). pose proof (ao_atoms _ Ht). unfold get_atoms. wp_steps. rewrite Ha.
  destruct (lookup_lt_is_Some_2 (at_atoms t) (Z.to_nat i)) as [p Hp]; [lia|].
  assert (Hat : entry_at t i = p) by (unfold entry_at; rewrite (proj2 (Z.leb_le 0 i)), Hp by lia; done).
  eapply wp_arr_get; [lia|done|]. destruct p as [a|].
  - apply IH; [lia|lia|]. intros j Hj. destruct (Z.eq_dec j i) as [->|]; [by rewrite Hat|]. apply Hused. lia.
  - wp_steps. split; [done|]. split; [lia|]. by split.
Qed.

(** The name of an atom, up to case, is [str]. *)
Definition named (t : atom_table) (str : list Z) (atom : Z) : Prop :=
  ∃ s n, names t atom = Some (s, n) ∧ same_name s str.

(** What adding a string does. *)
Definition add_spec (str : list Z) (t : atom_table) (r : Z) (t' : atom_table) : Prop :=
  if Nat.eqb (length str) 0 then r = 0 ∧ t' = set_at_error ATOM_NAME_INVALID t
  else if (255 <? length str)%nat then r = 0 ∧ t' = set_at_error ATOM_INVALID_PARAMETER t
  else if negb (get_int_atom_value str =? 0) then r = get_int_atom_value str ∧ t' = t
  else
    (∃ s n, names t r = Some (s, n) ∧ same_name s str ∧ renamed t t' r (Some (s, int32 (n + 1))) ∧ at_error t' = at_error t) ∨
    ((∀ b, ¬ named t str b) ∧
     (r = 0 ∧ at_error t' = ATOM_NO_MEMORY ∧ (∀ b, names t' b = names t b) ∧
        (head (at_allocs t) = Some false ∨ ∀ b, MIN_STR_ATOM < b < MIN_STR_ATOM + MAX_ATOMS → names t b ≠ None) ∨
      MIN_STR_ATOM < r < MIN_STR_ATOM + MAX_ATOMS ∧ names t r = None ∧
        (∀ b, MIN_STR_ATOM < b < r → names t b ≠ None) ∧
        renamed t t' r (Some (str, 1)) ∧ at_error t' = at_error t)).

Lemma not_named t str : atom_ok t → (∀ a e, at_heap t !! a = Some e → ¬ same_name (ae_str e) str) →
  ∀ b, ¬ named t str b.
Proof. intros Ht H b (s & n & (a & e & _ & He & -> & _)%names_entry & Hs). by eapply H. Qed.

Lemma names_none t i : atom_ok t → entry_at t i = None ↔ names t (i + MIN_STR_ATOM) = None.
Proof.
  intros Ht. unfold names. replace (i + MIN_STR_ATOM - MIN_STR_ATOM) with i by lia.
  destruct (entry_at t i) as [a|] eqn:E; [|done]. simpl. destruct (ao_used _ Ht i a E) as (_ & e & -> & _). done.
Qed.

(** The insertion of an entry whose string is new. *)
Lemma insert_atom_ok t str : atom_ok t → string_name str →
  (∀ a e, at_heap t !! a = Some e → ¬ same_name (ae_str e) str) →
  wp (p <- alloc_atom_node;
      match p with
      | None => ret 0
      | Some a =>
          atom <- add_atom_entry a;
          if negb (atom =? 0) then
            next <- get_bucket (hash_strW to_lower str HASH_SIZE);
            match next with
            | Some b => f <- get_entry b; put_entry b (set_prev (Some a) f)
            | None => ret tt
            end ;;
            put_bucket (hash_strW to_lower str HASH_SIZE) (Some a) ;;
            e <- get_entry a;
            put_entry a (AtomEntry next None 1 (ae_atom e) (hash_strW to_lower str HASH_SIZE) str) ;;
            ret atom
          else atom_error ATOM_NO_MEMORY ;; free_entry a ;; ret 0
      end)
    (λ r t', atom_ok t' ∧
      (r = 0 ∧ at_error t' = ATOM_NO_MEMORY ∧ (∀ b, names t' b = names t b) ∧
         (head (at_allocs t) = Some false ∨ ∀ b, MIN_STR_ATOM < b < MIN_STR_ATOM + MAX_ATOMS → names t b ≠ None) ∨
       MIN_STR_ATOM < r < MIN_STR_ATOM + MAX_ATOMS ∧ names t r = None ∧
         (∀ b, MIN_STR_ATOM < b < r → names t b ≠ None) ∧
         renamed t t' r (Some (str, 1)) ∧ at_error t' = at_error t)) t.
Proof.
  intros Ht Hstr Hnew. set (hash := hash_strW to_lower str HASH_SIZE). apply wp_bind.
  unfold wp at 1, alloc_atom_node.
  destruct (match at_allocs t with [] => (true, []) | b :: l => (b, l) end) as [ok l] eqn:Eal. destruct ok.
  2: { apply wp_ret. split; [by apply (same_table_ok t)|]. left. split_and!; try done.
       left. destruct (at_allocs t) as [|[] ?]; simpl in *; congruence. }
  simpl. set (a := fresh (dom (at_heap t))).
  assert (Hfresh : at_heap t !! a = None) by (apply not_elem_of_dom, is_fresh).
  unfold add_atom_entry. wp_steps. pose proof (ao_count _ Ht) as Hc.
  eapply wp_mono; [apply (find_free_atom_ok _ t); simpl; try done; lia|]. cbv beta.
  intros i u [-> (Hi & Hfree & Hfirst)]. simpl.
  assert (Hlow : ∀ b, MIN_STR_ATOM < b < i + MIN_STR_ATOM → names t b ≠ None).
  { intros b Hb. replace b with (b - MIN_STR_ATOM + MIN_STR_ATOM) by lia. rewrite <-names_none by done. apply Hfirst. lia. }
  destruct (Z.eqb_spec i MAX_ATOMS) as [->|Hi'].
  { wp_steps. simpl. unfold atom_error, free_entry. wp_steps. rewrite Z.add_comm in Hlow.
    assert (Hs : same_table t (set_at_heap (delete a) (set_at_error ATOM_NO_MEMORY
      (set_at_heap <[a:=AtomEntry None None 0 0 0 []]> (set_at_allocs l t))))).
    { split_and!; try done. simpl. by rewrite delete_insert_id. }
    split; [by apply (same_table_ok t)|]. left. split_and!; try done; [|by right]. intros b. by apply same_table_names. }
  wp_steps.
  assert (Hcount : ∀ (Q : unit → atom_table → Prop) u, at_count u = at_count t →
    Q tt (set_at_count (Z.max (at_count t) (i + 1)) u) →
    wp (if i =? at_count t then modify (set_at_count (at_count t + 1)) else ret tt) Q u).
  { intros Q u Hu HQ. destruct (Z.eqb_spec i (at_count t)); wp_steps.
    - by replace (at_count t + 1) with (Z.max (at_count t) (i + 1)) by lia.
    - replace (Z.max (at_count t) (i + 1)) with (at_count u) in HQ by lia. by destruct u. }
  apply Hcount; [done|]. wp_steps. pose proof (ao_atoms _ Ht). pose proof (ao_entries _ Ht).
  apply wp_put_atoms; [simpl; lia|]. wp_steps. eapply wp_get_entry; [apply lookup_insert_eq|].
  unfold put_entry. wp_steps. simpl.
  rewrite (proj2 (Z.eqb_neq (i + MIN_STR_ATOM) 0)) by (unfold MIN_STR_ATOM; lia). simpl.
  pose proof (hash_range str) as Hr. fold hash in Hr.
  destruct (ao_lists _ Ht hash Hr) as (next & l' & Hnext & Hl' & _ & _).
  unfold get_bucket. wp_steps. eapply wp_arr_get; [lia|exact Hnext|]. wp_steps.
  assert (Hlink : ∀ (Q : unit → atom_table → Prop) u,
    (∀ b, at_heap u !! b = if bool_decide (b = a) then at_heap u !! a else at_heap t !! b) →
    (∀ h', (∀ b, h' !! b = if bool_decide (b = a) then at_heap u !! a
       else if bool_decide (next = Some b) then set_prev (Some a) <$> at_heap t !! b else at_heap t !! b) →
       Q tt (set_at_heap (λ _, h') u)) →
    wp (match next with
        | Some b => f <- get_entry b; modify (set_at_heap (<[b:=set_prev (Some a) f]>))
        | None => ret tt end) Q u).
  { intros Q u Hu HQ. destruct next as [b|]; wp_steps.
    - destruct l' as [|c l']; [done|]. simpl in Hl'. destruct Hl' as ([= <-] & nx & Hb & _). unfold lnk in Hb.
      destruct (at_heap t !! b) as [f|] eqn:Hf; [|done]. assert (Hba : b ≠ a) by congruence.
      eapply (wp_get_entry _ b f); [by rewrite Hu, bool_decide_eq_false_2|]. wp_steps.
      apply (HQ (<[b:=set_prev (Some a) f]> (at_heap u))). intros c. destruct (decide (c = b)) as [->|Hcb].
      + rewrite lookup_insert_eq, bool_decide_eq_false_2, bool_decide_eq_true_2 by done. by rewrite Hf.
      + rewrite lookup_insert_ne, Hu by done. case_bool_decide; [done|].
        rewrite bool_decide_eq_false_2; [done|congruence].
    - specialize (HQ (at_heap u)). destruct u. apply HQ. intros c. rewrite Hu. done. }
  apply Hlink.
  { intros b. simpl. case_bool_decide; [by subst|]. by rewrite !lookup_insert_ne. }
  simpl. intros h' Hh'. wp_steps. apply wp_put_bucket; [simpl; lia|]. wp_steps.
  eapply wp_get_entry; [simpl; rewrite Hh', bool_decide_eq_true_2 by done; apply lookup_insert_eq|].
  wp_steps. simpl.
  match goal with |- atom_ok ?u ∧ _ =>
    assert (Hres : atom_ok u ∧ renamed t u (i + MIN_STR_ATOM) (Some (str, 1))) end.
  { apply (added_ok t _ a i str next); try done; try lia.
    intros b. simpl. case_bool_decide as Hba; [subst; by rewrite lookup_insert_eq|].
    rewrite lookup_insert_ne, Hh', bool_decide_eq_false_2 by done. done. }
  destruct Hres as [Hok Hren]. split; [exact Hok|]. right. split_and!; [lia|lia| |done|exact Hren|done].
  by apply names_none.
Qed.

(** The checks on the name, for a continuation that gets a name of legal length. *)
Lemma check_atom_name_ok str (k : bool → AT Z) Q t :
  (length str = 0%nat → wp (k false) Q (set_at_error ATOM_NAME_INVALID t)) →
  ((255 < length str)%nat → wp (k false) Q (set_at_error ATOM_INVALID_PARAMETER t)) →
  ((1 <= length str <= 255)%nat → wp (k true) Q t) →
  wp (st_bind (check_atom_name str) k) Q t.
Proof.
  intros H0 H255 Hok. apply wp_bind. unfold check_atom_name, atom_error, MAX_ATOM_LEN.
  destruct (Nat.eqb_spec (length str) 0); [wp_steps; auto|].
  destruct (Z.ltb_spec (255 * 2) (2 * Z.of_nat (length str))); wp_steps; [apply H255; lia|apply Hok; lia].
Qed.

Lemma add_atom_ok t str : atom_ok t →
  wp (add_atom to_lower str) (λ r t', atom_ok t' ∧ add_spec str t r t') t.
Proof.
  intros Ht. unfold add_atom, add_spec. apply check_atom_name_ok.
  - intros Hl. wp_steps. split; [by apply (same_table_ok t)|]. by rewrite Hl.
  - intros Hl. wp_steps. split; [by apply (same_table_ok t)|].
    destruct (Nat.eqb_spec (length str) 0); [lia|]. by rewrite (proj2 (Nat.ltb_lt _ _)) by lia.
  - intros Hl. simpl. destruct (Nat.eqb_spec (length str) 0); [lia|].
    rewrite (proj2 (Nat.ltb_ge 255 (length str))) by lia.
    destruct (Z.eqb_spec (get_int_atom_value str) 0) as [Hz|Hz]; simpl; [|by wp_steps].
    wp_steps. eapply wp_mono; [by apply find_atom_entry_ok|]. cbv beta. intros [a|] t' [-> Hf].
    + destruct Hf as (e & He & Hs). wp_steps. eapply wp_get_entry; [done|]. unfold put_entry. wp_steps.
      destruct (recount_ok t a e (int32 (ae_count e + 1)) Ht He) as [Hok Hren]; [apply int32_in_range|]. split; [done|].
      left. exists (ae_str e), (ae_count e). split; [by apply (entry_names t a)|]. done.
    + eapply wp_mono; [by apply insert_atom_ok|]. cbv beta. intros r t' [Hok Hres].
      split; [done|]. right. split; [by apply not_named|]. exact Hres.
Qed.

Lemma find_atom_ok t str : atom_ok t → string_name str →
  wp (find_atom to_lower str) (λ r t', 
    (∃ s n, names t r = Some (s, n) ∧ same_name s str) ∧ t' = t ∨
    (∀ b, ¬ named t str b) ∧ r = 0 ∧ t' = set_at_error ATOM_NAME_NOT_FOUND t) t.
Proof.
  intros Ht [Hl Hint]. unfold find_atom, atom_error. apply check_atom_name_ok; [lia|lia|]. intros _. simpl.
  rewrite Hint. simpl. wp_steps. eapply wp_mono; [by apply find_atom_entry_ok|]. cbv beta.
  intros [a|] t' [-> Hf]; wp_steps.
  - destruct Hf as (e & He & Hs). eapply wp_get_entry; [done|]. wp_steps. left. split; [|done].
    exists (ae_str e), (ae_count e). split; [by apply (entry_names t a)|done].
  - right. split; [by apply not_named|done].
Qed.

(** At most one atom has a given name. *)
Lemma named_unique t str b c : atom_ok t → named t str b → named t str c → b = c.
Proof.
  intros Ht (s & n & (a & e & Ha & He & -> & _)%names_entry & Hs) (s' & n' & (a' & e' & Ha' & He' & -> & _)%names_entry & Hs').
  assert (a = a') as -> by (eapply (ao_unique _ Ht); [done|done|]; unfold same_name in *; congruence).
  pose proof (entry_at_inj t _ _ _ Ht Ha Ha'). lia.
Qed.

(** The two pointer updates that take [a] out of its list. *)
Section unlink.
Context (t : atom_table) (a : addr) (e : atom_entry).
Context (Ht : atom_ok t) (He : at_heap t !! a = Some e).

Lemma neighbour_facts :
  (∀ b, ae_next e = Some b → b ≠ a ∧ is_Some (at_heap t !! b) ∧ ae_prev e ≠ Some b) ∧
  (∀ b, ae_prev e = Some b → b ≠ a ∧ is_Some (at_heap t !! b)).
Proof.
  destruct (neighbours t a e Ht He) as (p & l1 & l2 & Hp & Hl1 & Hl2 & Hprev & Hnd & Hin).
  apply NoDup_app in Hnd as (_ & Hdisj & [Hna2 _]%NoDup_cons).
  assert (Hnext_in : ∀ b, ae_next e = Some b → b ∈ l2) by (intros b Hb; by eapply dseg_head).
  assert (Hprev_in : ∀ b, ae_prev e = Some b → b ∈ l1).
  { intros b Hb. rewrite Hprev in Hb. by destruct (last_of_elem _ _ _ Hb). }
  split; intros b Hb.
  - specialize (Hnext_in b Hb). split_and!; [congruence|by eapply (dll_in_heap _ _ _ _ _ Hl2)|].
    intros Hb'%Hprev_in. apply (Hdisj b Hb'). by right.
  - specialize (Hprev_in b Hb). split; [|by eapply (dll_in_heap _ _ _ _ _ Hl1)]. intros ->. apply (Hdisj a Hprev_in). by left.
Qed.

Lemma unlink_next_ok n (Q : unit → atom_table → Prop) u :
  at_heap u = <[a:=set_count n e]> (at_heap t) →
  (∀ h', (∀ b, b ≠ a → h' !! b = (if bool_decide (ae_next e = Some b) then set_prev (ae_prev e) <$> at_heap t !! b
     else at_heap t !! b)) → Q tt (set_at_heap (λ _, h') u)) →
  wp (match ae_next e with
      | Some b => f <- get_entry b; modify (set_at_heap (<[b:=set_prev (ae_prev e) f]>))
      | None => ret tt end) Q u.
Proof.
  intros Hu HQ. destruct neighbour_facts as [Hnext _]. destruct (ae_next e) as [b|] eqn:Hb; wp_steps.
  - destruct (Hnext b) as (Hba & [f Hf] & _); [done|].
    eapply (wp_get_entry _ b f); [rewrite Hu, lookup_insert_ne; congruence|]. wp_steps.
    apply (HQ (<[b:=set_prev (ae_prev e) f]> (at_heap u))). intros c Hc. rewrite Hu.
    destruct (decide (c = b)) as [->|Hcb].
    + rewrite lookup_insert_eq, bool_decide_eq_true_2 by done. by rewrite Hf.
    + rewrite !lookup_insert_ne by done. rewrite bool_decide_eq_false_2; [done|congruence].
  - specialize (HQ (at_heap u)). destruct u. apply HQ. intros c Hc. simpl in *. rewrite Hu.
    by rewrite lookup_insert_ne.
Qed.

Lemma unlink_prev_ok h1 (Q : unit → atom_table → Prop) u :
  (∀ b, b ≠ a → h1 !! b = (if bool_decide (ae_next e = Some b) then set_prev (ae_prev e) <$> at_heap t !! b
     else at_heap t !! b)) →
  at_heap u = h1 → at_entries u = at_entries t →
  (∀ h' es, (∀ b, b ≠ a → h' !! b = unlinked e b <$> at_heap t !! b) →
     es = (if ae_prev e then at_entries t else <[Z.to_nat (ae_hash e):=ae_next e]> (at_entries t)) →
     Q tt (set_at_entries es (set_at_heap (λ _, h') u))) →
  wp (match ae_prev e with
      | Some b => f <- get_entry b; modify (set_at_heap (<[b:=set_next (ae_next e) f]>))
      | None => put_bucket (ae_hash e) (ae_next e) end) Q u.
Proof.
  intros Hh1 Hu Hue HQ. destruct neighbour_facts as [Hnext Hprev].
  assert (0 <= ae_hash e < HASH_SIZE) by (rewrite (eo_hash _ _ _ (ao_entry _ Ht a e He)); apply hash_range).
  pose proof (ao_entries _ Ht). destruct (ae_prev e) as [b|] eqn:Hb; wp_steps.
  - destruct (Hprev b) as (Hba & [f Hf]); [done|].
    assert (Hnb : ae_next e ≠ Some b) by (intros Hn; destruct (Hnext b Hn) as (_ & _ & Hx); by apply Hx).
    assert (Hf1 : h1 !! b = Some f) by (by rewrite Hh1, bool_decide_eq_false_2).
    eapply (wp_get_entry _ b f); [by rewrite Hu|]. wp_steps.
    specialize (HQ (<[b:=set_next (ae_next e) f]> (at_heap u)) (at_entries u)).
    destruct u as [u1 u2 u3 u4 u5 u6]; simpl in *. apply HQ; [|done]. intros c Hc. unfold unlinked. rewrite Hb, Hu.
    destruct (decide (c = b)) as [->|Hcb].
    + rewrite lookup_insert_eq, Hf. simpl. rewrite (bool_decide_eq_true_2 (Some b = Some b)) by done.
      by rewrite bool_decide_eq_false_2.
    + rewrite lookup_insert_ne, Hh1 by done. rewrite (bool_decide_eq_false_2 (Some b = Some c)) by congruence.
      case_bool_decide; by destruct (at_heap t !! c).
  - apply wp_put_bucket; [rewrite Hue; lia|].
    specialize (HQ h1 (<[Z.to_nat (ae_hash e):=ae_next e]> (at_entries u))). destruct u as [u1 u2 u3 u4 u5 u6]; simpl in *. subst.
    apply HQ; [|done]. intros c Hc. unfold unlinked. rewrite Hb, Hh1 by done. simpl.
    case_bool_decide; by destruct (at_heap t !! c).
Qed.
End unlink.

Lemma delete_atom_ok t atom : atom_ok t →
  wp (delete_atom atom) (λ _ t', atom_ok t' ∧
    match names t atom with
    | None => t' = set_at_error ATOM_INVALID_HANDLE t
    | Some (s, n) => renamed t t' atom (if n =? 1 then None else Some (s, int32 (n - 1))) ∧ at_error t' = at_error t
    end) t.
Proof.
  intros Ht. unfold delete_atom. wp_steps. eapply wp_mono; [by apply get_atom_entry_ok|]. cbv beta.
  intros r t' [-> ->]. unfold names. destruct (entry_at t (atom - MIN_STR_ATOM)) as [a|] eqn:Ha; wp_steps.
  2: { simpl. split; [by apply (same_table_ok t)|done]. }
  destruct (ao_used _ Ht _ _ Ha) as (Hr & e & He & Hea). simpl. rewrite He. simpl.
  assert (atom = ae_atom e) as -> by lia. pose proof (ao_entry _ Ht a e He) as [Hatom Harr Hhash Hcnt _].
  eapply wp_get_entry; [done|]. unfold put_entry. wp_steps.
  destruct (Z.eqb_spec (ae_count e) 1) as [H1|H1].
  2: { rewrite (proj2 (Z.eqb_neq _ 0)) by (by rewrite int32_zero). wp_steps.
       destruct (recount_ok t a e (int32 (ae_count e - 1)) Ht He) as [Hok Hren]; [apply int32_in_range|]. done. }
  rewrite (proj2 (Z.eqb_eq _ 0)) by (by rewrite int32_zero). clear Hea.
  wp_steps. apply (unlink_next_ok t a e Ht He (int32 (ae_count e - 1))); [done|]. intros h1 Hh1. wp_steps.
  apply (unlink_prev_ok t a e Ht He h1); [done|done|done|]. intros h2 es Hh2 ->. wp_steps.
  pose proof (ao_atoms _ Ht). pose proof (ao_count _ Ht).
  apply wp_put_atoms; [simpl; lia|]. unfold free_entry. wp_steps.
  match goal with |- atom_ok ?u ∧ _ => destruct (removed_ok t u a e Ht He) as [Hok Hren]; simpl; try done end.
  intros b. case_bool_decide as Hba; [subst; by rewrite lookup_delete_eq|].
  rewrite lookup_delete_ne by done. by apply Hh2.
Qed.
End spec.

(** ** Properties *)

(** A new table is well formed and has no atom. *)
Lemma create_atom_table_ok to_lower allocs :
  atom_ok to_lower (create_atom_table allocs) ∧ ∀ b, names (create_atom_table allocs) b = None.
Proof.
  assert (Hat : ∀ i, entry_at (create_atom_table allocs) i = None).
  { intros i. unfold entry_at. destruct (0 <=? i); [|done]. cbn [at_atoms create_atom_table].
    destruct (replicate (Z.to_nat MAX_ATOMS) (None : option addr) !! Z.to_nat i) as [p|] eqn:E; [|done].
    apply lookup_replicate in E as [-> _]. done. }
  split; [|intros b; unfold names; by rewrite Hat].
  split; cbn [at_atoms at_entries at_count at_heap create_atom_table].
  - done.
  - rewrite length_replicate. unfold MAX_ATOMS. lia.
  - rewrite length_replicate. unfold HASH_SIZE. lia.
  - intros i a. by rewrite Hat.
  - done.
  - intros h Hh. exists None, []. cbn [at_entries at_heap create_atom_table]. split_and!; [| done | constructor |].
    + by apply lookup_replicate_2; unfold HASH_SIZE in *; lia.
    + intros a. split; [by intros ?%not_elem_of_nil|]. by intros (e & ? & _).
  - done.
Qed.

(** C37: [add_atom] refines the abstract map from names to atoms: bad names are
    refused with the right status, [#nnn] names give the integer atom, a name
    already present up to case has its count incremented, as an [int] that wraps at
    its width, and keeps its atom, and a new name gets the lowest free atom with count 1; it fails only without memory
    or with a full table, and then changes nothing.  The pointer structure stays
    well formed and the walk of the hash list terminates. *)
Theorem add_atom_refines to_lower t str :
  atom_ok to_lower t → wp (add_atom to_lower str) (λ r t', atom_ok to_lower t' ∧ add_spec to_lower str t r t') t.
Proof. apply add_atom_ok. Qed.

(** [delete_atom] drops one reference, takes the atom out of the array and of
    its doubly linked list when it was the last, leaves every other atom alone,
    and reports an invalid handle for an atom that does not exist. *)
Theorem delete_atom_refines to_lower t atom :
  atom_ok to_lower t →
  wp (delete_atom atom) (λ _ t', atom_ok to_lower t' ∧
    match names t atom with
    | None => t' = set_at_error ATOM_INVALID_HANDLE t
    | Some (s, n) => renamed t t' atom (if n =? 1 then None else Some (s, int32 (n - 1))) ∧ at_error t' = at_error t
    end) t.
Proof. apply delete_atom_ok. Qed.

(** what [add_atom] returned, [find_atom] finds, under any spelling of the
    name, until the reference is dropped: [delete_atom] then restores the meaning
    the table had before, if no count had wrapped. *)
Theorem atom_add_find_delete to_lower t str str' :
  atom_ok to_lower t → (∀ b s n, names t b = Some (s, n) → 0 < n) →
  string_name str → string_name str' → same_name to_lower str str' →
  wp (a <- add_atom to_lower str;
      if a =? 0 then ret (0, 0) else b <- find_atom to_lower str'; delete_atom a ;; ret (a, b))
    (λ r t', atom_ok to_lower t' ∧ fst r = snd r ∧ ∀ b, names t' b = names t b) t.
Proof.
  intros Ht Hpos Hs Hs' Hsame. wp_steps. eapply wp_mono; [by apply add_atom_ok|]. cbv beta. intros r t1 [Ht1 Hadd].
  assert (Hcase : (∃ s n, names t1 r = Some (s, n) ∧ same_name to_lower s str ∧ r ≠ 0 ∧
      renamed t t1 r (Some (s, n)) ∧ names t r = (if n =? 1 then None else Some (s, int32 (n - 1)))) ∨
    r = 0 ∧ ∀ b, names t1 b = names t b).
  { destruct Hs as [Hl Hint]. unfold add_spec in Hadd. destruct (Nat.eqb_spec (length str) 0) as [|_]; [lia|].
    rewrite (proj2 (Nat.ltb_ge 255 _)) in Hadd by lia. rewrite Hint in Hadd. simpl in Hadd.
    destruct Hadd as [(s & n & Hn & Hsn & Hren & _)|(_ & [(-> & _ & Hsm & _)|(Hr & Hnone & _ & Hren & _)])].
    - left. exists s, (int32 (n + 1)). pose proof Hren as [-> _]. apply names_entry in Hn as Hn'.
      destruct Hn' as (a & e & Ha & He & -> & ->). pose proof (eo_count _ _ _ _ (ao_entry _ _ Ht a e He)) as Hc.
      pose proof (Hpos _ _ _ Hn) as Hp. pose proof (int32_round (ae_count e) Hc Hp) as [Hr1 Hr2].
      destruct (ao_used _ _ Ht _ _ Ha) as [Hr _]. split_and!; try done; [unfold MIN_STR_ATOM in *; lia|].
      rewrite (proj2 (Z.eqb_neq _ 1)) by done. by rewrite Hr2.
    - by right.
    - left. exists str, 1. pose proof Hren as [Hrt _]. split_and!; try done. unfold MIN_STR_ATOM in *; lia. }
  destruct Hcase as [(s & n & Hn & Hsn & Hr0 & Hren & Hold)|[-> Hsm]]; [|by wp_steps].
  rewrite (proj2 (Z.eqb_neq r 0)) by done. wp_steps.
  eapply wp_mono; [by apply find_atom_ok|]. cbv beta. intros b t2 Hf.
  assert (Hnamed : named to_lower t1 str' r) by (exists s, n; split; [done|]; unfold same_name in *; congruence).
  destruct Hf as [[Hb ->]|[Hno _]]; [|by apply Hno in Hnamed].
  assert (b = r) as -> by (by eapply named_unique).
  wp_steps. eapply wp_mono; [by apply delete_atom_ok|]. cbv beta. intros _ t3 [Ht3 Hdel]. wp_steps.
  split_and!; [done|done|]. rewrite Hn in Hdel. destruct Hdel as [[Hd1 Hd2] _]. intros c.
  destruct (Z.eq_dec c r) as [->|Hc]; [by rewrite Hd1, Hold|]. rewrite Hd2 by done. by apply Hren.
Qed.

(** ** Instances *)

Definition ascii_lower (c : Z) : Z := if (65 <=? c) && (c <=? 90) then c + 32 else c.

Lemma add_atom_witness :
  wp (add_atom ascii_lower [83; 121; 115]) (λ r t', atom_ok ascii_lower t' ∧
    add_spec ascii_lower [83; 121; 115] (create_atom_table []) r t') (create_atom_table []).
Proof. exact (add_atom_refines ascii_lower (create_atom_table []) [83; 121; 115] (proj1 (create_atom_table_ok _ _))). Defined.

Lemma delete_atom_witness :
  wp (delete_atom 0xc001) (λ _ t', atom_ok ascii_lower t' ∧
    match names (create_atom_table []) 0xc001 with
    | None => t' = set_at_error ATOM_INVALID_HANDLE (create_atom_table [])
    | Some (s, n) => renamed (create_atom_table []) t' 0xc001 (if n =? 1 then None else Some (s, int32 (n - 1))) ∧
                     at_error t' = at_error (create_atom_table [])
    end) (create_atom_table []).
Proof. exact (delete_atom_refines ascii_lower (create_atom_table []) 0xc001 (proj1 (create_atom_table_ok _ _))). Defined.

Lemma atom_add_find_delete_witness :
  wp (a <- add_atom ascii_lower [83; 121; 115];
      if a =? 0 then ret (0, 0) else b <- find_atom ascii_lower [115; 89; 83]; delete_atom a ;; ret (a, b))
    (λ r t', atom_ok ascii_lower t' ∧ fst r = snd r ∧
       ∀ b, names t' b = names (create_atom_table []) b) (create_atom_table []).
Proof.
  exact (atom_add_find_delete ascii_lower (create_atom_table []) [83; 121; 115] [115; 89; 83]
    (proj1 (create_atom_table_ok _ _)) ltac:(intros b s n; rewrite (proj2 (create_atom_table_ok ascii_lower [])); done)
    ltac:(split; [simpl; lia|reflexivity])
    ltac:(split; [simpl; lia|reflexivity]) ltac:(reflexivity)).
Defined.

(** A table whose only atom, [T], has been added or grabbed [n] times. *)
Definition one_atom_table (n : Z) : atom_table :=
  AtomTable 2 (<[1%nat:=Some 1%positive]> (at_atoms (create_atom_table [])))
    (<[Z.to_nat (hash_strW ascii_lower [84] HASH_SIZE):=Some 1%positive]> (at_entries (create_atom_table [])))
    {[1%positive := AtomEntry None None n 0xc001 (hash_strW ascii_lower [84] HASH_SIZE) [84]]} 0 [].

(** The count is not checked: one more addition of an atom that has 2147483647
    references gives it a negative count, and an atom whose count has come round to
    one is freed with its next deletion, whoever still uses it. *)
Theorem atom_count_wraps :
  (a <- add_atom ascii_lower [84]; d <- get_atom_information a 100; ret (a, d)) (one_atom_table 2147483647) =
    Done (0xc001, ([84], -2147483648, 2)) (one_atom_table (-2147483648)) ∧
  (a <- add_atom ascii_lower [84]; delete_atom a ;; b <- find_atom ascii_lower [84]; ret (a, b)) (one_atom_table 0) =
    Done (0xc001, 0) (set_at_error ATOM_NAME_NOT_FOUND (set_at_count 2 (create_atom_table []))).
Proof. split; vm_compute; reflexivity. Qed.

(** The second string is a new atom, and the first spelled differently is not. *)
Example atom_run :
  match (a <- add_atom ascii_lower [83; 121; 115]; b <- add_atom ascii_lower [84];
         c <- add_atom ascii_lower [115; 89; 83]; delete_atom a ;; d <- get_atom_information a 100; ret (a, b, c, d))
        (create_atom_table []) with
  | Done r _ => r = (0xc001, 0xc002, 0xc001, ([83; 121; 115], 1, 6))
  | Fault _ => False
  end.
Proof. vm_compute. reflexivity. Qed.
