(* ===== verification/UserHandle.v ===== *)
(** * User handles (server/user.c)

    The table of window-manager objects shared with the clients.  A handle is an
    index and a 16-bit generation; a free entry has type 0 and is linked in a free
    list through its [offset] field.  Pointers to server objects are numbers, 0
    being [NULL]. *)

From stdpp Require Import base list.
From S2P Require Import Prelude.

Open Scope Z_scope.
Open Scope server_scope.

Definition FIRST_USER_HANDLE : Z := 0x0020.
Definition LAST_USER_HANDLE : Z := 0xffef.
Definition MAX_USER_HANDLES : Z := Z.shiftr (LAST_USER_HANDLE - FIRST_USER_HANDLE + 1) 1.
(** [(mem_size_t)-1]. *)
Definition NO_FREE : Z := 0xffffffffffffffff.
Definition USER_INVALID_HANDLE : Z := 0xC0000008.

Definition NTUSER_OBJ_WINDOW : Z := 0x01.
Definition NTUSER_OBJ_MENU : Z := 0x02.
Definition NTUSER_OBJ_ICON : Z := 0x03.
Definition NTUSER_OBJ_WINPOS : Z := 0x04.
Definition NTUSER_OBJ_ACCEL : Z := 0x08.
Definition NTUSER_OBJ_HOOK : Z := 0x0f.
Definition NTUSER_OBJ_IMC : Z := 0x11.

Definition w16 (x : Z) : Z := x mod 65536.

Record user_entry := UserEntry {
  ue_offset : Z;
  ue_tid : Z;
  ue_pid : Z;
  ue_id : Z;
  ue_type : Z;
  ue_generation : Z;
}.

Record user_state := UserState {
  user_entries : list user_entry;
  server_objects : list Z;
  freelist : Z;
  nb_handles : Z;
  user_error : Z;
}.

Notation UH := (ST user_state).

Definition get_user_entry (i : Z) : UH user_entry := s <- get; arr_get (user_entries s) i.
Definition put_user_entry (i : Z) (e : user_entry) : UH unit :=
  s <- get;
  l <- arr_set (user_entries s) i e;
  modify (λ s, UserState l (server_objects s) (freelist s) (nb_handles s) (user_error s)).
Definition set_freelist (p : Z) : UH unit :=
  modify (λ s, UserState (user_entries s) (server_objects s) p (nb_handles s) (user_error s)).
Definition set_nb_handles (n : Z) : UH unit :=
  modify (λ s, UserState (user_entries s) (server_objects s) (freelist s) n (user_error s)).
Definition set_user_error (e : Z) : UH unit :=
  modify (λ s, UserState (user_entries s) (server_objects s) (freelist s) (nb_handles s) e).

Definition get_server_object (i : Z) : UH Z := s <- get; arr_get (server_objects s) i.
(** The previous pointer is returned. *)
Definition set_server_object (i ptr : Z) : UH Z :=
  s <- get;
  prev <- arr_get (server_objects s) i;
  l <- arr_set (server_objects s) i ptr;
  modify (λ s, UserState (user_entries s) l (freelist s) (nb_handles s) (user_error s)) ;;
  ret prev.

(** The index part of a handle: an unsigned subtraction and a shift. *)
Definition handle_index (handle : Z) : Z :=
  Z.shiftr (w32 (Z.land handle 0xffff - FIRST_USER_HANDLE)) 1.

Definition handle_to_entry (handle : Z) : UH (option Z) :=
  s <- get;
  let generation := w16 (Z.shiftr handle 16) in
  let index := handle_index handle in
  if (index <? 0) || (nb_handles s <=? index) then ret None
  else
    e <- get_user_entry index;
    if ue_type e =? 0 then ret None
    else if (generation =? 0) || (generation =? 0xffff) then ret (Some index)
    else if generation =? ue_generation e then ret (Some index)
    else ret None.

Definition entry_handle (index generation : Z) : Z :=
  w32 (Z.shiftl index 1 + FIRST_USER_HANDLE + Z.shiftl generation 16).
Definition entry_to_handle (index : Z) : UH Z :=
  e <- get_user_entry index; ret (entry_handle index (ue_generation e)).

(** [offset] and [id] are the locator of the shared memory of the object, [tid]
    and [pid] those of the current thread. *)
Definition alloc_user_entry (offset id tid pid type : Z) : UH Z :=
  s <- get;
  r <- (if negb (freelist s =? NO_FREE) then
          e <- get_user_entry (freelist s);
          set_freelist (ue_offset e) ;;
          ret (freelist s, w16 (ue_generation e + 1))
        else
          set_nb_handles (nb_handles s + 1) ;;
          ret (nb_handles s, 1));
  let generation := if (snd r =? 0) || (snd r =? 0xffff) then 1 else snd r in
  put_user_entry (fst r) (UserEntry offset tid pid id (w16 type) generation) ;;
  ret (fst r).

Definition free_user_entry (index : Z) : UH unit :=
  e <- get_user_entry index;
  s <- get;
  put_user_entry index (UserEntry (freelist s) (ue_tid e) (ue_pid e) (ue_id e) 0 (ue_generation e)) ;;
  set_freelist index.

Definition alloc_user_handle (ptr offset id tid pid type : Z) : UH Z :=
  i <- alloc_user_entry offset id tid pid type;
  set_server_object i ptr ;;
  entry_to_handle i.

Definition get_user_object (handle type : Z) : UH Z :=
  i <- handle_to_entry handle;
  match i with
  | None => ret 0
  | Some i => e <- get_user_entry i; if negb (ue_type e =? type) then ret 0 else get_server_object i
  end.

Definition get_user_full_handle (handle : Z) : UH Z :=
  if negb (Z.shiftr handle 16 =? 0) then ret handle
  else
    i <- handle_to_entry handle;
    match i with None => ret handle | Some i => entry_to_handle i end.

(** The object and the full handle, which is unchanged on failure. *)
Definition get_user_object_handle (handle type : Z) : UH (Z * Z) :=
  i <- handle_to_entry handle;
  match i with
  | None => ret (0, handle)
  | Some i =>
      e <- get_user_entry i;
      if negb (ue_type e =? type) then ret (0, handle)
      else h <- entry_to_handle i; p <- get_server_object i; ret (p, h)
  end.

Definition free_user_handle (handle : Z) : UH Z :=
  i <- handle_to_entry handle;
  match i with
  | None => set_user_error USER_INVALID_HANDLE ;; ret 0
  | Some i => p <- set_server_object i 0; free_user_entry i ;; ret p
  end.

(** The loop of [next_user_handle] from entry [i] on. *)
Fixpoint next_entry (n : nat) (i type : Z) : UH (option Z) :=
  s <- get;
  if nb_handles s <=? i then ret None
  else match n with
  | O => fail OutOfFuel
  | S n =>
      e <- get_user_entry i;
      if (type =? 0) || (ue_type e =? type) then ret (Some i) else next_entry n (i + 1) type
  end.

(** The object and the new handle, or [NULL] with the handle unchanged. *)
Definition next_user_handle (handle type : Z) : UH (Z * Z) :=
  s <- get;
  r <- (if handle =? 0 then next_entry (Z.to_nat (nb_handles s)) 0 type
        else
          let index := handle_index handle in
          if (index <? 0) || (nb_handles s <=? index) then ret None
          else next_entry (Z.to_nat (nb_handles s)) (index + 1) type);
  match r with
  | None => ret (0, handle)
  | Some i => h <- entry_to_handle i; p <- get_server_object i; ret (p, h)
  end.

(** The types whose handles belong to the client. *)
Definition client_type (type : Z) : bool :=
  (type =? NTUSER_OBJ_MENU) || (type =? NTUSER_OBJ_ICON) || (type =? NTUSER_OBJ_WINPOS) ||
  (type =? NTUSER_OBJ_ACCEL) || (type =? NTUSER_OBJ_IMC).

Fixpoint free_process_loop (n : nat) (i pid : Z) : UH unit :=
  s <- get;
  if nb_handles s <=? i then ret tt
  else match n with
  | O => fail OutOfFuel
  | S n =>
      e <- get_user_entry i;
      (if client_type (ue_type e) && (ue_pid e =? pid) then free_user_entry i else ret tt) ;;
      free_process_loop n (i + 1) pid
  end.

Definition free_process_user_handles (pid : Z) : UH unit :=
  s <- get; free_process_loop (Z.to_nat (nb_handles s)) 0 pid.

(** The requests. *)
Definition req_alloc_user_handle (tid pid type : Z) : UH Z :=
  alloc_user_handle 0xffffffffffffffff 0 0 tid pid type.

Definition req_free_user_handle (handle type : Z) : UH unit :=
  i <- handle_to_entry handle;
  match i with
  | Some i =>
      e <- get_user_entry i;
      if ue_type e =? type then free_user_entry i else set_user_error USER_INVALID_HANDLE
  | None => set_user_error USER_INVALID_HANDLE
  end.
