(* ===== verification/UserHandleThms.v ===== *)
(** * Correctness of the user handle table

    [target s h] is the entry a handle designates.  Allocation and release keep
    the free list well formed and change only what concerns their entry; a
    released handle stays invalid when its entry is used again. *)

From stdpp Require Import base list.
From S2P Require Import Prelude UserHandle.

Open Scope Z_scope.
Open Scope server_scope.

Definition entry_of (s : user_state) (i : Z) : option user_entry :=
  if 0 <=? i then user_entries s !! Z.to_nat i else None.
Definition object_of (s : user_state) (i : Z) : option Z :=
  if 0 <=? i then server_objects s !! Z.to_nat i else None.

(** The generation a handle asks for; 0 and [0xffff] accept any. *)
Definition handle_generation (h : Z) : Z := w16 (Z.shiftr h 16).
Definition accepts (h g : Z) : bool :=
  (handle_generation h =? 0) || (handle_generation h =? 0xffff) || (handle_generation h =? g).

Definition target (s : user_state) (h : Z) : option Z :=
  let i := handle_index h in
  if nb_handles s <=? i then None
  else match entry_of s i with
  | None => None
  | Some e => if (ue_type e =? 0) || negb (accepts h (ue_generation e)) then None else Some i
  end.

(** The free entries, from [p]. *)
Fixpoint free_chain (s : user_state) (p : Z) (l : list Z) : Prop :=
  match l with
  | [] => p = NO_FREE
  | i :: l => p = i ∧ 0 <= i < nb_handles s ∧
      ∃ e, entry_of s i = Some e ∧ ue_type e = 0 ∧ free_chain s (ue_offset e) l
  end.

Record uh_ok (s : user_state) : Prop := {
  uo_entries : Z.of_nat (length (user_entries s)) = MAX_USER_HANDLES;
  uo_objects : Z.of_nat (length (server_objects s)) = MAX_USER_HANDLES;
  uo_nb : 0 <= nb_handles s <= MAX_USER_HANDLES;
  uo_gen : ∀ i e, 0 <= i < nb_handles s → entry_of s i = Some e → 1 <= ue_generation e < 0xffff;
  uo_free : ∃ l, free_chain s (freelist s) l ∧ NoDup l;
}.

(** ** Handles *)

Lemma land_ffff h : 0 <= h → Z.land h 0xffff = h mod 65536.
Proof. intros. change 0xffff with (Z.ones 16). by rewrite Z.land_ones. Qed.

Lemma max_user_handles : MAX_USER_HANDLES = 0x7fe8.
Proof. done. Qed.

Lemma handle_index_nonneg h : 0 <= handle_index h.
Proof. unfold handle_index. apply Z.shiftr_nonneg. apply w32_range. Qed.

Lemma entry_handle_eq i g : 0 <= i < MAX_USER_HANDLES → 0 <= g < 65536 →
  entry_handle i g = 2 * i + FIRST_USER_HANDLE + g * 65536.
Proof.
  rewrite max_user_handles. unfold entry_handle, FIRST_USER_HANDLE. intros Hi Hg.
  rewrite !Z.shiftl_mul_pow2 by lia. rewrite w32_small by (unfold u32; lia). lia.
Qed.

Lemma entry_handle_parts i g : 0 <= i < MAX_USER_HANDLES → 0 <= g < 65536 →
  handle_index (entry_handle i g) = i ∧ handle_generation (entry_handle i g) = g.
Proof.
  intros Hi Hg. rewrite entry_handle_eq by done. rewrite max_user_handles in Hi.
  unfold handle_index, handle_generation, w16, FIRST_USER_HANDLE.
  rewrite land_ffff, !Z.shiftr_div_pow2 by lia. change (2 ^ 16) with 65536. change (2 ^ 1) with 2.
  rewrite (Z.mod_add (2 * i + 32) g 65536), (Z.mod_small (2 * i + 32)) by lia.
  rewrite Z.div_add, (Z.div_small (2 * i + 32)) by lia. split.
  - rewrite w32_small by (unfold u32; lia). rewrite <-(Z.div_mul i 2) at 2 by lia. f_equal. lia.
  - apply Z.mod_small. lia.
Qed.

(** ** Accesses *)

Lemma entry_of_some s i : uh_ok s → 0 <= i < MAX_USER_HANDLES → ∃ e, entry_of s i = Some e.
Proof.
  intros Hs Hi. unfold entry_of. rewrite (proj2 (Z.leb_le 0 i)) by lia.
  apply lookup_lt_is_Some_2. pose proof (uo_entries _ Hs). lia.
Qed.

Lemma wp_get_user_entry s i e (Q : user_entry → user_state → Prop) :
  entry_of s i = Some e → Q e s → wp (get_user_entry i) Q s.
Proof.
  unfold entry_of. destruct (Z.leb_spec 0 i); [|done]. intros He HQ. unfold get_user_entry. wp_steps.
  by eapply wp_arr_get.
Qed.

Lemma wp_put_user_entry s i e (Q : unit → user_state → Prop) :
  0 <= i < Z.of_nat (length (user_entries s)) →
  Q tt (UserState (<[Z.to_nat i:=e]> (user_entries s)) (server_objects s) (freelist s) (nb_handles s) (user_error s)) →
  wp (put_user_entry i e) Q s.
Proof. intros Hi HQ. unfold put_user_entry. wp_steps. apply wp_arr_set; [done|]. by wp_steps. Qed.

Lemma wp_set_server_object s i p (Q : Z → user_state → Prop) :
  0 <= i < Z.of_nat (length (server_objects s)) →
  (∀ q, object_of s i = Some q →
    Q q (UserState (user_entries s) (<[Z.to_nat i:=p]> (server_objects s)) (freelist s) (nb_handles s) (user_error s))) →
  wp (set_server_object i p) Q s.
Proof.
  intros Hi HQ. unfold set_server_object. wp_steps.
  destruct (lookup_lt_is_Some_2 (server_objects s) (Z.to_nat i)) as [q Hq]; [lia|].
  eapply wp_arr_get; [lia|done|]. wp_steps. apply wp_arr_set; [done|]. wp_steps. apply HQ.
  unfold object_of. by rewrite (proj2 (Z.leb_le 0 i)) by lia.
Qed.

Lemma handle_to_entry_ok s h : uh_ok s →
  wp (handle_to_entry h) (λ r s', r = target s h ∧ s' = s) s.
Proof.
  intros Hs. unfold handle_to_entry, target. wp_steps. cbv zeta. pose proof (handle_index_nonneg h).
  rewrite (proj2 (Z.ltb_ge (handle_index h) 0)) by lia. cbn [orb].
  destruct (Z.leb_spec (nb_handles s) (handle_index h)); [by wp_steps|]. wp_steps.
  pose proof (uo_nb _ Hs). destruct (entry_of_some s (handle_index h) Hs) as [e He]; [lia|].
  eapply wp_get_user_entry; [done|]. rewrite He. unfold accepts. fold (handle_generation h).
  destruct (ue_type e =? 0); cbn [orb negb]; [by wp_steps|].
  destruct ((handle_generation h =? 0) || (handle_generation h =? 0xffff)) eqn:E; cbn [orb negb]; [by wp_steps|].
  by destruct (handle_generation h =? ue_generation e); wp_steps.
Qed.

Lemma target_some s h i : uh_ok s → target s h = Some i → i = handle_index h ∧ 0 <= i < nb_handles s ∧
  ∃ e, entry_of s i = Some e ∧ ue_type e ≠ 0 ∧ accepts h (ue_generation e) = true.
Proof.
  intros Hs. unfold target. pose proof (handle_index_nonneg h).
  destruct (Z.leb_spec (nb_handles s) (handle_index h)); [done|].
  destruct (entry_of s (handle_index h)) as [e|] eqn:He; [|done].
  destruct (Z.eqb_spec (ue_type e) 0); [done|]. destruct (accepts h (ue_generation e)) eqn:Ha; [|done].
  cbn [orb negb]. intros [= <-]. split; [done|]. split; [lia|]. eauto.
Qed.

(** ** Changing one entry *)

(** [s'] is [s] with entry [i] set to [e]; the rest of the table, up to the free
    list and the count, is the same. *)
Record put_user (s s' : user_state) (i : Z) (e : user_entry) : Prop := {
  pe_new : entry_of s' i = Some e;
  pe_old : ∀ j, j ≠ i → entry_of s' j = entry_of s j;
  pe_len : length (user_entries s') = length (user_entries s);
}.

Lemma put_entry_insert s s' i e : 0 <= i < Z.of_nat (length (user_entries s)) →
  user_entries s' = <[Z.to_nat i:=e]> (user_entries s) → put_user s s' i e.
Proof.
  intros Hi Hs'. split.
  - unfold entry_of. rewrite Hs', (proj2 (Z.leb_le 0 i)), list_lookup_insert_eq by lia. done.
  - intros j Hj. unfold entry_of. destruct (Z.leb_spec 0 j); [|done].
    rewrite Hs', list_lookup_insert_ne by lia. done.
  - by rewrite Hs', length_insert.
Qed.

(** A list of free entries without [i] is still one, when the count does not shrink. *)
Lemma free_chain_put s s' i e p l : put_user s s' i e → nb_handles s <= nb_handles s' → i ∉ l →
  free_chain s p l → free_chain s' p l.
Proof.
  intros Hp Hn. revert p. induction l as [|j l IH]; intros p Hi; simpl; [done|].
  intros (-> & Hj & f & Hf & Ht & Hl). apply not_elem_of_cons in Hi as [Hij Hi].
  split; [done|]. split; [lia|]. exists f. rewrite (pe_old _ _ _ _ Hp) by congruence. auto.
Qed.

(** The entries of the free list have type 0. *)
Lemma free_chain_type s p l i : free_chain s p l → i ∈ l → ∃ e, entry_of s i = Some e ∧ ue_type e = 0.
Proof.
  revert p. induction l as [|j l IH]; intros p; simpl; [by intros _ ?%not_elem_of_nil|].
  intros (-> & Hj & f & Hf & Ht & Hl) [->|Hi]%elem_of_cons; [eauto|by eapply IH].
Qed.

(** What the other handles designate does not change. *)
Lemma target_put s s' i e h : put_user s s' i e → handle_index h ≠ i →
  nb_handles s' = nb_handles s ∨ (i = nb_handles s ∧ nb_handles s' = nb_handles s + 1) →
  target s' h = target s h.
Proof.
  intros Hp Hi Hn. unfold target. rewrite (pe_old _ _ _ _ Hp) by done.
  destruct (Z.leb_spec (nb_handles s') (handle_index h)), (Z.leb_spec (nb_handles s) (handle_index h)); done || lia.
Qed.

Lemma target_new s' i e h : entry_of s' i = Some e → 0 <= i < nb_handles s' → handle_index h = i →
  target s' h = if (ue_type e =? 0) || negb (accepts h (ue_generation e)) then None else Some i.
Proof.
  intros He Hi <-. unfold target. rewrite (proj2 (Z.leb_gt _ _)) by lia. by rewrite He.
Qed.

(** ** Allocation *)

(** Generations go round from 1 to [0xfffe]. *)
Definition next_gen (g : Z) : Z := g mod 65534 + 1.

(** Entry [i] is not in use, and [g] is the generation it gets. *)
Definition vacant (s s' : user_state) (i g : Z) : Prop :=
  freelist s = NO_FREE ∧ i = nb_handles s ∧ nb_handles s' = nb_handles s + 1 ∨
  i = freelist s ∧ 0 <= i < nb_handles s ∧ nb_handles s' = nb_handles s ∧
    ∃ e, entry_of s i = Some e ∧ ue_type e = 0 ∧ g = next_gen (ue_generation e).

Lemma vacant_target s s' i g h : vacant s s' i g → handle_index h = i → target s h = None.
Proof.
  intros Hv Hi. unfold target. rewrite Hi. destruct Hv as [(_ & -> & _)|(_ & Hr & _ & e & He & Ht & _)].
  - by rewrite (proj2 (Z.leb_le _ _)) by lia.
  - rewrite He, Ht. by destruct (nb_handles s <=? i).
Qed.

Lemma target_vacant s s' i g e h : put_user s s' i e → vacant s s' i g → handle_index h ≠ i →
  target s' h = target s h.
Proof.
  intros Hp Hv Hi. eapply target_put; [done|done|]. destruct Hv as [(? & ? & ?)|(? & ? & ? & _)]; auto.
Qed.

Definition can_alloc (s : user_state) : Prop := freelist s ≠ NO_FREE ∨ nb_handles s < MAX_USER_HANDLES.

Lemma next_generation g : 1 <= g < 0xffff →
  let g' := w16 (g + 1) in
  let g'' := if (g' =? 0) || (g' =? 0xffff) then 1 else g' in 1 <= g'' < 0xffff ∧ g'' = next_gen g.
Proof.
  intros Hg g' g''. unfold g'', g', w16, next_gen. rewrite Z.mod_small by lia.
  destruct (Z.eqb_spec (g + 1) 0); [lia|]. destruct (Z.eqb_spec (g + 1) 0xffff); cbn [orb].
  - replace g with 65534 by lia. done.
  - rewrite Z.mod_small by lia. lia.
Qed.

Lemma alloc_user_entry_ok s offset id tid pid type : uh_ok s → 0 < type < 65536 → can_alloc s →
  wp (alloc_user_entry offset id tid pid type) (λ i s', uh_ok s' ∧ 0 <= i < nb_handles s' ∧
    server_objects s' = server_objects s ∧ ∃ g, 1 <= g < 0xffff ∧
      put_user s s' i (UserEntry offset tid pid id type g) ∧ vacant s s' i g) s.
Proof.
  intros Hs Hty Hcan. pose proof Hs as [Hle Hlo Hnb Hgen (l & Hl & Hnd)].
  unfold alloc_user_entry. wp_steps. unfold set_freelist, set_nb_handles.
  assert (Hw : w16 type = type) by (unfold w16; apply Z.mod_small; lia). rewrite Hw.
  destruct (Z.eqb_spec (freelist s) NO_FREE) as [Hfl|Hfl]; cbn [negb].
  - destruct Hcan as [|Hcan]; [done|]. wp_steps. apply wp_put_user_entry; [cbn; lia|]. wp_steps. cbn.
    destruct l as [|j l]; [|destruct Hl as (Heq & Hj & _); rewrite max_user_handles in *; unfold NO_FREE in *; lia].
    match goal with |- uh_ok ?u ∧ _ => assert (Hp : put_user s u (nb_handles s) (UserEntry offset tid pid id type 1))
      by (apply put_entry_insert; [lia|done]) end.
    split_and!; [|lia|lia|done|exists 1; split; [lia|]; split; [done|by left]].
    split; cbn; [by rewrite length_insert|done|lia| |exists []; done].
    intros i e Hi. destruct (Z.eq_dec i (nb_handles s)) as [->|Hne].
    + rewrite (pe_new _ _ _ _ Hp). intros [= <-]. cbn. lia.
    + rewrite (pe_old _ _ _ _ Hp) by done. apply Hgen. lia.
  - destruct l as [|j l]; [done|]. cbn in Hl. destruct Hl as (Hj & Hjr & e & He & Ht & Hl).
    rewrite Hj. wp_steps. eapply wp_get_user_entry; [done|]. wp_steps. cbn [fst snd].
    destruct (next_generation (ue_generation e)) as [Hg Hgne]; [by eapply Hgen|].
    set (g := if _ || _ then _ else _) in *.
    apply wp_put_user_entry; [cbn; lia|]. wp_steps. cbn.
    apply NoDup_cons in Hnd as [Hjl Hnd].
    match goal with |- uh_ok ?u ∧ _ => assert (Hp : put_user s u j (UserEntry offset tid pid id type g))
      by (apply put_entry_insert; [lia|done]) end.
    split_and!; [|lia|lia|done|exists g; split; [lia|]; split; [done|]; right; split; [done|]; split; [lia|]; split; [done|]; by exists e].
    split; cbn; [by rewrite length_insert|done|lia| |].
    + intros i f Hi. destruct (Z.eq_dec i j) as [->|Hne].
      * rewrite (pe_new _ _ _ _ Hp). intros [= <-]. done.
      * rewrite (pe_old _ _ _ _ Hp) by done. by apply Hgen.
    + exists l. split; [|done]. eapply free_chain_put; [exact Hp|cbn; lia|done|done].
Qed.

Lemma object_of_insert s s' i p j : server_objects s' = <[Z.to_nat i:=p]> (server_objects s) →
  0 <= i < Z.of_nat (length (server_objects s)) →
  object_of s' j = if j =? i then Some p else object_of s j.
Proof.
  intros Hs' Hi. unfold object_of. rewrite Hs'. destruct (Z.eqb_spec j i) as [->|Hne].
  - by rewrite (proj2 (Z.leb_le 0 i)), list_lookup_insert_eq by lia.
  - destruct (Z.leb_spec 0 j); [|done]. by rewrite list_lookup_insert_ne by lia.
Qed.

Lemma free_chain_same s s' p l : user_entries s' = user_entries s → nb_handles s' = nb_handles s →
  free_chain s p l → free_chain s' p l.
Proof.
  intros He Hn. revert p. induction l as [|j l IH]; intros p; cbn; [done|]. rewrite Hn.
  intros (-> & Hj & e & Hje & Ht & Hl). split_and!; [done|lia|lia|]. exists e.
  split; [|split; [done|by apply IH]]. unfold entry_of in *. by rewrite He.
Qed.

(** Only the error changes. *)
Lemma uh_ok_error s e : uh_ok s →
  uh_ok (UserState (user_entries s) (server_objects s) (freelist s) (nb_handles s) e).
Proof. intros [A B C D (k & E & F)]. split; cbn; try done. exists k. split; [by apply (free_chain_same s)|done]. Qed.

(** Only the server objects change. *)
Lemma uh_ok_objects s l : uh_ok s → length l = length (server_objects s) →
  uh_ok (UserState (user_entries s) l (freelist s) (nb_handles s) (user_error s)).
Proof.
  intros [A B C D (k & E & F)] Hl. split; cbn; try done; [by rewrite Hl|]. exists k.
  split; [by apply (free_chain_same s)|done].
Qed.

(** What an allocation gives: a handle that designated nothing before, designates
    the entry of [ptr] now, and the other handles as before. *)
Definition allocated (s : user_state) (ptr pid type h : Z) (s' : user_state) : Prop :=
  uh_ok s' ∧ target s h = None ∧
  ∃ i g, h = entry_handle i g ∧ 0 <= i < nb_handles s' ∧ 1 <= g < 0xffff ∧ vacant s s' i g ∧ target s' h = Some i ∧
    object_of s' i = Some ptr ∧
    (∃ e, put_user s s' i e ∧ ue_type e = type ∧ ue_pid e = pid ∧ ue_generation e = g) ∧
    (∀ h', handle_index h' ≠ i → target s' h' = target s h') ∧
    (∀ j, j ≠ i → object_of s' j = object_of s j).

Lemma alloc_user_handle_ok s ptr offset id tid pid type : uh_ok s → 0 < type < 65536 → can_alloc s →
  wp (alloc_user_handle ptr offset id tid pid type) (allocated s ptr pid type) s.
Proof.
  intros Hs Hty Hcan. unfold alloc_user_handle. wp_steps.
  eapply wp_mono; [by apply alloc_user_entry_ok|]. cbv beta. intros i s1 (Hs1 & Hi & Hob & g & Hg & Hp & Hv).
  wp_steps. pose proof (uo_nb _ Hs1). pose proof (uo_objects _ Hs1). apply wp_set_server_object; [lia|]. intros q _.
  unfold entry_to_handle. wp_steps. set (s2 := UserState _ _ _ _ _).
  assert (Hp2 : put_user s s2 i (UserEntry offset tid pid id type g)) by (destruct Hp; split; done).
  assert (Hv2 : vacant s s2 i g) by exact Hv.
  eapply wp_get_user_entry; [by apply (pe_new _ _ _ _ Hp2)|]. wp_steps. cbn [ue_generation].
  destruct (entry_handle_parts i g) as [Hidx Hgen]; [lia|lia|].
  assert (Hlen : 0 <= i < Z.of_nat (length (server_objects s))) by (rewrite <-Hob; lia).
  assert (Hobj : ∀ j, object_of s2 j = if j =? i then Some ptr else object_of s j).
  { intros j. apply object_of_insert; [|done]. cbn. by rewrite Hob. }
  split; [apply uh_ok_objects; [done|by rewrite length_insert]|]. split; [by eapply vacant_target|].
  exists i, g. split; [done|]. split; [done|]. split; [done|]. split; [done|]. split_and!.
  - rewrite (target_new s2 i _ _ (pe_new _ _ _ _ Hp2)) by done. cbn [ue_type ue_generation].
    rewrite (proj2 (Z.eqb_neq type 0)) by lia. unfold accepts. rewrite Hgen, Z.eqb_refl, orb_true_r. done.
  - by rewrite Hobj, Z.eqb_refl.
  - eexists. split; [exact Hp2|done].
  - intros h' Hh'. by eapply target_vacant.
  - intros j Hj. rewrite Hobj. by rewrite (proj2 (Z.eqb_neq j i)).
Qed.

(** ** Release *)

(** Entry [i] is freed; everything else stays. *)
Record freed (s s' : user_state) (i : Z) : Prop := {
  fr_ok : uh_ok s';
  fr_nb : nb_handles s' = nb_handles s;
  fr_entry : ∃ e e', entry_of s i = Some e ∧ put_user s s' i e' ∧ ue_type e' = 0 ∧
    ue_generation e' = ue_generation e ∧ ue_pid e' = ue_pid e;
  fr_head : freelist s' = i;
}.

Lemma freed_target s s' i h : freed s s' i → 0 <= i < nb_handles s →
  target s' h = if handle_index h =? i then None else target s h.
Proof.
  intros [Hok Hn (e & e' & He & Hp & Ht & _) _] Hi. destruct (Z.eqb_spec (handle_index h) i) as [Heq|Hne].
  - rewrite (target_new s' i e' h (pe_new _ _ _ _ Hp)), Ht by (done || lia). done.
  - eapply target_put; [done|done|]. by left.
Qed.

Lemma free_user_entry_ok s i e : uh_ok s → 0 <= i < nb_handles s → entry_of s i = Some e → ue_type e ≠ 0 →
  wp (free_user_entry i) (λ _ s', freed s s' i ∧ server_objects s' = server_objects s) s.
Proof.
  intros Hs Hi He Ht. pose proof Hs as [Hle Hlo Hnb Hgen (l & Hl & Hnd)].
  unfold free_user_entry, set_freelist. wp_steps. eapply wp_get_user_entry; [done|]. wp_steps.
  apply wp_put_user_entry; [lia|]. wp_steps. cbn. split; [|done].
  match goal with |- freed s ?u i =>
    assert (Hp : put_user s u i (UserEntry (freelist s) (ue_tid e) (ue_pid e) (ue_id e) 0 (ue_generation e)))
    by (apply put_entry_insert; [lia|done]) end.
  assert (Hil : i ∉ l).
  { intros Hin. destruct (free_chain_type _ _ _ _ Hl Hin) as (f & Hf & Hft). congruence. }
  split; [|done|by do 2 eexists; split; [|split; [exact Hp|]]|done].
  split; cbn; [by rewrite length_insert|done|done| |].
  - intros j f Hj. destruct (Z.eq_dec j i) as [->|Hne].
    + rewrite (pe_new _ _ _ _ Hp). intros [= <-]. cbn. by eapply Hgen.
    + rewrite (pe_old _ _ _ _ Hp) by done. by apply Hgen.
  - exists (i :: l). split; [|by constructor]. cbn. split; [done|]. split; [done|].
    eexists. split; [exact (pe_new _ _ _ _ Hp)|]. split; [done|]. cbn.
    eapply free_chain_put; [exact Hp|done|done|done].
Qed.

Lemma free_user_handle_ok s h : uh_ok s →
  wp (free_user_handle h) (λ p s',
    match target s h with
    | None => p = 0 ∧ s' = UserState (user_entries s) (server_objects s) (freelist s) (nb_handles s) USER_INVALID_HANDLE
    | Some i => object_of s i = Some p ∧ freed s s' i ∧ ∀ j, object_of s' j = if j =? i then Some 0 else object_of s j
    end) s.
Proof.
  intros Hs. unfold free_user_handle, set_user_error. wp_steps. eapply wp_mono; [by apply handle_to_entry_ok|].
  cbv beta. intros r s' [-> ->]. destruct (target s h) as [i|] eqn:Htg; wp_steps; [|done].
  destruct (target_some s h i Hs Htg) as (-> & Hi & e & He & Ht & _). set (i := handle_index h) in *.
  pose proof (uo_nb _ Hs). pose proof (uo_objects _ Hs). apply wp_set_server_object; [lia|]. intros q Hq.
  set (s1 := UserState _ _ _ _ _). wp_steps. eapply wp_mono; [apply (free_user_entry_ok s1 i e); [|done..]|].
  { apply uh_ok_objects; [done|by rewrite length_insert]. }
  cbv beta. intros _ s2 [Hf Hob]. wp_steps. split; [done|]. split.
  - destruct Hf as [A B (f & f' & Hf & Hp & ?) D]. split; [done|done| |done]. exists f, f'. split; [done|].
    split; [|done]. by destruct Hp; split.
  - intros j. apply object_of_insert; [by rewrite Hob|lia].
Qed.

(** ** Runs of the table *)

(** The entries keep their generations, and free entries stay free. *)
Definition kept (s s' : user_state) : Prop :=
  nb_handles s' = nb_handles s ∧ ∀ j e, entry_of s j = Some e →
    ∃ e', entry_of s' j = Some e' ∧ ue_generation e' = ue_generation e ∧ (ue_type e = 0 → ue_type e' = 0).

Lemma kept_refl s : kept s s.
Proof. split; [done|]. intros j e He. by exists e. Qed.

Lemma kept_trans s1 s2 s3 : kept s1 s2 → kept s2 s3 → kept s1 s3.
Proof.
  intros [Hn1 H1] [Hn2 H2]. split; [congruence|]. intros j e He.
  destruct (H1 j e He) as (e1 & He1 & Hg1 & Ht1). destruct (H2 j e1 He1) as (e2 & He2 & Hg2 & Ht2).
  exists e2. split_and!; [done|congruence|auto].
Qed.

Lemma freed_kept s s' i : freed s s' i → kept s s'.
Proof.
  intros [_ Hn (e & e' & He & Hp & Ht & Hg & _) _]. split; [done|]. intros j f Hf.
  destruct (Z.eq_dec j i) as [->|Hne].
  - exists e'. split; [apply Hp|]. split; [congruence|done].
  - exists f. by rewrite (pe_old _ _ _ _ Hp).
Qed.

(** The entries [free_process_user_handles] frees. *)
Definition doomed (s : user_state) (pid i : Z) : bool :=
  match entry_of s i with Some e => client_type (ue_type e) && (ue_pid e =? pid) | None => false end.

Lemma client_type_nonzero t : client_type t = true → t ≠ 0.
Proof. by intros H ->. Qed.

Lemma doomed_put s s' i e pid j : put_user s s' i e → j ≠ i → doomed s' pid j = doomed s pid j.
Proof. intros Hp Hj. unfold doomed. by rewrite (pe_old _ _ _ _ Hp). Qed.

Lemma free_process_loop_ok n s i pid : uh_ok s → 0 <= i → nb_handles s - i <= Z.of_nat n →
  wp (free_process_loop n i pid) (λ _ s', uh_ok s' ∧ nb_handles s' = nb_handles s ∧
    server_objects s' = server_objects s ∧ kept s s' ∧
    ∀ h, target s' h = if (i <=? handle_index h) && doomed s pid (handle_index h) then None else target s h) s.
Proof.
  revert s i. induction n as [|n IH]; intros s i Hs Hi Hn; cbn [free_process_loop]; wp_steps;
    (destruct (Z.leb_spec (nb_handles s) i) as [Hle|Hlt];
     [wp_steps; split_and!; try done; [apply kept_refl|]; intros h; unfold target;
      destruct (Z.leb_spec (nb_handles s) (handle_index h)); [by case_match|];
      by rewrite (proj2 (Z.leb_gt i _)) by lia|]); [lia|].
  wp_steps. pose proof (uo_nb _ Hs). destruct (entry_of_some s i Hs) as [e He]; [lia|].
  eapply wp_get_user_entry; [done|].
  destruct (client_type (ue_type e) && (ue_pid e =? pid)) eqn:Hd; wp_steps.
  - pose proof Hd as [Hct _]%andb_prop. eapply wp_mono; [apply (free_user_entry_ok s i e); try done; by apply client_type_nonzero|].
    cbv beta. intros _ s1 [Hf Hob]. pose proof Hf as [Hs1 Hn1 (f & f' & _ & Hp & _) _].
    eapply wp_mono; [apply IH; [done|lia|lia]|]. cbv beta. intros _ s2 (Hs2 & Hn2 & Hob2 & Hk & Htg).
    split_and!; [done|congruence|congruence|by eapply kept_trans; [apply (freed_kept s s1 i)|]|]. intros h. rewrite Htg, (freed_target s s1 i) by done.
    destruct (Z.eqb_spec (handle_index h) i) as [Heq|Hne].
    + rewrite Heq, (proj2 (Z.leb_gt (i + 1) i)), (proj2 (Z.leb_le i i)) by lia. unfold doomed. by rewrite He, Hd.
    + rewrite (doomed_put s s1 i f') by done.
      destruct (Z.leb_spec (i + 1) (handle_index h)), (Z.leb_spec i (handle_index h)); done || lia.
  - eapply wp_mono; [apply IH; [done|lia|lia]|]. cbv beta. intros _ s2 (Hs2 & Hn2 & Hob2 & Hk & Htg).
    split_and!; [done|done|done|done|]. intros h. rewrite Htg.
    destruct (Z.leb_spec (i + 1) (handle_index h)), (Z.leb_spec i (handle_index h)); try done; [lia|].
    assert (handle_index h = i) as -> by lia. unfold doomed. by rewrite He, Hd.
Qed.

(** What the server does with the table. *)
Inductive user_op :=
| UAlloc (ptr offset id tid pid type : Z)
| UFree (handle : Z)
| UReqFree (handle type : Z)
| UExit (pid : Z).

(** The handle of an allocation. *)
Definition run_user_op (op : user_op) : UH (option Z) :=
  match op with
  | UAlloc ptr offset id tid pid type => h <- alloc_user_handle ptr offset id tid pid type; ret (Some h)
  | UFree handle => free_user_handle handle ;; ret None
  | UReqFree handle type => req_free_user_handle handle type ;; ret None
  | UExit pid => free_process_user_handles pid ;; ret None
  end.

(** The types are those of [ntuser.h], and there is room for an allocation. *)
Definition user_admissible (s : user_state) (op : user_op) : Prop :=
  match op with UAlloc _ _ _ _ _ type => 0 < type < 65536 ∧ can_alloc s | _ => True end.

(** One of them, seen from the entries: the allocation of handle [h] gives its
    entry, which was free, the next generation and leaves the others alone; the
    rest only frees entries. *)
Definition user_stepped (s : user_state) (r : option Z) (s' : user_state) : Prop :=
  uh_ok s' ∧
  match r with
  | None => kept s s'
  | Some h => nb_handles s <= nb_handles s' ∧ target s' h = Some (handle_index h) ∧ ∀ j e, 0 <= j < nb_handles s → entry_of s j = Some e →
      ∃ e', entry_of s' j = Some e' ∧
        if decide (handle_index h = j) then ue_type e = 0 ∧ ue_generation e' = next_gen (ue_generation e)
        else e' = e
  end.

Lemma allocated_stepped s ptr pid type h s' : allocated s ptr pid type h s' → user_stepped s (Some h) s'.
Proof.
  intros (Hs' & _ & i & g & -> & Hi & Hg & Hv & Htg & _ & (e1 & Hp & _ & _ & Hge) & _).
  pose proof (uo_nb _ Hs'). destruct (entry_handle_parts i g) as [Hidx _]; [lia|lia|].
  split; [done|]. rewrite Hidx. split_and!; [destruct Hv as [(? & ? & ?)|(? & ? & ? & _)]; lia|done|].
  intros j e Hj He. case_decide as Hij; [|exists e; by rewrite (pe_old _ _ _ _ Hp)]. subst j.
  destruct Hv as [(_ & ? & _)|(_ & _ & _ & e0 & He0 & Ht & Hgn)]; [lia|]. simplify_eq.
  exists e1. split; [apply Hp|done].
Qed.

Lemma run_user_op_ok s op : uh_ok s → user_admissible s op → wp (run_user_op op) (user_stepped s) s.
Proof.
  intros Hs. destruct op as [ptr offset id tid pid type|h|h type|pid]; simpl.
  - intros [Hty Hcan]. wp_steps. eapply wp_mono; [by apply alloc_user_handle_ok|]. intros h s' Ha.
    by eapply allocated_stepped.
  - intros _. wp_steps. eapply wp_mono; [by apply free_user_handle_ok|]. cbv beta. intros p s' Hf. wp_steps.
    destruct (target s h) as [i|].
    + destruct Hf as (_ & Hf & _). split; [apply Hf|by eapply freed_kept].
    + destruct Hf as [_ ->]. split; [by apply uh_ok_error|]. apply (kept_refl s).
  - intros _. unfold req_free_user_handle, set_user_error. wp_steps. eapply wp_mono; [by apply handle_to_entry_ok|].
    cbv beta. intros o s' [-> ->]. destruct (target s h) as [i|] eqn:Ht; wp_steps.
    2:{ split; [by apply uh_ok_error|apply (kept_refl s)]. }
    destruct (target_some s h i Hs Ht) as (_ & Hi & e & He & Hty & _). eapply wp_get_user_entry; [done|].
    apply wp_if; intros _; wp_steps; [|split; [by apply uh_ok_error|apply (kept_refl s)]].
    eapply wp_mono; [by apply (free_user_entry_ok s i e)|]. cbv beta. intros _ s' [Hf _]. wp_steps.
    split; [apply Hf|by eapply freed_kept].
  - intros _. unfold free_process_user_handles. wp_steps. pose proof (uo_nb _ Hs).
    eapply wp_mono; [apply free_process_loop_ok; [done|lia|lia]|]. cbv beta. intros _ s' (Hs' & _ & _ & Hk & _).
    by wp_steps.
Qed.

(** Any sequence of them, with the handles allocated on the way. *)
Inductive served : user_state → list Z → user_state → Prop :=
| served_nil s : served s [] s
| served_step s hs s1 op r s2 : served s hs s1 → user_admissible s1 op → run_user_op op s1 = Done r s2 →
    served s (hs ++ option_list r) s2.

(** How often entry [i] was allocated. *)
Definition reuses (i : Z) (hs : list Z) : Z := Z.of_nat (length (filter (λ h, handle_index h = i) hs)).

Lemma reuses_app i hs r : reuses i (hs ++ option_list r) =
  reuses i hs + match r with Some h => if decide (handle_index h = i) then 1 else 0 | None => 0 end.
Proof.
  unfold reuses. rewrite filter_app, length_app, Nat2Z.inj_add. f_equal. destruct r as [h|]; [|done].
  simpl option_list. rewrite filter_cons, filter_nil. by case_decide.
Qed.

(** The generation after [k] allocations. *)
Lemma next_gen_iter g k : 0 <= k → next_gen ((g - 1 + k) mod 65534 + 1) = (g - 1 + (k + 1)) mod 65534 + 1.
Proof. intros Hk. unfold next_gen. f_equal. rewrite Z.add_mod_idemp_l by lia. f_equal. lia. Qed.

Lemma served_ok s hs s' : uh_ok s → served s hs s' → uh_ok s' ∧ nb_handles s <= nb_handles s' ∧
  ∀ i e, 0 <= i < nb_handles s → entry_of s i = Some e → ∃ e', entry_of s' i = Some e' ∧
    ue_generation e' = (ue_generation e - 1 + reuses i hs) mod 65534 + 1 ∧
    (reuses i hs = 0 → ue_type e = 0 → ue_type e' = 0).
Proof.
  intros Hs. induction 1 as [s|s hs s1 op r s2 Hserved IH Hadm Hrun].
  { split_and!; [done|lia|]. intros i e Hi He. exists e. pose proof (uo_gen _ Hs i e Hi He).
    unfold reuses. simpl. rewrite Z.add_0_r, Z.mod_small by lia. split_and!; [done|lia|done]. }
  destruct (IH Hs) as (Hs1 & Hn1 & H1). pose proof (run_user_op_ok s1 op Hs1 Hadm) as Hstep.
  unfold wp in Hstep. rewrite Hrun in Hstep. destruct Hstep as [Hs2 Hstep].
  assert (nb_handles s1 <= nb_handles s2) as Hn2 by (destruct r; [apply Hstep|destruct Hstep; lia]).
  split_and!; [done|lia|]. intros i e Hi He. destruct (H1 i e Hi He) as (e1 & He1 & Hg1 & Ht1).
  rewrite reuses_app. assert (0 <= reuses i hs) by (unfold reuses; lia). destruct r as [h|].
  - destruct Hstep as (_ & _ & Hstep). destruct (Hstep i e1 ltac:(lia) He1) as (e2 & He2 & Hcase).
    exists e2. split; [done|]. case_decide.
    + destruct Hcase as [_ ->]. rewrite Hg1, next_gen_iter by done. split; [done|lia].
    + subst e2. by rewrite Z.add_0_r.
  - destruct Hstep as [_ Hk]. destruct (Hk i e1 He1) as (e2 & He2 & Hg2 & Ht2).
    exists e2. rewrite Z.add_0_r. split_and!; [done|congruence|auto].
Qed.

(** A handle of another generation than the entry has come to is refused. *)
Lemma stale_accepts h g k g2 : handle_generation h = g → 1 <= g < 0xffff → k mod 65534 ≠ 0 →
  g2 = (g - 1 + k) mod 65534 + 1 → accepts h g2 = false.
Proof.
  intros Hh Hg Hk ->. unfold accepts. rewrite Hh, (proj2 (Z.eqb_neq g 0)), (proj2 (Z.eqb_neq g 0xffff)) by lia.
  apply Z.eqb_neq. intros Heq. apply Hk. assert ((g - 1 + k) mod 65534 = (g - 1) mod 65534) as Hm.
  { rewrite (Z.mod_small (g - 1)) by lia. lia. }
  replace k with ((g - 1 + k) - (g - 1)) by lia. rewrite Zminus_mod, Hm. by rewrite Z.sub_diag.
Qed.

(** ** Properties *)

(** on a well-formed table with room, [alloc_user_handle] stores the object
    under a handle that designated nothing before; every handle to another entry,
    full or truncated, designates what it did, and the free list stays sound. *)
Theorem alloc_user_handle_spec s ptr offset id tid pid type :
  uh_ok s → 0 < type < 65536 → can_alloc s →
  wp (alloc_user_handle ptr offset id tid pid type) (λ h s', uh_ok s' ∧ target s h = None ∧
    ∃ i, target s' h = Some i ∧ object_of s' i = Some ptr ∧
      (∀ h', handle_index h' ≠ handle_index h → target s' h' = target s h') ∧
      (∀ j, j ≠ i → object_of s' j = object_of s j ∧ entry_of s' j = entry_of s j)) s.
Proof.
  intros Hs Hty Hcan. eapply wp_mono; [by apply alloc_user_handle_ok|]. cbv beta.
  intros h s' (Hs' & Hn & i & g & -> & Hi & Hg & _ & Htg & Hob & (e & Hp & _) & Hoth & Hobj).
  pose proof (uo_nb _ Hs'). destruct (entry_handle_parts i g) as [Hidx _]; [lia|lia|].
  split; [done|]. split; [done|]. exists i. rewrite Hidx. split_and!; try done.
  intros j Hj. split; [by apply Hobj|by apply (pe_old _ _ _ _ Hp)].
Qed.

(** C38: a full handle that was released designates nothing, whatever the server
    allocates and releases afterwards and in whatever order, as long as the entry
    it names has not been allocated again a multiple of 65534 times, when the
    16-bit generation has come round; no operation faults on the way while there is
    room for the allocations. *)
Theorem stale_user_handle s h :
  uh_ok s → 1 <= handle_generation h < 0xffff → is_Some (target s h) →
  wp (free_user_handle h) (λ p s1, object_of s (handle_index h) = Some p ∧
    ∀ hs s2, served s1 hs s2 → uh_ok s2 ∧
      (∀ op, user_admissible s2 op → ∃ r s3, run_user_op op s2 = Done r s3) ∧
      (target s2 h = None ∨ 0 < reuses (handle_index h) hs ∧ reuses (handle_index h) hs mod 65534 = 0)) s.
Proof.
  intros Hs Hg [i Htg]. eapply wp_mono; [by apply free_user_handle_ok|]. cbv beta. intros p s1. rewrite Htg.
  destruct (target_some s h i Hs Htg) as (-> & Hi & e & He & _ & Hacc). intros (Hp & Hf & _). split; [done|].
  pose proof Hf as [Hs1 Hn1 (f & f1 & Hf1 & Hput & Ht1 & Hg1 & _) _]. simplify_eq. intros hs s2 Hserved.
  destruct (served_ok s1 hs s2 Hs1 Hserved) as (Hs2 & Hn2 & H2). split_and!; [done| |].
  { intros op Hop. destruct (wp_run _ _ _ (run_user_op_ok s2 op Hs2 Hop)) as (r & s3 & Hrun & _). eauto. }
  destruct (H2 (handle_index h) f1 ltac:(lia) (pe_new _ _ _ _ Hput)) as (e2 & He2 & Hg2 & Ht2).
  assert (handle_generation h = ue_generation e) as Hgh.
  { unfold accepts in Hacc. rewrite !orb_true_iff, !Z.eqb_eq in Hacc. lia. }
  set (k := reuses (handle_index h) hs) in *. assert (0 <= k) by (unfold k, reuses; lia).
  destruct (decide (k = 0)) as [Hk|Hk].
  { left. rewrite (target_new s2 _ e2 h He2), Ht2 by (done || lia). done. }
  destruct (decide (k mod 65534 = 0)) as [|Hmod]; [right; lia|]. left.
  rewrite (target_new s2 _ e2 h He2) by (done || lia).
  rewrite (stale_accepts h (ue_generation e) k); [by rewrite orb_true_r|done|lia|done|congruence].
Qed.

(** Allocating and releasing the entry at the head of the free list again and again. *)
Lemma served_rounds s i n : uh_ok s → freelist s = i → 0 <= i < nb_handles s →
  ∃ hs s', served s hs s' ∧ length hs = n ∧ reuses i hs = Z.of_nat n ∧ freelist s' = i.
Proof.
  intros Hs Hfl Hi. assert (i ≠ NO_FREE) by (pose proof (uo_nb _ Hs); rewrite max_user_handles in *; unfold NO_FREE; lia).
  induction n as [|n (hs & s1 & Hserved & Hlen & Hr & Hf1)]; [by exists [], s; split; [constructor|]|].
  destruct (served_ok s hs s1 Hs Hserved) as (Hs1 & _).
  destruct (wp_run _ _ _ (alloc_user_handle_ok s1 7 0 0 1 2 NTUSER_OBJ_WINDOW Hs1 ltac:(done) ltac:(left; congruence)))
    as (h & s2 & Hrun & Hs2 & _ & j & g & Hh & Hj & Hg & Hv & Htg & _).
  destruct Hv as [[? _]|(-> & _)]; [congruence|]. rewrite Hf1 in *.
  destruct (entry_handle_parts i g) as [Hidx _]; [pose proof (uo_nb _ Hs2); lia|lia|].
  pose proof (wp_run _ _ _ (free_user_handle_ok s2 h Hs2)) as (p & s3 & Hrun3 & Hfr). rewrite Htg in Hfr.
  destruct Hfr as (_ & Hfr & _). exists (hs ++ [h]), s3. split_and!.
  - rewrite <-(app_nil_r (hs ++ [h])). apply (served_step s (hs ++ [h]) s2 (UFree h) None s3); [|done|].
    + apply (served_step s hs s1 (UAlloc 7 0 0 1 2 NTUSER_OBJ_WINDOW) (Some h) s2); [done| |].
      * split; [done|]. left. congruence.
      * simpl. unfold st_bind. by rewrite Hrun.
    + simpl. unfold st_bind. by rewrite Hrun3.
  - rewrite length_app. simpl. lia.
  - rewrite (reuses_app i hs (Some h) : reuses i (hs ++ [h]) = _), Hr, decide_True by (by rewrite Hh). lia.
  - apply Hfr.
Qed.

(** the bound is exact: after 65534 allocations of its entry a released handle
    designates the last object that was put there. *)
Theorem stale_user_handle_revives s h :
  uh_ok s → 1 <= handle_generation h < 0xffff → is_Some (target s h) →
  wp (free_user_handle h) (λ _ s1, ∃ hs s2, served s1 hs s2 ∧ Z.of_nat (length hs) = 65534 ∧
    target s2 h = Some (handle_index h)) s.
Proof.
  intros Hs Hg [i Htg]. eapply wp_mono; [by apply free_user_handle_ok|]. cbv beta. intros p s1. rewrite Htg.
  destruct (target_some s h i Hs Htg) as (-> & Hi & e & He & _ & Hacc). intros (_ & Hf & _).
  pose proof Hf as [Hs1 Hn1 (f & f1 & Hf1 & Hput & Ht1 & Hg1 & _) Hhead]. simplify_eq.
  set (i := handle_index h) in *. destruct (served_rounds s1 i (Z.to_nat 65533) Hs1 Hhead ltac:(lia))
    as (hs & s2 & Hserved & Hlen & Hr & Hf2).
  destruct (served_ok s1 hs s2 Hs1 Hserved) as (Hs2 & Hn2 & _).
  assert (can_alloc s2) as Hcan by (left; pose proof (uo_nb _ Hs); rewrite max_user_handles in *; unfold NO_FREE; lia).
  destruct (wp_run _ _ _ (alloc_user_handle_ok s2 7 0 0 1 2 NTUSER_OBJ_WINDOW Hs2 ltac:(done) Hcan))
    as (h' & s3 & Hrun & Hal). pose proof Hal as (Hs3 & _ & j & g & Hh & Hj & Hgr & Hv & Htg' & _ & (e3 & Hp3 & Hty3 & _) & _).
  assert (j = i) as -> by (destruct Hv as [[Hno _]|(-> & _)]; [|done]; rewrite Hf2 in Hno; pose proof (uo_nb _ Hs); rewrite max_user_handles in *; unfold NO_FREE in Hno; lia).
  destruct (entry_handle_parts i g) as [Hidx _]; [pose proof (uo_nb _ Hs3); lia|lia|].
  assert (served s1 (hs ++ [h']) s3) as Hserved3.
  { apply (served_step s1 hs s2 (UAlloc 7 0 0 1 2 NTUSER_OBJ_WINDOW) (Some h') s3); [done|by split|].
    simpl. unfold st_bind. by rewrite Hrun. }
  exists (hs ++ [h']), s3. split_and!; [done|rewrite length_app; simpl; lia|].
  destruct (served_ok s1 _ s3 Hs1 Hserved3) as (_ & _ & H3).
  destruct (H3 i f1 ltac:(lia) (pe_new _ _ _ _ Hput)) as (e4 & He4 & Hg4 & _).
  rewrite (reuses_app i hs (Some h') : reuses i (hs ++ [h']) = _), Hr, decide_True in Hg4 by (by rewrite Hh).
  replace (ue_generation f1 - 1 + (Z.of_nat (Z.to_nat 65533) + 1)) with (ue_generation f1 - 1 + 1 * 65534) in Hg4 by lia.
  rewrite Z.mod_add, Z.mod_small in Hg4 by (try done; rewrite Hg1; pose proof (uo_gen _ Hs i e Hi He); lia).
  rewrite (pe_new _ _ _ _ Hp3) in He4. injection He4 as <-.
  rewrite (target_new s3 i e3 h (pe_new _ _ _ _ Hp3) Hj eq_refl), Hty3. simpl.
  replace (ue_generation e3) with (ue_generation e) by lia. by rewrite Hacc.
Qed.

(** [free_user_handle] returns the object of a valid handle and frees its
    entry, after which no handle designates it; other handles and objects are
    untouched.  An invalid handle is reported and nothing else changes. *)
Theorem free_user_handle_spec s h :
  uh_ok s →
  wp (free_user_handle h) (λ p s', uh_ok s' ∧
    match target s h with
    | None => p = 0 ∧ s' = UserState (user_entries s) (server_objects s) (freelist s) (nb_handles s) USER_INVALID_HANDLE
    | Some i => object_of s i = Some p ∧
        (∀ h', target s' h' = if handle_index h' =? i then None else target s h') ∧
        (∀ j, object_of s' j = if j =? i then Some 0 else object_of s j)
    end) s.
Proof.
  intros Hs. eapply wp_mono; [by apply free_user_handle_ok|]. cbv beta. intros p s'.
  destruct (target s h) as [i|] eqn:Htg.
  - destruct (target_some s h i Hs Htg) as (_ & Hi & _). intros (Hp & Hf & Hobj).
    split; [apply Hf|]. split; [done|]. split; [|done]. intros h'. by apply freed_target.
  - intros [-> ->]. split; [|done]. by apply uh_ok_error.
Qed.

(** when a process ends, [free_process_user_handles] invalidates exactly the
    handles to the menus, icons, window position structures, accelerators and
    input contexts of that process; windows, hooks and the handles of other
    processes stay valid. *)
Theorem free_process_user_handles_spec s pid :
  uh_ok s →
  wp (free_process_user_handles pid) (λ _ s', uh_ok s' ∧
    ∀ h, target s' h = if doomed s pid (handle_index h) then None else target s h) s.
Proof.
  intros Hs. unfold free_process_user_handles. wp_steps. pose proof (uo_nb _ Hs).
  eapply wp_mono; [apply free_process_loop_ok; [done|lia|lia]|]. cbv beta. intros _ s' (Hs' & _ & _ & _ & Htg).
  split; [done|]. intros h. rewrite Htg. by rewrite (proj2 (Z.leb_le 0 _)) by apply handle_index_nonneg.
Qed.

(** C40: there is no test that the table is full: with no free entry and
    [MAX_USER_HANDLES] handles in use, the allocation writes past the end of the
    shared array. *)
Theorem alloc_user_handle_overflow s ptr offset id tid pid type :
  uh_ok s → freelist s = NO_FREE → nb_handles s = MAX_USER_HANDLES →
  alloc_user_handle ptr offset id tid pid type s = Fault OutOfBounds.
Proof.
  intros Hs Hf Hn. unfold alloc_user_handle, alloc_user_entry, put_user_entry, st_bind, get, set_nb_handles, modify.
  rewrite Hf, Z.eqb_refl. cbn [negb st_ret fst snd user_entries]. unfold arr_set.
  pose proof (uo_entries _ Hs). rewrite Hn. cbn [user_entries]. rewrite (proj2 (Z.ltb_ge _ _)) by lia.
  by rewrite andb_false_r.
Qed.

(** ** Instances *)

Definition empty_users : user_state :=
  UserState (replicate (Z.to_nat MAX_USER_HANDLES) (UserEntry 0 0 0 0 0 0)) (replicate (Z.to_nat MAX_USER_HANDLES) 0) NO_FREE 0 0.
Definition full_users : user_state :=
  UserState (replicate (Z.to_nat MAX_USER_HANDLES) (UserEntry 0 0 0 0 NTUSER_OBJ_WINDOW 1)) (replicate (Z.to_nat MAX_USER_HANDLES) 0) NO_FREE 0x7fe8 0.

Lemma replicate_uh_ok e nb : nb = 0 ∨ nb = 0x7fe8 → 1 <= ue_generation e < 0xffff ∨ nb = 0 →
  uh_ok (UserState (replicate (Z.to_nat MAX_USER_HANDLES) e) (replicate (Z.to_nat MAX_USER_HANDLES) 0) NO_FREE nb 0).
Proof.
  intros Hnb Hg. split; cbn [user_entries server_objects nb_handles freelist].
  - rewrite length_replicate, Z2Nat.id; done.
  - rewrite length_replicate, Z2Nat.id; done.
  - rewrite max_user_handles. lia.
  - intros i f Hi. unfold entry_of. cbn [user_entries]. destruct (0 <=? i); [|done].
    intros [-> _]%lookup_replicate. lia.
  - exists []. split; [done|constructor].
Qed.

Lemma alloc_user_handle_witness :
  wp (alloc_user_handle 7 0 0 1 2 NTUSER_OBJ_WINDOW) (λ h s', uh_ok s' ∧ target empty_users h = None ∧
    ∃ i, target s' h = Some i ∧ object_of s' i = Some 7 ∧
      (∀ h', handle_index h' ≠ handle_index h → target s' h' = target empty_users h') ∧
      (∀ j, j ≠ i → object_of s' j = object_of empty_users j ∧ entry_of s' j = entry_of empty_users j)) empty_users.
Proof.
  apply (alloc_user_handle_spec empty_users 7 0 0 1 2 NTUSER_OBJ_WINDOW).
  - apply replicate_uh_ok; auto.
  - done.
  - right. done.
Defined.

Lemma stale_user_handle_witness :
  wp (free_user_handle 0x10020) (λ p s1, p = 0 ∧ ∀ hs s2, served s1 hs s2 → (length hs < Z.to_nat 65534)%nat →
    uh_ok s2 ∧ target s2 0x10020 = None) full_users.
Proof.
  eapply wp_mono; [apply (stale_user_handle full_users 0x10020)|].
  - apply replicate_uh_ok; [auto|left; cbn; lia].
  - split; vm_compute; done.
  - exists 0. vm_compute. reflexivity.
  - cbv beta. intros p s1 [Hp Hall]. split; [vm_compute in Hp; by injection Hp as <-|]. intros hs s2 Hserved Hlen.
    destruct (Hall hs s2 Hserved) as (Hs2 & _ & [Hn|[Hr Hm]]); [done|]. exfalso.
    assert (reuses (handle_index 0x10020) hs <= Z.of_nat (length hs)) by (unfold reuses; apply inj_le, length_filter).
    rewrite Z.mod_small in Hm by lia. lia.
Defined.

Lemma free_user_handle_witness :
  wp (free_user_handle 0x10020) (λ p s', uh_ok s' ∧
    match target full_users 0x10020 with
    | None => p = 0 ∧ s' = UserState (user_entries full_users) (server_objects full_users) (freelist full_users)
                             (nb_handles full_users) USER_INVALID_HANDLE
    | Some i => object_of full_users i = Some p ∧
        (∀ h', target s' h' = if handle_index h' =? i then None else target full_users h') ∧
        (∀ j, object_of s' j = if j =? i then Some 0 else object_of full_users j)
    end) full_users.
Proof. apply (free_user_handle_spec full_users 0x10020), replicate_uh_ok; [auto|left; cbn; lia]. Defined.

Lemma free_process_witness :
  wp (free_process_user_handles 2) (λ _ s', uh_ok s' ∧
    ∀ h, target s' h = if doomed empty_users 2 (handle_index h) then None else target empty_users h) empty_users.
Proof. apply (free_process_user_handles_spec empty_users 2), replicate_uh_ok; auto. Defined.

Lemma alloc_overflow_witness : alloc_user_handle 7 0 0 1 2 NTUSER_OBJ_WINDOW full_users = Fault OutOfBounds.
Proof.
  apply (alloc_user_handle_overflow full_users 7 0 0 1 2 NTUSER_OBJ_WINDOW); [|done|done].
  apply replicate_uh_ok; [auto|left; cbn; lia].
Defined.
