(* ===== verification/RegText.v ===== *)
(** * The text format of the registry (server/unicode.c, server/registry.c)

    The functions that print and parse the strings and values of a registry file.
    A C string is the list of its bytes, without the terminating NUL: [char_at] of
    the empty list is that NUL.  A [WCHAR] string is the list of its 16-bit units,
    and the data of a value the list of its bytes; the machine is little-endian. *)

From stdpp Require Import base list.
From S2P Require Import Prelude.

Open Scope Z_scope.

(** ** Characters *)

Definition char_at (p : list Z) : Z := hd 0 p.

Definition isdigit (c : Z) : bool := (48 <=? c) && (c <=? 57).
Definition isxdigit (c : Z) : bool :=
  isdigit c || (65 <=? c) && (c <=? 70) || (97 <=? c) && (c <=? 102).
Definition isspace (c : Z) : bool := (c =? 32) || (9 <=? c) && (c <=? 13).
Definition isoctal (c : Z) : bool := (48 <=? c) && (c <=? 55).
Definition tolower (c : Z) : Z := if (65 <=? c) && (c <=? 90) then c + 32 else c.
Definition w16 (x : Z) : Z := x mod 65536.

Definition BACKSLASH : Z := 92.
Definition QUOTE : Z := 34.
Definition COMMA : Z := 44.
Definition NEWLINE : Z := 10.

Definition to_hex (ch : Z) : Z := if isdigit ch then ch - 48 else tolower ch - 97 + 10.

Fixpoint skip_spaces (p : list Z) : list Z :=
  match p with c :: q => if isspace c then skip_spaces q else p | [] => [] end.

(** ** Parsing strings *)

(** The letters that stand for a control character after a backslash. *)
Definition c_escape (c : Z) : option Z :=
  if c =? 97 then Some 7 else if c =? 98 then Some 8 else if c =? 101 then Some 27
  else if c =? 102 then Some 12 else if c =? 110 then Some 10 else if c =? 114 then Some 13
  else if c =? 116 then Some 9 else if c =? 118 then Some 11 else None.

(** At most [n] more digits are read into the [WCHAR]. *)
Fixpoint hex_digits (n : nat) (acc : Z) (p : list Z) : Z * list Z :=
  match n, p with
  | S n, c :: q => if isxdigit c then hex_digits n (w16 (acc * 16 + to_hex c)) q else (acc, p)
  | _, _ => (acc, p)
  end.
Fixpoint octal_digits (n : nat) (acc : Z) (p : list Z) : Z * list Z :=
  match n, p with
  | S n, c :: q => if isoctal c then octal_digits n (w16 (acc * 8 + (c - 48))) q else (acc, p)
  | _, _ => (acc, p)
  end.

(** The tables [utf8_length], [utf8_mask] and [utf8_minval]. *)
Definition utf8_length (ch : Z) : nat :=
  if (194 <=? ch) && (ch <=? 223) then 1 else if (224 <=? ch) && (ch <=? 239) then 2
  else if (240 <=? ch) && (ch <=? 244) then 3 else 0.
Definition utf8_mask (n : nat) : Z := nth n [127; 31; 15; 7] 0.
Definition utf8_minval (n : nat) : Z := nth n [0; 128; 2048; 65536] 0.

(** The continuation bytes; the character is given up at the first that is not one. *)
Fixpoint utf8_tail (n : nat) (res : Z) (p : list Z) : option Z * list Z :=
  match n with
  | O => (Some res, p)
  | S n =>
      let ch := Z.lxor (char_at p) 128 in
      if 64 <=? ch then (None, p) else utf8_tail n (Z.lor (Z.shiftl res 6) ch) (tail p)
  end.

(** The character [ch], read already, with [room] units left in the buffer. *)
Definition parse_utf8 (room : Z) (ch : Z) (p : list Z) : list Z * list Z :=
  match utf8_length ch with
  | O => ([], p)
  | charlen =>
      match utf8_tail charlen (Z.land ch (utf8_mask charlen)) p with
      | (Some res, p) =>
          if (res <? utf8_minval charlen) || (1114111 <? res) then ([], p)
          else if res <=? 65535 then ([res], p)
          else
            let res := res - 65536 in
            (Z.lor 55296 (Z.shiftr res 10) :: (if 1 <? room then [Z.lor 56320 (Z.land res 1023)] else []), p)
      | (None, p) => ([], p)
      end
  end.

Definition parse_plain (room : Z) (p : list Z) : list Z * list Z :=
  match p with
  | [] => ([], [])
  | ch :: p => if ch <? 128 then ([ch], p) else parse_utf8 room ch p
  end.

(** The body of the loop of [parse_strW]: the units written and the rest. *)
Definition parse_char (room : Z) (p : list Z) : list Z * list Z :=
  match p with
  | [] => ([], [])
  | c :: q =>
      if c =? BACKSLASH then
        match q with
        | [] => ([], [])
        | c :: r =>
            match c_escape c with
            | Some u => ([u], r)
            | None =>
                if c =? 120 then
                  match r with
                  | d :: r' => if isxdigit d then let '(u, rest) := hex_digits 3 (to_hex d) r' in ([u], rest)
                               else ([120], r)
                  | [] => ([120], r)
                  end
                else if isoctal c then let '(u, rest) := octal_digits 2 (c - 48) r in ([u], rest)
                else parse_plain room q
            end
        end
      else parse_plain room p
  end.

(** The loop; every round reads at least one byte. *)
Fixpoint parse_loop (n : nat) (room endchar : Z) (p : list Z) : list Z * list Z :=
  match n, p with
  | S n, c :: _ =>
      if (c =? endchar) || (room <=? 0) then ([], p)
      else
        let '(out, q) := parse_char room p in
        let '(out', rest) := parse_loop n (room - Z.of_nat (length out)) endchar q in
        (out ++ out', rest)
  | _, _ => ([], p)
  end.

(** [parse_strW] with a buffer of [cap] units: the string with its terminator, and
    the number of bytes read; [None] is the result [-1]. *)
Definition parse_strW (cap : Z) (src : list Z) (endchar : Z) : option (list Z * Z) :=
  let '(out, p) := parse_loop (length src) cap endchar src in
  if cap <=? Z.of_nat (length out) then None
  else match p with
       | [] => None
       | _ => Some (out ++ [0], Z.of_nat (length src - length p) + 1)
       end.

(** ** Printing strings *)

(** The digits of a number, and the formats [%x], [%0<w>x], [%o] and [%0<w>o]. *)
Fixpoint digits (fuel : nat) (base n : Z) : list Z :=
  match fuel with
  | O => []
  | S fuel => if n <? base then [n] else digits fuel base (n / base) ++ [n mod base]
  end.
Definition hex_char (d : Z) : Z := if d <? 10 then 48 + d else 87 + d.
Definition fmt_x (n : Z) : list Z := hex_char <$> digits 16 16 n.
Definition fmt_o (n : Z) : list Z := (λ d, 48 + d) <$> digits 22 8 n.
Definition zero_pad (w : nat) (l : list Z) : list Z := replicate (w - length l) 48 ++ l.

(** The table [escapes]. *)
Definition dump_escape (c : Z) : option Z :=
  if c =? 7 then Some 97 else if c =? 8 then Some 98 else if c =? 9 then Some 116
  else if c =? 10 then Some 110 else if c =? 11 then Some 118 else if c =? 12 then Some 102
  else if c =? 13 then Some 114 else if c =? 27 then Some 101 else None.

(** One character, before the characters [next].  The buffer of the function only
    batches the output. *)
Definition dump_char (e1 e2 : Z) (c : Z) (next : list Z) : list Z :=
  if 127 <? c then
    BACKSLASH :: 120 ::
      (if match next with d :: _ => (d <? 128) && isxdigit d | [] => false end then zero_pad 4 (fmt_x c) else fmt_x c)
  else if c <? 32 then
    match dump_escape c with
    | Some l => [BACKSLASH; l]
    | None => BACKSLASH :: (if match next with d :: _ => isoctal d | [] => false end then zero_pad 3 (fmt_o c) else fmt_o c)
    end
  else (if (c =? BACKSLASH) || (c =? e1) || (c =? e2) then [BACKSLASH] else []) ++ [c].

Fixpoint dump_strW (str : list Z) (e1 e2 : Z) : list Z :=
  match str with
  | [] => []
  | c :: str => dump_char e1 e2 c str ++ dump_strW str e1 e2
  end.

(** ** Values *)

Definition REG_NONE : Z := 0.
Definition REG_SZ : Z := 1.
Definition REG_EXPAND_SZ : Z := 2.
Definition REG_BINARY : Z := 3.
Definition REG_DWORD : Z := 4.
Definition REG_LINK : Z := 6.
Definition REG_MULTI_SZ : Z := 7.

(** The name in [WCHAR]s, the type, and the bytes of the data. *)
Record key_value := KeyValue {
  v_name : list Z;
  v_type : Z;
  v_data : list Z;
}.

(** The [WCHAR]s of a block of bytes, and back. *)
Fixpoint wchars (l : list Z) : list Z :=
  match l with lo :: hi :: l => lo + 256 * hi :: wchars l | _ => [] end.
Fixpoint wbytes (l : list Z) : list Z :=
  match l with c :: l => c mod 256 :: c / 256 :: wbytes l | [] => [] end.

Definition dword (l : list Z) : Z :=
  match l with [a; b; c; d] => a + 256 * b + 65536 * c + 16777216 * d | _ => 0 end.
Definition dword_bytes (n : Z) : list Z := [n mod 256; n / 256 mod 256; n / 65536 mod 256; n / 16777216 mod 256].

(** The loop that prints the bytes, wrapping the lines; [count] is the width of the
    current line. *)
Fixpoint dump_bytes (l : list Z) (count : Z) : list Z :=
  match l with
  | [] => []
  | b :: l =>
      let count := count + 2 in
      zero_pad 2 (fmt_x b) ++
      match l with
      | [] => []
      | _ => COMMA :: (if 76 <? count + 1 then [BACKSLASH; NEWLINE; 32; 32] ++ dump_bytes l 2 else dump_bytes l (count + 1))
      end
  end.

(** Strings that end with a NUL are written as strings. *)
Definition is_string (v : key_value) : bool :=
  let len := Z.of_nat (length (v_data v)) in
  ((v_type v =? REG_SZ) || (v_type v =? REG_EXPAND_SZ) || (v_type v =? REG_MULTI_SZ)) &&
  negb (len <? 2) && (len mod 2 =? 0) && (default 1 (last (wchars (v_data v))) =? 0).

Definition STR : list Z := [115; 116; 114; 40].        (* str( *)
Definition HEX : list Z := [104; 101; 120; 58].        (* hex: *)
Definition HEXTYPE : list Z := [104; 101; 120; 40].    (* hex( *)
Definition DWORD : list Z := [100; 119; 111; 114; 100; 58].  (* dword: *)
Definition CLOSE : list Z := [41; 58].                 (* ): *)

Definition dump_name (v : key_value) : list Z :=
  match v_name v with
  | [] => [64; 61]
  | name => [QUOTE] ++ dump_strW name QUOTE QUOTE ++ [QUOTE; 61]
  end.

Definition dump_value (v : key_value) : list Z :=
  dump_name v ++
  if is_string v then
    (if v_type v =? REG_SZ then [] else STR ++ fmt_x (v_type v) ++ CLOSE) ++
    [QUOTE] ++ dump_strW (wchars (take (length (v_data v) - 2) (v_data v))) QUOTE QUOTE ++ [QUOTE; NEWLINE]
  else if (v_type v =? REG_DWORD) && (Z.of_nat (length (v_data v)) =? 4) then
    DWORD ++ zero_pad 8 (fmt_x (dword (v_data v))) ++ [NEWLINE]
  else
    let tag := if v_type v =? REG_BINARY then HEX else HEXTYPE ++ fmt_x (v_type v) ++ CLOSE in
    tag ++ dump_bytes (v_data v) (Z.of_nat (length (dump_name v)) + Z.of_nat (length tag)) ++ [NEWLINE].

(** ** Parsing values *)

Definition ULONG_MAX : Z := 18446744073709551615.

Fixpoint xdigits (p : list Z) : list Z * list Z :=
  match p with
  | c :: q => if isxdigit c then let '(ds, rest) := xdigits q in (to_hex c :: ds, rest) else ([], p)
  | [] => ([], [])
  end.
Definition digits_value (base : Z) (ds : list Z) : Z := fold_left (λ a d, a * base + d) ds 0.

(** [strtoul] in base 16: the value, and the text behind the number. *)
Definition strtoul (p : list Z) : Z * list Z :=
  let q := skip_spaces p in
  let '(neg, q) := match q with
                   | c :: r => if c =? 45 then (true, r) else if c =? 43 then (false, r) else (false, q)
                   | [] => (false, q)
                   end in
  let q := match q with
           | c :: x :: d :: _ => if (c =? 48) && ((x =? 120) || (x =? 88)) && isxdigit d then drop 2 q else q
           | _ => q
           end in
  let '(ds, rest) := xdigits q in
  match ds with
  | [] => (0, p)
  | _ => let v := digits_value 16 ds in
         (if ULONG_MAX <? v then ULONG_MAX else if neg then (- v) mod (ULONG_MAX + 1) else v, rest)
  end.

Fixpoint starts_with (tag p : list Z) : bool :=
  match tag, p with
  | [], _ => true
  | c :: tag, d :: p => (c =? d) && starts_with tag p
  | _ :: _, [] => false
  end.

(** The table [data_types]: tag, type, type to parse; the type of the last one
    follows the tag. *)
Definition data_types : list (list Z * option Z * Z) :=
  [([QUOTE], Some REG_SZ, REG_SZ);
   ([115; 116; 114; 58; QUOTE], Some REG_SZ, REG_SZ);
   (STR ++ [50] ++ CLOSE ++ [QUOTE], Some REG_EXPAND_SZ, REG_SZ);
   (STR ++ [55] ++ CLOSE ++ [QUOTE], Some REG_MULTI_SZ, REG_SZ);
   (HEX, Some REG_BINARY, REG_BINARY);
   (DWORD, Some REG_DWORD, REG_DWORD);
   (HEXTYPE, None, REG_BINARY)].

(** The length of the tag, the type and the type to parse; [None] is the result [0]. *)
Fixpoint get_data_type (table : list (list Z * option Z * Z)) (buffer : list Z) : option (Z * Z * Z) :=
  match table with
  | [] => None
  | (tag, type, parse_type) :: table =>
      if negb (starts_with tag buffer) then get_data_type table buffer
      else
        match type with
        | Some type => Some (Z.of_nat (length tag), type, parse_type)
        | None =>
            let '(v, e) := strtoul (drop 4 buffer) in
            if negb (starts_with CLOSE e) then None
            else Some (Z.of_nat (length buffer - length e) + 2, w32 v, parse_type)
        end
  end.

(** [parse_hex] into a buffer of [cap] bytes: the bytes and the rest of the text;
    [None] is the result [-1].  Every round reads at least one byte. *)
Fixpoint parse_hex (n : nat) (cap : Z) (p : list Z) : option (list Z * list Z) :=
  match n with
  | O => Some ([], p)
  | S n =>
      if negb (isxdigit (char_at p)) then Some ([], p)
      else
        let '(v, e) := strtoul p in
        let val := w32 v in
        if (length e =? length p)%nat || (255 <? val) then None
        else if cap <=? 0 then None
        else
          let q := skip_spaces e in
          let q := match q with c :: r => if c =? COMMA then r else q | [] => q end in
          match parse_hex n (cap - 1) (skip_spaces q) with
          | None => None
          | Some (bytes, rest) => Some (val :: bytes, rest)
          end
  end.
