(* ===== verification/RegTextThms.v ===== *)
(** * The text format is read back as it was written

    What [dump_strW] prints, [parse_strW] reads back; the numbers and the bytes of a
    value are read back too. *)

From stdpp Require Import base list.
From S2P Require Import Prelude RegText.

Open Scope Z_scope.

(** ** Digits *)

Lemma digits_value_app base ds d : digits_value base (ds ++ [d]) = digits_value base ds * base + d.
Proof. unfold digits_value. by rewrite fold_left_app. Qed.

Lemma digits_spec base n : ∀ fuel, 1 < base → 0 <= n < base ^ Z.of_nat fuel → (0 < fuel)%nat →
  digits_value base (digits fuel base n) = n ∧ Forall (λ d, 0 <= d < base) (digits fuel base n) ∧ digits fuel base n ≠ [].
Proof.
  intros fuel Hb. revert n. induction fuel as [|fuel IH]; intros n Hn Hf; [lia|]. cbn [digits]. destruct (Z.ltb_spec n base).
  - split_and!; [unfold digits_value; simpl; lia|constructor; [lia|done]|done].
  - destruct fuel as [|fuel]; [simpl in Hn; lia|]. rewrite Nat2Z.inj_succ, Z.pow_succ_r in Hn by lia.
    destruct (IH (n / base)) as (A & B & C); [split; [apply Z.div_pos; lia|apply Z.div_lt_upper_bound; lia]|lia|].
    split_and!.
    + rewrite digits_value_app, A. pose proof (Z.div_mod n base). lia.
    + apply Forall_app. split; [done|]. constructor; [apply Z.mod_pos_bound; lia|done].
    + by destruct (digits (S fuel) base (n / base)).
Qed.

Lemma digits_length base n k : ∀ fuel, 1 < base → 0 <= n < base ^ Z.of_nat k → (0 < k)%nat → (length (digits fuel base n) <= k)%nat.
Proof.
  intros fuel Hb. revert n k. induction fuel as [|fuel IH]; intros n k Hn Hk; cbn [digits length]; [lia|].
  destruct (Z.ltb_spec n base); cbn [length]; [lia|]. rewrite length_app. simpl. destruct k as [|[|k]]; [lia|simpl in Hn; lia|].
  rewrite Nat2Z.inj_succ, Z.pow_succ_r in Hn by lia.
  assert (length (digits fuel base (n / base)) <= S k)%nat; [|lia]. apply IH; [|lia].
  split; [apply Z.div_pos; lia|apply Z.div_lt_upper_bound; lia].
Qed.

Lemma digits_value_zeros base k ds : digits_value base (replicate k 0 ++ ds) = digits_value base ds.
Proof. induction k as [|k IH]; [done|]. rewrite <-IH. done. Qed.

(** A number in hexadecimal. *)
Definition hexes (n : Z) (l : list Z) : Prop := ∃ ds, l = hex_char <$> ds ∧ ds ≠ [] ∧ Forall (λ d, 0 <= d < 16) ds ∧ digits_value 16 ds = n.

Lemma fmt_x_hexes n : 0 <= n < 16 ^ 16 → hexes n (fmt_x n).
Proof. intros Hn. destruct (digits_spec 16 n 16) as (A & B & C); [lia..|]. by exists (digits 16 16 n). Qed.

Lemma zero_pad_hexes w n l : hexes n l → hexes n (zero_pad w l).
Proof.
  intros (ds & -> & Hne & Hd & Hv). exists (replicate (w - length (hex_char <$> ds)) 0 ++ ds). unfold zero_pad. split_and!.
  - by rewrite fmap_app, fmap_replicate.
  - by destruct ds, (w - _)%nat.
  - apply Forall_app. split; [|done]. by apply Forall_replicate.
  - by rewrite digits_value_zeros.
Qed.

(** A property of the numbers below a bound, checked one by one. *)
Lemma below (n : nat) (P : Z → Prop) : Forall (λ k, P (Z.of_nat k)) (seq 0 n) → ∀ d, 0 <= d < Z.of_nat n → P d.
Proof.
  intros H d Hd. rewrite Forall_forall in H. specialize (H (Z.to_nat d)). rewrite Z2Nat.id in H by lia. apply H, elem_of_seq. lia.
Qed.

Lemma hex_char_spec d : 0 <= d < 16 → isxdigit (hex_char d) = true ∧ to_hex (hex_char d) = d ∧ 48 <= hex_char d <= 102 ∧ isspace (hex_char d) = false.
Proof.
  revert d. apply (below 16). repeat (constructor; [vm_compute; repeat split; discriminate|]). constructor.
Qed.

(** ** Escapes *)

Definition wide (c : Z) : Prop := 0 <= c < 65536.

Lemma digits_value_bound base ds : 1 < base → Forall (λ d, 0 <= d < base) ds → 0 <= digits_value base ds < base ^ Z.of_nat (length ds).
Proof.
  intros Hb. induction ds as [|d ds IH] using rev_ind; intros Hd; [done|]. apply Forall_app in Hd as [Hd [Hd1 _]%Forall_cons].
  rewrite digits_value_app, length_app, Nat.add_1_r, Nat2Z.inj_succ, Z.pow_succ_r by lia. specialize (IH Hd). nia.
Qed.

Lemma digits_value_cons_acc base acc ds : fold_left (λ a d, a * base + d) ds acc = acc * base ^ Z.of_nat (length ds) + digits_value base ds.
Proof.
  unfold digits_value. revert acc. induction ds as [|d ds IH]; intros acc; [simpl; lia|]. cbn [fold_left length].
  rewrite IH, (IH (0 * base + d)), Nat2Z.inj_succ, Z.pow_succ_r by lia. lia.
Qed.

Lemma hex_digits_run n : ∀ ds acc p, Forall (λ d, 0 <= d < 16) ds → (length ds <= n)%nat →
  ((length ds < n)%nat → isxdigit (char_at p) = false) → 0 <= acc → acc * 16 ^ Z.of_nat (length ds) + digits_value 16 ds < 65536 →
  hex_digits n acc ((hex_char <$> ds) ++ p) = (acc * 16 ^ Z.of_nat (length ds) + digits_value 16 ds, p).
Proof.
  induction n as [|n IH]; intros ds acc p Hd Hn Hp Hacc Hb.
  - destruct ds; [|simpl in Hn; lia]. simpl. unfold digits_value. simpl. f_equal. lia.
  - destruct ds as [|d ds].
    + unfold digits_value. simpl. rewrite Z.mul_1_r, Z.add_0_r. destruct p as [|c p]; [done|]. simpl in Hp. by rewrite Hp by lia.
    + apply Forall_cons in Hd as [Hd Hds]. cbn [fmap list_fmap app hex_digits length]. destruct (hex_char_spec d Hd) as (-> & -> & _).
      change ((hex_char <$> ds) ++ p) with ((hex_char <$> ds) ++ p).
      assert (acc * 16 ^ Z.of_nat (length (d :: ds)) + digits_value 16 (d :: ds) = (acc * 16 + d) * 16 ^ Z.of_nat (length ds) + digits_value 16 ds) as E.
      { unfold digits_value at 1. cbn [fold_left length]. rewrite digits_value_cons_acc, Nat2Z.inj_succ, Z.pow_succ_r by lia. lia. }
      cbn [length] in *. rewrite E in Hb. pose proof (digits_value_bound 16 ds ltac:(lia) Hds). pose proof (Z.pow_pos_nonneg 16 (Z.of_nat (length ds))).
      assert (w16 (acc * 16 + d) = acc * 16 + d) as -> by (unfold w16; apply Z.mod_small; nia).
      rewrite E. apply IH; try done; [lia| |lia]. intros ?. apply Hp. lia.
Qed.

Lemma octal_digits_run n : ∀ ds acc p, Forall (λ d, 0 <= d < 8) ds → (length ds <= n)%nat →
  ((length ds < n)%nat → isoctal (char_at p) = false) → 0 <= acc → acc * 8 ^ Z.of_nat (length ds) + digits_value 8 ds < 65536 →
  octal_digits n acc (((λ d, 48 + d) <$> ds) ++ p) = (acc * 8 ^ Z.of_nat (length ds) + digits_value 8 ds, p).
Proof.
  induction n as [|n IH]; intros ds acc p Hd Hn Hp Hacc Hb.
  - destruct ds; [|simpl in Hn; lia]. simpl. unfold digits_value. simpl. f_equal. lia.
  - destruct ds as [|d ds].
    + unfold digits_value. simpl. rewrite Z.mul_1_r, Z.add_0_r. destruct p as [|c p]; [done|]. simpl in Hp. by rewrite Hp by lia.
    + apply Forall_cons in Hd as [Hd Hds]. cbn [fmap list_fmap app octal_digits length].
      assert (isoctal (48 + d) = true) as -> by (unfold isoctal; rewrite andb_true_iff; lia).
      assert (acc * 8 ^ Z.of_nat (length (d :: ds)) + digits_value 8 (d :: ds) = (acc * 8 + d) * 8 ^ Z.of_nat (length ds) + digits_value 8 ds) as E.
      { unfold digits_value at 1. cbn [fold_left length]. rewrite digits_value_cons_acc, Nat2Z.inj_succ, Z.pow_succ_r by lia. lia. }
      cbn [length] in *. rewrite E in Hb. pose proof (digits_value_bound 8 ds ltac:(lia) Hds). pose proof (Z.pow_pos_nonneg 8 (Z.of_nat (length ds))).
      assert (w16 (acc * 8 + (48 + d - 48)) = acc * 8 + d) as -> by (unfold w16; rewrite Z.mod_small; nia).
      rewrite E. apply IH; try done; [lia| |lia]. intros ?. apply Hp. lia.
Qed.

(** The text [p] of the characters [next], or of what follows the string. *)
Definition follows (next p : list Z) : Prop :=
  match next with
  | [] => isxdigit (char_at p) = false
  | d :: _ => char_at p = BACKSLASH ∨ char_at p = d ∧ d < 128
  end.

(** A character that is its own escape. *)
Definition escapable (e : Z) : Prop := 32 <= e < 128 ∧ c_escape e = None ∧ e ≠ 120 ∧ isoctal e = false.

Lemma octal_hex c : isxdigit c = false → isoctal c = false.
Proof. unfold isxdigit, isoctal, isdigit. rewrite !orb_false_iff, !andb_false_iff. lia. Qed.

Lemma follows_hex next p : follows next p → match next with d :: _ => (d <? 128) && isxdigit d | [] => false end = false → isxdigit (char_at p) = false.
Proof.
  destruct next as [|d next]; [done|]. intros [->| [-> Hd]] H; [done|]. by rewrite (proj2 (Z.ltb_lt _ _)) in H by lia.
Qed.
Lemma follows_octal next p : follows next p → match next with d :: _ => isoctal d | [] => false end = false → isoctal (char_at p) = false.
Proof. destruct next as [|d next]; [intros; by apply octal_hex|]. by intros [->| [-> Hd]]. Qed.

Lemma parse_hex_escape room c l p : hexes c l → (length l <= 4)%nat → wide c → ((length l < 4)%nat → isxdigit (char_at p) = false) →
  parse_char room (BACKSLASH :: 120 :: l ++ p) = ([c], p).
Proof.
  intros (ds & -> & Hne & Hd & Hv) Hl Hc Hp. destruct ds as [|d ds]; [done|]. apply Forall_cons in Hd as [Hd Hds].
  cbn [parse_char fmap list_fmap app]. change (BACKSLASH =? BACKSLASH) with true. change (c_escape 120) with (@None Z). change (120 =? 120) with true.
  cbn iota. destruct (hex_char_spec d Hd) as (-> & -> & _). assert (d * 16 ^ Z.of_nat (length ds) + digits_value 16 ds = c) as E.
  { rewrite <-Hv. unfold digits_value at 2. cbn [fold_left]. rewrite digits_value_cons_acc. lia. }
  cbn [length fmap list_fmap] in *. rewrite length_fmap in *.
  rewrite (hex_digits_run 3 ds d p); try done; [by rewrite E|lia| |lia|unfold wide in Hc; lia]. intros ?. apply Hp. lia.
Qed.

Lemma parse_octal_escape room c ds p : ds ≠ [] → Forall (λ d, 0 <= d < 8) ds → digits_value 8 ds = c → (length ds <= 3)%nat →
  ((length ds < 3)%nat → isoctal (char_at p) = false) → parse_char room (BACKSLASH :: ((λ d, 48 + d) <$> ds) ++ p) = ([c], p).
Proof.
  intros Hne Hd Hv Hl Hp. destruct ds as [|d ds]; [done|]. pose proof (digits_value_bound 8 (d :: ds) ltac:(lia) Hd) as Hb. rewrite Hv in Hb.
  apply Forall_cons in Hd as [Hd Hds].
  cbn [parse_char fmap list_fmap app]. change (BACKSLASH =? BACKSLASH) with true. cbn iota.
  assert (c_escape (48 + d) = None ∧ (48 + d =? 120) = false ∧ isoctal (48 + d) = true) as (-> & -> & ->).
  { clear -Hd. revert d Hd. apply (below 8). repeat (constructor; [vm_compute; repeat split|]). constructor. }
  assert (d * 8 ^ Z.of_nat (length ds) + digits_value 8 ds = c) as E.
  { rewrite <-Hv. unfold digits_value at 2. cbn [fold_left]. rewrite digits_value_cons_acc. lia. }
  cbn [length] in *. replace (48 + d - 48) with d by lia.
  rewrite (octal_digits_run 2 ds d p); try done; [by rewrite E|lia| |lia|].
  - intros ?. apply Hp. lia.
  - rewrite E. assert (8 ^ Z.of_nat (S (length ds)) <= 8 ^ 3) by (apply Z.pow_le_mono_r; lia). lia.
Qed.

Lemma dump_escape_spec c l : dump_escape c = Some l → c_escape l = Some c.
Proof.
  unfold dump_escape. repeat match goal with |- context [c =? ?k] => destruct (Z.eqb_spec c k) as [->|_]; [by intros [= <-]|] end. done.
Qed.

(** One character is read back. *)
Lemma parse_dump_char room e1 e2 c next p : wide c → escapable e1 → escapable e2 → follows next p →
  parse_char room (dump_char e1 e2 c next ++ p) = ([c], p).
Proof.
  intros Hc He1 He2 Hf. unfold wide in Hc. unfold dump_char. destruct (Z.ltb_spec 127 c).
  - set (h := match next with d :: _ => _ | [] => _ end). assert (hexes c (fmt_x c)) as Hh by (apply fmt_x_hexes; lia).
    assert (length (fmt_x c) <= 4)%nat as Hl by (unfold fmt_x; rewrite length_fmap; apply digits_length; lia).
    destruct h eqn:Eh.
    + change ((BACKSLASH :: 120 :: zero_pad 4 (fmt_x c)) ++ p) with (BACKSLASH :: 120 :: zero_pad 4 (fmt_x c) ++ p).
      assert (length (zero_pad 4 (fmt_x c)) = 4)%nat as Hz by (unfold zero_pad; rewrite length_app, length_replicate; lia).
      apply parse_hex_escape; [by apply zero_pad_hexes|lia|done|lia].
    + apply (parse_hex_escape room c (fmt_x c) p); try done. intros _. by apply (follows_hex next).
  - destruct (Z.ltb_spec c 32).
    + destruct (dump_escape c) as [l|] eqn:Ee.
      * cbn [parse_char app]. change (BACKSLASH =? BACKSLASH) with true. cbn iota. by rewrite (dump_escape_spec c l Ee).
      * destruct (digits_spec 8 c 22) as (A & B & C); [lia..|]. pose proof (digits_length 8 c 2 22 ltac:(lia) ltac:(lia) ltac:(lia)) as Hl.
        destruct (match next with d :: _ => _ | [] => _ end) eqn:Eo.
        -- assert (zero_pad 3 (fmt_o c) = (λ d, 48 + d) <$> (replicate (3 - length (digits 22 8 c)) 0 ++ digits 22 8 c)) as ->.
           { unfold zero_pad, fmt_o. by rewrite length_fmap, fmap_app, fmap_replicate. }
           apply (parse_octal_escape room c (replicate (3 - length (digits 22 8 c)) 0 ++ digits 22 8 c) p).
           ++ by destruct (digits 22 8 c), (3 - _)%nat.
           ++ apply Forall_app. split; [by apply Forall_replicate|done].
           ++ by rewrite digits_value_zeros.
           ++ rewrite length_app, length_replicate. lia.
           ++ rewrite length_app, length_replicate. lia.
        -- apply (parse_octal_escape room c (digits 22 8 c) p); try done; [lia|]. intros _. by apply (follows_octal next).
    + destruct ((c =? BACKSLASH) || (c =? e1) || (c =? e2)) eqn:Ee; cbn [app parse_char].
      * change (BACKSLASH =? BACKSLASH) with true. cbn iota.
        assert (c_escape c = None ∧ (c =? 120) = false ∧ isoctal c = false) as (-> & -> & ->).
        { rewrite !orb_true_iff, !Z.eqb_eq in Ee. destruct He1 as (_ & ? & ? & ?), He2 as (_ & ? & ? & ?).
          destruct Ee as [[->| ->]| ->]; split_and!; try done; by apply Z.eqb_neq. }
        unfold parse_plain. by rewrite (proj2 (Z.ltb_lt _ _)) by lia.
      * rewrite !orb_false_iff in Ee. destruct Ee as [[-> _] _]. unfold parse_plain. by rewrite (proj2 (Z.ltb_lt _ _)) by lia.
Qed.

Lemma dump_char_head e1 e2 c next p : wide c → follows [c] (dump_char e1 e2 c next ++ p) ∧
  dump_char e1 e2 c next ≠ [] ∧ (c = e1 ∨ c = e2 → char_at (dump_char e1 e2 c next ++ p) = BACKSLASH).
Proof.
  intros Hc. unfold dump_char. destruct (Z.ltb_spec 127 c); [split_and!; [by left|done|done]|]. destruct (Z.ltb_spec c 32).
  - destruct (dump_escape c); split_and!; try done; by left.
  - destruct ((c =? BACKSLASH) || (c =? e1) || (c =? e2)) eqn:Ee; split_and!; try done; [by left|right; simpl; lia|].
    rewrite !orb_false_iff, !Z.eqb_neq in Ee. tauto.
Qed.

Lemma dump_strW_follows e1 e2 str p : Forall wide str → isxdigit (char_at p) = false → follows str (dump_strW str e1 e2 ++ p).
Proof.
  destruct str as [|c str]; [done|]. intros [Hc _]%Forall_cons Hp. cbn [dump_strW]. rewrite <-app_assoc. by apply dump_char_head.
Qed.

Lemma parse_dump_loop e1 e2 endchar rest str : ∀ n room, Forall wide str → escapable e1 → escapable e2 → endchar = e1 ∨ endchar = e2 →
  endchar ≠ BACKSLASH → isxdigit endchar = false → Z.of_nat (length str) < room → (length (dump_strW str e1 e2) < n)%nat →
  parse_loop n room endchar (dump_strW str e1 e2 ++ endchar :: rest) = (str, endchar :: rest).
Proof.
  induction str as [|c str IH]; intros n room Hw He1 He2 Hend Hbs Hx Hroom Hn; destruct n as [|n]; try lia.
  - simpl. by rewrite Z.eqb_refl.
  - apply Forall_cons in Hw as [Hc Hw]. cbn [dump_strW length] in *. rewrite <-app_assoc. rewrite length_app in Hn.
    set (q := dump_strW str e1 e2 ++ endchar :: rest). destruct (dump_char_head e1 e2 c str q Hc) as (Hfc & Hne & Hesc).
    destruct (dump_char e1 e2 c str ++ q) as [|d l] eqn:El; [by destruct (dump_char e1 e2 c str)|].
    cbn [parse_loop]. assert (((d =? endchar) || (room <=? 0)) = false) as ->.
    { apply orb_false_iff. split; [|lia]. apply Z.eqb_neq. intros ->. simpl in Hfc, Hesc. destruct Hfc as [?|[? _]]; [done|].
      subst. apply Hbs. apply Hesc. naive_solver. }
    rewrite <-El, (parse_dump_char room e1 e2 c str q Hc He1 He2) by (by apply dump_strW_follows).
    cbn [length]. unfold q. rewrite IH; try done; [lia|]. destruct (dump_char e1 e2 c str); [done|]. simpl in Hn. lia.
Qed.

(** What is printed is read back, whatever follows the closing character. *)
Lemma parse_dump_strW e1 e2 endchar rest str cap : Forall wide str → escapable e1 → escapable e2 → endchar = e1 ∨ endchar = e2 →
  endchar ≠ BACKSLASH → isxdigit endchar = false → Z.of_nat (length str) < cap →
  parse_strW cap (dump_strW str e1 e2 ++ endchar :: rest) endchar = Some (str ++ [0], Z.of_nat (length (dump_strW str e1 e2)) + 1).
Proof.
  intros. unfold parse_strW. rewrite parse_dump_loop; try done; [|rewrite length_app; simpl; lia].
  rewrite (proj2 (Z.leb_gt _ _)) by lia. do 2 f_equal. rewrite length_app. simpl. lia.
Qed.
