(* ===== verification/Registry.v ===== *)
(** * The registry (server/registry.c)

    Keys live in a store, [keys]; a key has an array of values and an array of
    subkeys, both sorted by name without regard to case and searched by bisection.
    A cell of an array that was allocated and never written is [None].

    Names are lists of 16-bit characters.  The case map is a table the server loads
    from a file; it appears as [to_lower], a parameter of the model.  The name of a
    key, with the key it is in, goes when the key is deleted.  References to keys
    are not counted here: a deleted key stays in the store. *)

From stdpp Require Import base list gmap fin_maps.
From S2P Require Import Prelude RegText.

Open Scope Z_scope.
Open Scope server_scope.

Notation kid := positive (only parsing).

Definition KEY_VOLATILE : Z := 0x1.
Definition KEY_DELETED : Z := 0x2.
Definition KEY_DIRTY : Z := 0x4.
Definition KEY_SYMLINK : Z := 0x8.
Definition KEY_WOWSHARE : Z := 0x10.
Definition KEY_PREDEF : Z := 0x20.

Definition REG_OPTION_VOLATILE : Z := 0x1.
Definition REG_OPTION_CREATE_LINK : Z := 0x2.

Definition OBJ_CASE_INSENSITIVE : Z := 0x40.
Definition OBJ_OPENIF : Z := 0x80.
Definition OBJ_OPENLINK : Z := 0x100.
Definition OBJ_KEY_WOW64 : Z := 0x100000.

Definition MIN_SUBKEYS : Z := 8.
Definition MIN_VALUES : Z := 8.
Definition MAX_NAME_LEN : Z := 256.
Definition MAX_VALUE_LEN : Z := 16383.

Definition REG_NOTIFY_CHANGE_NAME : Z := 1.
Definition REG_NOTIFY_CHANGE_LAST_SET : Z := 4.

Definition REG_INVALID_HANDLE : Z := 0xC0000008.
Definition REG_INVALID_PARAMETER : Z := 0xC000000D.
Definition REG_NO_MEMORY : Z := 0xC0000017.
Definition REG_ACCESS_DENIED : Z := 0xC0000022.
Definition REG_NAME_NOT_FOUND : Z := 0xC0000034.
Definition REG_NAME_TOO_LONG : Z := 0xC0000106.
Definition REG_CANNOT_DELETE : Z := 0xC0000121.
Definition REG_CHILD_MUST_BE_VOLATILE : Z := 0xC0000181.
Definition REG_KEY_DELETED : Z := 0xC000017C.
Definition REG_NAME_COLLISION : Z := 0xC0000035.
Definition REG_NAME_EXISTS : Z := 0x40000000.
Definition REG_PATH_SYNTAX_BAD : Z := 0xC000003B.
Definition REG_NOT_REGISTRY_FILE : Z := 0xC000015C.
Definition REG_NO_MORE_ENTRIES : Z := 0x8000001A.

(** ** Data *)

Record notify := Notify {
  n_events : list Z;
  n_subtree : bool;
  n_filter : Z;
  n_hkey : Z;
  n_process : Z;
}.

(** [obj.name]: the name and the parent; [None] once the key is unlinked. *)
Record key := Key {
  k_name : option (list Z * option kid);
  k_class : option (list Z);
  k_last_subkey : Z;
  k_nb_subkeys : Z;
  k_subkeys : list (option kid);
  k_wow6432node : option kid;
  k_last_value : Z;
  k_nb_values : Z;
  k_values : list (option key_value);
  k_flags : Z;
  k_modif : Z;
  k_notify : list notify;
}.

(** [struct file_load_info]: the text not read yet, the current line without its end,
    the sizes of the two buffers and the line number. *)
Record file_load_info := LoadInfo {
  li_file : list Z;
  li_buffer : list Z;
  li_len : Z;
  li_tmplen : Z;
  li_line : Z;
}.

(** [rg_allocs] has the results of the next allocations, an exhausted list being
    success; [rg_junk] is what memory holds that was never written; [rg_signaled]
    the events set by notifications, newest first.  [root_key] and [prefix_type] are
    the globals of these names. *)
Record reg := Reg {
  keys : gmap kid key;
  rg_time : Z;
  rg_error : Z;
  rg_allocs : list bool;
  rg_junk : Z;
  rg_signaled : list Z;
  rg_info : file_load_info;
  root_key : kid;
  prefix_type : Z;
}.

Notation R := (ST reg).

Definition set_keys (f : gmap kid key → gmap kid key) (s : reg) : reg :=
  Reg (f (keys s)) (rg_time s) (rg_error s) (rg_allocs s) (rg_junk s) (rg_signaled s) (rg_info s) (root_key s) (prefix_type s).
Definition set_rg_error (e : Z) (s : reg) : reg :=
  Reg (keys s) (rg_time s) e (rg_allocs s) (rg_junk s) (rg_signaled s) (rg_info s) (root_key s) (prefix_type s).
Definition set_rg_allocs (l : list bool) (s : reg) : reg :=
  Reg (keys s) (rg_time s) (rg_error s) l (rg_junk s) (rg_signaled s) (rg_info s) (root_key s) (prefix_type s).
Definition set_signaled (f : list Z → list Z) (s : reg) : reg :=
  Reg (keys s) (rg_time s) (rg_error s) (rg_allocs s) (rg_junk s) (f (rg_signaled s)) (rg_info s) (root_key s) (prefix_type s).
Definition set_info (i : file_load_info) (s : reg) : reg :=
  Reg (keys s) (rg_time s) (rg_error s) (rg_allocs s) (rg_junk s) (rg_signaled s) i (root_key s) (prefix_type s).

Definition set_prefix_type (t : Z) (s : reg) : reg :=
  Reg (keys s) (rg_time s) (rg_error s) (rg_allocs s) (rg_junk s) (rg_signaled s) (rg_info s) (root_key s) t.

Definition k_set_values (last nb : Z) (l : list (option key_value)) (k : key) : key :=
  Key (k_name k) (k_class k) (k_last_subkey k) (k_nb_subkeys k) (k_subkeys k) (k_wow6432node k)
    last nb l (k_flags k) (k_modif k) (k_notify k).
Definition k_set_subkeys (last nb : Z) (l : list (option kid)) (k : key) : key :=
  Key (k_name k) (k_class k) last nb l (k_wow6432node k)
    (k_last_value k) (k_nb_values k) (k_values k) (k_flags k) (k_modif k) (k_notify k).
Definition k_set_name (n : option (list Z * option kid)) (k : key) : key :=
  Key n (k_class k) (k_last_subkey k) (k_nb_subkeys k) (k_subkeys k) (k_wow6432node k)
    (k_last_value k) (k_nb_values k) (k_values k) (k_flags k) (k_modif k) (k_notify k).
Definition k_set_class (c : option (list Z)) (k : key) : key :=
  Key (k_name k) c (k_last_subkey k) (k_nb_subkeys k) (k_subkeys k) (k_wow6432node k)
    (k_last_value k) (k_nb_values k) (k_values k) (k_flags k) (k_modif k) (k_notify k).
Definition k_set_wow (w : option kid) (k : key) : key :=
  Key (k_name k) (k_class k) (k_last_subkey k) (k_nb_subkeys k) (k_subkeys k) w
    (k_last_value k) (k_nb_values k) (k_values k) (k_flags k) (k_modif k) (k_notify k).
Definition k_set_flags (f : Z) (k : key) : key :=
  Key (k_name k) (k_class k) (k_last_subkey k) (k_nb_subkeys k) (k_subkeys k) (k_wow6432node k)
    (k_last_value k) (k_nb_values k) (k_values k) f (k_modif k) (k_notify k).
Definition k_set_modif (m : Z) (k : key) : key :=
  Key (k_name k) (k_class k) (k_last_subkey k) (k_nb_subkeys k) (k_subkeys k) (k_wow6432node k)
    (k_last_value k) (k_nb_values k) (k_values k) (k_flags k) m (k_notify k).
Definition k_set_notify (l : list notify) (k : key) : key :=
  Key (k_name k) (k_class k) (k_last_subkey k) (k_nb_subkeys k) (k_subkeys k) (k_wow6432node k)
    (k_last_value k) (k_nb_values k) (k_values k) (k_flags k) (k_modif k) l.

(** ** State *)

Definition get_key (k : kid) : R key := s <- get; deref (keys s !! k).
Definition put_key (k : kid) (ob : key) : R unit := modify (set_keys (<[k:=ob]>)).
Definition reg_error (e : Z) : R unit := modify (set_rg_error e).

(** [malloc] and [realloc]; [mem_alloc] and [memdup], which report a failure. *)
Definition reg_malloc : R bool :=
  s <- get;
  match rg_allocs s with
  | [] => ret true
  | b :: l => modify (set_rg_allocs l) ;; ret b
  end.
Definition reg_mem_alloc : R bool :=
  ok <- reg_malloc; if ok : bool then ret true else reg_error REG_NO_MEMORY ;; ret false.

(** A cell of an array, read. *)
Definition cell {A} (o : option A) : R A := match o with Some a => ret a | None => fail Uninitialized end.
Definition read_cell {A} (l : list (option A)) (i : Z) : R A := c <- arr_get l i; cell c.

Definition name_of (ob : key) : R (list Z) := n <- deref (k_name ob); ret (fst n).
Definition get_parent (k : kid) : R (option kid) := ob <- get_key k; n <- deref (k_name ob); ret (snd n).

(** ** Notifications and modification *)

(** [do_notification] without deleting it: the events are set and dropped. *)
Definition do_notification (n : notify) : R notify :=
  modify (set_signaled (app (rev (n_events n)))) ;;
  ret (Notify [] (n_subtree n) (n_filter n) (n_hkey n) (n_process n)).

Fixpoint check_notify_loop (l : list notify) (change : Z) (not_subtree : bool) : R (list notify) :=
  match l with
  | [] => ret []
  | n :: l =>
      n <- (if (not_subtree || n_subtree n) && has change (n_filter n) then do_notification n else ret n);
      l <- check_notify_loop l change not_subtree;
      ret (n :: l)
  end.
Definition check_notify (k : kid) (change : Z) (not_subtree : bool) : R unit :=
  ob <- get_key k;
  l <- check_notify_loop (k_notify ob) change not_subtree;
  ob <- get_key k;
  put_key k (k_set_notify l ob).

(** [n] bounds the length of the chain of parents. *)
Fixpoint make_dirty (n : nat) (k : option kid) : R unit :=
  match k with
  | None => ret tt
  | Some k =>
      match n with
      | O => fail OutOfFuel
      | S n =>
          ob <- get_key k;
          if has (k_flags ob) (Z.lor KEY_DIRTY KEY_VOLATILE) then ret tt
          else
            put_key k (k_set_flags (Z.lor (k_flags ob) KEY_DIRTY) ob) ;;
            p <- get_parent k;
            make_dirty n p
      end
  end.

Fixpoint notify_parents (n : nat) (k : option kid) (change : Z) : R unit :=
  match k with
  | None => ret tt
  | Some k =>
      match n with
      | O => fail OutOfFuel
      | S n => check_notify k change false ;; p <- get_parent k; notify_parents n p change
      end
  end.

Definition touch_key (k : kid) (change : Z) : R unit :=
  s <- get;
  ob <- get_key k;
  put_key k (k_set_modif (rg_time s) ob) ;;
  make_dirty (size (keys s)) (Some k) ;;
  check_notify k change true ;;
  p <- get_parent k;
  notify_parents (size (keys s)) p change.

(** [make_clean]; [n] bounds the depth of the tree. *)
Fixpoint make_clean (n : nat) (k : kid) : R unit :=
  match n with
  | O => fail OutOfFuel
  | S n =>
      ob <- get_key k;
      if has (k_flags ob) KEY_VOLATILE then ret tt
      else if negb (has (k_flags ob) KEY_DIRTY) then ret tt
      else
        put_key k (k_set_flags (Z.land (k_flags ob) (not32 KEY_DIRTY)) ob) ;;
        (fix loop (l : list (option kid)) : R unit :=
           match l with
           | [] => ret tt
           | c :: l => sub <- cell c; make_clean n sub ;; loop l
           end) (take (Z.to_nat (k_last_subkey ob + 1)) (k_subkeys ob))
  end.

Section names.
Context (to_lower : Z → Z).

(** ** Comparing names *)

(** [memicmp_strW] on the first [n] characters, which both strings have. *)
Fixpoint memicmp_strW (s1 s2 : list Z) (n : nat) : Z :=
  match n, s1, s2 with
  | S n, a :: s1, b :: s2 =>
      let r := to_lower a - to_lower b in if negb (r =? 0) then r else memicmp_strW s1 s2 n
  | _, _, _ => 0
  end.

(** The result of the comparison of an entry of an array with a name; the lengths
    are in bytes, and their difference is an [int]. *)
Definition compare_names (entry name : list Z) : Z :=
  let res := memicmp_strW entry name (Nat.min (length entry) (length name)) in
  if negb (res =? 0) then res else int32 (2 * Z.of_nat (length entry) - 2 * Z.of_nat (length name)).

(** The bisection of [find_subkey] and [find_value]: whether the name was found, and
    the index of it or of the place for it.  [n] bounds the rounds. *)
Fixpoint bisect (n : nat) (entry_name : Z → R (list Z)) (name : list Z) (min max : Z) : R (bool * Z) :=
  if max <? min then ret (false, min)
  else
    match n with
    | O => fail OutOfFuel
    | S n =>
        let i := (min + max) / 2 in
        e <- entry_name i;
        let res := compare_names e name in
        if res =? 0 then ret (true, i)
        else if 0 <? res then bisect n entry_name name min (i - 1)
        else bisect n entry_name name (i + 1) max
    end.

(** ** Values *)

Definition find_value (ob : key) (name : list Z) : R (bool * Z) :=
  bisect (length (k_values ob)) (λ i, v <- read_cell (k_values ob) i; ret (v_name v)) name 0 (k_last_value ob).

Definition grow_values (k : kid) : R bool :=
  ob <- get_key k;
  r <- (if negb (k_nb_values ob =? 0) then
          ok <- reg_malloc;
          if negb ok then reg_error REG_NO_MEMORY ;; ret None
          else ret (Some (k_nb_values ob + k_nb_values ob / 2))
        else ok <- reg_mem_alloc; ret (if ok : bool then Some MIN_VALUES else None));
  match r with
  | None => ret false
  | Some nb =>
      put_key k (k_set_values (k_last_value ob) nb
        (k_values ob ++ replicate (Z.to_nat nb - length (k_values ob)) None) ob) ;;
      ret true
  end.

(** [for (i = last; i > index; i--) a[i] = a[i - 1]] with [n = last - index] rounds. *)
Fixpoint shift_up {A} (n : nat) (a : list A) (i : Z) : R (list A) :=
  match n with
  | O => ret a
  | S n => x <- arr_get a (i - 1); a <- arr_set a i x; shift_up n a (i - 1)
  end.

(** [for (i = index; i < last; i++) a[i] = a[i + 1]] with [n = last - index] rounds. *)
Fixpoint shift_down {A} (n : nat) (a : list A) (i : Z) : R (list A) :=
  match n with
  | O => ret a
  | S n => x <- arr_get a (i + 1); a <- arr_set a i x; shift_down n a (i + 1)
  end.

(** Entering a value at its place in an array with room for it.  The type is not
    written: it is that of the value that was in the cell, or whatever the memory
    held. *)
Definition place_value (k : kid) (name : list Z) (index : Z) : R unit :=
  ob <- get_key k;
  let last := k_last_value ob + 1 in
  a <- shift_up (Z.to_nat (last - index)) (k_values ob) last;
  s <- get;
  old <- arr_get a index;
  a <- arr_set a index (Some (KeyValue name (match old with Some v => v_type v | None => rg_junk s end) []));
  put_key k (k_set_values last (k_nb_values ob) a ob).

Definition insert_value (k : kid) (name : list Z) (index : Z) : R (option Z) :=
  if MAX_VALUE_LEN <? Z.of_nat (length name) then reg_error REG_NAME_TOO_LONG ;; ret None
  else
    ob <- get_key k;
    ok <- (if k_last_value ob + 1 =? k_nb_values ob then grow_values k else ret true);
    if negb ok then ret None
    else
      ok <- match name with [] => ret true | _ => reg_mem_alloc end;
      if negb ok then ret None
      else place_value k name index ;; ret (Some index).

(** Writing the type and the data of a value. *)
Definition store_value (k : kid) (index type : Z) (data : list Z) : R unit :=
  ob <- get_key k;
  v <- read_cell (k_values ob) index;
  a <- arr_set (k_values ob) index (Some (KeyValue (v_name v) type data));
  put_key k (k_set_values (k_last_value ob) (k_nb_values ob) a ob).

(** "SymbolicLinkValue". *)
Definition symlink_str : list Z := [83; 121; 109; 98; 111; 108; 105; 99; 76; 105; 110; 107; 86; 97; 108; 117; 101].

Definition set_value (k : kid) (name : list Z) (type : Z) (data : list Z) : R unit :=
  ob <- get_key k;
  if has (k_flags ob) KEY_PREDEF then reg_error REG_INVALID_HANDLE
  else
    r <- find_value ob name;
    let '(found, index) := r in
    same <- (if found then
               v <- read_cell (k_values ob) index;
               ret ((v_type v =? type) && (length (v_data v) =? length data)%nat &&
                    negb (bool_decide (v_data v = [])) && bool_decide (v_data v = data))
             else ret false);
    if same : bool then ret tt
    else if has (k_flags ob) KEY_SYMLINK &&
            (negb (type =? REG_LINK) || negb (length name =? length symlink_str)%nat ||
             negb (memicmp_strW name symlink_str (length name) =? 0))
    then reg_error REG_ACCESS_DENIED
    else
      ok <- match data with [] => ret true | _ => reg_mem_alloc end;
      if negb ok then ret tt
      else
        place <- (if found then ret (Some index) else insert_value k name index);
        match place with
        | None => ret tt
        | Some index => store_value k index type data ;; touch_key k REG_NOTIFY_CHANGE_LAST_SET
        end.

(** The type and the data, of which the reply holds a prefix. *)
Definition get_value (k : kid) (name : list Z) : R (option (Z * list Z)) :=
  ob <- get_key k;
  if has (k_flags ob) KEY_PREDEF then reg_error REG_INVALID_HANDLE ;; ret None
  else
    r <- find_value ob name;
    let '(found, index) := r in
    if found : bool then v <- read_cell (k_values ob) index; ret (Some (v_type v, v_data v))
    else reg_error REG_NAME_NOT_FOUND ;; ret None.

(** The array is shrunk by a third when it is less than half full. *)
Definition shrink_count (last nb min : Z) : option Z :=
  if (min <? nb) && (last <? nb / 2) then Some (Z.max (nb - nb / 3) min) else None.

Definition delete_value (k : kid) (name : list Z) : R unit :=
  ob <- get_key k;
  if has (k_flags ob) KEY_PREDEF then reg_error REG_INVALID_HANDLE
  else
    r <- find_value ob name;
    let '(found, index) := r in
    if negb found then reg_error REG_NAME_NOT_FOUND
    else
      a <- shift_down (Z.to_nat (k_last_value ob - index)) (k_values ob) index;
      put_key k (k_set_values (k_last_value ob - 1) (k_nb_values ob) a ob) ;;
      touch_key k REG_NOTIFY_CHANGE_LAST_SET ;;
      ob <- get_key k;
      match shrink_count (k_last_value ob) (k_nb_values ob) MIN_VALUES with
      | None => ret tt
      | Some nb =>
          ok <- reg_malloc;
          if negb ok then ret tt
          else put_key k (k_set_values (k_last_value ob) nb (take (Z.to_nat nb) (k_values ob)) ob)
      end.

(** [enum_value]: the type, the total size and the bytes of the reply, of which at
    most [max_size] are sent. *)
Inductive value_info_class := KeyValueBasicInformation | KeyValueFullInformation | KeyValuePartialInformation | UnknownValueInformation.

Definition enum_value (k : kid) (i : Z) (info_class : value_info_class) (max_size : Z) : R (option (Z * Z * Z * list Z)) :=
  ob <- get_key k;
  if has (k_flags ob) KEY_PREDEF then reg_error REG_INVALID_HANDLE ;; ret None
  else if (i <? 0) || (k_last_value ob <? i) then reg_error REG_NO_MORE_ENTRIES ;; ret None
  else
    v <- read_cell (k_values ob) i;
    let namelen := 2 * Z.of_nat (length (v_name v)) in
    let len := Z.of_nat (length (v_data v)) in
    sizes <- match info_class with
             | KeyValueBasicInformation => ret (Some (namelen, namelen))
             | KeyValueFullInformation => ret (Some (namelen + len, namelen))
             | KeyValuePartialInformation => ret (Some (len, 0))
             | UnknownValueInformation => reg_error REG_INVALID_PARAMETER ;; ret None
             end;
    match sizes with
    | None => ret None
    | Some (total, namelen) =>
        let maxlen := Z.min total max_size in
        if negb (maxlen =? 0) then
          ok <- reg_mem_alloc;
          if negb ok then ret (Some (v_type v, total, 0, []))
          else if namelen <? maxlen then
            ret (Some (v_type v, total, namelen,
                       take (Z.to_nat namelen) (wbytes (v_name v)) ++ take (Z.to_nat (maxlen - namelen)) (v_data v)))
          else ret (Some (v_type v, total, maxlen, take (Z.to_nat maxlen) (wbytes (v_name v))))
        else ret (Some (v_type v, total, 0, []))
    end.

(** ** Subkeys *)

(** The length of the first element of a path. *)
Fixpoint get_path_element (name : list Z) : nat :=
  match name with c :: name => if c =? BACKSLASH then O else S (get_path_element name) | [] => O end.

(** "Wow6432Node". *)
Definition wow6432node : list Z := [87; 111; 119; 54; 52; 51; 50; 78; 111; 100; 101].
Definition is_wow6432node (name : list Z) : bool :=
  let len := get_path_element name in
  (len =? length wow6432node)%nat && (memicmp_strW name wow6432node (length wow6432node) =? 0).

Definition find_subkey (ob : key) (name : list Z) : R (bool * Z) :=
  bisect (length (k_subkeys ob)) (λ i, c <- read_cell (k_subkeys ob) i; sub <- get_key c; name_of sub) name 0 (k_last_subkey ob).

Definition grow_subkeys (k : kid) : R bool :=
  ob <- get_key k;
  r <- (if negb (k_nb_subkeys ob =? 0) then
          ok <- reg_malloc;
          if negb ok then reg_error REG_NO_MEMORY ;; ret None
          else ret (Some (k_nb_subkeys ob + k_nb_subkeys ob / 2))
        else ok <- reg_mem_alloc; ret (if ok : bool then Some MIN_SUBKEYS else None));
  match r with
  | None => ret false
  | Some nb =>
      put_key k (k_set_subkeys (k_last_subkey ob) nb
        (k_subkeys ob ++ replicate (Z.to_nat nb - length (k_subkeys ob)) None) ob) ;;
      ret true
  end.

(** [key_link_name] in a key: [k] gets the name and is entered in the array of
    [parent]. *)
Definition key_link_name (k : kid) (name : list Z) (parent : kid) : R bool :=
  ob <- get_key parent;
  ok <- (if k_last_subkey ob + 1 =? k_nb_subkeys ob then grow_subkeys parent else ret true);
  if negb ok then ret false
  else
    ob <- get_key parent;
    r <- find_subkey ob name;
    let index := snd r in
    let last := k_last_subkey ob + 1 in
    a <- shift_up (Z.to_nat (last - index)) (k_subkeys ob) last;
    a <- arr_set a index (Some k);
    pname <- name_of ob;
    put_key parent (k_set_wow (if is_wow6432node name && negb (is_wow6432node pname) then Some k else k_wow6432node ob)
      (k_set_subkeys last (k_nb_subkeys ob) a ob)) ;;
    sub <- get_key k;
    put_key k (k_set_name (Some (name, Some parent)) sub) ;;
    ret true.

(** The index of a key in the array of its parent. *)
Fixpoint subkey_index (a : list (option kid)) (k : kid) (n : nat) (i : Z) : R Z :=
  match n with
  | O => ret i
  | S n => c <- read_cell a i; if bool_decide (c = k) then ret i else subkey_index a k n (i + 1)
  end.

(** [key_unlink_name]: the key leaves the array of its parent. *)
Definition key_unlink_name (k : kid) (parent : kid) : R unit :=
  ob <- get_key parent;
  i <- subkey_index (k_subkeys ob) k (Z.to_nat (k_last_subkey ob + 1)) 0;
  assert (i <=? k_last_subkey ob) ;;
  a <- shift_down (Z.to_nat (k_last_subkey ob - i)) (k_subkeys ob) i;
  let last := k_last_subkey ob - 1 in
  put_key parent (k_set_wow (if bool_decide (k_wow6432node ob = Some k) then None else k_wow6432node ob)
    (k_set_subkeys last (k_nb_subkeys ob) a ob)) ;;
  match shrink_count last (k_nb_subkeys ob) MIN_SUBKEYS with
  | None => ret tt
  | Some nb =>
      ok <- reg_malloc;
      if negb ok then ret tt
      else ob <- get_key parent; put_key parent (k_set_subkeys last nb (take (Z.to_nat nb) (k_subkeys ob)) ob)
  end.

(** [unlink_named_object] on a key. *)
Definition unlink_key (k : kid) : R unit :=
  ob <- get_key k;
  match k_name ob with
  | None => ret tt
  | Some (_, parent) =>
      put_key k (k_set_name None ob) ;;
      match parent with None => ret tt | Some parent => key_unlink_name k parent end
  end.

(** [key_init]: the fields of a new key, and its class and options.  A key in a
    volatile key must be volatile. *)
Definition key_init (k : kid) (class : list Z) (options modif : Z) : R bool :=
  parent <- get_parent k;
  ob <- get_key k;
  put_key k (Key (k_name ob) None (-1) 0 [] None (-1) 0 [] 0 modif []) ;;
  ok <- match class with
        | [] => ret true
        | _ => ok <- reg_mem_alloc; (if ok : bool then ob <- get_key k; put_key k (k_set_class (Some class) ob) else ret tt) ;; ret ok
        end;
  if negb ok then ret false
  else
    ob <- get_key k;
    put_key k (if has options REG_OPTION_CREATE_LINK then k_set_flags (Z.lor (k_flags ob) KEY_SYMLINK) ob else ob) ;;
    ob <- get_key k;
    if has options REG_OPTION_VOLATILE then put_key k (k_set_flags (Z.lor (k_flags ob) KEY_VOLATILE) ob) ;; ret true
    else
      vol <- match parent with Some p => pob <- get_key p; ret (has (k_flags pob) KEY_VOLATILE) | None => ret false end;
      if vol : bool then reg_error REG_CHILD_MUST_BE_VOLATILE ;; ret false
      else put_key k (k_set_flags (Z.lor (k_flags ob) KEY_DIRTY) ob) ;; ret true.

(** [create_object_with_name] for a key, once the key to create it in and the name
    left are known: the memory for the name and the key, the link, the fields.
    The key has its name in the array before the fields are set, and gives it back
    when that fails. *)
Definition create_key (parent : kid) (name class : list Z) (options modif : Z) : R (option kid) :=
  ok <- reg_mem_alloc;
  if negb ok then ret None
  else
    ok <- reg_mem_alloc;
    if negb ok then ret None
    else
      s <- get;
      let k := fresh (dom (keys s)) in
      put_key k (Key None None (-1) 0 [] None (-1) 0 [] 0 0 []) ;;
      ok <- key_link_name k name parent;
      if negb ok then modify (set_keys (delete k)) ;; ret None
      else
        ok <- key_init k class options modif;
        if ok : bool then ret (Some k)
        else unlink_key k ;; modify (set_keys (delete k)) ;; ret None.

Definition rename_key (k : kid) (new_name : list Z) : R unit :=
  parent <- get_parent k;
  let len := get_path_element new_name in
  if (len =? 0)%nat || negb (len =? length new_name)%nat || (MAX_NAME_LEN <? Z.of_nat len) then reg_error REG_INVALID_PARAMETER
  else
    match parent with
    | None => reg_error REG_CANNOT_DELETE
    | Some parent =>
        pob <- get_key parent;
        r <- find_subkey pob new_name;
        let '(found, index) := r in
        if found : bool then reg_error REG_CANNOT_DELETE
        else if bool_decide (k_wow6432node pob = Some k) || is_wow6432node new_name then reg_error REG_INVALID_PARAMETER
        else
          ok <- reg_mem_alloc;
          if negb ok then ret tt
          else
            cur <- subkey_index (k_subkeys pob) k (Z.to_nat (k_last_subkey pob + 1)) 0;
            r <- (if cur <? index then
                    a <- shift_down (Z.to_nat (index - 1 - cur)) (k_subkeys pob) cur; ret (index - 1, a)
                  else a <- shift_up (Z.to_nat (cur - index)) (k_subkeys pob) cur; ret (index, a));
            let '(index, a) := r in
            a <- arr_set a index (Some k);
            put_key parent (k_set_subkeys (k_last_subkey pob) (k_nb_subkeys pob) a pob) ;;
            ob <- get_key k;
            put_key k (k_set_name (Some (new_name, Some parent)) ob) ;;
            touch_key k REG_NOTIFY_CHANGE_NAME
    end.

(** The loop of [delete_key] over the subkeys, from the last one; [m] bounds their number. *)
Fixpoint delete_subkeys (delete : kid → R bool) (m : nat) (k : kid) : R bool :=
  ob <- get_key k;
  if k_last_subkey ob <? 0 then ret true
  else
    match m with
    | O => fail OutOfFuel
    | S m =>
        sub <- read_cell (k_subkeys ob) (k_last_subkey ob);
        ok <- delete sub;
        if ok : bool then delete_subkeys delete m k else ret false
    end.

(** [delete_key]; [n] bounds the depth of the tree. *)
Fixpoint delete_key (n : nat) (k : kid) (recurse : bool) : R bool :=
  ob <- get_key k;
  if has (k_flags ob) KEY_DELETED then ret true
  else
    parent <- get_parent k;
    match parent with
    | None => reg_error REG_ACCESS_DENIED ;; ret false
    | Some parent =>
        if has (k_flags ob) KEY_PREDEF then reg_error REG_INVALID_HANDLE ;; ret false
        else
          match n with
          | O => fail OutOfFuel
          | S n =>
              ok <- (if recurse then delete_subkeys (λ sub, delete_key n sub true) (Z.to_nat (k_last_subkey ob + 1)) k
                     else if 0 <=? k_last_subkey ob then reg_error REG_ACCESS_DENIED ;; ret false
                     else ret true);
              if negb ok then ret false
              else
                ob <- get_key k;
                put_key k (k_set_flags (Z.lor (k_flags ob) KEY_DELETED) ob) ;;
                unlink_key k ;;
                touch_key parent REG_NOTIFY_CHANGE_NAME ;;
                ret true
          end
    end.
End names.
