(* ===== verification/RegFile.v ===== *)
(** * Registry files (server/registry.c)

    Saving keys as text, and the reading of lines, values and key options. *)

From stdpp Require Import base list gmap fin_maps.
From S2P Require Import Prelude RegText Registry.

Open Scope Z_scope.
Open Scope server_scope.

(** ** Saving *)

Definition TICKS_PER_SEC : Z := 10000000.
Definition ticks_1601_to_1970 : Z := 86400 * (369 * 365 + 89) * TICKS_PER_SEC.

(** The format [%u]. *)
Definition fmt_u (n : Z) : list Z := (λ d, 48 + d) <$> digits 20 10 n.

Definition TIME : list Z := [35; 116; 105; 109; 101; 61].          (* #time= *)
Definition CLASS : list Z := [35; 99; 108; 97; 115; 115; 61].      (* #class= *)
Definition LINK : list Z := [35; 108; 105; 110; 107].              (* #link *)

(** [dump_path]; [n] bounds the depth of the key. *)
Fixpoint dump_path (n : nat) (k : kid) (base : option kid) : R (list Z) :=
  ob <- get_key k;
  parent <- get_parent k;
  name <- name_of ob;
  prefix <- match parent with
            | Some p =>
                if bool_decide (parent = base) then ret []
                else match n with
                     | O => fail OutOfFuel
                     | S n => t <- dump_path n p base; ret (t ++ [BACKSLASH; BACKSLASH])
                     end
            | None => ret []
            end;
  ret (prefix ++ dump_strW name 91 93).

(** The lines of a key itself. *)
Definition save_key (k base : kid) : R (list Z) :=
  s <- get;
  ob <- get_key k;
  path <- (if bool_decide (k = base) then ret [] else dump_path (size (keys s)) k (Some base));
  values <- (fix loop (l : list (option key_value)) : R (list Z) :=
               match l with
               | [] => ret []
               | c :: l => v <- cell c; t <- loop l; ret (dump_value v ++ t)
               end) (take (Z.to_nat (k_last_value ob + 1)) (k_values ob));
  ret ([NEWLINE; 91] ++ path ++ [93; 32] ++
       fmt_u (w32 (Z.quot (k_modif ob - ticks_1601_to_1970) TICKS_PER_SEC)) ++ [NEWLINE] ++
       TIME ++ fmt_x (w32 (Z.shiftr (k_modif ob) 32)) ++ zero_pad 8 (fmt_x (w32 (k_modif ob))) ++ [NEWLINE] ++
       match k_class ob with
       | Some class => CLASS ++ [QUOTE] ++ dump_strW class QUOTE QUOTE ++ [QUOTE; NEWLINE]
       | None => []
       end ++
       (if has (k_flags ob) KEY_SYMLINK then LINK ++ [NEWLINE] else []) ++ values).

(** [save_subkeys]; [n] bounds the depth of the tree. *)
Fixpoint save_subkeys (n : nat) (k base : kid) : R (list Z) :=
  match n with
  | O => fail OutOfFuel
  | S n =>
      ob <- get_key k;
      if has (k_flags ob) KEY_VOLATILE then ret []
      else
        own <- (if (0 <=? k_last_value ob) || (k_last_subkey ob =? -1) ||
                   match k_class ob with Some _ => true | None => false end || has (k_flags ob) KEY_SYMLINK
                then save_key k base else ret []);
        subs <- (fix loop (l : list (option kid)) : R (list Z) :=
                   match l with
                   | [] => ret []
                   | c :: l => sub <- cell c; t <- save_subkeys n sub base; u <- loop l; ret (t ++ u)
                   end) (take (Z.to_nat (k_last_subkey ob + 1)) (k_subkeys ob));
        ret (own ++ subs)
  end.

(** ** Reading lines *)

Definition upd_info (f : file_load_info → file_load_info) : R unit := modify (λ s, set_info (f (rg_info s)) s).

(** [fgets] reads at most [n] bytes, up to the end of a line. *)
Fixpoint fgets (n : nat) (file : list Z) : list Z * list Z :=
  match n, file with
  | S n, c :: file => if c =? NEWLINE then ([c], file) else let '(l, rest) := fgets n file in (c :: l, rest)
  | _, _ => ([], file)
  end.

(** The bytes before the first NUL. *)
Fixpoint c_string (l : list Z) : list Z :=
  match l with c :: l => if c =? 0 then [] else c :: c_string l | [] => [] end.

(** The line without its end. *)
Definition strip_line (l : list Z) : list Z :=
  let l := take (length l - 1) l in
  if bool_decide (last l = Some 13) then take (length l - 1) l else l.

(** [read_next_line]; every round but the last fills the buffer, and reads. *)
Fixpoint read_line_loop (n : nat) (line : list Z) : R Z :=
  s <- get;
  let i := rg_info s in
  let '(chunk, file) := fgets (Z.to_nat (li_len i - Z.of_nat (length line) - 1)) (li_file i) in
  match chunk with
  | [] => ret (if bool_decide (line = []) then 0 else 1)
  | _ =>
      let line := c_string (line ++ chunk) in
      upd_info (λ i, LoadInfo file line (li_len i) (li_tmplen i) (li_line i)) ;;
      match last line with
      | None => fail OutOfBounds
      | Some c =>
          if c =? NEWLINE then
            upd_info (λ i, LoadInfo (li_file i) (strip_line line) (li_len i) (li_tmplen i) (li_line i)) ;; ret 1
          else if Z.of_nat (length line) <? li_len i - 1 then ret 1
          else
            ok <- reg_malloc;
            if negb ok then reg_error REG_NO_MEMORY ;; ret (-1)
            else
              upd_info (λ i, LoadInfo (li_file i) (li_buffer i) (li_len i + li_len i / 2) (li_tmplen i) (li_line i)) ;;
              match n with O => fail OutOfFuel | S n => read_line_loop n line end
      end
  end.
Definition read_next_line : R Z :=
  upd_info (λ i, LoadInfo (li_file i) (li_buffer i) (li_len i) (li_tmplen i) (li_line i + 1)) ;;
  s <- get; read_line_loop (length (li_file (rg_info s))) [].

(** The temporary buffer, of [size] bytes at least. *)
Definition get_file_tmp_space (size : Z) : R bool :=
  s <- get;
  if size <=? li_tmplen (rg_info s) then ret true
  else
    ok <- reg_malloc;
    if negb ok then reg_error REG_NO_MEMORY ;; ret false
    else upd_info (λ i, LoadInfo (li_file i) (li_buffer i) (li_len i) size (li_line i)) ;; ret true.
Definition tmp_units : R Z := s <- get; ret (li_tmplen (rg_info s) / 2).

(** ** Values *)

Section load.
Context (to_lower : Z → Z).

(** The index of the value and the text behind the equals sign. *)
Definition parse_value_name (k : kid) (buffer : list Z) : R (option (Z * list Z)) :=
  ok <- get_file_tmp_space (2 * Z.of_nat (length buffer));
  if negb ok then ret None
  else
    cap <- tmp_units;
    let parsed := if char_at buffer =? 64 then Some ([], 1)
                  else match parse_strW cap (tail buffer) QUOTE with
                       | Some (str, r) => Some (take (length str - 1) str, r + 1)
                       | None => None
                       end in
    match parsed with
    | None => ret None
    | Some (name, len) =>
        let rest := skip_spaces (drop (Z.to_nat len) buffer) in
        if negb (char_at rest =? 61) then ret None
        else
          ob <- get_key k;
          r <- find_value to_lower ob name;
          place <- (if fst r : bool then ret (Some (snd r)) else insert_value k name (snd r));
          ret (match place with Some i => Some (i, skip_spaces (tail rest)) | None => None end)
    end.

(** The bytes of a value in hexadecimal, which may go on over several lines;
    [inr false] is an error of the text and [inr true] one of memory. *)
Fixpoint load_hex (n : nat) (buffer : list Z) (data : list Z) : R (list Z + bool) :=
  let maxlen := 1 + Z.of_nat (length buffer) / 2 in
  ok <- get_file_tmp_space (Z.of_nat (length data) + maxlen);
  if negb ok then ret (inr true)
  else
    match parse_hex (length buffer) maxlen buffer with
    | None => ret (inr false)
    | Some (bytes, rest) =>
        let data := data ++ bytes in
        let rest := skip_spaces rest in
        match rest with
        | [] => ret (inl data)
        | c :: _ =>
            if negb (c =? BACKSLASH) then ret (inr false)
            else
              r <- read_next_line;
              if negb (r =? 1) then ret (inr false)
              else
                s <- get;
                match n with
                | O => fail OutOfFuel
                | S n => load_hex n (skip_spaces (li_buffer (rg_info s))) data
                end
        end
    end.

(** The data behind the tag. *)
Definition load_data (parse_type : Z) (buffer : list Z) : R (list Z + bool) :=
  if parse_type =? REG_SZ then
    ok <- get_file_tmp_space (2 * Z.of_nat (length buffer));
    if negb ok then ret (inr true)
    else
      cap <- tmp_units;
      ret (match parse_strW cap buffer QUOTE with Some (str, _) => inl (wbytes str) | None => inr false end)
  else if parse_type =? REG_DWORD then ret (inl (dword_bytes (w32 (fst (strtoul buffer)))))
  else if parse_type =? REG_BINARY then s <- get; load_hex (length (li_file (rg_info s))) buffer []
  else fail AssertFailed.

Definition load_value (k : kid) (buffer : list Z) : R bool :=
  r <- parse_value_name k buffer;
  match r with
  | None => ret false
  | Some (index, buffer) =>
      match get_data_type data_types buffer with
      | None => store_value k index REG_NONE [] ;; ret false
      | Some (res, type, parse_type) =>
          d <- load_data parse_type (drop (Z.to_nat res) buffer);
          match d with
          | inr false => store_value k index REG_NONE [] ;; ret false
          | inr true => ret false
          | inl data =>
              ok <- match data with [] => ret true | _ => reg_mem_alloc end;
              if negb ok then ret false
              else store_value k index type data ;; ret true
          end
      end
  end.
End load.

(** ** Options *)

(** [update_key_time]; [n] bounds the length of the chain of parents. *)
Fixpoint update_key_time (n : nat) (k : option kid) (modif : Z) : R unit :=
  match k with
  | None => ret tt
  | Some k =>
      ob <- get_key k;
      if negb (k_modif ob =? 0) then ret tt
      else
        put_key k (k_set_modif modif ob) ;;
        p <- get_parent k;
        match n with O => fail OutOfFuel | S n => update_key_time n p modif end
  end.

(** The digits of the time, in a 64-bit integer. *)
Fixpoint parse_time (p : list Z) (modif : Z) : Z :=
  match p with
  | c :: p => if isxdigit c then parse_time p (Z.lor (Z.shiftl modif 4 mod 18446744073709551616) (to_hex c)) else modif
  | [] => modif
  end.
Definition int64 (x : Z) : Z := if x <? 9223372036854775808 then x else x - 18446744073709551616.

Definition load_key_option (k : kid) (buffer : list Z) : R bool :=
  s <- get;
  (if starts_with TIME buffer then update_key_time (size (keys s)) (Some k) (int64 (parse_time (drop 6 buffer) 0)) else ret tt) ;;
  ok <- (if starts_with CLASS buffer then
           let p := drop 7 buffer in
           if negb (char_at p =? QUOTE) then ret false
           else
             let p := tail p in
             ok <- get_file_tmp_space (2 * Z.of_nat (length p));
             if negb ok then ret false
             else
               cap <- tmp_units;
               match parse_strW cap p QUOTE with
               | None => ret false
               | Some (str, _) =>
                   ok <- reg_mem_alloc;
                   ob <- get_key k;
                   put_key k (k_set_class (if ok : bool then Some str else None) ob) ;;
                   ret true
               end
         else ret true);
  if negb ok then ret false
  else
    (if starts_with LINK buffer then ob <- get_key k; put_key k (k_set_flags (Z.lor (k_flags ob) KEY_SYMLINK) ob) else ret tt) ;;
    ret true.
