(* ===== verification/RegLoad.v ===== *)
(** * Paths of keys and the loading of registry files (server/registry.c)

    The lookup of a path from a key, the creation of the keys of a path, and the loop
    over the lines of a registry file.

    The target of a symbolic link is a path from the root directory of the
    namespace, where any kind of object may be; its resolution,
    [lookup_named_object] on that path, appears as [follow], a parameter: the key it
    ends at and the name left. *)

From stdpp Require Import base list gmap fin_maps.
From S2P Require Import Prelude RegText Registry RegFile.

Open Scope Z_scope.
Open Scope server_scope.

Fixpoint skip_backslashes (p : list Z) : list Z :=
  match p with c :: q => if c =? BACKSLASH then skip_backslashes q else p | [] => [] end.

(** The name of a [unicode_str]: [None] is a null pointer. *)
Definition no_name (name : option (list Z)) : bool := match name with Some (_ :: _) => false | _ => true end.

Section load.
Context (to_lower : Z → Z) (follow : list Z → R (option (kid * option (list Z)))).

(** ** Lookup *)

(** The end of a link: the key, or the key it is a 32-bit view of. *)
Definition link_target (k : kid) (name : option (list Z)) (attr : Z) : R (option kid * option (list Z)) :=
  ob <- get_key k;
  if has (k_flags ob) KEY_WOWSHARE && has attr OBJ_KEY_WOW64 && match name with None => true | Some _ => false end then
    parent <- get_parent k; p <- deref parent; ret (Some p, name)
  else ret (Some k, name).

Definition follow_link (ob : key) (name : option (list Z)) (attr : Z) : R (option kid * option (list Z)) :=
  if no_name name && has attr OBJ_OPENLINK then ret (None, name)
  else
    r <- find_value to_lower ob symlink_str;
    data <- (if fst r : bool then v <- read_cell (k_values ob) (snd r); ret (v_data v) else ret []);
    if negb (char_at (wchars data) =? BACKSLASH) then reg_error REG_NAME_NOT_FOUND ;; ret (None, name)
    else
      r <- follow (wchars data);
      match r with
      | None => ret (None, name)
      | Some (k, name_left) =>
          if no_name name then link_target k name_left attr
          else if no_name name_left then link_target k name attr
          else reg_error REG_NAME_NOT_FOUND ;; ret (None, name)
      end.

(** The subkey of an element; [inr] is the 64-bit parent in which the lookup goes on. *)
Definition lookup_element (k : kid) (ob : key) (element : list Z) (attr : Z) : R (option kid + kid) :=
  r <- find_subkey to_lower ob element;
  if fst r : bool then c <- read_cell (k_subkeys ob) (snd r); ret (inl (Some c))
  else if has (k_flags ob) KEY_WOWSHARE && has attr OBJ_KEY_WOW64 then
    parent <- get_parent k;
    p <- deref parent;
    pob <- get_key p;
    r <- find_subkey to_lower pob element;
    if fst r : bool then c <- read_cell (k_subkeys pob) (snd r); ret (inl (Some c)) else ret (inr p)
  else ret (inl None).

(** The next key of the path, and the name left. *)
Definition key_lookup_name (k : kid) (name : option (list Z)) (attr : Z) : R (option kid * option (list Z)) :=
  ob <- get_key k;
  if has (k_flags ob) KEY_DELETED then reg_error REG_KEY_DELETED ;; ret (None, name)
  else if has (k_flags ob) KEY_SYMLINK then follow_link ob name attr
  else
    match name with
    | None => ret (None, None)
    | Some path =>
        let len := get_path_element path in
        let element := take len path in
        let rest := skip_backslashes (drop len path) in
        if MAX_NAME_LEN <? Z.of_nat len then reg_error REG_INVALID_PARAMETER ;; ret (None, name)
        else
          r <- lookup_element k ob element attr;
          match r, rest with
          | inr p, _ => ret (Some p, name)
          | inl None, [] => ret (None, Some element)
          | inl None, _ => reg_error REG_NAME_NOT_FOUND ;; ret (None, name)
          | inl (Some c), [] => ret (Some c, None)
          | inl (Some c), _ =>
              cob <- get_key c;
              ret (match k_wow6432node cob with
                   | Some w => if has attr OBJ_KEY_WOW64 && negb (is_wow6432node to_lower rest) then Some w else Some c
                   | None => Some c
                   end, Some rest)
          end
    end.

(** The loop of [lookup_named_object]; [n] bounds the steps. *)
Fixpoint lookup_loop (n : nat) (k : kid) (name : option (list Z)) (attr : Z) : R (option (kid * option (list Z))) :=
  r <- key_lookup_name k name attr;
  match r with
  | (None, name) => s <- get; ret (if rg_error s =? 0 then Some (k, name) else None)
  | (Some k, name) => match n with O => fail OutOfFuel | S n => lookup_loop n k name attr end
  end.

(** [lookup_named_object] from a key; an empty path is the key itself. *)
Definition lookup_named_object (root : kid) (name : list Z) (attr : Z) : R (option (kid * option (list Z))) :=
  match name with
  | [] => reg_error 0 ;; ret (Some (root, Some []))
  | c :: _ =>
      if c =? BACKSLASH then reg_error REG_PATH_SYNTAX_BAD ;; ret None
      else s <- get; reg_error 0 ;; lookup_loop (length name + size (keys s)) root (Some name) attr
  end.

(** ** Creation *)

(** [create_object_without_name] for a key. *)
Definition create_unnamed_key (class : list Z) (options modif : Z) : R (option kid) :=
  ok <- reg_mem_alloc;
  if negb ok then ret None
  else
    s <- get;
    let k := fresh (dom (keys s)) in
    put_key k (Key None None (-1) 0 [] None (-1) 0 [] 0 0 []) ;;
    ok <- key_init k class options modif;
    if ok : bool then ret (Some k) else modify (set_keys (delete k)) ;; ret None.

(** [create_object_with_name] for a key. *)
Definition create_named_key (root : kid) (name : list Z) (attr : Z) (class : list Z) (options modif : Z) : R (option kid) :=
  reg_error 0 ;;
  match name with
  | [] => create_unnamed_key class options modif
  | _ =>
      r <- lookup_named_object root name attr;
      match r with
      | None => ret None
      | Some (parent, Some ((_ :: _) as new_name)) => create_key to_lower parent new_name class options modif
      | Some (k, _) =>
          if has attr OBJ_OPENIF then reg_error REG_NAME_EXISTS ;; ret (Some k)
          else reg_error REG_NAME_COLLISION ;; ret None
      end
  end.

(** [n] bounds the number of elements. *)
Fixpoint create_key_recursive (n : nat) (root : kid) (name : list Z) (modif : Z) : R (option kid) :=
  match name with
  | [] => ret (Some root)
  | _ =>
      let len := get_path_element name in
      r <- create_named_key root (take len name) OBJ_OPENIF [] 0 modif;
      match r with
      | None => ret None
      | Some k =>
          if (len <? length name)%nat then
            match n with O => fail OutOfFuel | S n => create_key_recursive n k (drop (S len) name) modif end
          else ret (Some k)
      end
  end.

(** ** Files *)

(** [sscanf( p, " %u", &mod )] when it converts a number. *)
Fixpoint decimal (p : list Z) : list Z :=
  match p with c :: p => if isdigit c then (c - 48) :: decimal p else [] | [] => [] end.
Definition scan_u (p : list Z) : option Z :=
  let q := skip_spaces p in
  let '(neg, q) := match q with
                   | c :: r => if c =? 45 then (true, r) else if c =? 43 then (false, r) else (false, q)
                   | [] => (false, q)
                   end in
  match decimal q with
  | [] => None
  | ds => let v := digits_value 10 ds in
          Some (w32 (if ULONG_MAX <? v then ULONG_MAX else if neg then (- v) mod (ULONG_MAX + 1) else v))
  end.

(** The path behind [prefix_len] elements, and the number of them that were missing. *)
Fixpoint skip_prefix (prefix_len : Z) (p : list Z) : Z * list Z :=
  match p with
  | c :: q => if (prefix_len =? 0) || (c =? 0) then (prefix_len, p)
              else skip_prefix (if c =? BACKSLASH then prefix_len - 1 else prefix_len) q
  | [] => (prefix_len, [])
  end.

(** The key of a line, and the modification time unless the line is malformed. *)
Definition load_key (base : kid) (buffer : list Z) (prefix_len : Z) : R (option kid * option Z) :=
  ok <- get_file_tmp_space (2 * Z.of_nat (length buffer));
  if negb ok then ret (None, None)
  else
    cap <- tmp_units;
    match parse_strW cap buffer 93 with
    | None => ret (None, None)
    | Some (tmp, res) =>
        s <- get;
        let modif := match scan_u (drop (Z.to_nat res) buffer) with
                     | Some secs => secs * TICKS_PER_SEC + ticks_1601_to_1970
                     | None => rg_time s
                     end in
        let '(prefix_len, p) := skip_prefix prefix_len tmp in
        k <- (if char_at p =? 0 then ret (if 1 <? prefix_len then None else Some base)
              else create_key_recursive (length p) base (take (length p - 1) p) 0);
        ret (k, Some modif)
    end.

(** "win32" and "win64". *)
Definition ARCH : list Z := [35; 97; 114; 99; 104; 61].
Definition WIN32 : list Z := [119; 105; 110; 51; 50].
Definition WIN64 : list Z := [119; 105; 110; 54; 52].
Definition PREFIX_UNKNOWN : Z := 0.
Definition PREFIX_32BIT : Z := 1.
Definition PREFIX_64BIT : Z := 2.

Definition load_global_option (buffer : list Z) : R bool :=
  if starts_with ARCH buffer then
    let p := drop 6 buffer in
    match (if bool_decide (p = WIN32) then Some PREFIX_32BIT else if bool_decide (p = WIN64) then Some PREFIX_64BIT else None) with
    | None => reg_error REG_NOT_REGISTRY_FILE ;; ret false
    | Some type =>
        s <- get;
        if prefix_type s =? PREFIX_UNKNOWN then modify (set_prefix_type type) ;; ret true
        else if negb (type =? prefix_type s) then reg_error REG_NOT_REGISTRY_FILE ;; ret false
        else ret true
    end
  else ret true.

(** The loop of [get_prefix_len] up to the root key; [n] bounds the chain of parents. *)
Fixpoint match_prefix (n : nat) (k : kid) (element : list Z) (res : Z) : R Z :=
  s <- get;
  if bool_decide (k = root_key s) then ret 0
  else
    ob <- get_key k;
    name <- name_of ob;
    if (length element =? length name)%nat && (memicmp_strW to_lower element name (length element) =? 0) then ret res
    else
      parent <- get_parent k;
      p <- deref parent;
      match n with O => fail OutOfFuel | S n => match_prefix n p element (res + 1) end.
Definition get_prefix_len (k : kid) (name : list Z) : R Z :=
  ok <- get_file_tmp_space (2 * Z.of_nat (length name));
  if negb ok then ret 0
  else
    cap <- tmp_units;
    match parse_strW cap name 93 with
    | None => ret 0
    | Some (tmp, _) =>
        s <- get;
        let tmp := c_string tmp in
        match_prefix (size (keys s)) k (take (get_path_element tmp) tmp) 1
    end.

Definition end_key (subkey : option kid) (modif : Z) : R unit :=
  match subkey with
  | Some k => s <- get; update_key_time (size (keys s)) (Some k) modif
  | None => ret tt
  end.

(** The loop of [load_keys]; [n] bounds the number of lines. *)
Fixpoint load_lines (n : nat) (k : kid) (subkey : option kid) (modif prefix_len : Z) : R unit :=
  r <- read_next_line;
  if negb (r =? 1) then end_key subkey modif
  else
    match n with
    | O => fail OutOfFuel
    | S n =>
        s <- get;
        let p := skip_spaces (li_buffer (rg_info s)) in
        let c := char_at p in
        if c =? 91 then
          end_key subkey modif ;;
          prefix_len <- (if prefix_len =? -1 then get_prefix_len k (tail p) else ret prefix_len);
          r <- load_key k (tail p) prefix_len;
          load_lines n k (fst r) (default modif (snd r)) prefix_len
        else if (c =? 64) || (c =? QUOTE) then
          (match subkey with Some sub => ok <- load_value to_lower sub p; ret tt | None => ret tt end) ;;
          load_lines n k subkey modif prefix_len
        else if c =? 35 then
          ok <- match subkey with
                | Some sub => ok <- load_key_option sub p; ret true
                | None => load_global_option p
                end;
          if ok : bool then load_lines n k subkey modif prefix_len else end_key subkey modif
        else load_lines n k subkey modif prefix_len
    end.

(** "WINE REGISTRY Version 2". *)
Definition FILE_HEADER : list Z :=
  [87; 73; 78; 69; 32; 82; 69; 71; 73; 83; 84; 82; 89; 32; 86; 101; 114; 115; 105; 111; 110; 32; 50].

Definition load_keys (k : kid) (file : list Z) (prefix_len : Z) : R unit :=
  ok <- reg_mem_alloc;
  if negb ok then ret tt
  else
    ok <- reg_mem_alloc;
    if negb ok then ret tt
    else
      s <- get;
      upd_info (λ _, LoadInfo file [] 4 4 0) ;;
      r <- read_next_line;
      i <- get;
      if negb (r =? 1) || negb (bool_decide (li_buffer (rg_info i) = FILE_HEADER)) then reg_error REG_NOT_REGISTRY_FILE
      else load_lines (length file) k None (rg_time s) prefix_len.
End load.

(** ** The text of a file *)

(** ";; All keys relative to ". *)
Definition RELATIVE : list Z :=
  [59; 59; 32; 65; 108; 108; 32; 107; 101; 121; 115; 32; 114; 101; 108; 97; 116; 105; 118; 101; 32; 116; 111; 32].

Definition save_all_subkeys (k : kid) : R (list Z) :=
  s <- get;
  path <- dump_path (size (keys s)) k None;
  text <- save_subkeys (size (keys s)) k k;
  ret (FILE_HEADER ++ [NEWLINE] ++ RELATIVE ++ path ++ [NEWLINE] ++
       (if prefix_type s =? PREFIX_32BIT then [NEWLINE] ++ ARCH ++ WIN32 ++ [NEWLINE]
        else if prefix_type s =? PREFIX_64BIT then [NEWLINE] ++ ARCH ++ WIN64 ++ [NEWLINE]
        else []) ++ text).
