(* ===== verification/RegistryInv.v ===== *)
(** * The arrays of a key

    The order of names, the bisection, and the invariant of the arrays of values
    and subkeys.

    ** The tree of keys

    Keys with their parents form a forest; marking a key as modified walks up to
    the root and changes only flags, times and pending notifications. *)

From stdpp Require Import base list gmap fin_maps sorting.
From S2P Require Import Prelude RegText Registry.

Open Scope Z_scope.
Open Scope server_scope.

(** ** The order of names *)

(** Lexicographic order, a proper prefix coming first. *)
Fixpoint lex (a b : list Z) : Prop :=
  match a, b with
  | [], _ :: _ => True
  | x :: a, y :: b => x < y ∨ x = y ∧ lex a b
  | _, [] => False
  end.

#[export] Instance lex_trans : Transitive lex.
Proof.
  intros a. induction a as [|x a IH]; intros [|y b] [|z c]; simpl; try done. intros [?|[-> ?]] [?|[-> ?]]; try (left; lia).
  right. split; [done|]. by eapply IH.
Qed.
Lemma lex_irrefl a : ¬ lex a a.
Proof. induction a as [|x a IH]; simpl; [tauto|]. intros [?|[_ ?]]; [lia|done]. Qed.
Lemma lex_neq a b : lex a b → a ≠ b.
Proof. intros H ->. by apply lex_irrefl in H. Qed.

Section order.
Context (to_lower : Z → Z).
Notation fold name := (to_lower <$> name).

Definition fits (name : list Z) : Prop := Z.of_nat (length name) < 1000000000.

(** The result of a comparison tells the order of the folded names. *)
Lemma memicmp_prefix a : ∀ b n, (n = Nat.min (length a) (length b))%nat →
  let r := memicmp_strW to_lower a b n in
  (r < 0 → lex (fold a) (fold b)) ∧ (0 < r → lex (fold b) (fold a)) ∧
  (r = 0 → (length a < length b → lex (fold a) (fold b))%nat ∧ (length b < length a → lex (fold b) (fold a))%nat ∧
           (length a = length b → fold a = fold b)).
Proof.
  induction a as [|x a IH]; intros b n ->; cbn [length Nat.min].
  - destruct b; simpl; split_and!; try done; try lia; intros; split_and!; try done; simpl; lia.
  - destruct b as [|y b]; simpl; [split_and!; try lia; intros; split_and!; try done; simpl; lia|].
    destruct (Z.eqb_spec (to_lower x - to_lower y) 0) as [E|E]; cbn [negb].
    + assert (to_lower x = to_lower y) as Exy by lia. destruct (IH b _ eq_refl) as (A & B & C).
      split_and!; intros H; [right; split; [done|by apply A]|right; split; [done|by apply B]|].
      destruct (C H) as (C1 & C2 & C3). split_and!; intros; [right; split; [done|apply C1; lia]|right; split; [done|apply C2; lia]|].
      change (fold (x :: a)) with (to_lower x :: fold a). rewrite Exy. f_equal. apply C3. lia.
    + split_and!; intros; [left; lia..|]. lia.
Qed.

Lemma compare_names_spec a b : fits a → fits b →
  let r := compare_names to_lower a b in
  (r = 0 ↔ fold a = fold b) ∧ (r < 0 ↔ lex (fold a) (fold b)) ∧ (0 < r ↔ lex (fold b) (fold a)).
Proof.
  intros Ha Hb. destruct (memicmp_prefix a b _ eq_refl) as (A & B & C). unfold compare_names. set (r := memicmp_strW _ _ _ _) in *.
  unfold fits in *.
  assert (H : ∀ r', (r' < 0 → lex (fold a) (fold b)) → (0 < r' → lex (fold b) (fold a)) → (r' = 0 → fold a = fold b) →
    (r' = 0 ↔ fold a = fold b) ∧ (r' < 0 ↔ lex (fold a) (fold b)) ∧ (0 < r' ↔ lex (fold b) (fold a))).
  { intros r' H1 H2 H3. pose proof (lex_irrefl (fold a)) as Hi. split_and!; (split; [done|]); intros Hl.
    - destruct (Z.lt_trichotomy r' 0) as [Hr|[Hr|Hr]]; [|done|]; exfalso; [specialize (H1 Hr)|specialize (H2 Hr)]; rewrite Hl in *; by eapply lex_irrefl.
    - destruct (Z.lt_trichotomy r' 0) as [Hr|[Hr|Hr]]; [done|..]; exfalso; [rewrite (H3 Hr) in Hl; by eapply lex_irrefl|].
      apply Hi. etransitivity; [exact Hl|auto].
    - destruct (Z.lt_trichotomy r' 0) as [Hr|[Hr|Hr]]; [..|done]; exfalso; [|rewrite (H3 Hr) in Hl; by eapply lex_irrefl].
      apply Hi. etransitivity; [by apply H1|exact Hl]. }
  destruct (Z.eqb_spec r 0) as [Hr|Hr]; cbn [negb]; [|by apply H]. destruct (C Hr) as (C1 & C2 & C3).
  assert (int32 (2 * Z.of_nat (length a) - 2 * Z.of_nat (length b)) = 2 * Z.of_nat (length a) - 2 * Z.of_nat (length b)) as ->.
  { unfold int32, w32. destruct (Z.leb_spec 0 (2 * Z.of_nat (length a) - 2 * Z.of_nat (length b))).
    - rewrite Z.mod_small by lia. by rewrite (proj2 (Z.ltb_lt _ _)) by lia.
    - rewrite <-(Z.mod_add _ 1), Z.mod_small by lia. rewrite (proj2 (Z.ltb_ge _ _)) by lia. lia. }
  apply H; intros; [apply C1; lia|apply C2; lia|apply C3; lia].
Qed.

(** ** Bisection *)

(** The names are in order. *)
Definition sorted_names (l : list (list Z)) : Prop :=
  ∀ i j a b, l !! i = Some a → l !! j = Some b → (i < j)%nat → lex (fold a) (fold b).

Lemma sorted_names_app l1 l2 : sorted_names (l1 ++ l2) ↔
  sorted_names l1 ∧ sorted_names l2 ∧ ∀ a b, a ∈ l1 → b ∈ l2 → lex (fold a) (fold b).
Proof.
  split.
  - intros H. split_and!.
    + intros i j a b Hi Hj. apply H; by apply lookup_app_l_Some.
    + intros i j a b Hi Hj Hij. apply (H (length l1 + i)%nat (length l1 + j)%nat); [rewrite lookup_app_r by lia; by replace (length l1 + _ - length l1)%nat with i by lia|
        rewrite lookup_app_r by lia; by replace (length l1 + j - length l1)%nat with j by lia|lia].
    + intros a b [i Hi]%list_elem_of_lookup [j Hj]%list_elem_of_lookup. apply (H i (length l1 + j)%nat); [by apply lookup_app_l_Some| |].
      * rewrite lookup_app_r by lia. by replace (length l1 + j - length l1)%nat with j by lia.
      * apply lookup_lt_Some in Hi. lia.
  - intros (H1 & H2 & H3) i j a b Hi Hj Hij. apply lookup_app_Some in Hi as [Hi|[? Hi]]; apply lookup_app_Some in Hj as [Hj|[? Hj]].
    + by apply (H1 i j).
    + apply H3; by eapply list_elem_of_lookup_2.
    + apply lookup_lt_Some in Hj. lia.
    + apply (H2 (i - length l1)%nat (j - length l1)%nat); [done..|lia].
Qed.

(** Where a name is in a list, or where it belongs. *)
Definition placed (l : list (list Z)) (name : list Z) (found : bool) (i : Z) : Prop :=
  0 <= i <= Z.of_nat (length l) ∧
  (∀ j a, l !! j = Some a → Z.of_nat j < i → lex (fold a) (fold name)) ∧
  (∀ j a, l !! j = Some a → i < Z.of_nat j → lex (fold name) (fold a)) ∧
  if found then ∃ a, l !! Z.to_nat i = Some a ∧ fold a = fold name
  else ∀ a, l !! Z.to_nat i = Some a → lex (fold name) (fold a).

Section bisect.
Context (l : list (list Z)) (name : list Z) (entry_name : Z → R (list Z)) (s : reg).
Context (Hsorted : sorted_names l) (Hfits : Forall fits l) (Hname : fits name).
Context (Hentry : ∀ i a Q, 0 <= i → l !! Z.to_nat i = Some a → Q a s → wp (entry_name i) Q s).

Lemma bisect_run n : ∀ min max (Q : bool * Z → reg → Prop),
  0 <= min → max < Z.of_nat (length l) → min <= max + 1 → max - min < Z.of_nat n →
  (∀ j a, l !! j = Some a → Z.of_nat j < min → lex (fold a) (fold name)) →
  (∀ j a, l !! j = Some a → max < Z.of_nat j → lex (fold name) (fold a)) →
  (∀ found i, placed l name found i → Q (found, i) s) →
  wp (bisect to_lower n entry_name name min max) Q s.
Proof using Hsorted Hfits Hname Hentry.
  induction n as [|n IH]; intros min max Q Hmin Hmax Hle Hn Hlo Hhi HQ; cbn [bisect].
  - rewrite (proj2 (Z.ltb_lt _ _)) by lia. apply wp_ret, HQ. split_and!; [lia..|done|intros; apply (Hhi j); [done|lia]|].
    intros a Ha. apply (Hhi (Z.to_nat min)); [done|lia].
  - destruct (Z.ltb_spec max min) as [Hd|Hd].
    { apply wp_ret, HQ. split_and!; [lia..|done|intros; apply (Hhi j); [done|lia]|].
      intros a Ha. apply (Hhi (Z.to_nat min)); [done|lia]. }
    set (i := (min + max) / 2). assert (min <= i <= max) as Hi.
    { unfold i. split; [apply Z.div_le_lower_bound; lia|apply Z.div_le_upper_bound; lia]. }
    destruct (l !! Z.to_nat i) as [e|] eqn:He; [|apply lookup_ge_None in He; lia].
    apply wp_bind, (Hentry i e); [lia|done|]. cbv zeta.
    destruct (compare_names_spec e name) as (A & B & C); [by eapply (Forall_lookup_1 _ _ _ _ Hfits)|done|].
    destruct (Z.eqb_spec (compare_names to_lower e name) 0) as [E|E].
    + apply A in E. apply wp_ret, HQ. split_and!; [lia..| | |by exists e].
      * intros j a Ha Hj. rewrite <-E. apply (Hsorted j (Z.to_nat i)); [done..|lia].
      * intros j a Ha Hj. rewrite <-E. apply (Hsorted (Z.to_nat i) j); [done..|lia].
    + destruct (Z.ltb_spec 0 (compare_names to_lower e name)) as [Hg|Hg].
      * apply C in Hg. apply IH; try done; [lia..|]. intros j a Ha Hj. destruct (decide (j = Z.to_nat i)) as [->|Hne]; [by simplify_eq|].
        etransitivity; [exact Hg|]. apply (Hsorted (Z.to_nat i) j); [done..|lia].
      * assert (lex (fold e) (fold name)) as Hl by (apply B; lia). apply IH; try done; [lia..|]. intros j a Ha Hj.
        destruct (decide (j = Z.to_nat i)) as [->|Hne]; [by simplify_eq|]. etransitivity; [|exact Hl]. apply (Hsorted j (Z.to_nat i)); [done..|lia].
Qed.
End bisect.
End order.

(** * The tree of keys *)

(** A key is named in a key nearer to a root. *)
Definition ranked (rank : kid → nat) (m : gmap kid key) : Prop :=
  (∀ k, is_Some (m !! k) → (rank k < size m)%nat) ∧
  ∀ k ob name p, m !! k = Some ob → k_name ob = Some (name, Some p) → (rank p < rank k)%nat ∧
    ∃ pob pname, m !! p = Some pob ∧ k_name pob = Some pname.
Definition tree_ok (m : gmap kid key) : Prop := ∃ rank, ranked rank m.

(** The same key but for its modification time, its notifications and the mark. *)
Record similar (ob ob' : key) : Prop := {
  si_name : k_name ob' = k_name ob;
  si_class : k_class ob' = k_class ob;
  si_subkeys : k_last_subkey ob' = k_last_subkey ob ∧ k_nb_subkeys ob' = k_nb_subkeys ob ∧ k_subkeys ob' = k_subkeys ob;
  si_wow : k_wow6432node ob' = k_wow6432node ob;
  si_values : k_last_value ob' = k_last_value ob ∧ k_nb_values ob' = k_nb_values ob ∧ k_values ob' = k_values ob;
  si_flags : k_flags ob' = k_flags ob ∨ k_flags ob' = Z.lor (k_flags ob) KEY_DIRTY;
}.

#[export] Instance similar_preorder : PreOrder similar.
Proof.
  split; [intros ob; split; auto|]. intros a b c [A1 A2 A3 A4 A5 A6] [B1 B2 B3 B4 B5 B6].
  split; try (destruct_and!; split_and!; congruence); try congruence.
  destruct A6 as [EA|EA], B6 as [EB|EB]; rewrite EB, EA; auto. right. by rewrite <-Z.lor_assoc, Z.lor_diag.
Qed.

(** The same key but for its values, times, notifications and the mark. *)
Record kept (ob ob' : key) : Prop := {
  kp_name : k_name ob' = k_name ob;
  kp_class : k_class ob' = k_class ob;
  kp_subkeys : k_last_subkey ob' = k_last_subkey ob ∧ k_nb_subkeys ob' = k_nb_subkeys ob ∧ k_subkeys ob' = k_subkeys ob;
  kp_wow : k_wow6432node ob' = k_wow6432node ob;
  kp_flags : k_flags ob' = k_flags ob ∨ k_flags ob' = Z.lor (k_flags ob) KEY_DIRTY;
}.

#[export] Instance kept_preorder : PreOrder kept.
Proof.
  split; [intros ob; split; auto|]. intros a b c [A1 A2 A3 A4 A6] [B1 B2 B3 B4 B6].
  split; try (destruct_and!; split_and!; congruence); try congruence.
  destruct A6 as [EA|EA], B6 as [EB|EB]; rewrite EB, EA; auto. right. by rewrite <-Z.lor_assoc, Z.lor_diag.
Qed.

Lemma similar_kept ob ob' : similar ob ob' → kept ob ob'.
Proof. intros [? ? ? ? _ ?]. by split. Qed.

Definition similar_keys (m m' : gmap kid key) : Prop := ∀ k, option_Forall2 similar (m !! k) (m' !! k).

#[export] Instance similar_keys_preorder : PreOrder similar_keys.
Proof. split; [intros m k; reflexivity|]. intros a b c H1 H2 k. etransitivity; [apply H1|apply H2]. Qed.

Lemma similar_l m m' k ob : similar_keys m m' → m !! k = Some ob → ∃ ob', m' !! k = Some ob' ∧ similar ob ob'.
Proof. intros H Hk. specialize (H k). rewrite Hk in H. inversion H; subst. eauto. Qed.
Lemma similar_r m m' k ob' : similar_keys m m' → m' !! k = Some ob' → ∃ ob, m !! k = Some ob ∧ similar ob ob'.
Proof. intros H Hk. specialize (H k). rewrite Hk in H. inversion H; subst. eauto. Qed.

Lemma similar_insert m k ob ob' : m !! k = Some ob → similar ob ob' → similar_keys m (<[k:=ob']> m).
Proof.
  intros Hk Hs j. destruct (decide (j = k)) as [->|Hne]; [rewrite Hk, lookup_insert_eq; by constructor|].
  rewrite lookup_insert_ne by done. destruct (m !! j); constructor. reflexivity.
Qed.

Lemma similar_size m m' : similar_keys m m' → size m' = size m.
Proof.
  intros H. rewrite <-!size_dom. f_equal. apply set_eq. intros k. rewrite !elem_of_dom. specialize (H k). split; intros [x Hx]; rewrite Hx in H; inversion H; eauto.
Qed.

Lemma similar_ranked rank m m' : similar_keys m m' → ranked rank m → ranked rank m'.
Proof.
  intros H [Hr Hp]. split.
  - intros k [ob Hk]. rewrite (similar_size m m' H). destruct (similar_r _ _ _ _ H Hk) as (ob0 & ? & _). apply Hr. eauto.
  - intros k ob name p Hk Hn. destruct (similar_r _ _ _ _ H Hk) as (ob0 & Hk0 & Hs). rewrite (si_name _ _ Hs) in Hn.
    destruct (Hp k ob0 name p Hk0 Hn) as (? & pob & pn & Hpob & Hpn). split; [done|].
    destruct (similar_l _ _ _ _ H Hpob) as (pob' & ? & Hs'). exists pob', pn. by rewrite (si_name _ _ Hs').
Qed.
Lemma similar_tree m m' : similar_keys m m' → tree_ok m → tree_ok m'.
Proof. intros H [rank Hr]. exists rank. by eapply similar_ranked. Qed.

(** Nothing but keys and signaled events differs. *)
Definition reg_rest (s s' : reg) : Prop :=
  rg_time s' = rg_time s ∧ rg_error s' = rg_error s ∧ rg_allocs s' = rg_allocs s ∧ rg_junk s' = rg_junk s ∧ rg_info s' = rg_info s.
#[export] Instance reg_rest_preorder : PreOrder reg_rest.
Proof. split; [done|]. intros a b c (?&?&?&?&?) (?&?&?&?&?). split_and!; congruence. Qed.

Lemma wp_get_key k ob (Q : key → reg → Prop) s : keys s !! k = Some ob → Q ob s → wp (get_key k) Q s.
Proof. intros Hk HQ. unfold get_key. apply wp_bind. unfold wp, get. by apply (wp_deref _ ob). Qed.
Lemma wp_put_key k ob (Q : unit → reg → Prop) s : Q tt (set_keys (<[k:=ob]>) s) → wp (put_key k ob) Q s.
Proof. done. Qed.
Lemma wp_get_parent k ob name p (Q : option kid → reg → Prop) s :
  keys s !! k = Some ob → k_name ob = Some (name, p) → Q p s → wp (get_parent k) Q s.
Proof. intros Hk Hn HQ. unfold get_parent. apply wp_bind, (wp_get_key _ ob); [done|]. rewrite Hn. done. Qed.

(** A state whose keys are similar. *)
Definition touched (s s' : reg) : Prop := similar_keys (keys s) (keys s') ∧ reg_rest s s'.
#[export] Instance touched_preorder : PreOrder touched.
Proof. split; [by split|]. intros a b c [? ?] [? ?]. split; by etransitivity. Qed.

Lemma touched_put s k ob ob' : keys s !! k = Some ob → similar ob ob' → touched s (set_keys (<[k:=ob']>) s).
Proof. intros Hk Hs. split; [|done]. by apply (similar_insert _ k ob). Qed.

Lemma check_notify_loop_ok l change b (Q : list notify → reg → Prop) s :
  (∀ l' s', keys s' = keys s → reg_rest s s' → Q l' s') → wp (check_notify_loop l change b) Q s.
Proof.
  revert Q s. induction l as [|n l IH]; intros Q s HQ; cbn [check_notify_loop]; [by apply HQ|]. apply wp_bind.
  destruct ((b || n_subtree n) && has change (n_filter n)).
  - unfold do_notification. apply wp_bind, wp_modify, wp_ret, wp_bind. apply IH. intros l' s' Hk Hr. apply wp_ret, HQ; [done|].
    etransitivity; [|exact Hr]. done.
  - apply wp_ret, wp_bind, IH. intros l' s' Hk Hr. by apply wp_ret, HQ.
Qed.

Lemma check_notify_ok k ob change b (Q : unit → reg → Prop) s : keys s !! k = Some ob →
  (∀ s', touched s s' → (∃ l, keys s' !! k = Some (k_set_notify l ob)) → (∀ j, j ≠ k → keys s' !! j = keys s !! j) → Q tt s') →
  wp (check_notify k change b) Q s.
Proof.
  intros Hk HQ. unfold check_notify. apply wp_bind, (wp_get_key _ ob); [done|]. apply wp_bind, check_notify_loop_ok. intros l s1 Hk1 Hr1.
  apply wp_bind, (wp_get_key _ ob); [by rewrite Hk1|]. apply wp_put_key, HQ.
  - split; [|exact Hr1]. simpl. rewrite Hk1. apply (similar_insert _ k ob); [done|]. split; auto.
  - exists l. simpl. by rewrite lookup_insert_eq.
  - intros j Hj. simpl. by rewrite lookup_insert_ne, Hk1.
Qed.

Lemma dirty_mark f : has (Z.lor f KEY_DIRTY) (Z.lor KEY_DIRTY KEY_VOLATILE) = true.
Proof.
  apply has_true. intros E. apply (f_equal (λ z, Z.testbit z 2)) in E. rewrite Z.land_spec, Z.lor_spec, Z.bits_0 in E.
  change (Z.testbit KEY_DIRTY 2) with true in E. change (Z.testbit (Z.lor KEY_DIRTY KEY_VOLATILE) 2) with true in E.
  by rewrite orb_true_r in E.
Qed.

Lemma make_dirty_ok rank n : ∀ k (Q : unit → reg → Prop) s,
  ranked rank (keys s) → (∀ j, k = Some j → (rank j < n)%nat ∧ ∃ ob nm, keys s !! j = Some ob ∧ k_name ob = Some nm) →
  (∀ s', touched s s' → (∀ j, (∀ i, k = Some i → (rank i < rank j)%nat) → keys s' !! j = keys s !! j) →
     (∀ j ob, k = Some j → keys s !! j = Some ob →
        ∃ f, keys s' !! j = Some (k_set_flags f ob) ∧ has f (Z.lor KEY_DIRTY KEY_VOLATILE) = true) → Q tt s') →
  wp (make_dirty n k) Q s.
Proof.
  induction n as [|n IH]; intros [k|] Q s Hrk Hk HQ; cbn [make_dirty]; try (apply wp_ret, HQ; done).
  - destruct (Hk k eq_refl). lia.
  - destruct (Hk k eq_refl) as (Hlt & ob & [nm p] & Hob & Hnm). apply wp_bind, (wp_get_key _ ob); [done|].
    destruct (has (k_flags ob) (Z.lor KEY_DIRTY KEY_VOLATILE)) eqn:Ef.
    { apply wp_ret, HQ; [done|done|]. intros j obj [= <-] Hj. rewrite Hob in Hj. injection Hj as <-. exists (k_flags ob). split; [|done]. rewrite Hob. by destruct ob. }
    set (ob1 := k_set_flags (Z.lor (k_flags ob) KEY_DIRTY) ob). apply wp_bind, wp_put_key. set (s1 := set_keys _ s).
    assert (touched s s1) as Ht1 by (apply (touched_put s k ob); [done|split; auto]).
    assert (keys s1 !! k = Some ob1) as Hk1 by apply lookup_insert_eq.
    assert (Hpk : ∀ j, p = Some j → (rank j < rank k)%nat) by (intros j ->; apply (proj2 Hrk k ob nm j Hob Hnm)).
    apply wp_bind, (wp_get_parent k ob1 nm p); [done|done|]. apply IH.
    + eapply similar_ranked; [apply Ht1|done].
    + intros j ->. destruct (proj2 Hrk k ob nm j Hob Hnm) as (Hj & pob & pn & Hpob & Hpn). split; [lia|]. exists pob, pn.
      split; [|done]. simpl. rewrite lookup_insert_ne by (intros ->; lia). done.
    + intros s2 Ht2 Hsame Hd2. apply HQ; [by etransitivity| |].
      * intros j Hj. specialize (Hj k eq_refl). rewrite Hsame by (intros i Hi; specialize (Hpk i Hi); lia).
        simpl. rewrite lookup_insert_ne by (intros ->; lia). done.
      * intros j obj [= <-] Hj. rewrite Hob in Hj. injection Hj as <-. eexists. rewrite Hsame, Hk1 by done. split; [done|]. apply dirty_mark.
Qed.

Lemma notify_parents_ok rank change n : ∀ k (Q : unit → reg → Prop) s,
  ranked rank (keys s) → (∀ j, k = Some j → (rank j < n)%nat ∧ ∃ ob nm, keys s !! j = Some ob ∧ k_name ob = Some nm) →
  (∀ s', touched s s' → (∀ j, (∀ i, k = Some i → (rank i < rank j)%nat) → keys s' !! j = keys s !! j) → Q tt s') →
  wp (notify_parents n k change) Q s.
Proof.
  induction n as [|n IH]; intros [k|] Q s Hrk Hk HQ; cbn [notify_parents]; try (apply wp_ret, HQ; done).
  - destruct (Hk k eq_refl). lia.
  - destruct (Hk k eq_refl) as (Hlt & ob & [nm p] & Hob & Hnm). apply wp_bind, (check_notify_ok k ob); [done|].
    intros s1 Ht1 [l Hk1] Hs1. assert (Hpk : ∀ j, p = Some j → (rank j < rank k)%nat) by (intros j ->; apply (proj2 Hrk k ob nm j Hob Hnm)).
    apply wp_bind, (wp_get_parent k (k_set_notify l ob) nm p); [done|done|]. apply IH.
    + eapply similar_ranked; [apply Ht1|done].
    + intros j ->. destruct (proj2 Hrk k ob nm j Hob Hnm) as (Hj & pob & pn & Hpob & Hpn). split; [lia|]. exists pob, pn.
      split; [|done]. rewrite Hs1 by (intros ->; lia). done.
    + intros s2 Ht2 Hsame. apply HQ; [by etransitivity|]. intros j Hj. specialize (Hj k eq_refl).
      rewrite Hsame by (intros i Hi; specialize (Hpk i Hi); lia). apply Hs1. intros ->. lia.
Qed.

(** Marking a key as modified. *)
Lemma touch_key_ok k ob nm change s : tree_ok (keys s) → keys s !! k = Some ob → k_name ob = Some nm →
  wp (touch_key k change) (λ _ s', touched s s' ∧ ∃ ob', keys s' !! k = Some ob' ∧ similar ob ob' ∧ k_modif ob' = rg_time s ∧
    has (k_flags ob') (Z.lor KEY_DIRTY KEY_VOLATILE) = true) s.
Proof.
  intros [rank Hrk] Hk Hnm. destruct nm as [nm p]. unfold touch_key. wp_steps. apply (wp_get_key _ ob); [done|].
  set (ob1 := k_set_modif (rg_time s) ob). apply wp_bind, wp_put_key. set (s1 := set_keys _ s).
  assert (touched s s1) as Ht1 by (apply (touched_put s k ob); [done|split; auto]).
  assert (keys s1 !! k = Some ob1) as Hk1 by apply lookup_insert_eq.
  assert (ranked rank (keys s1)) as Hrk1 by (eapply similar_ranked; [apply Ht1|done]).
  apply wp_bind, (make_dirty_ok rank); [done| |].
  { intros j [= <-]. split; [apply Hrk; eauto|]. exists ob1, (nm, p). done. }
  intros s2 Ht2 _ Hd2. destruct (Hd2 k ob1 eq_refl Hk1) as (f & Hk2 & Hf). assert (touched s s2) as Ht02 by (by etransitivity).
  assert (ranked rank (keys s2)) as Hrk2 by (eapply similar_ranked; [apply Ht02|done]).
  apply wp_bind, (check_notify_ok k (k_set_flags f ob1)); [done|]. intros s3 Ht3 [l Hk3] Hs3.
  assert (touched s s3) as Ht03 by (by etransitivity). assert (ranked rank (keys s3)) as Hrk3 by (eapply similar_ranked; [apply Ht03|done]).
  apply wp_bind, (wp_get_parent k (k_set_notify l (k_set_flags f ob1)) nm p); [done|done|]. apply (notify_parents_ok rank); [done| |].
  - intros j ->. destruct (proj2 Hrk3 k _ nm j Hk3 Hnm) as (Hj & pob & pn & Hpob & Hpn). split; [|by exists pob, pn].
    assert (rank k < size (keys s))%nat by (apply Hrk; eauto). lia.
  - intros s4 Ht4 Hsame. assert (touched s s4) as Ht04 by (by etransitivity). split; [done|]. exists (k_set_notify l (k_set_flags f ob1)).
    rewrite Hsame, Hk3 by (intros i ->; apply (proj2 Hrk3 k _ nm i Hk3 Hnm)). split_and!; try done.
    destruct (similar_l _ _ k ob (proj1 Ht03) Hk) as (ob' & Hob' & Hs'). by simplify_eq.
Qed.
