(* ===== verification/RegistryThms.v ===== *)
(** * The values of a key

    The array of values under its invariant, and the operations on values.

    ** The operations on values

    [set_value], [get_value] and [delete_value] implement a map from names, without
    regard to case, to types and data. *)

From stdpp Require Import base list gmap fin_maps.
From S2P Require Import Prelude RegText Registry RegistryInv.

Open Scope Z_scope.
Open Scope server_scope.

(** ** Moving cells *)

Lemma shift_up_ok {A} n : ∀ (a : list A) (i : Z) (Q : list A → reg → Prop) s,
  Z.of_nat n <= i < Z.of_nat (length a) →
  (∀ a', length a' = length a → (∀ j, a' !! j = if decide (i - Z.of_nat n < Z.of_nat j <= i) then a !! (j - 1)%nat else a !! j) → Q a' s) →
  wp (shift_up n a i) Q s.
Proof.
  induction n as [|n IH]; intros a i Q s Hi HQ; cbn [shift_up].
  - apply wp_ret, HQ; [done|]. intros j. rewrite decide_False by lia. done.
  - destruct (lookup_lt_is_Some_2 a (Z.to_nat (i - 1))) as [x Hx]; [lia|].
    apply wp_bind, (wp_arr_get _ _ x); [lia|done|]. apply wp_bind, wp_arr_set; [lia|].
    apply IH; [rewrite length_insert; lia|]. intros a' Hl Ha'. apply HQ; [by rewrite Hl, length_insert|]. intros j. rewrite Ha'.
    destruct (decide (Z.of_nat j = i)) as [Hj|Hj].
    + rewrite decide_False, decide_True by lia. replace (Z.to_nat i) with j by lia. rewrite list_lookup_insert_eq by lia. rewrite <-Hx. f_equal. lia.
    + case_decide as H1.
      * rewrite decide_True by lia. rewrite list_lookup_insert_ne by lia. done.
      * rewrite list_lookup_insert_ne by lia. rewrite decide_False by lia. done.
Qed.

Lemma shift_down_ok {A} n : ∀ (a : list A) (i : Z) (Q : list A → reg → Prop) s,
  0 <= i → i + Z.of_nat n < Z.of_nat (length a) →
  (∀ a', length a' = length a → (∀ j, a' !! j = if decide (i <= Z.of_nat j < i + Z.of_nat n) then a !! (j + 1)%nat else a !! j) → Q a' s) →
  wp (shift_down n a i) Q s.
Proof.
  induction n as [|n IH]; intros a i Q s Hi Hn HQ; cbn [shift_down].
  - apply wp_ret, HQ; [done|]. intros j. rewrite decide_False by lia. done.
  - destruct (lookup_lt_is_Some_2 a (Z.to_nat (i + 1))) as [x Hx]; [lia|].
    apply wp_bind, (wp_arr_get _ _ x); [lia|done|]. apply wp_bind, wp_arr_set; [lia|].
    apply IH; [lia|rewrite length_insert; lia|]. intros a' Hl Ha'. apply HQ; [by rewrite Hl, length_insert|]. intros j. rewrite Ha'.
    destruct (decide (Z.of_nat j = i)) as [Hj|Hj].
    + rewrite decide_False, decide_True by lia. replace (Z.to_nat i) with j by lia. rewrite list_lookup_insert_eq by lia. rewrite <-Hx. f_equal. lia.
    + case_decide as H1.
      * rewrite decide_True by lia. rewrite list_lookup_insert_ne by lia. done.
      * rewrite list_lookup_insert_ne by lia. rewrite decide_False by lia. done.
Qed.

(** Making room in the first [n] cells and filling it. *)
Lemma shift_up_insert {A} (a a' : list A) (n i : nat) x :
  (i <= n)%nat → (n < length a)%nat → length a' = length a →
  (∀ j, a' !! j = if decide (Z.of_nat n - Z.of_nat (n - i) < Z.of_nat j <= Z.of_nat n) then a !! (j - 1)%nat else a !! j) →
  take (S n) (<[i:=x]> a') = take i (take n a) ++ x :: drop i (take n a).
Proof.
  intros Hi Hn Hl Ha'. apply list_eq. intros j. destruct (decide (j < S n)%nat) as [Hj|Hj].
  2:{ rewrite lookup_take_ge by lia. symmetry. apply lookup_ge_None. rewrite length_app, length_cons, length_drop, !length_take. lia. }
  rewrite lookup_take_lt by lia. destruct (Nat.lt_trichotomy j i) as [Hji|[->|Hji]].
  - rewrite list_lookup_insert_ne, Ha', decide_False by lia. rewrite lookup_app_l by (rewrite !length_take; lia).
    by rewrite !lookup_take_lt by lia.
  - rewrite list_lookup_insert_eq by lia. rewrite lookup_app_r by (rewrite !length_take; lia).
    rewrite !length_take. by replace (i - _)%nat with 0%nat by lia.
  - rewrite list_lookup_insert_ne, Ha', decide_True by lia. rewrite lookup_app_r by (rewrite !length_take; lia). rewrite !length_take.
    replace (j - _ `min` _)%nat with (S (j - i - 1)) by lia. change ((x :: drop i (take n a)) !! S (j - i - 1)) with (drop i (take n a) !! (j - i - 1)%nat). rewrite lookup_drop, lookup_take_lt by lia. f_equal. lia.
Qed.

Lemma shift_down_delete {A} (a a' : list A) (n i : nat) :
  (i < n)%nat → (n <= length a)%nat → length a' = length a →
  (∀ j, a' !! j = if decide (Z.of_nat i <= Z.of_nat j < Z.of_nat i + Z.of_nat (n - 1 - i)) then a !! (j + 1)%nat else a !! j) →
  take (n - 1) a' = delete i (take n a).
Proof.
  intros Hi Hn Hl Ha'. apply list_eq. intros j. destruct (decide (j < n - 1)%nat) as [Hj|Hj].
  2:{ rewrite lookup_take_ge by lia. symmetry. apply lookup_ge_None. rewrite length_delete by (apply lookup_lt_is_Some_2; rewrite length_take; lia).
      rewrite length_take. lia. }
  rewrite lookup_take_lt by lia. rewrite Ha'. destruct (decide (j < i)%nat).
  - rewrite decide_False by lia. rewrite list_lookup_delete_lt by lia. by rewrite lookup_take_lt by lia.
  - rewrite decide_True by lia. rewrite list_lookup_delete_ge by lia. rewrite lookup_take_lt by lia. f_equal. lia.
Qed.

(** ** The invariant *)

(** The values of a key, in the order of the array. *)
Definition values (ob : key) : list key_value := omap id (take (Z.to_nat (k_last_value ob + 1)) (k_values ob)).

Section values.
Context (to_lower : Z → Z).
Notation fold name := (to_lower <$> name).

Record values_ok (ob : key) : Prop := {
  vo_nb : k_nb_values ob = Z.of_nat (length (k_values ob));
  vo_last : -1 <= k_last_value ob < k_nb_values ob ∨ k_last_value ob = -1 ∧ k_nb_values ob = 0;
  vo_min : k_nb_values ob = 0 ∨ MIN_VALUES <= k_nb_values ob;
  vo_used : take (Z.to_nat (k_last_value ob + 1)) (k_values ob) = Some <$> values ob;
  vo_sorted : sorted_names to_lower (v_name <$> values ob);
  vo_names : Forall (λ v, Z.of_nat (length (v_name v)) <= MAX_VALUE_LEN) (values ob);
}.

(** What a name stands for: the type and the data of the value, without regard to
    case. *)
Definition same_name (n1 n2 : list Z) : bool := bool_decide (fold n1 = fold n2).
Definition find_in (name : list Z) (l : list key_value) : option key_value := List.find (λ v, same_name (v_name v) name) l.
Definition value_at (ob : key) (name : list Z) : option (Z * list Z) :=
  (λ v, (v_type v, v_data v)) <$> find_in name (values ob).

Lemma omap_id_Some {A} (l : list A) : omap id (Some <$> l) = l.
Proof. induction l as [|a l IH]; [done|]. simpl. by f_equal. Qed.

(** The invariant of an array with the values [vs]. *)
Lemma values_ok_intro ob vs : k_nb_values ob = Z.of_nat (length (k_values ob)) → k_last_value ob = Z.of_nat (length vs) - 1 →
  (k_nb_values ob = 0 ∨ MIN_VALUES <= k_nb_values ob) → take (length vs) (k_values ob) = Some <$> vs →
  sorted_names to_lower (v_name <$> vs) → Forall (λ v, Z.of_nat (length (v_name v)) <= MAX_VALUE_LEN) vs →
  values_ok ob ∧ values ob = vs.
Proof.
  intros Hnb Hl Hmin Ht Hs Hn. assert (Z.to_nat (k_last_value ob + 1) = length vs) as El by lia.
  assert (values ob = vs) as Ev by (unfold values; rewrite El, Ht; apply omap_id_Some). split; [|done].
  assert (length vs <= length (k_values ob))%nat as Hle.
  { apply (f_equal length) in Ht. rewrite length_take, length_fmap in Ht. lia. }
  split; rewrite ?Ev, ?El; try done. destruct vs; simpl in *; [|left; lia]. destruct (k_values ob); simpl in *; [right; lia|left; lia].
Qed.

Lemma values_length ob : values_ok ob → Z.of_nat (length (values ob)) = k_last_value ob + 1 ∧ (length (values ob) <= length (k_values ob))%nat.
Proof.
  intros [A B _ C _ _]. apply (f_equal length) in C. rewrite length_take, length_fmap in C. lia.
Qed.
Lemma values_take ob : values_ok ob → take (length (values ob)) (k_values ob) = Some <$> values ob.
Proof. intros H. pose proof (values_length ob H) as [E _]. rewrite <-(vo_used _ H). f_equal. lia. Qed.

Lemma values_lookup ob i v : values_ok ob → values ob !! i = Some v → k_values ob !! i = Some (Some v).
Proof.
  intros H Hi. pose proof (values_take ob H) as Ht. pose proof (lookup_lt_Some _ _ _ Hi).
  rewrite <-(lookup_take_lt _ (length (values ob))), Ht by lia. by rewrite list_lookup_fmap, Hi.
Qed.

Lemma fits_value name : Z.of_nat (length name) <= MAX_VALUE_LEN → fits name.
Proof. unfold fits, MAX_VALUE_LEN. lia. Qed.

(** ** Searching *)

Lemma wp_read_cell {A} (l : list (option A)) i a (Q : A → reg → Prop) s :
  0 <= i → l !! Z.to_nat i = Some (Some a) → Q a s → wp (read_cell l i) Q s.
Proof. intros Hi Hl HQ. unfold read_cell. apply wp_bind, (wp_arr_get _ _ (Some a)); done. Qed.

Lemma find_value_ok ob name (Q : bool * Z → reg → Prop) s : values_ok ob → fits name →
  (∀ found i, placed to_lower (v_name <$> values ob) name found i → Q (found, i) s) → wp (find_value to_lower ob name) Q s.
Proof.
  intros Hv Hn HQ. pose proof (values_length ob Hv) as [Hl Hle]. unfold find_value.
  apply (bisect_run to_lower (v_name <$> values ob)); try done.
  - apply Hv.
  - apply Forall_fmap. eapply Forall_impl; [apply (vo_names _ Hv)|]. intros v. apply fits_value.
  - intros i a Q' Hi Ha HQ'. rewrite list_lookup_fmap in Ha. apply fmap_Some in Ha as (v & Hv' & ->).
    apply wp_bind, (wp_read_cell _ _ v); [done|by apply values_lookup|]. by apply wp_ret.
  - rewrite length_fmap. lia.
  - lia.
  - lia.
  - intros j a Ha Hj. lia.
  - intros j a Ha Hj. apply lookup_lt_Some in Ha. rewrite length_fmap in Ha. lia.
Qed.

Lemma find_in_app name l1 l2 : find_in name (l1 ++ l2) = match find_in name l1 with Some v => Some v | None => find_in name l2 end.
Proof. unfold find_in. induction l1 as [|v l1 IH]; simpl; [done|]. by destruct (same_name (v_name v) name). Qed.
Lemma find_in_none name l : (∀ v, v ∈ l → fold (v_name v) ≠ fold name) → find_in name l = None.
Proof.
  unfold find_in. induction l as [|v l IH]; intros H; simpl; [done|]. unfold same_name at 1. rewrite bool_decide_eq_false_2 by (apply H; by left).
  apply IH. intros w Hw. apply H. by right.
Qed.

Lemma find_in_cons name v l : find_in name (v :: l) = if same_name (v_name v) name then Some v else find_in name l.
Proof. done. Qed.

(** The parts of the array before and behind a place. *)
Lemma placed_split {A} {nm : A → list Z} (vs : list A) name found i : placed to_lower (nm <$> vs) name found i →
  (∀ v, v ∈ take (Z.to_nat i) vs → lex (fold (nm v)) (fold name)) ∧
  (∀ v, v ∈ drop (Z.to_nat i + if found then 1 else 0) vs → lex (fold name) (fold (nm v))) ∧
  if found then ∃ v, vs !! Z.to_nat i = Some v ∧ fold (nm v) = fold name else True.
Proof.
  intros ((Hi & Hi2) & Hlo & Hhi & Hf). split_and!.
  - intros v [j Hj]%list_elem_of_lookup. pose proof (lookup_lt_Some _ _ _ Hj) as Hlt. rewrite length_take in Hlt.
    rewrite lookup_take_lt in Hj by lia. apply (Hlo j); [by rewrite list_lookup_fmap, Hj|lia].
  - intros v [j Hj]%list_elem_of_lookup. rewrite lookup_drop in Hj. destruct found.
    + apply (Hhi (Z.to_nat i + 1 + j)%nat); [by rewrite list_lookup_fmap, Hj|lia].
    + rewrite Nat.add_0_r in Hj. destruct j as [|j]; [rewrite Nat.add_0_r in Hj; apply Hf; by rewrite list_lookup_fmap, Hj|].
      apply (Hhi (Z.to_nat i + S j)%nat); [by rewrite list_lookup_fmap, Hj|lia].
  - destruct found; [|done]. destruct Hf as (a & Ha & E). rewrite list_lookup_fmap in Ha. apply fmap_Some in Ha as (v & ? & ->). eauto.
Qed.

Lemma placed_found vs name i v : placed to_lower (v_name <$> vs) name true i → vs !! Z.to_nat i = Some v →
  fold (v_name v) = fold name ∧ find_in name vs = Some v.
Proof.
  intros Hp Hv. destruct (placed_split _ _ _ _ Hp) as (Hlo & _ & v' & Hv' & E). simplify_eq. split; [done|].
  rewrite <-(take_drop_middle vs (Z.to_nat i) v Hv), find_in_app, find_in_none by (intros w Hw; by apply lex_neq, Hlo).
  rewrite find_in_cons. unfold same_name. by rewrite bool_decide_eq_true_2.
Qed.
Lemma placed_missing vs name i : placed to_lower (v_name <$> vs) name false i → find_in name vs = None.
Proof.
  intros Hp. destruct (placed_split _ _ _ _ Hp) as (Hlo & Hhi & _). rewrite Nat.add_0_r in Hhi. apply find_in_none. intros v Hv.
  rewrite <-(take_drop (Z.to_nat i) vs) in Hv. apply elem_of_app in Hv as [Hv|Hv]; [by apply lex_neq, Hlo|].
  symmetry. by apply lex_neq, Hhi.
Qed.

(** ** Memory *)

(** Nothing but keys, the error and the supply of memory differs. *)
Definition reg_env (s s' : reg) : Prop :=
  rg_time s' = rg_time s ∧ rg_junk s' = rg_junk s ∧ rg_signaled s' = rg_signaled s ∧ rg_info s' = rg_info s.

Lemma reg_env_trans s1 s2 s3 : reg_env s1 s2 → reg_env s2 s3 → reg_env s1 s3.
Proof. intros (?&?&?&?) (?&?&?&?). split_and!; congruence. Qed.

Lemma wp_reg_malloc (Q : bool → reg → Prop) s :
  (∀ b l, (rg_allocs s = [] → b = true ∧ l = []) → Q b (set_rg_allocs l s)) → wp reg_malloc Q s.
Proof.
  intros HQ. unfold reg_malloc. wp_steps. destruct (rg_allocs s) as [|b l] eqn:E.
  - apply wp_ret. assert (set_rg_allocs [] s = s) as <- by (destruct s; simpl in *; by subst). by apply HQ.
  - apply wp_bind, wp_modify, wp_ret. by apply HQ.
Qed.

(** What an allocation that may fail leaves: on failure the error is set. *)
Definition allocated (b : bool) (s s' : reg) : Prop :=
  keys s' = keys s ∧ reg_env s s' ∧ rg_error s' = (if b then rg_error s else REG_NO_MEMORY) ∧ (rg_allocs s = [] → b = true ∧ rg_allocs s' = []).

Lemma wp_reg_mem_alloc (Q : bool → reg → Prop) s : (∀ b s', allocated b s s' → Q b s') → wp reg_mem_alloc Q s.
Proof.
  intros HQ. unfold reg_mem_alloc. apply wp_bind, wp_reg_malloc. intros [] l Hl.
  - by apply wp_ret, HQ.
  - by apply wp_bind, wp_modify, wp_ret, HQ.
Qed.

(** ** Inserting *)

(** The key [ob] with another array of values. *)
Definition revalued (ob ob' : key) : Prop := ∃ last nb l, ob' = k_set_values last nb l ob.
Lemma revalued_refl ob : revalued ob ob.
Proof. exists (k_last_value ob), (k_nb_values ob), (k_values ob). by destruct ob. Qed.
Lemma revalued_kept ob ob' : revalued ob ob' → kept ob ob'.
Proof. intros (?&?&?&->). split; auto. Qed.
Lemma revalued_trans a b c : revalued a b → revalued b c → revalued a c.
Proof. intros (?&?&?&->) (?&?&?&->). unfold revalued. eauto. Qed.

(** Key [k] has the values [vs] now; if memory was short the error says so. *)
Definition revalues (k : kid) (ob : key) (vs : list key_value) (s s' : reg) : Prop :=
  ∃ ob', keys s' = <[k:=ob']> (keys s) ∧ revalued ob ob' ∧ values_ok ob' ∧ values ob' = vs.

Lemma grow_values_ok k ob s (Q : bool → reg → Prop) : keys s !! k = Some ob → values_ok ob →
  (∀ b s', revalues k ob (values ob) s s' → reg_env s s' → (rg_allocs s = [] → b = true ∧ rg_allocs s' = []) →
     rg_error s' = (if b then rg_error s else REG_NO_MEMORY) →
     (b = true → ∃ ob', keys s' !! k = Some ob' ∧ k_last_value ob' = k_last_value ob ∧ k_last_value ob + 1 < k_nb_values ob') → Q b s') →
  k_last_value ob + 1 = k_nb_values ob → wp (grow_values k) Q s.
Proof.
  intros Hk Hv HQ Hfull. pose proof (values_length ob Hv) as [Hl Hle]. unfold grow_values. apply wp_bind, (wp_get_key _ ob); [done|].
  assert (Hsame : ∀ s1, keys s1 = keys s → revalues k ob (values ob) s s1).
  { intros s1 E. exists ob. rewrite E, insert_id by done. split_and!; try done. apply revalued_refl. }
  assert (Hgrow : ∀ nb s1, keys s1 = keys s → reg_env s s1 → (rg_allocs s = [] → rg_allocs s1 = []) → rg_error s1 = rg_error s →
    k_nb_values ob < nb → MIN_VALUES <= nb →
    wp (put_key k (k_set_values (k_last_value ob) nb (k_values ob ++ replicate (Z.to_nat nb - length (k_values ob)) None) ob) ;; ret true) Q s1).
  { intros nb s1 Hk1 He1 Ha1 Hr1 Hnb Hmin. apply wp_bind, wp_put_key, wp_ret, HQ; try done.
    - eexists. simpl. rewrite Hk1. split; [done|]. split; [by exists (k_last_value ob), nb, (k_values ob ++ replicate (Z.to_nat nb - length (k_values ob)) None)|].
      pose proof (vo_nb _ Hv). apply values_ok_intro; simpl; try apply Hv; [rewrite length_app, length_replicate; lia|lia|by right|].
      rewrite take_app_le by done. by apply values_take.
    - intros E. split; [done|]. simpl. auto.
    - intros _. eexists. simpl. rewrite lookup_insert_eq. split; [done|]. simpl. split; [done|]. lia. }
  destruct (Z.eqb_spec (k_nb_values ob) 0) as [E0|E0]; cbn [negb].
  - apply wp_bind, wp_bind, wp_reg_mem_alloc. intros [] s1 (Hk1 & He1 & Hr1 & Ha1); apply wp_ret.
    + apply Hgrow; try done; unfold MIN_VALUES in *; (lia || naive_solver).
    + by apply wp_ret, HQ; auto.
  - apply wp_bind, wp_bind, wp_reg_malloc. intros [] l Hl'; cbn [negb].
    + apply wp_ret. pose proof (vo_min _ Hv). assert (0 < k_nb_values ob / 2) by (apply Z.div_str_pos; unfold MIN_VALUES in *; lia).
      apply Hgrow; try done; unfold MIN_VALUES in *; (lia || naive_solver).
    + apply wp_bind. apply wp_modify, wp_ret, wp_ret, HQ; try done. by apply Hsame.
Qed.
End values.

(** * The operations on values *)

Section ops.
Context (to_lower : Z → Z).
Notation fold name := (to_lower <$> name).
Notation values_ok := (values_ok to_lower).
Notation revalues := (revalues to_lower).

Definition inserted {A} (i : Z) (v : A) (vs : list A) : list A := take (Z.to_nat i) vs ++ v :: drop (Z.to_nat i) vs.

Lemma inserted_sorted {A} (nm : A → list Z) i v vs : sorted_names to_lower (nm <$> vs) → placed to_lower (nm <$> vs) (nm v) false i →
  sorted_names to_lower (nm <$> inserted i v vs).
Proof.
  intros Hs Hp. destruct (placed_split to_lower vs _ _ _ Hp) as (Hlo & Hhi & _). rewrite Nat.add_0_r in Hhi.
  unfold inserted. rewrite fmap_app. rewrite <-(take_drop (Z.to_nat i) vs), fmap_app, sorted_names_app in Hs. destruct Hs as (H1 & H2 & H3).
  change (nm <$> v :: drop (Z.to_nat i) vs) with ([nm v] ++ (nm <$> drop (Z.to_nat i) vs)).
  assert (∀ a, a ∈ nm <$> take (Z.to_nat i) vs → lex (fold a) (fold (nm v))) as Hl by (intros a (w & -> & Hw)%list_elem_of_fmap; auto).
  assert (∀ a, a ∈ nm <$> drop (Z.to_nat i) vs → lex (fold (nm v)) (fold a)) as Hh by (intros a (w & -> & Hw)%list_elem_of_fmap; auto).
  apply sorted_names_app. split_and!; [done| |].
  - apply sorted_names_app. split_and!; [|done|].
    + intros a b x y Ha Hb. apply lookup_lt_Some in Ha, Hb. simpl in *. lia.
    + intros a b ->%list_elem_of_singleton Hb. auto.
  - intros a b Ha [Hb|Hb]%elem_of_app; [|by apply H3]. apply list_elem_of_singleton in Hb as ->. auto.
Qed.

Lemma inserted_find i v vs name : placed to_lower (v_name <$> vs) (v_name v) false i →
  find_in to_lower name (inserted i v vs) = if same_name to_lower (v_name v) name then Some v else find_in to_lower name vs.
Proof.
  intros Hp. destruct (placed_split to_lower vs _ _ _ Hp) as (Hlo & Hhi & _). unfold inserted. rewrite find_in_app, find_in_cons.
  replace (find_in to_lower name vs) with (find_in to_lower name (take (Z.to_nat i) vs ++ drop (Z.to_nat i) vs)) by (by rewrite take_drop).
  rewrite find_in_app. unfold same_name. case_bool_decide as E; [|done].
  rewrite find_in_none; [done|]. intros w Hw. rewrite <-E. by apply lex_neq, Hlo.
Qed.

Lemma inserted_forall {A} (P : A → Prop) i v (vs : list A) : Forall P vs → P v → Forall P (inserted i v vs).
Proof. intros H Hv. unfold inserted. apply Forall_app. split; [by apply Forall_take|]. constructor; [done|by apply Forall_drop]. Qed.

Lemma inserted_length {A} i (v : A) vs : length (inserted i v vs) = S (length vs).
Proof. unfold inserted. rewrite length_app. simpl. rewrite length_take, length_drop. lia. Qed.

Lemma place_value_ok k ob name i s : keys s !! k = Some ob → values_ok ob → k_last_value ob + 1 < k_nb_values ob →
  Z.of_nat (length name) <= MAX_VALUE_LEN → placed to_lower (v_name <$> values ob) name false i →
  wp (place_value k name i) (λ _ s', reg_rest s s' ∧ rg_signaled s' = rg_signaled s ∧
    ∃ type, revalues k ob (inserted i (KeyValue name type []) (values ob)) s s') s.
Proof.
  intros Hk Hv Hroom Hshort Hp. pose proof (values_length to_lower ob Hv) as [Hl Hle]. pose proof (vo_nb _ _ Hv) as Hnb.
  assert (0 <= i <= Z.of_nat (length (values ob))) as Hi by (rewrite <-(length_fmap v_name); apply Hp).
  unfold place_value. apply wp_bind, (wp_get_key _ ob); [done|]. cbv zeta.
  apply wp_bind, shift_up_ok; [lia|]. intros a Hla Ha. wp_steps.
  destruct (lookup_lt_is_Some_2 a (Z.to_nat i)) as [old Hold]; [lia|]. apply (wp_arr_get _ _ old); [lia|done|].
  apply wp_bind, wp_arr_set; [lia|]. set (v := KeyValue name _ []). apply wp_put_key. split_and!; try done.
  exists (v_type v). change (KeyValue name (v_type v) []) with v. eexists. split; [done|]. split; [by eexists _, _, _|].
  apply values_ok_intro; simpl.
  - by rewrite length_insert, Hla.
  - rewrite inserted_length. lia.
  - apply Hv.
  - rewrite inserted_length. rewrite (shift_up_insert (k_values ob) a (length (values ob)) (Z.to_nat i)); try lia.
    + rewrite (values_take to_lower ob Hv). unfold inserted. by rewrite fmap_app, fmap_cons, fmap_take, fmap_drop.
    + intros j. rewrite Ha. replace (k_last_value ob + 1) with (Z.of_nat (length (values ob))) by lia.
      replace (Z.of_nat (Z.to_nat (Z.of_nat (length (values ob)) - i))) with (Z.of_nat (length (values ob) - Z.to_nat i)) by lia. done.
  - apply inserted_sorted; [apply Hv|done].
  - apply inserted_forall; [apply Hv|done].
Qed.

(** What [insert_value] leaves: the value at its place, or, when it fails, the values
    there were. *)
Definition insert_outcome (k : kid) (ob : key) (name : list Z) (i : Z) (r : option Z) (s s' : reg) : Prop :=
  reg_env s s' ∧
  match r with
  | None => revalues k ob (values ob) s s' ∧
      rg_error s' = (if MAX_VALUE_LEN <? Z.of_nat (length name) then REG_NAME_TOO_LONG else REG_NO_MEMORY) ∧
      (rg_allocs s = [] → MAX_VALUE_LEN < Z.of_nat (length name))
  | Some i' => i' = i ∧ Z.of_nat (length name) <= MAX_VALUE_LEN ∧ rg_error s' = rg_error s ∧ (rg_allocs s = [] → rg_allocs s' = []) ∧
      ∃ type, revalues k ob (inserted i (KeyValue name type []) (values ob)) s s'
  end.

(** The end of [insert_value], with room in the array. *)
Lemma insert_room_ok k ob ob1 name i s s1 : keys s !! k = Some ob → keys s1 = <[k:=ob1]> (keys s) → revalued ob ob1 → values_ok ob1 →
  values ob1 = values ob → k_last_value ob1 + 1 < k_nb_values ob1 → reg_env s s1 → rg_error s1 = rg_error s → (rg_allocs s = [] → rg_allocs s1 = []) →
  Z.of_nat (length name) <= MAX_VALUE_LEN → placed to_lower (v_name <$> values ob) name false i →
  wp (ok <- match name with [] => ret true | _ => reg_mem_alloc end;
      if negb ok then ret None else place_value k name i ;; ret (Some i)) (λ r s', insert_outcome k ob name i r s s') s1.
Proof.
  intros Hk Hk1 Hrv1 Hv1 Ev1 Hr1 He1 Herr1 Ha1 Hshort Hp. apply wp_bind. eapply (wp_mono _ (λ b s2, allocated b s1 s2)).
  { destruct name as [|c name]; [by apply wp_ret|]. by apply wp_reg_mem_alloc. }
  intros b s2 (Hk2 & He2 & Herr2 & Ha2). pose proof (reg_env_trans _ _ _ He1 He2) as He. destruct b; cbn [negb].
  - rewrite <-Ev1 in Hp. apply wp_bind. eapply wp_mono; [apply (place_value_ok k ob1); try done; rewrite Hk2, Hk1; apply lookup_insert_eq|].
    intros [] s3 ((? & Herr3 & Ha3 & ? & ?) & ? & type & ob3 & Hk3 & Hrv3 & Hv3 & Ev3). apply wp_ret. split.
    { destruct He as (?&?&?&?). split_and!; congruence. }
    split_and!; try done; [congruence|intros E; rewrite Ha3; by apply Ha2, Ha1|]. exists type, ob3.
    rewrite Hk3, Hk2, Hk1, insert_insert_eq, <-Ev1. split_and!; try done. by eapply revalued_trans.
  - apply wp_ret. split; [done|]. split_and!.
    + exists ob1. rewrite Hk2. done.
    + by rewrite (proj2 (Z.ltb_ge _ _)).
    + intros E. by destruct (Ha2 (Ha1 E)).
Qed.

Lemma insert_value_ok k ob name i s : keys s !! k = Some ob → values_ok ob → placed to_lower (v_name <$> values ob) name false i →
  wp (insert_value k name i) (λ r s', insert_outcome k ob name i r s s') s.
Proof.
  intros Hk Hv Hp. unfold insert_value. destruct (Z.ltb_spec MAX_VALUE_LEN (Z.of_nat (length name))) as [Hlong|Hshort].
  { apply wp_bind, wp_modify, wp_ret. split; [done|]. rewrite (proj2 (Z.ltb_lt _ _)) by done. split_and!; try done.
    exists ob. simpl. rewrite insert_id by done. split_and!; try done. apply revalued_refl. }
  apply wp_bind, (wp_get_key _ ob); [done|]. destruct (Z.eqb_spec (k_last_value ob + 1) (k_nb_values ob)) as [Hfull|Hfull].
  - apply wp_bind, (grow_values_ok to_lower k ob); try done. intros b s1 (ob1 & Hk1 & Hrv & Hv1 & Ev1) He Ha Herr Hg. destruct b; cbn [negb].
    + destruct (Hg eq_refl) as (ob1' & Hk1' & El & Hlt). rewrite Hk1, lookup_insert_eq in Hk1'. injection Hk1' as <-.
      apply (insert_room_ok k ob ob1); try done; [lia|]. intros E. by destruct (Ha E).
    + apply wp_ret. split; [done|]. rewrite (proj2 (Z.ltb_ge _ _)) by done. split_and!; [by exists ob1|done|]. intros E. by destruct (Ha E).
  - apply wp_bind, wp_ret. cbn [negb]. apply (insert_room_ok k ob ob); try done; [by rewrite insert_id|apply revalued_refl|].
    destruct (vo_last _ _ Hv); lia.
Qed.

(** ** Changing a value in its place *)

Lemma sorted_update (vs : list key_value) (i : nat) v v' : vs !! i = Some v → v_name v' = v_name v → v_name <$> <[i:=v']> vs = v_name <$> vs.
Proof. intros Hi E. rewrite list_fmap_insert, E. apply list_insert_id. by rewrite list_lookup_fmap, Hi. Qed.

Lemma sorted_before {A} {nm : A → list Z} (vs : list A) i v w : sorted_names to_lower (nm <$> vs) → vs !! i = Some v → w ∈ take i vs → fold (nm w) ≠ fold (nm v).
Proof.
  intros Hs Hi [j Hj]%list_elem_of_lookup. pose proof (lookup_lt_Some _ _ _ Hj) as Hlt. rewrite length_take in Hlt. rewrite lookup_take_lt in Hj by lia.
  apply lex_neq, (Hs j i); [by rewrite list_lookup_fmap, Hj|by rewrite list_lookup_fmap, Hi|lia].
Qed.

Lemma find_update vs i v v' n : sorted_names to_lower (v_name <$> vs) → vs !! i = Some v → v_name v' = v_name v →
  find_in to_lower n (<[i:=v']> vs) = if same_name to_lower (v_name v) n then Some v' else find_in to_lower n vs.
Proof.
  intros Hs Hi E. pose proof (sorted_before (nm:=v_name) vs i v) as Hb. rewrite insert_take_drop by (by eapply lookup_lt_Some).
  rewrite <-(take_drop_middle vs i v Hi) at 3. rewrite !find_in_app, !find_in_cons, E. unfold same_name. case_bool_decide as En; [|done].
  rewrite find_in_none; [done|]. intros w Hw. rewrite <-En. by apply Hb.
Qed.

Lemma find_delete vs i v n : sorted_names to_lower (v_name <$> vs) → vs !! i = Some v →
  find_in to_lower n (delete i vs) = if same_name to_lower (v_name v) n then None else find_in to_lower n vs.
Proof.
  intros Hs Hi. rewrite delete_take_drop. rewrite <-(take_drop_middle vs i v Hi) at 3. rewrite !find_in_app, find_in_cons.
  unfold same_name. case_bool_decide as En; [|done]. rewrite !find_in_none; [done|..].
  - intros w [j Hj]%list_elem_of_lookup. rewrite lookup_drop in Hj. rewrite <-En. symmetry.
    apply lex_neq, (Hs i (S i + j)%nat); [by rewrite list_lookup_fmap, Hi|by rewrite list_lookup_fmap, Hj|lia].
  - intros w Hw. rewrite <-En. by eapply sorted_before.
Qed.

Lemma store_value_ok k ob i v type data s : keys s !! k = Some ob → values_ok ob → 0 <= i → values ob !! Z.to_nat i = Some v →
  wp (store_value k i type data) (λ _ s', reg_rest s s' ∧ rg_signaled s' = rg_signaled s ∧
    revalues k ob (<[Z.to_nat i:=KeyValue (v_name v) type data]> (values ob)) s s') s.
Proof.
  intros Hk Hv Hi Hvi. pose proof (values_length to_lower ob Hv) as [Hl Hle]. pose proof (lookup_lt_Some _ _ _ Hvi) as Hlt.
  unfold store_value. apply wp_bind, (wp_get_key _ ob); [done|]. apply wp_bind, (wp_read_cell _ _ v); [done|by eapply values_lookup|].
  apply wp_bind, wp_arr_set; [lia|]. apply wp_put_key. split_and!; try done. eexists. split; [done|]. split; [by eexists _, _, _|].
  apply values_ok_intro; simpl.
  - rewrite length_insert. apply Hv.
  - rewrite length_insert. lia.
  - apply Hv.
  - rewrite length_insert. rewrite list_fmap_insert, <-(values_take to_lower ob Hv). symmetry. apply list_eq. intros j.
    destruct (decide (j < length (values ob))%nat).
    + rewrite lookup_take_lt by lia. destruct (decide (j = Z.to_nat i)) as [->|Hne].
      * rewrite !list_lookup_insert_eq; [done|lia|rewrite length_take; lia].
      * rewrite !list_lookup_insert_ne by done. by rewrite lookup_take_lt by lia.
    + rewrite lookup_take_ge by lia. apply lookup_ge_None. rewrite length_insert, length_take. lia.
  - rewrite (sorted_update _ _ v) by done. apply Hv.
  - apply Forall_insert; [apply Hv|]. simpl. by apply (Forall_lookup_1 _ _ _ _ (vo_names _ _ Hv) Hvi).
Qed.

Lemma values_similar ob ob' : similar ob ob' → values_ok ob → values_ok ob' ∧ values ob' = values ob.
Proof.
  intros [_ _ _ _ (El & En & Ev) _] H. assert (values ob' = values ob) as E by (unfold values; by rewrite El, Ev). split; [|done].
  destruct H. split; rewrite ?E, ?El, ?En, ?Ev; done.
Qed.

(** The keys but [k] are the same up to marks and times. *)
Definition others (k : kid) (s s' : reg) : Prop := ∀ j, j ≠ k → option_Forall2 similar (keys s !! j) (keys s' !! j).

Lemma others_put k ob' s s1 : keys s1 = <[k:=ob']> (keys s) → others k s s1.
Proof. intros E j Hj. rewrite E, lookup_insert_ne by done. reflexivity. Qed.

Lemma revalued_tree k ob ob' m : m !! k = Some ob → k_name ob' = k_name ob → tree_ok m → tree_ok (<[k:=ob']> m).
Proof.
  intros Hk Hn [rank [Hr Hp]]. exists rank. split.
  - intros j Hj. rewrite map_size_insert_Some by done. apply Hr. destruct (decide (j = k)) as [->|Hne]; [eauto|]. by rewrite lookup_insert_ne in Hj.
  - intros j obj name p Hj Hnj. assert (∃ obj0, m !! j = Some obj0 ∧ k_name obj0 = Some (name, Some p)) as (obj0 & Hj0 & Hn0).
    { destruct (decide (j = k)) as [->|Hne]; [|rewrite lookup_insert_ne in Hj; eauto]. rewrite lookup_insert_eq in Hj. injection Hj as <-. exists ob. by rewrite <-Hn. }
    destruct (Hp j obj0 name p Hj0 Hn0) as (Hlt & pob & pn & Hpob & Hpn). split; [done|]. destruct (decide (p = k)) as [->|Hne].
    + exists ob', pn. rewrite lookup_insert_eq. simplify_eq. by rewrite Hn.
    + exists pob, pn. by rewrite lookup_insert_ne.
Qed.

(** Marking the key as modified after its values changed. *)
Lemma touch_revalued k ob vs nm change s s1 : tree_ok (keys s) → keys s !! k = Some ob → k_name ob = Some nm →
  revalues k ob vs s s1 → wp (touch_key k change) (λ _ s', reg_rest s1 s' ∧ others k s s' ∧ tree_ok (keys s') ∧
    ∃ ob', keys s' !! k = Some ob' ∧ values_ok ob' ∧ values ob' = vs ∧ kept ob ob' ∧ k_modif ob' = rg_time s1 ∧
      has (k_flags ob') (Z.lor KEY_DIRTY KEY_VOLATILE) = true) s1.
Proof.
  intros Ht Hk Hnm (ob1 & Hk1 & Hrv1 & Hv1 & Ev1). pose proof (revalued_kept _ _ Hrv1) as Hkp. pose proof (kp_name _ _ Hkp) as En.
  assert (tree_ok (keys s1)) as Ht1 by (rewrite Hk1; by eapply revalued_tree).
  eapply wp_mono; [apply (touch_key_ok k ob1 nm change s1); [done|rewrite Hk1; apply lookup_insert_eq|congruence]|].
  intros [] s' ([Hsim Hrest] & ob' & Hk' & Hs & Hm & Hf). destruct (values_similar ob1 ob' Hs Hv1) as [Hv' Ev'].
  split_and!; try done; [|by eapply similar_tree|].
  - intros j Hj. specialize (Hsim j). by rewrite Hk1, lookup_insert_ne in Hsim.
  - exists ob'. split_and!; try done; [congruence|]. etransitivity; [exact Hkp|by apply similar_kept].
Qed.

(** ** The operations *)

(** The error [set_value] reports, memory apart. *)
Definition set_value_error (ob : key) (name : list Z) (type : Z) (data : list Z) : option Z :=
  if has (k_flags ob) KEY_PREDEF then Some REG_INVALID_HANDLE
  else if bool_decide (value_at to_lower ob name = Some (type, data)) && negb (bool_decide (data = [])) then None
  else if has (k_flags ob) KEY_SYMLINK && (negb (type =? REG_LINK) || negb (length name =? length symlink_str)%nat ||
            negb (memicmp_strW to_lower name symlink_str (length name) =? 0)) then Some REG_ACCESS_DENIED
  else if bool_decide (value_at to_lower ob name = None) && (MAX_VALUE_LEN <? Z.of_nat (length name)) then Some REG_NAME_TOO_LONG
  else None.

(** The key named in the tree has its values in order. *)
Record key_ok (k : kid) (ob : key) (s : reg) : Prop := {
  ko_tree : tree_ok (keys s);
  ko_key : keys s !! k = Some ob;
  ko_named : is_Some (k_name ob);
  ko_values : values_ok ob;
}.

(** What a change of the values of [k] leaves. *)
Definition changed (k : kid) (ob ob' : key) (s s' : reg) : Prop :=
  keys s' !! k = Some ob' ∧ values_ok ob' ∧ kept ob ob' ∧ tree_ok (keys s') ∧ others k s s'.

Lemma unchanged k ob s s' : key_ok k ob s → keys s' = keys s → changed k ob ob s s'.
Proof. intros [A B _ D] E. split_and!; rewrite ?E; try done. intros j _. rewrite E. reflexivity. Qed.

Lemma changed_revalues k ob vs s s' : key_ok k ob s → revalues k ob vs s s' → ∃ ob', changed k ob ob' s s' ∧ values ob' = vs.
Proof.
  intros [A B _ D] (ob' & Hk & Hrv & Hv & Ev). pose proof (revalued_kept _ _ Hrv) as Hkp. exists ob'.
  split; [|done]. split_and!; try done; [by rewrite Hk, lookup_insert_eq|rewrite Hk; eapply revalued_tree; [done|apply Hkp|done]|by eapply others_put].
Qed.

Lemma value_at_found ob name v : find_in to_lower name (values ob) = Some v → value_at to_lower ob name = Some (v_type v, v_data v).
Proof. unfold value_at. by intros ->. Qed.

(** Storing the value and marking the key, at the end of [set_value]. *)
Lemma store_touch_ok k ob vs0 i v type data s s1 : key_ok k ob s → revalues k ob vs0 s s1 → 0 <= i → vs0 !! Z.to_nat i = Some v →
  wp (store_value k i type data ;; touch_key k REG_NOTIFY_CHANGE_LAST_SET) (λ _ s', rg_error s' = rg_error s1 ∧
    ∃ ob', changed k ob ob' s s' ∧ values ob' = <[Z.to_nat i:=KeyValue (v_name v) type data]> vs0 ∧ k_modif ob' = rg_time s1) s1.
Proof.
  intros [Ht Hk [nm Hnm] Hv] (ob1 & Hk1 & Hrv & Hv1 & Ev1) Hi Hvi. apply wp_bind.
  eapply wp_mono; [apply (store_value_ok k ob1 i v type data s1); [rewrite Hk1; apply lookup_insert_eq|done|done|by rewrite Ev1]|].
  intros [] s2 ((Et & Ee & _) & _ & ob2 & Hk2 & Hrv2 & Hv2 & Ev2). rewrite Ev1 in Ev2.
  eapply wp_mono; [apply (touch_revalued k ob (<[Z.to_nat i:=KeyValue (v_name v) type data]> vs0) nm _ s s2 Ht Hk Hnm)|].
  { exists ob2. rewrite Hk2, Hk1, insert_insert_eq. split_and!; try done. by eapply revalued_trans. }
  intros [] s3 ((_ & Ee3 & _) & Ho3 & Ht3 & ob3 & Hk3 & Hv3 & Ev3 & En3 & Em3 & _). split; [congruence|].
  exists ob3. split_and!; try done. congruence.
Qed.

Lemma inserted_at {A} i (v : A) vs : 0 <= i <= Z.of_nat (length vs) → inserted i v vs !! Z.to_nat i = Some v.
Proof.
  intros Hi. unfold inserted. assert (length (take (Z.to_nat i) vs) = Z.to_nat i) as El by (rewrite length_take; lia).
  rewrite lookup_app_r by lia. by rewrite El, Nat.sub_diag.
Qed.

(** What a search found. *)
Lemma placed_value ob name found i : placed to_lower (v_name <$> values ob) name found i →
  0 <= i <= Z.of_nat (length (values ob)) ∧
  if found then ∃ v, values ob !! Z.to_nat i = Some v ∧ fold (v_name v) = fold name ∧ value_at to_lower ob name = Some (v_type v, v_data v)
  else value_at to_lower ob name = None.
Proof.
  intros Hp. split; [rewrite <-(length_fmap v_name); apply Hp|]. destruct found.
  - destruct (placed_split to_lower _ _ _ _ Hp) as (_ & _ & v & Hvi & E). exists v. split_and!; try done. apply value_at_found. by eapply placed_found.
  - unfold value_at. by rewrite (placed_missing to_lower _ _ _ Hp).
Qed.

Lemma value_at_update ob ob' i v type data name n : values_ok ob → values ob !! i = Some v → fold (v_name v) = fold name →
  values ob' = <[i:=KeyValue (v_name v) type data]> (values ob) →
  value_at to_lower ob' n = if same_name to_lower name n then Some (type, data) else value_at to_lower ob n.
Proof.
  intros Hv Hvi E Ev. unfold value_at. rewrite Ev, (find_update _ _ v) by (done || apply Hv). unfold same_name. rewrite E. by case_bool_decide.
Qed.
Lemma value_at_insert ob ob' i type0 type data name n : values_ok ob → placed to_lower (v_name <$> values ob) name false i →
  values ob' = <[Z.to_nat i:=KeyValue name type data]> (inserted i (KeyValue name type0 []) (values ob)) →
  value_at to_lower ob' n = if same_name to_lower name n then Some (type, data) else value_at to_lower ob n.
Proof.
  intros Hv Hp Ev. unfold value_at. destruct (placed_value _ _ _ _ Hp) as [Hi _].
  rewrite Ev, (find_update _ _ (KeyValue name type0 [])); [|by apply inserted_sorted; [apply Hv|]|by apply inserted_at|done].
  simpl. rewrite inserted_find by done. simpl. by destruct (same_name to_lower name n).
Qed.

(** The test for a value that is there already. *)
Lemma same_value_ok ob name found i type data s : values_ok ob → placed to_lower (v_name <$> values ob) name found i →
  wp (if found then v <- read_cell (k_values ob) i;
        ret ((v_type v =? type) && (length (v_data v) =? length data)%nat && negb (bool_decide (v_data v = [])) && bool_decide (v_data v = data))
      else ret false)
    (λ same s', s' = s ∧ same = bool_decide (value_at to_lower ob name = Some (type, data)) && negb (bool_decide (data = []))) s.
Proof.
  intros Hv Hp. destruct (placed_value _ _ _ _ Hp) as [Hi Hf]. destruct found.
  - destruct Hf as (v & Hvi & _ & ->). apply wp_bind, (wp_read_cell _ _ v); [lia|by eapply values_lookup|].
    apply wp_ret. split; [done|]. destruct v as [vn vt vd]. simpl. destruct (Z.eqb_spec vt type), (Nat.eqb_spec (length vd) (length data)); simpl;
      repeat case_bool_decide; simplify_eq/=; done.
  - apply wp_ret. rewrite Hf. by rewrite bool_decide_eq_false_2.
Qed.

(** What [set_value] leaves. *)
Definition set_outcome (k : kid) (ob : key) (name : list Z) (type : Z) (data : list Z) (s s' : reg) : Prop :=
  ∃ ob', changed k ob ob' s s' ∧
    (rg_error s' = REG_NO_MEMORY ∧ rg_allocs s ≠ [] ∧ values ob' = values ob ∨
     match set_value_error ob name type data with
     | Some e => rg_error s' = e ∧ values ob' = values ob
     | None => rg_error s' = rg_error s ∧
         ∀ n, value_at to_lower ob' n = if same_name to_lower name n then Some (type, data) else value_at to_lower ob n
     end).

(** The end of [set_value], with the memory for the data. *)
Lemma set_place_ok k ob name type data found i s s1 : key_ok k ob s → allocated true s s1 → placed to_lower (v_name <$> values ob) name found i →
  set_value_error ob name type data =
    (if bool_decide (value_at to_lower ob name = None) && (MAX_VALUE_LEN <? Z.of_nat (length name)) then Some REG_NAME_TOO_LONG else None) →
  wp (place <- (if found then ret (Some i) else insert_value k name i);
      match place with
      | None => ret tt
      | Some index => store_value k index type data ;; touch_key k REG_NOTIFY_CHANGE_LAST_SET
      end) (λ _ s', set_outcome k ob name type data s s') s1.
Proof.
  intros Hko (Hk1 & He1 & Herr1 & Ha1) Hp Herr. pose proof (ko_values _ _ _ Hko) as Hv. destruct (placed_value _ _ _ _ Hp) as [Hi Hf].
  unfold set_outcome. rewrite Herr. assert (Hfrom : ∀ vs s2, revalues k ob vs s1 s2 → revalues k ob vs s s2).
  { intros vs s2 (ob2 & ? & ?). exists ob2. by rewrite <-Hk1. }
  apply wp_bind. destruct found.
  - destruct Hf as (v & Hvi & Ev & Eat). apply wp_ret. eapply wp_mono; [apply (store_touch_ok k ob (values ob) i v type data s s1 Hko); [|lia|done]|].
    { exists ob. rewrite Hk1, insert_id by apply Hko. split_and!; try done. apply revalued_refl. }
    intros [] s2 (Herr2 & ob2 & Hc2 & Ev2 & _). exists ob2. split; [done|]. right. rewrite Eat, bool_decide_eq_false_2 by done. split; [congruence|].
    intros n. by eapply value_at_update.
  - assert (key_ok k ob s1) as Hko1 by (destruct Hko; split; rewrite ?Hk1; done). rewrite Hf, bool_decide_eq_true_2 by done. simpl.
    eapply wp_mono; [apply (insert_value_ok k ob name i s1); [apply Hko1|done|done]|]. intros [i'|] s2 [He2 H2].
    + destruct H2 as (-> & Hshort & Herr2 & _ & type0 & Hrv2). eapply wp_mono.
      { apply (store_touch_ok k ob (inserted i (KeyValue name type0 []) (values ob)) i (KeyValue name type0 []) type data s s2 Hko); [by apply Hfrom|lia|by apply inserted_at]. }
      intros [] s3 (Herr3 & ob3 & Hc3 & Ev3 & _). exists ob3. split; [done|]. right. rewrite (proj2 (Z.ltb_ge _ _)) by done. split; [congruence|].
      intros n. by eapply value_at_insert.
    + apply wp_ret. destruct H2 as (Hrv2 & Herr2 & Ha2). destruct (changed_revalues k ob (values ob) s s2 Hko) as (ob2 & Hc2 & Ev2); [by apply Hfrom|].
      exists ob2. split; [done|]. destruct (Z.ltb_spec MAX_VALUE_LEN (Z.of_nat (length name))); [right|left]; split_and!; try done.
      intros E. destruct (Ha1 E) as [_ E1]. specialize (Ha2 E1). lia.
Qed.

(** [set_value] on a valid key: the name, without regard to case, gets the type and
    the data, and no other name changes; or the error says why nothing changed. *)
Lemma set_value_ok k ob name type data s : key_ok k ob s → fits name →
  wp (set_value to_lower k name type data) (λ _ s', set_outcome k ob name type data s s') s.
Proof.
  intros Hko Hn. pose proof (ko_values _ _ _ Hko) as Hv. unfold set_value. apply wp_bind, (wp_get_key _ ob); [apply Hko|].
  destruct (has (k_flags ob) KEY_PREDEF) eqn:Epd.
  { apply wp_modify. exists ob. split; [by apply unchanged|]. right. unfold set_value_error. rewrite Epd. split; reflexivity. }
  apply wp_bind, find_value_ok; [done|done|]. intros found i Hp. apply wp_bind. eapply wp_mono; [by apply (same_value_ok ob name)|].
  intros same s0 [-> ->]. destruct (bool_decide (value_at to_lower ob name = Some (type, data)) && negb (bool_decide (data = []))) eqn:Esame.
  { apply wp_ret. exists ob. split; [by apply unchanged|]. right. unfold set_value_error. rewrite Epd, Esame. split; [done|]. intros n.
    apply andb_true_iff in Esame as [Esame%bool_decide_eq_true _]. unfold same_name. case_bool_decide as E; [|done]. rewrite <-Esame.
    unfold value_at, find_in, same_name. by rewrite E. }
  destruct (has (k_flags ob) KEY_SYMLINK && _) eqn:Esl.
  { apply wp_modify. exists ob. split; [by apply unchanged|]. right. unfold set_value_error. rewrite Epd, Esame, Esl. split; reflexivity. }
  apply wp_bind. eapply (wp_mono _ (λ b s1, allocated b s s1)); [destruct data; [by apply wp_ret|by apply wp_reg_mem_alloc]|].
  intros b s1 Hal. destruct b; cbn [negb].
  - eapply set_place_ok; try done. unfold set_value_error. by rewrite Epd, Esame, Esl.
  - apply wp_ret. destruct Hal as (Hk1 & _ & Herr1 & Ha1). exists ob. split; [by apply unchanged|]. left. split_and!; try done.
    intros E. by destruct (Ha1 E).
Qed.

(** [get_value]: the type and data of the name. *)
Lemma get_value_ok k ob name s : key_ok k ob s → fits name →
  wp (get_value to_lower k name) (λ r s', keys s' = keys s ∧ reg_env s s' ∧
    if has (k_flags ob) KEY_PREDEF then r = None ∧ rg_error s' = REG_INVALID_HANDLE
    else r = value_at to_lower ob name ∧ rg_error s' = (if r then rg_error s else REG_NAME_NOT_FOUND)) s.
Proof.
  intros Hko Hn. unfold get_value. apply wp_bind, (wp_get_key _ ob); [apply Hko|]. destruct (has (k_flags ob) KEY_PREDEF).
  { by apply wp_bind, wp_modify, wp_ret. }
  apply wp_bind, find_value_ok; [apply Hko|done|]. intros found i Hp. destruct (placed_value _ _ _ _ Hp) as [Hi Hf]. destruct found.
  - destruct Hf as (v & Hvi & _ & ->). apply wp_bind, (wp_read_cell _ _ v); [lia|eapply values_lookup; [apply Hko|done]|]. by apply wp_ret.
  - rewrite Hf. by apply wp_bind, wp_modify, wp_ret.
Qed.

(** ** Deleting *)

Lemma sorted_delete {A} (nm : A → list Z) (vs : list A) i : sorted_names to_lower (nm <$> vs) → sorted_names to_lower (nm <$> delete i vs).
Proof.
  intros Hs. rewrite delete_take_drop, fmap_app. rewrite <-(take_drop i vs), fmap_app, sorted_names_app in Hs. destruct Hs as (H1 & H2 & H3).
  assert (drop (S i) vs = drop 1 (drop i vs)) as E by (rewrite drop_drop; f_equal; lia). rewrite E, fmap_drop. apply sorted_names_app. split_and!; [done| |].
  - rewrite <-(take_drop 1 (nm <$> drop i vs)), sorted_names_app in H2. apply H2.
  - intros a b Ha Hb. apply H3; [done|]. rewrite <-(take_drop 1 (nm <$> drop i vs)). apply elem_of_app. by right.
Qed.

(** The array without the value at [i]. *)
Lemma remove_value_ok k ob i v s : keys s !! k = Some ob → values_ok ob → 0 <= i → values ob !! Z.to_nat i = Some v →
  wp (a <- shift_down (Z.to_nat (k_last_value ob - i)) (k_values ob) i; put_key k (k_set_values (k_last_value ob - 1) (k_nb_values ob) a ob))
    (λ _ s', reg_rest s s' ∧ rg_signaled s' = rg_signaled s ∧ revalues k ob (delete (Z.to_nat i) (values ob)) s s') s.
Proof.
  intros Hk Hv Hi Hvi. pose proof (values_length to_lower ob Hv) as [Hl Hle]. pose proof (lookup_lt_Some _ _ _ Hvi) as Hlt.
  apply wp_bind, shift_down_ok; [done|lia|]. intros a Hla Ha. apply wp_put_key. split_and!; try done. eexists. split; [done|]. split; [by eexists _, _, _|].
  assert (length (delete (Z.to_nat i) (values ob)) = length (values ob) - 1)%nat as Hd by (rewrite length_delete by eauto; lia).
  apply values_ok_intro; simpl.
  - rewrite Hla. apply Hv.
  - lia.
  - apply Hv.
  - rewrite Hd, (shift_down_delete (k_values ob) a (length (values ob)) (Z.to_nat i)); try lia.
    + rewrite (values_take to_lower ob Hv), !delete_take_drop, fmap_app, fmap_take, fmap_drop. done.
    + intros j. rewrite Ha. replace (Z.of_nat (Z.to_nat i)) with i by lia.
      replace (Z.of_nat (Z.to_nat (k_last_value ob - i))) with (Z.of_nat (length (values ob) - 1 - Z.to_nat i)) by lia. done.
  - apply sorted_delete, Hv.
  - rewrite delete_take_drop. apply Forall_app. split; [apply Forall_take, Hv|apply Forall_drop, Hv].
Qed.

(** Shrinking the array keeps its values. *)
Lemma shrink_values_ok k ob s (Q : unit → reg → Prop) : keys s !! k = Some ob → values_ok ob →
  (∀ s', revalues k ob (values ob) s s' → rg_error s' = rg_error s → Q tt s') →
  wp (match shrink_count (k_last_value ob) (k_nb_values ob) MIN_VALUES with
      | None => ret tt
      | Some nb => ok <- reg_malloc;
          if negb ok then ret tt else put_key k (k_set_values (k_last_value ob) nb (take (Z.to_nat nb) (k_values ob)) ob)
      end) Q s.
Proof.
  intros Hk Hv HQ. pose proof (values_length to_lower ob Hv) as [Hl Hle]. pose proof (vo_nb _ _ Hv) as Hnb.
  assert (Hsame : ∀ s', keys s' = keys s → revalues k ob (values ob) s s').
  { intros s' E. exists ob. rewrite E, insert_id by done. split_and!; try done. apply revalued_refl. }
  unfold shrink_count. destruct ((MIN_VALUES <? k_nb_values ob) && (k_last_value ob <? k_nb_values ob / 2)) eqn:E; [|by apply wp_ret, HQ; auto].
  apply andb_true_iff in E as [E1%Z.ltb_lt E2%Z.ltb_lt]. set (nb := Z.max (k_nb_values ob - k_nb_values ob / 3) MIN_VALUES).
  apply wp_bind, wp_reg_malloc. intros [] l _; cbn [negb]; [|by apply wp_ret, HQ; auto]. apply wp_put_key, HQ; [|done].
  assert (k_last_value ob + 1 <= nb <= k_nb_values ob) as Hb.
  { unfold nb, MIN_VALUES in *. pose proof (Z.div_le_lower_bound (k_nb_values ob) 3 0). pose proof (Z.mul_div_le (k_nb_values ob) 2).
    pose proof (Z.mul_div_le (k_nb_values ob) 3). lia. }
  eexists. simpl. split; [done|]. split; [by eexists _, _, _|]. apply values_ok_intro; simpl; try apply Hv.
  - rewrite length_take. lia.
  - lia.
  - unfold nb. lia.
  - rewrite take_take. replace (_ `min` _)%nat with (length (values ob)) by lia. by apply (values_take to_lower).
Qed.

(** [delete_value]: the name stands for nothing, and no other name changes. *)
Lemma delete_value_ok k ob name s : key_ok k ob s → fits name →
  wp (delete_value to_lower k name) (λ _ s', ∃ ob', changed k ob ob' s s' ∧
    if has (k_flags ob) KEY_PREDEF then rg_error s' = REG_INVALID_HANDLE ∧ values ob' = values ob
    else match value_at to_lower ob name with
         | None => rg_error s' = REG_NAME_NOT_FOUND ∧ values ob' = values ob
         | Some _ => rg_error s' = rg_error s ∧
             ∀ n, value_at to_lower ob' n = if same_name to_lower name n then None else value_at to_lower ob n
         end) s.
Proof.
  intros Hko Hn. destruct (ko_named _ _ _ Hko) as [nm Hnm]. pose proof (ko_values _ _ _ Hko) as Hv. pose proof (ko_key _ _ _ Hko) as Hk.
  unfold delete_value. apply wp_bind, (wp_get_key _ ob); [done|].
  destruct (has (k_flags ob) KEY_PREDEF); [apply wp_modify; exists ob; split; [by apply unchanged|done]|].
  apply wp_bind, find_value_ok; [done|done|]. intros found i Hp. destruct (placed_value _ _ _ _ Hp) as [Hi Hf]. destruct found; cbn [negb].
  2:{ rewrite Hf. apply wp_modify. exists ob. split; [by apply unchanged|done]. }
  destruct Hf as (v & Hvi & Ev & ->). eapply wp_bind2; [apply (remove_value_ok k ob i v s Hk Hv ltac:(lia) Hvi)|].
  intros [] s1 ((_ & Herr1 & _) & _ & Hrv1). apply wp_bind. eapply wp_mono; [apply (touch_revalued k ob _ nm _ s s1 (ko_tree _ _ _ Hko) Hk Hnm Hrv1)|].
  intros [] s2 ((_ & Herr2 & _) & Ho2 & Ht2 & ob2 & Hk2 & Hv2 & Ev2 & En2 & _). apply wp_bind, (wp_get_key _ ob2); [done|].
  apply shrink_values_ok; [done|done|]. intros s3 Hrv3 Herr3.
  destruct (changed_revalues k ob2 (values ob2) s2 s3) as (ob3 & (Hk3 & Hv3 & En3 & Ht3 & Ho3) & Ev3); [split; try done; by rewrite (kp_name _ _ En2)|done|].
  exists ob3. split; [split_and!; try done; [by etransitivity|]; intros j Hj; etransitivity; [by apply Ho2|by apply Ho3]|]. split; [congruence|].
  intros n. unfold value_at. rewrite Ev3, Ev2, (find_delete _ _ v) by (done || apply Hv). unfold same_name. rewrite Ev. by case_bool_decide.
Qed.
End ops.
