(* ===== verification/RegistryKeys.v ===== *)
(** * The tree of subkeys

    The arrays of subkeys and the names of the keys agree: a key is in the array of
    the key it is named in, once, at the place of its name.  Searching, linking and
    unlinking keys under this invariant. *)

From stdpp Require Import base list gmap fin_maps.
From S2P Require Import Prelude RegText Registry RegistryInv RegistryThms.

Open Scope Z_scope.
Open Scope server_scope.

(** ** Arrays *)

(** An array with the entries [vs]. *)
Record array_ok {A} (last nb min : Z) (l : list (option A)) (vs : list A) : Prop := {
  ao_nb : nb = Z.of_nat (length l);
  ao_last : last = Z.of_nat (length vs) - 1;
  ao_used : take (length vs) l = Some <$> vs;
  ao_min : nb = 0 ∨ min <= nb;
}.

Lemma array_length {A} last nb min (l : list (option A)) vs : array_ok last nb min l vs → (length vs <= length l)%nat.
Proof. intros [_ _ E _]. apply (f_equal length) in E. rewrite length_take, length_fmap in E. lia. Qed.

Lemma array_lookup {A} last nb min (l : list (option A)) vs i v : array_ok last nb min l vs → vs !! i = Some v → l !! i = Some (Some v).
Proof.
  intros H Hi. pose proof (lookup_lt_Some _ _ _ Hi). rewrite <-(lookup_take_lt _ (length vs)), (ao_used _ _ _ _ _ H) by lia.
  by rewrite list_lookup_fmap, Hi.
Qed.

Lemma array_grow {A} last nb min (l : list (option A)) vs nb' : array_ok last nb min l vs → nb <= nb' → min <= nb' →
  array_ok last nb' min (l ++ replicate (Z.to_nat nb' - length l) None) vs.
Proof.
  intros H Hnb Hmin. pose proof (array_length _ _ _ _ _ H) as Hl. destruct H as [A1 A2 A3 A4]. split; [|done| |by right].
  - rewrite length_app, length_replicate. lia.
  - by rewrite take_app_le.
Qed.

Lemma array_shrink {A} last nb min (l : list (option A)) vs nb' : array_ok last nb min l vs → shrink_count last nb min = Some nb' →
  4 <= min → array_ok last nb' min (take (Z.to_nat nb') l) vs.
Proof.
  intros H Hs Hmin. pose proof (array_length _ _ _ _ _ H) as Hl. destruct H as [A1 A2 A3 A4]. unfold shrink_count in Hs.
  destruct ((min <? nb) && (last <? nb / 2)) eqn:E; [|done]. injection Hs as <-. apply andb_true_iff in E as [E1%Z.ltb_lt E2%Z.ltb_lt].
  pose proof (Z.div_le_lower_bound nb 3 0). pose proof (Z.mul_div_le nb 2). pose proof (Z.mul_div_le nb 3).
  split; [rewrite length_take; lia|done|rewrite take_take, <-A3; f_equal; lia|lia].
Qed.

(** Entering [v] at [i]; [a] is the array with the entries from [i] moved up. *)
Lemma array_insert {A} nb min (l : list (option A)) vs v i (Q : list (option A) → reg → Prop) s :
  array_ok (Z.of_nat (length vs) - 1) nb min l vs → Z.of_nat (length vs) < nb → 0 <= i <= Z.of_nat (length vs) →
  (∀ a, array_ok (Z.of_nat (length vs)) nb min a (inserted i v vs) → Q a s) →
  wp (a <- shift_up (Z.to_nat (Z.of_nat (length vs) - i)) l (Z.of_nat (length vs)); arr_set a i (Some v)) Q s.
Proof.
  intros H Hroom Hi HQ. pose proof (array_length _ _ _ _ _ H) as Hl. destruct H as [A1 A2 A3 A4]. apply wp_bind, shift_up_ok; [lia|]. intros a Hla Ha.
  apply wp_arr_set; [lia|]. apply HQ. split; [by rewrite length_insert, Hla|rewrite inserted_length; lia| |done].
  rewrite inserted_length. rewrite (shift_up_insert l a (length vs) (Z.to_nat i)); try lia.
  - rewrite A3. unfold inserted. by rewrite fmap_app, fmap_cons, fmap_take, fmap_drop.
  - intros j. rewrite Ha. by replace (Z.of_nat (Z.to_nat (Z.of_nat (length vs) - i))) with (Z.of_nat (length vs - Z.to_nat i)) by lia.
Qed.

Lemma array_delete {A} last nb min (l : list (option A)) vs i (Q : list (option A) → reg → Prop) s :
  array_ok last nb min l vs → 0 <= i < Z.of_nat (length vs) →
  (∀ a, array_ok (last - 1) nb min a (delete (Z.to_nat i) vs) → Q a s) → wp (shift_down (Z.to_nat (last - i)) l i) Q s.
Proof.
  intros H Hi HQ. pose proof (array_length _ _ _ _ _ H) as Hl. destruct H as [A1 A2 A3 A4].
  assert (length (delete (Z.to_nat i) vs) = length vs - 1)%nat as Hd by (apply length_delete, lookup_lt_is_Some_2; lia).
  apply shift_down_ok; [lia..|]. intros a Hla Ha. apply HQ. split; [by rewrite Hla|lia| |done].
  rewrite Hd, (shift_down_delete l a (length vs) (Z.to_nat i)); try lia.
  - rewrite A3, !delete_take_drop, fmap_app, fmap_take, fmap_drop. done.
  - intros j. rewrite Ha. replace (Z.of_nat (Z.to_nat i)) with i by lia. by replace (Z.of_nat (Z.to_nat (last - i))) with (Z.of_nat (length vs - 1 - Z.to_nat i)) by lia.
Qed.

(** ** Ranks *)

(** The keys of lower rank, counted, are a rank below the number of keys. *)
Lemma tree_ok_intro m rank :
  (∀ k ob name p, m !! k = Some ob → k_name ob = Some (name, Some p) → (rank p < rank k)%nat ∧ ∃ pob pname, m !! p = Some pob ∧ k_name pob = Some pname) →
  tree_ok m.
Proof.
  intros Hp. set (below r := filter (λ i, (rank i < r)%nat) (dom m)). exists (λ k, size (below (rank k))).
  assert (Hlt : ∀ r k, is_Some (m !! k) → (rank k < r)%nat → below (rank k) ⊂ below r).
  { intros r k Hk Hr. split.
    - intros i. unfold below. rewrite !elem_of_filter. intros [? ?]. split; [lia|done].
    - intros Hs. specialize (Hs k). unfold below in Hs. rewrite !elem_of_filter, elem_of_dom in Hs. destruct Hs; [done|lia]. }
  split.
  - intros k Hk. rewrite <-size_dom. apply subset_size. split; [unfold below; set_solver|]. intros Hs. apply elem_of_dom in Hk. apply Hs in Hk.
    unfold below in Hk. rewrite elem_of_filter in Hk. lia.
  - intros k ob name p Hk Hn. destruct (Hp k ob name p Hk Hn) as (Hr & pob & pn & Hpob & Hpn). split; [|eauto]. apply subset_size, Hlt; eauto.
Qed.

(** ** The invariant *)

(** The name of a key and the key it is in; its subkeys. *)
Definition named (m : gmap kid key) (c : kid) : option (list Z * option kid) := m !! c ≫= k_name.
Definition kname (m : gmap kid key) (c : kid) : list Z := default [] (fst <$> named m c).
Definition subs (ob : key) : list kid := omap id (take (Z.to_nat (k_last_subkey ob + 1)) (k_subkeys ob)).

Notation subs_array ob := (array_ok (k_last_subkey ob) (k_nb_subkeys ob) MIN_SUBKEYS (k_subkeys ob)).

Lemma subs_array_subs ob cs : subs_array ob cs → subs ob = cs.
Proof. intros [_ E U _]. unfold subs. rewrite E. replace (Z.to_nat _) with (length cs) by lia. rewrite U. apply omap_id_Some. Qed.

Section tree.
Context (to_lower : Z → Z).
Notation fold name := (to_lower <$> name).

Record subkeys_ok (m : gmap kid key) (k : kid) (ob : key) : Prop := {
  so_array : subs_array ob (subs ob);
  so_subs : ∀ c, c ∈ subs ob ↔ ∃ name, named m c = Some (name, Some k);
  so_sorted : sorted_names to_lower (kname m <$> subs ob);
  so_wow : ∀ w, k_wow6432node ob = Some w → w ∈ subs ob;
}.

Record node_ok (m : gmap kid key) (k : kid) (ob : key) : Prop := {
  no_values : values_ok to_lower ob;
  no_subkeys : subkeys_ok m k ob;
  no_fits : fits (kname m k);
  no_deleted : has (k_flags ob) KEY_DELETED = true → k_name ob = None;
}.

Record reg_ok (m : gmap kid key) : Prop := {
  ro_tree : tree_ok m;
  ro_nodes : ∀ k ob, m !! k = Some ob → node_ok m k ob;
}.

(** The subkey of a name. *)
Definition find_sub (m : gmap kid key) (name : list Z) (cs : list kid) : option kid := List.find (λ c, same_name to_lower (kname m c) name) cs.
Definition child (m : gmap kid key) (k : kid) (name : list Z) : option kid := ob ← m !! k; find_sub m name (subs ob).

Lemma named_kname m c name p : named m c = Some (name, p) → kname m c = name.
Proof. unfold kname. by intros ->. Qed.
Lemma named_key m c ob : m !! c = Some ob → named m c = k_name ob.
Proof. unfold named. by intros ->. Qed.
Lemma named_inv m c n : named m c = Some n → ∃ ob, m !! c = Some ob ∧ k_name ob = Some n.
Proof. unfold named. intros H. apply bind_Some in H as (ob & ? & ?). eauto. Qed.

Lemma named_inv_ex m c : is_Some (named m c) → ∃ ob n, m !! c = Some ob ∧ k_name ob = Some n.
Proof. intros [n (ob & ? & ?)%named_inv]. eauto. Qed.

Lemma subs_nodup m k ob : subkeys_ok m k ob → NoDup (subs ob).
Proof.
  intros [_ _ Hs _]. apply NoDup_alt. intros i j c Hi Hj. destruct (Nat.lt_trichotomy i j) as [Hl|[?|Hl]]; [|done|]; exfalso.
  - refine (lex_neq _ _ (Hs i j (kname m c) (kname m c) _ _ Hl) eq_refl); by rewrite list_lookup_fmap, ?Hi, ?Hj.
  - refine (lex_neq _ _ (Hs j i (kname m c) (kname m c) _ _ Hl) eq_refl); by rewrite list_lookup_fmap, ?Hi, ?Hj.
Qed.

(** The invariant sees the other keys only by their names. *)
Lemma subkeys_ok_named m m' k ob ob' : (∀ c, named m' c = named m c) → k_last_subkey ob' = k_last_subkey ob → k_nb_subkeys ob' = k_nb_subkeys ob →
  k_subkeys ob' = k_subkeys ob → k_wow6432node ob' = k_wow6432node ob → subkeys_ok m k ob → subkeys_ok m' k ob'.
Proof.
  intros En El Eb Ea Ew [A B C D]. assert (subs ob' = subs ob) as Es by (unfold subs; by rewrite El, Ea).
  assert (∀ c, kname m' c = kname m c) as Ek by (intros c; unfold kname; by rewrite En).
  split; rewrite ?Es, ?El, ?Eb, ?Ea, ?Ew; try done.
  - intros c. by rewrite En.
  - by rewrite (list_fmap_ext _ (kname m) (subs ob)) by done.
Qed.

Lemma similar_named m m' : similar_keys m m' → ∀ c, named m' c = named m c.
Proof. intros H c. unfold named. specialize (H c). destruct H as [ob ob' Hs|]; [|done]. simpl. apply Hs. Qed.

Lemma has_deleted f f' : f' = f ∨ f' = Z.lor f KEY_DIRTY → has f' KEY_DELETED = has f KEY_DELETED.
Proof. intros [->| ->]; [done|]. unfold has. rewrite Z.land_lor_distr_l. change (Z.land KEY_DIRTY KEY_DELETED) with 0. by rewrite Z.lor_0_r. Qed.

Lemma similar_node m m' k ob ob' : (∀ c, named m' c = named m c) → similar ob ob' → node_ok m k ob → node_ok m' k ob'.
Proof.
  intros En Hs [A B C D]. pose proof Hs as [S1 _ (? & ? & ?) S4 _ S6]. split.
  - by apply (values_similar to_lower ob).
  - by apply (subkeys_ok_named m m' k ob).
  - unfold kname. by rewrite En.
  - rewrite (has_deleted _ _ S6), S1. done.
Qed.

Lemma similar_reg_ok m m' : similar_keys m m' → reg_ok m → reg_ok m'.
Proof.
  intros H [A B]. split; [by eapply similar_tree|]. intros k ob' Hk. destruct (similar_r _ _ _ _ H Hk) as (ob & Hob & Hs).
  eapply similar_node; [by apply similar_named|done|by apply B].
Qed.
(** ** Changing one key *)

(** The key [ob] with the subkeys [cs]. *)
Record resub (ob ob' : key) (cs : list kid) : Prop := {
  rs_array : subs_array ob' cs;
  rs_name : k_name ob' = k_name ob;
  rs_class : k_class ob' = k_class ob;
  rs_values : k_last_value ob' = k_last_value ob ∧ k_nb_values ob' = k_nb_values ob ∧ k_values ob' = k_values ob;
  rs_flags : k_flags ob' = k_flags ob;
  rs_modif : k_modif ob' = k_modif ob;
  rs_notify : k_notify ob' = k_notify ob;
}.

Lemma resub_trans ob ob1 ob2 cs1 cs2 : resub ob ob1 cs1 → resub ob1 ob2 cs2 → resub ob ob2 cs2.
Proof. intros [_ A1 A2 (?&?&?) A4 A5 A6] [B0 B1 B2 (?&?&?) B4 B5 B6]. split; split_and?; congruence. Qed.

Lemma values_resub ob ob' cs : resub ob ob' cs → values_ok to_lower ob → values_ok to_lower ob' ∧ values ob' = values ob.
Proof.
  intros [_ _ _ (El & En & Ev) _ _ _] H. assert (values ob' = values ob) as E by (unfold values; by rewrite El, Ev). split; [|done].
  destruct H. split; rewrite ?E, ?El, ?En, ?Ev; done.
Qed.

(** The two maps name the keys alike, but for [k]. *)
Definition named_but (k : kid) (m m' : gmap kid key) : Prop := ∀ c, c ≠ k → named m' c = named m c.

Lemma kname_but k m m' c : named_but k m m' → c ≠ k → kname m' c = kname m c.
Proof. intros H Hc. unfold kname. by rewrite H. Qed.
Lemma knames_but k m m' (cs : list kid) : named_but k m m' → k ∉ cs → kname m' <$> cs = kname m <$> cs.
Proof. intros H Hk. apply list_fmap_ext. intros i c Hc. apply (kname_but k); [done|]. intros ->. apply Hk. by eapply list_elem_of_lookup_2. Qed.

(** A key that [k] neither was nor is in. *)
Lemma subkeys_ok_but k m m' j ob : named_but k m m' → k ∉ subs ob → (∀ name, named m' k ≠ Some (name, Some j)) →
  subkeys_ok m j ob → subkeys_ok m' j ob.
Proof.
  intros Hn Hk Hj [A B C D]. split; [done| | |done].
  - intros c. destruct (decide (c = k)) as [->|Hc]; [|rewrite Hn by done; apply B]. split; [done|]. intros [name E]. by apply Hj in E.
  - by rewrite (knames_but k m m').
Qed.

(** Every key but [k] and [p] is the same. *)
Definition same_but (k p : kid) (m m' : gmap kid key) : Prop := ∀ j, j ≠ k → j ≠ p → m' !! j = m !! j.

Lemma same_named k p m m' pob pob' : same_but k p m m' → m !! p = Some pob → m' !! p = Some pob' → k_name pob' = k_name pob → named_but k m m'.
Proof.
  intros Hs Hp Hp' E c Hc. unfold named. destruct (decide (c = p)) as [->|Hcp]; [by rewrite Hp, Hp'|]. by rewrite Hs.
Qed.

(** A node whose array holds the keys named in it now. *)
Lemma node_resub k m m' p pob pob' cs : p ≠ k → named_but k m m' → node_ok m p pob → resub pob pob' cs →
  (∀ c, c ∈ cs ↔ ∃ name, named m' c = Some (name, Some p)) → sorted_names to_lower (kname m' <$> cs) →
  (∀ w, k_wow6432node pob' = Some w → w ∈ cs) → node_ok m' p pob'.
Proof.
  intros Hpk Hn [A B C D] Hr Hcs Hs Hw. pose proof (subs_array_subs _ _ (rs_array _ _ _ Hr)) as Es. split.
  - by apply (values_resub pob pob' cs).
  - split; rewrite Es; try done. apply Hr.
  - by rewrite (kname_but k m m').
  - rewrite (rs_flags _ _ _ Hr), (rs_name _ _ _ Hr). done.
Qed.

Lemma other_node k m m' j ob : j ≠ k → named_but k m m' → (∀ name, named m k ≠ Some (name, Some j)) → (∀ name, named m' k ≠ Some (name, Some j)) →
  node_ok m j ob → node_ok m' j ob.
Proof.
  intros Hj Hn H1 H2 [A B C D]. split; try done; [|by rewrite (kname_but k m m')].
  apply (subkeys_ok_but k m); try done. intros Hin. apply (so_subs _ _ _ B) in Hin as [name E]. by apply H1 in E.
Qed.

(** A key without subkeys and values that no key is named in. *)
Record leaf (ob : key) : Prop := {
  lf_subs : k_last_subkey ob = -1 ∧ k_nb_subkeys ob = 0 ∧ k_subkeys ob = [];
  lf_wow : k_wow6432node ob = None;
  lf_values : k_last_value ob = -1 ∧ k_nb_values ob = 0 ∧ k_values ob = [];
}.

Lemma leaf_ok m k ob : leaf ob → (∀ c name, named m c ≠ Some (name, Some k)) → fits (kname m k) →
  (has (k_flags ob) KEY_DELETED = true → k_name ob = None) → node_ok m k ob.
Proof.
  intros [(L1 & L2 & L3) Hw (V1 & V2 & V3)] Hc Hf Hd. assert (subs ob = []) as Es by (unfold subs; by rewrite L1).
  split; [|split|done|done]; rewrite ?Es.
  - apply (values_ok_intro to_lower ob []); rewrite ?V1, ?V2, ?V3; try done. by left.
  - rewrite L1, L2, L3. split; try done. by left.
  - intros c. split; [intros []%elem_of_nil|]. intros [name E]. by apply Hc in E.
  - by intros i j a b Ha.
  - by rewrite Hw.
Qed.

(** ** Linking *)

Lemma no_orphan m k c name : tree_ok m → m !! k = None → named m c ≠ Some (name, Some k).
Proof.
  intros [rank [_ Hp]] Hk (cob & Hc & Hn)%named_inv. destruct (Hp c cob name k Hc Hn) as (_ & pob & pn & Hpob & _). congruence.
Qed.

Lemma inserted_elem {A} i (v x : A) vs : x ∈ inserted i v vs ↔ x = v ∨ x ∈ vs.
Proof. unfold inserted. rewrite elem_of_app, elem_of_cons. rewrite <-(take_drop (Z.to_nat i) vs) at 3. rewrite elem_of_app. tauto. Qed.

Lemma linked_ok m m' k kob name p pob pob' i : reg_ok m → named m k = None → (∀ c cn, named m c ≠ Some (cn, Some k)) → m !! p = Some pob → is_Some (k_name pob) → fits name →
  placed to_lower (kname m <$> subs pob) name false i → same_but k p m m' → m' !! k = Some kob → m' !! p = Some pob' →
  k_name kob = Some (name, Some p) → leaf kob → has (k_flags kob) KEY_DELETED = false → resub pob pob' (inserted i k (subs pob)) →
  k_wow6432node pob' = k_wow6432node pob ∨ k_wow6432node pob' = Some k → reg_ok m'.
Proof.
  intros [Ht Hn] Hnk0 Hno Hp Hpn Hfit Hpl Hs Hk' Hp' Hkn Hleaf Hdel Hr Hw. assert (p ≠ k) as Hpk.
  { intros ->. rewrite (named_key _ _ _ Hp) in Hnk0. destruct Hpn. congruence. }
  pose proof (same_named _ _ _ _ _ _ Hs Hp Hp' (rs_name _ _ _ Hr)) as Hnb. pose proof (Hn p pob Hp) as Hpok.
  assert (named m' k = Some (name, Some p)) as Hnk by by rewrite (named_key _ _ _ Hk').
  assert (k ∉ subs pob) as Hks. { intros Hin. apply (so_subs _ _ _ (no_subkeys _ _ _ Hpok)) in Hin as [? E]. congruence. }
  split.
  - destruct Ht as [rank [_ Hrk]]. apply (tree_ok_intro _ (λ j, if bool_decide (j = k) then S (rank p) else rank j)).
    intros j ob jn q Hj Hjn. destruct (decide (j = k)) as [->|Hjk].
    { simplify_eq. rewrite (bool_decide_eq_true_2 (k = k)), bool_decide_eq_false_2 by done. split; [lia|]. destruct Hpn as [pn Hpn]. exists pob', pn.
      by rewrite (rs_name _ _ _ Hr). }
    rewrite (bool_decide_eq_false_2 (j = k)) by done. assert (named m j = Some (jn, Some q)) as (ob0 & Hj0 & Hjn0)%named_inv by (rewrite <-Hnb by done; unfold named; by rewrite Hj).
    destruct (Hrk j ob0 jn q Hj0 Hjn0) as (Hlt & qob & qn & Hq & Hqn). assert (q ≠ k) as Hqk. { intros ->. apply (Hno j jn). by rewrite (named_key _ _ _ Hj0). } rewrite bool_decide_eq_false_2 by done. split; [done|].
    apply named_inv_ex. rewrite Hnb by done. unfold named. rewrite Hq. simpl. rewrite Hqn. eauto.
  - intros j ob Hj. destruct (decide (j = k)) as [->|Hjk].
    { simplify_eq. apply leaf_ok; try done; [|by rewrite (named_kname _ _ _ _ Hnk)|congruence].
      intros c cn. destruct (decide (c = k)) as [->|Hc]; [congruence|]. rewrite Hnb by done. apply Hno. }
    destruct (decide (j = p)) as [->|Hjp].
    { simplify_eq. eapply (node_resub k); try done.
      - intros c. rewrite inserted_elem. destruct (decide (c = k)) as [->|Hc]; [split; [eauto|by left]|]. rewrite Hnb, <-(so_subs _ _ _ (no_subkeys _ _ _ Hpok)) by done. naive_solver.
      - pose proof (knames_but k m m' (subs pob) Hnb Hks) as Ek. apply inserted_sorted; rewrite Ek; [apply (no_subkeys _ _ _ Hpok)|].
        by rewrite (named_kname _ _ _ _ Hnk).
      - intros w Ew. apply inserted_elem. destruct Hw as [Hw|Hw]; [right|left; congruence]. apply (so_wow _ _ _ (no_subkeys _ _ _ Hpok)). congruence. }
    rewrite Hs in Hj by done. apply (other_node k m); try done; [congruence|rewrite Hnk; congruence|by apply Hn].
Qed.
(** ** Unlinking *)

Lemma delete_elem {A} (l : list A) i x y : NoDup l → l !! i = Some x → y ∈ delete i l ↔ y ∈ l ∧ y ≠ x.
Proof.
  intros Hd Hi. rewrite <-(take_drop_middle l i x Hi) in Hd |- * at 2. rewrite delete_take_drop, !elem_of_app, elem_of_cons.
  apply NoDup_app in Hd as (_ & H1 & [H2 _]%NoDup_cons). split; [|naive_solver]. intros [Hy|Hy]; (split; [tauto|]); intros ->; [|done].
  apply (H1 x Hy). by left.
Qed.

Lemma tree_rank m c name p rank : ranked rank m → named m c = Some (name, Some p) → (rank p < rank c)%nat ∧ is_Some (named m p).
Proof.
  intros [_ H] (cob & Hc & Hn)%named_inv. destruct (H c cob name p Hc Hn) as (Hl & pob & pn & Hp & Hpn). split; [done|]. unfold named. rewrite Hp. simpl. eauto.
Qed.
Lemma parent_named m c name p : tree_ok m → named m c = Some (name, Some p) → p ≠ c ∧ is_Some (named m p).
Proof. intros [rank Hr] Hn. destruct (tree_rank _ _ _ _ _ Hr Hn) as [Hl Hs]. split; [|done]. intros ->. lia. Qed.

(** The names left give the same ranks. *)
Definition descending (rank : kid → nat) (m : gmap kid key) : Prop :=
  ∀ c name p, named m c = Some (name, Some p) → (rank p < rank c)%nat ∧ is_Some (named m p).

Lemma ranked_descending rank m : ranked rank m → descending rank m.
Proof. intros Hr c name p. by apply tree_rank. Qed.
Lemma descending_tree rank m : descending rank m → tree_ok m.
Proof.
  intros H. apply (tree_ok_intro _ rank). intros k ob name p Hk Hn. destruct (H k name p) as [Hl Hs]; [by rewrite (named_key _ _ _ Hk)|].
  split; [done|]. by apply named_inv_ex.
Qed.

Lemma unlinked_descending rank m m' k : descending rank m → named_but k m m' → named m' k = None → (∀ c name, named m c ≠ Some (name, Some k)) → descending rank m'.
Proof.
  intros Hd Hnb Hk Hno c name p Hc. assert (c ≠ k) as Hck by congruence. rewrite Hnb in Hc by done. destruct (Hd c name p Hc) as [Hl Hs]. split; [done|].
  rewrite Hnb; [done|]. intros ->. by apply Hno in Hc.
Qed.

Lemma no_subs m k ob : subkeys_ok m k ob → subs ob = [] → ∀ c name, named m c ≠ Some (name, Some k).
Proof. intros H E c name Hc. assert (c ∈ subs ob) as Hin by (apply (so_subs _ _ _ H); eauto). rewrite E in Hin. by apply elem_of_nil in Hin. Qed.

Lemma unlinked_nodes m m' k kob name p pob pob' i : reg_ok m → m !! k = Some kob → k_name kob = Some (name, Some p) → subs kob = [] →
  m !! p = Some pob → subs pob !! i = Some k → same_but k p m m' → m' !! p = Some pob' → resub pob pob' (delete i (subs pob)) →
  (∀ w, k_wow6432node pob' = Some w → k_wow6432node pob = Some w ∧ w ≠ k) → named m' k = None →
  ∀ j ob, j ≠ k → m' !! j = Some ob → node_ok m' j ob.
Proof.
  intros [Ht Hn] Hk Hkn Hks Hp Hi Hs Hp' Hr Hw Hnk j ob Hjk Hj. pose proof (Hn p pob Hp) as Hpok.
  pose proof (same_named _ _ _ _ _ _ Hs Hp Hp' (rs_name _ _ _ Hr)) as Hnb. pose proof (subs_nodup _ _ _ (no_subkeys _ _ _ Hpok)) as Hnd.
  destruct (decide (j = p)) as [->|Hjp].
  - simplify_eq. assert (Hin : ∀ c, c ∈ delete i (subs pob) ↔ c ∈ subs pob ∧ c ≠ k) by (intros c; by apply delete_elem). eapply (node_resub k); try done.
    + intros c. rewrite Hin. destruct (decide (c = k)) as [->|Hc]; [split; [naive_solver|intros [? E]; congruence]|].
      rewrite Hnb, <-(so_subs _ _ _ (no_subkeys _ _ _ Hpok)) by done. naive_solver.
    + rewrite (knames_but k m m') by (done || rewrite Hin; naive_solver). apply sorted_delete, (no_subkeys _ _ _ Hpok).
    + intros w [Ew Hwk]%Hw. apply Hin. split; [|done]. by apply (so_wow _ _ _ (no_subkeys _ _ _ Hpok)).
  - rewrite Hs in Hj by done. apply (other_node k m); try done; [|rewrite Hnk; congruence|by apply Hn].
    intros nm E. rewrite (named_key _ _ _ Hk) in E. congruence.
Qed.

(** The key that was unlinked. *)
Lemma deleted_node m m' k kob kob' : node_ok m k kob → subs kob = [] → named_but k m m' → named m' k = None → k_name kob' = None →
  k_last_subkey kob' = k_last_subkey kob → k_nb_subkeys kob' = k_nb_subkeys kob → k_subkeys kob' = k_subkeys kob → k_wow6432node kob' = k_wow6432node kob →
  k_last_value kob' = k_last_value kob → k_nb_values kob' = k_nb_values kob → k_values kob' = k_values kob → node_ok m' k kob'.
Proof.
  intros [A B C D] Hs Hnb Hnk Hkn E1 E2 E3 E4 E5 E6 E7. assert (subs kob' = []) as Es' by (unfold subs; rewrite E1, E3; exact Hs).
  assert (values kob' = values kob) as Ev by (unfold values; by rewrite E5, E7). split.
  - destruct A. split; rewrite ?Ev, ?E5, ?E6, ?E7; done.
  - destruct B as [B1 B2 B3 B4]. split; rewrite Es', ?E1, ?E2, ?E3, ?E4; rewrite Hs in *; try done. intros c. split; [intros []%elem_of_nil|].
    intros [name Hc]. assert (c ≠ k) as Hck by congruence. rewrite Hnb in Hc by done. apply B2. eauto.
  - unfold kname. rewrite Hnk. unfold fits. simpl. lia.
  - done.
Qed.
End tree.
