(* ===== verification/RegistryCreate.v ===== *)
(** * Linking and unlinking keys

    The operations on the arrays of subkeys under the invariant of the tree.

    ** Creating keys

    A new key is entered in the tree under its name, or nothing is left of it. *)

From stdpp Require Import base list gmap fin_maps.
From S2P Require Import Prelude RegText Registry RegistryInv RegistryThms RegistryKeys.

Open Scope Z_scope.
Open Scope server_scope.

Section link.
Context (to_lower : Z → Z).
Notation fold name := (to_lower <$> name).
Notation reg_ok := (reg_ok to_lower).
Notation subkeys_ok := (subkeys_ok to_lower).

(** ** Searching *)

Lemma sub_named m k ob c : subkeys_ok m k ob → c ∈ subs ob → ∃ cob name, m !! c = Some cob ∧ k_name cob = Some (name, Some k).
Proof. intros H Hc. apply (so_subs _ _ _ _ H) in Hc as [name (cob & ? & ?)%named_inv]. eauto. Qed.

Lemma sub_fits m k ob c : reg_ok m → m !! k = Some ob → c ∈ subs ob → fits (kname m c).
Proof.
  intros [_ Hn] Hk Hc. destruct (sub_named m k ob c) as (cob & name & Hcob & _); [by apply Hn|done|]. by apply (Hn c cob).
Qed.

Lemma find_subkey_ok k ob name (Q : bool * Z → reg → Prop) s : reg_ok (keys s) → keys s !! k = Some ob → fits name →
  (∀ found i, placed to_lower (kname (keys s) <$> subs ob) name found i → Q (found, i) s) → wp (find_subkey to_lower ob name) Q s.
Proof.
  intros Hok Hk Hn HQ. pose proof (no_subkeys _ _ _ _ (ro_nodes _ _ Hok k ob Hk)) as Hs. pose proof (so_array _ _ _ _ Hs) as Ha.
  pose proof (array_length _ _ _ _ _ Ha) as Hle. pose proof (ao_last _ _ _ _ _ Ha) as Hlast. unfold find_subkey.
  apply (bisect_run to_lower (kname (keys s) <$> subs ob)); try done.
  - apply Hs.
  - apply Forall_fmap, Forall_forall. intros c Hc. by eapply sub_fits.
  - intros i a Q' Hi Hl HQ'. rewrite list_lookup_fmap in Hl. apply fmap_Some in Hl as (c & Hc & ->).
    destruct (sub_named _ _ _ c Hs) as (cob & nm & Hcob & Hnm); [by eapply list_elem_of_lookup_2|].
    apply wp_bind, (wp_read_cell _ _ c); [done|by eapply array_lookup|]. apply wp_bind, (wp_get_key _ cob); [done|].
    unfold kname in HQ'. rewrite (named_key _ _ _ Hcob), Hnm in HQ'. unfold name_of. rewrite Hnm. done.
  - rewrite length_fmap. lia.
  - lia.
  - lia.
  - intros j a Hj Hlt. lia.
  - intros j a Hj Hlt. apply lookup_lt_Some in Hj. rewrite length_fmap in Hj. lia.
Qed.

(** Names in lists of keys. *)
Lemma find_sub_app m name l1 l2 : find_sub to_lower m name (l1 ++ l2) = match find_sub to_lower m name l1 with Some x => Some x | None => find_sub to_lower m name l2 end.
Proof. unfold find_sub. induction l1 as [|x l1 IH]; simpl; [done|]. by destruct (same_name _ _ _). Qed.
Lemma find_sub_none m name l : (∀ c, c ∈ l → fold (kname m c) ≠ fold name) → find_sub to_lower m name l = None.
Proof.
  induction l as [|c l IH]; intros H; [done|]. unfold find_sub. simpl. unfold same_name at 1. rewrite bool_decide_eq_false_2 by (apply H; by left).
  apply IH. intros d Hd. apply H. by right.
Qed.
Lemma find_sub_cons m name c l : find_sub to_lower m name (c :: l) = if same_name to_lower (kname m c) name then Some c else find_sub to_lower m name l.
Proof. done. Qed.
Lemma find_sub_ext m m' name l : (∀ c, c ∈ l → kname m' c = kname m c) → find_sub to_lower m' name l = find_sub to_lower m name l.
Proof.
  induction l as [|c l IH]; intros H; [done|]. rewrite !find_sub_cons, H by (by left). rewrite IH; [done|]. intros d Hd. apply H. by right.
Qed.

Lemma find_sub_inserted m i k cs n : placed to_lower (kname m <$> cs) (kname m k) false i →
  find_sub to_lower m n (inserted i k cs) = if same_name to_lower (kname m k) n then Some k else find_sub to_lower m n cs.
Proof.
  intros Hp. destruct (placed_split to_lower _ _ _ _ Hp) as (Hlo & _ & _). unfold inserted. rewrite find_sub_app, find_sub_cons.
  replace (find_sub to_lower m n cs) with (find_sub to_lower m n (take (Z.to_nat i) cs ++ drop (Z.to_nat i) cs)) by (by rewrite take_drop).
  rewrite find_sub_app. unfold same_name. case_bool_decide as E; [|done].
  rewrite find_sub_none; [done|]. intros c Hc. rewrite <-E. by apply lex_neq, Hlo.
Qed.
Lemma find_sub_delete m i k cs n : sorted_names to_lower (kname m <$> cs) → cs !! i = Some k →
  find_sub to_lower m n (delete i cs) = if same_name to_lower (kname m k) n then None else find_sub to_lower m n cs.
Proof.
  intros Hs Hi. rewrite delete_take_drop. rewrite <-(take_drop_middle cs i k Hi) at 3. rewrite !find_sub_app, find_sub_cons. unfold same_name. case_bool_decide as En; [|done].
  rewrite !find_sub_none; [done|..].
  - intros c [j Hj]%list_elem_of_lookup. rewrite lookup_drop in Hj. rewrite <-En. symmetry.
    apply lex_neq, (Hs i (S i + j)%nat); [by rewrite list_lookup_fmap, Hi|by rewrite list_lookup_fmap, Hj|lia].
  - intros c Hc. rewrite <-En. by eapply sorted_before.
Qed.

(** What a search found. *)
Lemma placed_child m k ob name found i : m !! k = Some ob → placed to_lower (kname m <$> subs ob) name found i →
  0 <= i <= Z.of_nat (length (subs ob)) ∧
  if found then ∃ c, subs ob !! Z.to_nat i = Some c ∧ fold (kname m c) = fold name ∧ child to_lower m k name = Some c else child to_lower m k name = None.
Proof.
  intros Hk Hp. split; [rewrite <-(length_fmap (kname m)); apply Hp|]. destruct (placed_split to_lower _ _ _ _ Hp) as (Hlo & Hhi & Hf).
  unfold child. rewrite Hk. simpl. destruct found.
  - destruct Hf as (c & Hc & E). exists c. split_and!; [done..|]. rewrite <-(take_drop_middle (subs ob) (Z.to_nat i) c Hc).
    rewrite find_sub_app, find_sub_none by (intros d Hd; by apply lex_neq, Hlo). rewrite find_sub_cons. unfold same_name. by rewrite bool_decide_eq_true_2.
  - rewrite Nat.add_0_r in Hhi. apply find_sub_none. intros c Hc. rewrite <-(take_drop (Z.to_nat i) (subs ob)) in Hc.
    apply elem_of_app in Hc as [Hc|Hc]; [by apply lex_neq, Hlo|]. symmetry. by apply lex_neq, Hhi.
Qed.

(** ** Linking *)

(** What a change of the array of [p] to the subkeys [cs] leaves. *)
Definition resubs (p : kid) (ob : key) (cs : list kid) (s s' : reg) : Prop :=
  ∃ ob', keys s' = <[p:=ob']> (keys s) ∧ resub ob ob' cs ∧ k_wow6432node ob' = k_wow6432node ob.

Lemma resub_refl ob cs : subs_array ob cs → resub ob ob cs.
Proof. intros H. by split. Qed.

Lemma grow_subkeys_ok k ob cs s (Q : bool → reg → Prop) : keys s !! k = Some ob → subs_array ob cs → k_last_subkey ob + 1 = k_nb_subkeys ob →
  (∀ b s', resubs k ob cs s s' → allocated b s (set_keys (λ _, keys s) s') →
     (b = true → ∃ ob', keys s' !! k = Some ob' ∧ Z.of_nat (length cs) < k_nb_subkeys ob') → Q b s') → wp (grow_subkeys k) Q s.
Proof.
  intros Hk Ha Hfull HQ. pose proof (ao_last _ _ _ _ _ Ha) as Hlast. pose proof (ao_nb _ _ _ _ _ Ha) as Hnb. unfold grow_subkeys. apply wp_bind, (wp_get_key _ ob); [done|].
  assert (Hsame : ∀ s1, keys s1 = keys s → resubs k ob cs s s1).
  { intros s1 E. exists ob. rewrite E, insert_id by done. by split_and!. }
  assert (Hgrow : ∀ nb s1, allocated true s s1 → k_nb_subkeys ob < nb → MIN_SUBKEYS <= nb →
    wp (put_key k (k_set_subkeys (k_last_subkey ob) nb (k_subkeys ob ++ replicate (Z.to_nat nb - length (k_subkeys ob)) None) ob) ;; ret true) Q s1).
  { intros nb s1 Hal Hnb' Hmin. apply wp_bind, wp_put_key, wp_ret, HQ.
    - eexists. simpl. rewrite (proj1 Hal). split; [done|]. split; [|done]. split; simpl; try done. apply (array_grow _ (k_nb_subkeys ob)); [done|lia|done].
    - destruct Hal as (? & ? & ? & ?). by split_and!.
    - intros _. eexists. simpl. rewrite lookup_insert_eq. split; [done|]. simpl. lia. }
  apply wp_bind. destruct (Z.eqb_spec (k_nb_subkeys ob) 0) as [E0|E0]; cbn [negb].
  - apply wp_bind, wp_reg_mem_alloc. intros b s1 Hal. apply wp_ret. destruct b; [apply Hgrow; [done|unfold MIN_SUBKEYS; lia|done]|].
    apply wp_ret, HQ; [apply Hsame, Hal|destruct Hal as (? & ? & ? & ?); by split_and!|done].
  - assert (MIN_SUBKEYS <= k_nb_subkeys ob) as Hm by (destruct (ao_min _ _ _ _ _ Ha); [lia|done]). unfold MIN_SUBKEYS in *.
    apply wp_bind, wp_reg_malloc. intros b l Hl. destruct b; cbn [negb].
    + apply wp_ret, Hgrow; [split_and!; [done..|by intros E; destruct (Hl E)]| |]; pose proof (Z.div_le_lower_bound (k_nb_subkeys ob) 2 1); lia.
    + apply wp_bind, wp_modify, wp_ret, wp_ret, HQ; [by apply Hsame|split_and!; try done; by intros E; destruct (Hl E)|done].
Qed.
Lemma named_insert m p pob pob' : m !! p = Some pob → k_name pob' = k_name pob → ∀ c, named (<[p:=pob']> m) c = named m c.
Proof. intros Hp E c. unfold named. destruct (decide (c = p)) as [->|Hc]; [by rewrite lookup_insert_eq, Hp|by rewrite lookup_insert_ne]. Qed.

(** Another array with the same subkeys. *)
Lemma resub_reg_ok m p pob pob' : reg_ok m → m !! p = Some pob → resub pob pob' (subs pob) → k_wow6432node pob' = k_wow6432node pob → reg_ok (<[p:=pob']> m).
Proof.
  intros [Ht Hn] Hp Hr Hw. pose proof (named_insert m p pob pob' Hp (rs_name _ _ _ Hr)) as En. split; [by eapply revalued_tree; [| |]; [|apply Hr|]|].
  intros j ob Hj. destruct (decide (j = p)) as [->|Hjp].
  2:{ rewrite lookup_insert_ne in Hj by done. apply (similar_node to_lower m _ j ob ob En); [reflexivity|by apply Hn]. }
  rewrite lookup_insert_eq in Hj. injection Hj as <-. destruct (Hn p pob Hp) as [A [B1 B2 B3 B4] C D]. pose proof (subs_array_subs _ _ (rs_array _ _ _ Hr)) as Es.
  assert (∀ c, kname (<[p:=pob']> m) c = kname m c) as Ek by (intros c; unfold kname; by rewrite En). split.
  - by apply (values_resub to_lower pob pob' (subs pob)).
  - split; rewrite Es, ?Hw; try done; [apply Hr|intros c; rewrite En; apply B2|]. by rewrite (list_fmap_ext _ (kname m) (subs pob)) by done.
  - by rewrite Ek.
  - rewrite (rs_flags _ _ _ Hr), (rs_name _ _ _ Hr). done.
Qed.

(** What linking [k] leaves. *)
Definition link_outcome (k : kid) (kob : key) (name : list Z) (p : kid) (pob : key) (r : bool) (s s' : reg) : Prop :=
  reg_env s s' ∧ reg_ok (keys s') ∧ same_but k p (keys s) (keys s') ∧ (rg_allocs s = [] → r = true ∧ rg_allocs s' = []) ∧
  ∃ pob', keys s' !! p = Some pob' ∧
  if r then rg_error s' = rg_error s ∧ keys s' !! k = Some (k_set_name (Some (name, Some p)) kob) ∧
    ∃ i, placed to_lower (kname (keys s) <$> subs pob) name false i ∧ resub pob pob' (inserted i k (subs pob))
  else rg_error s' = REG_NO_MEMORY ∧ keys s' !! k = Some kob ∧ resub pob pob' (subs pob).

(** The end of [key_link_name], with room in the array. *)
Lemma link_room_ok k kob name p pob pob1 s s1 : reg_ok (keys s) → keys s !! k = Some kob → k_name kob = None → leaf kob → has (k_flags kob) KEY_DELETED = false →
  keys s !! p = Some pob → is_Some (k_name pob) → fits name → child to_lower (keys s) p name = None →
  keys s1 = <[p:=pob1]> (keys s) → resub pob pob1 (subs pob) → k_wow6432node pob1 = k_wow6432node pob → Z.of_nat (length (subs pob)) < k_nb_subkeys pob1 →
  reg_env s s1 → rg_error s1 = rg_error s → (rg_allocs s = [] → rg_allocs s1 = []) →
  wp (ob <- get_key p;
      r <- find_subkey to_lower ob name;
      let index := snd r in
      let last := k_last_subkey ob + 1 in
      a <- shift_up (Z.to_nat (last - index)) (k_subkeys ob) last;
      a <- arr_set a index (Some k);
      pname <- name_of ob;
      put_key p (k_set_wow (if is_wow6432node to_lower name && negb (is_wow6432node to_lower pname) then Some k else k_wow6432node ob)
        (k_set_subkeys last (k_nb_subkeys ob) a ob)) ;;
      sub <- get_key k;
      put_key k (k_set_name (Some (name, Some p)) sub) ;;
      ret true) (λ r s', link_outcome k kob name p pob r s s') s1.
Proof.
  intros Hok Hk Hkn Hleaf Hdel Hp [pn Hpn] Hfit Hch Ek1 Hr1 Hw1 Hroom He1 Herr1 Ha1. assert (p ≠ k) as Hpk by congruence.
  assert (reg_ok (keys s1)) as Hok1 by (rewrite Ek1; by eapply resub_reg_ok). assert (keys s1 !! p = Some pob1) as Hp1 by (rewrite Ek1; apply lookup_insert_eq).
  pose proof (subs_array_subs _ _ (rs_array _ _ _ Hr1)) as Es1. pose proof (rs_array _ _ _ Hr1) as Har. pose proof (ao_last _ _ _ _ _ Har) as Hl1.
  assert (Hen : ∀ c, named (keys s1) c = named (keys s) c) by (rewrite Ek1; apply (named_insert _ _ pob); [done|apply Hr1]).
  assert (kname (keys s1) <$> subs pob1 = kname (keys s) <$> subs pob) as Ekn. { rewrite Es1. apply list_fmap_ext. intros ? c _. unfold kname. by rewrite Hen. }
  apply wp_bind, (wp_get_key _ pob1); [done|]. apply wp_bind, (find_subkey_ok p pob1); [done..|]. intros found i Hpl. cbn [snd]. cbv zeta.
  rewrite Ekn in Hpl. destruct (placed_child (keys s) p pob name found i Hp Hpl) as [Hi Hf]. destruct found; [destruct Hf as (? & _ & _ & ?); congruence|].
  rewrite Hl1. replace (Z.of_nat (length (subs pob)) - 1 + 1) with (Z.of_nat (length (subs pob))) by lia. rewrite Hl1 in Har. eapply wp_bind2; [by apply (array_insert (k_nb_subkeys pob1) MIN_SUBKEYS (k_subkeys pob1) (subs pob) k i (λ a s', array_ok (Z.of_nat (length (subs pob))) (k_nb_subkeys pob1) MIN_SUBKEYS a (inserted i k (subs pob)) ∧ s' = s1)); try done|].
  intros a s' [Hins ->]. unfold name_of. rewrite (rs_name _ _ _ Hr1), Hpn. apply wp_bind. apply wp_ret, wp_bind, wp_put_key. set (pob2 := k_set_wow _ _).
  apply wp_bind, (wp_get_key _ kob); [simpl; by rewrite lookup_insert_ne, Ek1, lookup_insert_ne|]. apply wp_bind, wp_put_key, wp_ret. set (kob' := k_set_name _ kob). set (s2 := set_keys _ _).
  assert (keys s2 !! k = Some kob') as Hk2 by apply lookup_insert_eq. assert (keys s2 !! p = Some pob2) as Hp2 by (simpl; by rewrite lookup_insert_ne, lookup_insert_eq).
  assert (resub pob pob2 (inserted i k (subs pob))) as Hr2 by (destruct Hr1; by split).
  assert (same_but k p (keys s) (keys s2)) as Hsb by (intros j Hjk Hjp; simpl; by rewrite !lookup_insert_ne, Ek1, lookup_insert_ne).
  split; [by split_and!; apply He1|]. split_and!; try done.
  - eapply (linked_ok to_lower (keys s) _ k kob' name p pob pob2 i); try done; [by rewrite (named_key _ _ _ Hk)| |by destruct Hleaf|].
    + intros c cn. eapply no_subs; [by apply Hok|]. unfold subs. by rewrite (proj1 (lf_subs _ Hleaf)).
    + simpl. case_match; [by right|by left].
  - intros E. split; [done|by apply Ha1].
  - exists pob2. split_and!; try done. by exists i.
Qed.

Lemma key_link_name_ok k kob name p pob s : reg_ok (keys s) → keys s !! k = Some kob → k_name kob = None → leaf kob → has (k_flags kob) KEY_DELETED = false →
  keys s !! p = Some pob → is_Some (k_name pob) → fits name → child to_lower (keys s) p name = None →
  wp (key_link_name to_lower k name p) (λ r s', link_outcome k kob name p pob r s s') s.
Proof.
  intros Hok Hk Hkn Hleaf Hdel Hp Hpn Hfit Hch. assert (p ≠ k) as Hpk by (destruct Hpn; congruence). unfold key_link_name. apply wp_bind, (wp_get_key _ pob); [done|].
  pose proof (so_array _ _ _ _ (no_subkeys _ _ _ _ (ro_nodes _ _ Hok p pob Hp))) as Har. pose proof (ao_last _ _ _ _ _ Har) as Hl. pose proof (array_length _ _ _ _ _ Har) as Hlen. pose proof (ao_nb _ _ _ _ _ Har).
  apply wp_bind. destruct (Z.eqb_spec (k_last_subkey pob + 1) (k_nb_subkeys pob)) as [Hfull|Hfull].
  - apply (grow_subkeys_ok p pob (subs pob)); try done. intros b s1 (pob1 & Ek1 & Hr1 & Hw1) (_ & He1 & Herr1 & Ha1) Hb. destruct b; cbn [negb].
    + destruct (Hb eq_refl) as (ob' & Hob' & Hlt). rewrite Ek1, lookup_insert_eq in Hob'. injection Hob' as <-.
      eapply (link_room_ok k kob name p pob pob1 s s1); try done. intros E. by apply Ha1.
    + apply wp_ret. split; [done|]. split_and!; [rewrite Ek1; by eapply resub_reg_ok|intros j _ Hj; by rewrite Ek1, lookup_insert_ne|done|].
      exists pob1. rewrite Ek1, lookup_insert_eq, lookup_insert_ne by done. by split_and!.
  - apply wp_ret. cbn [negb]. apply (link_room_ok k kob name p pob pob s s); try done; [by rewrite insert_id|lia].
Qed.
(** ** Unlinking *)

Lemma ranked_intro rank m m' : ranked rank m → size m' = size m → (∀ j, is_Some (m' !! j) → is_Some (m !! j)) → descending rank m' → ranked rank m'.
Proof.
  intros [Hr _] Es Hd H. split; [intros j Hj; rewrite Es; by apply Hr, Hd|]. intros c ob name p Hc Hn.
  destruct (H c name p) as [Hl Hs]; [by rewrite (named_key _ _ _ Hc)|]. split; [done|]. by apply named_inv_ex.
Qed.

Lemma unlinked_ok m m' k kob kob' name p pob pob' i : reg_ok m → m !! k = Some kob → k_name kob = Some (name, Some p) → subs kob = [] →
  m !! p = Some pob → subs pob !! i = Some k → same_but k p m m' → m' !! p = Some pob' → resub pob pob' (delete i (subs pob)) →
  (∀ w, k_wow6432node pob' = Some w → k_wow6432node pob = Some w ∧ w ≠ k) → m' !! k = Some kob' → (∃ f, kob' = k_set_name None (k_set_flags f kob)) →
  reg_ok m' ∧ ∀ rank, ranked rank m → ranked rank m'.
Proof.
  intros Hok Hk Hkn Hks Hp Hi Hs Hp' Hr Hw Hk' [f Ef]. assert (named m' k = None) as Hnk by (rewrite (named_key _ _ _ Hk'); by subst).
  pose proof (ro_nodes _ _ Hok k kob Hk) as Hnode. pose proof (no_subs to_lower m k kob (no_subkeys _ _ _ _ Hnode) Hks) as Hno.
  pose proof (same_named _ _ _ _ _ _ Hs Hp Hp' (rs_name _ _ _ Hr)) as Hnb.
  assert (Hd : ∀ rank, descending rank m → descending rank m') by (intros rank Hd; by eapply unlinked_descending).
  assert (Hrk : ∀ rank, ranked rank m → ranked rank m').
  { intros rank Hrk. apply (ranked_intro rank m); [done| | |by apply Hd, ranked_descending].
    - rewrite <-!size_dom. f_equal. apply set_eq. intros j. rewrite !elem_of_dom. destruct (decide (j = k)) as [->|]; [by rewrite Hk, Hk'|].
      destruct (decide (j = p)) as [->|]; [by rewrite Hp, Hp'|]. by rewrite Hs.
    - intros j. destruct (decide (j = k)) as [->|]; [by rewrite Hk|]. destruct (decide (j = p)) as [->|]; [by rewrite Hp|]. by rewrite Hs. }
  split; [|done]. split; [destruct (ro_tree _ _ Hok) as [rank ?]; exists rank; auto|]. intros j ob Hj. destruct (decide (j = k)) as [->|Hjk].
  - simplify_eq. by apply (deleted_node to_lower m m' k kob).
  - by eapply (unlinked_nodes to_lower m m' k kob name p pob pob' i).
Qed.

Lemma subkey_index_ok (cs : list kid) a k i s (Q : Z → reg → Prop) : ∀ n j, (∀ x c, cs !! x = Some c → a !! x = Some (Some c)) → NoDup cs → cs !! i = Some k →
  0 <= j <= Z.of_nat i → Z.of_nat (length cs) <= j + Z.of_nat n → Q (Z.of_nat i) s → wp (subkey_index a k n j) Q s.
Proof.
  induction n as [|n IH]; intros j Ha Hd Hi Hj Hn HQ; pose proof (lookup_lt_Some _ _ _ Hi); [lia|]. cbn [subkey_index].
  destruct (lookup_lt_is_Some_2 cs (Z.to_nat j)) as [c Hc]; [lia|]. apply wp_bind, (wp_read_cell _ _ c); [lia|by apply Ha|].
  case_bool_decide as E.
  - subst c. apply wp_ret. assert (Z.to_nat j = i) as <- by (eapply NoDup_lookup; eauto). by replace (Z.of_nat (Z.to_nat j)) with j in HQ by lia.
  - apply IH; try done; [|lia]. assert (Z.of_nat i ≠ j); [|lia]. intros <-. rewrite Nat2Z.id in Hc. congruence.
Qed.

(** What unlinking [k] leaves; [s] is the state with the invariant before. *)
Definition unlink_outcome (k : kid) (kob : key) (p : kid) (pob : key) (s s' : reg) : Prop :=
  reg_ok (keys s') ∧ (∀ rank, ranked rank (keys s) → ranked rank (keys s')) ∧ same_but k p (keys s) (keys s') ∧ keys s' !! k = Some (k_set_name None kob) ∧
  ∃ i pob', subs pob !! i = Some k ∧ keys s' !! p = Some pob' ∧ resub pob pob' (delete i (subs pob)).

Lemma unlink_key_ok k kob f name p pob s s0 : reg_ok (keys s) → keys s !! k = Some kob → k_name kob = Some (name, Some p) → subs kob = [] →
  keys s !! p = Some pob → keys s0 = <[k:=k_set_flags f kob]> (keys s) →
  wp (unlink_key k) (λ _ s', reg_env s0 s' ∧ rg_error s' = rg_error s0 ∧ unlink_outcome k (k_set_flags f kob) p pob s s') s0.
Proof.
  intros Hok Hk Hkn Hks Hp Ek0. assert (named (keys s) k = Some (name, Some p)) as Hnk by by rewrite (named_key _ _ _ Hk).
  destruct (parent_named _ _ _ _ (ro_tree _ _ Hok) Hnk) as [Hpk _]. pose proof (no_subkeys _ _ _ _ (ro_nodes _ _ Hok p pob Hp)) as Hsub.
  assert (k ∈ subs pob) as [i Hi]%list_elem_of_lookup by (apply (so_subs _ _ _ _ Hsub); eauto). pose proof (so_array _ _ _ _ Hsub) as Har.
  pose proof (ao_last _ _ _ _ _ Har) as Hl. pose proof (lookup_lt_Some _ _ _ Hi) as Hlt. set (kob1 := k_set_flags f kob) in *.
  unfold unlink_key. apply wp_bind, (wp_get_key _ kob1); [by rewrite Ek0, lookup_insert_eq|]. change (k_name kob1) with (k_name kob). rewrite Hkn.
  apply wp_bind, wp_put_key. unfold key_unlink_name. apply wp_bind, (wp_get_key _ pob); [simpl; by rewrite lookup_insert_ne, Ek0, lookup_insert_ne|].
  apply wp_bind, (subkey_index_ok (subs pob) (k_subkeys pob) k i); [intros x c Hx; by eapply array_lookup|by eapply subs_nodup|done|lia|lia|].
  apply wp_bind. rewrite (proj2 (Z.leb_le _ _)) by lia. apply wp_ret, wp_bind, (array_delete _ (k_nb_subkeys pob) MIN_SUBKEYS _ (subs pob)); [done|lia|].
  intros a Ha. rewrite Nat2Z.id in Ha. cbv zeta. apply wp_bind, wp_put_key. set (pob1 := k_set_wow _ _). set (s1 := set_keys _ (set_keys _ s0)).
  assert (Hdone : ∀ s2 pob2, keys s2 = <[p:=pob2]> (keys s1) → reg_env s0 s2 → rg_error s2 = rg_error s0 → resub pob pob2 (delete i (subs pob)) → k_wow6432node pob2 = k_wow6432node pob1 →
    reg_env s0 s2 ∧ rg_error s2 = rg_error s0 ∧ unlink_outcome k kob1 p pob s s2).
  { intros s2 pob2 Ek2 He Herr Hr2 Hw2. split; [done|]. split; [done|]. assert (keys s2 !! p = Some pob2) as Hp2 by (rewrite Ek2; apply lookup_insert_eq).
    assert (keys s2 !! k = Some (k_set_name None kob1)) as Hk2 by (rewrite Ek2; simpl; by rewrite 2!lookup_insert_ne, lookup_insert_eq).
    assert (same_but k p (keys s) (keys s2)) as Hsb by (intros j Hj1 Hj2; rewrite Ek2; simpl; by rewrite !lookup_insert_ne, Ek0, lookup_insert_ne).
    destruct (unlinked_ok (keys s) (keys s2) k kob (k_set_name None kob1) name p pob pob2 i) as [? ?]; try done; [|by exists f|].
    - intros w. rewrite Hw2. simpl. case_bool_decide as Ew; [done|]. intros E. split; [done|]. congruence.
    - split_and!; try done. by exists i, pob2. }
  assert (resub pob pob1 (delete i (subs pob))) as Hr1 by (by split). destruct (shrink_count _ _ _) as [nb|] eqn:Esh.
  - apply wp_bind, wp_reg_malloc. intros [] l _; cbn [negb].
    + apply wp_bind, (wp_get_key _ pob1); [simpl; apply lookup_insert_eq|]. apply wp_put_key. eapply Hdone; [reflexivity|done|done| |done].
      destruct Hr1. split; try done. simpl. apply (array_shrink _ (k_nb_subkeys pob)); [done|done|unfold MIN_SUBKEYS; lia].
    + apply wp_ret. apply (Hdone _ pob1); try done. simpl. by rewrite insert_insert_eq.
  - apply wp_ret. apply (Hdone _ pob1); try done. simpl. by rewrite insert_insert_eq.
Qed.
End link.

(** * Creating keys *)

Section create.
Context (to_lower : Z → Z).
Notation fold name := (to_lower <$> name).
Notation reg_ok := (reg_ok to_lower).
Notation node_ok := (node_ok to_lower).

(** ** Changes that keep the names *)

Lemma renamed_reg_ok m m' : (∀ c, named m' c = named m c) → (∀ j ob', m' !! j = Some ob' → (∃ ob, m !! j = Some ob ∧ similar ob ob') ∨ node_ok m' j ob') →
  reg_ok m → reg_ok m'.
Proof.
  intros En Hj [[rank Hr] Hn]. split.
  - apply (descending_tree rank). intros c name p. rewrite !En. by apply ranked_descending.
  - intros j ob' Hob. destruct (Hj j ob' Hob) as [(ob & Hob0 & Hs)|?]; [|done]. by apply (similar_node to_lower m m' j ob), Hn.
Qed.

(** A key changed in nothing but class, values, flags, time and notifications. *)
Lemma update_reg_ok m k ob ob' : reg_ok m → m !! k = Some ob → k_name ob' = k_name ob → k_last_subkey ob' = k_last_subkey ob → k_nb_subkeys ob' = k_nb_subkeys ob →
  k_subkeys ob' = k_subkeys ob → k_wow6432node ob' = k_wow6432node ob → values_ok to_lower ob' → (has (k_flags ob') KEY_DELETED = true → k_name ob = None) →
  reg_ok (<[k:=ob']> m).
Proof.
  intros Hok Hk E1 E2 E3 E4 E5 Hv Hd. pose proof (named_insert m k ob ob' Hk E1) as En. apply (renamed_reg_ok m); [done| |done]. intros j o Hj.
  destruct (decide (j = k)) as [->|Hjk]; [|rewrite lookup_insert_ne in Hj by done; left; exists o; split; [done|reflexivity]].
  rewrite lookup_insert_eq in Hj. injection Hj as <-. right. destruct (ro_nodes _ _ Hok k ob Hk) as [A B C D]. split; [done| | |rewrite E1; exact Hd].
  - by apply (subkeys_ok_named to_lower m _ k ob).
  - unfold kname. by rewrite En.
Qed.

Lemma blank_reg_ok m k kob : reg_ok m → m !! k = None → leaf kob → k_name kob = None → reg_ok (<[k:=kob]> m).
Proof.
  intros Hok Hk Hl Hn. assert (∀ c, named (<[k:=kob]> m) c = named m c) as En.
  { intros c. unfold named. destruct (decide (c = k)) as [->|]; [by rewrite lookup_insert_eq, Hk|by rewrite lookup_insert_ne]. }
  apply (renamed_reg_ok m); [done| |done]. intros j o Hj. destruct (decide (j = k)) as [->|Hjk].
  - rewrite lookup_insert_eq in Hj. injection Hj as <-. right. apply leaf_ok; try done; [|unfold kname; rewrite En; unfold named; rewrite Hk; unfold fits; simpl; lia].
    intros c name. rewrite En. apply no_orphan; [apply Hok|done].
  - rewrite lookup_insert_ne in Hj by done. left. exists o. split; [done|reflexivity].
Qed.

Lemma delete_reg_ok m k kob : reg_ok m → m !! k = Some kob → k_name kob = None → reg_ok (delete k m).
Proof.
  intros Hok Hk Hn. assert (∀ c, named (delete k m) c = named m c) as En.
  { intros c. unfold named. destruct (decide (c = k)) as [->|]; [by rewrite lookup_delete_eq, Hk|by rewrite lookup_delete_ne]. }
  apply (renamed_reg_ok m); [done| |done]. intros j o Hj. apply lookup_delete_Some in Hj as [_ Hj]. left. exists o. split; [done|reflexivity].
Qed.

(** ** The subkeys of a name *)

Lemma child_ext m m' p pob pob' name : m !! p = Some pob → m' !! p = Some pob' → subs pob' = subs pob → (∀ c, c ∈ subs pob → kname m' c = kname m c) →
  child to_lower m' p name = child to_lower m p name.
Proof. intros Hp Hp' Es Hk. unfold child. rewrite Hp, Hp'. simpl. rewrite Es. by apply find_sub_ext. Qed.

Lemma child_inserted m m' p pob pob' i k n : m !! p = Some pob → m' !! p = Some pob' → subs pob' = inserted i k (subs pob) →
  (∀ c, c ∈ subs pob → kname m' c = kname m c) → placed to_lower (kname m <$> subs pob) (kname m' k) false i →
  child to_lower m' p n = if same_name to_lower (kname m' k) n then Some k else child to_lower m p n.
Proof.
  intros Hp Hp' Es Hc Hpl. assert (kname m' <$> subs pob = kname m <$> subs pob) as Ek.
  { apply list_fmap_ext. intros j c Hj. apply Hc. by eapply list_elem_of_lookup_2. }
  unfold child. rewrite Hp, Hp'. simpl. rewrite Es, find_sub_inserted by (by rewrite Ek). by rewrite (find_sub_ext _ m).
Qed.

(** ** The fields of a new key *)

Definition init_flags (options : Z) : Z :=
  Z.lor (if has options REG_OPTION_CREATE_LINK then KEY_SYMLINK else 0) (if has options REG_OPTION_VOLATILE then KEY_VOLATILE else KEY_DIRTY).
Definition init_class (class : list Z) : option (list Z) := match class with [] => None | _ => Some class end.

(** The key as [key_init] makes it, with the flags [f]. *)
Definition fresh_key (name : option (list Z * option kid)) (class : option (list Z)) (f modif : Z) : key := Key name class (-1) 0 [] None (-1) 0 [] f modif [].

Lemma fresh_leaf name class f modif : leaf (fresh_key name class f modif).
Proof. by split. Qed.

(** A key that is not volatile cannot be created in a volatile one. *)
Definition child_error (options : Z) (pob : key) : bool := negb (has options REG_OPTION_VOLATILE) && has (k_flags pob) KEY_VOLATILE.

Definition init_outcome (k : kid) (nm : list Z * option kid) (class : list Z) (options modif : Z) (pob : key) (r : bool) (s s' : reg) : Prop :=
  reg_env s s' ∧ (rg_allocs s = [] → rg_allocs s' = []) ∧ ∃ class' f, keys s' = <[k:=fresh_key (Some nm) class' f modif]> (keys s) ∧ has f KEY_DELETED = false ∧
  if r then rg_error s' = rg_error s ∧ child_error options pob = false ∧ class' = init_class class ∧ f = init_flags options
  else rg_error s' = REG_NO_MEMORY ∧ rg_allocs s ≠ [] ∨ rg_error s' = REG_CHILD_MUST_BE_VOLATILE ∧ child_error options pob = true.

Lemma key_init_ok k kob name p pob class options modif s : keys s !! k = Some kob → k_name kob = Some (name, Some p) → keys s !! p = Some pob → p ≠ k →
  wp (key_init k class options modif) (λ r s', init_outcome k (name, Some p) class options modif pob r s s') s.
Proof.
  intros Hk Hkn Hp Hpk. unfold key_init. apply wp_bind, (wp_get_parent k kob name (Some p)); [done..|]. apply wp_bind, (wp_get_key _ kob); [done|].
  apply wp_bind, wp_put_key. rewrite Hkn. set (fr := fresh_key (Some (name, Some p))). change (Key _ _ _ _ _ _ _ _ _ _ _ _) with (fr None 0 modif). apply wp_bind.
  eapply (wp_mono _ (λ b s1, reg_env s s1 ∧ (rg_allocs s = [] → b = true ∧ rg_allocs s1 = []) ∧ rg_error s1 = (if b then rg_error s else REG_NO_MEMORY) ∧
    keys s1 = <[k:=fr (if b then init_class class else None) 0 modif]> (keys s))).
  { destruct class as [|c class]; [by apply wp_ret|]. apply wp_bind, wp_reg_mem_alloc. intros b s1 (Ek1 & He1 & Herr1 & Ha1). destruct b.
    - apply wp_bind, wp_bind, (wp_get_key _ (fr None 0 modif)); [rewrite Ek1; apply lookup_insert_eq|]. apply wp_put_key, wp_ret. split_and!; try apply He1; try done.
      simpl. rewrite Ek1. simpl. by rewrite insert_insert_eq.
    - apply wp_bind, wp_ret, wp_ret. split_and!; try apply He1; done. }
  intros b s1 (He1 & Ha1 & Herr1 & Ek1). destruct b; cbn [negb].
  2:{ apply wp_ret. split; [done|]. split; [intros E; by destruct (Ha1 E)|]. eexists _, _. split; [exact Ek1|]. split; [done|]. left. split; [done|]. intros E. by destruct (Ha1 E). }
  set (f0 := if has options REG_OPTION_CREATE_LINK then KEY_SYMLINK else 0). apply wp_bind, (wp_get_key _ (fr (init_class class) 0 modif)); [rewrite Ek1; apply lookup_insert_eq|].
  apply wp_bind, wp_put_key. set (s2 := set_keys _ s1). assert (keys s2 = <[k:=fr (init_class class) f0 modif]> (keys s)) as Ek2.
  { simpl. rewrite Ek1, insert_insert_eq. f_equal. unfold f0. by destruct (has options REG_OPTION_CREATE_LINK). }
  assert (reg_env s s2) as He2 by (by split_and!; apply He1). assert (rg_error s2 = rg_error s) as Herr2 by done.
  assert (rg_allocs s = [] → rg_allocs s2 = []) as Ha2 by (intros E; by apply Ha1). clearbody s2.
  apply wp_bind, (wp_get_key _ (fr (init_class class) f0 modif)); [rewrite Ek2; apply lookup_insert_eq|].
  assert (Hfin : ∀ g, has (Z.lor f0 g) KEY_DELETED = false → child_error options pob = false → g = (if has options REG_OPTION_VOLATILE then KEY_VOLATILE else KEY_DIRTY) →
    wp (put_key k (k_set_flags (Z.lor f0 g) (fr (init_class class) f0 modif)) ;; ret true) (λ r s', init_outcome k (name, Some p) class options modif pob r s s') s2).
  { intros g Hg Hce ->. apply wp_bind, wp_put_key, wp_ret. split; [done|]. split; [done|]. eexists _, _. simpl. rewrite Ek2, insert_insert_eq.
    split; [done|]. split; [done|]. by split_and!. }
  assert (∀ g, g = KEY_VOLATILE ∨ g = KEY_DIRTY → has (Z.lor f0 g) KEY_DELETED = false) as Hf0 by (intros g [->| ->]; unfold f0; by destruct (has options REG_OPTION_CREATE_LINK)).
  assert (child_error options pob = negb (has options REG_OPTION_VOLATILE) && has (k_flags pob) KEY_VOLATILE) as Ece by done.
  destruct (has options REG_OPTION_VOLATILE) eqn:Ev; [apply Hfin; auto|].
  apply wp_bind, wp_bind, (wp_get_key _ pob); [rewrite Ek2; by rewrite lookup_insert_ne|]. apply wp_ret. destruct (has (k_flags pob) KEY_VOLATILE) eqn:Epv; [|apply Hfin; auto].
  apply wp_bind, wp_modify, wp_ret. split; [done|]. split; [done|]. eexists _, _. split; [exact Ek2|]. split; [unfold f0; by destruct (has options REG_OPTION_CREATE_LINK)|]. by right.
Qed.
(** ** Creating *)

Lemma delete_inserted {A} i (v : A) vs : 0 <= i <= Z.of_nat (length vs) → delete (Z.to_nat i) (inserted i v vs) = vs.
Proof.
  intros Hi. unfold inserted. rewrite delete_take_drop. assert (length (take (Z.to_nat i) vs) = Z.to_nat i) as El by (rewrite length_take; lia).
  rewrite take_app_le, take_take by lia. rewrite drop_app_ge by lia. rewrite El. replace (S (Z.to_nat i) - Z.to_nat i)%nat with 1%nat by lia.
  simpl. rewrite drop_0. replace (Z.to_nat i `min` Z.to_nat i)%nat with (Z.to_nat i) by lia. by rewrite take_drop.
Qed.

Definition create_failed (options : Z) (p : kid) (pob : key) (s s' : reg) : Prop :=
  (rg_error s' = REG_NO_MEMORY ∧ rg_allocs s ≠ [] ∨ rg_error s' = REG_CHILD_MUST_BE_VOLATILE ∧ child_error options pob = true) ∧
  (∀ j, j ≠ p → keys s' !! j = keys s !! j) ∧ ∃ pob', keys s' !! p = Some pob' ∧ resub pob pob' (subs pob).
Definition create_done (k : kid) (p : kid) (pob : key) (name class : list Z) (options modif : Z) (s s' : reg) : Prop :=
  keys s !! k = None ∧ rg_error s' = rg_error s ∧ child_error options pob = false ∧ same_but k p (keys s) (keys s') ∧
  keys s' !! k = Some (fresh_key (Some (name, Some p)) (init_class class) (init_flags options) modif) ∧
  ∃ i pob', placed to_lower (kname (keys s) <$> subs pob) name false i ∧ keys s' !! p = Some pob' ∧ resub pob pob' (inserted i k (subs pob)).
Definition create_outcome (r : option kid) (p : kid) (pob : key) (name class : list Z) (options modif : Z) (s s' : reg) : Prop :=
  reg_ok (keys s') ∧ match r with Some k => create_done k p pob name class options modif s s' | None => create_failed options p pob s s' end.

(** The key that could not be set up is taken out again. *)
Lemma create_undo k kob1 name p pob pob1 i options s s1 s2 class' f modif : reg_ok (keys s1) → keys s !! k = None → p ≠ k → same_but k p (keys s) (keys s1) →
  keys s1 !! k = Some kob1 → k_name kob1 = Some (name, Some p) → leaf kob1 → keys s !! p = Some pob → keys s1 !! p = Some pob1 → placed to_lower (kname (keys s) <$> subs pob) name false i →
  resub pob pob1 (inserted i k (subs pob)) → keys s2 = <[k:=fresh_key (Some (name, Some p)) class' f modif]> (keys s1) → has f KEY_DELETED = false →
  (rg_error s2 = REG_NO_MEMORY ∧ rg_allocs s ≠ [] ∨ rg_error s2 = REG_CHILD_MUST_BE_VOLATILE ∧ child_error options pob = true) →
  wp (unlink_key k ;; modify (set_keys (delete k)) ;; ret (None : option kid)) (λ r s', reg_ok (keys s') ∧ r = None ∧ create_failed options p pob s s') s2.
Proof.
  intros Hok1 Hk Hpk Hsb Hk1 Hkn1 Hl1 Hp Hp1 Hpl Hr1 Ek2 Hf Herr. set (kob2 := fresh_key (Some (name, Some p)) class' f modif) in *.
  assert (reg_ok (keys s2)) as Hok2.
  { rewrite Ek2. apply (update_reg_ok _ _ kob1); try done; try (destruct Hl1 as [(? & ? & ?) ? _]; done); [|simpl; congruence].
    apply (values_ok_intro to_lower kob2 []); try done. by left. }
  assert (keys s2 !! p = Some pob1) as Hp2 by by rewrite Ek2, lookup_insert_ne.
  apply wp_bind. eapply wp_mono; [apply (unlink_key_ok to_lower k kob2 f name p pob1 s2 s2); try done; [by rewrite Ek2, lookup_insert_eq|rewrite Ek2; by rewrite insert_insert_eq]|].
  intros [] s3 (_ & Herr3 & Hok3 & _ & Hsb3 & Hk3 & j & pob3 & Hj & Hp3 & Hr3). apply wp_bind, wp_modify, wp_ret. split; [|split; [done|]].
  { simpl. by eapply delete_reg_ok. }
  pose proof (subs_array_subs _ _ (rs_array _ _ _ Hr1)) as Es1. assert (0 <= i <= Z.of_nat (length (subs pob))) as Hi by (rewrite <-(length_fmap (kname (keys s))); apply Hpl).
  assert (j = Z.to_nat i) as ->.
  { eapply (NoDup_lookup (subs pob1)); [eapply subs_nodup, (no_subkeys _ _ _ _ (ro_nodes _ _ Hok1 p pob1 Hp1))|done|]. rewrite Es1. by apply inserted_at. }
  split_and!; [by rewrite <-Herr3 in Herr| |].
  - intros q Hq. simpl. destruct (decide (q = k)) as [->|Hqk]; [by rewrite lookup_delete_eq|]. rewrite lookup_delete_ne, Hsb3, Ek2, lookup_insert_ne by done. by apply Hsb.
  - exists pob3. simpl. rewrite lookup_delete_ne by done. split; [done|]. rewrite Es1, delete_inserted in Hr3 by done. by eapply resub_trans.
Qed.

Lemma create_key_ok p pob name class options modif s : reg_ok (keys s) → keys s !! p = Some pob → is_Some (k_name pob) → fits name → child to_lower (keys s) p name = None →
  wp (create_key to_lower p name class options modif) (λ r s', create_outcome r p pob name class options modif s s') s.
Proof.
  intros Hok Hp Hpn Hfit Hch. unfold create_key.
  assert (Hnomem : ∀ s1, keys s1 = keys s → rg_error s1 = REG_NO_MEMORY → rg_allocs s ≠ [] → create_outcome None p pob name class options modif s s1).
  { intros s1 Ek Herr Ha. split; [by rewrite Ek|]. split; [by left|]. rewrite Ek. split; [done|]. exists pob. split; [done|]. apply resub_refl, (no_subkeys _ _ _ _ (ro_nodes _ _ Hok p pob Hp)). }
  apply wp_bind, wp_reg_mem_alloc. intros b1 s1 (Ek1 & He1 & Herr1 & Ha1). destruct b1; cbn [negb]; [|apply wp_ret, Hnomem; try done; intros E; by destruct (Ha1 E)].
  apply wp_bind, wp_reg_mem_alloc. intros b2 s2 (Ek2 & He2 & Herr2 & Ha2). destruct b2; cbn [negb].
  2:{ apply wp_ret, Hnomem; [congruence|done|]. intros E. destruct (Ha1 E) as [_ E1]. by destruct (Ha2 E1). }
  assert (rg_allocs s = [] → rg_allocs s2 = []) as Ha02 by (intros E; by apply Ha2, Ha1). assert (keys s2 = keys s) as Ek02 by congruence.
  wp_steps. rewrite Ek02. set (k := fresh (dom (keys s))). assert (keys s !! k = None) as Hk by (apply not_elem_of_dom, is_fresh). clearbody k.
  assert (p ≠ k) as Hpk by congruence. apply wp_put_key. set (kob := Key _ _ _ _ _ _ _ _ _ _ _ _). set (s3 := set_keys _ s2).
  assert (keys s3 = <[k:=kob]> (keys s)) as Ek3 by (simpl; by rewrite Ek02). assert (leaf kob) as Hl by by split.
  assert (reg_ok (keys s3)) as Hok3 by (rewrite Ek3; by apply blank_reg_ok). assert (keys s3 !! p = Some pob) as Hp3 by by rewrite Ek3, lookup_insert_ne.
  assert (rg_error s3 = rg_error s) as Herr3 by (simpl; congruence). assert (rg_allocs s3 = rg_allocs s2) as Ea3 by done. clearbody s3.
  assert (∀ c, kname (keys s3) c = kname (keys s) c) as Ekn.
  { intros c. unfold kname, named. rewrite Ek3. destruct (decide (c = k)) as [->|]; [by rewrite lookup_insert_eq, Hk|by rewrite lookup_insert_ne]. }
  assert (child to_lower (keys s3) p name = None) as Hch3 by (rewrite (child_ext (keys s) (keys s3) p pob pob); auto).
  apply wp_bind. eapply wp_mono; [apply (key_link_name_ok to_lower k kob name p pob s3); try done; by rewrite Ek3, lookup_insert_eq|].
  intros b4 s4 (He4 & Hok4 & Hsb4 & Ha4 & pob4 & Hp4 & H4). assert (same_but k p (keys s) (keys s4)) as Hsb04.
  { intros j Hjk Hjp. rewrite Hsb4, Ek3 by done. by rewrite lookup_insert_ne. }
  destruct b4; cbn [negb].
  2:{ destruct H4 as (Herr4 & Hk4 & Hr4). apply wp_bind, wp_modify, wp_ret. split; [simpl; by eapply delete_reg_ok|]. split; [|split].
      - left. split; [done|]. intros E. rewrite Ea3 in Ha4. by destruct (Ha4 (Ha02 E)).
      - intros j Hj. simpl. destruct (decide (j = k)) as [->|Hjk]; [by rewrite lookup_delete_eq|]. rewrite lookup_delete_ne by done. by apply Hsb04.
      - exists pob4. simpl. by rewrite lookup_delete_ne. }
  destruct H4 as (Herr4 & Hk4 & i & Hpl & Hr4). rewrite (list_fmap_ext _ (kname (keys s)) (subs pob)) in Hpl by done.
  apply wp_bind. eapply wp_mono; [by apply (key_init_ok k (k_set_name (Some (name, Some p)) kob) name p pob4 class options modif s4)|].
  intros b5 s5 (He5 & Ha5 & class' & f & Ek5 & Hf & H5). assert (child_error options pob4 = child_error options pob) as Ece by (unfold child_error; by rewrite (rs_flags _ _ _ Hr4)).
  rewrite Ece in H5. destruct b5.
  - destruct H5 as (Herr5 & Hce & -> & ->). apply wp_ret. split; [|split_and!; [done|congruence|done| | |]].
    + rewrite Ek5. apply (update_reg_ok _ _ (k_set_name (Some (name, Some p)) kob)); try done; [|simpl in *; congruence]. by eapply (values_ok_intro to_lower _ []); try done; left.
    + intros j Hjk Hjp. rewrite Ek5, lookup_insert_ne by done. by apply Hsb04.
    + by rewrite Ek5, lookup_insert_eq.
    + exists i, pob4. by rewrite Ek5, lookup_insert_ne.
  - eapply wp_mono; [apply (create_undo k (k_set_name (Some (name, Some p)) kob) name p pob pob4 i options s s4 s5 class' f modif); try done|].
    + destruct H5 as [[? Hal]|?]; [left; split; [done|]|by right]. intros E. apply Hal. rewrite Ea3 in Ha4. by apply Ha4, Ha02.
    + intros r s6 (Hok6 & -> & Hcf). by split.
Qed.
(** ** The subkeys after a creation *)

Lemma create_child r p pob name class options modif s s' : reg_ok (keys s) → keys s !! p = Some pob → create_outcome r p pob name class options modif s s' →
  ∀ q n, Some q ≠ r → child to_lower (keys s') q n =
    match r with Some k => if bool_decide (q = p) && same_name to_lower name n then Some k else child to_lower (keys s) q n | None => child to_lower (keys s) q n end.
Proof.
  intros Hok Hp [_ H] q n Hq. assert (Hin : ∀ q' qob c, keys s !! q' = Some qob → c ∈ subs qob → is_Some (keys s !! c)).
  { intros q' qob c Hq' Hc. destruct (sub_named to_lower (keys s) q' qob c) as (cob & _ & Hcob & _); [by apply Hok|done|eauto]. }
  destruct r as [k|].
  - destruct H as (Hk & _ & _ & Hsb & Hk' & i & pob' & Hpl & Hp' & Hr). assert (q ≠ k) as Hqk by congruence.
    assert (p ≠ k) as Hpk by congruence. pose proof (same_named k p _ _ pob pob' Hsb Hp Hp' (rs_name _ _ _ Hr)) as Hnb.
    assert (Hkn : ∀ q' qob c, keys s !! q' = Some qob → c ∈ subs qob → kname (keys s') c = kname (keys s) c).
    { intros q' qob c Hq' Hc. apply (kname_but k); [done|]. intros ->. destruct (Hin q' qob k Hq' Hc). congruence. }
    assert (kname (keys s') k = name) as Ekn by (unfold kname, named; by rewrite Hk'). case_bool_decide as E; simpl.
    + subst q. rewrite (child_inserted (keys s) (keys s') p pob pob' i k n); [by rewrite Ekn|done|done|by apply subs_array_subs, Hr|intros c; by apply (Hkn p)|by rewrite Ekn].
    + unfold child. rewrite Hsb by done. destruct (keys s !! q) as [qob|] eqn:Hqq; [|done]. simpl. apply find_sub_ext. intros c. by apply (Hkn q).
  - destruct H as (_ & Hsame & pob' & Hp' & Hr). assert (Hn : ∀ c, named (keys s') c = named (keys s) c).
    { intros c. unfold named. destruct (decide (c = p)) as [->|]; [rewrite Hp, Hp'; apply Hr|by rewrite Hsame]. }
    assert (∀ c, kname (keys s') c = kname (keys s) c) as Hkn by (intros c; unfold kname; by rewrite Hn). destruct (decide (q = p)) as [->|Hqp].
    + apply (child_ext (keys s) (keys s') p pob pob'); [done|done|by apply subs_array_subs, Hr|done].
    + unfold child. rewrite Hsame by done. destruct (keys s !! q); [|done]. simpl. apply find_sub_ext. done.
Qed.
End create.
