(* ===== verification/RegistryRename.v ===== *)
(** * Deleting keys

    [delete_key] removes a key, with the keys below it if told to, and leaves
    every other key its name, values and place.

    ** Renaming keys

    [rename_key] moves a key to the place of its new name in the array of the key
    it is in. *)

From stdpp Require Import base list gmap fin_maps.
From S2P Require Import Prelude RegText Registry RegistryInv RegistryThms RegistryKeys RegistryCreate.

Open Scope Z_scope.
Open Scope server_scope.

(** ** Keys below a key *)

Definition named_in (m : gmap kid key) (c p : kid) : Prop := ∃ name, named m c = Some (name, Some p).
Definition descends (m : gmap kid key) (k j : kid) : Prop := rtc (named_in m) j k.

Lemma descends_rank rank m k j : ranked rank m → descends m k j → (rank k <= rank j)%nat.
Proof.
  intros Hr H. induction H as [|c p k [name Hc] _ IH]; [done|]. destruct (tree_rank _ _ _ _ _ Hr Hc). lia.
Qed.

(** ** Pruned trees *)

(** A key after the keys [gone] were deleted. *)
Record pruned_key (gone : gset kid) (j : kid) (ob ob' : key) : Prop := {
  pk_class : k_class ob' = k_class ob;
  pk_values : k_last_value ob' = k_last_value ob ∧ k_nb_values ob' = k_nb_values ob ∧ k_values ob' = k_values ob;
  pk_name : k_name ob' = if decide (j ∈ gone) then None else k_name ob;
  pk_flags : if decide (j ∈ gone) then has (k_flags ob') KEY_DELETED = true else k_flags ob' = k_flags ob ∨ k_flags ob' = Z.lor (k_flags ob) KEY_DIRTY;
  pk_subs : subs ob' = filter (λ c, c ∉ gone) (subs ob);
}.
Definition pruned (gone : gset kid) (m m' : gmap kid key) : Prop := ∀ j, option_Forall2 (pruned_key gone j) (m !! j) (m' !! j).

Lemma filter_all {A} (P : A → Prop) `{∀ x, Decision (P x)} (l : list A) : (∀ x, x ∈ l → P x) → filter P l = l.
Proof. induction l as [|x l IH]; intros H1; [done|]. rewrite filter_cons_True by (apply H1; by left). f_equal. apply IH. intros y Hy. apply H1. by right. Qed.

Lemma pruned_trans g1 g2 m m1 m2 : pruned g1 m m1 → pruned g2 m1 m2 → pruned (g1 ∪ g2) m m2.
Proof.
  intros H1 H2 j. specialize (H1 j). specialize (H2 j). destruct H1 as [ob ob1 [A1 (A2 & A3 & A4) A5 A6 A7]|]; [|by inversion H2; constructor].
  inversion H2 as [? ob2 [B1 (B2 & B3 & B4) B5 B6 B7]|]; subst. constructor. split; [congruence|split_and!; congruence| | |].
  - rewrite B5, A5. pose proof (elem_of_union g1 g2 j). repeat case_decide; tauto.
  - pose proof (elem_of_union g1 g2 j). repeat case_decide; try tauto.
    + by rewrite (has_deleted _ _ B6).
    + destruct A6 as [->| ->] in B6; destruct B6 as [->| ->]; auto. right. by rewrite <-Z.lor_assoc, Z.lor_diag.
  - rewrite B7, A7, list_filter_filter. apply list_filter_iff. intros c. rewrite elem_of_union. tauto.
Qed.

Lemma pruned_similar m m' : similar_keys m m' → pruned ∅ m m'.
Proof.
  intros H j. specialize (H j). destruct H as [ob ob' [S1 S2 (S3 & S4 & S5) S6 S7 S8]|]; constructor. split; try done; rewrite ?decide_False by apply not_elem_of_empty; try done.
  unfold subs. rewrite S3, S5. symmetry. apply filter_all. intros c _. apply not_elem_of_empty.
Qed.
Lemma pruned_refl m : pruned ∅ m m.
Proof. apply pruned_similar. reflexivity. Qed.

Lemma pruned_l g m m' j ob : pruned g m m' → m !! j = Some ob → ∃ ob', m' !! j = Some ob' ∧ pruned_key g j ob ob'.
Proof. intros H Hj. specialize (H j). rewrite Hj in H. inversion H; subst. eauto. Qed.
Lemma pruned_r g m m' j ob' : pruned g m m' → m' !! j = Some ob' → ∃ ob, m !! j = Some ob ∧ pruned_key g j ob ob'.
Proof. intros H Hj. specialize (H j). rewrite Hj in H. inversion H; subst. eauto. Qed.
Lemma pruned_size g m m' : pruned g m m' → size m' = size m.
Proof.
  intros H. rewrite <-!size_dom. f_equal. apply set_eq. intros j. rewrite !elem_of_dom. specialize (H j). split; intros [x Hx]; rewrite Hx in H; inversion H; eauto.
Qed.

Lemma pruned_named g m m' c : pruned g m m' → named m' c = if decide (c ∈ g) then None else named m c.
Proof. intros H. specialize (H c). unfold named. destruct H as [ob ob' Hp|]; [|by case_decide]. simpl. apply Hp. Qed.
Lemma pruned_descends g m m' k j : pruned g m m' → descends m' k j → descends m k j.
Proof.
  intros H Hd. induction Hd as [|c p k [name Hc] _ IH]; [constructor|]. econstructor; [|exact IH]. exists name. rewrite (pruned_named g m m') in Hc by done. by case_decide.
Qed.

Section delete.
Context (to_lower : Z → Z).
Notation reg_ok := (reg_ok to_lower).

(** Unlinking a key that is marked as deleted. *)
Lemma unlink_pruned k kob f name p pob s s' : reg_ok (keys s) → keys s !! k = Some kob → k_name kob = Some (name, Some p) → subs kob = [] → keys s !! p = Some pob →
  has f KEY_DELETED = true → unlink_outcome to_lower k (k_set_flags f kob) p pob s s' → pruned {[k]} (keys s) (keys s').
Proof.
  intros Hok Hk Hkn Hks Hp Hf (_ & _ & Hsb & Hk' & i & pob' & Hi & Hp' & Hr) j. assert (named (keys s) k = Some (name, Some p)) as Hnk by by rewrite (named_key _ _ _ Hk).
  destruct (parent_named _ _ _ _ (ro_tree _ _ Hok) Hnk) as [Hpk _]. pose proof (no_subkeys _ _ _ _ (ro_nodes _ _ Hok p pob Hp)) as Hps.
  destruct (decide (j = k)) as [->|Hjk].
  { rewrite Hk, Hk'. constructor. split; rewrite ?decide_True by (by apply elem_of_singleton); try done. change (subs (k_set_name None (k_set_flags f kob))) with (subs kob). by rewrite Hks. }
  assert (j ∉ ({[k]} : gset kid)) as Hjg by (by rewrite elem_of_singleton). destruct (decide (j = p)) as [->|Hjp].
  - rewrite Hp, Hp'. constructor. pose proof Hr as [R1 R2 R3 R4 R5 R6 R7]. split; rewrite ?decide_False by done; try done; [by left|].
    rewrite (subs_array_subs _ _ R1). pose proof (subs_nodup _ _ _ _ Hps) as Hnd. rewrite <-(take_drop_middle _ _ _ Hi) in Hnd |- * at 2.
    rewrite delete_take_drop, filter_app. apply NoDup_app in Hnd as (_ & Hd1 & [Hd2 _]%NoDup_cons). rewrite filter_cons_False by set_solver.
    rewrite !filter_all; [done|..]; intros c Hc; rewrite elem_of_singleton; intros ->; [done|]. apply (Hd1 k Hc). by left.
  - rewrite Hsb by done. destruct (keys s !! j) as [ob|] eqn:Hj; constructor. split; rewrite ?decide_False by done; try done; [by left|].
    symmetry. apply filter_all. intros c Hc Hck%elem_of_singleton. subst c. apply (so_subs _ _ _ _ (no_subkeys _ _ _ _ (ro_nodes _ _ Hok j ob Hj))) in Hc as [? E]. congruence.
Qed.

(** ** The outcome *)

(** A predefined key cannot be deleted. *)
Definition predefined_below (m : gmap kid key) (k : kid) : Prop := ∃ j ob, descends m k j ∧ m !! j = Some ob ∧ has (k_flags ob) KEY_PREDEF = true.

Lemma predefined_pruned g m m' k : pruned g m m' → (∀ j, descends m' k j → j ∉ g) → predefined_below m' k → predefined_below m k.
Proof.
  intros Hp Hg (j & ob' & Hd & Hj & Hf). destruct (pruned_r _ _ _ _ _ Hp Hj) as (ob & Hob & [_ _ _ H _]). exists j, ob. split_and!; [by eapply pruned_descends|done|].
  rewrite decide_False in H by auto. destruct H as [E|E]; rewrite E in Hf; [done|]. unfold has in *. rewrite Z.land_lor_distr_l in Hf.
  change (Z.land KEY_DIRTY KEY_PREDEF) with 0 in Hf. by rewrite Z.lor_0_r in Hf.
Qed.

(** What deleting leaves: [gone] was deleted, all of it below [k]. *)
Record deletion (rank : kid → nat) (gone : gset kid) (k : kid) (s s' : reg) : Prop := {
  de_ok : reg_ok (keys s');
  de_rank : ranked rank (keys s');
  de_pruned : pruned gone (keys s) (keys s');
  de_below : ∀ j, j ∈ gone → descends (keys s) k j;
}.

Definition deleted (rank : kid → nat) (k : kid) (r : bool) (s s' : reg) : Prop := ∃ gone, deletion rank gone k s s' ∧
  if r then rg_error s' = rg_error s ∧ k ∈ gone else k ∉ gone ∧ rg_error s' = REG_INVALID_HANDLE ∧ predefined_below (keys s) k.

(** A named key descends from nothing that was deleted. *)
Lemma pruned_live g rank m m' k j : pruned g m m' → ranked rank m' → is_Some (named m' k) → descends m' k j → j ∉ g.
Proof.
  intros Hp Hr Hk Hd Hj. assert (is_Some (named m' j)) as [? Hn].
  { destruct Hd as [|c p k [name Hc] _]; [done|]. rewrite Hc. eauto. }
  rewrite (pruned_named g m m') in Hn by done. by rewrite decide_True in Hn.
Qed.

(** All the keys below a deleted key are deleted. *)
Lemma gone_below rank gone k s s' j : deletion rank gone k s s' → k ∈ gone → descends (keys s) k j → j ∈ gone.
Proof.
  intros [_ Hr Hp _] Hk Hd. induction Hd as [|c p k [name Hc] _ IH]; [done|]. specialize (IH Hk). destruct (decide (c ∈ gone)) as [|Hcg]; [done|].
  assert (named (keys s') c = Some (name, Some p)) as Hc' by (rewrite (pruned_named gone (keys s)), decide_False; done).
  destruct (tree_rank _ _ _ _ _ Hr Hc') as [_ [? Hn]]. rewrite (pruned_named gone (keys s)) in Hn by done. by rewrite decide_True in Hn.
Qed.

(** The keys below a subkey are below the key, which is not among them. *)
Lemma descends_sub rank m c k j : ranked rank m → named_in m c k → descends m c j → descends m k j ∧ j ≠ k.
Proof.
  intros Hr Hc Hd. split; [by eapply rtc_r|]. intros ->. apply (descends_rank rank) in Hd; [|done]. destruct Hc as [name Hc]. destruct (tree_rank _ _ _ _ _ Hr Hc). lia.
Qed.

Lemma deletion_trans rank g1 g2 k s s1 s2 : deletion rank g1 k s s1 → deletion rank g2 k s1 s2 → deletion rank (g1 ∪ g2) k s s2.
Proof.
  intros [_ _ P1 B1] [O2 R2 P2 B2]. split; [done|done|by eapply pruned_trans|]. intros j [Hj|Hj]%elem_of_union; [auto|]. by eapply pruned_descends, B2.
Qed.

Definition subkeys_deleted (rank : kid → nat) (k : kid) (r : bool) (s s' : reg) : Prop := ∃ gone, deletion rank gone k s s' ∧ k ∉ gone ∧
  if r then rg_error s' = rg_error s ∧ ∃ ob', keys s' !! k = Some ob' ∧ subs ob' = [] else rg_error s' = REG_INVALID_HANDLE ∧ predefined_below (keys s) k.

Lemma no_subs_last m k ob : reg_ok m → m !! k = Some ob → (k_last_subkey ob <? 0) = bool_decide (subs ob = []).
Proof.
  intros Hok Hk. pose proof (ao_last _ _ _ _ _ (so_array _ _ _ _ (no_subkeys _ _ _ _ (ro_nodes _ _ Hok k ob Hk)))) as ->.
  destruct (subs ob) as [|c cs]; [done|]. rewrite bool_decide_eq_false_2 by done. apply Z.ltb_ge. simpl. lia.
Qed.

(** The loop over the subkeys of [k]. *)
Lemma delete_subkeys_ok rank N k (delete : kid → R bool) :
  (∀ c s1, reg_ok (keys s1) → ranked rank (keys s1) → size (keys s1) = N → named_in (keys s1) c k → wp (delete c) (λ r s', deleted rank c r s1 s') s1) →
  ∀ n s ob, reg_ok (keys s) → ranked rank (keys s) → size (keys s) = N → keys s !! k = Some ob → is_Some (k_name ob) → (length (subs ob) <= n)%nat →
  wp (delete_subkeys delete n k) (λ r s', subkeys_deleted rank k r s s') s.
Proof.
  intros Hdel. induction n as [|n IH]; intros s ob Hok Hr HN Hk Hn Hlen; cbn [delete_subkeys]; apply wp_bind, (wp_get_key _ ob); try done;
    rewrite (no_subs_last (keys s) k ob) by done; case_bool_decide as Es.
  1,3: apply wp_ret; exists ∅; split; [split; [done|done|apply pruned_refl|set_solver]|]; split; [set_solver|]; split; [done|]; by exists ob.
  { destruct (subs ob); [done|simpl in Hlen; lia]. }
  pose proof (no_subkeys _ _ _ _ (ro_nodes _ _ Hok k ob Hk)) as Hsub. pose proof (so_array _ _ _ _ Hsub) as Har. pose proof (ao_last _ _ _ _ _ Har) as Hl.
  assert (length (subs ob) ≠ 0)%nat by (by destruct (subs ob)). destruct (lookup_lt_is_Some_2 (subs ob) (Z.to_nat (k_last_subkey ob))) as [c Hc]; [lia|].
  assert (c ∈ subs ob) as Hin by by eapply list_elem_of_lookup_2. assert (named_in (keys s) c k) as Hck by by apply (so_subs _ _ _ _ Hsub).
  apply wp_bind, (wp_read_cell _ _ c); [lia|by eapply array_lookup|]. apply wp_bind. eapply wp_mono; [by apply Hdel|]. intros r s1 (g1 & [D1 D2 D3 D4] & Hres).
  assert (deletion rank g1 k s s1) as HD1 by (split; try done; intros j Hj; by eapply descends_sub, D4).
  assert (k ∉ g1) as Hkg. { intros Hk1%D4. by apply (descends_sub rank _ c k k) in Hk1 as [_ ?]. }
  destruct r.
  2:{ apply wp_ret. destruct Hres as (_ & Herr & j & job & Hd & Hj & Hf). exists g1. split_and!; try done. exists j, job. split; [|done]. by eapply descends_sub. }
  destruct Hres as [Herr Hcg]. destruct (pruned_l _ _ _ _ _ D3 Hk) as (ob1 & Hk1 & [_ _ Hn1 _ Hs1]). rewrite decide_False in Hn1 by done.
  eapply wp_mono; [apply (IH s1 ob1); try done; [by rewrite (pruned_size _ _ _ D3)|by rewrite Hn1|]|].
  { rewrite Hs1. assert (length (filter (λ c, c ∉ g1) (subs ob)) < length (subs ob))%nat; [|lia].
    apply (length_filter_lt _ _ c); [done|]. intros H'. by apply H'. }
  intros r s2 (g2 & HD2 & Hkg2 & Hres). exists (g1 ∪ g2). split; [by eapply deletion_trans|]. split; [set_solver|]. destruct r; [by rewrite <-Herr|].
  destruct Hres as [? Hpre]. split; [done|]. eapply predefined_pruned; [exact D3| |done]. intros j. eapply pruned_live; [done..|]. rewrite (named_key _ _ _ Hk1), Hn1. done.
Qed.
(** The end of [delete_key], on a key without subkeys. *)
Lemma delete_one_ok rank k ob name p s : reg_ok (keys s) → ranked rank (keys s) → keys s !! k = Some ob → k_name ob = Some (name, Some p) → subs ob = [] →
  wp (ob <- get_key k; put_key k (k_set_flags (Z.lor (k_flags ob) KEY_DELETED) ob) ;; unlink_key k ;; touch_key p REG_NOTIFY_CHANGE_NAME ;; ret true)
    (λ r s', r = true ∧ deletion rank {[k]} k s s' ∧ rg_error s' = rg_error s) s.
Proof.
  intros Hok Hr Hk Hkn Hs. assert (named (keys s) k = Some (name, Some p)) as Hnk by by rewrite (named_key _ _ _ Hk).
  destruct (parent_named _ _ _ _ (ro_tree _ _ Hok) Hnk) as [Hpk (pob & pn & Hp & Hpn)%named_inv_ex]. apply wp_bind, (wp_get_key _ ob); [done|].
  apply wp_bind, wp_put_key. set (f := Z.lor (k_flags ob) KEY_DELETED). apply wp_bind.
  eapply wp_mono; [by apply (unlink_key_ok to_lower k ob f name p pob s)|]. intros [] s1 (_ & Herr1 & Hout).
  assert (has f KEY_DELETED = true) as Hf. { unfold f, has. rewrite Z.land_lor_distr_l. change (Z.land KEY_DELETED KEY_DELETED) with 2. apply negb_true_iff, Z.eqb_neq.
    intros E. apply (f_equal (λ z, Z.testbit z 1)) in E. rewrite Z.lor_spec, Z.bits_0 in E. change (Z.testbit 2 1) with true in E. by rewrite orb_true_r in E. }
  pose proof (unlink_pruned k ob f name p pob s s1 Hok Hk Hkn Hs Hp Hf Hout) as Hpr. destruct Hout as (Hok1 & Hr1 & _ & _ & i & pob1 & _ & Hp1 & Hrs).
  apply wp_bind. eapply wp_mono; [apply (touch_key_ok p pob1 pn); [apply Hok1|done|by rewrite (rs_name _ _ _ Hrs)]|].
  intros [] s2 ([Hsim (_ & Herr2 & _)] & _). apply wp_ret. split; [done|]. split; [|by rewrite Herr2, Herr1]. split.
  - by eapply similar_reg_ok.
  - eapply similar_ranked; [done|auto].
  - rewrite <-(right_id_L ∅ (∪) {[k]}). eapply pruned_trans; [done|by apply pruned_similar].
  - intros j ->%elem_of_singleton. constructor.
Qed.

Lemma delete_key_rec rank N n : ∀ k s ob name p, reg_ok (keys s) → ranked rank (keys s) → size (keys s) = N → keys s !! k = Some ob →
  k_name ob = Some (name, Some p) → (N - rank k <= n)%nat → wp (delete_key n k true) (λ r s', deleted rank k r s s') s.
Proof.
  induction n as [|n IH]; intros k s ob name p Hok Hr HN Hk Hkn Hf; assert (rank k < size (keys s))%nat as Hsz by (apply Hr; eauto); [lia|].
  cbn [delete_key]. apply wp_bind, (wp_get_key _ ob); [done|]. destruct (has (k_flags ob) KEY_DELETED) eqn:Ed.
  { apply (no_deleted _ _ _ _ (ro_nodes _ _ Hok k ob Hk)) in Ed. congruence. }
  apply wp_bind, (wp_get_parent k ob name (Some p)); [done..|]. destruct (has (k_flags ob) KEY_PREDEF) eqn:Epd.
  { apply wp_bind, wp_modify, wp_ret. exists ∅. split; [split; [done|done|apply pruned_refl|set_solver]|]. split; [set_solver|]. split; [done|].
    exists k, ob. split; [constructor|done]. }
  pose proof (no_subkeys _ _ _ _ (ro_nodes _ _ Hok k ob Hk)) as Hsub. pose proof (ao_last _ _ _ _ _ (so_array _ _ _ _ Hsub)) as Hl.
  apply wp_bind. eapply wp_mono; [apply (delete_subkeys_ok rank N k _) with (ob := ob); try done; [|lia]|].
  { intros c s1 Hok1 Hr1 HN1 [cn Hc]. pose proof Hc as (cob & Hcob & Hcn)%named_inv. eapply IH; try done. destruct (tree_rank _ _ _ _ _ Hr1 Hc). lia. }
  intros r s1 (g1 & HD1 & Hkg & Hres). destruct r; cbn [negb]; [|apply wp_ret; exists g1; split; [done|]; split; [done|exact Hres]].
  destruct Hres as (Herr1 & ob1 & Hk1 & Hs1). destruct (pruned_l _ _ _ _ _ (de_pruned _ _ _ _ _ HD1) Hk) as (ob1' & Hk1' & [_ _ Hn1 _ _]). simplify_eq.
  rewrite decide_False in Hn1 by done. eapply wp_mono; [apply (delete_one_ok rank k ob1 name p s1); try done; [apply HD1|apply HD1|congruence]|].
  intros r s2 (-> & HD2 & Herr2). exists (g1 ∪ {[k]}). split; [by eapply deletion_trans|]. split; [congruence|set_solver].
Qed.

(** Why [delete_key] refuses. *)
Definition delete_refused (k : kid) (ob : key) (recurse : bool) (e : Z) (m : gmap kid key) : Prop :=
  e = REG_ACCESS_DENIED ∧ ((∃ name, k_name ob = Some (name, None)) ∨ recurse = false ∧ subs ob ≠ []) ∨
  e = REG_INVALID_HANDLE ∧ predefined_below m k.

(** Deleting a named key of a valid registry. *)
Lemma delete_key_ok k ob recurse s : reg_ok (keys s) → keys s !! k = Some ob → is_Some (k_name ob) →
  wp (delete_key (size (keys s)) k recurse) (λ r s', reg_ok (keys s') ∧ ∃ gone, pruned gone (keys s) (keys s') ∧ (∀ j, j ∈ gone → descends (keys s) k j) ∧
    if r then rg_error s' = rg_error s ∧ (∀ j, descends (keys s) k j → j ∈ gone) else k ∉ gone ∧ delete_refused k ob recurse (rg_error s') (keys s)) s.
Proof.
  intros Hok Hk [[name parent] Hkn]. destruct (ro_tree _ _ Hok) as [rank Hr]. assert (rank k < size (keys s))%nat as Hsz by (apply Hr; eauto).
  assert (Hno : ∀ e, delete_refused k ob recurse e (keys s) → reg_ok (keys (set_rg_error e s)) ∧ ∃ gone, pruned gone (keys s) (keys (set_rg_error e s)) ∧
    (∀ j, j ∈ gone → descends (keys s) k j) ∧ k ∉ gone ∧ delete_refused k ob recurse (rg_error (set_rg_error e s)) (keys s)).
  { intros e He. split; [done|]. exists (∅ : gset kid). split; [apply pruned_refl|]. split; [set_solver|]. split; [set_solver|done]. }
  assert (has (k_flags ob) KEY_DELETED = false) as Ed.
  { destruct (has (k_flags ob) KEY_DELETED) eqn:E; [|done]. apply (no_deleted _ _ _ _ (ro_nodes _ _ Hok k ob Hk)) in E. congruence. }
  destruct parent as [p|].
  2:{ destruct (size (keys s)); [lia|]. cbn [delete_key]. apply wp_bind, (wp_get_key _ ob); [done|]. rewrite Ed. apply wp_bind, (wp_get_parent k ob name None); [done..|].
      apply wp_bind, wp_modify, wp_ret, Hno. left. eauto. }
  destruct recurse.
  - eapply wp_mono; [by apply (delete_key_rec rank (size (keys s)) (size (keys s)) k s ob name p); try done; lia|].
    intros r s' (gone & HD & Hres). split; [apply HD|]. exists gone. split; [apply HD|]. split; [apply HD|]. destruct r.
    + destruct Hres. split; [done|]. intros j. by eapply gone_below.
    + destruct Hres as (? & ? & ?). split; [done|]. by right.
  - destruct (size (keys s)); [lia|]. cbn [delete_key]. apply wp_bind, (wp_get_key _ ob); [done|]. rewrite Ed. apply wp_bind, (wp_get_parent k ob name (Some p)); [done..|].
    destruct (has (k_flags ob) KEY_PREDEF) eqn:Epd.
    { apply wp_bind, wp_modify, wp_ret, Hno. right. split; [done|]. exists k, ob. split; [constructor|done]. }
    pose proof (no_subs_last (keys s) k ob Hok Hk) as Hns. rewrite Z.leb_antisym, Hns. case_bool_decide as Es; cbn [negb].
    + apply wp_bind, wp_ret. cbn [negb]. eapply wp_mono; [by apply (delete_one_ok rank k ob name p s)|]. intros r s' (-> & HD & Herr). split; [apply HD|].
      exists {[k]}. split; [apply HD|]. split; [apply HD|]. split; [done|]. intros j. eapply gone_below; [done|]. by apply elem_of_singleton.
    + apply wp_bind, wp_bind, wp_modify, wp_ret. cbn [negb]. apply wp_ret, Hno. left. eauto.
Qed.
End delete.

(** * Renaming keys *)

(** ** Moving an entry *)

(** Where the entry at [cur] goes when the place found for it is [i]. *)
Definition moved_index (cur i : Z) : Z := if cur <? i then i - 1 else i.

Lemma lookup_inserted {A} i (v : A) l (j : nat) : 0 <= i <= Z.of_nat (length l) →
  inserted i v l !! j = if decide (j < Z.to_nat i)%nat then l !! j else if decide (j = Z.to_nat i) then Some v else l !! (j - 1)%nat.
Proof.
  intros Hi. unfold inserted. assert (length (take (Z.to_nat i) l) = Z.to_nat i) as El by (rewrite length_take; lia). repeat case_decide.
  - rewrite lookup_app_l by lia. by apply lookup_take_lt.
  - subst. rewrite lookup_app_r by lia. by rewrite El, Nat.sub_diag.
  - rewrite lookup_app_r by lia. rewrite El. destruct (j - Z.to_nat i)%nat as [|n] eqn:E; [lia|]. simpl. rewrite lookup_drop. f_equal. lia.
Qed.

Lemma lookup_deleted {A} (l : list A) (cur j : nat) : delete cur l !! j = if decide (j < cur)%nat then l !! j else l !! S j.
Proof. case_decide; [by apply list_lookup_delete_lt|apply list_lookup_delete_ge; lia]. Qed.

Lemma array_move {A} last nb min (l : list (option A)) vs v cur i {B} (f : list (option A) → R B) (Q : B → reg → Prop) s :
  array_ok last nb min l vs → vs !! Z.to_nat cur = Some v → 0 <= cur → 0 <= i <= Z.of_nat (length vs) →
  (∀ a, array_ok last nb min a (inserted (moved_index cur i) v (delete (Z.to_nat cur) vs)) → wp (f a) Q s) →
  wp (r <- (if cur <? i then a <- shift_down (Z.to_nat (i - 1 - cur)) l cur; ret (i - 1, a) else a <- shift_up (Z.to_nat (cur - i)) l cur; ret (i, a));
      let '(index, a) := r in a <- arr_set a index (Some v); f a) Q s.
Proof.
  intros H Hv Hc Hi HQ. pose proof (array_length _ _ _ _ _ H) as Hl. pose proof (array_lookup _ _ _ _ _ (Z.to_nat cur) v H Hv) as Hlv. pose proof (lookup_lt_Some _ _ _ Hv) as Hlt.
  assert (length (delete (Z.to_nat cur) vs) = length vs - 1)%nat as Hd by (apply length_delete, lookup_lt_is_Some_2; lia).
  assert (Hmi : 0 <= moved_index cur i <= Z.of_nat (length vs) - 1) by (unfold moved_index; destruct (Z.ltb_spec cur i); lia).
  assert (length (inserted (moved_index cur i) v (delete (Z.to_nat cur) vs)) = length vs) as Hli by (rewrite inserted_length, Hd; lia).
  destruct H as [A1 A2 A3 A4]. assert (Hvs : ∀ j, (j < length vs)%nat → l !! j = Some <$> vs !! j).
  { intros j Hj. rewrite <-(lookup_take_lt l (length vs)), A3 by done. by rewrite list_lookup_fmap. }
  assert (Hfin : ∀ a, length a = length l → (∀ j, (j < length vs)%nat → j ≠ Z.to_nat (moved_index cur i) →
      a !! j = l !! (if decide (j < Z.to_nat (moved_index cur i))%nat then if decide (j < Z.to_nat cur)%nat then j else S j else if decide (j - 1 < Z.to_nat cur)%nat then j - 1 else j)%nat) →
    wp (a <- arr_set a (moved_index cur i) (Some v); f a) Q s).
  { intros a Hla Ha. apply wp_bind, wp_arr_set; [lia|]. apply HQ. split; [by rewrite length_insert, Hla|by rewrite Hli| |done]. rewrite Hli. apply list_eq. intros j.
    destruct (decide (j < length vs)%nat) as [Hj|Hj]; [|rewrite lookup_take_ge by lia; symmetry; apply lookup_ge_None; rewrite length_fmap; lia].
    rewrite lookup_take_lt, list_lookup_fmap, lookup_inserted, !lookup_deleted by lia. destruct (decide (j = Z.to_nat (moved_index cur i))) as [->|Hne].
    { rewrite list_lookup_insert_eq, decide_False by lia. done. }
    rewrite list_lookup_insert_ne, Ha by done. case_decide; case_decide; rewrite Hvs by lia; try done. do 2 f_equal. lia. }
  unfold moved_index in Hfin. destruct (Z.ltb_spec cur i).
  - apply wp_bind, wp_bind, shift_down_ok; [lia|lia|]. intros a Hla Ha. apply wp_ret, Hfin; [done|]. intros j Hj Hne. rewrite Ha. repeat case_decide; f_equal; lia.
  - apply wp_bind, wp_bind, shift_up_ok; [lia|]. intros a Hla Ha. apply wp_ret, Hfin; [done|]. intros j Hj Hne. rewrite Ha. repeat case_decide; f_equal; lia.
Qed.

Section rename.
Context (to_lower : Z → Z).
Notation fold name := (to_lower <$> name).
Notation reg_ok := (reg_ok to_lower).

(** The place of a name is that in the array without the entry that moves. *)
Lemma placed_delete l name i cur : placed to_lower l name false i → (cur < length l)%nat →
  placed to_lower (delete cur l) name false (moved_index (Z.of_nat cur) i).
Proof.
  intros ((H1 & H2) & Hlo & Hhi & Hf) Hc. assert (length (delete cur l) = length l - 1)%nat as Hd by (apply length_delete, lookup_lt_is_Some_2; lia).
  assert (Hge : ∀ j a, l !! j = Some a → i <= Z.of_nat j → lex (fold name) (fold a)).
  { intros j a Hj Hi. destruct (decide (Z.of_nat j = i)) as [E|]; [apply Hf; by replace (Z.to_nat i) with j by lia|apply (Hhi j); [done|lia]]. }
  unfold moved_index. destruct (Z.ltb_spec (Z.of_nat cur) i); (split; [lia|]; split_and!).
  all: intros; rewrite ?lookup_deleted in *; repeat case_decide; try (eapply Hlo; [done|lia]); try (eapply Hge; [done|lia]); lia.
Qed.

(** The tree after [k], in [p], got the name [new]. *)
Lemma renamed_ok m m' k kob old new p pob pob' cur i : reg_ok m → m !! k = Some kob → k_name kob = Some (old, Some p) → m !! p = Some pob →
  subs pob !! cur = Some k → fits new → placed to_lower (kname m <$> subs pob) new false i → same_but k p m m' →
  m' !! k = Some (k_set_name (Some (new, Some p)) kob) → m' !! p = Some pob' → k_wow6432node pob' = k_wow6432node pob →
  resub pob pob' (inserted (moved_index (Z.of_nat cur) i) k (delete cur (subs pob))) → reg_ok m'.
Proof.
  intros [Ht Hn] Hk Hkn Hp Hcur Hfit Hpl Hs Hk' Hp' Hw Hr. assert (named m k = Some (old, Some p)) as Hnk by by rewrite (named_key _ _ _ Hk).
  assert (named m' k = Some (new, Some p)) as Hnk' by by rewrite (named_key _ _ _ Hk'). destruct (parent_named _ _ _ _ Ht Hnk) as [Hpk Hpn].
  pose proof (same_named _ _ _ _ _ _ Hs Hp Hp' (rs_name _ _ _ Hr)) as Hnb. pose proof (no_subkeys _ _ _ _ (Hn p pob Hp)) as Hsub. pose proof (subs_nodup _ _ _ _ Hsub) as Hnd.
  assert (Hin : ∀ c, c ∈ inserted (moved_index (Z.of_nat cur) i) k (delete cur (subs pob)) ↔ c ∈ subs pob).
  { intros c. rewrite inserted_elem, (delete_elem _ _ k) by done. destruct (decide (c = k)) as [->|]; [|naive_solver]. split; [intros _; by eapply list_elem_of_lookup_2|by left]. }
  split.
  - destruct Ht as [rank Hrk]. apply (descending_tree rank). intros c name q Hc. destruct (decide (c = k)) as [->|Hck].
    + simplify_eq. destruct (tree_rank _ _ _ _ _ Hrk Hnk). split; [done|]. by rewrite Hnb.
    + rewrite Hnb in Hc by done. destruct (tree_rank _ _ _ _ _ Hrk Hc). split; [done|]. destruct (decide (q = k)) as [->|]; [by rewrite Hnk'|by rewrite Hnb].
  - intros j ob Hj. destruct (decide (j = k)) as [->|Hjk].
    { simplify_eq. destruct (Hn k kob Hk) as [A B C D]. split; [by destruct A; split| |by rewrite (named_kname _ _ _ _ Hnk')|intros E; apply D in E; congruence].
      apply (subkeys_ok_named to_lower m' m' k kob); try done. apply (subkeys_ok_but to_lower k m); try done; [|intros nm; rewrite Hnk'; congruence].
      intros Hin'. apply (so_subs _ _ _ _ B) in Hin' as [? E]. congruence. }
    destruct (decide (j = p)) as [->|Hjp].
    { simplify_eq. eapply (node_resub to_lower k); try done; [by apply Hn| | |].
      - intros c. rewrite Hin. destruct (decide (c = k)) as [->|Hck]; [split; [eauto|intros _; by eapply list_elem_of_lookup_2]|]. rewrite Hnb by done. apply Hsub.
      - assert (kname m' <$> delete cur (subs pob) = kname m <$> delete cur (subs pob)) as Ek by (apply (knames_but k); [done|rewrite (delete_elem _ _ k) by done; naive_solver]).
        apply inserted_sorted; rewrite Ek; [apply sorted_delete, Hsub|]. rewrite (named_kname _ _ _ _ Hnk').
        rewrite list_fmap_delete. apply placed_delete; [done|]. rewrite length_fmap. by eapply lookup_lt_Some.
      - intros w. rewrite Hw, Hin. apply Hsub. }
    rewrite Hs in Hj by done. apply (other_node to_lower k m); try done; [rewrite Hnk; congruence|rewrite Hnk'; congruence|by apply Hn].
Qed.
Lemma similar_kname m m' c : similar_keys m m' → kname m' c = kname m c.
Proof. intros H. unfold kname. by rewrite (similar_named m m'). Qed.
Lemma similar_child m m' q n : similar_keys m m' → child to_lower m' q n = child to_lower m q n.
Proof.
  intros H. destruct (m !! q) as [ob|] eqn:Hq.
  - destruct (similar_l _ _ _ _ H Hq) as (ob' & Hq' & [_ _ (E1 & _ & E2) _ _ _]). apply (child_ext to_lower m m' q ob ob'); [done|done|unfold subs; by rewrite E1, E2|].
    intros c _. by apply similar_kname.
  - unfold child. specialize (H q). rewrite Hq in *. by inversion H.
Qed.

(** Why [rename_key] refuses, memory apart. *)
Definition rename_error (m : gmap kid key) (k : kid) (parent : option kid) (new : list Z) : option Z :=
  let len := get_path_element new in
  if (len =? 0)%nat || negb (len =? length new)%nat || (MAX_NAME_LEN <? Z.of_nat len) then Some REG_INVALID_PARAMETER
  else
    match parent with
    | None => Some REG_CANNOT_DELETE
    | Some p =>
        match child to_lower m p new with
        | Some _ => Some REG_CANNOT_DELETE
        | None => if bool_decide (m !! p ≫= k_wow6432node = Some k) || is_wow6432node to_lower new then Some REG_INVALID_PARAMETER else None
        end
    end.

(** The key [k] of [p] has the name [new] instead of [old]; nothing else changed. *)
Record renamed (k p : kid) (old new : list Z) (m m' : gmap kid key) : Prop := {
  rn_named : ∀ c, named m' c = if decide (c = k) then Some (new, Some p) else named m c;
  rn_child : ∀ q n, child to_lower m' q n =
    if decide (q = p) then if same_name to_lower new n then Some k else if same_name to_lower old n then None else child to_lower m p n else child to_lower m q n;
  rn_values : ∀ j, option_Forall2 (λ ob ob', k_values ob' = k_values ob ∧ k_last_value ob' = k_last_value ob ∧ k_class ob' = k_class ob ∧
    (k_flags ob' = k_flags ob ∨ k_flags ob' = Z.lor (k_flags ob) KEY_DIRTY)) (m !! j) (m' !! j);
}.

Lemma renamed_intro m m1 m' k kob old new p pob pob' cur i : reg_ok m → m !! k = Some kob → k_name kob = Some (old, Some p) → m !! p = Some pob →
  subs pob !! cur = Some k → placed to_lower (kname m <$> subs pob) new false i → same_but k p m m1 →
  m1 !! k = Some (k_set_name (Some (new, Some p)) kob) → m1 !! p = Some pob' →
  resub pob pob' (inserted (moved_index (Z.of_nat cur) i) k (delete cur (subs pob))) → similar_keys m1 m' → renamed k p old new m m'.
Proof.
  intros Hok Hk Hkn Hp Hcur Hpl Hs Hk1 Hp1 Hr Hsim. assert (named m k = Some (old, Some p)) as Hnk by by rewrite (named_key _ _ _ Hk).
  assert (named m1 k = Some (new, Some p)) as Hnk1 by by rewrite (named_key _ _ _ Hk1). destruct (parent_named _ _ _ _ (ro_tree _ _ Hok) Hnk) as [Hpk _].
  pose proof (same_named _ _ _ _ _ _ Hs Hp Hp1 (rs_name _ _ _ Hr)) as Hnb. pose proof (no_subkeys _ _ _ _ (ro_nodes _ _ Hok p pob Hp)) as Hsub. pose proof (subs_nodup _ _ _ _ Hsub) as Hnd.
  assert (k ∉ delete cur (subs pob)) as Hkd by (rewrite (delete_elem _ _ k) by done; naive_solver). split.
  - intros c. rewrite (similar_named m1 m') by done. case_decide as E; [by subst|by apply Hnb].
  - intros q n. rewrite (similar_child m1 m') by done. case_decide as E.
    + subst q. unfold child. rewrite Hp, Hp1. simpl. rewrite (subs_array_subs _ _ (rs_array _ _ _ Hr)).
      assert (kname m1 <$> delete cur (subs pob) = kname m <$> delete cur (subs pob)) as Ek by by apply (knames_but k).
      rewrite find_sub_inserted; rewrite (named_kname _ _ _ _ Hnk1).
      * rewrite (find_sub_ext _ m) by (intros c Hc; apply (kname_but k); [done|by intros ->]). rewrite (find_sub_delete _ _ _ k), (named_kname _ _ _ _ Hnk); [done|apply Hsub|done].
      * rewrite Ek, list_fmap_delete. apply placed_delete; [done|]. rewrite length_fmap. by eapply lookup_lt_Some.
    + destruct (decide (q = k)) as [->|Hqk].
      { apply (child_ext to_lower m m1 k kob (k_set_name (Some (new, Some p)) kob)); try done. intros c Hc. apply (kname_but k); [done|]. intros ->.
        apply (so_subs _ _ _ _ (no_subkeys _ _ _ _ (ro_nodes _ _ Hok k kob Hk))) in Hc as [? E']. congruence. }
      unfold child. rewrite Hs by done. destruct (m !! q) as [qob|] eqn:Hq; [|done]. simpl. apply find_sub_ext. intros c Hc. apply (kname_but k); [done|]. intros ->.
      apply (so_subs _ _ _ _ (no_subkeys _ _ _ _ (ro_nodes _ _ Hok q qob Hq))) in Hc as [? E']. congruence.
  - intros j. assert (option_Forall2 (λ ob ob', k_values ob' = k_values ob ∧ k_last_value ob' = k_last_value ob ∧ k_class ob' = k_class ob ∧ k_flags ob' = k_flags ob) (m !! j) (m1 !! j)) as H1.
    { destruct (decide (j = k)) as [->|]; [rewrite Hk, Hk1; by constructor|]. destruct (decide (j = p)) as [->|]; [rewrite Hp, Hp1; constructor; destruct Hr as [_ _ ? (? & ? & ?) ? _ _]; done|].
      rewrite Hs by done. destruct (m !! j); by constructor. }
    specialize (Hsim j). destruct H1 as [ob ob1 (? & ? & ? & Ef)|]; inversion Hsim as [? ob' [_ S2 _ _ (S5 & _ & S6) S7]|]; subst; constructor. rewrite Ef in S7. split_and!; congruence.
Qed.

Lemma rename_key_ok k kob old parent new s : reg_ok (keys s) → keys s !! k = Some kob → k_name kob = Some (old, parent) →
  wp (rename_key to_lower k new) (λ _ s', reg_ok (keys s') ∧
    match rename_error (keys s) k parent new with
    | Some e => rg_error s' = e ∧ keys s' = keys s
    | None => rg_error s' = REG_NO_MEMORY ∧ rg_allocs s ≠ [] ∧ keys s' = keys s ∨
        rg_error s' = rg_error s ∧ ∃ p, parent = Some p ∧ renamed k p old new (keys s) (keys s')
    end) s.
Proof.
  intros Hok Hk Hkn. unfold rename_key, rename_error. apply wp_bind, (wp_get_parent k kob old parent); [done..|]. cbv zeta.
  destruct (_ || _ || _) eqn:Eb; [by apply wp_modify|]. rewrite !orb_false_iff, Nat.eqb_neq, negb_false_iff, Nat.eqb_eq, Z.ltb_ge in Eb. destruct Eb as [[_ Elen] Emax].
  assert (fits new) as Hfit by (unfold fits, MAX_NAME_LEN in *; lia). destruct parent as [p|]; [|by apply wp_modify].
  assert (named (keys s) k = Some (old, Some p)) as Hnk by by rewrite (named_key _ _ _ Hk).
  destruct (parent_named _ _ _ _ (ro_tree _ _ Hok) Hnk) as [Hpk (pob & pn & Hp & Hpn)%named_inv_ex]. pose proof (no_subkeys _ _ _ _ (ro_nodes _ _ Hok p pob Hp)) as Hsub.
  apply wp_bind, (wp_get_key _ pob); [done|]. apply wp_bind, (find_subkey_ok to_lower p); [done..|]. intros found i Hpl.
  destruct (placed_child to_lower (keys s) p pob new found i Hp Hpl) as [Hi Hf]. destruct found; [destruct Hf as (c & _ & _ & ->); by apply wp_modify|]. rewrite Hf.
  replace (keys s !! p ≫= k_wow6432node) with (k_wow6432node pob) by by rewrite Hp. destruct (_ || _) eqn:Ew; [by apply wp_modify|].
  apply wp_bind, wp_reg_mem_alloc. intros b s1 (Ek1 & He1 & Herr1 & Ha1). destruct b; cbn [negb].
  2:{ apply wp_ret. rewrite Ek1. split; [done|]. left. split_and!; try done. intros E. by destruct (Ha1 E). }
  assert (k ∈ subs pob) as [cur Hcur]%list_elem_of_lookup by (apply (so_subs _ _ _ _ Hsub); eauto). pose proof (so_array _ _ _ _ Hsub) as Har. pose proof (ao_last _ _ _ _ _ Har) as Hl.
  apply wp_bind, (subkey_index_ok (subs pob) (k_subkeys pob) k cur); [intros x c Hx; by eapply array_lookup|by eapply subs_nodup|done|lia|lia|].
  apply (array_move (k_last_subkey pob) (k_nb_subkeys pob) MIN_SUBKEYS (k_subkeys pob) (subs pob) k); [done|by rewrite Nat2Z.id|lia|done|]. intros a Ha. rewrite Nat2Z.id in Ha.
  apply wp_bind, wp_put_key. set (pob' := k_set_subkeys _ _ _ _). assert (resub pob pob' (inserted (moved_index (Z.of_nat cur) i) k (delete cur (subs pob)))) as Hr by by split.
  apply wp_bind, (wp_get_key _ kob); [simpl; by rewrite lookup_insert_ne, Ek1|]. apply wp_bind, wp_put_key. set (s2 := set_keys _ _).
  assert (keys s2 !! k = Some (k_set_name (Some (new, Some p)) kob)) as Hk2 by apply lookup_insert_eq. assert (keys s2 !! p = Some pob') as Hp2 by (simpl; by rewrite lookup_insert_ne, lookup_insert_eq).
  assert (same_but k p (keys s) (keys s2)) as Hsb by (intros j Hj1 Hj2; simpl; by rewrite !lookup_insert_ne, Ek1).
  assert (reg_ok (keys s2)) as Hok2 by by eapply (renamed_ok (keys s) (keys s2) k kob old new p pob pob' cur i).
  assert (rg_error s2 = rg_error s) as Herr2 by done. clearbody s2. eapply wp_mono; [apply (touch_key_ok k (k_set_name (Some (new, Some p)) kob) (new, Some p) REG_NOTIFY_CHANGE_NAME s2); [apply Hok2|exact Hk2|done]|].
  intros [] s3 ([Hsim (_ & Herr3 & _)] & _). split; [by eapply similar_reg_ok|]. right. split; [congruence|]. exists p. split; [done|]. by eapply (renamed_intro (keys s) (keys s2)).
Qed.
End rename.
