(* ===== verification/RegistryMachine.v ===== *)
(** * The registry as a state machine

    The operations that change the registry, in any order, keep its invariant, and
    none of them fails to complete. *)

From stdpp Require Import base list gmap fin_maps.
From S2P Require Import Prelude RegText Registry RegistryInv RegistryThms RegistryKeys RegistryCreate RegistryRename.

Open Scope Z_scope.
Open Scope server_scope.

Section machine.
Context (to_lower : Z → Z).

(** Between operations a key without a name is a deleted one. *)
Definition settled (m : gmap kid key) : Prop := ∀ k ob, m !! k = Some ob → k_name ob = None → has (k_flags ob) KEY_DELETED = true.
Definition reg_inv (s : reg) : Prop := reg_ok to_lower (keys s) ∧ settled (keys s).

(** [get_hkey_obj] gives a key that is not deleted. *)
Definition live (s : reg) (k : kid) : Prop := ∃ ob, keys s !! k = Some ob ∧ has (k_flags ob) KEY_DELETED = false.

Inductive reg_op :=
  | op_set_value (k : kid) (name : list Z) (type : Z) (data : list Z)
  | op_get_value (k : kid) (name : list Z)
  | op_delete_value (k : kid) (name : list Z)
  | op_create_key (parent : kid) (name class : list Z) (options modif : Z)
  | op_delete_key (k : kid) (recurse : bool)
  | op_rename_key (k : kid) (name : list Z).

Definition op_enabled (s : reg) (op : reg_op) : Prop :=
  match op with
  | op_set_value k name _ _ | op_get_value k name | op_delete_value k name => live s k ∧ fits name
  | op_create_key p name _ _ _ => live s p ∧ fits name ∧ child to_lower (keys s) p name = None
  | op_delete_key k _ | op_rename_key k _ => live s k
  end.

Definition run_op (op : reg_op) : R unit :=
  match op with
  | op_set_value k name type data => set_value to_lower k name type data
  | op_get_value k name => r <- get_value to_lower k name; ret tt
  | op_delete_value k name => delete_value to_lower k name
  | op_create_key p name class options modif => r <- create_key to_lower p name class options modif; ret tt
  | op_delete_key k recurse => s <- get; r <- delete_key (size (keys s)) k recurse; ret tt
  | op_rename_key k name => rename_key to_lower k name
  end.

Definition reg_step (s s' : reg) : Prop := ∃ op, op_enabled s op ∧ run_op op s = Done tt s'.

(** ** The operations keep the invariant *)

Lemma live_named s k : reg_inv s → live s k → ∃ ob n, keys s !! k = Some ob ∧ k_name ob = Some n.
Proof.
  intros [_ Hs] (ob & Hk & Hd). destruct (k_name ob) as [n|] eqn:E; [eauto|]. rewrite (Hs k ob Hk E) in Hd. done.
Qed.

Lemma live_key_ok s k : reg_inv s → live s k → ∃ ob, key_ok to_lower k ob s.
Proof.
  intros Hi Hl. destruct (live_named s k Hi Hl) as (ob & n & Hk & Hn). exists ob. split; [apply Hi|done|by eexists|]. by apply (no_values _ _ _ _ (ro_nodes _ _ (proj1 Hi) k ob Hk)).
Qed.

Lemma kept_node m m' k ob ob' : (∀ c, named m' c = named m c) → kept ob ob' → values_ok to_lower ob' → node_ok to_lower m k ob → node_ok to_lower m' k ob'.
Proof.
  intros En [K1 K2 (K3 & K4 & K5) K6 K7] Hv [A B C D]. split; [done|by apply (subkeys_ok_named to_lower m m' k ob)|unfold kname; by rewrite En|].
  rewrite (has_deleted _ _ K7), K1. done.
Qed.

Lemma changed_inv k ob ob' s s' : key_ok to_lower k ob s → changed to_lower k ob ob' s s' → reg_inv s → reg_inv s'.
Proof.
  intros Hko (Hk' & Hv' & Hkp & Ht & Ho) [Hok Hs]. pose proof (ko_key _ _ _ _ Hko) as Hk.
  assert (∀ c, named (keys s') c = named (keys s) c) as En.
  { intros c. unfold named. destruct (decide (c = k)) as [->|Hc]; [rewrite Hk, Hk'; apply Hkp|]. specialize (Ho c Hc). destruct Ho as [? ? Hsim|]; [apply Hsim|done]. }
  assert (∀ j o', keys s' !! j = Some o' → ∃ o, keys s !! j = Some o ∧ kept o o' ∧ (j ≠ k → similar o o')) as Hj.
  { intros j o' Hj'. destruct (decide (j = k)) as [->|Hjk]; [simplify_eq; exists ob; done|]. specialize (Ho j Hjk). rewrite Hj' in Ho. inversion Ho; subst. eexists. split; [done|].
    split; [by apply similar_kept|done]. }
  split; [split; [done|]|].
  - intros j o' Hj'. destruct (Hj j o' Hj') as (o & Ho' & Hkp' & Hsim). destruct (decide (j = k)) as [->|Hjk].
    + simplify_eq. apply (kept_node (keys s) _ k ob); [done..|]. by apply (ro_nodes _ _ Hok).
    + apply (similar_node to_lower (keys s) _ j o); [done|auto|]. by apply (ro_nodes _ _ Hok).
  - intros j o' Hj' Hn. destruct (Hj j o' Hj') as (o & Ho' & [K1 _ _ _ K7] & _). rewrite (has_deleted _ _ K7). apply (Hs j o Ho'). congruence.
Qed.

Lemma similar_settled m m' : similar_keys m m' → settled m → settled m'.
Proof.
  intros H Hs k ob' Hk Hn. destruct (similar_r _ _ _ _ H Hk) as (ob & Hob & [S1 _ _ _ _ S6]). rewrite (has_deleted _ _ S6). apply (Hs k ob Hob). congruence.
Qed.

Lemma create_settled r p pob name class options modif s s' : keys s !! p = Some pob → settled (keys s) →
  create_outcome to_lower r p pob name class options modif s s' → settled (keys s').
Proof.
  intros Hp Hs [_ H] j ob Hj Hn. destruct r as [k|].
  - destruct H as (_ & _ & _ & Hsb & Hk & i & pob' & _ & Hp' & Hr). destruct (decide (j = k)) as [->|Hjk]; [simplify_eq|].
    destruct (decide (j = p)) as [->|Hjp]; [|rewrite Hsb in Hj by done; by apply (Hs j)]. simplify_eq. rewrite (rs_flags _ _ _ Hr). apply (Hs p pob Hp). by rewrite <-(rs_name _ _ _ Hr).
  - destruct H as (_ & Hsame & pob' & Hp' & Hr). destruct (decide (j = p)) as [->|Hjp]; [|rewrite Hsame in Hj by done; by apply (Hs j)].
    simplify_eq. rewrite (rs_flags _ _ _ Hr). apply (Hs p pob Hp). by rewrite <-(rs_name _ _ _ Hr).
Qed.

Lemma pruned_settled g m m' : pruned g m m' → settled m → settled m'.
Proof.
  intros Hp Hs j ob' Hj Hn. destruct (pruned_r _ _ _ _ _ Hp Hj) as (ob & Hob & [_ _ P3 P4 _]). case_decide; [done|]. rewrite (has_deleted _ _ P4). apply (Hs j ob Hob). congruence.
Qed.

Lemma renamed_settled k p old new m m' : renamed to_lower k p old new m m' → settled m → settled m'.
Proof.
  intros [Hn _ Hv] Hs j ob' Hj Hnm. specialize (Hv j). rewrite Hj in Hv. inversion Hv as [ob ? (_ & _ & _ & Hf) Hob|]; subst. rewrite (has_deleted _ _ Hf).
  apply (Hs j ob); [done|]. specialize (Hn j). rewrite (named_key _ _ _ Hj), Hnm in Hn. case_decide; [done|]. by rewrite (named_key m j ob) in Hn.
Qed.

(** Every operation completes and keeps the invariant. *)
Lemma run_op_ok op s : reg_inv s → op_enabled s op → wp (run_op op) (λ _ s', reg_inv s') s.
Proof.
  intros Hi Hen. pose proof Hi as [Hok Hset]. destruct op as [k name type data|k name|k name|p name class options modif|k recurse|k new]; cbn [run_op op_enabled] in *.
  - destruct Hen as [(ob & Hko)%live_key_ok Hn]; [|done]. eapply wp_mono; [by apply (set_value_ok to_lower k ob)|]. intros _ s' (ob' & Hch & _). by eapply changed_inv.
  - destruct Hen as [(ob & Hko)%live_key_ok Hn]; [|done]. apply wp_bind. eapply wp_mono; [by apply (get_value_ok to_lower k ob)|]. intros r s' (Ek & _). apply wp_ret.
    split; by rewrite Ek.
  - destruct Hen as [(ob & Hko)%live_key_ok Hn]; [|done]. eapply wp_mono; [by apply (delete_value_ok to_lower k ob)|]. intros _ s' (ob' & Hch & _). by eapply changed_inv.
  - destruct Hen as ((pob & pn & Hp & Hpn)%live_named & Hn & Hc); [|done]. apply wp_bind. eapply wp_mono; [apply (create_key_ok to_lower p pob); try done; by eexists|]. intros r s' Hout.
    apply wp_ret. split; [apply Hout|by apply (create_settled r p pob name class options modif s)].
  - destruct (live_named s k Hi Hen) as (ob & n & Hk & Hn). wp_steps. eapply wp_mono; [apply (delete_key_ok to_lower k ob); try done; by eexists|].
    intros r s' (Hok' & gone & Hp & _). apply wp_ret. split; [done|by eapply pruned_settled].
  - destruct (live_named s k Hi Hen) as (ob & [old parent] & Hk & Hn). eapply wp_mono; [by apply (rename_key_ok to_lower k ob old parent)|].
    intros _ s' [Hok' H]. split; [done|]. destruct (rename_error _ _ _ _ _); [by destruct H as [_ ->]|]. destruct H as [(_ & _ & ->)|(_ & p & _ & Hr)]; [done|by eapply renamed_settled].
Qed.

Lemma reg_step_inv s s' : reg_inv s → reg_step s s' → reg_inv s'.
Proof. intros Hi (op & Hen & Hrun). pose proof (run_op_ok op s Hi Hen) as H. unfold wp in H. by rewrite Hrun in H. Qed.

Lemma reg_steps_inv s s' : rtc reg_step s s' → reg_inv s → reg_inv s'.
Proof. induction 1; [done|]. intros Hi. by eapply IHrtc, reg_step_inv. Qed.
End machine.
