(* ===== verification/RegPathThms.v ===== *)
(** * Creating the keys of a path

    In a registry without symbolic links, [create_key_recursive] finds or creates
    the keys of a path, one in the other; a path with an empty element stops the
    server. *)

From stdpp Require Import base list gmap fin_maps.
From S2P Require Import Prelude RegText Registry RegFile RegLoad RegistryInv RegistryThms RegistryKeys RegistryCreate RegistryRename RegistryMachine.

Open Scope Z_scope.
Open Scope server_scope.

(** ** Paths *)

(** A name that is one element of a path. *)
Record element_ok (e : list Z) : Prop := {
  el_some : e ≠ [];
  el_plain : Forall (λ c, c ≠ BACKSLASH) e;
  el_short : Z.of_nat (length e) <= MAX_NAME_LEN;
}.

Fixpoint join (es : list (list Z)) : list Z :=
  match es with
  | [] => []
  | [e] => e
  | e :: es => e ++ BACKSLASH :: join es
  end.

Lemma path_element e rest : Forall (λ c, c ≠ BACKSLASH) e → rest = [] ∨ (∃ r, rest = BACKSLASH :: r) → get_path_element (e ++ rest) = length e.
Proof.
  intros He Hr. induction He as [|c e Hc _ IH]; simpl.
  - destruct Hr as [->|[r ->]]; done.
  - by rewrite (proj2 (Z.eqb_neq _ _)), IH by done.
Qed.

Lemma join_cons e es : es ≠ [] → join (e :: es) = e ++ BACKSLASH :: join es.
Proof. by destruct es. Qed.

(** The registry has no symbolic links. *)
Definition no_links (m : gmap kid key) : Prop := ∀ k ob, m !! k = Some ob → has (k_flags ob) KEY_SYMLINK = false.

(** A key that stays as it is but for the array of its subkeys, and one just made. *)
Record kept_key (ob ob' : key) : Prop := {
  kk_values : values ob' = values ob;
  kk_name : k_name ob' = k_name ob;
  kk_class : k_class ob' = k_class ob;
  kk_flags : k_flags ob' = k_flags ob;
  kk_modif : k_modif ob' = k_modif ob;
}.
Record made_key (modif : Z) (ob : key) : Prop := {
  mk_values : values ob = [];
  mk_class : k_class ob = None;
  mk_flags : k_flags ob = KEY_DIRTY;
  mk_modif : k_modif ob = modif;
}.

#[export] Instance kept_key_preorder : PreOrder kept_key.
Proof. split; [by split|]. intros a b c [] []. split; congruence. Qed.

Lemma resub_kept_key to_lower ob ob' cs : resub ob ob' cs → values_ok to_lower ob → kept_key ob ob'.
Proof. intros Hr Hv. split; [by eapply (values_resub to_lower)|apply Hr..]. Qed.

(** No name is lost, no key that was there is changed, and the others are new. *)
Record extends (to_lower : Z → Z) (modif : Z) (m m' : gmap kid key) : Prop := {
  ex_child : ∀ q n c, child to_lower m q n = Some c → child to_lower m' q n = Some c;
  ex_kept : ∀ j ob, m !! j = Some ob → ∃ ob', m' !! j = Some ob' ∧ kept_key ob ob';
  ex_made : ∀ j ob', m' !! j = Some ob' → m !! j = None → made_key modif ob';
}.

#[export] Instance extends_preorder to_lower modif : PreOrder (extends to_lower modif).
Proof.
  split; [intros m; split; [done|by eexists|congruence]|]. intros a b c [A1 A2 A3] [B1 B2 B3]. split; [auto| |].
  - intros j ob Hj. destruct (A2 j ob Hj) as (ob1 & Hj1 & E1). destruct (B2 j ob1 Hj1) as (ob2 & ? & ?). exists ob2. split; [done|by etransitivity].
  - intros j ob Hj Hn. destruct (b !! j) as [ob1|] eqn:Hj1; [|by apply (B3 j)]. destruct (B2 j ob1 Hj1) as (ob2 & ? & [E1 E2 E3 E4 E5]). simplify_eq.
    destruct (A3 j ob1 Hj1 Hn). split; congruence.
Qed.

Lemma extends_links to_lower modif m m' : extends to_lower modif m m' → no_links m → no_links m'.
Proof.
  intros [_ H2 H3] Hn j ob' Hj. destruct (m !! j) as [ob|] eqn:E; [|by rewrite (mk_flags _ _ (H3 j ob' Hj E))].
  destruct (H2 j ob E) as (ob1 & ? & Hk). simplify_eq. rewrite (kk_flags _ _ Hk). by apply (Hn j).
Qed.

(** The registry has no volatile keys. *)
Definition no_volatile (m : gmap kid key) : Prop := ∀ k ob, m !! k = Some ob → has (k_flags ob) KEY_VOLATILE = false.

Lemma extends_volatile to_lower modif m m' : extends to_lower modif m m' → no_volatile m → no_volatile m'.
Proof.
  intros [_ H2 H3] Hn j ob' Hj. destruct (m !! j) as [ob|] eqn:E; [|by rewrite (mk_flags _ _ (H3 j ob' Hj E))].
  destruct (H2 j ob E) as (ob1 & ? & Hk). simplify_eq. rewrite (kk_flags _ _ Hk). by apply (Hn j).
Qed.

Lemma extends_live to_lower modif s s' k : extends to_lower modif (keys s) (keys s') → live s k → live s' k.
Proof. intros [_ H2 _] (ob & Hk & Hd). destruct (H2 k ob Hk) as (ob' & Hk' & Hkk). exists ob'. by rewrite (kk_flags _ _ Hkk). Qed.

(** ** What the routines leave alone *)

(** A routine that does not touch the file, the time or the root, and takes nothing
    from a memory that never fails. *)
Definition aside (s s' : reg) : Prop :=
  rg_info s' = rg_info s ∧ rg_time s' = rg_time s ∧ root_key s' = root_key s ∧ (rg_allocs s = [] → rg_allocs s' = []).
#[export] Instance aside_preorder : PreOrder aside.
Proof. split; [done|]. intros a b c (?&?&?&?) (?&?&?&?). split_and!; [congruence..|auto]. Qed.

Definition steady {A} (m : R A) : Prop := ∀ s a s', m s = Done a s' → aside s s'.

Lemma steady_ret {A} (a : A) : steady (ret a).
Proof. intros s b s' [= _ <-]. done. Qed.
Lemma steady_fail {A} e : steady (fail e : R A).
Proof. by intros s b s'. Qed.
Lemma steady_get : steady get.
Proof. intros s b s' [= _ <-]. done. Qed.
Lemma steady_bind {A B} (m : R A) (f : A → R B) : steady m → (∀ a, steady (f a)) → steady (st_bind m f).
Proof.
  intros Hm Hf s b s' E. unfold st_bind in E. destruct (m s) as [a s1|] eqn:E1; [|done]. etransitivity; [by apply (Hm s a)|by apply (Hf a s1 b)].
Qed.
Lemma steady_deref {A} (o : option A) : steady (deref o).
Proof. destruct o; [apply steady_ret|apply steady_fail]. Qed.
Lemma steady_cell {A} (o : option A) : steady (cell o).
Proof. destruct o; [apply steady_ret|apply steady_fail]. Qed.
Lemma steady_keys f : steady (modify (set_keys f)).
Proof. intros s b s' [= _ <-]. done. Qed.
Lemma steady_put k ob : steady (put_key k ob).
Proof. apply steady_keys. Qed.
Lemma steady_error e : steady (reg_error e).
Proof. intros s b s' [= _ <-]. done. Qed.
Lemma steady_malloc : steady reg_malloc.
Proof. intros s b s'. unfold reg_malloc, st_bind, get. destruct (rg_allocs s) eqn:E; intros [= _ <-]; split_and!; try done; congruence. Qed.
Lemma steady_arr_get {A} (a : list A) i : steady (arr_get a i).
Proof. intros s b s'. unfold arr_get. repeat case_match; intros [=]; subst; done. Qed.
Lemma steady_arr_set {A} (a : list A) i x : steady (arr_set a i x).
Proof. intros s b s'. unfold arr_set. repeat case_match; intros [=]; subst; done. Qed.
Lemma steady_assert b : steady (assert b).
Proof. intros s a s'. unfold assert. case_match; intros [=]; subst; done. Qed.

Create HintDb steady discriminated.
#[export] Hint Resolve steady_ret steady_fail steady_get steady_deref steady_cell steady_keys steady_put steady_error steady_malloc steady_arr_get steady_arr_set steady_assert : steady.

(** Through the binds and the branches of a routine. *)
Ltac keep_steady := repeat first [ solve [eauto with steady] | apply steady_bind; intros; cbn beta | case_match ].

Lemma steady_mem_alloc : steady reg_mem_alloc.
Proof. unfold reg_mem_alloc. keep_steady. Qed.
Lemma steady_get_key k : steady (get_key k).
Proof. unfold get_key. keep_steady. Qed.
Lemma steady_name_of ob : steady (name_of ob).
Proof. unfold name_of. keep_steady. Qed.
Lemma steady_shift_up {A} n : ∀ (a : list A) i, steady (shift_up n a i).
Proof. induction n; intros; simpl; keep_steady. Qed.
Lemma steady_shift_down {A} n : ∀ (a : list A) i, steady (shift_down n a i).
Proof. induction n; intros; simpl; keep_steady. Qed.
#[export] Hint Resolve steady_mem_alloc steady_get_key steady_name_of steady_shift_up steady_shift_down : steady.
Lemma steady_read_cell {A} (l : list (option A)) i : steady (read_cell l i).
Proof. unfold read_cell. keep_steady. Qed.
Lemma steady_get_parent k : steady (get_parent k).
Proof. unfold get_parent. keep_steady. Qed.
Lemma steady_bisect to_lower n entry name : (∀ i, steady (entry i)) → ∀ min max, steady (bisect to_lower n entry name min max).
Proof. intros He. induction n; intros; simpl; keep_steady. Qed.
#[export] Hint Resolve steady_read_cell steady_get_parent : steady.
Lemma steady_find_subkey to_lower ob name : steady (find_subkey to_lower ob name).
Proof. apply steady_bisect. intros i. keep_steady. Qed.
Lemma steady_grow_subkeys k : steady (grow_subkeys k).
Proof. unfold grow_subkeys. keep_steady. Qed.
Lemma steady_subkey_index a k n : ∀ i, steady (subkey_index a k n i).
Proof. induction n; intros; simpl; keep_steady. Qed.
#[export] Hint Resolve steady_find_subkey steady_grow_subkeys steady_subkey_index : steady.
Lemma steady_key_link_name to_lower k name p : steady (key_link_name to_lower k name p).
Proof. unfold key_link_name. keep_steady. Qed.
Lemma steady_unlink_key k : steady (unlink_key k).
Proof. unfold unlink_key, key_unlink_name. keep_steady. Qed.
Lemma steady_key_init k class options modif : steady (key_init k class options modif).
Proof. unfold key_init. keep_steady. Qed.
#[export] Hint Resolve steady_key_link_name steady_unlink_key steady_key_init : steady.
Lemma steady_create_key to_lower p name class options modif : steady (create_key to_lower p name class options modif).
Proof. unfold create_key. keep_steady. Qed.

(** What a routine does not touch, under [wp]. *)
Lemma wp_steady {A} (m : R A) (Q : A → reg → Prop) s : steady m → wp m Q s → wp m (λ a s', aside s s' ∧ Q a s') s.
Proof. unfold wp. intros Hm. destruct (m s) as [a s'|] eqn:E; [|done]. split; [by apply (Hm s a)|done]. Qed.

Section path.
Context (to_lower : Z → Z) (follow : list Z → R (option (kid * option (list Z)))).
Notation reg_inv := (reg_inv to_lower).
Notation child := (child to_lower).

Definition walk (m : gmap kid key) (k : kid) (es : list (list Z)) : option kid := foldl (λ o e, p ← o; child m p e) (Some k) es.

Lemma walk_cons m k e es c : child m k e = Some c → walk m k (e :: es) = walk m c es.
Proof. intros H. unfold walk. simpl. by rewrite H. Qed.

(** ** One element *)

(** The error of a creation: no memory, or a volatile key above. *)
Definition path_failed (s s' : reg) : Prop :=
  rg_error s' = REG_NO_MEMORY ∧ rg_allocs s ≠ [] ∨
  rg_error s' = REG_CHILD_MUST_BE_VOLATILE ∧ ∃ p pob, keys s !! p = Some pob ∧ has (k_flags pob) KEY_VOLATILE = true.

Lemma child_named s p c e : reg_inv s → child (keys s) p e = Some c → ∃ cob n, keys s !! c = Some cob ∧ k_name cob = Some (n, Some p) ∧ live s c.
Proof.
  intros [Hok _] Hc. unfold RegistryKeys.child in Hc. destruct (keys s !! p) as [pob|] eqn:Hp; [|done]. simpl in Hc.
  apply List.find_some in Hc as [Hin%list_elem_of_In _]. pose proof (ro_nodes _ _ Hok p pob Hp) as Hn.
  destruct (sub_named to_lower _ _ _ _ (no_subkeys _ _ _ _ Hn) Hin) as (cob & n & Hcob & Hcn). exists cob, n. split_and!; [done..|]. exists cob. split; [done|].
  destruct (has (k_flags cob) KEY_DELETED) eqn:E; [|done]. rewrite (no_deleted _ _ _ _ (ro_nodes _ _ Hok c cob Hcob) E) in Hcn. done.
Qed.

Lemma lookup_key_ok s k ob : keys s !! k = Some ob → has (k_flags ob) KEY_DELETED = false → has (k_flags ob) KEY_SYMLINK = false →
  ∀ attr, key_lookup_name to_lower follow k None attr s = Done (None, None) s.
Proof. intros Hk Hd Hl attr. unfold key_lookup_name, get_key, st_bind, get. rewrite Hk. simpl. by rewrite Hd, Hl. Qed.

(** The lookup of an element ends at the subkey, or at the key with the element left. *)
Lemma lookup_one_ok s p e : reg_inv s → no_links (keys s) → live s p → element_ok e →
  wp (lookup_named_object to_lower follow p e OBJ_OPENIF)
     (λ r s', s' = set_rg_error 0 s ∧ r = Some (match child (keys s) p e with Some c => (c, None) | None => (p, Some e) end)) s.
Proof.
  intros Hi Hnl Hl He. pose proof Hi as [Hok _]. destruct Hl as (pob & Hp & Hpd). destruct He as [He1 He2 He3]. unfold lookup_named_object.
  destruct e as [|c0 e0]; [done|]. apply Forall_cons in He2 as [Hc0 He2]. rewrite (proj2 (Z.eqb_neq _ _)) by done. set (e := c0 :: e0) in *.
  apply wp_bind, wp_get, wp_bind, wp_modify. replace (length e + _)%nat with (S (length e0 + size (keys s))) by (simpl; lia). cbn [lookup_loop].
  assert (get_path_element e = length e) as El.
  { rewrite <-(path_element e []) by (by constructor || by left). by rewrite app_nil_r. }
 
  apply wp_bind. unfold key_lookup_name. apply wp_bind, (wp_get_key _ pob); [done|]. rewrite Hpd, (Hnl p pob Hp). rewrite El, take_ge, drop_ge by lia.
  rewrite (proj2 (Z.ltb_ge _ _)) by done. unfold lookup_element. apply wp_bind, wp_bind. apply (find_subkey_ok to_lower p pob); [done..|unfold fits, MAX_NAME_LEN in *; lia|].
  intros found i Hpl. pose proof (placed_child to_lower _ p pob e found i Hp Hpl) as [Hi0 Hpc]. cbn [fst snd]. destruct found.
  - destruct Hpc as (c & Hc & _ & Hpc). rewrite Hpc. destruct (child_named s p c e Hi Hpc) as (cob & n & Hcob & _ & (cob' & Hc1 & Hc2)). simplify_eq.
    pose proof (so_array _ _ _ _ (no_subkeys _ _ _ _ (ro_nodes _ _ Hok p pob Hp))) as Ha.
    apply wp_bind, (wp_read_cell _ _ c); [lia|by eapply array_lookup|]. apply wp_ret. cbn [skip_backslashes]. apply wp_ret.
    unfold wp. simpl. destruct (length e0 + size (keys s))%nat; cbn [lookup_loop]; unfold st_bind; by rewrite (lookup_key_ok _ c cob) by (done || by apply (Hnl c)).
  - rewrite Hpc. replace (has OBJ_OPENIF OBJ_KEY_WOW64) with false by done. rewrite andb_false_r. apply wp_ret. cbn [skip_backslashes]. by apply wp_ret, wp_bind, wp_get, wp_ret.
Qed.

Lemma child_same_name m p a b : same_name to_lower a b = true → child m p a = child m p b.
Proof.
  unfold same_name. intros E%bool_decide_eq_true. unfold RegistryKeys.child. destruct (m !! p) as [ob|]; [|done]. simpl. unfold find_sub.
  induction (subs ob) as [|c cs IH]; [done|]. simpl. unfold same_name. rewrite E. by case_match.
Qed.

(** A new subkey leaves all others as they are. *)
Lemma created_extends k p pob e modif s s' : reg_inv s → keys s !! p = Some pob → child (keys s) p e = None →
  create_outcome to_lower (Some k) p pob e [] 0 modif s s' → extends to_lower modif (keys s) (keys s') ∧ child (keys s') p e = Some k.
Proof.
  intros [Hok _] Hp Hnone Hout. pose proof (create_child to_lower _ _ _ _ _ _ _ _ _ Hok Hp Hout) as Hch.
  destruct Hout as (_ & Hk & _ & _ & Hsb & Hk' & i & pob' & _ & Hp' & Hr). assert (p ≠ k) as Hpk by congruence. split; [split|].
  - intros q n c Hc. rewrite Hch by (intros [= ->]; unfold RegistryKeys.child in Hc; by rewrite Hk in Hc). case_bool_decide as E; [|done]. subst q.
    destruct (same_name to_lower e n) eqn:En; [|done]. rewrite <-(child_same_name _ p e n En) in Hc. congruence.
  - intros j ob Hj. destruct (decide (j = p)) as [->|Hjp]; [|exists ob; rewrite Hsb; [done|congruence|done]]. simplify_eq. exists pob'. split; [done|].
    apply (resub_kept_key to_lower _ _ _ Hr), (ro_nodes _ _ Hok p _ Hp).
  - intros j ob Hj Hn. destruct (decide (j = k)) as [->|Hjk]; [by simplify_eq|]. rewrite Hsb in Hj by congruence. congruence.
  - rewrite Hch by congruence. rewrite bool_decide_eq_true_2 by done. unfold same_name. by rewrite bool_decide_eq_true_2.
Qed.

(** A creation that fails leaves the keys. *)
Lemma failed_extends p pob e modif s s' : reg_inv s → keys s !! p = Some pob →
  create_outcome to_lower None p pob e [] 0 modif s s' → extends to_lower modif (keys s) (keys s') ∧ path_failed s s'.
Proof.
  intros [Hok _] Hp Hout. pose proof (create_child to_lower _ _ _ _ _ _ _ _ _ Hok Hp Hout) as Hch.
  destruct Hout as (_ & Herr & Hsame & pob' & Hp' & Hr). split; [split|].
  - intros q n c Hc. by rewrite Hch.
  - intros j ob Hj. destruct (decide (j = p)) as [->|Hjp]; [|exists ob; by rewrite Hsame]. simplify_eq. exists pob'. split; [done|].
    apply (resub_kept_key to_lower _ _ _ Hr), (ro_nodes _ _ Hok p _ Hp).
  - intros j ob Hj Hn. rewrite Hsame in Hj by congruence. congruence.
  - destruct Herr as [Herr|[Herr Hce]]; [by left|]. right. split; [done|]. exists p, pob. split; [done|]. unfold child_error in Hce. by apply andb_true_iff in Hce as [_ ?].
Qed.

Definition path_outcome (modif : Z) (s s' : reg) : Prop := aside s s' ∧ reg_inv s' ∧ extends to_lower modif (keys s) (keys s').

Lemma create_one_ok s p e modif : reg_inv s → no_links (keys s) → live s p → element_ok e →
  wp (create_named_key to_lower follow p e OBJ_OPENIF [] 0 modif)
     (λ r s', path_outcome modif s s' ∧ match r with Some c => child (keys s') p e = Some c | None => path_failed s s' end) s.
Proof.
  intros Hi Hnl Hl He. unfold create_named_key. apply wp_bind, wp_modify. destruct e as [|c0 e0]; [by destruct He|]. set (e := c0 :: e0) in *.
  apply wp_bind. eapply wp_mono; [by apply (lookup_one_ok (set_rg_error 0 s) p e)|]. intros r s' [-> ->]. cbn [keys set_rg_error].
  destruct (child (keys s) p e) as [c|] eqn:Hc.
  - replace (has OBJ_OPENIF OBJ_OPENIF) with true by done. apply wp_bind, wp_modify, wp_ret. split; [|done]. split; [done|]. split; [done|]. reflexivity.
  - unfold e at 1. fold e. destruct (live_named to_lower s p Hi Hl) as (pob & pn & Hp & Hpn). set (s0 := set_rg_error 0 _).
    assert (aside s s0) as Ha0 by done. assert (keys s0 = keys s) as Ek by done. assert (rg_allocs s0 = rg_allocs s) as Ea by done. clearbody s0.
    assert (reg_inv s0) as Hi0 by (unfold RegistryMachine.reg_inv; by rewrite Ek). rewrite <-Ek in Hp, Hc.
    eapply wp_mono; [apply wp_steady; [apply steady_create_key|]; apply (create_key_ok to_lower p pob); [apply Hi0|done|by eexists|destruct He as [_ _ He]; unfold fits, MAX_NAME_LEN in *; lia|done]|].
    intros r s1 [Ha1 Hout]. assert (aside s s1) as Ha by (by etransitivity).
    assert (reg_inv s1) as Hi1 by (split; [apply Hout|by eapply create_settled; [exact Hp|apply Hi0|]]).
    destruct r as [k|].
    + destruct (created_extends k p pob e modif s0 s1) as [Hx Hk]; [done..|]. rewrite Ek in Hx. done.
    + destruct (failed_extends p pob e modif s0 s1) as [Hx Hf]; [done..|]. rewrite Ek in Hx. split; [done|]. unfold path_failed in *. by rewrite Ea, Ek in Hf.
Qed.

(** ** A path *)

Lemma walk_extends modif m m' es : extends to_lower modif m m' → ∀ k c, walk m k es = Some c → walk m' k es = Some c.
Proof.
  intros [H1 _ _]. induction es as [|e es IH]; intros k c; [done|]. destruct (child m k e) as [d|] eqn:E.
  - rewrite (walk_cons m k e es d), (walk_cons m' k e es d); auto.
  - unfold walk. simpl. rewrite E. intros H. exfalso. clear -H. induction es; [done|auto].
Qed.

Lemma failed_later modif s s1 s2 : path_outcome modif s s1 → path_failed s1 s2 → path_failed s s2.
Proof.
  intros ((_ & _ & _ & Ha) & _ & [_ H2 H3]) [[E F]|(E & p & pob & Hp & Hv)]; [left; split; auto|].
  right. split; [done|]. destruct (keys s !! p) as [ob|] eqn:Hk; [|by rewrite (mk_flags _ _ (H3 p pob Hp Hk)) in Hv].
  exists p, ob. split; [done|]. destruct (H2 p ob Hk) as (ob' & ? & Hkk). simplify_eq. by rewrite <-(kk_flags _ _ Hkk).
Qed.

Lemma create_key_recursive_step n p name modif : name ≠ [] → create_key_recursive to_lower follow n p name modif =
  (r <- create_named_key to_lower follow p (take (get_path_element name) name) OBJ_OPENIF [] 0 modif;
   match r with
   | None => ret None
   | Some k =>
       if (get_path_element name <? length name)%nat then
         match n with O => fail OutOfFuel | S n => create_key_recursive to_lower follow n k (drop (S (get_path_element name)) name) modif end
       else ret (Some k)
   end).
Proof. by destruct name, n. Qed.

(** The keys of a path are found or made, one in the other. *)
Lemma create_path_ok modif es : Forall element_ok es → ∀ n p s, reg_inv s → no_links (keys s) → live s p → (length es <= n)%nat →
  wp (create_key_recursive to_lower follow n p (join es) modif)
     (λ r s', path_outcome modif s s' ∧ match r with Some c => walk (keys s') p es = Some c | None => path_failed s s' end) s.
Proof.
  induction 1 as [|e es He Hes IH]; intros n p s Hi Hnl Hl Hn.
  { assert (path_outcome modif s s) by (split; [done|split; [done|reflexivity]]). by destruct n; apply wp_ret. }
  assert (join (e :: es) = e ++ match es with [] => [] | _ => BACKSLASH :: join es end) as Ej by (destruct es; [by rewrite app_nil_r|done]).
  assert (get_path_element (join (e :: es)) = length e) as Ep by (rewrite Ej; apply path_element; [apply He|destruct es; eauto]).
  assert (take (length e) (join (e :: es)) = e) as Et by (rewrite Ej; by rewrite take_app_length).
  assert (∃ c l, join (e :: es) = c :: l) as (c0 & l0 & E0) by (destruct He as [He _ _]; destruct e; [done|]; rewrite Ej; eexists _, _; reflexivity).
  rewrite create_key_recursive_step, Ep, Et by (by rewrite E0). apply wp_bind. eapply wp_mono; [by apply create_one_ok|]. intros [k|] s1 [Ho Hr]; [|by apply wp_ret]. pose proof Ho as (Ha & Hi1 & Hx).
  destruct es as [|e' es'].
  - rewrite Ej, app_nil_r, Nat.ltb_irrefl. apply wp_ret. split; [done|]. by rewrite (walk_cons _ _ _ _ k).
  - rewrite Ej, length_app, (proj2 (Nat.ltb_lt _ _)) by (simpl; lia). destruct n as [|n]; [simpl in Hn; lia|].
    rewrite (cons_middle BACKSLASH e), app_assoc, drop_app_length' by (rewrite length_app; simpl; lia).
    destruct (child_named s1 p k e Hi1 Hr) as (_ & _ & _ & _ & Hlk).
    eapply wp_mono; [apply IH; [done|by eapply extends_links|done|simpl in *; lia]|]. intros r s2 [(Ha2 & Hi2 & Hx2) Hr2].
    split; [split; [by etransitivity|split; [done|by etransitivity]]|]. destruct r as [c|]; [|by eapply failed_later].
    rewrite (walk_cons _ _ _ _ k); [done|]. by eapply ex_child.
Qed.

(** ** An empty element *)

(** The key has no name when its fields are set, and the name is read. *)
Lemma create_unnamed_faults class options modif s : rg_allocs s = [] → create_unnamed_key class options modif s = Fault NullDeref.
Proof.
  intros Ha. unfold create_unnamed_key, reg_mem_alloc, reg_malloc, st_bind, get. simpl. rewrite Ha. simpl.
  unfold key_init, get_parent, get_key, st_bind, get, put_key, modify, deref. simpl. by rewrite lookup_insert_eq.
Qed.

Lemma empty_element_faults n root rest modif s : rg_allocs s = [] → create_key_recursive to_lower follow n root (BACKSLASH :: rest) modif s = Fault NullDeref.
Proof.
  intros Ha. assert (Hc : ∀ attr class options, create_named_key to_lower follow root [] attr class options modif s = Fault NullDeref).
  { intros. unfold create_named_key, reg_error, modify, st_bind. by apply create_unnamed_faults. }
  destruct n; simpl; unfold st_bind; by rewrite Hc.
Qed.

(** The keys before the empty element are made first. *)
Lemma create_path_crash modif es rest : ∀ n p s, Forall element_ok es → es ≠ [] → reg_inv s → no_links (keys s) → no_volatile (keys s) → live s p → rg_allocs s = [] →
  (length es <= n)%nat → create_key_recursive to_lower follow n p (join es ++ BACKSLASH :: BACKSLASH :: rest) modif s = Fault NullDeref.
Proof.
  induction es as [|e es IH]; intros n p s He Hne Hi Hnl Hnv Hl Ha Hn; [done|]. apply Forall_cons in He as [He Hes].
  set (more := match es with [] => BACKSLASH :: rest | _ => join es ++ BACKSLASH :: BACKSLASH :: rest end).
  assert (join (e :: es) ++ BACKSLASH :: BACKSLASH :: rest = e ++ BACKSLASH :: more) as Ej by (unfold more; destruct es; [done|]; rewrite join_cons by done; by rewrite <-app_assoc).
  rewrite Ej. rewrite create_key_recursive_step by (by destruct e). rewrite path_element by (apply He || eauto). rewrite take_app_length, length_app.
  rewrite (proj2 (Nat.ltb_lt _ _)) by (simpl; lia). destruct n as [|n]; [simpl in Hn; lia|]. rewrite (cons_middle BACKSLASH e), app_assoc, drop_app_length' by (rewrite length_app; simpl; lia).
  destruct (wp_run _ _ _ (create_one_ok s p e modif Hi Hnl Hl He)) as (r & s1 & E & Ho & Hr). unfold st_bind. rewrite E. pose proof Ho as ((_ & _ & _ & Ha1) & Hi1 & Hx).
  destruct r as [k|].
  2:{ destruct Hr as [[_ H]|(_ & q & qob & Hq & Hv)]; [done|]. by rewrite (Hnv q qob Hq) in Hv. }
  destruct (child_named s1 p k e Hi1 Hr) as (_ & _ & _ & _ & Hlk). unfold more. destruct es as [|e' es']; [apply empty_element_faults; auto|].
  apply IH; [done|done|done|by eapply extends_links|by eapply extends_volatile|done|auto|simpl in *; lia].
Qed.
End path.
