(* ===== verification/RegFileThms.v ===== *)
(** * Registry files are read back as they were written

    A value that [dump_value] has written to a file is loaded by [load_value]: the
    key has the type and the data again, whatever they are. *)

From stdpp Require Import base list gmap fin_maps.
From S2P Require Import Prelude RegText RegTextThms Registry RegFile RegistryInv RegistryThms.

Open Scope Z_scope.
Open Scope server_scope.

(** ** Reading a line *)

(** The bytes of a line: no NUL and no end of line; a registry file has them all
    printable. *)
Definition printable (c : Z) : Prop := 32 <= c < 128.

Lemma c_string_id l : Forall (λ c, c ≠ 0) l → c_string l = l.
Proof. induction 1 as [|c l Hc _ IH]; simpl; [done|]. by rewrite (proj2 (Z.eqb_neq _ _)), IH by done. Qed.

Lemma fgets_line n l rest : Forall printable l → (length l < n)%nat → fgets n (l ++ NEWLINE :: rest) = (l ++ [NEWLINE], rest).
Proof.
  intros Hl. revert n. induction Hl as [|c l Hc _ IH]; intros [|n] Hn; simpl in *; try lia; [done|].
  rewrite (proj2 (Z.eqb_neq _ _)) by (unfold printable, NEWLINE in *; lia). by rewrite IH by lia.
Qed.
Lemma fgets_part n l file : Forall printable l → (n <= length l)%nat → fgets n (l ++ file) = (take n l, drop n l ++ file).
Proof.
  intros Hl. revert n. induction Hl as [|c l Hc _ IH]; intros [|n] Hn; simpl in *; try lia; [by destruct file|done|].
  rewrite (proj2 (Z.eqb_neq _ _)) by (unfold printable, NEWLINE in *; lia). by rewrite IH by lia.
Qed.

Lemma strip_line_ok l : Forall printable l → strip_line (l ++ [NEWLINE]) = l.
Proof.
  intros Hl. unfold strip_line. rewrite length_app. simpl. replace (length l + 1 - 1)%nat with (length l) by lia.
  rewrite take_app_length. rewrite bool_decide_eq_false_2; [done|]. intros E. apply last_Some in E as [l' ->].
  apply Forall_app in Hl as [_ [H _]%Forall_cons]. unfold printable in H. lia.
Qed.

Lemma match_nonempty {A B} (l : list A) (a b : B) : l ≠ [] → match l with [] => a | _ :: _ => b end = b.
Proof. by destruct l. Qed.

(** The line read, in a state with memory enough. *)
Lemma read_line_loop_ok n : ∀ line0 line1 rest s (Q : Z → reg → Prop),
  Forall printable line0 → Forall printable line1 → rg_allocs s = [] → li_file (rg_info s) = line1 ++ NEWLINE :: rest →
  2 <= li_len (rg_info s) → Z.of_nat (length line0) < li_len (rg_info s) - 1 → (length line1 < n)%nat →
  (∀ len, li_len (rg_info s) <= len → Q 1 (set_info (LoadInfo rest (line0 ++ line1) len (li_tmplen (rg_info s)) (li_line (rg_info s))) s)) →
  wp (read_line_loop n line0) Q s.
Proof.
  induction n as [|n IH]; intros line0 line1 rest s Q H0 H1 Hal Hf Hlen Hroom Hn HQ; [lia|]. cbn [read_line_loop]. wp_steps. rewrite Hf.
  set (m := Z.to_nat (li_len (rg_info s) - Z.of_nat (length line0) - 1)). assert (Forall (λ c, c ≠ 0) (line0 ++ line1 ++ [NEWLINE])) as Hnz.
  { rewrite !Forall_app. split_and!; [eapply Forall_impl; [done|unfold printable; simpl; lia]..|]. by repeat constructor. }
  destruct (decide (length line1 < m)%nat) as [Hm|Hm].
  - rewrite fgets_line by done. rewrite match_nonempty by by destruct line1.
    rewrite c_string_id by done. unfold upd_info. apply wp_bind, wp_modify. rewrite app_assoc, last_snoc. rewrite Z.eqb_refl.
    apply wp_bind, wp_modify, wp_ret. rewrite strip_line_ok by by apply Forall_app. by apply (HQ (li_len (rg_info s))).
  - rewrite (fgets_part m line1) by (done || lia). assert (1 <= m)%nat as Hm1 by lia.
    assert (take m line1 ≠ []) as Hne. { intros El. apply (f_equal length) in El. rewrite length_take in El. simpl in El. lia. }
    rewrite match_nonempty by done. assert (Forall printable (take m line1) ∧ Forall printable (drop m line1)) as [Ht Hd] by (split; [by apply Forall_take|by apply Forall_drop]).
    rewrite c_string_id by (apply Forall_app; split; eapply Forall_impl; try done; unfold printable; simpl; lia).
    unfold upd_info. apply wp_bind, wp_modify. destruct (last (line0 ++ take m line1)) as [d|] eqn:Ela.
    2:{ apply last_None in Ela. by destruct line0. }
    assert (printable d) as Hpd.
    { apply last_Some in Ela as [l' E]. assert (Forall printable (line0 ++ take m line1)) as Hf2 by by apply Forall_app. rewrite E in Hf2.
      by apply Forall_app in Hf2 as [_ [? _]%Forall_cons]. }
    rewrite (proj2 (Z.eqb_neq d NEWLINE)) by (unfold printable, NEWLINE in *; lia). rewrite length_app, length_take.
    rewrite (proj2 (Z.ltb_ge _ _)) by lia. apply wp_bind, wp_reg_malloc. simpl. intros b al Hb. destruct (Hb Hal) as [-> ->]. cbn [negb].
    apply wp_bind, wp_modify. simpl. pose proof (Z.div_le_lower_bound (li_len (rg_info s)) 2 1). eapply (IH _ (drop m line1) rest); simpl; try done.
    + by apply Forall_app.
    + lia.
    + rewrite length_app, length_take. lia.
    + rewrite length_drop. lia.
    + intros len Hle. rewrite <-app_assoc, take_drop. unfold set_info. simpl.  specialize (HQ len ltac:(lia)).
      destruct s; simpl in *; subst; exact HQ.
Qed.

Lemma read_next_line_ok line rest s (Q : Z → reg → Prop) :
  Forall printable line → rg_allocs s = [] → li_file (rg_info s) = line ++ NEWLINE :: rest → 2 <= li_len (rg_info s) →
  (∀ len, 2 <= len → Q 1 (set_info (LoadInfo rest line len (li_tmplen (rg_info s)) (li_line (rg_info s) + 1)) s)) → wp read_next_line Q s.
Proof.
  intros Hl Hal Hf Hlen HQ. unfold read_next_line, upd_info. apply wp_bind, wp_modify. wp_steps. simpl.
  apply (read_line_loop_ok _ [] line rest); simpl; try done; [lia|rewrite Hf, length_app; simpl; lia|]. intros len Hle. apply HQ. lia.
Qed.

(** ** The text of a value is printable *)

Lemma hexes_printable n l : hexes n l → Forall printable l.
Proof.
  intros (ds & -> & _ & Hd & _). apply Forall_fmap. eapply Forall_impl; [exact Hd|]. intros d Hd'. simpl.
  destruct (hex_char_spec d Hd') as (_ & _ & ? & _). unfold printable. lia.
Qed.

Lemma zero_pad_printable w l : Forall printable l → Forall printable (zero_pad w l).
Proof. intros H. unfold zero_pad. apply Forall_app. split; [|done]. apply Forall_replicate. unfold printable. lia. Qed.

Lemma dump_char_printable e1 e2 c next : wide c → Forall printable (dump_char e1 e2 c next).
Proof.
  intros Hc. unfold wide in Hc. unfold dump_char. assert (printable BACKSLASH ∧ printable 120) as [Hb Hx] by (split; done).
  destruct (Z.ltb_spec 127 c).
  - assert (Forall printable (fmt_x c)) as Hx0 by (eapply hexes_printable, fmt_x_hexes; lia). repeat constructor; try done.
    destruct (match next with d :: _ => _ | [] => _ end); [by apply zero_pad_printable|done].
  - destruct (Z.ltb_spec c 32).
    + assert (Forall printable (fmt_o c)) as Ho.
      { unfold fmt_o. apply Forall_fmap. destruct (digits_spec 8 c 22) as (_ & B & _); [lia..|]. eapply Forall_impl; [exact B|]. intros d Hd. unfold printable, compose. cbv beta in Hd |- *. lia. }
      destruct (dump_escape c) as [l|] eqn:E.
      * unfold dump_escape in E. constructor; [done|]. constructor; [|done]. unfold printable. repeat case_match; simplify_eq; lia.
      * constructor; [done|]. destruct (match next with d :: _ => _ | [] => _ end); [by apply zero_pad_printable|done].
    + apply Forall_app. split; [by destruct (_ || _); repeat constructor|]. constructor; [|done]. unfold printable. lia.
Qed.

Lemma dump_strW_printable e1 e2 str : Forall wide str → Forall printable (dump_strW str e1 e2).
Proof.
  induction 1 as [|c str Hc Hw IH]; simpl; [done|]. apply Forall_app. split; [by apply dump_char_printable|done].
Qed.

Lemma dump_strW_length e1 e2 str : Forall wide str → (length str <= length (dump_strW str e1 e2))%nat.
Proof.
  induction 1 as [|c str Hc Hw IH]; simpl; [done|]. rewrite length_app. destruct (dump_char_head e1 e2 c str [] Hc) as (_ & Hne & _).
  destruct (dump_char e1 e2 c str); [done|]. simpl. lia.
Qed.

(** ** Numbers *)

Lemma xdigits_run ds p : Forall (λ d, 0 <= d < 16) ds → isxdigit (char_at p) = false → xdigits ((hex_char <$> ds) ++ p) = (ds, p).
Proof.
  intros Hd Hp. induction Hd as [|d ds Hd _ IH].
  - destruct p as [|c p]; [done|]. simpl in *. by rewrite Hp.
  - change ((hex_char <$> d :: ds) ++ p) with (hex_char d :: ((hex_char <$> ds) ++ p)). cbn [xdigits]. destruct (hex_char_spec d Hd) as (-> & -> & _). by rewrite IH.
Qed.

Lemma no_0x {A} c (l : list Z) (a b : A) : char_at l ≠ 120 → char_at l ≠ 88 →
  match l with x :: d :: _ => if (c =? 48) && ((x =? 120) || (x =? 88)) && isxdigit d then a else b | _ => b end = b.
Proof.
  destruct l as [|x [|d l]]; try done. simpl. intros H1 H2. rewrite (proj2 (Z.eqb_neq x 120)), (proj2 (Z.eqb_neq x 88)) by done.
  by destruct (c =? 48).
Qed.

(** A hexadecimal number, read to its end. *)
Lemma strtoul_run n l p : hexes n l → n <= ULONG_MAX → isxdigit (char_at p) = false → char_at p ≠ 120 → char_at p ≠ 88 → strtoul (l ++ p) = (n, p).
Proof.
  intros (ds & -> & Hne & Hd & Hv) Hn Hp Hx1 Hx2. unfold strtoul. pose proof (xdigits_run ds p Hd Hp) as Hr.
  destruct ds as [|d ds]; [done|]. pose proof Hd as [Hd0 Hds]%Forall_cons. destruct (hex_char_spec d Hd0) as (_ & _ & Hb & Hsp).
  assert (skip_spaces ((hex_char <$> d :: ds) ++ p) = (hex_char <$> d :: ds) ++ p) as -> by (simpl; by rewrite Hsp).
  change ((hex_char <$> d :: ds) ++ p) with (hex_char d :: (hex_char <$> ds) ++ p) in *. cbv zeta. cbn iota.
  rewrite (proj2 (Z.eqb_neq _ 45)), (proj2 (Z.eqb_neq _ 43)) by lia. cbn beta iota zeta.
  rewrite no_0x.
  2,3: destruct ds as [|d' ds']; [done|]; apply Forall_cons in Hds as [Hd' _]; destruct (hex_char_spec d' Hd') as (_ & _ & ? & _);
    change (hex_char d' ≠ 120) || change (hex_char d' ≠ 88); unfold hex_char in *; case_match; lia.
  rewrite Hr. cbn beta iota. rewrite Hv. by rewrite (proj2 (Z.ltb_ge _ _)) by lia.
Qed.

(** ** Bytes in hexadecimal *)

Definition is_byte (b : Z) : Prop := 0 <= b < 256.
Definition hex2 (b : Z) : list Z := zero_pad 2 (fmt_x b).

(** The bytes of one line. *)
Fixpoint hex_line (l : list Z) : list Z :=
  match l with
  | [] => []
  | b :: l => hex2 b ++ match l with [] => [] | _ => COMMA :: hex_line l end
  end.

Lemma hex2_spec b : is_byte b → hexes b (hex2 b) ∧ length (hex2 b) = 2%nat.
Proof.
  intros Hb. unfold is_byte in Hb. split; [apply zero_pad_hexes, fmt_x_hexes; lia|].
  unfold hex2, zero_pad. assert (length (fmt_x b) <= 2)%nat by (unfold fmt_x; rewrite length_fmap; apply digits_length; lia).
  rewrite length_app, length_replicate. lia.
Qed.

Lemma hexes_head n l p : hexes n l → isxdigit (char_at (l ++ p)) = true ∧ skip_spaces (l ++ p) = l ++ p.
Proof.
  intros (ds & -> & Hne & Hd & _). destruct ds as [|d ds]; [done|]. apply Forall_cons in Hd as [Hd _].
  destruct (hex_char_spec d Hd) as (Hx & _ & _ & Hs). split; [exact Hx|]. simpl. by rewrite Hs.
Qed.

(** The lines of the bytes. *)
Lemma dump_bytes_split l : ∀ count, l ≠ [] → ∃ l1 l2, l = l1 ++ l2 ∧ l1 ≠ [] ∧
  dump_bytes l count = hex_line l1 ++ match l2 with [] => [] | _ => [COMMA; BACKSLASH; NEWLINE; 32; 32] ++ dump_bytes l2 2 end.
Proof.
  induction l as [|b l IH]; intros count Hne; [done|]. destruct l as [|b' l].
  - exists [b], []. by rewrite !app_nil_r.
  - change (dump_bytes (b :: b' :: l) count) with (hex2 b ++ COMMA :: (if 76 <? count + 2 + 1
      then [BACKSLASH; NEWLINE; 32; 32] ++ dump_bytes (b' :: l) 2 else dump_bytes (b' :: l) (count + 2 + 1))).
    destruct (76 <? count + 2 + 1).
    + exists [b], (b' :: l). split_and!; try done. change (hex_line [b]) with (hex2 b ++ []). rewrite app_nil_r. done.
    + destruct (IH (count + 2 + 1)) as (l1 & l2 & E & Hl1 & ->); [done|]. exists (b :: l1), l2. rewrite E. split_and!; try done.
      destruct l1 as [|b1 l1]; [done|]. change (hex_line (b :: b1 :: l1)) with (hex2 b ++ COMMA :: hex_line (b1 :: l1)). by rewrite <-app_assoc.
Qed.

Lemma dump_bytes_length l : ∀ count, (length l <= length (dump_bytes l count))%nat.
Proof.
  induction l as [|b l IH]; intros count; [done|]. destruct l as [|b' l].
  - change (dump_bytes [b] count) with (hex2 b ++ []). rewrite app_nil_r. unfold hex2, zero_pad. rewrite length_app, length_replicate. cbn [length]. lia.
  - change (dump_bytes (b :: b' :: l) count) with (hex2 b ++ COMMA :: (if 76 <? count + 2 + 1
      then [BACKSLASH; NEWLINE; 32; 32] ++ dump_bytes (b' :: l) 2 else dump_bytes (b' :: l) (count + 2 + 1))).
    rewrite length_app. pose proof (IH 2). pose proof (IH (count + 2 + 1)). cbn [length] in *. case_match; rewrite ?length_app; cbn [length] in *; lia.
Qed.

Lemma hex_line_printable l : Forall is_byte l → Forall printable (hex_line l).
Proof.
  induction 1 as [|b l Hb Hl IH]; [done|]. destruct (hex2_spec b Hb) as [Hh _]. simpl. apply Forall_app. split; [by eapply hexes_printable|].
  destruct l; [done|]. constructor; [done|exact IH].
Qed.
Lemma hex_line_length l : Forall is_byte l → l ≠ [] → (length (hex_line l) = 3 * length l - 1)%nat.
Proof.
  induction 1 as [|b l Hb Hl IH]; [done|]. intros _. destruct (hex2_spec b Hb) as [_ Hlen]. simpl. rewrite length_app, Hlen.
  destruct l as [|b' l]; [done|]. simpl in *. rewrite IH by done. lia.
Qed.

Definition hex_tail (more : bool) : list Z := if more then [COMMA; BACKSLASH] else [].

Lemma parse_hex_line (more : bool) l : ∀ n cap, Forall is_byte l → l ≠ [] → (length l <= n)%nat → Z.of_nat (length l) <= cap →
  parse_hex n cap (hex_line l ++ hex_tail more) = Some (l, if more then [BACKSLASH] else []).
Proof.
  induction l as [|b l IH]; intros [|n] cap Hb Hne Hn Hcap; try done; [simpl in Hn; lia|]. apply Forall_cons in Hb as [Hb Hl].
  destruct (hex2_spec b Hb) as [Hh Hlen]. unfold is_byte in Hb. cbn [length] in *.
  set (p := match l with [] => hex_tail more | _ => COMMA :: hex_line l ++ hex_tail more end).
  assert (hex_line (b :: l) ++ hex_tail more = hex2 b ++ p) as ->.
  { unfold p. cbn [hex_line]. rewrite <-app_assoc. f_equal. by destruct l. }
  cbn [parse_hex]. destruct (hexes_head b (hex2 b) p Hh) as [-> _]. cbn [negb].
  assert (isxdigit (char_at p) = false ∧ char_at p ≠ 120 ∧ char_at p ≠ 88) as (Hp1 & Hp2 & Hp3) by (unfold p; by destruct l, more).
  rewrite (strtoul_run b (hex2 b) p) by (try done; unfold ULONG_MAX; lia).
  assert (w32 b = b) as -> by (apply w32_small; unfold u32; lia). rewrite length_app, Hlen.
  rewrite (proj2 (Nat.eqb_neq _ _)), (proj2 (Z.ltb_ge 255 b)), (proj2 (Z.leb_gt cap 0)) by lia. cbn [orb].
  destruct l as [|b' l].
  - destruct more; by destruct n.
  - unfold p. change (skip_spaces (COMMA :: ?q)) with (COMMA :: q). cbn iota. rewrite Z.eqb_refl.
    assert (skip_spaces (hex_line (b' :: l) ++ hex_tail more) = hex_line (b' :: l) ++ hex_tail more) as ->.
    { apply Forall_cons in Hl as [Hb' _]. destruct (hex2_spec b' Hb') as [Hh' _]. cbn [hex_line]. rewrite <-app_assoc. by apply (hexes_head b'). }
    rewrite IH; [done|done|done|lia|lia].
Qed.

(** The buffer of [load_value] is large enough for the bytes of a line. *)
Lemma parse_hex_buffer (more : bool) l : Forall is_byte l → l ≠ [] → let p := hex_line l ++ hex_tail more in
  parse_hex (length p) (1 + Z.of_nat (length p) / 2) p = Some (l, if more then [BACKSLASH] else []).
Proof.
  intros Hb Hne p. pose proof (hex_line_length l Hb Hne) as Hl. assert (length l <> 0)%nat by (by destruct l).
  assert (length p = length (hex_line l) + length (hex_tail more))%nat as Hp by apply length_app.
  apply parse_hex_line; try done; [lia|]. pose proof (Z.div_le_mono (2 * (Z.of_nat (length l) - 1)) (Z.of_nat (length p)) 2).
  rewrite (Z.mul_comm 2), Z.div_mul in * by lia. lia.
Qed.

(** ** Loading *)

(** Only the state of the reader differs: the text left is [file]. *)
Definition reads (s : reg) (file : list Z) (s' : reg) : Prop :=
  ∃ i, s' = set_info i s ∧ li_file i = file ∧ 2 <= li_len i.

Lemma reads_trans s1 s2 s3 f1 f2 : reads s1 f1 s2 → reads s2 f2 s3 → reads s1 f2 s3.
Proof. intros (i & -> & _) (j & -> & ? & ?). by exists j. Qed.

(** A state with memory enough whose text left is [file]. *)
Definition reading (s : reg) (file : list Z) : Prop := rg_allocs s = [] ∧ li_file (rg_info s) = file ∧ 2 <= li_len (rg_info s).

Lemma reads_reading s file f s' : reading s file → reads s f s' → reading s' f.
Proof. intros (A & _ & _) (i & -> & B & C). done. Qed.

Lemma get_file_tmp_space_ok size file s (Q : bool → reg → Prop) : reading s file →
  (∀ s', reads s file s' → size <= li_tmplen (rg_info s') → Q true s') → wp (get_file_tmp_space size) Q s.
Proof.
  intros (Hal & Hf & Hlen) HQ. unfold get_file_tmp_space. wp_steps. destruct (Z.leb_spec size (li_tmplen (rg_info s))).
  - apply wp_ret, HQ; [|done]. exists (rg_info s). by destruct s.
  - apply wp_bind, wp_reg_malloc. intros b l Hb. destruct (Hb Hal) as [-> ->]. cbn [negb]. unfold upd_info. apply wp_bind, wp_modify, wp_ret, HQ; [|simpl; lia].
    exists (LoadInfo (li_file (rg_info s)) (li_buffer (rg_info s)) (li_len (rg_info s)) size (li_line (rg_info s))).
    split_and!; try done. unfold set_info, set_rg_allocs. simpl. by rewrite Hal.
Qed.

Lemma read_line_reads line rest s (Q : Z → reg → Prop) : Forall printable line → reading s (line ++ NEWLINE :: rest) →
  (∀ s', reads s rest s' → li_buffer (rg_info s') = line → Q 1 s') → wp read_next_line Q s.
Proof.
  intros Hl (Hal & Hf & Hlen) HQ. apply (read_next_line_ok line rest); try done. intros len Hle. apply HQ; [|done]. by eexists.
Qed.

(** The first line of the bytes, and the text behind it. *)
Lemma load_hex_ok rest n : ∀ l1 l2 data s (Q : list Z + bool → reg → Prop),
  Forall is_byte (l1 ++ l2) → l1 ≠ [] → reading s (match l2 with [] => rest | _ => [32; 32] ++ dump_bytes l2 2 ++ NEWLINE :: rest end) →
  (length l2 <= n)%nat → (∀ s', reads s rest s' → Q (inl (data ++ l1 ++ l2)) s') →
  wp (load_hex n (hex_line l1 ++ hex_tail (match l2 with [] => false | _ => true end)) data) Q s.
Proof.
  induction n as [|n IH]; intros l1 l2 data s Q Hb Hne Hs Hn HQ; apply Forall_app in Hb as [Hb1 Hb2]; cbn [load_hex];
    set (more := match l2 with [] => false | _ => true end);
    (apply wp_bind; eapply get_file_tmp_space_ok; [exact Hs|]; intros s1 Hr1 _; cbn [negb]);
    rewrite (parse_hex_buffer more) by done.
  - destruct l2; [|simpl in Hn; lia]. simpl. apply wp_ret. specialize (HQ s1). rewrite app_nil_r in HQ. apply HQ. exact Hr1.
  - destruct l2 as [|b l2]; [simpl; apply wp_ret; specialize (HQ s1); rewrite app_nil_r in HQ; by apply HQ|]. subst more. cbn iota.
    change (skip_spaces [BACKSLASH]) with [BACKSLASH]. cbn iota. rewrite Z.eqb_refl. cbn [negb]. apply wp_bind.
    destruct (dump_bytes_split (b :: l2) 2 ltac:(done)) as (l1' & l2' & E & Hne' & Ed). rewrite E in Hb2.
    apply Forall_app in Hb2 as [Hb1' Hb2']. pose proof (reads_reading _ _ _ _ Hs Hr1) as Hs1. cbn iota in Hs1. rewrite Ed in Hs1. set (more' := match l2' with [] => false | _ => true end).
    apply (read_line_reads ([32; 32] ++ hex_line l1' ++ hex_tail more') (match l2' with [] => rest | _ => [32; 32] ++ dump_bytes l2' 2 ++ NEWLINE :: rest end)).
    + rewrite !Forall_app. split_and!; [by repeat constructor|by apply hex_line_printable|]. unfold more'. destruct l2'; by repeat constructor.
    + assert (([32; 32] ++ hex_line l1' ++ hex_tail more') ++ NEWLINE :: match l2' with [] => rest | _ => [32; 32] ++ dump_bytes l2' 2 ++ NEWLINE :: rest end
        = [32; 32] ++ (hex_line l1' ++ match l2' with [] => [] | _ => [COMMA; BACKSLASH; NEWLINE; 32; 32] ++ dump_bytes l2' 2 end) ++ NEWLINE :: rest) as ->; [|done].
      unfold more'. destruct l2'; rewrite <-?app_assoc; done.
    + intros s2 Hr2 Hbuf. rewrite Z.eqb_refl. cbn [negb]. wp_steps. rewrite Hbuf.
      assert (skip_spaces ([32; 32] ++ hex_line l1' ++ hex_tail more') = hex_line l1' ++ hex_tail more') as ->.
      { change (skip_spaces ([32; 32] ++ ?q)) with (skip_spaces q). destruct l1' as [|c l1']; [done|]. apply Forall_cons in Hb1' as [Hc _].
        destruct (hex2_spec c Hc) as [Hh _]. cbn [hex_line]. rewrite <-app_assoc. by apply (hexes_head c). }
      apply IH; try done.
      * by apply Forall_app.
      * by eapply reads_reading.
      * apply (f_equal length) in E. rewrite length_app in E. destruct l1'; [done|]. simpl in *. lia.
      * intros s3 Hr3. rewrite <-app_assoc, <-E. apply HQ. eapply reads_trans; [exact Hr1|]. by eapply reads_trans.
Qed.

(** ** Strings as data *)

Lemma wchars_app n : ∀ l1 l2, length l1 = (2 * n)%nat → wchars (l1 ++ l2) = wchars l1 ++ wchars l2.
Proof.
  induction n as [|n IH]; intros l1 l2 Hl; destruct l1 as [|a [|b l1]]; simpl in Hl; try lia; [done|]. simpl. f_equal. apply IH. lia.
Qed.
Lemma wbytes_app l1 l2 : wbytes (l1 ++ l2) = wbytes l1 ++ wbytes l2.
Proof. induction l1 as [|c l1 IH]; simpl; [done|]. by rewrite IH. Qed.

Lemma wbytes_wchars n : ∀ l, length l = (2 * n)%nat → Forall is_byte l → wbytes (wchars l) = l ∧ Forall wide (wchars l).
Proof.
  induction n as [|n IH]; intros l Hl Hb; destruct l as [|a [|b l]]; simpl in Hl; try lia; [done|].
  apply Forall_cons in Hb as [Ha [Hb Hl']%Forall_cons]. destruct (IH l ltac:(lia) Hl') as [E W]. unfold is_byte in *. cbn [wchars wbytes]. split.
  - rewrite E. replace (a + 256 * b) with (a + b * 256) by lia. rewrite Z.mod_add, Z.mod_small, Z.div_add, Z.div_small by lia. done.
  - constructor; [unfold wide; lia|done].
Qed.

(** The string of a value that is written as one. *)
Lemma string_data v : Forall is_byte (v_data v) → is_string v = true →
  let str := wchars (take (length (v_data v) - 2) (v_data v)) in Forall wide str ∧ wbytes (str ++ [0]) = v_data v.
Proof.
  intros Hb Hs str. unfold is_string in Hs. rewrite !andb_true_iff, negb_true_iff, Z.ltb_ge, !Z.eqb_eq in Hs. destruct Hs as [[[_ Hlen] Hmod] Hlast].
  set (d := v_data v) in *. pose proof (Z.div_mod (Z.of_nat (length d)) 2 ltac:(lia)) as Hdm. rewrite Hmod in Hdm.
  set (n := Z.to_nat (Z.of_nat (length d) / 2)). assert (length d = 2 * n)%nat as Hn by lia.
  assert (length (take (length d - 2) d) = 2 * (n - 1))%nat as Hft by (rewrite length_take; lia).
  assert (drop (length d - 2) d = [0; 0]) as Hdr.
  { assert (length (drop (length d - 2) d) = 2%nat) as Hl by (rewrite length_drop; lia). assert (Forall is_byte (drop (length d - 2) d)) as Hb2 by by apply Forall_drop.
    rewrite <-(take_drop (length d - 2) d), (wchars_app (n - 1)) in Hlast by done.
    destruct (drop (length d - 2) d) as [|a [|b [|c l]]]; simpl in Hl; try lia. change (wchars [a; b]) with [a + 256 * b] in Hlast. rewrite last_snoc in Hlast. simpl in Hlast.
    apply Forall_cons in Hb2 as [Ha [Hb' _]%Forall_cons]. unfold is_byte in *. f_equal; [lia|]. f_equal; lia. }
  destruct (wbytes_wchars (n - 1) (take (length d - 2) d) Hft) as [E W]; [by apply Forall_take|]. split; [exact W|].
  unfold str. rewrite wbytes_app, E. change (wbytes [0]) with [0; 0]. by rewrite <-Hdr, take_drop.
Qed.

Lemma dword_roundtrip l : Forall is_byte l → length l = 4%nat → dword_bytes (w32 (dword l)) = l ∧ 0 <= dword l < 4294967296.
Proof.
  intros Hb Hl. destruct l as [|a [|b [|c [|d [|e l]]]]]; simpl in Hl; try lia.
  apply Forall_cons in Hb as [Ha [Hb [Hc [Hd _]%Forall_cons]%Forall_cons]%Forall_cons]. unfold is_byte in *. unfold dword.
  split; [|lia]. rewrite w32_small by (unfold u32; lia). unfold dword_bytes. repeat f_equal.
  - replace (a + 256 * b + 65536 * c + 16777216 * d) with (a + (b + 256 * c + 65536 * d) * 256) by lia. rewrite Z.mod_add, Z.mod_small by lia. done.
  - replace (a + 256 * b + 65536 * c + 16777216 * d) with (a + (b + (c + 256 * d) * 256) * 256) by lia. rewrite Z.div_add, Z.div_small by lia.
    rewrite Z.add_0_l, Z.mod_add, Z.mod_small by lia. done.
  - replace (a + 256 * b + 65536 * c + 16777216 * d) with ((a + 256 * b) + (c + d * 256) * 65536) by lia. rewrite Z.div_add, Z.div_small by lia.
    rewrite Z.add_0_l, Z.mod_add, Z.mod_small by lia. done.
  - replace (a + 256 * b + 65536 * c + 16777216 * d) with ((a + 256 * b + 65536 * c) + d * 16777216) by lia. rewrite Z.div_add, Z.div_small by lia.
    rewrite Z.add_0_l, Z.mod_small by lia. done.
Qed.

(** ** Values *)

Record value_wf (v : key_value) : Prop := {
  vw_name : Forall wide (v_name v);
  vw_length : Z.of_nat (length (v_name v)) <= MAX_VALUE_LEN;
  vw_type : u32 (v_type v);
  vw_data : Forall is_byte (v_data v);
}.

Lemma escapable_quote : escapable QUOTE.
Proof. by split_and!. Qed.

(** The text of a value behind its name: the first line, and the rest of the file. *)
Definition value_text (v : key_value) : list Z := drop (length (dump_name v)) (dump_value v).

Lemma dump_value_split v : dump_value v = dump_name v ++ value_text v.
Proof. unfold value_text, dump_value. by rewrite drop_app_length. Qed.

Lemma dump_name_printable v : value_wf v → Forall printable (dump_name v).
Proof.
  intros [Hn _ _ _]. unfold dump_name. destruct (v_name v) as [|c name] eqn:E; [by repeat constructor|]. rewrite !Forall_app.
  split_and!; [by repeat constructor|by apply dump_strW_printable|by repeat constructor].
Qed.

(** What [load_value] reads of a text behind the name: the tag of the type, then the data. *)
Definition loads (v : key_value) (line : list Z) (file rest : list Z) : Prop :=
  Forall printable line ∧ skip_spaces line = line ∧ ∃ res pt, get_data_type data_types line = Some (res, v_type v, pt) ∧
  ∀ s, reading s file → wp (load_data pt (drop (Z.to_nat res) line)) (λ r s', r = inl (v_data v) ∧ reads s rest s') s.

(** The temporary buffer has room for a quoted string and its NUL. *)
Lemma tmp_room str tmplen : Forall wide str → 2 * Z.of_nat (length (dump_strW str QUOTE QUOTE ++ [QUOTE])) <= tmplen → Z.of_nat (length str) < tmplen / 2.
Proof.
  intros Hw Htmp. pose proof (dump_strW_length QUOTE QUOTE _ Hw). rewrite length_app in Htmp. simpl in Htmp.
  apply Z.lt_le_trans with (2 * (Z.of_nat (length (dump_strW str QUOTE QUOTE)) + 1) / 2); [|apply Z.div_le_mono; lia].
  rewrite Z.mul_comm, Z.div_mul by lia. lia.
Qed.

Lemma load_string_ok str data file s : Forall wide str → wbytes (str ++ [0]) = data → reading s file →
  wp (load_data REG_SZ (dump_strW str QUOTE QUOTE ++ [QUOTE])) (λ r s', r = inl data ∧ reads s file s') s.
Proof.
  intros Hw <- Hs. unfold load_data. change (REG_SZ =? REG_SZ) with true. cbn iota. apply wp_bind.
  eapply get_file_tmp_space_ok; [exact Hs|]. intros s1 Hr Htmp. cbn [negb]. unfold tmp_units. wp_steps. apply wp_ret, wp_ret.
  rewrite parse_dump_strW; try done; [by left|by apply tmp_room].
Qed.

(** The three tags of strings. *)
Lemma string_loads v rest : value_wf v → is_string v = true →
  ∃ line, value_text v = line ++ [NEWLINE] ∧ loads v line rest rest.
Proof.
  intros [_ _ _ Hb] Hs. destruct (string_data v Hb Hs) as [Hw Hd]. set (str := wchars _) in *.
  assert (v_type v = REG_SZ ∨ v_type v = REG_EXPAND_SZ ∨ v_type v = REG_MULTI_SZ) as Ht.
  { unfold is_string in Hs. rewrite !andb_true_iff, !orb_true_iff, !Z.eqb_eq in Hs. tauto. }
  set (tag := (if v_type v =? REG_SZ then [] else STR ++ fmt_x (v_type v) ++ CLOSE) ++ [QUOTE]).
  exists (tag ++ dump_strW str QUOTE QUOTE ++ [QUOTE]). split.
  { unfold value_text, dump_value. rewrite Hs, drop_app_length. fold str. unfold tag. by rewrite <-!app_assoc. }
  assert (Forall printable tag) as Hpt by (unfold tag; destruct Ht as [->|[->| ->]]; vm_compute; repeat constructor; done). split.
  { rewrite !Forall_app. split_and!; [done|by apply dump_strW_printable|by repeat constructor]. }
  assert (Hres : get_data_type data_types (tag ++ dump_strW str QUOTE QUOTE ++ [QUOTE]) = Some (Z.of_nat (length tag), v_type v, REG_SZ)
    ∧ skip_spaces (tag ++ dump_strW str QUOTE QUOTE ++ [QUOTE]) = tag ++ dump_strW str QUOTE QUOTE ++ [QUOTE]).
  { unfold tag. generalize (dump_strW str QUOTE QUOTE ++ [QUOTE]). intros l. destruct Ht as [->|[->| ->]]; done. }
  destruct Hres as [Hres Hsk]. split; [exact Hsk|]. exists (Z.of_nat (length tag)), REG_SZ. split; [exact Hres|]. intros s Hr.
  rewrite Nat2Z.id, drop_app_length. by apply load_string_ok.
Qed.

Lemma dword_loads v rest : value_wf v → is_string v = false → v_type v = REG_DWORD → length (v_data v) = 4%nat →
  ∃ line, value_text v = line ++ [NEWLINE] ∧ loads v line rest rest.
Proof.
  intros [_ _ _ Hb] Hs Ht Hl. destruct (dword_roundtrip _ Hb Hl) as [Hd Hr].
  assert (hexes (dword (v_data v)) (zero_pad 8 (fmt_x (dword (v_data v))))) as Hh by (apply zero_pad_hexes, fmt_x_hexes; lia).
  exists (DWORD ++ zero_pad 8 (fmt_x (dword (v_data v)))). split.
  { unfold value_text, dump_value. rewrite Hs, drop_app_length, Ht, Hl. cbn [Z.eqb]. by rewrite <-app_assoc. }
  split; [apply Forall_app; split; [by repeat constructor|by eapply hexes_printable]|]. split; [done|]. exists 6, REG_DWORD. rewrite Ht. split; [done|].
  intros s Hrd. change (drop (Z.to_nat 6) (DWORD ++ ?l)) with l. unfold load_data. cbn [Z.eqb]. apply wp_ret.
  rewrite <-(app_nil_r (zero_pad _ _)), (strtoul_run _ _ [] Hh) by (try done; unfold ULONG_MAX; lia). cbn [fst]. rewrite Hd. split; [done|].
  destruct Hrd as (_ & ? & ?). exists (rg_info s). by destruct s.
Qed.

(** The tag of binary data. *)
Definition hex_tag (type : Z) : list Z := if type =? REG_BINARY then HEX else HEXTYPE ++ fmt_x type ++ CLOSE.

Lemma hex_tag_ok type l : u32 type → Forall printable (hex_tag type) ∧ skip_spaces (hex_tag type ++ l) = hex_tag type ++ l ∧
  get_data_type data_types (hex_tag type ++ l) = Some (Z.of_nat (length (hex_tag type)), type, REG_BINARY).
Proof.
  intros Ht. unfold u32 in Ht. unfold hex_tag. destruct (Z.eqb_spec type REG_BINARY) as [->|Hne]; [split_and!; try done; by repeat constructor|].
  assert (hexes type (fmt_x type)) as Hh by (apply fmt_x_hexes; lia). split_and!; [|done|].
  - rewrite !Forall_app. split_and!; [by repeat constructor|by eapply hexes_printable|by repeat constructor].
  - rewrite <-!app_assoc. change (get_data_type data_types (HEXTYPE ++ ?q)) with
      (let '(v, e) := strtoul q in
       if negb (starts_with CLOSE e) then None else Some (Z.of_nat (length (HEXTYPE ++ q) - length e) + 2, w32 v, REG_BINARY)).
    rewrite (strtoul_run type _ (CLOSE ++ l) Hh) by (try done; unfold ULONG_MAX; lia). cbn beta iota. change (starts_with CLOSE (CLOSE ++ l)) with true.
    cbn [negb]. rewrite w32_small by (unfold u32; lia). do 3 f_equal. rewrite !length_app. simpl. lia.
Qed.

Lemma hex_loads v rest : value_wf v → is_string v = false → (v_type v =? REG_DWORD) && (Z.of_nat (length (v_data v)) =? 4) = false →
  ∃ line more, value_text v ++ rest = line ++ NEWLINE :: more ∧ loads v line more rest.
Proof.
  intros [_ _ Ht Hb] Hs Hdw. set (count := Z.of_nat (length (dump_name v)) + Z.of_nat (length (hex_tag (v_type v)))).
  assert (Hbin : ∀ buffer, load_data REG_BINARY buffer = (s <- get; load_hex (length (li_file (rg_info s))) buffer [])) by done.
  assert (value_text v = hex_tag (v_type v) ++ dump_bytes (v_data v) count ++ [NEWLINE]) as ->.
  { unfold value_text, dump_value. by rewrite Hs, Hdw, drop_app_length. }
  destruct (decide (v_data v = [])) as [E|Hne].
  - exists (hex_tag (v_type v) ++ []), rest. destruct (hex_tag_ok _ [] Ht) as (Hp & Hsk & Hg). rewrite E, <-!app_assoc. split; [done|].
    split_and!; [by rewrite app_nil_r|done|]. eexists _, _. split; [exact Hg|]. intros s Hr. rewrite Nat2Z.id, drop_app_length, Hbin. wp_steps.
    assert (∀ n, load_hex n [] [] = (ok <- get_file_tmp_space 1; if negb ok then ret (inr true) else ret (inl []))) as -> by by intros [|n].
    apply wp_bind. eapply get_file_tmp_space_ok; [exact Hr|]. intros s1 Hr1 _. cbn [negb]. apply wp_ret. by rewrite E.
  - destruct (dump_bytes_split (v_data v) count Hne) as (l1 & l2 & E & Hne1 & Ed). set (more := match l2 with [] => false | _ => true end).
    exists (hex_tag (v_type v) ++ hex_line l1 ++ hex_tail more), (match l2 with [] => rest | _ => [32; 32] ++ dump_bytes l2 2 ++ NEWLINE :: rest end).
    destruct (hex_tag_ok _ (hex_line l1 ++ hex_tail more) Ht) as (Hp & Hsk & Hg). pose proof Hb as Hb'. rewrite E in Hb'. apply Forall_app in Hb' as [Hb1 Hb2]. split.
    { rewrite Ed. unfold more. destruct l2; rewrite <-?app_assoc; done. }
    split_and!; [|done|].
    { rewrite !Forall_app. split_and!; [done|by apply hex_line_printable|]. unfold more. destruct l2; by repeat constructor. }
    eexists _, _. split; [exact Hg|]. intros s Hr. rewrite Nat2Z.id, drop_app_length, Hbin. wp_steps. unfold more.
    apply (load_hex_ok rest); [by rewrite <-E|done|exact Hr| |].
    + destruct Hr as (_ & -> & _). destruct l2 as [|b l2]; [simpl; lia|]. rewrite !length_app. pose proof (dump_bytes_length (b :: l2) 2). lia.
    + intros s' Hr'. split; [|done]. by rewrite E.
Qed.

Lemma value_loads v rest : value_wf v → ∃ line more, value_text v ++ rest = line ++ NEWLINE :: more ∧ loads v line more rest.
Proof.
  intros Hv. assert (Hone : (∃ line, value_text v = line ++ [NEWLINE] ∧ loads v line rest rest) →
    ∃ line more, value_text v ++ rest = line ++ NEWLINE :: more ∧ loads v line more rest).
  { intros (line & -> & Hl). exists line, rest. by rewrite <-app_assoc. }
  destruct (is_string v) eqn:Es; [by apply Hone, string_loads|].
  destruct ((v_type v =? REG_DWORD) && (Z.of_nat (length (v_data v)) =? 4)) eqn:Ed; [|by apply hex_loads].
  apply andb_true_iff in Ed as [Et%Z.eqb_eq El%Z.eqb_eq]. apply Hone, dword_loads; try done. lia.
Qed.

Section load.
Context (to_lower : Z → Z).
Notation fold name := (to_lower <$> name).

(** Reading the name: the value is found or entered. *)
Lemma parse_value_name_ok k ob v line file s : key_ok to_lower k ob s → value_wf v → reading s file → skip_spaces line = line →
  wp (parse_value_name to_lower k (dump_name v ++ line)) (λ r s', ∃ i vs w, r = Some (i, line) ∧
    ∃ s1, reads s file s1 ∧ rg_allocs s' = [] ∧ rg_info s' = rg_info s1 ∧ revalues to_lower k ob vs s s' ∧ 0 <= i ∧ vs !! Z.to_nat i = Some w ∧
    ∀ type data n ob', values ob' = <[Z.to_nat i:=KeyValue (v_name w) type data]> vs →
      value_at to_lower ob' n = if same_name to_lower (v_name v) n then Some (type, data) else value_at to_lower ob n) s.
Proof.
  intros Hko [Hnm Hlen _ _] Hs Hline. unfold parse_value_name. apply wp_bind. eapply get_file_tmp_space_ok; [exact Hs|].
  intros s1 Hr1 Htmp. cbn [negb]. unfold tmp_units. wp_steps. apply wp_ret.
  assert ((if char_at (dump_name v ++ line) =? 64 then Some ([], 1) else
     match parse_strW (li_tmplen (rg_info s1) / 2) (tail (dump_name v ++ line)) QUOTE with
     | Some (str, r) => Some (take (length str - 1) str, r + 1) | None => None end) = Some (v_name v, Z.of_nat (length (dump_name v)) - 1)) as ->.
  { unfold dump_name. destruct (v_name v) as [|c name] eqn:E; [done|]. rewrite <-E in *.
    change (([QUOTE] ++ dump_strW (v_name v) QUOTE QUOTE ++ [QUOTE; 61]) ++ line) with (QUOTE :: (dump_strW (v_name v) QUOTE QUOTE ++ [QUOTE; 61]) ++ line).
    cbn [char_at hd tail]. change (QUOTE =? 64) with false. cbn iota. rewrite <-app_assoc. simpl ([QUOTE; 61] ++ line).
    rewrite parse_dump_strW; try done; [|by left|].
    - rewrite length_app. simpl. rewrite take_app_le, take_ge by lia. do 2 f_equal. rewrite length_app. simpl. lia.
    - pose proof (dump_strW_length QUOTE QUOTE _ Hnm). unfold dump_name in Htmp. rewrite E in Htmp. rewrite <-E in Htmp. rewrite !length_app in Htmp. simpl in Htmp.
      apply Z.lt_le_trans with (2 * (Z.of_nat (length (dump_strW (v_name v) QUOTE QUOTE)) + 1) / 2).
      + rewrite Z.mul_comm, Z.div_mul by lia. lia.
      + apply Z.div_le_mono; lia. }
  assert (skip_spaces (drop (Z.to_nat (Z.of_nat (length (dump_name v)) - 1)) (dump_name v ++ line)) = 61 :: line) as ->.
  { assert (∃ l, dump_name v = l ++ [61]) as [l ->].
    { unfold dump_name. destruct (v_name v) as [|c name]; [by exists [64]|]. exists ([QUOTE] ++ dump_strW (c :: name) QUOTE QUOTE ++ [QUOTE]). by rewrite <-!app_assoc. }
    rewrite length_app. simpl. replace (Z.to_nat _) with (length l) by lia. rewrite <-app_assoc, drop_app_length. done. }
  cbn [char_at hd tail]. change (61 =? 61) with true. cbn [negb]. rewrite Hline.
  assert (keys s1 = keys s ∧ rg_allocs s1 = [] ) as [Hk1 Ha1] by (destruct Hr1 as (i & -> & _); split; [done|apply Hs]).
  apply wp_bind, (wp_get_key _ ob); [rewrite Hk1; apply Hko|]. apply wp_bind, find_value_ok; [apply Hko|by apply fits_value|].
  intros found i Hp. destruct (placed_value to_lower _ _ _ _ Hp) as [Hi Hf]. cbn [fst snd]. apply wp_bind. destruct found.
  - destruct Hf as (w & Hw & Ew & _). apply wp_ret, wp_ret. exists i, (values ob), w. split; [done|]. exists s1. split_and!; try done; [|lia|].
    + exists ob. rewrite Hk1, insert_id by apply Hko. split_and!; try done; [apply revalued_refl|apply Hko].
    + intros type data n ob' Ev. eapply value_at_update; try done. apply Hko.
  - eapply wp_mono; [apply (insert_value_ok to_lower k ob (v_name v) i s1); [rewrite Hk1; apply Hko|apply Hko|done]|].
    intros [i'|] s2 [He2 H2]; [|destruct H2 as (_ & _ & H2); specialize (H2 Ha1); lia].
    destruct H2 as (-> & _ & _ & Ha2 & type0 & ob2 & Hk2 & Hrv2). apply wp_ret.
    exists i, (inserted i (KeyValue (v_name v) type0 []) (values ob)), (KeyValue (v_name v) type0 []). split; [done|]. exists s1.
    split_and!; try done; [by apply Ha2|apply He2| |lia|by apply inserted_at|].
    + exists ob2. by rewrite Hk2, Hk1.
    + intros type data n ob' Ev. eapply value_at_insert; try done. apply Hko.
Qed.
(** A value of the text is loaded: its name has its type and its data, and no other name changes. *)
Definition value_loaded (k : kid) (ob : key) (v : key_value) (rest : list Z) (s s' : reg) : Prop :=
  reading s' rest ∧ ∃ ob', changed to_lower k ob ob' s s' ∧
    ∀ n, value_at to_lower ob' n = if same_name to_lower (v_name v) n then Some (v_type v, v_data v) else value_at to_lower ob n.

Lemma load_value_ok k ob v line file rest s : key_ok to_lower k ob s → value_wf v → loads v line file rest → reading s file →
  wp (load_value to_lower k (dump_name v ++ line)) (λ r s', r = true ∧ value_loaded k ob v rest s s') s.
Proof.
  intros Hko Hv (_ & Hsk & res & pt & Hty & Hload) Hs. unfold load_value. apply wp_bind.
  eapply wp_mono; [by apply (parse_value_name_ok k ob v line file s)|]. intros ? s1 (i & vs & w & -> & s0 & Hr0 & Ha1 & Ei1 & Hrv & Hi & Hw & Hat).
  cbn beta iota. rewrite Hty. cbn beta iota. assert (reading s1 file) as Hs1.
  { destruct (reads_reading _ _ _ _ Hs Hr0) as (_ & Hf & Hlen). split_and!; [done|by rewrite Ei1..]. }
  apply wp_bind. eapply wp_mono; [by apply Hload|]. intros ? s2 [-> Hr2]. cbn iota. pose proof (reads_reading _ _ _ _ Hs1 Hr2) as Hs2.
  assert (keys s2 = keys s1) as Ek2 by (destruct Hr2 as (? & -> & _); done).
  apply wp_bind. eapply (wp_mono _ (λ b s3, b = true ∧ keys s3 = keys s2 ∧ reading s3 rest)).
  { destruct (v_data v); [by apply wp_ret|]. apply wp_reg_mem_alloc. intros b s3 (Ek3 & (_ & _ & _ & Ei3) & _ & Hal). destruct Hs2 as (Ha2 & Hf2 & Hl2).
    destruct (Hal Ha2) as [-> Ha3]. split_and!; try done. split_and!; [done|by rewrite Ei3..]. }
  intros b s3 (-> & Ek3 & Hs3). cbn [negb]. apply wp_bind. destruct Hrv as (ob1 & Hk1 & Hrv1 & Hv1 & Ev1).
  eapply wp_mono; [apply (store_value_ok to_lower k ob1 i w (v_type v) (v_data v) s3); [by rewrite Ek3, Ek2, Hk1, lookup_insert_eq|done|done|by rewrite Ev1]|].
  intros [] s4 ((_ & _ & Ea4 & _ & Ei4) & _ & ob2 & Hk2 & Hrv2 & Hv2 & Ev2). apply wp_ret. split; [done|]. split.
  { destruct Hs3 as (? & ? & ?). split_and!; [by rewrite Ea4|by rewrite Ei4..]. }
  destruct (changed_revalues to_lower k ob (values ob2) s s4 Hko) as (ob3 & Hch & Ev3).
  { exists ob2. rewrite Hk2, Ek3, Ek2, Hk1, insert_insert_eq. split_and!; try done. by eapply revalued_trans. }
  exists ob3. split; [done|]. intros n. apply Hat. by rewrite Ev3, Ev2, Ev1.
Qed.

(** The line is read, then the value. *)
Lemma read_value_ok k ob v rest s : key_ok to_lower k ob s → value_wf v → reading s (dump_value v ++ rest) →
  wp (r <- read_next_line; i <- get; ok <- load_value to_lower k (li_buffer (rg_info i)); ret (r, ok))
     (λ r s', r = (1, true) ∧ value_loaded k ob v rest s s') s.
Proof.
  intros Hko Hv Hs. destruct (value_loads v rest Hv) as (line & more & Et & Hl). rewrite dump_value_split, <-app_assoc, Et, app_assoc in Hs.
  apply wp_bind. eapply read_line_reads; [|exact Hs|].
  { apply Forall_app. split; [by apply dump_name_printable|apply Hl]. }
  intros s1 Hr1 Hbuf. wp_steps. rewrite Hbuf. pose proof (reads_reading _ _ _ _ Hs Hr1) as Hs1.
  assert (keys s1 = keys s) as Ek by (destruct Hr1 as (? & -> & _); done).
  eapply wp_mono; [apply (load_value_ok k ob v line more rest s1); try done; destruct Hko; split; by rewrite ?Ek|].
  intros ? s2 [-> (Hr2 & ob' & Hch & Hat)]. apply wp_ret. split; [done|]. split; [done|]. exists ob'. split; [|done].
  destruct Hch as (? & ? & ? & ? & Ho). split_and!; try done. intros j Hj. specialize (Ho j Hj). by rewrite Ek in Ho.
Qed.
End load.
