(* ===== verification/RegSaveThms.v ===== *)
(** * Loading the sections of a registry file

    A file is read as a list of sections, each with the path of a key and the values
    to set in it; what [load_keys] leaves is given key by key.

    ** Saving a tree of keys and loading it again

    The text of [save_all_subkeys] is a list of sections, and loading it gives every
    key of the tree back. *)

From stdpp Require Import base list gmap fin_maps.
From S2P Require Import Prelude RegText RegTextThms Registry RegFile RegLoad RegistryInv RegistryThms RegistryKeys RegistryCreate.
From S2P Require Import RegistryRename RegistryMachine RegPathThms RegFileThms.

Open Scope Z_scope.
Open Scope server_scope.

(** ** Sections *)

Record section := Section_ {
  se_path : list (list Z);
  se_modif : Z;
  se_values : list key_value;
}.

Definition sec_key (sec : section) : list Z :=
  dump_strW (join (se_path sec)) 91 93 ++ [93; 32] ++ fmt_u (w32 (Z.quot (se_modif sec - ticks_1601_to_1970) TICKS_PER_SEC)).
Definition sec_time (sec : section) : list Z :=
  TIME ++ fmt_x (w32 (Z.shiftr (se_modif sec) 32)) ++ zero_pad 8 (fmt_x (w32 (se_modif sec))).
Definition sec_text (sec : section) : list Z :=
  [NEWLINE; 91] ++ sec_key sec ++ [NEWLINE] ++ sec_time sec ++ [NEWLINE] ++ concat (dump_value <$> se_values sec).

#[global] Arguments sec_key : simpl never.
#[global] Arguments sec_time : simpl never.

Record section_wf (sec : section) : Prop := {
  sw_path : Forall element_ok (se_path sec);
  sw_wide : Forall (Forall wide) (se_path sec);
  sw_head : char_at (join (se_path sec)) = 0 → se_path sec = [];
  sw_values : Forall value_wf (se_values sec);
}.

(** ** The registry during the load *)

(** No symbolic links and no volatile keys. *)
Definition plain (m : gmap kid key) : Prop :=
  ∀ k ob, m !! k = Some ob → has (k_flags ob) KEY_SYMLINK = false ∧ has (k_flags ob) KEY_VOLATILE = false.

Lemma plain_flags f f' : f' = f ∨ f' = Z.lor f KEY_DIRTY → has f' KEY_SYMLINK = has f KEY_SYMLINK ∧ has f' KEY_VOLATILE = has f KEY_VOLATILE.
Proof.
  intros [->| ->]; [done|]. unfold has. rewrite !Z.land_lor_distr_l. change (Z.land KEY_DIRTY KEY_SYMLINK) with 0. change (Z.land KEY_DIRTY KEY_VOLATILE) with 0.
  by rewrite !Z.lor_0_r.
Qed.

Section sections.
Context (to_lower : Z → Z) (follow : list Z → R (option (kid * option (list Z)))).
Notation reg_inv := (reg_inv to_lower).
Notation child := (child to_lower).
Notation walk := (walk to_lower).

(** The value of a name in a key. *)
Definition val (m : gmap kid key) (j : kid) (n : list Z) : option (Z * list Z) := m !! j ≫= λ ob, value_at to_lower ob n.

(** The values of a section, set in their order. *)
Definition over (vs : list key_value) (n : list Z) (d : option (Z * list Z)) : option (Z * list Z) :=
  foldl (λ d v, if same_name to_lower (v_name v) n then Some (v_type v, v_data v) else d) d vs.

Definition children_kept (m m' : gmap kid key) : Prop := ∀ q n c, child m q n = Some c → child m' q n = Some c.

(** A registry whose keys are found as before, with the values given by [f]. *)
Record moved (f : kid → list Z → option (Z * list Z) → option (Z * list Z)) (s s' : reg) : Prop := {
  mv_inv : reg_inv s';
  mv_plain : plain (keys s');
  mv_child : children_kept (keys s) (keys s');
  mv_live : ∀ j, live s j → live s' j;
  mv_val : ∀ j n, val (keys s') j n = f j n (val (keys s) j n);
}.
Definition same_values : kid → list Z → option (Z * list Z) → option (Z * list Z) := λ _ _ d, d.

Lemma moved_trans f g h s s1 s2 : moved f s s1 → moved g s1 s2 → (∀ j n d, g j n (f j n d) = h j n d) → moved h s s2.
Proof.
  intros [A1 A2 A3 A4 A5] [B1 B2 B3 B4 B5] E. split; [done|done|intros q n c Hc; auto|auto|]. intros j n. by rewrite B5, A5, E.
Qed.
Lemma moved_refl s s' : reg_inv s → plain (keys s) → keys s' = keys s → moved same_values s s'.
Proof.
  intros Hi Hp E. split; [unfold RegistryMachine.reg_inv; by rewrite E|by rewrite E|intros q n c; by rewrite E| |by rewrite E].
  intros j (ob & ? & ?). exists ob. by rewrite E.
Qed.

Lemma values_val (m m' : gmap kid key) : (∀ j, option_Forall2 (λ ob ob', values ob' = values ob) (m !! j) (m' !! j)) → ∀ j n, val m' j n = val m j n.
Proof. intros H j n. unfold val. destruct (H j) as [? ? E|]; [|done]. simpl. unfold value_at. by rewrite E. Qed.

Lemma similar_moved s s' : reg_inv s → plain (keys s) → similar_keys (keys s) (keys s') → moved same_values s s'.
Proof.
  intros [Hok Hset] Hp Hs. split.
  - split; [by eapply similar_reg_ok|by eapply similar_settled].
  - intros k ob' Hk. destruct (similar_r _ _ _ _ Hs Hk) as (ob & Hob & Hsi). destruct (plain_flags _ _ (si_flags _ _ Hsi)) as [-> ->]. by apply (Hp k).
  - intros q n c. by rewrite (similar_child to_lower (keys s) (keys s')).
  - intros j (ob & Hj & Hd). destruct (similar_l _ _ _ _ Hs Hj) as (ob' & Hj' & Hsi). exists ob'. split; [done|]. by rewrite (has_deleted _ _ (si_flags _ _ Hsi)).
  - apply values_val. intros j. destruct (Hs j) as [ob ob' [_ _ _ _ (E1 & _ & E2) _]|]; constructor. unfold values. by rewrite E1, E2.
Qed.

Lemma extends_moved modif s s' : plain (keys s) → path_outcome to_lower modif s s' → moved same_values s s'.
Proof.
  intros Hp (_ & Hi & Hx). split; [done| |exact (ex_child _ _ _ _ Hx)|intros j; by eapply extends_live|].
  - intros k ob' Hk. destruct (keys s !! k) as [ob|] eqn:E; [|by rewrite (mk_flags _ _ (ex_made _ _ _ _ Hx k ob' Hk E))].
    destruct (ex_kept _ _ _ _ Hx k ob E) as (ob1 & ? & Hkk). simplify_eq. rewrite (kk_flags _ _ Hkk). by apply (Hp k).
  - intros j n. unfold val, same_values. destruct (keys s !! j) as [ob|] eqn:E.
    + destruct (ex_kept _ _ _ _ Hx j ob E) as (ob1 & -> & Hkk). simpl. unfold value_at. by rewrite (kk_values _ _ Hkk).
    + destruct (keys s' !! j) as [ob'|] eqn:E'; [|done]. simpl. unfold value_at. by rewrite (mk_values _ _ (ex_made _ _ _ _ Hx j ob' E' E)).
Qed.

Lemma changed_moved k ob ob' v s s' : reg_inv s → plain (keys s) → key_ok to_lower k ob s → changed to_lower k ob ob' s s' →
  (∀ n, value_at to_lower ob' n = if same_name to_lower (v_name v) n then Some (v_type v, v_data v) else value_at to_lower ob n) →
  moved (λ j n d, if bool_decide (j = k) then over [v] n d else d) s s'.
Proof.
  intros Hi Hp Hko Hch Hat. pose proof (changed_inv to_lower _ _ _ _ _ Hko Hch Hi) as Hi'. pose proof (ko_key _ _ _ _ Hko) as Hk.
  destruct Hch as (Hk' & _ & Hkp & _ & Ho).
  assert (Hj : ∀ j, option_Forall2 kept (keys s !! j) (keys s' !! j)).
  { intros j. destruct (decide (j = k)) as [->|E]; [rewrite Hk, Hk'; by constructor|]. destruct (Ho j E) as [? ? Hsi|]; constructor. by apply similar_kept. }
  assert (En : ∀ c, kname (keys s') c = kname (keys s) c) by (intros c; unfold kname, named; destruct (Hj c) as [? ? Hc|]; [simpl; by rewrite (kp_name _ _ Hc)|done]).
  split; [done| | | |].
  - intros j o' Hj'. specialize (Hj j). rewrite Hj' in Hj. destruct (keys s !! j) as [o|] eqn:Hjo; inversion Hj as [? ? Hkk|]; subst. destruct (plain_flags _ _ (kp_flags _ _ Hkk)) as [-> ->]. by apply (Hp j).
  - intros q n c Hc. unfold RegistryKeys.child in *. destruct (Hj q) as [o o' Hkk|]; [|done]. simpl in *. destruct (kp_subkeys _ _ Hkk) as (E1 & _ & E2).
    unfold subs in *. rewrite E1, E2. by rewrite (find_sub_ext to_lower (keys s)).
  - intros j (o & Hjo & Hd). specialize (Hj j). rewrite Hjo in Hj. destruct (keys s' !! j) as [o'|] eqn:Hjo'; inversion Hj as [? ? Hkk|]; subst. exists o'. split; [done|]. by rewrite (has_deleted _ _ (kp_flags _ _ Hkk)).
  - intros j n. case_bool_decide as E.
    + subst j. unfold val. rewrite Hk, Hk'. simpl. by rewrite Hat.
    + unfold val. destruct (Ho j E) as [o o' [_ _ _ _ (E1 & _ & E2) _]|]; [|done]. simpl. unfold value_at, values. by rewrite E1, E2.
Qed.

(** ** The lines of a section *)

Lemma update_time_run rank modif n : ∀ k (Q : unit → reg → Prop) s, ranked rank (keys s) →
  (∀ j, k = Some j → (rank j < n)%nat ∧ ∃ ob nm, keys s !! j = Some ob ∧ k_name ob = Some nm) →
  (∀ s', touched s s' → Q tt s') → wp (update_key_time n k modif) Q s.
Proof.
  induction n as [|n IH]; intros [k|] Q s Hrk Hk HQ; cbn [update_key_time]; try (apply wp_ret, HQ; done).
  - destruct (Hk k eq_refl). lia.
  - destruct (Hk k eq_refl) as (Hlt & ob & [nm p] & Hob & Hnm). apply wp_bind, (wp_get_key _ ob); [done|].
    destruct (negb (k_modif ob =? 0)); [by apply wp_ret, HQ|]. apply wp_bind, wp_put_key. set (s1 := set_keys _ s).
    assert (touched s s1) as Ht1 by (apply (touched_put s k ob); [done|split; auto]).
    apply wp_bind, (wp_get_parent k (k_set_modif modif ob) nm p); [apply lookup_insert_eq|done|]. apply IH.
    + eapply similar_ranked; [apply Ht1|done].
    + intros j ->. destruct (proj2 Hrk k ob nm j Hob Hnm) as (Hj & pob & pn & Hpob & Hpn). split; [lia|]. exists pob, pn.
      split; [|done]. simpl. rewrite lookup_insert_ne by (intros ->; lia). done.
    + intros s2 Ht2. apply HQ. by etransitivity.
Qed.

Lemma update_key_time_ok k modif s (Q : unit → reg → Prop) : reg_inv s → plain (keys s) → live s k →
  (∀ s', moved same_values s s' → reg_rest s s' → Q tt s') → wp (update_key_time (size (keys s)) (Some k) modif) Q s.
Proof.
  intros Hi Hp Hl HQ. destruct (ro_tree _ _ (proj1 Hi)) as [rank Hrk]. eapply (update_time_run rank); [done| |].
  - intros j [= <-]. destruct (live_named to_lower s k Hi Hl) as (ob & nm & Hk & Hn). split; [apply Hrk; by eexists|eauto].
  - intros s' [Hs Hr]. apply HQ; [by apply similar_moved|done].
Qed.

(** The state between two lines. *)
Record loading (base : kid) (s : reg) (file : list Z) : Prop := {
  lo_inv : reg_inv s;
  lo_plain : plain (keys s);
  lo_base : live s base;
  lo_reading : reading s file;
}.
Definition current (sub : option kid) (s : reg) : Prop := match sub with Some k => live s k | None => True end.

Lemma moved_loading f base s s' file file' : loading base s file → moved f s s' → reading s' file' → loading base s' file'.
Proof. intros [_ _ Hb _] [? ? _ Hl _] Hr. split; auto. Qed.
Lemma moved_current f sub s s' : moved f s s' → current sub s → current sub s'.
Proof. destruct sub; [|done]. intros Hm. by apply Hm. Qed.
Lemma reads_loading base s file file' s' : loading base s file → reads s file' s' → loading base s' file' ∧ moved same_values s s'.
Proof.
  intros Hlo Hr. assert (keys s' = keys s) as Ek by (destruct Hr as (? & -> & _); done).
  assert (moved same_values s s') as Hm by (apply moved_refl; [apply Hlo..|done]). split; [|done].
  eapply moved_loading; [done..|]. eapply reads_reading; [apply Hlo|done].
Qed.
Lemma rest_reading s s' file : reading s file → reg_rest s s' → reading s' file.
Proof. intros (A & B & C) (_ & _ & E & _ & F). split_and!; [by rewrite E|by rewrite F..]. Qed.

Lemma end_key_ok base sub modif s file (Q : unit → reg → Prop) : loading base s file → current sub s →
  (∀ s', moved same_values s s' → loading base s' file → Q tt s') → wp (end_key sub modif) Q s.
Proof.
  intros Hlo Hc HQ. destruct sub as [k|]; cbn [end_key].
  - apply wp_bind, wp_get. apply update_key_time_ok; [apply Hlo..|done|]. intros s' Hm Hr. apply HQ; [done|].
    eapply moved_loading; [done..|]. eapply rest_reading; [apply Hlo|done].
  - apply wp_ret, HQ; [|done]. apply moved_refl; [apply Hlo..|done].
Qed.

(** One line of the loop: it is read, and [load_lines] goes on in what follows. *)
Lemma load_line_ok n base sub modif line rest s (Q : unit → reg → Prop) : loading base s (line ++ NEWLINE :: rest) → Forall printable line →
  (∀ s', moved same_values s s' → loading base s' rest → li_buffer (rg_info s') = line →
     wp (let p := skip_spaces line in
         let c := char_at p in
         if c =? 91 then
           end_key sub modif ;; r <- load_key to_lower follow base (tail p) 0; load_lines to_lower follow n base (fst r) (default modif (snd r)) 0
         else if (c =? 64) || (c =? QUOTE) then
           (match sub with Some sub => ok <- load_value to_lower sub p; ret tt | None => ret tt end) ;; load_lines to_lower follow n base sub modif 0
         else if c =? 35 then
           ok <- match sub with Some sub => ok <- load_key_option sub p; ret true | None => load_global_option p end;
           if ok : bool then load_lines to_lower follow n base sub modif 0 else end_key sub modif
         else load_lines to_lower follow n base sub modif 0) Q s') →
  wp (load_lines to_lower follow (S n) base sub modif 0) Q s.
Proof.
  intros Hlo Hp HQ. cbn [load_lines]. apply wp_bind. eapply read_line_reads; [done|apply Hlo|]. intros s' Hr Hb. change (negb (1 =? 1)) with false. cbn iota.
  apply wp_bind, wp_get. rewrite Hb. change (0 =? -1) with false. cbn iota. destruct (reads_loading _ _ _ _ _ Hlo Hr) as [Hlo' Hm].
  specialize (HQ s' Hm Hlo' Hb). cbn zeta in *. destruct (_ =? 91); [|exact HQ]. exact HQ.
Qed.

Lemma join_wide es : Forall (Forall wide) es → Forall wide (join es).
Proof.
  induction 1 as [|e es He Hes IH]; [done|]. destruct es; [done|]. rewrite join_cons by done. apply Forall_app. split; [done|]. by constructor.
Qed.

Lemma join_length es : Forall element_ok es → (length es <= length (join es))%nat.
Proof.
  induction 1 as [|e es He Hes IH]; [done|]. destruct He as [He _ _]. destruct e as [|c e]; [done|]. destruct es; [simpl; lia|]. rewrite join_cons by done.
  rewrite length_app. simpl in *. lia.
Qed.

Lemma join_nil es : Forall element_ok es → join es = [] → es = [].
Proof. intros He E. apply join_length in He. rewrite E in He. destruct es; [done|]. simpl in He. lia. Qed.

Lemma escapable_brackets : escapable 91 ∧ escapable 93.
Proof. by split_and!. Qed.

Lemma walk_live s p es c : reg_inv s → live s p → walk (keys s) p es = Some c → live s c.
Proof.
  intros Hi. revert p. induction es as [|e es IH]; intros p Hl; [by intros [= <-]|]. destruct (child (keys s) p e) as [d|] eqn:E.
  - rewrite (walk_cons _ _ _ _ _ d) by done. apply IH. by destruct (child_named to_lower s p d e Hi E) as (_ & _ & _ & _ & ?).
  - unfold RegPathThms.walk. simpl. rewrite E. intros H. exfalso. clear -H. induction es; [done|auto].
Qed.

(** The key of a section is found or made. *)
Lemma load_key_ok base sec s file : loading base s file → section_wf sec →
  wp (load_key to_lower follow base (sec_key sec) 0)
     (λ r s', ∃ c t, r = (Some c, Some t) ∧ moved same_values s s' ∧ loading base s' file ∧ walk (keys s') base (se_path sec) = Some c ∧ live s' c) s.
Proof.
  intros Hlo [Hp Hw Hh _]. unfold load_key, sec_key. destruct escapable_brackets as [E91 E93]. set (u := fmt_u _). apply wp_bind.
  eapply get_file_tmp_space_ok; [apply Hlo|]. intros s1 Hr1 Htmp. cbn [negb]. unfold tmp_units. wp_steps. destruct (reads_loading _ _ _ _ _ Hlo Hr1) as [Hlo1 Hm1].
  pose proof (join_wide _ Hw) as Hjw. change ([93; 32] ++ u) with (93 :: 32 :: u) in *.
  rewrite parse_dump_strW; try done; [|by right|].
  2:{ pose proof (dump_strW_length 91 93 _ Hjw). rewrite length_app in Htmp. simpl in Htmp. apply Z.le_succ_l, Z.div_le_lower_bound; lia. }
  apply wp_bind, wp_get. set (t := match scan_u _ with Some _ => _ | None => _ end). clearbody t.
  assert (∀ l : list Z, skip_prefix 0 (l ++ [0]) = (0, l ++ [0])) as -> by (by intros []). cbn beta iota. apply wp_bind.
  destruct (decide (se_path sec = [])) as [E|Hne].
  { rewrite E in *. cbn [join app char_at hd]. apply wp_ret, wp_ret. exists base, t. split_and!; try done. apply Hlo1. }
  rewrite (proj2 (Z.eqb_neq _ _)).
  2:{ destruct (join (se_path sec)) eqn:Ej; [by apply join_nil in Ej|]. intros E. by apply Hne, Hh. }
  rewrite length_app, Nat.add_sub, take_app_length.
  eapply wp_mono; [apply (create_path_ok to_lower follow 0 (se_path sec)); try apply Hlo1; [done| |pose proof (join_length _ Hp); simpl; lia]|].
  { intros k ob Hk. by apply (lo_plain _ _ _ Hlo1 k). }
  intros r s2 [Ho Hr]. destruct r as [c|].
  - apply wp_ret. exists c, t. pose proof (extends_moved _ _ _ (lo_plain _ _ _ Hlo1) Ho) as Hm2. destruct Ho as ((Ei & _ & _ & Ea) & Hi2 & _).
    assert (loading base s2 file) as Hlo2.
    { eapply moved_loading; [done..|]. destruct (lo_reading _ _ _ Hlo1) as (? & ? & ?). split_and!; [auto|by rewrite Ei..]. }
    split_and!; try done; [by eapply moved_trans|]. eapply walk_live; [done| |done]. apply Hlo2.
  - destruct Hr as [[_ Ha]|(_ & p & pob & Hpp & Hv)]; [by destruct (lo_reading _ _ _ Hlo1)|]. destruct (lo_plain _ _ _ Hlo1 p pob Hpp). congruence.
Qed.

Lemma name_head v line : ∃ c l, dump_name v ++ line = c :: l ∧ (c = 64 ∨ c = QUOTE).
Proof. unfold dump_name. destruct (v_name v); eexists _, _; (split; [reflexivity|auto]). Qed.

(** The lines of a value. *)
Lemma load_value_lines n base c t v rest s (Q : unit → reg → Prop) : loading base s (dump_value v ++ rest) → value_wf v → live s c → (length (dump_value v ++ rest) <= n)%nat →
  (∀ n' s', (length rest <= n')%nat → loading base s' rest → moved (λ j n d, if bool_decide (j = c) then over [v] n d else d) s s' →
     wp (load_lines to_lower follow n' base (Some c) t 0) Q s') →
  wp (load_lines to_lower follow n base (Some c) t 0) Q s.
Proof.
  intros Hlo Hv Hl Hn HQ. destruct (value_loads v rest Hv) as (line & more & Et & Hld). rewrite dump_value_split, <-app_assoc, Et, app_assoc in Hlo.
  assert (1 <= length (dump_value v))%nat as Hlen by (rewrite dump_value_split; destruct (name_head v (value_text v)) as (? & ? & -> & _); simpl; lia).
  destruct n as [|n]; [rewrite length_app in Hn; lia|]. eapply load_line_ok; [exact Hlo|apply Forall_app; split; [by apply dump_name_printable|apply Hld]|].
  intros s1 Hm1 Hlo1 _. cbn zeta. destruct (name_head v line) as (c0 & l0 & E0 & Hc0). assert (skip_spaces (dump_name v ++ line) = dump_name v ++ line) as -> by (rewrite E0; destruct Hc0 as [->| ->]; done).
  assert (char_at (dump_name v ++ line) = c0) as -> by (by rewrite E0).
  assert (c0 =? 91 = false) as -> by (by destruct Hc0 as [->| ->]). assert (((c0 =? 64) || (c0 =? QUOTE)) = true) as -> by (by destruct Hc0 as [->| ->]).
  pose proof (mv_live _ _ _ Hm1 c Hl) as Hl1. destruct (live_key_ok to_lower s1 c (lo_inv _ _ _ Hlo1) Hl1) as [ob Hko].
  apply wp_bind, wp_bind. eapply wp_mono; [apply (load_value_ok to_lower c ob v line more rest s1); [done..|apply Hlo1]|].
  intros r s2 (_ & Hr2 & ob' & Hch & Hat). apply wp_ret. pose proof (changed_moved c ob ob' v s1 s2 (lo_inv _ _ _ Hlo1) (lo_plain _ _ _ Hlo1) Hko Hch Hat) as Hm2.
  apply HQ; [rewrite length_app in Hn; lia|by eapply moved_loading|by eapply moved_trans].
Qed.

Lemma load_values_ok base c t vs rest : ∀ n s (Q : unit → reg → Prop), loading base s (concat (dump_value <$> vs) ++ rest) → Forall value_wf vs → live s c →
  (length (concat (dump_value <$> vs) ++ rest) <= n)%nat →
  (∀ n' s', (length rest <= n')%nat → loading base s' rest → moved (λ j n d, if bool_decide (j = c) then over vs n d else d) s s' →
     wp (load_lines to_lower follow n' base (Some c) t 0) Q s') →
  wp (load_lines to_lower follow n base (Some c) t 0) Q s.
Proof.
  induction vs as [|v vs IH]; intros n s Q Hlo Hv Hl Hn HQ.
  - apply HQ; [done|done|]. apply (moved_trans same_values same_values _ s s); [apply moved_refl; [apply Hlo..|done]..|]. intros j m d. by case_bool_decide.
  - apply Forall_cons in Hv as [Hv Hvs]. cbn [fmap list_fmap concat] in *. rewrite <-app_assoc in Hlo, Hn. eapply load_value_lines; [done..|].
    intros n' s' Hn' Hlo' Hm. apply IH; [done|done|by apply Hm|done|]. intros n2 s2 Hn2 Hlo2 Hm2. apply HQ; [done|done|]. eapply moved_trans; [exact Hm|exact Hm2|].
    intros j m d. cbn beta. by case_bool_decide.
Qed.

Lemma fmt_u_printable n : 0 <= n < 4294967296 → Forall printable (fmt_u n).
Proof.
  intros Hn. unfold fmt_u. destruct (digits_spec 10 n 20) as (_ & Hd & _); [lia|lia|lia|]. apply Forall_fmap. eapply Forall_impl; [exact Hd|].
  intros d Hd'. unfold compose, printable. cbn beta in *. lia.
Qed.

Lemma w32_bounds x : 0 <= w32 x < 4294967296.
Proof. unfold w32. apply Z.mod_pos_bound. lia. Qed.

Lemma fmt_x_printable n : 0 <= n < 4294967296 → Forall printable (fmt_x n).
Proof. intros Hn. eapply hexes_printable, fmt_x_hexes. lia. Qed.

Lemma sec_printable sec : section_wf sec → Forall printable (91 :: sec_key sec) ∧ Forall printable (sec_time sec).
Proof.
  intros [_ Hw _ _]. unfold sec_key, sec_time. pose proof (w32_bounds (Z.shiftr (se_modif sec) 32)). pose proof (w32_bounds (se_modif sec)). split.
  - constructor; [by split|]. rewrite !Forall_app. split_and!; [by apply dump_strW_printable, join_wide|by repeat constructor|apply fmt_u_printable, w32_bounds].
  - rewrite !Forall_app. split_and!; [by repeat constructor|by apply fmt_x_printable|by apply zero_pad_printable, fmt_x_printable].
Qed.

Definition set_section (c : kid) (sec : section) : kid → list Z → option (Z * list Z) → option (Z * list Z) :=
  λ j n d, if bool_decide (j = c) then over (se_values sec) n d else d.

Lemma walk_kept m m' es : children_kept m m' → ∀ k c, walk m k es = Some c → walk m' k es = Some c.
Proof.
  intros H. induction es as [|e es IH]; intros k c; [done|]. destruct (child m k e) as [d|] eqn:E.
  - rewrite (walk_cons to_lower m k e es d), (walk_cons to_lower m' k e es d); auto.
  - unfold RegPathThms.walk. simpl. rewrite E. intros Hw. exfalso. clear -Hw. induction es; [done|auto].
Qed.

(** The line of the time. *)
Lemma load_time_ok base sec c s file (Q : bool → reg → Prop) : loading base s file → live s c →
  (∀ s', moved same_values s s' → loading base s' file → Q true s') → wp (load_key_option c (sec_time sec)) Q s.
Proof.
  intros Hlo Hl HQ. unfold load_key_option. apply wp_bind, wp_get. set (t := int64 _). clearbody t. change (starts_with TIME (sec_time sec)) with true. cbn iota.
  apply wp_bind. apply update_key_time_ok; [apply Hlo..|done|]. intros s' Hm Hr. change (starts_with CLASS (sec_time sec)) with false. change (starts_with LINK (sec_time sec)) with false.
  cbn iota. apply wp_bind, wp_ret. cbn [negb]. apply wp_bind, wp_ret, wp_ret, HQ; [done|]. eapply moved_loading; [done..|]. eapply rest_reading; [apply Hlo|done].
Qed.

Lemma load_section_ok base sec rest n sub t0 s (Q : unit → reg → Prop) : loading base s (sec_text sec ++ rest) → section_wf sec → current sub s →
  (length (sec_text sec ++ rest) <= n)%nat →
  (∀ n' c t s', (length rest <= n')%nat → loading base s' rest → walk (keys s') base (se_path sec) = Some c → live s' c → moved (set_section c sec) s s' →
     wp (load_lines to_lower follow n' base (Some c) t 0) Q s') →
  wp (load_lines to_lower follow n base sub t0 0) Q s.
Proof.
  intros Hlo Hw Hc Hn HQ. destruct (sec_printable sec Hw) as [Hp1 Hp2]. set (vt := concat (dump_value <$> se_values sec)) in *.
  assert (sec_text sec ++ rest = NEWLINE :: (91 :: sec_key sec) ++ NEWLINE :: sec_time sec ++ NEWLINE :: vt ++ rest) as E.
  { unfold sec_text. fold vt. generalize (sec_key sec) (sec_time sec). intros k0 t1. by rewrite <-!app_assoc. }
  rewrite E in Hlo, Hn. assert (4 + length (vt ++ rest) <= n)%nat as Hn'.
  { revert Hn. generalize (sec_key sec) (sec_time sec) (vt ++ rest). intros a b c. simpl. rewrite length_app. simpl. rewrite length_app. simpl. lia. }
  clear Hn E. destruct n as [|n]; [lia|]. apply (load_line_ok n base sub t0 [] ((91 :: sec_key sec) ++ NEWLINE :: sec_time sec ++ NEWLINE :: vt ++ rest) s); [exact Hlo|constructor|]. intros s1 Hm1 Hlo1 _. cbn zeta. cbn [skip_spaces char_at hd].
  change (0 =? 91) with false. change ((0 =? 64) || (0 =? QUOTE)) with false. change (0 =? 35) with false. cbn iota.
  destruct n as [|n]; [lia|]. eapply load_line_ok; [done|done|]. intros s2 Hm2 Hlo2 _. cbn zeta.
  change (skip_spaces (91 :: sec_key sec)) with (91 :: sec_key sec). cbn [char_at hd tail]. change (91 =? 91) with true. cbn iota.
  apply wp_bind. eapply end_key_ok; [done|by eapply moved_current, moved_current|]. intros s3 Hm3 Hlo3.
  apply wp_bind. eapply wp_mono; [by apply load_key_ok|]. intros ? s4 (c & t & -> & Hm4 & Hlo4 & Hwalk & Hl4). cbn [fst snd default].
  destruct n as [|n]; [lia|]. eapply load_line_ok; [done|done|]. intros s5 Hm5 Hlo5 _. cbn zeta.
  change (skip_spaces (sec_time sec)) with (sec_time sec). change (char_at (sec_time sec)) with 35. change (35 =? 91) with false. change ((35 =? 64) || (35 =? QUOTE)) with false.
  change (35 =? 35) with true. cbn iota. pose proof (mv_live _ _ _ Hm5 c Hl4) as Hl5. apply wp_bind, wp_bind. eapply (load_time_ok base); [done|done|]. intros s6 Hm6 Hlo6. apply wp_ret.
  pose proof (mv_live _ _ _ Hm6 c Hl5) as Hl6. eapply load_values_ok; [exact Hlo6|apply Hw|done|fold vt; lia|]. intros n' s7 Hn7 Hlo7 Hm7.
  assert (moved same_values s4 s6) as Hm46 by (by eapply moved_trans). assert (children_kept (keys s4) (keys s7)) as Hch.
  { intros q m d Hd. by apply (mv_child _ _ _ Hm7), (mv_child _ _ _ Hm46). }
  apply HQ with (t := t); [done|done|by eapply walk_kept|by eapply mv_live|].
  assert (moved same_values s s4) as Hm04 by (eapply moved_trans; [eapply moved_trans; [eapply moved_trans; [exact Hm1|exact Hm2|done]|exact Hm3|done]|exact Hm4|done]).
  eapply moved_trans; [eapply moved_trans; [exact Hm04|exact Hm46|done]|exact Hm7|]. done.
Qed.

(** ** The sections of a file *)

(** The values of the keys that the paths of the sections lead to in [m]. *)
Definition set_sections (m : gmap kid key) (base : kid) (secs : list section) : kid → list Z → option (Z * list Z) → option (Z * list Z) :=
  λ j n d, foldl (λ d sec, if bool_decide (walk m base (se_path sec) = Some j) then over (se_values sec) n d else d) d secs.

Definition loaded (base : kid) (secs : list section) (s s' : reg) : Prop :=
  moved (set_sections (keys s') base secs) s s' ∧ Forall (λ sec, is_Some (walk (keys s') base (se_path sec))) secs.

Lemma read_eof s (Q : Z → reg → Prop) : reading s [] → (∀ s', reads s [] s' → Q 0 s') → wp read_next_line Q s.
Proof.
  intros (Ha & Hf & Hl) HQ. unfold read_next_line, upd_info. apply wp_bind, wp_modify, wp_bind, wp_get. set (s1 := set_info _ s).
  assert (li_file (rg_info s1) = []) as E by done. rewrite E. cbn [length read_line_loop]. apply wp_bind, wp_get. rewrite E.
  destruct (Z.to_nat _); cbn [fgets]; apply wp_ret, HQ; by eexists.
Qed.

Lemma load_end n base sub t s : loading base s [] → current sub s → wp (load_lines to_lower follow n base sub t 0) (λ _ s', moved same_values s s') s.
Proof.
  intros Hlo Hc. assert (Hend : wp (r <- read_next_line; if negb (r =? 1) then end_key sub t else fail OutOfFuel) (λ _ s', moved same_values s s') s).
  { apply wp_bind. eapply read_eof; [apply Hlo|]. intros s1 Hr. change (negb (0 =? 1)) with true. cbn iota. destruct (reads_loading _ _ _ _ _ Hlo Hr) as [Hlo1 Hm1].
    eapply end_key_ok; [done|by eapply moved_current|]. intros s2 Hm2 _. by eapply moved_trans. }
  unfold wp in *. destruct n; cbn [load_lines]; unfold st_bind in *; destruct (read_next_line s) as [r s1|]; try done; by destruct (negb (r =? 1)).
Qed.

Lemma load_sections_ok base secs : ∀ n sub t s, loading base s (concat (sec_text <$> secs)) → Forall section_wf secs → current sub s →
  (length (concat (sec_text <$> secs)) <= n)%nat → wp (load_lines to_lower follow n base sub t 0) (λ _ s', loaded base secs s s') s.
Proof.
  induction secs as [|sec secs IH]; intros n sub t s Hlo Hw Hc Hn.
  - eapply wp_mono; [by apply load_end|]. intros [] s' Hm. split; [|done]. by eapply moved_trans; [exact Hm|apply moved_refl; [apply Hm..|done]|].
  - apply Forall_cons in Hw as [Hw Hws]. cbn [fmap list_fmap concat] in *. eapply load_section_ok; [done..|]. intros n' c t' s1 Hn1 Hlo1 Hwalk Hl1 Hm1.
    eapply wp_mono; [by apply IH|]. intros [] s2 [Hm2 Hs2]. assert (walk (keys s2) base (se_path sec) = Some c) as Hw2 by (eapply walk_kept; [apply Hm2|done]).
    split; [|constructor; [by eexists|done]]. eapply moved_trans; [exact Hm1|exact Hm2|]. intros j m d. unfold set_sections, set_section. cbn [foldl]. rewrite Hw2. f_equal.
    destruct (decide (j = c)) as [->|Hj]; [by rewrite !bool_decide_eq_true_2|]. rewrite !bool_decide_eq_false_2 by congruence. done.
Qed.

(** ** A file *)

Definition arch_text (t : Z) : list Z :=
  if t =? PREFIX_32BIT then [NEWLINE] ++ ARCH ++ WIN32 ++ [NEWLINE] else if t =? PREFIX_64BIT then [NEWLINE] ++ ARCH ++ WIN64 ++ [NEWLINE] else [].

(** The file is for this architecture, or the first one to say. *)
Definition arch_ok (t : Z) (s : reg) : Prop := (t = PREFIX_32BIT ∨ t = PREFIX_64BIT) → prefix_type s = PREFIX_UNKNOWN ∨ prefix_type s = t.

(** A line that holds no key, no value and no option. *)
Lemma load_other_line n base sub t line rest s (Q : unit → reg → Prop) : loading base s (line ++ NEWLINE :: rest) → Forall printable line →
  skip_spaces line = line → char_at line = 0 ∨ char_at line = 59 →
  (∀ s', moved same_values s s' → loading base s' rest → prefix_type s' = prefix_type s → wp (load_lines to_lower follow n base sub t 0) Q s') →
  wp (load_lines to_lower follow (S n) base sub t 0) Q s.
Proof.
  intros Hlo Hp Hsk Hc HQ. cbn [load_lines]. apply wp_bind. eapply read_line_reads; [done|apply Hlo|]. intros s' Hr Hb. change (negb (1 =? 1)) with false. cbn iota.
  apply wp_bind, wp_get. rewrite Hb, Hsk. destruct (reads_loading _ _ _ _ _ Hlo Hr) as [Hlo' Hm]. assert (prefix_type s' = prefix_type s) as Et by (by destruct Hr as (? & -> & _)).
  destruct Hc as [-> | ->]; by apply HQ.
Qed.

Lemma load_arch_ok n base t0 t rest s (Q : unit → reg → Prop) : loading base s (arch_text t ++ rest) → arch_ok t s → (length (arch_text t ++ rest) <= n)%nat →
  (∀ n' s', (length rest <= n')%nat → moved same_values s s' → loading base s' rest → wp (load_lines to_lower follow n' base None t0 0) Q s') →
  wp (load_lines to_lower follow n base None t0 0) Q s.
Proof.
  intros Hlo Ht Hn HQ. assert (Hrun : ∀ w, (t = PREFIX_32BIT ∧ w = WIN32) ∨ (t = PREFIX_64BIT ∧ w = WIN64) → arch_text t = [NEWLINE] ++ ARCH ++ w ++ [NEWLINE] →
    wp (load_lines to_lower follow n base None t0 0) Q s).
  { intros w Hw Ea. assert (Forall printable (ARCH ++ w)) as Hp by (destruct Hw as [[_ ->]|[_ ->]]; by repeat constructor). rewrite Ea in Hlo, Hn.
    assert (8 + length rest <= n)%nat as Hn' by (rewrite !length_app in Hn; destruct Hw as [[_ ->]|[_ ->]]; simpl in Hn; lia).
    destruct n as [|n]; [lia|]. apply (load_other_line n base None t0 [] ((ARCH ++ w) ++ NEWLINE :: rest)); [by rewrite <-!app_assoc in *|constructor|done|by left|].
    intros s1 Hm1 Hlo1 Et1. destruct n as [|n]; [lia|]. cbn [load_lines]. apply wp_bind. eapply read_line_reads; [done|apply Hlo1|]. intros s2 Hr2 Hb2. destruct (reads_loading _ _ _ _ _ Hlo1 Hr2) as [Hlo2 Hm2].
    change (negb (1 =? 1)) with false. cbn iota. apply wp_bind, wp_get. rewrite Hb2. change (skip_spaces (ARCH ++ w)) with (ARCH ++ w). change (char_at (ARCH ++ w)) with 35.
    change (35 =? 91) with false. change ((35 =? 64) || (35 =? QUOTE)) with false. change (35 =? 35) with true. cbn iota. apply wp_bind. unfold load_global_option.
    change (starts_with ARCH (ARCH ++ w)) with true. change (drop 6 (ARCH ++ w)) with w. cbn iota zeta.
    assert ((if bool_decide (w = WIN32) then Some PREFIX_32BIT else if bool_decide (w = WIN64) then Some PREFIX_64BIT else None) = Some t) as -> by (by destruct Hw as [[-> ->]|[-> ->]]).
    apply wp_bind, wp_get. assert (prefix_type s2 = prefix_type s) as Et2 by (rewrite <-Et1; by destruct Hr2 as (? & -> & _)). rewrite Et2.
    assert (moved same_values s s2) as Hm by (by eapply moved_trans). destruct (Z.eqb_spec (prefix_type s) PREFIX_UNKNOWN) as [Eu|Eu].
    - apply wp_bind, wp_modify, wp_ret. apply HQ; [lia|by eapply moved_trans; [exact Hm|apply moved_refl; [apply Hlo2..|done]|]|]. by destruct Hlo2.
    - destruct (Ht ltac:(naive_solver)) as [?|Et]; [done|]. rewrite Et, Z.eqb_refl. apply wp_ret. apply HQ; [lia|done..]. }
  unfold arch_text in *. destruct (Z.eqb_spec t PREFIX_32BIT); [by apply (Hrun WIN32); [left|]|]. destruct (Z.eqb_spec t PREFIX_64BIT); [by apply (Hrun WIN64); [right|]|].
  apply HQ; [done|apply moved_refl; [apply Hlo..|done]|done].
Qed.

Definition file_text (path : list Z) (t : Z) (secs : list section) : list Z :=
  FILE_HEADER ++ NEWLINE :: RELATIVE ++ path ++ NEWLINE :: arch_text t ++ concat (sec_text <$> secs).

Lemma wp_alloc_free {A} (k : bool → R A) (Q : A → reg → Prop) s : rg_allocs s = [] → wp (k true) Q s → wp (st_bind reg_mem_alloc k) Q s.
Proof. intros Ha. unfold wp, reg_mem_alloc, reg_malloc, st_bind, get. by rewrite Ha. Qed.

(** Every section of the file is loaded. *)
Lemma load_keys_ok base path t secs s : reg_inv s → plain (keys s) → live s base → rg_allocs s = [] → arch_ok t s → Forall printable path → Forall section_wf secs →
  wp (load_keys to_lower follow base (file_text path t secs) 0) (λ _ s', loaded base secs s s') s.
Proof.
  intros Hi Hp Hl Ha Ht Hpath Hw. unfold load_keys. do 2 (apply wp_alloc_free; [done|]; cbn [negb]). apply wp_bind, wp_get.
  set (tail := RELATIVE ++ path ++ NEWLINE :: arch_text t ++ concat (sec_text <$> secs)). unfold upd_info. apply wp_bind, wp_modify. set (s1 := set_info _ s).
  assert (loading base s1 (FILE_HEADER ++ NEWLINE :: tail)) as Hlo1 by (split; [done|done|done|by split_and!]). assert (moved same_values s s1) as Hm1 by (by apply moved_refl).
  assert (prefix_type s1 = prefix_type s) as Et1 by done. assert (8 + length tail <= length (file_text path t secs))%nat as Hlen by (unfold file_text; fold tail; rewrite length_app; simpl; lia).
  clearbody s1. apply wp_bind. apply (read_line_reads FILE_HEADER tail); [by repeat constructor|apply Hlo1|]. intros s2 Hr2 Hb2. destruct (reads_loading _ _ _ _ _ Hlo1 Hr2) as [Hlo2 Hm2].
  apply wp_bind, wp_get. rewrite Hb2. change (negb (1 =? 1)) with false. rewrite bool_decide_eq_true_2 by done. cbn [negb orb].
  assert (prefix_type s2 = prefix_type s) as Et2 by (rewrite <-Et1; by destruct Hr2 as (? & -> & _)).
  destruct (length (file_text path t secs)) as [|n]; [lia|]. eapply (load_other_line n base None _ (RELATIVE ++ path)); [unfold tail in Hlo2; rewrite app_assoc in Hlo2; exact Hlo2| |done|by right|].
  { apply Forall_app. split; [by repeat constructor|done]. }
  intros s3 Hm3 Hlo3 Et3. eapply load_arch_ok; [exact Hlo3|unfold arch_ok; by rewrite Et3, Et2| |].
  { unfold tail in Hlen. rewrite !length_app in Hlen. simpl in Hlen. rewrite length_app in Hlen. rewrite length_app. lia. }
  intros n' s4 Hn' Hm4 Hlo4. eapply wp_mono; [by apply load_sections_ok|]. intros [] s5 [Hm5 Hs5]. split; [|done].
  eapply moved_trans; [eapply moved_trans; [eapply moved_trans; [eapply moved_trans; [exact Hm1|exact Hm2|done]|exact Hm3|done]|exact Hm4|done]|exact Hm5|done].
Qed.
End sections.

(** * Saving a tree of keys and loading it again *)

(** ** Paths of keys *)

(** The names from [base] down to a key. *)
Inductive chain (m : gmap kid key) (base : kid) : list (list Z) → kid → Prop :=
  | chain_nil : chain m base [] base
  | chain_snoc es p e c : chain m base es p → named m c = Some (e, Some p) → chain m base (es ++ [e]) c.

Lemma join_snoc es e : join (es ++ [e]) = match es with [] => e | _ => join es ++ BACKSLASH :: e end.
Proof.
  induction es as [|d es IH]; [done|]. rewrite <-app_comm_cons, join_cons by (by destruct es). rewrite IH. destruct es; [done|].
  rewrite (join_cons d) by done. by rewrite <-app_assoc.
Qed.

Lemma dump_char_backslash e1 e2 c l : dump_char e1 e2 c (BACKSLASH :: l) = dump_char e1 e2 c [].
Proof. done. Qed.

Lemma dump_strW_join e1 e2 a b : dump_strW (a ++ BACKSLASH :: b) e1 e2 = dump_strW a e1 e2 ++ [BACKSLASH; BACKSLASH] ++ dump_strW b e1 e2.
Proof.
  induction a as [|c a IH]; [done|]. cbn [app dump_strW]. rewrite IH, app_assoc. f_equal. destruct a; done.
Qed.

Section save.
Context (to_lower : Z → Z).
Notation reg_inv := (reg_inv to_lower).
Notation child := (child to_lower).
Notation walk := (walk to_lower).

Lemma chain_rank rank m base es k : ranked rank m → chain m base es k → (rank base + length es <= rank k)%nat.
Proof.
  intros Hr. induction 1 as [|es p e c Hc IH Hn]; [simpl; lia|]. destruct (tree_rank m c e p rank Hr Hn) as [? _]. rewrite length_app. simpl. lia.
Qed.

(** The text of a path. *)
Lemma dump_path_ok base es k : ∀ n s, reg_inv s → chain (keys s) base es k → es ≠ [] → (length es <= S n)%nat →
  wp (dump_path n k (Some base)) (λ r s', s' = s ∧ r = dump_strW (join es) 91 93) s.
Proof.
  intros n s Hi Hch. destruct (ro_tree _ _ (proj1 Hi)) as [rank Hr]. revert n. induction Hch as [|es p e c Hch IH Hn]; intros n Hne Hlen; [done|].
  destruct (named_inv _ _ _ Hn) as (ob & Hk & Hnm). rewrite length_app in Hlen. simpl in Hlen.
  destruct n as [|n]; cbn [dump_path].
  - assert (es = []) as -> by (destruct es; [done|simpl in Hlen; lia]). inversion Hch as [E|? ? ? ? ? ? E]; [|by destruct es]. subst.
    apply wp_bind, (wp_get_key _ ob); [done|]. apply wp_bind, (wp_get_parent c ob e (Some p)); [done..|]. apply wp_bind. unfold name_of. rewrite Hnm. apply wp_ret.
    rewrite bool_decide_eq_true_2 by done. by apply wp_bind, wp_ret, wp_ret.
  - apply wp_bind, (wp_get_key _ ob); [done|]. apply wp_bind, (wp_get_parent c ob e (Some p)); [done..|]. apply wp_bind. unfold name_of. rewrite Hnm. apply wp_ret.
    apply wp_bind. rewrite join_snoc. destruct es as [|d es].
    + inversion Hch as [E|? ? ? ? ? ? E]; [|by destruct es]. subst. rewrite bool_decide_eq_true_2 by done. by apply wp_ret, wp_ret.
    + rewrite bool_decide_eq_false_2.
      2:{ intros [= ->]. pose proof (chain_rank _ _ _ _ _ Hr Hch). simpl in *. lia. }
      apply wp_bind. eapply wp_mono; [apply IH; [done|simpl in *; lia]|]. intros r s' [-> ->]. apply wp_ret, wp_ret. split; [done|].
      by rewrite dump_strW_join, <-app_assoc.
Qed.

(** ** The text of a tree *)

Definition no_class (m : gmap kid key) : Prop := ∀ k ob, m !! k = Some ob → k_class ob = None.

Lemma chain_base m base es : tree_ok m → chain m base es base → es = [].
Proof. intros [rank Hr] Hc. apply (chain_rank rank) in Hc; [|done]. destruct es; [done|]. simpl in Hc. lia. Qed.

Lemma save_key_ok base es k ob s : reg_inv s → plain (keys s) → no_class (keys s) → chain (keys s) base es k → keys s !! k = Some ob →
  wp (save_key k base) (λ r s', s' = s ∧ r = sec_text (Section_ es (k_modif ob) (values ob))) s.
Proof.
  intros Hi Hp Hc Hch Hk. unfold save_key. apply wp_bind, wp_get, wp_bind, (wp_get_key _ ob); [done|]. apply wp_bind.
  eapply (wp_mono _ (λ r s', s' = s ∧ r = dump_strW (join es) 91 93)).
  { case_bool_decide as E; [subst; by rewrite (chain_base _ _ _ (ro_tree _ _ (proj1 Hi)) Hch); apply wp_ret|]. apply (dump_path_ok base es k); [done|done|intros ->; by inversion Hch; [|destruct es]|].
    destruct (ro_tree _ _ (proj1 Hi)) as [rank Hr]. pose proof (chain_rank _ _ _ _ _ Hr Hch). assert (rank k < size (keys s))%nat by (apply Hr; by eexists). lia. }
  intros ? s' [-> ->]. apply wp_bind. pose proof (no_values _ _ _ _ (ro_nodes _ _ (proj1 Hi) k ob Hk)) as Hv. rewrite (vo_used _ _ Hv).
  eapply (wp_mono _ (λ r s', s' = s ∧ r = concat (dump_value <$> values ob))).
  { generalize (values ob). intros vs. induction vs as [|v vs IH]; [by apply wp_ret|]. cbn [fmap list_fmap]. apply wp_bind, wp_ret, wp_bind.
    eapply wp_mono; [exact IH|]. intros ? s' [-> ->]. by apply wp_ret. }
  intros ? s' [-> ->]. apply wp_ret. split; [done|]. rewrite (Hc k ob Hk), (proj1 (Hp k ob Hk)). unfold sec_text, sec_key, sec_time. cbn [se_path se_modif se_values].
  rewrite !app_nil_l. by rewrite <-!app_assoc.
Qed.

(** The sections of the keys below [k], as [save_subkeys] writes them. *)
Fixpoint tree_secs (n : nat) (m : gmap kid key) (es : list (list Z)) (k : kid) : list section :=
  match n, m !! k with
  | S n, Some ob =>
      (if negb (bool_decide (values ob = [])) || bool_decide (subs ob = []) then [Section_ es (k_modif ob) (values ob)] else []) ++
      concat ((λ c, tree_secs n m (es ++ [kname m c]) c) <$> subs ob)
  | _, _ => []
  end.

Lemma sub_named_at m k ob c : subkeys_ok to_lower m k ob → c ∈ subs ob → named m c = Some (kname m c, Some k).
Proof. intros H Hc. apply (so_subs _ _ _ _ H) in Hc as [name Hn]. by rewrite (named_kname _ _ _ _ Hn). Qed.

Lemma saved_test ob : values_ok to_lower ob → subs_array ob (subs ob) →
  (0 <=? k_last_value ob) || (k_last_subkey ob =? -1) = negb (bool_decide (values ob = [])) || bool_decide (subs ob = []).
Proof.
  intros Hv Ha. destruct (values_length to_lower ob Hv) as [Hl _]. pose proof (ao_last _ _ _ _ _ Ha) as Hs. f_equal.
  - destruct (values ob) as [|v vs]; simpl in *; [apply Z.leb_gt; lia|apply Z.leb_le; lia].
  - destruct (subs ob) as [|c cs]; simpl in *; [apply Z.eqb_eq; lia|apply Z.eqb_neq; lia].
Qed.

Lemma save_subkeys_ok rank base n : ∀ es k ob s, reg_inv s → ranked rank (keys s) → plain (keys s) → no_class (keys s) → chain (keys s) base es k → keys s !! k = Some ob →
  (size (keys s) <= n + rank k)%nat →
  wp (save_subkeys n k base) (λ r s', s' = s ∧ r = concat (sec_text <$> tree_secs n (keys s) es k)) s.
Proof.
  induction n as [|n IH]; intros es k ob s Hi Hr Hp Hc Hch Hk Hn.
  { destruct Hr as [Hr _]. specialize (Hr k ltac:(by eexists)). lia. }
  pose proof (ro_nodes _ _ (proj1 Hi) k ob Hk) as [Hv Hs _ _]. cbn [save_subkeys tree_secs]. apply wp_bind, (wp_get_key _ ob); [done|].
  rewrite (proj2 (Hp k ob Hk)), (Hc k ob Hk), (proj1 (Hp k ob Hk)), !orb_false_r, (saved_test ob Hv (so_array _ _ _ _ Hs)), Hk. apply wp_bind.
  set (own := if _ || _ then [Section_ _ _ _] else []).
  eapply (wp_mono _ (λ r s', s' = s ∧ r = concat (sec_text <$> own))).
  { unfold own. case_match; [|by apply wp_ret]. eapply wp_mono; [by apply (save_key_ok base es k ob)|]. intros ? s' [-> ->]. split; [done|]. cbn [fmap list_fmap concat]. by rewrite app_nil_r. }
  intros ? s' [-> ->]. apply wp_bind. pose proof (so_array _ _ _ _ Hs) as Ha. pose proof (ao_last _ _ _ _ _ Ha) as El. replace (Z.to_nat (k_last_subkey ob + 1)) with (length (subs ob)) by lia.
  rewrite (ao_used _ _ _ _ _ Ha). assert (Hsub : ∀ c, c ∈ subs ob → named (keys s) c = Some (kname (keys s) c, Some k)) by (intros c; by apply (sub_named_at _ k ob)).
  eapply (wp_mono _ (λ r s', s' = s ∧ r = concat (sec_text <$> concat ((λ c, tree_secs n (keys s) (es ++ [kname (keys s) c]) c) <$> subs ob)))).
  { clear own El Ha Hs. revert Hsub. generalize (subs ob). intros cs Hsub. induction cs as [|c cs IHc]; [by apply wp_ret|]. cbn [fmap list_fmap]. apply wp_bind, wp_ret, wp_bind.
    pose proof (Hsub c ltac:(left)) as Hcn. destruct (named_inv _ _ _ Hcn) as (cob & Hcob & _). destruct (tree_rank _ _ _ _ _ Hr Hcn) as [Hrc _].
    eapply wp_mono; [apply (IH (es ++ [kname (keys s) c]) c cob); [done..|by eapply chain_snoc|done|lia]|]. intros ? s' [-> ->]. apply wp_bind.
    eapply wp_mono; [apply IHc; intros d Hd; apply Hsub; by right|]. intros ? s' [-> ->]. apply wp_ret. split; [done|].
    cbn [concat]. by rewrite fmap_app, concat_app. }
  intros ? s' [-> ->]. apply wp_ret. split; [done|]. by rewrite fmap_app, concat_app.
Qed.

(** ** Paths and chains *)

(** Paths are compared without regard to case. *)
Definition folds (es : list (list Z)) : list (list Z) := (λ e : list Z, to_lower <$> e) <$> es.

Lemma subs_unique m k ob c d : subkeys_ok to_lower m k ob → c ∈ subs ob → d ∈ subs ob → to_lower <$> kname m c = to_lower <$> kname m d → c = d.
Proof.
  intros [_ _ Hs _] [i Hi]%list_elem_of_lookup [j Hj]%list_elem_of_lookup E. destruct (Nat.lt_trichotomy i j) as [Hl|[->|Hl]]; [|congruence|]; exfalso.
  - refine (lex_neq _ _ (Hs i j (kname m c) (kname m d) _ _ Hl) E); by rewrite list_lookup_fmap, ?Hi, ?Hj.
  - refine (lex_neq _ _ (Hs j i (kname m d) (kname m c) _ _ Hl) (eq_sym E)); by rewrite list_lookup_fmap, ?Hi, ?Hj.
Qed.

Lemma child_inv m p e c : reg_ok to_lower m → child m p e = Some c → ∃ n, named m c = Some (n, Some p) ∧ to_lower <$> n = to_lower <$> e.
Proof.
  intros Hok Hc. unfold RegistryKeys.child in Hc. destruct (m !! p) as [pob|] eqn:Hp; [|done]. simpl in Hc. apply List.find_some in Hc as [Hin%list_elem_of_In He].
  exists (kname m c). split; [by apply (sub_named_at _ p pob); [apply Hok|]|]. unfold same_name in He. by apply bool_decide_eq_true in He.
Qed.

Lemma named_child m c e p : reg_ok to_lower m → named m c = Some (e, Some p) → child m p e = Some c.
Proof.
  intros Hok Hn. destruct (parent_named _ _ _ _ (ro_tree _ _ Hok) Hn) as [_ (pob & pn & Hp & _)%named_inv_ex]. pose proof (no_subkeys _ _ _ _ (ro_nodes _ _ Hok p pob Hp)) as Hs.
  assert (c ∈ subs pob) as Hc by (apply (so_subs _ _ _ _ Hs); by eexists). unfold RegistryKeys.child. rewrite Hp. simpl.
  destruct (find_sub to_lower m e (subs pob)) as [d|] eqn:Hf.
  - apply List.find_some in Hf as [Hd%list_elem_of_In He]. unfold same_name in He. apply bool_decide_eq_true in He. f_equal. apply (subs_unique m p pob); try done.
    by rewrite (named_kname _ _ _ _ Hn).
  - apply (List.find_none _ _ ) with (x := c) in Hf; [|by apply list_elem_of_In]. rewrite (named_kname _ _ _ _ Hn) in Hf. unfold same_name in Hf. by rewrite bool_decide_eq_true_2 in Hf.
Qed.

Lemma walk_app m p es fs : walk m p (es ++ fs) = walk m p es ≫= λ q, walk m q fs.
Proof.
  unfold RegPathThms.walk. rewrite foldl_app. destruct (foldl _ (Some p) es) as [q|]; [done|]. simpl. induction fs; [done|auto].
Qed.
Lemma walk_snoc m p es e : walk m p (es ++ [e]) = walk m p es ≫= λ q, child m q e.
Proof. by rewrite walk_app. Qed.

Lemma chain_walk m base es j : reg_ok to_lower m → chain m base es j → walk m base es = Some j.
Proof.
  intros Hok. induction 1 as [|es p e c Hc IH Hn]; [done|]. rewrite walk_snoc, IH. simpl. by apply named_child.
Qed.

Lemma walk_chain m base es j : reg_ok to_lower m → walk m base es = Some j → ∃ es', chain m base es' j ∧ folds es' = folds es.
Proof.
  intros Hok. revert j. induction es as [|e es IH] using rev_ind; intros j; [intros [= <-]; exists []; split; [constructor|done]|].
  rewrite walk_snoc. destruct (walk m base es) as [p|]; [|done]. simpl. intros (n & Hn & En)%child_inv; [|done]. destruct (IH p eq_refl) as (es' & Hch & E).
  exists (es' ++ [n]). split; [by econstructor|]. unfold folds in *. rewrite !fmap_app, E. simpl. by rewrite En.
Qed.

Lemma chain_inj m base es1 es2 j : tree_ok m → chain m base es1 j → chain m base es2 j → es1 = es2.
Proof.
  intros Ht H1. revert es2. induction H1 as [|es p e c H1 IH Hn]; intros es2 H2; [by rewrite (chain_base _ _ _ Ht H2)|].
  inversion H2 as [E1 E2|es' p' e' c' H2' Hn' E1 E2]; subst.
  - assert (es ++ [e] = []) as E by (eapply chain_base; [done|]; by econstructor). by destruct es.
  - rewrite Hn in Hn'. injection Hn' as -> ->. by rewrite (IH es').
Qed.

Lemma walk_inj m base es1 es2 j : reg_ok to_lower m → walk m base es1 = Some j → walk m base es2 = Some j → folds es1 = folds es2.
Proof.
  intros Hok (fs1 & Hc1 & <-)%walk_chain (fs2 & Hc2 & <-)%walk_chain; [|done..]. by rewrite (chain_inj _ _ _ _ _ (ro_tree _ _ Hok) Hc1 Hc2).
Qed.

Lemma walk_fold m es1 : ∀ es2 p, folds es1 = folds es2 → walk m p es1 = walk m p es2.
Proof.
  induction es1 as [|e1 es1 IH]; intros [|e2 es2] p; try done. intros [= E Es]. change (e1 :: es1) with ([e1] ++ es1). change (e2 :: es2) with ([e2] ++ es2).
  rewrite !walk_app. assert (walk m p [e1] = walk m p [e2]) as ->.
  { change (child m p e1 = child m p e2). apply child_same_name. unfold same_name. by apply bool_decide_eq_true. }
  destruct (walk m p [e2]); [|done]. simpl. by apply IH.
Qed.

Lemma chain_app m base es p fs j : chain m base es p → chain m p fs j → chain m base (es ++ fs) j.
Proof. intros H1. induction 1 as [|fs q e c H2 IH Hn]; [by rewrite app_nil_r|]. rewrite app_assoc. by econstructor. Qed.

Lemma chain_cons_inv m k e fs j : chain m k (e :: fs) j → ∃ c, named m c = Some (e, Some k) ∧ chain m c fs j.
Proof.
  remember (e :: fs) as es eqn:E. intros H. revert e fs E. induction H as [|es p n c H IH Hn]; intros e fs E; [done|]. destruct es as [|d es].
  - injection E as <- <-. inversion H as [E1 E2|]; subst; [|by destruct es]. exists c. split; [done|constructor].
  - injection E as -> <-. destruct (IH e es eq_refl) as (c1 & Hn1 & Hc1). exists c1. split; [done|]. by econstructor.
Qed.

(** ** The sections of a tree *)

Lemma elem_of_concat {A} (x : A) ls : x ∈ concat ls ↔ ∃ l, x ∈ l ∧ l ∈ ls.
Proof. rewrite list_elem_of_In, in_concat. split; intros (l & H1 & H2); exists l; rewrite <-!list_elem_of_In in *; done. Qed.

Definition saved (ob : key) : bool := negb (bool_decide (values ob = [])) || bool_decide (subs ob = []).

Lemma tree_secs_sound m base n : reg_ok to_lower m → ∀ es k sec, chain m base es k → sec ∈ tree_secs n m es k →
  ∃ j ob, chain m base (se_path sec) j ∧ m !! j = Some ob ∧ se_values sec = values ob.
Proof.
  intros Hok. induction n as [|n IH]; intros es k sec Hch; cbn [tree_secs]; [by intros ?%elem_of_nil|]. destruct (m !! k) as [ob|] eqn:Hk; [|by intros ?%elem_of_nil].
  intros [Hin|(l & Hin & (c & -> & Hc)%list_elem_of_fmap)%elem_of_concat]%elem_of_app.
  - case_match; [|by apply elem_of_nil in Hin]. apply list_elem_of_singleton in Hin as ->. by exists k, ob.
  - apply (IH (es ++ [kname m c]) c sec); [|done]. eapply chain_snoc; [done|]. by apply (sub_named_at m k ob); [apply Hok|].
Qed.

Lemma tree_secs_complete rank m : reg_ok to_lower m → ranked rank m → ∀ fs n es k j ob, chain m k fs j → m !! j = Some ob → saved ob = true → (size m <= n + rank k)%nat →
  Section_ (es ++ fs) (k_modif ob) (values ob) ∈ tree_secs n m es k.
Proof.
  intros Hok Hr. induction fs as [|e fs IH]; intros n es k j ob Hch Hj Hs Hn.
  - inversion Hch; subst; [|by destruct es0]. destruct n as [|n]; [destruct Hr as [Hr _]; specialize (Hr j ltac:(by eexists)); lia|].
    cbn [tree_secs]. rewrite Hj. unfold saved in Hs. rewrite Hs, app_nil_r. by apply elem_of_app; left; apply list_elem_of_singleton.
  - apply chain_cons_inv in Hch as (c & Hc & Hch). destruct (tree_rank _ _ _ _ _ Hr Hc) as [Hrc (kob & kn & Hk & _)%named_inv_ex].
    assert (rank k < size m)%nat by (apply Hr; by eexists). destruct n as [|n]; [lia|]. cbn [tree_secs]. rewrite Hk. apply elem_of_app. right. apply elem_of_concat.
    exists (tree_secs n m (es ++ [kname m c]) c). split.
    + rewrite (named_kname _ _ _ _ Hc), (cons_middle e es fs), app_assoc. apply (IH n (es ++ [e]) c j ob); [done..|lia].
    + apply list_elem_of_fmap. exists c. split; [done|]. apply (so_subs _ _ _ _ (no_subkeys _ _ _ _ (ro_nodes _ _ Hok k kob Hk))). by eexists.
Qed.

(** Below every key there is one that is saved. *)
Lemma saved_below rank m : reg_ok to_lower m → ranked rank m → ∀ n k ob, m !! k = Some ob → (size m <= n + rank k)%nat →
  ∃ fs j job, chain m k fs j ∧ m !! j = Some job ∧ saved job = true.
Proof.
  intros Hok Hr. induction n as [|n IH]; intros k ob Hk Hn; [destruct Hr as [Hr _]; specialize (Hr k ltac:(by eexists)); lia|].
  destruct (subs ob) as [|c cs] eqn:Es.
  - exists [], k, ob. split_and!; [constructor|done|]. unfold saved. rewrite Es. by rewrite orb_true_r.
  - assert (named m c = Some (kname m c, Some k)) as Hc by (apply (sub_named_at m k ob); [by apply Hok|]; rewrite Es; left).
    destruct (named_inv _ _ _ Hc) as (cob & Hcob & _). destruct (tree_rank _ _ _ _ _ Hr Hc) as [Hrc _]. destruct (IH c cob Hcob ltac:(lia)) as (fs & j & job & Hch & Hj & Hs).
    exists ([kname m c] ++ fs), j, job. split; [|done]. eapply chain_app; [|done]. by eapply (chain_snoc m k [] k); [constructor|].
Qed.

(** ** Loading what was saved *)

Lemma over_cases vs n : (∃ r, ∀ d, over to_lower vs n d = Some r) ∨ (∀ d, over to_lower vs n d = d).
Proof.
  unfold over. induction vs as [|v vs IH]; [by right|]. simpl. destruct (same_name to_lower (v_name v) n); [|done].
  left. destruct IH as [[r Hr]|Hd]; eexists; intros d; [apply Hr|apply Hd].
Qed.

Lemma foldl_over {A} (f : A → bool) (g : A → list key_value) vs n l : (∀ a, a ∈ l → f a = true → g a = vs) → ∀ d,
  foldl (λ d a, if f a then over to_lower (g a) n d else d) d l = if existsb f l then over to_lower vs n d else d.
Proof.
  induction l as [|a l IH]; intros Hg d; [done|]. cbn [foldl existsb]. rewrite IH by (intros b Hb; apply Hg; by right). destruct (f a) eqn:E; [|done]. simpl. rewrite (Hg a) by (done || left).
  destruct (existsb f l); [|done]. destruct (over_cases vs n) as [[r Hr]|Hd]; [by rewrite !Hr|by rewrite !Hd].
Qed.

(** The names and values of a registry that its files can hold. *)
Record savable (m : gmap kid key) : Prop := {
  sv_plain : plain m;
  sv_class : no_class m;
  sv_names : ∀ c name p, named m c = Some (name, Some p) → element_ok name ∧ Forall wide name ∧ char_at name ≠ 0;
  sv_root : ∀ c name, named m c = Some (name, None) → Forall wide name;
  sv_values : ∀ j ob, m !! j = Some ob → Forall value_wf (values ob);
}.

Lemma chain_names m base es j : savable m → chain m base es j → Forall element_ok es ∧ Forall (Forall wide) es ∧ Forall (λ e, char_at e ≠ 0) es.
Proof.
  intros Hs. induction 1 as [|es p e c Hc (A & B & C) Hn]; [done|]. destruct (sv_names _ Hs c e p Hn) as (D & E & F). rewrite !Forall_app, !Forall_singleton. by split_and!.
Qed.

Lemma tree_secs_wf m base n : reg_ok to_lower m → savable m → Forall section_wf (tree_secs n m [] base).
Proof.
  intros Hok Hs. apply Forall_forall. intros sec (j & ob & Hch & Hj & Ev)%(tree_secs_sound m base n Hok); [|constructor]. destruct (chain_names _ _ _ _ Hs Hch) as (A & B & C).
  split; [done|done| |rewrite Ev; by eapply sv_values]. intros E. destruct (se_path sec) as [|e es]; [done|]. exfalso. apply Forall_cons in C as [C _]. apply Forall_cons in A as [[A _ _] _].
  destruct e as [|c e]; [done|]. apply C. by destruct es.
Qed.

(** The comment of the file holds no end of line. *)
Lemma dump_path_printable rank n : ∀ k s, ranked rank (keys s) → (∀ c name p, named (keys s) c = Some (name, p) → Forall wide name) → is_Some (named (keys s) k) → (rank k <= n)%nat →
  wp (dump_path n k None) (λ r s', s' = s ∧ Forall printable r) s.
Proof.
  induction n as [|n IH]; intros k s Hr Hw Hk Hn; destruct (named_inv_ex _ _ Hk) as (ob & [name p] & Hob & Hnm); cbn [dump_path];
    apply wp_bind, (wp_get_key _ ob); try done; apply wp_bind, (wp_get_parent k ob name p); try done; apply wp_bind; unfold name_of; rewrite Hnm; apply wp_ret; apply wp_bind.
  all: assert (Forall wide name) as Hwn by (apply (Hw k name p); rewrite (named_key _ _ _ Hob); done).
  all: destruct p as [p|]; [rewrite bool_decide_eq_false_2 by done; destruct (tree_rank _ k name p _ Hr ltac:(by rewrite (named_key _ _ _ Hob))) as [Hrp Hpn]|apply wp_ret, wp_ret; split; [done|]; by apply dump_strW_printable].
  - lia.
  - apply wp_bind. eapply wp_mono; [apply IH; [done..|lia]|]. intros r s' [-> Hp]. apply wp_ret, wp_ret. split; [done|]. rewrite !Forall_app. split_and!; [done|by repeat constructor|by apply dump_strW_printable].
Qed.

(** The file of a tree. *)
Lemma save_all_ok base s : reg_inv s → live s base → savable (keys s) →
  wp (save_all_subkeys base) (λ r s', s' = s ∧ ∃ path, Forall printable path ∧ r = file_text path (prefix_type s) (tree_secs (size (keys s)) (keys s) [] base)) s.
Proof.
  intros Hi Hl Hs. destruct (ro_tree _ _ (proj1 Hi)) as [rank Hr]. destruct (live_named to_lower s base Hi Hl) as (ob & nm & Hb & Hbn). unfold save_all_subkeys.
  apply wp_bind, wp_get, wp_bind. assert (rank base < size (keys s))%nat by (apply Hr; by eexists).
  eapply wp_mono; [apply (dump_path_printable rank); [done| |by eexists; rewrite (named_key _ _ _ Hb)|lia]|].
  { intros c name [p|] Hn; [by eapply sv_names|by eapply sv_root]. }
  intros path s' [-> Hp]. apply wp_bind. eapply wp_mono; [apply (save_subkeys_ok rank base (size (keys s)) [] base ob); [done..|apply Hs|apply Hs|constructor|done|lia]|].
  intros r s' [-> ->]. apply wp_ret. split; [done|]. exists path. done.
Qed.

(** Every key of the tree is found again, with its values over those that were there. *)
Lemma loaded_tree s s2 s' base base2 : reg_inv s → live s base → savable (keys s) → loaded to_lower base2 (tree_secs (size (keys s)) (keys s) [] base) s2 s' →
  ∀ es j ob, chain (keys s) base es j → keys s !! j = Some ob → ∃ c, walk (keys s') base2 es = Some c ∧ ∀ n, val to_lower (keys s') c n = over to_lower (values ob) n (val to_lower (keys s2) c n).
Proof.
  intros [Hok _] Hl Hs [Hm Hf] es j ob Hch Hj. destruct (ro_tree _ _ Hok) as [rank Hr]. set (secs := tree_secs _ _ _ _) in *.
  assert (Hin : ∀ es' j' job, chain (keys s) base es' j' → keys s !! j' = Some job → saved job = true → Section_ es' (k_modif job) (values job) ∈ secs).
  { intros es' j' job Hch' Hj' Hsv. apply (tree_secs_complete rank (keys s) Hok Hr es' _ [] base j' job); try done. lia. }
  assert (is_Some (walk (keys s') base2 es)) as [c Hc].
  { destruct (saved_below rank (keys s) Hok Hr (size (keys s)) j ob Hj ltac:(lia)) as (fs & j' & job & Hch' & Hj' & Hsv).
    pose proof (proj1 (Forall_forall _ _) Hf _ (Hin _ _ _ (chain_app _ _ _ _ _ _ Hch Hch') Hj' Hsv)) as [d Hd]. cbn [se_path] in Hd.
    rewrite walk_app in Hd. destruct (walk (keys s') base2 es); [by eexists|done]. }
  exists c. split; [done|]. intros n. rewrite (mv_val _ _ _ _ Hm). unfold set_sections.
  assert (Hsame : ∀ sec, sec ∈ secs → bool_decide (walk (keys s') base2 (se_path sec) = Some c) = true → se_values sec = values ob).
  { intros sec (j' & job & Hch' & Hj' & ->)%(tree_secs_sound _ base _ Hok) Hw%bool_decide_eq_true; [|constructor].
    pose proof (walk_inj _ _ _ _ _ (proj1 (mv_inv _ _ _ _ Hm)) Hw Hc) as E. apply (walk_fold (keys s) _ _ base) in E. rewrite !(chain_walk _ _ _ _ Hok Hch), (chain_walk _ _ _ _ Hok Hch') in E. congruence. }
  rewrite (foldl_over (λ sec, bool_decide (walk (keys s') base2 (se_path sec) = Some c)) se_values (values ob) n secs Hsame).
  destruct (existsb _ secs) eqn:Ex; [done|]. destruct (saved ob) eqn:Hsv.
  - pose proof (Hin es j ob Hch Hj Hsv) as Hsec. assert (existsb (λ sec, bool_decide (walk (keys s') base2 (se_path sec) = Some c)) secs = true) as E; [|congruence].
    apply existsb_exists. eexists. split; [by apply list_elem_of_In|]. by apply bool_decide_eq_true.
  - unfold saved in Hsv. apply orb_false_iff in Hsv as [Hv _]. apply negb_false_iff, bool_decide_eq_true in Hv. by rewrite Hv.
Qed.

(** Where no path of the tree leads, nothing changes. *)
Lemma loaded_apart s s2 s' base base2 c : reg_inv s → loaded to_lower base2 (tree_secs (size (keys s)) (keys s) [] base) s2 s' →
  (∀ es j, chain (keys s) base es j → walk (keys s') base2 es ≠ Some c) → ∀ n, val to_lower (keys s') c n = val to_lower (keys s2) c n.
Proof.
  intros [Hok _] [Hm _] Hno n. rewrite (mv_val _ _ _ _ Hm). unfold set_sections. set (secs := tree_secs _ _ _ _).
  rewrite (foldl_over (λ sec, bool_decide (walk (keys s') base2 (se_path sec) = Some c)) se_values [] n secs); [by case_match|].
  intros sec (j & ob & Hch & _)%(tree_secs_sound _ base _ Hok) Hw%bool_decide_eq_true; [|constructor]. by destruct (Hno _ _ Hch).
Qed.
End save.
