(* ===== verification/RegistrySpecs.v ===== *)
(** * What the registry promises (server/registry.c)

    The properties of values and of registry files, each with a concrete registry
    on which it applies. *)

From stdpp Require Import base list gmap fin_maps.
From S2P Require Import Prelude RegText RegTextThms Registry RegFile RegistryInv RegistryThms RegistryKeys RegistryCreate RegistryRename RegistryMachine RegFileThms.

Open Scope Z_scope.
Open Scope server_scope.

(** ** A registry *)

(** The case map on ASCII. *)
Definition ascii_lower (c : Z) : Z := if (65 <=? c) && (c <=? 90) then c + 32 else c.

Definition no_info : file_load_info := LoadInfo [] [] 4 4 0.
Definition demo_value : key_value := KeyValue [65; 98] REG_DWORD [1; 2; 3; 4].

(** A root with a value "Ab" and a volatile subkey "V", which has none. *)
Definition demo_root : key := Key (Some ([82], None)) None 0 8 (Some 2%positive :: replicate 7 None) None
  0 8 (Some demo_value :: replicate 7 None) 0 5 [].
Definition demo_sub : key := Key (Some ([86], Some 1%positive)) None (-1) 0 [] None (-1) 0 [] KEY_VOLATILE 5 [].
Definition demo_reg : reg := Reg {[1%positive := demo_root; 2%positive := demo_sub]} 7 0 [] 0 [] no_info 1 0.

Lemma demo_tree ob : k_name ob = Some ([82], None) → tree_ok {[1%positive := ob; 2%positive := demo_sub]}.
Proof.
  intros Hn. exists (λ k, if bool_decide (k = 1%positive) then 0%nat else 1%nat). split.
  - intros k _. rewrite map_size_insert_None, map_size_singleton by done. case_bool_decide; lia.
  - intros k o name p Hk Hp. destruct (decide (k = 1%positive)) as [->|Hne].
    + rewrite lookup_insert_eq in Hk. congruence.
    + rewrite lookup_insert_ne in Hk by done. apply lookup_singleton_Some in Hk as [<- <-]. simpl in Hp. simplify_eq. split; [simpl; lia|].
      exists ob, ([82], None). by rewrite lookup_insert_eq.
Qed.

Lemma demo_key_ok : key_ok ascii_lower 1%positive demo_root demo_reg.
Proof.
  split; [by apply demo_tree|done|by eexists|]. apply (values_ok_intro ascii_lower demo_root [demo_value]); try done.
  - by right.
  - by intros [|i] [|j] a b Ha Hb Hij; try lia.
  - repeat constructor. simpl. unfold MAX_VALUE_LEN. lia.
Qed.

Lemma demo_reg_ok : reg_ok ascii_lower (keys demo_reg).
Proof.
  assert (Hv : values_ok ascii_lower demo_root) by apply demo_key_ok. assert (Hn : ∀ c name p, named (keys demo_reg) c = Some (name, Some p) ↔ c = 2%positive ∧ name = [86] ∧ p = 1%positive).
  { intros c name p. unfold named, demo_reg. simpl. destruct (decide (c = 1%positive)) as [->|]; [rewrite lookup_insert_eq; naive_solver|].
    rewrite lookup_insert_ne by done. destruct (decide (c = 2%positive)) as [->|]; [rewrite lookup_singleton_eq; naive_solver|]. rewrite lookup_singleton_ne by done. naive_solver. }
  split; [by apply demo_tree|]. intros k ob Hk. simpl in Hk. destruct (decide (k = 1%positive)) as [->|Hne].
  - rewrite lookup_insert_eq in Hk. injection Hk as <-. split; [done| |by unfold fits|done]. split; [by split; [..|right]| |by intros [|i] [|j] a b Ha Hb Hij; try lia|done].
    intros c. change (subs demo_root) with [2%positive]. rewrite list_elem_of_singleton. split; [intros ->; by exists [86]|]. by intros [name (-> & _)%Hn].
  - rewrite lookup_insert_ne in Hk by done. apply lookup_singleton_Some in Hk as [<- <-]. apply leaf_ok; [by split| |by unfold fits|done].
    intros c name E. apply Hn in E. naive_solver.
Qed.

Lemma demo_settled : settled (keys demo_reg).
Proof.
  intros k ob Hk. simpl in Hk. destruct (decide (k = 1%positive)) as [->|Hne]; [rewrite lookup_insert_eq in Hk; by injection Hk as <-|].
  rewrite lookup_insert_ne in Hk by done. by apply lookup_singleton_Some in Hk as [<- <-].
Qed.

(** ** The tree of keys *)

(** C21: From a registry with a valid tree every sequence of operations leads to one with a
    valid tree: each key is in the array of the key it is named in, once and in the
    order of the names without regard to case, the parents form a forest, the values of
    each key are sorted, and a key without a name is a deleted one.  Every operation
    that is enabled there completes, whatever memory it gets. *)
Theorem registry_invariant to_lower s0 s : reg_inv to_lower s0 → rtc (reg_step to_lower) s0 s →
  reg_inv to_lower s ∧ ∀ op, op_enabled to_lower s op → ∃ s', run_op to_lower op s = Done tt s'.
Proof.
  intros H0 Hrun. pose proof (reg_steps_inv to_lower s0 s Hrun H0) as Hs. split; [done|]. intros op Hen. pose proof (run_op_ok to_lower op s Hs Hen) as H.
  unfold wp in H. destruct (run_op to_lower op s) as [[] s'|]; [by exists s'|done].
Qed.

Lemma registry_invariant_witness : ∃ s, reg_step ascii_lower demo_reg s ∧ reg_inv ascii_lower s.
Proof.
  assert (op_enabled ascii_lower demo_reg (op_delete_key 2 false)) as Hen by (exists demo_sub; by split).
  destruct (proj2 (registry_invariant ascii_lower demo_reg demo_reg (conj demo_reg_ok demo_settled) (rtc_refl _ _)) _ Hen) as [s Hs].
  exists s. assert (reg_step ascii_lower demo_reg s) as Hst by (by exists (op_delete_key 2 false)). split; [exact Hst|].
  exact (proj1 (registry_invariant ascii_lower demo_reg s (conj demo_reg_ok demo_settled) (rtc_once _ _ Hst))).
Defined.

(** Creating a key under a name its parent does not have: the parent has the name and no
    name of another key changes, the key is new, has no subkeys or values and the class
    and flags asked for.  When memory is short, or a key that is not volatile is asked for
    in a volatile one, the error says so and every name stands for what it did, though the key
    was entered in the array before that was found out. *)
Theorem create_key_spec to_lower p pob name class options modif s : reg_ok to_lower (keys s) → keys s !! p = Some pob → is_Some (k_name pob) → fits name →
  child to_lower (keys s) p name = None →
  wp (create_key to_lower p name class options modif) (λ r s', reg_ok to_lower (keys s') ∧
    match r with
    | Some k => keys s !! k = None ∧ rg_error s' = rg_error s ∧ child_error options pob = false ∧
        keys s' !! k = Some (fresh_key (Some (name, Some p)) (init_class class) (init_flags options) modif) ∧
        (∀ q n, q ≠ k → child to_lower (keys s') q n = if bool_decide (q = p) && same_name to_lower name n then Some k else child to_lower (keys s) q n)
    | None => (rg_error s' = REG_NO_MEMORY ∧ rg_allocs s ≠ [] ∨ rg_error s' = REG_CHILD_MUST_BE_VOLATILE ∧ child_error options pob = true) ∧
        ∀ q n, child to_lower (keys s') q n = child to_lower (keys s) q n
    end) s.
Proof.
  intros Hok Hp Hpn Hfit Hch. eapply wp_mono; [by apply (create_key_ok to_lower p pob name)|]. intros r s' Hout. pose proof (create_child _ _ _ _ _ _ _ _ _ _ Hok Hp Hout) as Hc.
  destruct Hout as [Hok' H]. split; [done|]. destruct r as [k|].
  - destruct H as (? & ? & ? & _ & ? & _). split_and!; try done. intros q n Hq. apply Hc. congruence.
  - destruct H as (Herr & _). split; [done|]. intros q n. by apply Hc.
Qed.

Lemma create_key_spec_witness : wp (create_key ascii_lower 1 [65] [] REG_OPTION_VOLATILE 9) (λ r s', ∃ k, r = Some k ∧
  child ascii_lower (keys s') 1 [97] = Some k ∧ child ascii_lower (keys s') 1 [118] = Some 2%positive) demo_reg.
Proof.
  eapply wp_mono; [apply (create_key_spec ascii_lower 1 demo_root [65] [] REG_OPTION_VOLATILE 9 demo_reg demo_reg_ok); [reflexivity|by eexists|by unfold fits|reflexivity]|].
  intros [k|] s' [_ H].
  - destruct H as (Hk & _ & _ & _ & Hc). assert (1%positive ≠ k) as Hne by (intros <-; done). exists k. split; [reflexivity|]. rewrite !Hc by done. by split.
  - destruct H as [[[_ H]|[_ H]] _]; done.
Defined.

(** C23: Deleting a key of a valid tree, with fuel the number of keys: on success
    exactly the key and, if so asked, all the keys below it are gone, which have lost name
    and place and are marked as deleted; every other key keeps name, class, values and its
    other subkeys.  It is refused for a root, for a key that has subkeys without the
    order to delete them, and for a predefined key; some keys below may then be gone,
    the key itself is not. *)
Theorem delete_key_spec to_lower k ob recurse s : reg_ok to_lower (keys s) → keys s !! k = Some ob → is_Some (k_name ob) →
  wp (delete_key (size (keys s)) k recurse) (λ r s', reg_ok to_lower (keys s') ∧ ∃ gone, pruned gone (keys s) (keys s') ∧ (∀ j, j ∈ gone → descends (keys s) k j) ∧
    if r then rg_error s' = rg_error s ∧ (∀ j, descends (keys s) k j → j ∈ gone) else k ∉ gone ∧ delete_refused k ob recurse (rg_error s') (keys s)) s.
Proof. apply delete_key_ok. Qed.

Lemma delete_key_spec_witness : wp (delete_key 2 2 true) (λ r s', r = true ∧ named (keys s') 2 = None ∧ child ascii_lower (keys s') 1 [86] = None) demo_reg.
Proof.
  eapply wp_mono; [apply (delete_key_spec ascii_lower 2 demo_sub true demo_reg demo_reg_ok); [reflexivity|by eexists]|]. intros r s' (Hok & gone & Hp & Hb & H).
  assert (r = true) as ->.
  { destruct r; [reflexivity|]. destruct H as [_ [(_ & [[? ?]|[? _]])|(_ & j & job & _ & Hj & Hf)]]; [done..|]. simpl in Hj.
    destruct (decide (j = 1%positive)) as [->|Hne]; [rewrite lookup_insert_eq in Hj; by injection Hj as <-|]. rewrite lookup_insert_ne in Hj by done. by apply lookup_singleton_Some in Hj as [<- <-]. }
  destruct H as [_ Hall]. assert (2%positive ∈ gone) as H2 by (apply Hall, rtc_refl). split; [reflexivity|]. split; [by rewrite (pruned_named gone (keys demo_reg)), decide_True|].
  destruct (pruned_l gone (keys demo_reg) (keys s') 1 demo_root Hp eq_refl) as (ob' & Hob & [_ _ _ _ Hs]). unfold child. rewrite Hob. simpl. rewrite Hs.
  change (subs demo_root) with [2%positive]. rewrite filter_cons_False by (intros Hn; by apply Hn). reflexivity.
Defined.

(** Renaming a key: it keeps its place in its parent under the new name alone, at the
    place of that name in the order of the array, and no other name, value or class changes.  It is refused
    for a path, an empty or a long name, a root, a name that is taken, the old one included, and
    for the name or the key that stands for 32-bit views. *)
Theorem rename_key_spec to_lower k kob old parent new s : reg_ok to_lower (keys s) → keys s !! k = Some kob → k_name kob = Some (old, parent) →
  wp (rename_key to_lower k new) (λ _ s', reg_ok to_lower (keys s') ∧
    match rename_error to_lower (keys s) k parent new with
    | Some e => rg_error s' = e ∧ keys s' = keys s
    | None => rg_error s' = REG_NO_MEMORY ∧ rg_allocs s ≠ [] ∧ keys s' = keys s ∨
        rg_error s' = rg_error s ∧ ∃ p, parent = Some p ∧ renamed to_lower k p old new (keys s) (keys s')
    end) s.
Proof. apply rename_key_ok. Qed.

Lemma rename_key_spec_witness : wp (rename_key ascii_lower 2 [87]) (λ _ s', child ascii_lower (keys s') 1 [119] = Some 2%positive ∧ child ascii_lower (keys s') 1 [86] = None) demo_reg.
Proof.
  eapply wp_mono; [apply (rename_key_spec ascii_lower 2 demo_sub [86] (Some 1%positive) [87] demo_reg demo_reg_ok); reflexivity|].
  intros [] s' [_ H]. change (rename_error _ _ _ _ _) with (None : option Z) in H. destruct H as [(_ & H & _)|(_ & p & Hp & [_ Hc _])]; [done|].
  injection Hp as <-. rewrite !Hc. by split.
Defined.

(** ** Values *)

(** C22: Setting a value of a key of a valid tree: the name, compared without regard
    to case, has the new type and data, every other name of the key keeps what it
    had, the array of values stays sorted, and the other keys change in nothing but
    time, mark and notifications.  Otherwise the error is that of a predefined key, a symbolic
    link that takes only its link value, a name that is too long, or memory,
    and no value has changed. *)
Theorem set_value_spec to_lower k ob name type data s : key_ok to_lower k ob s → fits name →
  wp (set_value to_lower k name type data) (λ _ s', ∃ ob', changed to_lower k ob ob' s s' ∧
    (rg_error s' = REG_NO_MEMORY ∧ rg_allocs s ≠ [] ∧ values ob' = values ob ∨
     match set_value_error to_lower ob name type data with
     | Some e => rg_error s' = e ∧ values ob' = values ob
     | None => rg_error s' = rg_error s ∧
         ∀ n, value_at to_lower ob' n = if same_name to_lower name n then Some (type, data) else value_at to_lower ob n
     end)) s.
Proof. apply set_value_ok. Qed.

Lemma set_value_spec_witness : wp (set_value ascii_lower 1 [97; 66] REG_BINARY [9]) (λ _ s', ∃ ob',
    keys s' !! 1%positive = Some ob' ∧ value_at ascii_lower ob' [65; 66] = Some (REG_BINARY, [9])) demo_reg.
Proof.
  eapply wp_mono; [apply (set_value_spec ascii_lower 1 demo_root [97; 66] REG_BINARY [9] demo_reg demo_key_ok); unfold fits; simpl; lia|].
  intros [] s' (ob' & (Hk & _) & [(_ & H & _)|[_ H]]); [done|]. exists ob'. split; [exact Hk|]. rewrite H. reflexivity.
Defined.

(** Querying a value changes no key and returns exactly what the name, without regard
    to case, stands for; a name without a value is reported as missing. *)
Theorem get_value_spec to_lower k ob name s : key_ok to_lower k ob s → fits name →
  wp (get_value to_lower k name) (λ r s', keys s' = keys s ∧ reg_env s s' ∧
    if has (k_flags ob) KEY_PREDEF then r = None ∧ rg_error s' = REG_INVALID_HANDLE
    else r = value_at to_lower ob name ∧ rg_error s' = (if r then rg_error s else REG_NAME_NOT_FOUND)) s.
Proof. apply get_value_ok. Qed.

Lemma get_value_spec_witness : wp (get_value ascii_lower 1 [97; 66]) (λ r _, r = Some (REG_DWORD, [1; 2; 3; 4])) demo_reg.
Proof.
  eapply wp_mono; [apply (get_value_spec ascii_lower 1 demo_root [97; 66] demo_reg demo_key_ok); unfold fits; simpl; lia|].
  intros r s' (_ & _ & -> & _). reflexivity.
Defined.

(** Deleting a value: the name stands for nothing, every other name keeps its
    value, the array stays sorted though it may have been shrunk; a missing name is
    reported and nothing changes. *)
Theorem delete_value_spec to_lower k ob name s : key_ok to_lower k ob s → fits name →
  wp (delete_value to_lower k name) (λ _ s', ∃ ob', changed to_lower k ob ob' s s' ∧
    if has (k_flags ob) KEY_PREDEF then rg_error s' = REG_INVALID_HANDLE ∧ values ob' = values ob
    else match value_at to_lower ob name with
         | None => rg_error s' = REG_NAME_NOT_FOUND ∧ values ob' = values ob
         | Some _ => rg_error s' = rg_error s ∧
             ∀ n, value_at to_lower ob' n = if same_name to_lower name n then None else value_at to_lower ob n
         end) s.
Proof. apply delete_value_ok. Qed.

Lemma delete_value_spec_witness : wp (delete_value ascii_lower 1 [97; 66]) (λ _ s', ∃ ob',
    keys s' !! 1%positive = Some ob' ∧ value_at ascii_lower ob' [65; 98] = None) demo_reg.
Proof.
  eapply wp_mono; [apply (delete_value_spec ascii_lower 1 demo_root [97; 66] demo_reg demo_key_ok); unfold fits; simpl; lia|].
  intros [] s' (ob' & (Hk & _) & _ & H). exists ob'. split; [exact Hk|]. rewrite H. reflexivity.
Defined.

(** ** Text *)

(** A string written with [dump_strW] is read back by [parse_strW], whatever
    its characters, NUL and surrogates included, up to the closing character and no
    further, into any buffer with room for it and a NUL. *)
Theorem strW_roundtrip str e1 e2 endchar rest cap : Forall wide str → escapable e1 → escapable e2 → endchar = e1 ∨ endchar = e2 →
  endchar ≠ BACKSLASH → isxdigit endchar = false → Z.of_nat (length str) < cap →
  parse_strW cap (dump_strW str e1 e2 ++ endchar :: rest) endchar = Some (str ++ [0], Z.of_nat (length (dump_strW str e1 e2)) + 1).
Proof. apply parse_dump_strW. Qed.

Lemma strW_roundtrip_witness :
  parse_strW 6 (dump_strW [0; 55; 34; 92; 0xD83D] QUOTE QUOTE ++ [QUOTE; 61]) QUOTE = Some ([0; 55; 34; 92; 0xD83D; 0], 16).
Proof.
  rewrite (strW_roundtrip [0; 55; 34; 92; 0xD83D] QUOTE QUOTE QUOTE [61] 6); [reflexivity| | | |by left|done|done|simpl; lia].
  - repeat constructor; unfold wide; lia.
  - apply escapable_quote.
  - apply escapable_quote.
Defined.

(** A value that [dump_value] wrote to a registry file is loaded as it was: with
    memory enough the line and its continuation lines are read, the name has the type
    and the data of the value again, whatever bytes they are, no other value
    of the key changes, and the text behind the value is left to read. *)
Theorem load_dump_value to_lower k ob v rest s : key_ok to_lower k ob s → value_wf v → reading s (dump_value v ++ rest) →
  wp (r <- read_next_line; i <- get; ok <- load_value to_lower k (li_buffer (rg_info i)); ret (r, ok))
     (λ r s', r = (1, true) ∧ reading s' rest ∧ ∃ ob', changed to_lower k ob ob' s s' ∧
        ∀ n, value_at to_lower ob' n = if same_name to_lower (v_name v) n then Some (v_type v, v_data v) else value_at to_lower ob n) s.
Proof. apply read_value_ok. Qed.

(** Thirty bytes of an unknown type, over two lines. *)
Definition long_value : key_value := KeyValue [34; 0x20AC] 0x80000007 (replicate 30 255).

Lemma load_dump_value_witness :
  wp (r <- read_next_line; i <- get; ok <- load_value ascii_lower 1 (li_buffer (rg_info i)); ret (r, ok))
     (λ r s', r = (1, true) ∧ li_file (rg_info s') = [64] ∧ ∃ ob', keys s' !! 1%positive = Some ob' ∧
        value_at ascii_lower ob' [34; 0x20AC] = Some (0x80000007, replicate 30 255))
     (set_info (LoadInfo (dump_value long_value ++ [64]) [] 4 4 0) demo_reg).
Proof.
  eapply wp_mono; [apply (load_dump_value ascii_lower 1 demo_root long_value [64])|].
  - destruct demo_key_ok. by split.
  - split; simpl; [repeat constructor; unfold wide; lia|unfold MAX_VALUE_LEN; lia|done|repeat constructor; unfold is_byte; lia].
  - by split_and!.
  - intros r s' (-> & (_ & Hf & _) & ob' & (Hk & _) & H). split; [reflexivity|]. split; [exact Hf|]. exists ob'. split; [exact Hk|]. rewrite H. reflexivity.
Defined.

(** A class that was saved comes back longer: [load_key_option] keeps the NUL that
    [parse_strW] appends, and counts it, so that every save and load adds a character
    to the class of the key. *)
Theorem class_grows k ob class file s : keys s !! k = Some ob → Forall wide class → reading s file →
  wp (load_key_option k (CLASS ++ [QUOTE] ++ dump_strW class QUOTE QUOTE ++ [QUOTE]))
     (λ r s', r = true ∧ keys s' = <[k:=k_set_class (Some (class ++ [0])) ob]> (keys s)) s.
Proof.
  intros Hk Hw Hs. unfold load_key_option. wp_steps. change (starts_with TIME (CLASS ++ ?l)) with false. cbn iota. apply wp_bind, wp_ret.
  change (starts_with LINK (CLASS ++ ?l)) with false. change (starts_with CLASS (CLASS ++ ?l)) with true. cbn iota.
  change (drop 7 (CLASS ++ ?l)) with l. change (char_at ([QUOTE] ++ ?l) =? QUOTE) with true. change (tail ([QUOTE] ++ ?l)) with l. cbn [negb]. cbv zeta.
  apply wp_bind, wp_bind. eapply get_file_tmp_space_ok; [exact Hs|]. intros s1 Hr1 Htmp. cbn [negb]. unfold tmp_units. wp_steps. apply wp_ret.
  rewrite parse_dump_strW; try done; [|by left|by apply tmp_room].
  assert (keys s1 = keys s ∧ rg_allocs s1 = []) as [Ek Ha] by (destruct Hr1 as (? & -> & _); split; [done|apply Hs]).
  apply wp_bind, wp_reg_mem_alloc. intros b s2 (Ek2 & _ & _ & Hb). destruct (Hb Ha) as [-> _]. apply wp_bind, (wp_get_key _ ob); [by rewrite Ek2, Ek|].
  apply wp_bind, wp_put_key, wp_ret. cbn [negb]. apply wp_bind, wp_ret, wp_ret. simpl. by rewrite Ek2, Ek.
Qed.

Lemma class_grows_witness :
  wp (load_key_option 1 (CLASS ++ [QUOTE] ++ dump_strW [67; 0] QUOTE QUOTE ++ [QUOTE]))
     (λ r s', r = true ∧ (k_class <$> keys s' !! 1%positive) = Some (Some [67; 0; 0])) demo_reg.
Proof.
  eapply wp_mono; [apply (class_grows 1 demo_root [67; 0] [] demo_reg); [reflexivity|repeat constructor; unfold wide; lia|by split_and!]|].
  intros r s' [-> Hk]. split; [reflexivity|]. rewrite Hk, lookup_insert_eq. reflexivity.
Defined.

(** A key that is not volatile is lost when the registry is saved if it has no
    values, class or link and its subkeys are all volatile: [save_subkeys] writes
    nothing for it, as if its subkeys would bring it back. *)
Theorem save_loses_key n k base ob s : keys s !! k = Some ob → has (k_flags ob) KEY_VOLATILE = false → has (k_flags ob) KEY_SYMLINK = false →
  k_last_value ob = -1 → k_class ob = None → 0 <= k_last_subkey ob →
  Forall (λ c, ∃ sub sob, c = Some sub ∧ keys s !! sub = Some sob ∧ has (k_flags sob) KEY_VOLATILE = true)
    (take (Z.to_nat (k_last_subkey ob + 1)) (k_subkeys ob)) →
  wp (save_subkeys (S (S n)) k base) (λ text s', text = [] ∧ s' = s) s.
Proof.
  intros Hk Hv Hl Hlv Hc Hls Hsubs. cbn [save_subkeys]. apply wp_bind, (wp_get_key _ ob); [done|]. rewrite Hv, Hlv, Hc, Hl.
  rewrite (proj2 (Z.eqb_neq (k_last_subkey ob) (-1))) by lia. cbn [Z.leb Z.compare orb]. apply wp_bind, wp_ret, wp_bind.
  eapply (wp_mono _ (λ t s', t = [] ∧ s' = s)); [|by intros t s' [-> ->]; apply wp_ret].
  induction Hsubs as [|c l (sub & sob & -> & Hsub & Hsv) _ IH]; [by apply wp_ret|]. apply wp_bind, wp_ret, wp_bind.
  apply wp_bind, (wp_get_key _ sob); [done|]. rewrite Hsv. apply wp_ret, wp_bind. eapply wp_mono; [exact IH|]. intros t s' [-> ->]. by apply wp_ret.
Qed.

(** The same root, without its value. *)
Definition bare_root : key := k_set_values (-1) 8 (replicate 8 None) demo_root.
Definition bare_reg : reg := set_keys (<[1%positive := bare_root]>) demo_reg.

Lemma save_loses_key_witness : wp (save_subkeys 2 1 1) (λ text s', text = [] ∧ s' = bare_reg) bare_reg.
Proof.
  apply (save_loses_key 0 1 1 bare_root bare_reg); try reflexivity. constructor; [|constructor].
  exists 2%positive, demo_sub. by split_and!.
Defined.
