(* ===== verification/RegFileSpecs.v ===== *)
(** * What registry files promise (server/registry.c)

    The creation of the keys of a path, the registry that survives its file, and the
    path that stops the server. *)

From stdpp Require Import base list gmap fin_maps.
From S2P Require Import Prelude RegText RegTextThms Registry RegFile RegLoad RegistryInv RegistryThms RegistryKeys RegistryCreate RegistryMachine RegPathThms RegFileThms RegSaveThms RegistrySpecs.

Open Scope Z_scope.
Open Scope server_scope.

(** ** A registry to save, and one to load it in *)

Definition plain_sub : key := k_set_flags KEY_DIRTY demo_sub.
Definition plain_reg : reg := set_keys (<[2%positive := plain_sub]>) demo_reg.
Definition empty_reg : reg := Reg {[1%positive := fresh_key (Some ([82], None)) None 0 0]} 7 0 [] 0 [] no_info 1 0.
Definition no_follow (path : list Z) : R (option (kid * option (list Z))) := ret None.

Lemma plain_lookup k ob : keys plain_reg !! k = Some ob → k = 1%positive ∧ ob = demo_root ∨ k = 2%positive ∧ ob = plain_sub.
Proof.
  simpl. destruct (decide (k = 2%positive)) as [->|]; [rewrite lookup_insert_eq; naive_solver|]. rewrite lookup_insert_ne by done.
  destruct (decide (k = 1%positive)) as [->|]; [rewrite lookup_insert_eq; naive_solver|]. rewrite lookup_insert_ne by done. rewrite lookup_singleton_ne by done. done.
Qed.

Lemma plain_reg_inv : reg_inv ascii_lower plain_reg.
Proof.
  split.
  - apply (update_reg_ok ascii_lower (keys demo_reg) 2 demo_sub); try done; [apply demo_reg_ok|]. by apply (values_ok_intro ascii_lower plain_sub []); try done; left.
  - intros k ob [[-> ->]|[-> ->]]%plain_lookup; done.
Qed.

Lemma plain_savable : savable (keys plain_reg).
Proof.
  split.
  - by intros k ob [[-> ->]|[-> ->]]%plain_lookup.
  - by intros k ob [[-> ->]|[-> ->]]%plain_lookup.
  - intros c name p (ob & [[-> ->]|[-> ->]]%plain_lookup & Hn)%named_inv; [done|]. injection Hn as <- <-. split; [split; [done|by repeat constructor|done]|].
    split; [|done]. repeat constructor; unfold wide; lia.
  - intros c name (ob & [[-> ->]|[-> ->]]%plain_lookup & Hn)%named_inv; [|done]. injection Hn as <-. repeat constructor; unfold wide; lia.
  - intros k ob [[-> ->]|[-> ->]]%plain_lookup; [|done]. constructor; [|done]. split; [repeat constructor; unfold wide; lia|unfold MAX_VALUE_LEN; simpl; lia|done|].
    repeat constructor; unfold is_byte; lia.
Qed.

Lemma empty_lookup k ob : keys empty_reg !! k = Some ob → k = 1%positive ∧ ob = fresh_key (Some ([82], None)) None 0 0.
Proof. simpl. by intros [<- <-]%lookup_singleton_Some. Qed.

Lemma empty_reg_inv : reg_inv ascii_lower empty_reg ∧ plain (keys empty_reg).
Proof.
  split; [split; [split|]|].
  - exists (λ _, 0%nat). split; [intros k _; simpl; rewrite map_size_singleton; lia|]. intros k ob name p [-> ->]%empty_lookup. done.
  - intros k ob Hk. pose proof Hk as [-> ->]%empty_lookup. apply leaf_ok; [apply fresh_leaf| |done|done]. intros c name (o & [-> ->]%empty_lookup & Hn)%named_inv. done.
  - by intros k ob [-> ->]%empty_lookup.
  - by intros k ob [-> ->]%empty_lookup.
Qed.

(** ** Paths *)

(** In a registry without symbolic links, creating a path of valid names from a key
    ends at the key of the path: every name that was there stands for the key it did, no
    key that was there changes but for its list of subkeys, and the keys made have no values.
    It fails only for want of memory or under a volatile key, with the error that says
    so, and the invariant of the registry holds in either case. *)
Theorem create_path_spec to_lower follow modif es n p s : Forall element_ok es → reg_inv to_lower s → no_links (keys s) → live s p → (length es <= n)%nat →
  ∃ r s', create_key_recursive to_lower follow n p (join es) modif s = Done r s' ∧ reg_inv to_lower s' ∧ extends to_lower modif (keys s) (keys s') ∧
    match r with Some c => walk to_lower (keys s') p es = Some c | None => path_failed s s' end.
Proof.
  intros He Hi Hnl Hl Hn. destruct (wp_run _ _ _ (create_path_ok to_lower follow modif es He n p s Hi Hnl Hl Hn)) as (r & s' & E & (_ & ? & ?) & ?). by exists r, s'.
Qed.

Lemma create_path_spec_witness : ∃ c s', create_key_recursive ascii_lower no_follow 2 1 (join [[86]; [66]]) 0 plain_reg = Done (Some c) s' ∧
  walk ascii_lower (keys s') 1 [[86]; [66]] = Some c.
Proof.
  destruct (create_path_spec ascii_lower no_follow 0 [[86]; [66]] 2 1 plain_reg) as (r & s' & E & _ & _ & H).
  - repeat constructor; done.
  - exact plain_reg_inv.
  - intros k ob Hk. by apply (sv_plain _ plain_savable k).
  - by exists demo_root.
  - simpl. lia.
  - destruct r as [c|]; [by exists c, s'|]. exfalso. vm_compute in E. discriminate E.
Defined.

(** The name of a path may hold two backslashes in a row, which leave an empty element
    between them.  The keys before it are made, and the key for the empty
    element is created without a name, which its initialisation reads: the server
    reads through a null pointer.  A registry file with such a key stops it. *)
Theorem empty_element_crash to_lower follow modif es rest n p s : Forall element_ok es → es ≠ [] → reg_inv to_lower s → plain (keys s) → live s p → rg_allocs s = [] →
  (length es <= n)%nat → create_key_recursive to_lower follow n p (join es ++ BACKSLASH :: BACKSLASH :: rest) modif s = Fault NullDeref.
Proof.
  intros He Hne Hi Hp Hl Ha Hn. apply create_path_crash; try done; intros k ob Hk; by apply (Hp k).
Qed.

(** The text "[a\\\\b]", in which each backslash of the path is written twice. *)
Definition crash_file : list Z := FILE_HEADER ++ [NEWLINE; 91; 97; 92; 92; 92; 92; 98; 93; NEWLINE].

Lemma empty_element_crash_witness : create_key_recursive ascii_lower no_follow 2 1 [97; 92; 92; 98] 0 plain_reg = Fault NullDeref ∧
  load_keys ascii_lower no_follow 1 crash_file 0 plain_reg = Fault NullDeref.
Proof.
  split; [|vm_compute; reflexivity]. apply (empty_element_crash ascii_lower no_follow 0 [[97]] [98] 2 1 plain_reg); [repeat constructor; done|done|exact plain_reg_inv| | |done|simpl; lia].
  - exact (sv_plain _ plain_savable).
  - by exists demo_root.
Defined.

(** ** The registry survives *)

(** C24: Saving the keys below [base] and loading the text in a registry below [base2]
    completes, and gives every key of the tree back: at its path there is a key that has the
    values it had, on top of those that were there.  Keys off these paths keep
    their values, and no name of the registry loaded into is lost.  This holds for a
    saved registry without volatile keys, links or classes whose names are valid elements of paths,
    loaded where there are no volatile keys or links and memory suffices. *)
Theorem registry_survives to_lower follow s base s2 base2 : reg_inv to_lower s → live s base → savable (keys s) →
  reg_inv to_lower s2 → plain (keys s2) → live s2 base2 → rg_allocs s2 = [] → arch_ok (prefix_type s) s2 →
  ∃ text s', save_all_subkeys base s = Done text s ∧ load_keys to_lower follow base2 text 0 s2 = Done tt s' ∧ reg_inv to_lower s' ∧
    children_kept to_lower (keys s2) (keys s') ∧
    (∀ es j ob, chain (keys s) base es j → keys s !! j = Some ob →
       ∃ c, walk to_lower (keys s') base2 es = Some c ∧ ∀ n, val to_lower (keys s') c n = over to_lower (values ob) n (val to_lower (keys s2) c n)) ∧
    (∀ c, (∀ es j, chain (keys s) base es j → walk to_lower (keys s') base2 es ≠ Some c) → ∀ n, val to_lower (keys s') c n = val to_lower (keys s2) c n).
Proof.
  intros Hi Hl Hs Hi2 Hp2 Hl2 Ha2 Ht. destruct (wp_run _ _ _ (save_all_ok to_lower base s Hi Hl Hs)) as (text & s1 & E & -> & path & Hp & ->).
  destruct (wp_run _ _ _ (load_keys_ok to_lower follow base2 path (prefix_type s) _ s2 Hi2 Hp2 Hl2 Ha2 Ht Hp (tree_secs_wf to_lower (keys s) base (size (keys s)) (proj1 Hi) Hs))) as ([] & s' & E' & Hld).
  exists (file_text path (prefix_type s) (tree_secs (size (keys s)) (keys s) [] base)), s'. split_and!; [done|done|apply Hld|apply Hld| |].
  - by apply (loaded_tree to_lower s s2 s' base base2).
  - intros c. by apply (loaded_apart to_lower s s2 s' base base2).
Qed.

Lemma registry_survives_witness : ∃ text s', save_all_subkeys 1 plain_reg = Done text plain_reg ∧ load_keys ascii_lower no_follow 1 text 0 empty_reg = Done tt s' ∧
  val ascii_lower (keys s') 1 [97; 66] = Some (REG_DWORD, [1; 2; 3; 4]) ∧ is_Some (walk ascii_lower (keys s') 1 [[118]]).
Proof.
  destruct (registry_survives ascii_lower no_follow plain_reg 1 empty_reg 1) as (text & s' & E1 & E2 & _ & _ & H & _).
  - exact plain_reg_inv.
  - by exists demo_root.
  - exact plain_savable.
  - exact (proj1 empty_reg_inv).
  - exact (proj2 empty_reg_inv).
  - by eexists.
  - reflexivity.
  - intros [H|H]; vm_compute in H; discriminate H.
  - exists text, s'. split_and!; [exact E1|exact E2| |].
    + destruct (H [] 1%positive demo_root) as (c & Hc & Hv); [constructor|reflexivity|]. injection Hc as <-. rewrite Hv. reflexivity.
    + assert (chain (keys plain_reg) 1 ([] ++ [[86]]) 2) as Hch by (apply (chain_snoc _ _ [] 1); [constructor|reflexivity]).
      destruct (H _ 2%positive plain_sub Hch) as (c & Hc & _); [reflexivity|]. exists c. rewrite <-Hc. by apply walk_fold.
Defined.
