(* ===== verification/FileLock.v ===== *)
(** * File locks and sharing (server/fd.c)

    Locks on ranges of files, the Unix locks that stand for them, the Unix file
    descriptors that are kept open for their sake, and the sharing modes of the
    opens of a file.

    The objects are in maps from identifiers, the lists of the C code are lists of
    identifiers.  [fcntl], [close] and [unlink] appear as a list of the calls made;
    the results of [fcntl] are given in advance. *)

From stdpp Require Import base list gmap fin_maps.
From S2P Require Import Prelude.

Open Scope Z_scope.
Open Scope server_scope.

(** ** Data *)

Notation lid := positive (only parsing).
Notation fdid := positive (only parsing).
Notation ino := positive (only parsing).
Notation pid := positive (only parsing).

(** A [file_pos_t], and an [off_t] from its 64 bits. *)
Definition w64 (x : Z) : Z := x mod 18446744073709551616.
Definition off_t (x : Z) : Z := let u := w64 x in if u <? 9223372036854775808 then u else u - 18446744073709551616.
Definition OFF_T_MAX : Z := 9223372036854775807.
Definition FILE_POS_T_MAX : Z := 18446744073709551615.
Definition INT_MAX : Z := 2147483647.

Definition ST_PENDING : Z := 259.                        (* 0x00000103 *)
Definition ST_INVALID_HANDLE : Z := 3221225480.          (* 0xC0000008 *)
Definition ST_INVALID_PARAMETER : Z := 3221225485.       (* 0xC000000D *)
Definition ST_INVALID_DEVICE_REQUEST : Z := 3221225488.  (* 0xC0000010 *)
Definition ST_NO_MEMORY : Z := 3221225495.               (* 0xC0000017 *)
Definition ST_ACCESS_DENIED : Z := 3221225506.           (* 0xC0000022 *)
Definition ST_SHARING_VIOLATION : Z := 3221225539.       (* 0xC0000043 *)
Definition ST_FILE_LOCK_CONFLICT : Z := 3221225556.      (* 0xC0000054 *)
Definition ST_RANGE_NOT_LOCKED : Z := 3221225598.        (* 0xC000007E *)
Definition ST_CANNOT_DELETE : Z := 3221225761.           (* 0xC0000121 *)
Definition ST_USER_MAPPED_FILE : Z := 3221226051.        (* 0xC0000243 *)

(** A lock on [[start, end)]; an [end] of 0 stands for the end of all files. *)
Record file_lock := FileLock {
  l_fd : fdid;
  l_shared : bool;
  l_start : Z;
  l_end : Z;
  l_process : pid;
}.

Record closed_fd := ClosedFd {
  cl_unix_fd : Z;
  cl_disp_flags : Z;
  cl_unix_name : list Z;
}.

Record inode := Inode {
  i_open : list fdid;
  i_locks : list lid;
  i_closed : list closed_fd;
}.

Record fd := Fd {
  fd_inode : option ino;
  fd_locks : list lid;
  fd_access : Z;
  fd_sharing : Z;
  fd_unix_fd : Z;
  fd_fs_locks : bool;
  fd_closed : closed_fd;
}.

(** The result of [fcntl( F_SETLK )]; for [EACCES] also whether [F_GETLK] works, and for
    an error not named in the code the status [file_set_error] has for it. *)
Inductive fcntl_result :=
  | F_ok
  | F_EACCES (getlk : bool)
  | F_EIO
  | F_ENOLCK
  | F_ENOTSUP
  | F_EAGAIN
  | F_EBADF
  | F_EOVERFLOW
  | F_EINVAL
  | F_other (status : Z).

Inductive lock_type := F_RDLCK | F_WRLCK | F_UNLCK.
#[export] Instance lock_type_eq_dec : EqDecision lock_type.
Proof. solve_decision. Defined.

(** The system calls, the latest first: the locks that were set or removed, with the
    offset and the length, and the descriptors closed and the files unlinked with the inode they
    belong to. *)
Inductive call :=
  | C_setlk (i : option ino) (unix_fd : Z) (type : lock_type) (start len : Z)
  | C_close (i : ino) (unix_fd : Z)
  | C_close_other (unix_fd : Z)
  | C_unlink (i : ino) (name : list Z)
  | C_signal (l : lid).

Record fds := Fds {
  locks : gmap lid file_lock;
  f_fds : gmap fdid fd;
  f_inodes : gmap ino inode;
  proc_locks : gmap pid (list lid);
  max_unix_offset : Z;
  f_error : Z;
  f_allocs : list bool;
  f_results : list fcntl_result;
  f_calls : list call;
}.

Notation F := (ST fds).

Definition set_locks (f : gmap lid file_lock → gmap lid file_lock) (s : fds) : fds :=
  Fds (f (locks s)) (f_fds s) (f_inodes s) (proc_locks s) (max_unix_offset s) (f_error s) (f_allocs s) (f_results s) (f_calls s).
Definition set_fds (f : gmap fdid fd → gmap fdid fd) (s : fds) : fds :=
  Fds (locks s) (f (f_fds s)) (f_inodes s) (proc_locks s) (max_unix_offset s) (f_error s) (f_allocs s) (f_results s) (f_calls s).
Definition set_inodes (f : gmap ino inode → gmap ino inode) (s : fds) : fds :=
  Fds (locks s) (f_fds s) (f (f_inodes s)) (proc_locks s) (max_unix_offset s) (f_error s) (f_allocs s) (f_results s) (f_calls s).
Definition set_proc_locks (f : gmap pid (list lid) → gmap pid (list lid)) (s : fds) : fds :=
  Fds (locks s) (f_fds s) (f_inodes s) (f (proc_locks s)) (max_unix_offset s) (f_error s) (f_allocs s) (f_results s) (f_calls s).
Definition set_max_unix_offset (o : Z) (s : fds) : fds :=
  Fds (locks s) (f_fds s) (f_inodes s) (proc_locks s) o (f_error s) (f_allocs s) (f_results s) (f_calls s).
Definition set_f_error (e : Z) (s : fds) : fds :=
  Fds (locks s) (f_fds s) (f_inodes s) (proc_locks s) (max_unix_offset s) e (f_allocs s) (f_results s) (f_calls s).
Definition set_f_allocs (l : list bool) (s : fds) : fds :=
  Fds (locks s) (f_fds s) (f_inodes s) (proc_locks s) (max_unix_offset s) (f_error s) l (f_results s) (f_calls s).
Definition set_f_results (l : list fcntl_result) (s : fds) : fds :=
  Fds (locks s) (f_fds s) (f_inodes s) (proc_locks s) (max_unix_offset s) (f_error s) (f_allocs s) l (f_calls s).
Definition add_call (c : call) (s : fds) : fds :=
  Fds (locks s) (f_fds s) (f_inodes s) (proc_locks s) (max_unix_offset s) (f_error s) (f_allocs s) (f_results s) (c :: f_calls s).

Definition i_set_open (l : list fdid) (i : inode) : inode := Inode l (i_locks i) (i_closed i).
Definition i_set_locks (l : list lid) (i : inode) : inode := Inode (i_open i) l (i_closed i).
Definition i_set_closed (l : list closed_fd) (i : inode) : inode := Inode (i_open i) (i_locks i) l.
Definition fd_set_locks (l : list lid) (x : fd) : fd :=
  Fd (fd_inode x) l (fd_access x) (fd_sharing x) (fd_unix_fd x) (fd_fs_locks x) (fd_closed x).
Definition fd_set_access (access sharing : Z) (x : fd) : fd :=
  Fd (fd_inode x) (fd_locks x) access sharing (fd_unix_fd x) (fd_fs_locks x) (fd_closed x).
Definition fd_set_fs_locks (b : bool) (x : fd) : fd :=
  Fd (fd_inode x) (fd_locks x) (fd_access x) (fd_sharing x) (fd_unix_fd x) b (fd_closed x).

Definition get_fd (f : fdid) : F fd := s <- get; deref (f_fds s !! f).
Definition put_fd (f : fdid) (x : fd) : F unit := modify (set_fds (<[f:=x]>)).
Definition get_inode (i : ino) : F inode := s <- get; deref (f_inodes s !! i).
Definition put_inode (i : ino) (x : inode) : F unit := modify (set_inodes (<[i:=x]>)).
Definition get_lock (l : lid) : F file_lock := s <- get; deref (locks s !! l).
Definition get_proc (p : pid) : F (list lid) := s <- get; deref (proc_locks s !! p).
Definition fd_error (e : Z) : F unit := modify (set_f_error e).
Definition f_malloc : F bool :=
  s <- get;
  match f_allocs s with [] => ret true | b :: l => modify (set_f_allocs l) ;; ret b end.

(** [list_remove] from a list that has the entry. *)
Definition without (l : lid) (ls : list lid) : list lid := filter (λ x, x ≠ l) ls.

(** ** Unix locks *)

Definition next_result : F fcntl_result :=
  s <- get;
  match f_results s with [] => ret F_ok | r :: l => modify (set_f_results l) ;; ret r end.

(** [set_unix_lock]; a round that does not return makes the type weaker or the
    largest offset smaller, so three rounds are enough. *)
Fixpoint set_unix_lock (n : nat) (f : fdid) (start end_ : Z) (type : lock_type) : F bool :=
  x <- get_fd f;
  if negb (fd_fs_locks x) then ret true
  else if start =? end_ then ret true
  else
    s <- get;
    if max_unix_offset s <? start then ret true
    else
      let len := if (end_ =? 0) || (max_unix_offset s <? end_) then 0 else off_t (end_ - start) in
      r <- next_result;
      match r with
      | F_ok => modify (add_call (C_setlk (fd_inode x) (fd_unix_fd x) type start len)) ;; ret true
      | F_EACCES true | F_EAGAIN => fd_error ST_FILE_LOCK_CONFLICT ;; ret false
      | F_EACCES false | F_EIO | F_ENOLCK | F_ENOTSUP => put_fd f (fd_set_fs_locks false x) ;; ret true
      | F_EBADF =>
          if bool_decide (type = F_WRLCK) then
            match n with O => fail OutOfFuel | S n => set_unix_lock n f start end_ F_RDLCK end
          else fd_error ST_ACCESS_DENIED ;; ret false
      | F_EOVERFLOW | F_EINVAL =>
          if INT_MAX <? max_unix_offset s then
            modify (set_max_unix_offset INT_MAX) ;;
            match n with O => fail OutOfFuel | S n => set_unix_lock n f start end_ type end
          else fd_error ST_INVALID_PARAMETER ;; ret false
      | F_other status => fd_error status ;; ret false
      end.

Definition lock_overlaps (lock : file_lock) (start end_ : Z) : bool :=
  if negb (l_end lock =? 0) && (l_end lock <=? start) then false
  else if negb (end_ =? 0) && (end_ <=? l_start lock) then false
  else true.

(** The list of holes is linked in both directions, in a buffer. *)
Record hole := Hole {
  h_next : option nat;
  h_prev : option nat;
  h_start : Z;
  h_end : Z;
}.
Definition h_set_next (x : option nat) (h : hole) : hole := Hole x (h_prev h) (h_start h) (h_end h).
Definition h_set_prev (x : option nat) (h : hole) : hole := Hole (h_next h) x (h_start h) (h_end h).
Definition h_set_start (x : Z) (h : hole) : hole := Hole (h_next h) (h_prev h) x (h_end h).
Definition h_set_end (x : Z) (h : hole) : hole := Hole (h_next h) (h_prev h) (h_start h) x.

Notation holes := (list (option hole)).
Definition hole_at (b : holes) (i : nat) : F hole :=
  match b !! i with Some (Some h) => ret h | Some None => fail Uninitialized | None => fail OutOfBounds end.
Definition set_hole (b : holes) (i : nat) (h : hole) : F holes :=
  if (i <? length b)%nat then ret (<[i:=Some h]> b) else fail OutOfBounds.

(** The buffer, the first hole and the number of entries in use. *)
Notation hole_list := (holes * option nat * nat)%type.

(** The walk of one lock through the holes; [None] is the jump to [done].  [n] bounds
    the number of holes seen. *)
Fixpoint cut_holes (n : nat) (lock : file_lock) (cur : option nat) (hl : hole_list) : F (option hole_list) :=
  match cur with
  | None => ret (Some hl)
  | Some c =>
      match n with
      | O => fail OutOfFuel
      | S n =>
          let '(b, first, next) := hl in
          h <- hole_at b c;
          if h_end h <=? l_start lock then cut_holes n lock (h_next h) hl
          else if negb (l_end lock =? 0) && (l_end lock <=? h_start h) then ret (Some hl)
          else if l_start lock <=? h_start h then
            b <- set_hole b c (h_set_start (l_end lock) h);
            if negb (l_end lock =? 0) && (l_end lock <? h_end h) then ret (Some (b, first, next))
            else
              b <- match h_next h with
                   | Some x => hx <- hole_at b x; set_hole b x (h_set_prev (h_prev h) hx)
                   | None => ret b
                   end;
              match h_prev h with
              | Some p =>
                  hp <- hole_at b p;
                  b <- set_hole b p (h_set_next (h_next h) hp);
                  cut_holes n lock (h_next h) (b, first, next)
              | None =>
                  match h_next h with
                  | None => ret None
                  | Some x => cut_holes n lock (Some x) (b, Some x, next)
                  end
              end
          else if (l_end lock =? 0) || (h_end h <=? l_end lock) then
            b <- set_hole b c (h_set_end (l_start lock) h);
            assert (h_start h <? l_start lock) ;;
            cut_holes n lock (h_next h) (b, first, next)
          else
            b <- set_hole b next (Hole (h_next h) (Some c) (l_end lock) (h_end h));
            b <- set_hole b c (h_set_next (Some next) (h_set_end (l_start lock) h));
            assert (l_end lock <? h_end h) ;;
            assert (l_start lock <? l_end lock) ;;
            ret (Some (b, first, S next))
      end
  end.

(** The locks that overlap the area; empty ones are left out. *)
Definition touches (lock : file_lock) (start end_ : Z) : bool := negb (l_start lock =? l_end lock) && lock_overlaps lock start end_.

Fixpoint build_holes (n : nat) (ls : list file_lock) (start end_ : Z) (hl : hole_list) : F (option hole_list) :=
  match ls with
  | [] => ret (Some hl)
  | lock :: ls =>
      if negb (touches lock start end_) then build_holes n ls start end_ hl
      else
        r <- cut_holes n lock (snd (fst hl)) hl;
        match r with None => ret None | Some hl => build_holes n ls start end_ hl end
  end.

(** The locks of the holes are cleared. *)
Fixpoint clear_holes (n : nat) (f : fdid) (b : holes) (cur : option nat) : F unit :=
  match cur with
  | None => ret tt
  | Some c =>
      match n with
      | O => fail OutOfFuel
      | S n => h <- hole_at b c; ok <- set_unix_lock 3 f (h_start h) (h_end h) F_UNLCK; clear_holes n f b (h_next h)
      end
  end.

Fixpoint get_all (ls : list lid) : F (list file_lock) :=
  match ls with [] => ret [] | l :: ls => x <- get_lock l; xs <- get_all ls; ret (x :: xs) end.

Definition remove_unix_locks (f : fdid) (start end_ : Z) : F unit :=
  x <- get_fd f;
  match fd_inode x with
  | None => ret tt
  | Some i =>
      s <- get;
      if negb (fd_fs_locks x) then ret tt
      else if (start =? end_) || (max_unix_offset s <? start) then ret tt
      else
        let end_ := if (end_ =? 0) || (max_unix_offset s <? end_) then max_unix_offset s + 1 else end_ in
        io <- get_inode i;
        ls <- get_all (i_locks io);
        let count := length (filter (λ lock, touches lock start end_ = true) ls) in
        if (count =? 0)%nat then ok <- set_unix_lock 3 f start end_ F_UNLCK; ret tt
        else
          ok <- f_malloc;
          if negb ok then ret tt
          else
            r <- build_holes (S count) ls start end_ (Some (Hole None None start end_) :: replicate count None, Some O, 1%nat);
            match r with
            | None => ret tt
            | Some (b, first, _) => clear_holes (S count) f b first
            end
  end.

(** ** Descriptors kept open *)

Definition FILE_DISPOSITION_DELETE : Z := 1.
Definition FILE_DISPOSITION_POSIX_SEMANTICS : Z := 2.

Fixpoint close_pending (i : ino) (l : list closed_fd) (keep_unlinks : bool) : F (list closed_fd) :=
  match l with
  | [] => ret []
  | c :: l =>
      (if negb (cl_unix_fd c =? -1) then modify (add_call (C_close i (cl_unix_fd c))) else ret tt) ;;
      rest <- close_pending i l keep_unlinks;
      ret (if negb keep_unlinks || negb (has (cl_disp_flags c) FILE_DISPOSITION_DELETE) then rest
           else ClosedFd (-1) (cl_disp_flags c) (cl_unix_name c) :: rest)
  end.
Definition inode_close_pending (i : ino) (keep_unlinks : bool) : F unit :=
  io <- get_inode i;
  l <- close_pending i (i_closed io) keep_unlinks;
  io <- get_inode i;
  put_inode i (i_set_closed l io).

Definition inode_has_pending_close (io : inode) (path : list Z) : bool := existsb (λ c, bool_decide (cl_unix_name c = path)) (i_closed io).

(** [unlink_closed_fd] checks that the name still belongs to the inode and unlinks it. *)
Definition unlink_closed_fd (i : ino) (c : closed_fd) : F unit := modify (add_call (C_unlink i (cl_unix_name c))).

Definition close_unix_fd (i : ino) (c : closed_fd) : F unit :=
  if negb (cl_unix_fd c =? -1) then modify (add_call (C_close i (cl_unix_fd c))) else ret tt.

Definition inode_add_closed_fd (i : ino) (c : closed_fd) : F unit :=
  io <- get_inode i;
  if negb (bool_decide (i_locks io = [])) then put_inode i (i_set_closed (c :: i_closed io) io)
  else if has (cl_disp_flags c) FILE_DISPOSITION_DELETE && has (cl_disp_flags c) FILE_DISPOSITION_POSIX_SEMANTICS then
    close_unix_fd i c ;; unlink_closed_fd i c
  else if has (cl_disp_flags c) FILE_DISPOSITION_DELETE && negb (inode_has_pending_close io (cl_unix_name c)) then
    close_unix_fd i c ;;
    io <- get_inode i;
    put_inode i (i_set_closed (ClosedFd (-1) (cl_disp_flags c) (cl_unix_name c) :: i_closed io) io)
  else close_unix_fd i c.

(** ** Locks *)

(** [add_lock]; the identifier is new. *)
Definition add_lock (current : pid) (f : fdid) (shared : bool) (start end_ : Z) : F (option lid) :=
  ok <- f_malloc;
  if negb ok then fd_error ST_NO_MEMORY ;; ret None
  else
    ok <- f_malloc;
    if negb ok then fd_error ST_NO_MEMORY ;; ret None
    else
      ok <- set_unix_lock 3 f start end_ (if shared then F_RDLCK else F_WRLCK);
      if negb ok then ret None
      else
        s <- get;
        let l := fresh (dom (locks s)) in
        modify (set_locks (<[l := FileLock f shared start end_ current]>)) ;;
        x <- get_fd f;
        put_fd f (fd_set_locks (fd_locks x ++ [l]) x) ;;
        i <- deref (fd_inode x);
        io <- get_inode i;
        put_inode i (i_set_locks (i_locks io ++ [l]) io) ;;
        ls <- get_proc current;
        modify (set_proc_locks (<[current := ls ++ [l]]>)) ;;
        ret (Some l).

(** [remove_lock]: the lock leaves its lists and the waiters are told. *)
Definition remove_lock (l : lid) (remove_unix : bool) : F unit :=
  lock <- get_lock l;
  x <- get_fd (l_fd lock);
  i <- deref (fd_inode x);
  put_fd (l_fd lock) (fd_set_locks (without l (fd_locks x)) x) ;;
  io <- get_inode i;
  put_inode i (i_set_locks (without l (i_locks io)) io) ;;
  ls <- get_proc (l_process lock);
  modify (set_proc_locks (<[l_process lock := without l ls]>)) ;;
  (if remove_unix then remove_unix_locks (l_fd lock) (l_start lock) (l_end lock) else ret tt) ;;
  io <- get_inode i;
  (if bool_decide (i_locks io = []) then inode_close_pending i true else ret tt) ;;
  modify (add_call (C_signal l)) ;;
  modify (set_locks (delete l)).

(** [n] bounds the number of locks. *)
Fixpoint remove_process_locks (n : nat) (p : pid) : F unit :=
  ls <- get_proc p;
  match ls with
  | [] => ret tt
  | l :: _ => match n with O => fail OutOfFuel | S n => remove_lock l true ;; remove_process_locks n p end
  end.

(** The loop of [remove_fd_locks]: the smallest start, and the last byte. *)
Fixpoint remove_fd_loop (n : nat) (f : fdid) (start end_ : Z) : F (Z * Z) :=
  x <- get_fd f;
  match fd_locks x with
  | [] => ret (start, end_)
  | l :: _ =>
      match n with
      | O => fail OutOfFuel
      | S n =>
          lock <- get_lock l;
          let start := if l_start lock <? start then l_start lock else start in
          let end_ := if (l_end lock =? 0) || (end_ <? l_end lock) then w64 (l_end lock - 1) else end_ in
          remove_lock l false ;;
          remove_fd_loop n f start end_
      end
  end.
Definition remove_fd_locks (n : nat) (f : fdid) : F unit :=
  r <- remove_fd_loop n f FILE_POS_T_MAX 0;
  if fst r <? snd r then remove_unix_locks f (fst r) (w64 (snd r + 1)) else ret tt.

(** The first lock in the way of a new one. *)
Fixpoint find_conflict (ls : list lid) (f : fdid) (start end_ : Z) (shared : bool) : F (option lid) :=
  match ls with
  | [] => ret None
  | l :: ls =>
      lock <- get_lock l;
      if negb (lock_overlaps lock start end_) then find_conflict ls f start end_ shared
      else if shared && (l_shared lock || bool_decide (l_fd lock = f)) then find_conflict ls f start end_ shared
      else ret (Some l)
  end.

(** The result is the lock whose handle the client is to wait on. *)
Definition lock_fd (current : pid) (f : fdid) (start count : Z) (shared wait : bool) : F (option lid) :=
  let end_ := w64 (start + count) in
  x <- get_fd f;
  match fd_inode x with
  | None => fd_error ST_INVALID_DEVICE_REQUEST ;; ret None
  | Some i =>
      if negb (end_ =? 0) && (end_ <? start) then fd_error ST_INVALID_PARAMETER ;; ret None
      else
        io <- get_inode i;
        c <- find_conflict (i_locks io) f start end_ shared;
        match c with
        | Some l =>
            if negb wait then fd_error ST_FILE_LOCK_CONFLICT ;; ret None
            else fd_error ST_PENDING ;; ret (Some l)
        | None =>
            r <- add_lock current f shared start end_;
            match r with
            | Some _ => ret None
            | None =>
                s <- get;
                if (f_error s =? ST_FILE_LOCK_CONFLICT) && wait then fd_error ST_PENDING ;; ret None else ret None
            end
        end
  end.

Fixpoint find_lock (ls : list lid) (start end_ : Z) : F (option lid) :=
  match ls with
  | [] => ret None
  | l :: ls =>
      lock <- get_lock l;
      if (l_start lock =? start) && (l_end lock =? end_) then ret (Some l) else find_lock ls start end_
  end.

Definition unlock_fd (f : fdid) (start count : Z) : F unit :=
  x <- get_fd f;
  r <- find_lock (fd_locks x) start (w64 (start + count));
  match r with
  | Some l => remove_lock l true
  | None => fd_error ST_RANGE_NOT_LOCKED
  end.

(** The part of [fd_destroy] that concerns the file: the locks of the descriptor go,
    the Unix descriptor is closed or kept, and the object is freed.  The release of
    the inode and of the completion port and the poll entry are not modelled. *)
Definition fd_destroy (n : nat) (f : fdid) : F unit :=
  remove_fd_locks n f ;;
  x <- get_fd f;
  match fd_inode x with
  | None => if negb (fd_unix_fd x =? -1) then modify (add_call (C_close_other (fd_unix_fd x))) else ret tt
  | Some i =>
      io <- get_inode i;
      put_inode i (i_set_open (without f (i_open io)) io) ;;
      inode_add_closed_fd i (fd_closed x)
  end ;;
  modify (set_fds (delete f)).

(** ** Sharing *)

Definition FILE_READ_DATA : Z := 1.
Definition FILE_WRITE_DATA : Z := 2.
Definition FILE_APPEND_DATA : Z := 4.
Definition FILE_EXECUTE : Z := 32.
Definition FA_DELETE : Z := 65536.
Definition FILE_SHARE_READ : Z := 1.
Definition FILE_SHARE_WRITE : Z := 2.
Definition FILE_SHARE_DELETE : Z := 4.
Definition FILE_DELETE_ON_CLOSE : Z := 4096.
Definition FILE_MAPPING_IMAGE : Z := 2147483648.
Definition FILE_MAPPING_WRITE : Z := 1073741824.
Definition FILE_MAPPING_ACCESS : Z := 536870912.

Definition read_access : Z := Z.lor FILE_READ_DATA FILE_EXECUTE.
Definition write_access : Z := Z.lor FILE_WRITE_DATA FILE_APPEND_DATA.
Definition all_access : Z := Z.lor (Z.lor read_access write_access) FA_DELETE.

(** What the other opens of the file share, and their access. *)
Fixpoint existing_opens (l : list fdid) (f : fdid) (sharing access : Z) : F (Z * Z) :=
  match l with
  | [] => ret (sharing, access)
  | g :: l =>
      if bool_decide (g = f) then existing_opens l f sharing access
      else
        y <- get_fd g;
        existing_opens l f (if has (fd_access y) all_access then Z.land sharing (fd_sharing y) else sharing) (Z.lor access (fd_access y))
  end.

(** The access and the sharing mode do not fit, reading, writing and deleting apart. *)
Definition share_violation (access sharing : Z) : bool :=
  has access read_access && negb (has sharing FILE_SHARE_READ) ||
  has access write_access && negb (has sharing FILE_SHARE_WRITE) ||
  has access FA_DELETE && negb (has sharing FILE_SHARE_DELETE).

(** The status; [trunc] is [open_flags & O_TRUNC]. *)
Definition check_sharing (f : fdid) (access sharing : Z) (trunc : bool) (options : Z) : F Z :=
  x <- get_fd f;
  put_fd f (fd_set_access access sharing x) ;;
  i <- deref (fd_inode x);
  io <- get_inode i;
  r <- existing_opens (i_open io) f (Z.lor (Z.lor FILE_SHARE_READ FILE_SHARE_WRITE) FILE_SHARE_DELETE) 0;
  let '(existing_sharing, existing_access) := r in
  ret (if share_violation access existing_sharing then ST_SHARING_VIOLATION
       else if has existing_access FILE_MAPPING_WRITE && negb (has sharing FILE_SHARE_WRITE) ||
               has existing_access FILE_MAPPING_IMAGE && has access FILE_WRITE_DATA then ST_SHARING_VIOLATION
       else if has existing_access FILE_MAPPING_IMAGE && has options FILE_DELETE_ON_CLOSE then ST_CANNOT_DELETE
       else if has existing_access FILE_MAPPING_ACCESS && trunc then ST_USER_MAPPED_FILE
       else if negb (has access all_access) then 0
       else if share_violation existing_access sharing then ST_SHARING_VIOLATION
       else 0).
