(* ===== verification/HoleSpecs.v ===== *)
(** * The holes between locks

    [remove_unix_locks] reads no entry of its buffer that was not written and none out of
    it, and comes to an end; when the locks are in the order of their starts, it
    clears exactly what is no longer locked.

    ** The holes between locks in order

    With the locks of a file in the order of their starts, the walk touches only the
    last hole, and what is cleared is exactly what no lock covers. *)

From stdpp Require Import base list gmap fin_maps.
From S2P Require Import Prelude FileLock.

Open Scope Z_scope.
Open Scope server_scope.

(** ** Running *)

Lemma wp_get_fd f x (Q : fd → fds → Prop) s : f_fds s !! f = Some x → Q x s → wp (get_fd f) Q s.
Proof. intros H HQ. unfold get_fd. apply wp_bind, wp_get. by apply (wp_deref _ x). Qed.
Lemma wp_get_inode i x (Q : inode → fds → Prop) s : f_inodes s !! i = Some x → Q x s → wp (get_inode i) Q s.
Proof. intros H HQ. unfold get_inode. apply wp_bind, wp_get. by apply (wp_deref _ x). Qed.
Lemma wp_get_lock l x (Q : file_lock → fds → Prop) s : locks s !! l = Some x → Q x s → wp (get_lock l) Q s.
Proof. intros H HQ. unfold get_lock. apply wp_bind, wp_get. by apply (wp_deref _ x). Qed.
Lemma wp_get_proc p x (Q : list lid → fds → Prop) s : proc_locks s !! p = Some x → Q x s → wp (get_proc p) Q s.
Proof. intros H HQ. unfold get_proc. apply wp_bind, wp_get. by apply (wp_deref _ x). Qed.
Lemma wp_hole_at b i h (Q : hole → fds → Prop) s : b !! i = Some (Some h) → Q h s → wp (hole_at b i) Q s.
Proof. intros H HQ. unfold hole_at. by rewrite H. Qed.
Lemma wp_set_hole b i h (Q : holes → fds → Prop) s : (i < length b)%nat → Q (<[i:=Some h]> b) s → wp (set_hole b i h) Q s.
Proof. intros H HQ. unfold set_hole. rewrite (proj2 (Nat.ltb_lt _ _)) by done. by apply wp_ret. Qed.

(** ** The buffer *)

Definition before {A} (o : list A) (i j : A) : Prop := ∃ a b, o !! a = Some i ∧ o !! b = Some j ∧ (a < b)%nat.

(** The entries in use can be put in an order in which the links lead on and back. *)
Record buffer_ok (o : list nat) (b : holes) (first : option nat) (next : nat) : Prop := {
  bo_nodup : NoDup o;
  bo_used : ∀ i, i ∈ o ↔ (i < next)%nat;
  bo_room : (next <= length b)%nat;
  bo_init : ∀ i, (i < next)%nat → ∃ h, b !! i = Some (Some h);
  bo_next : ∀ i h j, (i < next)%nat → b !! i = Some (Some h) → h_next h = Some j → before o i j;
  bo_prev : ∀ i h j, (i < next)%nat → b !! i = Some (Some h) → h_prev h = Some j → before o j i;
  bo_first : ∀ i, first = Some i → (i < next)%nat;
}.

Lemma before_in {A} (o : list A) i j : before o i j → i ∈ o ∧ j ∈ o.
Proof. intros (a & b & Ha & Hb & _). split; by eapply list_elem_of_lookup_2. Qed.

Lemma before_trans {A} (o : list A) i j k : NoDup o → before o i j → before o j k → before o i k.
Proof.
  intros Hn (a & b & Ha & Hb & Hab) (b' & c & Hb' & Hc & Hbc). assert (b' = b) as -> by (by eapply NoDup_lookup). exists a, c. split_and!; [done..|lia].
Qed.

Lemma hole_inserted {A} (l1 l2 : list A) x a i : (l1 ++ l2) !! a = Some i → (l1 ++ x :: l2) !! (if (a <? length l1)%nat then a else S a) = Some i.
Proof.
  intros H. destruct (Nat.ltb_spec a (length l1)).
  - rewrite lookup_app_l in * by lia. done.
  - rewrite lookup_app_r in H by lia. rewrite lookup_app_r by lia. replace (S a - length l1)%nat with (S (a - length l1)) by lia. done.
Qed.

Lemma before_insert {A} (l1 l2 : list A) x i j : before (l1 ++ l2) i j → before (l1 ++ x :: l2) i j.
Proof.
  intros (a & b & Ha & Hb & Hab). eexists _, _. split_and!; [by apply hole_inserted|by apply hole_inserted|].
  destruct (Nat.ltb_spec a (length l1)), (Nat.ltb_spec b (length l1)); lia.
Qed.

(** An entry before or after which another one is put. *)
Lemma before_new {A} (l1 l2 : list A) c x : before (l1 ++ c :: x :: l2) c x.
Proof. exists (length l1), (S (length l1)). rewrite !lookup_app_r by lia. replace (length l1 - length l1)%nat with 0%nat by lia. replace (S (length l1) - length l1)%nat with 1%nat by lia. split_and!; [done..|lia]. Qed.
Lemma new_before {A} (l1 l2 : list A) c x j : NoDup (l1 ++ c :: l2) → before (l1 ++ c :: l2) c j → before (l1 ++ c :: x :: l2) x j.
Proof.
  intros Hn (a & b & Ha & Hb & Hab). assert (a = length l1) as -> by (eapply NoDup_lookup; [done..|]; rewrite lookup_app_r by lia; by replace (length l1 - length l1)%nat with 0%nat by lia).
  exists (S (length l1)), (S b). rewrite lookup_app_r in Hb by lia. rewrite !lookup_app_r by lia. replace (S (length l1) - length l1)%nat with 1%nat by lia.
  replace (S b - length l1)%nat with (S (b - length l1)) by lia. destruct (b - length l1)%nat as [|d] eqn:E; [lia|]. split_and!; [done|done|lia].
Qed.

(** A change of an entry that keeps its links. *)
Lemma buffer_update o b first next c h : buffer_ok o b first next → (c < next)%nat → (∀ j, h_next h = Some j → before o c j) → (∀ j, h_prev h = Some j → before o j c) →
  buffer_ok o (<[c:=Some h]> b) first next.
Proof.
  intros [A B C D E F G] Hc Hn Hp. split; rewrite ?length_insert; try done.
  - intros i Hi. destruct (decide (i = c)) as [->|Hne]; [exists h; apply list_lookup_insert_eq; lia|]. rewrite list_lookup_insert_ne by done. by apply D.
  - intros i h' j Hi. destruct (decide (i = c)) as [->|Hne]; [rewrite list_lookup_insert_eq by lia; intros [= <-]; apply Hn|]. rewrite list_lookup_insert_ne by done. by apply E.
  - intros i h' j Hi. destruct (decide (i = c)) as [->|Hne]; [rewrite list_lookup_insert_eq by lia; intros [= <-]; apply Hp|]. rewrite list_lookup_insert_ne by done. by apply F.
Qed.

(** A hole is split: the new entry comes behind it. *)
Lemma buffer_split l1 l2 b first next c h start end_ : let o := l1 ++ c :: l2 in buffer_ok o b first next → b !! c = Some (Some h) → (next < length b)%nat →
  buffer_ok (l1 ++ c :: next :: l2) (<[c:=Some (h_set_next (Some next) (h_set_end start h))]> (<[next:=Some (Hole (h_next h) (Some c) end_ (h_end h))]> b)) first (S next).
Proof.
  intros o Hb Hc Hroom. pose proof Hb as [A B C D E F G]. assert (c < next)%nat as Hcn by (apply B; unfold o; apply elem_of_app; right; left).
  assert (next ∉ o) as Hno by (rewrite B; lia). assert (o = (l1 ++ [c]) ++ l2) as Eo by (unfold o; by rewrite <-app_assoc).
  assert (Hins : ∀ i j, before o i j → before (l1 ++ c :: next :: l2) i j).
  { intros i j Hij. rewrite Eo in Hij. apply (before_insert _ _ next) in Hij. by rewrite <-app_assoc in Hij. }
  set (h1 := Hole (h_next h) (Some c) end_ (h_end h)). set (h2 := h_set_next (Some next) (h_set_end start h)).
  assert (Hlook : ∀ i h', (i < S next)%nat → <[c:=Some h2]> (<[next:=Some h1]> b) !! i = Some (Some h') → i = c ∧ h' = h2 ∨ i = next ∧ h' = h1 ∨ (i < next)%nat ∧ b !! i = Some (Some h')).
  { intros i h' Hi. destruct (decide (i = c)) as [->|Hic]; [rewrite list_lookup_insert_eq by (rewrite length_insert; lia); intros [= <-]; auto|]. rewrite list_lookup_insert_ne by done.
    destruct (decide (i = next)) as [->|Hin]; [rewrite list_lookup_insert_eq by lia; intros [= <-]; auto|]. rewrite list_lookup_insert_ne by done. intros Hl. right. right. split; [lia|done]. }
  split; rewrite ?length_insert; try done; try lia.
  - assert (l1 ++ c :: next :: l2 ≡ₚ next :: o) as -> by (unfold o; solve_Permutation). by apply NoDup_cons.
  - intros i. rewrite elem_of_app, !elem_of_cons. specialize (B i). unfold o in B. rewrite elem_of_app, elem_of_cons in B. assert (i < S next ↔ i < next ∨ i = next)%nat as -> by lia. tauto.
  - intros i Hi. destruct (decide (i = c)) as [->|Hic]; [exists h2; apply list_lookup_insert_eq; rewrite length_insert; lia|]. rewrite list_lookup_insert_ne by done.
    destruct (decide (i = next)) as [->|Hin]; [exists h1; by apply list_lookup_insert_eq|]. rewrite list_lookup_insert_ne by done. apply D. lia.
  - intros i h' j Hi Hl Hj. destruct (Hlook i h' Hi Hl) as [[-> ->]|[[-> ->]|[Hi' Hl']]].
    + injection Hj as <-. apply before_new.
    + apply new_before; [done|]. by apply (E c h).
    + by apply Hins, (E i h').
  - intros i h' j Hi Hl Hj. destruct (Hlook i h' Hi Hl) as [[-> ->]|[[-> ->]|[Hi' Hl']]].
    + by apply Hins, (F c h).
    + injection Hj as <-. apply before_new.
    + by apply Hins, (F i h').
  - intros i Hi. specialize (G i Hi). lia.
Qed.

(** ** The walk *)

(** A lock that holds something. *)
Definition lock_wf (lock : file_lock) : Prop := l_end lock = 0 ∨ l_start lock < l_end lock.

Definition walk_ok (next : nat) (r : option hole_list) : Prop :=
  match r with None => True | Some (b, first, next') => ∃ o, buffer_ok o b first next' ∧ (next' <= S next)%nat end.

Lemma cut_holes_ok lock n : lock_wf lock → ∀ o a c b first next s, buffer_ok o b first next → (next < length b)%nat → o !! a = Some c → (length o <= a + n)%nat →
  wp (cut_holes n lock (Some c) (b, first, next)) (λ r s', s' = s ∧ walk_ok next r ∧ ∀ b' f' n', r = Some (b', f', n') → length b' = length b) s.
Proof.
  intros Hw. induction n as [|n IH]; intros o a c b first next s Hb Hroom Ha Hn; [apply lookup_lt_Some in Ha; lia|]. cbn [cut_holes].
  assert (c < next)%nat as Hc by (apply (bo_used _ _ _ _ Hb); by eapply list_elem_of_lookup_2). destruct (bo_init _ _ _ _ Hb c Hc) as [h Hh].
  assert (Hgo : ∀ b2 first2, buffer_ok o b2 first2 next → length b2 = length b →
    wp (cut_holes n lock (h_next h) (b2, first2, next)) (λ r s', s' = s ∧ walk_ok next r ∧ ∀ b' f' n', r = Some (b', f', n') → length b' = length b) s).
  { intros b2 first2 Hb2 El. destruct (h_next h) as [x|] eqn:Ex.
    - destruct (bo_next _ _ _ _ Hb c h x Hc Hh Ex) as (a' & x' & Ha' & Hx' & Hlt). assert (a' = a) as -> by (eapply NoDup_lookup; [apply Hb|done|done]).
      rewrite <-El. apply (IH o x'); [done|lia|done|lia].
    - destruct n; apply wp_ret; (split; [done|]; split; [exists o; split; [done|lia]|by intros ? ? ? [= <- _ _]]). }
  apply wp_bind, (wp_hole_at _ _ h); [done|]. destruct (h_end h <=? l_start lock); [by apply Hgo|].
  assert (Hstop : ∀ b2, buffer_ok o b2 first next → length b2 = length b →
    wp (ret (Some (b2, first, next))) (λ r s', s' = s ∧ walk_ok next r ∧ ∀ b' f' n', r = Some (b', f', n') → length b' = length b) s).
  { intros b2 Hb2 El. apply wp_ret. split; [done|]. split; [exists o; split; [done|lia]|]. by intros ? ? ? [= <- _ _]. }
  destruct (negb (l_end lock =? 0) && (l_end lock <=? h_start h)); [by apply Hstop|]. pose proof (bo_room _ _ _ _ Hb) as Hr.
  destruct (Z.leb_spec (l_start lock) (h_start h)) as [Hs|Hs].
  - apply wp_bind, wp_set_hole; [lia|]. set (b1 := <[c:=_]> b).
    assert (buffer_ok o b1 first next) as Hb1 by (apply buffer_update; [done|done|intros j; by apply (bo_next _ _ _ _ Hb c h)|intros j; by apply (bo_prev _ _ _ _ Hb c h)]).
    assert (length b1 = length b) as El1 by (unfold b1; by rewrite length_insert). clearbody b1. destruct (negb (l_end lock =? 0) && (l_end lock <? h_end h)); [by apply Hstop|].
    apply wp_bind. eapply (wp_mono _ (λ b2 s', s' = s ∧ buffer_ok o b2 first next ∧ length b2 = length b)).
    { destruct (h_next h) as [x|] eqn:Ex; [|by apply wp_ret]. pose proof (bo_next _ _ _ _ Hb c h x Hc Hh Ex) as Hcx.
      assert (x < next)%nat as Hx by (apply (bo_used _ _ _ _ Hb), (before_in _ _ _ Hcx)). destruct (bo_init _ _ _ _ Hb1 x Hx) as [hx Hhx].
      apply wp_bind, (wp_hole_at _ _ hx); [done|]. apply wp_set_hole; [lia|]. rewrite length_insert. split; [done|]. split; [|done]. apply buffer_update; [done|done| |].
      - intros j Hj. by apply (bo_next _ _ _ _ Hb1 x hx).
      - intros j Hj. eapply before_trans; [apply Hb|by apply (bo_prev _ _ _ _ Hb c h)|done]. }
    intros b2 s' (-> & Hb2 & El2). destruct (h_prev h) as [p|] eqn:Ep.
    + pose proof (bo_prev _ _ _ _ Hb c h p Hc Hh Ep) as Hpc. assert (p < next)%nat as Hp by (apply (bo_used _ _ _ _ Hb), (before_in _ _ _ Hpc)).
      destruct (bo_init _ _ _ _ Hb2 p Hp) as [hp Hhp]. apply wp_bind, (wp_hole_at _ _ hp); [done|]. apply wp_bind, wp_set_hole; [lia|]. apply Hgo; [|by rewrite length_insert].
      apply buffer_update; [done|done| |intros j Hj; by apply (bo_prev _ _ _ _ Hb2 p hp)]. intros j Hj. eapply before_trans; [apply Hb|done|by apply (bo_next _ _ _ _ Hb c h)].
    + destruct (h_next h) as [x|] eqn:Ex; [|by apply wp_ret]. apply Hgo; [|done]. destruct Hb2 as [? ? ? ? ? ? _]. split; try done.
      intros i [= <-]. apply (bo_used _ _ _ _ Hb). by apply (before_in _ _ _ (bo_next _ _ _ _ Hb c h x Hc Hh Ex)).
  - destruct ((l_end lock =? 0) || (h_end h <=? l_end lock)) eqn:Ee.
    + apply wp_bind, wp_set_hole; [lia|]. apply wp_bind, wp_assert; [by apply Z.ltb_lt|]. apply Hgo; [|by rewrite length_insert].
      apply buffer_update; [done|done|intros j; by apply (bo_next _ _ _ _ Hb c h)|intros j; by apply (bo_prev _ _ _ _ Hb c h)].
    + apply orb_false_iff in Ee as [E0%Z.eqb_neq E1%Z.leb_gt]. apply wp_bind, wp_set_hole; [lia|]. apply wp_bind, wp_set_hole; [rewrite length_insert; lia|].
      apply wp_bind, wp_assert; [by apply Z.ltb_lt|]. apply wp_bind, wp_assert; [apply Z.ltb_lt; destruct Hw; [done|lia]|]. apply wp_ret. split; [done|]. split.
      * pose proof (take_drop_middle o a c Ha) as Eo. exists (take a o ++ c :: next :: drop (S a) o). split; [|lia]. apply buffer_split; [by rewrite Eo|done|done].
      * intros ? ? ? [= <- _ _]. by rewrite !length_insert.
Qed.

Lemma build_holes_ok start end_ n ls : Forall (λ lock, touches lock start end_ = true → lock_wf lock) ls → ∀ o b first next s, buffer_ok o b first next →
  (next + length (filter (λ lock, touches lock start end_ = true) ls) <= length b)%nat → (length b <= n)%nat →
  wp (build_holes n ls start end_ (b, first, next)) (λ r s', s' = s ∧ match r with None => True | Some (b', first', next') => ∃ o', buffer_ok o' b' first' next' ∧ length b' = length b end) s.
Proof.
  induction 1 as [|lock ls Hl _ IH]; intros o b first next s Hb Hroom Hn; cbn [build_holes]; [apply wp_ret; split; [done|]; by exists o|].
  rewrite filter_cons in Hroom. destruct (touches lock start end_) eqn:Et; cbn [negb]; [|by apply (IH o)]. rewrite decide_True in Hroom by done. simpl in Hroom.
  apply wp_bind. cbn [fst snd]. destruct first as [c|].
  - assert (c ∈ o) as [a Ha]%list_elem_of_lookup by (by apply (bo_used _ _ _ _ Hb), (bo_first _ _ _ _ Hb)).
    assert (length o <= length b)%nat as Hlo.
    { rewrite <-(length_seq (length b) 0). apply submseteq_length, NoDup_submseteq; [apply Hb|]. intros i Hi%(bo_used _ _ _ _ Hb). apply elem_of_seq. pose proof (bo_room _ _ _ _ Hb). lia. }
    eapply wp_mono; [apply (cut_holes_ok lock n (Hl eq_refl) o a c); [done|lia|done|lia]|]. intros r s' (-> & Hr & Hlen). destruct r as [[[b' f'] n']|]; [|by apply wp_ret].
    destruct Hr as (o' & Hb' & Hn'). rewrite <-(Hlen _ _ _ eq_refl) in Hroom, Hn |- *. apply (IH o'); [done|lia|lia].
  - destruct n; apply wp_ret; by apply (IH o); [|lia|].
Qed.

(** ** What the Unix locks leave alone *)

Definition is_setlk (c : call) : Prop := match c with C_setlk _ _ _ _ _ => True | _ => False end.

Record same_fd (x y : fd) : Prop := {
  sf_inode : fd_inode y = fd_inode x;
  sf_locks : fd_locks y = fd_locks x;
  sf_access : fd_access y = fd_access x ∧ fd_sharing y = fd_sharing x;
  sf_closed : fd_unix_fd y = fd_unix_fd x ∧ fd_closed y = fd_closed x;
}.
#[export] Instance same_fd_preorder : PreOrder same_fd.
Proof. split; [by split|]. intros a b c [? ? [] []] [? ? [] []]. split; try split; congruence. Qed.

(** Locks and lists stay as they are; [fcntl] calls may be made. *)
Record quiet (s s' : fds) : Prop := {
  q_locks : locks s' = locks s;
  q_inodes : f_inodes s' = f_inodes s;
  q_procs : proc_locks s' = proc_locks s;
  q_fds : ∀ f, option_Forall2 same_fd (f_fds s !! f) (f_fds s' !! f);
  q_calls : ∃ new, f_calls s' = new ++ f_calls s ∧ Forall is_setlk new;
}.
#[export] Instance quiet_preorder : PreOrder quiet.
Proof.
  split.
  - intros s. split; try done. by exists [].
  - intros a b c [A1 A2 A3 A4 (na & A5 & A6)] [B1 B2 B3 B4 (nb & B5 & B6)]. split; try congruence; [intros f; etransitivity; [apply A4|apply B4]|].
    exists (nb ++ na). split; [by rewrite B5, A5, app_assoc|by apply Forall_app].
Qed.

Lemma quiet_intro s s' : locks s' = locks s → f_inodes s' = f_inodes s → proc_locks s' = proc_locks s → f_fds s' = f_fds s → f_calls s' = f_calls s → quiet s s'.
Proof. intros ? ? ? E Ec. split; try done; [intros f; by rewrite E|]. exists []. by rewrite Ec. Qed.

Lemma quiet_fd s s' f x : quiet s s' → f_fds s !! f = Some x → ∃ y, f_fds s' !! f = Some y ∧ same_fd x y.
Proof. intros H Hf. pose proof (q_fds _ _ H f) as Hq. rewrite Hf in Hq. inversion Hq; subst. eauto. Qed.

Definition rounds (type : lock_type) (s : fds) : nat := (if bool_decide (type = F_WRLCK) then 1 else 0) + (if INT_MAX <? max_unix_offset s then 1 else 0).

(** One round of the loop. *)
Definition lock_round (again : lock_type → F bool) (f : fdid) (x : fd) (type : lock_type) (start len : Z) (s : fds) (r : fcntl_result) : F bool :=
  match r with
  | F_ok => modify (add_call (C_setlk (fd_inode x) (fd_unix_fd x) type start len)) ;; ret true
  | F_EACCES true | F_EAGAIN => fd_error ST_FILE_LOCK_CONFLICT ;; ret false
  | F_EACCES false | F_EIO | F_ENOLCK | F_ENOTSUP => put_fd f (fd_set_fs_locks false x) ;; ret true
  | F_EBADF => if bool_decide (type = F_WRLCK) then again F_RDLCK else fd_error ST_ACCESS_DENIED ;; ret false
  | F_EOVERFLOW | F_EINVAL =>
      if INT_MAX <? max_unix_offset s then modify (set_max_unix_offset INT_MAX) ;; again type
      else fd_error ST_INVALID_PARAMETER ;; ret false
  | F_other status => fd_error status ;; ret false
  end.

(** A round that succeeds reports no error. *)
Definition lock_post (s : fds) (r : bool) (s' : fds) : Prop := quiet s s' ∧ (r = true → f_error s' = f_error s).

Lemma lock_round_ok again f x type start len s0 s r : f_fds s !! f = Some x → max_unix_offset s = max_unix_offset s0 →
  (type = F_WRLCK → wp (again F_RDLCK) (lock_post s) s) →
  (INT_MAX < max_unix_offset s → wp (again type) (lock_post s) (set_max_unix_offset INT_MAX s)) →
  wp (lock_round again f x type start len s0 r) (lock_post s) s.
Proof.
  intros Hf Em Hbadf Hinval.
  assert (Herr : ∀ e, wp (fd_error e ;; ret false) (lock_post s) s) by (intros e; apply wp_bind, wp_modify, wp_ret; split; [by apply quiet_intro|done]).
  assert (Hoff : wp (put_fd f (fd_set_fs_locks false x) ;; ret true) (lock_post s) s).
  { apply wp_bind, wp_modify, wp_ret. split; [|done]. split; try done; [|by exists []]. intros g. simpl. destruct (decide (g = f)) as [->|Hg]; [rewrite lookup_insert_eq, Hf; by constructor|by rewrite lookup_insert_ne]. }
  assert (Hinv : wp (if INT_MAX <? max_unix_offset s0 then modify (set_max_unix_offset INT_MAX) ;; again type else fd_error ST_INVALID_PARAMETER ;; ret false) (lock_post s) s).
  { destruct (Z.ltb_spec INT_MAX (max_unix_offset s0)); [|done]. apply wp_bind, wp_modify, Hinval. lia. }
  unfold lock_round. destruct r as [|[]| | | | | | | |status]; try done.
  - apply wp_bind, wp_modify, wp_ret. split; [|done]. split; try done. by exists [C_setlk (fd_inode x) (fd_unix_fd x) type start len]; split; [|repeat constructor].
  - case_bool_decide; [by apply Hbadf|done].
Qed.

Lemma set_unix_lock_step n f start end_ type : set_unix_lock n f start end_ type =
  (x <- get_fd f;
   if negb (fd_fs_locks x) then ret true
   else if start =? end_ then ret true
   else
     s <- get;
     if max_unix_offset s <? start then ret true
     else
       r <- next_result;
       lock_round (λ type, match n with O => fail OutOfFuel | S n => set_unix_lock n f start end_ type end) f x type start
         (if (end_ =? 0) || (max_unix_offset s <? end_) then 0 else off_t (end_ - start)) s r).
Proof. by destruct n. Qed.

Lemma next_result_ok s (Q : fcntl_result → fds → Prop) :
  (∀ r s1, quiet s s1 → f_fds s1 = f_fds s → max_unix_offset s1 = max_unix_offset s → f_error s1 = f_error s → (f_results s = [] → r = F_ok) → Q r s1) → wp next_result Q s.
Proof.
  intros HQ. unfold next_result. apply wp_bind, wp_get. destruct (f_results s) eqn:E; [by apply wp_ret, HQ|]. apply wp_bind, wp_modify, wp_ret, HQ; try done. by apply quiet_intro.
Qed.

Lemma round_result again f x type start len s0 s s1 r : quiet s s1 → f_error s1 = f_error s → (f_results s = [] → r = F_ok) →
  wp (lock_round again f x type start len s0 r) (lock_post s1) s1 →
  wp (lock_round again f x type start len s0 r) (λ r s', lock_post s r s' ∧ (f_results s = [] → r = true)) s1.
Proof.
  intros Hq Ee Hr H. assert (Hpost : ∀ b s2, lock_post s1 b s2 → lock_post s b s2) by (intros b s2 [Hq2 He2]; split; [by etransitivity|intros Hb; rewrite <-Ee; auto]).
  destruct (f_results s) eqn:E.
  - rewrite (Hr eq_refl) in *. split; [by apply Hpost|done].
  - eapply wp_mono; [exact H|]. intros b s2 H2. split; [by apply Hpost|done].
Qed.

Lemma set_unix_lock_ok n : ∀ f x start end_ type s, f_fds s !! f = Some x → (rounds type s <= n)%nat →
  wp (set_unix_lock n f start end_ type) (λ r s', lock_post s r s' ∧ (f_results s = [] → r = true)) s.
Proof.
  induction n as [|n IH]; intros f x start end_ type s Hf Hn; rewrite set_unix_lock_step; (apply wp_bind, (wp_get_fd _ x); [done|]); (destruct (fd_fs_locks x); cbn [negb]; [|by apply wp_ret]);
    (destruct (start =? end_); [by apply wp_ret|]); apply wp_bind, wp_get; (destruct (max_unix_offset s <? start); [by apply wp_ret|]); apply wp_bind, next_result_ok;
    intros r s1 Hq Ef Em Ee Hr; set (again := λ type : lock_type, _); set (len := if _ || _ then 0 else _);
    (assert (wp (lock_round again f x type start len s r) (lock_post s1) s1) as Hround; [apply (lock_round_ok again f x); [by rewrite Ef|done| |]; unfold rounds in *|]).
  - intros ->. simpl in Hn. lia.
  - intros Hm. rewrite (proj2 (Z.ltb_lt _ _)) in Hn by lia. lia.
  - by apply round_result.
  - intros ->. eapply wp_mono; [apply (IH f x); [by rewrite Ef|]|by intros ? ? [? _]]. rewrite Em. rewrite bool_decide_eq_true_2 in Hn by done. rewrite bool_decide_eq_false_2 by done. lia.
  - intros Hm. eapply wp_mono; [apply (IH f x); [simpl; by rewrite Ef|simpl; rewrite (proj2 (Z.ltb_lt _ _)) in Hn by lia; change (INT_MAX <? INT_MAX) with false; lia]|].
    intros ? s2 [[Hq2 He2] _]. split; [|done]. etransitivity; [by apply (quiet_intro _ (set_max_unix_offset INT_MAX s1))|done].
  - by apply round_result.
Qed.

Lemma set_unix_lock_3 f x start end_ type s : f_fds s !! f = Some x → wp (set_unix_lock 3 f start end_ type) (λ r s', lock_post s r s' ∧ (f_results s = [] → r = true)) s.
Proof. intros Hf. apply (set_unix_lock_ok 3 f x); [done|]. unfold rounds. case_bool_decide; case_match; lia. Qed.

Lemma clear_holes_ok n : ∀ o a c b first next f x s, buffer_ok o b first next → o !! a = Some c → (length o <= a + n)%nat → f_fds s !! f = Some x →
  wp (clear_holes n f b (Some c)) (λ _ s', quiet s s') s.
Proof.
  induction n as [|n IH]; intros o a c b first next f x s Hb Ha Hn Hf; [apply lookup_lt_Some in Ha; lia|]. cbn [clear_holes].
  assert (c < next)%nat as Hc by (apply (bo_used _ _ _ _ Hb); by eapply list_elem_of_lookup_2). destruct (bo_init _ _ _ _ Hb c Hc) as [h Hh].
  apply wp_bind, (wp_hole_at _ _ h); [done|]. apply wp_bind. eapply wp_mono; [by apply (set_unix_lock_3 f x)|]. intros ? s1 [[Hq1 _] _].
  destruct (quiet_fd _ _ _ _ Hq1 Hf) as (x1 & Hf1 & _). destruct (h_next h) as [y|] eqn:Ey; [|by destruct n; apply wp_ret].
  destruct (bo_next _ _ _ _ Hb c h y Hc Hh Ey) as (a' & y' & Ha' & Hy' & Hlt). assert (a' = a) as -> by (eapply NoDup_lookup; [apply Hb|done|done]).
  eapply wp_mono; [apply (IH o y' y b first next f x1); [done|done|lia|done]|]. intros ? s2 Hq2. etransitivity; [exact Hq1|exact Hq2].
Qed.

Lemma get_all_ok ls s (Q : list file_lock → fds → Prop) : ∀ xs, Forall2 (λ l x, locks s !! l = Some x) ls xs → Q xs s → wp (get_all ls) Q s.
Proof.
  intros xs H. revert Q. induction H as [|l x ls xs Hl _ IH]; intros Q HQ; cbn [get_all]; [by apply wp_ret|]. apply wp_bind, (wp_get_lock _ x); [done|]. apply wp_bind, IH. by apply wp_ret.
Qed.

(** ** [remove_unix_locks] never fails *)

Lemma remove_unix_locks_ok f x start end_ s : f_fds s !! f = Some x →
  (∀ i, fd_inode x = Some i → ∃ io xs, f_inodes s !! i = Some io ∧ Forall2 (λ l lock, locks s !! l = Some lock) (i_locks io) xs ∧ Forall (λ lock, l_end lock = 0 ∨ l_start lock <= l_end lock) xs) →
  wp (remove_unix_locks f start end_) (λ _ s', quiet s s') s.
Proof.
  intros Hf Hi. unfold remove_unix_locks. apply wp_bind, (wp_get_fd _ x); [done|]. destruct (fd_inode x) as [i|]; [|by apply wp_ret]. destruct (Hi i eq_refl) as (io & xs & Hio & Hxs & Hwf).
  apply wp_bind, wp_get. destruct (fd_fs_locks x); cbn [negb]; [|by apply wp_ret]. destruct (_ || (max_unix_offset s <? start)); [by apply wp_ret|].
  set (e := if _ || _ then max_unix_offset s + 1 else end_). apply wp_bind, (wp_get_inode _ io); [done|]. apply wp_bind, (get_all_ok _ _ _ xs); [done|].
  set (count := length (filter _ xs)). destruct (count =? 0)%nat; [apply wp_bind; eapply wp_mono; [by apply (set_unix_lock_3 f x)|]; intros ? s1 [[Hq _] _]; by apply wp_ret|].
  apply wp_bind. eapply (wp_mono _ (λ _ s1, quiet s s1 ∧ f_fds s1 = f_fds s)).
  { unfold f_malloc. apply wp_bind, wp_get. destruct (f_allocs s); [by apply wp_ret|]. apply wp_bind, wp_modify, wp_ret. split; [by apply quiet_intro|done]. }
  intros ok s1 [Hq1 Ef1]. destruct ok; cbn [negb]; [|by apply wp_ret]. apply wp_bind. set (b0 := Some (Hole None None start e) :: replicate count None).
  assert (length b0 = S count) as El by (simpl; by rewrite length_replicate). assert (buffer_ok [0%nat] b0 (Some 0%nat) 1) as Hb0.
  { split; [apply NoDup_singleton|intros j; rewrite list_elem_of_singleton; lia|rewrite El; lia| | | |intros j [= <-]; lia].
    - intros j Hj. assert (j = 0)%nat as -> by lia. by eexists.
    - intros j h k Hj Hh. assert (j = 0)%nat as -> by lia. by injection Hh as <-.
    - intros j h k Hj Hh. assert (j = 0)%nat as -> by lia. by injection Hh as <-. }
  eapply wp_mono; [apply (build_holes_ok start e (S count) xs) with (o := [0%nat]); [|done|rewrite El; fold count; lia|lia]|].
  { eapply Forall_impl; [exact Hwf|]. intros lock Hw Ht. unfold touches in Ht. apply andb_true_iff in Ht as [Ht _]. apply negb_true_iff, Z.eqb_neq in Ht. destruct Hw; [by left|right; lia]. }
  intros r s2 [-> Hr]. destruct r as [[[b first] next]|]; [|by apply wp_ret]. destruct Hr as (o & Hb & Elb). destruct first as [c|]; [|by apply wp_ret].
  assert (c ∈ o) as [a Ha]%list_elem_of_lookup by (by apply (bo_used _ _ _ _ Hb), (bo_first _ _ _ _ Hb)).
  assert (length o <= S count)%nat as Hlo.
  { rewrite <-(length_seq (S count) 0). apply submseteq_length, NoDup_submseteq; [apply Hb|]. intros j Hj%(bo_used _ _ _ _ Hb). apply elem_of_seq. pose proof (bo_room _ _ _ _ Hb). lia. }
  eapply wp_mono; [apply (clear_holes_ok (S count) o a c b (Some c) next f x); [done|done|lia|by rewrite Ef1]|]. intros ? s3 Hq3. etransitivity; [exact Hq1|exact Hq3].
Qed.

(** * The holes between locks in order *)

(** ** Holes as intervals *)

Notation interval := (nat * (Z * Z))%type.
Definition index (p : interval) : nat := p.1.
Definition lower (p : interval) : Z := p.2.1.
Definition upper (p : interval) : Z := p.2.2.

(** The first entry of a list, or what comes behind it. *)
Definition entry (l : list interval) (nxt : option nat) : option nat := match l with p :: _ => Some (index p) | [] => nxt end.

(** The holes of the buffer are the intervals, linked both ways. *)
Fixpoint linked (b : holes) (prev : option nat) (l : list interval) (nxt : option nat) : Prop :=
  match l with
  | [] => True
  | p :: l => b !! index p = Some (Some (Hole (entry l nxt) prev (lower p) (upper p))) ∧ linked b (Some (index p)) l nxt
  end.

Definition final (l : list interval) (prev : option nat) : option nat := foldl (λ _ p, Some (index p)) prev l.

Lemma linked_app b l1 : ∀ prev l2 nxt, linked b prev (l1 ++ l2) nxt ↔ linked b prev l1 (entry l2 nxt) ∧ linked b (final l1 prev) l2 nxt.
Proof.
  induction l1 as [|p l1 IH]; intros prev l2 nxt; [simpl; tauto|]. cbn [app linked final foldl]. rewrite IH. assert (entry (l1 ++ l2) nxt = entry l1 (entry l2 nxt)) as -> by by destruct l1. tauto.
Qed.

Lemma linked_insert b i v l : i ∉ index <$> l → ∀ prev nxt, linked b prev l nxt → linked (<[i:=v]> b) prev l nxt.
Proof.
  intros Hi. induction l as [|p l IH]; intros prev nxt; [done|]. cbn [linked fmap list_fmap] in *. apply not_elem_of_cons in Hi as [Hp Hi]. intros [H1 H2].
  split; [by rewrite list_lookup_insert_ne|]. by apply IH.
Qed.

Lemma final_snoc l p prev : final (l ++ [p]) prev = Some (index p).
Proof. unfold final. by rewrite foldl_app. Qed.

(** ** The walk to the last hole *)

Lemma cut_skip lock hl p l : Forall (λ q, upper q <= l_start lock) l → ∀ n prev nxt s Q, linked (fst (fst hl)) prev (l ++ [p]) nxt → (length l < n)%nat →
  wp (cut_holes (n - length l) lock (Some (index p)) hl) Q s → wp (cut_holes n lock (entry (l ++ [p]) nxt) hl) Q s.
Proof.
  destruct hl as [[b first] next]. induction 1 as [|q l Hq _ IH]; intros n prev nxt s Q Hl Hn HQ; [by rewrite Nat.sub_0_r in HQ|].
  destruct n as [|n]; [simpl in Hn; lia|]. cbn [app entry cut_holes]. cbn [fst app linked] in Hl. destruct Hl as [H1 H2]. apply wp_bind. eapply wp_hole_at; [exact H1|]. cbn [h_end h_next].
  rewrite (proj2 (Z.leb_le _ _)) by done. eapply IH; [exact H2|simpl in Hn; lia|done].
Qed.

(** The intervals of the buffer. *)
Record intervals (start end_ : Z) (hs : list interval) (b : holes) (first : option nat) (next : nat) : Prop := {
  iv_linked : linked b None hs None;
  iv_first : first = entry hs None;
  iv_nodup : NoDup (index <$> hs);
  iv_used : Forall (λ p, (index p < next)%nat) hs;
  iv_room : (next <= length b)%nat;
  iv_valid : Forall (λ p, start <= lower p ∧ lower p < upper p ∧ upper p <= end_) hs;
}.

(** All but the last hole end before [a]. *)
Definition behind (a : Z) (hs : list interval) : Prop := ∀ l p, hs = l ++ [p] → Forall (λ q, upper q <= a) l.

Definition in_holes (hs : list interval) (x : Z) : Prop := ∃ p, p ∈ hs ∧ lower p <= x < upper p.
Definition covers (lock : file_lock) (x : Z) : Prop := l_start lock <= x ∧ (l_end lock = 0 ∨ x < l_end lock).

Definition cut_post (start end_ : Z) (lock : file_lock) (hs : list interval) (len next : nat) (r : option hole_list) : Prop :=
  ∃ hs', (∀ x, in_holes hs' x ↔ in_holes hs x ∧ ¬ covers lock x) ∧
    match r with
    | None => hs' = []
    | Some (b, first, next') => intervals start end_ hs' b first next' ∧ behind (l_start lock) hs' ∧ length b = len ∧ (next' <= S next)%nat ∧ hs' ≠ []
    end.

Lemma in_holes_snoc l p x : in_holes (l ++ [p]) x ↔ in_holes l x ∨ lower p <= x < upper p.
Proof.
  unfold in_holes. setoid_rewrite elem_of_app. setoid_rewrite list_elem_of_singleton. split; [intros (q & [?| ->] & ?); eauto|]. intros [(q & ? & ?)|?]; eauto.
Qed.
Lemma in_holes_above lock l x : Forall (λ q, upper q <= l_start lock) l → in_holes l x → ¬ covers lock x.
Proof. intros Hl (q & Hq & Hx) [Hc _]. rewrite Forall_forall in Hl. specialize (Hl q Hq). lia. Qed.

Lemma behind_snoc a l p : Forall (λ q, upper q <= a) l → behind a (l ++ [p]).
Proof. intros H l' p' E. apply app_inj_tail in E as [<- _]. done. Qed.
Lemma behind_all a l : Forall (λ q, upper q <= a) l → behind a l.
Proof. intros H l' p' ->. by apply Forall_app in H as [? _]. Qed.

(** The last hole is replaced. *)
Lemma intervals_last start end_ l p q b first next h : intervals start end_ (l ++ [p]) b first next → index q = index p → h = Hole None (final l None) (lower q) (upper q) →
  start <= lower q ∧ lower q < upper q ∧ upper q <= end_ → intervals start end_ (l ++ [q]) (<[index p:=Some h]> b) first next.
Proof.
  intros [A B C D E G] Hq -> Hv. apply linked_app in A as [A1 [A2 _]]. rewrite fmap_app in C. apply NoDup_app in C as (C1 & C2 & _). apply Forall_app in D as [D1 D2]. apply Forall_app in G as [G1 _].
  assert (index p ∉ index <$> l) as Hnl by (intros H; apply (C2 _ H); left). rewrite Forall_singleton in D2. cbn beta in D2. split; rewrite ?length_insert.
  - apply linked_app. cbn [linked entry]. rewrite Hq. split; [by apply linked_insert|]. split; [|done]. apply list_lookup_insert_eq. lia.
  - rewrite B. destruct l; simpl; [by rewrite Hq|done].
  - rewrite fmap_app. simpl. rewrite Hq. apply NoDup_app. split_and!; [done|done|apply NoDup_singleton].
  - apply Forall_app. split; [done|]. apply Forall_singleton. by rewrite Hq.
  - done.
  - apply Forall_app. split; [done|]. by apply Forall_singleton.
Qed.

(** A hole is added behind the last. *)
Lemma intervals_split start end_ l p b first next mid mid' : intervals start end_ (l ++ [p]) b first next → (next < length b)%nat →
  start <= lower p → lower p < mid → mid < mid' → mid' < upper p → upper p <= end_ →
  intervals start end_ (l ++ [(index p, (lower p, mid)); (next, (mid', upper p))])
    (<[index p := Some (Hole (Some next) (final l None) (lower p) mid)]> (<[next := Some (Hole None (Some (index p)) mid' (upper p))]> b)) first (S next).
Proof.
  intros [A B C D E G] Hroom Hs H1 H2 H3 He. apply linked_app in A as [A1 [A2 _]]. rewrite fmap_app in C. apply NoDup_app in C as (C1 & C2 & _). apply Forall_app in D as [D1 D2].
  rewrite Forall_singleton in D2. cbn beta in D2. apply Forall_app in G as [G1 _]. assert (index p ∉ index <$> l) as Hnl by (intros H; apply (C2 _ H); left).
  assert (next ∉ index <$> l) as Hnn by (intros (q & -> & Hq)%list_elem_of_fmap; rewrite Forall_forall in D1; specialize (D1 q Hq); lia). split; rewrite ?length_insert.
  - apply linked_app. split; [by apply linked_insert, linked_insert|]. cbn [linked entry]. assert (index p ≠ next) as Hpn by lia. assert (index p < length b)%nat as Hpb by lia. clear -Hpn Hpb Hroom.
    destruct p as [ip [sp ep]]. unfold index, lower, upper in *. cbn [fst snd] in *. split_and!; [| |done].
    + apply list_lookup_insert_eq. by rewrite length_insert.
    + rewrite list_lookup_insert_ne by done. by apply list_lookup_insert_eq.
  - rewrite B. by destruct l.
  - rewrite fmap_app. simpl. apply NoDup_app. split_and!; [done| |].
    + intros j Hj [->|[->|?%elem_of_nil]%elem_of_cons]%elem_of_cons; done.
    + apply NoDup_cons. split; [intros [E'|?%elem_of_nil]%elem_of_cons; [change (index p = next) in E'; lia|done]|apply NoDup_singleton].
  - apply Forall_app. split; [eapply Forall_impl; [exact D1|]; simpl; lia|]. repeat constructor; unfold index in *; simpl; lia.
  - done.
  - apply Forall_app. split; [done|]. repeat constructor; unfold lower, upper in *; simpl; lia.
Qed.

(** The last hole is taken out. *)
Lemma intervals_drop start end_ l q p b first next v : intervals start end_ ((l ++ [q]) ++ [p]) b first next →
  intervals start end_ (l ++ [q]) (<[index q := Some (Hole None (final l None) (lower q) (upper q))]> (<[index p := v]> b)) first next.
Proof.
  intros [A B C D E G]. apply linked_app in A as [A1 _]. apply linked_app in A1 as [A1 [A2 _]]. rewrite !fmap_app in C. apply NoDup_app in C as (C1 & C2 & _). apply Forall_app in D as [D1 D2].
  assert (index p ∉ index <$> (l ++ [q])) as Hp by (rewrite fmap_app; intros H; apply (C2 _ H); left). rewrite fmap_app in Hp. apply not_elem_of_app in Hp as [Hpl Hpq].
  pose proof C1 as C1'. apply NoDup_app in C1' as (_ & C3 & _). assert (index q ∉ index <$> l) as Hql by (intros H; apply (C3 _ H); left).
  apply Forall_app in G as [G1 _]. split; rewrite ?length_insert.
  - apply linked_app. cbn [linked entry]. split; [by apply linked_insert, linked_insert|]. split; [|done]. apply list_lookup_insert_eq. rewrite length_insert. apply Forall_app in D1 as [_ D1]. rewrite Forall_singleton in D1. cbn beta in D1. lia.
  - rewrite B. by destruct l.
  - by rewrite fmap_app.
  - done.
  - done.
  - done.
Qed.

Lemma cut_sorted_ok start end_ lock l p b first next n s : intervals start end_ (l ++ [p]) b first next → Forall (λ q, upper q <= l_start lock) l → (next < length b)%nat → (length l < n)%nat → lock_wf lock →
  wp (cut_holes n lock first (b, first, next)) (λ r s', s' = s ∧ cut_post start end_ lock (l ++ [p]) (length b) next r) s.
Proof.
  intros Hiv Hl Hroom Hn Hw. rewrite (iv_first _ _ _ _ _ _ Hiv). apply (cut_skip lock _ p l Hl n None); [apply Hiv|done|]. rewrite <-(iv_first _ _ _ _ _ _ Hiv).
  pose proof (iv_linked _ _ _ _ _ _ Hiv) as [_ [Hp _]]%linked_app. cbn [entry] in Hp. destruct (n - length l)%nat as [|m] eqn:Em; [lia|]. cbn [cut_holes].
  pose proof (iv_valid _ _ _ _ _ _ Hiv) as Hv. apply Forall_app in Hv as [_ Hv]. rewrite Forall_singleton in Hv. destruct Hv as (V1 & V2 & V3).
  assert (Hab : ∀ x, in_holes l x → ¬ covers lock x) by (intros x; by apply in_holes_above).
  apply wp_bind. eapply wp_hole_at; [exact Hp|]. cbn [h_end h_start h_next h_prev]. unfold covers in Hab.
  assert (Hkeep : (∀ x, lower p <= x < upper p → ¬ covers lock x) → cut_post start end_ lock (l ++ [p]) (length b) next (Some (b, first, next))).
  { intros Hx. exists (l ++ [p]). split; [|split_and!; [done|by apply behind_snoc|done|lia|by destruct l]]. intros x. split; [|tauto]. intros H. split; [done|]. apply in_holes_snoc in H as [H|H]; [by apply Hab|auto]. }
  destruct (Z.leb_spec (upper p) (l_start lock)) as [H1|H1].
  { destruct m; apply wp_ret; (split; [done|]); apply Hkeep; unfold covers; intros x; lia. }
  destruct (negb (l_end lock =? 0) && (l_end lock <=? lower p)) eqn:H2.
  { apply wp_ret. split; [done|]. apply andb_true_iff in H2 as [H2 H3]. apply negb_true_iff, Z.eqb_neq in H2. apply Z.leb_le in H3. apply Hkeep. unfold covers. intros x. lia. }
  assert (Hin : l_end lock = 0 ∨ lower p < l_end lock) by (destruct (Z.eqb_spec (l_end lock) 0); [by left|]; simpl in H2; apply Z.leb_gt in H2; by right). clear H2.
  assert (index p < length b)%nat as Hpb by (by apply lookup_lt_Some in Hp). unfold h_set_start, h_set_end, h_set_next. cbn [h_end h_start h_next h_prev].
  destruct (Z.leb_spec (l_start lock) (lower p)) as [H3|H3].
  - apply wp_bind, wp_set_hole; [done|]. destruct (negb (l_end lock =? 0) && (l_end lock <? upper p)) eqn:H4.
    + apply andb_true_iff in H4 as [H4 H5]. apply negb_true_iff, Z.eqb_neq in H4. apply Z.ltb_lt in H5. apply wp_ret. split; [done|]. exists (l ++ [(index p, (l_end lock, upper p))]). split.
      * intros x. rewrite !in_holes_snoc. unfold lower, upper, covers in *. simpl in *. specialize (Hab x). naive_solver lia.
      * split_and!; [|by apply behind_snoc|by rewrite length_insert|lia|by destruct l]. eapply intervals_last; [done|done|done|]. unfold lower, upper in *. simpl. lia.
    + assert (l_end lock = 0 ∨ upper p <= l_end lock) as H5 by (destruct (Z.eqb_spec (l_end lock) 0); [by left|]; simpl in H4; apply Z.ltb_ge in H4; by right). clear H4.
      apply wp_bind, wp_ret. assert (Hx : ∀ x, in_holes l x ↔ in_holes (l ++ [p]) x ∧ ¬ covers lock x).
      { intros x. rewrite in_holes_snoc. unfold covers. specialize (Hab x). naive_solver lia. }
      destruct l as [|q l _] using rev_ind; [cbn [final foldl]; apply wp_ret; split; [done|]; by exists []|]. rewrite final_snoc. pose proof (iv_linked _ _ _ _ _ _ Hiv) as [[_ [Hq _]]%linked_app _]%linked_app.
      assert (index q ≠ index p) as Hqp by (pose proof (iv_nodup _ _ _ _ _ _ Hiv) as C; rewrite !fmap_app in C; apply NoDup_app in C as (_ & C & _); intros E; apply (C (index q)); [apply elem_of_app; right; left|rewrite E; left]).
      apply wp_bind. eapply wp_hole_at; [rewrite list_lookup_insert_ne by done; exact Hq|]. cbn [entry]. apply wp_bind, wp_set_hole; [rewrite length_insert; by apply lookup_lt_Some in Hq|].
      cbn [h_end h_start h_next h_prev]. destruct m; apply wp_ret; (split; [done|]); exists (l ++ [q]); (split; [done|]); (split_and!; [by apply intervals_drop|by apply behind_all|by rewrite !length_insert|lia|by destruct l]).
  - destruct ((l_end lock =? 0) || (upper p <=? l_end lock)) eqn:H4.
    + assert (l_end lock = 0 ∨ upper p <= l_end lock) as H5 by (apply orb_true_iff in H4 as [?%Z.eqb_eq|?%Z.leb_le]; auto). clear H4.
      apply wp_bind, wp_set_hole; [done|]. apply wp_bind, wp_assert; [by apply Z.ltb_lt|]. destruct m; apply wp_ret; (split; [done|]); exists (l ++ [(index p, (lower p, l_start lock))]).
      all: split; [intros x; rewrite !in_holes_snoc; unfold lower, upper, covers in *; simpl in *; specialize (Hab x); naive_solver lia|].
      all: split_and!; [|by apply behind_snoc|by rewrite length_insert|lia|by destruct l]; eapply intervals_last; [done|done|done|]; unfold lower, upper in *; simpl; lia.
    + apply orb_false_iff in H4 as [H4%Z.eqb_neq H5%Z.leb_gt]. destruct Hw as [?|Hw]; [done|]. apply wp_bind, wp_set_hole; [done|]. apply wp_bind, wp_set_hole; [rewrite length_insert; lia|].
      apply wp_bind, wp_assert; [by apply Z.ltb_lt|]. apply wp_bind, wp_assert; [by apply Z.ltb_lt|]. apply wp_ret. split; [done|].
      exists (l ++ [(index p, (lower p, l_start lock)); (next, (l_end lock, upper p))]). split.
      * intros x. change [(index p, (lower p, l_start lock)); (next, (l_end lock, upper p))] with ([(index p, (lower p, l_start lock))] ++ [(next, (l_end lock, upper p))]).
        rewrite app_assoc, !in_holes_snoc. unfold lower, upper, covers in *. simpl in *. specialize (Hab x). naive_solver lia.
      * split_and!; [by apply intervals_split|change [(index p, (lower p, l_start lock)); (next, (l_end lock, upper p))] with ([(index p, (lower p, l_start lock))] ++ [(next, (l_end lock, upper p))]); rewrite app_assoc; apply behind_snoc, Forall_app; split; [done|by apply Forall_singleton]|by rewrite !length_insert|lia|by destruct l].
Qed.

(** ** All the locks *)

(** The bytes a lock holds: none, if it is empty. *)
Definition holds (lock : file_lock) (x : Z) : Prop := l_start lock ≠ l_end lock ∧ covers lock x.

Definition in_order (xs : list file_lock) : Prop := ∀ a b x y, xs !! a = Some x → xs !! b = Some y → (a < b)%nat → l_start x <= l_start y.

Lemma untouched lock start end_ x : touches lock start end_ = false → end_ ≠ 0 → start <= x < end_ → ¬ holds lock x.
Proof.
  intros Ht He Hx [Hne [H1 H2]]. unfold touches, lock_overlaps in Ht. rewrite (proj2 (Z.eqb_neq _ _)) in Ht by done. simpl in Ht.
  destruct (Z.eqb_spec (l_end lock) 0); simpl in Ht.
  - rewrite (proj2 (Z.eqb_neq end_ 0)) in Ht by done. simpl in Ht. destruct (Z.leb_spec end_ (l_start lock)); [lia|done].
  - destruct (Z.leb_spec (l_end lock) start); [lia|]. rewrite (proj2 (Z.eqb_neq end_ 0)) in Ht by done. simpl in Ht. destruct (Z.leb_spec end_ (l_start lock)); [lia|done].
Qed.

Lemma intervals_length start end_ hs b first next : intervals start end_ hs b first next → (length hs <= next)%nat.
Proof.
  intros [_ _ C D _ _]. rewrite <-(length_fmap index hs), <-(length_seq next 0). apply submseteq_length, NoDup_submseteq; [done|]. intros i (p & -> & Hp)%list_elem_of_fmap.
  rewrite Forall_forall in D. specialize (D p Hp). apply elem_of_seq. lia.
Qed.

Lemma build_sorted_ok start end_ n xs : end_ ≠ 0 → Forall (λ lock, l_end lock = 0 ∨ l_start lock <= l_end lock) xs → in_order xs → ∀ hs a b first next s, intervals start end_ hs b first next → hs ≠ [] → behind a hs →
  Forall (λ lock, a <= l_start lock) xs → (next + length (filter (λ lock, touches lock start end_ = true) xs) <= length b)%nat → (length b <= n)%nat →
  wp (build_holes n xs start end_ (b, first, next)) (λ r s', s' = s ∧ ∃ hs', (∀ x, in_holes hs' x ↔ in_holes hs x ∧ ¬ ∃ lock, lock ∈ xs ∧ holds lock x) ∧
    match r with None => hs' = [] | Some (b', first', next') => intervals start end_ hs' b' first' next' ∧ length b' = length b end) s.
Proof.
  intros He. induction xs as [|lock xs IH]; intros Hwf Hord hs a b first next s Hiv Hne Hbe Ha Hroom Hn; cbn [build_holes].
  { apply wp_ret. split; [done|]. exists hs. split; [|done]. intros x. split; [|tauto]. intros H. split; [done|]. by intros (lock & ?%elem_of_nil & _). }
  apply Forall_cons in Hwf as [Hwl Hwf]. apply Forall_cons in Ha as [Hal Ha]. assert (in_order xs) as Hord' by (intros i j x y Hi Hj Hij; apply (Hord (S i) (S j) x y); [done|done|lia]).
  assert (Hcons : ∀ (P : Z → Prop) x, P x → (¬ ∃ k, k ∈ lock :: xs ∧ holds k x) ↔ ¬ holds lock x ∧ ¬ ∃ k, k ∈ xs ∧ holds k x).
  { intros P x _. split; [intros H; split; [intros Hx; apply H; exists lock; split; [left|done]|intros (k & ? & ?); apply H; exists k; split; [by right|done]]|].
    intros [H1 H2] (k & [->|Hk]%elem_of_cons & Hx); [done|]. apply H2. eauto. }
  rewrite filter_cons in Hroom. destruct (touches lock start end_) eqn:Et; cbn [negb].
  2:{ rewrite decide_False in Hroom by done. eapply wp_mono; [by apply (IH Hwf Hord' hs a)|]. intros r s' (-> & hs' & Hx & Hr). split; [done|]. exists hs'. split; [|done].
      intros x. rewrite Hx, (Hcons (λ _, True)) by done. split; [intros [H1 H2]; split_and!; try done|tauto]. apply (untouched lock start end_); [done|done|].
      destruct H1 as (p & Hp & Hpx). pose proof (proj1 (Forall_forall _ _) (iv_valid _ _ _ _ _ _ Hiv) p Hp). cbn beta in *. lia. }
  rewrite decide_True in Hroom by done. simpl in Hroom. apply wp_bind. cbn [fst snd]. destruct hs as [|p l _] using rev_ind; [done|]. pose proof (intervals_length _ _ _ _ _ _ Hiv) as Hlen. rewrite length_app in Hlen. simpl in Hlen.
  assert (l_start lock ≠ l_end lock) as Hse by (unfold touches in Et; apply andb_true_iff in Et as [Et _]; by apply negb_true_iff, Z.eqb_neq in Et).
  eapply wp_mono; [apply (cut_sorted_ok start end_ lock l p); [done| |lia|lia|destruct Hwl; [by left|right; lia]]|].
  { eapply Forall_impl; [by apply (Hbe l p)|]. cbn beta. lia. }
  intros r s' (-> & hs' & Hx & Hr). assert (Hhold : ∀ x, covers lock x ↔ holds lock x) by (intros x; unfold holds; tauto). destruct r as [[[b' first'] next']|].
  - destruct Hr as (Hiv' & Hbe' & El & Hn' & Hne'). rewrite <-El in Hroom, Hn |- *. assert (Forall (λ k, l_start lock <= l_start k) xs) as Ha'.
    { apply Forall_forall. intros k [i Hi]%list_elem_of_lookup. apply (Hord 0%nat (S i)); [done|done|lia]. }
    eapply wp_mono; [apply (IH Hwf Hord' hs' (l_start lock)); [done|done|done|done|lia|lia]|]. intros r s' (-> & hs2 & Hx2 & Hr2). split; [done|]. exists hs2. split; [|done].
    intros x. rewrite Hx2, Hx, (Hcons (λ _, True)), Hhold by done. tauto.
  - subst hs'. apply wp_ret. split; [done|]. exists []. split; [|done]. intros x. rewrite (Hcons (λ _, True)) by done. rewrite <-Hhold. specialize (Hx x). split; [by intros (? & ?%elem_of_nil & _)|]. tauto.
Qed.

(** ** What is cleared *)

(** The bytes an unlocking [fcntl] frees: from the start to the end of the file for
    length 0, and before the start for a negative length. *)
Definition unlocks (c : call) (x : Z) : Prop :=
  match c with
  | C_setlk _ _ F_UNLCK start len => if len =? 0 then start <= x else if 0 <? len then start <= x < start + len else start + len <= x < start
  | _ => False
  end.

Definition unlock_call (x : fd) (max start end_ : Z) : call :=
  C_setlk (fd_inode x) (fd_unix_fd x) F_UNLCK start (if (end_ =? 0) || (max <? end_) then 0 else off_t (end_ - start)).

Lemma unlock_run f x start end_ s : f_fds s !! f = Some x → fd_fs_locks x = true → f_results s = [] → start ≠ end_ → start <= max_unix_offset s →
  set_unix_lock 3 f start end_ F_UNLCK s = Done true (add_call (unlock_call x (max_unix_offset s) start end_) s).
Proof.
  intros Hx Hfs Hr Hne Hm. rewrite set_unix_lock_step. unfold get_fd, st_bind, get, deref. rewrite Hx. simpl. rewrite Hfs. cbn [negb]. rewrite (proj2 (Z.eqb_neq _ _)), (proj2 (Z.ltb_ge _ _)) by done.
  unfold next_result, st_bind, get. by rewrite Hr.
Qed.

Lemma off_t_small z : 0 <= z <= OFF_T_MAX → off_t z = z.
Proof. intros Hz. unfold off_t, w64, OFF_T_MAX in *. rewrite Z.mod_small by lia. by rewrite (proj2 (Z.ltb_lt _ _)) by lia. Qed.

Lemma unlock_call_bytes x max start end_ b : 0 <= start < end_ → end_ <= max + 1 → max <= OFF_T_MAX → b <= max → unlocks (unlock_call x max start end_) b ↔ start <= b < end_.
Proof.
  intros Hs He Hm Hb. unfold unlock_call, unlocks. rewrite (proj2 (Z.eqb_neq end_ 0)) by lia. simpl. destruct (Z.ltb_spec max end_); [simpl; lia|].
  rewrite off_t_small by (unfold OFF_T_MAX in *; lia). rewrite (proj2 (Z.eqb_neq _ _)), (proj2 (Z.ltb_lt _ _)) by lia. lia.
Qed.

Definition clears (x : fd) (max : Z) (hs : list interval) : list call := reverse ((λ p, unlock_call x max (lower p) (upper p)) <$> hs).

Definition add_calls (cs : list call) (s : fds) : fds :=
  Fds (locks s) (f_fds s) (f_inodes s) (proc_locks s) (max_unix_offset s) (f_error s) (f_allocs s) (f_results s) (cs ++ f_calls s).

Lemma clear_sorted f x b hs : ∀ n prev s, f_fds s !! f = Some x → fd_fs_locks x = true → f_results s = [] → linked b prev hs None → Forall (λ p, lower p < upper p ∧ lower p <= max_unix_offset s) hs →
  (length hs <= n)%nat → clear_holes n f b (entry hs None) s = Done tt (add_calls (clears x (max_unix_offset s) hs) s).
Proof.
  induction hs as [|p hs IH]; intros n prev s Hx Hfs Hr Hl Hv Hn; [destruct n; by destruct s|]. destruct n as [|n]; [simpl in Hn; lia|]. cbn [entry clear_holes linked] in *. destruct Hl as [H1 H2].
  apply Forall_cons in Hv as [[V1 V2] Hv]. unfold hole_at. rewrite H1. unfold st_bind at 1, st_ret at 1. cbn [h_start h_end h_next]. unfold st_bind at 1. rewrite (unlock_run f x) by (done || lia).
  rewrite (IH n (Some (index p))); try done; [|simpl in Hn; lia]. unfold clears. cbn [fmap list_fmap]. rewrite reverse_cons. unfold add_calls, add_call. simpl. by rewrite <-app_assoc.
Qed.

Lemma clears_bytes x max hs b : Forall (λ p, 0 <= lower p < upper p ∧ upper p <= max + 1) hs → max <= OFF_T_MAX → b <= max → (∃ c, c ∈ clears x max hs ∧ unlocks c b) ↔ in_holes hs b.
Proof.
  intros Hv Hm Hb. rewrite Forall_forall in Hv. unfold clears, in_holes. setoid_rewrite elem_of_reverse. setoid_rewrite list_elem_of_fmap. split.
  - intros (c & (p & -> & Hp) & Hc). exists p. split; [done|]. destruct (Hv p Hp). by apply unlock_call_bytes in Hc.
  - intros (p & Hp & Hpb). exists (unlock_call x max (lower p) (upper p)). split; [eauto|]. destruct (Hv p Hp). by apply unlock_call_bytes.
Qed.

(** The area of a call, up to the largest offset. *)
Definition area_end (s : fds) (end_ : Z) : Z := if (end_ =? 0) || (max_unix_offset s <? end_) then max_unix_offset s + 1 else end_.

Lemma remove_sorted_ok f x i io xs start end_ s : f_fds s !! f = Some x → fd_inode x = Some i → fd_fs_locks x = true → f_inodes s !! i = Some io →
  Forall2 (λ l lock, locks s !! l = Some lock) (i_locks io) xs → Forall (λ lock, 0 <= l_start lock ∧ (l_end lock = 0 ∨ l_start lock <= l_end lock)) xs → in_order xs →
  f_results s = [] → f_allocs s = [] → 0 <= start <= max_unix_offset s → end_ = 0 ∨ start < end_ → start ≠ end_ → max_unix_offset s <= OFF_T_MAX →
  ∃ new, remove_unix_locks f start end_ s = Done tt (add_calls new s) ∧
    ∀ b, b <= max_unix_offset s → (∃ c, c ∈ new ∧ unlocks c b) ↔ (start <= b ∧ (end_ = 0 ∨ b < end_)) ∧ ¬ ∃ lock, lock ∈ xs ∧ holds lock b.
Proof.
  intros Hx Hxi Hfs Hio Hxs Hwf Hord Hr Hal Hst Hend Hse Hmax. assert (start < area_end s end_ ∧ area_end s end_ <= max_unix_offset s + 1 ∧ 0 < area_end s end_) as (He1 & He2 & He3).
  { unfold area_end. destruct (Z.eqb_spec end_ 0); simpl; [lia|]. destruct (Z.ltb_spec (max_unix_offset s) end_); lia. }
  assert (Harea : ∀ b, b <= max_unix_offset s → start <= b < area_end s end_ ↔ start <= b ∧ (end_ = 0 ∨ b < end_)).
  { intros b Hb. unfold area_end. destruct (Z.eqb_spec end_ 0); simpl; [lia|]. destruct (Z.ltb_spec (max_unix_offset s) end_); lia. }
  assert (wp (remove_unix_locks f start end_) (λ _ s', ∃ new, s' = add_calls new s ∧ ∀ b, b <= max_unix_offset s → (∃ c, c ∈ new ∧ unlocks c b) ↔ start <= b < area_end s end_ ∧ ¬ ∃ lock, lock ∈ xs ∧ holds lock b) s) as Hwp.
  2:{ destruct (wp_run _ _ _ Hwp) as ([] & s' & E & new & -> & Hb). exists new. split; [done|]. intros b Hbm. by rewrite <-(Harea b Hbm), Hb. }
  unfold remove_unix_locks. apply wp_bind, (wp_get_fd _ x); [done|]. rewrite Hxi, Hfs. apply wp_bind, wp_get. cbn [negb]. rewrite (proj2 (Z.eqb_neq start end_)), (proj2 (Z.ltb_ge _ _)) by lia. cbn [orb].
  fold (area_end s end_). set (e := area_end s end_) in *. clearbody e. apply wp_bind, (wp_get_inode _ io); [done|]. apply wp_bind, (get_all_ok _ _ _ xs); [done|].
  set (count := length (filter _ xs)). destruct (Nat.eqb_spec count 0) as [Hc|Hc].
  - unfold wp, st_bind. rewrite (unlock_run f x) by (done || lia). exists [unlock_call x (max_unix_offset s) start e]. split; [done|]. intros b Hb.
    assert (¬ ∃ lock, lock ∈ xs ∧ holds lock b ∧ start <= b < e) as Hno.
    { intros (lock & Hin & Hh & Hbr). destruct (touches lock start e) eqn:Et; [|apply (untouched lock start e b); [done|lia|done|done]]. apply nil_length_inv in Hc.
      assert (lock ∈ filter (λ lock, touches lock start e = true) xs) as Hf by (by apply list_elem_of_filter). rewrite Hc in Hf. by apply elem_of_nil in Hf. }
    split.
    + intros (c & ->%list_elem_of_singleton & Hu). apply unlock_call_bytes in Hu; [|lia..]. split; [done|]. intros (lock & ? & ?). apply Hno. eauto.
    + intros [Hbr _]. eexists. split; [by apply list_elem_of_singleton|]. apply unlock_call_bytes; lia.
  - apply wp_bind. unfold f_malloc. apply wp_bind, wp_get. rewrite Hal. apply wp_ret. cbn [negb]. apply wp_bind.
    set (b0 := Some (Hole None None start e) :: replicate count None). assert (length b0 = S count) as El by (simpl; by rewrite length_replicate).
    assert (intervals start e [(0%nat, (start, e))] b0 (Some 0%nat) 1) as Hiv0.
    { split; [by split|done|apply NoDup_singleton|by repeat constructor|rewrite El; lia|]. apply Forall_singleton. unfold lower, upper. simpl. lia. }
    eapply wp_mono; [apply (build_sorted_ok start e (S count) xs) with (a := 0) (hs := [(0%nat, (start, e))]); try done; [lia|eapply Forall_impl; [exact Hwf|]; tauto|intros l p El'; by destruct l as [|? []]|eapply Forall_impl; [exact Hwf|]; tauto|rewrite El; fold count; lia|lia]|].
    intros r s' (-> & hs & Hxh & Hrr). assert (Hx0 : ∀ b, in_holes [(0%nat, (start, e))] b ↔ start <= b < e).
    { intros b. unfold in_holes. split; [by intros (p & ->%list_elem_of_singleton & Hp)|]. intros Hb. eexists. split; [by apply list_elem_of_singleton|done]. }
    destruct r as [[[b first] next]|].
    + destruct Hrr as (Hiv & Elb). rewrite (iv_first _ _ _ _ _ _ Hiv). pose proof (intervals_length _ _ _ _ _ _ Hiv) as Hlen. pose proof (iv_room _ _ _ _ _ _ Hiv) as Hrm.
      pose proof (iv_valid _ _ _ _ _ _ Hiv) as Hv. unfold wp. rewrite (clear_sorted f x b hs (S count) None); try done; [|apply Hiv|eapply Forall_impl; [exact Hv|]; cbn beta; lia|lia].
      exists (clears x (max_unix_offset s) hs). split; [done|]. intros c Hcm. rewrite clears_bytes, Hxh, Hx0; [done| |done|done]. eapply Forall_impl; [exact Hv|]. cbn beta. lia.
    + subst hs. apply wp_ret. exists []. split; [by destruct s|]. intros b Hb. split; [by intros (c & ?%elem_of_nil & _)|]. intros H. rewrite <-Hx0 in H. apply Hxh in H as (p & ?%elem_of_nil & _). done.
Qed.
