(* ===== verification/FileLockInv.v ===== *)
(** * The invariant of file locks

    The lists of a lock agree, no two locks of a file conflict, and a Unix
    descriptor is closed only when the file has no locks; the operations on locks keep it. *)

From stdpp Require Import base list gmap fin_maps fin_sets.
From S2P Require Import Prelude FileLock HoleSpecs.

Open Scope Z_scope.
Open Scope server_scope.

(** Of two locks of a file that overlap, the later is shared, and so is the earlier
    unless they belong to the same descriptor. *)
Definition apart (m : gmap lid file_lock) (ls : list lid) : Prop := ∀ a b l k lock other,
  ls !! a = Some l → ls !! b = Some k → (a < b)%nat → m !! l = Some lock → m !! k = Some other → lock_overlaps lock (l_start other) (l_end other) = true →
  l_shared other = true ∧ (l_shared lock = true ∨ l_fd lock = l_fd other).

Definition of_inode (s : fds) (lock : file_lock) (i : ino) : Prop := ∃ x, f_fds s !! l_fd lock = Some x ∧ fd_inode x = Some i.

Record range_wf (lock : file_lock) : Prop := {
  rw_start : 0 <= l_start lock <= FILE_POS_T_MAX;
  rw_end : 0 <= l_end lock <= FILE_POS_T_MAX;
  rw_order : l_end lock = 0 ∨ l_start lock <= l_end lock;
}.

Record lock_inv (s : fds) : Prop := {
  li_inode : ∀ f x i, f_fds s !! f = Some x → fd_inode x = Some i → is_Some (f_inodes s !! i);
  li_owner : ∀ l lock, locks s !! l = Some lock → (∃ i, of_inode s lock i) ∧ is_Some (proc_locks s !! l_process lock) ∧ range_wf lock;
  li_fd : ∀ f x, f_fds s !! f = Some x → NoDup (fd_locks x) ∧ ∀ l, l ∈ fd_locks x ↔ ∃ lock, locks s !! l = Some lock ∧ l_fd lock = f;
  li_file : ∀ i io, f_inodes s !! i = Some io → NoDup (i_locks io) ∧ ∀ l, l ∈ i_locks io ↔ ∃ lock, locks s !! l = Some lock ∧ of_inode s lock i;
  li_proc : ∀ p ls, proc_locks s !! p = Some ls → NoDup ls ∧ ∀ l, l ∈ ls ↔ ∃ lock, locks s !! l = Some lock ∧ l_process lock = p;
  li_apart : ∀ i io, f_inodes s !! i = Some io → apart (locks s) (i_locks io);
}.

(** ** Removing locks *)

(** The calls made close descriptors only of files that have no locks at the end. *)
Definition closes_ok (s s' : fds) : Prop :=
  ∃ new, f_calls s' = new ++ f_calls s ∧ ∀ i u, C_close i u ∈ new → ∃ io, f_inodes s' !! i = Some io ∧ i_locks io = [].

(** The list without the locks of a set. *)
Definition less (d : gset lid) (l : list lid) : list lid := filter (λ x, x ∉ d) l.

Record less_fd (d : gset lid) (x y : fd) : Prop := {
  lf_inode : fd_inode y = fd_inode x;
  lf_locks : fd_locks y = less d (fd_locks x);
  lf_access : fd_access y = fd_access x ∧ fd_sharing y = fd_sharing x;
  lf_closed : fd_unix_fd y = fd_unix_fd x ∧ fd_closed y = fd_closed x;
}.
Record less_inode (d : gset lid) (x y : inode) : Prop := {
  ln_open : i_open y = i_open x;
  ln_locks : i_locks y = less d (i_locks x);
}.

(** The locks of [d] leave all lists, and nothing else does. *)
Record removed (d : gset lid) (s s' : fds) : Prop := {
  rm_locks : ∀ l, locks s' !! l = if decide (l ∈ d) then None else locks s !! l;
  rm_fds : ∀ f, option_Forall2 (less_fd d) (f_fds s !! f) (f_fds s' !! f);
  rm_inodes : ∀ i, option_Forall2 (less_inode d) (f_inodes s !! i) (f_inodes s' !! i);
  rm_procs : ∀ p, proc_locks s' !! p = less d <$> proc_locks s !! p;
  rm_calls : closes_ok s s';
}.

Lemma less_less d e l : less e (less d l) = less (d ∪ e) l.
Proof. unfold less. rewrite list_filter_filter. apply list_filter_iff. intros x. set_solver. Qed.
Lemma less_none l : less ∅ l = l.
Proof. unfold less. induction l as [|x l IH]; [done|]. rewrite filter_cons_True by set_solver. by rewrite IH. Qed.
Lemma less_without l ls : without l ls = less {[l]} ls.
Proof. unfold without, less. apply list_filter_iff. intros x. set_solver. Qed.
Lemma elem_of_less d l x : x ∈ less d l ↔ x ∈ l ∧ x ∉ d.
Proof. unfold less. rewrite list_elem_of_filter. tauto. Qed.

Lemma removed_trans d e s s1 s2 : removed d s s1 → removed e s1 s2 → removed (d ∪ e) s s2.
Proof.
  intros [A1 A2 A3 A4 (na & A5 & A6)] [B1 B2 B3 B4 (nb & B5 & B6)]. split.
  - intros l. rewrite B1, A1. repeat case_decide; set_solver.
  - intros f. specialize (A2 f). specialize (B2 f). revert A2 B2. intros [x y [? ? [] []]|] HB; inversion HB as [? z [? ? [] []]|]; subst; constructor. split; try split; try congruence.
    rewrite <-less_less. congruence.
  - intros i. specialize (A3 i). specialize (B3 i). revert A3 B3. intros [x y []|] HB; inversion HB as [? z []|]; subst; constructor. split; [congruence|]. rewrite <-less_less. congruence.
  - intros p. rewrite B4, A4. destruct (proc_locks s !! p); [|done]. simpl. by rewrite less_less.
  - exists (nb ++ na). split; [by rewrite B5, A5, app_assoc|]. intros i u [H|H]%elem_of_app; [by apply (B6 i u)|]. destruct (A6 i u H) as (io & Hio & E).
    specialize (B3 i). rewrite Hio in B3. inversion B3 as [? z [_ E']|]; subst. exists z. by rewrite E', E.
Qed.

Lemma quiet_removed s s' : quiet s s' → removed ∅ s s'.
Proof.
  intros [A B C D (new & E & Hn)]. split.
  - intros l. by rewrite decide_False, A by set_solver.
  - intros f. destruct (D f) as [x y [? ? [] []]|]; constructor. split; try done. by rewrite less_none.
  - intros i. rewrite B. destruct (f_inodes s !! i); constructor. split; [done|]. by rewrite less_none.
  - intros p. rewrite C. destruct (proc_locks s !! p); [|done]. simpl. by rewrite less_none.
  - exists new. split; [done|]. intros i u Hi. rewrite Forall_forall in Hn. by destruct (Hn _ Hi).
Qed.

Lemma removed_fd d s s' f y : removed d s s' → f_fds s' !! f = Some y → ∃ x, f_fds s !! f = Some x ∧ less_fd d x y.
Proof. intros H Hf. pose proof (rm_fds _ _ _ H f) as Hq. rewrite Hf in Hq. destruct (f_fds s !! f); inversion Hq; subst. eauto. Qed.
Lemma removed_fd_l d s s' f x : removed d s s' → f_fds s !! f = Some x → ∃ y, f_fds s' !! f = Some y ∧ less_fd d x y.
Proof. intros H Hf. pose proof (rm_fds _ _ _ H f) as Hq. rewrite Hf in Hq. destruct (f_fds s' !! f); inversion Hq; subst. eauto. Qed.
Lemma removed_inode d s s' i y : removed d s s' → f_inodes s' !! i = Some y → ∃ x, f_inodes s !! i = Some x ∧ less_inode d x y.
Proof. intros H Hf. pose proof (rm_inodes _ _ _ H i) as Hq. rewrite Hf in Hq. destruct (f_inodes s !! i); inversion Hq; subst. eauto. Qed.
Lemma removed_inode_l d s s' i x : removed d s s' → f_inodes s !! i = Some x → ∃ y, f_inodes s' !! i = Some y ∧ less_inode d x y.
Proof. intros H Hf. pose proof (rm_inodes _ _ _ H i) as Hq. rewrite Hf in Hq. destruct (f_inodes s' !! i); inversion Hq; subst. eauto. Qed.

Lemma removed_of_inode d s s' lock i : removed d s s' → of_inode s' lock i ↔ of_inode s lock i.
Proof.
  intros H. split; intros (x & Hx & Hi).
  - destruct (removed_fd _ _ _ _ _ H Hx) as (y & Hy & Hl). exists y. by rewrite <-(lf_inode _ _ _ Hl).
  - destruct (removed_fd_l _ _ _ _ _ H Hx) as (y & Hy & Hl). exists y. by rewrite (lf_inode _ _ _ Hl).
Qed.

Lemma removed_lookup d s s' l lock : removed d s s' → locks s' !! l = Some lock ↔ locks s !! l = Some lock ∧ l ∉ d.
Proof. intros H. rewrite (rm_locks _ _ _ H). case_decide; naive_solver. Qed.

(** A list that is less has its entries in the same order. *)
Lemma less_order d ls a b x y : less d ls !! a = Some x → less d ls !! b = Some y → (a < b)%nat → ∃ a' b', ls !! a' = Some x ∧ ls !! b' = Some y ∧ (a' < b')%nat.
Proof.
  revert a b. induction ls as [|l ls IH]; intros a b; [done|]. unfold less. rewrite filter_cons. case_decide as Hd.
  - destruct a as [|a], b as [|b]; simpl; [lia| |lia|].
    + intros [= <-] Hb _. apply list_elem_of_lookup_2, list_elem_of_filter in Hb as [_ [b' Hb']%list_elem_of_lookup]. exists 0%nat, (S b'). split_and!; [done..|lia].
    + intros Ha Hb Hab. destruct (IH a b Ha Hb ltac:(lia)) as (a' & b' & ? & ? & ?). exists (S a'), (S b'). split_and!; [done..|lia].
  - intros Ha Hb Hab. destruct (IH a b Ha Hb Hab) as (a' & b' & ? & ? & ?). exists (S a'), (S b'). split_and!; [done..|lia].
Qed.

Lemma removed_inv d s s' : removed d s s' → lock_inv s → lock_inv s'.
Proof.
  intros H Hi. assert (Hl : ∀ l lock, locks s' !! l = Some lock ↔ locks s !! l = Some lock ∧ l ∉ d) by (intros l lock; by apply removed_lookup).
  assert (Hless : ∀ ls (P : file_lock → Prop), NoDup ls ∧ (∀ l, l ∈ ls ↔ ∃ lock, locks s !! l = Some lock ∧ P lock) →
    NoDup (less d ls) ∧ ∀ l, l ∈ less d ls ↔ ∃ lock, locks s' !! l = Some lock ∧ P lock).
  { intros ls P [Hn He]. split; [by apply NoDup_filter|]. intros l. rewrite elem_of_less, He. split.
    - intros [(lock & ? & ?) ?]. exists lock. by rewrite Hl.
    - intros (lock & [? ?]%Hl & ?). split; [by exists lock|done]. }
  split.
  - intros f y i Hf Hy. destruct (removed_fd _ _ _ _ _ H Hf) as (x & Hx & Hlf). destruct (li_inode _ Hi f x i Hx) as [io Hio]; [by rewrite <-(lf_inode _ _ _ Hlf)|].
    destruct (removed_inode_l _ _ _ _ _ H Hio) as (io' & ? & _). by eexists.
  - intros l lock [Hlk Hd]%Hl. destruct (li_owner _ Hi l lock Hlk) as ([i Ho] & [ls Hp] & Hr). split_and!; [exists i; by apply (removed_of_inode _ _ _ _ _ H)| |done].
    rewrite (rm_procs _ _ _ H), Hp. by eexists.
  - intros f y Hf. destruct (removed_fd _ _ _ _ _ H Hf) as (x & Hx & Hlf). rewrite (lf_locks _ _ _ Hlf). apply Hless, (li_fd _ Hi f x Hx).
  - intros i io' Hio'. destruct (removed_inode _ _ _ _ _ H Hio') as (io & Hio & Hln). rewrite (ln_locks _ _ _ Hln). destruct (Hless _ _ (li_file _ Hi i io Hio)) as [A B]. split; [done|].
    intros l. rewrite B. split; intros (lock & ? & Ho); exists lock; (split; [done|]); by apply (removed_of_inode _ _ _ _ _ H).
  - intros p ls' Hp. rewrite (rm_procs _ _ _ H) in Hp. destruct (proc_locks s !! p) as [ls|] eqn:E; [|done]. injection Hp as <-. apply Hless, (li_proc _ Hi p ls E).
  - intros i io' Hio'. destruct (removed_inode _ _ _ _ _ H Hio') as (io & Hio & Hln). rewrite (ln_locks _ _ _ Hln). intros a b l k lock other Ha Hb Hab [Hlk _]%Hl [Hlo _]%Hl.
    destruct (less_order _ _ _ _ _ _ Ha Hb Hab) as (a' & b' & Ha' & Hb' & Hab'). by apply (li_apart _ Hi i io Hio a' b' l k).
Qed.

(** ** [remove_lock] *)

Lemma close_pending_ok i l keep : ∀ s, wp (close_pending i l keep) (λ _ s', f_inodes s' = f_inodes s ∧ locks s' = locks s ∧ f_fds s' = f_fds s ∧ proc_locks s' = proc_locks s ∧
  ∃ new, f_calls s' = new ++ f_calls s ∧ Forall (λ c, ∃ u, c = C_close i u) new) s.
Proof.
  induction l as [|c l IH]; intros s; cbn [close_pending]; [apply wp_ret; split_and!; try done; by exists []|]. apply wp_bind.
  eapply (wp_mono _ (λ _ s1, f_inodes s1 = f_inodes s ∧ locks s1 = locks s ∧ f_fds s1 = f_fds s ∧ proc_locks s1 = proc_locks s ∧ ∃ new, f_calls s1 = new ++ f_calls s ∧ Forall (λ c, ∃ u, c = C_close i u) new)).
  { destruct (negb (cl_unix_fd c =? -1)); [apply wp_modify|apply wp_ret]; split_and!; try done; [exists [C_close i (cl_unix_fd c)]|by exists []]. split; [done|]. repeat constructor. by eexists. }
  intros ? s1 (E1 & E2 & E3 & E4 & n1 & E5 & E6). apply wp_bind. eapply wp_mono; [apply IH|]. intros ? s2 (F1 & F2 & F3 & F4 & n2 & F5 & F6). apply wp_ret. split_and!; try congruence.
  exists (n2 ++ n1). split; [by rewrite F5, E5, app_assoc|by apply Forall_app].
Qed.

Lemma inode_close_pending_ok i io keep s : f_inodes s !! i = Some io → i_locks io = [] →
  wp (inode_close_pending i keep) (λ _ s', removed ∅ s s') s.
Proof.
  intros Hi Hl. unfold inode_close_pending. apply wp_bind, (wp_get_inode _ io); [done|]. apply wp_bind. eapply wp_mono; [apply close_pending_ok|].
  intros cl s1 (E1 & E2 & E3 & E4 & new & E5 & E6). apply wp_bind, (wp_get_inode _ io); [by rewrite E1|]. apply wp_modify. split.
  - intros l. simpl. by rewrite decide_False, E2 by set_solver.
  - intros f. simpl. rewrite E3. destruct (f_fds s !! f); constructor. split; try done. by rewrite less_none.
  - intros j. simpl. rewrite E1. destruct (decide (j = i)) as [->|Hj]; [rewrite lookup_insert_eq, Hi; constructor; split; [done|]; simpl; by rewrite less_none|].
    rewrite lookup_insert_ne by done. destruct (f_inodes s !! j); constructor. split; [done|]. by rewrite less_none.
  - intros p. simpl. rewrite E4. destruct (proc_locks s !! p); [|done]. simpl. by rewrite less_none.
  - exists new. split; [done|]. intros j u Hj. rewrite Forall_forall in E6. destruct (E6 _ Hj) as [? [= -> ->]]. simpl. rewrite lookup_insert_eq. by eexists.
Qed.

Lemma less_id l ls : l ∉ ls → less {[l]} ls = ls.
Proof.
  unfold less. induction ls as [|x ls IH]; [done|]. intros Hl. apply not_elem_of_cons in Hl as [Hx Hl]. rewrite filter_cons_True by (rewrite elem_of_singleton; congruence). by rewrite IH.
Qed.

(** The lists without the lock. *)
Definition unlisted (l : lid) (lock : file_lock) (x : fd) (i : ino) (io : inode) (ls : list lid) (s : fds) : fds :=
  set_proc_locks (<[l_process lock := without l ls]>) (set_inodes (<[i := i_set_locks (without l (i_locks io)) io]>) (set_fds (<[l_fd lock := fd_set_locks (without l (fd_locks x)) x]>) s)).

Lemma unlisted_removed l lock x i io ls s : lock_inv s → locks s !! l = Some lock → f_fds s !! l_fd lock = Some x → fd_inode x = Some i → f_inodes s !! i = Some io →
  proc_locks s !! l_process lock = Some ls → removed {[l]} s (set_locks (delete l) (unlisted l lock x i io ls s)).
Proof.
  intros Hi Hl Hx Hxi Hio Hls. split; simpl.
  - intros k. destruct (decide (k = l)) as [->|Hk]; [rewrite lookup_delete_eq, decide_True by set_solver; done|]. by rewrite lookup_delete_ne, decide_False by set_solver.
  - intros f. destruct (decide (f = l_fd lock)) as [->|Hf].
    + rewrite lookup_insert_eq, Hx. constructor. split; try done. simpl. apply less_without.
    + rewrite lookup_insert_ne by done. destruct (f_fds s !! f) as [y|] eqn:Hy; constructor. split; try done. rewrite less_id; [done|].
      intros (lk & Hlk & E)%(proj2 (li_fd _ Hi f y Hy)). congruence.
  - intros j. destruct (decide (j = i)) as [->|Hj].
    + rewrite lookup_insert_eq, Hio. constructor. split; [done|]. apply less_without.
    + rewrite lookup_insert_ne by done. destruct (f_inodes s !! j) as [jo|] eqn:Hjo; constructor. split; [done|]. rewrite less_id; [done|].
      intros (lk & Hlk & y & Hy & E)%(proj2 (li_file _ Hi j jo Hjo)). rewrite Hl in Hlk. injection Hlk as <-. congruence.
  - intros p. destruct (decide (p = l_process lock)) as [->|Hp].
    + rewrite lookup_insert_eq, Hls. simpl. by rewrite less_without.
    + rewrite lookup_insert_ne by done. destruct (proc_locks s !! p) as [qs|] eqn:Hq; [|done]. simpl. rewrite less_id; [done|].
      intros (lk & Hlk & E)%(proj2 (li_proc _ Hi p qs Hq)). congruence.
  - exists []. split; [done|]. by intros i0 u ?%elem_of_nil.
Qed.

Lemma delete_signal l s s' : removed ∅ s s' → removed ∅ (set_locks (delete l) s) (set_locks (delete l) (add_call (C_signal l) s')).
Proof.
  intros [A B C D (new & E & G)]. split; try done; simpl.
  - intros k. specialize (A k). rewrite decide_False in A by set_solver. rewrite decide_False by set_solver. destruct (decide (k = l)) as [->|]; [by rewrite !lookup_delete_eq|by rewrite !lookup_delete_ne].
  - exists (C_signal l :: new). split; [simpl; by rewrite E|]. intros i u [?|H]%elem_of_cons; [done|]. by apply (G i u).
Qed.

(** The locks of a file are all there. *)
Lemma file_locks_all s i io : lock_inv s → f_inodes s !! i = Some io →
  ∃ xs, Forall2 (λ l lock, locks s !! l = Some lock) (i_locks io) xs ∧ Forall (λ lock, l_end lock = 0 ∨ l_start lock <= l_end lock) xs.
Proof.
  intros Hi Hio. assert (Hall : Forall (λ l, ∃ lock, locks s !! l = Some lock ∧ range_wf lock) (i_locks io)).
  { apply Forall_forall. intros l (lock & Hl & _)%(proj2 (li_file _ Hi i io Hio)). exists lock. split; [done|]. by apply (li_owner _ Hi l lock). }
  induction Hall as [|l ls (lock & Hl & Hr) _ (xs & IH1 & IH2)]; [by exists []|]. exists (lock :: xs). split; constructor; [done|done|apply Hr|done].
Qed.

Lemma remove_lock_ok l lock b s : lock_inv s → locks s !! l = Some lock → wp (remove_lock l b) (λ _ s', removed {[l]} s s') s.
Proof.
  intros Hi Hl. destruct (li_owner _ Hi l lock Hl) as ((i & x & Hx & Hxi) & [ls Hls] & _). destruct (li_inode _ Hi _ _ _ Hx Hxi) as [io Hio].
  unfold remove_lock. apply wp_bind, (wp_get_lock _ lock); [done|]. apply wp_bind, (wp_get_fd _ x); [done|]. apply wp_bind, (wp_deref _ i); [done|].
  apply wp_bind, wp_modify. apply wp_bind, (wp_get_inode _ io); [done|]. apply wp_bind, wp_modify. apply wp_bind, (wp_get_proc _ ls); [done|]. apply wp_bind, wp_modify.
  change (set_proc_locks _ _) with (unlisted l lock x i io ls s). pose proof (unlisted_removed l lock x i io ls s Hi Hl Hx Hxi Hio Hls) as Hrm.
  pose proof (removed_inv _ _ _ Hrm Hi) as Hi3. set (s3 := unlisted l lock x i io ls s) in *.
  apply wp_bind. eapply (wp_mono _ (λ _ s4, quiet s3 s4)).
  { destruct b; [|by apply wp_ret]. eapply remove_unix_locks_ok; [unfold s3; simpl; apply lookup_insert_eq|]. intros j E. assert (j = i) as -> by (simpl in E; congruence).
    exists (i_set_locks (without l (i_locks io)) io). destruct (file_locks_all _ i (i_set_locks (without l (i_locks io)) io) Hi3) as (xs & H1 & H2); [simpl; apply lookup_insert_eq|].
    exists xs. split; [simpl; apply lookup_insert_eq|]. split; [|done]. eapply Forall2_impl; [exact H1|]. intros k lk Hk. simpl in Hk. by apply lookup_delete_Some in Hk as [_ ?]. }
  intros ? s4 Hq. apply wp_bind, (wp_get_inode _ (i_set_locks (without l (i_locks io)) io)); [rewrite (q_inodes _ _ Hq); simpl; apply lookup_insert_eq|].
  apply wp_bind. eapply (wp_mono _ (λ _ s5, removed ∅ s4 s5)).
  { case_bool_decide as E; [|by apply wp_ret, quiet_removed]. apply (inode_close_pending_ok i (i_set_locks (without l (i_locks io)) io)); [|done]. rewrite (q_inodes _ _ Hq). simpl. apply lookup_insert_eq. }
  intros ? s5 Hr5. apply wp_bind, wp_modify, wp_modify. replace ({[l]} : gset lid) with ({[l]} ∪ ∅ : gset lid) by set_solver. eapply removed_trans; [exact Hrm|]. apply delete_signal.
  replace (∅ : gset lid) with (∅ ∪ ∅ : gset lid) by set_solver. eapply removed_trans; [by apply quiet_removed|done].
Qed.

(** ** The locks of a process or a descriptor *)

Lemma less_cons l ls : NoDup (l :: ls) → less {[l]} (l :: ls) = ls.
Proof. intros [Hl _]%NoDup_cons. unfold less. rewrite filter_cons_False by set_solver. by apply less_id. Qed.

Lemma remove_process_locks_ok p ls : ∀ n s, lock_inv s → proc_locks s !! p = Some ls → (length ls <= n)%nat →
  wp (remove_process_locks n p) (λ _ s', removed (list_to_set ls) s s') s.
Proof.
  induction ls as [|l ls IH]; intros n s Hi Hp Hn; destruct n as [|n]; simpl in Hn; try lia; cbn [remove_process_locks];
    apply wp_bind, (wp_get_proc _ _ _ _ Hp); try (by apply wp_ret, quiet_removed).
  assert (∃ lock, locks s !! l = Some lock ∧ l_process lock = p) as (lock & Hl & _) by (apply (proj2 (li_proc _ Hi p _ Hp)); left).
  apply wp_bind. eapply wp_mono; [by apply (remove_lock_ok l lock)|]. intros ? s1 Hr. eapply wp_mono; [apply IH; [exact (removed_inv _ _ _ Hr Hi)| |lia]|].
  - rewrite (rm_procs _ _ _ Hr), Hp. simpl. by rewrite less_cons by apply (li_proc _ Hi p _ Hp).
  - intros ? s2 Hr2. simpl. exact (removed_trans _ _ _ _ _ Hr Hr2).
Qed.

Lemma remove_fd_loop_ok f ls : ∀ n s x start end_, lock_inv s → f_fds s !! f = Some x → fd_locks x = ls → (length ls <= n)%nat →
  wp (remove_fd_loop n f start end_) (λ _ s', removed (list_to_set ls) s s') s.
Proof.
  induction ls as [|l ls IH]; intros n s x start end_ Hi Hx Hls Hn; destruct n as [|n]; simpl in Hn; try lia; cbn [remove_fd_loop];
    apply wp_bind, (wp_get_fd _ _ _ _ Hx); rewrite Hls; try (by apply wp_ret, quiet_removed).
  destruct (li_fd _ Hi f x Hx) as [Hnd Hin]. rewrite Hls in *. assert (∃ lock, locks s !! l = Some lock ∧ l_fd lock = f) as (lock & Hl & _) by (apply Hin; left).
  apply wp_bind, (wp_get_lock _ lock); [done|]. apply wp_bind. eapply wp_mono; [by apply (remove_lock_ok l lock)|]. intros ? s1 Hr.
  destruct (removed_fd_l _ _ _ _ _ Hr Hx) as (y & Hy & Hlf). eapply wp_mono; [apply (IH n s1 y); [exact (removed_inv _ _ _ Hr Hi)|done| |lia]|].
  - by rewrite (lf_locks _ _ _ Hlf), Hls, less_cons.
  - intros ? s2 Hr2. simpl. exact (removed_trans _ _ _ _ _ Hr Hr2).
Qed.

Lemma remove_fd_locks_ok f x n s : lock_inv s → f_fds s !! f = Some x → (length (fd_locks x) <= n)%nat → wp (remove_fd_locks n f) (λ _ s', removed (list_to_set (fd_locks x)) s s') s.
Proof.
  intros Hi Hx Hn. unfold remove_fd_locks. apply wp_bind. eapply wp_mono; [by apply (remove_fd_loop_ok f (fd_locks x) n s x)|]. intros [a b] s1 Hr. cbn [fst snd].
  destruct (a <? b); [|by apply wp_ret]. destruct (removed_fd_l _ _ _ _ _ Hr Hx) as (y & Hy & _). pose proof (removed_inv _ _ _ Hr Hi) as Hi1. eapply wp_mono; [eapply remove_unix_locks_ok; [done|]|].
  - intros i Hyi. destruct (li_inode _ Hi1 _ _ _ Hy Hyi) as [io Hio]. destruct (file_locks_all _ _ _ Hi1 Hio) as (xs & ? & ?). by exists io, xs.
  - intros ? s2 Hq. replace (list_to_set (fd_locks x) : gset lid) with (list_to_set (fd_locks x) ∪ ∅ : gset lid) by set_solver. eapply removed_trans; [done|by apply quiet_removed].
Qed.

(** * The operations on file locks *)

(** ** Adding a lock *)

(** A lock that keeps out a new one. *)
Definition blocks (lock : file_lock) (f : fdid) (start end_ : Z) (shared : bool) : bool :=
  lock_overlaps lock start end_ && negb (shared && (l_shared lock || bool_decide (l_fd lock = f))).

Fixpoint first_blocking (m : gmap lid file_lock) (ls : list lid) (f : fdid) (start end_ : Z) (shared : bool) : option lid :=
  match ls with
  | [] => None
  | l :: ls => if from_option (λ lock, blocks lock f start end_ shared) false (m !! l) then Some l else first_blocking m ls f start end_ shared
  end.

Lemma find_conflict_ok ls f start end_ shared s (Q : option lid → fds → Prop) : Forall (λ l, is_Some (locks s !! l)) ls →
  Q (first_blocking (locks s) ls f start end_ shared) s → wp (find_conflict ls f start end_ shared) Q s.
Proof.
  induction 1 as [|l ls [lock Hl] _ IH]; intros HQ; cbn [find_conflict]; [by apply wp_ret|]. cbn [first_blocking] in HQ. rewrite Hl in HQ. simpl in HQ.
  apply wp_bind, (wp_get_lock _ lock); [done|]. unfold blocks in HQ. destruct (lock_overlaps lock start end_); simpl in *; [|by apply IH].
  destruct (shared && (l_shared lock || bool_decide (l_fd lock = f))); simpl in *; [by apply IH|by apply wp_ret].
Qed.

Lemma first_blocking_none m ls f start end_ shared : first_blocking m ls f start end_ shared = None → ∀ l lock, l ∈ ls → m !! l = Some lock → blocks lock f start end_ shared = false.
Proof.
  induction ls as [|k ls IH]; intros H l lock Hl Hm; [by apply elem_of_nil in Hl|]. cbn [first_blocking] in H. apply elem_of_cons in Hl as [->|Hl].
  - rewrite Hm in H. simpl in H. by destruct (blocks lock f start end_ shared).
  - case_match; [done|]. by apply (IH H l).
Qed.

(** The lock at the end of its three lists. *)
Record added (l : lid) (lock : file_lock) (i : ino) (s s' : fds) : Prop := {
  ad_new : locks s !! l = None;
  ad_locks : locks s' = <[l := lock]> (locks s);
  ad_fds : ∀ f, option_Forall2 (λ x y, fd_inode y = fd_inode x ∧ fd_access y = fd_access x ∧ fd_sharing y = fd_sharing x ∧ fd_closed y = fd_closed x ∧
    fd_locks y = fd_locks x ++ (if bool_decide (f = l_fd lock) then [l] else [])) (f_fds s !! f) (f_fds s' !! f);
  ad_inodes : ∀ j, option_Forall2 (λ x y, i_open y = i_open x ∧ i_closed y = i_closed x ∧ i_locks y = i_locks x ++ (if bool_decide (j = i) then [l] else [])) (f_inodes s !! j) (f_inodes s' !! j);
  ad_procs : ∀ p, proc_locks s' !! p = (λ ls, ls ++ (if bool_decide (p = l_process lock) then [l] else [])) <$> proc_locks s !! p;
  ad_calls : ∃ new, f_calls s' = new ++ f_calls s ∧ Forall is_setlk new;
}.

Lemma added_of_inode l lock i s s' lk j : added l lock i s s' → of_inode s' lk j ↔ of_inode s lk j.
Proof.
  intros H. pose proof (ad_fds _ _ _ _ _ H (l_fd lk)) as Hq. split; intros (x & Hx & Hi); rewrite Hx in Hq.
  - destruct (f_fds s !! l_fd lk) as [y|] eqn:Hy; inversion Hq as [? ? (E & _)|]; subst. exists y. by rewrite <-E.
  - destruct (f_fds s' !! l_fd lk) as [y|] eqn:Hy; inversion Hq as [? ? (E & _)|]; subst. exists y. by rewrite E.
Qed.

(** A list with the new lock at its end, if it belongs there. *)
Lemma added_list (m : gmap lid file_lock) l lock ls (P : file_lock → Prop) (b : bool) : m !! l = None → (b = true ↔ P lock) →
  NoDup ls ∧ (∀ k, k ∈ ls ↔ ∃ lk, m !! k = Some lk ∧ P lk) →
  NoDup (ls ++ (if b then [l] else [])) ∧ ∀ k, k ∈ ls ++ (if b then [l] else []) ↔ ∃ lk, <[l:=lock]> m !! k = Some lk ∧ P lk.
Proof.
  intros Hl Hb [Hn He]. assert (l ∉ ls) as Hnl by (rewrite He; intros (lk & ? & _); congruence). split.
  - destruct b; [|by rewrite app_nil_r]. apply NoDup_app. split_and!; [done|set_solver|apply NoDup_singleton].
  - intros k. rewrite elem_of_app, He. destruct (decide (k = l)) as [->|Hk].
    + rewrite lookup_insert_eq. split; [intros [(lk & ? & _)|Hin]; [congruence|]; exists lock; split; [done|]; apply Hb; destruct b; [done|by apply elem_of_nil in Hin]|].
      intros (lk & [= <-] & HP). right. apply Hb in HP. subst b. by left.
    + rewrite lookup_insert_ne by done. split; [intros [?|Hin]; [done|]; destruct b; [apply list_elem_of_singleton in Hin; done|by apply elem_of_nil in Hin]|by left].
Qed.

Lemma added_inv l lock i s s' : added l lock i s s' → lock_inv s → of_inode s lock i → is_Some (proc_locks s !! l_process lock) → range_wf lock →
  (∀ io k lk, f_inodes s !! i = Some io → k ∈ i_locks io → locks s !! k = Some lk → blocks lk (l_fd lock) (l_start lock) (l_end lock) (l_shared lock) = false) → lock_inv s'.
Proof.
  intros H Hi Ho Hp Hr Hnb. pose proof H as [A B C D E _]. split.
  - intros f y j Hf Hj. specialize (C f). rewrite Hf in C. destruct (f_fds s !! f) as [x|] eqn:Hx; inversion C as [? ? (Ei & _)|]; subst. rewrite Ei in Hj.
    destruct (li_inode _ Hi f x j Hx Hj) as [io Hio]. specialize (D j). rewrite Hio in D. destruct (f_inodes s' !! j); [by eexists|inversion D].
  - intros k lk Hk. rewrite B in Hk. rewrite E. assert (∀ j, of_inode s lk j → of_inode s' lk j) as Hof by (intros j; by apply (added_of_inode _ _ _ _ _ _ _ H)).
    apply lookup_insert_Some in Hk as [[<- <-]|[_ Hk]]; [split_and!; [eauto|by destruct Hp as [? ->]|done]|]. destruct (li_owner _ Hi k lk Hk) as ([j Hj] & [? ->] & ?). by split_and!; eauto.
  - intros f y Hf. specialize (C f). rewrite Hf in C. destruct (f_fds s !! f) as [x|] eqn:Hx; inversion C as [? ? (_ & _ & _ & _ & El)|]; subst. rewrite El, B.
    apply added_list; [done| |by apply (li_fd _ Hi)]. rewrite bool_decide_eq_true. split; congruence.
  - intros j io' Hio'. specialize (D j). rewrite Hio' in D. destruct (f_inodes s !! j) as [io|] eqn:Hio; inversion D as [? ? (_ & _ & El)|]; subst. rewrite El, B.
    destruct (added_list (locks s) l lock (i_locks io) (λ lk, of_inode s lk j) (bool_decide (j = i))) as [N M]; [done| |by apply (li_file _ Hi)|].
    + rewrite bool_decide_eq_true. split; [by intros ->|]. intros (x & Hx & Hxj). destruct Ho as (x' & Hx' & Hxi). congruence.
    + split; [done|]. intros k. rewrite M. split; intros (lk & ? & Hof); exists lk; (split; [done|]); by apply (added_of_inode _ _ _ _ _ _ _ H).
  - intros p ls' Hls'. rewrite E in Hls'. destruct (proc_locks s !! p) as [ls|] eqn:Hls; [|done]. injection Hls' as <-. rewrite B.
    apply added_list; [done| |by apply (li_proc _ Hi)]. rewrite bool_decide_eq_true. split; congruence.
  - intros j io' Hio'. specialize (D j). rewrite Hio' in D. destruct (f_inodes s !! j) as [io|] eqn:Hio; inversion D as [? ? (_ & _ & El)|]; subst. rewrite El, B.
    assert (l ∉ i_locks io) as Hnl by (intros (lk & Hlk & _)%(proj2 (li_file _ Hi j io Hio)); congruence).
    intros a b k q lk other Ha Hb Hab Hlk Hot. assert (Hlast : ∀ c, (i_locks io ++ (if bool_decide (j = i) then [l] else [])) !! c = Some l → j = i ∧ c = length (i_locks io)).
    { intros c Hc. destruct (decide (c < length (i_locks io))%nat); [rewrite lookup_app_l in Hc by done; by apply list_elem_of_lookup_2 in Hc|]. rewrite lookup_app_r in Hc by lia.
      case_bool_decide; [|done]. destruct (c - length (i_locks io))%nat eqn:Ec; [|done]. split; [done|lia]. }
    assert (Hold : ∀ c m, m ≠ l → (i_locks io ++ (if bool_decide (j = i) then [l] else [])) !! c = Some m → i_locks io !! c = Some m).
    { intros c m Hm Hc. destruct (decide (c < length (i_locks io))%nat); [by rewrite lookup_app_l in Hc by done|]. rewrite lookup_app_r in Hc by lia. case_bool_decide; [|done].
      destruct (c - length (i_locks io))%nat; [simpl in Hc; congruence|done]. }
    destruct (decide (k = l)) as [->|Hkl].
    { destruct (Hlast a Ha) as [-> ->]. rewrite lookup_app_r in Hb by lia. rewrite bool_decide_eq_true_2 in Hb by done. destruct (b - length (i_locks io))%nat eqn:Eb; [lia|done]. }
    rewrite lookup_insert_ne in Hlk by done. pose proof (Hold a k Hkl Ha) as Ha'. destruct (decide (q = l)) as [->|Hql].
    + rewrite lookup_insert_eq in Hot. injection Hot as <-. destruct (Hlast b Hb) as [-> _]. intros Hov. assert (Hbl : blocks lk (l_fd lock) (l_start lock) (l_end lock) (l_shared lock) = false) by (eapply Hnb; [done| |done]; by eapply list_elem_of_lookup_2).
      unfold blocks in Hbl. rewrite Hov in Hbl. simpl in Hbl. apply negb_false_iff, andb_true_iff in Hbl as [H1 H2]. split; [done|].
      apply orb_true_iff in H2 as [?|?%bool_decide_eq_true]; auto.
    + rewrite lookup_insert_ne in Hot by done. apply (li_apart _ Hi j io Hio a b k q); [done|by apply (Hold b q)|done..].
Qed.

Lemma f_malloc_ok s (Q : bool → fds → Prop) : (∀ b s1, quiet s s1 → f_error s1 = f_error s → f_results s1 = f_results s → (f_allocs s = [] → b = true ∧ f_allocs s1 = []) → Q b s1) → wp f_malloc Q s.
Proof.
  intros HQ. unfold f_malloc. apply wp_bind, wp_get. destruct (f_allocs s) eqn:E; [by apply wp_ret, HQ|]. apply wp_bind, wp_modify, wp_ret, HQ; try done. by apply quiet_intro.
Qed.

Lemma quiet_inv s s' : quiet s s' → lock_inv s → lock_inv s'.
Proof. intros Hq. by apply (removed_inv ∅), quiet_removed. Qed.

(** The lists with the new lock, in a state that only the Unix locks have changed. *)
Lemma listed_added l lock x i io ls s s1 : quiet s s1 → locks s !! l = None → f_fds s1 !! l_fd lock = Some x → fd_inode x = Some i → f_inodes s !! i = Some io → proc_locks s !! l_process lock = Some ls →
  added l lock i s (set_proc_locks (<[l_process lock := ls ++ [l]]>) (set_inodes (<[i := i_set_locks (i_locks io ++ [l]) io]>)
    (set_fds (<[l_fd lock := fd_set_locks (fd_locks x ++ [l]) x]>) (set_locks (<[l := lock]>) s1)))).
Proof.
  intros [A B C D (new & E & En)] Hl Hx Hxi Hio Hls. split; simpl; [done|by rewrite A| | | |by exists new].
  - intros f. specialize (D f). destruct (decide (f = l_fd lock)) as [->|Hf].
    + rewrite lookup_insert_eq. rewrite Hx in D. destruct (f_fds s !! l_fd lock) as [y|]; inversion D as [? ? [E1 E2 [E3 E4] [E5 E6]]|]; subst. constructor. simpl.
      rewrite bool_decide_eq_true_2 by done. by split_and!; [..|rewrite E2].
    + rewrite lookup_insert_ne, bool_decide_eq_false_2 by done. destruct D as [? ? [E1 E2 [E3 E4] [E5 E6]]|]; constructor. by rewrite app_nil_r.
  - intros j. rewrite B. destruct (decide (j = i)) as [->|Hj].
    + rewrite lookup_insert_eq, Hio, bool_decide_eq_true_2 by done. by constructor.
    + rewrite lookup_insert_ne, bool_decide_eq_false_2 by done. destruct (f_inodes s !! j); constructor. by rewrite app_nil_r.
  - intros p. rewrite C. destruct (decide (p = l_process lock)) as [->|Hp].
    + rewrite lookup_insert_eq, Hls, bool_decide_eq_true_2 by done. done.
    + rewrite lookup_insert_ne, bool_decide_eq_false_2 by done. destruct (proc_locks s !! p); [|done]. simpl. by rewrite app_nil_r.
Qed.

Lemma add_lock_ok current f x i shared start end_ s : lock_inv s → f_fds s !! f = Some x → fd_inode x = Some i → is_Some (proc_locks s !! current) →
  wp (add_lock current f shared start end_) (λ r s', match r with
    | Some l => added l (FileLock f shared start end_ current) i s s' ∧ f_error s' = f_error s
    | None => quiet s s' ∧ (f_allocs s ≠ [] ∨ f_results s ≠ [])
    end) s.
Proof.
  intros Hi Hx Hxi [ls Hls]. destruct (li_inode _ Hi f x i Hx Hxi) as [io Hio]. unfold add_lock.
  apply wp_bind, f_malloc_ok. intros b1 s1 Hq1 He1 Er1 Ha1. destruct b1; cbn [negb].
  2:{ apply wp_bind, wp_modify, wp_ret. split; [etransitivity; [exact Hq1|by apply quiet_intro]|]. left. intros E. by destruct (Ha1 E). }
  apply wp_bind, f_malloc_ok. intros b2 s2 Hq2 He2 Er2 Ha2. assert (quiet s s2) as Hq02 by (by etransitivity). destruct b2; cbn [negb].
  2:{ apply wp_bind, wp_modify, wp_ret. split; [etransitivity; [exact Hq02|by apply quiet_intro]|]. left. intros E. destruct (Ha1 E) as [_ E1]. by destruct (Ha2 E1). }
  destruct (quiet_fd _ _ _ _ Hq02 Hx) as (x2 & Hx2 & Hs2). apply wp_bind. eapply wp_mono; [by apply (set_unix_lock_3 f x2)|]. intros b3 s3 [[Hq3 He3] Hr3].
  assert (quiet s s3) as Hq03 by (etransitivity; [exact Hq02|exact Hq3]). destruct b3; cbn [negb].
  2:{ apply wp_ret. split; [done|]. right. intros E. rewrite Er2, Er1 in Hr3. by specialize (Hr3 E). }
  apply wp_bind, wp_get. rewrite (q_locks _ _ Hq03). set (l := fresh (dom (locks s))). assert (locks s !! l = None) as Hl by (apply not_elem_of_dom, is_fresh). clearbody l.
  destruct (quiet_fd _ _ _ _ Hq03 Hx) as (x3 & Hx3 & Hs3). apply wp_bind, wp_modify. apply wp_bind, (wp_get_fd _ x3); [done|]. apply wp_bind, wp_modify.
  apply wp_bind, (wp_deref _ i); [by rewrite (sf_inode _ _ Hs3)|]. apply wp_bind, (wp_get_inode _ io); [simpl; by rewrite (q_inodes _ _ Hq03)|]. apply wp_bind, wp_modify.
  apply wp_bind, (wp_get_proc _ ls); [simpl; by rewrite (q_procs _ _ Hq03)|]. apply wp_bind, wp_modify, wp_ret. split; [|simpl; rewrite He3 by done; congruence].
  apply (listed_added l (FileLock f shared start end_ current) x3 i io ls s s3); try done. by rewrite (sf_inode _ _ Hs3).
Qed.

(** ** [lock_fd] *)

Definition wraps (start end_ : Z) : bool := negb (end_ =? 0) && (end_ <? start).

Definition lock_outcome (current : pid) (f : fdid) (x : fd) (start end_ : Z) (shared wait : bool) (r : option lid) (s s' : fds) : Prop :=
  match fd_inode x with
  | None => r = None ∧ s' = set_f_error ST_INVALID_DEVICE_REQUEST s
  | Some i =>
      if wraps start end_ then r = None ∧ s' = set_f_error ST_INVALID_PARAMETER s
      else ∃ io, f_inodes s !! i = Some io ∧
        match first_blocking (locks s) (i_locks io) f start end_ shared with
        | Some l => if wait then r = Some l ∧ s' = set_f_error ST_PENDING s else r = None ∧ s' = set_f_error ST_FILE_LOCK_CONFLICT s
        | None => r = None ∧ ((∃ l, added l (FileLock f shared start end_ current) i s s' ∧ f_error s' = f_error s) ∨ quiet s s' ∧ (f_allocs s ≠ [] ∨ f_results s ≠ []))
        end
  end.

Lemma w64_range z : 0 <= w64 z <= FILE_POS_T_MAX.
Proof. unfold w64, FILE_POS_T_MAX. pose proof (Z.mod_pos_bound z 18446744073709551616). lia. Qed.

Lemma set_error_inv e s : lock_inv s → lock_inv (set_f_error e s).
Proof. apply quiet_inv. by apply quiet_intro. Qed.

Lemma lock_fd_ok current f x start count shared wait s : lock_inv s → f_fds s !! f = Some x → is_Some (proc_locks s !! current) → 0 <= start <= FILE_POS_T_MAX →
  wp (lock_fd current f start count shared wait) (λ r s', lock_inv s' ∧ lock_outcome current f x start (w64 (start + count)) shared wait r s s') s.
Proof.
  intros Hi Hx Hp Hst. unfold lock_fd, lock_outcome. pose proof (w64_range (start + count)) as Hend. set (end_ := w64 (start + count)) in *. clearbody end_. fold (wraps start end_).
  apply wp_bind, (wp_get_fd _ x); [done|]. destruct (fd_inode x) as [i|] eqn:Hxi.
  2:{ apply wp_bind, wp_modify, wp_ret. split; [by apply set_error_inv|done]. }
  destruct (wraps start end_) eqn:Hw; [apply wp_bind, wp_modify, wp_ret; split; [by apply set_error_inv|done]|].
  destruct (li_inode _ Hi f x i Hx Hxi) as [io Hio]. apply wp_bind, (wp_get_inode _ io); [done|]. apply wp_bind, find_conflict_ok.
  { apply Forall_forall. intros l (lock & Hl & _)%(proj2 (li_file _ Hi i io Hio)). by eexists. }
  destruct (first_blocking (locks s) (i_locks io) f start end_ shared) as [l|] eqn:Hb.
  { destruct wait; cbn [negb]; apply wp_bind, wp_modify, wp_ret; (split; [by apply set_error_inv|]); exists io; (split; [done|]); by rewrite Hb. }
  apply wp_bind. eapply wp_mono; [by apply (add_lock_ok current f x i)|]. intros [l|] s1 H1.
  - destruct H1 as [Had He]. apply wp_ret. split.
    + eapply added_inv; [exact Had|done|by exists x|done| |].
      * split; simpl; [done|done|]. unfold wraps in Hw. destruct (Z.eqb_spec end_ 0); [by left|right]. simpl in Hw. by apply Z.ltb_ge in Hw.
      * intros io' k lk Hio' Hk Hlk. simplify_eq. simpl. by apply (first_blocking_none _ _ _ _ _ _ Hb k).
    + exists io. split; [done|]. rewrite Hb. split; [done|]. left. by exists l.
  - destruct H1 as [Hq Hf]. pose proof (quiet_inv _ _ Hq Hi) as Hi1. apply wp_bind, wp_get. destruct ((f_error s1 =? ST_FILE_LOCK_CONFLICT) && wait).
    + apply wp_bind, wp_modify, wp_ret. split; [by apply set_error_inv|]. exists io. split; [done|]. rewrite Hb. split; [done|]. right. split; [|done].
      etransitivity; [exact Hq|by apply quiet_intro].
    + apply wp_ret. split; [done|]. exists io. split; [done|]. rewrite Hb. split; [done|]. by right.
Qed.

(** ** [unlock_fd] *)

Fixpoint first_exact (m : gmap lid file_lock) (ls : list lid) (start end_ : Z) : option lid :=
  match ls with
  | [] => None
  | l :: ls => if from_option (λ lock, (l_start lock =? start) && (l_end lock =? end_)) false (m !! l) then Some l else first_exact m ls start end_
  end.

Lemma find_lock_ok ls start end_ s (Q : option lid → fds → Prop) : Forall (λ l, is_Some (locks s !! l)) ls → Q (first_exact (locks s) ls start end_) s → wp (find_lock ls start end_) Q s.
Proof.
  induction 1 as [|l ls [lock Hl] _ IH]; intros HQ; cbn [find_lock]; [by apply wp_ret|]. cbn [first_exact] in HQ. rewrite Hl in HQ. simpl in HQ.
  apply wp_bind, (wp_get_lock _ lock); [done|]. case_match; [by apply wp_ret|by apply IH].
Qed.

Lemma first_exact_in m ls start end_ l : first_exact m ls start end_ = Some l → l ∈ ls.
Proof. induction ls as [|k ls IH]; [done|]. cbn [first_exact]. case_match; [intros [= ->]; left|]. intros ?%IH. by right. Qed.

Lemma unlock_fd_ok f x start count s : lock_inv s → f_fds s !! f = Some x →
  wp (unlock_fd f start count) (λ _ s', match first_exact (locks s) (fd_locks x) start (w64 (start + count)) with
    | Some l => removed {[l]} s s'
    | None => s' = set_f_error ST_RANGE_NOT_LOCKED s
    end) s.
Proof.
  intros Hi Hx. unfold unlock_fd. apply wp_bind, (wp_get_fd _ x); [done|]. pose proof (proj2 (li_fd _ Hi f x Hx)) as Hin. apply wp_bind, find_lock_ok.
  { apply Forall_forall. intros l (lock & Hl & _)%Hin. by eexists. }
  destruct (first_exact _ _ _ _) as [l|] eqn:E; [|by apply wp_modify]. apply first_exact_in, Hin in E as (lock & Hl & _). by apply (remove_lock_ok l lock).
Qed.
