(* ===== verification/FileLockSpecs.v ===== *)
(** * What file locks and sharing modes promise (server/fd.c) *)

From stdpp Require Import base list gmap fin_maps fin_sets.
From S2P Require Import Prelude FileLock HoleSpecs FileLockInv.

Open Scope Z_scope.
Open Scope server_scope.

(** ** Descriptors kept open *)

(** Nothing changes but the lists of opens and of kept descriptors. *)
Definition aside (s s' : fds) : Prop :=
  locks s' = locks s ∧ f_fds s' = f_fds s ∧ proc_locks s' = proc_locks s ∧ (∀ i, option_Forall2 (λ x y, i_locks y = i_locks x) (f_inodes s !! i) (f_inodes s' !! i)) ∧ closes_ok s s'.

Lemma aside_intro s s' : locks s' = locks s → f_fds s' = f_fds s → proc_locks s' = proc_locks s → f_inodes s' = f_inodes s →
  (∃ new, f_calls s' = new ++ f_calls s ∧ ∀ i u, C_close i u ∈ new → ∃ io, f_inodes s !! i = Some io ∧ i_locks io = []) → aside s s'.
Proof.
  intros ? ? ? E (new & Ec & Hc). split_and!; try done; [intros i; rewrite E; by destruct (f_inodes s !! i); constructor|]. exists new. by rewrite E.
Qed.

Lemma aside_inode s s1 s2 i io io' : aside s s1 → f_inodes s1 !! i = Some io → i_locks io' = i_locks io → s2 = set_inodes (<[i:=io']>) s1 → aside s s2.
Proof.
  intros (A & B & C & D & (new & E & G)) Hi El ->. split_and!; try done.
  - intros j. specialize (D j). simpl. destruct (decide (j = i)) as [->|Hj]; [|by rewrite lookup_insert_ne]. rewrite lookup_insert_eq. rewrite Hi in D. inversion D; subst. constructor. congruence.
  - exists new. split; [done|]. intros j u Hj. destruct (G j u Hj) as (jo & Hjo & Hl). simpl. destruct (decide (j = i)) as [->|Hji]; [|rewrite lookup_insert_ne by done; by exists jo].
    rewrite lookup_insert_eq. exists io'. split; [done|]. simplify_eq. congruence.
Qed.

Lemma aside_trans s1 s2 s3 : aside s1 s2 → aside s2 s3 → aside s1 s3.
Proof.
  intros (A1 & A2 & A3 & A4 & (n1 & A5 & A6)) (B1 & B2 & B3 & B4 & (n2 & B5 & B6)). split_and!; try congruence.
  - intros i. specialize (A4 i). specialize (B4 i). revert A4 B4. intros [x y E|] HB; inversion HB; subst; constructor. congruence.
  - exists (n2 ++ n1). split; [by rewrite B5, A5, app_assoc|]. intros i u [H|H]%elem_of_app; [by apply (B6 i u)|]. destruct (A6 i u H) as (io & Hio & El).
    specialize (B4 i). rewrite Hio in B4. inversion B4 as [? y Ey|]; subst. exists y. split; [done|]. congruence.
Qed.

Lemma close_unix_fd_ok i io c s : f_inodes s !! i = Some io → i_locks io = [] → wp (close_unix_fd i c) (λ _ s', aside s s' ∧ f_inodes s' = f_inodes s) s.
Proof.
  intros Hi Hl. unfold close_unix_fd. destruct (negb (cl_unix_fd c =? -1)); [apply wp_modify|apply wp_ret]; (split; [|done]); apply aside_intro; try done.
  - exists [C_close i (cl_unix_fd c)]. split; [done|]. intros j u [= -> ->]%list_elem_of_singleton. by exists io.
  - exists []. split; [done|]. by intros j u ?%elem_of_nil.
Qed.

Lemma inode_add_closed_fd_ok i io c s : f_inodes s !! i = Some io → wp (inode_add_closed_fd i c) (λ _ s', aside s s') s.
Proof.
  intros Hi. assert (aside s s) as Hrefl by (apply aside_intro; try done; exists []; split; [done|]; by intros j u ?%elem_of_nil). unfold inode_add_closed_fd.
  apply wp_bind, (wp_get_inode _ io); [done|]. case_bool_decide as El; cbn [negb]; [|apply wp_modify; by apply (aside_inode s s _ i io (i_set_closed (c :: i_closed io) io))].
  destruct (has _ _ && has _ _).
  { apply wp_bind. eapply wp_mono; [by apply (close_unix_fd_ok i io)|]. intros ? s1 ((A & B & C & D & (new & E & G)) & Ei). apply wp_modify. split_and!; try done.
    exists (C_unlink i (cl_unix_name c) :: new). split; [simpl; by rewrite E|]. intros j u [?|Hj]%elem_of_cons; [done|]. by apply (G j u). }
  destruct (has _ _ && _); [|eapply wp_mono; [by apply (close_unix_fd_ok i io)|by intros ? ? [? _]]].
  apply wp_bind. eapply wp_mono; [by apply (close_unix_fd_ok i io)|]. intros ? s1 [Ha Ei]. apply wp_bind, (wp_get_inode _ io); [by rewrite Ei|]. apply wp_modify.
  eapply (aside_inode s s1 _ i io); [exact Ha|by rewrite Ei| |reflexivity]. done.
Qed.

(** The descriptor and its locks are gone. *)
Lemma aside_inv s s' : aside s s' → lock_inv s → lock_inv s'.
Proof.
  intros (A & B & C & D & _) [I1 I2 I3 I4 I5 I6]. assert (Hio : ∀ i io', f_inodes s' !! i = Some io' → ∃ io, f_inodes s !! i = Some io ∧ i_locks io' = i_locks io).
  { intros i io' Hi. specialize (D i). rewrite Hi in D. destruct (f_inodes s !! i); inversion D; subst. eauto. }
  assert (Ho : ∀ lk i, of_inode s' lk i ↔ of_inode s lk i) by (intros lk i; unfold of_inode; by rewrite B). split; rewrite ?A, ?B, ?C; try done.
  - intros f x i Hf Hx. destruct (I1 f x i Hf Hx) as [io Hi]. specialize (D i). rewrite Hi in D. inversion D; subst. by eexists.
  - intros l lock Hl. destruct (I2 l lock Hl) as ([i Hi] & ? & ?). split_and!; try done. exists i. by apply Ho.
  - intros i io' (io & Hi & E)%Hio. rewrite E. destruct (I4 i io Hi) as [N M]. split; [done|]. intros l. rewrite M. split; intros (lk & ? & ?); exists lk; (split; [done|]); by apply Ho.
  - intros i io' (io & Hi & E)%Hio. rewrite E. by apply (I6 i).
Qed.

Lemma delete_fd_inv f x s : lock_inv s → f_fds s !! f = Some x → fd_locks x = [] → lock_inv (set_fds (delete f) s).
Proof.
  intros [I1 I2 I3 I4 I5 I6] Hf Hl. assert (Hne : ∀ l lock, locks s !! l = Some lock → l_fd lock ≠ f).
  { intros l lock Hk E. destruct (I3 f x Hf) as [_ M]. assert (l ∈ fd_locks x) as Hin by (apply M; by exists lock). rewrite Hl in Hin. by apply elem_of_nil in Hin. }
  assert (Ho : ∀ l lock i, locks s !! l = Some lock → of_inode (set_fds (delete f) s) lock i ↔ of_inode s lock i).
  { intros l lock i Hk. unfold of_inode. simpl. by rewrite lookup_delete_ne by (symmetry; by eapply Hne). }
  split; simpl; try done.
  - intros g y i [_ Hg]%lookup_delete_Some. by apply (I1 g y).
  - intros l lock Hk. destruct (I2 l lock Hk) as ([i Hi] & ? & ?). split_and!; try done. exists i. by apply (Ho l).
  - intros g y [_ Hg]%lookup_delete_Some. by apply I3.
  - intros i io Hi. destruct (I4 i io Hi) as [N M]. split; [done|]. intros l. rewrite M. split; intros (lk & Hk & ?); exists lk; (split; [done|]); by apply (Ho l).
Qed.

Lemma fd_destroy_ok f x n s : lock_inv s → f_fds s !! f = Some x → (length (fd_locks x) <= n)%nat →
  wp (fd_destroy n f) (λ _ s', lock_inv s' ∧ closes_ok s s' ∧ f_fds s' !! f = None ∧ ∀ l lock, locks s' !! l = Some lock ↔ locks s !! l = Some lock ∧ l_fd lock ≠ f) s.
Proof.
  intros Hi Hx Hn. unfold fd_destroy. apply wp_bind. eapply wp_mono; [by apply (remove_fd_locks_ok f x)|]. intros ? s1 Hr. pose proof (removed_inv _ _ _ Hr Hi) as Hi1.
  destruct (removed_fd_l _ _ _ _ _ Hr Hx) as (x1 & Hx1 & Hlf). assert (fd_locks x1 = []) as El.
  { rewrite (lf_locks _ _ _ Hlf). apply elem_of_nil_inv. intros l [Hl Hd]%elem_of_less. apply Hd. by apply elem_of_list_to_set. }
  assert (Hlk : ∀ l lock, locks s1 !! l = Some lock ↔ locks s !! l = Some lock ∧ l_fd lock ≠ f).
  { intros l lock. rewrite (removed_lookup _ _ _ _ _ Hr), elem_of_list_to_set, (proj2 (li_fd _ Hi f x Hx)). naive_solver. }
  apply wp_bind, (wp_get_fd _ x1); [done|]. apply wp_bind. eapply (wp_mono _ (λ _ s2, aside s1 s2)).
  { destruct (fd_inode x1) as [i|] eqn:Hxi.
    - destruct (li_inode _ Hi1 f x1 i Hx1 Hxi) as [io Hio]. apply wp_bind, (wp_get_inode _ io); [done|]. apply wp_bind, wp_modify.
      assert (aside s1 (set_inodes (<[i:=i_set_open (without f (i_open io)) io]>) s1)) as Ha.
      { apply (aside_inode s1 s1 _ i io (i_set_open (without f (i_open io)) io)); try done. apply aside_intro; try done. exists []. split; [done|]. by intros j u ?%elem_of_nil. }
      eapply wp_mono; [eapply inode_add_closed_fd_ok; simpl; apply lookup_insert_eq|]. intros ? s2 Ha2. by eapply aside_trans.
    - destruct (negb (fd_unix_fd x1 =? -1)); [apply wp_modify|apply wp_ret]; apply aside_intro; try done.
      + exists [C_close_other (fd_unix_fd x1)]. split; [done|]. by intros j u ?%list_elem_of_singleton.
      + exists []. split; [done|]. by intros j u ?%elem_of_nil. }
  intros ? s2 Ha. apply wp_modify. pose proof (aside_inv _ _ Ha Hi1) as Hi2. destruct Ha as (A & B & _ & D & (new2 & E2 & G2)). split_and!.
  - apply (delete_fd_inv f x1); [done|by rewrite B|done].
  - destruct (rm_calls _ _ _ Hr) as (new1 & E1 & G1). exists (new2 ++ new1). split; [simpl; by rewrite E2, E1, app_assoc|]. intros i u [H|H]%elem_of_app; [by apply (G2 i u)|].
    destruct (G1 i u H) as (io & Hio & Hl). specialize (D i). rewrite Hio in D. inversion D as [? y Ey|]; subst. exists y. split; [done|]. congruence.
  - simpl. apply lookup_delete_eq.
  - simpl. by rewrite A.
Qed.

(** ** The locks as a state machine *)

Inductive lock_op :=
  | op_lock (p : pid) (f : fdid) (start count : Z) (shared wait : bool)
  | op_unlock (f : fdid) (start count : Z)
  | op_exit (p : pid)
  | op_close (f : fdid).

Definition op_enabled (s : fds) (op : lock_op) : Prop :=
  match op with
  | op_lock p f start count _ _ => is_Some (f_fds s !! f) ∧ is_Some (proc_locks s !! p) ∧ 0 <= start <= FILE_POS_T_MAX
  | op_unlock f _ _ | op_close f => is_Some (f_fds s !! f)
  | op_exit p => is_Some (proc_locks s !! p)
  end.

Definition run_op (op : lock_op) : F unit :=
  match op with
  | op_lock p f start count shared wait => r <- lock_fd p f start count shared wait; ret tt
  | op_unlock f start count => unlock_fd f start count
  | op_exit p => s <- get; remove_process_locks (size (locks s)) p
  | op_close f => s <- get; fd_destroy (size (locks s)) f
  end.

Definition lock_step (s s' : fds) : Prop := ∃ op, op_enabled s op ∧ run_op op s = Done tt s'.

Lemma list_size (m : gmap lid file_lock) ls : NoDup ls → (∀ l, l ∈ ls → is_Some (m !! l)) → (length ls <= size m)%nat.
Proof.
  intros Hn Hl. rewrite <-(size_list_to_set (C := gset lid)) by done. rewrite <-size_dom. apply subseteq_size. intros l Hin%elem_of_list_to_set. by apply elem_of_dom, Hl.
Qed.

Lemma setlk_closes s s' : (∃ new, f_calls s' = new ++ f_calls s ∧ Forall is_setlk new) → closes_ok s s'.
Proof. intros (new & E & Hn). exists new. split; [done|]. intros i u Hi. rewrite Forall_forall in Hn. by destruct (Hn _ Hi). Qed.

Lemma lock_outcome_closes p f x start end_ shared wait r s s' : lock_outcome p f x start end_ shared wait r s s' → closes_ok s s'.
Proof.
  assert (∀ e, closes_ok s (set_f_error e s)) as He by (intros e; apply setlk_closes; by exists []). unfold lock_outcome. destruct (fd_inode x); [|intros [_ ->]; done].
  destruct (wraps start end_); [intros [_ ->]; done|]. intros (io & _ & H). destruct (first_blocking _ _ _ _ _ _); [destruct wait; destruct H as [_ ->]; done|].
  destruct H as [_ [(l & Had & _)|[Hq _]]]; apply setlk_closes; [apply Had|apply Hq].
Qed.

Lemma lock_op_ok op s : lock_inv s → op_enabled s op → wp (run_op op) (λ _ s', lock_inv s' ∧ closes_ok s s') s.
Proof.
  intros Hi Hen. destruct op as [p f start count shared wait|f start count|p|f]; cbn [run_op op_enabled] in *.
  - destruct Hen as ([x Hx] & Hp & Hst). apply wp_bind. eapply wp_mono; [by apply (lock_fd_ok p f x)|]. intros r s' [Hi' Ho]. apply wp_ret. split; [done|]. by eapply lock_outcome_closes.
  - destruct Hen as [x Hx]. eapply wp_mono; [by apply (unlock_fd_ok f x)|]. intros ? s' H. destruct (first_exact _ _ _ _).
    + split; [exact (removed_inv _ _ _ H Hi)|apply H].
    + subst s'. split; [by apply set_error_inv|]. apply setlk_closes. by exists [].
  - destruct Hen as [ls Hp]. apply wp_bind, wp_get. destruct (li_proc _ Hi p ls Hp) as [Hn Hin]. eapply wp_mono; [apply (remove_process_locks_ok p ls); [done|done|]|].
    + apply list_size; [done|]. intros l (lock & ? & _)%Hin. by eexists.
    + intros ? s' H. split; [exact (removed_inv _ _ _ H Hi)|apply H].
  - destruct Hen as [x Hx]. apply wp_bind, wp_get. destruct (li_fd _ Hi f x Hx) as [Hn Hin]. eapply wp_mono; [apply (fd_destroy_ok f x); [done|done|]|].
    + apply list_size; [done|]. intros l (lock & ? & _)%Hin. by eexists.
    + intros ? s' (? & ? & _). done.
Qed.

Lemma lock_steps_inv s s' : rtc lock_step s s' → lock_inv s → lock_inv s'.
Proof.
  induction 1 as [|s s1 s2 (op & Hen & E) _ IH]; [done|]. intros Hi. apply IH. pose proof (lock_op_ok op s Hi Hen) as H. unfold wp in H. rewrite E in H. apply H.
Qed.

(** ** What a request for a lock comes to *)

(** The end of a range, as the first offset behind it. *)
Definition past (end_ : Z) : Z := if end_ =? 0 then 18446744073709551616 else end_.

(** The range of the lock and [[start, end)] meet: each starts before the other ends. *)
Definition meets (lock : file_lock) (start end_ : Z) : bool :=
  (l_start lock <? past end_) && (start <? past (l_end lock)).

(** For ranges that are not empty, that is to have a byte in common. *)
Lemma meets_common_byte lock start end_ : l_start lock < past (l_end lock) → start < past end_ →
  meets lock start end_ = true ↔ ∃ b, l_start lock <= b < past (l_end lock) ∧ start <= b < past end_.
Proof.
  intros Hl Hr. unfold meets. rewrite andb_true_iff, !Z.ltb_lt. split.
  - intros [H1 H2]. exists (Z.max (l_start lock) start). lia.
  - intros (b & ? & ?). lia.
Qed.

Lemma lock_overlaps_meets lock start end_ : range_wf lock → 0 <= start <= FILE_POS_T_MAX → lock_overlaps lock start end_ = meets lock start end_.
Proof.
  unfold FILE_POS_T_MAX. intros [Hs He _] Hst. unfold FILE_POS_T_MAX in *. unfold lock_overlaps, meets, past.
  destruct (Z.eqb_spec (l_end lock) 0), (Z.eqb_spec end_ 0), (Z.leb_spec (l_end lock) start), (Z.leb_spec end_ (l_start lock)); cbn [negb andb];
    repeat match goal with |- context [?a <? ?b] => destruct (Z.ltb_spec a b) end; (done || lia).
Qed.

(** A lock in the way of a new one: they meet, and it is not that the new one is
    shared and the old one shared too or of the same descriptor. *)
Definition in_the_way (m : gmap lid file_lock) (f : fdid) (start end_ : Z) (shared : bool) (l : lid) : Prop :=
  ∃ lock, m !! l = Some lock ∧ meets lock start end_ = true ∧ ¬ (shared = true ∧ (l_shared lock = true ∨ l_fd lock = f)).

#[export] Instance in_the_way_dec m f start end_ shared l : Decision (in_the_way m f start end_ shared l).
Proof.
  unfold in_the_way. destruct (m !! l) as [lock|]; [|right; naive_solver].
  refine (cast_if (decide (meets lock start end_ = true ∧ ¬ (shared = true ∧ (l_shared lock = true ∨ l_fd lock = f))))); naive_solver.
Defined.

Lemma first_blocking_way s ls f start end_ shared :
  (∀ l lock, l ∈ ls → locks s !! l = Some lock → range_wf lock) → 0 <= start <= FILE_POS_T_MAX →
  first_blocking (locks s) ls f start end_ shared = head (filter (in_the_way (locks s) f start end_ shared) ls).
Proof.
  intros Hwf Hst. induction ls as [|l ls IH]; [done|]. cbn [first_blocking]. rewrite filter_cons.
  assert (from_option (λ lock, blocks lock f start end_ shared) false (locks s !! l) = true ↔ in_the_way (locks s) f start end_ shared l) as Hiff.
  { unfold in_the_way. destruct (locks s !! l) as [lock|] eqn:Hl; simpl; [|naive_solver].
    unfold blocks. rewrite (lock_overlaps_meets lock start end_) by (by eauto using list_elem_of_here || done).
    rewrite andb_true_iff, negb_true_iff, andb_false_iff, orb_false_iff, bool_decide_eq_false.
    split.
    - intros [Hm Hno]. exists lock. split_and!; [done..|]. intros [-> [E|E]]; destruct Hno as [|[]]; congruence.
    - intros (? & [= <-] & Hm & Hno). split; [done|]. destruct shared; [right|by left].
      destruct (l_shared lock) eqn:Hsh; [exfalso; auto|]. split; [done|]. intros ?. apply Hno. auto. }
  destruct (from_option _ _ _).
  - by rewrite decide_True by by apply Hiff.
  - rewrite decide_False by (intros ?%Hiff; done). apply IH. intros k lk Hk. apply Hwf. by right.
Qed.

(** What the answers of [fcntl] to the attempts to set a Unix lock come to.  A write
    lock that the descriptor does not allow is tried again as a read lock, and an
    offset that does not fit makes the limit smaller, once. *)
Inductive unix_outcome :=
  | U_nothing                              (* nothing to be locked *)
  | U_locked (type : lock_type) (limit : Z)
  | U_unsupported                          (* no locks on this file system *)
  | U_refused (status : Z).

Fixpoint unix_answers (start limit : Z) (type : lock_type) (answers : list fcntl_result) : unix_outcome :=
  if limit <? start then U_nothing
  else match answers with
  | [] | F_ok :: _ => U_locked type limit
  | F_EACCES true :: _ | F_EAGAIN :: _ => U_refused ST_FILE_LOCK_CONFLICT
  | F_EACCES false :: _ | F_EIO :: _ | F_ENOLCK :: _ | F_ENOTSUP :: _ => U_unsupported
  | F_EBADF :: answers =>
      match type with F_WRLCK => unix_answers start limit F_RDLCK answers | _ => U_refused ST_ACCESS_DENIED end
  | F_EOVERFLOW :: answers | F_EINVAL :: answers =>
      if INT_MAX <? limit then unix_answers start INT_MAX type answers else U_refused ST_INVALID_PARAMETER
  | F_other status :: _ => U_refused status
  end.

Definition unix_request (x : fd) (start end_ : Z) (type : lock_type) (s : fds) : unix_outcome :=
  if negb (fd_fs_locks x) || (start =? end_) then U_nothing
  else unix_answers start (max_unix_offset s) type (f_results s).

(** The call that set the lock: of the whole range, or up to the end of the file
    when the range goes beyond the limit. *)
Definition unix_calls (x : fd) (start end_ : Z) (o : unix_outcome) : list call :=
  match o with
  | U_locked type limit =>
      [C_setlk (fd_inode x) (fd_unix_fd x) type start (if (end_ =? 0) || (limit <? end_) then 0 else end_ - start)]
  | _ => []
  end.

(** The state in which [set_unix_lock] ends. *)
Record unix_post (f : fdid) (x : fd) (start end_ : Z) (o : unix_outcome) (s : fds) (b : bool) (s' : fds) : Prop := {
  up_same : locks s' = locks s ∧ f_inodes s' = f_inodes s ∧ proc_locks s' = proc_locks s;
  up_fds : f_fds s' = match o with U_unsupported => <[f := fd_set_fs_locks false x]> (f_fds s) | _ => f_fds s end;
  up_calls : f_calls s' = unix_calls x start end_ o ++ f_calls s;
  up_result : b = match o with U_refused _ => false | _ => true end;
  up_error : f_error s' = match o with U_refused st => st | _ => f_error s end;
}.

Lemma unix_len start end_ limit : 0 <= start → start <= limit → limit <= OFF_T_MAX → wraps start end_ = false → start ≠ end_ →
  (if (end_ =? 0) || (limit <? end_) then 0 else off_t (end_ - start)) = if (end_ =? 0) || (limit <? end_) then 0 else end_ - start.
Proof.
  unfold OFF_T_MAX, wraps. intros Hs Hl Hm Hw Hne. destruct (Z.eqb_spec end_ 0), (Z.ltb_spec limit end_); cbn [orb]; try done.
  cbn [negb andb] in Hw. apply Z.ltb_ge in Hw. unfold off_t, w64. rewrite Z.mod_small by lia. rewrite (proj2 (Z.ltb_lt _ _)) by lia. done.
Qed.

Lemma set_unix_lock_exact n : ∀ f x start end_ type s, f_fds s !! f = Some x → (rounds type s <= n)%nat →
  0 <= start → max_unix_offset s <= OFF_T_MAX → wraps start end_ = false →
  wp (set_unix_lock n f start end_ type) (unix_post f x start end_ (unix_request x start end_ type s) s) s.
Proof.
  induction n as [|n IH]; intros f x start end_ type s Hf Hn Hs Hm Hw; rewrite set_unix_lock_step; (apply wp_bind, (wp_get_fd _ x); [done|]);
    unfold unix_request; (destruct (fd_fs_locks x) eqn:Hfs; cbn [negb orb]; [|by apply wp_ret]); (destruct (Z.eqb_spec start end_) as [|Hne]; [by apply wp_ret|]);
    apply wp_bind, wp_get; (destruct (Z.ltb_spec (max_unix_offset s) start) as [Hlim|Hlim];
      [apply wp_ret; replace (unix_answers _ _ _ _) with U_nothing; [done|]; destruct (f_results s); simpl; by rewrite (proj2 (Z.ltb_lt _ _))|]);
    rewrite (unix_len start end_) by done; unfold next_result; apply wp_bind; (apply wp_bind, wp_get);
    (destruct (f_results s) as [|r rest] eqn:Hr; [apply wp_ret, wp_bind, wp_modify, wp_ret; simpl; by rewrite (proj2 (Z.ltb_ge (max_unix_offset s) start)) by lia|]);
    apply wp_bind, wp_modify, wp_ret; cbn [unix_answers]; rewrite (proj2 (Z.ltb_ge (max_unix_offset s) start)) by lia; unfold lock_round;
    (destruct r as [|[]| | | | | | | |status]; try (apply wp_bind, wp_modify, wp_ret; done)).
  1-3: unfold rounds in Hn; destruct type, (INT_MAX <? max_unix_offset s); simpl in Hn; try lia; apply wp_bind, wp_modify, wp_ret; done.
  - destruct type; simpl; [apply wp_bind, wp_modify, wp_ret; done| |apply wp_bind, wp_modify, wp_ret; done].
    eapply wp_mono; [apply (IH f x); try done; unfold rounds in *; simpl in *; lia|]. intros b s'. unfold unix_request. rewrite Hfs, (proj2 (Z.eqb_neq _ _) Hne).
    simpl. intros [A B C D E]. done.
  - destruct (Z.ltb_spec INT_MAX (max_unix_offset s)) as [Hbig|]; [|apply wp_bind, wp_modify, wp_ret; done]. apply wp_bind, wp_modify. eapply wp_mono; [apply (IH f x); try done|].
    + unfold rounds in *. simpl in *. rewrite (proj2 (Z.ltb_lt _ _)) in Hn by done. change (INT_MAX <? INT_MAX) with false. lia.
    + intros b s'. unfold unix_request. rewrite Hfs, (proj2 (Z.eqb_neq _ _) Hne). simpl. intros [A B C D E]. done.
  - destruct (Z.ltb_spec INT_MAX (max_unix_offset s)) as [Hbig|]; [|apply wp_bind, wp_modify, wp_ret; done]. apply wp_bind, wp_modify. eapply wp_mono; [apply (IH f x); try done|].
    + unfold rounds in *. simpl in *. rewrite (proj2 (Z.ltb_lt _ _)) in Hn by done. change (INT_MAX <? INT_MAX) with false. lia.
    + intros b s'. unfold unix_request. rewrite Hfs, (proj2 (Z.eqb_neq _ _) Hne). simpl. intros [A B C D E]. done.
Qed.

(** No lock, list or descriptor changes, and no call is made. *)
Definition untouched (s s' : fds) : Prop :=
  locks s' = locks s ∧ f_fds s' = f_fds s ∧ f_inodes s' = f_inodes s ∧ proc_locks s' = proc_locks s ∧ f_calls s' = f_calls s.

(** The lock object and its sync need memory. *)
Definition no_lock_memory (s : fds) : Prop := false ∈ take 2 (f_allocs s).
#[export] Instance no_lock_memory_dec s : Decision (no_lock_memory s).
Proof. unfold no_lock_memory. apply _. Defined.

Definition lock_kind (shared : bool) : lock_type := if shared then F_RDLCK else F_WRLCK.

(** The new lock is at the end of its lists, and the Unix lock is what came of the
    attempts to set it. *)
Definition lock_set (current : pid) (f : fdid) (x : fd) (i : ino) (start end_ : Z) (shared : bool) (o : unix_outcome) (s s' : fds) : Prop :=
  (∃ l, added l (FileLock f shared start end_ current) i s s') ∧ f_error s' = f_error s ∧
  f_calls s' = unix_calls x start end_ o ++ f_calls s ∧
  ∃ y, f_fds s' !! f = Some y ∧ fd_fs_locks y = match o with U_unsupported => false | _ => fd_fs_locks x end.

Definition adds_lock (current : pid) (f : fdid) (x : fd) (i : ino) (start end_ : Z) (shared : bool) (s : fds) (r : option lid) (s' : fds) : Prop :=
  if bool_decide (no_lock_memory s) then r = None ∧ untouched s s' ∧ f_error s' = ST_NO_MEMORY
  else match unix_request x start end_ (lock_kind shared) s with
  | U_refused st => r = None ∧ untouched s s' ∧ f_error s' = st
  | o => is_Some r ∧ lock_set current f x i start end_ shared o s s'
  end.

Lemma f_malloc_take s (Q : bool → fds → Prop) :
  Q (match f_allocs s with [] => true | b :: _ => b end) (set_f_allocs (tail (f_allocs s)) s) → wp f_malloc Q s.
Proof.
  intros HQ. unfold f_malloc. apply wp_bind, wp_get. destruct (f_allocs s) eqn:E; [apply wp_ret|by apply wp_bind, wp_modify, wp_ret].
  simpl in HQ. rewrite <-E in HQ. by destruct s.
Qed.

Lemma add_lock_exact current f x i shared start end_ s : lock_inv s → f_fds s !! f = Some x → fd_inode x = Some i → is_Some (proc_locks s !! current) →
  0 <= start → max_unix_offset s <= OFF_T_MAX → wraps start end_ = false →
  wp (add_lock current f shared start end_) (adds_lock current f x i start end_ shared s) s.
Proof.
  intros Hi Hx Hxi [ls Hls] Hst Hm Hw. destruct (li_inode _ Hi f x i Hx Hxi) as [io Hio]. unfold add_lock.
  assert (no_lock_memory s ↔ head (f_allocs s) = Some false ∨ head (tail (f_allocs s)) = Some false) as Hmem.
  { unfold no_lock_memory. destruct (f_allocs s) as [|a [|b l]]; simpl; rewrite ?elem_of_cons, ?elem_of_nil; naive_solver. }
  assert (Hfail : ∀ s1, untouched s s1 → no_lock_memory s → wp (fd_error ST_NO_MEMORY ;; ret None) (adds_lock current f x i start end_ shared s) s1).
  { intros s1 Hu Hno. apply wp_bind, wp_modify, wp_ret. unfold adds_lock. by rewrite bool_decide_eq_true_2. }
  apply wp_bind, f_malloc_take. destruct (match f_allocs s with [] => true | b :: _ => b end) eqn:E1; cbn [negb].
  2:{ apply Hfail; [done|]. apply Hmem. left. by destruct (f_allocs s) as [|[]]. }
  set (s1 := set_f_allocs _ s). apply wp_bind, f_malloc_take. simpl f_allocs.
  destruct (match tail (f_allocs s) with [] => true | b :: _ => b end) eqn:E2; cbn [negb].
  2:{ apply Hfail; [done|]. apply Hmem. right. by destruct (tail (f_allocs s)) as [|[]]. }
  set (s2 := set_f_allocs _ s1). apply wp_bind. eapply wp_mono.
  { apply (set_unix_lock_exact 3 f x start end_ _ s2); try done. unfold rounds. destruct (bool_decide _), (INT_MAX <? _); lia. }
  fold (lock_kind shared). intros b s3. change (unix_request x start end_ (lock_kind shared) s2) with (unix_request x start end_ (lock_kind shared) s).
  unfold adds_lock. rewrite bool_decide_eq_false_2.
  2:{ intros [H|H]%Hmem; destruct (f_allocs s) as [|[] l]; try done. simpl in *. by destruct l as [|[]]. }
  set (o := unix_request x start end_ (lock_kind shared) s). intros [(A1 & A2 & A3) B C -> E].
  assert (Hset : match o with U_refused _ => False | _ => True end →
    wp (s <- get; let l := fresh (dom (locks s)) in
        modify (set_locks (<[l := FileLock f shared start end_ current]>)) ;;
        x <- get_fd f; put_fd f (fd_set_locks (fd_locks x ++ [l]) x) ;;
        i <- deref (fd_inode x); io <- get_inode i; put_inode i (i_set_locks (i_locks io ++ [l]) io) ;;
        ls <- get_proc current; modify (set_proc_locks (<[current := ls ++ [l]]>)) ;; ret (Some l))
      (λ r s', is_Some r ∧ lock_set current f x i start end_ shared o s s') s3).
  { intros Ho. apply wp_bind, wp_get. rewrite A1. simpl locks. set (l := fresh (dom (locks s))).
    assert (locks s !! l = None) as Hl by (apply not_elem_of_dom, is_fresh). clearbody l.
    set (x3 := match o with U_unsupported => fd_set_fs_locks false x | _ => x end).
    assert (f_fds s3 !! f = Some x3) as Hx3 by (rewrite B; unfold x3; destruct o; [done..|apply lookup_insert_eq|done]).
    assert (fd_inode x3 = Some i) as Hxi3 by (by unfold x3; destruct o).
    assert (quiet s s3) as Hq.
    { split; try done.
      - intros g. rewrite B. change (f_fds s2) with (f_fds s). destruct o; try reflexivity.
        destruct (decide (g = f)) as [->|]; [rewrite lookup_insert_eq, Hx; by constructor|by rewrite lookup_insert_ne].
      - exists (unix_calls x start end_ o). split; [done|]. destruct o; repeat constructor. }
    apply wp_bind, wp_modify. apply wp_bind, (wp_get_fd _ x3); [done|]. apply wp_bind, wp_modify. apply wp_bind, (wp_deref _ i); [done|].
    apply wp_bind, (wp_get_inode _ io); [simpl; by rewrite A2|]. apply wp_bind, wp_modify. apply wp_bind, (wp_get_proc _ ls); [simpl; by rewrite A3|].
    apply wp_bind, wp_modify, wp_ret. split; [done|]. split_and!; [exists l| | |].
    - by apply (listed_added l (FileLock f shared start end_ current) x3 i io ls s s3).
    - simpl. rewrite E. by destruct o.
    - done.
    - simpl. rewrite lookup_insert_eq. eexists. split; [done|]. unfold x3. by destruct o. }
  destruct o as [| | |st]; cbn [negb]; [by apply Hset..|]. apply wp_ret. split_and!; try done.
Qed.

(** The result of [lock_fd]. *)
Definition lock_result (current : pid) (f : fdid) (x : fd) (start end_ : Z) (shared wait : bool) (r : option lid) (s s' : fds) : Prop :=
  match fd_inode x with
  | None => r = None ∧ s' = set_f_error ST_INVALID_DEVICE_REQUEST s
  | Some i =>
      if wraps start end_ then r = None ∧ s' = set_f_error ST_INVALID_PARAMETER s
      else ∃ io, f_inodes s !! i = Some io ∧
        match head (filter (in_the_way (locks s) f start end_ shared) (i_locks io)) with
        | Some l => if wait then r = Some l ∧ s' = set_f_error ST_PENDING s else r = None ∧ s' = set_f_error ST_FILE_LOCK_CONFLICT s
        | None => r = None ∧
            if bool_decide (no_lock_memory s) then untouched s s' ∧ f_error s' = ST_NO_MEMORY
            else match unix_request x start end_ (lock_kind shared) s with
            | U_refused st => untouched s s' ∧ f_error s' = if (st =? ST_FILE_LOCK_CONFLICT) && wait then ST_PENDING else st
            | o => lock_set current f x i start end_ shared o s s'
            end
        end
  end.

Lemma lock_fd_exact current f x start count shared wait s : lock_inv s → f_fds s !! f = Some x → is_Some (proc_locks s !! current) → 0 <= start <= FILE_POS_T_MAX →
  max_unix_offset s <= OFF_T_MAX →
  wp (lock_fd current f start count shared wait) (λ r s', lock_result current f x start (w64 (start + count)) shared wait r s s') s.
Proof.
  intros Hi Hx Hp Hst Hm. unfold lock_fd, lock_result. set (end_ := w64 (start + count)). fold (wraps start end_).
  apply wp_bind, (wp_get_fd _ x); [done|]. destruct (fd_inode x) as [i|] eqn:Hxi; [|by apply wp_bind, wp_modify, wp_ret].
  destruct (wraps start end_) eqn:Hw; [by apply wp_bind, wp_modify, wp_ret|].
  destruct (li_inode _ Hi f x i Hx Hxi) as [io Hio]. pose proof (proj2 (li_file _ Hi i io Hio)) as Hin.
  apply wp_bind, (wp_get_inode _ io); [done|]. apply wp_bind, find_conflict_ok.
  { apply Forall_forall. intros l (lock & Hl & _)%Hin. by eexists. }
  rewrite first_blocking_way; [|intros l lock _ Hl; by apply (li_owner _ Hi l)|done].
  destruct (head (filter _ _)) as [l|] eqn:Hb.
  { destruct wait; cbn [negb]; apply wp_bind, wp_modify, wp_ret; exists io; by rewrite Hb. }
  apply wp_bind. eapply wp_mono; [apply (add_lock_exact current f x i); try done; apply Hst|]. intros r s1 H1.
  assert (Hret : ∀ s2, (if bool_decide (no_lock_memory s) then untouched s s2 ∧ f_error s2 = ST_NO_MEMORY
    else match unix_request x start end_ (lock_kind shared) s with
    | U_refused st => untouched s s2 ∧ f_error s2 = if (st =? ST_FILE_LOCK_CONFLICT) && wait then ST_PENDING else st
    | o => lock_set current f x i start end_ shared o s s2 end) → wp (ret None) (λ r s', ∃ io', f_inodes s !! i = Some io' ∧
    match head (filter (in_the_way (locks s) f start end_ shared) (i_locks io')) with
    | Some l => if wait then r = Some l ∧ s' = set_f_error ST_PENDING s else r = None ∧ s' = set_f_error ST_FILE_LOCK_CONFLICT s
    | None => r = None ∧ if bool_decide (no_lock_memory s) then untouched s s' ∧ f_error s' = ST_NO_MEMORY
        else match unix_request x start end_ (lock_kind shared) s with
        | U_refused st => untouched s s' ∧ f_error s' = if (st =? ST_FILE_LOCK_CONFLICT) && wait then ST_PENDING else st
        | o => lock_set current f x i start end_ shared o s s' end
    end) s2) by (intros s2 H2; apply wp_ret; exists io; by rewrite Hb).
  unfold adds_lock in H1. case_bool_decide.
  - destruct H1 as (-> & Hu & He). apply wp_bind, wp_get. rewrite He. by apply Hret.
  - destruct (unix_request x start end_ (lock_kind shared) s) as [| | |st]; [destruct H1 as [[l ->] H1]; by apply Hret..|].
    destruct H1 as (-> & Hu & He). apply wp_bind, wp_get. rewrite He. destruct (_ && wait); [apply wp_bind, wp_modify|]; by apply Hret.
Qed.

(** ** Two descriptors of a file *)

Definition demo_fd (u : Z) : fd := Fd (Some 1%positive) [] 0 0 u true (ClosedFd u 0 []).
Definition demo_fds : fds :=
  Fds ∅ {[1%positive := demo_fd 10; 2%positive := demo_fd 11]} {[1%positive := Inode [1%positive; 2%positive] [] []]} {[1%positive := []]} OFF_T_MAX 0 [] [] [].

Lemma demo_inv : lock_inv demo_fds.
Proof.
  assert (Hfd : ∀ f x, f_fds demo_fds !! f = Some x → fd_inode x = Some 1%positive ∧ fd_locks x = []).
  { intros f x. simpl. intros [[_ <-]|[_ [_ <-]%lookup_singleton_Some]]%lookup_insert_Some; done. }
  assert (Hnil : ∀ (P : file_lock → Prop), NoDup (@nil lid) ∧ ∀ l, l ∈ (@nil lid) ↔ ∃ lock, locks demo_fds !! l = Some lock ∧ P lock).
  { intros P. split; [constructor|]. intros l. split; [intros ?%elem_of_nil; done|]. intros (lock & Hl & _). simpl in Hl. by rewrite lookup_empty in Hl. }
  split.
  - intros f x i [E _]%Hfd Hi. rewrite Hi in E. injection E as ->. by eexists.
  - intros l lock Hl. simpl in Hl. by rewrite lookup_empty in Hl.
  - intros f x [_ ->]%Hfd. apply Hnil.
  - intros i io. simpl. intros [<- <-]%lookup_singleton_Some. apply Hnil.
  - intros p ls. simpl. intros [<- <-]%lookup_singleton_Some. apply Hnil.
  - intros i io. simpl. intros [<- <-]%lookup_singleton_Some. by intros a b l k lock other Ha.
Qed.

(** ** Properties *)

(** C25: From a valid state every sequence of locking, unlocking, exits of processes and
    closes of descriptors leads to a valid one: a lock is in exactly the lists of its
    descriptor, file and process, once; of two locks of a file that overlap the later is
    shared, and the earlier too unless they are of one descriptor.  Every operation
    completes, and closes a Unix descriptor of a file only when no lock on the file is left, for
    a close would drop the Unix locks of the whole file. *)
Theorem file_lock_invariant s0 s : lock_inv s0 → rtc lock_step s0 s →
  lock_inv s ∧ ∀ op, op_enabled s op → ∃ s', run_op op s = Done tt s' ∧ closes_ok s s'.
Proof.
  intros H0 Hrun. pose proof (lock_steps_inv s0 s Hrun H0) as Hi. split; [done|]. intros op Hen. destruct (wp_run _ _ _ (lock_op_ok op s Hi Hen)) as ([] & s' & E & _ & Hc). by exists s'.
Qed.

Lemma file_lock_invariant_witness : ∃ s s', rtc lock_step demo_fds s ∧ run_op (op_close 1) s = Done tt s' ∧ closes_ok s s' ∧ size (locks s) = 1%nat ∧ locks s' = ∅.
Proof.
  assert (lock_step demo_fds (match run_op (op_lock 1 1 5 10 false false) demo_fds with Done _ s => s | Fault _ => demo_fds end)) as Hst.
  { exists (op_lock 1 1 5 10 false false). split; [|reflexivity]. split_and!; [by eexists..|done|done]. }
  set (s := match run_op _ _ with Done _ s => s | Fault _ => _ end) in *.
  destruct (file_lock_invariant demo_fds s demo_inv (rtc_once _ _ Hst)) as [_ H]. destruct (H (op_close 1)) as (s' & E & Hc); [by eexists|].
  exists s, s'. split_and!; [by apply rtc_once|exact E|exact Hc|reflexivity|]. vm_compute in E. injection E as <-. reflexivity.
Defined.

(** C26: A request for a lock, at a start below 2^64 and with the limit of Unix
    offsets at most that of [off_t].  It fails for a descriptor that is not of a
    file and for a range that wraps around.  The first lock of the file in the way
    (each range starts before the other ends; not so that the new lock is shared
    and the old one shared or of the same descriptor) is the one to wait for, or the request fails with a
    lock conflict; nothing changes.  Otherwise, when memory is short, nothing
    changes and the error is [ST_NO_MEMORY].  Otherwise the Unix lock is tried: if
    [fcntl] refuses it, no lock is added and the error is its status, but
    [ST_PENDING] for a conflict when the client is ready to wait; in the other cases
    the lock is put at the end of the lists of the descriptor, the file and the
    process, no error is set, and the one [fcntl] call made locks exactly the range
    (to the end of the file beyond the limit), or none is made because the range is
    empty or beyond the limit or the file system has no locks. *)
Theorem lock_fd_spec current f x start count shared wait s : lock_inv s → f_fds s !! f = Some x → is_Some (proc_locks s !! current) → 0 <= start <= FILE_POS_T_MAX →
  max_unix_offset s <= OFF_T_MAX →
  ∃ r s', lock_fd current f start count shared wait s = Done r s' ∧ lock_result current f x start (w64 (start + count)) shared wait r s s'.
Proof.
  intros Hi Hx Hp Hst Hm. destruct (wp_run _ _ _ (lock_fd_exact current f x start count shared wait s Hi Hx Hp Hst Hm)) as (r & s' & E & Ho). by exists r, s'.
Qed.

(** The first attempt to set a Unix lock meets a conflict. *)
Definition busy_fds : fds := set_f_results [F_EAGAIN] demo_fds.

Lemma lock_fd_spec_witness :
  (∃ s', lock_fd 1 1 5 10 false false demo_fds = Done None s' ∧ (∃ l, added l (FileLock 1 false 5 15 1) 1 demo_fds s') ∧
    f_calls s' = [C_setlk (Some 1%positive) 10 F_WRLCK 5 10]) ∧
  (∃ s', lock_fd 1 1 5 10 false true busy_fds = Done None s' ∧ locks s' = ∅ ∧ f_error s' = ST_PENDING).
Proof.
  split.
  - destruct (lock_fd_spec 1 1 (demo_fd 10) 5 10 false false demo_fds demo_inv) as (r & s' & E & Ho); [reflexivity|by eexists|done|done|].
    destruct Ho as (io & Hio & H). injection Hio as <-. destruct H as (-> & Hl & _ & Hc & _). by exists s'.
  - destruct (lock_fd_spec 1 1 (demo_fd 10) 5 10 false true busy_fds) as (r & s' & E & Ho); [|reflexivity|by eexists|done|done|].
    + apply (quiet_inv demo_fds); [by apply quiet_intro|exact demo_inv].
    + destruct Ho as (io & Hio & H). injection Hio as <-. destruct H as (-> & (Hl & _) & He). exists s'. split_and!; [exact E|exact Hl|exact He].
Defined.

(** Unlocking removes the first lock of the descriptor with exactly this range from
    all its lists and no other, or fails with [STATUS_RANGE_NOT_LOCKED] and changes nothing. *)
Theorem unlock_fd_spec f x start count s : lock_inv s → f_fds s !! f = Some x →
  ∃ s', unlock_fd f start count s = Done tt s' ∧ match first_exact (locks s) (fd_locks x) start (w64 (start + count)) with
    | Some l => removed {[l]} s s'
    | None => s' = set_f_error ST_RANGE_NOT_LOCKED s
    end.
Proof.
  intros Hi Hx. destruct (wp_run _ _ _ (unlock_fd_ok f x start count s Hi Hx)) as ([] & s' & E & H). by exists s'.
Qed.

Lemma unlock_fd_spec_witness : unlock_fd 1 5 10 demo_fds = Done tt (set_f_error ST_RANGE_NOT_LOCKED demo_fds).
Proof. destruct (unlock_fd_spec 1 (demo_fd 10) 5 10 demo_fds demo_inv) as (s' & E & H); [reflexivity|]. cbn in H. subst s'. exact E. Defined.

(** The end of a process removes exactly its locks, whatever the order, and leaves a
    valid state; the loop comes to an end when the fuel is the number of locks. *)
Theorem remove_process_locks_spec p ls s : lock_inv s → proc_locks s !! p = Some ls →
  ∃ s', remove_process_locks (size (locks s)) p s = Done tt s' ∧ lock_inv s' ∧ ∀ l lock, locks s' !! l = Some lock ↔ locks s !! l = Some lock ∧ l_process lock ≠ p.
Proof.
  intros Hi Hp. destruct (li_proc _ Hi p ls Hp) as [Hn Hin]. assert (length ls <= size (locks s))%nat as Hle by (apply list_size; [done|]; intros l (lock & ? & _)%Hin; by eexists).
  destruct (wp_run _ _ _ (remove_process_locks_ok p ls _ s Hi Hp Hle)) as ([] & s' & E & Hr). exists s'. split; [done|]. split; [exact (removed_inv _ _ _ Hr Hi)|]. intros l lock.
  rewrite (removed_lookup _ _ _ _ _ Hr), elem_of_list_to_set, Hin. naive_solver.
Qed.

(** A lock of the process. *)
Definition one_lock : fds := match run_op (op_lock 1 1 5 10 false false) demo_fds with Done _ s => s | Fault _ => demo_fds end.
Lemma one_lock_inv : lock_inv one_lock.
Proof.
  apply (lock_steps_inv demo_fds); [|exact demo_inv]. apply rtc_once. exists (op_lock 1 1 5 10 false false). split; [|reflexivity]. split_and!; [by eexists..|done|done].
Qed.

Lemma remove_process_locks_spec_witness : size (locks one_lock) = 1%nat ∧ ∃ s', remove_process_locks 1 1 one_lock = Done tt s' ∧ lock_inv s' ∧ locks s' = ∅.
Proof.
  split; [reflexivity|]. destruct (remove_process_locks_spec 1 [1%positive] one_lock one_lock_inv) as (s' & E & Hi & H); [reflexivity|]. exists s'. split; [exact E|]. split; [exact Hi|].
  apply map_empty. intros l. apply eq_None_not_Some. intros [lock Hl]. destruct (proj1 (H l lock) Hl) as [H1 H2]. change (locks one_lock) with ({[1%positive := FileLock 1 false 5 15 1]} : gmap positive file_lock) in H1. apply lookup_singleton_Some in H1 as [_ <-]. by apply H2.
Defined.
