(* ===== verification/UnixLockSpecs.v ===== *)
(** * What becomes of the Unix locks (server/fd.c)

    What [remove_unix_locks] does, and where it and [remove_fd_locks] go wrong. *)

From stdpp Require Import base list gmap fin_maps fin_sets.
From S2P Require Import Prelude FileLock HoleSpecs FileLockInv FileLockSpecs.

Open Scope Z_scope.
Open Scope server_scope.

(** When a range is unlocked, whatever the order of the other locks of the file,
    [remove_unix_locks] reads only entries of its buffer that were written, writes none
    behind the [count + 1] allocated, passes its assertions and comes to an end; it
    changes nothing but the Unix locks. *)
Theorem remove_unix_locks_safe f x start end_ s : lock_inv s → f_fds s !! f = Some x → ∃ s', remove_unix_locks f start end_ s = Done tt s' ∧ quiet s s'.
Proof.
  intros Hi Hx. assert (wp (remove_unix_locks f start end_) (λ _ s', quiet s s') s) as Hwp.
  { apply (remove_unix_locks_ok f x); [done|]. intros i Hxi. destruct (li_inode _ Hi f x i Hx Hxi) as [io Hio]. destruct (file_locks_all s i io Hi Hio) as (xs & ? & ?). by exists io, xs. }
  destruct (wp_run _ _ _ Hwp) as ([] & s' & E & Hq). by exists s'.
Qed.

Lemma remove_unix_locks_safe_witness : ∃ s', remove_unix_locks 1 0 100 demo_fds = Done tt s' ∧ quiet demo_fds s' ∧ f_calls s' = [C_setlk (Some 1%positive) 10 F_UNLCK 0 100].
Proof.
  destruct (remove_unix_locks_safe 1 (demo_fd 10) 0 100 demo_fds demo_inv) as (s' & E & Hq); [reflexivity|]. exists s'. split; [exact E|]. split; [exact Hq|]. vm_compute in E. injection E as <-. reflexivity.
Defined.

(** C27: If the locks of the file are in the order of their starts and no call fails,
    unlocking a range clears the Unix locks of exactly the bytes of the range that no lock
    holds any more, up to the largest offset the system supports. *)
Theorem remove_unix_locks_exact f x i io xs start end_ s : f_fds s !! f = Some x → fd_inode x = Some i → fd_fs_locks x = true → f_inodes s !! i = Some io →
  Forall2 (λ l lock, locks s !! l = Some lock) (i_locks io) xs → Forall (λ lock, 0 <= l_start lock ∧ (l_end lock = 0 ∨ l_start lock <= l_end lock)) xs → in_order xs →
  f_results s = [] → f_allocs s = [] → 0 <= start <= max_unix_offset s → end_ = 0 ∨ start < end_ → start ≠ end_ → max_unix_offset s <= OFF_T_MAX →
  ∃ new, remove_unix_locks f start end_ s = Done tt (add_calls new s) ∧
    ∀ b, b <= max_unix_offset s → (∃ c, c ∈ new ∧ unlocks c b) ↔ (start <= b ∧ (end_ = 0 ∨ b < end_)) ∧ ¬ ∃ lock, lock ∈ xs ∧ holds lock b.
Proof. apply remove_sorted_ok. Qed.

(** The state after a list of operations. *)
Fixpoint run_all (ops : list lock_op) (s : fds) : option fds :=
  match ops with
  | [] => Some s
  | op :: ops => match run_op op s with Done _ s => run_all ops s | Fault _ => None end
  end.

Definition enabledb (s : fds) (op : lock_op) : bool :=
  match op with
  | op_lock p f start _ _ _ => bool_decide (is_Some (f_fds s !! f)) && bool_decide (is_Some (proc_locks s !! p)) && (0 <=? start) && (start <=? FILE_POS_T_MAX)
  | op_unlock f _ _ | op_close f => bool_decide (is_Some (f_fds s !! f))
  | op_exit p => bool_decide (is_Some (proc_locks s !! p))
  end.
Fixpoint all_enabled (ops : list lock_op) (s : fds) : bool :=
  match ops with
  | [] => true
  | op :: ops => enabledb s op && match run_op op s with Done _ s => all_enabled ops s | Fault _ => false end
  end.

Lemma enabledb_ok s op : enabledb s op = true → op_enabled s op.
Proof.
  destruct op; simpl; [|by intros ?%bool_decide_eq_true..]. intros [[[?%bool_decide_eq_true ?%bool_decide_eq_true]%andb_true_iff ?%Z.leb_le]%andb_true_iff ?%Z.leb_le]%andb_true_iff. by split_and!.
Qed.

Lemma run_all_steps ops : ∀ s s', all_enabled ops s = true → run_all ops s = Some s' → rtc lock_step s s'.
Proof.
  induction ops as [|op ops IH]; intros s s' He Hr; simpl in *; [injection Hr as <-; done|]. apply andb_true_iff in He as [He1 He2]. destruct (run_op op s) as [[] s1|] eqn:E; [|done].
  eapply rtc_l; [exists op; split; [by apply enabledb_ok|exact E]|by apply IH].
Qed.

(** Shared locks of the second descriptor, and one of the first over all of them. *)
Definition shared_locks (rs : list (Z * Z)) : list lock_op := op_lock 1 1 0 100 true false :: ((λ r, op_lock 1 2 (fst r) (snd r) true false) <$> rs).

Definition sorted_state : fds := default demo_fds (run_all (shared_locks [(10, 10); (50, 10); (60, 40)] ++ [op_unlock 1 0 100]) demo_fds).

Lemma remove_unix_locks_exact_witness : ∃ new, remove_unix_locks 1 0 100 sorted_state = Done tt (add_calls new sorted_state) ∧ (∃ c, c ∈ new ∧ unlocks c 30) ∧ ¬ ∃ c, c ∈ new ∧ unlocks c 55.
Proof.
  destruct (remove_unix_locks_exact 1 (demo_fd 10) 1 (Inode [1%positive; 2%positive] [2%positive; 3%positive; 4%positive] [])
    [FileLock 2 true 10 20 1; FileLock 2 true 50 60 1; FileLock 2 true 60 100 1] 0 100 sorted_state) as (new & E & H).
  1-4: reflexivity.
  - repeat constructor.
  - repeat constructor; simpl; lia.
  - intros [|[|[|a]]] [|[|[|b]]] x y Hx Hy Hab; simpl in *; try done; try lia; injection Hx as <-; injection Hy as <-; simpl; lia.
  - reflexivity.
  - reflexivity.
  - vm_compute. split; discriminate.
  - right. lia.
  - lia.
  - vm_compute. discriminate.
  - exists new. split; [exact E|]. assert (Hm : 60 <= max_unix_offset sorted_state) by (vm_compute; discriminate). rewrite !H by lia. split.
    + split; [lia|]. intros (lock & Hin & _ & H1 & H2). repeat (apply elem_of_cons in Hin as [->|Hin]; [simpl in *; lia|]). by apply elem_of_nil in Hin.
    + intros [_ Hno]. apply Hno. exists (FileLock 2 true 50 60 1). split; [right; left|]. split; [done|]. split; [simpl; lia|right; simpl; lia].
Defined.

(** ** Where the list of holes goes wrong *)

#[export] Instance holds_dec lock x : Decision (holds lock x).
Proof. unfold holds, covers. apply _. Defined.
#[export] Instance unlocks_dec c x : Decision (unlocks c x).
Proof. unfold unlocks. destruct c as [? ? [] start len| | | |]; try apply _. destruct (len =? 0); [apply _|]. destruct (0 <? len); apply _. Defined.

Definition after (ops : list lock_op) : fds := default demo_fds (run_all ops demo_fds).

Lemma after_steps ops : all_enabled ops demo_fds = true → rtc lock_step demo_fds (after ops).
Proof.
  intros H. unfold after. destruct (run_all ops demo_fds) as [s|] eqn:E; simpl; [by apply (run_all_steps ops)|done].
Qed.

(** A hole that is split off does not get to know the hole behind it, whose link back still
    leads to the first part; when that hole vanishes, the new one is dropped from the
    list.  After the unlocking of [0,100) with shared locks on [50,60), [10,20) and [60,100) left,
    no lock holds byte 30, but its Unix lock is not cleared. *)
Theorem split_hole_lost : ∃ s s' new, rtc lock_step demo_fds s ∧ run_op (op_unlock 1 0 100) s = Done tt s' ∧ f_calls s' = new ++ f_calls s ∧ f_results s = [] ∧ f_allocs s = [] ∧
  (∃ l lock, locks s !! l = Some lock ∧ l_fd lock = 1%positive ∧ holds lock 30) ∧ (∀ l lock, locks s' !! l = Some lock → ¬ holds lock 30) ∧ (∀ c, c ∈ new → ¬ unlocks c 30).
Proof.
  set (ops := shared_locks [(50, 10); (10, 10); (60, 40)]). exists (after ops), (after (ops ++ [op_unlock 1 0 100])), [C_signal 1; C_setlk (Some 1%positive) 10 F_UNLCK 0 10].
  split_and!; [by apply after_steps|vm_compute; reflexivity|vm_compute; reflexivity|reflexivity|reflexivity| | |].
  - exists 1%positive, (FileLock 1 true 0 100 1). split_and!; [vm_compute; reflexivity|reflexivity|]. apply (bool_decide_unpack _). vm_compute. exact I.
  - change (map_Forall (λ _ lock, ¬ holds lock 30) (locks (after (ops ++ [op_unlock 1 0 100])))). apply (bool_decide_unpack _). vm_compute. exact I.
  - apply Forall_forall, (bool_decide_unpack _). vm_compute. exact I.
Qed.

(** C28: The same stale link can keep an emptied hole in the list, with its start behind
    its end; the length given to [fcntl] is then negative, and the bytes before the start are
    unlocked.  After the unlocking of [0,100) with shared locks on [50,60), [10,20), [0,10) and [60,200)
    left, the Unix locks of [100,200) are gone, which the last of these still holds. *)
Theorem locked_bytes_unlocked : ∃ s s' new, rtc lock_step demo_fds s ∧ run_op (op_unlock 1 0 100) s = Done tt s' ∧ f_calls s' = new ++ f_calls s ∧ f_results s = [] ∧ f_allocs s = [] ∧
  ∃ l lock c, locks s' !! l = Some lock ∧ holds lock 150 ∧ c ∈ new ∧ unlocks c 150.
Proof.
  set (ops := shared_locks [(50, 10); (10, 10); (0, 10); (60, 140)]). exists (after ops), (after (ops ++ [op_unlock 1 0 100])), [C_signal 1; C_setlk (Some 1%positive) 10 F_UNLCK 200 (-100); C_setlk (Some 1%positive) 10 F_UNLCK 20 30].
  split_and!; [by apply after_steps|vm_compute; reflexivity|vm_compute; reflexivity|reflexivity|reflexivity|].
  exists 5%positive, (FileLock 2 true 60 200 1), (C_setlk (Some 1%positive) 10 F_UNLCK 200 (-100)). split_and!; [vm_compute; reflexivity| |right; left|simpl; lia].
  apply (bool_decide_unpack _). vm_compute. exact I.
Qed.

(** ** Where the close of a descriptor goes wrong *)

Lemma wp_and {A} (m : F A) (P Q : A → fds → Prop) s : wp m P s → wp m Q s → wp m (λ a s', P a s' ∧ Q a s') s.
Proof. unfold wp. by destruct (m s). Qed.

Lemma remove_lock_calls l lock s : lock_inv s → locks s !! l = Some lock → wp (remove_lock l false) (λ _ s', ∃ new, f_calls s' = new ++ f_calls s ∧ Forall (λ c, ¬ is_setlk c) new) s.
Proof.
  intros Hi Hl. destruct (li_owner _ Hi l lock Hl) as ((i & x & Hx & Hxi) & [ls Hls] & _). destruct (li_inode _ Hi _ _ _ Hx Hxi) as [io Hio].
  unfold remove_lock. apply wp_bind, (wp_get_lock _ lock); [done|]. apply wp_bind, (wp_get_fd _ x); [done|]. apply wp_bind, (wp_deref _ i); [done|].
  apply wp_bind, wp_modify. apply wp_bind, (wp_get_inode _ io); [done|]. apply wp_bind, wp_modify. apply wp_bind, (wp_get_proc _ ls); [done|]. apply wp_bind, wp_modify.
  apply wp_bind, wp_ret. set (io' := i_set_locks (without l (i_locks io)) io). apply wp_bind, (wp_get_inode _ io'); [simpl; apply lookup_insert_eq|].
  apply wp_bind. set (s3 := set_proc_locks _ _). assert (f_calls s3 = f_calls s) as Ec by done. assert (f_inodes s3 !! i = Some io') as Hio' by (simpl; apply lookup_insert_eq). clearbody s3.
  eapply (wp_mono _ (λ _ s4, ∃ new, f_calls s4 = new ++ f_calls s ∧ Forall (λ c, ¬ is_setlk c) new)).
  - case_bool_decide; [|apply wp_ret; by exists []; rewrite Ec]. unfold inode_close_pending. apply wp_bind, (wp_get_inode _ io'); [done|]. apply wp_bind.
    eapply wp_mono; [apply close_pending_ok|]. intros cl s4 (E1 & _ & _ & _ & new & E5 & E6). apply wp_bind, (wp_get_inode _ io'); [by rewrite E1|]. apply wp_modify. exists new. split; [simpl; by rewrite E5, Ec|].
    eapply Forall_impl; [exact E6|]. intros c [u ->] [].
  - intros ? s4 (new & E & Hn). apply wp_bind, wp_modify, wp_modify. exists (C_signal l :: new). split; [simpl; by rewrite E|]. constructor; [intros []|done].
Qed.

(** The Unix lock of a single byte is not removed with its descriptor: the last byte
    of the range is compared with the first by [<].  When other locks keep the Unix
    descriptor open, the byte stays locked though no lock holds it. *)
Theorem one_byte_lock_stays f x l lock s : lock_inv s → f_fds s !! f = Some x → fd_locks x = [l] → locks s !! l = Some lock → l_end lock = l_start lock + 1 →
  ∃ s' new, remove_fd_locks (size (locks s)) f s = Done tt s' ∧ locks s' !! l = None ∧ f_calls s' = new ++ f_calls s ∧ Forall (λ c, ¬ is_setlk c) new.
Proof.
  intros Hi Hx Hls Hl He. destruct (li_owner _ Hi l lock Hl) as (_ & _ & [[Hs1 Hs2] [He1 He2] _]).
  assert (wp (remove_fd_locks (size (locks s)) f) (λ _ s', locks s' !! l = None ∧ ∃ new, f_calls s' = new ++ f_calls s ∧ Forall (λ c, ¬ is_setlk c) new) s) as Hwp.
  { destruct (size (locks s)) as [|n] eqn:En; [apply map_size_empty_inv in En; by rewrite En, lookup_empty in Hl|]. unfold remove_fd_locks. apply wp_bind. cbn [remove_fd_loop].
    apply wp_bind, (wp_get_fd _ x); [done|]. rewrite Hls. apply wp_bind, (wp_get_lock _ lock); [done|]. apply wp_bind.
    eapply wp_mono; [apply wp_and; [by apply (remove_lock_ok l lock)|by apply (remove_lock_calls l lock)]|]. intros ? s1 [Hr Hc].
    destruct (removed_fd_l _ _ _ _ _ Hr Hx) as (y & Hy & Hlf). assert (fd_locks y = []) as Ey by (rewrite (lf_locks _ _ _ Hlf), Hls; apply less_cons, NoDup_singleton).
    assert (locks s1 !! l = None) as Hl1 by (rewrite (rm_locks _ _ _ Hr), decide_True by set_solver; done).
    assert (Hst : (if l_start lock <? FILE_POS_T_MAX then l_start lock else FILE_POS_T_MAX) = l_start lock) by (destruct (Z.ltb_spec (l_start lock) FILE_POS_T_MAX); [done|lia]).
    assert (w64 (l_end lock - 1) = l_start lock) as Hw by (unfold w64, FILE_POS_T_MAX in *; rewrite Z.mod_small; lia).
    assert ((l_end lock =? 0) || (0 <? l_end lock) = true) as Hb by (destruct (Z.ltb_spec 0 (l_end lock)); [by rewrite orb_true_r|lia]). rewrite Hst, Hb, Hw.
    destruct n; cbn [remove_fd_loop]; (apply wp_bind, (wp_get_fd _ y); [done|]; rewrite Ey; apply wp_ret; cbn [fst snd]; rewrite Z.ltb_irrefl; apply wp_ret; split; [done|exact Hc]). }
  destruct (wp_run _ _ _ Hwp) as ([] & s' & E & Hn & new & ? & ?). by exists s', new.
Qed.

(** A lock on byte 7 of the first descriptor, another one of the second. *)
Definition one_byte_state : fds := after [op_lock 1 1 7 1 false false; op_lock 1 2 20 10 false false].

Lemma one_byte_lock_stays_witness : (∃ s' new, remove_fd_locks (size (locks one_byte_state)) 1 one_byte_state = Done tt s' ∧ f_calls s' = new ++ f_calls one_byte_state ∧ Forall (λ c, ¬ is_setlk c) new) ∧
  f_calls (after [op_lock 1 1 7 1 false false; op_lock 1 2 20 10 false false; op_close 1]) =
    [C_signal 1; C_setlk (Some 1%positive) 11 F_WRLCK 20 10; C_setlk (Some 1%positive) 10 F_WRLCK 7 1].
Proof.
  split; [|vm_compute; reflexivity]. destruct (one_byte_lock_stays 1 (fd_set_locks [1%positive] (demo_fd 10)) 1 (FileLock 1 false 7 8 1) one_byte_state) as (s' & new & E & _ & ? & ?).
  - apply (lock_steps_inv demo_fds); [by apply after_steps|exact demo_inv].
  - vm_compute. reflexivity.
  - reflexivity.
  - vm_compute. reflexivity.
  - reflexivity.
  - by exists s', new.
Defined.

(** A lock of no bytes at offset 0 has the representation of one to the end of all
    files, and is in the way of every exclusive lock on the file, though it holds no byte; one at another
    offset is in the way only of ranges that have it strictly inside. *)
Theorem empty_lock_at_zero lock f start end_ : l_start lock = l_end lock → 0 <= start → 0 < end_ →
  (∀ b, ¬ holds lock b) ∧ (l_start lock = 0 → blocks lock f start end_ false = true) ∧ (0 < l_start lock → blocks lock f start end_ false = true ↔ start < l_start lock < end_).
Proof.
  intros E Hs He. split_and!; [by intros b [H _]| |]; intros H; unfold blocks, lock_overlaps; rewrite <-E.
  - rewrite H. simpl. rewrite (proj2 (Z.eqb_neq end_ 0)), (proj2 (Z.leb_gt end_ 0)) by lia. done.
  - rewrite (proj2 (Z.eqb_neq (l_start lock) 0)), (proj2 (Z.eqb_neq end_ 0)) by lia. simpl. destruct (Z.leb_spec (l_start lock) start), (Z.leb_spec end_ (l_start lock)); simpl; lia.
Qed.

Lemma empty_lock_at_zero_witness : blocks (FileLock 2 false 0 0 1) 1 500 600 false = true ∧ ∃ s', lock_fd 1 1 500 100 false false (after [op_lock 1 2 0 0 false false]) = Done None s' ∧ f_error s' = ST_FILE_LOCK_CONFLICT.
Proof.
  split; [|eexists; split; [vm_compute; reflexivity|reflexivity]].
  destruct (empty_lock_at_zero (FileLock 2 false 0 0 1) 1 500 600) as (_ & H & _); [reflexivity|lia|lia|]. exact (H eq_refl).
Defined.
