(* ===== verification/SharingSpecs.v ===== *)
(** * The sharing modes of the opens of a file (server/fd.c)

    [check_sharing] compares one open with all the others at once, by the bits they have in
    common; the rule it implements is one between two opens. *)

From stdpp Require Import base list gmap fin_maps.
From S2P Require Import Prelude FileLock HoleSpecs FileLockInv FileLockSpecs.

Open Scope Z_scope.
Open Scope server_scope.

(** ** The rule for two opens *)




(** ** Bits *)





(** ** All the other opens *)









(** ** Properties *)






