(* ===== verification/MemRange.v ===== *)
(** * Committed pages and addresses of images (server/mapping.c)

    The list of committed ranges of a mapping, and the address ranges that are free for the
    images of DLLs.  Both are sorted arrays in buffers that grow.  The descriptors with a
    mapping address are those of server/fd.c. *)

From stdpp Require Import base list gmap fin_maps.
From S2P Require Import Prelude.

Open Scope Z_scope.
Open Scope server_scope.

(** ** Data *)

Notation rid := positive (only parsing).
Notation mfd := positive (only parsing).

Definition u64 (x : Z) : Z := x mod 18446744073709551616.

Definition page_mask : Z := 4095.
Definition granularity_mask : Z := 65535.
Definition ST_INVALID_PARAMETER : Z := 3221225485.   (* 0xC000000D *)
Definition ST_NO_MEMORY : Z := 3221225495.           (* 0xC0000017 *)
Definition IMAGE_FILE_DLL : Z := 8192.

Definition round_size (size mask : Z) : Z := Z.land (u64 (size + mask)) (Z.lxor 18446744073709551615 mask).

(** A range is its start and its end. *)
Notation range := (Z * Z)%type.

(** The number of entries in use, and the buffer, of [max] entries. *)
Record ranges := Ranges {
  r_count : nat;
  r_ranges : list (option range);
}.

(** The base and the size of each free range. *)
Record addr_range := AddrRange {
  ar_count : nat;
  ar_free : list (option (Z * Z));
}.

Record memory_view := View {
  v_committed : option rid;
  v_size : Z;
  v_start : Z;
}.

Record mapping := Mapping {
  mp_fd : mfd;
  mp_size : Z;
  mp_image_base : Z;
  mp_image_charact : Z;
}.

Record maps := Maps {
  m_ranges : gmap rid ranges;
  ranges32 : addr_range;
  ranges64 : addr_range;
  m_addrs : gmap mfd (Z * Z);
  m_error : Z;
  m_allocs : list bool;
}.

Notation M := (ST maps).

Definition set_ranges (f : gmap rid ranges → gmap rid ranges) (s : maps) : maps := Maps (f (m_ranges s)) (ranges32 s) (ranges64 s) (m_addrs s) (m_error s) (m_allocs s).
Definition set_addrs (f : gmap mfd (Z * Z) → gmap mfd (Z * Z)) (s : maps) : maps := Maps (m_ranges s) (ranges32 s) (ranges64 s) (f (m_addrs s)) (m_error s) (m_allocs s).
Definition set_m_error (e : Z) (s : maps) : maps := Maps (m_ranges s) (ranges32 s) (ranges64 s) (m_addrs s) e (m_allocs s).
Definition set_m_allocs (l : list bool) (s : maps) : maps := Maps (m_ranges s) (ranges32 s) (ranges64 s) (m_addrs s) (m_error s) l.

(** [high] stands for the pointer to [ranges64] or [ranges32]. *)
Definition addr_of (high : bool) (s : maps) : addr_range := if high then ranges64 s else ranges32 s.
Definition set_addr (high : bool) (a : addr_range) (s : maps) : maps :=
  if high then Maps (m_ranges s) (ranges32 s) a (m_addrs s) (m_error s) (m_allocs s)
  else Maps (m_ranges s) a (ranges64 s) (m_addrs s) (m_error s) (m_allocs s).

Definition m_malloc : M bool := s <- get; match m_allocs s with [] => ret true | b :: l => modify (set_m_allocs l) ;; ret b end.
Definition get_ranges (r : rid) : M ranges := s <- get; deref (m_ranges s !! r).
Definition put_ranges (r : rid) (c : ranges) : M unit := modify (set_ranges (<[r:=c]>)).

(** ** Buffers *)

Section buffer.
Context {A : Type}.
Implicit Types (b : list (option A)).

Definition buf_get b (i : nat) : M A :=
  match b !! i with Some (Some x) => ret x | Some None => fail Uninitialized | None => fail OutOfBounds end.
Definition buf_set b (i : nat) (x : A) : M (list (option A)) := if (i <? length b)%nat then ret (<[i:=Some x]> b) else fail OutOfBounds.
Definition memmove b (dst src n : nat) : M (list (option A)) :=
  if (dst + n <=? length b)%nat && (src + n <=? length b)%nat then ret (take dst b ++ take n (drop src b) ++ drop (dst + n) b) else fail OutOfBounds.

(** A buffer that is made larger; the new entries are not set. *)
Definition grow b (size : nat) : list (option A) := b ++ replicate (size - length b) None.
End buffer.

(** ** Committed ranges *)

Definition create_ranges : M (option rid) :=
  ok <- m_malloc;
  if negb ok then modify (set_m_error ST_NO_MEMORY) ;; ret None
  else
    ok <- m_malloc;
    if negb ok then modify (set_m_error ST_NO_MEMORY) ;; ret None
    else s <- get; let r := fresh (dom (m_ranges s)) in put_ranges r (Ranges 0 (replicate 8 None)) ;; ret (Some r).

(** The loop over the following ranges; [n] of them are left.  The result is the first one
    that stays and the end. *)
Fixpoint merge_loop (n : nat) (b : list (option range)) (j : nat) (end_ : Z) : M (nat * Z) :=
  match n with
  | O => ret (j, end_)
  | S n =>
      r <- buf_get b j;
      if end_ <? fst r then ret (j, end_)
      else merge_loop n b (S j) (if end_ <? snd r then snd r else end_)
  end.

(** The loop over the ranges; [n] are left, and the result is the position of a new
    range unless one was changed. *)
Fixpoint extend_loop (n : nat) (r : rid) (i : nat) (start end_ : Z) : M (option nat) :=
  match n with
  | O => ret (Some i)
  | S n =>
      c <- get_ranges r;
      x <- buf_get (r_ranges c) i;
      if end_ <? fst x then ret (Some i)
      else if snd x <? start then extend_loop n r (S i) start end_
      else
        let x := if start <? fst x then (start, snd x) else x in
        b <- buf_set (r_ranges c) i x;
        if snd x <? end_ then
          q <- merge_loop n b (S i) end_;
          let '(j, end_) := q in
          if (S i <? j)%nat then
            b <- memmove b (S i) j (r_count c - j);
            b <- buf_set b i (fst x, end_);
            put_ranges r (Ranges (r_count c - (j - S i)) b) ;; ret None
          else b <- buf_set b i (fst x, end_); put_ranges r (Ranges (r_count c) b) ;; ret None
        else put_ranges r (Ranges (r_count c) b) ;; ret None
  end.

Definition add_committed_range (view : memory_view) (start end_ : Z) : M unit :=
  if has start page_mask || has end_ page_mask || (v_size view <=? start) || (v_size view <? end_) || (end_ <=? start) then modify (set_m_error ST_INVALID_PARAMETER)
  else
    match v_committed view with
    | None => ret tt
    | Some r =>
        let start := u64 (start + v_start view) in
        let end_ := u64 (end_ + v_start view) in
        c <- get_ranges r;
        q <- extend_loop (r_count c) r 0 start end_;
        match q with
        | None => ret tt
        | Some i =>
            c <- get_ranges r;
            b <- (if (r_count c =? length (r_ranges c))%nat then
                    ok <- m_malloc; ret (if ok then Some (grow (r_ranges c) (length (r_ranges c) * 2)) else None)
                  else ret (Some (r_ranges c)));
            match b with
            | None => ret tt
            | Some b =>
                b <- memmove b (S i) i (r_count c - i);
                b <- buf_set b i (start, end_);
                put_ranges r (Ranges (S (r_count c)) b)
            end
        end
    end.

Fixpoint find_loop (n : nat) (b : list (option range)) (i : nat) (view : memory_view) (start : Z) : M (bool * Z) :=
  match n with
  | O => ret (false, u64 (v_size view - start))
  | S n =>
      r <- buf_get b i;
      let pos := u64 (v_start view + start) in
      let view_end := u64 (v_start view + v_size view) in
      if pos <? fst r then ret (false, u64 (Z.min (fst r) view_end - pos))
      else if pos <? snd r then ret (true, u64 (Z.min (snd r) view_end - pos))
      else find_loop n b (S i) view start
  end.

(** Whether the page is committed, and the size if there is one. *)
Definition find_committed_range (view : memory_view) (start : Z) : M (bool * option Z) :=
  if has start page_mask || (v_size view <=? start) then modify (set_m_error ST_INVALID_PARAMETER) ;; ret (false, None)
  else
    match v_committed view with
    | None => ret (true, Some (u64 (v_size view - start)))
    | Some r => c <- get_ranges r; q <- find_loop (r_count c) (r_ranges c) 0 view start; ret (fst q, Some (snd q))
    end.

(** The handler of [add_mapping_committed_range], for a view that was found. *)
Definition req_add_committed_range (view : memory_view) (offset size : Z) : M unit := add_committed_range view offset (u64 (offset + size)).

(** ** Addresses of images *)

Definition get_fd_map_address (f : mfd) : M Z := s <- get; match m_addrs s !! f with Some a => ret (fst a) | None => fail NullDeref end.
Definition set_fd_map_address (f : mfd) (addr size : Z) : M unit :=
  s <- get;
  a <- deref (m_addrs s !! f);
  assert (fst a =? 0) ;;
  modify (set_addrs (<[f := (addr, size)]>)).

(** The search for a range that is large enough; [n] are left. *)
Fixpoint assign_loop (n : nat) (high : bool) (i : nat) (f : mfd) (size : Z) : M Z :=
  match n with
  | O => ret 0
  | S n =>
      s <- get;
      let a := addr_of high s in
      x <- buf_get (ar_free a) i;
      if snd x <? size then assign_loop n high (S i) f size
      else
        b <- buf_set (ar_free a) i (fst x, u64 (snd x - size));
        modify (set_addr high (AddrRange (ar_count a) b)) ;;
        let addr := u64 (fst x + u64 (snd x - size)) in
        set_fd_map_address f addr size ;;
        ret addr
  end.

Definition assign_map_address (m : mapping) : M Z :=
  let high := negb (Z.shiftr (mp_image_base m) 32 =? 0) in
  let size := round_size (mp_size m) granularity_mask in
  if negb (has (mp_image_charact m) IMAGE_FILE_DLL) then ret 0
  else
    addr <- get_fd_map_address (mp_fd m);
    if negb (addr =? 0) then ret addr
    else
      let size := u64 (size + (granularity_mask + 1)) in
      s <- get;
      assign_loop (ar_count (addr_of high s)) high 0 (mp_fd m) size.

(** The loop of [free_map_addr]; the result is the position of a new range unless one
    was changed. *)
Fixpoint free_loop (n : nat) (high : bool) (i : nat) (base size : Z) : M (option nat) :=
  match n with
  | O => ret (Some i)
  | S n =>
      s <- get;
      let a := addr_of high s in
      x <- buf_get (ar_free a) i;
      let end_ := u64 (base + size) in
      if end_ <? fst x then free_loop n high (S i) base size
      else if u64 (fst x + snd x) <? base then ret (Some i)
      else if fst x =? end_ then
        merge <- (if (S i <? ar_count a)%nat then y <- buf_get (ar_free a) (S i); ret (u64 (fst y + snd y) =? base) else ret false);
        if merge then
          let size := u64 (size + snd x) in
          b <- memmove (ar_free a) i (S i) (ar_count a - 1 - i);
          y <- buf_get b i;
          b <- buf_set b i (fst y, u64 (snd y + size));
          modify (set_addr high (AddrRange (ar_count a - 1) b)) ;; ret None
        else b <- buf_set (ar_free a) i (base, u64 (snd x + size)); modify (set_addr high (AddrRange (ar_count a) b)) ;; ret None
      else b <- buf_set (ar_free a) i (fst x, u64 (snd x + size)); modify (set_addr high (AddrRange (ar_count a) b)) ;; ret None
  end.

Definition free_map_addr (base size : Z) : M unit :=
  let high := negb (Z.shiftr base 32 =? 0) in
  s <- get;
  q <- free_loop (ar_count (addr_of high s)) high 0 base size;
  match q with
  | None => ret tt
  | Some i =>
      s <- get;
      let a := addr_of high s in
      b <- (if (ar_count a =? length (ar_free a))%nat then
              ok <- m_malloc; ret (if ok then Some (grow (ar_free a) (Nat.max 256 (length (ar_free a) * 2))) else None)
            else ret (Some (ar_free a)));
      match b with
      | None => ret tt
      | Some b =>
          b <- memmove b (S i) i (ar_count a - i);
          b <- buf_set b i (base, size);
          modify (set_addr high (AddrRange (S (ar_count a)) b))
      end
  end.

Definition init_memory : M unit := free_map_addr 1610612736 469762048 ;; free_map_addr 105553116266496 17592186044416.

(** The part of [fd_destroy] that gives the address back. *)
Definition destroy_map_addr (f : mfd) : M unit :=
  s <- get;
  a <- deref (m_addrs s !! f);
  (if negb (fst a =? 0) then free_map_addr (fst a) (snd a) else ret tt) ;;
  modify (set_addrs (delete f)).
