(* ===== verification/MemRangeSpecs.v ===== *)
(** * Committed ranges are a set of pages

    The buffer of a list of ranges stands for a list, the list for a set of
    bytes; [add_committed_range] adds to the set and [find_committed_range] finds the
    largest run of bytes that are all in it or all not.  The properties come
    last. *)

From stdpp Require Import base list gmap fin_maps.
From S2P Require Import Prelude MemRange.

Open Scope Z_scope.
Open Scope server_scope.

(** ** Buffers stand for lists *)

Definition stands {A} (b : list (option A)) (l : list A) : Prop := ∃ rest, b = (Some <$> l) ++ rest.

Section buffer.
Context {A : Type}.
Implicit Types (b : list (option A)) (l k : list A).

Lemma stands_length b l : stands b l → (length l <= length b)%nat.
Proof. intros [rest ->]. rewrite length_app, length_fmap. lia. Qed.

Lemma wp_buf_get b l k x (Q : A → maps → Prop) s : stands b (l ++ x :: k) → Q x s → wp (buf_get b (length l)) Q s.
Proof.
  intros [rest ->] HQ. unfold buf_get. rewrite fmap_app, <-app_assoc, lookup_app_r by (rewrite length_fmap; lia). rewrite length_fmap, Nat.sub_diag. exact HQ.
Qed.

Lemma insert_middle {B} (l k : list B) (x y : B) n : n = length l → <[n:=y]> (l ++ x :: k) = l ++ y :: k.
Proof. intros ->. rewrite insert_app_r_alt by lia. by rewrite Nat.sub_diag. Qed.

Lemma wp_buf_set b l k x y (Q : list (option A) → maps → Prop) s : stands b (l ++ x :: k) → (∀ b', stands b' (l ++ y :: k) → length b' = length b → Q b' s) → wp (buf_set b (length l) y) Q s.
Proof.
  intros [rest ->] HQ. unfold buf_set. rewrite (proj2 (Nat.ltb_lt _ _)) by (rewrite !length_app, length_fmap, length_app; simpl; lia).
  apply wp_ret, HQ; [|by rewrite length_insert]. exists rest. rewrite !fmap_app, <-!app_assoc. simpl. by apply insert_middle; rewrite length_fmap.
Qed.

(** The entries from [n] on move up by one, and the new one is written. *)
Lemma wp_buf_insert b l k y (Q : list (option A) → maps → Prop) s : stands b (l ++ k) → (length (l ++ k) < length b)%nat →
  (∀ b', stands b' (l ++ y :: k) → length b' = length b → Q b' s) → wp (b <- memmove b (S (length l)) (length l) (length k); buf_set b (length l) y) Q s.
Proof.
  intros [rest ->] Hlen HQ. rewrite !length_app, length_fmap, length_app in Hlen. destruct rest as [|o rest]; [simpl in Hlen; lia|]. unfold memmove. rewrite !length_app, length_fmap, length_app. simpl length.
  rewrite (proj2 (Nat.leb_le _ _)), (proj2 (Nat.leb_le (length l + length k) _)) by lia. simpl andb. apply wp_bind, wp_ret.
  rewrite fmap_app, <-app_assoc. rewrite (drop_app_length' (Some <$> l)) by (by rewrite length_fmap). rewrite (take_app_length' (Some <$> k)) by (by rewrite length_fmap).
  assert (Ht : ∃ z, take (S (length l)) ((Some <$> l) ++ (Some <$> k) ++ o :: rest) = (Some <$> l) ++ [z]).
  { rewrite <-(length_fmap (@Some A) l). destruct k as [|w k]; simpl; [exists o|exists (Some w)]; rewrite take_app_ge by lia; by replace (S (length (Some <$> l)) - length (Some <$> l))%nat with 1%nat by lia. }
  destruct Ht as [z ->]. assert (Hd : drop (S (length l) + length k) ((Some <$> l) ++ (Some <$> k) ++ o :: rest) = rest).
  { rewrite app_assoc, drop_app_ge by (rewrite length_app, !length_fmap; lia). rewrite length_app, !length_fmap. by replace (S (length l) + length k - (length l + length k))%nat with 1%nat by lia. }
  rewrite Hd.
  unfold buf_set. rewrite (proj2 (Nat.ltb_lt _ _)) by (rewrite !length_app, !length_fmap; simpl; lia). apply wp_ret, HQ.
  - exists rest. rewrite fmap_app, <-!app_assoc. simpl. by apply insert_middle; rewrite length_fmap.
  - rewrite length_insert, !length_app, !length_fmap, ?length_app. simpl. lia.
Qed.

(** The entries [m] move down over others. *)
Lemma wp_memmove_down b l d m (Q : list (option A) → maps → Prop) s : stands b (l ++ d ++ m) →
  (∀ b', stands b' (l ++ m) → length b' = length b → Q b' s) → wp (memmove b (length l) (length l + length d) (length m)) Q s.
Proof.
  intros [rest ->] HQ. unfold memmove. rewrite !length_app, length_fmap, !length_app, (proj2 (Nat.leb_le _ _)), (proj2 (Nat.leb_le (length l + length d + length m) _)) by lia. simpl andb. apply wp_ret. apply HQ.
  - exists (drop (length l + length m) ((Some <$> l ++ d ++ m) ++ rest)). rewrite !fmap_app, <-!app_assoc. f_equal; [by rewrite take_app_length' by (by rewrite length_fmap)|]. f_equal.
    rewrite (app_assoc (Some <$> l)), drop_app_length' by (by rewrite length_app, !length_fmap). by rewrite take_app_length' by (by rewrite length_fmap).
  - rewrite !length_app, length_take, length_take, !length_drop, !length_app, length_fmap, !length_app. lia.
Qed.

Lemma stands_grow b l n : stands b l → stands (grow b n) l.
Proof. intros [rest ->]. eexists. unfold grow. by rewrite <-app_assoc. Qed.
Lemma grow_length b n : (length b <= n)%nat → length (grow b n) = n.
Proof. intros H. unfold grow. rewrite length_app, length_replicate. lia. Qed.
End buffer.

(** ** The set of a list of ranges *)

(** Ranges in order, with gaps between them, behind [lo]. *)
Fixpoint spaced (lo : Z) (l : list range) : Prop :=
  match l with [] => True | r :: l => lo < fst r ∧ fst r < snd r ∧ spaced (snd r) l end.

Definition within (x : Z) (l : list range) : Prop := ∃ r, r ∈ l ∧ fst r <= x < snd r.

(** What [add_committed_range] makes of the list. *)
Fixpoint absorb (l : list range) (end_ : Z) : Z * list range :=
  match l with
  | [] => (end_, [])
  | r :: k => if end_ <? fst r then (end_, l) else absorb k (if end_ <? snd r then snd r else end_)
  end.
Fixpoint add_range (l : list range) (start end_ : Z) : list range :=
  match l with
  | [] => [(start, end_)]
  | r :: k =>
      if end_ <? fst r then (start, end_) :: l
      else if snd r <? start then r :: add_range k start end_
      else
        let a := if start <? fst r then start else fst r in
        if snd r <? end_ then (a, fst (absorb k end_)) :: snd (absorb k end_) else (a, snd r) :: k
  end.

Lemma within_nil x : within x [] ↔ False.
Proof. split; [|done]. by intros (r & ?%elem_of_nil & _). Qed.
Lemma within_cons x r l : within x (r :: l) ↔ fst r <= x < snd r ∨ within x l.
Proof.
  split; [intros (q & [->|Hq]%elem_of_cons & H); [by left|right; by exists q]|]. intros [H|(q & Hq & H)]; [exists r|exists q]; (split; [|done]); [by left|by right].
Qed.

Lemma spaced_weaken lo lo' l : lo' <= lo → spaced lo l → spaced lo' l.
Proof. destruct l; simpl; [done|]. intros ? (? & ? & ?). split_and!; [lia|done..]. Qed.
Lemma spaced_within lo l x : spaced lo l → within x l → lo < x.
Proof.
  revert lo. induction l as [|r l IH]; intros lo; [by rewrite within_nil|]. rewrite within_cons. intros (? & ? & H) [?|Hw]; [lia|]. specialize (IH _ H Hw). lia.
Qed.

(** The ranges taken in lie between the old and the new end. *)
Lemma absorb_ok l : ∀ lo end_, spaced lo l → lo <= end_ → end_ <= fst (absorb l end_) ∧ spaced (fst (absorb l end_)) (snd (absorb l end_)) ∧
  ∀ x, lo <= x → (x < fst (absorb l end_) ∨ within x (snd (absorb l end_))) ↔ (x < end_ ∨ within x l).
Proof.
  induction l as [|r l IH]; intros lo end_ Hs Hlo; simpl; [done|]. destruct Hs as (H1 & H2 & H3). destruct (Z.ltb_spec end_ (fst r)); simpl; [split_and!; [lia|lia|lia|done|done]|].
  set (e := if end_ <? snd r then snd r else end_). assert (end_ <= e ∧ snd r <= e ∧ (e = snd r ∨ e = end_)) as (He & Hr & Heq) by (unfold e; destruct (Z.ltb_spec end_ (snd r)); lia).
  destruct (IH (snd r) e H3 Hr) as (E1 & E2 & E3). split; [lia|]. split; [done|]. intros x Hx. rewrite within_cons. destruct (Z.le_gt_cases (snd r) x) as [Hc|Hc].
  - rewrite E3 by done. split; [intros [|]; [left; lia|by do 2 right]|intros [|[|]]; [left; lia|lia|by right]].
  - split; intros _; [destruct (Z.lt_ge_cases x end_); [by left|right; left; lia]|left; lia].
Qed.

Lemma add_range_ok l : ∀ lo start end_, spaced lo l → lo < start → start < end_ →
  spaced lo (add_range l start end_) ∧ ∀ x, within x (add_range l start end_) ↔ start <= x < end_ ∨ within x l.
Proof.
  induction l as [|r l IH]; intros lo start end_ Hs Hlo Hse; simpl; [split; [done|intros x; by rewrite within_cons]|]. destruct Hs as (H1 & H2 & H3).
  destruct (Z.ltb_spec end_ (fst r)); [split; [done|intros x; by rewrite within_cons]|]. destruct (Z.ltb_spec (snd r) start) as [Hb|Hb].
  - destruct (IH (snd r) start end_ H3 Hb Hse) as [E1 E2]. split; [done|]. intros x. rewrite !within_cons, E2. tauto.
  - set (a := if start <? fst r then start else fst r). assert (lo < a ∧ a <= start ∧ a <= fst r ∧ (a = start ∨ a = fst r)) as (? & ? & ? & ?) by (unfold a; destruct (Z.ltb_spec start (fst r)); lia).
    destruct (Z.ltb_spec (snd r) end_) as [Hc|Hc]; [|split; [simpl; split_and!; [done|lia|done]|]; intros x; rewrite !within_cons; simpl; split; [intros [|]; [destruct (Z.lt_ge_cases x (fst r)); [left; lia|right; left; lia]|tauto]|intros [|[|]]; [left; lia|left; lia|by right]]].
    destruct (absorb_ok l (snd r) end_ H3 (Z.lt_le_incl _ _ Hc)) as (E1 & E2 & E3). split; [simpl; split_and!; [done|lia|done]|]. intros x. rewrite !within_cons. simpl. destruct (Z.le_gt_cases (snd r) x) as [Hx|Hx].
    + assert (a <= x ∧ start <= x) as [? ?] by lia. destruct (E3 x Hx) as [F G]. split; [intros [|]; [destruct F; [left; lia|left; lia|tauto]|destruct F; [by right|left; lia|tauto]]|intros [|[|]]; [destruct G; [left; lia|left; lia|tauto]|lia|destruct G; [by right|left; lia|tauto]]].
    + split; [intros [|Hw]; [lia|]|intros [|[|Hw]]; [left; lia|left; lia|]]; [pose proof (spaced_within _ _ _ E2 Hw); lia|pose proof (spaced_within _ _ _ H3 Hw); lia].
Qed.

(** ** The loops *)

Lemma snoc_length {A} (l : list A) x : length (l ++ [x]) = S (length l).
Proof. rewrite length_app. simpl. lia. Qed.

Lemma merge_loop_ok l : ∀ pre b end_ s, stands b (pre ++ l) →
  wp (merge_loop (length l) b (length pre) end_) (λ q s', s' = s ∧ ∃ d, l = d ++ snd (absorb l end_) ∧ q = ((length pre + length d)%nat, fst (absorb l end_))) s.
Proof.
  induction l as [|x l IH]; intros pre b end_ s Hb; cbn [length merge_loop absorb]; [apply wp_ret; split; [done|]; exists []; by rewrite Nat.add_0_r|].
  apply wp_bind, (wp_buf_get _ _ l x); [done|]. destruct (end_ <? fst x); [apply wp_ret; split; [done|]; exists []; simpl; by rewrite Nat.add_0_r|].
  rewrite <-(snoc_length pre x). eapply wp_mono; [apply IH; by rewrite <-app_assoc|]. intros q s' [-> (d & Hd & ->)]. split; [done|]. exists (x :: d). split; [simpl; by f_equal|]. f_equal. rewrite snoc_length. simpl. lia.
Qed.

(** The list of an object. *)
Definition lists (c : ranges) (l : list range) : Prop := r_count c = length l ∧ stands (r_ranges c) l.

Lemma wp_get_ranges r c (Q : ranges → maps → Prop) s : m_ranges s !! r = Some c → Q c s → wp (get_ranges r) Q s.
Proof. intros Hc HQ. unfold get_ranges. apply wp_bind, wp_get. by apply (wp_deref _ c). Qed.

Lemma extend_loop_ok r start end_ l : ∀ pre c s, m_ranges s !! r = Some c → lists c (pre ++ l) →
  wp (extend_loop (length l) r (length pre) start end_) (λ q s', match q with
    | Some i => s' = s ∧ ∃ l1 l2, l = l1 ++ l2 ∧ i = (length pre + length l1)%nat ∧ add_range l start end_ = l1 ++ (start, end_) :: l2
    | None => (length (add_range l start end_) <= length l)%nat ∧
        ∃ c', s' = set_ranges (<[r:=c']>) s ∧ lists c' (pre ++ add_range l start end_) ∧ length (r_ranges c') = length (r_ranges c)
    end) s.
Proof.
  induction l as [|x l IH]; intros pre c s Hc [Hn Hb]; cbn [length extend_loop add_range]; [apply wp_ret; split; [done|]; exists [], []; by rewrite Nat.add_0_r|].
  apply wp_bind, (wp_get_ranges _ c); [done|]. apply wp_bind, (wp_buf_get _ _ l x); [done|].
  destruct (end_ <? fst x); [apply wp_ret; split; [done|]; exists [], (x :: l); simpl; by rewrite Nat.add_0_r|]. destruct (snd x <? start).
  - rewrite <-(snoc_length pre x). eapply wp_mono; [apply (IH _ c); [done|]; split; [by rewrite Hn, <-app_assoc|by rewrite <-app_assoc]|]. intros [i|] s'.
    + intros (-> & l1 & l2 & -> & -> & E). split; [done|]. exists (x :: l1), l2. rewrite snoc_length, E. simpl. split_and!; [done|lia|done].
    + intros (Hle & c' & -> & Hl & ?). split; [simpl; lia|]. exists c'. by rewrite <-app_assoc in Hl.
  - set (a := if start <? fst x then start else fst x). assert ((if start <? fst x then (start, snd x) else x) = (a, snd x)) as -> by (unfold a; destruct x; by destruct (start <? _)). cbn [fst snd].
    apply wp_bind, (wp_buf_set _ _ l x); [done|]. intros b Hb1 Hlen. destruct (snd x <? end_).
    + apply wp_bind. rewrite <-(snoc_length pre (a, snd x)). eapply wp_mono; [apply merge_loop_ok; by rewrite <-app_assoc|]. intros q ? [-> (d & Hd & ->)]. rewrite snoc_length.
      assert (length (snd (absorb l end_)) <= length l)%nat by (rewrite Hd at 2; rewrite length_app; lia).
      set (m := snd (absorb l end_)) in *. set (e := fst (absorb l end_)) in *. assert (r_count c = S (length pre) + length d + length m)%nat as Hcount by (rewrite Hn, Hd, !length_app; simpl; rewrite length_app; lia).
      destruct (S (length pre) <? S (length pre) + length d)%nat eqn:Ed.
      * replace (r_count c - (S (length pre) + length d))%nat with (length m) by lia. apply wp_bind. rewrite <-(snoc_length pre (a, snd x)). apply wp_memmove_down; [by rewrite <-app_assoc, <-Hd|]. intros b2 Hb2 Hlen2.
        rewrite <-app_assoc in Hb2. apply wp_bind, (wp_buf_set _ _ m (a, snd x)); [done|]. intros b3 Hb3 Hlen3. apply wp_bind, wp_modify, wp_ret. split; [simpl; lia|]. eexists. split; [done|]. split; [|simpl; congruence].
        split; [|done]. rewrite snoc_length. simpl. rewrite length_app. simpl. lia.
      * apply Nat.ltb_ge in Ed. assert (d = []) as -> by (destruct d; [done|simpl in Ed; lia]). apply wp_bind, (wp_buf_set _ _ m (a, snd x)); [by rewrite Hd in Hb1|]. intros b3 Hb3 Hlen3.
        apply wp_bind, wp_modify, wp_ret. split; [simpl; lia|]. eexists. split; [done|]. split; [|simpl; congruence]. split; [|done]. simpl. rewrite length_app. simpl in *. lia.
    + apply wp_bind, wp_modify, wp_ret. split; [done|]. eexists. split; [done|]. split; [|done]. split; [|done]. simpl. rewrite Hn, !length_app. done.
Qed.

(** ** The operations *)

(** The view and the positions in it have 64 bits. *)
Definition view_ok (v : memory_view) : Prop := 0 <= v_start v ∧ 0 <= v_size v ∧ v_start v + v_size v < 18446744073709551616.

(** The object has room and a list of ranges as described. *)
Definition committed (s : maps) (r : rid) (l : list range) : Prop := ∃ c, m_ranges s !! r = Some c ∧ lists c l ∧ spaced (-1) l ∧ (0 < length (r_ranges c))%nat.

Definition bad_range (v : memory_view) (start end_ : Z) : bool := has start page_mask || has end_ page_mask || (v_size v <=? start) || (v_size v <? end_) || (end_ <=? start).

(** The objects but for [r], and the addresses, are as they were. *)
Definition only_ranges (r : rid) (s s' : maps) : Prop :=
  (∀ q, q ≠ r → m_ranges s' !! q = m_ranges s !! q) ∧ ranges32 s' = ranges32 s ∧ ranges64 s' = ranges64 s ∧ m_addrs s' = m_addrs s ∧ m_error s' = m_error s.

Lemma only_ranges_set r c l s : only_ranges r s (set_ranges (<[r:=c]>) (set_m_allocs l s)).
Proof. split; [|done]. intros q Hq. simpl. by rewrite lookup_insert_ne. Qed.

(** The range neither meets nor touches one of [l], so that it needs an entry of its own. *)
Definition apart (l : list range) (start end_ : Z) : Prop := ∀ x, x ∈ l → snd x < start ∨ end_ < fst x.

Lemma spaced_fst lo l x : spaced lo l → x ∈ l → lo < fst x.
Proof.
  revert lo. induction l as [|y l IH]; intros lo; [by intros _ ?%not_elem_of_nil|].
  intros (? & ? & Hs) [->|Hx]%elem_of_cons; [lia|]. specialize (IH _ Hs Hx). lia.
Qed.

Lemma absorb_length l end_ : (length (snd (absorb l end_)) <= length l)%nat.
Proof.
  revert end_. induction l as [|x l IH]; intros end_; simpl; [lia|]. destruct (end_ <? fst x); simpl; [lia|].
  specialize (IH (if end_ <? snd x then snd x else end_)). lia.
Qed.

Lemma apart_length lo l start end_ : spaced lo l → apart l start end_ ↔ length (add_range l start end_) = S (length l).
Proof.
  revert lo. induction l as [|x l IH]; intros lo; simpl; [split; [done|]; by intros _ y ?%not_elem_of_nil|].
  intros (H1 & H2 & Hs). destruct (Z.ltb_spec end_ (fst x)); [|destruct (Z.ltb_spec (snd x) start)].
  - split; [done|]. intros _ y [->|Hy]%elem_of_cons; [lia|]. pose proof (spaced_fst _ _ _ Hs Hy). lia.
  - simpl. specialize (IH _ Hs). split.
    + intros Ha. f_equal. apply IH. intros y Hy. apply Ha. by right.
    + intros [= E]. apply IH in E. intros y [->|Hy]%elem_of_cons; [lia|auto].
  - split; [intros Ha; destruct (Ha x ltac:(by left)); lia|].
    pose proof (absorb_length l end_). destruct (snd x <? end_); simpl; lia.
Qed.

(** The array is full and there is no memory for a larger one. *)
Definition no_room (s : maps) (c : ranges) : Prop := r_count c = length (r_ranges c) ∧ head (m_allocs s) = Some false.

(** Room for one more range, if there is memory. *)
Lemma room_ok {B} (k : option (list (option range)) → M B) c l (Q : B → maps → Prop) s : lists c l → (0 < length (r_ranges c))%nat →
  (∀ b al, ¬ no_room s c → stands b l → (length l < length b)%nat → wp (k (Some b)) Q (set_m_allocs al s)) → (∀ al, no_room s c → wp (k None) Q (set_m_allocs al s)) →
  wp (b <- (if (r_count c =? length (r_ranges c))%nat then ok <- m_malloc; ret (if ok then Some (grow (r_ranges c) (length (r_ranges c) * 2)) else None) else ret (Some (r_ranges c))); k b) Q s.
Proof.
  intros [Hn Hb] H0 Hk Hno. apply wp_bind. destruct (Nat.eqb_spec (r_count c) (length (r_ranges c))) as [E|E].
  - assert (∀ al, ¬ no_room s c → wp (k (Some (grow (r_ranges c) (length (r_ranges c) * 2)))) Q (set_m_allocs al s)) as Hg
      by (intros al ?; apply Hk; [done|by apply stands_grow|rewrite grow_length by lia; lia]).
    apply wp_bind. unfold m_malloc. apply wp_bind, wp_get. destruct (m_allocs s) as [|ok al] eqn:Ea.
    + apply wp_ret, wp_ret. replace s with (set_m_allocs [] s) by (destruct s; simpl in *; by subst). apply Hg.
      intros [_ Hh]. by rewrite Ea in Hh.
    + apply wp_bind, wp_modify, wp_ret, wp_ret. destruct ok; [apply Hg; intros [_ Hh]; by rewrite Ea in Hh|].
      apply Hno. split; [done|]. by rewrite Ea.
  - apply wp_ret. replace s with (set_m_allocs (m_allocs s) s) by (by destruct s). apply Hk; [by intros [? _]|done|].
    apply stands_length in Hb. lia.
Qed.

Definition committed_to (v : memory_view) (r : rid) (l : list range) (start end_ : Z) (s s' : maps) : Prop :=
  only_ranges r s s' ∧
  ((apart l (v_start v + start) (v_start v + end_) ∧ (∃ c, m_ranges s !! r = Some c ∧ no_room s c)) ∧ committed s' r l ∨
   ¬ (apart l (v_start v + start) (v_start v + end_) ∧ (∃ c, m_ranges s !! r = Some c ∧ no_room s c)) ∧
   committed s' r (add_range l (v_start v + start) (v_start v + end_))).

Lemma add_committed_range_ok v r l start end_ s : v_committed v = Some r → view_ok v → committed s r l → 0 <= start → bad_range v start end_ = false →
  wp (add_committed_range v start end_) (λ _ s', committed_to v r l start end_ s s') s.
Proof.
  intros Hv (Hv1 & Hv2 & Hv3) (c & Hc & Hl & Hsp & H0) Hst Hbad. unfold add_committed_range. fold (bad_range v start end_). rewrite Hbad, Hv. unfold bad_range in Hbad.
  apply orb_false_iff in Hbad as [[[_ ?%Z.leb_gt]%orb_false_iff ?%Z.ltb_ge]%orb_false_iff ?%Z.leb_gt]. unfold u64. rewrite !Z.mod_small by lia.
  unfold committed_to. rewrite (Z.add_comm (v_start v) start), (Z.add_comm (v_start v) end_).
  destruct (add_range_ok l (-1) (start + v_start v) (end_ + v_start v)) as [Hsp' _]; [done|lia|lia|]. set (st := start + v_start v) in *. set (e := end_ + v_start v) in *.
  pose proof (apart_length (-1) l st e Hsp) as Hap.
  apply wp_bind, (wp_get_ranges _ c); [done|]. rewrite (proj1 Hl). apply wp_bind. eapply wp_mono; [apply (extend_loop_ok r st e l [] c); done|]. intros [i|] s'.
  - intros (-> & l1 & l2 & -> & -> & E). rewrite E in Hap, Hsp'. apply wp_bind, (wp_get_ranges _ c); [done|]. apply (room_ok _ c (l1 ++ l2)); [done|done| |].
    + intros b al Hroom Hb Hlen. cbn [Nat.add length]. rewrite (proj1 Hl), length_app. replace (length l1 + length l2 - length l1)%nat with (length l2) by lia.
      eapply wp_bind2; [apply (wp_buf_insert _ l1 l2 (st, e) (λ b' s', stands b' (l1 ++ (st, e) :: l2) ∧ length b' = length b ∧ s' = set_m_allocs al s)); [done|done|]; intros b' ? ?; done|].
      intros b' s' (Hb' & Hlen' & ->). apply wp_modify. split; [apply only_ranges_set|right]. split.
      { intros (_ & c2 & Hc2 & Hno). simplify_eq. done. }
      exists (Ranges (S (length l1 + length l2)) b'). split; [simpl; by rewrite lookup_insert_eq|]. rewrite E.
      split; [split; [simpl; rewrite length_app; simpl; lia|done]|]. split; [done|]. simpl. lia.
    + intros al Hno. apply wp_ret. split; [by split|left]. split; [split; [apply Hap; rewrite !length_app; simpl; lia|by exists c]|]. by exists c.
  - intros (Hle & c' & -> & Hl' & Hlen). apply wp_ret. split; [replace s with (set_m_allocs (m_allocs s) s) at 2 by (by destruct s); apply only_ranges_set|right].
    split; [intros [Ha _]; apply Hap in Ha; lia|]. exists c'. simpl. rewrite lookup_insert_eq, Hlen. done.
Qed.

(** When the new range is not recorded. *)
Definition lost (v : memory_view) (r : rid) (l : list range) (start end_ : Z) (s : maps) : Prop :=
  Forall (λ x, snd x < v_start v + start ∨ v_start v + end_ < fst x) l ∧
  match m_ranges s !! r with
  | Some c => r_count c = length (r_ranges c) ∧ head (m_allocs s) = Some false
  | None => False
  end.

#[export] Instance lost_dec v r l start end_ s : Decision (lost v r l start end_ s).
Proof. unfold lost. destruct (m_ranges s !! r); apply _. Defined.

Lemma lost_spec v r l start end_ s : lost v r l start end_ s ↔
  apart l (v_start v + start) (v_start v + end_) ∧ ∃ c, m_ranges s !! r = Some c ∧ no_room s c.
Proof.
  unfold lost, apart, no_room. rewrite Forall_forall. apply and_iff_compat_l.
  destruct (m_ranges s !! r) as [c|]; [|naive_solver]. split; [eauto|]. by intros (c' & [= <-] & H).
Qed.

(** The size of the largest run from [pos] on, up to [limit], in which all bytes are in the
    set or all are not. *)
Definition run_of (l : list range) (pos limit : Z) (c : bool) (size : Z) : Prop :=
  0 < size <= limit - pos ∧ (∀ y, pos <= y < pos + size → within y l ↔ c = true) ∧ (pos + size < limit → within (pos + size) l ↔ c = false).

Lemma run_of_nil pos limit : pos < limit → run_of [] pos limit false (limit - pos).
Proof. intros H. split; [lia|]. split; [intros y _; by rewrite within_nil|lia]. Qed.

Lemma run_of_skip x l pos limit c size : snd x <= pos → run_of l pos limit c size → run_of (x :: l) pos limit c size.
Proof.
  intros Hx (H1 & H2 & H3). split; [done|]. split; [intros y Hy|intros Hy]; rewrite within_cons; [rewrite <-H2 by done|rewrite <-H3 by done]; (split; [|tauto]); intros [|]; try tauto; lia.
Qed.

Lemma run_of_gap lo x l pos limit : spaced lo (x :: l) → pos < fst x → pos < limit → run_of (x :: l) pos limit false (Z.min (fst x) limit - pos).
Proof.
  intros (H1 & H2 & H3) Hp Hl. split; [lia|]. split; [intros y Hy|intros Hy]; rewrite within_cons.
  - split; [|done]. intros [|Hw]; [lia|]. pose proof (spaced_within _ _ _ H3 Hw). lia.
  - split; [done|]. intros _. left. lia.
Qed.

Lemma run_of_in lo x l pos limit : spaced lo (x :: l) → fst x <= pos < snd x → pos < limit → run_of (x :: l) pos limit true (Z.min (snd x) limit - pos).
Proof.
  intros (H1 & H2 & H3) Hp Hl. split; [lia|]. split; [intros y Hy|intros Hy]; rewrite within_cons.
  - split; [done|]. intros _. left. lia.
  - split; [|done]. intros [|Hw]; [lia|]. pose proof (spaced_within _ _ _ H3 Hw). lia.
Qed.

Lemma find_loop_ok v start l : view_ok v → 0 <= start < v_size v → ∀ pre lo b s, stands b (pre ++ l) → spaced lo l →
  wp (find_loop (length l) b (length pre) v start) (λ q s', s' = s ∧ run_of l (v_start v + start) (v_start v + v_size v) (fst q) (snd q)) s.
Proof.
  intros (Hv1 & Hv2 & Hv3) Hst. induction l as [|x l IH]; intros pre lo b s Hb Hs; cbn [length find_loop].
  - apply wp_ret. split; [done|]. cbn [fst snd]. replace (u64 (v_size v - start)) with (v_start v + v_size v - (v_start v + start)) by (unfold u64; rewrite Z.mod_small; lia). apply run_of_nil. lia.
  - apply wp_bind, (wp_buf_get _ _ l x); [done|]. assert (u64 (v_start v + start) = v_start v + start ∧ u64 (v_start v + v_size v) = v_start v + v_size v) as [-> ->] by (unfold u64; rewrite !Z.mod_small by lia; done).
    destruct (Z.ltb_spec (v_start v + start) (fst x)) as [Ha|Ha]; [|destruct (Z.ltb_spec (v_start v + start) (snd x)) as [Hc|Hc]].
    + apply wp_ret. split; [done|]. cbn [fst snd]. unfold u64. rewrite Z.mod_small by lia. apply (run_of_gap lo); [done|done|lia].
    + apply wp_ret. split; [done|]. cbn [fst snd]. unfold u64. rewrite Z.mod_small by lia. apply (run_of_in lo); [done|done|lia].
    + rewrite <-(snoc_length pre x). eapply wp_mono; [apply (IH _ (snd x)); [by rewrite <-app_assoc|apply Hs]|]. intros q s' [-> H]. split; [done|]. by apply run_of_skip.
Qed.

(** * Properties of committed ranges (server/mapping.c) *)

(** A section of 64 pages, the view behind its first 16 pages, and two committed ranges. *)
Definition demo_view : memory_view := View (Some 1%positive) 196608 65536.
Definition demo_ranges : maps :=
  Maps {[1%positive := Ranges 2 ([Some (65536, 69632); Some (77824, 81920)] ++ replicate 6 None)]} (AddrRange 0 []) (AddrRange 0 []) ∅ 0 [].

Lemma demo_committed : committed demo_ranges 1 [(65536, 69632); (77824, 81920)].
Proof.
  eexists. split; [reflexivity|]. split; [split; [done|]; by exists (replicate 6 None)|]. split; [simpl; lia|]. simpl. lia.
Qed.

(** C33: Committing a range of a view, with whatever memory.  A range that is not
    aligned, empty or not in the view is an error and changes nothing else.
    Otherwise the set of committed bytes of the section becomes the union with the
    range, whatever ranges it touches, joins or contains, except in one case: when the
    range touches none of those there, the array is full and its reallocation fails,
    the set stays as it was, without an error.  The ranges stay in order with gaps
    between them, and no access leaves the buffer. *)
Theorem add_committed_range_spec v r l start end_ s : v_committed v = Some r → view_ok v → committed s r l → 0 <= start →
  ∃ s', add_committed_range v start end_ s = Done tt s' ∧
    if bad_range v start end_ then s' = set_m_error ST_INVALID_PARAMETER s
    else only_ranges r s s' ∧ ∃ l', committed s' r l' ∧
      (if bool_decide (lost v r l start end_ s) then ∀ x, within x l' ↔ within x l
       else ∀ x, within x l' ↔ v_start v + start <= x < v_start v + end_ ∨ within x l).
Proof.
  intros Hv Hok Hc Hst. destruct (bad_range v start end_) eqn:Hb.
  - exists (set_m_error ST_INVALID_PARAMETER s). split; [|done]. unfold add_committed_range. fold (bad_range v start end_). by rewrite Hb.
  - destruct (wp_run _ _ _ (add_committed_range_ok v r l start end_ s Hv Hok Hc Hst Hb)) as ([] & s' & E & Ho & Hcase). exists s'. split; [done|]. split; [done|].
    rewrite <-!lost_spec in Hcase. destruct Hcase as [[Hlost Hc']|[Hlost Hc']]; [rewrite bool_decide_true by done; by exists l|rewrite bool_decide_false by done].
    eexists. split; [exact Hc'|]. destruct Hc as (c & _ & _ & Hsp & _). unfold bad_range in Hb. apply orb_false_iff in Hb as [_ Hb%Z.leb_gt]. destruct Hok as (? & _).
    intros x. by rewrite (proj2 (add_range_ok l (-1) (v_start v + start) (v_start v + end_) Hsp ltac:(lia) ltac:(lia)) x).
Qed.

(** The pages between the two ranges are committed. *)
Lemma add_committed_range_spec_witness : ∃ s' l', add_committed_range demo_view 4096 12288 demo_ranges = Done tt s' ∧ committed s' 1 l' ∧ within 70000 l' ∧ ¬ within 81920 l'.
Proof.
  destruct (add_committed_range_spec demo_view 1 [(65536, 69632); (77824, 81920)] 4096 12288 demo_ranges eq_refl) as (s' & E & H); [by vm_compute|exact demo_committed|lia|].
  assert (bad_range demo_view 4096 12288 = false) as Hb by reflexivity. rewrite Hb in H.
  assert (bool_decide (lost demo_view 1 [(65536, 69632); (77824, 81920)] 4096 12288 demo_ranges) = false) as Hlost by reflexivity.
  rewrite Hlost in H. destruct H as (_ & l' & Hc & Hl). exists s', l'. split_and!; [exact E|exact Hc| |]; rewrite Hl; simpl; [lia|].
  rewrite !within_cons, within_nil. simpl. lia.
Defined.

(** For a page of a view the answer is whether its first byte is committed, with the size of the
    largest run of bytes from there to the end of the view that are all committed,
    or all not. *)
Theorem find_committed_range_spec v r l start s : v_committed v = Some r → view_ok v → committed s r l → 0 <= start →
  ∃ c size s', find_committed_range v start s = Done (c, size) s' ∧
    if has start page_mask || (v_size v <=? start) then c = false ∧ size = None ∧ s' = set_m_error ST_INVALID_PARAMETER s
    else s' = s ∧ ∃ n, size = Some n ∧ run_of l (v_start v + start) (v_start v + v_size v) c n.
Proof.
  intros Hv Hok (cc & Hc & [Hn Hb] & Hsp & _) Hst. unfold find_committed_range. destruct (has start page_mask || (v_size v <=? start)) eqn:Hbad; [by eexists _, _, _|]. rewrite Hv. apply orb_false_iff in Hbad as [_ Hlt%Z.leb_gt].
  assert (wp (c <- get_ranges r; q <- find_loop (r_count c) (r_ranges c) 0 v start; ret (fst q, Some (snd q)))
    (λ q s', s' = s ∧ ∃ n, snd q = Some n ∧ run_of l (v_start v + start) (v_start v + v_size v) (fst q) n) s) as Hwp.
  { apply wp_bind, (wp_get_ranges _ cc); [done|]. rewrite Hn. apply wp_bind. eapply wp_mono; [apply (find_loop_ok v start l Hok ltac:(lia) [] (-1)); [done|done]|]. intros q s' [-> H]. apply wp_ret. split; [done|]. by exists (snd q). }
  destruct (wp_run _ _ _ Hwp) as ([c sz] & s' & E & -> & n & Hsz & Hr). simpl in *. exists c, sz, s. split; [exact E|]. split; [done|]. by exists n.
Qed.

Lemma find_committed_range_spec_witness : ∃ n, find_committed_range demo_view 4096 demo_ranges = Done (false, Some n) demo_ranges ∧ run_of [(65536, 69632); (77824, 81920)] 69632 262144 false n.
Proof.
  destruct (find_committed_range_spec demo_view 1 [(65536, 69632); (77824, 81920)] 4096 demo_ranges eq_refl ltac:(by vm_compute) demo_committed ltac:(lia)) as (c & size & s' & E & H).
  assert (has 4096 page_mask || (v_size demo_view <=? 4096) = false) as Hb by reflexivity. rewrite Hb in H. destruct H as (-> & n & -> & Hr). exists n. vm_compute in E. injection E as <- <-. split; [reflexivity|exact Hr].
Defined.

(** When the array is full and there is no memory for a larger one, a range is not
    recorded and no error is set: the client is told that its pages are committed. *)
Theorem commit_lost : ∃ s v s', v_committed v = Some 1%positive ∧ view_ok v ∧ (∃ l, committed s 1 l ∧ ¬ within 69632 l) ∧ m_error s = 0 ∧
  req_add_committed_range v 69632 4096 s = Done tt s' ∧ m_error s' = 0 ∧ find_committed_range v 69632 s' = Done (false, Some 4096) s'.
Proof.
  set (l := (λ i : Z, (i * 8192, i * 8192 + 4096)) <$> [0; 1; 2; 3; 4; 5; 6; 7]).
  exists (Maps {[1%positive := Ranges 8 (Some <$> l)]} (AddrRange 0 []) (AddrRange 0 []) ∅ 0 [false]), (View (Some 1%positive) 73728 0). eexists.
  split; [reflexivity|]. split; [by vm_compute|]. split.
  - exists l. split; [|unfold l; simpl; rewrite !within_cons, within_nil; simpl; lia]. eexists. split; [reflexivity|]. split; [split; [done|]; exists []; by rewrite app_nil_r|]. split; [simpl; lia|simpl; lia].
  - split; [reflexivity|]. split; [vm_compute; reflexivity|]. split; [reflexivity|vm_compute; reflexivity].
Qed.
