(* ===== verification/MapAddrInv.v ===== *)
(** * The free addresses of images as a list

    The arrays of free address ranges of server/mapping.c stand for lists, from the
    highest range to the lowest; [assign_map_address] cuts a block from the end
    of the first range that is large enough and [free_map_addr] puts one back.
    Then the loops and the invariant of the address ranges. *)

From stdpp Require Import base list gmap fin_maps.
From S2P Require Import Prelude MemRange MemRangeSpecs.

Open Scope Z_scope.
Open Scope server_scope.

(** ** Lists of blocks *)

(** A block is its base and its size. *)
Notation block := (Z * Z)%type (only parsing).

(** Blocks in falling order with gaps between them, before [hi]; some may be empty. *)
Fixpoint below (hi : Z) (l : list block) : Prop :=
  match l with [] => True | x :: l => 0 <= fst x ∧ 0 <= snd x ∧ fst x + snd x < hi ∧ below (fst x) l end.

Definition in_block (p : Z) (x : block) : Prop := fst x <= p < fst x + snd x.
Definition free_at (p : Z) (l : list block) : Prop := ∃ x, x ∈ l ∧ in_block p x.
Definition clear_of (b x : block) : Prop := fst b + snd b <= fst x ∨ fst x + snd x <= fst b.
Definition inside (t x : block) : Prop := fst t <= fst x ∧ 0 <= snd x ∧ fst x + snd x <= fst t + snd t.
Definition aligned (x : block) : Prop := (65536 | fst x) ∧ (65536 | snd x).

Lemma free_at_nil p : free_at p [] ↔ False.
Proof. split; [|done]. by intros (x & ?%elem_of_nil & _). Qed.
Lemma free_at_cons p x l : free_at p (x :: l) ↔ in_block p x ∨ free_at p l.
Proof.
  split; [intros (q & [->|Hq]%elem_of_cons & H); [by left|right; by exists q]|]. intros [H|(q & Hq & H)]; [exists x|exists q]; (split; [|done]); [by left|by right].
Qed.
Lemma below_weaken hi hi' l : hi <= hi' → below hi l → below hi' l.
Proof. destruct l; simpl; [done|]. intros ? (? & ? & ? & ?). split_and!; [done|done|lia|done]. Qed.
Lemma below_free hi l p : below hi l → free_at p l → p < hi.
Proof.
  revert hi. induction l as [|x l IH]; intros hi; [by rewrite free_at_nil|]. rewrite free_at_cons. intros (? & ? & ? & H) [Hp|Hf]; [unfold in_block in Hp; lia|]. specialize (IH _ H Hf). lia.
Qed.

(** ** Putting a block back *)

Fixpoint give_back (l : list block) (base size : Z) : list block :=
  match l with
  | [] => [(base, size)]
  | x :: k =>
      if base + size <? fst x then x :: give_back k base size
      else if fst x + snd x <? base then (base, size) :: l
      else if fst x =? base + size then
        match k with
        | y :: k' => if fst y + snd y =? base then (fst y, snd y + (size + snd x)) :: k' else (base, snd x + size) :: k
        | [] => [(base, snd x + size)]
        end
      else (fst x, snd x + size) :: k
  end.

(** What holds of two blocks side by side holds of both as one. *)
Definition joins (P : block → Prop) : Prop := ∀ a m n, 0 <= m → 0 <= n → P (a, m) → P (a + m, n) → P (a, m + n).

Lemma joins_clear b : 0 < snd b → joins (clear_of b).
Proof. intros Hb a m n Hm Hn. unfold clear_of. simpl. lia. Qed.
Lemma joins_inside t : joins (inside t).
Proof. intros a m n Hm Hn. unfold inside. simpl. lia. Qed.
Lemma joins_aligned : joins aligned.
Proof. intros a m n _ _ [H1 H2] [_ H3]. split; [done|]. simpl in *. by apply Z.divide_add_r. Qed.

(** The case of a block that joins the first range. *)
Lemma give_back_join P hi x k base size : joins P → below hi (x :: k) → 0 < size → clear_of (base, size) x → Forall P (x :: k) → P (base, size) →
  fst x <= base + size → base <= fst x + snd x → fst x ≠ base + size → (fst x + snd x = base) ∧ P (fst x, snd x + size).
Proof.
  intros HP (H1 & H2 & H3 & H4) Hs Hc [Hx Hk]%Forall_cons HB Ha Hb Hne. unfold clear_of in Hc. simpl in Hc. assert (fst x + snd x = base) as E by lia. split; [done|]. apply HP; [lia|lia|by destruct x|by rewrite E].
Qed.

Lemma give_back_all P l : joins P → ∀ hi base size, below hi l → 0 < size → Forall (clear_of (base, size)) l → Forall P l → P (base, size) → Forall P (give_back l base size).
Proof.
  intros HP. induction l as [|x k IH]; intros hi base size Hb Hs Hc Hl HB; cbn [give_back]; [by constructor|]. pose proof Hb as (H1 & H2 & H3 & H4). pose proof Hc as [Hc1 Hc2]%Forall_cons. pose proof Hl as [Hx Hk]%Forall_cons.
  destruct (Z.ltb_spec (base + size) (fst x)); [constructor; [done|by apply (IH (fst x))]|]. destruct (Z.ltb_spec (fst x + snd x) base); [by constructor|].
  destruct (Z.eqb_spec (fst x) (base + size)) as [E|E].
  - assert (P (base, size + snd x)) as Hj by (apply HP; [lia|lia|done|rewrite <-E; by destruct x]). destruct k as [|y k]; [constructor; [by rewrite Z.add_comm|done]|]. destruct H4 as (? & ? & ? & ?).
    destruct (Z.eqb_spec (fst y + snd y) base) as [F|F]; [|constructor; [by rewrite Z.add_comm|done]]. apply Forall_cons in Hk as [Hy Hk]. constructor; [|done]. apply HP; [lia|lia|by destruct y|by rewrite F].
  - constructor; [|done]. by destruct (give_back_join P hi x k base size).
Qed.

Lemma give_back_below l : ∀ hi base size, below hi l → 0 <= base → 0 < size → base + size < hi → Forall (clear_of (base, size)) l →
  below hi (give_back l base size) ∧ ∀ p, free_at p (give_back l base size) ↔ in_block p (base, size) ∨ free_at p l.
Proof.
  induction l as [|x k IH]; intros hi base size Hb H0 Hs Hhi Hc; cbn [give_back]; [split; [simpl; split_and!; (done || lia)|intros p; by rewrite free_at_cons]|]. pose proof Hb as (H1 & H2 & H3 & H4). pose proof Hc as [Hc1 Hc2]%Forall_cons.
  unfold clear_of in Hc1. simpl in Hc1. destruct (Z.ltb_spec (base + size) (fst x)).
  - destruct (IH (fst x) base size H4 H0 Hs) as [E1 E2]; [lia|done|]. split; [done|]. intros p. rewrite !free_at_cons, E2. tauto.
  - destruct (Z.ltb_spec (fst x + snd x) base); [split; [simpl; split_and!; (done || lia)|intros p; by rewrite !free_at_cons]|]. destruct (Z.eqb_spec (fst x) (base + size)) as [E|E].
    + assert (∀ k', below base k' → below hi ((base, snd x + size) :: k') ∧ ∀ p, free_at p ((base, snd x + size) :: k') ↔ in_block p (base, size) ∨ free_at p (x :: k')) as Hj.
      { intros k' Hk'. split; [simpl; split_and!; [done|lia|lia|done]|]. intros p. rewrite !free_at_cons. unfold in_block. simpl. split; [intros [|]; [destruct (Z.lt_ge_cases p (fst x)); [left; lia|right; left; lia]|tauto]|intros [|[|]]; [left; lia|left; lia|by right]]. }
      destruct k as [|y k]; [by apply Hj|]. destruct H4 as (? & ? & ? & Hk). destruct (Z.eqb_spec (fst y + snd y) base) as [F|F].
      * split; [simpl; split_and!; [done|lia|lia|done]|]. intros p. rewrite !free_at_cons. unfold in_block. simpl.
        split; [intros [|]; [destruct (Z.lt_ge_cases p base); [right; right; left; lia|destruct (Z.lt_ge_cases p (fst x)); [left; lia|right; left; lia]]|tauto]|intros [|[|[|]]]; [left; lia|left; lia|left; lia|by right]].
      * apply Hj. simpl. split_and!; [done|done| |done]. apply Forall_cons in Hc2 as [Hy _]. unfold clear_of in Hy. simpl in Hy. lia.
    + assert (fst x + snd x = base) by lia. split; [simpl; split_and!; [done|lia|lia|done]|]. intros p. rewrite !free_at_cons. unfold in_block. simpl.
      split; [intros [|]; [destruct (Z.lt_ge_cases p base); [right; left; lia|left; lia]|tauto]|intros [|[|]]; [left; lia|left; lia|by right]].
Qed.

(** ** Taking a block *)

Fixpoint cut_block (l : list block) (size : Z) : option (Z * list block) :=
  match l with
  | [] => None
  | x :: k =>
      if snd x <? size then match cut_block k size with Some (a, k') => Some (a, x :: k') | None => None end
      else Some (fst x + (snd x - size), (fst x, snd x - size) :: k)
  end.

Lemma cut_none l size : cut_block l size = None → Forall (λ x, snd x < size) l.
Proof.
  induction l as [|x k IH]; cbn [cut_block]; [constructor|]. destruct (Z.ltb_spec (snd x) size); [|done]. destruct (cut_block k size) as [[a k']|]; [done|]. intros _. constructor; [done|by apply IH].
Qed.

(** What holds of a range holds of its first part. *)
Lemma cut_block_ok l size a l' : 0 < size → cut_block l size = Some (a, l') → ∀ hi, below hi l →
  below hi l' ∧ Forall (clear_of (a, size)) l' ∧ (∀ p, free_at p l ↔ in_block p (a, size) ∨ free_at p l') ∧ a + size < hi ∧
  ∃ l1 l2 b m, l = l1 ++ (b, m) :: l2 ∧ l' = l1 ++ (b, m - size) :: l2 ∧ a = b + (m - size) ∧ size <= m.
Proof.
  intros Hs. revert a l'. induction l as [|x k IH]; intros a l'; cbn [cut_block]; [done|]. intros E hi (H1 & H2 & H3 & H4). destruct (Z.ltb_spec (snd x) size).
  - destruct (cut_block k size) as [[b k']|]; [|done]. injection E as -> <-. destruct (IH a k' eq_refl (fst x) H4) as (E1 & E2 & E3 & E4 & l1 & l2 & b & m & -> & -> & ? & ?). split; [done|]. split; [constructor; [left; simpl; lia|done]|].
    split; [intros p; rewrite (free_at_cons p x), E3, (free_at_cons p x); tauto|]. split; [lia|]. by exists (x :: l1), l2, b, m.
  - injection E as <- <-. split; [simpl; split_and!; [done|lia|lia|done]|]. split.
    { constructor; [right; simpl; lia|]. apply Forall_forall. intros y Hy. right. assert (∀ hi l, below hi l → y ∈ l → fst y + snd y < hi) as Hlt.
      { clear. intros hi l. revert hi. induction l as [|z l IH]; intros hi Hb Hy; [by apply elem_of_nil in Hy|]. destruct Hb as (? & ? & ? & Hb). apply elem_of_cons in Hy as [->|Hy]; [done|]. specialize (IH _ Hb Hy). lia. }
      specialize (Hlt _ _ H4 Hy). simpl. lia. }
    split; [intros p; rewrite !free_at_cons; unfold in_block; simpl; split; [intros [|]; [destruct (Z.lt_ge_cases p (fst x + (snd x - size))); [right; left; lia|left; lia]|tauto]|intros [|[|]]; [left; lia|left; lia|by right]]|].
    split; [lia|]. exists [], k, (fst x), (snd x). by destruct x.
Qed.

(** All of the space is free again: one range. *)
Lemma one_block l t hi : 0 < snd t → below hi l → Forall (inside t) l → (∀ p, free_at p l ↔ in_block p t) → l = [t].
Proof.
  intros Ht Hb Hin Hp. destruct l as [|x [|y k]].
  - exfalso. apply (free_at_nil (fst t)), Hp. unfold in_block. lia.
  - apply Forall_singleton in Hin as (H1 & H2 & H3). assert (in_block (fst t) x ∧ in_block (fst t + snd t - 1) x) as [[? ?] [? ?]].
    { split; [assert (free_at (fst t) [x]) as Hf by (apply Hp; unfold in_block; lia)|assert (free_at (fst t + snd t - 1) [x]) as Hf by (apply Hp; unfold in_block; lia)]; rewrite free_at_cons, free_at_nil in Hf; tauto. }
    destruct x, t. simpl in *. f_equal. f_equal; lia.
  - exfalso. destruct Hb as (? & ? & ? & ? & ? & ? & Hk). apply Forall_cons in Hin as [(Hx1 & Hx2 & Hx3) [(? & ? & ?) _]%Forall_cons].
    assert (free_at (fst y + snd y) (x :: y :: k)) as Hf by (apply Hp; unfold in_block; lia). rewrite !free_at_cons in Hf. unfold in_block in Hf. destruct Hf as [|[|Hf]]; [lia|lia|]. pose proof (below_free _ _ _ Hk Hf). lia.
Qed.

(** * Addresses of images: the loops and the invariant *)

(** ** The loops *)

Definition addr_lists (a : addr_range) (l : list block) : Prop := ar_count a = length l ∧ stands (ar_free a) l.

Definition B64 : Z := 18446744073709551616.
Lemma u64_small x : 0 <= x < B64 → u64 x = x.
Proof. apply Z.mod_small. Qed.

Lemma addr_set_eq h a s : addr_of h (set_addr h a s) = a.
Proof. by destruct h. Qed.
Lemma addr_set_other h k a s : h ≠ k → addr_of k (set_addr h a s) = addr_of k s.
Proof. by destruct h, k. Qed.

Lemma assign_loop_ok high f size z l : 0 < size < B64 → ∀ pre hi s, hi <= B64 → addr_lists (addr_of high s) (pre ++ l) → below hi l → m_addrs s !! f = Some (0, z) →
  wp (assign_loop (length l) high (length pre) f size) (λ a s', match cut_block l size with
    | None => a = 0 ∧ s' = s
    | Some (addr, l') => a = addr ∧ ∃ a', addr_lists a' (pre ++ l') ∧ s' = set_addrs (<[f:=(addr, size)]>) (set_addr high a' s)
    end) s.
Proof.
  intros Hsz. induction l as [|x k IH]; intros pre hi s Hhi [Hn Hb] Hl Hf; cbn [length assign_loop cut_block]; [by apply wp_ret|]. destruct Hl as (H1 & H2 & H3 & H4).
  apply wp_bind, wp_get. apply wp_bind, (wp_buf_get _ _ k x); [done|]. destruct (Z.ltb_spec (snd x) size).
  - rewrite <-(snoc_length pre x). eapply wp_mono; [apply (IH _ (fst x)); [lia|by split; [rewrite Hn, <-app_assoc|rewrite <-app_assoc]|done|done]|]. intros a s'. destruct (cut_block k size) as [[addr l']|]; [|done].
    intros (-> & a' & Ha & ->). split; [done|]. exists a'. by rewrite <-app_assoc in Ha.
  - apply wp_bind, (wp_buf_set _ _ k x); [done|]. intros b Hb' Hlen. rewrite (u64_small (snd x - size)) in * by lia. rewrite (u64_small (fst x + (snd x - size))) by lia.
    apply wp_bind, wp_modify. apply wp_bind. unfold set_fd_map_address. apply wp_bind, wp_get. apply wp_bind, (wp_deref _ (0, z)); [by destruct high|]. apply wp_bind, wp_assert; [done|]. apply wp_modify, wp_ret.
    split; [done|]. eexists. split; [|done]. split; [|done]. simpl. rewrite Hn, !length_app. done.
Qed.

Lemma free_loop_ok high base size l : 0 <= base → 0 < size → base + size < B64 → ∀ pre hi s, hi <= B64 → addr_lists (addr_of high s) (pre ++ l) → below hi l → Forall (clear_of (base, size)) l →
  wp (free_loop (length l) high (length pre) base size) (λ q s', match q with
    | Some i => s' = s ∧ ∃ l1 l2, l = l1 ++ l2 ∧ i = (length pre + length l1)%nat ∧ give_back l base size = l1 ++ (base, size) :: l2
    | None => ∃ a', s' = set_addr high a' s ∧ addr_lists a' (pre ++ give_back l base size)
    end) s.
Proof.
  intros H0 Hsz Hend. induction l as [|x k IH]; intros pre hi s Hhi [Hn Hb] Hl Hc; cbn [length free_loop give_back]; [apply wp_ret; split; [done|]; exists [], []; by rewrite Nat.add_0_r|].
  destruct Hl as (H1 & H2 & H3 & H4). apply Forall_cons in Hc as [Hc1 Hc2]. unfold clear_of in Hc1. simpl in Hc1. apply wp_bind, wp_get. apply wp_bind, (wp_buf_get _ _ k x); [done|].
  rewrite (u64_small (base + size)), (u64_small (fst x + snd x)) by lia. destruct (Z.ltb_spec (base + size) (fst x)).
  - rewrite <-(snoc_length pre x). eapply wp_mono; [apply (IH _ (fst x)); [lia|by split; [rewrite Hn, <-app_assoc|rewrite <-app_assoc]|done|done]|]. intros [i|] s'.
    + intros (-> & l1 & l2 & -> & -> & E). split; [done|]. exists (x :: l1), l2. rewrite snoc_length, E. simpl. split_and!; [done|lia|done].
    + intros (a' & -> & Ha). exists a'. by rewrite <-app_assoc in Ha.
  - destruct (Z.ltb_spec (fst x + snd x) base); [apply wp_ret; split; [done|]; exists [], (x :: k); simpl; by rewrite Nat.add_0_r|].
    assert (∀ y, y = u64 (snd x + size) → fst x = base + size ∨ fst x + snd x = base → y = snd x + size) as Hu by (intros y -> ?; apply u64_small; lia).
    assert (Hput : ∀ y k', stands (ar_free (addr_of high s)) (pre ++ x :: k') → length k' = length k → wp (b <- buf_set (ar_free (addr_of high s)) (length pre) y; modify (set_addr high (AddrRange (ar_count (addr_of high s)) b)) ;; ret @None nat)
      (λ q s', match q with Some i => False | None => ∃ a', s' = set_addr high a' s ∧ addr_lists a' (pre ++ y :: k') end) s).
    { intros y k' Hk' Hlen. apply wp_bind, (wp_buf_set _ _ k' x); [done|]. intros b Hb' _. apply wp_bind, wp_modify, wp_ret. eexists. split; [done|]. split; [|done]. simpl. rewrite Hn, !length_app. simpl. lia. }
    destruct (Z.eqb_spec (fst x) (base + size)) as [E|E].
    + rewrite (Hu _ eq_refl) by lia. destruct k as [|y k].
      * rewrite Hn, length_app. simpl length. rewrite (proj2 (Nat.ltb_ge _ _)) by lia. apply wp_bind, wp_ret. replace (length pre + 1)%nat with (ar_count (addr_of high s)) by (rewrite Hn, length_app; done). eapply wp_mono; [by apply (Hput _ [])|]. by intros [i|] s' H'.
      * destruct H4 as (? & ? & ? & ?). rewrite Hn, length_app. cbn [length]. rewrite (proj2 (Nat.ltb_lt _ _)) by lia. apply wp_bind, wp_bind. rewrite <-(snoc_length pre x) at 1. apply (wp_buf_get _ _ k y); [by rewrite <-app_assoc|]. apply wp_ret.
        rewrite (u64_small (fst y + snd y)) by lia. destruct (Z.eqb_spec (fst y + snd y) base) as [F|F].
        -- rewrite (u64_small (size + snd x)) by lia. apply wp_bind. replace (length pre + S (S (length k)) - 1 - length pre)%nat with (length (y :: k)) by (simpl; lia).
           replace (S (length pre)) with (length pre + length [x])%nat by (simpl; lia). apply wp_memmove_down; [done|]. intros b Hb1 _. apply wp_bind, (wp_buf_get _ _ k y); [done|]. rewrite (u64_small (snd y + (size + snd x))) by lia.
           apply wp_bind, (wp_buf_set _ _ k y); [done|]. intros b2 Hb2 _. apply wp_bind, wp_modify, wp_ret. eexists. split; [done|]. split; [|done]. simpl. rewrite length_app. simpl. lia.
        -- replace (length pre + S (S (length k)))%nat with (ar_count (addr_of high s)) by (rewrite Hn, length_app; done). eapply wp_mono; [by apply (Hput _ (y :: k))|]. by intros [i|] s' H'.
    + rewrite (Hu _ eq_refl) by lia. eapply wp_mono; [by apply (Hput _ k)|]. by intros [i|] s' H'.
Qed.

(** ** The operations *)

(** The objects other than the array of one half. *)
Record only_addr (h : bool) (s s' : maps) : Prop := {
  oa_other : ∀ k, k ≠ h → addr_of k s' = addr_of k s;
  oa_addrs : m_addrs s' = m_addrs s;
  oa_allocs : m_allocs s = [] → m_allocs s' = [];
}.

Lemma only_addr_set h a al s : (m_allocs s = [] → al = []) → only_addr h s (set_addr h a (set_m_allocs al s)).
Proof. intros H. destruct h; (split; [by intros []|done|done]). Qed.

Definition high_of (base : Z) : bool := negb (Z.shiftr base 32 =? 0).

Lemma set_allocs_id s : set_m_allocs (m_allocs s) s = s.
Proof. by destruct s. Qed.

(** Room for one more range, if there is memory. *)
Lemma free_room_ok {C} (k : option (list (option block)) → M C) h l (Q : C → maps → Prop) s : addr_lists (addr_of h s) l →
  (∀ b al, stands b l → (length l < length b)%nat → (m_allocs s = [] → al = []) → wp (k (Some b)) Q (set_m_allocs al s)) →
  (∀ al, false ∈ m_allocs s → wp (k None) Q (set_m_allocs al s)) →
  wp (b <- (if (ar_count (addr_of h s) =? length (ar_free (addr_of h s)))%nat
            then ok <- m_malloc; ret (if ok then Some (grow (ar_free (addr_of h s)) (Nat.max 256 (length (ar_free (addr_of h s)) * 2))) else None)
            else ret (Some (ar_free (addr_of h s)))); k b) Q s.
Proof.
  intros [Hn Hb] Hk Hno. set (a := addr_of h s) in *. apply wp_bind. destruct (Nat.eqb_spec (ar_count a) (length (ar_free a))) as [E|E].
  - assert (∀ al, (m_allocs s = [] → al = []) → wp (k (Some (grow (ar_free a) (Nat.max 256 (length (ar_free a) * 2))))) Q (set_m_allocs al s)) as Hg by (intros al Hal; apply Hk; [by apply stands_grow|rewrite grow_length by lia; lia|done]).
    apply wp_bind. unfold m_malloc. apply wp_bind, wp_get. destruct (m_allocs s) as [|ok al] eqn:Ea.
    + apply wp_ret, wp_ret. rewrite <-(set_allocs_id s), Ea. by apply Hg.
    + apply wp_bind, wp_modify, wp_ret, wp_ret. destruct ok; [by apply Hg|apply Hno; by left].
  - apply wp_ret. rewrite <-(set_allocs_id s). apply Hk; [done| |done]. apply stands_length in Hb. lia.
Qed.

Lemma free_map_addr_ok base size l s : 0 <= base → 0 < size → base + size < B64 → addr_lists (addr_of (high_of base) s) l → below B64 l → Forall (clear_of (base, size)) l →
  wp (free_map_addr base size) (λ _ s', only_addr (high_of base) s s' ∧
    (addr_lists (addr_of (high_of base) s') (give_back l base size) ∨ false ∈ m_allocs s ∧ addr_lists (addr_of (high_of base) s') l)) s.
Proof.
  intros H0 Hs He Hl Hb Hc. unfold free_map_addr. fold (high_of base). set (h := high_of base) in *. apply wp_bind, wp_get. rewrite (proj1 Hl). apply wp_bind.
  eapply wp_mono; [by apply (free_loop_ok h base size l H0 Hs He [] B64)|]. intros [i|] s'.
  - intros (-> & l1 & l2 & -> & -> & E). apply wp_bind, wp_get. apply (free_room_ok _ h (l1 ++ l2)); [done| |].
    + intros b al Hb' Hlen Hal. cbn [Nat.add length]. rewrite (proj1 Hl), length_app. replace (length l1 + length l2 - length l1)%nat with (length l2) by lia.
      eapply wp_bind2; [apply (wp_buf_insert _ l1 l2 (base, size) (λ b' s', stands b' (l1 ++ (base, size) :: l2) ∧ s' = set_m_allocs al s)); [done|done|]; intros b' ? ?; done|].
      intros b' s' (Hb2 & ->). apply wp_modify. split; [by apply only_addr_set|left]. rewrite E, addr_set_eq. split; [|done]. simpl. rewrite length_app. simpl. lia.
    + intros al Hf. apply wp_ret. split; [destruct h; (split; [by intros []|done|intros Ha; rewrite Ha in Hf; by apply elem_of_nil in Hf])|right]. split; [done|]. by destruct h.
  - intros (a' & -> & Ha). apply wp_ret. split; [rewrite <-(set_allocs_id s) at 2; by apply only_addr_set|left]. by rewrite addr_set_eq.
Qed.

Lemma round_size_ok n : 0 <= n < 9223372036854775808 → round_size n granularity_mask = (n + 65535) / 65536 * 65536.
Proof.
  intros Hn. unfold round_size, granularity_mask. rewrite u64_small by (unfold B64; lia). change (Z.lxor 18446744073709551615 65535) with (Z.shiftl (Z.ones 48) 16).
  apply Z.bits_inj'. intros i Hi. rewrite Z.land_spec, Z.shiftl_spec by done. change 65536 with (2 ^ 16). rewrite <-Z.shiftr_div_pow2, <-Z.shiftl_mul_pow2, Z.shiftl_spec by lia.
  destruct (Z.lt_ge_cases i 16); [rewrite !(Z.testbit_neg_r _ (i - 16)) by lia; apply andb_false_r|]. rewrite Z.shiftr_spec by lia. replace (i - 16 + 16) with i by lia. rewrite Z.testbit_ones_nonneg by lia.
  destruct (Z.ltb_spec (i - 16) 48); [apply andb_true_r|]. rewrite andb_false_r. symmetry. apply Z.bits_above_log2; [lia|]. apply Z.log2_lt_pow2; [lia|]. apply Z.lt_le_trans with (2 ^ 64); [lia|]. apply Z.pow_le_mono_r; lia.
Qed.

(** The size of the block for a mapping: rounded up, and a gap. *)
Definition block_size (n : Z) : Z := (n + 65535) / 65536 * 65536 + 65536.

Lemma block_size_ok n : 0 <= n < 9223372036854775808 → u64 (round_size n granularity_mask + (granularity_mask + 1)) = block_size n ∧ n + 65536 <= block_size n < B64 ∧ (65536 | block_size n).
Proof.
  intros Hn. pose proof (Z.div_mod (n + 65535) 65536 ltac:(lia)). pose proof (Z.mod_pos_bound (n + 65535) 65536 ltac:(lia)). rewrite round_size_ok by done. unfold block_size, B64, granularity_mask. split_and!; [apply u64_small; unfold B64; lia|lia|lia|].
  apply Z.divide_add_r; [apply Z.divide_factor_r|apply Z.divide_refl].
Qed.

Lemma assign_map_address_ok m z l s : has (mp_image_charact m) IMAGE_FILE_DLL = true → 0 <= mp_size m < 9223372036854775808 → m_addrs s !! mp_fd m = Some (0, z) →
  addr_lists (addr_of (high_of (mp_image_base m)) s) l → below B64 l →
  wp (assign_map_address m) (λ a s', match cut_block l (block_size (mp_size m)) with
    | None => a = 0 ∧ s' = s
    | Some (addr, l') => a = addr ∧ ∃ a', addr_lists a' l' ∧ s' = set_addrs (<[mp_fd m:=(addr, block_size (mp_size m))]>) (set_addr (high_of (mp_image_base m)) a' s)
    end) s.
Proof.
  intros Hd Hsz Hf Hl Hb. unfold assign_map_address. rewrite Hd. cbn [negb]. apply wp_bind. unfold get_fd_map_address. apply wp_bind, wp_get. rewrite Hf. apply wp_ret. cbn [fst Z.eqb negb].
  destruct (block_size_ok _ Hsz) as (-> & ? & _). fold (high_of (mp_image_base m)). apply wp_bind, wp_get. rewrite (proj1 Hl). apply (assign_loop_ok _ _ (block_size (mp_size m)) z l ltac:(lia) [] B64); done.
Qed.

(** ** The invariant *)

Definition space (h : bool) : block := if h then (105553116266496, 17592186044416) else (1610612736, 469762048).

Definition has_addr (s : maps) (f : mfd) (b : block) : Prop := m_addrs s !! f = Some b ∧ fst b ≠ 0.

Record addr_inv (L : bool → list block) (s : maps) : Prop := {
  ai_list : ∀ h, addr_lists (addr_of h s) (L h);
  ai_below : ∀ h, below B64 (L h);
  ai_free : ∀ h, Forall (λ x, inside (space h) x ∧ aligned x) (L h);
  ai_block : ∀ f b, has_addr s f b → 0 < snd b ∧ aligned b ∧ ∃ h, inside (space h) b ∧ Forall (clear_of b) (L h);
  ai_apart : ∀ f g b c, f ≠ g → has_addr s f b → has_addr s g c → clear_of b c;
}.

(** Every address is free or in the block of a descriptor. *)
Definition no_leak (L : bool → list block) (s : maps) : Prop := ∀ h p, in_block p (space h) → free_at p (L h) ∨ ∃ f b, has_addr s f b ∧ in_block p b.

Lemma space_apart h k b x : h ≠ k → inside (space h) b → inside (space k) x → clear_of b x.
Proof. intros Hne (H1 & H2 & H3) (H4 & H5 & H6). unfold clear_of. destruct h, k; [done| | |done]; simpl in *; lia. Qed.

(** The half of a block. *)
Lemma inside_high h b : inside (space h) b → 0 < snd b → high_of (fst b) = h.
Proof.
  intros (H1 & H2 & H3) Hb. unfold high_of. rewrite Z.shiftr_div_pow2 by lia. change (2 ^ 32) with 4294967296. destruct h; simpl in *.
  - apply negb_true_iff, Z.eqb_neq. pose proof (Z.div_mod (fst b) 4294967296 ltac:(lia)). pose proof (Z.mod_pos_bound (fst b) 4294967296 ltac:(lia)). lia.
  - apply negb_false_iff, Z.eqb_eq, Z.div_small. lia.
Qed.

(** Descriptors change, but no addresses. *)
Lemma addr_inv_fds L s s' : (∀ h, addr_of h s' = addr_of h s) → (∀ f b, has_addr s' f b → has_addr s f b) → addr_inv L s → addr_inv L s'.
Proof.
  intros Ha Hf [H1 H2 H3 H4 H5]. split; [intros h; by rewrite Ha|done|done| |]; [intros f b ?%Hf; eauto|intros f g b c ? ?%Hf ?%Hf; eauto].
Qed.
