(* ===== verification/MapAddrSpecs.v ===== *)
(** * Properties of the addresses of images (server/mapping.c)

    Descriptors are opened, the images of their files get addresses, and the descriptors are closed, in
    any order. *)

From stdpp Require Import base list gmap fin_maps.
From S2P Require Import Prelude MemRange MemRangeSpecs MapAddrInv.

Open Scope Z_scope.
Open Scope server_scope.

(** ** The steps *)

Inductive map_op :=
  | op_open (f : mfd)
  | op_assign (m : mapping)
  | op_destroy (f : mfd).

Definition map_enabled (s : maps) (op : map_op) : Prop :=
  match op with
  | op_open f => m_addrs s !! f = None
  | op_assign m => is_Some (m_addrs s !! mp_fd m) ∧ 0 <= mp_size m < 9223372036854775808
  | op_destroy f => is_Some (m_addrs s !! f)
  end.

Definition map_op_run (op : map_op) : M unit :=
  match op with
  | op_open f => modify (set_addrs (<[f := (0, 0)]>))
  | op_assign m => a <- assign_map_address m; ret tt
  | op_destroy f => destroy_map_addr f
  end.
Definition map_step (s s' : maps) : Prop := ∃ op, map_enabled s op ∧ map_op_run op s = Done tt s'.

(** The list of one half is another. *)
Definition upd (h : bool) (l : list block) (L : bool → list block) : bool → list block := λ k, if bool_decide (k = h) then l else L k.
Lemma upd_eq h l L : upd h l L h = l.
Proof. unfold upd. by rewrite bool_decide_true. Qed.
Lemma upd_ne h k l L : k ≠ h → upd h l L k = L k.
Proof. intros. unfold upd. by rewrite bool_decide_false. Qed.

(** The invariant after a step, and that no address is lost if there is memory. *)
Definition step_post (L : bool → list block) (s s' : maps) : Prop :=
  ∃ L', addr_inv L' s' ∧ (m_allocs s = [] → m_allocs s' = [] ∧ (no_leak L s → no_leak L' s')).

Lemma clear_sym b x : clear_of b x → clear_of x b.
Proof. unfold clear_of. lia. Qed.

(** A block of another descriptor is clear of the list of a half. *)
Lemma other_clear L s f b h : addr_inv L s → has_addr s f b → Forall (clear_of b) (L h).
Proof.
  intros Hi Hf. destruct (ai_block _ _ Hi f b Hf) as (_ & _ & k & Hk & Hc). destruct (decide (k = h)) as [<-|Hne]; [done|]. eapply Forall_impl; [apply (ai_free _ _ Hi h)|]. intros x [Hx _]. by apply (space_apart k h).
Qed.

Lemma has_addr_delete s f g c : has_addr (set_addrs (delete f) s) g c ↔ f ≠ g ∧ has_addr s g c.
Proof. unfold has_addr. simpl. rewrite lookup_delete_Some. tauto. Qed.

(** ** Giving an address back *)

Lemma give_back_inv L s s' f b h : addr_inv L s → has_addr s f b → inside (space h) b →
  (∀ k, k ≠ h → addr_of k s' = addr_of k s) → addr_lists (addr_of h s') (give_back (L h) (fst b) (snd b)) → m_addrs s' = delete f (m_addrs s) → addr_inv (upd h (give_back (L h) (fst b) (snd b)) L) s'.
Proof.
  intros Hi Hf Hin Hother Hl Hd. destruct (ai_block _ _ Hi f b Hf) as (Hpos & Hal & _). pose proof (other_clear _ _ _ _ h Hi Hf) as Hc. rewrite (surjective_pairing b) in Hc.
  assert (∀ g c, has_addr s' g c → g ≠ f ∧ has_addr s g c) as Hh by (intros g c [Hg ?]; rewrite Hd in Hg; apply lookup_delete_Some in Hg as [? ?]; done).
  assert (0 <= fst b ∧ fst b + snd b < B64) as [? ?] by (destruct Hin as (? & ? & ?); unfold B64; destruct h; simpl in *; lia).
  split.
  - intros k. destruct (decide (k = h)) as [->|?]; [by rewrite upd_eq|]. rewrite upd_ne, Hother by done. apply Hi.
  - intros k. destruct (decide (k = h)) as [->|?]; [rewrite upd_eq; by apply give_back_below; [apply Hi|..]|]. rewrite upd_ne by done. apply Hi.
  - intros k. destruct (decide (k = h)) as [->|?]; [rewrite upd_eq|rewrite upd_ne by done; apply Hi]. apply (give_back_all _ _) with B64; [|apply Hi|done|done|apply Hi|by destruct b].
    intros a m n ? ? [? ?] [? ?]. split; [by apply joins_inside|by apply joins_aligned].
  - intros g c [Hne Hg]%Hh. destruct (ai_block _ _ Hi g c Hg) as (Hc1 & Hc2 & k & Hk & Hck). split; [done|]. split; [done|]. exists k. split; [done|]. destruct (decide (k = h)) as [->|?]; [rewrite upd_eq|by rewrite upd_ne].
    apply (give_back_all _ _ (joins_clear c Hc1)) with B64; [apply Hi|done|done|done|]. rewrite <-(surjective_pairing b). by apply (ai_apart _ _ Hi g f).
  - intros g g' c d Hne [_ Hg]%Hh [_ Hg']%Hh. by apply (ai_apart _ _ Hi g g').
Qed.

Lemma destroy_addr_ok L s f b : addr_inv L s → m_addrs s !! f = Some b → wp (destroy_map_addr f) (λ _ s', step_post L s s') s.
Proof.
  intros Hi Hf. unfold destroy_map_addr. apply wp_bind, wp_get. apply wp_bind, (wp_deref _ b); [done|]. destruct (Z.eqb_spec (fst b) 0) as [E|E]; cbn [negb].
  - apply wp_bind, wp_ret, wp_modify. exists L. split; [apply (addr_inv_fds L s); [done|by intros g c [_ ?]%has_addr_delete|done]|]. intros Ha. split; [done|]. intros Hn h p [?|(g & c & [Hg Hc] & ?)]%Hn; [by left|right].
    exists g, c. split; [|done]. apply has_addr_delete. split; [intros <-; congruence|done].
  - assert (has_addr s f b) as Hh by done. destruct (ai_block _ _ Hi f b Hh) as (Hpos & _ & h & Hin & Hc). pose proof (inside_high _ _ Hin Hpos) as Eh. pose proof (other_clear _ _ _ _ h Hi Hh) as Hc'. rewrite (surjective_pairing b) in Hc'.
    assert (0 <= fst b ∧ fst b + snd b < B64) as [? ?] by (destruct Hin as (? & ? & ?); unfold B64; destruct h; simpl in *; lia).
    apply wp_bind. eapply wp_mono; [apply (free_map_addr_ok (fst b) (snd b) (L h)); [done|done|done|rewrite Eh; apply Hi|apply Hi|done]|]. rewrite Eh. intros ? s' [Ho Hl]. apply wp_modify. destruct Hl as [Hl|[Hfalse Hl]].
    + exists (upd h (give_back (L h) (fst b) (snd b)) L). split; [apply (give_back_inv L s _ f); [done|done|done|apply Ho|done|simpl; by rewrite (oa_addrs _ _ _ Ho)]|].
      intros Ha. split; [by apply Ho|]. intros Hn k p Hp. destruct (give_back_below (L h) B64 (fst b) (snd b)) as [_ Hfree]; [apply Hi|done|done|done|done|]. assert (∀ g c, f ≠ g → has_addr s g c → has_addr (set_addrs (delete f) s') g c) as Hk.
      { intros g c Hne Hg. apply has_addr_delete. split; [done|]. destruct Hg. split; [|done]. by rewrite (oa_addrs _ _ _ Ho). }
      destruct (Hn k p Hp) as [Hfr|(g & c & Hg & Hc2)]; [left; destruct (decide (k = h)) as [->|?]; [rewrite upd_eq; apply Hfree; by right|by rewrite upd_ne]|].
      destruct (decide (f = g)) as [<-|Hne]; [left|right; by exists g, c; split; [apply Hk|]]. assert (c = b) as -> by (destruct Hg as [Hg _]; congruence).
      destruct (decide (k = h)) as [->|Hne]; [rewrite upd_eq; apply Hfree; by left|]. exfalso. destruct Hin as (? & ? & ?). unfold in_block in *. destruct h, k; try done; simpl in *; lia.
    + exists L. split; [|intros Ha; rewrite Ha in Hfalse; by apply elem_of_nil in Hfalse]. split; [|apply Hi|apply Hi| |].
      * intros k. destruct (decide (k = h)) as [->|Hne]; [done|]. simpl. change (addr_of k (set_addrs (delete f) s')) with (addr_of k s'). rewrite (oa_other _ _ _ Ho) by done. apply Hi.
      * intros g c [_ [Hg ?]]%has_addr_delete. rewrite (oa_addrs _ _ _ Ho) in Hg. by apply (ai_block _ _ Hi g).
      * intros g g' c d Hne [_ [Hg ?]]%has_addr_delete [_ [Hg' ?]]%has_addr_delete. rewrite (oa_addrs _ _ _ Ho) in Hg, Hg'. by apply (ai_apart _ _ Hi g g').
Qed.

(** ** Taking an address *)

Lemma cut_inv L s s' f z h size addr l' a' : addr_inv L s → m_addrs s !! f = Some (0, z) → 0 < size < B64 → (65536 | size) → cut_block (L h) size = Some (addr, l') →
  addr_lists a' l' → s' = set_addrs (<[f:=(addr, size)]>) (set_addr h a' s) → addr_inv (upd h l' L) s' ∧ has_addr s' f (addr, size) ∧ inside (space h) (addr, size) ∧ (no_leak L s → no_leak (upd h l' L) s').
Proof.
  intros Hi Hf Hsz Hdiv Hcut Ha ->. destruct (cut_block_ok _ _ _ _ (proj1 Hsz) Hcut B64 (ai_below _ _ Hi h)) as (Hb & Hcl & Hfree & Hlt & l1 & l2 & b & m & El & -> & -> & Hm). set (addr := b + (m - size)) in *.
  pose proof (ai_free _ _ Hi h) as HL. rewrite El in HL. apply Forall_app in HL as [HL1 [[Hin [Hal1 Hal2]] HL2]%Forall_cons]. simpl in Hal1, Hal2.
  assert (inside (space h) (addr, size)) as Hnew by (destruct Hin as (? & ? & ?); unfold inside; simpl in *; lia). assert (addr ≠ 0) as Hne0 by (destruct Hnew as (? & ? & ?); destruct h; simpl in *; lia).
  set (s' := set_addrs _ _). assert (∀ g c, has_addr s' g c ↔ (g = f ∧ c = (addr, size)) ∨ g ≠ f ∧ has_addr s g c) as Hh.
  { intros g c. unfold has_addr, s'. simpl. replace (m_addrs (set_addr h a' s)) with (m_addrs s) by (by destruct h). rewrite lookup_insert_Some. split; [intros [[[<- <-]|[? ?]] ?]; [by left|right; split; [congruence|done]]|]. intros [[-> ->]|(? & ? & ?)]; [split; [by left|done]|split; [right; split; [congruence|done]|done]]. }
  assert (∀ g c, has_addr s g c → clear_of c (b, m) ∧ Forall (clear_of c) (l1 ++ l2)) as Hold.
  { intros g c Hg. pose proof (other_clear _ _ _ _ h Hi Hg) as Hc. rewrite El in Hc. apply Forall_app in Hc as [? [? ?]%Forall_cons]. split; [done|]. by apply Forall_app. }
  split; [split|split; [apply Hh; by left|split; [done|]]].
  - intros k. destruct (decide (k = h)) as [->|?]; [by rewrite upd_eq; destruct h|]. rewrite upd_ne by done. unfold s'. change (addr_of k (set_addrs ?g ?t)) with (addr_of k t). rewrite addr_set_other by done. apply Hi.
  - intros k. destruct (decide (k = h)) as [->|?]; [by rewrite upd_eq|]. rewrite upd_ne by done. apply Hi.
  - intros k. destruct (decide (k = h)) as [->|?]; [rewrite upd_eq|rewrite upd_ne by done; apply Hi]. apply Forall_app. split; [done|]. constructor; [|done]. destruct Hin as (? & ? & ?). split; [unfold inside; simpl in *; lia|]. split; [done|]. by apply Z.divide_sub_r.
  - intros g c [[-> ->]|[Hne Hg]]%Hh.
    + split; [simpl; lia|]. split; [split; simpl; [apply Z.divide_add_r; [done|by apply Z.divide_sub_r]|done]|]. exists h. by rewrite upd_eq.
    + destruct (ai_block _ _ Hi g c Hg) as (? & ? & k & Hk & Hc). split; [done|]. split; [done|]. exists k. split; [done|]. destruct (decide (k = h)) as [->|?]; [rewrite upd_eq|by rewrite upd_ne].
      destruct (Hold _ _ Hg) as [Hbm [H1 H2]%Forall_app]. apply Forall_app. split; [done|]. constructor; [|done]. unfold clear_of in *. simpl in *. lia.
  - assert (∀ g c, has_addr s g c → clear_of c (addr, size)) as Hx by (intros g c Hg; destruct (Hold _ _ Hg) as [Hbm _]; unfold clear_of in *; simpl in *; lia).
    intros g g' c d Hne [[-> ->]|[? Hg]]%Hh [[-> ->]|[? Hg']]%Hh; [done|by apply clear_sym, (Hx g')|by apply (Hx g)|by apply (ai_apart _ _ Hi g g')].
  - intros Hn k p [Hfr|(g & c & [Hg Hg0] & Hp)]%Hn.
    + destruct (decide (k = h)) as [->|?]; [|left; by rewrite upd_ne]. rewrite upd_eq. apply Hfree in Hfr as [?|?]; [right|by left]. exists f, (addr, size). split; [apply Hh; by left|done].
    + right. exists g, c. split; [|done]. apply Hh. right. split; [|done]. intros ->. rewrite Hf in Hg. by injection Hg as <-.
Qed.

Lemma assign_ok L s m : addr_inv L s → map_enabled s (op_assign m) → wp (assign_map_address m) (λ _ s', step_post L s s') s.
Proof.
  intros Hi [[[a z] Hf] Hsz]. assert (step_post L s s) as Hsame by (by exists L). destruct (has (mp_image_charact m) IMAGE_FILE_DLL) eqn:Hd; [|unfold assign_map_address; rewrite Hd; by apply wp_ret].
  destruct (Z.eqb_spec a 0) as [->|Ha].
  - set (h := high_of (mp_image_base m)). eapply wp_mono; [apply (assign_map_address_ok m z (L h)); [done|done|done|apply Hi|apply Hi]|]. intros a s'. destruct (cut_block _ _) as [[addr l']|] eqn:E; [|by intros [_ ->]]. intros (-> & a' & Hl & Es).
    destruct (block_size_ok _ Hsz) as (_ & ? & ?). destruct (cut_inv L s s' (mp_fd m) z h (block_size (mp_size m)) addr l' a') as (H1 & _ & _ & H2); [done|done|lia|done|done|done|done|]. exists (upd h l' L). split; [done|]. intros Hal. split; [|done]. rewrite Es; unfold h. by destruct (high_of (mp_image_base m)).
  - unfold assign_map_address. rewrite Hd. cbn [negb]. apply wp_bind. unfold get_fd_map_address. apply wp_bind, wp_get. rewrite Hf. apply wp_ret. simpl fst. rewrite (proj2 (Z.eqb_neq a 0)) by done. by apply wp_ret.
Qed.

Lemma map_op_ok L s op : addr_inv L s → map_enabled s op → wp (map_op_run op) (λ _ s', step_post L s s') s.
Proof.
  intros Hi Hen. destruct op as [f|m|f]; cbn [map_op_run].
  - apply wp_modify. exists L. assert (∀ g c, has_addr (set_addrs (<[f:=(0, 0)]>) s) g c ↔ has_addr s g c) as Hh.
    { intros g c. unfold has_addr. simpl. rewrite lookup_insert_Some. simpl in Hen. split; [intros [[[<- <-]|[? ?]] ?]; done|]. intros [Hg ?]. split; [|done]. right. split; [intros <-; congruence|done]. }
    split; [apply (addr_inv_fds L s); [done|by intros g c ?%Hh|done]|]. intros Ha. split; [done|]. intros Hn k p [?|(g & c & ? & ?)]%Hn; [by left|right]. exists g, c. split; [by apply Hh|done].
  - apply wp_bind. eapply wp_mono; [by apply (assign_ok L)|]. intros a s' H. by apply wp_ret.
  - destruct Hen as [b Hb]. by apply (destroy_addr_ok L s f b).
Qed.

(** ** The start of the server *)

Definition no_maps : maps := Maps ∅ (AddrRange 0 []) (AddrRange 0 []) ∅ 0 [].
Definition booted (al : list bool) : maps := match init_memory no_maps with Done _ s => set_m_allocs al s | Fault _ => no_maps end.

Lemma booted_inv al : addr_inv (λ h, [space h]) (booted al) ∧ no_leak (λ h, [space h]) (booted al) ∧ m_allocs (booted al) = al.
Proof.
  assert (∀ f b, ¬ has_addr (booted al) f b) as Hno by (intros f b [Hf _]; vm_compute in Hf; by destruct f). split; [|split; [|reflexivity]].
  - split.
    + intros h. split; [by destruct h; vm_compute|]. exists (replicate 255 None). destruct h; vm_compute; reflexivity.
    + intros []; vm_compute; split_and!; done || discriminate.
    + intros h. constructor; [|constructor]. split; [destruct h; vm_compute; split_and!; discriminate|]. split; (apply Z.mod_divide; [lia|]); destruct h; vm_compute; reflexivity.
    + intros f b []%Hno.
    + intros f g b c _ []%Hno.
  - intros h p Hp. left. apply free_at_cons. by left.
Qed.

Lemma map_steps_ok al s : rtc map_step (booted al) s → ∃ L, addr_inv L s ∧ (al = [] → m_allocs s = [] ∧ no_leak L s).
Proof.
  intros H. apply rtc_ind_r with (P := λ s, ∃ L, addr_inv L s ∧ (al = [] → m_allocs s = [] ∧ no_leak L s)) in H; [done| |].
  - destruct (booted_inv al) as (H1 & H2 & H3). eexists. split; [exact H1|]. intros ->. done.
  - intros s1 s2 _ (op & Hen & E) (L & Hi & Hal). pose proof (map_op_ok L s1 op Hi Hen) as Hwp. unfold wp in Hwp. rewrite E in Hwp. destruct Hwp as (L' & Hi' & Hp). exists L'. split; [done|]. intros Ha. destruct (Hal Ha) as [H1 H2]. destruct (Hp H1). auto.
Qed.

(** ** Properties *)

(** C34: However descriptors are opened, given addresses and closed, and whatever allocations
    fail, every operation runs to its end without an access outside an array, and the address ranges
    of two open descriptors never overlap; each is aligned to 64K and inside one of the
    two areas the server started with. *)
Theorem image_addresses_apart al s : rtc map_step (booted al) s →
  (∀ f g b c, f ≠ g → has_addr s f b → has_addr s g c → clear_of b c) ∧ (∀ f b, has_addr s f b → 0 < snd b ∧ aligned b ∧ ∃ h, inside (space h) b) ∧ ∀ op, map_enabled s op → ∃ s', map_op_run op s = Done tt s'.
Proof.
  intros (L & Hi & _)%map_steps_ok. split; [apply Hi|]. split.
  - intros f b Hf. destruct (ai_block _ _ Hi f b Hf) as (? & ? & h & ? & _). eauto.
  - intros op Hen. destruct (wp_run _ _ _ (map_op_ok L s op Hi Hen)) as ([] & s' & E & _). by exists s'.
Qed.

(** Two DLLs of 100000 bytes, one of them for the upper area. *)
Definition demo_dll (f : mfd) (base : Z) : mapping := Mapping f 100000 base IMAGE_FILE_DLL.
Definition demo_map_ops : list map_op := [op_open 1; op_open 2; op_assign (demo_dll 1 0); op_assign (demo_dll 2 0); op_destroy 1; op_open 3; op_assign (demo_dll 3 6442450944)].
Definition map_enabledb (s : maps) (op : map_op) : bool :=
  match op with
  | op_open f => bool_decide (m_addrs s !! f = None)
  | op_assign m => bool_decide (is_Some (m_addrs s !! mp_fd m)) && (0 <=? mp_size m) && (mp_size m <? 9223372036854775808)
  | op_destroy f => bool_decide (is_Some (m_addrs s !! f))
  end.
Fixpoint run_map_ops (ops : list map_op) (s : maps) : option maps :=
  match ops with
  | [] => Some s
  | op :: ops => if map_enabledb s op then match map_op_run op s with Done _ s => run_map_ops ops s | Fault _ => None end else None
  end.

Lemma run_map_steps ops : ∀ s s', run_map_ops ops s = Some s' → rtc map_step s s'.
Proof.
  induction ops as [|op ops IH]; intros s s' H; cbn [run_map_ops] in H; [injection H as <-; done|]. destruct (map_enabledb s op) eqn:He; [|done]. destruct (map_op_run op s) as [[] s1|] eqn:E; [|done].
  eapply rtc_l; [exists op; split; [|exact E]|by apply IH]. destruct op; simpl in *; [by apply bool_decide_eq_true in He| |by apply bool_decide_eq_true in He].
  by apply andb_true_iff in He as [[?%bool_decide_eq_true ?%Z.leb_le]%andb_true_iff ?%Z.ltb_lt].
Qed.

Definition demo_maps : maps := default no_maps (run_map_ops demo_map_ops (booted [])).
Lemma demo_map_steps : rtc map_step (booted []) demo_maps.
Proof. apply (run_map_steps demo_map_ops). vm_compute. reflexivity. Qed.

Lemma image_addresses_apart_witness : has_addr demo_maps 2 (2079981568, 196608) ∧ (∃ b, has_addr demo_maps 3 b) ∧ (∀ b, has_addr demo_maps 3 b → clear_of (2079981568, 196608) b).
Proof.
  destruct (image_addresses_apart [] demo_maps demo_map_steps) as (H & _ & _). assert (has_addr demo_maps 2 (2079981568, 196608)) as H2 by (split; [vm_compute; reflexivity|discriminate]). split; [exact H2|]. split.
  - eexists. split; [vm_compute; reflexivity|discriminate].
  - intros b Hb. exact (H 2%positive 3%positive _ b ltac:(discriminate) H2 Hb).
Defined.

(** C35: If no allocation fails, every address of the two areas is free or belongs to an
    open descriptor at all times, and when all descriptors with an address are closed each
    area is a single free range again: the ranges given back are joined with their
    neighbours, in whatever order. *)
Theorem addresses_returned s : rtc map_step (booted []) s →
  ∃ L, (∀ h, addr_lists (addr_of h s) (L h)) ∧ (∀ h p, in_block p (space h) → free_at p (L h) ∨ ∃ f b, has_addr s f b ∧ in_block p b) ∧ ((∀ f b, ¬ has_addr s f b) → ∀ h, L h = [space h]).
Proof.
  intros (L & Hi & Hal)%map_steps_ok. destruct (Hal eq_refl) as [_ Hn]. exists L. split; [apply Hi|]. split; [done|]. intros Hno h. apply (one_block _ _ B64); [by destruct h|apply Hi| |].
  - eapply Forall_impl; [apply (ai_free _ _ Hi h)|]. by intros x [? _].
  - intros p. split; [|intros [?|(f & b & []%Hno & _)]%Hn; done]. intros (x & Hx & Hp). pose proof (ai_free _ _ Hi h) as HF. rewrite Forall_forall in HF. destruct (HF x Hx) as [(? & ? & ?) _]. unfold in_block in *. lia.
Qed.

Definition demo_closed : maps := default no_maps (run_map_ops (demo_map_ops ++ [op_destroy 3; op_destroy 2]) (booted [])).

Lemma addresses_returned_witness : addr_lists (ranges32 demo_closed) [space false] ∧ addr_lists (ranges64 demo_closed) [space true].
Proof.
  destruct (addresses_returned demo_closed) as (L & H1 & _ & H2); [apply (run_map_steps (demo_map_ops ++ [op_destroy 3; op_destroy 2])); vm_compute; reflexivity|].
  assert (∀ h, L h = [space h]) as HL by (apply H2; intros f b [Hf _]; vm_compute in Hf; by destruct f). rewrite <-!HL. exact (conj (H1 false) (H1 true)).
Defined.

(** An address is refused only when no free range of the area holds the size of the
    image, rounded up to 64K, and 64K more; the block that is assigned is the end of a free
    range and is free no more. *)
Theorem assign_map_address_spec L m z s : addr_inv L s → has (mp_image_charact m) IMAGE_FILE_DLL = true → 0 <= mp_size m < 9223372036854775808 → m_addrs s !! mp_fd m = Some (0, z) →
  ∃ a s', assign_map_address m s = Done a s' ∧
    if bool_decide (Forall (λ x, snd x < block_size (mp_size m)) (L (high_of (mp_image_base m)))) then a = 0 ∧ s' = s
    else has_addr s' (mp_fd m) (a, block_size (mp_size m)) ∧ mp_size m + 65536 <= block_size (mp_size m) ∧
      ∃ L', addr_inv L' s' ∧ ∀ p, free_at p (L (high_of (mp_image_base m))) ↔ in_block p (a, block_size (mp_size m)) ∨ free_at p (L' (high_of (mp_image_base m))).
Proof.
  intros Hi Hd Hsz Hf. set (h := high_of (mp_image_base m)). destruct (wp_run _ _ _ (assign_map_address_ok m z (L h) s Hd Hsz Hf (ai_list _ _ Hi h) (ai_below _ _ Hi h))) as (a & s' & E & H).
  exists a, s'. split; [done|]. destruct (block_size_ok _ Hsz) as (_ & ? & ?). destruct (cut_block (L h) (block_size (mp_size m))) as [[addr l']|] eqn:Ec.
  - destruct H as (-> & a' & Hl & Es). destruct (cut_block_ok (L h) (block_size (mp_size m)) addr l' ltac:(lia) Ec B64 (ai_below _ _ Hi h)) as (_ & _ & Hfree & _ & l1 & l2 & b & n & El & _ & _ & Hn).
    rewrite bool_decide_false by (rewrite El; intros [_ [Hbad _]%Forall_cons]%Forall_app; simpl in Hbad; lia).
    destruct (cut_inv L s s' (mp_fd m) z h (block_size (mp_size m)) addr l' a') as (Hj1 & Hj2 & _ & _); [done|done|lia|done|done|done|done|]. split; [done|]. split; [lia|]. exists (upd h l' L). rewrite upd_eq. done.
  - rewrite bool_decide_true by (by apply cut_none). done.
Qed.

Lemma assign_map_address_spec_witness : ∃ a s', assign_map_address (demo_dll 1 0) (set_addrs (<[1%positive:=(0, 0)]>) (booted [])) = Done a s' ∧ has_addr s' 1 (a, 196608).
Proof.
  destruct (assign_map_address_spec (λ h, [space h]) (demo_dll 1 0) 0 (set_addrs (<[1%positive:=(0, 0)]>) (booted []))) as (a & s' & E & H).
  - apply (addr_inv_fds _ (booted [])); [done| |apply booted_inv]. intros f b [Hf Hb]. simpl in Hf. apply lookup_insert_Some in Hf as [[_ <-]|[_ Hf]]; [done|]. split; [exact Hf|exact Hb].
  - reflexivity.
  - simpl. lia.
  - reflexivity.
  - exists a, s'. split; [exact E|]. rewrite bool_decide_false in H by (intros Hbad; rewrite Forall_singleton in Hbad; vm_compute in Hbad; discriminate). exact (proj1 H).
Defined.
