(* ===== verification/Timeout.v ===== *)
(** * Timeouts (server/fd.c)

    The users of timeouts are in two lists, one of absolute times and one of times of the
    monotonic clock, which are stored negated.  Each round of the main loop takes those
    that are due out of the lists, calls them and computes how long to wait for the next. *)

From stdpp Require Import base list gmap fin_maps.
From S2P Require Import Prelude.

Open Scope Z_scope.
Open Scope server_scope.

(** ** Data *)

(** Users are numbered in the order of their creation. *)
Notation tid := positive (only parsing).

(** A [timeout_t] or [abstime_t]: signed, 64 bits, with the wrap-around of the machine. *)
Definition s64 (x : Z) : Z := (x + 9223372036854775808) mod 18446744073709551616 - 9223372036854775808.

Definition TICKS_PER_SEC : Z := 10000000.
Definition user_shared_data_timeout : Z := 160000.
Definition INT_MAX : Z := 2147483647.
Definition ST_NO_MEMORY : Z := 3221225495.   (* 0xC0000017 *)

(** [tu_private] stands for the callback with its argument. *)
Record timeout_user := TimeoutUser {
  tu_when : Z;
  tu_private : Z;
}.

(** What becomes of a user in the end. *)
Inductive event := Called (u : tid) | Removed (u : tid).

(** [expired_list] is the local list of [get_next_timeout], and [t_events] a record of the
    users that are no more, the latest first. *)
Record timeouts := Timeouts {
  t_users : gmap tid timeout_user;
  t_next : tid;
  abs_timeout_list : list tid;
  rel_timeout_list : list tid;
  expired_list : list tid;
  current_time : Z;
  monotonic_time : Z;
  user_shared_data : bool;
  t_error : Z;
  t_allocs : list bool;
  t_events : list event;
}.

Notation T := (ST timeouts).

Definition set_users (f : gmap tid timeout_user → gmap tid timeout_user) (s : timeouts) : timeouts :=
  Timeouts (f (t_users s)) (t_next s) (abs_timeout_list s) (rel_timeout_list s) (expired_list s) (current_time s) (monotonic_time s) (user_shared_data s) (t_error s) (t_allocs s) (t_events s).
Definition set_next (n : tid) (s : timeouts) : timeouts :=
  Timeouts (t_users s) n (abs_timeout_list s) (rel_timeout_list s) (expired_list s) (current_time s) (monotonic_time s) (user_shared_data s) (t_error s) (t_allocs s) (t_events s).
Definition set_lists (a r e : list tid) (s : timeouts) : timeouts :=
  Timeouts (t_users s) (t_next s) a r e (current_time s) (monotonic_time s) (user_shared_data s) (t_error s) (t_allocs s) (t_events s).
Definition set_t_error (e : Z) (s : timeouts) : timeouts :=
  Timeouts (t_users s) (t_next s) (abs_timeout_list s) (rel_timeout_list s) (expired_list s) (current_time s) (monotonic_time s) (user_shared_data s) e (t_allocs s) (t_events s).
Definition set_t_allocs (l : list bool) (s : timeouts) : timeouts :=
  Timeouts (t_users s) (t_next s) (abs_timeout_list s) (rel_timeout_list s) (expired_list s) (current_time s) (monotonic_time s) (user_shared_data s) (t_error s) l (t_events s).
Definition add_event (e : event) (s : timeouts) : timeouts :=
  Timeouts (t_users s) (t_next s) (abs_timeout_list s) (rel_timeout_list s) (expired_list s) (current_time s) (monotonic_time s) (user_shared_data s) (t_error s) (t_allocs s) (e :: t_events s).
Definition set_times (now mono : Z) (s : timeouts) : timeouts :=
  Timeouts (t_users s) (t_next s) (abs_timeout_list s) (rel_timeout_list s) (expired_list s) now mono (user_shared_data s) (t_error s) (t_allocs s) (t_events s).

Definition get_user (u : tid) : T timeout_user := s <- get; deref (t_users s !! u).
Definition t_malloc : T bool := s <- get; match t_allocs s with [] => ret true | b :: l => modify (set_t_allocs l) ;; ret b end.
Definition drop_user (u : tid) (l : list tid) : list tid := filter (λ v, v ≠ u) l.

(** ** Operations *)

Definition timeout_to_abstime (timeout mono : Z) : Z := if 0 <? timeout then timeout else s64 (timeout - mono).
Definition abstime_to_timeout (abstime mono : Z) : Z :=
  if 0 <? abstime then abstime else if s64 (- abstime) <? mono then 0 else s64 (abstime + mono).

(** The search for the place of a new user; [before] says that it is at a user. *)
Fixpoint insert_user (before : Z → bool) (l : list tid) (u : tid) : T (list tid) :=
  match l with
  | [] => ret [u]
  | v :: k =>
      x <- get_user v;
      if before (tu_when x) then ret (u :: l) else r <- insert_user before k u; ret (v :: r)
  end.

Definition add_timeout_user (when private : Z) : T (option tid) :=
  ok <- t_malloc;
  if negb ok then modify (set_t_error ST_NO_MEMORY) ;; ret None
  else
    s <- get;
    let u := t_next s in
    let when := timeout_to_abstime when (monotonic_time s) in
    modify (set_next (Pos.succ u)) ;;
    modify (set_users (<[u := TimeoutUser when private]>)) ;;
    (if 0 <? when then
       l <- insert_user (λ w, when <=? w) (abs_timeout_list s) u;
       modify (λ s, set_lists l (rel_timeout_list s) (expired_list s) s)
     else
       l <- insert_user (λ w, w <=? when) (rel_timeout_list s) u;
       modify (λ s, set_lists (abs_timeout_list s) l (expired_list s) s)) ;;
    ret (Some u).

(** The user must be in a list: its neighbours are changed, and it is freed. *)
Definition remove_timeout_user (u : tid) : T unit :=
  x <- get_user u;
  s <- get;
  if bool_decide (u ∈ abs_timeout_list s ++ rel_timeout_list s ++ expired_list s) then
    modify (set_lists (drop_user u (abs_timeout_list s)) (drop_user u (rel_timeout_list s)) (drop_user u (expired_list s))) ;;
    modify (set_users (delete u)) ;;
    modify (add_event (Removed u))
  else fail NullDeref.

(** The two loops that remove expired users from the lists; [n] bounds their length. *)
Fixpoint expire_abs (n : nat) : T unit :=
  s <- get;
  match abs_timeout_list s with
  | [] => ret tt
  | u :: l =>
      match n with
      | O => fail OutOfFuel
      | S n =>
          x <- get_user u;
          if tu_when x <=? current_time s then modify (set_lists l (rel_timeout_list s) (expired_list s ++ [u])) ;; expire_abs n
          else ret tt
      end
  end.
Fixpoint expire_rel (n : nat) : T unit :=
  s <- get;
  match rel_timeout_list s with
  | [] => ret tt
  | u :: l =>
      match n with
      | O => fail OutOfFuel
      | S n =>
          x <- get_user u;
          if s64 (- tu_when x) <=? monotonic_time s then modify (set_lists (abs_timeout_list s) l (expired_list s ++ [u])) ;; expire_rel n
          else ret tt
      end
  end.

Section callbacks.
(** What a callback does with the timeouts. *)
Variable callback : Z → T unit.

(** The calls; [n] bounds the number of expired users. *)
Fixpoint call_expired (n : nat) : T unit :=
  s <- get;
  match expired_list s with
  | [] => ret tt
  | u :: l =>
      match n with
      | O => fail OutOfFuel
      | S n =>
          x <- get_user u;
          modify (set_lists (abs_timeout_list s) (rel_timeout_list s) l) ;;
          modify (add_event (Called u)) ;;
          callback (tu_private x) ;;
          y <- get_user u;
          modify (set_users (delete u)) ;;
          call_expired n
      end
  end.

(** The smaller of the time so far, -1 for none, and the time left until [when]. *)
Definition closer (ret_ diff : Z) : Z :=
  let diff := if diff <? 0 then 0 else diff in if (ret_ =? -1) || (diff <? ret_) then diff else ret_.

Definition next_abs (r : Z) : T Z :=
  s <- get;
  match abs_timeout_list s with [] => ret r | u :: _ => x <- get_user u; ret (closer r (s64 (tu_when x - current_time s))) end.
Definition next_rel (r : Z) : T Z :=
  s <- get;
  match rel_timeout_list s with [] => ret r | u :: _ => x <- get_user u; ret (closer r (s64 (s64 (- tu_when x) - monotonic_time s))) end.

(** The milliseconds, and the seconds and nanoseconds if asked for by [want_ts]. *)
Definition get_next_timeout (want_ts : bool) : T (Z * option (Z * Z)) :=
  s <- get;
  let r := if user_shared_data s then user_shared_data_timeout else -1 in
  r <- (if negb (bool_decide (abs_timeout_list s = [])) || negb (bool_decide (rel_timeout_list s = [])) then
          modify (set_lists (abs_timeout_list s) (rel_timeout_list s) []) ;;
          expire_abs (length (abs_timeout_list s)) ;;
          expire_rel (length (rel_timeout_list s)) ;;
          s <- get;
          call_expired (length (expired_list s)) ;;
          r <- next_abs r;
          next_rel r
        else ret r);
  if r =? -1 then ret (-1, None)
  else
    let ts := if want_ts then Some (Z.quot r TICKS_PER_SEC, Z.rem r TICKS_PER_SEC * 100) else None in
    let ms := Z.quot (s64 (r + 9999)) 10000 in
    ret (if INT_MAX <? ms then INT_MAX else ms, ts).
End callbacks.
