(* ===== verification/TimeoutThms.v ===== *)
(** * The timeout lists are sorted, and timeouts come when they are due

    The order of the lists, then removing, expiring and calling their users. *)

From Stdlib Require Import Sorted.
From stdpp Require Import base list gmap fin_maps sorting.
From S2P Require Import Prelude Timeout.

Open Scope Z_scope.
Open Scope server_scope.

(** ** The invariant *)

Definition when_of (m : gmap tid timeout_user) (u : tid) : Z := default 0 (tu_when <$> m !! u).

Definition ordered (R : Z → Z → Prop) (m : gmap tid timeout_user) (l : list tid) : Prop := StronglySorted (λ u v, R (when_of m u) (when_of m v)) l.

Definition queued (s : timeouts) : list tid := abs_timeout_list s ++ rel_timeout_list s ++ expired_list s.

(** The smallest time of the monotonic clock for which the rounding to milliseconds
    does not overflow.  The code does not check that relative timeouts are so small: that
    they are is part of the invariant, and a condition on the users that are added. *)
Definition REL_MIN : Z := -9223372036854765808.

(** The state while the callback of the user [run] is called, or outside of callbacks. *)
Record timeout_inv (run : option tid) (s : timeouts) : Prop := {
  ti_users : ∀ u, is_Some (t_users s !! u) ↔ u ∈ queued s ∨ run = Some u;
  ti_nodup : NoDup (queued s);
  ti_run : ∀ u, run = Some u → u ∉ queued s;
  ti_next : ∀ u, is_Some (t_users s !! u) → (u < t_next s)%positive;
  ti_abs : ordered Z.le (t_users s) (abs_timeout_list s) ∧ ∀ u, u ∈ abs_timeout_list s → 0 < when_of (t_users s) u <= 9223372036854775807;
  ti_rel : ordered Z.ge (t_users s) (rel_timeout_list s) ∧ ∀ u, u ∈ rel_timeout_list s → REL_MIN <= when_of (t_users s) u <= 0;
  ti_times : 9999 <= current_time s <= 9223372036854775807 ∧ 0 <= monotonic_time s <= 4611686018427387904;
}.

(** ** Sorted lists *)

Section ordered.
Context (R : Z → Z → Prop).

Lemma ordered_ext m m' l : (∀ u, u ∈ l → m' !! u = m !! u) → ordered R m l → ordered R m' l.
Proof.
  intros He H. unfold ordered in *. induction H as [|u l H IH Hu]; constructor; [apply IH; intros v Hv; apply He; by right|]. apply Forall_forall. intros v Hv. rewrite Forall_forall in Hu. specialize (Hu v Hv).
  unfold when_of in *. rewrite !He; [done|by right|by left].
Qed.

Lemma ordered_filter m P `{∀ u : tid, Decision (P u)} l : ordered R m l → ordered R m (filter P l).
Proof.
  intros H'. unfold ordered in *. induction H' as [|u l Hl IH Hu]; [constructor|]. rewrite filter_cons. case_decide; [|done]. constructor; [done|]. apply Forall_forall. intros v [_ Hv]%list_elem_of_filter. rewrite Forall_forall in Hu. auto.
Qed.

Lemma ordered_app m l k : ordered R m (l ++ k) → ordered R m l ∧ ordered R m k ∧ ∀ u v, u ∈ l → v ∈ k → R (when_of m u) (when_of m v).
Proof.
  unfold ordered. induction l as [|x l IH]; intros H; simpl in *; [split; [constructor|]; split; [done|]; by intros u v ?%elem_of_nil|].
  apply StronglySorted_inv in H as [H Hx]. destruct (IH H) as (H1 & H2 & H3). rewrite Forall_app in Hx. destruct Hx as [Hx1 Hx2]. split; [by constructor|]. split; [done|]. intros u v [->|Hu]%elem_of_cons Hv; [by rewrite Forall_forall in Hx2; apply Hx2|by apply H3].
Qed.

Lemma ordered_insert m l k u : (∀ a b c, R a b → R b c → R a c) → ordered R m (l ++ k) → (∀ v, v ∈ l → R (when_of m v) (when_of m u)) →
  (match k with [] => True | v :: _ => R (when_of m u) (when_of m v) end) → ordered R m (l ++ u :: k).
Proof.
  intros HR H Hl Hk. destruct (ordered_app m l k H) as (H1 & H2 & H3). assert (ordered R m (u :: k)) as Hc.
  { constructor; [done|]. destruct k as [|v k]; [constructor|]. apply StronglySorted_inv in H2 as [_ H2]. constructor; [done|]. eapply Forall_impl; [exact H2|]. intros w Hw. by eapply HR. }
  clear H H2 Hk. unfold ordered in *. induction l as [|x l IH]; [done|]. simpl. apply StronglySorted_inv in H1 as [H1 Hx]. constructor.
  - apply IH; [|done|]; [intros v Hv; apply Hl; by right|intros v w Hv Hw; apply H3; [by right|done]].
  - apply Forall_app. split; [done|]. constructor; [apply Hl; by left|]. apply Forall_forall. intros w Hw. apply H3; [by left|done].
Qed.
End ordered.

(** ** What operations leave alone *)

(** Users of the earlier state are as they were or removed; those that are expired stay
    in their order; the clocks stand still. *)
Record moved (s s' : timeouts) : Prop := {
  mv_expired : expired_list s' = filter (λ u, is_Some (t_users s' !! u)) (expired_list s);
  mv_old : ∀ u x, t_users s' !! u = Some x → (u < t_next s)%positive → t_users s !! u = Some x;
  mv_next : (t_next s <= t_next s')%positive;
  mv_times : current_time s' = current_time s ∧ monotonic_time s' = monotonic_time s ∧ user_shared_data s' = user_shared_data s;
  mv_events : ∃ new, t_events s' = new ++ t_events s ∧ (∀ u, Called u ∉ new) ∧
    ∀ u x, t_users s !! u = Some x → t_users s' !! u = Some x ∨ Removed u ∈ new;
}.

(** The promise of the callbacks: they may add users and remove those that are in a list, but not the one they are called for. *)
Class Callbacks (callback : Z → T unit) : Prop :=
  callback_ok : ∀ p u s, timeout_inv (Some u) s → wp (callback p) (λ _ s', timeout_inv (Some u) s' ∧ moved s s') s.

Lemma when_some m u x : m !! u = Some x → when_of m u = tu_when x.
Proof. intros H. unfold when_of. by rewrite H. Qed.

Lemma wp_get_user u x (Q : timeout_user → timeouts → Prop) s : t_users s !! u = Some x → Q x s → wp (get_user u) Q s.
Proof. intros Hx HQ. unfold get_user. apply wp_bind, wp_get. by apply (wp_deref _ x). Qed.

Lemma s64_small x : -9223372036854775808 <= x <= 9223372036854775807 → s64 x = x.
Proof. intros H. unfold s64. rewrite Z.mod_small; lia. Qed.

(** ** Adding *)

Lemma insert_user_ok before u s l : (∀ v, v ∈ l → is_Some (t_users s !! v)) →
  wp (insert_user before l u) (λ r s', s' = s ∧ ∃ l1 l2, l = l1 ++ l2 ∧ r = l1 ++ u :: l2 ∧ (∀ v, v ∈ l1 → before (when_of (t_users s) v) = false) ∧
    match l2 with [] => True | v :: _ => before (when_of (t_users s) v) = true end) s.
Proof.
  induction l as [|v l IH]; intros Hl; cbn [insert_user]; [apply wp_ret; split; [done|]; exists [], []; split_and!; [done|done|by intros v ?%elem_of_nil|done]|].
  destruct (Hl v) as [x Hx]; [by left|]. apply wp_bind, (wp_get_user _ x); [done|]. destruct (before (tu_when x)) eqn:Eb.
  - apply wp_ret. split; [done|]. exists [], (v :: l). split_and!; [done|done|by intros w ?%elem_of_nil|]. by rewrite (when_some _ _ _ Hx).
  - apply wp_bind. eapply wp_mono; [apply IH; intros w Hw; apply Hl; by right|]. intros r s' [-> (l1 & l2 & -> & -> & H1 & H2)]. apply wp_ret. split; [done|]. exists (v :: l1), l2. split_and!; [done|done| |done].
    intros w [->|Hw]%elem_of_cons; [by rewrite (when_some _ _ _ Hx)|auto].
Qed.

(** A relative timeout of at most 14000 years. *)
Definition timeout_ok (when : Z) : Prop := -4611686018427377904 <= when <= 9223372036854775807.

Lemma abstime_range when mono : timeout_ok when → 0 <= mono <= 4611686018427387904 →
  timeout_to_abstime when mono = (if 0 <? when then when else when - mono) ∧ (0 < when → 0 < timeout_to_abstime when mono <= 9223372036854775807) ∧ (when <= 0 → REL_MIN <= timeout_to_abstime when mono <= 0).
Proof.
  intros [H1 H2] Hm. unfold timeout_to_abstime, REL_MIN. destruct (Z.ltb_spec 0 when); [split_and!; [done|lia|lia]|]. rewrite s64_small by lia. split_and!; [done|lia|lia].
Qed.

(** The lists with a new user in one of them. *)
Lemma add_inv run s s' u a r : timeout_inv run s → u = t_next s → t_users s' = <[u := a]> (t_users s) → t_next s' = Pos.succ u → current_time s' = current_time s → monotonic_time s' = monotonic_time s → expired_list s' = expired_list s →
  (if 0 <? tu_when a then abs_timeout_list s' = r ∧ rel_timeout_list s' = rel_timeout_list s else abs_timeout_list s' = abs_timeout_list s ∧ rel_timeout_list s' = r) →
  (if 0 <? tu_when a then tu_when a <= 9223372036854775807 else REL_MIN <= tu_when a) →
  (∃ l1 l2, (if 0 <? tu_when a then abs_timeout_list s else rel_timeout_list s) = l1 ++ l2 ∧ r = l1 ++ u :: l2) →
  ordered (if 0 <? tu_when a then Z.le else Z.ge) (t_users s') r → timeout_inv run s'.
Proof.
  intros Hi Hu Hm Hn Hc Hmo He Hl Hw (l1 & l2 & El & ->) Hord. assert (Hq : ∃ q1 q2, queued s = q1 ++ q2 ∧ queued s' = q1 ++ u :: q2).
  { unfold queued. destruct (0 <? tu_when a); destruct Hl as [-> ->]; rewrite He, El; [exists l1, (l2 ++ rel_timeout_list s ++ expired_list s)|exists (abs_timeout_list s ++ l1), (l2 ++ expired_list s)]; by rewrite <-!app_assoc. }
  destruct Hq as (q1 & q2 & Q1 & Q2). assert (t_users s !! u = None) as Hnone by (apply eq_None_not_Some; intros ?%(ti_next _ _ Hi); subst; lia).
  assert (u ∉ queued s ∧ run ≠ Some u) as [Hnq Hnr] by (split; intros ?; apply eq_None_not_Some in Hnone; apply Hnone, Hi; [by left|by right]).
  assert (∀ v, v ∈ queued s → v ≠ u) as Hvu by (intros v Hv ->; done). assert (∀ v, v ∈ queued s' ↔ v = u ∨ v ∈ queued s) as Hin by (intros v; rewrite Q1, Q2; set_solver).
  assert (∀ l : list tid, (∀ v, v ∈ l → v ∈ queued s) → ∀ v, v ∈ l → t_users s' !! v = t_users s !! v) as Hsame by (intros l Hsub v Hv; rewrite Hm, lookup_insert_ne; [done|by apply not_eq_sym, Hvu, Hsub]).
  assert (∀ v, v ∈ abs_timeout_list s ∨ v ∈ rel_timeout_list s → v ∈ queued s) as Hsub by (unfold queued; set_solver).
  assert (∀ v, v ∈ queued s → when_of (t_users s') v = when_of (t_users s) v) as Hwo by (intros v Hv; unfold when_of; by rewrite (Hsame (queued s))).
  assert (when_of (t_users s') u = tu_when a) as Hwu by (unfold when_of; by rewrite Hm, lookup_insert_eq).
  split.
  - intros v. rewrite Hm, Hin. destruct (decide (v = u)) as [->|Hne]; [rewrite lookup_insert_eq; split; [by left; left|by eexists]|]. rewrite lookup_insert_ne by done. rewrite (ti_users _ _ Hi v). tauto.
  - rewrite Q2. pose proof (ti_nodup _ _ Hi) as Hnd. rewrite Q1 in Hnd, Hnq. apply NoDup_app in Hnd as (? & ? & ?). apply NoDup_app. rewrite NoDup_cons. set_solver.
  - intros v Hv. rewrite Hin. intros [->|?]; [done|]. by apply (ti_run _ _ Hi v).
  - intros v. rewrite Hm, Hn. destruct (decide (v = u)) as [->|Hne]; [lia|]. rewrite lookup_insert_ne by done. intros ?%(ti_next _ _ Hi). lia.
  - destruct (ti_abs _ _ Hi) as [Ho Hr]. destruct (0 <? tu_when a) eqn:E; destruct Hl as [-> _].
    + split; [done|]. intros v. rewrite elem_of_app, elem_of_cons. apply Z.ltb_lt in E. intros H. destruct (decide (v = u)) as [->|Hne]; [rewrite Hwu; lia|]. assert (v ∈ abs_timeout_list s) by (rewrite El; set_solver). rewrite Hwo by auto. by apply Hr.
    + split; [eapply ordered_ext; [apply Hsame; auto|done]|]. intros v Hv. rewrite Hwo by auto. by apply Hr.
  - destruct (ti_rel _ _ Hi) as [Ho Hr]. destruct (0 <? tu_when a) eqn:E; destruct Hl as [_ ->].
    + split; [eapply ordered_ext; [apply Hsame; auto|done]|]. intros v Hv. rewrite Hwo by auto. by apply Hr.
    + split; [done|]. intros v. rewrite elem_of_app, elem_of_cons. apply Z.ltb_ge in E. intros H. destruct (decide (v = u)) as [->|Hne]; [rewrite Hwu; lia|]. assert (v ∈ rel_timeout_list s) by (rewrite El; set_solver). rewrite Hwo by auto. by apply Hr.
  - rewrite Hc, Hmo. apply Hi.
Qed.

Lemma filter_keep {A} (P : A → Prop) `{∀ x, Decision (P x)} (l : list A) : (∀ x, x ∈ l → P x) → filter P l = l.
Proof. induction l as [|x l IH]; intros Hl; [done|]. rewrite filter_cons_True by (apply Hl; by left). f_equal. apply IH. intros y Hy. apply Hl. by right. Qed.

Lemma expired_users run s u : timeout_inv run s → u ∈ expired_list s → is_Some (t_users s !! u).
Proof. intros Hi Hu. apply Hi. left. unfold queued. set_solver. Qed.

(** The same expired users, and all users still there. *)
Lemma moved_add run s s' : timeout_inv run s → expired_list s' = expired_list s → (∀ u x, t_users s !! u = Some x → t_users s' !! u = Some x) →
  (∀ u x, t_users s' !! u = Some x → (u < t_next s)%positive → t_users s !! u = Some x) → (t_next s <= t_next s')%positive →
  current_time s' = current_time s → monotonic_time s' = monotonic_time s → user_shared_data s' = user_shared_data s → t_events s' = t_events s → moved s s'.
Proof.
  intros Hi He Hk Ho Hn H1 H2 H3 H4. split; [|done|done|done|].
  - rewrite He. symmetry. apply filter_keep. intros u Hu. destruct (expired_users _ _ _ Hi Hu) as [x Hx]. eauto.
  - exists []. split_and!; [done|by intros u ?%elem_of_nil|]. intros u x Hx. left. auto.
Qed.

Lemma tm_moved_trans run s s1 s2 : timeout_inv run s → moved s s1 → moved s1 s2 → moved s s2.
Proof.
  intros Hi [A1 A2 A3 A4 (na & A5 & A6 & A7)] [B1 B2 B3 B4 (nb & B5 & B6 & B7)]. split.
  - rewrite B1, A1, list_filter_filter. apply filter_same. intros u Hu. split; [by intros [? _]|]. intros [x Hx]. split; [by eexists|].
    assert (u < t_next s)%positive by (by eapply Hi, expired_users). exists x. apply B2; [done|lia].
  - intros u x Hx Hlt. apply A2; [|done]. apply B2; [done|lia].
  - lia.
  - destruct A4 as (? & ? & ?), B4 as (? & ? & ?). split_and!; congruence.
  - exists (nb ++ na). split; [by rewrite B5, A5, app_assoc|]. split; [intros u; rewrite elem_of_app; intros [?|?]; [by eapply B6|by eapply A6]|].
    intros u x [Hx|Hr]%A7; [destruct (B7 u x Hx); [by left|]|]; right; set_solver.
Qed.

Lemma add_timeout_user_ok run when p s : timeout_inv run s → timeout_ok when →
  wp (add_timeout_user when p) (λ r s', timeout_inv run s' ∧ moved s s' ∧ match r with
    | Some u => u = t_next s ∧ t_users s' = <[u := TimeoutUser (timeout_to_abstime when (monotonic_time s)) p]> (t_users s)
    | None => false ∈ t_allocs s ∧ t_users s' = t_users s
    end) s.
Proof.
  intros Hi Hw. unfold add_timeout_user. apply wp_bind. set (Q := λ r s', _ ∧ _). assert (Hgo : ∀ al, wp (s1 <- get; let u := t_next s1 in let w := timeout_to_abstime when (monotonic_time s1) in
    modify (set_next (Pos.succ u)) ;; modify (set_users (<[u := TimeoutUser w p]>)) ;;
    (if 0 <? w then l <- insert_user (λ v, w <=? v) (abs_timeout_list s1) u; modify (λ s, set_lists l (rel_timeout_list s) (expired_list s) s)
     else l <- insert_user (λ v, v <=? w) (rel_timeout_list s1) u; modify (λ s, set_lists (abs_timeout_list s) l (expired_list s) s)) ;; ret (Some u)) Q (set_t_allocs al s)).
  { intros al. apply wp_bind, wp_get. cbv zeta. set (u := t_next _). set (w := timeout_to_abstime _ _). apply wp_bind, wp_modify. apply wp_bind, wp_modify. set (s2 := set_users _ _).
    destruct (abstime_range when (monotonic_time s) Hw) as (Ew & Hw1 & Hw2); [apply Hi|]. change (timeout_to_abstime when (monotonic_time s)) with w in Ew, Hw1, Hw2. pose proof (ti_times _ _ Hi) as [_ Hmono]. assert (t_users s !! u = None) as Hnone by (apply eq_None_not_Some; intros H%(ti_next _ _ Hi); subst u; simpl in H; lia).
    assert (Hext : ∀ v, v ∈ queued s → t_users s2 !! v = t_users s !! v) by (intros v Hv; simpl; apply lookup_insert_ne; intros <-; apply eq_None_not_Some in Hnone; apply Hnone, Hi; by left).
    assert (Hmem : ∀ v, v ∈ abs_timeout_list s ∨ v ∈ rel_timeout_list s → v ∈ queued s) by (unfold queued; set_solver). assert (Hus : when_of (t_users s2) u = w) by (unfold when_of; simpl; by rewrite lookup_insert_eq).
    assert (Hmv : ∀ a r, moved s (set_lists a r (expired_list s) s2)).
    { intros a r. eapply moved_add; [exact Hi|done| | |simpl; unfold u; simpl; lia|done..]; intros v x Hx; simpl in *; [rewrite lookup_insert_ne; [done|congruence]|intros Hlt; rewrite lookup_insert_ne in Hx; [done|]; subst u; simpl; lia]. }
    apply wp_bind. destruct (Z.ltb_spec 0 w) as [H0|H0].
    - apply wp_bind. eapply wp_mono; [apply insert_user_ok; intros v Hv; rewrite Hext by auto; apply Hi; left; auto|]. intros l s3 [-> (l1 & l2 & El & -> & Hl1 & Hl2)]. simpl in El. apply wp_modify, wp_ret. split; [|split; [apply Hmv|by split]].
      eapply (add_inv run s _ u (TimeoutUser w p)); try done; simpl; rewrite (proj2 (Z.ltb_lt 0 w)) by done; [done|apply Hw1; revert Ew; destruct (Z.ltb_spec 0 when); lia|by exists l1, l2|].
      apply ordered_insert; [intros; lia|rewrite <-El; eapply ordered_ext; [|apply Hi]; auto| |]; change (<[u:={| tu_when := w; tu_private := p |}]> (t_users s)) with (t_users s2).
      + intros v Hv%Hl1. rewrite Hus. apply Z.leb_gt in Hv. lia.
      + destruct l2; [done|]. rewrite Hus. by apply Z.leb_le.
    - apply wp_bind. eapply wp_mono; [apply insert_user_ok; intros v Hv; rewrite Hext by auto; apply Hi; left; auto|]. intros l s3 [-> (l1 & l2 & El & -> & Hl1 & Hl2)]. simpl in El. apply wp_modify, wp_ret. split; [|split; [apply Hmv|by split]].
      eapply (add_inv run s _ u (TimeoutUser w p)); try done; simpl; rewrite (proj2 (Z.ltb_ge 0 w)) by done; [done|apply Hw2; revert Ew; destruct (Z.ltb_spec 0 when); lia|by exists l1, l2|].
      apply ordered_insert; [intros; lia|rewrite <-El; eapply ordered_ext; [|apply Hi]; auto| |]; change (<[u:={| tu_when := w; tu_private := p |}]> (t_users s)) with (t_users s2).
      + intros v Hv%Hl1. rewrite Hus. apply Z.leb_gt in Hv. lia.
      + destruct l2; [done|]. rewrite Hus. apply Z.le_ge. by apply Z.leb_le. }
  unfold t_malloc. apply wp_bind, wp_get. destruct (t_allocs s) as [|[] al] eqn:Ea.
  - apply wp_ret. replace s with (set_t_allocs [] s) at 1 by (destruct s; simpl in *; by subst). apply Hgo.
  - apply wp_bind, wp_modify, wp_ret. apply Hgo.
  - apply wp_bind, wp_modify, wp_ret. apply wp_bind, wp_modify, wp_ret. split; [by destruct Hi|]. split; [by eapply moved_add|]. split; [by left|done].
Qed.

(** * Removing, expiring and calling the users of timeouts *)

(** ** Changes of the lists *)

(** Users leave the lists and maybe the map; those in lists keep their times. *)
Lemma shrink_inv run run' s s' : timeout_inv run s → (∀ u, u ∈ queued s' → u ∈ queued s) → (∀ u, u ∈ queued s' → t_users s' !! u = t_users s !! u) →
  (∀ u, is_Some (t_users s' !! u) ↔ u ∈ queued s' ∨ run' = Some u) → (∀ u, is_Some (t_users s' !! u) → is_Some (t_users s !! u)) → NoDup (queued s') → (∀ u, run' = Some u → u ∉ queued s') →
  ordered Z.le (t_users s) (abs_timeout_list s') → ordered Z.ge (t_users s) (rel_timeout_list s') → (∀ u, u ∈ abs_timeout_list s' → u ∈ abs_timeout_list s) → (∀ u, u ∈ rel_timeout_list s' → u ∈ rel_timeout_list s) →
  t_next s' = t_next s → current_time s' = current_time s → monotonic_time s' = monotonic_time s → timeout_inv run' s'.
Proof.
  intros Hi Hq Hm Hu Hsub Hnd Hrun Ha Hr Hain Hrin Hn Hc Hmo. assert (∀ u, u ∈ abs_timeout_list s' ∨ u ∈ rel_timeout_list s' → u ∈ queued s') as Hmem by (unfold queued; set_solver).
  assert (∀ u, u ∈ queued s' → when_of (t_users s') u = when_of (t_users s) u) as Hw by (intros u Hu'; unfold when_of; by rewrite Hm).
  split; [done|done|done|intros u Hu'; rewrite Hn; by apply Hi, Hsub| | |rewrite Hc, Hmo; apply Hi].
  - split; [eapply ordered_ext; [|exact Ha]; auto|]. intros u Hu'. rewrite Hw by auto. by apply Hi, Hain.
  - split; [eapply ordered_ext; [|exact Hr]; auto|]. intros u Hu'. rewrite Hw by auto. by apply Hi, Hrin.
Qed.

Lemma elem_of_drop u v l : v ∈ drop_user u l ↔ v ≠ u ∧ v ∈ l.
Proof. unfold drop_user. by rewrite list_elem_of_filter. Qed.

Lemma remove_timeout_user_ok run u s : timeout_inv run s → u ∈ queued s → wp (remove_timeout_user u) (λ _ s', timeout_inv run s' ∧ moved s s' ∧ t_users s' = delete u (t_users s) ∧ t_events s' = Removed u :: t_events s) s.
Proof.
  intros Hi Hu. destruct (proj2 (ti_users _ _ Hi u) (or_introl Hu)) as [x Hx]. unfold remove_timeout_user. apply wp_bind, (wp_get_user _ x); [done|]. apply wp_bind, wp_get. rewrite bool_decide_true by done. apply wp_bind, wp_modify. apply wp_bind, wp_modify. apply wp_modify.
  set (s' := add_event _ _). assert (queued s' = drop_user u (queued s)) as Hq by (unfold queued, drop_user; simpl; by rewrite !filter_app). split; [|split; [|done]].
  - apply (shrink_inv run run s); try done; simpl.
    + intros v. rewrite Hq, elem_of_drop. tauto.
    + intros v. rewrite Hq, elem_of_drop. intros [? _]. by rewrite lookup_delete_ne.
    + intros v. rewrite Hq, elem_of_drop, lookup_delete_is_Some, (ti_users _ _ Hi v). split; [intros [? [?|?]]; [left; split; [congruence|done]|by right]|]. intros [[? ?]|Hr]; (split; [|tauto]); [congruence|]. intros <-. by apply (ti_run _ _ Hi u).
    + intros v. rewrite lookup_delete_is_Some. tauto.
    + rewrite Hq. apply NoDup_filter, Hi.
    + intros v Hv. rewrite Hq, elem_of_drop. intros [_ ?]. by apply (ti_run _ _ Hi v).
    + apply ordered_filter, Hi.
    + apply ordered_filter, Hi.
    + intros v. rewrite elem_of_drop. tauto.
    + intros v. rewrite elem_of_drop. tauto.
  - split; [|intros v y; simpl; rewrite lookup_delete_Some; tauto|simpl; lia|done|].
    + simpl. apply filter_same. intros v Hv. rewrite lookup_delete_is_Some. split; [intros ?; split; [congruence|by eapply expired_users]|]. intros [? _]. congruence.
    + exists [Removed u]. split; [done|]. split; [intros v Hv%list_elem_of_singleton; done|]. intros v y Hy. simpl. destruct (decide (v = u)) as [->|Hne]; [right; by left|left]. by rewrite lookup_delete_ne.
Qed.

(** ** Expiry *)

Definition due (s : timeouts) (x : timeout_user) : Prop := if 0 <? tu_when x then tu_when x <= current_time s else - tu_when x <= monotonic_time s.

Lemma neg_small run s u : timeout_inv run s → u ∈ rel_timeout_list s → s64 (- when_of (t_users s) u) = - when_of (t_users s) u.
Proof. intros Hi Hu. apply s64_small. pose proof (proj2 (ti_rel _ _ Hi) u Hu) as H. unfold REL_MIN in H. lia. Qed.

(** The states that differ in the lists alone. *)
Definition relisted (s s' : timeouts) : Prop := s' = set_lists (abs_timeout_list s') (rel_timeout_list s') (expired_list s') s.

Lemma relisted_refl s : relisted s s.
Proof. by destruct s. Qed.
Lemma relisted_trans s s1 s2 : relisted s s1 → relisted s1 s2 → relisted s s2.
Proof. unfold relisted. intros H1 H2. rewrite H2 at 1. by rewrite H1. Qed.

Lemma abs_user run s u : timeout_inv run s → u ∈ abs_timeout_list s → ∃ x, t_users s !! u = Some x ∧ when_of (t_users s) u = tu_when x.
Proof. intros Hi Hu. destruct (proj2 (ti_users _ _ Hi u)) as [x Hx]; [left; unfold queued; set_solver|]. exists x. split; [done|]. by apply when_some. Qed.
Lemma rel_user run s u : timeout_inv run s → u ∈ rel_timeout_list s → ∃ x, t_users s !! u = Some x ∧ when_of (t_users s) u = tu_when x.
Proof. intros Hi Hu. destruct (proj2 (ti_users _ _ Hi u)) as [x Hx]; [left; unfold queued; set_solver|]. exists x. split; [done|]. by apply when_some. Qed.

(** The due users of the list move to the others that have expired. *)
Lemma expire_abs_ok run : ∀ l s, timeout_inv run s → abs_timeout_list s = l → wp (expire_abs (length l)) (λ _ s', timeout_inv run s' ∧ relisted s s' ∧ rel_timeout_list s' = rel_timeout_list s ∧
  ∃ d, l = d ++ abs_timeout_list s' ∧ expired_list s' = expired_list s ++ d ∧ (∀ u, u ∈ d → when_of (t_users s) u <= current_time s) ∧ ∀ u, u ∈ abs_timeout_list s' → current_time s < when_of (t_users s) u) s.
Proof.
  induction l as [|u l IH]; intros s Hi Hl; cbn [length expire_abs]; apply wp_bind, wp_get; rewrite Hl.
  - apply wp_ret. split; [done|]. split; [apply relisted_refl|]. split; [done|]. exists []. rewrite Hl, !app_nil_r. split_and!; [done|done|by intros u ?%elem_of_nil|by intros u ?%elem_of_nil].
  - destruct (abs_user run s u Hi) as (x & Hx & Ew); [rewrite Hl; by left|]. apply wp_bind, (wp_get_user _ x); [done|]. destruct (Z.leb_spec (tu_when x) (current_time s)) as [Hd|Hd].
    + apply wp_bind, wp_modify. set (s1 := set_lists _ _ _ _). assert (queued s1 ≡ₚ queued s) as Hp by (unfold queued; rewrite Hl; simpl; solve_Permutation). destruct (ti_abs _ _ Hi) as [Ho _]. rewrite Hl in Ho. apply StronglySorted_inv in Ho as [Ho _].
      assert (timeout_inv run s1) as Hi1.
      { apply (shrink_inv run run s); try done; simpl; try (by intros v; rewrite Hp); [intros v; rewrite Hp; apply Hi|rewrite Hp; apply Hi|intros v Hv; rewrite Hp; by apply Hi|apply Hi|intros v Hv; rewrite Hl; by right]. }
      eapply wp_mono; [by apply (IH s1)|]. intros ? s' (Hi' & Hr & Hrel & d & -> & He & Hd1 & Hd2). split; [done|]. split; [by eapply relisted_trans; [|exact Hr]|]. split; [done|]. exists (u :: d). split; [done|]. split; [rewrite He; simpl; by rewrite <-app_assoc|].
      split; [|done]. intros v [->|Hv]%elem_of_cons; [lia|by apply Hd1].
    + apply wp_ret. split; [done|]. split; [apply relisted_refl|]. split; [done|]. exists []. rewrite app_nil_r. split_and!; [done|done|by intros v ?%elem_of_nil|]. destruct (ti_abs _ _ Hi) as [Ho _]. rewrite Hl in Ho. apply StronglySorted_inv in Ho as [_ Ho].
      rewrite Forall_forall in Ho. rewrite Hl. intros v [->|Hv]%elem_of_cons; [lia|]. specialize (Ho v Hv). lia.
Qed.

Lemma expire_rel_ok run : ∀ l s, timeout_inv run s → rel_timeout_list s = l → wp (expire_rel (length l)) (λ _ s', timeout_inv run s' ∧ relisted s s' ∧ abs_timeout_list s' = abs_timeout_list s ∧
  ∃ d, l = d ++ rel_timeout_list s' ∧ expired_list s' = expired_list s ++ d ∧ (∀ u, u ∈ d → - when_of (t_users s) u <= monotonic_time s) ∧ ∀ u, u ∈ rel_timeout_list s' → monotonic_time s < - when_of (t_users s) u) s.
Proof.
  induction l as [|u l IH]; intros s Hi Hl; cbn [length expire_rel]; apply wp_bind, wp_get; rewrite Hl.
  - apply wp_ret. split; [done|]. split; [apply relisted_refl|]. split; [done|]. exists []. rewrite Hl, !app_nil_r. split_and!; [done|done|by intros u ?%elem_of_nil|by intros u ?%elem_of_nil].
  - destruct (rel_user run s u Hi) as (x & Hx & Ew); [rewrite Hl; by left|]. pose proof (neg_small run s u Hi) as Hneg. rewrite Ew in Hneg. rewrite Hl in Hneg. specialize (Hneg (list_elem_of_here _ _)).
    apply wp_bind, (wp_get_user _ x); [done|]. rewrite Hneg. destruct (Z.leb_spec (- tu_when x) (monotonic_time s)) as [Hd|Hd].
    + apply wp_bind, wp_modify. set (s1 := set_lists _ _ _ _). assert (queued s1 ≡ₚ queued s) as Hp by (unfold queued; rewrite Hl; simpl; solve_Permutation). destruct (ti_rel _ _ Hi) as [Ho _]. rewrite Hl in Ho. apply StronglySorted_inv in Ho as [Ho _].
      assert (timeout_inv run s1) as Hi1.
      { apply (shrink_inv run run s); try done; simpl; try (by intros v; rewrite Hp); [intros v; rewrite Hp; apply Hi|rewrite Hp; apply Hi|intros v Hv; rewrite Hp; by apply Hi|apply Hi|intros v Hv; rewrite Hl; by right]. }
      eapply wp_mono; [by apply (IH s1)|]. intros ? s' (Hi' & Hr & Habs & d & -> & He & Hd1 & Hd2). split; [done|]. split; [by eapply relisted_trans; [|exact Hr]|]. split; [done|]. exists (u :: d). split; [done|]. split; [rewrite He; simpl; by rewrite <-app_assoc|].
      split; [|done]. intros v [->|Hv]%elem_of_cons; [lia|by apply Hd1].
    + apply wp_ret. split; [done|]. split; [apply relisted_refl|]. split; [done|]. exists []. rewrite app_nil_r. split_and!; [done|done|by intros v ?%elem_of_nil|]. destruct (ti_rel _ _ Hi) as [Ho _]. rewrite Hl in Ho. apply StronglySorted_inv in Ho as [_ Ho].
      rewrite Forall_forall in Ho. rewrite Hl. intros v [->|Hv]%elem_of_cons; [lia|]. specialize (Ho v Hv). lia.
Qed.

(** ** The calls *)

Lemma start_call u l s : timeout_inv None s → expired_list s = u :: l → timeout_inv (Some u) (add_event (Called u) (set_lists (abs_timeout_list s) (rel_timeout_list s) l s)).
Proof.
  intros Hi He. set (s1 := add_event _ _). assert (queued s ≡ₚ u :: queued s1) as Hp by (unfold queued; rewrite He; simpl; solve_Permutation).
  pose proof (ti_nodup _ _ Hi) as Hnd. rewrite Hp in Hnd. apply NoDup_cons in Hnd as [Hn1 Hn2]. apply (shrink_inv None (Some u) s); try done; simpl.
  - intros v Hv. rewrite Hp. by right.
  - intros v. rewrite (ti_users _ _ Hi v), Hp, elem_of_cons. split; [intros [[->|?]|?]; [by right|by left|done]|]. intros [?|[= ->]]; [by left; right|by left; left].
  - by intros v [= <-].
  - apply Hi.
  - apply Hi.
Qed.

Lemma end_call u s : timeout_inv (Some u) s → timeout_inv None (set_users (delete u) s).
Proof.
  intros Hi. pose proof (ti_run _ _ Hi u eq_refl) as Hn. apply (shrink_inv (Some u) None s); try done; simpl.
  - intros v Hv. rewrite lookup_delete_ne; [done|]. by intros <-.
  - intros v. rewrite lookup_delete_is_Some, (ti_users _ _ Hi v). split; [intros [? [?|[=]]]; [by left|done]|]. intros [?|?]; [|done]. split; [by intros <-|by left].
  - intros v. rewrite lookup_delete_is_Some. tauto.
  - apply Hi.
  - apply Hi.
  - apply Hi.
Qed.

(** The calls of a record, the earliest first. *)
Definition call_of (e : event) : option tid := match e with Called u => Some u | Removed _ => None end.
Definition calls (new : list event) : list tid := omap call_of (reverse new).

Lemma calls_app a b : calls (a ++ b) = calls b ++ calls a.
Proof. unfold calls. by rewrite reverse_app, omap_app. Qed.
Lemma calls_none new : (∀ u, Called u ∉ new) → calls new = [].
Proof.
  intros H. induction new as [|e new IH] using rev_ind; [done|]. unfold calls. rewrite reverse_snoc. destruct e as [u|u]; [exfalso; apply (H u); set_solver|]. apply IH. intros v Hv. apply (H v). set_solver.
Qed.
Lemma elem_of_calls new u : u ∈ calls new ↔ Called u ∈ new.
Proof.
  unfold calls. rewrite list_elem_of_omap. split; [intros (e & He & E); destruct e; simplify_eq/=; by rewrite elem_of_reverse in He|]. intros H. exists (Called u). split; [by rewrite elem_of_reverse|done].
Qed.

(** What became of the users of [s], of which those in [l] are expired. *)
Record called_all (l : list tid) (s s' : timeouts) (new : list event) : Prop := {
  ca_events : t_events s' = new ++ t_events s;
  ca_order : calls new `sublist_of` l;
  ca_expired : ∀ u, u ∈ l → Called u ∈ new ∨ Removed u ∈ new;
  ca_others : ∀ u x, t_users s !! u = Some x → u ∉ l → t_users s' !! u = Some x ∨ Removed u ∈ new;
  ca_old : ∀ u x, t_users s' !! u = Some x → (u < t_next s)%positive → t_users s !! u = Some x ∧ u ∉ l;
  ca_times : current_time s' = current_time s ∧ monotonic_time s' = monotonic_time s ∧ user_shared_data s' = user_shared_data s;
}.

(** One call, and the rest. *)
Lemma called_step u l s s2 s' nb new : timeout_inv None s → expired_list s = u :: l → moved (add_event (Called u) (set_lists (abs_timeout_list s) (rel_timeout_list s) l s)) s2 →
  t_events s2 = nb ++ Called u :: t_events s → (∀ v, Called v ∉ nb) → (∀ v x, t_users s !! v = Some x → t_users s2 !! v = Some x ∨ Removed v ∈ nb) →
  called_all (expired_list s2) (set_users (delete u) s2) s' new → called_all (u :: l) s s' (new ++ nb ++ [Called u]).
Proof.
  intros Hi He Hm Hev Hnb Hkeep Hc. pose proof (mv_expired _ _ Hm) as Hex. simpl in Hex.
  assert (Hnd : u ∉ l) by (pose proof (ti_nodup _ _ Hi) as Hnd; unfold queued in Hnd; rewrite He, !NoDup_app, NoDup_cons in Hnd; tauto).
  split.
  - rewrite (ca_events _ _ _ _ Hc). simpl. by rewrite Hev, <-!app_assoc.
  - rewrite !calls_app, (calls_none nb) by done. simpl. apply sublist_skip. etrans; [apply Hc|]. rewrite Hex. apply sublist_filter.
  - intros v [->|Hv]%elem_of_cons; [left; set_solver|]. destruct (expired_users _ s v Hi) as [x Hx]; [rewrite He; by right|]. destruct (Hkeep v x Hx) as [H2|?]; [|right; set_solver].
    destruct (ca_expired _ _ _ _ Hc v) as [?|?]; [rewrite Hex; apply list_elem_of_filter; split; [by eexists|done]|left; set_solver|right; set_solver].
  - intros v x Hx Hv. rewrite not_elem_of_cons in Hv. destruct Hv as [Hvu Hvl]. destruct (Hkeep v x Hx) as [H2|?]; [|right; set_solver].
    destruct (ca_others _ _ _ _ Hc v x) as [?|?]; [simpl; by rewrite lookup_delete_ne|rewrite Hex, list_elem_of_filter; tauto|by left|right; set_solver].
  - intros v x Hx Hlt. pose proof (mv_next _ _ Hm) as Hnx. simpl in Hnx. destruct (ca_old _ _ _ _ Hc v x Hx) as [H1 H2]; [simpl; lia|]. simpl in H1. apply lookup_delete_Some in H1 as [Hvu H1]. split; [apply (mv_old _ _ Hm v x); done|].
    rewrite not_elem_of_cons. split; [done|]. intros Hv. apply H2. rewrite Hex. apply list_elem_of_filter. split; [by eexists|done].
  - destruct (ca_times _ _ _ _ Hc) as (-> & -> & ->), (mv_times _ _ Hm) as (? & ? & ?). done.
Qed.

Lemma call_expired_ok callback `{!Callbacks callback} n : ∀ s, timeout_inv None s → (length (expired_list s) <= n)%nat →
  wp (call_expired callback n) (λ _ s', timeout_inv None s' ∧ expired_list s' = [] ∧ ∃ new, called_all (expired_list s) s s' new) s.
Proof.
  assert (Hnil : ∀ s, timeout_inv None s → expired_list s = [] → timeout_inv None s ∧ expired_list s = [] ∧ ∃ new, called_all [] s s new).
  { intros s Hi He. split; [done|]. split; [done|]. exists []. split; [done|apply sublist_nil_l|by intros u ?%elem_of_nil|intros u x Hx _; by left|intros u x Hx _; split; [done|apply not_elem_of_nil]|done]. }
  induction n as [|n IH]; intros s Hi Hn; cbn [call_expired]; apply wp_bind, wp_get.
  - destruct (expired_list s) eqn:He; [|simpl in Hn; lia]. apply wp_ret. by apply Hnil.
  - destruct (expired_list s) as [|u l] eqn:He; [apply wp_ret; by apply Hnil|]. destruct (expired_users _ s u Hi) as [x Hx]; [rewrite He; by left|]. apply wp_bind, (wp_get_user _ x); [done|].
    apply wp_bind, wp_modify. apply wp_bind, wp_modify. apply wp_bind. eapply wp_mono; [apply callback_ok, start_call; done|]. intros ? s2 [Hi2 Hm]. destruct (proj2 (ti_users _ _ Hi2 u) (or_intror eq_refl)) as [y Hy].
    apply wp_bind, (wp_get_user _ y); [done|]. apply wp_bind, wp_modify. destruct (mv_events _ _ Hm) as (nb & Hev & Hnb & Hkeep). pose proof (mv_expired _ _ Hm) as Hex. simpl in Hex.
    eapply wp_mono; [apply IH; [by apply end_call|]|].
    + simpl. rewrite Hex. simpl in Hn. pose proof (sublist_length _ _ (sublist_filter (λ v, is_Some (t_users s2 !! v)) l)). lia.
    + intros ? s' (Hi' & He' & new & Hc). split; [done|]. split; [done|]. exists (new ++ nb ++ [Called u]). by eapply called_step.
Qed.
