(* ===== verification/TimeoutSpecs.v ===== *)
(** * Properties of the timeouts (server/fd.c) *)

From Stdlib Require Import Sorted.
From stdpp Require Import base list gmap fin_maps sorting.
From S2P Require Import Prelude Timeout TimeoutThms.

Open Scope Z_scope.
Open Scope server_scope.

(** ** The time to wait *)

Definition remaining (s : timeouts) (x : timeout_user) : Z := Z.max 0 (if 0 <? tu_when x then tu_when x - current_time s else - tu_when x - monotonic_time s).

(** [r] is the time left until the first user is due, and at most [r0], where -1 is never. *)
Definition waits (s : timeouts) (r0 r : Z) (l : list tid) : Prop :=
  (r = -1 ↔ r0 = -1 ∧ l = []) ∧
  (r ≠ -1 → 0 <= r ∧ (r0 ≠ -1 → r <= r0) ∧ (∀ u x, u ∈ l → t_users s !! u = Some x → r <= remaining s x) ∧ (r = r0 ∨ ∃ u x, u ∈ l ∧ t_users s !! u = Some x ∧ r = remaining s x)).

Lemma waits_none s r : r = -1 ∨ 0 <= r → waits s r r [].
Proof. intros Hr. split; [tauto|]. intros Hne. split; [lia|]. split; [done|]. split; [by intros u x ?%elem_of_nil|by left]. Qed.

(** The first of a list that is no later than the others. *)
Lemma waits_closer s r0 r l k u x d : waits s r0 r l → u ∈ k → t_users s !! u = Some x → d = (if 0 <? tu_when x then tu_when x - current_time s else - tu_when x - monotonic_time s) →
  (∀ v y, v ∈ k → t_users s !! v = Some y → remaining s x <= remaining s y) → waits s r0 (closer r d) (l ++ k).
Proof.
  intros [H1 H2] Hu Hx Hd Hmin. assert ((if d <? 0 then 0 else d) = remaining s x) as E by (unfold remaining; rewrite <-Hd; destruct (Z.ltb_spec d 0); lia). unfold closer. rewrite E.
  assert (0 <= remaining s x) as Hpos by (unfold remaining; lia). assert (l ++ k ≠ []) as Hne by (intros [_ ->]%app_eq_nil; by apply elem_of_nil in Hu).
  destruct (Z.eqb_spec r (-1)) as [Er|Er]; simpl.
  - destruct H1 as [H1 _]. destruct (H1 Er) as [E0 ->]. split; [split; [lia|by intros [_ ?]]|]. intros _. split; [done|]. split; [done|]. split; [intros v y Hv; apply Hmin, Hv|]. right. by exists u, x.
  - destruct (H2 Er) as (G1 & G2 & G3 & G4). destruct (Z.ltb_spec (remaining s x) r) as [Hlt|Hge].
    + split; [split; [lia|by intros [_ ?]]|]. intros _. split; [done|]. split; [intros ?; specialize (G2 ltac:(done)); lia|]. split; [intros v y [Hv|Hv]%elem_of_app Hy; [specialize (G3 v y Hv Hy); lia|eauto]|]. right. exists u, x. split; [set_solver|done].
    + split; [split; [done|by intros [_ ?]]|]. intros _. split; [done|]. split; [done|]. split; [intros v y [Hv|Hv]%elem_of_app Hy; [eauto|specialize (Hmin v y Hv Hy); lia]|]. destruct G4 as [?|(v & y & ? & ? & ?)]; [by left|right]. exists v, y. split; [set_solver|done].
Qed.

Lemma next_ok r0 s : timeout_inv None s → r0 = -1 ∨ 0 <= r0 →
  wp (r <- next_abs r0; next_rel r) (λ r s', s' = s ∧ waits s r0 r (abs_timeout_list s ++ rel_timeout_list s)) s.
Proof.
  intros Hi Hr0. destruct (ti_times _ _ Hi) as [Hcur Hmono]. apply wp_bind. eapply (wp_mono _ (λ r s', s' = s ∧ waits s r0 r (abs_timeout_list s))).
  - unfold next_abs. apply wp_bind, wp_get. destruct (ti_abs _ _ Hi) as [Ho Hrange]. destruct (abs_timeout_list s) as [|u l] eqn:El; [apply wp_ret; split; [done|by apply waits_none]|].
    destruct (abs_user None s u Hi) as (x & Hx & Ew); [rewrite El; by left|]. apply wp_bind, (wp_get_user _ x); [done|]. apply wp_ret. split; [done|]. assert (0 < tu_when x <= 9223372036854775807) as Hw by (rewrite <-Ew; apply Hrange; by left).
    apply (waits_closer s r0 r0 [] (u :: l) u x); [by apply waits_none|by left|done|rewrite (proj2 (Z.ltb_lt 0 _)) by lia; apply s64_small; lia|]. intros v y Hv Hy.
    pose proof (Hrange v Hv) as Hvr. rewrite (when_some _ _ _ Hy) in Hvr. assert (tu_when x <= tu_when y) as Hle.
    { apply elem_of_cons in Hv as [->|Hv]; [rewrite Hx in Hy; by injection Hy as ->|]. apply StronglySorted_inv in Ho as [_ Ho]. rewrite Forall_forall in Ho. specialize (Ho v Hv). by rewrite Ew, (when_some _ _ _ Hy) in Ho. }
    unfold remaining. rewrite !(proj2 (Z.ltb_lt 0 _)) by lia. lia.
  - intros r ? [-> Hw0]. unfold next_rel. apply wp_bind, wp_get. destruct (ti_rel _ _ Hi) as [Ho Hrange]. unfold REL_MIN in Hrange. destruct (rel_timeout_list s) as [|u l] eqn:El; [apply wp_ret; by rewrite app_nil_r|].
    destruct (rel_user None s u Hi) as (x & Hx & Ew); [rewrite El; by left|]. apply wp_bind, (wp_get_user _ x); [done|]. apply wp_ret. split; [done|]. assert (-9223372036854765808 <= tu_when x <= 0) as Hw by (rewrite <-Ew; apply Hrange; by left).
    apply (waits_closer s r0 r _ (u :: l) u x); [done|by left|done|rewrite (proj2 (Z.ltb_ge 0 _)) by lia; rewrite !s64_small; [done|lia|rewrite s64_small; lia]|]. intros v y Hv Hy.
    pose proof (Hrange v Hv) as Hvr. rewrite (when_some _ _ _ Hy) in Hvr. assert (tu_when y <= tu_when x) as Hle.
    { apply elem_of_cons in Hv as [->|Hv]; [rewrite Hx in Hy; by injection Hy as ->|]. apply StronglySorted_inv in Ho as [_ Ho]. rewrite Forall_forall in Ho. specialize (Ho v Hv). rewrite Ew, (when_some _ _ _ Hy) in Ho. lia. }
    unfold remaining. rewrite !(proj2 (Z.ltb_ge 0 _)) by lia. lia.
Qed.

(** ** A round *)

Definition no_wait (s : timeouts) : Z := if user_shared_data s then user_shared_data_timeout else -1.

Definition due_user (s : timeouts) (u : tid) : Prop := from_option (due s) False (t_users s !! u).
#[export] Instance due_user_dec s u : Decision (due_user s u).
Proof. unfold due_user, due. destruct (t_users s !! u) as [x|]; simpl; [|apply _]. destruct (0 <? tu_when x); apply _. Defined.

(** The users that are due: those of the list of absolute times in the order of this
    list, by increasing time, and then those of the list of times of the monotonic clock
    in its order, by increasing time too (they are stored negated). *)
Record due_list (s : timeouts) (d : list tid) : Prop := {
  du_all : ∀ u x, t_users s !! u = Some x → u ∈ d ↔ due s x;
  du_users : ∀ u, u ∈ d → is_Some (t_users s !! u);
  du_nodup : NoDup d;
  du_lists : d = filter (due_user s) (abs_timeout_list s) ++ filter (due_user s) (rel_timeout_list s);
  du_order : ordered Z.le (t_users s) (filter (due_user s) (abs_timeout_list s)) ∧
             ordered Z.ge (t_users s) (filter (due_user s) (rel_timeout_list s));
}.

Definition in_ms (r : Z) : Z := if r =? -1 then -1 else let ms := Z.quot (s64 (r + 9999)) 10000 in if INT_MAX <? ms then INT_MAX else ms.

Lemma due_abs s x : 0 < tu_when x → due s x ↔ tu_when x <= current_time s.
Proof. intros H. unfold due. by rewrite (proj2 (Z.ltb_lt 0 _)). Qed.
Lemma due_rel s x : tu_when x <= 0 → due s x ↔ - tu_when x <= monotonic_time s.
Proof. intros H. unfold due. by rewrite (proj2 (Z.ltb_ge 0 _)). Qed.

Lemma filter_due_split s l1 l2 : Forall (due_user s) l1 → Forall (λ u, ¬ due_user s u) l2 → filter (due_user s) (l1 ++ l2) = l1.
Proof.
  intros H1 H2. rewrite filter_app. replace (filter (due_user s) l2) with (@nil tid); [rewrite app_nil_r|].
  - induction H1 as [|u l Hu _ IH]; [done|]. by rewrite filter_cons_True, IH.
  - symmetry. induction H2 as [|u l Hu _ IH]; [done|]. by rewrite filter_cons_False.
Qed.

(** The two lists split, one after the other. *)
Lemma due_list_split s d a r da dr : timeout_inv None s → expired_list s = [] → d = da ++ dr → abs_timeout_list s = da ++ a → rel_timeout_list s = dr ++ r →
  (∀ u, u ∈ da → when_of (t_users s) u <= current_time s) → (∀ u, u ∈ a → current_time s < when_of (t_users s) u) →
  (∀ u, u ∈ dr → - when_of (t_users s) u <= monotonic_time s) → (∀ u, u ∈ r → monotonic_time s < - when_of (t_users s) u) → due_list s d.
Proof.
  intros Hi He -> Ea Er Ha1 Ha2 Hr1 Hr2. pose proof (ti_nodup _ _ Hi) as Hnd. destruct (ti_abs _ _ Hi) as [Hoa Hra]. destruct (ti_rel _ _ Hi) as [Hor Hrr]. unfold queued in Hnd. rewrite He, app_nil_r, Ea, Er in Hnd. rewrite Ea in Hoa, Hra. rewrite Er in Hor, Hrr.
  assert (Hlive : ∀ u, u ∈ (da ++ a) ++ dr ++ r → ∃ x, t_users s !! u = Some x ∧ when_of (t_users s) u = tu_when x).
  { intros u Hu. destruct (proj2 (ti_users _ _ Hi u)) as [x Hx]; [left; unfold queued; rewrite Ea, Er, He; set_solver|]. exists x. split; [done|by apply when_some]. }
  assert (Hda : ∀ u, u ∈ da ++ a → due_user s u ↔ when_of (t_users s) u <= current_time s).
  { intros u Hu. destruct (Hlive u) as (x & Hx & Ew); [set_solver|]. specialize (Hra u Hu). unfold due_user. rewrite Hx. simpl. rewrite due_abs by lia. by rewrite Ew. }
  assert (Hdr : ∀ u, u ∈ dr ++ r → due_user s u ↔ - when_of (t_users s) u <= monotonic_time s).
  { intros u Hu. destruct (Hlive u) as (x & Hx & Ew); [set_solver|]. specialize (Hrr u Hu). unfold due_user. rewrite Hx. simpl. rewrite due_rel by lia. by rewrite Ew. }
  assert (filter (due_user s) (abs_timeout_list s) = da) as Fa.
  { rewrite Ea. apply filter_due_split; apply Forall_forall; intros u Hu; rewrite Hda by set_solver; [by apply Ha1|]. specialize (Ha2 u Hu). lia. }
  assert (filter (due_user s) (rel_timeout_list s) = dr) as Fr.
  { rewrite Er. apply filter_due_split; apply Forall_forall; intros u Hu; rewrite Hdr by set_solver; [by apply Hr1|]. specialize (Hr2 u Hu). lia. }
  split.
  - intros u x Hx. pose proof (when_some _ _ _ Hx) as Ew. destruct (proj1 (ti_users _ _ Hi u) (mk_is_Some _ _ Hx)) as [Hq|]; [|done]. unfold queued in Hq. rewrite He, app_nil_r, Ea, Er in Hq. apply elem_of_app in Hq as [Hq|Hq].
    + pose proof (Hra u Hq) as Hw. rewrite Ew in Hw. rewrite due_abs by lia. rewrite <-Ew. apply elem_of_app in Hq as [Hq|Hq]; [split; [auto|set_solver]|]. split; [|intros ?; specialize (Ha2 u Hq); lia]. intros Hd. exfalso. rewrite !NoDup_app in Hnd. set_solver.
    + pose proof (Hrr u Hq) as Hw. rewrite Ew in Hw. rewrite due_rel by lia. rewrite <-Ew. apply elem_of_app in Hq as [Hq|Hq]; [split; [auto|set_solver]|]. split; [|intros ?; specialize (Hr2 u Hq); lia]. intros Hd. exfalso. rewrite !NoDup_app in Hnd. set_solver.
  - intros u Hu. apply Hi. left. unfold queued. rewrite Ea, Er. set_solver.
  - rewrite !NoDup_app in *. set_solver.
  - by rewrite Fa, Fr.
  - rewrite Fa, Fr. exact (conj (proj1 (ordered_app _ _ _ _ Hoa)) (proj1 (ordered_app _ _ _ _ Hor))).
Qed.

Lemma get_next_timeout_ok callback `{!Callbacks callback} ts s : timeout_inv None s → expired_list s = [] →
  wp (get_next_timeout callback ts) (λ q s', timeout_inv None s' ∧ expired_list s' = [] ∧ ∃ d new r, due_list s d ∧ called_all d s s' new ∧ waits s' (no_wait s) r (queued s') ∧ fst q = in_ms r) s.
Proof.
  intros Hi He. unfold get_next_timeout. apply wp_bind, wp_get. fold (no_wait s). assert (no_wait s = -1 ∨ 0 <= no_wait s) as H0 by (unfold no_wait; destruct (user_shared_data s); [right; done|by left]).
  apply wp_bind. eapply (wp_mono _ (λ r s', timeout_inv None s' ∧ expired_list s' = [] ∧ ∃ d new, due_list s d ∧ called_all d s s' new ∧ waits s' (no_wait s) r (queued s'))).
  - set (b := _ || _). destruct b eqn:Eb; unfold b in Eb.
    + apply wp_bind, wp_modify. replace (set_lists (abs_timeout_list s) (rel_timeout_list s) [] s) with s by (destruct s; simpl in *; by subst).
      apply wp_bind. eapply wp_mono; [by apply expire_abs_ok|]. intros ? s1 (Hi1 & Hre1 & Er1 & da & Ea & Ee1 & Hd1 & Hd2). apply wp_bind. rewrite <-Er1.
      eapply wp_mono; [by apply expire_rel_ok|]. intros ? s2 (Hi2 & Hre2 & Ea2 & dr & Er & Ee2 & Hd3 & Hd4). assert (relisted s s2) as Hre by (by eapply relisted_trans). apply wp_bind, wp_get. apply wp_bind.
      rewrite Hre1 in Hd3, Hd4. simpl in Hd3, Hd4. assert (due_list s (expired_list s2)) as Hdue.
      { eapply (due_list_split s _ (abs_timeout_list s1) (rel_timeout_list s2) da dr); [done|done|by rewrite Ee2, Ee1, He|done|by rewrite <-Er1|done|done|done|done]. }
      eapply wp_mono; [by apply call_expired_ok|]. intros ? s3 (Hi3 & He3 & new & Hc). eapply wp_mono; [by apply (next_ok (no_wait s))|]. intros r ? [-> Hw]. split; [done|]. split; [done|]. exists (expired_list s2), new. split; [done|]. split.
      * rewrite Hre in Hc. destruct Hc as [C1 C2 C3 C4 C5 C6]. by split.
      * unfold queued. by rewrite He3, app_nil_r.
    + apply orb_false_iff in Eb as [Ea%negb_false_iff%bool_decide_eq_true Er%negb_false_iff%bool_decide_eq_true]. apply wp_ret. split; [done|]. split; [done|]. exists [], []. split; [|split].
      * apply (due_list_split s [] [] [] [] []); try done; by intros u ?%elem_of_nil.
      * split; [done|done|by intros u ?%elem_of_nil|by left|intros u x Hx _; split; [done|apply not_elem_of_nil]|done].
      * unfold queued. rewrite Ea, Er, He. by apply waits_none.
  - intros r s' (Hi' & He' & d & new & Hd & Hc & Hw). unfold in_ms. destruct (r =? -1) eqn:E; apply wp_ret; (split; [done|]; split; [done|]; exists d, new, r; by rewrite E).
Qed.

Lemma in_ms_ok r : 0 <= r <= 9223372036854765808 → 0 <= in_ms r <= INT_MAX ∧ (in_ms r - 1) * 10000 < r ∧ (in_ms r < INT_MAX → r <= in_ms r * 10000).
Proof.
  intros Hr. unfold in_ms, INT_MAX. rewrite (proj2 (Z.eqb_neq r (-1))), s64_small, Z.quot_div_nonneg by lia. pose proof (Z.div_mod (r + 9999) 10000 ltac:(lia)). pose proof (Z.mod_pos_bound (r + 9999) 10000 ltac:(lia)).
  cbv zeta. destruct (Z.ltb_spec 2147483647 ((r + 9999) / 10000)); lia.
Qed.

Lemma remaining_range run s u x : timeout_inv run s → u ∈ queued s → expired_list s = [] → t_users s !! u = Some x → 0 <= remaining s x <= 9223372036854765808.
Proof.
  intros Hi Hu He Hx. destruct (ti_times _ _ Hi). pose proof (when_some _ _ _ Hx) as Ew. unfold queued in Hu. rewrite He, app_nil_r in Hu. unfold remaining. apply elem_of_app in Hu as [Hu|Hu].
  - pose proof (proj2 (ti_abs _ _ Hi) u Hu) as Hw. rewrite Ew in Hw. rewrite (proj2 (Z.ltb_lt 0 _)) by lia. lia.
  - pose proof (proj2 (ti_rel _ _ Hi) u Hu) as Hw. rewrite Ew in Hw. unfold REL_MIN in Hw. rewrite (proj2 (Z.ltb_ge 0 _)) by lia. lia.
Qed.

(** ** Callbacks that add and remove users *)

Inductive cb_op := cb_add (when private : Z) | cb_remove (u : tid).

(** A user is removed if it is waiting. *)
Fixpoint run_cb (ops : list cb_op) : T unit :=
  match ops with
  | [] => ret tt
  | cb_add when private :: ops => u <- add_timeout_user when private; run_cb ops
  | cb_remove u :: ops => s <- get; (if bool_decide (u ∈ queued s) then remove_timeout_user u else ret tt) ;; run_cb ops
  end.

Definition cb_ok (op : cb_op) : Prop := match op with cb_add when _ => timeout_ok when | cb_remove _ => True end.

Lemma tm_moved_refl run s : timeout_inv run s → moved s s.
Proof. intros Hi. by eapply moved_add. Qed.

Lemma run_cb_ok run ops : Forall cb_ok ops → ∀ s, timeout_inv run s → wp (run_cb ops) (λ _ s', timeout_inv run s' ∧ moved s s') s.
Proof.
  induction 1 as [|op ops Hop _ IH]; intros s Hi; cbn [run_cb]; [apply wp_ret; split; [done|by eapply tm_moved_refl]|].
  assert (∀ s1, timeout_inv run s1 → moved s s1 → wp (run_cb ops) (λ _ s', timeout_inv run s' ∧ moved s s') s1) as Hgo.
  { intros s1 Hi1 Hm1. eapply wp_mono; [by apply IH|]. intros ? s2 [Hi2 Hm2]. split; [done|]. by eapply tm_moved_trans. }
  destruct op as [when p|u].
  - apply wp_bind. eapply wp_mono; [by apply (add_timeout_user_ok run)|]. intros r s1 (Hi1 & Hm1 & _). by apply Hgo.
  - apply wp_bind, wp_get. case_bool_decide as Hu; apply wp_bind; [|by apply wp_ret, Hgo; [|eapply tm_moved_refl]]. eapply wp_mono; [by apply (remove_timeout_user_ok run)|]. intros ? s1 (Hi1 & Hm1 & _). by apply Hgo.
Qed.

#[export] Instance scripted_callbacks (f : Z → list cb_op) (H : ∀ p, Forall cb_ok (f p)) : Callbacks (λ p, run_cb (f p)).
Proof. intros p u s Hi. by apply run_cb_ok. Qed.

(** Whenever it is called, the user of 1 adds itself again and that of 2 removes user 3. *)
Definition demo_script (p : Z) : list cb_op := if p =? 1 then [cb_add (-50000) 1] else if p =? 2 then [cb_remove 3%positive] else [].
Lemma demo_script_ok p : Forall cb_ok (demo_script p).
Proof. unfold demo_script. destruct (p =? 1), (p =? 2); repeat constructor; vm_compute; discriminate. Qed.

Definition no_timeouts : timeouts := Timeouts ∅ 1 [] [] [] 200000 100000 false 0 [] [].
Lemma no_timeouts_inv : timeout_inv None no_timeouts.
Proof.
  split; simpl; [|constructor|done| | | |lia].
  - intros u. rewrite lookup_empty. unfold queued. simpl. rewrite elem_of_nil. split; [by intros []|by intros [|]].
  - intros u. rewrite lookup_empty. by intros [].
  - split; [constructor|by intros u ?%elem_of_nil].
  - split; [constructor|by intros u ?%elem_of_nil].
Qed.

(** Three users, of which two are due 50000 ticks later. *)
Definition demo_timeouts : timeouts :=
  match run_cb [cb_add (-40000) 1; cb_add 240000 2; cb_add (-45000) 3; cb_add (-123456) 4] no_timeouts with
  | Done _ s => set_times 250000 150000 s
  | Fault _ => no_timeouts
  end.

Lemma demo_timeouts_inv : timeout_inv None demo_timeouts ∧ expired_list demo_timeouts = [].
Proof.
  split; [|vm_compute; reflexivity]. assert (Forall cb_ok [cb_add (-40000) 1; cb_add 240000 2; cb_add (-45000) 3; cb_add (-123456) 4]) as Hok by (repeat constructor; vm_compute; discriminate).
  unfold demo_timeouts. destruct (wp_run _ _ _ (run_cb_ok None _ Hok no_timeouts no_timeouts_inv)) as ([] & s & -> & Hi & _). destruct Hi as [H1 H2 H3 H4 H5 H6 H7]. by split.
Qed.

(** ** Properties *)

(** C31: A round of the main loop, from a state with sorted lists and times in range
    ([timeout_inv]) and with callbacks that add users with times in range, remove waiting
    users and otherwise leave the timeouts alone ([Callbacks]), calls exactly the users
    that are due when it starts, each once, except for those that an earlier callback removes.
    The calls are in the order of the list of absolute times and then of the list of relative
    times, each by increasing time.  The other users stay unless a callback removes
    them, and the lists are sorted afterwards. *)
Theorem get_next_timeout_calls callback `{!Callbacks callback} ts s : timeout_inv None s → expired_list s = [] →
  ∃ q s' d new, get_next_timeout callback ts s = Done q s' ∧ timeout_inv None s' ∧ expired_list s' = [] ∧ due_list s d ∧ called_all d s s' new.
Proof.
  intros Hi He. destruct (wp_run _ _ _ (get_next_timeout_ok callback ts s Hi He)) as (q & s' & E & Hi' & He' & d & new & r & Hd & Hc & _). by exists q, s', d, new.
Qed.

(** The users 1, 2 and 3 are due; the callback of 2, which is first, removes 3. *)
Lemma get_next_timeout_calls_witness : ∃ q s' d new, get_next_timeout (λ p, run_cb (demo_script p)) true demo_timeouts = Done q s' ∧ due_list demo_timeouts d ∧ called_all d demo_timeouts s' new ∧
  t_events s' = [Called 1; Removed 3; Called 2] ∧ q = (5, Some (0, 5000000)).
Proof.
  pose proof (scripted_callbacks demo_script demo_script_ok) as HC. destruct (get_next_timeout_calls (λ p, run_cb (demo_script p)) true demo_timeouts) as (q & s' & d & new & E & _ & _ & Hd & Hc); [apply demo_timeouts_inv|apply demo_timeouts_inv|].
  exists q, s', d, new. split; [exact E|]. split; [exact Hd|]. split; [exact Hc|]. vm_compute in E. injection E as <- <-. split; reflexivity.
Defined.

(** C32: The time to wait, under the same conditions; in particular the times of
    waiting users are at least [REL_MIN] (a relative timeout of 29000 years), which the code does not check.
    It is rounded up to milliseconds, and no user is due more than a millisecond before
    its end.  It is infinite exactly when no user is left and the shared data page is
    not mapped, at most 16 ms when the page is mapped, and at most [INT_MAX] ms; if
    neither of these two limits is reached, at least one user is due at its end. *)
Theorem get_next_timeout_waits callback `{!Callbacks callback} ts s : timeout_inv None s → expired_list s = [] →
  ∃ ms t s', get_next_timeout callback ts s = Done (ms, t) s' ∧ (ms = -1 ↔ user_shared_data s = false ∧ t_users s' = ∅) ∧
    (ms ≠ -1 → 0 <= ms <= INT_MAX ∧ (∀ u x, t_users s' !! u = Some x → (ms - 1) * 10000 < remaining s' x) ∧ (user_shared_data s = true → ms <= 16) ∧
      (ms < INT_MAX → (∃ u x, t_users s' !! u = Some x ∧ remaining s' x <= ms * 10000) ∨ user_shared_data s = true ∧ ms = 16)).
Proof.
  intros Hi He. destruct (wp_run _ _ _ (get_next_timeout_ok callback ts s Hi He)) as ([ms t] & s' & E & Hi' & He' & d & new & r & _ & _ & [W1 W2] & Ems). simpl in Ems. subst ms. exists (in_ms r), t, s'. split; [done|].
  assert (∀ u x, t_users s' !! u = Some x → u ∈ queued s') as Hq by (intros u x Hx; destruct (proj1 (ti_users _ _ Hi' u) (mk_is_Some _ _ Hx)); done).
  assert (queued s' = [] ↔ t_users s' = ∅) as Hempty.
  { split; [intros E0; apply map_empty; intros u; apply eq_None_not_Some; intros [x Hx]; specialize (Hq u x Hx); rewrite E0 in Hq; by apply elem_of_nil in Hq|].
    intros E0. apply elem_of_nil_inv. intros u Hu. destruct (proj2 (ti_users _ _ Hi' u) (or_introl Hu)) as [x Hx]. by rewrite E0, lookup_empty in Hx. }
  destruct (decide (r = -1)) as [Er|Er].
  - assert (in_ms r = -1) as -> by (by rewrite Er). split; [|lia]. split; [intros _|done]. destruct (proj1 W1 Er) as [E0 ?]. split; [|tauto]. unfold no_wait in E0. by destruct (user_shared_data s).
  - destruct (W2 Er) as (G1 & G2 & G3 & G4). assert (r <= 9223372036854765808) as Hmax.
    { destruct G4 as [->|(u & x & Hu & Hx & ->)]; [unfold no_wait; by destruct (user_shared_data s)|]. by eapply remaining_range. }
    destruct (in_ms_ok r) as (M1 & M2 & M3); [lia|]. split; [split; [lia|]; intros [E0 E1]; exfalso; apply Er, W1; unfold no_wait; rewrite E0; tauto|]. intros _. split; [done|]. split; [intros u x Hx; specialize (G3 u x (Hq u x Hx) Hx); lia|]. split.
    + intros Hs. assert (r <= 160000) as Hle by (unfold no_wait, user_shared_data_timeout in G2; rewrite Hs in G2; by apply G2). lia.
    + intros Hlt. specialize (M3 Hlt). destruct G4 as [Er0|(u & x & Hu & Hx & ->)]; [|left; by exists u, x]. right. unfold no_wait in Er0. destruct (user_shared_data s); [|done]. split; [done|]. by rewrite Er0.
Qed.

(** Nothing keeps relative timeouts in range: the sum of a very long one and of the clock wraps
    around to a positive number, and it is queued as an absolute time. *)
Lemma long_timeout_wraps s p : 0 < monotonic_time s <= 4611686018427387904 → t_allocs s = [] → abs_timeout_list s = [] →
  ∃ s', add_timeout_user (-9223372036854775808) p s = Done (Some (t_next s)) s' ∧ abs_timeout_list s' = [t_next s] ∧
    rel_timeout_list s' = rel_timeout_list s.
Proof.
  intros Hm Ha Hl. assert (timeout_to_abstime (-9223372036854775808) (monotonic_time s) = 9223372036854775808 - monotonic_time s) as E.
  { unfold timeout_to_abstime, s64. change (0 <? -9223372036854775808) with false. cbv iota.
    rewrite <-(Zmod_unique (-9223372036854775808 - monotonic_time s + 9223372036854775808) 18446744073709551616 (-1) (18446744073709551616 - monotonic_time s)) by lia. lia. }
  assert (wp (add_timeout_user (-9223372036854775808) p) (λ r s', r = Some (t_next s) ∧ abs_timeout_list s' = [t_next s] ∧ rel_timeout_list s' = rel_timeout_list s) s) as Hwp.
  { unfold add_timeout_user, t_malloc. apply wp_bind, wp_bind, wp_get. rewrite Ha. apply wp_ret, wp_bind, wp_get. cbv zeta. rewrite E, (proj2 (Z.ltb_lt 0 _)), Hl by lia.
    apply wp_bind, wp_modify, wp_bind, wp_modify, wp_bind. cbn [insert_user]. apply wp_bind, wp_ret, wp_modify, wp_ret. done. }
  destruct (wp_run _ _ _ Hwp) as (r & s' & Er & -> & H). by exists s'.
Qed.

Lemma get_next_timeout_waits_witness : ∃ ms t s', get_next_timeout (λ p, run_cb (demo_script p)) false demo_timeouts = Done (ms, t) s' ∧ ms = 5 ∧ (∀ u x, t_users s' !! u = Some x → 40000 < remaining s' x).
Proof.
  pose proof (scripted_callbacks demo_script demo_script_ok) as HC. destruct (get_next_timeout_waits (λ p, run_cb (demo_script p)) false demo_timeouts) as (ms & t & s' & E & _ & H); [apply demo_timeouts_inv|apply demo_timeouts_inv|].
  exists ms, t, s'. split; [exact E|]. assert (ms = 5) as -> by (vm_compute in E; by injection E as <- _ _). split; [reflexivity|]. apply H. discriminate.
Defined.
