(* ===== verification/Poll.v ===== *)
(** * The poll array (server/fd.c)

    Every descriptor that is watched has an entry in two parallel arrays; the free entries
    are chained by pointers in the array of users itself.  The main loop polls the entries
    and hands the events on, while the handlers may add and remove entries. *)

From stdpp Require Import base list gmap fin_maps.
From S2P Require Import Prelude.

Open Scope Z_scope.
Open Scope server_scope.

(** ** Data *)

Notation pfd := positive (only parsing).

Definition POLLERR : Z := 8.

(** A pointer into [poll_users]: an index in the array as it was at one of its moves. *)
Notation pptr := (nat * nat)%type (only parsing).

(** An entry of [poll_users]: a descriptor, or a link of the free list. *)
Inductive slot := S_fd (f : pfd) | S_free (next : option pptr).

Record pollfd := PollFd {
  p_fd : Z;
  p_events : Z;
  p_revents : Z;
}.

(** [p_move] counts the moves of the array of users; [poll_index] and [unix_fds] are fields of the
    descriptors, [delivered] a record of the calls of [fd_poll_event], the latest first. *)
Record polls := Polls {
  poll_users : list (option slot);
  p_move : nat;
  pollfds : list (option pollfd);
  nb_users : nat;
  active_users : Z;
  allocated_users : nat;
  freelist : option pptr;
  poll_index : gmap pfd Z;
  unix_fds : gmap pfd Z;
  p_allocs : list bool;
  delivered : list (nat * pfd * Z);
}.

Notation P := (ST polls).

Definition set_poll_users (l : list (option slot)) (s : polls) : polls :=
  Polls l (p_move s) (pollfds s) (nb_users s) (active_users s) (allocated_users s) (freelist s) (poll_index s) (unix_fds s) (p_allocs s) (delivered s).
Definition set_pollfds (l : list (option pollfd)) (s : polls) : polls :=
  Polls (poll_users s) (p_move s) l (nb_users s) (active_users s) (allocated_users s) (freelist s) (poll_index s) (unix_fds s) (p_allocs s) (delivered s).
Definition set_counts (nb : nat) (active : Z) (s : polls) : polls :=
  Polls (poll_users s) (p_move s) (pollfds s) nb active (allocated_users s) (freelist s) (poll_index s) (unix_fds s) (p_allocs s) (delivered s).
Definition set_freelist (p : option pptr) (s : polls) : polls :=
  Polls (poll_users s) (p_move s) (pollfds s) (nb_users s) (active_users s) (allocated_users s) p (poll_index s) (unix_fds s) (p_allocs s) (delivered s).
Definition set_poll_index (f : gmap pfd Z → gmap pfd Z) (s : polls) : polls :=
  Polls (poll_users s) (p_move s) (pollfds s) (nb_users s) (active_users s) (allocated_users s) (freelist s) (f (poll_index s)) (unix_fds s) (p_allocs s) (delivered s).
Definition set_unix_fds (f : gmap pfd Z → gmap pfd Z) (s : polls) : polls :=
  Polls (poll_users s) (p_move s) (pollfds s) (nb_users s) (active_users s) (allocated_users s) (freelist s) (poll_index s) (f (unix_fds s)) (p_allocs s) (delivered s).
Definition set_p_allocs (l : list bool) (s : polls) : polls :=
  Polls (poll_users s) (p_move s) (pollfds s) (nb_users s) (active_users s) (allocated_users s) (freelist s) (poll_index s) (unix_fds s) l (delivered s).
Definition add_delivered (d : nat * pfd * Z) (s : polls) : polls :=
  Polls (poll_users s) (p_move s) (pollfds s) (nb_users s) (active_users s) (allocated_users s) (freelist s) (poll_index s) (unix_fds s) (p_allocs s) (d :: delivered s).

(** The arrays at new places, with room for [n] entries. *)
Definition enlarge {A} (l : list (option A)) (n : nat) : list (option A) := l ++ replicate (n - length l) None.
Definition move_users (n : nat) (s : polls) : polls :=
  Polls (enlarge (poll_users s) n) (S (p_move s)) (pollfds s) (nb_users s) (active_users s) (allocated_users s) (freelist s) (poll_index s) (unix_fds s) (p_allocs s) (delivered s).
Definition move_pollfds (n : nat) (s : polls) : polls :=
  Polls (poll_users s) (p_move s) (enlarge (pollfds s) n) (nb_users s) (active_users s) n (freelist s) (poll_index s) (unix_fds s) (p_allocs s) (delivered s).

Definition p_realloc : P bool := s <- get; match p_allocs s with [] => ret true | b :: l => modify (set_p_allocs l) ;; ret b end.
Definition read {A} (l : list (option A)) (i : nat) : P A :=
  match l !! i with Some (Some x) => ret x | Some None => fail Uninitialized | None => fail OutOfBounds end.
Definition write_user (i : nat) (x : slot) : P unit :=
  s <- get; if (i <? length (poll_users s))%nat then modify (set_poll_users (<[i:=Some x]> (poll_users s))) else fail OutOfBounds.
Definition write_pollfd (i : nat) (x : pollfd) : P unit :=
  s <- get; if (i <? length (pollfds s))%nat then modify (set_pollfds (<[i:=Some x]> (pollfds s))) else fail OutOfBounds.

(** A pointer is used as an index; it dangles if the array has moved since. *)
Definition index_of (p : pptr) : P nat := s <- get; if (fst p =? p_move s)%nat then ret (snd p) else fail NullDeref.

(** ** Operations *)

Definition grow_poll : P bool :=
  s <- get;
  if (nb_users s =? allocated_users s)%nat then
    let new_count := if (allocated_users s =? 0)%nat then 16%nat else (allocated_users s + allocated_users s / 2)%nat in
    ok <- p_realloc;
    if negb ok then ret false
    else
      ok <- p_realloc;
      if negb ok then (if (allocated_users s =? 0)%nat then ret tt else modify (move_users new_count)) ;; ret false
      else modify (move_users new_count) ;; modify (move_pollfds new_count) ;; ret true
  else ret true.

(** The index of the new entry, or -1. *)
Definition add_poll_user (f : pfd) : P Z :=
  s <- get;
  r <- match freelist s with
       | Some p =>
           i <- index_of p;
           x <- read (poll_users s) i;
           match x with
           | S_free next => modify (set_freelist next) ;; ret (Some i)
           | S_fd _ => fail Uninitialized
           end
       | None =>
           ok <- grow_poll;
           if negb ok then ret None
           else s <- get; modify (set_counts (S (nb_users s)) (active_users s)) ;; ret (Some (nb_users s))
       end;
  match r with
  | None => ret (-1)
  | Some i =>
      write_pollfd i (PollFd (-1) 0 0) ;;
      write_user i (S_fd f) ;;
      s <- get;
      modify (set_counts (nb_users s) (active_users s + 1)) ;;
      ret (Z.of_nat i)
  end.

Definition is_fd (x : slot) (f : pfd) : bool := match x with S_fd g => bool_decide (g = f) | S_free _ => false end.

Definition remove_poll_user (f : pfd) (user : Z) : P unit :=
  assert (0 <=? user) ;;
  s <- get;
  x <- read (poll_users s) (Z.to_nat user);
  assert (is_fd x f) ;;
  write_pollfd (Z.to_nat user) (PollFd (-1) 0 0) ;;
  write_user (Z.to_nat user) (S_free (freelist s)) ;;
  modify (set_freelist (Some (p_move s, Z.to_nat user))) ;;
  s <- get;
  modify (set_counts (nb_users s) (active_users s - 1)).

Definition set_fd_events (f : pfd) (events : Z) : P unit :=
  s <- get;
  user <- deref (poll_index s !! f);
  (if user <? 0 then fail OutOfBounds else ret tt) ;;
  x <- read (poll_users s) (Z.to_nat user);
  assert (is_fd x f) ;;
  if events =? -1 then write_pollfd (Z.to_nat user) (PollFd (-1) POLLERR 0)
  else
    p <- read (pollfds s) (Z.to_nat user);
    u <- deref (unix_fds s !! f);
    write_pollfd (Z.to_nat user) (PollFd u events (p_revents p)).

(** The parts of [alloc_fd_object] and of [fd_destroy] about the poll array; the Unix descriptor is set later. *)
Definition alloc_poll_fd (f : pfd) : P bool :=
  i <- add_poll_user f;
  if i =? -1 then ret false
  else modify (set_poll_index (<[f:=i]>)) ;; modify (set_unix_fds (<[f:=-1]>)) ;; ret true.
Definition set_unix_fd (f : pfd) (u : Z) : P unit := modify (set_unix_fds (<[f:=u]>)).
Definition destroy_poll_fd (f : pfd) : P unit :=
  s <- get;
  user <- deref (poll_index s !! f);
  (if negb (user =? -1) then remove_poll_user f user else ret tt) ;;
  modify (set_poll_index (delete f)) ;;
  modify (set_unix_fds (delete f)).

(** ** The main loop *)

(** [poll] sets the events of all entries in use. *)
Fixpoint set_revents (i : nat) (rs : list Z) (l : list (option pollfd)) : list (option pollfd) :=
  match rs with
  | [] => l
  | r :: rs => set_revents (S i) rs (alter (option_map (λ p, PollFd (p_fd p) (p_events p) r)) i l)
  end.

Section main_loop.
(** [fd_poll_event] of the descriptor. *)
Variable fd_poll_event : pfd → Z → P unit.

Fixpoint dispatch (n : nat) (i : nat) (left : Z) : P unit :=
  s <- get;
  if negb (i <? nb_users s)%nat then ret tt
  else
    match n with
    | O => fail OutOfFuel
    | S n =>
        p <- read (pollfds s) i;
        if negb (p_revents p =? 0) then
          x <- read (poll_users s) i;
          match x with
          | S_fd f =>
              modify (add_delivered (i, f, p_revents p)) ;;
              fd_poll_event f (p_revents p) ;;
              if left - 1 =? 0 then ret tt else dispatch n (S i) (left - 1)
          | S_free _ => fail NullDeref
          end
        else dispatch n (S i) left
    end.

(** A round of the [poll] loop of [main_loop] (the one used without epoll or kqueue)
    with the events [rs] of the entries, of which [poll] returns the number that are not 0. *)
Definition poll_round (n : nat) (rs : list Z) : P unit :=
  modify (λ s, set_pollfds (set_revents 0 rs (pollfds s)) s) ;;
  let count := Z.of_nat (length (filter (λ r, r ≠ 0) rs)) in
  if 0 <? count then dispatch n 0 count else ret tt.
End main_loop.
