(* ===== verification/PollThms.v ===== *)
(** * The entries of the poll array

    The array is a map from indices to descriptors with a list of free entries; events
    go to the descriptor they are of, whatever the handlers do. *)

From stdpp Require Import base list gmap fin_maps.
From S2P Require Import Prelude Poll.

Open Scope Z_scope.
Open Scope server_scope.

(** ** The invariant *)

(** The pointers of the free list, from [p] on, lead through the entries [l]. *)
Fixpoint chained (users : list (option slot)) (move : nat) (p : option pptr) (l : list nat) : Prop :=
  match l with
  | [] => p = None
  | i :: l => p = Some (move, i) ∧ ∃ next, users !! i = Some (Some (S_free next)) ∧ chained users move next l
  end.

Definition owner (s : polls) (i : nat) (f : pfd) : Prop := (i < nb_users s)%nat ∧ poll_users s !! i = Some (Some (S_fd f)).
Definition revents (s : polls) (i : nat) : Z := match pollfds s !! i with Some (Some p) => p_revents p | _ => 0 end.

Record poll_inv (free : list nat) (s : polls) : Prop := {
  pi_size : (nb_users s <= allocated_users s)%nat ∧ (allocated_users s <= length (poll_users s))%nat ∧ length (pollfds s) = allocated_users s ∧ (allocated_users s = 0%nat ∨ (16 <= allocated_users s)%nat);
  pi_users : ∀ i, (i < nb_users s)%nat → i ∈ free ∨ ∃ f, poll_users s !! i = Some (Some (S_fd f)) ∧ poll_index s !! f = Some (Z.of_nat i);
  pi_pollfds : ∀ i, (i < nb_users s)%nat → ∃ p, pollfds s !! i = Some (Some p) ∧ (i ∈ free → p = PollFd (-1) 0 0);
  pi_free : NoDup free ∧ (∀ i, i ∈ free → (i < nb_users s)%nat) ∧ chained (poll_users s) (p_move s) (freelist s) free;
  pi_active : active_users s = Z.of_nat (nb_users s) - Z.of_nat (length free);
  pi_index : ∀ f i, poll_index s !! f = Some i → ∃ n, i = Z.of_nat n ∧ owner s n f;
  pi_unix : ∀ f, is_Some (poll_index s !! f) → is_Some (unix_fds s !! f);
  pi_rest : ∀ i, (nb_users s <= i)%nat → revents s i = 0;
}.

Lemma chained_elem users move l : ∀ p i, chained users move p l → i ∈ l → ∃ next, users !! i = Some (Some (S_free next)).
Proof. induction l as [|j l IH]; intros p i; simpl; [by intros _ ?%elem_of_nil|]. intros (_ & next & Hj & Hc) [->|Hi]%elem_of_cons; [by exists next|by eapply IH]. Qed.

Lemma chained_insert users move l : ∀ p i x, chained users move p l → i ∉ l → chained (<[i:=x]> users) move p l.
Proof.
  induction l as [|j l IH]; intros p i x; simpl; [done|]. rewrite not_elem_of_cons. intros (-> & next & Hj & Hc) [? ?]. split; [done|]. exists next. rewrite list_lookup_insert_ne by done. split; [done|]. by apply IH.
Qed.

(** An entry that has an owner is not free. *)
Lemma owner_not_free free s i f : poll_inv free s → owner s i f → i ∉ free.
Proof. intros Hi [_ Ho] Hf. destruct (pi_free _ _ Hi) as (_ & _ & Hc). destruct (chained_elem _ _ _ _ _ Hc Hf) as [next Hn]. congruence. Qed.

Lemma owner_index free s i f : poll_inv free s → owner s i f → poll_index s !! f = Some (Z.of_nat i).
Proof. intros Hi Ho. pose proof (owner_not_free _ _ _ _ Hi Ho) as Hn. destruct Ho as [Hlt Ho]. destruct (pi_users _ _ Hi i Hlt) as [?|(g & Hg & Hx)]; [done|]. congruence. Qed.

Lemma wp_read {A} (l : list (option A)) i x (Q : A → polls → Prop) s : l !! i = Some (Some x) → Q x s → wp (read l i) Q s.
Proof. intros Hl HQ. unfold read. by rewrite Hl. Qed.
Lemma wp_write_user i x (Q : unit → polls → Prop) s : (i < length (poll_users s))%nat → Q tt (set_poll_users (<[i:=Some x]> (poll_users s)) s) → wp (write_user i x) Q s.
Proof. intros Hl HQ. unfold write_user. apply wp_bind, wp_get. by rewrite (proj2 (Nat.ltb_lt _ _)). Qed.
Lemma wp_write_pollfd i x (Q : unit → polls → Prop) s : (i < length (pollfds s))%nat → Q tt (set_pollfds (<[i:=Some x]> (pollfds s)) s) → wp (write_pollfd i x) Q s.
Proof. intros Hl HQ. unfold write_pollfd. apply wp_bind, wp_get. by rewrite (proj2 (Nat.ltb_lt _ _)). Qed.

(** ** What other entries see *)

(** The events of an entry are gone, or they are as they were and so is the owner. *)
Record progress (s s' : polls) : Prop := {
  pg_revents : ∀ i, revents s' i = 0 ∨ revents s' i = revents s i ∧ ∀ f, owner s' i f ↔ owner s i f;
  pg_delivered : delivered s' = delivered s;
}.

Lemma progress_refl s : progress s s.
Proof. split; [|done]. intros i. by right. Qed.
Lemma progress_trans s s1 s2 : progress s s1 → progress s1 s2 → progress s s2.
Proof.
  intros [A1 A2] [B1 B2]. split; [|congruence]. intros i. destruct (B1 i) as [?|[E1 E2]]; [by left|]. destruct (A1 i) as [E|[E3 E4]]; [left; congruence|right]. split; [congruence|]. intros f. by rewrite E2.
Qed.

(** ** Room in the arrays *)

Lemma enlarge_lookup {A} (l : list (option A)) n i : (i < length l)%nat → enlarge l n !! i = l !! i.
Proof. intros H. unfold enlarge. by rewrite lookup_app_l. Qed.
Lemma enlarge_length {A} (l : list (option A)) n : length (enlarge l n) = Nat.max (length l) n.
Proof. unfold enlarge. rewrite length_app, length_replicate. lia. Qed.

Lemma revents_enlarge {A} (l : list (option A)) n i x : enlarge l n !! i = Some (Some x) → l !! i = Some (Some x).
Proof.
  intros H. unfold enlarge in H. apply lookup_app_Some in H as [?|[_ H]]; [done|]. by apply lookup_replicate in H as [? _].
Qed.

(** Nothing is free, so that no pointer into the array is left. *)
Lemma move_users_inv n s : poll_inv [] s → poll_inv [] (move_users n s).
Proof.
  intros Hi. destruct (pi_size _ _ Hi) as (H1 & H2 & H3 & H4). assert (∀ i, (i < nb_users s)%nat → enlarge (poll_users s) n !! i = poll_users s !! i) as He by (intros i ?; apply enlarge_lookup; lia).
  split; simpl; [rewrite enlarge_length; split_and!; lia || done| | | | | | |apply Hi].
  - intros i Hlt. rewrite He by done. by apply (pi_users _ _ Hi).
  - apply Hi.
  - apply Hi.
  - apply Hi.
  - intros f i Hf. destruct (pi_index _ _ Hi f i Hf) as (m & -> & Hlt & Ho). exists m. split; [done|]. split; [done|]. simpl. by rewrite He.
  - apply Hi.
Qed.
Lemma revents_moved n s i : revents (move_pollfds n s) i = revents s i.
Proof.
  unfold revents. simpl. destruct (enlarge (pollfds s) n !! i) as [[p|]|] eqn:E; [by rewrite (revents_enlarge _ _ _ _ E)| |].
  - destruct (pollfds s !! i) as [[p|]|] eqn:E2; [|done|done]. assert (i < length (pollfds s))%nat by (by apply lookup_lt_Some in E2). rewrite enlarge_lookup in E by done. congruence.
  - apply lookup_ge_None in E. rewrite enlarge_length in E. by rewrite lookup_ge_None_2 by lia.
Qed.

Lemma move_pollfds_inv n s : poll_inv [] s → (allocated_users s <= n <= length (poll_users s))%nat → (16 <= n)%nat → poll_inv [] (move_pollfds n s).
Proof.
  intros Hi Hn H16. destruct (pi_size _ _ Hi) as (H1 & H2 & H3 & H4). split; simpl; [rewrite enlarge_length; split_and!; lia| | | | | | |intros i ?; rewrite revents_moved; by apply Hi].
  - apply Hi.
  - intros i Hlt. destruct (pi_pollfds _ _ Hi i Hlt) as (p & Hp & Hf). exists p. split; [|done]. rewrite enlarge_lookup; [done|]. by apply lookup_lt_Some in Hp.
  - apply Hi.
  - apply Hi.
  - apply Hi.
  - apply Hi.
Qed.

Lemma moved_progress n s : poll_inv [] s → progress s (move_users n s).
Proof.
  intros Hi. destruct (pi_size _ _ Hi) as (H1 & H2 & _). split; [|done]. intros i. right. split; [done|]. intros f. unfold owner. simpl. split; (intros [? Ho]; split; [done|]); [by apply revents_enlarge in Ho|by rewrite enlarge_lookup by lia].
Qed.
Lemma moved_fds_progress n s : progress s (move_pollfds n s).
Proof. split; [|done]. intros i. right. split; [apply revents_moved|done]. Qed.

Lemma poll_inv_allocs free al s : poll_inv free (set_p_allocs al s) ↔ poll_inv free s.
Proof. split; intros [H1 H2 H3 H4 H5 H6 H7 H8]; by split. Qed.

(** The fields other than the arrays. *)
Definition same_fds (s s' : polls) : Prop := nb_users s' = nb_users s ∧ active_users s' = active_users s ∧ poll_index s' = poll_index s ∧ unix_fds s' = unix_fds s ∧ freelist s' = freelist s.

Lemma grow_poll_ok s : poll_inv [] s →
  wp grow_poll (λ ok s', poll_inv [] s' ∧ progress s s' ∧ same_fds s s' ∧ if ok : bool then (nb_users s' < allocated_users s')%nat else false ∈ p_allocs s) s.
Proof.
  intros Hi. destruct (pi_size _ _ Hi) as (H1 & H2 & H3 & H4). unfold grow_poll. apply wp_bind, wp_get. destruct (Nat.eqb_spec (nb_users s) (allocated_users s)) as [E|E]; [|apply wp_ret; split; [done|]; split; [apply progress_refl|]; split; [done|lia]].
  set (n := if (allocated_users s =? 0)%nat then 16%nat else (allocated_users s + allocated_users s / 2)%nat).
  assert (allocated_users s < n ∧ 16 <= n)%nat as [Hn H16] by (unfold n; destruct (Nat.eqb_spec (allocated_users s) 0); [lia|]; pose proof (Nat.div_le_lower_bound (allocated_users s) 2 1 ltac:(lia) ltac:(lia)); lia).
  assert (Hall : ∀ al, poll_inv [] (set_p_allocs al s) ∧ progress s (set_p_allocs al s) ∧ same_fds s (set_p_allocs al s)) by (intros al; split; [by apply poll_inv_allocs|]; split; [split; [by right|done]|done]).
  assert (Hgo : ∀ s1, poll_inv [] s1 → progress s s1 → same_fds s s1 → allocated_users s1 = allocated_users s → poll_inv [] (move_pollfds n (move_users n s1)) ∧ progress s (move_pollfds n (move_users n s1)) ∧ same_fds s (move_pollfds n (move_users n s1)) ∧ (nb_users s1 < n)%nat).
  { intros s1 I1 P1 F1 A1. pose proof (move_users_inv n s1 I1) as I2. split; [apply move_pollfds_inv; [done|simpl; rewrite enlarge_length; lia|done]|]. split; [|split; [done|destruct F1; lia]].
    apply (progress_trans _ s1); [done|]. apply (progress_trans _ (move_users n s1)); [by apply moved_progress|apply moved_fds_progress]. }
  assert (Hfail : ∀ s1, poll_inv [] s1 → progress s s1 → same_fds s s1 → poll_inv [] (move_users n s1) ∧ progress s (move_users n s1) ∧ same_fds s (move_users n s1)).
  { intros s1 I1 P1 F1. split; [by apply move_users_inv|]. split; [|done]. by apply (progress_trans _ s1); [|apply moved_progress]. }
  unfold p_realloc. apply wp_bind, wp_bind, wp_get. destruct (p_allocs s) as [|[] al] eqn:Ea.
  - apply wp_ret. cbn [negb]. apply wp_bind, wp_bind, wp_get. rewrite Ea. apply wp_ret. cbn [negb]. apply wp_bind, wp_modify. apply wp_bind, wp_modify. apply wp_ret. exact (Hgo s Hi (progress_refl s) ltac:(done) eq_refl).
  - apply wp_bind, wp_modify, wp_ret. cbn [negb]. destruct (Hall al) as (I1 & P1 & F1). apply wp_bind, wp_bind, wp_get. cbn [p_allocs set_p_allocs]. destruct al as [|[] al2].
    + apply wp_ret. cbn [negb]. apply wp_bind, wp_modify. apply wp_bind, wp_modify. apply wp_ret. exact (Hgo _ I1 P1 F1 eq_refl).
    + apply wp_bind, wp_modify, wp_ret. cbn [negb]. destruct (Hall al2) as (I2 & P2 & F2). apply wp_bind, wp_modify. apply wp_bind, wp_modify. apply wp_ret. exact (Hgo _ I2 P2 F2 eq_refl).
    + apply wp_bind, wp_modify, wp_ret. cbn [negb]. destruct (Hall al2) as (? & ? & ?). apply wp_bind. destruct (allocated_users s =? 0)%nat; [apply wp_ret|apply wp_modify]; apply wp_ret.
      * split_and!; [done|done|done..|]. by right; left.
      * destruct (Hfail (set_p_allocs al2 s)) as (? & ? & ?); [done..|]. split_and!; [done|done|done..|]. by right; left.
  - apply wp_bind, wp_modify, wp_ret. cbn [negb]. destruct (Hall al) as (? & ? & ?). apply wp_ret. split_and!; [done|done|done..|]. by left.
Qed.

(** ** Adding *)

(** A descriptor gets an entry that is free or new. *)
Lemma occupy free free' s s' n f : poll_inv free s → poll_index s !! f = None → (n < nb_users s')%nat → (nb_users s' <= allocated_users s')%nat →
  (∀ i, (i < nb_users s')%nat ↔ i = n ∨ (i < nb_users s)%nat) → (∀ i, i ∈ free ↔ (i = n ∧ (n < nb_users s)%nat) ∨ i ∈ free') → n ∉ free' → NoDup free' →
  poll_users s' = <[n:=Some (S_fd f)]> (poll_users s) → pollfds s' = <[n:=Some (PollFd (-1) 0 0)]> (pollfds s) → allocated_users s' = allocated_users s → p_move s' = p_move s →
  chained (poll_users s) (p_move s) (freelist s') free' → active_users s' = Z.of_nat (nb_users s') - Z.of_nat (length free') →
  poll_index s' = <[f:=Z.of_nat n]> (poll_index s) → unix_fds s' = <[f:=-1]> (unix_fds s) → poll_inv free' s'.
Proof.
  intros Hi Hf Hn Hal Hnb Hfr Hnf Hnd Hu Hp Ha Hm Hch Hact Hix Hux. destruct (pi_size _ _ Hi) as (H1 & H2 & H3 & H4). assert (n < length (poll_users s) ∧ n < length (pollfds s))%nat as [Hl1 Hl2] by lia.
  assert (Hfree : ∀ i, i ∈ free' → i ∈ free ∧ i ≠ n) by (intros i ?; split; [apply Hfr; by right|by intros ->]).
  split.
  - rewrite Hu, Hp, !length_insert, Ha. split_and!; lia.
  - intros i [->|Hlt]%Hnb; [right; exists f; rewrite Hu, Hix, list_lookup_insert_eq, lookup_insert_eq by done; done|]. destruct (decide (i = n)) as [->|Hne]; [right; exists f; rewrite Hu, Hix, list_lookup_insert_eq, lookup_insert_eq by done; done|].
    destruct (pi_users _ _ Hi i Hlt) as [Hin|(g & Hg & Hx)]; [left; apply Hfr in Hin as [[-> _]|?]; done|right]. exists g. rewrite Hu, Hix, list_lookup_insert_ne, lookup_insert_ne by congruence. done.
  - intros i Hlt. rewrite Hp. destruct (decide (i = n)) as [->|Hne]; [rewrite list_lookup_insert_eq by done; eexists; split; [done|done]|]. rewrite list_lookup_insert_ne by done. apply Hnb in Hlt as [->|Hlt]; [done|].
    destruct (pi_pollfds _ _ Hi i Hlt) as (p & Hp' & Hpf). exists p. split; [done|]. intros Hin. apply Hpf, Hfr. by right.
  - split; [done|]. split; [intros i [Hin _]%Hfree; apply Hnb; right; by apply (pi_free _ _ Hi)|]. rewrite Hu, Hm. apply chained_insert; [done|]. by intros [_ ?]%Hfree.
  - done.
  - intros g i. rewrite Hix. intros [[<- <-]|[Hne Hg]]%lookup_insert_Some.
    + exists n. split; [done|]. split; [done|]. by rewrite Hu, list_lookup_insert_eq.
    + destruct (pi_index _ _ Hi g i Hg) as (m & -> & Hlt & Ho). exists m. split; [done|]. split; [apply Hnb; by right|]. rewrite Hu, list_lookup_insert_ne; [done|]. intros <-.
      assert (n ∈ free) as Hnin by (apply Hfr; by left). by apply (owner_not_free free s n g Hi).
  - intros g. rewrite Hix, Hux. destruct (decide (g = f)) as [->|Hne]; [rewrite !lookup_insert_eq; by eexists|]. rewrite !lookup_insert_ne by done. apply Hi.
  - intros i Hge. assert (i ≠ n ∧ (nb_users s <= i)%nat) as [Hne Hge'] by (split; [lia|]; destruct (decide (i < nb_users s)%nat); [assert (i < nb_users s')%nat by (apply Hnb; by right)|]; lia).
    unfold revents. rewrite Hp, list_lookup_insert_ne by done. by apply (pi_rest _ _ Hi).
Qed.

Lemma occupy_progress s s' n f : (∀ i, (i < nb_users s')%nat ↔ i = n ∨ (i < nb_users s)%nat) → (n < length (pollfds s))%nat →
  poll_users s' = <[n:=Some (S_fd f)]> (poll_users s) → pollfds s' = <[n:=Some (PollFd (-1) 0 0)]> (pollfds s) → delivered s' = delivered s → progress s s'.
Proof.
  intros Hnb Hl Hu Hp Hd. split; [|done]. intros i. destruct (decide (i = n)) as [->|Hne]; [left; unfold revents; by rewrite Hp, list_lookup_insert_eq|right]. split; [unfold revents; by rewrite Hp, list_lookup_insert_ne|].
  intros g. unfold owner. rewrite Hu, list_lookup_insert_ne, Hnb by done. split; [intros [[?|?] ?]; done|]. intros [? ?]. split; [by right|done].
Qed.

(** What adding a descriptor does. *)
Definition alloc_post (f : pfd) (s : polls) (ok : bool) (s' : polls) : Prop :=
  if ok then ∃ n, (∀ g, ¬ owner s n g) ∧ owner s' n f ∧ poll_index s' = <[f:=Z.of_nat n]> (poll_index s) ∧ active_users s' = active_users s + 1
  else poll_index s' = poll_index s ∧ active_users s' = active_users s ∧ false ∈ p_allocs s.

(** The end of the addition, with the entry chosen. *)
Lemma fill_ok free free' s s1 n f : poll_inv free s1 → progress s s1 → poll_index s1 !! f = None → poll_index s1 = poll_index s → active_users s1 = active_users s → (∀ g, ¬ owner s n g) →
  (n < allocated_users s1)%nat → ∀ fl nb, (n < nb)%nat → (nb <= allocated_users s1)%nat → (∀ i, (i < nb)%nat ↔ i = n ∨ (i < nb_users s1)%nat) →
  (∀ i, i ∈ free ↔ (i = n ∧ (n < nb_users s1)%nat) ∨ i ∈ free') → n ∉ free' → NoDup free' → chained (poll_users s1) (p_move s1) fl free' → active_users s1 + 1 = Z.of_nat nb - Z.of_nat (length free') →
  wp (i <- (write_pollfd n (PollFd (-1) 0 0) ;; write_user n (S_fd f) ;; s <- get; modify (set_counts (nb_users s) (active_users s + 1)) ;; ret (Z.of_nat n));
      if i =? -1 then ret false else modify (set_poll_index (<[f:=i]>)) ;; modify (set_unix_fds (<[f:=-1]>)) ;; ret true)
    (λ ok s', ∃ free', poll_inv free' s' ∧ progress s s' ∧ alloc_post f s ok s') (set_freelist fl (set_counts nb (active_users s1) s1)).
Proof.
  intros Hi Hp Hf Hix Hact Hno Hn fl nb Hnb1 Hnb2 Hnb Hfr Hnf Hnd Hch Ha. destruct (pi_size _ _ Hi) as (H1 & H2 & H3 & H4).
  apply wp_bind, wp_bind, wp_write_pollfd; [simpl; lia|]. apply wp_bind, wp_write_user; [simpl; lia|]. apply wp_bind, wp_get. apply wp_bind, wp_modify, wp_ret. rewrite (proj2 (Z.eqb_neq _ (-1))) by lia. apply wp_bind, wp_modify. apply wp_bind, wp_modify, wp_ret. set (s' := set_unix_fds _ _).
  assert (poll_inv free' s') as Hi'. { apply (occupy free free' s1 s' n f); done. }
  exists free'. split; [done|]. split; [apply (progress_trans _ s1); [done|]; apply (occupy_progress s1 s' n f); [done|lia|done|done|done]|]. exists n. split; [done|]. split; [split; [done|]; simpl; rewrite list_lookup_insert_eq; [done|lia]|]. split; [simpl; by rewrite Hix|simpl; by rewrite Hact].
Qed.

Lemma wp_unbind {A B} (m : P A) (k : A → P B) Q s : wp (st_bind m k) Q s → wp m (λ a s', wp (k a) Q s') s.
Proof. unfold wp, st_bind. by destruct (m s). Qed.

Lemma alloc_poll_fd_ok free f s : poll_inv free s → poll_index s !! f = None →
  wp (alloc_poll_fd f) (λ ok s', ∃ free', poll_inv free' s' ∧ progress s s' ∧ alloc_post f s ok s') s.
Proof.
  intros Hi Hf. destruct (pi_size _ _ Hi) as (H1 & H2 & H3 & H4). destruct (pi_free _ _ Hi) as (Hnd & Hlt & Hch). unfold alloc_poll_fd, add_poll_user. apply wp_bind, wp_bind, wp_get. destruct free as [|n free]; simpl in Hch.
  - rewrite Hch. apply wp_bind, wp_bind. eapply wp_mono; [by apply grow_poll_ok|]. intros [] s1 (Hi1 & Hp1 & (E1 & E2 & E3 & E4 & E5) & Hok); cbn [negb].
    + apply wp_bind, wp_get. apply wp_bind, wp_modify. apply wp_ret. cbv beta iota. destruct (pi_size _ _ Hi1) as (G1 & G2 & G3 & G4). pose proof (pi_active _ _ Hi1) as Hact. simpl in Hact.
      replace (set_counts (S (nb_users s1)) (active_users s1) s1) with (set_freelist None (set_counts (S (nb_users s1)) (active_users s1) s1)) by (destruct s1; simpl in *; by rewrite E5, Hch).
      apply wp_unbind. eapply (fill_ok [] []); [done|done|by rewrite E3|done|done| |lia|lia|lia|intros j; lia|intros j; split; [by intros ?%elem_of_nil|intros [[_ ?]|?]; [lia|done]]|apply not_elem_of_nil|constructor|done|simpl; lia].
      intros g [Hlt' _]. lia.
    + apply wp_ret. cbv beta iota. apply wp_ret. apply wp_ret. exists []. split; [done|]. split; [done|]. by split_and!.
  - destruct Hch as (-> & next & Hn & Hch). apply NoDup_cons in Hnd as [Hnin Hnd]. pose proof (Hlt n (list_elem_of_here _ _)) as Hnlt. apply wp_bind, wp_bind. unfold index_of. apply wp_bind, wp_get. cbn [fst snd]. rewrite Nat.eqb_refl. apply wp_ret.
    apply wp_bind, (wp_read _ _ (S_free next)); [done|]. apply wp_bind, wp_modify, wp_ret. cbv beta iota. pose proof (pi_active _ _ Hi) as Hact. simpl length in Hact.
    replace (set_freelist next s) with (set_freelist next (set_counts (nb_users s) (active_users s) s)) by (by destruct s).
    apply wp_unbind. eapply (fill_ok (n :: free) free); [done|apply progress_refl|done|done|done| |lia|lia|lia|intros j; split; [by right|intros [->|?]; done]|intros j; rewrite elem_of_cons; tauto|done|done|done|lia].
    intros g [_ Ho]. congruence.
Qed.

(** ** Removing and setting events *)

Lemma vacate_inv free s n f : poll_inv free s → owner s n f →
  poll_inv (n :: free) (set_unix_fds (delete f) (set_poll_index (delete f) (set_counts (nb_users s) (active_users s - 1) (set_freelist (Some (p_move s, n))
    (set_poll_users (<[n:=Some (S_free (freelist s))]> (poll_users s)) (set_pollfds (<[n:=Some (PollFd (-1) 0 0)]> (pollfds s)) s)))))).
Proof.
  intros Hi Ho. pose proof (owner_not_free _ _ _ _ Hi Ho) as Hnf. pose proof (owner_index _ _ _ _ Hi Ho) as Hix. destruct (pi_size _ _ Hi) as (H1 & H2 & H3 & H4). destruct (pi_free _ _ Hi) as (Hnd & Hlt & Hch). destruct Ho as [Hn Ho].
  split; simpl; rewrite ?length_insert.
  - by split_and!.
  - intros i Hi'. destruct (decide (i = n)) as [->|Hne]; [left; by left|]. rewrite list_lookup_insert_ne by done. destruct (pi_users _ _ Hi i Hi') as [?|(g & Hg & Hx)]; [left; by right|right]. exists g. split; [done|]. rewrite lookup_delete_ne; [done|]. intros <-. rewrite Hix in Hx. injection Hx. lia.
  - intros i Hi'. destruct (decide (i = n)) as [->|Hne]; [rewrite list_lookup_insert_eq by lia; by eexists|]. rewrite list_lookup_insert_ne by done. destruct (pi_pollfds _ _ Hi i Hi') as (p & Hp & Hpf). exists p. split; [done|]. intros [->|?]%elem_of_cons; [done|auto].
  - split; [by constructor|]. split; [intros i [->|?]%elem_of_cons; [done|auto]|]. split; [done|]. exists (freelist s). rewrite list_lookup_insert_eq by lia. split; [done|]. by apply chained_insert.
  - rewrite (pi_active _ _ Hi). lia.
  - intros g i [Hne Hg]%lookup_delete_Some. destruct (pi_index _ _ Hi g i Hg) as (m & -> & Hm & Hom). exists m. split; [done|]. split; [done|]. simpl. rewrite list_lookup_insert_ne; [done|]. intros <-. congruence.
  - intros g. rewrite !lookup_delete_is_Some. intros [? ?]. split; [done|]. by apply Hi.
  - intros i Hge. unfold revents. simpl. rewrite list_lookup_insert_ne by lia. by apply (pi_rest _ _ Hi).
Qed.

Lemma destroy_poll_fd_ok free f s : poll_inv free s → is_Some (poll_index s !! f) →
  wp (destroy_poll_fd f) (λ _ s', ∃ free', poll_inv free' s' ∧ progress s s' ∧ poll_index s' = delete f (poll_index s) ∧ active_users s' = active_users s - 1) s.
Proof.
  intros Hi [i Hf]. destruct (pi_index _ _ Hi f i Hf) as (n & -> & Ho). pose proof (vacate_inv _ _ _ _ Hi Ho) as Hi'. destruct (pi_size _ _ Hi) as (H1 & H2 & H3 & H4). pose proof Ho as [Hn Hu].
  unfold destroy_poll_fd, remove_poll_user. apply wp_bind, wp_get. apply wp_bind, (wp_deref _ (Z.of_nat n)); [done|]. rewrite (proj2 (Z.eqb_neq _ (-1))) by lia. cbn [negb]. apply wp_bind, wp_bind, wp_assert; [by apply Z.leb_le; lia|]. rewrite Nat2Z.id.
  apply wp_bind, wp_get. apply wp_bind, (wp_read _ _ (S_fd f)); [done|]. apply wp_bind, wp_assert; [simpl; by rewrite bool_decide_true|]. apply wp_bind, wp_write_pollfd; [lia|]. apply wp_bind, wp_write_user; [simpl; lia|]. apply wp_bind, wp_modify. apply wp_bind, wp_get. apply wp_modify. apply wp_bind, wp_modify, wp_modify.
  exists (n :: free). split; [done|]. split; [|done]. split; [|done]. intros j. destruct (decide (j = n)) as [->|Hne]; [left; unfold revents; simpl; rewrite list_lookup_insert_eq by lia; done|right]. split; [unfold revents; simpl; by rewrite list_lookup_insert_ne|].
  intros g. unfold owner. simpl. by rewrite list_lookup_insert_ne.
Qed.

Lemma write_events_inv free s n f p : poll_inv free s → owner s n f → poll_inv free (set_pollfds (<[n:=Some p]> (pollfds s)) s).
Proof.
  intros Hi Ho. pose proof (owner_not_free _ _ _ _ Hi Ho) as Hnf. destruct Hi as [(A1 & A2 & A3 & A4) A5 A6 A7 A8 A9 A10 A11]. destruct Ho as [Hn _]. split; simpl; rewrite ?length_insert; [by split_and!|done| |done|done|done|done|intros i Hge; unfold revents; simpl; rewrite list_lookup_insert_ne by lia; by apply A11].
  intros i Hi'. destruct (decide (i = n)) as [->|Hne]; [rewrite list_lookup_insert_eq by lia; eexists; split; [done|]; by intros ?|]. rewrite list_lookup_insert_ne by done. auto.
Qed.

Lemma set_fd_events_ok free f events s : poll_inv free s → is_Some (poll_index s !! f) → wp (set_fd_events f events) (λ _ s', poll_inv free s' ∧ progress s s' ∧ poll_index s' = poll_index s ∧ active_users s' = active_users s) s.
Proof.
  intros Hi [i Hf]. destruct (pi_index _ _ Hi f i Hf) as (n & -> & Ho). destruct (pi_unix _ _ Hi f) as [u Hu]; [by eexists|]. destruct (pi_size _ _ Hi) as (H1 & H2 & H3 & H4). destruct (pi_pollfds _ _ Hi n (proj1 Ho)) as (p & Hp & _).
  assert (Hprog : ∀ q, p_revents q = 0 ∨ p_revents q = p_revents p → progress s (set_pollfds (<[n:=Some q]> (pollfds s)) s)).
  { intros q Hq. assert (n < length (pollfds s))%nat by (by apply lookup_lt_Some in Hp). split; [|done]. intros j. unfold revents. simpl. destruct (decide (j = n)) as [->|Hne]; [|right; by rewrite list_lookup_insert_ne].
    rewrite list_lookup_insert_eq, Hp by done. destruct Hq as [?|?]; [by left|by right]. }
  unfold set_fd_events. apply wp_bind, wp_get. apply wp_bind, (wp_deref _ (Z.of_nat n)); [done|]. rewrite (proj2 (Z.ltb_ge _ 0)) by lia. apply wp_bind, wp_ret. rewrite Nat2Z.id. apply wp_bind, (wp_read _ _ (S_fd f)); [apply Ho|]. apply wp_bind, wp_assert; [simpl; by rewrite bool_decide_true|].
  destruct (events =? -1).
  - apply wp_write_pollfd; [destruct Ho; lia|]. split; [by apply (write_events_inv free s n f)|]. split; [apply Hprog; by left|done].
  - apply wp_bind, (wp_read _ _ p); [done|]. apply wp_bind, (wp_deref _ u); [done|]. apply wp_write_pollfd; [destruct Ho; lia|]. split; [by apply (write_events_inv free s n f)|]. split; [apply Hprog; by right|done].
Qed.
