(* ===== verification/PollSpecs.v ===== *)
(** * The main loop hands events to their descriptors (server/fd.c) *)

From stdpp Require Import base list gmap fin_maps.
From S2P Require Import Prelude Poll PollThms.

Open Scope Z_scope.
Open Scope server_scope.

(** The promise of the handlers of events: they may add, change and remove entries. *)
Class Handlers (h : pfd → Z → P unit) : Prop :=
  handler_ok : ∀ f ev free s, poll_inv free s → is_Some (poll_index s !! f) → wp (h f ev) (λ _ s', ∃ free', poll_inv free' s' ∧ progress s s') s.

(** ** The loop *)

(** What was handed on in a part of the loop, from entry [i] on: events of entries that had
    them and their owners; the events of the others are gone. *)
Record handed (i : nat) (s s' : polls) (new : list (nat * pfd * Z)) : Prop := {
  hd_delivered : delivered s' = new ++ delivered s;
  hd_right : ∀ j f ev, (j, f, ev) ∈ new → (i <= j)%nat ∧ owner s j f ∧ ev = revents s j ∧ ev ≠ 0;
  hd_once : NoDup ((λ d, fst (fst d)) <$> new);
  hd_all : ∀ j f, (i <= j)%nat → owner s j f → revents s j ≠ 0 → (j, f, revents s j) ∈ new ∨ revents s' j = 0;
  hd_zero : ∀ j, revents s j = 0 → revents s' j = 0;
}.

Lemma handed_none i s : (∀ j f, (i <= j)%nat → owner s j f → revents s j = 0) → handed i s s [].
Proof. intros H. split; [done|by intros j f ev ?%elem_of_nil|constructor| |done]. intros j f Hj Ho Hr. by destruct (Hr (H j f Hj Ho)). Qed.

Lemma handed_skip i s s' new : revents s i = 0 → handed (S i) s s' new → handed i s s' new.
Proof.
  intros Hr [A1 A2 A3 A4 A5]. split; [done| |done| |done].
  - intros j f ev Hin. destruct (A2 j f ev Hin) as (? & ? & ? & ?). split_and!; [lia|done..].
  - intros j f Hj Ho Hne. apply A4; [|done|done]. destruct (decide (j = i)) as [->|]; [done|lia].
Qed.

(** One event handed on, and the rest. *)
Lemma handed_step i f s s1 s' new : owner s i f → revents s i ≠ 0 → progress (add_delivered (i, f, revents s i) s) s1 → handed (S i) s1 s' new → handed i s s' (new ++ [(i, f, revents s i)]).
Proof.
  intros Ho Hr Hp [A1 A2 A3 A4 A5]. assert (Hback : ∀ j g, owner s1 j g → revents s1 j ≠ 0 → owner s j g ∧ revents s1 j = revents s j) by (intros j g Hg Hne; destruct (pg_revents _ _ Hp j) as [?|[E1 E2]]; [done|split; [by apply E2|done]]).
  split.
  - rewrite A1, (pg_delivered _ _ Hp). simpl. by rewrite <-app_assoc.
  - intros j g ev [Hin|Hin]%elem_of_app.
    + destruct (A2 j g ev Hin) as (? & Hg & -> & Hne). destruct (Hback j g Hg Hne) as [? E]. split_and!; [lia|done|done|done].
    + apply list_elem_of_singleton in Hin. injection Hin as -> -> ->. by split_and!.
  - rewrite fmap_app. apply NoDup_app. split; [done|]. split; [|apply NoDup_singleton]. intros j (d & -> & Hd)%list_elem_of_fmap. simpl. intros E%list_elem_of_singleton. destruct d as [[j g] ev]. destruct (A2 j g ev Hd) as (? & _). simpl in E. lia.
  - intros j g Hj Hg Hne. destruct (decide (j = i)) as [->|Hji].
    + left. destruct Ho as [_ Ho], Hg as [_ Hg]. rewrite Ho in Hg. injection Hg as <-. set_solver.
    + destruct (pg_revents _ _ Hp j) as [E|[E1 E2]].
      * right. by apply A5.
      * destruct (A4 j g) as [Hin|?]; [lia|by apply E2|by rewrite E1|left|by right]. rewrite E1 in Hin. set_solver.
  - intros j Hj. apply A5. destruct (pg_revents _ _ Hp j) as [?|[E _]]; [done|]. rewrite E. exact Hj.
Qed.

Section loop.
Context (h : pfd → Z → P unit) `{!Handlers h}.

(** [l] has all entries with events from [i] on, and is no longer than the number of events left. *)
Lemma dispatch_ok m : ∀ l d i left free s, (length l <= m)%nat → (nb_users s - i <= d)%nat → poll_inv free s → Z.of_nat (length l) <= left → (∀ j, (i <= j)%nat → revents s j ≠ 0 → j ∈ l) →
  ∃ n, wp (dispatch h n i left) (λ _ s', ∃ free' new, poll_inv free' s' ∧ handed i s s' new) s.
Proof.
  induction m as [m IHm] using lt_wf_ind. intros l d. induction d as [|d IHd]; intros i left free s Hm Hd Hi Hleft Hl.
  - exists 0%nat. cbn [dispatch]. apply wp_bind, wp_get. rewrite (proj2 (Nat.ltb_ge _ _)) by lia. apply wp_ret. exists free, []. split; [done|]. apply handed_none. intros j f Hj [Hlt _]. lia.
  - destruct (decide (i < nb_users s)%nat) as [Hlt|Hge]; [|exists 0%nat; cbn [dispatch]; apply wp_bind, wp_get; rewrite (proj2 (Nat.ltb_ge _ _)) by lia; apply wp_ret; exists free, []; split; [done|]; apply handed_none; intros j f Hj [Hlt _]; lia].
    destruct (pi_pollfds _ _ Hi i Hlt) as (p & Hp & Hpf). assert (revents s i = p_revents p) as Hr by (unfold revents; by rewrite Hp). destruct (Z.eqb_spec (p_revents p) 0) as [E|E].
    + destruct (IHd (S i) left free s) as (n & Hn); [done|lia|done|done|intros j Hj; apply Hl; lia|]. exists (S n). cbn [dispatch]. apply wp_bind, wp_get. rewrite (proj2 (Nat.ltb_lt _ _)) by done. apply wp_bind, (wp_read _ _ p); [done|]. rewrite (proj2 (Z.eqb_eq _ 0)) by done. cbn [negb].
      eapply wp_mono; [exact Hn|]. intros ? s' (free' & new & Hi' & Hh). exists free', new. split; [done|]. apply handed_skip; [congruence|done].
    + assert (i ∈ l) as Hil by (apply Hl; [lia|congruence]). destruct (pi_users _ _ Hi i Hlt) as [Hf|(f & Hu & Hix)]; [by rewrite (Hpf Hf) in E|]. assert (owner s i f) as Ho by done.
      set (s0 := add_delivered (i, f, p_revents p) s). assert (poll_inv free s0) as Hi0 by (by destruct Hi as [A1 A2 A3 A4 A5 A6 A7 A8]; split). destruct (wp_run _ _ _ (handler_ok f (p_revents p) free s0 Hi0 ltac:(by eexists))) as ([] & s1 & E1 & free1 & Hi1 & Hp1).
      set (l1 := filter (λ j, j ≠ i) l). assert (length l1 < length l)%nat as Hlen by (apply length_filter_lt with i; [done|by intros []]).
      assert (Hl1 : ∀ j, (S i <= j)%nat → revents s1 j ≠ 0 → j ∈ l1) by (intros j Hj Hne; apply list_elem_of_filter; split; [lia|]; apply Hl; [lia|]; destruct (pg_revents _ _ Hp1 j) as [?|[E2 _]]; [done|]; rewrite E2 in Hne; exact Hne).
      assert (Hstep : ∀ s' new, handed (S i) s1 s' new → handed i s s' (new ++ [(i, f, revents s i)])) by (intros s' new Hh; apply (handed_step i f s s1 s' new); [done|congruence|by rewrite Hr|done]).
      assert (∃ n, wp (if left - 1 =? 0 then ret tt else dispatch h n (S i) (left - 1)) (λ _ s', ∃ free' new, poll_inv free' s' ∧ handed i s s' new) s1) as (n & Hn).
      { destruct (Z.eqb_spec (left - 1) 0) as [E0|E0].
        - exists 0%nat. apply wp_ret. exists free1, ([] ++ [(i, f, revents s i)]). split; [done|]. apply Hstep, handed_none. intros j g Hj Hg. destruct (decide (revents s1 j = 0)) as [?|Hne]; [done|]. assert (l1 = []) as El by (destruct l1; [done|simpl in *; lia]).
          specialize (Hl1 j Hj Hne). rewrite El in Hl1. by apply elem_of_nil in Hl1.
        - destruct (IHm (length l1) ltac:(lia) l1 (nb_users s1 - S i)%nat (S i) (left - 1) free1 s1) as (n & Hn); [done|done|done|lia|done|]. exists n. eapply wp_mono; [exact Hn|]. intros ? s' (free' & new & Hi' & Hh). exists free', (new ++ [(i, f, revents s i)]). split; [done|by apply Hstep]. }
      exists (S n). cbn [dispatch]. apply wp_bind, wp_get. rewrite (proj2 (Nat.ltb_lt _ _)) by done. apply wp_bind, (wp_read _ _ p); [done|]. rewrite (proj2 (Z.eqb_neq _ 0)) by done. cbn [negb]. apply wp_bind, (wp_read _ _ (S_fd f)); [done|].
      apply wp_bind, wp_modify. apply wp_bind. by eapply run_wp; [exact E1|].
Qed.

(** More fuel does not change the result. *)
Lemma dispatch_more n : ∀ i left s s', dispatch h n i left s = Done tt s' → ∀ m, (n <= m)%nat → dispatch h m i left s = Done tt s'.
Proof.
  induction n as [|n IH]; intros i left s s' E m Hm.
  - cbn [dispatch] in E. unfold st_bind, get in E. destruct m as [|m]; [done|]. cbn [dispatch]. unfold st_bind, get. destruct (negb (i <? nb_users s)%nat); [done|by cbv in E].
  - destruct m as [|m]; [lia|]. cbn [dispatch] in *. unfold st_bind, get in *. destruct (negb (i <? nb_users s)%nat); [done|]. destruct (read (pollfds s) i s) as [p s1|]; [|done]. destruct (negb (p_revents p =? 0)); [|apply IH; [done|lia]].
    destruct (read (poll_users s) i s1) as [[f|] s2|]; [|done|done]. destruct (modify _ s2) as [[] s3|]; [|done]. destruct (h f (p_revents p) s3) as [[] s4|]; [|done]. destruct (left - 1 =? 0); [done|]. apply IH; [done|lia].
Qed.
End loop.

(** ** A round *)

Definition with_revents (r : Z) (p : pollfd) : pollfd := PollFd (p_fd p) (p_events p) r.

Lemma set_revents_lookup rs : ∀ i l j, set_revents i rs l !! j = match (if (i <=? j)%nat then rs !! (j - i)%nat else None) with Some r => option_map (with_revents r) <$> l !! j | None => l !! j end.
Proof.
  induction rs as [|r rs IH]; intros i l j; cbn [set_revents]; [by destruct (i <=? j)%nat|]. rewrite IH. destruct (decide (i = j)) as [<-|Hne].
  - rewrite list_lookup_alter_eq, (proj2 (Nat.leb_gt _ _)), (proj2 (Nat.leb_le _ _)), Nat.sub_diag by lia. done.
  - rewrite list_lookup_alter_ne by done. destruct (Nat.leb_spec (S i) j); [rewrite (proj2 (Nat.leb_le i j)) by lia; by replace (j - i)%nat with (S (j - S i)) by lia|]. by rewrite (proj2 (Nat.leb_gt i j)) by lia.
Qed.

Lemma set_revents_length rs : ∀ i l, length (set_revents i rs l) = length l.
Proof. induction rs as [|r rs IH]; intros i l; cbn [set_revents]; [done|]. by rewrite IH, length_alter. Qed.

(** What [poll] promises: an answer for every entry, with no events where there is no descriptor. *)
Definition poll_answer (s : polls) (rs : list Z) : Prop := length rs = nb_users s ∧ ∀ i p, pollfds s !! i = Some (Some p) → p_fd p = -1 → (i < nb_users s)%nat → rs !! i = Some 0.

Definition polled (rs : list Z) (s : polls) : polls := set_pollfds (set_revents 0 rs (pollfds s)) s.

Lemma polled_lookup rs s i p : poll_answer s rs → pollfds s !! i = Some (Some p) → (i < nb_users s)%nat → ∃ r, rs !! i = Some r ∧ pollfds (polled rs s) !! i = Some (Some (with_revents r p)).
Proof.
  intros [Hlen _] Hp Hi. destruct (lookup_lt_is_Some_2 rs i) as [r Hr]; [lia|]. exists r. split; [done|]. simpl. rewrite set_revents_lookup, (proj2 (Nat.leb_le 0 i)), Nat.sub_0_r, Hr, Hp by lia. done.
Qed.

Lemma polled_rest free rs s i : poll_inv free s → poll_answer s rs → (nb_users s <= i)%nat → revents (polled rs s) i = 0.
Proof.
  intros Hi [Hlen _] Hge. unfold revents. simpl. rewrite set_revents_lookup, (proj2 (Nat.leb_le 0 i)), Nat.sub_0_r, lookup_ge_None_2 by lia. by apply (pi_rest _ _ Hi).
Qed.

Lemma polled_inv free rs s : poll_inv free s → poll_answer s rs → poll_inv free (polled rs s).
Proof.
  intros Hi Ha. destruct (pi_size _ _ Hi) as (H1 & H2 & H3 & H4). split; simpl; [by rewrite set_revents_length|apply Hi| |apply Hi|apply Hi|apply Hi|apply Hi|intros i Hge; by apply (polled_rest free)].
  intros i Hlt. destruct (pi_pollfds _ _ Hi i Hlt) as (p & Hp & Hf). destruct (polled_lookup rs s i p Ha Hp Hlt) as (r & Hr & E). exists (with_revents r p). split; [done|]. intros Hin. specialize (Hf Hin). destruct Ha as [_ Ha]. subst p. specialize (Ha i _ Hp eq_refl Hlt). rewrite Ha in Hr. by injection Hr as <-.
Qed.

(** The entries with events. *)
Definition with_events (rs : list Z) : list nat := filter (λ i, rs !! i ≠ Some 0) (seq 0 (length rs)).

Lemma with_events_length rs : length (with_events rs) = length (filter (λ r, r ≠ 0) rs).
Proof.
  unfold with_events. assert (∀ k, length (filter (λ i, rs !! (i - k)%nat ≠ Some 0) (seq k (length rs))) = length (filter (λ r, r ≠ 0) rs)) as H.
  { induction rs as [|r rs IH]; intros k; [done|]. cbn [length seq]. rewrite !filter_cons, Nat.sub_diag. cbn [lookup list_lookup].
    assert (filter (λ i, (r :: rs) !! (i - k)%nat ≠ Some 0) (seq (S k) (length rs)) = filter (λ i, rs !! (i - S k)%nat ≠ Some 0) (seq (S k) (length rs))) as E.
    { apply filter_same. intros i Hi%elem_of_seq. by replace (i - k)%nat with (S (i - S k)) by lia. }
    rewrite E. destruct (decide (r = 0)) as [->|Hr]; [rewrite !decide_False by (by intros []); apply IH|rewrite !decide_True by congruence; simpl; by rewrite IH]. }
  specialize (H 0%nat). erewrite <-H. f_equal. apply list_filter_iff. intros i. by rewrite Nat.sub_0_r.
Qed.

Lemma poll_round_ok h `{!Handlers h} free rs s : poll_inv free s → poll_answer s rs →
  ∃ n s', (∀ m, (n <= m)%nat → poll_round h m rs s = Done tt s') ∧ ∃ free' new, poll_inv free' s' ∧ handed 0 (polled rs s) s' new.
Proof.
  intros Hi Ha. pose proof (polled_inv free rs s Hi Ha) as Hi1. unfold poll_round. change (λ s, set_pollfds (set_revents 0 rs (pollfds s)) s) with (polled rs). rewrite <-with_events_length.
  assert (Hl : ∀ j, revents (polled rs s) j ≠ 0 → (j < nb_users s)%nat → j ∈ with_events rs).
  { intros j Hr Hj. destruct (pi_pollfds _ _ Hi j Hj) as (p & Hp & _). destruct (polled_lookup rs s j p Ha Hp Hj) as (r & Er & E). unfold revents in Hr. rewrite E in Hr. simpl in Hr. unfold with_events. apply list_elem_of_filter. split; [by rewrite Er; intros [=]|]. apply elem_of_seq. destruct Ha as [-> _]. lia. }
  destruct (Z.ltb_spec 0 (Z.of_nat (length (with_events rs)))) as [Hpos|Hzero].
  - destruct (dispatch_ok h (length (with_events rs)) (with_events rs) (nb_users s) 0 (Z.of_nat (length (with_events rs))) free (polled rs s)) as (n & Hn); [done|simpl; lia|done|done| |].
    { intros j _ Hr. destruct (decide (j < nb_users s)%nat); [by apply Hl|]. destruct Hr. apply (polled_rest free); [done|done|lia]. }
    destruct (wp_run _ _ _ Hn) as ([] & s' & E & free' & new & Hi' & Hh). exists n, s'. split; [intros m Hm; unfold st_bind, modify; by apply (dispatch_more h n)|]. by exists free', new.
  - exists 0%nat, (polled rs s). split; [done|]. exists free, []. split; [done|]. apply handed_none. intros j f _ [Hj _]. destruct (decide (revents (polled rs s) j = 0)) as [?|Hr]; [done|]. specialize (Hl j Hr Hj). destruct (with_events rs); [by apply elem_of_nil in Hl|simpl in Hzero; lia].
Qed.

(** ** Sequences of operations *)

Inductive poll_op :=
  | po_alloc (f : pfd)
  | po_unix (f : pfd) (u : Z)
  | po_events (f : pfd) (events : Z)
  | po_destroy (f : pfd).

Definition po_enabled (s : polls) (op : poll_op) : bool :=
  match op with
  | po_alloc f => bool_decide (poll_index s !! f = None)
  | po_unix f _ | po_events f _ | po_destroy f => bool_decide (is_Some (poll_index s !! f))
  end.

Definition po_run (op : poll_op) : P unit :=
  match op with
  | po_alloc f => ok <- alloc_poll_fd f; ret tt
  | po_unix f u => set_unix_fd f u
  | po_events f events => set_fd_events f events
  | po_destroy f => destroy_poll_fd f
  end.
Definition poll_step (s s' : polls) : Prop := ∃ op, po_enabled s op = true ∧ po_run op s = Done tt s'.

(** Each descriptor counts once. *)
Definition counted (s : polls) : Prop := active_users s = Z.of_nat (size (poll_index s)).

Lemma po_run_ok free s op : poll_inv free s → po_enabled s op = true → wp (po_run op) (λ _ s', ∃ free', poll_inv free' s' ∧ progress s s' ∧ (counted s → counted s')) s.
Proof.
  intros Hi Hen. unfold counted. destruct op as [f|f u|f ev|f]; cbn [po_run po_enabled] in *; apply bool_decide_eq_true in Hen.
  - apply wp_bind. eapply wp_mono; [by apply (alloc_poll_fd_ok free)|]. intros ok s' (free' & Hi' & Hp & Hpost). apply wp_ret. exists free'. split; [done|]. split; [done|]. destruct ok; [|destruct Hpost as (-> & -> & _); done].
    destruct Hpost as (n & _ & _ & -> & ->). rewrite map_size_insert_None by done. lia.
  - apply wp_modify. exists free. split; [|split; [split; [by right|done]|done]]. destruct Hi as [A1 A2 A3 A4 A5 A6 A7 A8]. split; try done. simpl. intros g Hg. destruct (decide (g = f)) as [->|?]; [rewrite lookup_insert_eq; by eexists|]. rewrite lookup_insert_ne by done. by apply A7.
  - eapply wp_mono; [by apply (set_fd_events_ok free)|]. intros ? s' (Hi' & Hp & -> & ->). by exists free.
  - eapply wp_mono; [by apply (destroy_poll_fd_ok free)|]. intros ? s' (free' & Hi' & Hp & -> & ->). exists free'. split; [done|]. split; [done|]. destruct Hen as [i Hf]. assert (size (poll_index s) ≠ 0%nat) by (eapply map_size_ne_0_lookup_2; by eexists). rewrite map_size_delete_Some by (by eexists). lia.
Qed.

(** Handlers that run operations, as far as they are enabled. *)
Fixpoint run_po (ops : list poll_op) : P unit :=
  match ops with [] => ret tt | op :: ops => s <- get; (if po_enabled s op then po_run op else ret tt) ;; run_po ops end.

Lemma run_po_ok ops : ∀ free s, poll_inv free s → wp (run_po ops) (λ _ s', ∃ free', poll_inv free' s' ∧ progress s s') s.
Proof.
  induction ops as [|op ops IH]; intros free s Hi; cbn [run_po]; [apply wp_ret; exists free; split; [done|apply progress_refl]|]. apply wp_bind, wp_get, wp_bind. destruct (po_enabled s op) eqn:E; [|apply wp_ret; by apply (IH free)].
  eapply wp_mono; [by apply (po_run_ok free)|]. intros ? s1 (free1 & Hi1 & Hp1 & _). eapply wp_mono; [by apply (IH free1)|]. intros ? s2 (free2 & Hi2 & Hp2). exists free2. split; [done|]. by apply (progress_trans _ s1).
Qed.
#[export] Instance scripted_handlers (script : pfd → Z → list poll_op) : Handlers (λ f ev, run_po (script f ev)).
Proof. intros f ev free s Hi _. by apply (run_po_ok _ free). Qed.

Definition no_polls : polls := Polls [] 0 [] 0 0 0 None ∅ ∅ [] [].
Lemma no_polls_inv al : poll_inv [] (set_p_allocs al no_polls).
Proof.
  split; simpl; [split_and!; lia|lia|lia|split; [constructor|split; [by intros i ?%elem_of_nil|done]]|done|intros f i; by rewrite lookup_empty|intros f; rewrite lookup_empty; by intros []|done].
Qed.

Lemma poll_steps_inv al s : rtc poll_step (set_p_allocs al no_polls) s → ∃ free, poll_inv free s ∧ counted s.
Proof.
  intros H. apply rtc_ind_r with (P := λ s, ∃ free, poll_inv free s ∧ counted s) in H; [done|exists []; split; [apply no_polls_inv|done]|].
  intros s1 s2 _ (op & Hen & E) (free & Hi & Hc). pose proof (po_run_ok free s1 op Hi Hen) as Hwp. unfold wp in Hwp. rewrite E in Hwp. destruct Hwp as (free' & ? & _ & ?). exists free'. auto.
Qed.

(** ** Properties *)

(** However descriptors are added, changed and removed, and whatever allocations
    fail, no pointer of the free list dangles when the array moves, no assertion fails and no
    access leaves the arrays; two descriptors never share an entry, and the number of active
    users is the number of descriptors. *)
Theorem poll_array_invariant al s : rtc poll_step (set_p_allocs al no_polls) s →
  (∀ f g i, poll_index s !! f = Some i → poll_index s !! g = Some i → f = g) ∧ active_users s = Z.of_nat (size (poll_index s)) ∧ ∀ op, po_enabled s op = true → ∃ s', po_run op s = Done tt s'.
Proof.
  intros (free & Hi & Hc)%poll_steps_inv. split; [|split; [done|]].
  - intros f g i Hf Hg. destruct (pi_index _ _ Hi f i Hf) as (n & -> & _ & Hn). destruct (pi_index _ _ Hi g _ Hg) as (m & E & _ & Hm). assert (m = n) as -> by lia. congruence.
  - intros op Hen. destruct (wp_run _ _ _ (po_run_ok free s op Hi Hen)) as ([] & s' & E & _). by exists s'.
Qed.

(** Three descriptors, the first of them removed again and its entry given to a fourth. *)
Fixpoint run_steps (ops : list poll_op) (s : polls) : option polls :=
  match ops with [] => Some s | op :: ops => if po_enabled s op then match po_run op s with Done _ s => run_steps ops s | Fault _ => None end else None end.
Lemma run_steps_ok ops : ∀ s s', run_steps ops s = Some s' → rtc poll_step s s'.
Proof.
  induction ops as [|op ops IH]; intros s s' H; cbn [run_steps] in H; [injection H as <-; done|]. destruct (po_enabled s op) eqn:He; [|done]. destruct (po_run op s) as [[] s1|] eqn:E; [|done]. eapply rtc_l; [by exists op|by apply IH].
Qed.
Definition demo_ops : list poll_op :=
  [po_alloc 1; po_alloc 2; po_alloc 3; po_unix 1 11; po_unix 2 12; po_unix 3 13; po_events 1 1; po_destroy 1; po_alloc 4; po_unix 4 14; po_events 4 1; po_events 2 1; po_events 3 4].
Definition demo_polls : polls := default no_polls (run_steps demo_ops (set_p_allocs [] no_polls)).
Lemma demo_poll_steps : rtc poll_step (set_p_allocs [] no_polls) demo_polls.
Proof. apply (run_steps_ok demo_ops). vm_compute. reflexivity. Qed.

Lemma poll_array_invariant_witness : active_users demo_polls = 3 ∧ poll_index demo_polls !! 4%positive = Some 0 ∧ (∀ f, poll_index demo_polls !! f = Some 0 → f = 4%positive).
Proof.
  destruct (poll_array_invariant [] demo_polls demo_poll_steps) as (H & _ & _). split; [reflexivity|]. split; [reflexivity|]. intros f Hf. by apply (H f 4%positive 0).
Defined.

(** C30: The events of a round go to the descriptors that owned the entries when they were
    polled, each once, with the events of [poll], whatever the handlers of earlier events add, change and remove; an
    event is not handed on only if a handler removed the descriptor or stopped watching
    it, and never to another descriptor that took the entry.  The loop ends although handlers may
    make the array grow. *)
Theorem poll_round_spec h `{!Handlers h} free rs s : poll_inv free s → poll_answer s rs →
  ∃ n s', (∀ m, (n <= m)%nat → poll_round h m rs s = Done tt s') ∧ (∃ free', poll_inv free' s') ∧ ∃ new, delivered s' = new ++ delivered s ∧ NoDup ((λ d, fst (fst d)) <$> new) ∧
    (∀ i f ev, (i, f, ev) ∈ new → owner s i f ∧ rs !! i = Some ev ∧ ev ≠ 0) ∧
    (∀ i f ev, owner s i f → rs !! i = Some ev → ev ≠ 0 → (i, f, ev) ∈ new ∨ revents s' i = 0).
Proof.
  intros Hi Ha. destruct (poll_round_ok h free rs s Hi Ha) as (n & s' & Hrun & free' & new & Hi' & [H1 H2 H3 H4 _]). exists n, s'. split; [done|]. split; [by exists free'|]. exists new. split; [done|]. split; [done|].
  assert (Hr : ∀ i f, owner s i f → rs !! i = Some (revents (polled rs s) i)).
  { intros i f [Hlt _]. destruct (pi_pollfds _ _ Hi i Hlt) as (p & Hp & _). destruct (polled_lookup rs s i p Ha Hp Hlt) as (r & Er & E). rewrite Er. unfold revents. by rewrite E. }
  split.
  - intros i f ev Hin. destruct (H2 i f ev Hin) as (_ & Ho & -> & Hne). split; [done|]. split; [by apply (Hr i f)|done].
  - intros i f ev Ho Hev Hne. pose proof (Hr i f Ho) as E. rewrite Hev in E. injection E as ->. apply H4; [lia|done|done].
Qed.

(** All three have events; the handler of 4 removes 2 and gives its entry to 5. *)
Definition demo_handler (f : pfd) (ev : Z) : list poll_op := if bool_decide (f = 4%positive) then [po_destroy 2; po_alloc 5; po_unix 5 15; po_events 5 1] else [].
Lemma poll_round_spec_witness : ∃ n s', (∀ m, (n <= m)%nat → poll_round (λ f ev, run_po (demo_handler f ev)) m [1; 1; 4] demo_polls = Done tt s') ∧ delivered s' = [(2%nat, 3%positive, 4); (0%nat, 4%positive, 1)] ∧ poll_index s' !! 5%positive = Some 1.
Proof.
  destruct (poll_steps_inv [] demo_polls demo_poll_steps) as (free & Hi & _).
  destruct (poll_round_spec (λ f ev, run_po (demo_handler f ev)) free [1; 1; 4] demo_polls Hi) as (n & s' & Hrun & _ & new & Hd & _).
  - split; [reflexivity|]. intros i p Hp Hfd Hlt. exfalso. vm_compute in Hlt. destruct i as [|[|[|i]]]; [vm_compute in Hp; injection Hp as <-; discriminate Hfd..|lia].
  - exists n, s'. split; [exact Hrun|]. pose proof (Hrun (n + 3)%nat ltac:(lia)) as E. rewrite (Nat.add_comm n 3) in E. assert (poll_round (λ f ev, run_po (demo_handler f ev)) (3 + n) [1; 1; 4] demo_polls = poll_round (λ f ev, run_po (demo_handler f ev)) 3 [1; 1; 4] demo_polls) as E3 by (destruct n; vm_compute; reflexivity).
    rewrite E3 in E. vm_compute in E. injection E as <-. split; reflexivity.
Defined.
