(* ===== verification/Window.v ===== *)
(** * Windows: the tree and its Z-order (server/window.c)

    A window is an object of the heap [windows], named by its address; 0 is [NULL].
    Its parent holds it in one of two intrusive lists, [children] (the Z-order, top
    first) or [unlinked]; the list node inside the window is [w_entry], which says
    in which list it is.  A window is referenced by its handle and by each window
    whose parent it is.

    Calls into the components that are not modelled (painting, message queues,
    window classes, the clipboard, hot keys, object references of desktops) do not
    touch the tree; they are recorded in order in [win_calls].  The user handle
    table and the global atom table are the ones of [UserHandle] and [Atom]. *)

From stdpp Require Import base list gmap fin_maps.
From S2P Require Import Prelude Atom UserHandle Region.

Open Scope Z_scope.
Open Scope server_scope.

(** ** Constants *)

Definition WS_POPUP : Z := 0x80000000.
Definition WS_CHILD : Z := 0x40000000.
Definition WS_MINIMIZE : Z := 0x20000000.
Definition WS_VISIBLE : Z := 0x10000000.
Definition WS_CLIPSIBLINGS : Z := 0x04000000.
Definition WS_CLIPCHILDREN : Z := 0x02000000.
Definition WS_DLGFRAME : Z := 0x00400000.
Definition WS_THICKFRAME : Z := 0x00040000.
Definition WS_EX_DLGMODALFRAME : Z := 0x00000001.
Definition WS_EX_TOPMOST : Z := 0x00000008.
Definition WS_EX_WINDOWEDGE : Z := 0x00000100.
Definition WS_EX_STATICEDGE : Z := 0x00020000.
Definition WS_EX_LAYERED : Z := 0x00080000.
Definition WS_EX_LAYOUTRTL : Z := 0x00400000.

Definition PAINT_HAS_SURFACE : Z := 0x0001.
Definition PAINT_HAS_PIXEL_FORMAT : Z := 0x0002.
Definition PAINT_HAS_LAYERED_SURFACE : Z := 0x0004.
Definition PAINT_CLIENT_FLAGS : Z := 0x0007.
Definition PAINT_NONCLIENT : Z := 0x0040.
Definition PAINT_PIXEL_FORMAT_CHILD : Z := 0x0100.

Definition SWP_NOZORDER : Z := 0x0004.
Definition SWP_NOREDRAW : Z := 0x0008.
Definition SWP_SHOWWINDOW : Z := 0x0040.
Definition SWP_HIDEWINDOW : Z := 0x0080.

Definition WM_DESTROY : Z := 0x0002.
Definition WM_PARENTNOTIFY : Z := 0x0210.
Definition WM_WINE_DESTROYWINDOW : Z := 0x80000000.

Definition WIN_INVALID_PARAMETER : Z := 0xC000000D.
Definition WIN_NO_MEMORY : Z := 0xC0000017.
Definition WIN_ACCESS_DENIED : Z := 0xC0000022.
Definition WIN_BUFFER_TOO_SMALL : Z := 0xC0000023.
Definition WIN_INVALID_STATE_TRANSITION : Z := 0xC000A003.
(** [set_win32_error]. *)
Definition WIN_INVALID_WINDOW_HANDLE : Z := Z.lor 0xC0010000 1400.
Definition WIN_INVALID_INDEX : Z := Z.lor 0xC0010000 1413.

(** ** Data *)

Inductive property_type := PROP_TYPE_FREE | PROP_TYPE_STRING | PROP_TYPE_ATOM.

#[export] Instance property_type_eq_dec : EqDecision property_type.
Proof. solve_decision. Defined.

Record property := Property { prop_type : property_type; prop_atom : Z; prop_data : Z }.

(** The list node of a window: never written ([EUnset], also its contents once it
    has been taken out of a list), linked to itself by [list_init], or in one of
    the two lists of a window. *)
Inductive entry_link := EUnset | ESelf | EChildren (p : Z) | EUnlinked (p : Z).

#[export] Instance entry_link_eq_dec : EqDecision entry_link.
Proof. solve_decision. Defined.

(** [w_properties] has the [prop_inuse] entries in use, [w_prop_alloc] is the size
    of the array; [w_dpi_context] is in the memory shared with the client. *)
Record window := Window {
  w_refs : Z;
  w_parent : Z;
  w_owner : Z;
  w_children : list Z;
  w_unlinked : list Z;
  w_entry : entry_link;
  w_handle : Z;
  w_thread : Z;
  w_desktop : Z;
  w_class : Z;
  w_last_active : Z;
  w_window_rect : rectangle;
  w_visible_rect : rectangle;
  w_surface_rect : rectangle;
  w_client_rect : rectangle;
  w_style : Z;
  w_ex_style : Z;
  w_is_linked : bool;
  w_is_layered : bool;
  w_is_orphan : bool;
  w_paint_flags : Z;
  w_properties : list property;
  w_prop_alloc : Z;
  w_dpi_context : Z;
}.

Definition set_w_refs (v : Z) (r : window) : window :=
  Window v (w_parent r) (w_owner r) (w_children r) (w_unlinked r) (w_entry r) (w_handle r) (w_thread r) (w_desktop r)
    (w_class r) (w_last_active r) (w_window_rect r) (w_visible_rect r) (w_surface_rect r) (w_client_rect r)
    (w_style r) (w_ex_style r) (w_is_linked r) (w_is_layered r) (w_is_orphan r) (w_paint_flags r) (w_properties r)
    (w_prop_alloc r) (w_dpi_context r).
Definition set_w_parent (v : Z) (r : window) : window :=
  Window (w_refs r) v (w_owner r) (w_children r) (w_unlinked r) (w_entry r) (w_handle r) (w_thread r) (w_desktop r)
    (w_class r) (w_last_active r) (w_window_rect r) (w_visible_rect r) (w_surface_rect r) (w_client_rect r)
    (w_style r) (w_ex_style r) (w_is_linked r) (w_is_layered r) (w_is_orphan r) (w_paint_flags r) (w_properties r)
    (w_prop_alloc r) (w_dpi_context r).
Definition set_w_owner (v : Z) (r : window) : window :=
  Window (w_refs r) (w_parent r) v (w_children r) (w_unlinked r) (w_entry r) (w_handle r) (w_thread r) (w_desktop r)
    (w_class r) (w_last_active r) (w_window_rect r) (w_visible_rect r) (w_surface_rect r) (w_client_rect r)
    (w_style r) (w_ex_style r) (w_is_linked r) (w_is_layered r) (w_is_orphan r) (w_paint_flags r) (w_properties r)
    (w_prop_alloc r) (w_dpi_context r).
Definition set_w_children (v : list Z) (r : window) : window :=
  Window (w_refs r) (w_parent r) (w_owner r) v (w_unlinked r) (w_entry r) (w_handle r) (w_thread r) (w_desktop r)
    (w_class r) (w_last_active r) (w_window_rect r) (w_visible_rect r) (w_surface_rect r) (w_client_rect r)
    (w_style r) (w_ex_style r) (w_is_linked r) (w_is_layered r) (w_is_orphan r) (w_paint_flags r) (w_properties r)
    (w_prop_alloc r) (w_dpi_context r).
Definition set_w_unlinked (v : list Z) (r : window) : window :=
  Window (w_refs r) (w_parent r) (w_owner r) (w_children r) v (w_entry r) (w_handle r) (w_thread r) (w_desktop r)
    (w_class r) (w_last_active r) (w_window_rect r) (w_visible_rect r) (w_surface_rect r) (w_client_rect r)
    (w_style r) (w_ex_style r) (w_is_linked r) (w_is_layered r) (w_is_orphan r) (w_paint_flags r) (w_properties r)
    (w_prop_alloc r) (w_dpi_context r).
Definition set_w_entry (v : entry_link) (r : window) : window :=
  Window (w_refs r) (w_parent r) (w_owner r) (w_children r) (w_unlinked r) v (w_handle r) (w_thread r) (w_desktop r)
    (w_class r) (w_last_active r) (w_window_rect r) (w_visible_rect r) (w_surface_rect r) (w_client_rect r)
    (w_style r) (w_ex_style r) (w_is_linked r) (w_is_layered r) (w_is_orphan r) (w_paint_flags r) (w_properties r)
    (w_prop_alloc r) (w_dpi_context r).
Definition set_w_handle (v : Z) (r : window) : window :=
  Window (w_refs r) (w_parent r) (w_owner r) (w_children r) (w_unlinked r) (w_entry r) v (w_thread r) (w_desktop r)
    (w_class r) (w_last_active r) (w_window_rect r) (w_visible_rect r) (w_surface_rect r) (w_client_rect r)
    (w_style r) (w_ex_style r) (w_is_linked r) (w_is_layered r) (w_is_orphan r) (w_paint_flags r) (w_properties r)
    (w_prop_alloc r) (w_dpi_context r).
Definition set_w_thread (v : Z) (r : window) : window :=
  Window (w_refs r) (w_parent r) (w_owner r) (w_children r) (w_unlinked r) (w_entry r) (w_handle r) v (w_desktop r)
    (w_class r) (w_last_active r) (w_window_rect r) (w_visible_rect r) (w_surface_rect r) (w_client_rect r)
    (w_style r) (w_ex_style r) (w_is_linked r) (w_is_layered r) (w_is_orphan r) (w_paint_flags r) (w_properties r)
    (w_prop_alloc r) (w_dpi_context r).
Definition set_w_class (v : Z) (r : window) : window :=
  Window (w_refs r) (w_parent r) (w_owner r) (w_children r) (w_unlinked r) (w_entry r) (w_handle r) (w_thread r)
    (w_desktop r) v (w_last_active r) (w_window_rect r) (w_visible_rect r) (w_surface_rect r) (w_client_rect r)
    (w_style r) (w_ex_style r) (w_is_linked r) (w_is_layered r) (w_is_orphan r) (w_paint_flags r) (w_properties r)
    (w_prop_alloc r) (w_dpi_context r).
Definition set_w_last_active (v : Z) (r : window) : window :=
  Window (w_refs r) (w_parent r) (w_owner r) (w_children r) (w_unlinked r) (w_entry r) (w_handle r) (w_thread r)
    (w_desktop r) (w_class r) v (w_window_rect r) (w_visible_rect r) (w_surface_rect r) (w_client_rect r) (w_style r)
    (w_ex_style r) (w_is_linked r) (w_is_layered r) (w_is_orphan r) (w_paint_flags r) (w_properties r)
    (w_prop_alloc r) (w_dpi_context r).
Definition set_w_window_rect (v : rectangle) (r : window) : window :=
  Window (w_refs r) (w_parent r) (w_owner r) (w_children r) (w_unlinked r) (w_entry r) (w_handle r) (w_thread r)
    (w_desktop r) (w_class r) (w_last_active r) v (w_visible_rect r) (w_surface_rect r) (w_client_rect r) (w_style r)
    (w_ex_style r) (w_is_linked r) (w_is_layered r) (w_is_orphan r) (w_paint_flags r) (w_properties r)
    (w_prop_alloc r) (w_dpi_context r).
Definition set_w_visible_rect (v : rectangle) (r : window) : window :=
  Window (w_refs r) (w_parent r) (w_owner r) (w_children r) (w_unlinked r) (w_entry r) (w_handle r) (w_thread r)
    (w_desktop r) (w_class r) (w_last_active r) (w_window_rect r) v (w_surface_rect r) (w_client_rect r) (w_style r)
    (w_ex_style r) (w_is_linked r) (w_is_layered r) (w_is_orphan r) (w_paint_flags r) (w_properties r)
    (w_prop_alloc r) (w_dpi_context r).
Definition set_w_surface_rect (v : rectangle) (r : window) : window :=
  Window (w_refs r) (w_parent r) (w_owner r) (w_children r) (w_unlinked r) (w_entry r) (w_handle r) (w_thread r)
    (w_desktop r) (w_class r) (w_last_active r) (w_window_rect r) (w_visible_rect r) v (w_client_rect r) (w_style r)
    (w_ex_style r) (w_is_linked r) (w_is_layered r) (w_is_orphan r) (w_paint_flags r) (w_properties r)
    (w_prop_alloc r) (w_dpi_context r).
Definition set_w_client_rect (v : rectangle) (r : window) : window :=
  Window (w_refs r) (w_parent r) (w_owner r) (w_children r) (w_unlinked r) (w_entry r) (w_handle r) (w_thread r)
    (w_desktop r) (w_class r) (w_last_active r) (w_window_rect r) (w_visible_rect r) (w_surface_rect r) v (w_style r)
    (w_ex_style r) (w_is_linked r) (w_is_layered r) (w_is_orphan r) (w_paint_flags r) (w_properties r)
    (w_prop_alloc r) (w_dpi_context r).
Definition set_w_style (v : Z) (r : window) : window :=
  Window (w_refs r) (w_parent r) (w_owner r) (w_children r) (w_unlinked r) (w_entry r) (w_handle r) (w_thread r)
    (w_desktop r) (w_class r) (w_last_active r) (w_window_rect r) (w_visible_rect r) (w_surface_rect r)
    (w_client_rect r) v (w_ex_style r) (w_is_linked r) (w_is_layered r) (w_is_orphan r) (w_paint_flags r)
    (w_properties r) (w_prop_alloc r) (w_dpi_context r).
Definition set_w_ex_style (v : Z) (r : window) : window :=
  Window (w_refs r) (w_parent r) (w_owner r) (w_children r) (w_unlinked r) (w_entry r) (w_handle r) (w_thread r)
    (w_desktop r) (w_class r) (w_last_active r) (w_window_rect r) (w_visible_rect r) (w_surface_rect r)
    (w_client_rect r) (w_style r) v (w_is_linked r) (w_is_layered r) (w_is_orphan r) (w_paint_flags r)
    (w_properties r) (w_prop_alloc r) (w_dpi_context r).
Definition set_w_is_linked (v : bool) (r : window) : window :=
  Window (w_refs r) (w_parent r) (w_owner r) (w_children r) (w_unlinked r) (w_entry r) (w_handle r) (w_thread r)
    (w_desktop r) (w_class r) (w_last_active r) (w_window_rect r) (w_visible_rect r) (w_surface_rect r)
    (w_client_rect r) (w_style r) (w_ex_style r) v (w_is_layered r) (w_is_orphan r) (w_paint_flags r) (w_properties r)
    (w_prop_alloc r) (w_dpi_context r).
Definition set_w_is_layered (v : bool) (r : window) : window :=
  Window (w_refs r) (w_parent r) (w_owner r) (w_children r) (w_unlinked r) (w_entry r) (w_handle r) (w_thread r)
    (w_desktop r) (w_class r) (w_last_active r) (w_window_rect r) (w_visible_rect r) (w_surface_rect r)
    (w_client_rect r) (w_style r) (w_ex_style r) (w_is_linked r) v (w_is_orphan r) (w_paint_flags r) (w_properties r)
    (w_prop_alloc r) (w_dpi_context r).
Definition set_w_is_orphan (v : bool) (r : window) : window :=
  Window (w_refs r) (w_parent r) (w_owner r) (w_children r) (w_unlinked r) (w_entry r) (w_handle r) (w_thread r)
    (w_desktop r) (w_class r) (w_last_active r) (w_window_rect r) (w_visible_rect r) (w_surface_rect r)
    (w_client_rect r) (w_style r) (w_ex_style r) (w_is_linked r) (w_is_layered r) v (w_paint_flags r) (w_properties r)
    (w_prop_alloc r) (w_dpi_context r).
Definition set_w_paint_flags (v : Z) (r : window) : window :=
  Window (w_refs r) (w_parent r) (w_owner r) (w_children r) (w_unlinked r) (w_entry r) (w_handle r) (w_thread r)
    (w_desktop r) (w_class r) (w_last_active r) (w_window_rect r) (w_visible_rect r) (w_surface_rect r)
    (w_client_rect r) (w_style r) (w_ex_style r) (w_is_linked r) (w_is_layered r) (w_is_orphan r) v (w_properties r)
    (w_prop_alloc r) (w_dpi_context r).
Definition set_w_properties (v : list property) (r : window) : window :=
  Window (w_refs r) (w_parent r) (w_owner r) (w_children r) (w_unlinked r) (w_entry r) (w_handle r) (w_thread r)
    (w_desktop r) (w_class r) (w_last_active r) (w_window_rect r) (w_visible_rect r) (w_surface_rect r)
    (w_client_rect r) (w_style r) (w_ex_style r) (w_is_linked r) (w_is_layered r) (w_is_orphan r) (w_paint_flags r) v
    (w_prop_alloc r) (w_dpi_context r).
Definition set_w_prop_alloc (v : Z) (r : window) : window :=
  Window (w_refs r) (w_parent r) (w_owner r) (w_children r) (w_unlinked r) (w_entry r) (w_handle r) (w_thread r)
    (w_desktop r) (w_class r) (w_last_active r) (w_window_rect r) (w_visible_rect r) (w_surface_rect r)
    (w_client_rect r) (w_style r) (w_ex_style r) (w_is_linked r) (w_is_layered r) (w_is_orphan r) (w_paint_flags r)
    (w_properties r) v (w_dpi_context r).

Record desktop := Desktop {
  top_window : Z;
  msg_window : Z;
  shell_window : Z;
  shell_listview : Z;
  progman_window : Z;
  taskman_window : Z;
}.

(** [th_queue]: whether the thread has a message queue. *)
Record win_thread := WinThread { th_queue : bool; th_desktop_users : Z; th_tid : Z; th_pid : Z }.

(** What other components are asked to do. *)
Inductive call :=
| C_attach_thread_input (from to : Z)
| C_detach_thread_input (from to : Z) (d : Z)
| C_set_window_monitor_dpi (w : Z)
| C_copy_parent_dpi (w parent : Z)
| C_init_thread_queue (t : Z)
| C_set_process_default_desktop (d : Z)
| C_release_class (c : Z)
| C_release_desktop (d : Z)
| C_release_thread (t : Z)
| C_queue_cleanup_window (t h : Z)
| C_hide (w : Z)
| C_send_notify_message (h msg : Z)
| C_post_message (h msg wparam lparam : Z)
| C_free_hotkeys (d h : Z)
| C_cleanup_clipboard_window (d h : Z)
| C_free_window_data (w : Z)
| C_set_clip_rectangle (d : Z)
| C_repaint (w : Z) (zorder_changed : bool)
| C_update_cursor_pos (d : Z)
| C_validate_whole_window (w : Z)
| C_set_window_info (w : Z) (offset : Z).

#[export] Instance call_eq_dec : EqDecision call.
Proof. solve_decision. Defined.

Record wstate := WState {
  windows : gmap Z window;
  desktops : gmap Z desktop;
  threads : gmap Z win_thread;
  users : user_state;
  gatoms : atom_table;
  current : Z;
  win_error : Z;
  win_calls : list call;
}.

Definition set_windows (v : gmap Z window) (s : wstate) : wstate :=
  WState v (desktops s) (threads s) (users s) (gatoms s) (current s) (win_error s) (win_calls s).
Definition set_desktops (v : gmap Z desktop) (s : wstate) : wstate :=
  WState (windows s) v (threads s) (users s) (gatoms s) (current s) (win_error s) (win_calls s).
Definition set_threads (v : gmap Z win_thread) (s : wstate) : wstate :=
  WState (windows s) (desktops s) v (users s) (gatoms s) (current s) (win_error s) (win_calls s).
Definition set_users (v : user_state) (s : wstate) : wstate :=
  WState (windows s) (desktops s) (threads s) v (gatoms s) (current s) (win_error s) (win_calls s).
Definition set_gatoms (v : atom_table) (s : wstate) : wstate :=
  WState (windows s) (desktops s) (threads s) (users s) v (current s) (win_error s) (win_calls s).
Definition set_win_error (v : Z) (s : wstate) : wstate :=
  WState (windows s) (desktops s) (threads s) (users s) (gatoms s) (current s) v (win_calls s).
Definition set_win_calls (v : list call) (s : wstate) : wstate :=
  WState (windows s) (desktops s) (threads s) (users s) (gatoms s) (current s) (win_error s) v.

Notation WM := (ST wstate).

(** ** Access to the state *)

Definition win (w : Z) : WM window := s <- get; deref (windows s !! w).
Definition upd (w : Z) (f : window → window) : WM unit :=
  r <- win w; modify (λ s, set_windows (<[w:=f r]> (windows s)) s).
Definition emit (c : call) : WM unit := modify (λ s, set_win_calls (win_calls s ++ [c]) s).
Definition set_error (e : Z) : WM unit := modify (set_win_error e).

Definition with_users {A} (m : UH A) : WM A := λ s,
  match m (users s) with Done a u => Done a (set_users u s) | Fault f => Fault f end.
Definition with_atoms {A} (m : AT A) : WM A := λ s,
  match m (gatoms s) with Done a t => Done a (set_gatoms t s) | Fault f => Fault f end.

Definition get_desktop (d : Z) : WM desktop := s <- get; deref (desktops s !! d).
Definition put_desktop (d : Z) (x : desktop) : WM unit := modify (λ s, set_desktops (<[d:=x]> (desktops s)) s).
Definition get_thread (t : Z) : WM win_thread := s <- get; deref (threads s !! t).
Definition put_thread (t : Z) (x : win_thread) : WM unit := modify (λ s, set_threads (<[t:=x]> (threads s)) s).

(** [get_window]: the window of a handle, or [NULL] with an error. *)
Definition get_window (h : Z) : WM Z :=
  w <- with_users (get_user_object h NTUSER_OBJ_WINDOW);
  (if w =? 0 then set_error WIN_INVALID_WINDOW_HANDLE else ret tt) ;;
  ret w.

(** ** Walking up the tree

    The loop [for (ptr = p; ptr; ptr = ptr->parent)], stopped at the first window
    for which [stop] holds; [n] bounds its length. *)

Fixpoint find_up (n : nat) (stop : Z → window → bool) (p : Z) : WM (option Z) :=
  if p =? 0 then ret None
  else match n with
  | O => fail OutOfFuel
  | S n => r <- win p; if stop p r then ret (Some p) else find_up n stop (w_parent r)
  end.

Definition tree_fuel : WM nat := gets (λ s, base.size (windows s)).

Definition is_desktop_window (w : Z) : WM bool := r <- win w; ret (w_parent r =? 0).

Definition is_toplevel (w : Z) : WM bool :=
  r <- win w; if w_parent r =? 0 then ret true else is_desktop_window (w_parent r).

Definition is_orphan_window (w : Z) : WM bool :=
  n <- tree_fuel; o <- find_up n (λ _ r, w_is_orphan r) w; ret (bool_decide (is_Some o)).

(** On windows; the request-level function takes handles. *)
Definition is_descendant (parent_ptr child_ptr : Z) : WM bool :=
  n <- tree_fuel;
  r <- win child_ptr;
  o <- find_up n (λ p _, p =? parent_ptr) (w_parent r); ret (bool_decide (is_Some o)).

Definition is_child_window (parent child : Z) : WM bool :=
  child_ptr <- with_users (get_user_object child NTUSER_OBJ_WINDOW);
  parent_ptr <- with_users (get_user_object parent NTUSER_OBJ_WINDOW);
  if (child_ptr =? 0) || (parent_ptr =? 0) then ret false else is_descendant parent_ptr child_ptr.

Fixpoint is_visible_loop (n : nat) (w : Z) : WM bool :=
  if w =? 0 then ret true
  else match n with
  | O => fail OutOfFuel
  | S n =>
      r <- win w;
      if negb (has (w_style r) WS_VISIBLE) then ret false
      else
        minimized <- (if w_parent r =? 0 then ret false
                      else rp <- win (w_parent r); ret (has (w_style rp) WS_MINIMIZE));
        if minimized : bool then ret false else is_visible_loop n (w_parent r)
  end.

Definition is_visible (w : Z) : WM bool := n <- tree_fuel; is_visible_loop n w.

(** [for (win = win->parent; win && win->parent; win = win->parent)] *)
Fixpoint pixel_format_loop (n : nat) (w : Z) : WM unit :=
  if w =? 0 then ret tt
  else match n with
  | O => fail OutOfFuel
  | S n =>
      r <- win w;
      if w_parent r =? 0 then ret tt
      else
        upd w (λ r, set_w_paint_flags (Z.lor (w_paint_flags r) PAINT_PIXEL_FORMAT_CHILD) r) ;;
        pixel_format_loop n (w_parent r)
  end.

Definition update_pixel_format_flags (w : Z) : WM unit :=
  n <- tree_fuel; r <- win w; pixel_format_loop n (w_parent r).

Fixpoint top_clipping_loop (n : nat) (w : Z) : WM Z :=
  match n with
  | O => fail OutOfFuel
  | S n =>
      r <- win w;
      if has (w_paint_flags r) PAINT_HAS_SURFACE || (w_parent r =? 0) then ret w
      else
        d <- is_desktop_window (w_parent r);
        if d : bool then ret w else top_clipping_loop n (w_parent r)
  end.

Definition get_top_clipping_window (w : Z) : WM Z := n <- tree_fuel; top_clipping_loop n w.

(** ** The intrusive lists (include/wine/list.h)

    Neighbours in a list of windows, and insertion next to one of them. *)

Fixpoint next_in (l : list Z) (w : Z) : option Z :=
  match l with
  | [] => None
  | x :: k => if x =? w then head k else next_in k w
  end.
Definition prev_in (l : list Z) (w : Z) : option Z := next_in (reverse l) w.

Fixpoint insert_before (x w : Z) (l : list Z) : list Z :=
  match l with
  | [] => []
  | y :: k => if y =? x then w :: y :: k else y :: insert_before x w k
  end.
Fixpoint insert_after (x w : Z) (l : list Z) : list Z :=
  match l with
  | [] => []
  | y :: k => if y =? x then y :: w :: k else y :: insert_after x w k
  end.
Definition remove_from (w : Z) (l : list Z) : list Z := filter (λ x, x ≠ w) l.

(** The list a node is in, and an update of it. *)
Definition list_of (e : entry_link) : WM (list Z) :=
  match e with
  | EUnset => fail Uninitialized
  | ESelf => ret []
  | EChildren p => r <- win p; ret (w_children r)
  | EUnlinked p => r <- win p; ret (w_unlinked r)
  end.
Definition update_list (e : entry_link) (f : list Z → list Z) : WM unit :=
  match e with
  | EUnset => fail Uninitialized
  | ESelf => ret tt
  | EChildren p => upd p (λ r, set_w_children (f (w_children r)) r)
  | EUnlinked p => upd p (λ r, set_w_unlinked (f (w_unlinked r)) r)
  end.

Definition list_remove (w : Z) : WM unit :=
  r <- win w; update_list (w_entry r) (remove_from w) ;; upd w (set_w_entry EUnset).

(** [w] becomes an element of the list [e], where [f] puts it. *)
Definition list_insert (e : entry_link) (w : Z) (f : list Z → list Z) : WM unit :=
  update_list e f ;; upd w (set_w_entry e).
Definition list_add_head (e : entry_link) (w : Z) : WM unit := list_insert e w (cons w).
Definition list_add_tail (e : entry_link) (w : Z) : WM unit := list_insert e w (λ l, l ++ [w]).
(** Before a window, or before the list head ([None]). *)
Definition list_add_before (e : entry_link) (x : option Z) (w : Z) : WM unit :=
  match x with None => list_add_tail e w | Some x => list_insert e w (insert_before x w) end.
(** After a window, in whatever list it is. *)
Definition list_add_after (x w : Z) : WM unit :=
  r <- win x;
  match w_entry r with
  | ESelf => fail OutOfBounds
  | e => list_insert e w (insert_after x w)
  end.

(** [entry.prev]: a window, or the head of a list. *)
Inductive prev_ptr := PrevWin (w : Z) | PrevHead (e : entry_link).

#[export] Instance prev_ptr_eq_dec : EqDecision prev_ptr.
Proof. solve_decision. Defined.

Definition entry_prev (w : Z) : WM prev_ptr :=
  r <- win w;
  l <- list_of (w_entry r);
  ret match prev_in l w with
      | Some x => PrevWin x
      | None => if decide (w_entry r = ESelf) then PrevWin w else PrevHead (w_entry r)
      end.

(** The neighbours of a window in the Z-order of its parent.  The walk ends at
    the head of [children]; a window that is in another list runs into the head
    of that list, which is then taken for a window. *)
Definition sibling (next : list Z → Z → option Z) (w : Z) : WM (option Z) :=
  r <- win w;
  win (w_parent r) ;;
  l <- list_of (w_entry r);
  match next l w with
  | Some x => ret (Some x)
  | None => if decide (w_entry r = EChildren (w_parent r)) then ret None else fail OutOfBounds
  end.
Definition get_next_window (w : Z) : WM (option Z) := sibling next_in w.
Definition get_prev_window (w : Z) : WM (option Z) := sibling prev_in w.
Definition get_first_child (w : Z) : WM (option Z) := r <- win w; ret (head (w_children r)).
Definition get_last_child (w : Z) : WM (option Z) := r <- win w; ret (last (w_children r)).

(** ** Z-order *)

(** The magic values of the [previous] pointer. *)
Inductive winptr := WINPTR_TOP | WINPTR_BOTTOM | WINPTR_TOPMOST | WINPTR_NOTOPMOST | WinAt (p : Z).

#[export] Instance winptr_eq_dec : EqDecision winptr.
Proof. solve_decision. Defined.

Definition is_topmost (r : window) : bool := has (w_ex_style r) WS_EX_TOPMOST.
Definition set_topmost (r : window) : window := set_w_ex_style (Z.lor (w_ex_style r) WS_EX_TOPMOST) r.
Definition clear_topmost (r : window) : window := set_w_ex_style (Z.land (w_ex_style r) (not32 WS_EX_TOPMOST)) r.

(** The loop of the [WINPTR_TOP] case over the siblings from the top: the entry to
    insert before ([None]: the list head), and whether the owner was met. *)
Fixpoint top_position (owner : Z) (l : list Z) : WM (option Z * bool) :=
  match l with
  | [] => ret (None, false)
  | x :: l =>
      r <- win x;
      if negb (is_topmost r) then ret (Some x, false)
      else if w_handle r =? owner then ret (Some x, true)
      else top_position owner l
  end.

(** The part of [link_window] after the [WINPTR_NOTOPMOST] case. *)
Definition place_window (w : Z) (previous : winptr) : WM bool :=
  r <- win w;
  old_prev <- (if w_is_linked r then p <- entry_prev w; ret (Some p) else ret None);
  list_remove w ;;
  match previous with
  | WINPTR_BOTTOM => list_add_tail (EChildren (w_parent r)) w ;; upd w clear_topmost
  | WINPTR_TOPMOST => list_add_head (EChildren (w_parent r)) w ;; upd w set_topmost
  | WinAt p =>
      list_add_after p w ;;
      rp <- win p;
      if negb (is_topmost rp) then upd w clear_topmost
      else
        next <- get_next_window w;
        match next with
        | None => ret tt
        | Some x => rx <- win x; if is_topmost rx then upd w set_topmost else ret tt
        end
  | _ =>
      rp <- win (w_parent r);
      pos <- (if negb (is_topmost r) then top_position (w_owner r) (w_children rp)
              else ret (head (w_children rp), false));
      (if snd pos : bool then upd w set_topmost else ret tt) ;;
      list_add_before (EChildren (w_parent r)) (fst pos) w
  end ;;
  upd w (set_w_is_linked true) ;;
  new_prev <- entry_prev w;
  ret (negb (bool_decide (old_prev = Some new_prev))).

Definition link_window (w : Z) (previous : winptr) : WM bool :=
  r <- win w;
  if decide (previous = WINPTR_NOTOPMOST) then
    if negb (is_topmost r) && w_is_linked r then ret false
    else upd w clear_topmost ;; place_window w WINPTR_TOP
  else place_window w previous.

(** ** Reference counts

    [release_object] on a window, with [window_destroy] and the release of the
    parent when the last reference goes. *)

Definition grab_window (w : Z) : WM unit :=
  r <- win w;
  assert (w_refs r <? 2147483647) ;;
  upd w (λ r, set_w_refs (w_refs r + 1) r).

Fixpoint release_window (n : nat) (w : Z) : WM unit :=
  match n with
  | O => fail OutOfFuel
  | S n =>
      r <- win w;
      assert (negb (w_refs r =? 0)) ;;
      upd w (set_w_refs (w_refs r - 1)) ;;
      if negb (w_refs r - 1 =? 0) then ret tt
      else
        assert (w_handle r =? 0) ;;
        (if w_parent r =? 0 then ret tt else list_remove w ;; release_window n (w_parent r)) ;;
        emit (C_free_window_data w) ;;
        modify (λ s, set_windows (delete w (windows s)) s)
  end.

Definition release_object (w : Z) : WM unit := n <- tree_fuel; release_window n w.

(** ** Parents *)

(** The code goes through the thread of the window to its queue; a window with a
    parent of another thread has one, and where it had none the model records the
    call with thread 0. *)
Definition attach_parent_thread (w : Z) (attach : bool) : WM unit :=
  r <- win w;
  top <- is_toplevel w;
  if top : bool then ret tt
  else
    rp <- win (w_parent r);
    if (w_thread rp =? 0) || (w_thread rp =? w_thread r) then ret tt
    else if attach then emit (C_attach_thread_input (w_thread r) (w_thread rp))
    else emit (C_detach_thread_input (w_thread r) (w_thread rp) (w_desktop r)).

(** The branch for a new parent. *)
Definition reparent (w parent : Z) : WM unit :=
  r <- win w;
  attach_parent_thread w false ;;
  (if w_parent r =? 0 then ret tt else release_object (w_parent r)) ;;
  grab_window parent ;;
  upd w (set_w_parent parent) ;;
  attach_parent_thread w true ;;
  link_window w WINPTR_TOP ;;
  d <- is_desktop_window parent;
  (if d : bool then emit (C_set_window_monitor_dpi w) else emit (C_copy_parent_dpi w parent)) ;;
  r <- win w;
  if has (w_paint_flags r) (Z.lor PAINT_HAS_PIXEL_FORMAT PAINT_PIXEL_FORMAT_CHILD)
  then update_pixel_format_flags w else ret tt.

(** The branch for no parent: to the unlinked list of the old one. *)
Definition unlink_window (w : Z) : WM unit :=
  r <- win w;
  list_remove w ;;
  list_add_head (EUnlinked (w_parent r)) w ;;
  upd w (set_w_is_linked false) ;;
  upd w (set_w_is_orphan true).

Definition set_parent_window (w parent : Z) : WM bool :=
  n <- tree_fuel;
  cycle <- find_up n (λ p _, p =? w) parent;
  if bool_decide (is_Some cycle) then set_error WIN_INVALID_PARAMETER ;; ret false
  else
    (if negb (parent =? 0) then reparent w parent else unlink_window w) ;;
    ret true.
