(* ===== verification/WindowOps.v ===== *)
(** * Windows: creation, destruction, properties and lists (server/window.c)

    The routines that create and destroy windows, the property arrays, and the
    enumerations of windows.  What the other components answer (the desktop of a
    thread, the class of a window, the results of allocations) are arguments. *)

From stdpp Require Import base list gmap fin_maps.
From S2P Require Import Prelude Atom UserHandle Region Window.

Open Scope Z_scope.
Open Scope server_scope.

(** ** Properties *)

(** The loop that looks for [atom]: the free entry seen last (or [free]), and the
    entry of the atom, with which the loop stops. *)
Fixpoint find_property (l : list property) (i : nat) (atom : Z) (free : option nat) : option nat * option nat :=
  match l with
  | [] => (free, None)
  | p :: l =>
      if decide (prop_type p = PROP_TYPE_FREE) then find_property l (S i) atom (Some i)
      else if prop_atom p =? atom then (free, Some i)
      else find_property l (S i) atom free
  end.

(** [alloc]: whether the [realloc] succeeds, if there is one. *)
Definition set_property (w atom data : Z) (type : property_type) (alloc : bool) : WM unit :=
  r <- win w;
  let pr := find_property (w_properties r) 0 atom None in
  match snd pr with
  | Some i => upd w (λ r, set_w_properties (<[i:=Property type atom data]> (w_properties r)) r)
  | None =>
      grabbed <- (if decide (type = PROP_TYPE_STRING) then a <- with_atoms (grab_atom atom); ret (negb (a =? 0))
                  else ret true);
      if negb grabbed then ret tt
      else match fst pr with
      | Some i => upd w (λ r, set_w_properties (<[i:=Property type atom data]> (w_properties r)) r)
      | None =>
          let full := w_prop_alloc r <=? Z.of_nat (length (w_properties r)) in
          if full && negb alloc then
            set_error WIN_NO_MEMORY ;;
            if decide (type = PROP_TYPE_STRING) then with_atoms (release_atom atom) else ret tt
          else
            (if full then upd w (λ r, set_w_prop_alloc (w_prop_alloc r + 16) r) else ret tt) ;;
            upd w (λ r, set_w_properties (w_properties r ++ [Property type atom data]) r)
      end
  end.

(** The index of the entry of [atom] in [remove_property] and [get_property]. *)
Fixpoint property_index (l : list property) (i : nat) (atom : Z) : option (nat * property) :=
  match l with
  | [] => None
  | p :: l =>
      if decide (prop_type p = PROP_TYPE_FREE) then property_index l (S i) atom
      else if prop_atom p =? atom then Some (i, p) else property_index l (S i) atom
  end.

Definition remove_property (w atom : Z) : WM Z :=
  r <- win w;
  match property_index (w_properties r) 0 atom with
  | Some (i, p) =>
      (if decide (prop_type p = PROP_TYPE_STRING) then with_atoms (release_atom atom) else ret tt) ;;
      upd w (λ r, set_w_properties (<[i:=Property PROP_TYPE_FREE (prop_atom p) (prop_data p)]> (w_properties r)) r) ;;
      ret (prop_data p)
  | None => ret 0
  end.

Definition get_property (w atom : Z) : WM Z :=
  r <- win w;
  ret match property_index (w_properties r) 0 atom with Some (_, p) => prop_data p | None => 0 end.

Fixpoint release_properties (l : list property) : WM unit :=
  match l with
  | [] => ret tt
  | p :: l =>
      (if decide (prop_type p = PROP_TYPE_STRING) then with_atoms (release_atom (prop_atom p)) else ret tt) ;;
      release_properties l
  end.

Definition destroy_properties (w : Z) : WM unit := r <- win w; release_properties (w_properties r).

(** The properties listed by [get_window_properties]: atom, whether it was a
    string, and data, at most [max] of them, with the total; [alloc] says whether
    the reply can be allocated. *)
Definition req_get_window_properties (h max : Z) (alloc : bool) : WM (Z * list (Z * bool * Z)) :=
  w <- get_window h;
  if w =? 0 then ret (0, [])
  else
    r <- win w;
    let used := List.filter (λ p, negb (bool_decide (prop_type p = PROP_TYPE_FREE))) (w_properties r) in
    let total := Z.of_nat (length used) in
    let count := Z.min total max in
    if count =? 0 then ret (total, [])
    else if negb alloc then set_error WIN_NO_MEMORY ;; ret (total, [])
    else ret (total, (λ p, (prop_atom p, bool_decide (prop_type p = PROP_TYPE_STRING), prop_data p)) <$> take (Z.to_nat count) used).

Section requests.
Context (to_lower : Z → Z).

(** [name] is the string of the request, empty when the property is named by
    [atom]. *)
Definition req_set_window_property (h : Z) (name : list Z) (atom data : Z) (alloc : bool) : WM unit :=
  w <- get_window h;
  if w =? 0 then ret tt
  else if negb (Nat.eqb (length name) 0) then
    a <- with_atoms (add_atom to_lower name);
    if a =? 0 then ret tt
    else set_property w a data PROP_TYPE_STRING alloc ;; with_atoms (release_atom a)
  else set_property w atom data PROP_TYPE_ATOM alloc.

Definition property_atom (name : list Z) (atom : Z) : WM Z :=
  if negb (Nat.eqb (length name) 0) then with_atoms (find_atom to_lower name) else ret atom.

Definition req_remove_window_property (h : Z) (name : list Z) (atom : Z) : WM Z :=
  w <- get_window h;
  if w =? 0 then ret 0
  else a <- property_atom name atom; if a =? 0 then ret 0 else remove_property w a.

Definition req_get_window_property (h : Z) (name : list Z) (atom : Z) : WM Z :=
  w <- get_window h;
  if w =? 0 then ret 0
  else a <- property_atom name atom; if a =? 0 then ret 0 else get_property w a.
End requests.

(** ** Creation *)

(** What [create_window] asks the other components: the desktop of the thread (or
    0), the class (or 0), whether it is the desktop or the message class, the
    address of the new object and the locator of its shared memory (or [None]),
    and whether a message queue can be created. *)
Record create_env := CreateEnv {
  ce_desktop : Z;
  ce_class : Z;
  ce_is_desktop : bool;
  ce_is_message : bool;
  ce_addr : option Z;
  ce_shared : option (Z * Z);
  ce_queue : bool;
}.

(** The parent to use when the caller gives none ([None]: an error was set). *)
Definition default_parent (e : create_env) (parent : Z) : WM (option Z) :=
  if negb (parent =? 0) then ret (Some parent)
  else
    d <- get_desktop (ce_desktop e);
    if ce_is_desktop e then ret (Some (top_window d))
    else if ce_is_message e then ret (Some (if negb (msg_window d =? 0) then top_window d else 0))
    else if negb (top_window d =? 0) then ret (Some (top_window d))
    else set_error WIN_ACCESS_DENIED ;; ret None.

(** The label [failed]: [w] is 0 when there is no window yet. *)
Definition create_failed (e : create_env) (w : Z) : WM Z :=
  (if w =? 0 then ret tt
   else
     r <- win w;
     (if w_handle r =? 0 then ret tt
      else with_users (free_user_handle (w_handle r)) ;; upd w (set_w_handle 0)) ;;
     release_object w) ;;
  emit (C_release_desktop (ce_desktop e)) ;;
  emit (C_release_class (ce_class e)) ;;
  ret 0.

Definition new_window (e : create_env) (thread parent owner dpi_context : Z) : window :=
  Window 1 parent owner [] [] EUnset 0 thread (ce_desktop e) (ce_class e) 0 empty_rect empty_rect empty_rect empty_rect
    0 0 false false false 0 [] 0 dpi_context.

(** [current->queue || init_thread_queue( current )]. *)
Definition need_queue (ok : bool) : WM bool :=
  s <- get;
  t <- get_thread (current s);
  if th_queue t then ret true
  else if ok then
    put_thread (current s) (WinThread true (th_desktop_users t) (th_tid t) (th_pid t)) ;;
    emit (C_init_thread_queue (current s)) ;; ret true
  else ret false.

(** A window without parent becomes the desktop or the message window. *)
Definition set_desktop_root (e : create_env) (w : Z) : WM unit :=
  upd w (set_w_entry ESelf) ;;
  d <- get_desktop (ce_desktop e);
  if ce_is_desktop e then
    assert (top_window d =? 0) ;;
    put_desktop (ce_desktop e)
      (Desktop w (msg_window d) (shell_window d) (shell_listview d) (progman_window d) (taskman_window d)) ;;
    emit (C_set_process_default_desktop (ce_desktop e))
  else
    assert (msg_window d =? 0) ;;
    put_desktop (ce_desktop e)
      (Desktop (top_window d) w (shell_window d) (shell_listview d) (progman_window d) (taskman_window d)).

(** From the allocation of the handle on. *)
Definition finish_create (e : create_env) (w parent : Z) (shared : Z * Z) : WM Z :=
  s <- get;
  t <- get_thread (current s);
  h <- with_users (alloc_user_handle w (fst shared) (snd shared) (th_tid t) (th_pid t) NTUSER_OBJ_WINDOW);
  upd w (set_w_handle h) ;;
  if h =? 0 then create_failed e w
  else
    upd w (set_w_last_active h) ;;
    ok <- need_queue (ce_queue e);
    if negb ok then create_failed e w
    else
      attach_parent_thread w true ;;
      (if negb (parent =? 0) then list_add_head (EUnlinked parent) w else set_desktop_root e w) ;;
      t <- get_thread (current s);
      put_thread (current s) (WinThread (th_queue t) (th_desktop_users t + 1) (th_tid t) (th_pid t)) ;;
      ret w.

(** [owner] is the owner window or 0; the result is the window or 0. *)
Definition create_window (e : create_env) (parent owner dpi_context : Z) : WM Z :=
  if ce_desktop e =? 0 then ret 0
  else if ce_class e =? 0 then emit (C_release_desktop (ce_desktop e)) ;; ret 0
  else
    op <- default_parent e parent;
    match op with
    | None => create_failed e 0
    | Some parent =>
        same <- (if parent =? 0 then ret true else rp <- win parent; ret (w_desktop rp =? ce_desktop e));
        if negb same then set_error WIN_ACCESS_DENIED ;; create_failed e 0
        else match ce_addr e with
        | None => set_error WIN_NO_MEMORY ;; create_failed e 0
        | Some w =>
            s <- get;
            owner_handle <- (if owner =? 0 then ret 0 else ro <- win owner; ret (w_handle ro));
            context <- (if parent =? 0 then ret dpi_context
                        else
                          rp <- win parent;
                          ret (if w_parent rp =? 0 then dpi_context else w_dpi_context rp));
            (if parent =? 0 then ret tt else grab_window parent) ;;
            modify (λ s, set_windows (<[w:=new_window e (current s) parent owner_handle context]> (windows s)) s) ;;
            match ce_shared e with
            | None => fail Uninitialized (* [failed] reads [win->handle], which has no value yet *)
            | Some shared => finish_create e w parent shared
            end
        end
    end.

(** ** Destruction *)

Definition detach_window_thread (w : Z) : WM unit :=
  r <- win w;
  if w_thread r =? 0 then ret tt
  else
    t <- get_thread (w_thread r);
    (if th_queue t then emit (C_queue_cleanup_window (w_thread r) (w_handle r)) else ret tt) ;;
    assert (0 <? th_desktop_users t) ;;
    put_thread (w_thread r) (WinThread (th_queue t) (th_desktop_users t - 1) (th_tid t) (th_pid t)) ;;
    emit (C_release_class (w_class r)) ;;
    upd w (set_w_class 0) ;;
    emit (C_release_desktop (w_desktop r)) ;;
    upd w (set_w_thread 0).

(** [entry.next] of a node of the list [children] of [w]. *)
Definition next_child (w c : Z) : WM (option Z) :=
  rc <- win c;
  r <- win w;
  if decide (w_entry rc = EChildren w) then ret (next_in (w_children r) c) else fail OutOfBounds.

(** One pass of [LIST_FOR_EACH_ENTRY_SAFE] over the children of [w], from
    [cursor]; [free] is the recursive call and [k] bounds the pass. *)
Fixpoint destroy_children (free : Z → WM unit) (k : nat) (w : Z) (cursor : option Z) : WM unit :=
  match cursor with
  | None => ret tt
  | Some c =>
      match k with
      | O => fail OutOfFuel
      | S k =>
          next <- next_child w c;
          r <- win w;
          rc <- win c;
          (if w_handle rc =? 0 then ret tt
           else if (w_thread r =? 0) || (w_thread rc =? 0) || (w_thread r =? w_thread rc) then free c
           else emit (C_send_notify_message (w_handle rc) WM_WINE_DESTROYWINDOW)) ;;
          destroy_children free k w next
      end
  end.

(** A whole pass. *)
Definition destroy_pass (free : Z → WM unit) (w : Z) : WM unit :=
  r <- win w; destroy_children free (length (w_children r)) w (head (w_children r)).

Definition clear_if (w p : Z) : Z := if w =? p then 0 else p.

Definition reset_global_windows (w : Z) : WM unit :=
  r <- win w;
  d <- get_desktop (w_desktop r);
  put_desktop (w_desktop r)
    (Desktop (top_window d) (msg_window d) (clear_if w (shell_window d)) (clear_if w (shell_listview d))
       (clear_if w (progman_window d)) (clear_if w (taskman_window d))).

Definition hide_window (w : Z) : WM unit :=
  v <- is_visible w;
  if v : bool then
    upd w (λ r, set_w_style (Z.land (w_style r) (not32 WS_VISIBLE)) r) ;; emit (C_hide w)
  else ret tt.

(** The desktop or its owner learns of the end of a desktop or top-level window. *)
Definition leave_desktop (w : Z) : WM unit :=
  r <- win w;
  if w_parent r =? 0 then
    d <- get_desktop (w_desktop r);
    assert ((top_window d =? w) || (msg_window d =? w)) ;;
    put_desktop (w_desktop r)
      (if top_window d =? w
       then Desktop 0 (msg_window d) (shell_window d) (shell_listview d) (progman_window d) (taskman_window d)
       else Desktop (top_window d) 0 (shell_window d) (shell_listview d) (progman_window d) (taskman_window d))
  else
    rp <- win (w_parent r);
    if w_parent rp =? 0 then emit (C_post_message (w_handle rp) WM_PARENTNOTIFY WM_DESTROY (w_handle r)) else ret tt.

(** What follows the two passes over the children. *)
Definition finish_destroy (w : Z) : WM unit :=
  reset_global_windows w ;;
  r <- win w;
  emit (C_free_hotkeys (w_desktop r) (w_handle r)) ;;
  emit (C_cleanup_clipboard_window (w_desktop r) (w_handle r)) ;;
  destroy_properties w ;;
  leave_desktop w ;;
  detach_window_thread w ;;
  (if w_parent r =? 0 then ret tt else set_parent_window w 0 ;; ret tt) ;;
  with_users (free_user_handle (w_handle r)) ;;
  upd w (set_w_handle 0) ;;
  release_object w.

(** Both loops of the code run over [children]. *)
Fixpoint free_window_handle (n : nat) (w : Z) : WM unit :=
  match n with
  | O => fail OutOfFuel
  | S n =>
      r <- win w;
      assert (negb (w_handle r =? 0)) ;;
      hide_window w ;;
      destroy_pass (free_window_handle n) w ;;
      destroy_pass (free_window_handle n) w ;;
      finish_destroy w
  end.

Definition destroy_window (w : Z) : WM unit := n <- tree_fuel; free_window_handle n w.

(** The loop of [destroy_thread_windows] from [handle] on. *)
Fixpoint thread_windows_loop (n : nat) (thread handle : Z) : WM unit :=
  p <- with_users (next_user_handle handle NTUSER_OBJ_WINDOW);
  if fst p =? 0 then ret tt
  else match n with
  | O => fail OutOfFuel
  | S n =>
      r <- win (fst p);
      (if negb (w_thread r =? thread) then ret tt
       else if w_parent r =? 0 then detach_window_thread (fst p)
       else destroy_window (fst p)) ;;
      thread_windows_loop n thread (snd p)
  end.

Definition destroy_thread_windows (thread : Z) : WM unit :=
  s <- get; thread_windows_loop (Z.to_nat (nb_handles (users s))) thread 0.
