(* ===== verification/WindowReqs.v ===== *)
(** * Windows: the requests (server/window.c)

    The handlers of the requests that read or change the window tree, and the
    enumeration of windows they share.

    ** Windows: position and Z-order requests (server/window.c)

    [set_window_pos] up to the repainting that follows a change, the request
    around it, and the creation of the desktop windows.  [vis_rgn] says whether
    the visible region of the window can be computed. *)

From stdpp Require Import base list gmap fin_maps.
From S2P Require Import Prelude Region Atom UserHandle Window WindowOps.

Open Scope Z_scope.
Open Scope server_scope.

(** ** Lists of windows *)

(** The array of the reply, [max_count] entries long, and the count. *)
Notation handle_list := (list Z * Z)%type (only parsing).

Section lists.
(** [get_class_atom]. *)
Context (class_atom : Z → Z).

(** A 0 for [thread] or [atom] accepts any. *)
Definition append_window_to_list (w thread atom max_count : Z) (out : handle_list) : WM handle_list :=
  r <- win w;
  if negb (thread =? 0) && negb (w_thread r =? thread) then ret out
  else if negb (atom =? 0) && negb (class_atom (w_class r) =? atom) then ret out
  else ret ((if snd out <? max_count then fst out ++ [w_handle r] else fst out), w32 (snd out + 1)).

(** [LIST_FOR_EACH_ENTRY] with [body], over a list that it does not change. *)
Fixpoint for_each (body : Z → handle_list → WM handle_list) (l : list Z) (out : handle_list) : WM handle_list :=
  match l with [] => ret out | c :: l => out <- body c out; for_each body l out end.

Definition list_children (w thread atom max_count : Z) (out : handle_list) : WM handle_list :=
  r <- win w; for_each (λ c, append_window_to_list c thread atom max_count) (w_children r) out.

(** The recursive branch; [n] bounds its depth. *)
Fixpoint list_descendants (n : nat) (w thread max_count : Z) (out : handle_list) : WM handle_list :=
  match n with
  | O => fail OutOfFuel
  | S n =>
      r <- win w;
      for_each (λ c out,
        out <- append_window_to_list c thread 0 max_count out;
        list_descendants n c thread max_count out) (w_children r) out
  end.

(** [for (child = win; child; child = get_next_window( child ))] *)
Fixpoint list_siblings (n : nat) (cursor : option Z) (thread atom max_count : Z) (out : handle_list) : WM handle_list :=
  match cursor with
  | None => ret out
  | Some c =>
      match n with
      | O => fail OutOfFuel
      | S n =>
          out <- append_window_to_list c thread atom max_count out;
          next <- get_next_window c;
          list_siblings n next thread atom max_count out
      end
  end.

(** [desktop] and [w] are 0 when absent; [cur_desktop] is the desktop of the
    current thread, or 0. *)
Definition get_window_list (cur_desktop desktop w thread : Z) (children : bool) (max_count : Z) : WM handle_list :=
  if negb (desktop =? 0) then
    if children then ret ([], 0)
    else
      d <- get_desktop desktop;
      if top_window d =? 0 then ret ([], 0) else list_children (top_window d) thread 0 max_count ([], 0)
  else if w =? 0 then
    if cur_desktop =? 0 then ret ([], 0)
    else
      d <- get_desktop cur_desktop;
      if top_window d =? 0 then ret ([], 0) else list_children (top_window d) thread 0 max_count ([], 0)
  else if children then n <- tree_fuel; list_descendants n w thread max_count ([], 0)
  else
    r <- win w;
    if negb (w_parent r =? 0) then n <- tree_fuel; list_siblings n (Some w) thread 0 max_count ([], 0)
    else
      out <- append_window_to_list w thread 0 max_count ([], 0);
      d <- get_desktop (w_desktop r);
      if (w =? top_window d) && negb (msg_window d =? 0)
      then append_window_to_list (msg_window d) thread 0 max_count out else ret out.

(** The end of the two listing requests: the count and the handles. *)
Definition reply_list (max_count : Z) (out : handle_list) : WM (Z * list Z) :=
  if max_count <? snd out then set_error WIN_BUFFER_TOO_SMALL ;; ret (snd out, [])
  else ret (snd out, fst out).

(** [thread] and [desktop] are the objects of the request or 0; [max_size] is the
    size of the reply and [alloc] whether the array can be allocated. *)
Definition req_get_window_list (cur_desktop desktop handle thread : Z) (children : bool) (max_size : Z) (alloc : bool)
    : WM (Z * list Z) :=
  w <- (if handle =? 0 then ret 0 else get_window handle);
  if negb (handle =? 0) && (w =? 0) then set_error USER_INVALID_HANDLE ;; ret (0, [])
  else
    let max_count := Z.min (max_size / 4) MAX_USER_HANDLES in
    p <- (if negb alloc then set_error WIN_NO_MEMORY ;; ret (0, [])
          else out <- get_window_list cur_desktop desktop w thread children max_count; reply_list max_count out);
    (if thread =? 0 then ret tt else emit (C_release_thread thread)) ;;
    (if desktop =? 0 then ret tt else emit (C_release_desktop desktop)) ;;
    ret p.

(** The first child of a window, as a pointer. *)
Definition first_child_of (w : Z) : WM (option Z) :=
  if w =? 0 then ret None else get_first_child w.

(** From the window found on; [None] lists the top-level and message windows of
    [desktop]. *)
Definition list_class_windows (desktop : Z) (start : option Z) (atom max_count : Z) : WM handle_list :=
  n <- tree_fuel;
  match start with
  | Some _ => list_siblings n start 0 atom max_count ([], 0)
  | None =>
      d <- get_desktop desktop;
      c <- first_child_of (top_window d);
      out <- list_siblings n c 0 atom max_count ([], 0);
      c <- first_child_of (msg_window d);
      list_siblings n c 0 atom max_count out
  end.

(** [atom] is the class atom, already looked up.  The result is [None] when the
    request returns before the listing. *)
Definition req_get_class_windows (cur_desktop parent_handle child_handle atom max_size : Z) (alloc : bool)
    : WM (option (Z * list Z)) :=
  parent <- (if parent_handle =? 0 then ret 0 else get_window parent_handle);
  if negb (parent_handle =? 0) && (parent =? 0) then ret None
  else
    start <- (if negb (child_handle =? 0) then
                parent <- (if negb (parent =? 0) then ret parent
                           else if cur_desktop =? 0 then ret 0
                           else d <- get_desktop cur_desktop; ret (top_window d));
                w <- get_window child_handle;
                if w =? 0 then ret None
                else
                  r <- win w;
                  if negb (w_parent r =? parent) then ret None
                  else x <- get_next_window w; ret (Some <$> x)
              else if negb (parent =? 0) then x <- get_first_child parent; ret (Some <$> x)
              else if cur_desktop =? 0 then ret None else ret (Some None));
    match start with
    | None => ret None
    | Some start =>
        let max_count := Z.min (max_size / 4) MAX_USER_HANDLES in
        p <- (if negb alloc then set_error WIN_NO_MEMORY ;; ret (0, [])
              else out <- list_class_windows cur_desktop start atom max_count; reply_list max_count out);
        match start with None => emit (C_release_desktop cur_desktop) | Some _ => ret tt end ;;
        ret (Some p)
    end.
End lists.

(** The handles of the ancestors, nearest first. *)
Fixpoint parents_loop (n : nat) (w : Z) : WM (list Z) :=
  if w =? 0 then ret []
  else match n with
  | O => fail OutOfFuel
  | S n => r <- win w; l <- parents_loop n (w_parent r); ret (w_handle r :: l)
  end.

(** The loop that stores the handles [l] while [len] is not 0, in a buffer with
    [room] bytes left. *)
Fixpoint store_parents (l : list Z) (len room : Z) : WM (list Z) :=
  match l with
  | [] => ret []
  | h :: l =>
      if len =? 0 then ret []
      else if room <? 4 then fail OutOfBounds
      else k <- store_parents l (w32 (len - 4)) (room - 4); ret (h :: k)
  end.

(** The count, and the handles of the reply of [max_size] bytes at most; [alloc]
    says whether it can be allocated. *)
Definition req_get_window_parents (handle max_size : Z) (alloc : bool) : WM (Z * list Z) :=
  w <- get_window handle;
  if w =? 0 then ret (0, [])
  else
    n <- tree_fuel;
    r <- win w;
    l <- parents_loop n (w_parent r);
    let total := Z.of_nat (length l) in
    let len := Z.min max_size (4 * total) in
    if len =? 0 then ret (total, [])
    else if negb alloc then set_error WIN_NO_MEMORY ;; ret (total, [])
    else k <- store_parents l len len; ret (total, k).

(** ** Tree information *)

Record window_tree := WindowTree {
  wt_parent : Z;
  wt_owner : Z;
  wt_next_sibling : Z;
  wt_prev_sibling : Z;
  wt_first_sibling : Z;
  wt_last_sibling : Z;
  wt_first_child : Z;
  wt_last_child : Z;
}.

Definition handle_of (o : option Z) : WM Z :=
  match o with None => ret 0 | Some w => r <- win w; ret (w_handle r) end.

Definition req_get_window_tree (handle : Z) : WM (option window_tree) :=
  w <- get_window handle;
  if w =? 0 then ret None
  else
    r <- win w;
    c1 <- (x <- get_first_child w; handle_of x);
    c2 <- (x <- get_last_child w; handle_of x);
    if w_parent r =? 0 then ret (Some (WindowTree 0 0 0 0 0 0 c1 c2))
    else
      rp <- win (w_parent r);
      n <- (if w_is_linked r then x <- get_next_window w; handle_of x else ret 0);
      p <- (if w_is_linked r then x <- get_prev_window w; handle_of x else ret 0);
      s1 <- (x <- get_first_child (w_parent r); handle_of x);
      s2 <- (x <- get_last_child (w_parent r); handle_of x);
      ret (Some (WindowTree (w_handle rp) (w_owner r) n p s1 s2 c1 c2)).

(** ** Styles *)

Definition fix_window_ex_style (r : window) : window :=
  let ex := w_ex_style r in
  if has ex WS_EX_DLGMODALFRAME then set_w_ex_style (Z.lor ex WS_EX_WINDOWEDGE) r
  else if has ex WS_EX_STATICEDGE then set_w_ex_style (Z.land ex (not32 WS_EX_WINDOWEDGE)) r
  else if has (w_style r) (Z.lor WS_DLGFRAME WS_THICKFRAME) then set_w_ex_style (Z.lor ex WS_EX_WINDOWEDGE) r
  else set_w_ex_style (Z.land ex (not32 WS_EX_WINDOWEDGE)) r.

Definition set_window_ex_style (ex_style : Z) (r : window) : window :=
  let r := if negb (w_is_linked r) then set_w_ex_style ex_style r
           else set_w_ex_style (Z.lor (Z.land ex_style (not32 WS_EX_TOPMOST)) (Z.land (w_ex_style r) WS_EX_TOPMOST)) r in
  if negb (has (w_ex_style r) WS_EX_LAYERED) then set_w_is_layered false r else r.

Definition req_init_window_info (handle style ex_style : Z) : WM unit :=
  w <- get_window handle;
  if w =? 0 then ret tt
  else
    upd w (set_w_style style) ;;
    upd w (set_w_ex_style ex_style) ;;
    upd w (λ r, set_w_paint_flags (Z.lor (w_paint_flags r) PAINT_NONCLIENT) r).

Definition GWL_STYLE : Z := -16.
Definition GWL_EXSTYLE : Z := -20.

(** The style offsets; the others are fields of the shared memory. *)
Definition req_set_window_info (handle offset new_info : Z) : WM Z :=
  w <- get_window handle;
  if w =? 0 then ret 0
  else
    s <- get;
    r <- win w;
    if (w_parent r =? 0) && negb (w_thread r =? current s) then set_error WIN_ACCESS_DENIED ;; ret 0
    else if offset =? GWL_STYLE then
      upd w (set_w_style (w32 new_info)) ;;
      upd w fix_window_ex_style ;;
      upd w (λ r, set_w_paint_flags (Z.lor (w_paint_flags r) PAINT_NONCLIENT) r) ;;
      ret (w_style r)
    else if offset =? GWL_EXSTYLE then
      upd w (set_window_ex_style (w32 new_info)) ;; ret (w_ex_style r)
    else emit (C_set_window_info w offset) ;; ret 0.

(** The last active window and the information asked for. *)
Definition req_get_window_info (handle offset size : Z) : WM (Z * Z) :=
  w <- get_window handle;
  if w =? 0 then ret (0, 0)
  else
    r <- win w;
    a <- with_users (get_user_object (w_last_active r) NTUSER_OBJ_WINDOW);
    let last_active := if a =? 0 then w_handle r else w_last_active r in
    if offset =? GWL_STYLE then ret (last_active, w_style r)
    else if offset =? GWL_EXSTYLE then ret (last_active, w_ex_style r)
    else (if size =? 0 then ret tt else set_error WIN_INVALID_INDEX) ;; ret (last_active, 0).

(** ** Creation, parents and owners *)

(** [while (... == WS_CHILD && !is_desktop_window(owner->parent)) owner = owner->parent] *)
Fixpoint toplevel_owner (n : nat) (w : Z) : WM Z :=
  match n with
  | O => fail OutOfFuel
  | S n =>
      r <- win w;
      if negb (Z.land (w_style r) (Z.lor WS_POPUP WS_CHILD) =? WS_CHILD) then ret w
      else d <- is_desktop_window (w_parent r); if d : bool then ret w else toplevel_owner n (w_parent r)
  end.

(** The owner of a new window: [None] when the request ends with an error. *)
Definition find_owner (owner_handle parent : Z) : WM (option Z) :=
  if owner_handle =? 0 then ret (Some 0)
  else
    owner <- get_window owner_handle;
    if owner =? 0 then ret None
    else
      d <- is_desktop_window owner;
      if d : bool then ret (Some 0)
      else
        dp <- (if parent =? 0 then ret true else is_desktop_window parent);
        if negb dp then set_error WIN_ACCESS_DENIED ;; ret None
        else n <- tree_fuel; o <- toplevel_owner n owner; ret (Some o).

(** The parent of a new window: [None] when the request ends with an error. *)
Definition find_parent (parent_handle : Z) : WM (option Z) :=
  if parent_handle =? 0 then ret (Some 0)
  else
    parent <- get_window parent_handle;
    if parent =? 0 then ret None
    else
      o <- is_orphan_window parent;
      if o : bool then set_error WIN_INVALID_PARAMETER ;; ret None else ret (Some parent).

(** The handle, the parent and the owner of the new window. *)
Definition req_create_window (e : create_env) (parent_handle owner_handle dpi_context style ex_style : Z)
    : WM (Z * Z * Z) :=
  op <- find_parent parent_handle;
  match op with
  | None => ret (0, 0, 0)
  | Some parent =>
      oo <- find_owner owner_handle parent;
      match oo with
      | None => ret (0, 0, 0)
      | Some owner =>
          w <- create_window e parent owner dpi_context;
          if w =? 0 then ret (0, 0, 0)
          else
            upd w (set_w_style style) ;;
            upd w (set_w_ex_style ex_style) ;;
            r <- win w;
            ph <- (if w_parent r =? 0 then ret 0 else rp <- win (w_parent r); ret (w_handle rp));
            ret (w_handle r, ph, w_owner r)
      end
  end.

Definition dpi_awareness (ctx : Z) : Z := Z.land ctx 0x0f.
Definition is_dpi_awareness_compatible (r other : window) : bool :=
  dpi_awareness (w_dpi_context r) =? dpi_awareness (w_dpi_context other).

(** The old parent and the full handle of the new one. *)
Definition req_set_parent (handle parent_handle : Z) : WM (Z * Z) :=
  w <- get_window handle;
  if w =? 0 then ret (0, 0)
  else
    parent <- (if parent_handle =? 0 then ret 0 else get_window parent_handle);
    if negb (parent_handle =? 0) && (parent =? 0) then ret (0, 0)
    else
      r <- win w;
      dpi_ok <- (if parent =? 0 then ret true
                 else rp <- win parent; ret ((w_parent rp =? 0) || is_dpi_awareness_compatible r rp));
      if negb dpi_ok then set_error WIN_INVALID_STATE_TRANSITION ;; ret (0, 0)
      else
        refused <- (if w_parent r =? 0 then ret true
                    else
                      o <- is_orphan_window w;
                      if o : bool then ret true else if parent =? 0 then ret false else is_orphan_window parent);
        if refused : bool then set_error WIN_INVALID_PARAMETER ;; ret (0, 0)
        else
          ro <- win (w_parent r);
          full <- (if parent =? 0 then ret 0 else rp <- win parent; ret (w_handle rp));
          set_parent_window w parent ;;
          ret (w_handle ro, full).

Definition req_destroy_window (handle : Z) : WM unit :=
  s <- get;
  if handle =? 0 then destroy_thread_windows (current s)
  else
    w <- get_window handle;
    if w =? 0 then ret tt
    else
      r <- win w;
      if negb (w_parent r =? 0) then destroy_window w
      else if w_thread r =? current s then detach_window_thread w
      else set_error WIN_ACCESS_DENIED.

(** The loop over the owners of [owner]: whether [w] is one of them. *)
Fixpoint owner_loop (n : nat) (w ptr : Z) : WM bool :=
  if ptr =? 0 then ret false
  else if ptr =? w then ret true
  else match n with
  | O => fail OutOfFuel
  | S n =>
      r <- win ptr;
      next <- (if w_owner r =? 0 then ret 0 else get_window (w_owner r));
      owner_loop n w next
  end.

(** The previous and the new owner. *)
Definition req_set_window_owner (handle owner_handle : Z) : WM (Z * Z) :=
  w <- get_window handle;
  if w =? 0 then ret (0, 0)
  else
    owner <- (if owner_handle =? 0 then ret 0 else get_window owner_handle);
    if negb (owner_handle =? 0) && (owner =? 0) then ret (0, 0)
    else
      r <- win w;
      if w_parent r =? 0 then set_error WIN_ACCESS_DENIED ;; ret (0, 0)
      else
        n <- tree_fuel;
        cycle <- owner_loop n w owner;
        if cycle : bool then set_error WIN_INVALID_PARAMETER ;; ret (0, 0)
        else
          full <- (if owner =? 0 then ret 0 else ro <- win owner; ret (w_handle ro));
          upd w (set_w_owner full) ;;
          ret (w_owner r, full).

(** * Windows: position and Z-order requests (server/window.c) *)

(** The rectangles of a window. *)
Record win_rects := WinRects { wr_window : rectangle; wr_client : rectangle; wr_visible : rectangle; wr_surface : rectangle }.

Definition set_rects (x : win_rects) (r : window) : window :=
  set_w_client_rect (wr_client x) (set_w_surface_rect (wr_surface x)
    (set_w_visible_rect (wr_visible x) (set_w_window_rect (wr_window x) r))).

Definition offset_rects (dx : Z) (r : window) : window :=
  set_rects (WinRects (offset_rect (w_window_rect r) dx 0) (offset_rect (w_client_rect r) dx 0)
    (offset_rect (w_visible_rect r) dx 0) (offset_rect (w_surface_rect r) dx 0)) r.

(** The children of a mirrored window keep their distance to its right edge. *)
Fixpoint offset_children (l : list Z) (dx : Z) : WM unit :=
  match l with [] => ret tt | c :: l => upd c (offset_rects dx) ;; offset_children l dx end.

Definition rect_width (r : rectangle) : Z := int32 (right r - left r).

(** [previous] is not looked at when [SWP_NOZORDER] is set. *)
Definition set_window_pos (w : Z) (previous : winptr) (flags : Z) (x : win_rects) (vis_rgn : bool) : WM unit :=
  r <- win w;
  let shown := has (w_style r) WS_VISIBLE || has flags SWP_SHOWWINDOW in
  visible <- (if w_parent r =? 0 then ret shown else v <- is_visible (w_parent r); ret (v && shown));
  if visible && negb vis_rgn then ret tt
  else
    upd w (set_rects x) ;;
    zorder_changed <- (if negb (has flags SWP_NOZORDER) && negb (w_parent r =? 0) then link_window w previous
                       else ret false);
    (if has flags SWP_SHOWWINDOW then upd w (λ r, set_w_style (Z.lor (w_style r) WS_VISIBLE) r)
     else if has flags SWP_HIDEWINDOW then upd w (λ r, set_w_style (Z.land (w_style r) (not32 WS_VISIBLE)) r)
     else ret tt) ;;
    top <- is_toplevel w;
    (if top : bool then emit (C_set_window_monitor_dpi w) else ret tt) ;;
    r' <- win w;
    (if has (w_ex_style r') WS_EX_LAYOUTRTL
     then
       let old_size := rect_width (w_client_rect r) in
       let new_size := rect_width (w_client_rect r') in
       if negb (old_size =? new_size) then offset_children (w_children r') (int32 (new_size - old_size)) else ret tt
     else ret tt) ;;
    d <- get_desktop (w_desktop r);
    (if w =? top_window d then emit (C_set_clip_rectangle (w_desktop r)) else ret tt) ;;
    if negb visible then ret tt else emit (C_repaint w zorder_changed) ;; set_error 0.

(** The [previous] of a request: [None] when it ends with an error. *)
Definition find_previous (w previous_handle : Z) : WM (option winptr) :=
  let p := int32 previous_handle in
  if p =? 0 then ret (Some WINPTR_TOP)
  else if p =? 1 then ret (Some WINPTR_BOTTOM)
  else if p =? -1 then ret (Some WINPTR_TOPMOST)
  else if p =? -2 then ret (Some WINPTR_NOTOPMOST)
  else
    previous <- get_window previous_handle;
    if previous =? 0 then ret None
    else
      rp <- win previous;
      r <- win w;
      if negb (w_parent rp =? w_parent r) then set_error WIN_INVALID_PARAMETER ;; ret None
      else ret (Some (WinAt previous)).

Definition mirror_rects (client : rectangle) (x : win_rects) : win_rects :=
  WinRects (mirror_rect client (wr_window x)) (mirror_rect client (wr_client x))
    (mirror_rect client (wr_visible x)) (mirror_rect client (wr_surface x)).

(** The rectangles of the request: the visible and surface rectangles are
    optional. *)
Definition request_rects (window_rect client_rect : rectangle) (extra : list rectangle) : win_rects :=
  let visible := default window_rect (extra !! 0%nat) in
  WinRects window_rect client_rect visible (default visible (extra !! 1%nat)).

(** The flags of the move and where to put the window, from the request. *)
Definition zorder_request (w : Z) (r : window) (previous_handle flags : Z) : WM (option (winptr * Z)) :=
  let flags := if w_parent r =? 0 then Z.lor flags SWP_NOZORDER else flags in
  if has flags SWP_NOZORDER then ret (Some (WINPTR_TOP, flags))
  else
    op <- find_previous w previous_handle;
    ret match op with
        | None => None
        | Some p => Some (p, if decide (p = WinAt w) then Z.lor flags SWP_NOZORDER else flags)
        end.

(** The new styles and the handle of the surface window. *)
Definition req_set_window_pos (handle previous_handle swp_flags paint_flags : Z) (window_rect client_rect : rectangle)
    (extra : list rectangle) (vis_rgn : bool) : WM (Z * Z * Z) :=
  w <- get_window handle;
  if w =? 0 then ret (0, 0, 0)
  else
    r <- win w;
    op <- zorder_request w r previous_handle swp_flags;
    match op with
    | None => ret (0, 0, 0)
    | Some (previous, flags) =>
        let flags := if has (w_ex_style r) WS_EX_LAYERED && negb (w_is_layered r) then Z.lor flags SWP_NOREDRAW else flags in
        if (right window_rect <? left window_rect) || (bottom window_rect <? top window_rect)
        then set_error WIN_INVALID_PARAMETER ;; ret (0, 0, 0)
        else
          let x := request_rects window_rect client_rect extra in
          x <- (if w_parent r =? 0 then ret x
                else
                  rp <- win (w_parent r);
                  ret (if has (w_ex_style rp) WS_EX_LAYOUTRTL then mirror_rects (w_client_rect rp) x else x));
          upd w (λ r, set_w_paint_flags (Z.lor (Z.land (w_paint_flags r) (not32 PAINT_CLIENT_FLAGS))
                                               (Z.land paint_flags PAINT_CLIENT_FLAGS)) r) ;;
          (if has paint_flags PAINT_HAS_PIXEL_FORMAT then update_pixel_format_flags w else ret tt) ;;
          set_window_pos w previous flags x vis_rgn ;;
          r' <- win w;
          (if has (Z.land (w_style r') (w_style r)) WS_VISIBLE &&
              (negb (is_rect_equal (w_client_rect r) (w_client_rect r')) ||
               negb (is_rect_equal (w_window_rect r) (w_window_rect r')))
           then emit (C_update_cursor_pos (w_desktop r)) else ret tt) ;;
          (if has (w_paint_flags r') PAINT_HAS_LAYERED_SURFACE then emit (C_validate_whole_window w) else ret tt) ;;
          t <- get_top_clipping_window w;
          v <- is_visible t;
          rt <- win t;
          ret (w_style r', w_ex_style r', if v && has (w_paint_flags rt) PAINT_HAS_SURFACE then w_handle rt else 0)
    end.

(** ** Activation *)

(** The loop over the owners of [owner]. *)
Fixpoint active_loop (n : nat) (h owner : Z) : WM unit :=
  if owner =? 0 then ret tt
  else match n with
  | O => fail OutOfFuel
  | S n =>
      r <- win owner;
      upd owner (set_w_last_active h) ;;
      next <- with_users (get_user_object (w_owner r) NTUSER_OBJ_WINDOW);
      active_loop n h next
  end.

Definition make_window_active (handle : Z) : WM bool :=
  w <- get_window handle;
  if w =? 0 then ret false
  else n <- tree_fuel; r <- win w; active_loop n (w_handle r) w ;; ret true.

(** ** The desktop windows *)

Definition DESKTOP_STYLE : Z := Z.lor (Z.lor WS_POPUP WS_VISIBLE) (Z.lor WS_CLIPSIBLINGS WS_CLIPCHILDREN).
Definition MESSAGE_STYLE : Z := Z.lor WS_POPUP (Z.lor WS_CLIPSIBLINGS WS_CLIPCHILDREN).

(** Store the result of [create_window] in the desktop, and detach the window. *)
Definition adopt_root (d w : Z) (store : Z → desktop → desktop) (style : Z) : WM unit :=
  x <- get_desktop d;
  put_desktop d (store w x) ;;
  if w =? 0 then ret tt else detach_window_thread w ;; upd w (set_w_style style).

Definition store_top (w : Z) (d : desktop) : desktop :=
  Desktop w (msg_window d) (shell_window d) (shell_listview d) (progman_window d) (taskman_window d).
Definition store_msg (w : Z) (d : desktop) : desktop :=
  Desktop (top_window d) w (shell_window d) (shell_listview d) (progman_window d) (taskman_window d).

(** [e] and [e'] are the environments of the two windows, [None] for the second
    when the atom of its class cannot be added. *)
Definition req_get_desktop_window (d : Z) (force : bool) (dpi_context : Z) (e : create_env) (e' : option create_env)
    : WM (Z * Z) :=
  if d =? 0 then ret (0, 0)
  else
    x <- get_desktop d;
    (if (top_window x =? 0) && force then
       w <- create_window e 0 0 dpi_context; adopt_root d w store_top DESKTOP_STYLE
     else ret tt) ;;
    x <- get_desktop d;
    (if (msg_window x =? 0) && force then
       match e' with
       | None => ret tt
       | Some e' => w <- create_window e' 0 0 dpi_context; adopt_root d w store_msg MESSAGE_STYLE
       end
     else ret tt) ;;
    x <- get_desktop d;
    t <- (if top_window x =? 0 then ret 0 else r <- win (top_window x); ret (w_handle r));
    m <- (if msg_window x =? 0 then ret 0 else r <- win (msg_window x); ret (w_handle r));
    emit (C_release_desktop d) ;;
    ret (t, m).
