(* ===== verification/WindowTree.v ===== *)
(** * Windows: the shape of the tree

    The invariant of the window tree, [tree_ok], on the heap of windows alone: the
    paths to the root, the two lists of each window, the reference counts; and the
    effect on it of the two ways the code changes the shape: moving a window, and
    freeing one. *)

From stdpp Require Import base list gmap fin_maps.
From S2P Require Import Prelude Atom UserHandle Region Window.

Open Scope Z_scope.

Notation winmap := (gmap Z window) (only parsing).

(** ** Paths to the root *)

Inductive path (W : winmap) : Z → list Z → Prop :=
| path_root : path W 0 []
| path_up w r l : w ≠ 0 → W !! w = Some r → path W (w_parent r) l → path W w (w :: l).

Definition rooted (W : winmap) (w : Z) : Prop := ∃ l, path W w l.

(** [a] is [w] or one of its ancestors. *)
Definition under (W : winmap) (a w : Z) : Prop := ∃ l, path W w l ∧ a ∈ l.

Lemma path_unique W w l k : path W w l → path W w k → l = k.
Proof.
  intros Hl. revert k. induction Hl as [|w r l Hw Hr Hl IH]; intros k Hk; inversion Hk; simplify_eq; [done|].
  f_equal. by apply IH.
Qed.

Lemma path_suffix W w l a : path W w l → a ∈ l → ∃ l1 l2, l = l1 ++ l2 ∧ path W a l2.
Proof.
  induction 1 as [|w r l Hw Hr Hl IH]; [by intros ?%not_elem_of_nil|].
  intros [->|Ha]%elem_of_cons; [exists [], (w :: l); split; [done|by econstructor]|].
  destruct (IH Ha) as (l1 & l2 & -> & Hp). by exists (w :: l1), l2.
Qed.

Lemma path_nodup W w l : path W w l → NoDup l.
Proof.
  induction 1 as [|w r l Hw Hr Hl IH]; constructor; [|done]. intros Hin.
  destruct (path_suffix _ _ _ _ Hl Hin) as (l1 & l2 & -> & Hp).
  assert (Hp' : path W w (w :: l1 ++ l2)) by (by econstructor).
  pose proof (path_unique _ _ _ _ Hp Hp') as E. apply (f_equal length) in E. simpl in E. rewrite length_app in E. lia.
Qed.

Lemma path_dom W w l a : path W w l → a ∈ l → is_Some (W !! a).
Proof.
  induction 1 as [|w r l Hw Hr Hl IH]; [by intros ?%not_elem_of_nil|].
  intros [->|Ha]%elem_of_cons; eauto.
Qed.

Lemma path_nonzero W w l : path W w l → 0 ∉ l.
Proof. induction 1 as [|x r l Hx Hr Hl IH]; [by apply not_elem_of_nil|]. by apply not_elem_of_cons. Qed.

Lemma path_head W w l : path W w l → w ≠ 0 → w ∈ l.
Proof. destruct 1; [done|]. intros _. by left. Qed.

(** The bound on every walk to the root. *)
Lemma path_length W w l : path W w l → (length l ≤ base.size W)%nat.
Proof.
  intros Hl. rewrite <-size_dom. rewrite <-(size_list_to_set (C:=gset Z)) by (by eapply path_nodup).
  apply subseteq_size. intros a Ha%elem_of_list_to_set. by apply elem_of_dom, (path_dom _ _ _ _ Hl).
Qed.

Lemma path_rest W w r l : path W w l → w ≠ 0 → W !! w = Some r → ∃ k, l = w :: k ∧ path W (w_parent r) k.
Proof. inversion 1; intros; simplify_eq; eauto. Qed.

Lemma under_refl W w : rooted W w → w ≠ 0 → under W w w.
Proof. intros [l Hl] Hw. exists l. split; [done|]. by apply (path_head W). Qed.

Lemma under_step W a w r : w ≠ 0 → W !! w = Some r → under W a (w_parent r) → under W a w.
Proof. intros Hw Hr (l & Hl & Ha). exists (w :: l). split; [by econstructor|by right]. Qed.

Lemma under_inv W a w r : W !! w = Some r → under W a w → a = w ∨ under W a (w_parent r).
Proof.
  intros Hr (l & Hl & Ha). destruct (decide (w = 0)) as [->|Hw]; [inversion Hl; by simplify_eq; apply not_elem_of_nil in Ha|].
  destruct (path_rest _ _ _ _ Hl Hw Hr) as (k & -> & Hk). apply elem_of_cons in Ha as [->|Ha]; [by left|]. right. by exists k.
Qed.

Lemma under_trans W a b c : under W a b → under W b c → under W a c.
Proof.
  intros (l & Hl & Ha) (k & Hk & Hb). exists k. split; [done|].
  destruct (path_suffix _ _ _ _ Hk Hb) as (k1 & k2 & -> & Hp). rewrite (path_unique _ _ _ _ Hl Hp) in Ha.
  apply elem_of_app. by right.
Qed.

(** A window is not below itself. *)
Lemma not_under_parent W w r : W !! w = Some r → ¬ under W w (w_parent r).
Proof.
  intros Hr (l & Hl & Hw). assert (w ≠ 0) by (intros ->; by apply (path_nonzero _ _ _ Hl)).
  assert (Hp : path W w (w :: l)) by (by econstructor). apply path_nodup in Hp.
  by apply NoDup_cons in Hp as [? _].
Qed.

(** The ancestors of a window are comparable. *)
Lemma under_total W a b w : under W a w → under W b w → under W a b ∨ under W b a.
Proof.
  intros (l & Hl & Ha) (k & Hk & Hb). rewrite (path_unique _ _ _ _ Hk Hl) in Hb.
  destruct (path_suffix _ _ _ _ Hl Ha) as (l1 & l2 & E & Hpa).
  destruct (path_suffix _ _ _ _ Hl Hb) as (k1 & k2 & E' & Hpb).
  assert (∃ m, l2 = m ++ k2 ∨ k2 = m ++ l2) as (m & Hm).
  { rewrite E in E'. clear -E'. revert k1 E'. induction l1 as [|x l1 IH]; intros [|y k1] E'; simplify_eq/=; eauto.
    - by exists []; left.
    - exists (y :: k1). by left.
    - exists (x :: l1). by right. }
  assert (Ha0 : a ≠ 0) by (intros ->; by apply (path_nonzero _ _ _ Hl)).
  assert (Hb0 : b ≠ 0) by (intros ->; by apply (path_nonzero _ _ _ Hl)).
  destruct Hm as [-> | ->].
  - right. exists (m ++ k2). split; [done|]. apply elem_of_app. right. by apply (path_head W).
  - left. exists (m ++ l2). split; [done|]. apply elem_of_app. right. by apply (path_head W).
Qed.

(** Changing windows that are not on it leaves a path as it was. *)
Lemma path_ext W W' w l :
  path W w l → (∀ x, x ∈ l → w_parent <$> W' !! x = w_parent <$> W !! x) → path W' w l.
Proof.
  induction 1 as [|w r l Hw Hr Hl IH]; intros HW; [constructor|].
  pose proof (HW w (list_elem_of_here _ _)) as E. rewrite Hr in E.
  destruct (W' !! w) as [r'|] eqn:Hr'; [|done]. simpl in E. injection E as E.
  econstructor; [done|done|]. rewrite E. apply IH. intros x Hx. apply HW. by right.
Qed.

(** ** The invariant *)

(** The references to a window. *)
Definition uses (r : window) : Z :=
  (if w_handle r =? 0 then 0 else 1) + Z.of_nat (length (w_children r)) + Z.of_nat (length (w_unlinked r)).

(** Where the list node of a window must be. *)
Definition home (r : window) : entry_link :=
  if w_parent r =? 0 then ESelf else if w_is_linked r then EChildren (w_parent r) else EUnlinked (w_parent r).

(** The list of a window in which the node of [r] is. *)
Definition list_for (r rp : window) : list Z := if w_is_linked r then w_children rp else w_unlinked rp.

Record tree_ok (W : winmap) : Prop := {
  t_null : W !! 0 = None;
  t_rooted : ∀ w r, W !! w = Some r → rooted W w;
  t_entry : ∀ w r, W !! w = Some r → w_entry r = home r;
  t_member : ∀ w r, W !! w = Some r → w_parent r ≠ 0 → ∃ rp, W !! w_parent r = Some rp ∧ w ∈ list_for r rp;
  t_children : ∀ p rp c, W !! p = Some rp → c ∈ w_children rp →
    ∃ r, W !! c = Some r ∧ w_parent r = p ∧ w_is_linked r = true;
  t_unlinked : ∀ p rp c, W !! p = Some rp → c ∈ w_unlinked rp →
    ∃ r, W !! c = Some r ∧ w_parent r = p ∧ w_is_linked r = false;
  t_nodup : ∀ p rp, W !! p = Some rp → NoDup (w_children rp) ∧ NoDup (w_unlinked rp);
  t_refs : ∀ w r, W !! w = Some r → w_refs r = uses r;
  t_live : ∀ w r, W !! w = Some r → w_is_linked r = true → w_handle r ≠ 0;
  t_dead : ∀ w r, W !! w = Some r → w_handle r = 0 → w_parent r ≠ 0 ∧ w_is_orphan r = true;
}.

Lemma parent_ne W w r : tree_ok W → W !! w = Some r → w ≠ w_parent r.
Proof.
  intros HW Hr E. apply (not_under_parent W w r Hr). rewrite <-E.
  apply under_refl; [by eapply t_rooted|]. intros ->. by rewrite (t_null _ HW) in Hr.
Qed.

(** A window is in one of the lists of its parent only. *)
Lemma other_list_absent W w r rp : tree_ok W → W !! w = Some r → W !! w_parent r = Some rp →
  if w_is_linked r then w ∉ w_unlinked rp else w ∉ w_children rp.
Proof.
  intros HW Hr Hrp. destruct (w_is_linked r) eqn:E; intros Hin.
  - destruct (t_unlinked _ HW _ rp w Hrp Hin) as (r' & Hr' & _ & El). congruence.
  - destruct (t_children _ HW _ rp w Hrp Hin) as (r' & Hr' & _ & El). congruence.
Qed.

(** The fields the invariant reads. *)
Definition core (r : window) : Z * Z * list Z * list Z * entry_link * Z * bool * bool :=
  (w_refs r, w_parent r, w_children r, w_unlinked r, w_entry r, w_handle r, w_is_linked r, w_is_orphan r).

Lemma core_lookup (W W' : winmap) x r : (∀ x, core <$> W' !! x = core <$> W !! x) → W !! x = Some r →
  ∃ r', W' !! x = Some r' ∧ core r' = core r.
Proof. intros HW Hr. specialize (HW x). rewrite Hr in HW. destruct (W' !! x) as [r'|]; [|done].
  injection HW as HW. exists r'. split; [done|]. unfold core. congruence.
Qed.

Lemma core_uses r r' : core r' = core r → uses r' = uses r.
Proof. unfold core, uses. by intros [= _ _ -> -> _ -> _ _]. Qed.

(** The invariant depends on these fields only. *)
Lemma tree_ok_ext W W' : (∀ x, core <$> W' !! x = core <$> W !! x) → tree_ok W → tree_ok W'.
Proof.
  intros HW [A B C D E F G H I J].
  assert (HW' : ∀ x, core <$> W !! x = core <$> W' !! x) by done.
  assert (Hd : ∀ x r', W' !! x = Some r' → ∃ r, W !! x = Some r ∧ core r = core r') by (intros x r' Hx; exact (core_lookup W' W x r' HW' Hx)).
  assert (Hu : ∀ x r, W !! x = Some r → ∃ r', W' !! x = Some r' ∧ core r' = core r) by (intros x r Hx; exact (core_lookup W W' x r HW Hx)).
  split.
  - specialize (HW 0). rewrite A in HW. by destruct (W' !! 0).
  - intros w r' (r & Hr & _)%Hd. destruct (B w r Hr) as [l Hl]. exists l. eapply path_ext; [done|].
    intros x _. specialize (HW x). destruct (W' !! x), (W !! x); simplify_eq/=; [|done]. by f_equal.
  - intros w r' (r & Hr & Hc)%Hd. specialize (C w r Hr). unfold home in *. by injection Hc as _ <- _ _ <- _ <- _.
  - intros w r' (r & Hr & Hc)%Hd Hp. injection Hc as _ Ep _ _ _ _ El _. rewrite <-Ep in Hp |- *.
    destruct (D w r Hr Hp) as (rp & Hrp & Hin). destruct (Hu _ _ Hrp) as (rp' & Hrp' & Hc'). exists rp'. split; [done|].
    unfold list_for in *. rewrite <-El. by injection Hc' as _ _ -> -> _ _ _ _.
  - intros p rp' c (rp & Hrp & Hc)%Hd Hin. injection Hc as _ _ Ec _ _ _ _ _. rewrite <-Ec in Hin.
    destruct (E p rp c Hrp Hin) as (r & Hr & H1 & H2). destruct (Hu _ _ Hr) as (r' & Hr' & Hc'). exists r'.
    injection Hc' as _ -> _ _ _ _ -> _. done.
  - intros p rp' c (rp & Hrp & Hc)%Hd Hin. injection Hc as _ _ _ Ec _ _ _ _. rewrite <-Ec in Hin.
    destruct (F p rp c Hrp Hin) as (r & Hr & H1 & H2). destruct (Hu _ _ Hr) as (r' & Hr' & Hc'). exists r'.
    injection Hc' as _ -> _ _ _ _ -> _. done.
  - intros p rp' (rp & Hrp & Hc)%Hd. injection Hc as _ _ <- <- _ _ _ _. by apply (G p).
  - intros w r' (r & Hr & Hc)%Hd. rewrite <-(core_uses _ _ Hc). injection Hc as <- _ _ _ _ _ _ _. by apply (H w).
  - intros w r' (r & Hr & Hc)%Hd. injection Hc as _ _ _ _ _ <- <- _. by apply (I w).
  - intros w r' (r & Hr & Hc)%Hd. injection Hc as _ <- _ _ _ <- _ <-. by apply (J w).
Qed.

Lemma elem_of_remove_from w l x : x ∈ remove_from w l ↔ x ∈ l ∧ x ≠ w.
Proof. unfold remove_from. rewrite list_elem_of_filter. tauto. Qed.

Lemma remove_from_absent w l : w ∉ l → remove_from w l = l.
Proof.
  intros Hw. unfold remove_from. induction l as [|x l IH]; [done|]. apply not_elem_of_cons in Hw as [Hx Hw].
  rewrite filter_cons_True by done. f_equal. by apply IH.
Qed.

Lemma remove_from_nodup w l : NoDup l → NoDup (remove_from w l).
Proof. apply NoDup_filter. Qed.

Lemma remove_from_length w l : NoDup l → w ∈ l → length l = S (length (remove_from w l)).
Proof.
  induction l as [|x l IH]; [by intros _ ?%not_elem_of_nil|]. intros [Hx Hnd]%NoDup_cons Hw.
  unfold remove_from. destruct (decide (x = w)) as [->|Hne].
  - rewrite filter_cons_False by tauto. fold (remove_from w l). by rewrite remove_from_absent.
  - rewrite filter_cons_True by done. simpl. f_equal. apply IH; [done|]. by apply elem_of_cons in Hw as [->|?].
Qed.

(** ** Moving a window

    [w] goes to the list [l'] of [p], linked or not; the other windows keep what
    they had but for [w] in their lists, and count their uses. *)

Record moved (W W' : winmap) (w p : Z) (linked : bool) (l' : list Z) : Prop := {
  mv_self : ∃ r r', W !! w = Some r ∧ W' !! w = Some r' ∧ w_refs r' = w_refs r ∧ w_parent r' = p ∧
    w_children r' = w_children r ∧ w_unlinked r' = w_unlinked r ∧ w_entry r' = home r' ∧
    w_handle r' = w_handle r ∧ w_is_linked r' = linked ∧ (w_handle r = 0 → linked = false ∧ w_is_orphan r' = true);
  mv_other : ∀ x, x ≠ w → option_Forall2 (λ rx rx', w_parent rx' = w_parent rx ∧ w_entry rx' = w_entry rx ∧
    w_handle rx' = w_handle rx ∧ w_is_linked rx' = w_is_linked rx ∧ w_is_orphan rx' = w_is_orphan rx ∧
    w_children rx' = (if bool_decide (x = p) && linked then l' else remove_from w (w_children rx)) ∧
    w_unlinked rx' = (if bool_decide (x = p) && negb linked then l' else remove_from w (w_unlinked rx)) ∧
    w_refs rx' = uses rx') (W !! x) (W' !! x);
  mv_parent : ∃ rp, W !! p = Some rp ∧ l' ≡ₚ w :: remove_from w (if linked then w_children rp else w_unlinked rp);
  mv_acyclic : ¬ under W w p;
}.

Section moved.
Context (W W' : winmap) (w p : Z) (linked : bool) (l' : list Z).
Context (HW : tree_ok W) (Hm : moved W W' w p linked l').

Lemma moved_fwd x rx : x ≠ w → W !! x = Some rx → ∃ rx', W' !! x = Some rx' ∧
  w_parent rx' = w_parent rx ∧ w_entry rx' = w_entry rx ∧
  w_handle rx' = w_handle rx ∧ w_is_linked rx' = w_is_linked rx ∧ w_is_orphan rx' = w_is_orphan rx ∧
  w_children rx' = (if bool_decide (x = p) && linked then l' else remove_from w (w_children rx)) ∧
  w_unlinked rx' = (if bool_decide (x = p) && negb linked then l' else remove_from w (w_unlinked rx)) ∧
  w_refs rx' = uses rx'.
Proof.
  intros Hx Hr. pose proof (mv_other _ _ _ _ _ _ Hm x Hx) as H. rewrite Hr in H. inversion H; subst. eauto.
Qed.

Lemma moved_bwd x rx' : x ≠ w → W' !! x = Some rx' → ∃ rx, W !! x = Some rx ∧
  w_parent rx' = w_parent rx ∧ w_entry rx' = w_entry rx ∧
  w_handle rx' = w_handle rx ∧ w_is_linked rx' = w_is_linked rx ∧ w_is_orphan rx' = w_is_orphan rx ∧
  w_children rx' = (if bool_decide (x = p) && linked then l' else remove_from w (w_children rx)) ∧
  w_unlinked rx' = (if bool_decide (x = p) && negb linked then l' else remove_from w (w_unlinked rx)) ∧
  w_refs rx' = uses rx'.
Proof.
  intros Hx Hr. pose proof (mv_other _ _ _ _ _ _ Hm x Hx) as H. rewrite Hr in H. inversion H; subst. eauto.
Qed.

(** The windows in a list of [x] after the move. *)
Lemma moved_in_list c x rx rx' b : x ≠ w → W !! x = Some rx → W' !! x = Some rx' →
  c ∈ (if b : bool then w_children rx' else w_unlinked rx') ↔
  c = w ∧ x = p ∧ b = linked ∨ c ≠ w ∧ c ∈ (if b then w_children rx else w_unlinked rx).
Proof.
  intros Hx Hr Hr'. destruct (moved_fwd x rx Hx Hr) as (r2 & Hr2 & _ & _ & _ & _ & _ & Hch & Hun & _). simplify_eq.
  destruct (mv_parent _ _ _ _ _ _ Hm) as (rp & Hrp & Hl').
  assert (Hl : c ∈ l' ↔ c = w ∨ c ≠ w ∧ c ∈ if linked then w_children rp else w_unlinked rp).
  { rewrite Hl', elem_of_cons, elem_of_remove_from. tauto. }
  destruct b; rewrite ?Hch, ?Hun; destruct (bool_decide_reflect (x = p)) as [->|Hxp], linked; simplify_eq/=;
    rewrite ?Hl, ?elem_of_remove_from; naive_solver.
Qed.

Lemma moved_self_entry rw : W !! w = Some rw → ∃ r', W' !! w = Some r' ∧ w_refs r' = w_refs rw ∧ w_parent r' = p ∧
    w_children r' = w_children rw ∧ w_unlinked r' = w_unlinked rw ∧ w_entry r' = home r' ∧
    w_handle r' = w_handle rw ∧ w_is_linked r' = linked ∧ (w_handle rw = 0 → linked = false ∧ w_is_orphan r' = true).
Proof. intros Hr. destruct (mv_self _ _ _ _ _ _ Hm) as (r & r' & Hr0 & H). simplify_eq. eauto. Qed.

Lemma moved_nonzero : w ≠ 0 ∧ p ≠ 0 ∧ p ≠ w.
Proof.
  destruct (mv_self _ _ _ _ _ _ Hm) as (r & r' & Hr & _). destruct (mv_parent _ _ _ _ _ _ Hm) as (rp & Hrp & _).
  assert (w ≠ 0) by (intros ->; by rewrite (t_null _ HW) in Hr).
  assert (p ≠ 0) by (intros ->; by rewrite (t_null _ HW) in Hrp). split_and!; [done|done|]. intros ->.
  apply (mv_acyclic _ _ _ _ _ _ Hm). apply under_refl; [by eapply t_rooted|done].
Qed.

Lemma moved_rooted x r' : W' !! x = Some r' → rooted W' x.
Proof.
  destruct moved_nonzero as (Hw0 & Hp0 & Hpw).
  destruct (mv_self _ _ _ _ _ _ Hm) as (r & rw' & Hr & Hr' & _ & Hpar & _).
  destruct (mv_parent _ _ _ _ _ _ Hm) as (rp & Hrp & _).
  assert (rooted W' p) as [lp Hlp].
  { destruct (t_rooted _ HW p rp Hrp) as [l Hl]. exists l. eapply path_ext; [done|]. intros y Hy.
    assert (y ≠ w). { intros ->. apply (mv_acyclic _ _ _ _ _ _ Hm). by exists l. }
    pose proof (mv_other _ _ _ _ _ _ Hm y ltac:(done)) as HO. inversion HO as [? ? (E & _)|]; [|done]. simpl. by rewrite E. }
  assert (Hroot : ∀ y l, path W y l → rooted W' y).
  { induction 1 as [|y ry l Hy0 Hy Hl [k Hk]]; [exists []; constructor|]. destruct (decide (y = w)) as [->|Hne].
    - exists (w :: lp). econstructor; [done|done|]. by rewrite Hpar.
    - destruct (moved_fwd y ry Hne Hy) as (ry' & Hy' & E & _). exists (y :: k). econstructor; [done|done|]. by rewrite E. }
  intros Hx. destruct (decide (x = w)) as [->|Hne].
  - destruct (t_rooted _ HW w r Hr) as [l Hl]. by eapply Hroot.
  - destruct (moved_bwd x r' Hne Hx) as (rx & Hrx & _). destruct (t_rooted _ HW x rx Hrx) as [l Hl]. by eapply Hroot.
Qed.

(** A window of a list of [x] after the move is a child of [x], in that list. *)
Lemma moved_listed b x rx' c : W' !! x = Some rx' → c ∈ (if b : bool then w_children rx' else w_unlinked rx') →
  ∃ rc', W' !! c = Some rc' ∧ w_parent rc' = x ∧ w_is_linked rc' = b.
Proof.
  destruct moved_nonzero as (Hw0 & Hp0 & Hpw). intros Hx Hc.
  assert (Hold : ∀ y ry d, W !! y = Some ry → d ∈ (if b then w_children ry else w_unlinked ry) →
    ∃ rd, W !! d = Some rd ∧ w_parent rd = y ∧ w_is_linked rd = b).
  { destruct b; intros; [by eapply (t_children _ HW)|by eapply (t_unlinked _ HW)]. }
  assert (Hkeep : ∀ y ry d, W !! y = Some ry → d ≠ w → d ∈ (if b then w_children ry else w_unlinked ry) →
    ∃ rd, W' !! d = Some rd ∧ w_parent rd = y ∧ w_is_linked rd = b).
  { intros y ry d Hy Hd Hin. destruct (Hold y ry d Hy Hin) as (rd & Hrd & <- & <-).
    destruct (moved_fwd d rd Hd Hrd) as (rd' & Hrd' & E1 & _ & _ & E2 & _). eauto. }
  destruct (decide (x = w)) as [Hxw|Hxw]; [subst x|].
  - destruct (mv_self _ _ _ _ _ _ Hm) as (r & r' & Hr & Hr' & _ & _ & Ech & Eun & _). simplify_eq.
    assert (Hc' : c ∈ (if b then w_children r else w_unlinked r)) by (by destruct b; congruence).
    apply (Hkeep w r c Hr); [|done]. intros ->. destruct (Hold w r w Hr Hc') as (rd & Hrd & Epar & _).
    apply (not_under_parent W w rd Hrd). rewrite Epar. apply under_refl; [by eapply t_rooted|done].
  - destruct (moved_bwd x rx' Hxw Hx) as (rx & Hrx & _).
    apply (moved_in_list c x rx rx' b Hxw Hrx Hx) in Hc as [(-> & -> & ->)|(Hcw & Hin)]; [|by eapply Hkeep].
    destruct (mv_self _ _ _ _ _ _ Hm) as (r & r' & Hr & Hr' & _ & Epar & _ & _ & _ & _ & El & _). eauto.
Qed.

Lemma moved_member x rx' : W' !! x = Some rx' → w_parent rx' ≠ 0 →
  ∃ rp', W' !! w_parent rx' = Some rp' ∧ x ∈ list_for rx' rp'.
Proof.
  destruct moved_nonzero as (Hw0 & Hp0 & Hpw). intros Hx Hpar. destruct (decide (x = w)) as [Hxw|Hxw]; [subst x|].
  - destruct (mv_self _ _ _ _ _ _ Hm) as (r & r' & Hr & Hr' & _ & Epar & _ & _ & _ & _ & El & _).
    rewrite Hx in Hr'. injection Hr' as Hr'. rewrite <-Hr' in Epar, El. rewrite Epar.
    destruct (mv_parent _ _ _ _ _ _ Hm) as (rp & Hrp & _). destruct (moved_fwd _ rp Hpw Hrp) as (rp' & Hrp' & _).
    exists rp'. split; [done|]. unfold list_for. apply (moved_in_list w _ rp rp' _ Hpw Hrp Hrp'). by left.
  - destruct (moved_bwd x rx' Hxw Hx) as (rx & Hrx & Epar & _ & _ & El & _). rewrite Epar in Hpar |- *.
    destruct (t_member _ HW x rx Hrx Hpar) as (rp & Hrp & Hin). destruct (decide (w_parent rx = w)) as [E|Hne].
    + rewrite E in *. destruct (moved_self_entry rp Hrp) as (r' & Hr' & _ & _ & Ech & Eun & _). exists r'. split; [done|].
      unfold list_for in *. rewrite El. destruct (w_is_linked rx); congruence.
    + destruct (moved_fwd _ rp Hne Hrp) as (rp' & Hrp' & _). exists rp'. split; [done|]. unfold list_for in *.
      apply (moved_in_list x _ rp rp' _ Hne Hrp Hrp'). right. by rewrite El.
Qed.

Lemma moved_nodup x rx' : W' !! x = Some rx' → NoDup (w_children rx') ∧ NoDup (w_unlinked rx').
Proof.
  intros Hx. destruct (decide (x = w)) as [Hxw|Hxw]; [subst x|].
  - destruct (mv_self _ _ _ _ _ _ Hm) as (r & r' & Hr & Hr' & _ & _ & E1 & E2 & _).
    rewrite Hx in Hr'. injection Hr' as ->. rewrite E1, E2. by apply (t_nodup _ HW w).
  - destruct (moved_bwd x rx' Hxw Hx) as (rx & Hrx & _ & _ & _ & _ & _ & -> & -> & _).
    destruct (t_nodup _ HW x rx Hrx) as [Hc Hu]. destruct (mv_parent _ _ _ _ _ _ Hm) as (rp & Hrp & Hl').
    assert (NoDup l').
    { rewrite Hl'. apply NoDup_cons. split; [by rewrite elem_of_remove_from; intros []|]. apply remove_from_nodup.
      destruct linked; apply (t_nodup _ HW p rp Hrp). }
    split; match goal with |- NoDup (if ?b then _ else _) => destruct b end; auto using remove_from_nodup.
Qed.

Lemma moved_ok : tree_ok W'.
Proof.
  destruct moved_nonzero as (Hw0 & Hp0 & Hpw). destruct (mv_self _ _ _ _ _ _ Hm) as
    (r & r' & Hr & Hr' & Erefs & Epar & Ech & Eun & Eent & Eh & El & Hdead). split.
  - destruct (W' !! 0) as [r0|] eqn:E; [|done]. destruct (moved_bwd 0 r0) as (? & ? & _); [congruence|done|].
    by rewrite (t_null _ HW) in *.
  - apply moved_rooted.
  - intros x rx' Hx. destruct (decide (x = w)) as [Hxw|Hxw]; [subst x; by simplify_eq|].
    destruct (moved_bwd x rx' Hxw Hx) as (rx & Hrx & E1 & E2 & _ & E3 & _).
    rewrite E2, (t_entry _ HW x rx Hrx). unfold home. by rewrite E1, E3.
  - apply moved_member.
  - intros q rq c. apply (moved_listed true).
  - intros q rq c. apply (moved_listed false).
  - apply moved_nodup.
  - intros x rx' Hx. destruct (decide (x = w)) as [Hxw|Hxw]; [subst x|].
    + rewrite Hx in Hr'. injection Hr' as <-. pose proof (t_refs _ HW w r Hr) as E1. unfold uses in *.
      by rewrite Erefs, Ech, Eun, Eh.
    + destruct (moved_bwd x rx' Hxw Hx) as (rx & Hrx & _ & _ & _ & _ & _ & _ & _ & E). done.
  - intros x rx' Hx. destruct (decide (x = w)) as [Hxw|Hxw]; [subst x|].
    + rewrite Hx in Hr'. injection Hr' as <-. rewrite Eh. intros Hl Hz. destruct (Hdead Hz). congruence.
    + destruct (moved_bwd x rx' Hxw Hx) as (rx & Hrx & _ & _ & -> & -> & _). by apply (t_live _ HW x).
  - intros x rx' Hx. destruct (decide (x = w)) as [Hxw|Hxw]; [subst x|].
    + rewrite Hx in Hr'. injection Hr' as <-. rewrite Eh. intros Hz. destruct (Hdead Hz). by rewrite Epar.
    + destruct (moved_bwd x rx' Hxw Hx) as (rx & Hrx & -> & _ & -> & _ & -> & _). by apply (t_dead _ HW x).
Qed.
End moved.

(** ** Removing a window

    [w] has no children and no handle; it leaves the unlinked list of its parent. *)

Record removed (W W' : winmap) (w : Z) (r : window) : Prop := {
  rm_self : W !! w = Some r;
  rm_gone : W' !! w = None;
  rm_leaf : w_is_linked r = false ∧ w_children r = [] ∧ w_unlinked r = [];
  rm_other : ∀ x, x ≠ w → option_Forall2 (λ rx rx', w_parent rx' = w_parent rx ∧ w_entry rx' = w_entry rx ∧
    w_handle rx' = w_handle rx ∧ w_is_linked rx' = w_is_linked rx ∧ w_is_orphan rx' = w_is_orphan rx ∧
    w_children rx' = w_children rx ∧ w_unlinked rx' = remove_from w (w_unlinked rx) ∧
    w_refs rx' = uses rx') (W !! x) (W' !! x);
}.

Section removed.
Context (W W' : winmap) (w : Z) (r : window).
Context (HW : tree_ok W) (Hm : removed W W' w r).

Lemma removed_bwd x rx' : W' !! x = Some rx' → x ≠ w ∧ ∃ rx, W !! x = Some rx ∧
  w_parent rx' = w_parent rx ∧ w_entry rx' = w_entry rx ∧
  w_handle rx' = w_handle rx ∧ w_is_linked rx' = w_is_linked rx ∧ w_is_orphan rx' = w_is_orphan rx ∧
  w_children rx' = w_children rx ∧ w_unlinked rx' = remove_from w (w_unlinked rx) ∧ w_refs rx' = uses rx'.
Proof.
  intros Hr. destruct (decide (x = w)) as [Hx|Hx]; [subst x; by rewrite (rm_gone _ _ _ _ Hm) in Hr|]. split; [done|].
  pose proof (rm_other _ _ _ _ Hm x Hx) as HO. rewrite Hr in HO. inversion HO; subst. eauto.
Qed.

Lemma removed_fwd x rx : x ≠ w → W !! x = Some rx → ∃ rx', W' !! x = Some rx' ∧
  w_parent rx' = w_parent rx ∧ w_is_linked rx' = w_is_linked rx ∧
  w_children rx' = w_children rx ∧ w_unlinked rx' = remove_from w (w_unlinked rx).
Proof.
  intros Hx Hr. pose proof (rm_other _ _ _ _ Hm x Hx) as HO. rewrite Hr in HO.
  inversion HO as [? ? (E1 & _ & _ & E2 & _ & E3 & E4 & _)|]; subst. eauto 10.
Qed.

(** No window has the removed one as parent. *)
Lemma removed_childless x rx : W !! x = Some rx → w_parent rx ≠ w.
Proof.
  intros Hx E. destruct (rm_leaf _ _ _ _ Hm) as (_ & Hc & Hu). pose proof (rm_self _ _ _ _ Hm) as Hr.
  assert (w ≠ 0) by (intros ->; by rewrite (t_null _ HW) in Hr).
  destruct (t_member _ HW x rx Hx) as (rp & Hrp & Hin); [by rewrite E|]. rewrite E, Hr in Hrp. injection Hrp as <-.
  unfold list_for in Hin. rewrite Hc, Hu in Hin. by destruct (w_is_linked rx); apply not_elem_of_nil in Hin.
Qed.

Lemma tree_removed_ok : tree_ok W'.
Proof.
  destruct (rm_leaf _ _ _ _ Hm) as (Hlink & Hc & Hu). pose proof (rm_self _ _ _ _ Hm) as Hr. split.
  - destruct (W' !! 0) as [r0|] eqn:E; [|done]. destruct (removed_bwd 0 r0 E) as (_ & ? & ? & _). by rewrite (t_null _ HW) in *.
  - assert (Hroot : ∀ y l, path W y l → y ≠ w → rooted W' y).
    { induction 1 as [|y ry l Hy0 Hy Hl IH]; intros Hne; [exists []; constructor|].
      destruct (removed_fwd y ry Hne Hy) as (ry' & Hy' & E & _). destruct IH as [k Hk]; [by eapply removed_childless|].
      exists (y :: k). econstructor; [done|done|]. by rewrite E. }
    intros x rx' (Hx & rx & Hrx & _)%removed_bwd. destruct (t_rooted _ HW x rx Hrx) as [l Hl]. by eapply Hroot.
  - intros x rx' (Hx & rx & Hrx & E1 & E2 & _ & E3 & _)%removed_bwd. rewrite E2, (t_entry _ HW x rx Hrx).
    unfold home. by rewrite E1, E3.
  - intros x rx' (Hx & rx & Hrx & E1 & E2 & _ & E3 & _)%removed_bwd Hp. rewrite E1 in Hp |- *.
    destruct (t_member _ HW x rx Hrx Hp) as (rp & Hrp & Hin).
    destruct (removed_fwd _ rp (removed_childless x rx Hrx) Hrp) as (rp' & Hrp' & _ & _ & E4 & E5). exists rp'.
    split; [done|]. unfold list_for in *. rewrite E3, E4, E5. destruct (w_is_linked rx); [done|]. by apply elem_of_remove_from.
  - intros p rp' c (Hp & rp & Hrp & _ & _ & _ & _ & _ & Ec & _)%removed_bwd Hin. rewrite Ec in Hin.
    destruct (t_children _ HW p rp c Hrp Hin) as (rc & Hrc & <- & El).
    assert (c ≠ w) by (intros ->; congruence). destruct (removed_fwd c rc) as (rc' & ? & ? & ? & _); [done|done|].
    exists rc'. split; [done|]. split; congruence.
  - intros p rp' c (Hp & rp & Hrp & _ & _ & _ & _ & _ & _ & Ec & _)%removed_bwd Hin.
    rewrite Ec, elem_of_remove_from in Hin. destruct Hin as [Hin Hcw].
    destruct (t_unlinked _ HW p rp c Hrp Hin) as (rc & Hrc & <- & El).
    destruct (removed_fwd c rc Hcw Hrc) as (rc' & ? & ? & ? & _). exists rc'. split; [done|]. split; congruence.
  - intros p rp' (Hp & rp & Hrp & _ & _ & _ & _ & _ & -> & -> & _)%removed_bwd.
    destruct (t_nodup _ HW p rp Hrp). auto using remove_from_nodup.
  - intros x rx' Hx. by destruct (removed_bwd x rx' Hx) as (_ & rx & _ & _ & _ & _ & _ & _ & _ & _ & ?).
  - intros x rx' (Hx & rx & Hrx & _ & _ & -> & -> & _)%removed_bwd. by apply (t_live _ HW x).
  - intros x rx' (Hx & rx & Hrx & -> & _ & -> & _ & -> & _)%removed_bwd. by apply (t_dead _ HW x).
Qed.
End removed.

(** ** Adding a window

    The new window [w] is at the head of the unlinked list of its parent, if it
    has one. *)

Record added (W W' : winmap) (w : Z) (r : window) : Prop := {
  ad_fresh : W !! w = None ∧ w ≠ 0;
  ad_self : W' !! w = Some r;
  ad_new : w_children r = [] ∧ w_unlinked r = [] ∧ w_is_linked r = false ∧ w_handle r ≠ 0 ∧ w_entry r = home r ∧
    w_refs r = uses r;
  ad_parent : w_parent r ≠ 0 → is_Some (W !! w_parent r);
  ad_other : ∀ x, x ≠ w → option_Forall2 (λ rx rx', w_parent rx' = w_parent rx ∧ w_entry rx' = w_entry rx ∧
    w_handle rx' = w_handle rx ∧ w_is_linked rx' = w_is_linked rx ∧ w_is_orphan rx' = w_is_orphan rx ∧
    w_children rx' = w_children rx ∧
    w_unlinked rx' = (if bool_decide (x = w_parent r) then w :: w_unlinked rx else w_unlinked rx) ∧
    w_refs rx' = uses rx') (W !! x) (W' !! x);
}.

Section added.
Context (W W' : winmap) (w : Z) (r : window).
Context (HW : tree_ok W) (Hm : added W W' w r).

Lemma added_bwd x rx' : x ≠ w → W' !! x = Some rx' → ∃ rx, W !! x = Some rx ∧
  w_parent rx' = w_parent rx ∧ w_entry rx' = w_entry rx ∧
  w_handle rx' = w_handle rx ∧ w_is_linked rx' = w_is_linked rx ∧ w_is_orphan rx' = w_is_orphan rx ∧
  w_children rx' = w_children rx ∧
  w_unlinked rx' = (if bool_decide (x = w_parent r) then w :: w_unlinked rx else w_unlinked rx) ∧ w_refs rx' = uses rx'.
Proof.
  intros Hx Hr. pose proof (ad_other _ _ _ _ Hm x Hx) as HO. rewrite Hr in HO. inversion HO; subst. eauto.
Qed.

Lemma added_fwd x rx : W !! x = Some rx → x ≠ w ∧ ∃ rx', W' !! x = Some rx' ∧
  w_parent rx' = w_parent rx ∧ w_is_linked rx' = w_is_linked rx ∧ w_children rx' = w_children rx ∧
  w_unlinked rx' = (if bool_decide (x = w_parent r) then w :: w_unlinked rx else w_unlinked rx).
Proof.
  intros Hr. destruct (ad_fresh _ _ _ _ Hm) as [Hw _]. assert (Hx : x ≠ w) by congruence. split; [done|].
  pose proof (ad_other _ _ _ _ Hm x Hx) as HO. rewrite Hr in HO.
  inversion HO as [? ? (E1 & _ & _ & E2 & _ & E3 & E4 & _)|]; subst. eauto 10.
Qed.

Lemma added_rooted x rx' : W' !! x = Some rx' → rooted W' x.
Proof.
  destruct (ad_fresh _ _ _ _ Hm) as [Hw Hw0].
  assert (Hroot : ∀ y l, path W y l → path W' y l).
  { intros y l Hl. eapply path_ext; [done|]. intros z Hz. destruct (path_dom _ _ _ _ Hl Hz) as [rz Hrz].
    destruct (added_fwd z rz Hrz) as (_ & rz' & Hrz' & E & _). rewrite Hrz, Hrz'. simpl. by rewrite E. }
  intros Hx. destruct (decide (x = w)) as [Hxw|Hxw].
  - subst x. rewrite (ad_self _ _ _ _ Hm) in Hx. injection Hx as <-. destruct (decide (w_parent r = 0)) as [E|E].
    + exists [w]. econstructor; [done|apply (ad_self _ _ _ _ Hm)|]. rewrite E. constructor.
    + destruct (ad_parent _ _ _ _ Hm E) as [rp Hrp]. destruct (t_rooted _ HW _ rp Hrp) as [l Hl].
      exists (w :: l). econstructor; [done|apply (ad_self _ _ _ _ Hm)|by apply Hroot].
  - destruct (added_bwd x rx' Hxw Hx) as (rx & Hrx & _). destruct (t_rooted _ HW x rx Hrx) as [l Hl]. exists l. by apply Hroot.
Qed.

Lemma added_member x rx' : W' !! x = Some rx' → w_parent rx' ≠ 0 →
  ∃ rp', W' !! w_parent rx' = Some rp' ∧ x ∈ list_for rx' rp'.
Proof.
  destruct (ad_new _ _ _ _ Hm) as (_ & _ & Hlink & _). intros Hx Hp. destruct (decide (x = w)) as [Hxw|Hxw].
  - subst x. rewrite (ad_self _ _ _ _ Hm) in Hx. injection Hx as <-. destruct (ad_parent _ _ _ _ Hm Hp) as [rp Hrp].
    destruct (added_fwd _ rp Hrp) as (_ & rp' & Hrp' & _ & _ & _ & E). exists rp'. split; [done|]. unfold list_for.
    rewrite Hlink, E, bool_decide_eq_true_2 by done. by left.
  - destruct (added_bwd x rx' Hxw Hx) as (rx & Hrx & E1 & _ & _ & E2 & _). rewrite E1 in Hp |- *.
    destruct (t_member _ HW x rx Hrx Hp) as (rp & Hrp & Hin).
    destruct (added_fwd _ rp Hrp) as (_ & rp' & Hrp' & _ & _ & E3 & E4). exists rp'. split; [done|]. unfold list_for in *.
    rewrite E2, E3, E4. destruct (w_is_linked rx); [done|]. case_bool_decide; [by right|done].
Qed.

Lemma tree_added_ok : tree_ok W'.
Proof.
  destruct (ad_fresh _ _ _ _ Hm) as [Hw Hw0]. destruct (ad_new _ _ _ _ Hm) as (Hc & Hu & Hl & Hh & He & Hrefs).
  pose proof (ad_self _ _ _ _ Hm) as Hself.
  assert (Hx0 : ∀ x rx', W' !! x = Some rx' → x = w ∧ rx' = r ∨ x ≠ w ∧ ∃ rx, W !! x = Some rx ∧
    w_parent rx' = w_parent rx ∧ w_entry rx' = w_entry rx ∧
    w_handle rx' = w_handle rx ∧ w_is_linked rx' = w_is_linked rx ∧ w_is_orphan rx' = w_is_orphan rx ∧
    w_children rx' = w_children rx ∧
    w_unlinked rx' = (if bool_decide (x = w_parent r) then w :: w_unlinked rx else w_unlinked rx) ∧ w_refs rx' = uses rx').
  { intros x rx' Hx. destruct (decide (x = w)) as [Hxw|Hxw]; [left; subst x; split; congruence|right].
    split; [done|]. by apply added_bwd. }
  split.
  - destruct (W' !! 0) as [r0|] eqn:E; [|done]. destruct (Hx0 0 r0 E) as [[? _]|(_ & ? & ? & _)]; [done|]. by rewrite (t_null _ HW) in *.
  - apply added_rooted.
  - intros x rx' [(-> & ->)|(Hx & rx & Hrx & E1 & E2 & _ & E3 & _)]%Hx0; [done|].
    rewrite E2, (t_entry _ HW x rx Hrx). unfold home. by rewrite E1, E3.
  - apply added_member.
  - intros p rp' c [(-> & ->)|(Hp & rp & Hrp & _ & _ & _ & _ & _ & Ec & _)]%Hx0 Hin.
    + rewrite Hc in Hin. by apply not_elem_of_nil in Hin.
    + rewrite Ec in Hin. destruct (t_children _ HW p rp c Hrp Hin) as (rc & Hrc & <- & El).
      destruct (added_fwd c rc Hrc) as (_ & rc' & ? & ? & ? & _). exists rc'. split; [done|]. split; congruence.
  - intros p rp' c [(-> & ->)|(Hp & rp & Hrp & _ & _ & _ & _ & _ & _ & Ec & _)]%Hx0 Hin.
    + rewrite Hu in Hin. by apply not_elem_of_nil in Hin.
    + rewrite Ec in Hin. assert (c = w ∧ p = w_parent r ∨ c ∈ w_unlinked rp) as [[-> ->]|Hin'].
      { case_bool_decide; [apply elem_of_cons in Hin as [->|?]; auto|auto]. }
      * by exists r.
      * destruct (t_unlinked _ HW p rp c Hrp Hin') as (rc & Hrc & <- & El).
        destruct (added_fwd c rc Hrc) as (_ & rc' & ? & ? & ? & _). exists rc'. split; [done|]. split; congruence.
  - intros p rp' [(-> & ->)|(Hp & rp & Hrp & _ & _ & _ & _ & _ & -> & -> & _)]%Hx0.
    + rewrite Hc, Hu. split; constructor.
    + destruct (t_nodup _ HW p rp Hrp). split; [done|]. case_bool_decide; [|done]. apply NoDup_cons. split; [|done].
      intros Hin. destruct (t_unlinked _ HW p rp w Hrp Hin) as (? & ? & _). congruence.
  - intros x rx' [(-> & ->)|(_ & rx & _ & _ & _ & _ & _ & _ & _ & _ & ?)]%Hx0; done.
  - intros x rx' [(-> & ->)|(Hx & rx & Hrx & _ & _ & -> & -> & _)]%Hx0; [done|]. by apply (t_live _ HW x).
  - intros x rx' [(-> & ->)|(Hx & rx & Hrx & -> & _ & -> & _ & -> & _)]%Hx0; [done|]. by apply (t_dead _ HW x).
Qed.
End added.

(** ** The end of a handle

    An unlinked window loses its handle and the reference that went with it. *)
Definition dead_window (r : window) : window := set_w_refs (w_refs r - 1) (set_w_handle 0 r).

Lemma tree_ok_dead W w r : tree_ok W → W !! w = Some r → w_is_linked r = false → w_is_orphan r = true →
  w_parent r ≠ 0 → w_handle r ≠ 0 → tree_ok (<[w:=dead_window r]> W).
Proof.
  intros HW Hr Hl Ho Hp Hh.
  assert (Hb : ∀ x rx', <[w:=dead_window r]> W !! x = Some rx' → ∃ rx, W !! x = Some rx ∧ (x = w ∧ rx' = dead_window rx ∨ x ≠ w ∧ rx' = rx)).
  { intros x rx'. destruct (decide (x = w)) as [->|Hx]; [rewrite lookup_insert_eq; intros [= <-]; eauto|].
    rewrite lookup_insert_ne by done. eauto. }
  assert (Hf : ∀ x rx, W !! x = Some rx → ∃ rx', <[w:=dead_window r]> W !! x = Some rx' ∧ w_parent rx' = w_parent rx ∧
    w_is_linked rx' = w_is_linked rx ∧ w_children rx' = w_children rx ∧ w_unlinked rx' = w_unlinked rx).
  { intros x rx Hx. destruct (decide (x = w)) as [->|Hne]; [|rewrite lookup_insert_ne by done; by exists rx].
    rewrite lookup_insert_eq. exists (dead_window r). by simplify_eq. }
  split.
  - rewrite lookup_insert_ne; [apply (t_null _ HW)|]. intros ->. by rewrite (t_null _ HW) in Hr.
  - intros x rx' (rx & Hx & _)%Hb. destruct (t_rooted _ HW x rx Hx) as [l Hpath]. exists l. eapply path_ext; [done|].
    intros y Hy. destruct (path_dom _ _ _ _ Hpath Hy) as [ry Hry]. destruct (Hf y ry Hry) as (ry' & -> & E & _). rewrite Hry. cbn. by rewrite E.
  - intros x rx' (rx & Hx & [(-> & ->)|(_ & ->)])%Hb; apply (t_entry _ HW _ rx Hx).
  - intros x rx' (rx & Hx & Hor)%Hb Hpx. assert (w_parent rx' = w_parent rx ∧ w_is_linked rx' = w_is_linked rx) as [E1 E2]
      by (by destruct Hor as [(-> & ->)|(_ & ->)]). rewrite E1 in Hpx |- *.
    destruct (t_member _ HW x rx Hx Hpx) as (rp & Hrp & Hin). destruct (Hf _ rp Hrp) as (rp' & Hrp' & _ & _ & E3 & E4).
    exists rp'. split; [done|]. unfold list_for in *. by rewrite E2, E3, E4.
  - intros p rp' c (rp & Hrp & Hor)%Hb Hc. assert (E : w_children rp' = w_children rp) by (by destruct Hor as [(-> & ->)|(_ & ->)]).
    rewrite E in Hc. destruct (t_children _ HW p rp c Hrp Hc) as (rc & Hrc & <- & <-). destruct (Hf c rc Hrc) as (rc' & ? & ? & ? & _). eauto.
  - intros p rp' c (rp & Hrp & Hor)%Hb Hc. assert (E : w_unlinked rp' = w_unlinked rp) by (by destruct Hor as [(-> & ->)|(_ & ->)]).
    rewrite E in Hc. destruct (t_unlinked _ HW p rp c Hrp Hc) as (rc & Hrc & <- & <-). destruct (Hf c rc Hrc) as (rc' & ? & ? & ? & _). eauto.
  - intros p rp' (rp & Hrp & [(-> & ->)|(_ & ->)])%Hb; by apply (t_nodup _ HW _ rp Hrp).
  - intros x rx' (rx & Hx & [(-> & ->)|(_ & ->)])%Hb; [|by apply (t_refs _ HW x)]. simplify_eq.
    pose proof (t_refs _ HW w r Hr) as E. unfold uses in *. cbn. rewrite (proj2 (Z.eqb_neq _ 0)) in E by done. lia.
  - intros x rx' (rx & Hx & [(-> & ->)|(_ & ->)])%Hb; [|by apply (t_live _ HW x)]. simplify_eq. cbn. congruence.
  - intros x rx' (rx & Hx & [(-> & ->)|(_ & ->)])%Hb; [|by apply (t_dead _ HW x)]. by simplify_eq.
Qed.
