(* ===== verification/WindowLink.v ===== *)
(** * Windows: linking in the Z-order

    Rules for the accesses to the heap of windows, and [link_window] against a
    reference definition on lists: where the window goes and what becomes of its
    topmost bit.

    ** Windows: the Z-order invariant

    In every list of children the topmost windows come first.  [link_window]
    keeps that order and the shape of the tree. *)

From stdpp Require Import base list gmap fin_maps.
From S2P Require Import Prelude Region Atom UserHandle Window WindowTree.

Open Scope Z_scope.
Open Scope server_scope.

(** ** Rules *)

Lemma wp_win s w r (Q : window → wstate → Prop) : windows s !! w = Some r → Q r s → wp (win w) Q s.
Proof. intros Hr HQ. unfold win. wp_steps. by eapply wp_deref. Qed.

Lemma wp_upd s w f r (Q : unit → wstate → Prop) :
  windows s !! w = Some r → Q tt (set_windows (<[w:=f r]> (windows s)) s) → wp (upd w f) Q s.
Proof. intros Hr HQ. unfold upd. wp_steps. eapply wp_win; [done|]. by wp_steps. Qed.

Lemma wp_with_users {A} (m : UH A) s (Q : A → wstate → Prop) :
  wp m (λ a u, Q a (set_users u s)) (users s) → wp (with_users m) Q s.
Proof. unfold wp, with_users. by destruct (m (users s)). Qed.

Lemma wp_with_atoms {A} (m : AT A) s (Q : A → wstate → Prop) :
  wp m (λ a u, Q a (set_gatoms u s)) (gatoms s) → wp (with_atoms m) Q s.
Proof. unfold wp, with_atoms. by destruct (m (gatoms s)). Qed.

(** Two successive states of the heap. *)
Lemma set_windows_twice W W' s : set_windows W' (set_windows W s) = set_windows W' s.
Proof. done. Qed.
Lemma windows_set W s : windows (set_windows W s) = W.
Proof. done. Qed.
Lemma set_windows_id s : set_windows (windows s) s = s.
Proof. by destruct s. Qed.

#[export] Hint Rewrite set_windows_twice windows_set : wstate.

(** A read or an update of a window, the lookup being solved by [t]. *)
Ltac wp_read t := apply wp_bind; eapply wp_win; [t|]; cbn beta.
Ltac wp_write t := apply wp_bind; eapply wp_upd; [t|]; cbn beta; rewrite ?set_windows_twice, ?windows_set.

(** ** Walks to the root *)

(** The first window of a path at which a walk stops. *)
Fixpoint first_stop (W : winmap) (stop : Z → window → bool) (l : list Z) : option Z :=
  match l with
  | [] => None
  | x :: l => match W !! x with
              | Some r => if stop x r then Some x else first_stop W stop l
              | None => first_stop W stop l
              end
  end.

Lemma find_up_ok s stop p l n : path (windows s) p l → (length l ≤ n)%nat →
  wp (find_up n stop p) (λ o s', s' = s ∧ o = first_stop (windows s) stop l) s.
Proof.
  intros Hl. revert n. induction Hl as [|w r l Hw Hr Hl IH]; intros n Hn; [by destruct n|].
  destruct n as [|n]; simpl in Hn; [lia|]. cbn [find_up]. rewrite (proj2 (Z.eqb_neq w 0)) by done.
  wp_read ltac:(done). cbn [first_stop]. rewrite Hr. destruct (stop w r) eqn:E; [by wp_steps|]. apply IH. lia.
Qed.

Lemma tree_fuel_ok s w l : path (windows s) w l → (length l ≤ base.size (windows s))%nat.
Proof. apply path_length. Qed.

Lemma first_stop_some W stop l : is_Some (first_stop W stop l) ↔ ∃ x r, x ∈ l ∧ W !! x = Some r ∧ stop x r = true.
Proof.
  induction l as [|y l IH]; cbn [first_stop].
  - split; [by intros []|]. by intros (x & r & ?%not_elem_of_nil & _).
  - destruct (W !! y) as [ry|] eqn:Hy; [destruct (stop y ry) eqn:Hs|].
    + split; [|by eauto]. intros _. exists y, ry. split; [by left|done].
    + rewrite IH. split; intros (x & r & Hin & Hr & Hx); exists x, r; (split; [|done]); [by right|].
      apply elem_of_cons in Hin as [->|?]; [congruence|done].
    + rewrite IH. split; intros (x & r & Hin & Hr & Hx); exists x, r; (split; [|done]); [by right|].
      apply elem_of_cons in Hin as [->|?]; [congruence|done].
Qed.

Lemma first_stop_none W stop l : first_stop W stop l = None ↔ ∀ x r, x ∈ l → W !! x = Some r → stop x r = false.
Proof.
  rewrite eq_None_not_Some, first_stop_some. split.
  - intros H x r Hin Hr. apply not_true_is_false. intros Hs. apply H. eauto.
  - intros H (x & r & Hin & Hr & Hs). specialize (H x r Hin Hr). congruence.
Qed.

(** [is_orphan_window]: the window or one of its ancestors is an orphan. *)
Lemma is_orphan_window_ok s w l : path (windows s) w l →
  wp (is_orphan_window w) (λ b s', s' = s ∧
    (b = true ↔ ∃ x r, x ∈ l ∧ windows s !! x = Some r ∧ w_is_orphan r = true)) s.
Proof.
  intros Hl. unfold is_orphan_window, tree_fuel. wp_steps. eapply wp_mono; [eapply find_up_ok; [done|by eapply path_length]|].
  cbv beta. intros o s' [-> ->]. wp_steps. split; [done|]. rewrite bool_decide_eq_true. apply first_stop_some.
Qed.

(** ** The reference definition

    [z_split W owner l]: the windows of [l] above the first one that is not
    topmost or is the owner, and the rest; [z_link]: the new list of children, and
    the new value of the topmost bit ([None]: as it was).  [l] is the list of the
    other siblings. *)

Definition topmost_in (W : winmap) (x : Z) : bool :=
  match W !! x with Some r => is_topmost r | None => false end.
Definition owner_in (W : winmap) (owner x : Z) : bool :=
  match W !! x with Some r => w_handle r =? owner | None => false end.

Fixpoint z_split (W : winmap) (owner : Z) (l : list Z) : list Z * list Z :=
  match l with
  | [] => ([], [])
  | x :: k =>
      if topmost_in W x && negb (owner_in W owner x) then
        let lk := z_split W owner k in (x :: fst lk, snd lk)
      else ([], l)
  end.

Definition z_top (W : winmap) (w : Z) (r : window) (l : list Z) : list Z * option bool :=
  if is_topmost r then (w :: l, None)
  else
    let lk := z_split W (w_owner r) l in
    (fst lk ++ w :: snd lk,
     match head (snd lk) with Some x => if topmost_in W x then Some true else None | None => None end).

Definition z_link (W : winmap) (previous : winptr) (w : Z) (r : window) (l : list Z) : list Z * option bool :=
  match previous with
  | WINPTR_BOTTOM => (l ++ [w], Some false)
  | WINPTR_TOPMOST => (w :: l, Some true)
  | WINPTR_TOP => z_top W w r l
  | WINPTR_NOTOPMOST => z_top W w (clear_topmost r) l
  | WinAt p =>
      (insert_after p w l,
       if negb (topmost_in W p) then Some false
       else match next_in l p with Some x => if topmost_in W x then Some true else None | None => None end)
  end.

Definition apply_top (o : option bool) (r : window) : window :=
  match o with None => r | Some true => set_topmost r | Some false => clear_topmost r end.

(** The heap with [w] linked: in the list [l'] of its parent. *)
Definition linked_window (p : Z) (r : window) : window := set_w_is_linked true (set_w_entry (EChildren p) r).
Definition linked_parent (w : Z) (l' : list Z) (rp : window) : window :=
  set_w_children l' (set_w_unlinked (remove_from w (w_unlinked rp)) rp).
Definition link_map (w p : Z) (r rp : window) (l' : list Z) (W : winmap) : winmap :=
  <[w:=linked_window p r]> (<[p:=linked_parent w l' rp]> W).

(** ** The lists *)

Lemma insert_after_split p w l1 l2 : p ∉ l1 → insert_after p w (l1 ++ p :: l2) = l1 ++ p :: w :: l2.
Proof.
  induction l1 as [|x l1 IH]; intros Hp; simpl; [by rewrite Z.eqb_refl|].
  apply not_elem_of_cons in Hp as [Hx Hp]. rewrite (proj2 (Z.eqb_neq x p)) by done. f_equal. by apply IH.
Qed.

Lemma insert_before_split p w l1 l2 : p ∉ l1 → insert_before p w (l1 ++ p :: l2) = l1 ++ w :: p :: l2.
Proof.
  induction l1 as [|x l1 IH]; intros Hp; simpl; [by rewrite Z.eqb_refl|].
  apply not_elem_of_cons in Hp as [Hx Hp]. rewrite (proj2 (Z.eqb_neq x p)) by done. f_equal. by apply IH.
Qed.

Lemma next_in_split p l1 l2 : p ∉ l1 → next_in (l1 ++ p :: l2) p = head l2.
Proof.
  induction l1 as [|x l1 IH]; intros Hp; simpl; [by rewrite Z.eqb_refl|].
  apply not_elem_of_cons in Hp as [Hx Hp]. rewrite (proj2 (Z.eqb_neq x p)) by done. by apply IH.
Qed.

(** A list without duplicates around one of its elements. *)
Lemma nodup_split (l : list Z) p : NoDup l → p ∈ l → ∃ l1 l2, l = l1 ++ p :: l2 ∧ p ∉ l1 ∧ p ∉ l2.
Proof.
  intros Hnd (l1 & l2 & ->)%list_elem_of_split. exists l1, l2. split; [done|].
  apply NoDup_app in Hnd as (_ & Hd & [Hn _]%NoDup_cons). split; [|done]. intros H. apply (Hd p H). by left.
Qed.

Lemma z_split_app W owner l : fst (z_split W owner l) ++ snd (z_split W owner l) = l.
Proof. induction l as [|x l IH]; [done|]. simpl. destruct (_ && _); [|done]. simpl. by rewrite IH. Qed.

Lemma z_split_ext W W' owner l : (∀ x, x ∈ l → topmost_in W' x = topmost_in W x ∧ owner_in W' owner x = owner_in W owner x) →
  z_split W' owner l = z_split W owner l.
Proof.
  induction l as [|x l IH]; intros Hl; [done|]. simpl. destruct (Hl x) as [-> ->]; [by left|].
  rewrite IH; [done|]. intros y Hy. apply Hl. by right.
Qed.

Lemma z_top_ext W W' w r l :
  (∀ x, x ∈ l → topmost_in W' x = topmost_in W x ∧ owner_in W' (w_owner r) x = owner_in W (w_owner r) x) →
  z_top W' w r l = z_top W w r l.
Proof.
  intros Hl. unfold z_top. destruct (is_topmost r); [done|]. rewrite (z_split_ext W W') by done. f_equal.
  pose proof (z_split_app W (w_owner r) l) as Happ. destruct (z_split W (w_owner r) l) as [l1 [|x l2]]; [done|]. simpl in *.
  destruct (Hl x) as [-> _]; [|done]. rewrite <-Happ. set_solver.
Qed.

Lemma z_link_perm W previous w r l : (∀ p, previous = WinAt p → NoDup l ∧ p ∈ l) →
  fst (z_link W previous w r l) ≡ₚ w :: l.
Proof.
  assert (Htop : ∀ r, fst (z_top W w r l) ≡ₚ w :: l).
  { intros r'. unfold z_top. destruct (is_topmost r'); simpl; [done|].
    rewrite <-Permutation_middle. by rewrite z_split_app. }
  intros Hp. destruct previous as [| | | |p]; simpl; auto.
  - by rewrite <-Permutation_cons_append.
  - destruct (Hp p eq_refl) as [Hnd Hin]. destruct (nodup_split l p Hnd Hin) as (l1 & l2 & -> & Hl1 & _).
    rewrite insert_after_split by done. solve_Permutation.
Qed.

(** ** The top position *)

(** The search of the top position follows [z_split]. *)
Lemma top_position_ok s owner l : (∀ x, x ∈ l → is_Some (windows s !! x)) →
  wp (top_position owner l) (λ o s', s' = s ∧ fst o = head (snd (z_split (windows s) owner l)) ∧
    (snd o = true ↔ ∃ x, fst o = Some x ∧ topmost_in (windows s) x = true)) s.
Proof.
  induction l as [|x l IH]; intros Hl; cbn [top_position].
  - wp_steps. split_and!; [done|done|]. split; [done|]. by intros (x & ? & _).
  - destruct (Hl x) as [rx Hrx]; [by left|]. wp_read ltac:(exact Hrx). cbn [z_split].
    unfold topmost_in at 1 2, owner_in. rewrite Hrx.
    destruct (is_topmost rx) eqn:Ht; cbn [negb andb]; [destruct (Z.eqb_spec (w_handle rx) owner); cbn [negb andb]|].
    + wp_steps. split_and!; [done|done|]. split; [|done]. intros _. exists x. unfold topmost_in. by rewrite Hrx.
    + apply IH. intros y Hy. apply Hl. by right.
    + wp_steps. split_and!; [done|done|]. split; [done|]. intros (y & [= <-] & Hy). unfold topmost_in in Hy.
      rewrite Hrx in Hy. congruence.
Qed.

(** The list of the children of [q] gets [w], which has been taken out of its own. *)
Lemma children_insert_ok s w q rw rq f (Q : unit → wstate → Prop) : w ≠ q →
  windows s !! w = Some rw → windows s !! q = Some rq →
  Q tt (set_windows (<[w:=set_w_entry (EChildren q) rw]> (<[q:=set_w_children (f (w_children rq)) rq]> (windows s))) s) →
  wp (list_insert (EChildren q) w f) Q s.
Proof.
  intros Hne Hw Hq HQ. unfold list_insert, update_list. apply wp_bind. eapply wp_upd; [done|].
  eapply wp_upd; [by rewrite windows_set, lookup_insert_ne by done|]. by rewrite set_windows_twice, windows_set.
Qed.

(** The [WINPTR_TOP] case of [place_window]: [r] is the window as it was read at
    the start. *)
Lemma place_top_ok s w q r rw rq (Q : unit → wstate → Prop) : w ≠ q →
  windows s !! w = Some rw → windows s !! q = Some rq → w_ex_style rw = w_ex_style r → w_owner rw = w_owner r →
  NoDup (w_children rq) → (∀ x, x ∈ w_children rq → is_Some (windows s !! x)) →
  (let zl := z_top (windows s) w r (w_children rq) in
   Q tt (set_windows (<[w:=set_w_entry (EChildren q) (apply_top (snd zl) rw)]> (<[q:=set_w_children (fst zl) rq]> (windows s))) s)) →
  wp (rq <- win q;
      pos <- (if negb (is_topmost r) then top_position (w_owner r) (w_children rq)
              else ret (head (w_children rq), false));
      (if snd pos : bool then upd w set_topmost else ret tt) ;;
      list_add_before (EChildren q) (fst pos) w) Q s.
Proof.
  intros Hne Hw Hq Eex Eow Hnd Hl HQ. wp_read ltac:(done). unfold z_top in HQ. destruct (is_topmost r); cbn [negb fst snd] in *.
  - wp_steps. cbn [fst snd]. wp_steps.
    destruct (w_children rq) as [|x l] eqn:E; cbn [head list_add_before]; (eapply children_insert_ok; [done..|]); rewrite E; [done|].
    cbn [insert_before]. by rewrite Z.eqb_refl.
  - apply wp_bind. eapply wp_mono; [by apply top_position_ok|]. cbv beta.
    intros [o met] s' (-> & Ho & Hmet). cbn [fst snd] in *. subst o.
    pose proof (z_split_app (windows s) (w_owner r) (w_children rq)) as Happ.
    destruct (z_split (windows s) (w_owner r) (w_children rq)) as [l1 l2] eqn:Hs. cbn [fst snd] in *.
    assert (Htop : (match head l2 with Some x => if topmost_in (windows s) x then Some true else None | None => None end) =
      if met then Some true else None).
    { destruct met.
      - destruct (proj1 Hmet eq_refl) as (x & -> & ->). done.
      - destruct (head l2) as [x|]; [|done]. destruct (topmost_in (windows s) x) eqn:Hx; [|done].
        assert (false = true) by (apply Hmet; eauto). done. }
    rewrite Htop in HQ. apply wp_bind.
    assert (Hins : ∀ rw' s', windows s' !! w = Some rw' → windows s' !! q = Some rq →
      Q tt (set_windows (<[w:=set_w_entry (EChildren q) rw']> (<[q:=set_w_children (l1 ++ w :: l2) rq]> (windows s'))) s') →
      wp (list_add_before (EChildren q) (head l2) w) Q s').
    { intros rw' s' Hw' Hq' HQ'. destruct l2 as [|x l2]; cbn [head list_add_before]; (eapply children_insert_ok; [done..|]); rewrite <-Happ.
      - by rewrite app_nil_r.
      - rewrite insert_before_split; [done|]. rewrite <-Happ in Hnd. apply NoDup_app in Hnd as (_ & Hd & _).
        intros Hx. apply (Hd x Hx). by left. }
    destruct met.
    + eapply wp_upd; [done|]. eapply Hins; [by rewrite windows_set, lookup_insert_eq|by rewrite windows_set, lookup_insert_ne|].
      rewrite windows_set, set_windows_twice. rewrite (insert_insert_ne _ q w), insert_insert_eq by done. done.
    + wp_steps. by eapply Hins.
Qed.

(** ** [link_window] *)

Section link.
Context (s : wstate) (w : Z) (r rp : window).
Notation W := (windows s).
Notation p := (w_parent r).
Context (HW : tree_ok W) (Hr : W !! w = Some r) (Hp : p ≠ 0) (Hrp : W !! p = Some rp).

Lemma link_ne : w ≠ p.
Proof. exact (parent_ne W w r HW Hr). Qed.

(** The siblings of [w]. *)
Definition others : list Z := remove_from w (w_children rp).

Lemma not_in_other_list : (if w_is_linked r then w ∉ w_unlinked rp else w ∉ w_children rp).
Proof. by apply (other_list_absent W). Qed.

(** The states of the linking: only [w] and its parent change. *)
Definition two (rw rq : window) : wstate := set_windows (<[w:=rw]> (<[p:=rq]> W)) s.

Lemma two_p rw rq : windows (two rw rq) !! p = Some rq.
Proof. unfold two. rewrite windows_set, lookup_insert_ne by apply link_ne. by rewrite lookup_insert_eq. Qed.
Lemma two_w rw rq : windows (two rw rq) !! w = Some rw.
Proof. unfold two. rewrite windows_set. apply lookup_insert_eq. Qed.

Lemma two_upd rw rq f (Q : unit → wstate → Prop) : Q tt (two (f rw) rq) → wp (upd w f) Q (two rw rq).
Proof.
  intros HQ. eapply wp_upd; [apply two_w|]. unfold two in *. rewrite set_windows_twice, windows_set.
  by rewrite insert_insert_eq.
Qed.

Lemma two_insert rw rq f (Q : unit → wstate → Prop) :
  Q tt (two (set_w_entry (EChildren p) rw) (set_w_children (f (w_children rq)) rq)) →
  wp (list_insert (EChildren p) w f) Q (two rw rq).
Proof.
  intros HQ. pose proof link_ne as Hne. unfold list_insert, update_list. apply wp_bind. eapply wp_upd; [apply two_p|].
  eapply wp_upd; [rewrite windows_set, lookup_insert_ne by done; apply two_w|].
  unfold two in *. rewrite !set_windows_twice, !windows_set.
  rewrite (insert_insert_ne _ p w) by done. by rewrite !insert_insert_eq.
Qed.

(** Out of its list: neither list of the parent has the window any more. *)
Lemma list_remove_ok (Q : unit → wstate → Prop) :
  Q tt (two (set_w_entry EUnset r) (linked_parent w others rp)) → wp (list_remove w) Q s.
Proof.
  intros HQ. pose proof link_ne as Hne. unfold list_remove. wp_read ltac:(done).
  rewrite (t_entry _ HW w r Hr). unfold home. rewrite (proj2 (Z.eqb_neq p 0)) by done.
  assert (Hmap : ∀ rp', rp' = linked_parent w others rp →
    set_windows (<[w:=set_w_entry EUnset r]> (<[p:=rp']> W)) s = two (set_w_entry EUnset r) (linked_parent w others rp))
    by (by intros ? ->).
  pose proof not_in_other_list as Hnot. destruct (w_is_linked r) eqn:El; cbn [update_list];
    (wp_write ltac:(done)); (eapply wp_upd; [rewrite windows_set, lookup_insert_ne; done|]);
    rewrite ?set_windows_twice, ?windows_set; rewrite Hmap; [done| |done|]; unfold linked_parent, others.
  - rewrite (remove_from_absent w (w_unlinked rp)) by done. by destruct rp.
  - rewrite (remove_from_absent w (w_children rp)) by done. by destruct rp.
Qed.

Lemma two_other rw rq x rx : w_ex_style rq = w_ex_style rp → w_handle rq = w_handle rp → w_entry rq = w_entry rp →
  x ≠ w → W !! x = Some rx → ∃ rx', windows (two rw rq) !! x = Some rx' ∧
    is_topmost rx' = is_topmost rx ∧ w_handle rx' = w_handle rx ∧ w_entry rx' = w_entry rx.
Proof.
  intros E1 E2 E3 Hx Hrx. unfold two. rewrite windows_set, lookup_insert_ne by done. destruct (decide (x = p)) as [E|E].
  - subst x. rewrite lookup_insert_eq. exists rq. unfold is_topmost. simplify_eq. by rewrite E1.
  - rewrite lookup_insert_ne by done. eauto.
Qed.

Lemma others_spec x : x ∈ others → x ≠ w ∧ ∃ rx, W !! x = Some rx ∧ w_entry rx = EChildren p.
Proof.
  intros [Hin Hx]%elem_of_remove_from. split; [done|]. destruct (t_children _ HW _ rp x Hrp Hin) as (rx & Hrx & Ep & El).
  exists rx. split; [done|]. rewrite (t_entry _ HW x rx Hrx). unfold home. rewrite Ep, El.
  by rewrite (proj2 (Z.eqb_neq p 0)).
Qed.

Lemma others_nodup : NoDup others.
Proof. apply remove_from_nodup. apply (t_nodup _ HW p rp Hrp). Qed.

(** The node of the window at the end. *)
Lemma entry_prev_ok rw rq (Q : prev_ptr → wstate → Prop) : w_entry rw = EChildren p →
  Q (match prev_in (w_children rq) w with Some x => PrevWin x | None => PrevHead (EChildren p) end) (two rw rq) →
  wp (entry_prev w) Q (two rw rq).
Proof.
  intros He HQ. unfold entry_prev. wp_read ltac:(apply two_w). rewrite He. cbn [list_of]. wp_steps.
  eapply wp_win; [apply two_p|]. wp_steps. by destruct (prev_in (w_children rq) w).
Qed.

(** Whether the window above [w] changes. *)
Definition link_result (l' : list Z) : bool :=
  negb (w_is_linked r && bool_decide (prev_in (w_children rp) w = prev_in l' w)).

Definition final (l' : list Z) (o : option bool) : wstate :=
  two (linked_window p (apply_top o r)) (linked_parent w l' rp).

(** The end of [place_window], once the window is in its list. *)
Lemma place_end old l' o (Q : bool → wstate → Prop) :
  old = (if w_is_linked r then Some (match prev_in (w_children rp) w with Some x => PrevWin x | None => PrevHead (EChildren p) end)
         else None) →
  Q (link_result l') (final l' o) →
  wp (upd w (set_w_is_linked true) ;; new_prev <- entry_prev w; ret (negb (bool_decide (old = Some new_prev)))) Q
    (two (set_w_entry (EChildren p) (apply_top o r)) (linked_parent w l' rp)).
Proof.
  intros -> HQ. apply wp_bind, two_upd, wp_bind. eapply entry_prev_ok; [by destruct o as [[]|]|]. wp_steps.
  replace (negb _) with (link_result l'); [done|]. unfold link_result. f_equal.
  cbn [linked_parent set_w_children set_w_unlinked w_children].
  destruct (w_is_linked r); cbn [andb]; [|by rewrite bool_decide_eq_false_2].
  apply bool_decide_ext. destruct (prev_in (w_children rp) w), (prev_in l' w); naive_solver.
Qed.

Lemma apply_top_entry o e x : set_w_entry e (apply_top o x) = apply_top o (set_w_entry e x).
Proof. by destruct o as [[]|], x. Qed.
Lemma set_entry_twice e e' x : set_w_entry e (set_w_entry e' x) = set_w_entry e x.
Proof. done. Qed.
Lemma set_children_twice l l' x : set_w_children l (linked_parent w l' x) = linked_parent w l x.
Proof. done. Qed.

(** The [WINPTR_TOP] case. *)
Lemma place_top (Q : unit → wstate → Prop) :
  (let zl := z_top W w r others in
   Q tt (two (set_w_entry (EChildren p) (apply_top (snd zl) r)) (linked_parent w (fst zl) rp))) →
  wp (rp <- win p;
      pos <- (if negb (is_topmost r) then top_position (w_owner r) (w_children rp)
              else ret (head (w_children rp), false));
      (if snd pos : bool then upd w set_topmost else ret tt) ;;
      list_add_before (EChildren p) (fst pos) w) Q (two (set_w_entry EUnset r) (linked_parent w others rp)).
Proof.
  intros HQ. pose proof link_ne as Hne.
  assert (Hin : ∀ x, x ∈ others → ∃ rx rx', W !! x = Some rx ∧
    windows (two (set_w_entry EUnset r) (linked_parent w others rp)) !! x = Some rx' ∧
    is_topmost rx' = is_topmost rx ∧ w_handle rx' = w_handle rx).
  { intros x Hx. destruct (others_spec x Hx) as (Hxw & rx & Hrx & _).
    destruct (two_other (set_w_entry EUnset r) (linked_parent w others rp) x rx) as (rx' & ? & ? & ? & _); [done..|]. eauto 10. }
  eapply (place_top_ok _ w p r _ (linked_parent w others rp)); [done|apply two_w|apply two_p|done|done|apply others_nodup| |].
  { intros x Hx. destruct (Hin x Hx) as (rx & rx' & _ & ? & _). eauto. }
  change (w_children (linked_parent w others rp)) with others.
  assert (z_top (windows (two (set_w_entry EUnset r) (linked_parent w others rp))) w r others = z_top W w r others) as ->.
  { apply z_top_ext. intros x Hx. unfold topmost_in, owner_in.
    destruct (Hin x Hx) as (rx & rx' & -> & -> & -> & ->). done. }
  unfold two in *. rewrite set_windows_twice, windows_set. rewrite (insert_insert_ne _ p w), !insert_insert_eq by done.
  cbn zeta in *. revert HQ. by destruct (snd (z_top W w r others)) as [[]|].
Qed.

(** The case of a given sibling. *)
Lemma place_at q (Q : unit → wstate → Prop) : q ∈ others →
  (let zl := z_link W (WinAt q) w r others in
   Q tt (two (set_w_entry (EChildren p) (apply_top (snd zl) r)) (linked_parent w (fst zl) rp))) →
  wp (list_add_after q w ;;
      rq <- win q;
      if negb (is_topmost rq) then upd w clear_topmost
      else
        next <- get_next_window w;
        match next with
        | None => ret tt
        | Some x => rx <- win x; if is_topmost rx then upd w set_topmost else ret tt
        end) Q (two (set_w_entry EUnset r) (linked_parent w others rp)).
Proof.
  intros Hq HQ. destruct (nodup_split others q others_nodup Hq) as (l1 & l2 & El & Hl1 & Hl2).
  assert (Hins : insert_after q w others = l1 ++ q :: w :: l2) by (by rewrite El, insert_after_split).
  cbn [z_link fst snd] in HQ. rewrite Hins in HQ. replace (next_in others q) with (head l2) in HQ
    by (by rewrite El, next_in_split).
  set (rw := set_w_entry (EChildren p) r). set (rq' := linked_parent w (l1 ++ q :: w :: l2) rp).
  assert (Hother : ∀ x, x ∈ others → ∃ rx', windows (two rw rq') !! x = Some rx' ∧ is_topmost rx' = topmost_in W x).
  { intros x Hx. destruct (others_spec x Hx) as (Hxw & rx & Hrx & _).
    destruct (two_other rw rq' x rx) as (rx' & Hrx' & E1 & _); [done..|]. exists rx'. split; [done|].
    unfold topmost_in. by rewrite Hrx. }
  destruct (others_spec q Hq) as (Hqw & rq & Hrq & Heq).
  destruct (two_other (set_w_entry EUnset r) (linked_parent w others rp) q rq) as (rq1 & Hrq1 & _ & _ & Ee); [done..|].
  apply wp_bind. unfold list_add_after. wp_read ltac:(exact Hrq1). rewrite Ee, Heq. apply two_insert.
  cbn [w_children linked_parent set_w_children set_w_unlinked]. rewrite Hins. fold rw.
  change (set_w_children _ _) with rq'.
  destruct (Hother q Hq) as (rq2 & Hrq2 & Et). wp_read ltac:(exact Hrq2). rewrite Et.
  destruct (topmost_in W q); cbn [negb] in *; [|by apply two_upd]. apply wp_bind. unfold get_next_window, sibling.
  wp_read ltac:(apply two_w). change (w_parent rw) with p. wp_read ltac:(apply two_p). cbn [rw w_entry set_w_entry list_of].
  wp_steps. eapply wp_win; [apply two_p|]. wp_steps.
  change (w_children rq') with (l1 ++ q :: w :: l2). replace (l1 ++ q :: w :: l2) with ((l1 ++ [q]) ++ w :: l2) by (by rewrite <-app_assoc).
  assert (Hwl : w ∉ l1 ++ [q]).
  { intros Hin. assert (Hw : w ∈ others) by (rewrite El; apply elem_of_app in Hin as [?|?%list_elem_of_singleton]; set_solver).
    by apply elem_of_remove_from in Hw as []. }
  rewrite next_in_split by done. destruct (head l2) as [x|] eqn:Hx; wp_steps.
  - assert (Hxin : x ∈ others) by (rewrite El; destruct l2; simplify_eq/=; set_solver).
    destruct (Hother x Hxin) as (rx & Hrx & Etx). wp_read ltac:(exact Hrx). rewrite Etx.
    destruct (topmost_in W x); [by apply two_upd|by wp_steps].
  - rewrite decide_True by done. by wp_steps.
Qed.

Lemma place_window_ok previous (Q : bool → wstate → Prop) : previous ≠ WINPTR_NOTOPMOST →
  (∀ q, previous = WinAt q → q ∈ others) →
  (let zl := z_link W previous w r others in Q (link_result (fst zl)) (final (fst zl) (snd zl))) →
  wp (place_window w previous) Q s.
Proof.
  intros Hnt Hprev HQ. unfold place_window. wp_read ltac:(done). apply wp_bind.
  apply (wp_mono _ (λ old s', s' = s ∧ old = if w_is_linked r then Some (match prev_in (w_children rp) w with
    Some x => PrevWin x | None => PrevHead (EChildren p) end) else None)).
  { destruct (w_is_linked r) eqn:El; [|by wp_steps]. wp_steps. unfold entry_prev. wp_read ltac:(done).
    rewrite (t_entry _ HW w r Hr). unfold home. rewrite (proj2 (Z.eqb_neq p 0)), El by done. cbn [list_of]. wp_steps.
    eapply wp_win; [done|]. wp_steps. by destruct (prev_in (w_children rp) w). }
  intros old s' [-> Hold]. apply wp_bind, list_remove_ok, wp_bind.
  assert (Hend : ∀ l' o, z_link W previous w r others = (l', o) →
    wp (upd w (set_w_is_linked true) ;; new_prev <- entry_prev w; ret (negb (bool_decide (old = Some new_prev)))) Q
      (two (set_w_entry (EChildren p) (apply_top o r)) (linked_parent w l' rp))).
  { intros l' o E. rewrite E in HQ. by apply place_end. }
  destruct (z_link W previous w r others) as [l' o] eqn:Ez. specialize (Hend l' o eq_refl).
  destruct previous as [| | | |q]; [| | |done|].
  - apply place_top. cbn [z_link] in Ez. by rewrite Ez.
  - injection Ez as <- <-. apply wp_bind. unfold list_add_tail. apply two_insert, two_upd. done.
  - injection Ez as <- <-. apply wp_bind. unfold list_add_head. apply two_insert, two_upd. done.
  - apply place_at; [by apply Hprev|]. by rewrite Ez.
Qed.
End link.

(** The window as [place_window] finds it. *)
Definition link_base (previous : winptr) (r : window) : window :=
  if decide (previous = WINPTR_NOTOPMOST) then clear_topmost r else r.

(** The state after a link. *)
Definition link_state (s : wstate) (w : Z) (r rp : window) (previous : winptr) : wstate :=
  let zl := z_link (windows s) previous w r (others w rp) in
  set_windows (link_map w (w_parent r) (apply_top (snd zl) (link_base previous r)) rp (fst zl) (windows s)) s.

(** [HWND_NOTOPMOST] on a linked window that is not topmost. *)
Definition link_noop (previous : winptr) (r : window) : bool :=
  bool_decide (previous = WINPTR_NOTOPMOST) && negb (is_topmost r) && w_is_linked r.

Lemma core_insert (W : winmap) w r r' : W !! w = Some r → core r' = core r → ∀ x, core <$> <[w:=r']> W !! x = core <$> W !! x.
Proof.
  intros Hr Hc x. destruct (decide (x = w)) as [->|Hx]; [rewrite lookup_insert_eq, Hr; cbn [fmap option_fmap option_map]; by rewrite Hc|].
  by rewrite lookup_insert_ne.
Qed.

Lemma link_window_ok s w r rp previous : tree_ok (windows s) → windows s !! w = Some r → w_parent r ≠ 0 →
  windows s !! w_parent r = Some rp → (∀ q, previous = WinAt q → q ∈ others w rp) →
  wp (link_window w previous) (λ b s',
    if link_noop previous r then b = false ∧ s' = s
    else s' = link_state s w r rp previous ∧
         b = link_result w r rp (fst (z_link (windows s) previous w r (others w rp)))) s.
Proof.
  intros HW Hr Hp Hrp Hprev. unfold link_window. wp_read ltac:(done). unfold link_noop.
  destruct (decide (previous = WINPTR_NOTOPMOST)) as [->|Hnt].
  - rewrite bool_decide_eq_true_2 by done. cbn [andb]. destruct (negb (is_topmost r) && w_is_linked r) eqn:En; [by wp_steps|].
    wp_write ltac:(done). set (r0 := clear_topmost r). set (s0 := set_windows (<[w:=r0]> (windows s)) s).
    assert (Hne : w ≠ w_parent r) by (by eapply link_ne).
    apply (place_window_ok s0 w r0 rp); [| | |by subst s0; rewrite windows_set, lookup_insert_ne|done|done|].
    + eapply (tree_ok_ext (windows s)); [|done]. by apply (core_insert _ _ r).
    + apply lookup_insert_eq.
    + done.
    + assert (z_link (windows s0) WINPTR_TOP w r0 (others w rp) = z_link (windows s) WINPTR_NOTOPMOST w r (others w rp)) as ->.
      { cbn [z_link]. apply z_top_ext. intros x [_ Hx]%elem_of_remove_from. subst s0. unfold topmost_in, owner_in.
        by rewrite windows_set, lookup_insert_ne. }
      split; [|done]. unfold final, two, link_state, link_map, link_base. rewrite decide_True by done.
      subst s0. rewrite !windows_set, !set_windows_twice. rewrite (insert_insert_ne _ (w_parent r0) w) by done.
      by rewrite insert_insert_eq.
  - rewrite bool_decide_eq_false_2 by done. cbn [andb]. apply (place_window_ok s w r rp); [done..|].
    unfold final, two, link_state, link_map, link_base. by rewrite decide_False.
Qed.

(** ** The shape after a link *)

Lemma others_or_linked W w r rp : tree_ok W → W !! w = Some r → w_parent r ≠ 0 → W !! w_parent r = Some rp →
  (if w_is_linked r then length (w_children rp) = S (length (others w rp))
   else others w rp = w_children rp).
Proof.
  intros HW Hr Hp Hrp. destruct (t_member _ HW w r Hr Hp) as (rp' & Hrp' & Hin). simplify_eq. unfold list_for in Hin.
  pose proof (t_nodup _ HW _ rp Hrp) as [Hc Hu]. destruct (w_is_linked r) eqn:El; [by apply remove_from_length|].
  apply remove_from_absent. intros Hin'. destruct (t_children _ HW _ rp w Hrp Hin') as (r' & Hr' & _ & El'). congruence.
Qed.

(** The number of uses of the parent does not change. *)
Lemma link_uses W w r rp l' : tree_ok W → W !! w = Some r → w_parent r ≠ 0 → W !! w_parent r = Some rp →
  l' ≡ₚ w :: others w rp → uses (linked_parent w l' rp) = uses rp.
Proof.
  intros HW Hr Hp Hrp Hl'. pose proof (others_or_linked W w r rp HW Hr Hp Hrp) as Ho.
  destruct (t_member _ HW w r Hr Hp) as (rp' & Hrp' & Hin). simplify_eq. unfold list_for in Hin.
  pose proof (t_nodup _ HW _ rp Hrp) as [Hc Hu]. unfold uses, linked_parent. cbn.
  rewrite Hl'. cbn [length]. destruct (w_is_linked r) eqn:El.
  - rewrite remove_from_absent; [lia|]. intros Hin'. destruct (t_unlinked _ HW _ rp w Hrp Hin') as (r' & Hr' & _ & El').
    congruence.
  - rewrite Ho. pose proof (remove_from_length w _ Hu Hin). lia.
Qed.

(** * Windows: the Z-order invariant *)

(** ** Ordered lists *)

Definition ordered (top : Z → bool) (l : list Z) : Prop :=
  ∃ l1 l2, l = l1 ++ l2 ∧ Forall (λ x, top x = true) l1 ∧ Forall (λ x, top x = false) l2.

Section ordered.
Context (top : Z → bool).
Notation tops := (Forall (λ x, top x = true)).
Notation lows := (Forall (λ x, top x = false)).

Lemma ordered_app_top a b : tops a → ordered top b → ordered top (a ++ b).
Proof. intros Ha (l1 & l2 & -> & H1 & H2). exists (a ++ l1), l2. rewrite app_assoc. split; [done|]. by rewrite Forall_app. Qed.

Lemma ordered_app_low a b : ordered top a → lows b → ordered top (a ++ b).
Proof. intros (l1 & l2 & -> & H1 & H2) Hb. exists l1, (l2 ++ b). rewrite app_assoc. split; [done|]. by rewrite Forall_app. Qed.

Lemma ordered_lows b : lows b → ordered top b.
Proof. intros Hb. by exists [], b. Qed.

(** Where the change from topmost to normal windows is. *)
Lemma ordered_inv a b : ordered top (a ++ b) → tops a ∧ ordered top b ∨ ordered top a ∧ lows b.
Proof.
  intros (l1 & l2 & E & H1 & H2). revert l1 E H1. induction a as [|x a IH]; intros l1 E H1; simpl in *.
  - left. split; [constructor|]. by exists l1, l2.
  - destruct l1 as [|y l1]; simplify_eq/=.
    + right. apply Forall_cons in H2 as [Hx H2]. apply Forall_app in H2 as [Ha Hb]. split; [|done].
      apply (ordered_lows (x :: a)). by constructor.
    + apply Forall_cons in H1 as [Hy H1]. destruct (IH l1 ltac:(done) H1) as [[Ha Hb]|[Ha Hb]].
      * left. split; [by constructor|done].
      * right. split; [|done]. by apply (ordered_app_top [y]); [constructor|].
Qed.

Lemma ordered_head_low x b : ordered top (x :: b) → top x = false → lows (x :: b).
Proof.
  intros Ho Hx. destruct (ordered_inv [x] b Ho) as [[Ht _]|[_ Hb]]; [|by constructor].
  apply Forall_cons in Ht as [Ht _]. congruence.
Qed.

(** An element between two normal or two topmost windows is of their kind. *)
Lemma ordered_before a x b : ordered top (a ++ x :: b) → top x = true → tops (a ++ [x]) ∧ ordered top b.
Proof.
  intros Ho Hx. replace (a ++ x :: b) with ((a ++ [x]) ++ b) in Ho by (by rewrite <-app_assoc).
  destruct (ordered_inv a (x :: b)) as [[Ha Hb]|[_ Hb]]; [by rewrite <-app_assoc in Ho| |].
  - split; [apply Forall_app; split; [done|by constructor]|]. destruct (ordered_inv _ _ Ho) as [[_ ?]|[_ ?]]; auto using ordered_lows.
  - apply Forall_cons in Hb as [Hb _]. congruence.
Qed.

Lemma zordered_ext top' l : (∀ x, x ∈ l → top' x = top x) → ordered top l → ordered top' l.
Proof.
  intros He (l1 & l2 & -> & H1 & H2). exists l1, l2. split; [done|].
  rewrite Forall_forall in H1, H2. split; apply Forall_forall; intros x Hx; rewrite He; set_solver.
Qed.

Lemma ordered_remove w l : ordered top l → ordered top (remove_from w l).
Proof.
  intros (l1 & l2 & -> & H1 & H2). exists (remove_from w l1), (remove_from w l2). unfold remove_from. rewrite filter_app.
  split; [done|]. split; apply Forall_forall; intros x [_ Hx]%list_elem_of_filter; [by apply (proj1 (Forall_forall _ l1) H1)|by apply (proj1 (Forall_forall _ l2) H2)].
Qed.
End ordered.

(** ** Insertion *)

(** The topmost bit of the window after the link. *)
Definition new_top (o : option bool) (r : window) : bool := match o with Some b => b | None => is_topmost r end.

Lemma has_set_topmost r : is_topmost (set_topmost r) = true.
Proof.
  unfold is_topmost, set_topmost. apply has_true. cbn. rewrite Z.land_lor_distr_l, Z.land_diag. intros H.
  apply Z.lor_eq_0_iff in H as [_ H]. done.
Qed.

Lemma has_clear_topmost r : is_topmost (clear_topmost r) = false.
Proof. unfold is_topmost, clear_topmost. apply has_false. cbn. apply land_not32_mask. Qed.

Lemma is_topmost_apply o r : is_topmost (apply_top o r) = new_top o r.
Proof. destruct o as [[]|]; [apply has_set_topmost|apply has_clear_topmost|done]. Qed.

Lemma z_split_tops W owner l : Forall (λ x, topmost_in W x = true) (fst (z_split W owner l)).
Proof.
  induction l as [|x l IH]; simpl; [constructor|]. destruct (topmost_in W x) eqn:E; simpl; [|constructor].
  destruct (negb _); simpl; constructor; done.
Qed.

Section insert.
Context (W : winmap) (top : Z → bool) (w : Z) (r : window) (l : list Z).
Context (Hl : ∀ x, x ∈ l → top x = topmost_in W x) (Ho : ordered (topmost_in W) l).

Lemma top_ordered r0 : top w = new_top (snd (z_top W w r0 l)) r0 → ordered top (fst (z_top W w r0 l)).
Proof.
  unfold z_top. destruct (is_topmost r0) eqn:Er; cbn [fst snd new_top]; intros Hw.
  - rewrite Er in Hw. apply (ordered_app_top top [w]); [by constructor|]. by apply (zordered_ext (topmost_in W)).
  - pose proof (z_split_app W (w_owner r0) l) as Happ. pose proof (z_split_tops W (w_owner r0) l) as Htops.
    destruct (z_split W (w_owner r0) l) as [a b]. cbn [fst snd] in *.
    assert (Ho' : ordered top (a ++ b)) by (rewrite Happ; by apply (zordered_ext (topmost_in W))).
    assert (Ha : Forall (λ x, top x = true) a).
    { rewrite Forall_forall in Htops. apply Forall_forall. intros x Hx. rewrite Hl; [by apply Htops|]. rewrite <-Happ. set_solver. }
    apply ordered_app_top; [done|]. destruct b as [|x b]; cbn [head] in Hw.
    { exists [], [w]. split; [done|]. split; [constructor|]. constructor; [|done]. by rewrite Hw. }
    assert (Hx : top x = topmost_in W x) by (apply Hl; rewrite <-Happ; set_solver).
    assert (Hxb : ordered top (x :: b)) by (destruct (ordered_inv top a (x :: b) Ho') as [[_ ?]|[_ ?]]; auto using ordered_lows).
    destruct (topmost_in W x) eqn:Ex; cbn [new_top] in Hw.
    + apply (ordered_app_top top [w]); [by constructor|done].
    + apply ordered_lows. constructor; [congruence|]. by apply ordered_head_low.
Qed.

Lemma insert_ordered previous : (∀ p, previous = WinAt p → NoDup l ∧ p ∈ l) →
  top w = new_top (snd (z_link W previous w r l)) (link_base previous r) → ordered top (fst (z_link W previous w r l)).
Proof.
  intros Hp Hw. assert (Ho' : ordered top l) by (by apply (zordered_ext (topmost_in W))).
  destruct previous as [| | | |p]; cbn [z_link fst snd new_top] in *.
  - apply top_ordered. by rewrite Hw.
  - apply ordered_app_low; [done|]. by constructor.
  - apply (ordered_app_top top [w]); [by constructor|done].
  - apply top_ordered. by rewrite Hw.
  - destruct (Hp p eq_refl) as [Hnd Hin]. destruct (nodup_split l p Hnd Hin) as (a & b & El & Hpa & Hpb).
    assert (Hins : insert_after p w l = a ++ p :: w :: b) by (by rewrite El, insert_after_split). rewrite Hins.
    assert (Hnext : next_in l p = head b) by (by rewrite El, next_in_split). rewrite Hnext in Hw.
    rewrite <-(Hl p Hin) in Hw. rewrite El in Ho'. replace (a ++ p :: w :: b) with ((a ++ [p]) ++ w :: b) by (by rewrite <-app_assoc).
    destruct (top p) eqn:Ep; cbn [negb new_top] in Hw.
    + destruct (ordered_before top a p b Ho' Ep) as [Ha Hb]. apply ordered_app_top; [done|].
      destruct b as [|x b]; cbn [head] in Hw.
      { destruct (top w) eqn:Et; [exists [w], []|exists [], [w]]; by repeat constructor. }
      rewrite <-(Hl x) in Hw by (rewrite El; set_solver). destruct (top x) eqn:Ex; cbn [new_top] in Hw.
      * apply (ordered_app_top top [w]); [by constructor|done].
      * apply ordered_head_low in Hb; [|done]. destruct (top w) eqn:Et.
        -- apply (ordered_app_top top [w]); [by constructor|by apply ordered_lows].
        -- apply ordered_lows. by constructor.
    + replace (a ++ p :: b) with ((a ++ [p]) ++ b) in Ho' by (by rewrite <-app_assoc).
      destruct (ordered_inv top (a ++ [p]) b Ho') as [[Ht _]|[Ha Hb]].
      * apply Forall_app in Ht as [_ Ht]. apply Forall_cons in Ht as [Ht _]. congruence.
      * apply ordered_app_low; [done|]. by constructor.
Qed.
End insert.

(** ** The invariant *)

Definition zorder_ok (W : winmap) : Prop :=
  ∀ p rp, W !! p = Some rp → ordered (topmost_in W) (w_children rp).

(** Every window is referenced. *)
Definition all_used (W : winmap) : Prop := ∀ w r, W !! w = Some r → 0 < uses r.

Record forest_ok (W : winmap) : Prop := {
  fo_tree : tree_ok W;
  fo_used : all_used W;
  fo_zorder : zorder_ok W;
}.

Section link_map.
Context (W : winmap) (w : Z) (r r0 rp : window) (l' : list Z).
Context (HW : tree_ok W) (Hr : W !! w = Some r) (Hp : w_parent r ≠ 0) (Hrp : W !! w_parent r = Some rp).
Context (Hcore : core r0 = core r) (Hl' : l' ≡ₚ w :: others w rp).
Notation W' := (link_map w (w_parent r) r0 rp l' W).

Lemma link_map_self : W' !! w = Some (linked_window (w_parent r) r0).
Proof. apply lookup_insert_eq. Qed.

Lemma link_map_parent : W' !! w_parent r = Some (linked_parent w l' rp).
Proof.
  unfold link_map. rewrite lookup_insert_ne by (by eapply parent_ne).
  by rewrite lookup_insert_eq.
Qed.

Lemma link_map_other x : x ≠ w → x ≠ w_parent r → W' !! x = W !! x.
Proof. intros H1 H2. unfold link_map. by rewrite !lookup_insert_ne. Qed.

Lemma link_map_moved : w_handle r ≠ 0 → moved W W' w (w_parent r) true l'.
Proof.
  intros Hlive. split.
  - injection Hcore as E1 E2 E3 E4 _ E6 _ _. exists r, (linked_window (w_parent r) r0).
    split_and!; [done|apply link_map_self|exact E1|exact E2|exact E3|exact E4| |exact E6|done|by intros ?].
    unfold home. cbn. rewrite E2. by rewrite (proj2 (Z.eqb_neq _ 0)).
  - intros x Hx. destruct (decide (x = w_parent r)) as [->|Hxp].
    + rewrite Hrp, link_map_parent. constructor. cbn. rewrite bool_decide_eq_true_2 by done. cbn.
      split_and!; try done. rewrite (link_uses W w r rp l') by done. by apply (t_refs _ HW (w_parent r)).
    + rewrite link_map_other by done. destruct (W !! x) as [rx|] eqn:Hrx; constructor.
      rewrite bool_decide_eq_false_2 by done. cbn. split_and!; try done; [..|by apply (t_refs _ HW x)].
      * rewrite remove_from_absent; [done|]. intros Hin. destruct (t_children _ HW x rx w Hrx Hin) as (r' & Hr' & E & _). congruence.
      * rewrite remove_from_absent; [done|]. intros Hin. destruct (t_unlinked _ HW x rx w Hrx Hin) as (r' & Hr' & E & _). congruence.
  - by exists rp.
  - by apply not_under_parent.
Qed.

Lemma link_map_tree : w_handle r ≠ 0 → tree_ok W'.
Proof. intros Hlive. eapply moved_ok; [done|by apply link_map_moved]. Qed.

Lemma link_map_used : all_used W → all_used W'.
Proof.
  intros Hu x rx Hx. destruct (decide (x = w)) as [->|Hxw].
  - rewrite link_map_self in Hx. injection Hx as <-. specialize (Hu w r Hr). revert Hu. unfold uses. cbn.
    by injection Hcore as _ _ -> -> _ -> _ _.
  - destruct (decide (x = w_parent r)) as [->|Hxp].
    + rewrite link_map_parent in Hx. injection Hx as <-. rewrite (link_uses W w r rp l') by done. by apply (Hu (w_parent r)).
    + rewrite link_map_other in Hx by done. by apply (Hu x).
Qed.

Lemma link_map_topmost x : x ≠ w → topmost_in W' x = topmost_in W x.
Proof.
  intros Hx. unfold topmost_in. destruct (decide (x = w_parent r)) as [->|Hxp].
  - by rewrite link_map_parent, Hrp.
  - by rewrite link_map_other.
Qed.

Lemma link_map_zorder : zorder_ok W → ordered (topmost_in W') l' → zorder_ok W'.
Proof.
  intros Hz Hl x rx Hx.
  assert (Hkeep : ∀ rx, W !! x = Some rx → (x = w ∨ x ≠ w_parent r) → ordered (topmost_in W') (w_children rx)).
  { intros rx1 Hrx1 Hor. eapply zordered_ext; [|by apply (Hz x)]. intros c Hc. apply link_map_topmost. intros ->.
    destruct (t_children _ HW x rx1 w Hrx1 Hc) as (r' & Hr' & E & _).
    destruct Hor as [->|E']; [by apply (parent_ne W w r' HW Hr')|congruence]. }
  destruct (decide (x = w)) as [->|Hxw].
  - rewrite link_map_self in Hx. injection Hx as <-. cbn. injection Hcore as _ _ -> _ _ _ _ _. apply Hkeep; auto.
  - destruct (decide (x = w_parent r)) as [->|Hxp].
    + rewrite link_map_parent in Hx. by injection Hx as <-.
    + rewrite link_map_other in Hx by done. apply Hkeep; auto.
Qed.
End link_map.

Lemma core_apply_top o r : core (apply_top o r) = core r.
Proof. by destruct o as [[]|]. Qed.
Lemma core_link_base previous r : core (link_base previous r) = core r.
Proof. unfold link_base. by destruct (decide _). Qed.

(** Linking a live window keeps the forest in order. *)
Lemma link_state_ok s w r rp previous : forest_ok (windows s) → windows s !! w = Some r → w_parent r ≠ 0 → w_handle r ≠ 0 →
  windows s !! w_parent r = Some rp → (∀ q, previous = WinAt q → q ∈ others w rp) →
  forest_ok (windows (link_state s w r rp previous)).
Proof.
  intros [HW Hu Hz] Hr Hp Hlive Hrp Hprev. unfold link_state. rewrite windows_set.
  set (zl := z_link _ _ _ _ _).
  assert (Hnd : ∀ q, previous = WinAt q → NoDup (others w rp) ∧ q ∈ others w rp).
  { intros q Hq. split; [|by apply Hprev]. apply remove_from_nodup, (t_nodup _ HW _ rp Hrp). }
  assert (Hperm : fst zl ≡ₚ w :: others w rp) by (by apply z_link_perm).
  assert (Hcore : core (apply_top (snd zl) (link_base previous r)) = core r) by (by rewrite core_apply_top, core_link_base).
  split; [by apply link_map_tree|by apply link_map_used|]. apply link_map_zorder; [done..|].
  apply insert_ordered; [|by apply ordered_remove, (Hz _ rp Hrp)|done|].
  - intros x [_ Hx]%elem_of_remove_from. by apply link_map_topmost.
  - unfold topmost_in at 1. rewrite link_map_self. cbn. apply is_topmost_apply.
Qed.
