(* ===== verification/WindowParent.v ===== *)
(** * Windows: changing the parent

    [set_parent_window]: the test for cycles, and the move of a window to the top
    of the children of its new parent, or to the unlinked list of the old one. *)

From stdpp Require Import base list gmap fin_maps.
From S2P Require Import Prelude Atom UserHandle Region Window WindowTree WindowLink.

Open Scope Z_scope.
Open Scope server_scope.

(** Only the record of the calls to other components changed. *)
Definition only_calls (s s' : wstate) : Prop := ∃ c, s' = set_win_calls c s.

Lemma only_calls_refl s : only_calls s s.
Proof. exists (win_calls s). by destruct s. Qed.

Lemma wp_emit c s (Q : unit → wstate → Prop) : (∀ s', only_calls s s' → Q tt s') → wp (emit c) Q s.
Proof. intros HQ. unfold emit. wp_steps. apply HQ. by eexists. Qed.

Lemma attach_parent_thread_ok s w r attach (Q : unit → wstate → Prop) : windows s !! w = Some r →
  (w_parent r ≠ 0 → is_Some (windows s !! w_parent r)) → (∀ s', only_calls s s' → Q tt s') →
  wp (attach_parent_thread w attach) Q s.
Proof.
  intros Hr Hp HQ. unfold attach_parent_thread. wp_read ltac:(done). unfold is_toplevel. wp_steps. eapply wp_win; [done|].
  destruct (Z.eqb_spec (w_parent r) 0) as [E|E]; wp_steps; [by apply HQ, only_calls_refl|].
  destruct (Hp E) as [rp Hrp]. unfold is_desktop_window. wp_steps. eapply wp_win; [done|]. wp_steps.
  destruct (w_parent rp =? 0); wp_steps; [by apply HQ, only_calls_refl|]. eapply wp_win; [done|].
  destruct (_ || _); wp_steps; [by apply HQ, only_calls_refl|]. destruct attach; by apply wp_emit.
Qed.

(** A release that leaves references. *)
Lemma release_keeps s p rp (Q : unit → wstate → Prop) : windows s !! p = Some rp → 1 < w_refs rp →
  Q tt (set_windows (<[p:=set_w_refs (w_refs rp - 1) rp]> (windows s)) s) → wp (release_object p) Q s.
Proof.
  intros Hp Hrefs HQ. unfold release_object, tree_fuel. wp_steps.
  destruct (base.size (windows s)) eqn:Hsz.
  { apply map_size_empty_inv in Hsz. by rewrite Hsz, lookup_empty in Hp. }
  cbn [release_window]. wp_read ltac:(done). apply wp_bind, wp_assert; [by rewrite (proj2 (Z.eqb_neq _ 0)) by lia|].
  wp_write ltac:(done). rewrite (proj2 (Z.eqb_neq _ 0)) by lia. cbn [negb]. by wp_steps.
Qed.

(** ** The pixel format flags *)

(** The heaps differ in the paint flags only. *)
Definition same_but_paint (W W' : winmap) : Prop :=
  ∀ x, option_Forall2 (λ r r', ∃ f, r' = set_w_paint_flags f r) (W !! x) (W' !! x).

Lemma same_but_paint_refl W : same_but_paint W W.
Proof. intros x. destruct (W !! x) as [r|]; constructor. exists (w_paint_flags r). by destruct r. Qed.

Lemma same_but_paint_insert W W' x r f : W !! x = Some r → same_but_paint (<[x:=set_w_paint_flags f r]> W) W' →
  same_but_paint W W'.
Proof.
  intros Hr HW y. specialize (HW y). destruct (decide (y = x)) as [->|Hy].
  - rewrite lookup_insert_eq in HW. rewrite Hr. inversion HW as [? ? [g ->]|]. constructor. by exists g.
  - by rewrite lookup_insert_ne in HW.
Qed.

Lemma pixel_format_loop_ok s p l n : path (windows s) p l → (length l ≤ n)%nat →
  wp (pixel_format_loop n p) (λ _ s', ∃ W', s' = set_windows W' s ∧ same_but_paint (windows s) W') s.
Proof.
  revert p n s. induction l as [|w l IH]; intros p n s Hl Hn; inversion Hl as [|? r ? Hw Hr Hrest]; simplify_eq.
  - destruct n; wp_steps; exists (windows s); (split; [by rewrite set_windows_id|apply same_but_paint_refl]).
  - destruct n as [|n]; simpl in Hn; [lia|]. cbn [pixel_format_loop]. rewrite (proj2 (Z.eqb_neq w 0)) by done.
    wp_read ltac:(done). destruct (w_parent r =? 0); wp_steps.
    { exists (windows s). split; [by rewrite set_windows_id|apply same_but_paint_refl]. }
    eapply wp_upd; [done|]. set (s1 := set_windows _ s). eapply wp_mono; [apply (IH _ n s1); [|lia]|].
    + apply (path_ext (windows s)); [done|]. intros x Hx. subst s1. rewrite windows_set.
      destruct (decide (x = w)) as [->|Hxw]; [by rewrite lookup_insert_eq, Hr|by rewrite lookup_insert_ne].
    + cbv beta. intros _ s' (W' & -> & HW'). exists W'. split; [done|]. exact (same_but_paint_insert _ _ _ _ _ Hr HW').
Qed.

Lemma update_pixel_format_flags_ok s w r l : windows s !! w = Some r → path (windows s) (w_parent r) l →
  wp (update_pixel_format_flags w) (λ _ s', ∃ W', s' = set_windows W' s ∧ same_but_paint (windows s) W') s.
Proof.
  intros Hr Hl. unfold update_pixel_format_flags, tree_fuel. wp_steps. eapply wp_win; [done|].
  eapply pixel_format_loop_ok; [done|by eapply path_length].
Qed.

Lemma same_but_paint_core W W' x : same_but_paint W W' → core <$> W' !! x = core <$> W !! x.
Proof. intros HW. specialize (HW x). by inversion HW as [? ? [f ->]|]. Qed.

Lemma same_but_paint_top W W' x : same_but_paint W W' → topmost_in W' x = topmost_in W x.
Proof. intros HW. specialize (HW x). unfold topmost_in. by inversion HW as [? ? [f ->]|]. Qed.

(** What the forest invariant reads. *)
Lemma forest_ok_ext W W' : (∀ x, core <$> W' !! x = core <$> W !! x) → (∀ x, topmost_in W' x = topmost_in W x) →
  forest_ok W → forest_ok W'.
Proof.
  intros Hc Ht [HW Hu Hz]. split; [by apply (tree_ok_ext W)| |].
  - intros x r' Hr'. destruct (core_lookup W' W x r') as (r & Hr & E); [done|done|]. rewrite <-(core_uses _ _ E). by apply (Hu x).
  - intros x r' Hr'. destruct (core_lookup W' W x r') as (r & Hr & E); [done|done|]. injection E as _ _ <- _ _ _ _ _.
    eapply zordered_ext; [|by apply (Hz x)]. auto.
Qed.

Lemma forest_ok_paint W W' : same_but_paint W W' → forest_ok W → forest_ok W'.
Proof. intros HW. apply forest_ok_ext; intros x; [by apply same_but_paint_core|by apply same_but_paint_top]. Qed.

(** ** No parent *)

Definition orphan_window (p : Z) (r : window) : window :=
  set_w_is_orphan true (set_w_is_linked false (set_w_entry (EUnlinked p) r)).
Definition orphan_parent (w : Z) (rp : window) : window :=
  set_w_unlinked (w :: remove_from w (w_unlinked rp)) (set_w_children (remove_from w (w_children rp)) rp).
Definition orphan_map (w p : Z) (r rp : window) (W : winmap) : winmap :=
  <[w:=orphan_window p r]> (<[p:=orphan_parent w rp]> W).

Section unlink.
Context (W : winmap) (w : Z) (r rp : window).
Context (HW : tree_ok W) (Hr : W !! w = Some r) (Hp : w_parent r ≠ 0) (Hrp : W !! w_parent r = Some rp).

Lemma orphan_parent_uses : uses (orphan_parent w rp) = uses rp.
Proof.
  destruct (t_member _ HW w r Hr Hp) as (rp' & Hrp' & Hin). simplify_eq. unfold list_for in Hin.
  pose proof (t_nodup _ HW _ rp Hrp) as [Hc Hu]. pose proof (other_list_absent W w r rp HW Hr Hrp) as Hnot.
  unfold uses, orphan_parent. cbn. destruct (w_is_linked r).
  - rewrite (remove_from_absent w (w_unlinked rp)) by done. pose proof (remove_from_length w _ Hc Hin). lia.
  - rewrite (remove_from_absent w (w_children rp)) by done. pose proof (remove_from_length w _ Hu Hin). lia.
Qed.

Lemma orphan_map_self : orphan_map w (w_parent r) r rp W !! w = Some (orphan_window (w_parent r) r).
Proof. apply lookup_insert_eq. Qed.
Lemma orphan_map_parent : orphan_map w (w_parent r) r rp W !! w_parent r = Some (orphan_parent w rp).
Proof. unfold orphan_map. rewrite lookup_insert_ne by (by eapply parent_ne). by rewrite lookup_insert_eq. Qed.
Lemma orphan_map_other x : x ≠ w → x ≠ w_parent r → orphan_map w (w_parent r) r rp W !! x = W !! x.
Proof. intros. unfold orphan_map. by rewrite !lookup_insert_ne. Qed.

Lemma orphan_map_moved : moved W (orphan_map w (w_parent r) r rp W) w (w_parent r) false (w :: remove_from w (w_unlinked rp)).
Proof.
  split.
  - exists r, (orphan_window (w_parent r) r). split_and!; try done; [apply orphan_map_self|].
    unfold home. cbn. by rewrite (proj2 (Z.eqb_neq _ 0)).
  - intros x Hx. destruct (decide (x = w_parent r)) as [->|Hxp].
    + rewrite Hrp, orphan_map_parent. constructor. cbn. rewrite bool_decide_eq_true_2 by done. cbn.
      split_and!; try done. rewrite orphan_parent_uses. by apply (t_refs _ HW (w_parent r)).
    + rewrite orphan_map_other by done. destruct (W !! x) as [rx|] eqn:Hrx; constructor.
      rewrite bool_decide_eq_false_2 by done. cbn. split_and!; try done; [..|by apply (t_refs _ HW x)].
      * rewrite remove_from_absent; [done|]. intros Hin. destruct (t_children _ HW x rx w Hrx Hin) as (r' & Hr' & E & _). congruence.
      * rewrite remove_from_absent; [done|]. intros Hin. destruct (t_unlinked _ HW x rx w Hrx Hin) as (r' & Hr' & E & _). congruence.
  - by exists rp.
  - by apply not_under_parent.
Qed.

Lemma orphan_map_top x : topmost_in (orphan_map w (w_parent r) r rp W) x = topmost_in W x.
Proof.
  unfold topmost_in. destruct (decide (x = w)) as [->|Hxw]; [by rewrite orphan_map_self, Hr|].
  destruct (decide (x = w_parent r)) as [->|Hxp]; [by rewrite orphan_map_parent, Hrp|by rewrite orphan_map_other].
Qed.

Lemma orphan_map_ok : all_used W → zorder_ok W → forest_ok (orphan_map w (w_parent r) r rp W).
Proof.
  intros Hu Hz. split; [eapply moved_ok; [done|apply orphan_map_moved]| |].
  - intros x rx Hx. destruct (decide (x = w)) as [->|Hxw].
    { rewrite orphan_map_self in Hx. injection Hx as <-. apply (Hu w r Hr). }
    destruct (decide (x = w_parent r)) as [->|Hxp].
    { rewrite orphan_map_parent in Hx. injection Hx as <-. rewrite orphan_parent_uses. by apply (Hu (w_parent r)). }
    rewrite orphan_map_other in Hx by done. by apply (Hu x).
  - intros x rx Hx. eapply (zordered_ext (topmost_in W)); [intros; apply orphan_map_top|].
    destruct (decide (x = w)) as [->|Hxw].
    { rewrite orphan_map_self in Hx. injection Hx as <-. apply (Hz w r Hr). }
    destruct (decide (x = w_parent r)) as [->|Hxp].
    { rewrite orphan_map_parent in Hx. injection Hx as <-. cbn. apply ordered_remove. by apply (Hz (w_parent r)). }
    rewrite orphan_map_other in Hx by done. by apply (Hz x).
Qed.
End unlink.

Lemma unlink_window_ok s w r rp (Q : unit → wstate → Prop) : tree_ok (windows s) → windows s !! w = Some r →
  w_parent r ≠ 0 → windows s !! w_parent r = Some rp →
  Q tt (set_windows (orphan_map w (w_parent r) r rp (windows s)) s) → wp (unlink_window w) Q s.
Proof.
  intros HW Hr Hp Hrp HQ. pose proof (parent_ne (windows s) w r HW Hr) as Hne. unfold unlink_window. wp_read ltac:(done).
  apply wp_bind, (list_remove_ok s w r rp); [done..|]. unfold two. unfold list_add_head, list_insert, update_list.
  apply wp_bind. wp_write ltac:(by rewrite windows_set, lookup_insert_ne, lookup_insert_eq).
  eapply wp_upd; [by rewrite windows_set, lookup_insert_ne, lookup_insert_eq|].
  rewrite ?set_windows_twice, ?windows_set. wp_write ltac:(by rewrite windows_set, lookup_insert_eq).
  eapply wp_upd; [by rewrite windows_set, lookup_insert_eq|].
  rewrite ?set_windows_twice, ?windows_set, !insert_insert_eq. revert HQ. unfold orphan_map.
  rewrite (insert_insert_ne _ (w_parent r) w), !insert_insert_eq by done. done.
Qed.

(** ** A new parent *)

(** Evaluate lookups in a chain of insertions. *)
Ltac lk := rewrite ?set_windows_twice, ?windows_set;
  repeat first [rewrite lookup_insert_eq | rewrite lookup_insert_ne by (done || congruence)].

(** The old parent loses the window and a reference; the new parent (maybe the
    same) gets a reference, then the window. *)
Definition left_parent (w : Z) (rp : window) : window :=
  set_w_refs (w_refs rp - 1) (linked_parent w (others w rp) rp).
Definition joined_parent (w p q : Z) (rp rq : window) : window :=
  if decide (q = p) then set_w_refs (w_refs rp - 1 + 1) (linked_parent w (others w rp) rp) else set_w_refs (w_refs rq + 1) rq.
Definition join (W : winmap) (w q : Z) (r rp rq : window) : list Z * option bool :=
  z_top W w r (w_children (joined_parent w (w_parent r) q rp rq)).
Definition join_map (W : winmap) (w q : Z) (r rp rq : window) : winmap :=
  let zl := join W w q r rp rq in
  <[w:=linked_window q (apply_top (snd zl) (set_w_parent q r))]>
    (<[q:=set_w_children (fst zl) (joined_parent w (w_parent r) q rp rq)]> (<[w_parent r:=left_parent w rp]> W)).

Section reparent.
Context (s : wstate) (w q : Z) (r rp rq : window).
Notation W := (windows s).
Notation p := (w_parent r).
Context (HW : tree_ok W) (Hr : W !! w = Some r) (Hp : p ≠ 0) (Hrp : W !! p = Some rp).
Context (Hrq : W !! q = Some rq) (Hcyc : ¬ under W w q).

Lemma reparent_ne : w ≠ p ∧ w ≠ q ∧ q ≠ 0.
Proof.
  split_and!; [by eapply parent_ne| |intros ->; by rewrite (t_null _ HW) in Hrq]. intros ->. apply Hcyc.
  apply under_refl; [by eapply t_rooted|]. intros ->. by rewrite (t_null _ HW) in Hr.
Qed.

(** The heap when the window is linked: reference counts and parent are new. *)
Definition half_map : winmap :=
  <[w:=set_w_parent q r]>
    (<[q:=if decide (q = p) then set_w_refs (w_refs rp - 1 + 1) rp else set_w_refs (w_refs rq + 1) rq]>
       (<[p:=set_w_refs (w_refs rp - 1) rp]> W)).

Lemma half_parent : half_map !! p = Some (if decide (q = p) then set_w_refs (w_refs rp - 1 + 1) rp else set_w_refs (w_refs rp - 1) rp).
Proof. destruct reparent_ne as (H1 & H2 & H3). unfold half_map. destruct (decide (q = p)) as [E|E]; [rewrite E|]; by lk. Qed.

(** Out of the list of the old parent. *)
Definition out_map : winmap :=
  <[w:=set_w_entry EUnset (set_w_parent q r)]>
    (<[p:=if decide (q = p) then set_w_refs (w_refs rp - 1 + 1) (linked_parent w (others w rp) rp) else left_parent w rp]> half_map).

Lemma half_remove (Q : unit → wstate → Prop) s1 : windows s1 = half_map →
  Q tt (set_windows out_map s1) → wp (list_remove w) Q s1.
Proof.
  intros HW1 HQ. destruct reparent_ne as (H1 & H2 & H3). unfold list_remove. wp_read ltac:(rewrite HW1; apply lookup_insert_eq).
  cbn [w_entry set_w_parent]. rewrite (t_entry _ HW w r Hr). unfold home. rewrite (proj2 (Z.eqb_neq p 0)) by done.
  pose proof (not_in_other_list s w r rp HW Hr Hrp) as Hnot.
  destruct (w_is_linked r) eqn:El; cbn [update_list]; (wp_write ltac:(rewrite HW1; apply half_parent));
    (eapply wp_upd; [rewrite windows_set, HW1, lookup_insert_ne by done; apply lookup_insert_eq|]);
    rewrite set_windows_twice, windows_set, HW1; (match goal with |- Q tt (set_windows ?M s1) => replace M with out_map; [done|] end);
    unfold out_map; do 2 f_equal; unfold left_parent, linked_parent, others.
  - rewrite (remove_from_absent w (w_unlinked rp)) by done. by destruct (decide (q = p)), rp.
  - rewrite (remove_from_absent w (w_children rp)) by done. by destruct (decide (q = p)), rp.
Qed.

Lemma out_q : out_map !! q = Some (joined_parent w p q rp rq).
Proof.
  destruct reparent_ne as (H1 & H2 & H3). unfold out_map, half_map, joined_parent.
  destruct (decide (q = p)) as [E|E]; [rewrite E|]; by lk.
Qed.

(** The siblings under the new parent. *)
Lemma joined_children x : x ∈ w_children (joined_parent w p q rp rq) → x ≠ w ∧ is_Some (W !! x).
Proof.
  unfold joined_parent. destruct (decide (q = p)) as [E|E]; cbn.
  - intros [Hin Hx]%elem_of_remove_from. split; [done|].
    destruct (t_children _ HW p rp x Hrp Hin) as (rx & Hrx & _). eauto.
  - intros Hin. destruct (t_children _ HW q rq x Hrq Hin) as (rx & Hrx & E' & _). split; [|eauto]. intros ->. congruence.
Qed.

Lemma joined_nodup : NoDup (w_children (joined_parent w p q rp rq)).
Proof.
  unfold joined_parent. destruct (decide (q = p)); cbn; [apply remove_from_nodup, (t_nodup _ HW p rp Hrp)|apply (t_nodup _ HW q rq Hrq)].
Qed.

Lemma out_other x : x ≠ w → topmost_in out_map x = topmost_in W x ∧ (∀ o, owner_in out_map o x = owner_in W o x).
Proof.
  destruct reparent_ne as (H1 & H2 & H3). intros Hx. unfold topmost_in, owner_in, out_map, half_map.
  destruct (decide (x = p)) as [->|Hxp]; [lk; rewrite Hrp; by destruct (decide (q = p))|].
  destruct (decide (x = q)) as [->|Hxq]; [lk; rewrite Hrq; by destruct (decide (q = p))|]. by lk.
Qed.

Lemma join_map_eq : join_map W w q r rp rq =
  <[w:=set_w_is_linked true (set_w_entry (EChildren q) (apply_top (snd (join W w q r rp rq)) (set_w_entry EUnset (set_w_parent q r))))]>
    (<[q:=set_w_children (fst (join W w q r rp rq)) (joined_parent w p q rp rq)]> out_map).
Proof.
  destruct reparent_ne as (H1 & H2 & H3). unfold join_map. set (zl := join W w q r rp rq).
  apply map_eq. intros i. unfold out_map, half_map. destruct (decide (i = w)) as [->|Hiw].
  { lk. by destruct (snd zl) as [[]|]. }
  destruct (decide (i = q)) as [->|Hiq]; [by lk|]. destruct (decide (i = p)) as [->|Hip].
  - lk. by rewrite decide_False by congruence.
  - by lk.
Qed.

(** The link of the moved window. *)
Lemma half_link s1 (Q : bool → wstate → Prop) : windows s1 = half_map →
  (∀ b, Q b (set_windows (join_map W w q r rp rq) s1)) → wp (link_window w WINPTR_TOP) Q s1.
Proof.
  intros HW1 HQ. destruct reparent_ne as (H1 & H2 & H3).
  assert (Hself : windows s1 !! w = Some (set_w_parent q r)) by (rewrite HW1; apply lookup_insert_eq).
  unfold link_window. wp_read ltac:(exact Hself). rewrite decide_False by done. unfold place_window. wp_read ltac:(exact Hself).
  apply wp_bind, (wp_mono _ (λ _ s', s' = s1)).
  { cbn [w_is_linked set_w_parent]. destruct (w_is_linked r) eqn:El; [|by wp_steps]. wp_steps. unfold entry_prev.
    wp_read ltac:(exact Hself). cbn [w_entry set_w_parent]. rewrite (t_entry _ HW w r Hr). unfold home.
    rewrite (proj2 (Z.eqb_neq p 0)), El by done. cbn [list_of]. wp_steps. eapply wp_win; [rewrite HW1; apply half_parent|].
    by wp_steps. }
  intros old s' ->. apply wp_bind, half_remove; [done|]. apply wp_bind. cbn [w_parent set_w_parent].
  eapply (place_top_ok _ w q); [done|by lk; apply lookup_insert_eq|rewrite windows_set; apply out_q|done|done|apply joined_nodup| |].
  { intros x [Hx [rx Hrx]]%joined_children. rewrite windows_set. pose proof (out_other x Hx) as [Ht _].
    unfold out_map, half_map. rewrite lookup_insert_ne by done. destruct (decide (x = p)) as [->|Hxp]; [lk; eauto|].
    rewrite lookup_insert_ne by done. rewrite lookup_insert_ne by done. destruct (decide (x = q)) as [->|Hxq]; lk; eauto. }
  cbn zeta. rewrite windows_set.
  assert (z_top out_map w (set_w_parent q r) (w_children (joined_parent w p q rp rq)) = join W w q r rp rq) as ->.
  { unfold join. transitivity (z_top W w (set_w_parent q r) (w_children (joined_parent w p q rp rq))); [|done].
    apply z_top_ext. intros x [Hx _]%joined_children. destruct (out_other x Hx) as [Ht Ho]. auto. }
  wp_write ltac:(rewrite windows_set; apply lookup_insert_eq). rewrite insert_insert_eq, <-join_map_eq.
  apply wp_bind. unfold entry_prev. wp_read ltac:(rewrite windows_set; apply lookup_insert_eq).
  assert (Hent : w_entry (linked_window q (apply_top (snd (join W w q r rp rq)) (set_w_parent q r))) = EChildren q)
    by (by destruct (snd (join W w q r rp rq)) as [[]|]).
  rewrite Hent. cbn [list_of]. wp_steps. eapply wp_win; [unfold join_map; by lk|]. wp_steps. apply HQ.
Qed.

Lemma join_map_self : join_map W w q r rp rq !! w = Some (linked_window q (apply_top (snd (join W w q r rp rq)) (set_w_parent q r))).
Proof. apply lookup_insert_eq. Qed.
Lemma join_map_new : join_map W w q r rp rq !! q =
  Some (set_w_children (fst (join W w q r rp rq)) (joined_parent w p q rp rq)).
Proof. destruct reparent_ne as (H1 & H2 & H3). unfold join_map. by lk. Qed.
Lemma join_map_old : q ≠ p → join_map W w q r rp rq !! p = Some (left_parent w rp).
Proof. intros Hq. destruct reparent_ne as (H1 & H2 & H3). unfold join_map. by lk. Qed.
Lemma join_map_other x : x ≠ w → x ≠ p → x ≠ q → join_map W w q r rp rq !! x = W !! x.
Proof. intros. unfold join_map. by lk. Qed.

Lemma join_perm : fst (join W w q r rp rq) ≡ₚ w :: w_children (joined_parent w p q rp rq).
Proof. apply (z_link_perm W WINPTR_TOP). done. Qed.

(** The old parent without the window, and its references. *)
Lemma left_uses : uses (linked_parent w (others w rp) rp) = uses rp - 1.
Proof.
  destruct (t_member _ HW w r Hr Hp) as (rp' & Hrp' & Hin). simplify_eq. unfold list_for in Hin.
  pose proof (t_nodup _ HW _ rp Hrp) as [Hc Hu]. pose proof (not_in_other_list s w r rp HW Hr Hrp) as Hnot.
  unfold uses, linked_parent, others. cbn. destruct (w_is_linked r).
  - rewrite (remove_from_absent w (w_unlinked rp)) by done. pose proof (remove_from_length w _ Hc Hin). lia.
  - rewrite (remove_from_absent w (w_children rp)) by done. pose proof (remove_from_length w _ Hu Hin). lia.
Qed.

Lemma not_in_lists x rx : x ≠ p → W !! x = Some rx → w ∉ w_children rx ∧ w ∉ w_unlinked rx.
Proof.
  intros Hx Hrx. split; intros Hin.
  - destruct (t_children _ HW x rx w Hrx Hin) as (r' & Hr' & E & _). congruence.
  - destruct (t_unlinked _ HW x rx w Hrx Hin) as (r' & Hr' & E & _). congruence.
Qed.

Lemma join_new_refs : w_refs (set_w_children (fst (join W w q r rp rq)) (joined_parent w p q rp rq)) =
  uses (set_w_children (fst (join W w q r rp rq)) (joined_parent w p q rp rq)).
Proof.
  pose proof join_perm as Hperm. unfold uses. cbn. rewrite Hperm. cbn [length]. unfold joined_parent.
  destruct (decide (q = p)) as [E|E]; cbn [w_refs set_w_refs w_handle w_children w_unlinked].
  - rewrite (t_refs _ HW p rp Hrp). pose proof left_uses as H. unfold uses in *. cbn in *. lia.
  - rewrite (t_refs _ HW q rq Hrq). unfold uses. lia.
Qed.

Lemma join_moved : w_handle r ≠ 0 → moved W (join_map W w q r rp rq) w q true (fst (join W w q r rp rq)).
Proof.
  intros Hlive. destruct reparent_ne as (H1 & H2 & H3). split.
  - exists r. eexists. split; [done|]. split; [apply join_map_self|]. unfold home.
    destruct (snd (join W w q r rp rq)) as [[]|]; cbn; rewrite (proj2 (Z.eqb_neq q 0)) by done; by split_and!.
  - intros x Hx. destruct (decide (x = q)) as [->|Hxq].
    { rewrite Hrq, join_map_new. constructor. pose proof join_new_refs as Hrefs.
      rewrite bool_decide_eq_true_2 by done. cbn [andb negb]. unfold joined_parent in *. destruct (decide (q = p)) as [E|E]; cbn in *.
      - assert (rq = rp) as -> by congruence. by split_and!.
      - destruct (not_in_lists q rq E Hrq). split_and!; try done. by rewrite remove_from_absent. }
    rewrite bool_decide_eq_false_2 by done. cbn [andb]. destruct (decide (x = p)) as [->|Hxp].
    { rewrite Hrp, join_map_old by done. constructor. unfold left_parent. cbn. split_and!; try done.
      change (uses (set_w_refs _ _)) with (uses (linked_parent w (others w rp) rp)). rewrite left_uses.
      by rewrite (t_refs _ HW p rp Hrp). }
    rewrite join_map_other by done. destruct (W !! x) as [rx|] eqn:Hrx; constructor.
    destruct (not_in_lists x rx Hxp Hrx). rewrite !remove_from_absent by done. split_and!; try done. by apply (t_refs _ HW x).
  - exists rq. split; [done|]. rewrite join_perm. unfold joined_parent. destruct (decide (q = p)) as [E|E]; cbn.
    + by assert (rq = rp) as -> by congruence.
    + destruct (not_in_lists q rq E Hrq). by rewrite remove_from_absent.
  - done.
Qed.

Lemma join_used : w_handle rp ≠ 0 → all_used W → all_used (join_map W w q r rp rq).
Proof.
  intros Hlive Hu x rx Hx. destruct (decide (x = w)) as [->|Hxw].
  { rewrite join_map_self in Hx. injection Hx as <-. pose proof (Hu w r Hr) as Hw. by destruct (snd (join W w q r rp rq)) as [[]|]. }
  destruct (decide (x = q)) as [->|Hxq].
  { rewrite join_map_new in Hx. injection Hx as <-. unfold uses. cbn. rewrite join_perm. cbn [length]. destruct (_ =? 0); lia. }
  destruct (decide (x = p)) as [->|Hxp].
  { rewrite join_map_old in Hx by done. injection Hx as <-. unfold uses. cbn. rewrite (proj2 (Z.eqb_neq _ 0)) by done. lia. }
  rewrite join_map_other in Hx by done. by apply (Hu x).
Qed.

Lemma join_topmost x : x ≠ w → topmost_in (join_map W w q r rp rq) x = topmost_in W x.
Proof.
  intros Hx. unfold topmost_in. destruct (decide (x = q)) as [->|Hxq].
  { rewrite join_map_new, Hrq. unfold joined_parent. destruct (decide (q = p)) as [E|E]; [|done].
    by assert (rq = rp) as -> by congruence. }
  destruct (decide (x = p)) as [->|Hxp]; [by rewrite join_map_old, Hrp|by rewrite join_map_other].
Qed.

Lemma join_zorder : zorder_ok W → zorder_ok (join_map W w q r rp rq).
Proof.
  intros Hz x rx Hx.
  assert (Hkeep : ∀ y ry, W !! y = Some ry → y ≠ p → ordered (topmost_in (join_map W w q r rp rq)) (w_children ry)).
  { intros y ry Hy Hyp. eapply zordered_ext; [|by apply (Hz y)]. intros c Hc. apply join_topmost. intros ->.
    by destruct (not_in_lists y ry Hyp Hy). }
  destruct reparent_ne as (H1 & H2 & H3). destruct (decide (x = w)) as [->|Hxw].
  { rewrite join_map_self in Hx. injection Hx as <-. specialize (Hkeep w r Hr H1). by destruct (snd (join W w q r rp rq)) as [[]|]. }
  destruct (decide (x = q)) as [->|Hxq].
  { rewrite join_map_new in Hx. injection Hx as <-. cbn. apply (insert_ordered W _ w r _ ) with (previous := WINPTR_TOP).
    - intros y [Hy _]%joined_children. by apply join_topmost.
    - unfold joined_parent. destruct (decide (q = p)); cbn; [by apply ordered_remove, (Hz p)|by apply (Hz q)].
    - done.
    - unfold topmost_in. rewrite join_map_self. unfold link_base. rewrite decide_False by done.
      change (z_link W WINPTR_TOP w r (w_children (joined_parent w p q rp rq))) with (join W w q r rp rq).
      change (is_topmost (apply_top (snd (join W w q r rp rq)) (set_w_parent q r)) = new_top (snd (join W w q r rp rq)) r).
      by rewrite is_topmost_apply. }
  destruct (decide (x = p)) as [->|Hxp].
  { rewrite join_map_old in Hx by done. injection Hx as <-. cbn. eapply zordered_ext; [|apply ordered_remove, (Hz p rp Hrp)].
    intros c [_ Hc]%elem_of_remove_from. by apply join_topmost. }
  rewrite join_map_other in Hx by done. by apply (Hkeep x).
Qed.

Lemma join_forest : forest_ok W → w_handle r ≠ 0 → w_handle rp ≠ 0 → forest_ok (join_map W w q r rp rq).
Proof.
  intros [_ Hu Hz] Hlive Hlp. split; [eapply moved_ok; [done|by apply join_moved]|by apply join_used|by apply join_zorder].
Qed.

(** The branch of [set_parent_window] for a new parent. *)
Lemma reparent_ok : forest_ok W → w_refs rq < 2147483647 → w_handle r ≠ 0 → w_handle rp ≠ 0 →
  wp (reparent w q) (λ _ s', ∃ W' c, s' = set_win_calls c (set_windows W' s) ∧
    same_but_paint (join_map W w q r rp rq) W') s.
Proof.
  intros Hf Hbq Hlive Hlp. destruct reparent_ne as (H1 & H2 & H3). pose proof (join_forest Hf Hlive Hlp) as [HWj _ _].
  unfold reparent. wp_read ltac:(done). apply wp_bind. eapply attach_parent_thread_ok; [done|by eauto|].
  intros s1 [c1 ->]. rewrite (proj2 (Z.eqb_neq p 0)) by done. apply wp_bind.
  assert (Hrefs : 1 < w_refs rp).
  { rewrite (t_refs _ HW p rp Hrp). pose proof left_uses as E. unfold uses in *. cbn in *.
    rewrite (proj2 (Z.eqb_neq _ 0)) in * by done. lia. }
  eapply release_keeps; [exact Hrp|done|]. unfold grab_window. cbn [windows set_win_calls].
  assert (Hq1 : <[p:=set_w_refs (w_refs rp - 1) rp]> W !! q = Some (if decide (q = p) then set_w_refs (w_refs rp - 1) rp else rq)).
  { destruct (decide (q = p)) as [E|E]; [rewrite E|]; by lk. }
  apply wp_bind. wp_read ltac:(rewrite windows_set; exact Hq1). wp_steps. apply wp_assert.
  { destruct (decide (q = p)) as [E|E]; [rewrite E in Hrq; simplify_eq; cbn [w_refs set_w_refs]|]; lia. }
  eapply wp_upd; [exact Hq1|]. rewrite set_windows_twice, windows_set.
  wp_write ltac:(lk; exact Hr).
  match goal with |- wp _ _ (set_windows ?M _) => assert (HM : M = half_map) end.
  { unfold half_map. destruct (decide (q = p)); reflexivity. }
  rewrite HM. apply wp_bind. eapply attach_parent_thread_ok; [rewrite windows_set; apply lookup_insert_eq| |].
  { intros _. cbn [w_parent set_w_parent]. rewrite windows_set. unfold half_map. lk. eauto. }
  intros s2 [c2 ->]. apply wp_bind, half_link; [done|]. intros b. apply wp_bind. unfold is_desktop_window.
  wp_read ltac:(rewrite windows_set; apply join_map_new). wp_steps.
  apply (wp_mono _ (λ _ s', ∃ c, s' = set_win_calls c (set_windows (join_map W w q r rp rq) s))).
  { destruct (_ =? 0); unfold emit; wp_steps; by eexists. }
  intros _ s3 [c3 ->]. wp_read ltac:(apply join_map_self). destruct (has _ _).
  - destruct (t_rooted _ HWj q _ join_map_new) as [l Hl].
    eapply wp_mono; [eapply (update_pixel_format_flags_ok _ w); [apply join_map_self|]|].
    + assert (w_parent (linked_window q (apply_top (snd (join W w q r rp rq)) (set_w_parent q r))) = q) as ->
        by (by destruct (snd (join W w q r rp rq)) as [[]|]). exact Hl.
    + cbv beta. intros _ s' (W' & -> & HW'). exists W', c3. done.
  - wp_steps. eexists _, c3. split; [done|]. apply same_but_paint_refl.
Qed.
End reparent.

(** The test for cycles. *)
Lemma first_stop_under W w q l : path W q l → is_Some (first_stop W (λ p _, p =? w) l) ↔ under W w q.
Proof.
  intros Hl. rewrite first_stop_some. split.
  - intros (x & r & Hx & _ & ->%Z.eqb_eq). by exists l.
  - intros (k & Hk & Hw). rewrite (path_unique _ _ _ _ Hk Hl) in Hw. destruct (path_dom _ _ _ _ Hl Hw) as [r Hr].
    exists w, r. split_and!; [done|done|]. apply Z.eqb_refl.
Qed.

(** [set_parent_window] with a parent refuses a cycle, and otherwise moves the
    window to the top of its new siblings. *)
Lemma set_parent_window_ok s w q r rp rq : forest_ok (windows s) → w_refs rq < 2147483647 →
  windows s !! w = Some r → w_parent r ≠ 0 → windows s !! w_parent r = Some rp → windows s !! q = Some rq →
  w_handle r ≠ 0 → w_handle rp ≠ 0 →
  wp (set_parent_window w q) (λ b s',
    under (windows s) w q ∧ b = false ∧ s' = set_win_error WIN_INVALID_PARAMETER s ∨
    ¬ under (windows s) w q ∧ b = true ∧ ∃ W' c, s' = set_win_calls c (set_windows W' s) ∧
      same_but_paint (join_map (windows s) w q r rp rq) W') s.
Proof.
  intros Hf Hho Hr Hp Hrp Hrq Hlive Hlp. pose proof (fo_tree _ Hf) as HW. destruct (t_rooted _ HW q rq Hrq) as [l Hl].
  assert (Hq : q ≠ 0) by (intros ->; by rewrite (t_null _ HW) in Hrq).
  unfold set_parent_window, tree_fuel. wp_steps. eapply wp_mono; [eapply find_up_ok; [done|by eapply path_length]|].
  cbv beta. intros o s' [-> ->]. pose proof (first_stop_under (windows s) w q l Hl) as Hcyc.
  destruct (bool_decide_reflect (is_Some (first_stop (windows s) (λ p _, p =? w) l))) as [Ho|Ho].
  - unfold set_error. wp_steps. left. by rewrite <-Hcyc.
  - rewrite Hcyc in Ho. rewrite (proj2 (Z.eqb_neq q 0)) by done. cbn [negb]. wp_steps.
    eapply wp_mono; [by apply (reparent_ok s w q r rp rq)|]. cbv beta. intros _ s' Hs'. wp_steps. by right.
Qed.

(** Without one it always succeeds. *)
Lemma set_parent_null_ok s w r rp (Q : bool → wstate → Prop) : tree_ok (windows s) →
  windows s !! w = Some r → w_parent r ≠ 0 → windows s !! w_parent r = Some rp →
  Q true (set_windows (orphan_map w (w_parent r) r rp (windows s)) s) → wp (set_parent_window w 0) Q s.
Proof.
  intros HW Hr Hp Hrp HQ. unfold set_parent_window, tree_fuel. wp_steps.
  assert (Hn : ∀ n stop, find_up n stop 0 = st_ret None) by (by intros [] ?). rewrite Hn. wp_steps.
  rewrite bool_decide_eq_false_2 by (by intros []). cbn [Z.eqb negb]. wp_steps.
  eapply (unlink_window_ok s w r rp); [done..|]. by wp_steps.
Qed.
