(* ===== verification/WindowInv.v ===== *)
(** * Windows: releasing references

    [release_object] on a window that has lost a reference: the window is freed
    with its last one, and so are the dead ancestors that only it kept.

    ** Windows: the invariant of the whole state

    The forest of windows together with the user handle table, the threads that
    own windows, the desktops, and the global atom table. *)

From stdpp Require Import base list gmap fin_maps.
From S2P Require Import Prelude Region Atom AtomThms UserHandle UserHandleThms Window WindowOps WindowTree WindowLink.
From S2P Require Import WindowParent.

Open Scope Z_scope.
Open Scope server_scope.

Definition dec_refs (r : window) : window := set_w_refs (w_refs r - 1) r.
Definition dec_map (w : Z) (W : winmap) : winmap := alter dec_refs w W.

(** Only the references and the unlinked list of a window changed. *)
Definition shrink (r r' : window) : Prop := r' = set_w_refs (w_refs r') (set_w_unlinked (w_unlinked r') r).

Record shrunk (W W' : winmap) : Prop := {
  sk_old : ∀ x r', W' !! x = Some r' → ∃ r, W !! x = Some r ∧ shrink r r';
  sk_live : ∀ x r, W !! x = Some r → w_handle r ≠ 0 → ∃ r', W' !! x = Some r' ∧ shrink r r';
}.

Lemma shrink_refl r : shrink r r.
Proof. by destruct r. Qed.

Lemma shrink_trans r1 r2 r3 : shrink r1 r2 → shrink r2 r3 → shrink r1 r3.
Proof. unfold shrink. intros -> ->. done. Qed.

Lemma shrink_handle r r' : shrink r r' → w_handle r' = w_handle r.
Proof. by intros ->. Qed.

Lemma shrunk_trans W1 W2 W3 : shrunk W1 W2 → shrunk W2 W3 → shrunk W1 W3.
Proof.
  intros [A1 B1] [A2 B2]. split.
  - intros x r3 Hr3. destruct (A2 x r3 Hr3) as (r2 & Hr2 & E2). destruct (A1 x r2 Hr2) as (r1 & Hr1 & E1).
    exists r1. split; [done|]. by eapply shrink_trans.
  - intros x r1 Hr1 Hl. destruct (B1 x r1 Hr1 Hl) as (r2 & Hr2 & E1).
    destruct (B2 x r2 Hr2) as (r3 & Hr3 & E2); [by rewrite (shrink_handle r1)|]. exists r3. split; [done|]. by eapply shrink_trans.
Qed.

Lemma dec_map_lookup W w x r : W !! x = Some r → dec_map w W !! x = Some (if decide (x = w) then dec_refs r else r).
Proof.
  intros Hr. unfold dec_map. destruct (decide (x = w)) as [->|Hx]; [by rewrite lookup_alter_eq, Hr|by rewrite lookup_alter_ne].
Qed.

Lemma dec_map_back W w x r' : dec_map w W !! x = Some r' → ∃ r, W !! x = Some r ∧ r' = if decide (x = w) then dec_refs r else r.
Proof.
  destruct (W !! x) as [r|] eqn:Hr; [rewrite (dec_map_lookup W w x r Hr); intros [= <-]; by exists r|].
  unfold dec_map. intros Hx. apply lookup_alter_Some in Hx as [(-> & y & Hy & _)|[_ Hx]]; congruence.
Qed.

(** [w] has one reference too many. *)
Record over (W : winmap) (w : Z) : Prop := {
  ov_tree : tree_ok (dec_map w W);
  ov_used : ∀ x r, W !! x = Some r → x ≠ w → 0 < uses r;
  ov_zorder : zorder_ok W;
}.

Lemma uses_nonneg r : 0 <= uses r.
Proof. unfold uses. destruct (_ =? 0); lia. Qed.

(** A reference is left: the forest is in order again. *)
Lemma over_keep W w r : over W w → W !! w = Some r → w_refs r - 1 ≠ 0 → forest_ok (dec_map w W) ∧ shrunk W (dec_map w W).
Proof.
  intros [HW Hu Hz] Hr Hrefs. split; [split; [done| |]|split].
  - intros x r' (rx & Hrx & ->)%dec_map_back. destruct (decide (x = w)) as [->|Hx]; [|by apply (Hu x)].
    assert (rx = r) as -> by congruence. pose proof (t_refs _ HW w (dec_refs r)) as E. rewrite (dec_map_lookup W w w r Hr), decide_True in E by done.
    specialize (E eq_refl). pose proof (uses_nonneg r). change (uses (dec_refs r)) with (uses r) in *. cbn in E. lia.
  - intros x r' (rx & Hrx & ->)%dec_map_back. eapply (zordered_ext (topmost_in W)).
    + intros c _. unfold topmost_in. destruct (W !! c) as [rc|] eqn:Hc.
      * rewrite (dec_map_lookup W w c rc Hc). by destruct (decide (c = w)).
      * destruct (dec_map w W !! c) as [rc|] eqn:Hc'; [|done]. apply dec_map_back in Hc' as (? & ? & _). congruence.
    + destruct (decide (x = w)); apply (Hz x rx Hrx).
  - intros x r' (rx & Hrx & ->)%dec_map_back. exists rx. split; [done|]. by destruct (decide (x = w)), rx.
  - intros x rx Hrx _. rewrite (dec_map_lookup W w x rx Hrx). eexists. split; [done|]. by destruct (decide (x = w)), rx.
Qed.

(** ** The last reference *)

Definition drop_unlinked (w : Z) (rp : window) : window := set_w_unlinked (remove_from w (w_unlinked rp)) rp.
Definition freed_map (w p : Z) (rp : window) (W : winmap) : winmap := delete w (<[p:=drop_unlinked w rp]> W).

Section last.
Context (W : winmap) (w : Z) (r : window).
Context (Hov : over W w) (Hr : W !! w = Some r) (Hlast : w_refs r - 1 = 0).

Lemma last_facts : w_handle r = 0 ∧ w_children r = [] ∧ w_unlinked r = [] ∧ w_is_linked r = false ∧ w_parent r ≠ 0 ∧ w ≠ w_parent r.
Proof.
  destruct Hov as [HW _ _]. assert (Hd : dec_map w W !! w = Some (dec_refs r)) by (by rewrite (dec_map_lookup W w w r Hr), decide_True).
  pose proof (t_refs _ HW w _ Hd) as E. unfold uses in E. cbn in E.
  assert (Hh : w_handle r = 0) by (destruct (Z.eqb_spec (w_handle r) 0); [done|lia]).
  destruct (t_dead _ HW w _ Hd Hh) as [Hp _]. pose proof (parent_ne _ _ _ HW Hd) as Hne.
  split_and!; [done|destruct (w_children r); [done|simpl in E; destruct (_ =? 0); lia]|
    destruct (w_unlinked r); [done|simpl in E; destruct (_ =? 0); lia]| |done|done].
  destruct (w_is_linked r) eqn:El; [|done]. by destruct (t_live _ HW w _ Hd).
Qed.

Context (rp : window) (Hrp : W !! w_parent r = Some rp).
Notation p := (w_parent r).
Notation W' := (freed_map w p rp W).

Lemma freed_parent : W' !! p = Some (drop_unlinked w rp).
Proof. destruct last_facts as (_ & _ & _ & _ & _ & Hne). unfold freed_map. rewrite lookup_delete_ne by done. by rewrite lookup_insert_eq. Qed.
Lemma freed_other x : x ≠ w → x ≠ p → W' !! x = W !! x.
Proof. intros. unfold freed_map. rewrite lookup_delete_ne by done. by rewrite lookup_insert_ne. Qed.
Lemma freed_self : W' !! w = None.
Proof. apply lookup_delete_eq. Qed.

Lemma freed_in_unlinked : w ∈ w_unlinked rp ∧ NoDup (w_unlinked rp).
Proof.
  destruct last_facts as (_ & _ & _ & Hl & Hp & Hne). destruct Hov as [HW _ _].
  assert (Hd : dec_map w W !! w = Some (dec_refs r)) by (by rewrite (dec_map_lookup W w w r Hr), decide_True).
  assert (Hdp : dec_map w W !! p = Some rp) by (by rewrite (dec_map_lookup W w _ rp Hrp), decide_False).
  split; [|by apply (t_nodup _ HW p)]. destruct (t_member _ HW w _ Hd Hp) as (rp' & Hrp' & Hin). simpl in Hrp'.
  simplify_eq. unfold list_for in Hin. cbn in Hin. by rewrite Hl in Hin.
Qed.

Lemma dec_self : dec_map w W !! w = Some (dec_refs r).
Proof. by rewrite (dec_map_lookup W w w r Hr), decide_True. Qed.
Lemma dec_other x rx : x ≠ w → W !! x = Some rx → dec_map w W !! x = Some rx.
Proof. intros Hx Hrx. by rewrite (dec_map_lookup W w x rx Hrx), decide_False. Qed.

(** [w] is in no other list. *)
Lemma freed_not_in x rx : x ≠ w → x ≠ p → W !! x = Some rx → w ∉ w_unlinked rx.
Proof.
  intros Hx Hxp Hrx Hin. destruct Hov as [HW _ _].
  destruct (t_unlinked _ HW x rx w (dec_other x rx Hx Hrx) Hin) as (r' & Hr' & E & _).
  rewrite dec_self in Hr'. injection Hr' as <-. by cbn in E.
Qed.

Lemma freed_tree : tree_ok (dec_map p W').
Proof.
  destruct last_facts as (Hh & Hc & Hu & Hl & Hp & Hne). pose proof Hov as [HW _ _]. destruct freed_in_unlinked as [Hin Hnd].
  eapply (tree_removed_ok (dec_map w W) _ w (dec_refs r)); [done|]. split; [apply dec_self| |done|].
  { destruct (dec_map p W' !! w) as [x|] eqn:E; [|done]. apply dec_map_back in E as (y & Hy & _). by rewrite freed_self in Hy. }
  intros x Hx. destruct (decide (x = p)) as [->|Hxp].
  - rewrite (dec_other p rp) by done. rewrite (dec_map_lookup W' p p _ freed_parent), decide_True by done.
    constructor. cbn. split_and!; try done. rewrite (t_refs _ HW p rp) by (by apply dec_other).
    unfold uses. cbn. pose proof (remove_from_length w _ Hnd Hin). lia.
  - destruct (W !! x) as [rx|] eqn:Hrx.
    + assert (Hx' : W' !! x = Some rx) by (by rewrite freed_other).
      rewrite (dec_other x rx), (dec_map_lookup W' p x rx Hx'), decide_False by done. constructor.
      rewrite remove_from_absent by (by apply (freed_not_in x)). split_and!; try done. by apply (t_refs _ HW x), dec_other.
    + assert (Hn : W' !! x = None) by (by rewrite freed_other). unfold dec_map.
      rewrite (lookup_alter_ne _ _ w x), (lookup_alter_ne _ _ p x), Hrx, Hn by done. constructor.
Qed.

Lemma freed_zorder : zorder_ok W'.
Proof.
  destruct last_facts as (_ & _ & _ & Hl & _). pose proof Hov as [HW _ Hz]. intros x rx Hx.
  assert (Hxw : x ≠ w) by (intros ->; by rewrite freed_self in Hx).
  assert (∃ rx0, W !! x = Some rx0 ∧ w_children rx = w_children rx0) as (rx0 & Hrx0 & ->).
  { destruct (decide (x = p)) as [->|Hxp]; [rewrite freed_parent in Hx; injection Hx as <-; by exists rp|].
    rewrite freed_other in Hx by done. by exists rx. }
  eapply zordered_ext; [|by apply (Hz x)]. intros c Hin. unfold topmost_in. destruct (decide (c = w)) as [->|Hcw].
  { destruct (t_children _ HW x rx0 w (dec_other x rx0 Hxw Hrx0) Hin) as (r' & Hr' & _ & El).
    rewrite dec_self in Hr'. injection Hr' as <-. cbn in El. congruence. }
  destruct (decide (c = p)) as [->|Hcp]; [by rewrite freed_parent, Hrp|by rewrite freed_other].
Qed.

(** The parent now has one reference too many. *)
Lemma freed_over : over W' p.
Proof.
  split; [apply freed_tree| |apply freed_zorder]. intros x rx Hx Hxp.
  assert (Hxw : x ≠ w) by (intros ->; by rewrite freed_self in Hx). rewrite freed_other in Hx by done. by apply (ov_used _ _ Hov x).
Qed.

Lemma freed_shrunk : shrunk W W'.
Proof.
  destruct last_facts as (Hh & _). split.
  - intros x rx Hx. assert (Hxw : x ≠ w) by (intros ->; by rewrite freed_self in Hx). destruct (decide (x = p)) as [->|Hxp].
    + rewrite freed_parent in Hx. injection Hx as <-. exists rp. split; [done|]. by destruct rp.
    + rewrite freed_other in Hx by done. exists rx. split; [done|]. apply shrink_refl.
  - intros x rx Hx Hlive. assert (Hxw : x ≠ w) by congruence. destruct (decide (x = p)) as [->|Hxp].
    + exists (drop_unlinked w rp). split; [apply freed_parent|]. assert (rx = rp) as -> by congruence. by destruct rp.
    + exists rx. rewrite freed_other by done. split; [done|]. apply shrink_refl.
Qed.
End last.

(** ** The recursion

    The windows on their way out ([G], freed only after their parents have been
    released) are kept apart from the forest [W]. *)

Definition released (s : wstate) (W G : winmap) (s' : wstate) : Prop :=
  ∃ W' c, s' = set_win_calls c (set_windows (W' ∪ G) s) ∧ W' ##ₘ G ∧ forest_ok W' ∧ shrunk W W'.

Lemma dec_map_insert W w r : W !! w = Some r → dec_map w W = <[w:=set_w_refs (w_refs r - 1) r]> W.
Proof.
  intros Hr. apply map_eq. intros i. unfold dec_map. destruct (decide (i = w)) as [->|Hi].
  - by rewrite lookup_alter_eq, lookup_insert_eq, Hr.
  - by rewrite lookup_alter_ne, lookup_insert_ne.
Qed.

Lemma over_refs W w r : over W w → W !! w = Some r → w_refs r = uses r + 1.
Proof.
  intros Hov Hr. pose proof (t_refs _ (ov_tree _ _ Hov) w (dec_refs r)) as E.
  rewrite (dec_map_lookup W w w r Hr), decide_True in E by done. specialize (E eq_refl).
  change (uses (dec_refs r)) with (uses r) in E. cbn in E. lia.
Qed.

Lemma release_keep_ok s W G w r : windows s = W ∪ G → W ##ₘ G → over W w → W !! w = Some r → w_refs r - 1 ≠ 0 →
  released s W G (set_windows (<[w:=set_w_refs (w_refs r - 1) r]> (windows s)) s).
Proof.
  intros Hs Hdisj Hov Hr Hmore. destruct (over_keep W w r Hov Hr Hmore) as [Hf Hsk]. exists (dec_map w W), (win_calls s).
  pose proof (dec_map_insert W w r Hr) as Hd. split_and!; [|rewrite Hd; apply map_disjoint_insert_l_2; [|done]|done|done].
  - rewrite Hs, Hd, <-insert_union_l. by destruct s.
  - by apply (map_disjoint_Some_l W G w r).
Qed.

(** The window leaves the list of its parent and joins the garbage. *)
Lemma release_unlink_ok s W G w r rp (Q : unit → wstate → Prop) : windows s = W ∪ G → W ##ₘ G → over W w → W !! w = Some r →
  w_refs r - 1 = 0 → W !! w_parent r = Some rp →
  (let r' := set_w_entry EUnset (set_w_refs (w_refs r - 1) r) in
   Q tt (set_windows (freed_map w (w_parent r) rp W ∪ <[w:=r']> G) s)) →
  wp (list_remove w) Q (set_windows (<[w:=set_w_refs (w_refs r - 1) r]> (windows s)) s).
Proof.
  intros Hs Hdisj Hov Hr Hlast Hrp HQ. destruct (last_facts W w r Hov Hr Hlast) as (Hh & Hc & Hu & Hlk & Hp & Hne).
  unfold list_remove. wp_read ltac:(apply lookup_insert_eq). cbn [w_entry set_w_refs].
  assert (w_entry r = EUnlinked (w_parent r)) as ->.
  { pose proof (t_entry _ (ov_tree _ _ Hov) w (dec_refs r)) as E. rewrite (dec_map_lookup W w w r Hr), decide_True in E by done.
    specialize (E eq_refl). unfold home in E. cbn in E. by rewrite (proj2 (Z.eqb_neq _ 0)), Hlk in E. }
  cbn [update_list]. wp_write ltac:(rewrite windows_set, lookup_insert_ne, Hs by done; by apply lookup_union_Some_l).
  eapply wp_upd; [rewrite windows_set, lookup_insert_ne by done; apply lookup_insert_eq|].
  rewrite set_windows_twice, windows_set. cbn zeta in HQ. match goal with |- Q tt (set_windows ?M _) => match type of HQ with
    Q tt (set_windows ?N _) => replace M with N; [done|] end end.
  assert (HG : G !! w = None) by (by apply (map_disjoint_Some_l W G w r)).
  apply map_eq. intros i. unfold freed_map. rewrite Hs. destruct (decide (i = w)) as [->|Hi].
  { rewrite lookup_insert_eq, lookup_union_r by apply lookup_delete_eq. by rewrite lookup_insert_eq. }
  rewrite lookup_insert_ne by done. destruct (decide (i = w_parent r)) as [->|Hip].
  { rewrite lookup_insert_eq. apply lookup_union_Some_l. rewrite lookup_delete_ne by done. by rewrite lookup_insert_eq. }
  rewrite (lookup_insert_ne _ (w_parent r)), (lookup_insert_ne _ w) by done.
  rewrite !lookup_union, lookup_delete_ne, !lookup_insert_ne by done. done.
Qed.

Lemma freed_disjoint W G w p rp r' : W ##ₘ G → is_Some (W !! p) → freed_map w p rp W ##ₘ <[w:=r']> G.
Proof.
  intros Hdisj [x Hx]. apply map_disjoint_insert_r. split; [apply lookup_delete_eq|].
  apply map_disjoint_delete_l. apply map_disjoint_insert_l. split; [|done]. by apply (map_disjoint_Some_l W G p x).
Qed.

Lemma freed_path W w r rp l : over W w → W !! w = Some r → w_refs r - 1 = 0 → W !! w_parent r = Some rp → path W w (w :: l) →
  path (freed_map w (w_parent r) rp W) (w_parent r) l.
Proof.
  intros Hov Hr Hlast Hrp Hl. destruct (last_facts W w r Hov Hr Hlast) as (_ & _ & _ & _ & _ & Hne).
  inversion Hl as [|? r0 ? Hw Hr0 Hrest]; subst. assert (r0 = r) as -> by congruence.
  apply (path_ext W); [done|]. intros x Hx. apply path_nodup, NoDup_cons in Hl as [Hnot _].
  assert (Hxw : x ≠ w) by congruence. destruct (decide (x = w_parent r)) as [->|Hxp].
  - rewrite (freed_parent W w r Hov Hr Hlast rp), Hrp. done.
  - by rewrite (freed_other W w r rp).
Qed.

Lemma release_window_ok n s (W G : winmap) w l : windows s = W ∪ G → W ##ₘ G → over W w → path W w l → (length l ≤ n)%nat → w ≠ 0 →
  wp (release_window n w) (λ _ s', released s W G s') s.
Proof.
  revert n s W G w. induction l as [|x l IH]; intros n s W G w Hs Hdisj Hov Hl Hn Hw0; [by inversion Hl|].
  assert (∃ r, W !! w = Some r ∧ x = w) as (r & Hr & ->) by (inversion Hl; subst; eauto).
  destruct n as [|n]; simpl in Hn; [lia|]. cbn [release_window].
  assert (Hrs : windows s !! w = Some r) by (rewrite Hs; by apply lookup_union_Some_l).
  pose proof (over_refs W w r Hov Hr) as Hrefs. pose proof (uses_nonneg r).
  wp_read ltac:(exact Hrs). apply wp_bind, wp_assert; [by rewrite (proj2 (Z.eqb_neq _ 0)) by lia|].
  wp_write ltac:(exact Hrs). destruct (Z.eqb_spec (w_refs r - 1) 0) as [Hlast|Hmore]; cbn [negb].
  2: { wp_steps. by apply (release_keep_ok s W G w r). }
  destruct (last_facts W w r Hov Hr Hlast) as (Hh & Hc & Hu & Hlk & Hp & Hne).
  apply wp_bind, wp_assert; [by rewrite Hh|]. rewrite (proj2 (Z.eqb_neq _ 0)) by done.
  assert (∃ rp, W !! w_parent r = Some rp) as [rp Hrp].
  { inversion Hl as [|? r0 ? _ Hr0 Hrest]; subst. assert (r0 = r) as -> by congruence.
    inversion Hrest as [E|? rp ? _ Hrp _]; [congruence|by exists rp]. }
  apply wp_bind, wp_bind. eapply (release_unlink_ok s W G w r rp); [done..|]. cbn zeta.
  set (r' := set_w_entry EUnset _). eapply wp_mono.
  - eapply (IH n _ (freed_map w (w_parent r) rp W) (<[w:=r']> G)); [done|by apply freed_disjoint| | |lia|done].
    + by apply freed_over.
    + by eapply freed_path.
  - intros _ s1 (W1 & c1 & -> & Hdisj1 & Hf1 & Hsk1). unfold emit. wp_steps.
    exists W1, (c1 ++ [C_free_window_data w]). apply map_disjoint_insert_r in Hdisj1 as [Hw1 Hdisj1].
    split_and!; [|done|done|eapply shrunk_trans; [by apply (freed_shrunk W w r Hov Hr Hlast rp)|done]].
    cbn. assert (HG : G !! w = None) by (by apply (map_disjoint_Some_l W G w r)).
    assert (delete w (W1 ∪ <[w:=r']> G) = W1 ∪ G) as ->; [|done].
    rewrite delete_union, (delete_id W1) by done. f_equal. rewrite delete_insert_eq. by apply delete_id.
Qed.

(** The call at the end of a destruction. *)
Lemma release_window_object_ok s w r : over (windows s) w → windows s !! w = Some r → w ≠ 0 →
  wp (release_object w) (λ _ s', ∃ W' c, s' = set_win_calls c (set_windows W' s) ∧ forest_ok W' ∧ shrunk (windows s) W') s.
Proof.
  intros Hov Hr Hw. unfold release_object, tree_fuel. wp_steps.
  assert (rooted (windows s) w) as [l Hl].
  { destruct (t_rooted _ (ov_tree _ _ Hov) w (dec_refs r)) as [l Hl].
    { by rewrite (dec_map_lookup _ w w r Hr), decide_True. }
    exists l. eapply path_ext; [done|]. intros x _. destruct (windows s !! x) as [rx|] eqn:Hx.
    - rewrite (dec_map_lookup _ w x rx Hx). by destruct (decide (x = w)).
    - destruct (dec_map w (windows s) !! x) as [y|] eqn:Hy; [|done]. apply dec_map_back in Hy as (? & ? & _). congruence. }
  eapply wp_mono; [apply (release_window_ok _ s (windows s) ∅ w l)|].
  - by rewrite (right_id_L ∅ (∪)).
  - apply map_disjoint_empty_r.
  - done.
  - done.
  - by eapply path_length.
  - done.
  - intros _ s' (W' & c & -> & _ & Hf & Hsk). exists W', c. by rewrite (right_id_L ∅ (∪)).
Qed.

(** * Windows: the invariant of the whole state *)

(** A list whose elements have different indices below [n]. *)
Lemma inj_list_bound {A} (P : A → Z → Prop) (l : list A) n : NoDup l →
  (∀ a, a ∈ l → ∃ i, 0 <= i < n ∧ P a i) → (∀ a b i, a ∈ l → b ∈ l → P a i → P b i → a = b) →
  0 <= n → Z.of_nat (length l) <= n.
Proof.
  intros Hnd Hex Hinj Hn. assert (∃ I : list Z, NoDup I ∧ length I = length l ∧
    ∀ i, i ∈ I → 0 <= i < n ∧ ∃ a, a ∈ l ∧ P a i) as (I & HI & Hlen & Hin).
  { induction l as [|a l IH]; [by exists []; split_and!; [constructor|done|intros i ?%not_elem_of_nil]|].
    apply NoDup_cons in Hnd as [Hal Hnd]. destruct IH as (I & HI & Hlen & Hin); [done| | |].
    { intros b Hb. apply Hex. by right. }
    { intros b c i Hb Hc. apply Hinj; by right. }
    destruct (Hex a ltac:(by left)) as (i & Hi & Hp). exists (i :: I). split_and!; [|simpl; lia|].
    - constructor; [|done]. intros (_ & b & Hb & Hpb)%Hin. apply Hal.
      rewrite (Hinj a b i); [done|by left|by right|done|done].
    - intros j [->|Hj]%elem_of_cons; [split; [done|]; exists a; split; [by left|done]|].
      destruct (Hin j Hj) as (? & b & Hb & ?). split; [done|]. exists b. split; [by right|done]. }
  rewrite <-Hlen.
  assert (list_to_set I ⊆@{gset Z} list_to_set (seqZ 0 n)) as Hsub.
  { intros i Hi%elem_of_list_to_set. apply elem_of_list_to_set, elem_of_seqZ. destruct (Hin i Hi). lia. }
  apply subseteq_size in Hsub. rewrite !size_list_to_set in Hsub by (done || apply NoDup_seqZ).
  rewrite length_seqZ in Hsub. lia.
Qed.

(** ** Handles *)

(** The handle of a window, 0 for a window that is gone. *)
Definition handle_at (W : winmap) (x : Z) : Z := match W !! x with Some r => w_handle r | None => 0 end.
Definition thread_at (W : winmap) (x : Z) : Z := match W !! x with Some r => w_thread r | None => 0 end.
Definition live (W : winmap) (x : Z) : Prop := handle_at W x ≠ 0.

#[export] Instance live_dec W x : Decision (live W x).
Proof. unfold live. apply _. Defined.

Lemma live_lookup W x : live W x ↔ ∃ r, W !! x = Some r ∧ w_handle r ≠ 0.
Proof. unfold live, handle_at. destruct (W !! x) as [r|]; naive_solver. Qed.

(** Entry [i] of the handle table is a window handle for [w]. *)
Definition owns (u : user_state) (i : Z) (h w : Z) : Prop :=
  ∃ e, 0 <= i < nb_handles u ∧ entry_of u i = Some e ∧ ue_type e = NTUSER_OBJ_WINDOW ∧
    h = entry_handle i (ue_generation e) ∧ object_of u i = Some w.

Record handles_ok (W : winmap) (u : user_state) : Prop := {
  ho_table : uh_ok u;
  ho_window : ∀ w, live W w → ∃ i, owns u i (handle_at W w) w;
  ho_entry : ∀ i e, 0 <= i < nb_handles u → entry_of u i = Some e → ue_type e = NTUSER_OBJ_WINDOW →
    ∃ w, live W w ∧ owns u i (handle_at W w) w;
}.

Lemma handles_ok_ext W W' u : (∀ x, handle_at W' x = handle_at W x) → handles_ok W u → handles_ok W' u.
Proof.
  intros HW [A B C]. split; [done| |].
  - intros w Hw. unfold live in Hw. rewrite HW in *. by apply B.
  - intros i e Hi He Ht. destruct (C i e Hi He Ht) as (w & Hw & Ho). exists w. unfold live. rewrite HW. done.
Qed.

(** ** The reference counts are bounded

    Below every window there is one with a handle, and those below different
    children are different, so a window has no more children than the table of
    handles has entries. *)

Lemma live_below W x r : forest_ok W → W !! x = Some r → ∃ d, live W d ∧ under W x d.
Proof.
  intros Hf. pose proof (fo_tree _ Hf) as HW. intros Hr. destruct (t_rooted _ HW x r Hr) as [l Hl].
  remember (base.size W - length l)%nat as n eqn:Hn. revert x r l Hr Hl Hn.
  induction n as [n IH] using lt_wf_ind. intros x r l Hr Hl Hn.
  assert (Hx : x ≠ 0) by (intros ->; by rewrite (t_null _ HW) in Hr).
  destruct (decide (w_handle r = 0)) as [Hh|Hh].
  2:{ exists x. split; [apply live_lookup; eauto|]. apply under_refl; [by exists l|done]. }
  assert (∃ c rc, W !! c = Some rc ∧ w_parent rc = x) as (c & rc & Hc & Hpc).
  { pose proof (fo_used _ Hf x r Hr) as Hu. unfold uses in Hu. rewrite Hh in Hu. simpl in Hu.
    destruct (w_children r) as [|c cs] eqn:Hcs; [destruct (w_unlinked r) as [|c cs] eqn:Hus; [simpl in Hu; lia|]|].
    - destruct (t_unlinked _ HW x r c Hr) as (rc & ? & ? & _); [rewrite Hus; by left|eauto].
    - destruct (t_children _ HW x r c Hr) as (rc & ? & ? & _); [rewrite Hcs; by left|eauto]. }
  assert (Hc0 : c ≠ 0) by (intros ->; by rewrite (t_null _ HW) in Hc).
  assert (Hlc : path W c (c :: l)) by (econstructor; [done|done|by rewrite Hpc]).
  pose proof (path_length _ _ _ Hlc) as Hlen. simpl in Hlen.
  destruct (IH (base.size W - length (c :: l))%nat ltac:(simpl; lia) c rc (c :: l) Hc Hlc eq_refl) as (d & Hd & Hu).
  exists d. split; [done|]. eapply under_trans; [|done]. rewrite <-Hpc.
  eapply under_step; [done|done|]. rewrite Hpc. apply under_refl; [by exists l|done].
Qed.

(** Siblings have no common descendants. *)
Lemma siblings_apart W a b ra rb d : tree_ok W → W !! a = Some ra → W !! b = Some rb → w_parent ra = w_parent rb →
  under W a d → under W b d → a = b.
Proof.
  intros HW Ha Hb Hp Hua Hub. destruct (under_total _ _ _ _ Hua Hub) as [Hu|Hu].
  - destruct (under_inv _ _ _ _ Hb Hu) as [|Hu']; [done|]. exfalso. rewrite <-Hp in Hu'. by apply (not_under_parent W a ra).
  - destruct (under_inv _ _ _ _ Ha Hu) as [|Hu']; [done|]. exfalso. rewrite Hp in Hu'. by apply (not_under_parent W b rb).
Qed.

Lemma refs_bounded W u w r : forest_ok W → handles_ok W u → W !! w = Some r → w_refs r <= 1 + MAX_USER_HANDLES.
Proof.
  intros Hf Hh Hr. pose proof (fo_tree _ Hf) as HW. rewrite (t_refs _ HW w r Hr). unfold uses.
  assert (Hkid : ∀ c, c ∈ w_children r ++ w_unlinked r → ∃ rc, W !! c = Some rc ∧ w_parent rc = w).
  { intros c [Hc|Hc]%elem_of_app; [destruct (t_children _ HW w r c Hr Hc) as (rc & ? & ? & _)|
      destruct (t_unlinked _ HW w r c Hr Hc) as (rc & ? & ? & _)]; eauto. }
  assert (Z.of_nat (length (w_children r ++ w_unlinked r)) <= nb_handles u) as Hlen.
  { apply (inj_list_bound (λ c i, ∃ d, under W c d ∧ owns u i (handle_at W d) d)).
    - destruct (t_nodup _ HW w r Hr) as [Hn1 Hn2]. apply NoDup_app. split_and!; [done| |done].
      intros c Hc Hc'. destruct (t_children _ HW w r c Hr Hc) as (rc & ? & _ & ?).
      destruct (t_unlinked _ HW w r c Hr Hc') as (rc' & ? & _ & ?). congruence.
    - intros c Hc. destruct (Hkid c Hc) as (rc & Hrc & _). destruct (live_below W c rc Hf Hrc) as (d & Hd & Hu).
      destruct (ho_window _ _ Hh d Hd) as [i Hi]. pose proof Hi as (e & Hir & _). eauto.
    - intros a b i (ra & Hra & Hpa)%Hkid (rb & Hrb & Hpb)%Hkid (d & Hu & e & _ & _ & _ & _ & Ho) (d' & Hu' & e' & _ & _ & _ & _ & Ho').
      assert (d = d') as <- by congruence. eapply siblings_apart; [done|exact Hra|exact Hrb|congruence|done|done].
    - apply (uo_nb _ (ho_table _ _ Hh)). }
  pose proof (uo_nb _ (ho_table _ _ Hh)). rewrite length_app in Hlen. destruct (w_handle r =? 0); lia.
Qed.

Lemma refs_grabbable W u w r : forest_ok W → handles_ok W u → W !! w = Some r → (w_refs r <? 2147483647) = true.
Proof. intros Hf Hh Hr. pose proof (refs_bounded W u w r Hf Hh Hr). rewrite max_user_handles in *. lia. Qed.

Lemma get_user_object_ok u h ty : uh_ok u →
  wp (get_user_object h ty) (λ p u', u' = u ∧
    (p = 0 ∨ ∃ i e, target u h = Some i ∧ entry_of u i = Some e ∧ ue_type e = ty ∧ object_of u i = Some p)) u.
Proof.
  intros Hu. unfold get_user_object. wp_steps. eapply wp_mono; [by apply handle_to_entry_ok|]. cbv beta. intros o u' [-> ->].
  destruct (target u h) as [i|] eqn:Ht; [|wp_steps; by auto]. destruct (target_some u h i Hu Ht) as (_ & Hi & e & He & Hty & _).
  wp_steps. eapply wp_get_user_entry; [done|]. destruct (Z.eqb_spec (ue_type e) ty) as [E|E]; cbn [negb]; [|wp_steps; by auto].
  unfold get_server_object. wp_steps. pose proof (uo_objects _ Hu). pose proof (uo_nb _ Hu).
  destruct (lookup_lt_is_Some_2 (server_objects u) (Z.to_nat i)) as [p Hp]; [lia|].
  eapply wp_arr_get; [lia|done|]. split; [done|]. right. exists i, e. split_and!; [done..|].
  unfold object_of. by rewrite (proj2 (Z.leb_le 0 i)) by lia.
Qed.

(** [get_user_object] on a window handle gives a live window, or 0. *)
Lemma get_user_window_ok s h (Q : Z → wstate → Prop) : handles_ok (windows s) (users s) →
  Q 0 s → (∀ w, live (windows s) w → Q w s) →
  wp (with_users (get_user_object h NTUSER_OBJ_WINDOW)) Q s.
Proof.
  intros Hh H0 HQ. apply wp_with_users. eapply wp_mono; [apply get_user_object_ok, (ho_table _ _ Hh)|]. cbv beta.
  assert (Hs : set_users (users s) s = s) by (by destruct s).
  intros p u [-> [->|(i & e & Ht & He & Hty & Hp)]]; rewrite Hs; [done|].
  destruct (target_some _ _ _ (ho_table _ _ Hh) Ht) as (_ & Hi & _).
  destruct (ho_entry _ _ Hh i e Hi He Hty) as (w & Hw & e' & _ & _ & _ & _ & Hw'). simplify_eq. by apply HQ.
Qed.


(** A freed handle: its window is no longer live. *)
Lemma handles_free W W' u w : handles_ok W u → live W w →
  (∀ x, handle_at W' x = if decide (x = w) then 0 else handle_at W x) →
  wp (free_user_handle (handle_at W w)) (λ _ u', handles_ok W' u' ∧ nb_handles u' = nb_handles u) u.
Proof.
  intros [Hu Hwin Hent] Hw HW. destruct (Hwin w Hw) as (i & e & Hi & He & Hty & Hh & Hob).
  eapply wp_mono; [by apply free_user_handle_ok|]. cbv beta. pose proof (uo_gen _ Hu i e Hi He) as Hg.
  pose proof (uo_nb _ Hu) as Hnb. destruct (entry_handle_parts i (ue_generation e)) as [Hidx Hgen]; [lia|lia|].
  assert (Ht : target u (handle_at W w) = Some i).
  { rewrite Hh. rewrite (target_new u i e) by done. rewrite Hty. unfold accepts. rewrite Hgen, Z.eqb_refl.
    by rewrite !orb_true_r. }
  rewrite Ht. intros p u' (_ & Hf & Hobj). pose proof Hf as [Hok Hn (e1 & e' & He1 & Hp & Hz & Hgen' & Hpid) _].
  assert (Hkeep : ∀ j h x, x ≠ w → owns u j h x → owns u' j h x).
  { intros j h x Hx (ej & Hj & Hej & Htj & Hhj & Hoj). assert (j ≠ i) by (intros ->; congruence).
    exists ej. rewrite Hn, (pe_old _ _ _ _ Hp), Hobj, (proj2 (Z.eqb_neq j i)) by done. done. }
  split; [split; [done| |]|done].
  - intros x Hx. unfold live in Hx. rewrite HW in Hx |- *. destruct (decide (x = w)) as [->|Hne]; [done|].
    destruct (Hwin x Hx) as (j & Hj). exists j. by apply Hkeep.
  - intros j ej Hj Hej Htj. destruct (decide (j = i)) as [->|Hne].
    { pose proof (pe_new _ _ _ _ Hp) as E. rewrite Hej in E. injection E as ->. rewrite Hz in Htj. done. }
    rewrite (pe_old _ _ _ _ Hp) in Hej by done. destruct (Hent j ej) as (x & Hx & Ho); [lia|done|done|].
    assert (x ≠ w). { intros ->. destruct Ho as (e3 & Hj3 & He3 & _ & Hh3 & _). rewrite Hh in Hh3. pose proof (uo_gen _ Hu j e3 Hj3 He3).
      destruct (entry_handle_parts j (ue_generation e3)) as [Hidx' _]; [lia|lia|]. rewrite <-Hh3, Hidx in Hidx'. done. }
    exists x. unfold live. rewrite HW, decide_False by done. split; [done|]. by apply Hkeep.
Qed.

(** A new handle, for a window that had none. *)
Lemma handles_alloc W u w off id tid pid : handles_ok W u → can_alloc u → ¬ live W w →
  wp (alloc_user_handle w off id tid pid NTUSER_OBJ_WINDOW) (λ h u', h ≠ 0 ∧
    (∀ W', (∀ x, x ≠ w → handle_at W' x = handle_at W x) → handle_at W' w = h → handles_ok W' u') ∧
    nb_handles u <= nb_handles u') u.
Proof.
  intros [Hu Hwin Hent] Hcan Hw. eapply wp_mono; [by apply alloc_user_handle_ok|]. cbv beta.
  intros h u' (Hok & _ & i & g & Hh & Hi & Hg & Hv & Ht & Hob & (e & Hp & Hty & _ & Hge) & _ & Hobj).
  pose proof (uo_nb _ Hok) as Hnb. assert (Hh0 : h ≠ 0) by (rewrite Hh, entry_handle_eq by lia; unfold FIRST_USER_HANDLE; lia).
  assert (Hle : nb_handles u <= nb_handles u') by (destruct Hv as [(_ & _ & ->)|(_ & _ & -> & _)]; lia).
  split; [done|]. split; [|done]. intros W' HW Hnew.
  assert (Hvac : ∀ e0, 0 <= i < nb_handles u → entry_of u i = Some e0 → ue_type e0 = 0).
  { intros e0 Hi0 He0. destruct Hv as [(_ & -> & _)|(_ & _ & _ & e1 & He1 & Ht1 & _)]; [lia|congruence]. }
  assert (Hkeep : ∀ j h x, owns u j h x → owns u' j h x).
  { intros j h' x (ej & Hj & Hej & Htj & Hhj & Hoj). assert (j ≠ i).
    { intros ->. rewrite (Hvac ej Hj Hej) in Htj. done. }
    exists ej. rewrite (pe_old _ _ _ _ Hp), Hobj by done. split_and!; try done; lia. }
  split; [done| |].
  - intros x Hx. destruct (decide (x = w)) as [->|Hne].
    + exists i, e. rewrite Hnew. split_and!; [lia|lia|apply (pe_new _ _ _ _ Hp)|done|by rewrite Hge|done].
    + unfold live in Hx. rewrite HW in Hx |- * by done. destruct (Hwin x Hx) as (j & Hj). exists j. by apply Hkeep.
  - intros j ej Hj Hej Htj. destruct (decide (j = i)) as [->|Hne].
    + pose proof (pe_new _ _ _ _ Hp) as E. rewrite Hej in E. injection E as ->. exists w. unfold live. rewrite Hnew.
      split; [done|]. exists e. split_and!; [lia|lia|apply (pe_new _ _ _ _ Hp)|done|by rewrite Hge|done].
    + rewrite (pe_old _ _ _ _ Hp) in Hej by done. destruct (Hent j ej) as (x & Hx & Ho); [|done|done|].
      { destruct Hv as [(_ & -> & E)|(_ & _ & E & _)]; lia. }
      assert (x ≠ w) by (intros ->; done). exists x. unfold live. rewrite HW by done. split; [done|]. by apply Hkeep.
Qed.

(** ** Threads and desktops *)

(** Maps whose values of non-zero weight are the same have the same sum. *)
Lemma msum_weight {V} (f : V → Z) (m m' : gmap Z V) :
  (∀ k, default 0 (f <$> m' !! k) = default 0 (f <$> m !! k)) → msum f m' = msum f m.
Proof.
  revert m. induction m' as [|k v m' Hk IH] using map_ind; intros m Hm.
  - assert (Hz : ∀ k v, m !! k = Some v → f v = 0).
    { intros k v Hv. specialize (Hm k). rewrite lookup_empty, Hv in Hm. by simpl in Hm. }
    rewrite (msum_ext f (λ _, 0) m Hz). rewrite msum_empty. clear. induction m as [|k v m Hk IH] using map_ind.
    + by rewrite msum_empty.
    + rewrite msum_insert by done. lia.
  - rewrite msum_insert by done. rewrite (IH (delete k m)).
    + specialize (Hm k). rewrite lookup_insert_eq in Hm. simpl in Hm. destruct (m !! k) as [v0|] eqn:Hv0; simpl in Hm.
      * rewrite (msum_delete _ _ _ _ Hv0). lia.
      * rewrite delete_id by done. lia.
    + intros k2. specialize (Hm k2). destruct (decide (k2 = k)) as [->|Hne]; [by rewrite Hk, lookup_delete_eq|].
      rewrite lookup_insert_ne in Hm by done. by rewrite lookup_delete_ne.
Qed.

Definition owned (t : Z) (r : window) : Z := if w_thread r =? t then 1 else 0.

Lemma owned_sum W W' t : t ≠ 0 → (∀ x, thread_at W' x = thread_at W x) → msum (owned t) W' = msum (owned t) W.
Proof.
  intros Ht HW. apply msum_weight. intros x. specialize (HW x). unfold thread_at, owned in *.
  destruct (W' !! x) as [r'|], (W !! x) as [r|]; cbn; rewrite ?HW; try done.
  - by rewrite (proj2 (Z.eqb_neq _ t)).
  - by rewrite <-HW, (proj2 (Z.eqb_neq _ t)).
Qed.

(** [desktop_users] counts the windows of a thread, among other objects. *)
Record threads_ok (W : winmap) (T : gmap Z win_thread) : Prop := {
  th_known : ∀ w, thread_at W w ≠ 0 → live W w ∧ is_Some (T !! thread_at W w);
  th_count : ∀ t th, T !! t = Some th → t ≠ 0 → msum (owned t) W <= th_desktop_users th;
}.

Lemma threads_ok_ext W W' T : (∀ x, handle_at W' x = handle_at W x) → (∀ x, thread_at W' x = thread_at W x) →
  threads_ok W T → threads_ok W' T.
Proof.
  intros Hh Ht [A B]. split.
  - intros w. unfold live. rewrite Hh, Ht. apply A.
  - intros t th Hth Hz. rewrite (owned_sum W W') by done. by apply B.
Qed.

(** A thread loses a window. *)
Lemma threads_detach W W' T w r th : threads_ok W T → W !! w = Some r → w_thread r ≠ 0 → T !! w_thread r = Some th →
  (∀ x, handle_at W' x = handle_at W x) → (∀ x, thread_at W' x = if decide (x = w) then 0 else thread_at W x) →
  0 < th_desktop_users th ∧
  threads_ok W' (<[w_thread r:=WinThread (th_queue th) (th_desktop_users th - 1) (th_tid th) (th_pid th)]> T).
Proof.
  intros [A B] Hr Hz Hth Hh Ht.
  assert (Hsum : ∀ t, t ≠ 0 → msum (owned t) W' = msum (owned t) W - owned t r).
  { intros t Htz. rewrite (msum_weight (owned t) (<[w:=set_w_thread 0 r]> W) W').
    - rewrite (msum_update _ _ _ _ _ Hr). assert (owned t (set_w_thread 0 r) = 0) as -> by (unfold owned; cbn [w_thread set_w_thread]; by rewrite (proj2 (Z.eqb_neq 0 t))). lia.
    - intros x. specialize (Ht x). unfold thread_at, owned in *. destruct (decide (x = w)) as [->|Hx].
      + rewrite lookup_insert_eq. cbn [fmap option_fmap option_map default w_thread set_w_thread from_option].
        rewrite (proj2 (Z.eqb_neq 0 t)) by done. destruct (W' !! w); [|done].
        cbn [fmap option_fmap option_map default from_option id]. by rewrite Ht, (proj2 (Z.eqb_neq 0 t)).
      + rewrite lookup_insert_ne by done. destruct (W' !! x) as [r'|], (W !! x) as [r0|]; cbn; rewrite ?Ht; try done.
        * by rewrite (proj2 (Z.eqb_neq _ t)).
        * by rewrite <-Ht, (proj2 (Z.eqb_neq _ t)). }
  assert (Hpos : 1 <= msum (owned (w_thread r)) W).
  { pose proof (msum_lookup_le (owned (w_thread r)) W w r) as Hle. unfold owned at 2 in Hle. rewrite Z.eqb_refl in Hle.
    apply Hle; [|done]. intros. unfold owned. by destruct (_ =? _). }
  pose proof (B _ th Hth Hz). split; [lia|]. split.
  - intros x Hx. rewrite Ht in *. unfold live. rewrite Hh. destruct (decide (x = w)); [done|]. destruct (A x Hx) as [Hl [y Hy]].
    split; [done|]. destruct (decide (thread_at W x = w_thread r)) as [->|Hne]; [rewrite lookup_insert_eq; eauto|].
    rewrite lookup_insert_ne by done. eauto.
  - intros t th' Ht' Htz. rewrite Hsum by done. destruct (decide (t = w_thread r)) as [->|Hne].
    + rewrite lookup_insert_eq in Ht'. injection Ht' as <-. cbn. assert (owned (w_thread r) r = 1) as -> by (unfold owned; by rewrite Z.eqb_refl). lia.
    + rewrite lookup_insert_ne in Ht' by done. pose proof (B t th' Ht' Htz).
      assert (0 <= owned t r) by (unfold owned; by destruct (_ =? _)). lia.
Qed.

(** The roots a desktop points to. *)
Definition root_ok (W : winmap) (x : Z) : Prop := x = 0 ∨ ∃ r, W !! x = Some r ∧ w_handle r ≠ 0 ∧ w_parent r = 0.

Record desktops_ok (W : winmap) (D : gmap Z desktop) : Prop := {
  dk_known : ∀ w r, W !! w = Some r → is_Some (D !! w_desktop r);
  dk_roots : ∀ d x, D !! d = Some x → root_ok W (top_window x) ∧ root_ok W (msg_window x);
}.

(** ** The state *)

Section state.
Context (to_lower : Z → Z).

Record ws_ok (s : wstate) : Prop := {
  ws_forest : forest_ok (windows s);
  ws_handles : handles_ok (windows s) (users s);
  ws_threads : threads_ok (windows s) (threads s);
  ws_desktops : desktops_ok (windows s) (desktops s);
  ws_atoms : atom_ok to_lower (gatoms s);
}.

Lemma live_nonzero s w : ws_ok s → live (windows s) w → w ≠ 0.
Proof. intros Hs Hw ->. apply live_lookup in Hw as (r & Hr & _). by rewrite (t_null _ (fo_tree _ (ws_forest _ Hs))) in Hr. Qed.

(** [get_window] gives a live window, or 0 and an error. *)
Lemma get_window_ok s h (Q : Z → wstate → Prop) : ws_ok s →
  Q 0 (set_win_error WIN_INVALID_WINDOW_HANDLE s) →
  (∀ w r, windows s !! w = Some r → w_handle r ≠ 0 → w ≠ 0 → Q w s) → wp (get_window h) Q s.
Proof.
  intros Hs H0 HQ. unfold get_window. apply wp_bind. apply get_user_window_ok; [apply (ws_handles _ Hs)|..].
  - cbn. unfold set_error. by wp_steps.
  - intros w Hw. pose proof (live_nonzero s w Hs Hw). rewrite (proj2 (Z.eqb_neq w 0)) by done. wp_steps.
    apply live_lookup in Hw as (r & Hr & Hh). by eapply HQ.
Qed.

Lemma ws_ok_calls s c : ws_ok s → ws_ok (set_win_calls c s).
Proof. by intros [A B C D E]. Qed.
Lemma ws_ok_error s e : ws_ok s → ws_ok (set_win_error e s).
Proof. by intros [A B C D E]. Qed.
End state.

Arguments ws_ok : clear implicits.
