(* ===== verification/WindowDestroy.v ===== *)
(** * Windows: destruction

    [free_window_handle] terminates, keeps the invariant of the state, and
    destroys exactly the windows that are reached from its argument through the
    children of the same thread.

    ** Windows: destroying a tree of windows

    The passes over the children and the recursion of [free_window_handle]: it
    ends, it keeps the invariant of the state, and it destroys exactly the windows
    that are reached from its argument through linked children of the same
    thread. *)

From stdpp Require Import base list gmap fin_maps.
From S2P Require Import Prelude Region Atom AtomThms UserHandle UserHandleThms Window WindowOps WindowTree WindowLink.
From S2P Require Import WindowParent WindowInv.

Open Scope Z_scope.
Open Scope server_scope.

Section destroy.
Context (to_lower : Z → Z).
Notation ws_ok := (ws_ok to_lower).

(** ** Steps that keep the shape *)

Lemma release_properties_ok s l : atom_ok to_lower (gatoms s) →
  wp (release_properties l) (λ _ s', ∃ t, s' = set_gatoms t s ∧ atom_ok to_lower t) s.
Proof.
  revert s. induction l as [|p l IH]; intros s Ha; cbn [release_properties].
  - wp_steps. exists (gatoms s). by destruct s.
  - apply wp_bind, (wp_mono _ (λ _ s', ∃ t, s' = set_gatoms t s ∧ atom_ok to_lower t)).
    + destruct (decide (prop_type p = PROP_TYPE_STRING)); [|wp_steps; exists (gatoms s); by destruct s].
      apply wp_with_atoms. unfold release_atom. destruct (MIN_STR_ATOM <=? prop_atom p); [|wp_steps; by eexists].
      eapply wp_mono; [by apply (delete_atom_ok to_lower)|]. cbv beta. intros _ t [Ht _]. by exists t.
    + intros _ s' (t & -> & Ht). eapply wp_mono; [by apply IH|]. cbv beta. intros _ s' (t' & -> & Ht'). by exists t'.
Qed.

(** A change of a window that the invariant does not read. *)
Record bland (r r' : window) : Prop := {
  bl_core : core r' = core r;
  bl_top : is_topmost r' = is_topmost r;
  bl_desktop : w_desktop r' = w_desktop r;
}.

Lemma bland_forest W w r r' : forest_ok W → W !! w = Some r → bland r r' → forest_ok (<[w:=r']> W).
Proof.
  intros Hf Hr Hb. apply (forest_ok_ext W); [|intros x; unfold topmost_in|done].
  - by apply (core_insert W w r); [|apply (bl_core _ _ Hb)].
  - destruct (decide (x = w)) as [->|Hx]; [rewrite lookup_insert_eq, Hr; apply (bl_top _ _ Hb)|by rewrite lookup_insert_ne].
Qed.

Lemma handle_insert W w r x : handle_at (<[w:=r]> W) x = if decide (x = w) then w_handle r else handle_at W x.
Proof.
  unfold handle_at. destruct (decide (x = w)) as [->|Hx]; [by rewrite lookup_insert_eq|by rewrite lookup_insert_ne].
Qed.
Lemma thread_insert W w r x : thread_at (<[w:=r]> W) x = if decide (x = w) then w_thread r else thread_at W x.
Proof.
  unfold thread_at. destruct (decide (x = w)) as [->|Hx]; [by rewrite lookup_insert_eq|by rewrite lookup_insert_ne].
Qed.
Lemma handle_at_lookup W w r : W !! w = Some r → handle_at W w = w_handle r.
Proof. unfold handle_at. by intros ->. Qed.
Lemma thread_at_lookup W w r : W !! w = Some r → thread_at W w = w_thread r.
Proof. unfold thread_at. by intros ->. Qed.

Lemma bland_handle r r' : bland r r' → w_handle r' = w_handle r.
Proof. intros [Hc _ _]. by injection Hc. Qed.
Lemma bland_parent r r' : bland r r' → w_parent r' = w_parent r.
Proof. intros [Hc _ _]. by injection Hc. Qed.

Lemma desktops_insert W D w r r' : desktops_ok W D → W !! w = Some r → bland r r' → desktops_ok (<[w:=r']> W) D.
Proof.
  intros [A B] Hr Hb. split.
  - intros x rx Hx. destruct (decide (x = w)) as [->|Hne].
    + rewrite lookup_insert_eq in Hx. injection Hx as <-. rewrite (bl_desktop _ _ Hb). by eapply A.
    + rewrite lookup_insert_ne in Hx by done. by eapply A.
  - intros d y Hd. destruct (B d y Hd) as [H1 H2].
    assert (Hk : ∀ z, root_ok W z → root_ok (<[w:=r']> W) z).
    { intros z [->|(rz & Hz & Hh & Hp)]; [by left|right]. destruct (decide (z = w)) as [->|Hne].
      - rewrite lookup_insert_eq. exists r'. simplify_eq. by rewrite (bland_handle _ _ Hb), (bland_parent _ _ Hb).
      - rewrite lookup_insert_ne by done. eauto. }
    auto.
Qed.

Lemma bland_ok s w r r' : ws_ok s → windows s !! w = Some r → bland r r' → w_thread r' = w_thread r →
  ws_ok (set_windows (<[w:=r']> (windows s)) s).
Proof.
  intros [A B C D E] Hr Hb Ht. pose proof (bland_handle _ _ Hb) as Hh.
  assert (H1 : ∀ x, handle_at (<[w:=r']> (windows s)) x = handle_at (windows s) x).
  { intros x. rewrite handle_insert. destruct (decide (x = w)) as [->|]; [|done]. by rewrite (handle_at_lookup _ w r). }
  split; cbn.
  - by apply (bland_forest _ w r).
  - by apply (handles_ok_ext (windows s)).
  - apply (threads_ok_ext (windows s)); [done| |done]. intros x. rewrite thread_insert.
    destruct (decide (x = w)) as [->|]; [|done]. by rewrite (thread_at_lookup _ w r).
  - by apply (desktops_insert _ _ w r).
  - done.
Qed.

(** [detach_window_thread]: the window belongs to no thread. *)
Lemma detach_window_thread_ok s w r : ws_ok s → windows s !! w = Some r →
  wp (detach_window_thread w) (λ _ s', ws_ok s' ∧ users s' = users s ∧ desktops s' = desktops s ∧ gatoms s' = gatoms s ∧
    current s' = current s ∧
    ∃ c, windows s' = <[w:=set_w_thread 0 (set_w_class c r)]> (windows s)) s.
Proof.
  intros Hs Hr. unfold detach_window_thread. wp_read ltac:(done). destruct (Z.eqb_spec (w_thread r) 0) as [Hz|Hz].
  { wp_steps. split; [done|]. split_and!; [done..|]. exists (w_class r). rewrite insert_id; [done|]. rewrite Hr. f_equal.
    destruct r. cbn in *. by subst. }
  pose proof Hs as [A B C D E]. destruct (th_known _ _ C w) as [_ [th Hth]]; [by rewrite (thread_at_lookup _ w r)|].
  rewrite (thread_at_lookup _ w r Hr) in Hth.
  set (r' := set_w_thread 0 (set_w_class 0 r)).
  assert (Hb : bland r r') by done.
  destruct (threads_detach (windows s) (<[w:=r']> (windows s)) (threads s) w r th) as [Hpos Hth'].
  { done. } { done. } { done. } { done. }
  { intros x. rewrite handle_insert. destruct (decide (x = w)) as [->|]; [by rewrite (handle_at_lookup _ w r)|done]. }
  { intros x. by rewrite thread_insert. }
  unfold get_thread, emit, put_thread. wp_steps. eapply wp_deref; [done|]. wp_steps.
  apply (wp_mono _ (λ _ s', ∃ c, s' = set_win_calls c s)).
  { destruct (th_queue th); wp_steps; [by eexists|exists (win_calls s); by destruct s]. }
  intros _ s1 [c ->]. apply wp_bind, wp_assert; [by apply Z.ltb_lt|]. wp_steps.
  eapply wp_upd; [exact Hr|]. wp_steps. eapply wp_upd; [apply lookup_insert_eq|]. cbn. rewrite insert_insert_eq.
  split_and!; try done; [|by exists 0]. split; cbn.
  - by apply (bland_forest _ w r).
  - apply (handles_ok_ext (windows s)); [|done]. intros x. rewrite handle_insert.
    destruct (decide (x = w)) as [->|]; [|done]. by rewrite (handle_at_lookup _ w r).
  - done.
  - by apply (desktops_insert _ _ w r).
  - done.
Qed.

(** ** What a destruction leaves alone *)

(** The references and the two lists of a window may change. *)
Definition frame (r r' : window) : Prop :=
  r' = set_w_refs (w_refs r') (set_w_children (w_children r') (set_w_unlinked (w_unlinked r') r)).

(** No window appears or changes parent, and a window that stays live only loses
    the children that do not. *)
Definition killed (W W' : winmap) : Prop :=
  ∀ x r', W' !! x = Some r' → ∃ r, W !! x = Some r ∧ w_parent r' = w_parent r ∧
    (w_handle r' ≠ 0 → frame r r' ∧ w_children r' = filter (live W') (w_children r)).

Lemma frame_trans r1 r2 r3 : frame r1 r2 → frame r2 r3 → frame r1 r3.
Proof. unfold frame. intros -> ->. done. Qed.

Lemma killed_lookup W W' x r' : killed W W' → W' !! x = Some r' → w_handle r' ≠ 0 →
  ∃ r, W !! x = Some r ∧ frame r r' ∧ w_children r' = filter (live W') (w_children r).
Proof. intros HK Hx Hh. destruct (HK x r' Hx) as (r & Hr & _ & H). exists r. split; [done|]. by apply H. Qed.

Lemma killed_live W W' x : killed W W' → live W' x → live W x.
Proof.
  intros HK (r' & Hr' & Hh)%live_lookup. destruct (killed_lookup W W' x r' HK Hr' Hh) as (r & Hr & Hf & _).
  apply live_lookup. exists r. split; [done|]. rewrite Hf in Hh. done.
Qed.

Lemma children_live W x r c : tree_ok W → W !! x = Some r → c ∈ w_children r → live W c.
Proof.
  intros HW Hr Hc. destruct (t_children _ HW x r c Hr Hc) as (rc & Hrc & _ & El). apply live_lookup. exists rc.
  split; [done|]. by apply (t_live _ HW c).
Qed.

Lemma filter_all_live W' (l : list Z) : (∀ x, x ∈ l → live W' x) → filter (live W') l = l.
Proof.
  induction l as [|x l IH]; intros Hl; [done|]. rewrite filter_cons_True by (apply Hl; by left). f_equal.
  apply IH. intros y Hy. apply Hl. by right.
Qed.

Lemma killed_refl W : tree_ok W → killed W W.
Proof.
  intros HW x r Hr. exists r. split_and!; [done|done|]. intros _. split; [by destruct r|].
  rewrite (filter_all_live W); [done|]. intros c. by apply (children_live W x r).
Qed.

Lemma filter_live_live W W' (l : list Z) : (∀ x, live W' x → live W x) → filter (live W') (filter (live W) l) = filter (live W') l.
Proof.
  intros HW. induction l as [|x l IH]; [done|]. rewrite (filter_cons (live W)). destruct (decide (live W x)) as [H|H].
  - rewrite !filter_cons. by destruct (decide (live W' x)); rewrite IH.
  - rewrite IH, (filter_cons (live W')), decide_False; [done|]. auto.
Qed.

Lemma killed_trans W1 W2 W3 : killed W1 W2 → killed W2 W3 → killed W1 W3.
Proof.
  intros K1 K2 x r3 Hr3. destruct (K2 x r3 Hr3) as (r2 & Hr2 & Ep & H2). destruct (K1 x r2 Hr2) as (r1 & Hr1 & Ep' & H1).
  exists r1. split_and!; [done|congruence|]. intros Hh. destruct (H2 Hh) as [Hf2 Hc2].
  destruct H1 as [Hf1 Hc1]; [by rewrite Hf2 in Hh|]. split; [by eapply frame_trans|].
  rewrite Hc2, Hc1. apply filter_live_live. intros y. by apply killed_live.
Qed.

(** Dead windows going away. *)
Lemma shrunk_handle W W' x : shrunk W W' → handle_at W' x = handle_at W x.
Proof.
  intros [A B]. unfold handle_at. destruct (W' !! x) as [r'|] eqn:Hx.
  - destruct (A x r' Hx) as (r & -> & Hs). by apply shrink_handle.
  - destruct (W !! x) as [r|] eqn:Hr; [|done]. destruct (decide (w_handle r = 0)) as [E|E]; [done|].
    destruct (B x r Hr E) as (? & ? & _). congruence.
Qed.

Lemma shrunk_thread W W' T x : shrunk W W' → threads_ok W T → thread_at W' x = thread_at W x.
Proof.
  intros [A B] HT. unfold thread_at. destruct (W' !! x) as [r'|] eqn:Hx.
  - destruct (A x r' Hx) as (r & -> & Hs). by rewrite Hs.
  - destruct (W !! x) as [r|] eqn:Hr; [|done]. destruct (decide (w_thread r = 0)) as [E|E]; [done|].
    destruct (th_known _ _ HT x) as [Hl _]; [by rewrite (thread_at_lookup _ x r)|]. apply live_lookup in Hl as (r0 & Hr0 & Hh).
    simplify_eq. destruct (B x r Hr Hh) as (? & ? & _). congruence.
Qed.

Lemma shrunk_desktops W W' D : shrunk W W' → desktops_ok W D → desktops_ok W' D.
Proof.
  intros [A B] [C E]. split.
  - intros x r' Hx. destruct (A x r' Hx) as (r & Hr & Hsh). rewrite Hsh. exact (C x r Hr).
  - intros d y Hd. assert (Hk : ∀ z, root_ok W z → root_ok W' z).
    { intros z [->|(rz & Hz & Hh & Hp)]; [by left|right]. destruct (B z rz Hz Hh) as (r' & Hr' & Hsh). exists r'.
      split; [done|]. by rewrite Hsh. }
    destruct (E d y Hd). auto.
Qed.

Lemma shrunk_killed W W' : (∀ x r c, W !! x = Some r → c ∈ w_children r → live W c) → shrunk W W' → killed W W'.
Proof.
  intros Hkids Hs x r' Hx. destruct (sk_old _ _ Hs x r' Hx) as (r & Hr & Hsh). exists r. split; [done|].
  assert (Ec : w_children r' = w_children r) by (by rewrite Hsh).
  split; [by rewrite Hsh|]. intros _. split; [rewrite Hsh; by destruct r|]. rewrite Ec, (filter_all_live W'); [done|].
  intros c Hc. unfold live. rewrite (shrunk_handle W W') by done. by apply (Hkids x r).
Qed.

(** ** The end of [free_window_handle] *)

Section finish.
Context (W : winmap) (w : Z) (r rp : window).
Context (Hf : forest_ok W) (Hr : W !! w = Some r) (Hp : w_parent r ≠ 0) (Hrp : W !! w_parent r = Some rp).
Context (Hh : w_handle r ≠ 0).
Notation p := (w_parent r).

(** The heap when the last reference is released. *)
Definition doomed_map : winmap := <[w:=set_w_handle 0 (orphan_window p r)]> (<[p:=orphan_parent w rp]> W).

Lemma finish_ne : w ≠ p.
Proof. exact (parent_ne W w r (fo_tree _ Hf) Hr). Qed.

Lemma doomed_self : doomed_map !! w = Some (set_w_handle 0 (orphan_window p r)).
Proof. apply lookup_insert_eq. Qed.
Lemma doomed_parent : doomed_map !! p = Some (orphan_parent w rp).
Proof. unfold doomed_map. rewrite lookup_insert_ne by apply finish_ne. by rewrite lookup_insert_eq. Qed.
Lemma doomed_other x : x ≠ w → x ≠ p → doomed_map !! x = W !! x.
Proof. intros. unfold doomed_map. by rewrite !lookup_insert_ne. Qed.

Lemma doomed_orphan : doomed_map = <[w:=set_w_handle 0 (orphan_window p r)]> (orphan_map w p r rp W).
Proof. unfold doomed_map, orphan_map. by rewrite insert_insert_eq. Qed.

Lemma doomed_handle x : handle_at doomed_map x = if decide (x = w) then 0 else handle_at W x.
Proof.
  unfold handle_at. destruct (decide (x = w)) as [->|Hx]; [by rewrite doomed_self|].
  destruct (decide (x = p)) as [->|Hxp]; [by rewrite doomed_parent, Hrp|by rewrite doomed_other].
Qed.

Lemma doomed_thread x : thread_at doomed_map x = thread_at W x.
Proof.
  unfold thread_at. destruct (decide (x = w)) as [->|Hx]; [by rewrite doomed_self, Hr|].
  destruct (decide (x = p)) as [->|Hxp]; [by rewrite doomed_parent, Hrp|by rewrite doomed_other].
Qed.

Lemma doomed_live x : live doomed_map x ↔ live W x ∧ x ≠ w.
Proof. unfold live. rewrite doomed_handle. destruct (decide (x = w)); naive_solver. Qed.

Lemma doomed_over : over doomed_map w.
Proof.
  pose proof Hf as [HW Hu Hz].
  pose proof (orphan_map_ok W w r rp HW Hr Hp Hrp Hu Hz) as [HW2 Hu2 Hz2].
  assert (Hself : orphan_map w p r rp W !! w = Some (orphan_window p r)) by apply lookup_insert_eq. split.
  - rewrite (dec_map_insert _ w _ doomed_self), doomed_orphan, insert_insert_eq. by apply (tree_ok_dead _ w (orphan_window p r)).
  - intros x rx Hx Hxw. rewrite doomed_orphan, lookup_insert_ne in Hx by done. by apply (Hu2 x).
  - intros x rx Hx. assert (Hrx : ∃ rx2, orphan_map w p r rp W !! x = Some rx2 ∧ w_children rx = w_children rx2).
    { rewrite doomed_orphan in Hx. destruct (decide (x = w)) as [->|Hxw]; [rewrite lookup_insert_eq in Hx; injection Hx as <-; eauto|].
      rewrite lookup_insert_ne in Hx by done. eauto. }
    destruct Hrx as (rx2 & Hrx2 & ->). eapply zordered_ext; [|by apply (Hz2 x)]. intros c _. unfold topmost_in. rewrite doomed_orphan.
    destruct (decide (c = w)) as [->|Hc]; [by rewrite lookup_insert_eq, Hself|by rewrite lookup_insert_ne].
Qed.

Lemma doomed_kids x rx c : doomed_map !! x = Some rx → c ∈ w_children rx → live doomed_map c.
Proof.
  pose proof (fo_tree _ Hf) as HW. intros Hx Hc. apply doomed_live.
  assert (∃ rx0, W !! x = Some rx0 ∧ c ∈ w_children rx0 ∧ (x = p → c ≠ w)) as (rx0 & Hrx0 & Hc0 & Hor).
  { destruct (decide (x = w)) as [->|Hxw]; [rewrite doomed_self in Hx; injection Hx as <-; exists r; split_and!; [done|done|]|].
    { intros E. by destruct finish_ne. }
    destruct (decide (x = p)) as [->|Hxp].
    - rewrite doomed_parent in Hx. injection Hx as <-. apply elem_of_remove_from in Hc as [Hc Hcw]. eauto.
    - rewrite doomed_other in Hx by done. exists rx. done. }
  split; [by eapply children_live|]. intros ->. destruct (t_children _ HW x rx0 w Hrx0 Hc0) as (r' & Hr' & E & _).
  simplify_eq. by apply Hor.
Qed.

Lemma doomed_killed : killed W doomed_map.
Proof.
  pose proof (fo_tree _ Hf) as HW. intros x rx' Hx.
  assert (Hfil : ∀ y ry, W !! y = Some ry → filter (live doomed_map) (w_children ry) = remove_from w (w_children ry)).
  { intros y ry Hy. apply filter_same. intros c Hc. rewrite doomed_live. split; [by intros []|]. intros Hcw. split; [|done].
    by apply (children_live W y ry). }
  destruct (decide (x = w)) as [->|Hxw].
  { rewrite doomed_self in Hx. injection Hx as <-. exists r. by split_and!. }
  destruct (decide (x = p)) as [->|Hxp].
  - rewrite doomed_parent in Hx. injection Hx as <-. exists rp. split_and!; [done|done|]. intros _. split; [by destruct rp|].
    cbn. symmetry. by apply (Hfil p).
  - rewrite doomed_other in Hx by done. exists rx'. split_and!; [done|done|]. intros _. split; [by destruct rx'|].
    rewrite (Hfil x) by done. rewrite remove_from_absent; [done|]. intros Hin.
    destruct (t_children _ HW x rx' w Hx Hin) as (r' & Hr' & E & _). congruence.
Qed.

Lemma doomed_threads T : threads_ok W T → w_thread r = 0 → threads_ok doomed_map T.
Proof.
  intros [A B] Hz. split.
  - intros x. rewrite doomed_thread. intros Hx. destruct (A x Hx) as [Hl Hs]. split; [|done].
    apply doomed_live. split; [done|]. intros ->. by rewrite (thread_at_lookup _ w r) in Hx.
  - intros t th Hth Htz. rewrite (owned_sum W); [by apply B|done|]. apply doomed_thread.
Qed.

Lemma doomed_desktops D : desktops_ok W D → desktops_ok doomed_map D.
Proof.
  intros [A B]. split.
  - intros x rx Hx. assert (∃ rx0, W !! x = Some rx0 ∧ w_desktop rx = w_desktop rx0) as (rx0 & Hrx0 & ->); [|by eapply A].
    destruct (decide (x = w)) as [->|Hxw]; [rewrite doomed_self in Hx; injection Hx as <-; by exists r|].
    destruct (decide (x = p)) as [->|Hxp]; [rewrite doomed_parent in Hx; injection Hx as <-; by exists rp|].
    rewrite doomed_other in Hx by done. by exists rx.
  - intros d y Hy. assert (Hk : ∀ z, root_ok W z → root_ok doomed_map z).
    { intros z [->|(rz & Hrz & Hhz & Hpz)]; [by left|right]. assert (z ≠ w) by congruence.
      destruct (decide (z = p)) as [->|Hzp]; [rewrite doomed_parent|rewrite doomed_other by done; eauto].
      assert (rz = rp) as -> by congruence. by eexists. }
    destruct (B d y Hy). auto.
Qed.
End finish.

(** What a destruction that ends the windows [D] does. *)
Definition destroys (s s' : wstate) (D : Z → Prop) : Prop :=
  ws_ok s' ∧ killed (windows s) (windows s') ∧ (∀ x, live (windows s) x → (live (windows s') x ↔ ¬ D x)) ∧
  nb_handles (users s') = nb_handles (users s) ∧ current s' = current s.

Lemma finish_tail_ok s w r : ws_ok s → windows s !! w = Some r → w_handle r ≠ 0 → w_parent r ≠ 0 → w_thread r = 0 →
  wp ((set_parent_window w 0 ;; ret tt) ;; with_users (free_user_handle (w_handle r)) ;; upd w (set_w_handle 0) ;; release_object w)
    (λ _ s', destroys s s' (λ x, x = w)) s.
Proof.
  intros [Hf Hh Ht Hd Ha] Hr Hlive Hp Hz. pose proof (fo_tree _ Hf) as HW.
  destruct (t_member _ HW w r Hr Hp) as (rp & Hrp & _).
  assert (Hw : live (windows s) w) by (apply live_lookup; eauto).
  apply wp_bind, wp_bind, (set_parent_null_ok s w r rp); [done..|]. apply wp_ret, wp_bind, wp_with_users. cbn [users set_windows].
  eapply wp_mono.
  { rewrite <-(handle_at_lookup (windows s) w r Hr). eapply (handles_free (windows s) (doomed_map (windows s) w r rp)); [done|done|].
    by apply doomed_handle. }
  cbv beta. intros _ u [Hh' Hnb]. apply wp_bind. eapply wp_upd; [apply lookup_insert_eq|].
  match goal with |- wp _ _ ?S1 => set (s1 := S1) end.
  assert (HW1 : windows s1 = doomed_map (windows s) w r rp) by (unfold s1; cbn; unfold orphan_map; by rewrite insert_insert_eq).
  eapply wp_mono; [eapply (release_window_object_ok s1 w)|].
  { rewrite HW1. by apply doomed_over. } { rewrite HW1. apply doomed_self. }
  { intros ->. by rewrite (t_null _ HW) in Hr. }
  cbv beta. rewrite HW1. intros _ s' (W' & c & -> & Hf' & Hsk).
  pose proof (doomed_threads (windows s) w r rp Hf Hr Hrp (threads s) Ht Hz) as Hth.
  pose proof (doomed_desktops (windows s) w r rp Hf Hr Hp Hrp (desktops s) Hd) as Hdk.
  split; [|split_and!].
  - split; cbn; [done| | | |done].
    + apply (handles_ok_ext (doomed_map (windows s) w r rp)); [|done]. intros x. by apply shrunk_handle.
    + apply (threads_ok_ext (doomed_map (windows s) w r rp)); [|intros x; by eapply shrunk_thread|done]. intros x. by apply shrunk_handle.
    + by apply (shrunk_desktops (doomed_map (windows s) w r rp)).
  - eapply killed_trans; [by apply (doomed_killed _ w r rp)|]. apply shrunk_killed; [|done]. intros x rx y. by apply doomed_kids.
  - intros x Hx. unfold live. cbn [windows set_windows set_win_calls]. rewrite (shrunk_handle _ W' x Hsk). fold (live (doomed_map (windows s) w r rp) x).
    rewrite doomed_live by done. tauto.
  - done.
  - done.
Qed.

(** A step that changes the desktops' shell windows, atoms and calls only. *)
Lemma destroys_from s s1 s' w r r1 D : windows s !! w = Some r → windows s1 = <[w:=r1]> (windows s) →
  w_parent r1 = w_parent r → w_handle r1 = w_handle r → D w → tree_ok (windows s) →
  nb_handles (users s1) = nb_handles (users s) → current s1 = current s → destroys s1 s' D → destroys s s' D.
Proof.
  intros Hr HW1 Ep Eh HD HW Hnb Hcur (Hok & HK & Hl & Hnb' & Hcur'). split; [done|].
  assert (Hlive : ∀ x, live (windows s1) x ↔ live (windows s) x).
  { intros x. unfold live. rewrite HW1, handle_insert. destruct (decide (x = w)) as [->|]; [|done].
    by rewrite Eh, (handle_at_lookup _ w r). }
  split_and!; [|intros x Hx; apply Hl; by apply Hlive|congruence|congruence].
  intros x rx' Hx. destruct (HK x rx' Hx) as (rx1 & Hrx1 & Epx & Hfr). rewrite HW1 in Hrx1.
  destruct (decide (x = w)) as [->|Hxw].
  - rewrite lookup_insert_eq in Hrx1. injection Hrx1 as <-. exists r. split_and!; [done|congruence|].
    intros Hh. assert (Hl' : live (windows s') w) by (apply live_lookup; eauto). exfalso.
    apply (proj1 (Hl w (killed_live _ _ w HK Hl')) Hl' HD).
  - rewrite lookup_insert_ne in Hrx1 by done. eauto.
Qed.

Lemma reset_global_windows_ok s w r : ws_ok s → windows s !! w = Some r →
  wp (reset_global_windows w) (λ _ s', ws_ok s' ∧ ∃ D, s' = set_desktops D s) s.
Proof.
  intros [A B C D E] Hr. unfold reset_global_windows, get_desktop, put_desktop. wp_read ltac:(done). wp_steps.
  destruct (dk_known _ _ D w r Hr) as [d Hd]. eapply wp_deref; [done|]. wp_steps. split; [|by eexists].
  split; cbn; try done. destruct D as [D1 D2]. split.
  - intros x rx Hx. destruct (decide (w_desktop rx = w_desktop r)) as [->|Hne]; [rewrite lookup_insert_eq; eauto|].
    rewrite lookup_insert_ne by done. by eapply D1.
  - intros d' y Hy. destruct (decide (d' = w_desktop r)) as [->|Hne].
    + rewrite lookup_insert_eq in Hy. injection Hy as <-. cbn. by apply (D2 (w_desktop r)).
    + rewrite lookup_insert_ne in Hy by done. by apply (D2 d').
Qed.

Lemma ws_ok_atoms s t : ws_ok s → atom_ok to_lower t → ws_ok (set_gatoms t s).
Proof. by intros [A B C D E] Ht. Qed.

Lemma finish_destroy_ok s w r : ws_ok s → windows s !! w = Some r → w_handle r ≠ 0 → w_parent r ≠ 0 →
  wp (finish_destroy w) (λ _ s', destroys s s' (λ x, x = w)) s.
Proof.
  intros Hs Hr Hlive Hp. unfold finish_destroy. apply wp_bind. eapply wp_mono; [by apply (reset_global_windows_ok s w r)|].
  intros _ s1 [Hs1 [D ->]]. wp_read ltac:(exact Hr). unfold emit. wp_steps. unfold destroy_properties.
  wp_read ltac:(exact Hr). eapply wp_mono; [apply release_properties_ok, Hs1|]. intros _ s2 (t & -> & Ht).
  apply wp_bind, (wp_mono _ (λ _ s', ∃ c, s' = set_win_calls c (set_gatoms t (set_desktops D s)))).
  { unfold leave_desktop. wp_read ltac:(exact Hr). rewrite (proj2 (Z.eqb_neq _ 0)) by done.
    destruct (t_member _ (fo_tree _ (ws_forest _ _ Hs)) w r Hr Hp) as (rp & Hrp & _). wp_read ltac:(exact Hrp).
    destruct (w_parent rp =? 0); unfold emit; wp_steps; by eexists. }
  intros _ s3 [c ->]. apply wp_bind.
  assert (Hs3 : ws_ok (set_win_calls c (set_gatoms t (set_desktops D s)))) by (by apply ws_ok_calls, ws_ok_atoms).
  eapply wp_mono; [by apply (detach_window_thread_ok _ w r)|].
  intros _ s4 (Hs4 & Hu & _ & _ & Hcur & cl & HW4). rewrite (proj2 (Z.eqb_neq _ 0)) by done. cbn in Hu, Hcur, HW4.
  set (r4 := set_w_thread 0 (set_w_class cl r)) in *. assert (Hr4 : windows s4 !! w = Some r4) by (rewrite HW4; apply lookup_insert_eq).
  eapply wp_mono; [by apply (finish_tail_ok s4 w r4)|]. cbv beta. intros _ s' Hd.
  eapply (destroys_from s s4 s' w r r4); [done|done|done|done|done|apply (fo_tree _ (ws_forest _ _ Hs))|by rewrite Hu|done|done].
Qed.

(** ** The windows that go *)

(** A child of the same thread, or of none, is destroyed with its parent. *)
Definition compat (rx ry : window) : Prop := w_thread rx = 0 ∨ w_thread ry = 0 ∨ w_thread rx = w_thread ry.

Inductive doomed (W : winmap) (c : Z) : Z → Prop :=
| doomed_here : doomed W c c
| doomed_child x y rx ry : doomed W c x → W !! x = Some rx → W !! y = Some ry → y ∈ w_children rx → compat rx ry → doomed W c y.

(** One level down. *)
Lemma doomed_unfold W c rc x : W !! c = Some rc →
  doomed W c x ↔ x = c ∨ ∃ d rd, W !! d = Some rd ∧ d ∈ w_children rc ∧ compat rc rd ∧ doomed W d x.
Proof.
  intros Hc. split.
  - induction 1 as [|x y rx ry Hx IH Hrx Hry Hin Hcp]; [by left|right]. destruct IH as [->|(d & rd & Hrd & Hd & Hcd & Hdx)].
    + simplify_eq. exists y, ry. split_and!; [done..|constructor].
    + exists d, rd. split_and!; [done..|]. by eapply doomed_child.
  - intros [->|(d & rd & Hrd & Hd & Hcd & Hdx)]; [constructor|].
    induction Hdx as [|x y rx ry Hx IH Hrx Hry Hin Hcp]; [|by eapply doomed_child].
    by apply (doomed_child W c c d rc rd (doomed_here W c)).
Qed.

Lemma doomed_under W c x : tree_ok W → rooted W c → c ≠ 0 → doomed W c x → under W c x.
Proof.
  intros HW Hc Hc0. induction 1 as [|x y rx ry Hx IH Hrx Hry Hin Hcp]; [by apply under_refl|].
  destruct (t_children _ HW x rx y Hrx Hin) as (ry' & Hry' & E & _). simplify_eq.
  eapply under_step; [|done|done]. intros ->. by rewrite (t_null _ HW) in Hry.
Qed.

Lemma doomed_is_live W c x : tree_ok W → live W c → doomed W c x → live W x.
Proof.
  intros HW Hc. induction 1 as [|x y rx ry Hx IH Hrx Hry Hin Hcp]; [done|]. by apply (children_live W x rx).
Qed.

(** Siblings have nothing in common below them. *)
Lemma doomed_disjoint W c d rc rd x : tree_ok W → W !! c = Some rc → W !! d = Some rd → w_parent rc = w_parent rd → c ≠ d →
  doomed W c x → ¬ doomed W d x.
Proof.
  intros HW Hc Hd Ep Hne Hcx Hdx.
  assert (c ≠ 0 ∧ d ≠ 0) as [Hc0 Hd0] by (split; intros ->; by rewrite (t_null _ HW) in *).
  apply doomed_under in Hcx; [|done|by eapply t_rooted|done]. apply doomed_under in Hdx; [|done|by eapply t_rooted|done].
  destruct (under_total W c d x Hcx Hdx) as [Hu|Hu].
  - apply (under_inv W c d rd Hd) in Hu as [?|Hu]; [done|]. rewrite <-Ep in Hu. by apply (not_under_parent W c rc Hc).
  - apply (under_inv W d c rc Hc) in Hu as [?|Hu]; [done|]. rewrite Ep in Hu. by apply (not_under_parent W d rd Hd).
Qed.

(** What a destruction leaves live keeps its own set of doomed windows. *)
Lemma doomed_stable W W' c x : tree_ok W → tree_ok W' → killed W W' → (∀ y, doomed W c y → live W' y) →
  doomed W' c x ↔ doomed W c x.
Proof.
  intros HW HW' HK Hl. split.
  - induction 1 as [|x y rx ry Hx IH Hrx Hry Hin Hcp]; [constructor|]. pose proof (Hl x IH) as Hlx.
    apply live_lookup in Hlx as (rx' & Hrx' & Hhx). simplify_eq.
    destruct (killed_lookup W W' x rx HK Hrx Hhx) as (rx0 & Hrx0 & Hfx & Hch). rewrite Hch in Hin.
    apply list_elem_of_filter in Hin as [Hly Hin]. apply live_lookup in Hly as (ry' & Hry' & Hhy). simplify_eq.
    destruct (killed_lookup W W' y ry HK Hry Hhy) as (ry0 & Hry0 & Hfy & _).
    eapply doomed_child; [done|done|done|done|]. unfold compat in *. rewrite Hfx, Hfy in Hcp. done.
  - induction 1 as [|x y rx ry Hx IH Hrx Hry Hin Hcp]; [constructor|].
    assert (Hly : live W' y) by (apply Hl; by eapply doomed_child).
    pose proof (Hl x Hx) as (rx' & Hrx' & Hhx)%live_lookup. pose proof Hly as (ry' & Hry' & Hhy)%live_lookup.
    destruct (killed_lookup W W' x rx' HK Hrx' Hhx) as (rx0 & Hrx0 & Hfx & Hch).
    destruct (killed_lookup W W' y ry' HK Hry' Hhy) as (ry0 & Hry0 & Hfy & _). simplify_eq.
    eapply doomed_child; [done|done|done| |unfold compat; by rewrite Hfx, Hfy]. rewrite Hch. by apply list_elem_of_filter.
Qed.
End destroy.

(** * Windows: destroying a tree of windows *)

(** ** Depth *)

Lemma killed_path W W' x l : killed W W' → path W' x l → path W x l.
Proof.
  intros HK. induction 1 as [|x r' l Hx Hr' Hl IH]; [constructor|]. destruct (HK x r' Hr') as (r & Hr & Ep & _).
  econstructor; [done|done|]. by rewrite <-Ep.
Qed.

(** The windows below [w] are at most [n - 1] levels down. *)
Definition deep (W : winmap) (w : Z) (n : nat) : Prop :=
  ∀ x lx lw, path W x lx → path W w lw → w ∈ lx → (length lx < length lw + n)%nat.

Lemma deep_killed W W' w n : killed W W' → deep W w n → deep W' w n.
Proof. intros HK Hd x lx lw Hx Hw Hin. apply (Hd x); [by eapply killed_path|by eapply killed_path|done]. Qed.

Lemma deep_child W w c rc n : W !! c = Some rc → w_parent rc = w → c ≠ 0 → w ≠ 0 → deep W w (S n) → deep W c n.
Proof.
  intros Hc Ep Hc0 Hw0 Hd x lx lc Hx Hlc Hin. destruct (path_rest W c rc lc Hlc Hc0 Hc) as (lw & -> & Hlw).
  rewrite Ep in Hlw. destruct (path_suffix W x lx c Hx Hin) as (l1 & l2 & -> & Hl2).
  rewrite (path_unique _ _ _ _ Hl2 Hlc) in *. specialize (Hd x _ lw Hx Hlw). simpl. rewrite length_app in *. simpl in *.
  enough (w ∈ l1 ++ c :: lw) by (specialize (Hd ltac:(done)); lia).
  apply elem_of_app. right. right. by apply (path_head W).
Qed.

Lemma deep_size W w : deep W w (base.size W).
Proof.
  intros x lx lw Hx Hw Hin. pose proof (path_length _ _ _ Hx). destruct lw; [|simpl; lia]. inversion Hw; subst.
  by destruct (path_nonzero _ _ _ Hx).
Qed.

(** A change of a window that keeps its parent. *)
Lemma deep_insert W w r r' x n : W !! w = Some r → w_parent r' = w_parent r → deep W x n → deep (<[w:=r']> W) x n.
Proof.
  intros Hr Ep Hd y ly lx Hy Hx Hin.
  assert (Hk : ∀ z l, path (<[w:=r']> W) z l → path W z l).
  { intros z l Hz. eapply path_ext; [done|]. intros v _. destruct (decide (v = w)) as [->|Hv]; [rewrite lookup_insert_eq, Hr; cbn; by rewrite Ep|].
    by rewrite lookup_insert_ne. }
  apply (Hd y); auto.
Qed.

(** ** Hiding *)

Lemma is_visible_ok s w l : path (windows s) w l → wp (is_visible w) (λ _ s', s' = s) s.
Proof.
  intros Hl. unfold is_visible, tree_fuel. wp_steps. apply path_length in Hl as Hn. revert Hn.
  generalize (base.size (windows s)) as n. induction Hl as [|w r l Hw Hr Hl IH]; intros n Hn.
  - destruct n; cbn [is_visible_loop]; rewrite Z.eqb_refl; by wp_steps.
  - destruct n as [|n]; [simpl in Hn; lia|]. cbn [is_visible_loop]. rewrite (proj2 (Z.eqb_neq w 0)) by done. wp_read ltac:(done).
    destruct (has (w_style r) WS_VISIBLE); cbn [negb]; [|by wp_steps].
    apply wp_bind, (wp_mono _ (λ _ s', s' = s)).
    { destruct (Z.eqb_spec (w_parent r) 0) as [E|E]; [by wp_steps|]. destruct (path_dom _ _ _ _ Hl (path_head _ _ _ Hl E)) as [rp Hrp].
      wp_read ltac:(done). by wp_steps. }
    intros m s' ->. destruct m; [by wp_steps|]. apply IH. simpl in Hn. lia.
Qed.

Section kill.
Context (to_lower : Z → Z).
Notation ws_ok := (ws_ok to_lower).
Notation destroys := (destroys to_lower).

Lemma hide_window_ok s w r : ws_ok s → windows s !! w = Some r →
  wp (hide_window w) (λ _ s', ws_ok s' ∧ users s' = users s ∧ current s' = current s ∧
    ∃ st, windows s' = <[w:=set_w_style st r]> (windows s)) s.
Proof.
  intros Hs Hr. destruct (t_rooted _ (fo_tree _ (ws_forest _ _ Hs)) w r Hr) as [l Hl]. unfold hide_window. apply wp_bind.
  eapply wp_mono; [by eapply is_visible_ok|]. cbv beta. intros v s' ->. destruct v.
  - wp_write ltac:(done). unfold emit. wp_steps. split_and!; [|done|done|by eexists]. by apply ws_ok_calls, (bland_ok _ s w r).
  - wp_steps. split_and!; [done..|]. exists (w_style r). rewrite insert_id; [done|]. rewrite Hr. by destruct r.
Qed.

(** ** Sequences of destructions *)

Lemma destroys_refl s : ws_ok s → destroys s s (λ _, False).
Proof. intros Hs. split; [done|]. split; [apply killed_refl, (fo_tree _ (ws_forest _ _ Hs))|]. split_and!; [tauto|done..]. Qed.

Lemma destroys_iff s s' (D D' : Z → Prop) : (∀ x, live (windows s) x → (D x ↔ D' x)) → destroys s s' D → destroys s s' D'.
Proof.
  intros HD (A & B & C & E & F). split; [done|]. split_and!; [done| |done..]. intros x Hx. rewrite <-HD by done. by apply C.
Qed.

Lemma destroys_trans s s1 s2 (D1 D2 : Z → Prop) : destroys s s1 D1 → destroys s1 s2 D2 → destroys s s2 (λ x, D1 x ∨ D2 x).
Proof.
  intros (A & B & C & E & F) (A' & B' & C' & E' & F'). split; [done|]. split_and!; [by eapply killed_trans| |congruence..].
  intros x Hx. specialize (C x Hx). destruct (decide (live (windows s1) x)) as [Hl|Hl].
  - rewrite (C' x Hl). tauto.
  - split; [|tauto]. intros Hl'. by destruct Hl; eapply killed_live.
Qed.

Lemma destroys_calls s s' D c : destroys s s' D → destroys s (set_win_calls c s') D.
Proof. intros (A & B). split; [by apply ws_ok_calls|done]. Qed.

(** A change of a window that the destruction does not read. *)
Lemma doomed_style W w r st c x : W !! w = Some r → doomed W c x ↔ doomed (<[w:=set_w_style st r]> W) c x.
Proof.
  intros Hr. assert (Hk : ∀ W1 W2, (∀ y r1, W1 !! y = Some r1 → ∃ r2, W2 !! y = Some r2 ∧ w_thread r2 = w_thread r1 ∧ w_children r2 = w_children r1) →
    doomed W1 c x → doomed W2 c x).
  { intros W1 W2 H12. induction 1 as [|x y rx ry Hx IH Hrx Hry Hin Hcp]; [constructor|].
    destruct (H12 x rx Hrx) as (rx2 & Hrx2 & Et & Ec). destruct (H12 y ry Hry) as (ry2 & Hry2 & Et' & _).
    eapply doomed_child; [done|done|done|by rewrite Ec|]. unfold compat in *. by rewrite Et, Et'. }
  split; apply Hk; intros y r1; destruct (decide (y = w)) as [->|Hy]; rewrite ?lookup_insert_eq, ?lookup_insert_ne by done; intros Hy1.
  - simplify_eq. by eexists.
  - eauto.
  - simplify_eq. by exists r.
  - eauto.
Qed.

(** ** The passes over the children *)

(** The windows that go with the children [l] of a window of contents [r]. *)
Definition doomed_in (W : winmap) (r : window) (l : list Z) (x : Z) : Prop :=
  ∃ c rc, c ∈ l ∧ W !! c = Some rc ∧ compat r rc ∧ doomed W c x.

Lemma compat_spec r rc : (w_thread r =? 0) || (w_thread rc =? 0) || (w_thread r =? w_thread rc) = true ↔ compat r rc.
Proof. unfold compat. rewrite !orb_true_iff, !Z.eqb_eq. tauto. Qed.

(** After the child [c], the others are as they were. *)
Lemma after_child s s1 w r c l1 l2 : ws_ok s → windows s !! w = Some r → w_handle r ≠ 0 → w_children r = l1 ++ c :: l2 →
  ws_ok s1 → killed (windows s) (windows s1) → (∀ x, live (windows s) x → ¬ doomed (windows s) c x → live (windows s1) x) →
  ∃ r1 l1', windows s1 !! w = Some r1 ∧ frame r r1 ∧ w_handle r1 ≠ 0 ∧ w_children r1 = l1' ++ l2 ∧
    (∀ d rd x, d ∈ l2 → windows s !! d = Some rd → (doomed (windows s1) d x ↔ doomed (windows s) d x) ∧
      ∃ rd1, windows s1 !! d = Some rd1 ∧ frame rd rd1).
Proof.
  intros Hs Hr Hh Ec Hs1 HK Hl. pose proof (fo_tree _ (ws_forest _ _ Hs)) as HW. pose proof (fo_tree _ (ws_forest _ _ Hs1)) as HW1.
  assert (Hw0 : w ≠ 0) by (intros ->; by rewrite (t_null _ HW) in Hr).
  destruct (t_children _ HW w r c Hr) as (rc & Hrc & Epc & _); [rewrite Ec; set_solver|].
  assert (Hc0 : c ≠ 0) by (intros ->; by rewrite (t_null _ HW) in Hrc).
  destruct (t_nodup _ HW w r Hr) as [Hnd _]. rewrite Ec in Hnd. apply NoDup_app in Hnd as (_ & _ & Hnd). apply NoDup_cons in Hnd as [Hc2 _].
  assert (Hsib : ∀ d rd x, d ∈ l2 → windows s !! d = Some rd → doomed (windows s) d x → live (windows s1) x).
  { intros d rd x Hd Hrd Hx. destruct (t_children _ HW w r d Hr) as (rd' & Hrd' & Epd & _); [rewrite Ec; set_solver|]. simplify_eq.
    apply Hl; [apply (doomed_is_live (windows s) d); [done| |done]|].
    - apply (children_live _ (w_parent rc) r); [done|done|]. rewrite Ec. set_solver.
    - intros Hcx. by apply (doomed_disjoint (windows s) c d rc rd x); [| | | |intros ->|..]. }
  assert (Hlw : live (windows s1) w).
  { apply Hl; [apply live_lookup; eauto|]. intros Hcw. apply doomed_under in Hcw; [|done|by eapply t_rooted|done].
    apply (not_under_parent (windows s) c rc Hrc). by rewrite Epc. }
  apply live_lookup in Hlw as (r1 & Hr1 & Hh1). destruct (killed_lookup _ _ w r1 HK Hr1 Hh1) as (r' & Hr' & Hf & Ec1). simplify_eq.
  exists r1, (filter (live (windows s1)) (l1 ++ [c])). split_and!; [done|done|done| |].
  - rewrite Ec1, Ec. replace (l1 ++ c :: l2) with ((l1 ++ [c]) ++ l2) by (by rewrite <-app_assoc). rewrite filter_app. f_equal.
    apply filter_all_live. intros d Hd. destruct (t_children _ HW (w_parent rc) r d Hr) as (rd & Hrd & _); [rewrite Ec; set_solver|].
    apply (Hsib d rd d); [done|done|constructor].
  - intros d rd x Hd Hrd. split; [apply doomed_stable; [done..|]; intros y; by apply (Hsib d rd)|].
    pose proof (Hsib d rd d Hd Hrd (doomed_here _ _)) as (rd1 & Hrd1 & Hhd)%live_lookup. exists rd1. split; [done|].
    destruct (killed_lookup _ _ d rd1 HK Hrd1 Hhd) as (rd' & Hrd' & ? & _). by simplify_eq.
Qed.

Section pass.
Context (free : Z → WM unit) (n : nat).
Context (Hfree : ∀ s c r, ws_ok s → windows s !! c = Some r → w_handle r ≠ 0 → w_parent r ≠ 0 → deep (windows s) c n →
  wp (free c) (λ _ s', destroys s s' (doomed (windows s) c)) s).

Lemma destroy_children_ok s w r l1 l2 k : ws_ok s → windows s !! w = Some r → w_handle r ≠ 0 → w_children r = l1 ++ l2 →
  (length l2 ≤ k)%nat → deep (windows s) w (S n) →
  wp (destroy_children free k w (head l2)) (λ _ s', destroys s s' (doomed_in (windows s) r l2)) s.
Proof.
  revert s r l1 k. induction l2 as [|c l2 IH]; intros s r l1 k Hs Hr Hh Ec Hk Hdeep.
  { destruct k; cbn; apply wp_ret; (eapply destroys_iff; [|by apply destroys_refl]); intros x _; unfold doomed_in; set_solver. }
  destruct k as [|k]; [simpl in Hk; lia|]. pose proof (fo_tree _ (ws_forest _ _ Hs)) as HW.
  destruct (t_children _ HW w r c Hr) as (rc & Hrc & Epc & Elc); [rewrite Ec; set_solver|].
  assert (Hw0 : w ≠ 0) by (intros ->; by rewrite (t_null _ HW) in Hr). assert (Hc0 : c ≠ 0) by (intros ->; by rewrite (t_null _ HW) in Hrc).
  pose proof (t_live _ HW c rc Hrc Elc) as Hhc. destruct (t_nodup _ HW w r Hr) as [Hnd _].
  assert (Hc1 : c ∉ l1) by (rewrite Ec in Hnd; apply NoDup_app in Hnd as (_ & Hnd & _); intros Hin; apply (Hnd c Hin); by left).
  cbn [head destroy_children]. unfold next_child. apply wp_bind. wp_read ltac:(done). wp_read ltac:(done).
  rewrite decide_True by (rewrite (t_entry _ HW c rc Hrc); unfold home; by rewrite Epc, (proj2 (Z.eqb_neq w 0)), Elc).
  rewrite Ec, next_in_split by done. apply wp_ret. wp_read ltac:(done). wp_read ltac:(done). rewrite (proj2 (Z.eqb_neq _ 0)) by done.
  apply wp_bind, (wp_mono _ (λ _ s1, destroys s s1 (λ x, compat r rc ∧ doomed (windows s) c x))).
  - destruct (_ || _) eqn:Hcp.
    + apply compat_spec in Hcp. eapply wp_mono; [eapply (Hfree s c rc); [done|done|done|by rewrite Epc|by eapply deep_child]|].
      cbv beta. intros _ s1. apply destroys_iff. tauto.
    + assert (¬ compat r rc) by (rewrite <-compat_spec; congruence). unfold emit. wp_steps.
      apply destroys_calls. eapply destroys_iff; [|by apply destroys_refl]. tauto.
  - intros _ s1 Hd1. pose proof Hd1 as (Hs1 & HK & Hl & _).
    destruct (after_child s s1 w r c l1 l2) as (r1 & l1' & Hr1 & Hf & Hh1 & Ec1 & Hsib); [done..| |].
    { intros x Hx Hnd'. apply Hl; tauto. }
    eapply wp_mono; [apply (IH s1 r1 l1' k); [done|done|done|done|simpl in Hk; lia|by eapply deep_killed]|]. cbv beta. intros _ s2 Hd2.
    eapply destroys_iff; [|by eapply destroys_trans]. intros x Hx. unfold doomed_in. split.
    + intros [[Hcp Hcx]|(d & rd1 & Hd & Hrd1 & Hcp & Hdx)]; [exists c, rc; set_solver|].
      destruct (HK d rd1 Hrd1) as (rd & Hrd & _). destruct (Hsib d rd x Hd Hrd) as [Hiff (rd' & Hrd' & Hfd)].
      exists d, rd. split_and!; [by right|done| |by apply Hiff]. simplify_eq. unfold compat in *. by rewrite Hf, Hfd in Hcp.
    + intros (d & rd & Hd & Hrd & Hcp & Hdx). apply elem_of_cons in Hd as [->|Hd]; [left; by simplify_eq|right].
      destruct (Hsib d rd x Hd Hrd) as [Hiff (rd1 & Hrd1 & Hfd)]. exists d, rd1. split_and!; [done|done| |by apply Hiff].
      unfold compat in *. by rewrite Hf, Hfd.
Qed.

(** A whole pass. *)
Lemma destroy_pass_ok s w r : ws_ok s → windows s !! w = Some r → w_handle r ≠ 0 → deep (windows s) w (S n) →
  wp (destroy_pass free w) (λ _ s', destroys s s' (doomed_in (windows s) r (w_children r))) s.
Proof.
  intros Hs Hr Hh Hd. unfold destroy_pass. wp_read ltac:(done). by apply (destroy_children_ok s w r [] (w_children r)).
Qed.
End pass.

(** What a pass leaves: the window, with the children of other threads. *)
Lemma after_pass s s1 w r : ws_ok s → windows s !! w = Some r → w_handle r ≠ 0 →
  destroys s s1 (doomed_in (windows s) r (w_children r)) →
  ∃ r1, windows s1 !! w = Some r1 ∧ frame r r1 ∧ w_handle r1 ≠ 0 ∧
    ∀ x, ¬ doomed_in (windows s1) r1 (w_children r1) x.
Proof.
  intros Hs Hr Hh (Hs1 & HK & Hl & _). pose proof (fo_tree _ (ws_forest _ _ Hs)) as HW.
  assert (Hw : live (windows s1) w).
  { apply Hl; [apply live_lookup; eauto|]. intros (c & rc & Hc & Hrc & _ & Hcw).
    apply doomed_under in Hcw; [|done|by eapply t_rooted|intros ->; by rewrite (t_null _ HW) in Hrc].
    destruct (t_children _ HW w r c Hr Hc) as (rc' & Hrc' & Ep & _). simplify_eq. by eapply (not_under_parent (windows s) c). }
  apply live_lookup in Hw as (r1 & Hr1 & Hh1). exists r1. destruct (killed_lookup _ _ w r1 HK Hr1 Hh1) as (r' & Hr' & Hf & Ec). simplify_eq.
  split_and!; [done..|]. intros x (c & rc1 & Hc & Hrc1 & Hcp & _). rewrite Ec in Hc. apply list_elem_of_filter in Hc as [Hlc Hc].
  apply live_lookup in Hlc as (rc' & Hrc' & Hhc). assert (rc' = rc1) as -> by congruence.
  destruct (killed_lookup _ _ c rc1 HK Hrc1 Hhc) as (rc & Hrc & Hfc & _).
  refine (proj1 (Hl c _) _ _); [by apply (children_live (windows s) w r)|apply live_lookup; eauto|]. exists c, rc. split_and!; [done|done| |constructor].
  unfold compat in *. by rewrite Hf, Hfc in Hcp.
Qed.

Lemma free_window_handle_ok n s w r : ws_ok s → windows s !! w = Some r → w_handle r ≠ 0 → w_parent r ≠ 0 →
  deep (windows s) w n → wp (free_window_handle n w) (λ _ s', destroys s s' (doomed (windows s) w)) s.
Proof.
  revert s w r. induction n as [|n IH]; intros s w r Hs Hr Hh Hp Hdeep.
  { pose proof (fo_tree _ (ws_forest _ _ Hs)) as HW. destruct (t_rooted _ HW w r Hr) as [l Hl].
    specialize (Hdeep w l l Hl Hl). rewrite Nat.add_0_r in Hdeep. destruct (Nat.lt_irrefl (length l)). apply Hdeep, (path_head (windows s)); [done|].
    intros ->. by rewrite (t_null _ HW) in Hr. }
  cbn [free_window_handle]. wp_read ltac:(done). apply wp_bind, wp_assert; [by rewrite (proj2 (Z.eqb_neq _ 0))|]. apply wp_bind.
  eapply wp_mono; [by apply (hide_window_ok s w r)|]. cbv beta. intros _ s0 (Hs0 & Hu0 & Hcur0 & st & HW0).
  set (r0 := set_w_style st r) in *. assert (Hr0 : windows s0 !! w = Some r0) by (rewrite HW0; apply lookup_insert_eq).
  assert (Hdeep0 : deep (windows s0) w (S n)) by (rewrite HW0; by eapply deep_insert).
  apply wp_bind. eapply wp_mono; [by apply (destroy_pass_ok _ n IH s0 w r0)|]. cbv beta. intros _ s1 Hd1.
  destruct (after_pass s0 s1 w r0 Hs0 Hr0 Hh Hd1) as (r1 & Hr1 & Hf1 & Hh1 & Hnone). destruct (Hd1) as (Hs1 & HK1 & _).
  apply wp_bind. eapply wp_mono; [apply (destroy_pass_ok _ n IH s1 w r1); [done..|by eapply deep_killed]|]. cbv beta. intros _ s2 Hd2.
  destruct (after_pass s1 s2 w r1 Hs1 Hr1 Hh1 Hd2) as (r2 & Hr2 & Hf2 & Hh2 & _). destruct (Hd2) as (Hs2 & _).
  eapply wp_mono; [apply (finish_destroy_ok to_lower s2 w r2); [done..|by rewrite Hf2, Hf1]|]. cbv beta. intros _ s' Hd3.
  eapply (destroys_from to_lower s s0 s' w r r0); [done|done|done|done|constructor|apply (fo_tree _ (ws_forest _ _ Hs))|by rewrite Hu0|done|].
  eapply destroys_iff; [|exact (destroys_trans _ _ _ _ _ (destroys_trans _ _ _ _ _ Hd1 Hd2) Hd3)]. intros x _. cbv beta.
  rewrite (doomed_style (windows s) w r st w x Hr). fold r0. rewrite <-HW0, (doomed_unfold (windows s0) w r0 x Hr0). unfold doomed_in in *.
  specialize (Hnone x). split; [intros [[(c & rc & ?)|?]|?]; [right; exists c, rc; tauto|done|by left]|].
  intros [?|(c & rc & ?)]; [by right|]. left. left. exists c, rc. tauto.
Qed.

Lemma destroy_window_ok s w r : ws_ok s → windows s !! w = Some r → w_handle r ≠ 0 → w_parent r ≠ 0 →
  wp (destroy_window w) (λ _ s', destroys s s' (doomed (windows s) w)) s.
Proof.
  intros Hs Hr Hh Hp. unfold destroy_window, tree_fuel. wp_steps. eapply free_window_handle_ok; [done..|apply deep_size].
Qed.
End kill.
