(* ===== verification/WindowThread.v ===== *)
(** * Windows: the end of a thread

    [next_user_handle] walks the handle table in order, and
    [destroy_thread_windows] ends every window of a thread, and the windows that
    go with them, although each destruction changes the table the walk is on. *)

From stdpp Require Import base list gmap fin_maps.
From S2P Require Import Prelude Atom AtomThms UserHandle UserHandleThms Region Window WindowOps.
From S2P Require Import WindowTree WindowLink WindowParent WindowInv WindowDestroy.

Open Scope Z_scope.
Open Scope server_scope.

(** ** The walk over the handles *)

(** The first entry after a handle. *)
Definition after_handle (h : Z) : Z := if h =? 0 then 0 else handle_index h + 1.

(** The first entry of a type from entry [i] on. *)
Definition first_from (u : user_state) (i ty : Z) (o : option Z) : Prop :=
  match o with
  | Some j => i <= j < nb_handles u ∧ ∃ e, entry_of u j = Some e ∧ ue_type e = ty
  | None => ∀ j e, i <= j < nb_handles u → entry_of u j = Some e → ue_type e ≠ ty
  end ∧ ∀ j e, i <= j → j < default (nb_handles u) o → entry_of u j = Some e → ue_type e ≠ ty.

Lemma next_entry_ok u n i ty : uh_ok u → 0 <= i → nb_handles u - i <= Z.of_nat n → ty ≠ 0 →
  wp (next_entry n i ty) (λ o u', u' = u ∧ first_from u i ty o) u.
Proof.
  intros Hu Hi Hn Hty. revert i Hi Hn. induction n as [|n IH]; intros i Hi Hn; cbn [next_entry]; wp_steps.
  all: destruct (Z.leb_spec (nb_handles u) i); [wp_steps; split; [done|]; split; intros; cbn in *; lia|].
  { lia. }
  pose proof (uo_nb _ Hu). destruct (entry_of_some u i Hu) as [e He]; [lia|]. wp_steps. eapply wp_get_user_entry; [done|].
  rewrite (proj2 (Z.eqb_neq ty 0)) by done. cbn [orb]. destruct (Z.eqb_spec (ue_type e) ty) as [E|E].
  - wp_steps. split; [done|]. split; [|intros; cbn in *; lia]. split; [lia|]. eauto.
  - eapply wp_mono; [apply IH; lia|]. cbv beta. intros o u' [-> [Ho Hlow]]. split; [done|].
    assert (Hlow' : ∀ j e', i <= j → j < default (nb_handles u) o → entry_of u j = Some e' → ue_type e' ≠ ty).
    { intros j e' Hj Hj2 Hj3. destruct (decide (j = i)) as [->|]; [congruence|]. apply (Hlow j); [lia|done|done]. }
    split; [|done]. destruct o as [j|]; [destruct Ho as [? ?]; split; [lia|done]|]. intros j e' [Hj1 Hj2]. by apply Hlow'.
Qed.

(** [next_user_handle]: the next object of a type, with its handle. *)
Lemma next_user_handle_ok u h ty : uh_ok u → ty ≠ 0 → 0 <= after_handle h <= nb_handles u →
  wp (next_user_handle h ty) (λ p u', u' = u ∧ ∃ o, first_from u (after_handle h) ty o ∧
    match o with
    | None => p = (0, h)
    | Some i => ∃ e w, entry_of u i = Some e ∧ object_of u i = Some w ∧ p = (w, entry_handle i (ue_generation e))
    end) u.
Proof.
  intros Hu Hty Hpos. unfold next_user_handle. wp_steps.
  apply (wp_mono _ (λ o u', u' = u ∧ first_from u (after_handle h) ty o)).
  { unfold after_handle in *. destruct (h =? 0); [apply next_entry_ok; [done|lia|lia|done]|].
    destruct (Z.ltb_spec (handle_index h) 0) as [Hlt|Hlt]; cbn [orb].
    { unfold handle_index in Hlt. rewrite Z.shiftr_div_pow2 in Hlt by lia.
      pose proof (Z.mod_pos_bound (Z.land h 0xffff - FIRST_USER_HANDLE) 4294967296). unfold w32 in Hlt.
      pose proof (Z.div_pos ((Z.land h 0xffff - FIRST_USER_HANDLE) mod 4294967296) (2 ^ 1)). lia. }
    destruct (Z.leb_spec (nb_handles u) (handle_index h)); [lia|]. apply next_entry_ok; [done|lia|lia|done]. }
  intros o u' [-> Ho]. destruct o as [i|]; [|wp_steps; split; [done|]; by exists None].
  pose proof Ho as [[Hi (e & He & Hety)] _]. unfold entry_to_handle, get_server_object. wp_steps.
  eapply wp_get_user_entry; [done|]. wp_steps. pose proof (uo_objects _ Hu). pose proof (uo_nb _ Hu).
  destruct (lookup_lt_is_Some_2 (server_objects u) (Z.to_nat i)) as [w Hw]; [lia|]. eapply wp_arr_get; [lia|done|]. wp_steps.
  split; [done|]. exists (Some i). split; [done|]. exists e, w. split_and!; [done| |done].
  unfold object_of. by rewrite (proj2 (Z.leb_le 0 i)) by lia.
Qed.

(** ** The windows that go with a thread *)

Definition thread_doomed (W : winmap) (t x : Z) : Prop :=
  ∃ w r, W !! w = Some r ∧ w_thread r = t ∧ w_parent r ≠ 0 ∧ doomed W w x.

(** Windows below a window that has a parent have one. *)
Lemma doomed_parented W c x r : tree_ok W → W !! c = Some r → w_parent r ≠ 0 → doomed W c x →
  ∃ rx, W !! x = Some rx ∧ w_parent rx ≠ 0.
Proof.
  intros HW Hc Hp. induction 1 as [|x y rx ry Hx IH Hrx Hry Hin Hcp]; [eauto|]. exists ry. split; [done|].
  destruct (t_children _ HW x rx y Hrx Hin) as (ry' & Hry' & E & _). simplify_eq. intros E. by rewrite E, (t_null _ HW) in Hrx.
Qed.

(** The threads of the windows that have a parent, and the lists, decide. *)
Lemma doomed_same W W' c x r : tree_ok W → W !! c = Some r → w_parent r ≠ 0 →
  (∀ y ry, W !! y = Some ry → w_parent ry ≠ 0 → ∃ ry', W' !! y = Some ry' ∧ w_thread ry' = w_thread ry ∧ w_children ry' = w_children ry) →
  doomed W c x → doomed W' c x.
Proof.
  intros HW Hc Hp Hsame. induction 1 as [|x y rx ry Hx IH Hrx Hry Hin Hcp]; [constructor|].
  destruct (doomed_parented W c x r HW Hc Hp Hx) as (rx' & Hrx' & Hpx).
  destruct (doomed_parented W c y r HW Hc Hp) as (ry' & Hry' & Hpy); [exact (doomed_child W c x y rx ry Hx Hrx Hry Hin Hcp)|].
  assert (rx' = rx) as -> by congruence. assert (ry' = ry) as -> by congruence.
  destruct (Hsame x _ Hrx Hpx) as (rx2 & Hrx2 & Et & Ec). destruct (Hsame y _ Hry Hpy) as (ry2 & Hry2 & Et' & _).
  eapply doomed_child; [done|done|done|by rewrite Ec|]. unfold compat in *. by rewrite Et, Et'.
Qed.

Section thread.
Context (to_lower : Z → Z).
Notation ws_ok := (ws_ok to_lower).
Notation destroys := (destroys to_lower).

Definition tree_of s (Hs : ws_ok s) : tree_ok (windows s) := fo_tree _ (ws_forest _ _ Hs).

(** What is doomed later was doomed before. *)
Lemma doomed_back W W' c x : tree_ok W' → killed W W' → live W' c → doomed W' c x → doomed W c x.
Proof.
  intros HW' HK Hc. induction 1 as [|x y rx ry Hx IH Hrx Hry Hin Hcp]; [constructor|].
  pose proof (doomed_is_live W' c x HW' Hc Hx) as (rx' & Hrx' & Hhx)%live_lookup. assert (rx' = rx) as -> by congruence.
  pose proof (children_live W' x rx y HW' Hrx Hin) as (ry' & Hry' & Hhy)%live_lookup. assert (ry' = ry) as -> by congruence.
  destruct (killed_lookup W W' x rx HK Hrx Hhx) as (rx0 & Hrx0 & Hfx & Hch). rewrite Hch in Hin.
  apply list_elem_of_filter in Hin as [_ Hin]. destruct (killed_lookup W W' y ry HK Hry Hhy) as (ry0 & Hry0 & Hfy & _).
  eapply doomed_child; [done|done|done|done|]. unfold compat in *. by rewrite Hfx, Hfy in Hcp.
Qed.

(** After one of the windows of the thread is destroyed, the others are still to
    go. *)
Lemma thread_doomed_step s s' w r x : ws_ok s → windows s !! w = Some r → w_thread r ≠ 0 → w_parent r ≠ 0 →
  destroys s s' (doomed (windows s) w) → live (windows s) x →
  live (windows s') x ∧ ¬ thread_doomed (windows s') (w_thread r) x ↔ ¬ thread_doomed (windows s) (w_thread r) x.
Proof.
  intros Hs Hr Ht Hp (Hs' & HK & Hl & _) Hx. split.
  - intros [Hx' Hnot] (c & rc & Hrc & Etc & Hpc & Hcx). apply Hnot. clear Hnot Hx.
    assert (Hc : live (windows s') c ∧ doomed (windows s') c x).
    { assert (Hcl : live (windows s) c).
      { apply (th_known _ _ (ws_threads _ _ Hs) c). by rewrite (thread_at_lookup _ c rc), Etc. }
      induction Hcx as [|x y rx ry Hcx IH Hrx Hry Hin Hcp]; [split; [done|constructor]|].
      assert (Hlx : live (windows s') x).
      { apply Hl; [by apply (doomed_is_live _ c); [apply tree_of| |]|]. intros Hwx.
        apply (proj1 (Hl y (children_live _ x rx y (tree_of s Hs) Hrx Hin)) Hx'). by eapply doomed_child. }
      destruct (IH Hlx) as [Hc Hd]. split; [done|].
      apply live_lookup in Hlx as (rx' & Hrx' & Hhx). destruct (killed_lookup _ _ x rx' HK Hrx' Hhx) as (rx0 & Hrx0 & Hfx & Hch).
      assert (rx0 = rx) as -> by congruence.
      pose proof Hx' as (ry' & Hry' & Hhy)%live_lookup. destruct (killed_lookup _ _ y ry' HK Hry' Hhy) as (ry0 & Hry0 & Hfy & _).
      assert (ry0 = ry) as -> by congruence.
      eapply doomed_child; [done|done|done| |unfold compat; by rewrite Hfx, Hfy]. rewrite Hch. by apply list_elem_of_filter. }
    destruct Hc as [Hc Hd]. apply live_lookup in Hc as (rc' & Hrc' & Hhc). destruct (killed_lookup _ _ c rc' HK Hrc' Hhc) as (rc0 & Hrc0 & Hfc & _).
    assert (rc0 = rc) as -> by congruence. exists c, rc'. split_and!; [done|by rewrite Hfc|by rewrite Hfc|done].
  - intros Hnot. split; [apply Hl; [done|]; intros Hwx; apply Hnot; by exists w, r|].
    intros (c & rc & Hrc & Etc & Hpc & Hcx). apply Hnot.
    assert (Hc : live (windows s') c).
    { apply (th_known _ _ (ws_threads _ _ Hs') c). by rewrite (thread_at_lookup _ c rc), Etc. }
    destruct (HK c rc Hrc) as (rc0 & Hrc0 & Ep & Hfr). destruct Hfr as [Hfc _].
    { apply live_lookup in Hc as (? & ? & ?). congruence. }
    exists c, rc0. split_and!; [done|by rewrite Hfc in Etc|congruence|]. by apply (doomed_back _ (windows s')); [apply tree_of| | |].
Qed.
(** Detaching a desktop window changes nothing for the others. *)
Lemma thread_doomed_detach W w r c t x : t ≠ 0 → tree_ok W → W !! w = Some r → w_parent r = 0 →
  tree_ok (<[w:=set_w_thread 0 (set_w_class c r)]> W) →
  thread_doomed (<[w:=set_w_thread 0 (set_w_class c r)]> W) t x ↔ thread_doomed W t x.
Proof.
  intros Ht HW Hr Hp HW'. set (r' := set_w_thread 0 (set_w_class c r)) in *. split; intros (y & ry & Hy & Ety & Hpy & Hd).
  - assert (y ≠ w) by (intros ->; rewrite lookup_insert_eq in Hy; injection Hy as <-; done).
    rewrite lookup_insert_ne in Hy by done. exists y, ry. split_and!; [done..|].
    eapply (doomed_same (<[w:=r']> W) W); [done|by rewrite lookup_insert_ne|done| |done].
    intros z rz Hz Hpz. assert (z ≠ w) by (intros ->; rewrite lookup_insert_eq in Hz; injection Hz as <-; done).
    rewrite lookup_insert_ne in Hz by done. eauto.
  - assert (y ≠ w) by (intros ->; congruence). exists y, ry. rewrite lookup_insert_ne by done. split_and!; [done..|].
    eapply (doomed_same W); [done|done|done| |done]. intros z rz Hz Hpz. assert (z ≠ w) by (intros ->; congruence).
    rewrite lookup_insert_ne by done. eauto.
Qed.

(** ** The loop *)

Definition index_at (W : winmap) (x : Z) : Z := handle_index (handle_at W x).

Lemma owns_index u i h w : uh_ok u → owns u i h w → handle_index h = i ∧ after_handle h = i + 1 ∧ h ≠ 0.
Proof.
  intros Hu (e & Hi & He & _ & -> & _). pose proof (uo_nb _ Hu). pose proof (uo_gen _ Hu i e Hi He).
  destruct (entry_handle_parts i (ue_generation e)) as [E _]; [lia|lia|].
  assert (Hne : entry_handle i (ue_generation e) ≠ 0) by (rewrite entry_handle_eq by lia; unfold FIRST_USER_HANDLE; lia).
  unfold after_handle. rewrite (proj2 (Z.eqb_neq _ 0)), E by done. done.
Qed.

(** What ending the windows of a thread does. *)
Definition ends_thread (s s' : wstate) (t : Z) : Prop :=
  ws_ok s' ∧ (∀ x, thread_at (windows s') x ≠ t) ∧ nb_handles (users s') = nb_handles (users s) ∧
  (∀ x, live (windows s') x → live (windows s) x) ∧
  (∀ x, live (windows s) x → (live (windows s') x ↔ ¬ thread_doomed (windows s) t x)).

(** One round of the loop. *)
Lemma thread_step_ok s t w r : t ≠ 0 → ws_ok s → windows s !! w = Some r → w_handle r ≠ 0 →
  wp (if negb (w_thread r =? t) then ret tt else if w_parent r =? 0 then detach_window_thread w else destroy_window w)
    (λ _ s', ws_ok s' ∧ nb_handles (users s') = nb_handles (users s) ∧ thread_at (windows s') w ≠ t ∧
      (∀ x, thread_at (windows s') x = t → thread_at (windows s) x = t ∧ handle_at (windows s') x = handle_at (windows s) x) ∧
      (∀ x, live (windows s') x → live (windows s) x) ∧
      ∀ x, live (windows s) x →
        (live (windows s') x ∧ ¬ thread_doomed (windows s') t x ↔ ¬ thread_doomed (windows s) t x)) s.
Proof.
  intros Ht Hs Hr Hh. destruct (Z.eqb_spec (w_thread r) t) as [E|E]; cbn [negb].
  2:{ wp_steps. split_and!; [done|done|by rewrite (thread_at_lookup _ w r)|done|done|tauto]. }
  destruct (Z.eqb_spec (w_parent r) 0) as [Ep|Ep].
  - eapply wp_mono; [by apply (detach_window_thread_ok to_lower s w r)|]. cbv beta. intros _ s' (Hs' & Hu & _ & _ & _ & c & HW').
    assert (HT : ∀ x, thread_at (windows s') x = t → thread_at (windows s) x = t ∧ handle_at (windows s') x = handle_at (windows s) x).
    { intros x. rewrite HW', thread_insert, handle_insert. destruct (decide (x = w)) as [->|]; cbn; [|done]. congruence. }
    assert (HL : ∀ x, live (windows s') x ↔ live (windows s) x).
    { intros x. unfold live. rewrite HW', handle_insert. destruct (decide (x = w)) as [->|]; [|done]. by rewrite (handle_at_lookup _ w r). }
    split_and!; [done|by rewrite Hu| |done|intros x; apply HL|].
    + rewrite HW', thread_insert, decide_True by done. done.
    + intros x Hx. rewrite HL, HW', thread_doomed_detach; [tauto|done|by apply tree_of|done|done|]. rewrite <-HW'. by apply tree_of.
  - eapply wp_mono; [by apply (destroy_window_ok to_lower s w r)|]. cbv beta. intros _ s' Hd. pose proof Hd as (Hs' & HK & Hl & Hnb & _).
    assert (HT : ∀ x, thread_at (windows s') x = t → live (windows s') x ∧ thread_at (windows s) x = t ∧ handle_at (windows s') x = handle_at (windows s) x).
    { intros x Hx. destruct (th_known _ _ (ws_threads _ _ Hs') x) as [Hlx _]; [by rewrite Hx|]. split; [done|].
      apply live_lookup in Hlx as (rx' & Hrx' & Hhx). destruct (killed_lookup _ _ x rx' HK Hrx' Hhx) as (rx & Hrx & Hf & _).
      rewrite (thread_at_lookup _ x rx'), Hf in Hx by done. rewrite (thread_at_lookup _ x rx), (handle_at_lookup _ x rx'), (handle_at_lookup _ x rx), Hf by done.
      done. }
    split_and!; [done|done| |by apply HT|intros x; by apply killed_live|].
    + intros Hw. destruct (HT w Hw) as [Hlw _]. apply (proj1 (Hl w ltac:(apply live_lookup; eauto)) Hlw). constructor.
    + intros x Hx. rewrite <-E. by apply (thread_doomed_step s s' w r); [| |rewrite E| | |].
Qed.

Lemma index_owned s x : ws_ok s → live (windows s) x → owns (users s) (index_at (windows s) x) (handle_at (windows s) x) x.
Proof.
  intros Hs Hx. destruct (ho_window _ _ (ws_handles _ _ Hs) x Hx) as (i & Hi).
  destruct (owns_index _ _ _ _ (ho_table _ _ (ws_handles _ _ Hs)) Hi) as [E _]. unfold index_at. by rewrite E.
Qed.

Lemma thread_owned s t x : t ≠ 0 → ws_ok s → thread_at (windows s) x = t →
  owns (users s) (index_at (windows s) x) (handle_at (windows s) x) x.
Proof. intros Ht Hs Hx. apply index_owned; [done|]. apply (th_known _ _ (ws_threads _ _ Hs) x). by rewrite Hx. Qed.

(** No entry is left. *)
Lemma ends_thread_none s t i : t ≠ 0 → ws_ok s → (∀ x, thread_at (windows s) x = t → i <= index_at (windows s) x) →
  first_from (users s) i NTUSER_OBJ_WINDOW None → ends_thread s s t.
Proof.
  intros Ht Hs Hlow [_ Hmin]. assert (Hnone : ∀ x, thread_at (windows s) x ≠ t).
  { intros x Hx. destruct (thread_owned s t x Ht Hs Hx) as (e & Hi & He & Hty & _). apply (Hmin (index_at (windows s) x) e); auto. cbn. lia. }
  split; [done|]. split_and!; [done|done|done|]. intros x Hx. split; [|done]. intros _ (c & rc & Hrc & Etc & _).
  apply (Hnone c). by rewrite (thread_at_lookup _ c rc).
Qed.

(** The entries before the next one, and it, are done. *)
Lemma thread_low s t i j w x : t ≠ 0 → ws_ok s → (∀ x, thread_at (windows s) x = t → i <= index_at (windows s) x) →
  first_from (users s) i NTUSER_OBJ_WINDOW (Some j) → object_of (users s) j = Some w →
  thread_at (windows s) x = t → x ≠ w → j + 1 <= index_at (windows s) x.
Proof.
  intros Ht Hs Hlow [_ Hmin] Hw Hx Hne. pose proof (Hlow x Hx). destruct (thread_owned s t x Ht Hs Hx) as (e & Hi & He & Hty & _ & Hob).
  destruct (decide (index_at (windows s) x = j)) as [E|E]; [rewrite E in Hob; congruence|].
  destruct (decide (index_at (windows s) x < j)) as [Hlt|Hlt]; [|lia]. by destruct (Hmin (index_at (windows s) x) e).
Qed.

(** The window of an entry. *)
Lemma entry_window s i e w : ws_ok s → 0 <= i < nb_handles (users s) → entry_of (users s) i = Some e →
  ue_type e = NTUSER_OBJ_WINDOW → object_of (users s) i = Some w →
  after_handle (entry_handle i (ue_generation e)) = i + 1 ∧ w ≠ 0 ∧ ∃ r, windows s !! w = Some r ∧ w_handle r ≠ 0.
Proof.
  intros Hs Hi He Hty Hw. destruct (ho_entry _ _ (ws_handles _ _ Hs) i e) as (w' & Hl & Ho); [done..|].
  destruct (owns_index _ _ _ _ (ho_table _ _ (ws_handles _ _ Hs)) Ho) as (_ & Ea & _).
  destruct Ho as (e2 & _ & He2 & _ & Eh & Hob). assert (w' = w) as -> by congruence. assert (e2 = e) as -> by congruence.
  rewrite Eh in Ea. split_and!; [done|by eapply live_nonzero|by apply live_lookup].
Qed.

Lemma ends_thread_step s s1 s' t : nb_handles (users s1) = nb_handles (users s) →
  (∀ x, live (windows s) x → (live (windows s1) x ∧ ¬ thread_doomed (windows s1) t x ↔ ¬ thread_doomed (windows s) t x)) →
  (∀ x, live (windows s1) x → live (windows s) x) → ends_thread s1 s' t → ends_thread s s' t.
Proof.
  intros Hnb Hd Hback (A & B & C & D & E). split; [done|]. split_and!; [done|congruence|auto|]. intros x Hx. rewrite <-(Hd x Hx). split.
  - intros Hx'. pose proof (D x Hx'). split; [done|]. by apply E.
  - intros [Hx1 Hn]. by apply E.
Qed.

Lemma thread_windows_loop_ok n s t h : t ≠ 0 → ws_ok s → 0 <= after_handle h <= nb_handles (users s) →
  nb_handles (users s) - after_handle h <= Z.of_nat n →
  (∀ x, thread_at (windows s) x = t → after_handle h <= index_at (windows s) x) →
  wp (thread_windows_loop n t h) (λ _ s', ends_thread s s' t) s.
Proof.
  intros Ht. revert s h. induction n as [|n IH]; intros s h Hs Hpos Hn Hlow.
  all: cbn [thread_windows_loop]; apply wp_bind, wp_with_users; pose proof (ho_table _ _ (ws_handles _ _ Hs)) as Hu;
    assert (Hsame : set_users (users s) s = s) by (by destruct s);
    eapply wp_mono; [by apply next_user_handle_ok|]; cbv beta; intros p u (-> & o & Hfirst & Hp); rewrite Hsame.
  all: destruct o as [i|]; [|subst p; cbn; apply wp_ret; by apply (ends_thread_none s t (after_handle h))].
  { destruct Hfirst as [[Hi _] _]. lia. }
  pose proof Hfirst as [[Hi (e & He & Hty)] _]. destruct Hp as (e' & w & He' & Hw & ->). assert (e' = e) as -> by congruence.
  destruct (entry_window s i e w) as (Ea & Hw0 & r & Hr & Hh); [done|lia|done..|]. cbn [fst snd].
  rewrite (proj2 (Z.eqb_neq w 0)) by done. wp_read ltac:(done).
  apply wp_bind. eapply wp_mono; [by apply (thread_step_ok s t w r)|]. cbv beta. intros _ s1 (Hs1 & Hnb & Hnw & HT & Hback & Hdoom).
  eapply wp_mono; [apply (IH s1); [done|rewrite Ea, Hnb; lia|rewrite Ea, Hnb; lia|]|].
  - intros x Hx. destruct (HT x Hx) as [Hx0 Ehx]. rewrite Ea. unfold index_at. rewrite Ehx.
    apply (thread_low s t (after_handle h) i w); [done..|]. by intros ->.
  - cbv beta. intros _ s'. by apply ends_thread_step.
Qed.

(** No window of the thread is left. *)
Lemma destroy_thread_windows_ok s t : t ≠ 0 → ws_ok s → wp (destroy_thread_windows t) (λ _ s', ends_thread s s' t) s.
Proof.
  intros Ht Hs. pose proof (uo_nb _ (ho_table _ _ (ws_handles _ _ Hs))). unfold destroy_thread_windows. wp_steps.
  apply thread_windows_loop_ok; [done|done|cbn; lia|cbn; lia|]. intros x Hx.
  destruct (thread_owned s t x Ht Hs Hx) as (e & Hi & _). cbn. lia.
Qed.
End thread.
