(* ===== verification/WindowCreate.v ===== *)
(** * Windows: creation

    [create_window] adds one window: at the head of the unlinked list of its
    parent, or as a root of its desktop.  The invariant of the state is kept. *)

From stdpp Require Import base list gmap fin_maps.
From S2P Require Import Prelude Atom AtomThms UserHandle UserHandleThms Region Window WindowOps.
From S2P Require Import WindowTree WindowLink WindowParent WindowInv WindowDestroy.

Open Scope Z_scope.
Open Scope server_scope.

(** ** The heap with one more window *)

Definition host (w : Z) (rq : window) : window := set_w_unlinked (w :: w_unlinked rq) (set_w_refs (w_refs rq + 1) rq).

Definition created_map (W : winmap) (q w : Z) (r : window) : winmap := <[w:=r]> (alter (host w) q W).

Section created.
Context (W : winmap) (q w : Z) (r : window).
Context (Hf : forest_ok W) (Hfresh : W !! w = None) (Hw : w ≠ 0) (Hq : q ≠ 0 → is_Some (W !! q)).
Context (Hparent : w_parent r = q) (Hlists : w_children r = [] ∧ w_unlinked r = []) (Hlink : w_is_linked r = false).
Context (Hh : w_handle r ≠ 0) (Hentry : w_entry r = home r) (Hrefs : w_refs r = 1).

Lemma created_self : created_map W q w r !! w = Some r.
Proof. apply lookup_insert_eq. Qed.

Lemma created_other x : x ≠ w → created_map W q w r !! x = if decide (x = q) then host w <$> W !! x else W !! x.
Proof.
  intros Hx. unfold created_map. rewrite lookup_insert_ne by done. destruct (decide (x = q)) as [->|Hne].
  - by rewrite lookup_alter_eq.
  - by rewrite lookup_alter_ne.
Qed.

Lemma created_added : added W (created_map W q w r) w r.
Proof.
  pose proof (fo_tree _ Hf) as HW. destruct Hlists as [Hc Hu]. split.
  - done.
  - apply created_self.
  - split_and!; try done. unfold uses. rewrite Hc, Hu, (proj2 (Z.eqb_neq _ 0)) by done. done.
  - rewrite Hparent. exact Hq.
  - intros x Hx. rewrite created_other by done. rewrite Hparent. destruct (decide (x = q)) as [->|Hne].
    + destruct (W !! q) as [rq|] eqn:Hrq; constructor. rewrite bool_decide_eq_true_2 by done.
      pose proof (t_refs _ HW q rq Hrq) as E. split_and!; try done. unfold uses in *. cbn in *. lia.
    + rewrite bool_decide_eq_false_2 by done. destruct (W !! x) as [rx|] eqn:Hrx; constructor.
      split_and!; try done. apply (t_refs _ HW x rx Hrx).
Qed.

Lemma created_forest : forest_ok (created_map W q w r).
Proof.
  pose proof (fo_tree _ Hf) as HW. pose proof (tree_added_ok W _ w r HW created_added) as HW'. split; [done| |].
  - intros x rx Hx. destruct (decide (x = w)) as [E|Hne].
    { rewrite E, created_self in Hx. injection Hx as <-. rewrite <-(t_refs _ HW' w r created_self). lia. }
    rewrite created_other in Hx by done. destruct (decide (x = q)) as [E|Hnq]; [|by apply (fo_used _ Hf x)].
    destruct (W !! x) as [rx0|] eqn:Hrx; [|done]. injection Hx as <-. pose proof (fo_used _ Hf x rx0 Hrx). unfold uses in *. cbn in *. lia.
  - intros x rx Hx. destruct (decide (x = w)) as [E|Hne].
    { rewrite E, created_self in Hx. injection Hx as <-. destruct Hlists as [-> _]. exists [], []. done. }
    assert (∃ rx0, W !! x = Some rx0 ∧ w_children rx = w_children rx0) as (rx0 & Hrx0 & ->).
    { rewrite created_other in Hx by done. destruct (decide (x = q)); [|eauto]. destruct (W !! x) as [rx0|]; [|done]. injection Hx as <-. eauto. }
    eapply zordered_ext; [|by apply (fo_zorder _ Hf x)]. intros c Hcin. unfold topmost_in.
    destruct (t_children _ HW x rx0 c Hrx0 Hcin) as (rc & Hrc & _). rewrite created_other by congruence.
    rewrite Hrc. by destruct (decide (c = q)).
Qed.

Lemma created_handle x : handle_at (created_map W q w r) x = if decide (x = w) then w_handle r else handle_at W x.
Proof.
  unfold handle_at. destruct (decide (x = w)) as [E|Hx]; [by rewrite E, created_self|]. rewrite created_other by done.
  destruct (decide (x = q)); [|done]. by destruct (W !! x).
Qed.

Lemma created_thread x : thread_at (created_map W q w r) x = if decide (x = w) then w_thread r else thread_at W x.
Proof.
  unfold thread_at. destruct (decide (x = w)) as [E|Hx]; [by rewrite E, created_self|]. rewrite created_other by done.
  destruct (decide (x = q)); [|done]. by destruct (W !! x).
Qed.

Lemma created_old x rx' : x ≠ w → created_map W q w r !! x = Some rx' → ∃ rx, W !! x = Some rx ∧
  w_desktop rx' = w_desktop rx ∧ w_handle rx' = w_handle rx ∧ w_parent rx' = w_parent rx.
Proof.
  intros Hx. rewrite created_other by done. destruct (decide (x = q)); [|eauto]. destruct (W !! x); [|done]. intros [= <-]. eauto.
Qed.

Lemma created_new x rx : W !! x = Some rx → ∃ rx', created_map W q w r !! x = Some rx' ∧
  w_handle rx' = w_handle rx ∧ w_parent rx' = w_parent rx.
Proof.
  intros Hx. rewrite created_other by congruence. rewrite Hx. destruct (decide (x = q)); eauto.
Qed.

Lemma created_roots D D' : desktops_ok W D → is_Some (D' !! w_desktop r) →
  (∀ d, is_Some (D !! d) → is_Some (D' !! d)) →
  (∀ d x', D' !! d = Some x' → ∃ x, D !! d = Some x ∧ (top_window x' = top_window x ∨ top_window x' = w ∧ q = 0) ∧
    (msg_window x' = msg_window x ∨ msg_window x' = w ∧ q = 0)) →
  desktops_ok (created_map W q w r) D'.
Proof.
  intros [A B] Hd HD Hback. split.
  - intros x rx Hx. destruct (decide (x = w)) as [E|Hne].
    { rewrite E, created_self in Hx. by injection Hx as <-. }
    destruct (created_old x rx Hne Hx) as (rx0 & Hrx0 & -> & _). by apply HD, (A x).
  - intros d x' Hx'. destruct (Hback d x' Hx') as (x & Hx & Ht & Hm). destruct (B d x Hx) as [Bt Bm].
    assert (Hk : ∀ z, root_ok W z → root_ok (created_map W q w r) z).
    { intros z [->|(rz & Hz & Hhz & Hpz)]; [by left|right]. destruct (created_new z rz Hz) as (rz' & ? & E1 & E2). exists rz'.
      by rewrite E1, E2. }
    assert (Hself : q = 0 → root_ok (created_map W q w r) w).
    { intros E. right. exists r. split; [apply created_self|]. by rewrite Hparent. }
    destruct Ht as [->|[-> ?]], Hm as [->|[-> ?]]; auto.
Qed.

Lemma created_threads T t th : t ≠ 0 → w_thread r = t → T !! t = Some th → threads_ok W T →
  ∀ th', th_desktop_users th + 1 <= th_desktop_users th' → threads_ok (created_map W q w r) (<[t:=th']> T).
Proof.
  intros Ht Et Hth [A B] th' Hle.
  assert (Hs : ∀ y, is_Some (T !! y) → is_Some (<[t:=th']> T !! y)).
  { intros y Hy. destruct (decide (y = t)) as [E|E]; [rewrite E, lookup_insert_eq; eauto|by rewrite lookup_insert_ne]. }
  assert (Hsum : ∀ y, y ≠ 0 → msum (owned y) (created_map W q w r) = owned y r + msum (owned y) W).
  { intros y Hy. rewrite <-(msum_insert (owned y) W w r) by done. apply msum_weight. intros x.
    destruct (decide (x = w)) as [E|Hx]; [by rewrite E, created_self, lookup_insert_eq|]. rewrite lookup_insert_ne, created_other by done.
    destruct (decide (x = q)); [|done]. by destruct (W !! x). }
  split.
  - intros x. rewrite created_thread. unfold live. rewrite created_handle. destruct (decide (x = w)) as [E|Hx].
    + intros _. split; [done|]. rewrite Et, lookup_insert_eq. eauto.
    + intros Hx0. destruct (A x Hx0) as [Hl HsT]. split; [done|]. by apply Hs.
  - intros y thy Hy Hy0. rewrite Hsum by done. unfold owned at 1. rewrite Et. destruct (Z.eqb_spec t y) as [E|E].
    + subst y. rewrite lookup_insert_eq in Hy. injection Hy as <-. pose proof (B t th Hth Ht). lia.
    + rewrite lookup_insert_ne in Hy by done. by apply B.
Qed.
End created.

(** ** The steps *)

Lemma alter_insert (W : winmap) (f : window → window) x r : W !! x = Some r → alter f x W = <[x:=f r]> W.
Proof.
  intros Hx. apply map_eq. intros y. destruct (decide (y = x)) as [->|Hy].
  - by rewrite lookup_alter_eq, lookup_insert_eq, Hx.
  - by rewrite lookup_alter_ne, lookup_insert_ne.
Qed.

Lemma alter_absent (W : winmap) (f : window → window) x : W !! x = None → alter f x W = W.
Proof.
  intros Hx. apply map_eq. intros y. destruct (decide (y = x)) as [->|Hy]; [by rewrite lookup_alter_eq, Hx|by rewrite lookup_alter_ne].
Qed.

(** A reference on the parent, and the new window. *)
Definition half_created (W : winmap) (q w : Z) (r : window) : winmap :=
  <[w:=r]> (alter (λ rq, set_w_refs (w_refs rq + 1) rq) q W).

Lemma half_created_self W q w r : half_created W q w r !! w = Some r.
Proof. apply lookup_insert_eq. Qed.

Lemma half_created_twice W q w r r' : <[w:=r']> (half_created W q w r) = half_created W q w r'.
Proof. unfold half_created. by rewrite insert_insert_eq. Qed.

Lemma half_created_parent W q w r rq : q ≠ w → W !! q = Some rq →
  half_created W q w r !! q = Some (set_w_refs (w_refs rq + 1) rq).
Proof. intros Hne Hq. unfold half_created. by rewrite lookup_insert_ne, lookup_alter_eq, Hq. Qed.

Lemma half_created_done W q w r r' rq : q ≠ w → W !! q = Some rq →
  <[w:=r']> (<[q:=host w rq]> (half_created W q w r)) = created_map W q w r'.
Proof.
  intros Hne Hq. unfold half_created, created_map. rewrite (alter_insert _ _ _ _ Hq), (alter_insert _ _ _ _ Hq).
  rewrite (insert_insert_ne _ q w) by done. by rewrite insert_insert_eq, insert_insert_eq.
Qed.

Lemma half_created_root W w r : W !! 0 = None → half_created W 0 w r = created_map W 0 w r.
Proof. intros H0. unfold half_created, created_map. by rewrite !alter_absent. Qed.

(** The desktop after a root was added. *)
Definition with_root (e : create_env) (w : Z) (d : desktop) : desktop :=
  if ce_is_desktop e
  then Desktop w (msg_window d) (shell_window d) (shell_listview d) (progman_window d) (taskman_window d)
  else Desktop (top_window d) w (shell_window d) (shell_listview d) (progman_window d) (taskman_window d).

(** The window enters the list of its parent, or is the root of its desktop. *)
Lemma place_new_ok s W e q w r rq d : W !! 0 = None → q ≠ w → windows s = half_created W q w r → w_entry r = EUnset → w_parent r = q →
  w_is_linked r = false →
  (q ≠ 0 → W !! q = Some rq) →
  (q = 0 → desktops s !! ce_desktop e = Some d ∧ if ce_is_desktop e then top_window d = 0 else msg_window d = 0) →
  wp (if negb (q =? 0) then list_add_head (EUnlinked q) w else set_desktop_root e w) (λ _ s', ∃ c,
    s' = set_win_calls c (set_windows (created_map W q w (set_w_entry (home r) r))
           (if q =? 0 then set_desktops (<[ce_desktop e:=with_root e w d]> (desktops s)) s else s))) s.
Proof.
  intros H0 Hne HW He Hp Hl Hq Hd. unfold home. rewrite Hp, Hl. destruct (Z.eqb_spec q 0) as [E|E]; cbn [negb].
  - destruct (Hd E) as [Hd0 Hfree]. unfold set_desktop_root. wp_write ltac:(rewrite HW; apply half_created_self).
    rewrite HW, half_created_twice. subst q. rewrite E, half_created_root by done.
    unfold get_desktop, put_desktop, emit, with_root. wp_steps. eapply wp_deref; [exact Hd0|].
    destruct (ce_is_desktop e); rewrite Hfree; apply wp_bind, wp_assert; [done| |done|]; wp_steps; by eexists.
  - unfold list_add_head, list_insert, update_list. wp_write ltac:(rewrite HW; apply half_created_parent; [done|auto]).
    eapply wp_upd; [rewrite windows_set, lookup_insert_ne by done; rewrite HW; apply half_created_self|].
    rewrite set_windows_twice, windows_set, HW. exists (win_calls s).
    change (set_w_unlinked _ (set_w_refs _ rq)) with (host w rq). rewrite (half_created_done _ _ _ _ _ rq) by auto. by destruct s.
Qed.

Lemma need_queue_ok s th ok : threads s !! current s = Some th →
  wp (need_queue ok) (λ b s', b = th_queue th || ok ∧ ∃ c th1, threads s' !! current s = Some th1 ∧
    th_desktop_users th1 = th_desktop_users th ∧ s' = set_win_calls c (set_threads (<[current s:=th1]> (threads s)) s)) s.
Proof.
  intros Hth. unfold need_queue, get_thread, put_thread, emit. wp_steps. eapply wp_deref; [done|].
  assert (Hid : s = set_win_calls (win_calls s) (set_threads (<[current s:=th]> (threads s)) s)).
  { rewrite insert_id by done. by destruct s. }
  destruct (th_queue th); [|destruct ok]; wp_steps; (split; [done|]); [by exists (win_calls s), th| |by exists (win_calls s), th].
  eexists _, (WinThread true (th_desktop_users th) (th_tid th) (th_pid th)). split_and!; [apply lookup_insert_eq|done..].
Qed.

(** The new window. *)
Definition newborn (e : create_env) (t q h owner ctx : Z) : window :=
  let r := set_w_last_active h (set_w_handle h (new_window e t q owner ctx)) in set_w_entry (home r) r.

Section create.
Context (to_lower : Z → Z).
Notation ws_ok := (ws_ok to_lower).

(** What the creation of [w] under [q] does. *)
Record created (s s' : wstate) (e : create_env) (q w h owner ctx : Z) : Prop := {
  cr_handle : h ≠ 0;
  cr_ok : ws_ok s';
  cr_windows : windows s' = created_map (windows s) q w (newborn e (current s) q h owner ctx);
  cr_desktop : ∃ d, desktops s !! ce_desktop e = Some d ∧
    desktops s' = if q =? 0 then <[ce_desktop e:=with_root e w d]> (desktops s) else desktops s;
  cr_rest : current s' = current s ∧ win_error s' = win_error s ∧ gatoms s' = gatoms s;
}.

(** What the creation needs. *)
Record can_create (s : wstate) (e : create_env) (q w : Z) (d : desktop) (th : win_thread) : Prop := {
  cc_fresh : windows s !! w = None ∧ w ≠ 0;
  cc_parent : q ≠ 0 → is_Some (windows s !! q);
  cc_desktop : desktops s !! ce_desktop e = Some d;
  cc_root : q = 0 → if ce_is_desktop e then top_window d = 0 else msg_window d = 0;
  cc_thread : threads s !! current s = Some th ∧ current s ≠ 0;
  cc_alloc : can_alloc (users s);
}.

Lemma created_ok s e q w h owner ctx u' T' D' c d th th' : ws_ok s → can_create s e q w d th → h ≠ 0 →
  (∀ W', (∀ x, x ≠ w → handle_at W' x = handle_at (windows s) x) → handle_at W' w = h → handles_ok W' u') →
  T' = <[current s:=th']> (threads s) → th_desktop_users th + 1 <= th_desktop_users th' →
  D' = (if q =? 0 then <[ce_desktop e:=with_root e w d]> (desktops s) else desktops s) →
  created s (set_win_calls c (set_windows (created_map (windows s) q w (newborn e (current s) q h owner ctx))
    (set_desktops D' (set_threads T' (set_users u' s))))) e q w h owner ctx.
Proof.
  intros [A B C D E] [[Hfresh Hw] Hq Hd Hroot [Hth Hcur] _] Hh Hu -> Hle ->.
  set (r := newborn e (current s) q h owner ctx). split; [done| |done|by exists d|done]. split; cbn -[newborn].
  - apply created_forest; try done. 
  - apply Hu; [intros x Hx|]; rewrite created_handle by done; [by rewrite decide_False|by rewrite decide_True].
  - by apply (created_threads (windows s) q w r) with (th := th).
  - apply (created_roots (windows s) q w r) with (D := desktops s); try done.
    + change (w_desktop r) with (ce_desktop e). destruct (q =? 0); [rewrite lookup_insert_eq; eauto|eauto].
    + intros d' Hd'. destruct (q =? 0); [|done]. destruct (decide (d' = ce_desktop e)) as [->|Hne]; [rewrite lookup_insert_eq; eauto|by rewrite lookup_insert_ne].
    + intros d' x' Hx'. destruct (Z.eqb_spec q 0) as [Eq|Eq]; [|exists x'; auto]. destruct (decide (d' = ce_desktop e)) as [->|Hne].
      * rewrite lookup_insert_eq in Hx'. injection Hx' as <-. exists d. unfold with_root. destruct (ce_is_desktop e); cbn; auto.
      * rewrite lookup_insert_ne in Hx' by done. exists x'. auto.
  - done.
Qed.

Lemma finish_create_ok s e q w owner ctx shared d th : ws_ok s → can_create s e q w d th → th_queue th || ce_queue e = true →
  wp (finish_create e w q shared) (λ x s', x = w ∧ ∃ h, created s s' e q w h owner ctx)
    (set_windows (half_created (windows s) q w (new_window e (current s) q owner ctx)) s).
Proof.
  intros Hs Hc Hqueue. pose proof Hc as [[Hfresh Hw] Hq Hd Hroot [Hth Hcur] Halloc].
  pose proof (fo_tree _ (ws_forest _ _ Hs)) as HW. assert (Hqw : q ≠ w) by (intros ->; destruct (Hq Hw); congruence).
  unfold finish_create, get_thread. wp_steps. eapply wp_deref; [exact Hth|]. apply wp_bind, wp_with_users. cbn [users set_windows].
  eapply wp_mono; [eapply (handles_alloc (windows s)); [apply Hs|done|]|].
  { unfold live, handle_at. rewrite Hfresh. tauto. }
  cbv beta. intros h u' (Hh & Hu & _). wp_write ltac:(apply half_created_self). rewrite (proj2 (Z.eqb_neq h 0)) by done.
  wp_write ltac:(apply lookup_insert_eq). cbn [windows set_users set_windows]. rewrite insert_insert_eq, half_created_twice.
  set (r := set_w_last_active h _). apply wp_bind. eapply wp_mono; [apply (need_queue_ok _ th); exact Hth|].
  cbv beta. intros b s1 (-> & c1 & th1 & Hth1 & Hle1 & Hs1). rewrite Hqueue. cbn [negb]. subst s1. apply wp_bind.
  eapply attach_parent_thread_ok; [apply half_created_self|..].
  { intros Hp. change (w_parent r) with q in *. destruct (Hq Hp) as [rq Hrq]. cbn [windows set_win_calls set_threads set_users set_windows].
    rewrite (half_created_parent _ _ _ _ rq) by done. eauto. }
  intros s2 [c2 ->]. apply wp_bind.
  assert (Hrq : ∃ rq, q ≠ 0 → windows s !! q = Some rq).
  { destruct (decide (q = 0)) as [E|E]; [by exists r|]. destruct (Hq E) as [rq Hrq]. by exists rq. }
  destruct Hrq as [rq Hrq].
  eapply wp_mono; [apply (place_new_ok _ (windows s) e q w r rq d); [apply HW|done..|intros E; split; [exact Hd|by apply Hroot]]|].
  cbv beta. intros _ s3 [c3 ->]. unfold put_thread. wp_steps. eapply wp_deref.
  { instantiate (1 := th1). by destruct (q =? 0). }
  wp_steps. split; [done|]. exists h.
  match goal with |- created _ ?S _ _ _ _ _ _ => assert (HS : S = set_win_calls c3 (set_windows (created_map (windows s) q w (newborn e (current s) q h owner ctx))
    (set_desktops (if q =? 0 then <[ce_desktop e:=with_root e w d]> (desktops s) else desktops s) (set_threads
      (<[current s:=WinThread (th_queue th1) (th_desktop_users th1 + 1) (th_tid th1) (th_pid th1)]> (threads s)) (set_users u' s))))) end.
  { destruct (q =? 0); cbn -[newborn created_map]; by rewrite insert_insert_eq. }
  rewrite HS. eapply created_ok; try done. cbn. lia.
Qed.

(** The parent that is used. *)
Definition actual_parent (e : create_env) (d : desktop) (parent : Z) : Z :=
  if negb (parent =? 0) then parent
  else if ce_is_desktop e then top_window d
  else if ce_is_message e then (if negb (msg_window d =? 0) then top_window d else 0) else top_window d.

Definition refused (s : wstate) (e : create_env) (d : desktop) (parent : Z) : bool :=
  let q := actual_parent e d parent in
  (parent =? 0) && negb (ce_is_desktop e) && negb (ce_is_message e) && (top_window d =? 0) ||
  match windows s !! q with Some rq => negb (w_desktop rq =? ce_desktop e) | None => false end.

Lemma default_parent_ok s e d parent : desktops s !! ce_desktop e = Some d →
  wp (default_parent e parent) (λ o s',
    if (parent =? 0) && negb (ce_is_desktop e) && negb (ce_is_message e) && (top_window d =? 0)
    then o = None ∧ s' = set_win_error WIN_ACCESS_DENIED s
    else o = Some (actual_parent e d parent) ∧ s' = s) s.
Proof.
  intros Hd. unfold default_parent, actual_parent. destruct (parent =? 0); cbn [negb andb]; [|by wp_steps].
  unfold get_desktop. wp_steps. eapply wp_deref; [done|]. destruct (ce_is_desktop e); cbn [negb andb]; [by wp_steps|].
  destruct (ce_is_message e); cbn [negb andb]; [by wp_steps|]. unfold set_error. destruct (top_window d =? 0); cbn [negb]; by wp_steps.
Qed.

Lemma create_failed_early s e : wp (create_failed e 0) (λ x s', x = 0 ∧ ∃ c, s' = set_win_calls c s) s.
Proof. unfold create_failed, emit. cbn. wp_steps. split; [done|]. by eexists. Qed.

(** The handle of the owner. *)
Definition owner_handle (s : wstate) (owner : Z) : Z := handle_at (windows s) owner.

(** The DPI context: that of the parent, except below a desktop window. *)
Definition context_in (s : wstate) (q ctx : Z) : Z :=
  match windows s !! q with Some rq => if w_parent rq =? 0 then ctx else w_dpi_context rq | None => ctx end.

Lemma create_window_ok s e parent owner ctx w shared d th : ws_ok s → ce_desktop e ≠ 0 → ce_class e ≠ 0 →
  ce_addr e = Some w → ce_shared e = Some shared → th_queue th || ce_queue e = true →
  (owner = 0 ∨ is_Some (windows s !! owner)) → desktops s !! ce_desktop e = Some d →
  (actual_parent e d parent ≠ 0 → is_Some (windows s !! actual_parent e d parent)) →
  (refused s e d parent = false → can_create s e (actual_parent e d parent) w d th) →
  wp (create_window e parent owner ctx) (λ x s',
    if refused s e d parent then x = 0 ∧ ∃ c, s' = set_win_calls c (set_win_error WIN_ACCESS_DENIED s)
    else x = w ∧ ∃ h, created s s' e (actual_parent e d parent) w h (owner_handle s owner) (context_in s (actual_parent e d parent) ctx)) s.
Proof.
  intros Hs Hd0 Hc0 Hw Hsh Hqueue Hown Hd Hpar Hc. unfold create_window. unfold refused in *. set (q := actual_parent e d parent) in *.
  rewrite (proj2 (Z.eqb_neq _ 0) Hd0), (proj2 (Z.eqb_neq _ 0) Hc0). apply wp_bind.
  eapply wp_mono; [by apply default_parent_ok|]. cbv beta. intros o s' Ho. destruct (_ && _ && _ && _); cbn [orb].
  { destruct Ho as [-> ->]. by apply create_failed_early. }
  destruct Ho as [-> ->]. fold q. pose proof (t_null _ (fo_tree _ (ws_forest _ _ Hs))) as H0.
  apply wp_bind, (wp_mono _ (λ b s', s' = s ∧ b = match windows s !! q with Some rq => w_desktop rq =? ce_desktop e | None => true end)).
  { destruct (Z.eqb_spec q 0) as [E|E]; [wp_steps; by rewrite E, H0|]. destruct (Hpar E) as [rq Hrq].
    wp_read ltac:(done). wp_steps. by rewrite Hrq. }
  intros b s' [-> ->]. replace (negb match windows s !! q with Some rq => w_desktop rq =? ce_desktop e | None => true end) with
    match windows s !! q with Some rq => negb (w_desktop rq =? ce_desktop e) | None => false end by (by destruct (windows s !! q)).
  destruct (match windows s !! q with Some _ => _ | None => _ end).
  { unfold set_error. wp_steps. apply create_failed_early. }
  rewrite Hw. wp_steps. apply (wp_mono _ (λ x s', s' = s ∧ x = owner_handle s owner)).
  { unfold owner_handle. destruct Hown as [->|[ro Hro]]; [wp_steps; unfold handle_at; by rewrite H0|].
    rewrite (proj2 (Z.eqb_neq owner 0)) by (intros ->; congruence).
    wp_read ltac:(done). wp_steps. by rewrite (handle_at_lookup _ owner ro). }
  intros oh s' [-> ->]. apply wp_bind, (wp_mono _ (λ x s', s' = s ∧ x = context_in s q ctx)).
  { unfold context_in. destruct (Z.eqb_spec q 0) as [E|E]; [wp_steps; by rewrite E, H0|]. destruct (Hpar E) as [rq Hrq].
    wp_read ltac:(done). wp_steps. by rewrite Hrq. }
  intros cx s' [-> ->]. apply wp_bind, (wp_mono _ (λ _ s', s' = set_windows (alter (λ rq, set_w_refs (w_refs rq + 1) rq) q (windows s)) s)).
  { destruct (Z.eqb_spec q 0) as [E|E]; [wp_steps; rewrite E, alter_absent by done; by rewrite set_windows_id|].
    destruct (Hpar E) as [rq Hrq]. unfold grab_window. wp_read ltac:(done). wp_steps.
    apply wp_assert; [by eapply refs_grabbable; [apply (ws_forest _ _ Hs)|apply (ws_handles _ _ Hs)|]|].
    eapply wp_upd; [done|]. by rewrite (alter_insert _ _ _ _ Hrq). }
  intros _ s' ->. wp_steps. rewrite Hsh. apply (finish_create_ok s e q w _ _ _ d th); auto.
Qed.
End create.
