(* ===== verification/WindowProps.v ===== *)
(** * Windows: the requests keep the invariant

    Every request that changes the tree ends without a fault and keeps the
    invariant of the state.

    ** Windows: the property arrays

    The array of properties of a window, with its free entries, is a finite map
    from atoms to values: [set_property], [remove_property] and [get_property] are
    insertion, deletion and lookup. *)

From stdpp Require Import base list gmap fin_maps.
From S2P Require Import Prelude Region Atom AtomThms UserHandle UserHandleThms Window WindowOps WindowReqs.
From S2P Require Import WindowTree WindowLink WindowParent WindowInv WindowDestroy WindowThread WindowCreate.

Open Scope Z_scope.
Open Scope server_scope.

(** ** Changes that keep handles, threads and desktops *)

Definition marks (r : window) : Z * Z * Z := (w_handle r, w_thread r, w_desktop r).

Record keeps (W W' : winmap) : Prop := {
  kp_forest : forest_ok W';
  kp_marks : ∀ x, marks <$> W' !! x = marks <$> W !! x;
  kp_roots : ∀ x r r', W !! x = Some r → W' !! x = Some r' → w_parent r = 0 → w_parent r' = 0;
}.

Lemma keeps_handle W W' x : keeps W W' → handle_at W' x = handle_at W x.
Proof. intros HK. pose proof (kp_marks _ _ HK x) as E. unfold handle_at. destruct (W' !! x), (W !! x); simplify_eq/=; congruence. Qed.
Lemma keeps_thread_at W W' x : keeps W W' → thread_at W' x = thread_at W x.
Proof. intros HK. pose proof (kp_marks _ _ HK x) as E. unfold thread_at. destruct (W' !! x), (W !! x); simplify_eq/=; congruence. Qed.

Lemma keeps_desktops W W' D : keeps W W' → desktops_ok W D → desktops_ok W' D.
Proof.
  intros HK [A B]. split.
  - intros x r' Hx. pose proof (kp_marks _ _ HK x) as E. rewrite Hx in E. destruct (W !! x) as [r|] eqn:Hr; [|done].
    injection E as _ _ ->. by apply (A x).
  - intros d y Hd. assert (Hk : ∀ z, root_ok W z → root_ok W' z).
    { intros z [->|(rz & Hz & Hh & Hp)]; [by left|right]. pose proof (kp_marks _ _ HK z) as E. rewrite Hz in E.
      destruct (W' !! z) as [rz'|] eqn:Hz'; [|done]. injection E as E _ _. exists rz'. split_and!; [done|by rewrite E|].
      by apply (kp_roots _ _ HK z rz rz'). }
    destruct (B d y Hd). auto.
Qed.

Section steps.
Context (to_lower : Z → Z).
Notation ws_ok := (ws_ok to_lower).

Lemma ws_keeps s W' : ws_ok s → keeps (windows s) W' → ws_ok (set_windows W' s).
Proof.
  intros [A B C D E] HK. split; cbn; [apply HK| | | |done].
  - apply (handles_ok_ext (windows s)); [|done]. intros x. by apply keeps_handle.
  - apply (threads_ok_ext (windows s)); [| |done]; intros x; [by apply keeps_handle|by apply keeps_thread_at].
  - by apply (keeps_desktops (windows s)).
Qed.
End steps.

Lemma keeps_refl W : forest_ok W → keeps W W.
Proof. intros HW. split; [done|done|]. intros x r r' Hr Hr'. by simplify_eq. Qed.

Lemma keeps_trans W1 W2 W3 : keeps W1 W2 → keeps W2 W3 → keeps W1 W3.
Proof.
  intros K1 K2. split; [apply K2|intros x; by rewrite (kp_marks _ _ K2), (kp_marks _ _ K1)|]. intros x r1 r3 H1 H3 Hp.
  pose proof (kp_marks _ _ K1 x) as E. rewrite H1 in E. destruct (W2 !! x) as [r2|] eqn:H2; [|done].
  eapply (kp_roots _ _ K2); [done|done|]. by eapply (kp_roots _ _ K1).
Qed.

Lemma keeps_paint W W' : forest_ok W → same_but_paint W W' → keeps W W'.
Proof.
  intros HW HP. split; [by apply (forest_ok_paint W)| |].
  - intros x. by destruct (HP x) as [r r' [f ->]|].
  - intros x r r' Hr Hr'. pose proof (HP x) as H. rewrite Hr, Hr' in H. inversion H as [? ? [f ->]|]; by subst.
Qed.

(** A change of one window. *)
Lemma keeps_insert W w r r' : W !! w = Some r → marks r' = marks r → (w_parent r = 0 → w_parent r' = 0) →
  forest_ok (<[w:=r']> W) → keeps W (<[w:=r']> W).
Proof.
  intros Hr Hm Hp HW. split; [done| |].
  - intros x. destruct (decide (x = w)) as [->|Hx]; [rewrite lookup_insert_eq, Hr; cbn; by rewrite Hm|by rewrite lookup_insert_ne].
  - intros x rx rx' Hx Hx'. destruct (decide (x = w)) as [->|Hne]; [rewrite lookup_insert_eq in Hx'; by simplify_eq|].
    rewrite lookup_insert_ne in Hx' by done. by simplify_eq.
Qed.

Lemma keeps_bland W w r r' : forest_ok W → W !! w = Some r → bland r r' → w_thread r' = w_thread r → keeps W (<[w:=r']> W).
Proof.
  intros HW Hr Hb Ht. apply (keeps_insert W w r); [done| |by rewrite (bland_parent _ _ Hb)|by apply (bland_forest W w r)].
  unfold marks. by rewrite (bland_handle _ _ Hb), Ht, (bl_desktop _ _ Hb).
Qed.

(** The topmost bit of a window that is not linked does not matter. *)
Lemma keeps_unlinked W w r r' : forest_ok W → W !! w = Some r → core r' = core r → marks r' = marks r → w_is_linked r = false →
  keeps W (<[w:=r']> W).
Proof.
  intros HW Hr Hc Hm Hl. apply (keeps_insert W w r); [done|done|by injection Hc as _ -> _|]. destruct HW as [HT Hu Hz].
  pose proof (core_insert W w r r' Hr Hc) as Hcore. split; [by apply (tree_ok_ext W)| |].
  - intros x rx Hx. destruct (core_lookup (<[w:=r']> W) W x rx) as (rx0 & Hrx0 & E); [done|done|]. rewrite <-(core_uses _ _ E). by apply (Hu x).
  - intros x rx Hx. destruct (core_lookup (<[w:=r']> W) W x rx) as (rx0 & Hrx0 & E); [done|done|].
    assert (w_children rx = w_children rx0) as -> by (by injection E). eapply zordered_ext; [|by apply (Hz x)].
    intros c Hc'. unfold topmost_in. destruct (t_children _ HT x rx0 c Hrx0 Hc') as (rc & Hrc & _ & Hlc).
    rewrite lookup_insert_ne; [done|]. intros <-. congruence.
Qed.

(** ** The moves *)

Lemma orphan_keeps W w r rp : forest_ok W → W !! w = Some r → w_parent r ≠ 0 → W !! w_parent r = Some rp →
  keeps W (orphan_map w (w_parent r) r rp W).
Proof.
  intros HW Hr Hp Hrp. pose proof HW as [HT Hu Hz]. pose proof (parent_ne W w r HT Hr) as Hne.
  assert (Hx0 : ∀ x, ∃ f : window → window, orphan_map w (w_parent r) r rp W !! x = f <$> W !! x ∧
    ∀ y, W !! x = Some y → marks (f y) = marks y ∧ w_parent (f y) = w_parent y).
  { intros x. destruct (decide (x = w)) as [->|Hxw]; [|destruct (decide (x = w_parent r)) as [->|Hxp]].
    - exists (λ _, orphan_window (w_parent r) r). rewrite orphan_map_self, Hr. split; [done|]. by intros y [= <-].
    - exists (λ _, orphan_parent w rp). rewrite (orphan_map_parent W w r rp), Hrp by done. split; [done|]. by intros y [= <-].
    - exists id. rewrite orphan_map_other by done. split; [by destruct (W !! x)|done]. }
  split; [by apply orphan_map_ok| |].
  - intros x. destruct (Hx0 x) as (f & -> & Hf). destruct (W !! x) as [y|]; [|done]. cbn. by rewrite (proj1 (Hf y eq_refl)).
  - intros x rx rx' Hx Hx' Hpx. destruct (Hx0 x) as (f & E & Hf). rewrite E, Hx in Hx'. injection Hx' as <-. by rewrite (proj2 (Hf rx Hx)).
Qed.

Lemma join_keeps s w q r rp rq : forest_ok (windows s) → windows s !! w = Some r → w_parent r ≠ 0 → windows s !! w_parent r = Some rp → windows s !! q = Some rq →
  ¬ under (windows s) w q → w_handle r ≠ 0 → w_handle rp ≠ 0 → keeps (windows s) (join_map (windows s) w q r rp rq).
Proof.
  intros HW Hr Hp Hrp Hrq Hcyc Hh Hhp. pose proof HW as [HT Hu Hz].
  assert (Hx0 : ∀ x, ∃ f : window → window, join_map (windows s) w q r rp rq !! x = f <$> windows s !! x ∧
    ∀ y, windows s !! x = Some y → marks (f y) = marks y ∧ (x ≠ w → w_parent (f y) = w_parent y)).
  { intros x. destruct (decide (x = w)) as [->|Hxw]; [|destruct (decide (x = q)) as [->|Hxq]; [|destruct (decide (x = w_parent r)) as [->|Hxp]]].
    - eexists (λ _, _). rewrite join_map_self, Hr. split; [done|]. intros y [= <-]. split; [|done]. by destruct (snd _) as [[]|].
    - eexists (λ _, _). rewrite (join_map_new s w q r rp rq) by done. rewrite Hrq. split; [done|]. intros y [= <-].
      unfold joined_parent. case_decide as E; [|done]. rewrite E in Hrq. by simplify_eq.
    - exists (λ _, left_parent w rp). rewrite (join_map_old s w q r rp rq), Hrp by done. split; [done|]. by intros y [= <-].
    - exists id. rewrite join_map_other by done. split; [by destruct (windows s !! x)|done]. }
  split; [by apply join_forest| |].
  - intros x. destruct (Hx0 x) as (f & -> & Hf). destruct (windows s !! x) as [y|]; [|done]. cbn. by rewrite (proj1 (Hf y eq_refl)).
  - intros x rx rx' Hx Hx' Hpx. destruct (Hx0 x) as (f & E & Hf). rewrite E, Hx in Hx'. injection Hx' as <-.
    rewrite (proj2 (Hf rx Hx)); [done|]. intros ->. congruence.
Qed.

Lemma link_keeps s w r rp previous : forest_ok (windows s) → windows s !! w = Some r → w_parent r ≠ 0 → w_handle r ≠ 0 →
  windows s !! w_parent r = Some rp → (∀ q, previous = WinAt q → q ∈ others w rp) →
  keeps (windows s) (windows (link_state s w r rp previous)).
Proof.
  intros HW Hr Hp Hh Hrp Hprev. pose proof (fo_tree _ HW) as HT. pose proof (parent_ne _ w r HT Hr) as Hne.
  split; [by apply link_state_ok| |]; unfold link_state, link_map; cbn [windows set_windows fst snd].
  - intros x. destruct (decide (x = w)) as [->|Hxw]; [rewrite lookup_insert_eq, Hr|rewrite lookup_insert_ne by done].
    + cbn. f_equal. destruct (snd _) as [[]|], previous; done.
    + destruct (decide (x = w_parent r)) as [->|Hxp]; [by rewrite lookup_insert_eq, Hrp|by rewrite lookup_insert_ne].
  - intros x rx rx' Hx Hx' Hpx. assert (x ≠ w) by (intros ->; congruence). rewrite lookup_insert_ne in Hx' by done.
    destruct (decide (x = w_parent r)) as [->|Hxp]; [rewrite lookup_insert_eq in Hx'; by simplify_eq|].
    rewrite lookup_insert_ne in Hx' by done. by simplify_eq.
Qed.

Section requests.
Context (to_lower : Z → Z).
Notation ws_ok := (ws_ok to_lower).

(** A dead window is an orphan, so the parents of a window that has no orphan
    above it are live. *)
Lemma parent_live W w r l : tree_ok W → path W w l → w ≠ 0 → W !! w = Some r → w_parent r ≠ 0 →
  (∀ x rx, x ∈ l → W !! x = Some rx → w_is_orphan rx = false) →
  ∃ rp, W !! w_parent r = Some rp ∧ w_handle rp ≠ 0.
Proof.
  intros HW Hl Hw Hr Hp Ho. destruct (t_member _ HW w r Hr Hp) as (rp & Hrp & _). exists rp. split; [done|]. intros Hz.
  destruct (t_dead _ HW _ rp Hrp Hz) as [_ Hor]. destruct (path_rest _ _ _ _ Hl Hw Hr) as (k & -> & Hk).
  rewrite (Ho (w_parent r) rp) in Hor; [done| |done]. right. by apply (path_head W).
Qed.

(** What [set_parent] does to the window it moves. *)
Definition parent_set (s s' : wstate) (w q : Z) : Prop :=
  ∃ r r', windows s !! w = Some r ∧ windows s' !! w = Some r' ∧ w_handle r ≠ 0 ∧ w_parent r ≠ 0 ∧
    if decide (q = 0) then w_parent r' = w_parent r ∧ w_is_linked r' = false ∧ w_is_orphan r' = true
    else live (windows s) q ∧ ¬ under (windows s) w q ∧ w_parent r' = q ∧ w_is_linked r' = true.

(** A window that is, or is below, an orphan. *)
Definition orphaned (W : winmap) (w : Z) : Prop := ∃ l x rx, path W w l ∧ x ∈ l ∧ W !! x = Some rx ∧ w_is_orphan rx = true.

(** The test of the orphans. *)
Lemma orphan_test_ok s w l (Q : bool → wstate → Prop) : path (windows s) w l → (orphaned (windows s) w → Q true s) →
  (¬ orphaned (windows s) w → (∀ x rx, x ∈ l → windows s !! x = Some rx → w_is_orphan rx = false) → Q false s) →
  wp (is_orphan_window w) Q s.
Proof.
  intros Hl HT HF. eapply wp_mono; [by eapply is_orphan_window_ok|]. cbv beta. intros b s' [-> Hb]. destruct b.
  { apply HT. destruct (proj1 Hb eq_refl) as (x & rx & Hx & Hrx & Ho). by exists l, x, rx. }
  apply HF; [intros (l' & x & rx & Hl' & Hx & Hrx & Ho); rewrite (path_unique _ _ _ _ Hl' Hl) in Hx; enough (false = true) by done; apply Hb; eauto|].
  intros x rx Hx Hrx. destruct (w_is_orphan rx) eqn:E; [|done]. enough (false = true) by done. apply Hb. eauto.
Qed.

Lemma set_parent_step s w q r : ws_ok s → windows s !! w = Some r → w_handle r ≠ 0 → w_parent r ≠ 0 →
  (∃ rp, windows s !! w_parent r = Some rp ∧ w_handle rp ≠ 0) → (q = 0 ∨ live (windows s) q) →
  wp (set_parent_window w q) (λ _ s', ws_ok s' ∧
    (q ≠ 0 ∧ under (windows s) w q ∧ windows s' = windows s ∧ win_error s' = WIN_INVALID_PARAMETER ∨ parent_set s s' w q)) s.
Proof.
  intros Hs Hr Hh Hp (rp & Hrp & Hhp) Hq. pose proof (ws_forest _ _ Hs) as Hf. destruct Hq as [->|Hq].
  - eapply set_parent_null_ok; [apply Hf|done..|]. split; [apply ws_keeps; [done|by apply orphan_keeps]|]. right.
    exists r, (orphan_window (w_parent r) r). cbn [windows set_windows]. rewrite orphan_map_self. by split_and!.
  - pose proof Hq as (rq & Hrq & Hhq)%live_lookup.
    pose proof (proj1 (Z.ltb_lt _ _) (refs_grabbable _ _ q rq Hf (ws_handles _ _ Hs) Hrq)) as Hbq.
    eapply wp_mono; [by apply (set_parent_window_ok s w q r rp rq)|]. cbv beta. intros b s' [(Hcyc & _ & ->)|(Hcyc & _ & W' & c & -> & HP)].
    { split; [by apply ws_ok_error|left]. split_and!; [by eapply live_nonzero|done..]. }
    pose proof (join_keeps s w q r rp rq Hf Hr Hp Hrp Hrq Hcyc Hh Hhp) as HK.
    assert (HK' : keeps (windows s) W') by (eapply keeps_trans; [done|by apply keeps_paint; [apply HK|]]).
    split; [by apply ws_ok_calls, ws_keeps|]. right. pose proof (HP w) as HPw. rewrite join_map_self in HPw.
    inversion HPw as [? r' [f ->] E1 E2|]. subst. exists r. eexists. split_and!; [done|by symmetry|done|done|].
    rewrite decide_False by (by eapply live_nonzero). split_and!; try done. by destruct (snd _) as [[]|].
Qed.

(** [req_destroy_window]. *)
Lemma req_destroy_window_ok s h : ws_ok s → current s ≠ 0 → wp (req_destroy_window h) (λ _ s', ws_ok s') s.
Proof.
  intros Hs Hc. unfold req_destroy_window, set_error. wp_steps. destruct (h =? 0).
  { eapply wp_mono; [by apply destroy_thread_windows_ok|]. by intros _ s' [? _]. }
  apply wp_bind, (get_window_ok to_lower); [done|wp_steps; by apply ws_ok_error|]. intros w r Hr Hh Hw.
  rewrite (proj2 (Z.eqb_neq w 0)) by done. wp_read ltac:(done). destruct (Z.eqb_spec (w_parent r) 0) as [E|E]; cbn [negb].
  - destruct (_ =? _); [|wp_steps; by apply ws_ok_error]. eapply wp_mono; [by apply (detach_window_thread_ok to_lower s w r)|]. by intros _ s' [? _].
  - eapply wp_mono; [by apply (destroy_window_ok to_lower s w r)|]. by intros _ s' [? _].
Qed.
End requests.

(** * Windows: the property arrays *)

(** ** The map *)

Definition used (p : property) : Prop := prop_type p ≠ PROP_TYPE_FREE.

(** The value of an atom. *)
Definition prop_at (l : list property) (atom : Z) : option (property_type * Z) :=
  (λ x, (prop_type (snd x), prop_data (snd x))) <$> property_index l 0 atom.

(** An atom has one entry at most. *)
Definition props_ok (l : list property) : Prop :=
  ∀ i j p q, l !! i = Some p → l !! j = Some q → used p → used q → prop_atom p = prop_atom q → i = j.

Lemma property_index_shift l k atom : property_index l k atom = (λ x, ((fst x + k)%nat, snd x)) <$> property_index l 0 atom.
Proof.
  revert k. induction l as [|p l IH]; intros k; [done|]. cbn. rewrite (IH (S k)), (IH 1%nat).
  repeat case_match; try done; cbn; destruct (property_index l 0 atom) as [[i q]|]; cbn; try done; do 2 f_equal; lia.
Qed.

(** [property_index] finds the entry of the atom. *)
Lemma property_index_some l atom i p : property_index l 0 atom = Some (i, p) → l !! i = Some p ∧ used p ∧ prop_atom p = atom.
Proof.
  revert i. induction l as [|q l IH]; intros i; [done|]. cbn. unfold used. case_decide as Hf; [|destruct (Z.eqb_spec (prop_atom q) atom) as [E|E]].
  2: by intros [= <- <-].
  all: rewrite property_index_shift; destruct (property_index l 0 atom) as [[j q']|]; [|done]; intros [= <- ->]; rewrite Nat.add_1_r; by apply IH.
Qed.

Lemma property_index_none l atom : property_index l 0 atom = None → ∀ i p, l !! i = Some p → used p → prop_atom p ≠ atom.
Proof.
  induction l as [|q l IH]; [done|]. cbn. unfold used. case_decide as Hf; [|destruct (Z.eqb_spec (prop_atom q) atom) as [E|E]]; [|done|].
  all: rewrite property_index_shift, fmap_None; intros Hn [|i] p; cbn; [intros [= <-]; congruence|]; eauto.
Qed.

Lemma property_index_iff l atom i p : props_ok l → l !! i = Some p → used p → prop_atom p = atom → property_index l 0 atom = Some (i, p).
Proof.
  intros Hl Hi Hu Ha. destruct (property_index l 0 atom) as [[j q]|] eqn:E.
  - destruct (property_index_some _ _ _ _ E) as (Hj & Huq & Eq). assert (i = j) as -> by (eapply Hl; eauto; congruence). congruence.
  - by destruct (property_index_none l atom E i p).
Qed.

(** Two arrays with the same used entries for an atom agree on it. *)
Lemma prop_at_ext l l' atom : props_ok l → props_ok l' →
  (∀ p, used p → prop_atom p = atom → (∃ i, l !! i = Some p) ↔ ∃ i, l' !! i = Some p) → prop_at l' atom = prop_at l atom.
Proof.
  intros Hl Hl' He. unfold prop_at. destruct (property_index l 0 atom) as [[i p]|] eqn:E.
  - destruct (property_index_some _ _ _ _ E) as (Hi & Hu & Ha). destruct (proj1 (He p Hu Ha)) as [j Hj]; [eauto|].
    by rewrite (property_index_iff l' atom j p).
  - destruct (property_index l' 0 atom) as [[i p]|] eqn:E'; [|done].
    destruct (property_index_some _ _ _ _ E') as (Hi & Hu & Ha). destruct (proj2 (He p Hu Ha)) as [j Hj]; [eauto|].
    by destruct (property_index_none l atom E j p).
Qed.

(** The loop of [set_property]. *)
Lemma find_property_spec l k atom free :
  snd (find_property l k atom free) = fst <$> property_index l k atom ∧
  (property_index l k atom = None → ∀ j, fst (find_property l k atom free) = Some j →
    free = Some j ∨ ∃ i p, j = (i + k)%nat ∧ l !! i = Some p ∧ ¬ used p).
Proof.
  unfold used. revert k free. induction l as [|q l IH]; intros k free; [split; [done|]; cbn; auto|]. cbn.
  case_decide as Hf; [|destruct (Z.eqb_spec (prop_atom q) atom) as [E|E]; [by split|]].
  - destruct (IH (S k) (Some k)) as [-> Hfree]. split; [done|]. intros Hn j Hj. right.
    destruct (Hfree Hn j Hj) as [[= <-]|(i & p & -> & Hi & Hp)]; [exists 0%nat, q; split_and!; [done|done|by intros []]|]. exists (S i), p. split_and!; [lia|done|done].
  - destruct (IH (S k) free) as [-> Hfree]. split; [done|]. intros Hn j Hj.
    destruct (Hfree Hn j Hj) as [->|(i & p & -> & Hi & Hp)]; [by left|right]. exists (S i), p. split_and!; [lia|done|done].
Qed.

(** ** Updates *)

(** Replacing an entry that is free or of the atom, when no other has the atom. *)
Lemma props_insert l i p p0 : props_ok l → l !! i = Some p0 → (∀ j q, l !! j = Some q → used q → prop_atom q = prop_atom p → j = i) →
  props_ok (<[i:=p]> l).
Proof.
  intros Hl Hi Hno j k q q' Hj Hk Hq Hq' E.
  destruct (decide (j = i)) as [->|Hji], (decide (k = i)) as [->|Hki]; [done|..].
  - rewrite list_lookup_insert_eq in Hj by (by eapply lookup_lt_Some). rewrite list_lookup_insert_ne in Hk by done. simplify_eq.
    by rewrite (Hno k q').
  - rewrite list_lookup_insert_eq in Hk by (by eapply lookup_lt_Some). rewrite list_lookup_insert_ne in Hj by done. simplify_eq.
    by rewrite (Hno j q).
  - rewrite list_lookup_insert_ne in Hj, Hk by done. by apply (Hl j k q q').
Qed.

Lemma prop_at_insert l i p p0 b : props_ok l → props_ok (<[i:=p]> l) → l !! i = Some p0 → used p →
  (used p0 → prop_atom p0 = prop_atom p) →
  prop_at (<[i:=p]> l) b = if decide (b = prop_atom p) then Some (prop_type p, prop_data p) else prop_at l b.
Proof.
  intros Hl Hl' Hi Hu Ha. assert (Hi' : <[i:=p]> l !! i = Some p) by (apply list_lookup_insert_eq; by eapply lookup_lt_Some).
  case_decide as E; [unfold prop_at; by rewrite (property_index_iff _ b i p)|]. apply prop_at_ext; [done|done|].
  intros q Hq Eq. split; intros [j Hj]; exists j.
  - rewrite list_lookup_insert_ne; [done|]. intros <-. simplify_eq. by destruct E; rewrite Ha.
  - destruct (decide (j = i)) as [->|Hji]; [simplify_eq|by rewrite list_lookup_insert_ne in Hj by done].
Qed.

Lemma props_app l p : props_ok l → (∀ j q, l !! j = Some q → used q → prop_atom q ≠ prop_atom p) → props_ok (l ++ [p]).
Proof.
  intros Hl Hno j k q q' Hj Hk Hq Hq' E. rewrite lookup_app_Some in Hj, Hk.
  assert (Hone : ∀ n q, [p] !! n = Some q → n = 0%nat ∧ q = p) by (by intros [|[]] ? [= <-]).
  destruct Hj as [Hj|[Hlj Hj]], Hk as [Hk|[Hlk Hk]].
  - by apply (Hl j k q q').
  - apply Hone in Hk as [_ ->]. by destruct (Hno j q).
  - apply Hone in Hj as [_ ->]. by destruct (Hno k q').
  - apply Hone in Hj as [? _]. apply Hone in Hk as [? _]. lia.
Qed.

Lemma prop_at_app l p b : props_ok l → props_ok (l ++ [p]) → used p →
  prop_at (l ++ [p]) b = if decide (b = prop_atom p) then Some (prop_type p, prop_data p) else prop_at l b.
Proof.
  intros Hl Hl' Hu. assert (Hi : (l ++ [p]) !! length l = Some p) by (by rewrite lookup_app_r, Nat.sub_diag).
  case_decide as E; [unfold prop_at; by rewrite (property_index_iff _ b (length l) p)|]. apply prop_at_ext; [done|done|].
  intros q Hq Eq. split; intros [j Hj]; exists j; [by apply lookup_app_l_Some|].
  apply lookup_app_Some in Hj as [?|[_ Hj]]; [done|]. destruct (j - length l)%nat as [|[]]; cbn in Hj; by simplify_eq.
Qed.

Lemma prop_at_free l i p p0 b : props_ok l → props_ok (<[i:=p]> l) → l !! i = Some p0 → used p0 → ¬ used p →
  prop_at (<[i:=p]> l) b = if decide (b = prop_atom p0) then None else prop_at l b.
Proof.
  intros Hl Hl' Hi Hu Hnu. case_decide as E.
  - unfold prop_at. destruct (property_index _ 0 b) as [[j q]|] eqn:Hj; [|done].
    destruct (property_index_some _ _ _ _ Hj) as (Hjq & Hq & Eq). destruct (decide (j = i)) as [->|Hne].
    + rewrite list_lookup_insert_eq in Hjq by (by eapply lookup_lt_Some). by simplify_eq.
    + rewrite list_lookup_insert_ne in Hjq by done. destruct Hne. apply (Hl j i q p0); congruence.
  - apply prop_at_ext; [done|done|]. intros q Hq Eq. split; intros [j Hj]; exists j.
    + rewrite list_lookup_insert_ne; [done|]. intros <-. simplify_eq.
    + destruct (decide (j = i)) as [->|Hne]; [|by rewrite list_lookup_insert_ne in Hj].
      rewrite list_lookup_insert_eq in Hj by (by eapply lookup_lt_Some). by simplify_eq.
Qed.

Lemma grab_atom_ok to_lower t atom : atom_ok to_lower t → atom ≠ 0 →
  wp (grab_atom atom) (λ r t', atom_ok to_lower t' ∧ (r = 0 → MIN_STR_ATOM <= atom ∧ names t atom = None)) t.
Proof.
  intros Ht Ha. unfold grab_atom. destruct (Z.leb_spec MIN_STR_ATOM atom) as [Hm|Hm]; [|wp_steps; by split].
  wp_steps. eapply wp_mono; [by apply (get_atom_entry_ok to_lower)|]. cbv beta. intros o t' [-> ->].
  destruct (entry_at t (atom - MIN_STR_ATOM)) as [a|] eqn:He.
  - destruct (ao_used _ _ Ht (atom - MIN_STR_ATOM) a He) as (_ & e & Hae & _).
    unfold put_entry. wp_steps. eapply wp_get_entry; [done|]. wp_steps.
    destruct (recount_ok to_lower t a e (int32 (ae_count e + 1)) Ht Hae) as [Hok _]; [apply int32_in_range|]. split; [done|]. intros ?. done.
  - wp_steps. split; [by apply (same_table_ok to_lower t)|]. intros _. split; [done|].
    apply (names_none to_lower) in He; [|done]. by rewrite Z.sub_add in He.
Qed.

(** ** The operations *)

Section operations.
Context (to_lower : Z → Z).
Notation ws_ok := (ws_ok to_lower).

(** The properties of [w] become [l]. *)
Definition props_set (s s' : wstate) (w : Z) (r : window) (l : list property) : Prop :=
  ws_ok s' ∧ current s' = current s ∧ ∃ n, windows s' = <[w:=set_w_properties l (set_w_prop_alloc n r)]> (windows s).

Lemma props_set_ok s w r l n t : ws_ok s → windows s !! w = Some r → atom_ok to_lower t →
  props_set s (set_gatoms t (set_windows (<[w:=set_w_properties l (set_w_prop_alloc n r)]> (windows s)) s)) w r l.
Proof.
  intros Hs Hr Ht. split; [|split; [done|by exists n]].
  apply (ws_ok_atoms to_lower (set_windows _ s)); [|done]. by apply (bland_ok to_lower s w r).
Qed.

Lemma props_same s w r t : ws_ok s → windows s !! w = Some r → atom_ok to_lower t →
  props_set s (set_gatoms t s) w r (w_properties r).
Proof.
  intros Hs Hr Ht. split; [by apply ws_ok_atoms|split; [done|]]. exists (w_prop_alloc r). cbn. rewrite insert_id; [done|].
  rewrite Hr. by destruct r.
Qed.

(** When the entry cannot be made. *)
Definition set_refused (s : wstate) (l : list property) (atom : Z) (type : property_type) (alloc : bool) : Prop :=
  prop_at l atom = None ∧ (alloc = false ∨ type = PROP_TYPE_STRING ∧ MIN_STR_ATOM <= atom ∧ names (gatoms s) atom = None).

Definition inserted (l l' : list property) (atom : Z) (v : option (property_type * Z)) : Prop :=
  props_ok l' ∧ ∀ b, prop_at l' b = if decide (b = atom) then v else prop_at l b.

Definition set_result (s : wstate) (w : Z) (r : window) (atom data : Z) (type : property_type) (alloc : bool) (s' : wstate) : Prop :=
  ∃ l', props_set s s' w r l' ∧
    (l' = w_properties r ∧ set_refused s (w_properties r) atom type alloc ∨
     inserted (w_properties r) l' atom (Some (type, data))).

(** The entry that is reused. *)
Lemma replace_property_ok s w r atom data type alloc i p0 t : ws_ok s → windows s !! w = Some r → props_ok (w_properties r) →
  type ≠ PROP_TYPE_FREE → atom_ok to_lower t → w_properties r !! i = Some p0 → (used p0 → prop_atom p0 = atom) →
  (∀ j q, w_properties r !! j = Some q → used q → prop_atom q = atom → j = i) →
  wp (upd w (λ r, set_w_properties (<[i:=Property type atom data]> (w_properties r)) r))
    (λ _, set_result s w r atom data type alloc) (set_gatoms t s).
Proof.
  intros Hs Hr Hl Hty Ht Hi Hp0 Hno. set (p := Property type atom data). eapply wp_upd; [done|]. exists (<[i:=p]> (w_properties r)). split.
  - pose proof (props_set_ok s w r (<[i:=p]> (w_properties r)) (w_prop_alloc r) t Hs Hr Ht) as H. by destruct r.
  - right. assert (Hok : props_ok (<[i:=p]> (w_properties r))) by (by eapply props_insert). split; [done|]. intros b.
    by rewrite (prop_at_insert _ i p p0).
Qed.

(** The array that grows. *)
Lemma append_property_ok s w r atom data type alloc t : ws_ok s → windows s !! w = Some r → props_ok (w_properties r) →
  type ≠ PROP_TYPE_FREE → atom_ok to_lower t → (∀ j q, w_properties r !! j = Some q → used q → prop_atom q ≠ atom) →
  wp (let full := w_prop_alloc r <=? Z.of_nat (length (w_properties r)) in
      if full && negb alloc then
        set_error WIN_NO_MEMORY ;; if decide (type = PROP_TYPE_STRING) then with_atoms (release_atom atom) else ret tt
      else
        (if full then upd w (λ r, set_w_prop_alloc (w_prop_alloc r + 16) r) else ret tt) ;;
        upd w (λ r, set_w_properties (w_properties r ++ [Property type atom data]) r))
    (λ _, set_result s w r atom data type alloc) (set_gatoms t s).
Proof.
  intros Hs Hr Hl Hty Ht Hno. cbv zeta. set (p := Property type atom data). set (full := _ <=? _).
  assert (Hins : inserted (w_properties r) (w_properties r ++ [p]) atom (Some (type, data))).
  { assert (Hok : props_ok (w_properties r ++ [p])) by (by apply props_app). split; [done|]. intros b. by rewrite (prop_at_app _ p). }
  destruct (full && negb alloc) eqn:Hfail.
  - apply andb_true_iff in Hfail as [_ Halloc%negb_true_iff]. unfold set_error. wp_steps.
    apply (wp_mono _ (λ _ s', ∃ t, s' = set_gatoms t (set_win_error WIN_NO_MEMORY s) ∧ atom_ok to_lower t)).
    { case_decide; [|wp_steps; exists t; by destruct s]. apply wp_with_atoms. unfold release_atom.
      destruct (MIN_STR_ATOM <=? atom); [|wp_steps; by exists t]. eapply wp_mono; [by apply (delete_atom_ok to_lower)|].
      cbv beta. intros _ t' [Ht' _]. by exists t'. }
    intros _ s' (t' & -> & Ht'). exists (w_properties r). split.
    + exact (props_same (set_win_error WIN_NO_MEMORY s) w r t' (ws_ok_error _ _ _ Hs) Hr Ht').
    + left. split; [done|]. split; [|by left]. unfold prop_at. destruct (property_index (w_properties r) 0 atom) as [[i q]|] eqn:E; [|done].
      destruct (property_index_some _ _ _ _ E) as (Hi & Hu & Eq). by destruct (Hno i q).
  - destruct full; wp_steps.
    + eapply wp_upd; [done|]. eapply wp_upd; [apply lookup_insert_eq|]. cbn. rewrite insert_insert_eq.
      exists (w_properties r ++ [p]). split; [|by right]. exact (props_set_ok s w r (w_properties r ++ [p]) (w_prop_alloc r + 16) t Hs Hr Ht).
    + eapply wp_upd; [done|]. exists (w_properties r ++ [p]). split; [|by right].
      pose proof (props_set_ok s w r (w_properties r ++ [p]) (w_prop_alloc r) t Hs Hr Ht) as H. by destruct r.
Qed.

Lemma set_property_ok s w r atom data type alloc : ws_ok s → windows s !! w = Some r → props_ok (w_properties r) →
  atom ≠ 0 → type ≠ PROP_TYPE_FREE → wp (set_property w atom data type alloc) (λ _, set_result s w r atom data type alloc) s.
Proof.
  intros Hs Hr Hl Ha Hty. unfold set_property. wp_read ltac:(done). pose proof (ws_atoms _ _ Hs) as Hat.
  destruct (find_property_spec (w_properties r) 0 atom None) as [Hfound Hfree]. rewrite Hfound.
  destruct (property_index (w_properties r) 0 atom) as [[i p0]|] eqn:Hidx; cbn [fmap option_fmap option_map fst].
  { destruct (property_index_some _ _ _ _ Hidx) as (Hi & Hup & Eq). assert (Hid : set_gatoms (gatoms s) s = s) by (by destruct s).
    pose proof (replace_property_ok s w r atom data type alloc i p0 (gatoms s)) as H. rewrite Hid in H. apply H; try done.
    intros j q Hj Huq Eqq. apply (Hl j i q p0); congruence. }
  pose proof (property_index_none _ atom Hidx) as Hnone. assert (Hp : prop_at (w_properties r) atom = None) by (unfold prop_at; by rewrite Hidx).
  apply wp_bind, (wp_mono _ (λ b s', ∃ t, s' = set_gatoms t s ∧ atom_ok to_lower t ∧ (b = false → set_refused s (w_properties r) atom type alloc))).
  { case_decide as E; [|wp_steps; exists (gatoms s); by destruct s]. apply wp_bind, wp_with_atoms.
    eapply wp_mono; [by apply (grab_atom_ok to_lower)|]. cbv beta. intros a t [Ht Hz]. wp_steps. exists t. split_and!; [done|done|].
    intros Hb%negb_false_iff%Z.eqb_eq. split; [done|]. right. by destruct (Hz Hb). }
  intros b s1 (t & -> & Ht & Hb). destruct b; cbn [negb].
  2:{ wp_steps. exists (w_properties r). split; [by apply props_same|left; auto]. }
  destruct (fst (find_property (w_properties r) 0 atom None)) as [i|]; [|by apply append_property_ok].
  destruct (Hfree eq_refl i eq_refl) as [?|(j & q & -> & Hj & Hq)]; [done|]. rewrite Nat.add_0_r.
  apply (replace_property_ok s w r atom data type alloc j q); try done. intros k q' Hk Hk' Hk2. by destruct (Hnone k q').
Qed.

Lemma remove_property_ok s w r atom : ws_ok s → windows s !! w = Some r → props_ok (w_properties r) →
  wp (remove_property w atom) (λ x s', ∃ l', props_set s s' w r l' ∧ inserted (w_properties r) l' atom None ∧
    x = default 0 (snd <$> prop_at (w_properties r) atom)) s.
Proof.
  intros Hs Hr Hl. unfold remove_property. wp_read ltac:(done). unfold prop_at at 1.
  destruct (property_index (w_properties r) 0 atom) as [[i p]|] eqn:Hidx; cbn [fmap option_fmap option_map snd default from_option].
  - destruct (property_index_some _ _ _ _ Hidx) as (Hi & Hu & Eq).
    apply wp_bind, (wp_mono _ (λ _ s', ∃ t, s' = set_gatoms t s ∧ atom_ok to_lower t)).
    { pose proof (ws_atoms _ _ Hs). case_decide; [|wp_steps; exists (gatoms s); by destruct s]. apply wp_with_atoms. unfold release_atom.
      destruct (MIN_STR_ATOM <=? atom); [|wp_steps; by eexists]. eapply wp_mono; [by apply (delete_atom_ok to_lower)|]. cbv beta. intros _ t' [Ht' _]. by exists t'. }
    intros _ s1 (t & -> & Ht). set (p' := Property PROP_TYPE_FREE (prop_atom p) (prop_data p)). wp_write ltac:(done). wp_steps.
    exists (<[i:=p']> (w_properties r)). split; [|split; [|done]].
    + pose proof (props_set_ok s w r (<[i:=p']> (w_properties r)) (w_prop_alloc r) t Hs Hr Ht) as H. by destruct r.
    + assert (Hok : props_ok (<[i:=p']> (w_properties r))).
      { eapply props_insert; [done|done|]. cbn. intros j q Hj Hq Eqq. by apply (Hl j i q p). }
      split; [done|]. intros b. rewrite <-Eq. apply prop_at_free; [done|done|done|done|]. by intros [].
  - wp_steps. exists (w_properties r). split; [|split; [split; [done|]|done]].
    + pose proof (props_same s w r (gatoms s) Hs Hr (ws_atoms _ _ Hs)) as H. by destruct s.
    + intros b. case_decide as E; [|done]. rewrite E. unfold prop_at. by rewrite Hidx.
Qed.

Lemma get_property_ok s w r atom : windows s !! w = Some r →
  wp (get_property w atom) (λ x s', s' = s ∧ x = default 0 (snd <$> prop_at (w_properties r) atom)) s.
Proof.
  intros Hr. unfold get_property. wp_read ltac:(done). wp_steps. split; [done|]. unfold prop_at.
  by destruct (property_index (w_properties r) 0 atom) as [[]|].
Qed.
End operations.
