(* ===== verification/WindowMoves.v ===== *)
(** * Windows: positions, styles and properties

    The requests that move a window in the Z-order, change its styles, its owner
    or its properties keep the invariant of the state. *)

From stdpp Require Import base list gmap fin_maps.
From S2P Require Import Prelude Atom AtomThms UserHandle UserHandleThms Region Window WindowOps WindowReqs.
From S2P Require Import WindowTree WindowLink WindowParent WindowInv WindowDestroy WindowThread WindowCreate.
From S2P Require Import WindowProps.

Open Scope Z_scope.
Open Scope server_scope.

(** The window of a handle, or 0. *)
Definition window_of (s : wstate) (h : Z) : Z :=
  match get_user_object h NTUSER_OBJ_WINDOW (users s) with Done w _ => w | Fault _ => 0 end.

(** ** Steps that keep handles, threads and desktops *)

Definition steady (s s' : wstate) : Prop :=
  ∃ W' c e, s' = set_win_error e (set_win_calls c (set_windows W' s)) ∧ keeps (windows s) W'.

Lemma steady_refl s : forest_ok (windows s) → steady s s.
Proof. intros Hf. exists (windows s), (win_calls s), (win_error s). split; [by destruct s|by apply keeps_refl]. Qed.
Lemma steady_trans s1 s2 s3 : steady s1 s2 → steady s2 s3 → steady s1 s3.
Proof.
  intros (W2 & c2 & e2 & -> & K2) (W3 & c3 & e3 & -> & K3). exists W3, c3, e3. split; [done|]. by eapply keeps_trans.
Qed.
Lemma steady_forest s s' : steady s s' → forest_ok (windows s').
Proof. intros (W' & c & e & -> & K). apply K. Qed.
Lemma steady_calls s s' c : steady s s' → steady s (set_win_calls c s').
Proof. intros (W' & c' & e & -> & K). by exists W', c, e. Qed.
Lemma steady_win_error s s' e : steady s s' → steady s (set_win_error e s').
Proof. intros (W' & c & e' & -> & K). by exists W', c, e. Qed.

Lemma steady_lookup s s' w r : steady s s' → windows s !! w = Some r → ∃ r', windows s' !! w = Some r' ∧ marks r' = marks r.
Proof.
  intros (W' & c & e & -> & K) Hr. pose proof (kp_marks _ _ K w) as E. rewrite Hr in E. cbn.
  destruct (W' !! w) as [r'|]; [|done]. exists r'. split; [done|]. cbn in E. congruence.
Qed.

Lemma steady_ok to_lower s s' : ws_ok to_lower s → steady s s' → ws_ok to_lower s'.
Proof. intros Hs (W' & c & e & -> & K). by apply ws_ok_error, ws_ok_calls, ws_keeps. Qed.

(** An update of a window that the invariant does not read. *)
Lemma steady_upd s0 s w r f (Q : unit → wstate → Prop) : steady s0 s → windows s !! w = Some r → bland r (f r) → w_thread (f r) = w_thread r →
  (∀ s', steady s0 s' → s' = set_windows (<[w:=f r]> (windows s)) s → Q tt s') → wp (upd w f) Q s.
Proof.
  intros Hst Hr Hb Ht HQ. eapply wp_upd; [done|]. apply HQ; [|done]. eapply steady_trans; [done|].
  exists (<[w:=f r]> (windows s)), (win_calls s), (win_error s). split; [by destruct s|].
  apply (keeps_bland (windows s) w r); [by eapply steady_forest|done..].
Qed.

Lemma offset_children_ok s0 s l dx : steady s0 s → (∀ c, c ∈ l → is_Some (windows s !! c)) →
  wp (offset_children l dx) (λ _ s', steady s0 s') s.
Proof.
  revert s. induction l as [|c l IH]; intros s Hst Hl; [by apply wp_ret|]. cbn [offset_children]. destruct (Hl c) as [rc Hrc]; [by left|].
  apply wp_bind. eapply (steady_upd s0); [done|done|done|done|]. intros s' Hst' ->. apply IH; [done|]. intros c' Hc'. cbn.
  destruct (decide (c' = c)) as [->|Hne]; [rewrite lookup_insert_eq; eauto|]. rewrite lookup_insert_ne by done. apply Hl. by right.
Qed.

(** ** [set_window_pos] *)

(** A window above which to go must be a linked sibling. *)
Definition above_ok (W : winmap) (w : Z) (r : window) (previous : winptr) : Prop :=
  ∀ q, previous = WinAt q → q ≠ w ∧ ∃ rq, W !! q = Some rq ∧ w_parent rq = w_parent r ∧ w_is_linked rq = true.

Lemma above_others W w r rp previous q : tree_ok W → W !! w_parent r = Some rp → w_parent r ≠ 0 → above_ok W w r previous → previous = WinAt q →
  q ∈ others w rp.
Proof.
  intros HW Hrp Hp Hab E. destruct (Hab q E) as (Hne & rq & Hrq & Ep & El). apply elem_of_remove_from. split; [|done].
  destruct (t_member _ HW q rq Hrq) as (rp' & Hrp' & Hin); [by rewrite Ep|]. rewrite Ep in Hrp'. simplify_eq. unfold list_for in Hin. by rewrite El in Hin.
Qed.

Lemma link_window_steady s0 s w r previous : steady s0 s → windows s !! w = Some r → w_parent r ≠ 0 → w_handle r ≠ 0 →
  above_ok (windows s) w r previous →
  wp (link_window w previous) (λ _ s', steady s0 s' ∧ ∃ r', windows s' !! w = Some r' ∧ w_parent r' = w_parent r) s.
Proof.
  intros Hst Hr Hp Hh Hab. pose proof (steady_forest _ _ Hst) as Hf. pose proof (fo_tree _ Hf) as HW.
  destruct (t_member _ HW w r Hr Hp) as (rp & Hrp & _). assert (Hoth : ∀ q, previous = WinAt q → q ∈ others w rp) by (intros q; by eapply above_others).
  eapply wp_mono; [by apply (link_window_ok s w r rp)|]. cbv beta. intros b s' Hs'. destruct (link_noop previous r).
  - destruct Hs' as [_ ->]. split; [done|]. eauto.
  - destruct Hs' as [-> _]. split.
    + eapply steady_trans; [done|]. eexists _, (win_calls s), (win_error s). split; [|by apply (link_keeps s w r rp previous)]. by destruct s.
    + unfold link_state, link_map. cbn. rewrite lookup_insert_eq. eexists. split; [done|]. by destruct (snd _) as [[]|], previous.
Qed.

Lemma steady_desktops s s' : steady s s' → desktops s' = desktops s.
Proof. by intros (W' & c & e & -> & _). Qed.

(** Whether the window is or will be seen. *)
Lemma pos_visible_ok s w r shown : tree_ok (windows s) → windows s !! w = Some r →
  wp (if w_parent r =? 0 then ret shown else v <- is_visible (w_parent r); ret (v && shown)) (λ _ s', s' = s) s.
Proof.
  intros HW Hr. destruct (Z.eqb_spec (w_parent r) 0) as [E|E]; [by wp_steps|]. destruct (t_rooted _ HW w r Hr) as [l Hl].
  assert (Hw : w ≠ 0) by (intros ->; by rewrite (t_null _ HW) in Hr).
  destruct (path_rest _ w r l Hl Hw Hr) as (k & -> & Hk).
  apply wp_bind. eapply wp_mono; [by eapply is_visible_ok|]. cbv beta. intros v s' ->. by wp_steps.
Qed.

(** The visibility bits. *)
Lemma pos_show_ok s0 s w r flags (Q : unit → wstate → Prop) : steady s0 s → windows s !! w = Some r →
  (∀ s' st, steady s0 s' → windows s' !! w = Some (set_w_style st r) → Q tt s') →
  wp (if has flags SWP_SHOWWINDOW then upd w (λ r, set_w_style (Z.lor (w_style r) WS_VISIBLE) r)
      else if has flags SWP_HIDEWINDOW then upd w (λ r, set_w_style (Z.land (w_style r) (not32 WS_VISIBLE)) r)
      else ret tt) Q s.
Proof.
  intros Hst Hr HQ. assert (Hs : r = set_w_style (w_style r) r) by (by destruct r).
  destruct (has flags SWP_SHOWWINDOW); [|destruct (has flags SWP_HIDEWINDOW)].
  3: { apply wp_ret, (HQ s (w_style r)); [done|]. by rewrite <-Hs. }
  all: eapply (steady_upd s0); [done|done|done|done|]; intros s' Hst' ->; eapply HQ; [done|apply lookup_insert_eq].
Qed.

Lemma is_toplevel_ok s w r : tree_ok (windows s) → windows s !! w = Some r → wp (is_toplevel w) (λ _ s', s' = s) s.
Proof.
  intros HW Hr. unfold is_toplevel, is_desktop_window. wp_read ltac:(done). destruct (Z.eqb_spec (w_parent r) 0) as [E|E]; [by wp_steps|].
  destruct (t_member _ HW w r Hr E) as (rp & Hrp & _). wp_read ltac:(done). by wp_steps.
Qed.

Lemma set_window_pos_ok to_lower s w r previous flags x vis : ws_ok to_lower s → windows s !! w = Some r → w_handle r ≠ 0 →
  (has flags SWP_NOZORDER = false → w_parent r ≠ 0 → above_ok (windows s) w r previous) →
  wp (set_window_pos w previous flags x vis) (λ _ s', steady s s') s.
Proof.
  intros Hs Hr Hh Hab. pose proof (ws_forest _ _ Hs) as Hf. pose proof (steady_refl s Hf) as Hst. unfold set_window_pos.
  wp_read ltac:(done). apply wp_bind. eapply wp_mono; [apply (pos_visible_ok s w r); [apply Hf|done]|]. cbv beta. intros v s' ->.
  destruct (v && negb vis); [by wp_steps|]. apply wp_bind. eapply (steady_upd s); [done|done|done|done|]. intros s1 Hst1 E1.
  set (r1 := set_rects x r) in *. assert (Hr1 : windows s1 !! w = Some r1) by (rewrite E1; apply lookup_insert_eq).
  apply wp_bind, (wp_mono _ (λ _ s', steady s s')).
  { destruct (has flags SWP_NOZORDER) eqn:Hz; cbn [negb andb]; [by wp_steps|]. destruct (Z.eqb_spec (w_parent r) 0) as [E|E]; cbn [negb]; [by wp_steps|].
    eapply wp_mono; [apply (link_window_steady s s1 w r1); [done|done|done|done|]|by intros _ s' [? _]].
    intros q Eq. destruct (Hab eq_refl E q Eq) as (Hne & rq & Hrq & ? & ?). split; [done|]. exists rq. split_and!; [|done|done].
    rewrite E1. cbn. by rewrite lookup_insert_ne. }
  intros z s2 Hst2. destruct (steady_lookup s s2 w r Hst2 Hr) as (r2 & Hr2 & Hm2). apply wp_bind.
  eapply (pos_show_ok s s2 w r2); [done|done|]. intros s3 st Hst3 Hr3. pose proof (fo_tree _ (steady_forest _ _ Hst3)) as HW3.
  apply wp_bind. eapply wp_mono; [by eapply is_toplevel_ok|]. cbv beta. intros top s' ->.
  apply wp_bind, (wp_mono _ (λ _ s', ∃ c, s' = set_win_calls c s3)).
  { unfold emit. destruct top; wp_steps; [by eexists|exists (win_calls s3); by destruct s3]. }
  intros _ s4 [c ->]. wp_read ltac:(exact Hr3). apply wp_bind, (wp_mono _ (λ _ s', steady s s')).
  { destruct (has _ WS_EX_LAYOUTRTL); [|wp_steps; by apply steady_calls]. destruct (negb (_ =? _)); [|wp_steps; by apply steady_calls].
    apply (offset_children_ok s); [by apply steady_calls|]. intros c' Hc'.
    destruct (t_children _ HW3 w _ c' Hr3 Hc') as (rc & Hrc & _). by exists rc. }
  intros _ s5 Hst5. unfold get_desktop. wp_steps. destruct (dk_known _ _ (ws_desktops _ _ Hs) w r Hr) as [d Hd].
  eapply wp_deref; [by rewrite (steady_desktops s)|]. apply wp_bind, (wp_mono _ (λ _ s', steady s s')).
  { unfold emit. destruct (_ =? _); wp_steps; [by apply steady_calls|done]. }
  intros _ s6 Hst6. unfold emit, set_error. destruct (negb v); wp_steps; [done|]. by apply steady_win_error, steady_calls.
Qed.

(** ** The walk to the clipping window *)

Lemma get_top_clipping_window_ok s w r : tree_ok (windows s) → windows s !! w = Some r →
  wp (get_top_clipping_window w) (λ t s', s' = s ∧ is_Some (windows s !! t)) s.
Proof.
  intros HW Hr. unfold get_top_clipping_window, tree_fuel. wp_steps. destruct (t_rooted _ HW w r Hr) as [l Hl].
  pose proof (path_length _ _ _ Hl) as Hn. revert Hn. generalize (base.size (windows s)) as n. revert r Hr.
  induction Hl as [|w r' l Hw Hr' Hl IH]; intros r Hr n Hn; [by rewrite (t_null _ HW) in Hr|].
  destruct n as [|n]; [simpl in Hn; lia|]. assert (r' = r) as -> by congruence. cbn [top_clipping_loop]. wp_read ltac:(done).
  destruct (_ || (w_parent r =? 0)) eqn:Hor; [wp_steps; eauto|]. apply orb_false_iff in Hor as [_ Hp%Z.eqb_neq].
  destruct (t_member _ HW w r Hr Hp) as (rp & Hrp & _). unfold is_desktop_window. apply wp_bind. wp_read ltac:(done). wp_steps.
  destruct (_ =? 0); [wp_steps; eauto|]. apply (IH rp Hrp). simpl in Hn. lia.
Qed.

Section requests.
Context (to_lower : Z → Z).
Notation ws_ok := (ws_ok to_lower).

(** [get_window] as a function of the handle. *)
Lemma get_window_of s h (Q : Z → wstate → Prop) : ws_ok s →
  (window_of s h = 0 → Q 0 (set_win_error WIN_INVALID_WINDOW_HANDLE s)) →
  (∀ w r, w = window_of s h → windows s !! w = Some r → w_handle r ≠ 0 → w ≠ 0 → Q w s) → wp (get_window h) Q s.
Proof.
  intros Hs H0 HQ.
  assert (Hw : wp (get_window h) (λ w s', w = window_of s h ∧ (w = 0 ∧ s' = set_win_error WIN_INVALID_WINDOW_HANDLE s ∨
    s' = s ∧ w ≠ 0 ∧ ∃ r, windows s !! w = Some r ∧ w_handle r ≠ 0)) s).
  { unfold get_window. apply wp_bind, wp_with_users. unfold window_of.
    pose proof (get_user_object_ok (users s) h NTUSER_OBJ_WINDOW (ho_table _ _ (ws_handles _ _ Hs))) as Hu.
    assert (Hsame : set_users (users s) s = s) by (by destruct s).
    destruct (get_user_object h NTUSER_OBJ_WINDOW (users s)) as [p u|f] eqn:Eo; unfold wp in Hu |- * at 1; rewrite Eo in *; [|done].
    destruct Hu as [-> Hp]. rewrite Hsame.
    destruct (Z.eqb_spec p 0) as [E|E]; [unfold set_error; wp_steps; auto|]. wp_steps. split; [done|]. right.
    destruct Hp as [?|(i & e & Ht & He & Hty & Hob)]; [done|].
    destruct (target_some _ _ _ (ho_table _ _ (ws_handles _ _ Hs)) Ht) as (_ & Hi & _).
    destruct (ho_entry _ _ (ws_handles _ _ Hs) i e Hi He Hty) as (w & Hw & e' & _ & _ & _ & _ & Hw').
    assert (w = p) as -> by congruence. split_and!; [done|done|by apply live_lookup]. }
  eapply wp_mono; [exact Hw|]. cbv beta. intros w s' [Ew [[Ez ->]|(-> & Hne & r & Hr & Hh)]].
  - rewrite Ez in Ew |- *. by apply H0.
  - by apply (HQ w r).
Qed.

(** The test of [previous] lets siblings through. *)
Lemma zorder_request_ok s w r ph flags : ws_ok s → windows s !! w = Some r →
  wp (zorder_request w r ph flags) (λ o s', (s' = s ∨ ∃ e, o = None ∧ s' = set_win_error e s) ∧ ∀ p f, o = Some (p, f) →
    has f SWP_NOZORDER = false → w_parent r ≠ 0 ∧ ∀ q, p = WinAt q → q ≠ w ∧ q = window_of s ph ∧ ∃ rq, windows s !! q = Some rq ∧ w_parent rq = w_parent r) s.
Proof.
  intros Hs Hr. unfold zorder_request. set (fl := if w_parent r =? 0 then _ else flags). destruct (has fl SWP_NOZORDER) eqn:Hz.
  { wp_steps. split; [by left|]. intros p f [= <- <-]. congruence. }
  assert (Hp : w_parent r ≠ 0).
  { intros E. unfold fl in Hz. rewrite E, Z.eqb_refl in Hz. unfold has in Hz. apply negb_false_iff, Z.eqb_eq in Hz.
    rewrite Z.land_lor_distr_l, Z.land_diag in Hz. apply Z.lor_eq_0_iff in Hz as [_ Hz]. done. }
  apply wp_bind, (wp_mono _ (λ o s', (s' = s ∨ ∃ e, o = None ∧ s' = set_win_error e s) ∧ ∀ q, o = Some (WinAt q) →
    q = window_of s ph ∧ ∃ rq, windows s !! q = Some rq ∧ w_parent rq = w_parent r)).
  { unfold find_previous, set_error. repeat (case_match; [wp_steps; split; [by left|done]|]).
    apply wp_bind, get_window_of; [done|intros _; cbn; wp_steps; split; [right; by eexists|done]|]. intros q rq Eq Hrq Hhq Hq0.
    rewrite (proj2 (Z.eqb_neq q 0)) by done. wp_read ltac:(done). wp_read ltac:(done). destruct (Z.eqb_spec (w_parent rq) (w_parent r)) as [Ep|Ep]; cbn [negb]; wp_steps.
    - split; [by left|]. intros q' [= <-]. eauto.
    - split; [right; by eexists|done]. }
  intros o s' [Hs' Ho]. wp_steps. destruct o as [p|]; [|split; [destruct Hs' as [->|(e & _ & ->)]; eauto|done]].
  split; [destruct Hs' as [->|(e & [=] & _)]; by left|]. intros p' f [= <- <-] Hf. split; [done|]. intros q ->. destruct (Ho q eq_refl) as [Hq Hrq].
  split; [|done]. intros ->. rewrite decide_True in Hf by done. unfold has in Hf. apply negb_false_iff, Z.eqb_eq in Hf.
  rewrite Z.land_lor_distr_l, Z.land_diag in Hf. apply Z.lor_eq_0_iff in Hf as [_ Hf]. done.
Qed.
Lemma wp_emit_if s0 s (b : bool) c (Q : unit → wstate → Prop) : steady s0 s →
  (∀ s', steady s0 s' → windows s' = windows s → Q tt s') → wp (if b then emit c else ret tt) Q s.
Proof. intros Hst HQ. unfold emit. destruct b; wp_steps; apply HQ; try done. by apply steady_calls. Qed.

Lemma has_lor_false x y m : has (Z.lor x y) m = false → has x m = false.
Proof.
  unfold has. rewrite !negb_false_iff, !Z.eqb_eq, Z.land_lor_distr_l. by intros [? _]%Z.lor_eq_0_iff.
Qed.

(** The rest of the request, after the move. *)
Lemma pos_reply_ok s0 s w r : ws_ok s → steady s0 s → is_Some (windows s !! w) →
  wp (r' <- win w;
      (if has (Z.land (w_style r') (w_style r)) WS_VISIBLE &&
          (negb (is_rect_equal (w_client_rect r) (w_client_rect r')) || negb (is_rect_equal (w_window_rect r) (w_window_rect r')))
       then emit (C_update_cursor_pos (w_desktop r)) else ret tt) ;;
      (if has (w_paint_flags r') PAINT_HAS_LAYERED_SURFACE then emit (C_validate_whole_window w) else ret tt) ;;
      t <- get_top_clipping_window w;
      v <- is_visible t;
      rt <- win t;
      ret (w_style r', w_ex_style r', if v && has (w_paint_flags rt) PAINT_HAS_SURFACE then w_handle rt else 0))
    (λ _ s', steady s0 s') s.
Proof.
  intros Hs Hst [r' Hr']. pose proof (fo_tree _ (ws_forest _ _ Hs)) as HW. wp_read ltac:(done).
  apply wp_bind, (wp_emit_if s0); [done|]. intros s1 Hst1 E1. apply wp_bind, (wp_emit_if s0); [done|]. intros s2 Hst2 E2. rewrite E1 in E2.
  rewrite <-E2 in HW, Hr'. apply wp_bind. eapply wp_mono; [by eapply get_top_clipping_window_ok|]. cbv beta. intros t s' [-> [rt Hrt]].
  destruct (t_rooted _ HW t rt Hrt) as [l Hl]. apply wp_bind. eapply wp_mono; [by eapply is_visible_ok|]. cbv beta. intros v s' ->.
  wp_read ltac:(done). by wp_steps.
Qed.

(** The paint flags of the request. *)
Lemma pos_paint_ok s0 s w r paint : ws_ok s → steady s0 s → windows s !! w = Some r → w ≠ 0 →
  wp (upd w (λ r, set_w_paint_flags (Z.lor (Z.land (w_paint_flags r) (not32 PAINT_CLIENT_FLAGS)) (Z.land paint PAINT_CLIENT_FLAGS)) r) ;;
      (if has paint PAINT_HAS_PIXEL_FORMAT then update_pixel_format_flags w else ret tt))
    (λ _ s', steady s0 s' ∧ ws_ok s' ∧ same_but_paint (windows s) (windows s')) s.
Proof.
  intros Hs Hst Hr Hw. apply wp_bind. eapply (steady_upd s); [by apply steady_refl, Hs|done|done|done|]. intros s1 Hst1 E1.
  set (r1 := set_w_paint_flags _ r) in *. assert (Hr1 : windows s1 !! w = Some r1) by (rewrite E1; apply lookup_insert_eq).
  pose proof (steady_ok to_lower s s1 Hs Hst1) as Hs1. pose proof (fo_tree _ (ws_forest _ _ Hs1)) as HW1.
  apply (wp_mono _ (λ _ s', ∃ W', s' = set_windows W' s1 ∧ same_but_paint (windows s1) W')).
  { destruct (has _ PAINT_HAS_PIXEL_FORMAT); [|wp_steps; exists (windows s1); split; [by rewrite set_windows_id|apply same_but_paint_refl]].
    destruct (t_rooted _ HW1 w r1 Hr1) as [l Hl]. destruct (path_rest _ w r1 l Hl Hw Hr1) as (k & -> & Hk).
    by apply (update_pixel_format_flags_ok s1 w r1 k). }
  intros _ s2 (W2 & -> & HP). assert (HK : keeps (windows s1) W2) by (apply keeps_paint; [apply Hs1|done]).
  split; [|split; [by apply ws_keeps|]].
  - eapply steady_trans; [done|]. eapply steady_trans; [done|]. exists W2, (win_calls s1), (win_error s1). split; [by destruct s1|done].
  - cbn. eapply same_but_paint_insert; [done|]. rewrite E1 in HP. exact HP.
Qed.

Lemma same_but_paint_lookup W W' y ry : same_but_paint W W' → W !! y = Some ry → ∃ f, W' !! y = Some (set_w_paint_flags f ry).
Proof. intros HP Hy. pose proof (HP y) as H. rewrite Hy in H. inversion H as [? ? [f ->]|]; subst. by exists f. Qed.

(** [req_set_window_pos], when the sibling to go above is linked. *)
Lemma req_set_window_pos_ok s h ph swp paint wr cr extra vis : ws_ok s →
  (∀ rq, windows s !! window_of s ph = Some rq → w_is_linked rq = true) →
  wp (req_set_window_pos h ph swp paint wr cr extra vis) (λ _ s', steady s s') s.
Proof.
  intros Hs Hlink. pose proof (ws_forest _ _ Hs) as Hf. pose proof (steady_refl s Hf) as Hst. pose proof (fo_tree _ Hf) as HW.
  unfold req_set_window_pos, set_error. apply wp_bind, (get_window_of s); [done|intros _; cbn; wp_steps; by apply steady_win_error|].
  intros w r _ Hr Hh Hw. rewrite (proj2 (Z.eqb_neq w 0)) by done. wp_read ltac:(done). apply wp_bind.
  eapply wp_mono; [by apply zorder_request_ok|]. cbv beta. intros o s' [Hs' Ho]. destruct o as [[previous fl]|]; cycle 1.
  { wp_steps. destruct Hs' as [->|(e & _ & ->)]; [done|by apply steady_win_error]. }
  destruct Hs' as [->|(e & [=] & _)]. destruct (_ || _); [wp_steps; by apply steady_win_error|].
  apply wp_bind, (wp_mono _ (λ _ s', s' = s)).
  { destruct (Z.eqb_spec (w_parent r) 0) as [E|E]; [by wp_steps|]. destruct (t_member _ HW w r Hr E) as (rp & Hrp & _). wp_read ltac:(done). by wp_steps. }
  intros x s' ->. eapply wp_bind2; [by apply (pos_paint_ok s s w r)|]. cbv beta. intros _ s2 (Hst2 & Hs2 & HP).
  destruct (same_but_paint_lookup _ _ w r HP Hr) as [f Hr2].
  apply wp_bind. eapply wp_mono; [apply (set_window_pos_ok to_lower s2 w (set_w_paint_flags f r)); [done|done|done|]|].
  { intros Hz Hp q Eq. destruct (Ho previous fl eq_refl) as [_ Habove]; [by destruct (_ && _); [eapply has_lor_false|]|].
    destruct (Habove q Eq) as (Hne & Eqh & rq & Hrq & Ep). split; [done|].
    destruct (same_but_paint_lookup _ _ q rq HP Hrq) as [g Hg]. exists (set_w_paint_flags g rq).
    split_and!; [done|done|]. change (w_is_linked rq = true). apply Hlink. by rewrite <-Eqh. }
  cbv beta. intros _ s3 Hst3. pose proof (steady_trans _ _ _ Hst2 Hst3) as Hst'. apply (pos_reply_ok s s3 w r); [by eapply steady_ok|done|].
  destruct (steady_lookup _ _ w r Hst' Hr) as (r3 & Hr3 & _). eauto.
Qed.
(** ** Styles *)

Lemma topmost_fix r : is_topmost (fix_window_ex_style r) = is_topmost r.
Proof.
  assert (Hor : ∀ e, has (Z.lor e WS_EX_WINDOWEDGE) WS_EX_TOPMOST = has e WS_EX_TOPMOST).
  { intros e. unfold has. rewrite Z.land_lor_distr_l. change (Z.land WS_EX_WINDOWEDGE WS_EX_TOPMOST) with 0. by rewrite Z.lor_0_r. }
  assert (Hand : ∀ e, has (Z.land e (not32 WS_EX_WINDOWEDGE)) WS_EX_TOPMOST = has e WS_EX_TOPMOST).
  { intros e. unfold has. by rewrite <-Z.land_assoc. }
  unfold fix_window_ex_style, is_topmost. repeat (case_match; [first [apply Hor | apply Hand]|]). apply Hand.
Qed.

Lemma topmost_kept ex old : has (Z.lor (Z.land ex (not32 WS_EX_TOPMOST)) (Z.land old WS_EX_TOPMOST)) WS_EX_TOPMOST = has old WS_EX_TOPMOST.
Proof.
  unfold has. rewrite Z.land_lor_distr_l, <-!Z.land_assoc, Z.land_diag. change (Z.land (not32 WS_EX_TOPMOST) WS_EX_TOPMOST) with 0.
  by rewrite Z.land_0_r, Z.lor_0_l.
Qed.

(** A change of the extended style of a window in the Z-order keeps its place in
    it. *)
Lemma set_ex_style_keeps W w r ex : forest_ok W → W !! w = Some r → keeps W (<[w:=set_window_ex_style ex r]> W).
Proof.
  intros HW Hr. unfold set_window_ex_style. destruct (w_is_linked r) eqn:Hl; cbn [negb].
  - set (e' := Z.lor _ _). apply (keeps_bland W w r); [done|done| |by destruct (negb _)].
    split; [by destruct (negb _)| |by destruct (negb _)]. unfold is_topmost. destruct (negb _); cbn [w_ex_style set_w_is_layered set_w_ex_style]; apply topmost_kept.
  - by destruct (negb _); apply (keeps_unlinked W w r).
Qed.

Lemma req_set_window_info_ok s h offset info : ws_ok s → wp (req_set_window_info h offset info) (λ _ s', steady s s') s.
Proof.
  intros Hs. pose proof (ws_forest _ _ Hs) as Hf. pose proof (steady_refl s Hf) as Hst. unfold req_set_window_info, set_error.
  apply wp_bind, (get_window_of s); [done|intros _; cbn; wp_steps; by apply steady_win_error|]. intros w r _ Hr Hh Hw.
  rewrite (proj2 (Z.eqb_neq w 0)) by done. wp_steps. eapply wp_win; [done|]. destruct (_ && _); [wp_steps; by apply steady_win_error|].
  destruct (offset =? GWL_STYLE); [|destruct (offset =? GWL_EXSTYLE)].
  - apply wp_bind. eapply (steady_upd s); [done|done|done|done|]. intros s1 Hst1 E1.
    apply wp_bind. eapply (steady_upd s); [done|rewrite E1; apply lookup_insert_eq| | |].
    { split; [|by rewrite topmost_fix|]; unfold fix_window_ex_style; by repeat case_match. }
    { unfold fix_window_ex_style; by repeat case_match. }
    intros s2 Hst2 E2. apply wp_bind. eapply (steady_upd s); [done|rewrite E2; apply lookup_insert_eq|done|done|]. intros s3 Hst3 _. by wp_steps.
  - apply wp_bind. eapply wp_upd; [done|]. wp_steps. exists (<[w:=set_window_ex_style (w32 info) r]> (windows s)), (win_calls s), (win_error s).
    split; [by destruct s|by apply set_ex_style_keeps].
  - unfold emit. wp_steps. by apply steady_calls.
Qed.

(** ** Properties *)

Lemma props_upd s w r f (Q : unit → wstate → Prop) : ws_ok s → windows s !! w = Some r → bland r (f r) → w_thread (f r) = w_thread r →
  (∀ s', ws_ok s' → is_Some (windows s' !! w) → Q tt s') → wp (upd w f) Q s.
Proof.
  intros Hs Hr Hb Ht HQ. eapply wp_upd; [done|]. apply HQ; [by apply (bland_ok to_lower s w r)|]. cbn. rewrite lookup_insert_eq. eauto.
Qed.

Lemma release_atom_ok s a : ws_ok s → wp (with_atoms (release_atom a)) (λ _ s', ws_ok s' ∧ windows s' = windows s) s.
Proof.
  intros Hs. pose proof (ws_atoms _ _ Hs). apply wp_with_atoms. unfold release_atom. destruct (MIN_STR_ATOM <=? a).
  - eapply wp_mono; [by apply (delete_atom_ok to_lower)|]. cbv beta. intros _ t [Ht _]. split; [by apply ws_ok_atoms|done].
  - wp_steps. split; [by apply ws_ok_atoms|done].
Qed.

Lemma set_property_keeps s w atom data type alloc : ws_ok s → is_Some (windows s !! w) →
  (type = PROP_TYPE_STRING → atom ≠ 0) →
  wp (set_property w atom data type alloc) (λ _ s', ws_ok s') s.
Proof.
  intros Hs [r Hr] Ha. unfold set_property. wp_read ltac:(done). destruct (snd _) as [i|].
  { eapply props_upd; [done|done|done|done|]. done. }
  apply wp_bind, (wp_mono _ (λ _ s', ws_ok s' ∧ windows s' = windows s)).
  { case_decide; [|by wp_steps]. apply wp_bind, wp_with_atoms. eapply wp_mono; [apply (grab_atom_ok to_lower); [apply Hs|by apply Ha]|].
    cbv beta. intros a t [Ht _]. wp_steps. split; [by apply ws_ok_atoms|done]. }
  intros b s1 [Hs1 HW1]. destruct b; cbn [negb]; [|by wp_steps]. rewrite <-HW1 in Hr. destruct (fst _) as [i|].
  { eapply props_upd; [done|done|done|done|]. done. }
  destruct (_ && _).
  - unfold set_error. wp_steps. case_decide; [|wp_steps; by apply ws_ok_error].
    eapply wp_mono; [apply release_atom_ok; by apply ws_ok_error|]. by intros _ s' [? _].
  - apply wp_bind, (wp_mono _ (λ _ s', ws_ok s' ∧ is_Some (windows s' !! w))).
    { case_match; [|wp_steps; split; [done|eauto]]. eapply props_upd; [done|done|done|done|]. done. }
    intros _ s2 [Hs2 [r2 Hr2]]. eapply props_upd; [done|done|done|done|]. done.
Qed.

Lemma req_set_window_property_ok s h name atom data alloc : ws_ok s →
  wp (req_set_window_property to_lower h name atom data alloc) (λ _ s', ws_ok s') s.
Proof.
  intros Hs. unfold req_set_window_property. apply wp_bind, (get_window_of s); [done|intros _; cbn; wp_steps; by apply ws_ok_error|].
  intros w r _ Hr Hh Hw. rewrite (proj2 (Z.eqb_neq w 0)) by done. destruct (negb _); [|by apply set_property_keeps; [|exists r|]].
  apply wp_bind, wp_with_atoms. eapply wp_mono; [apply (add_atom_ok to_lower), Hs|]. cbv beta. intros a t [Ht _].
  destruct (Z.eqb_spec a 0) as [E|E]; [wp_steps; by apply ws_ok_atoms|]. apply wp_bind.
  eapply wp_mono; [apply set_property_keeps; [by apply ws_ok_atoms|by exists r|done]|]. cbv beta. intros _ s' Hs'.
  eapply wp_mono; [by apply release_atom_ok|]. by intros _ s2 [? _].
Qed.
Lemma property_atom_ok s name atom : ws_ok s →
  wp (property_atom to_lower name atom) (λ _ s', ws_ok s' ∧ windows s' = windows s) s.
Proof.
  intros Hs. unfold property_atom. destruct (negb _); [|by wp_steps]. pose proof (ws_atoms _ _ Hs) as Ht. apply wp_with_atoms. unfold find_atom.
  assert (Herr : ∀ e, ws_ok (set_gatoms (set_at_error e (gatoms s)) s)) by (intros e; apply ws_ok_atoms; [done|by apply (same_table_ok to_lower (gatoms s))]).
  apply check_atom_name_ok; intros _; cbn [negb]; [by wp_steps..|]. assert (Hsame : ws_ok (set_gatoms (gatoms s) s)) by (by apply ws_ok_atoms).
  destruct (negb _); [by wp_steps|]. wp_steps. eapply wp_mono; [by apply (find_atom_entry_ok to_lower)|]. cbv beta. intros [a|] t' [-> Hf].
  - destruct Hf as (e & He & _). wp_steps. eapply wp_get_entry; [done|]. by wp_steps.
  - unfold atom_error. by wp_steps.
Qed.

Lemma req_remove_window_property_ok s h name atom : ws_ok s → wp (req_remove_window_property to_lower h name atom) (λ _ s', ws_ok s') s.
Proof.
  intros Hs. unfold req_remove_window_property. apply wp_bind, (get_window_of s); [done|intros _; cbn; wp_steps; by apply ws_ok_error|].
  intros w r _ Hr Hh Hw. rewrite (proj2 (Z.eqb_neq w 0)) by done. apply wp_bind. eapply wp_mono; [by apply property_atom_ok|]. cbv beta.
  intros a s1 [Hs1 HW1]. rewrite <-HW1 in Hr. destruct (a =? 0); [by wp_steps|]. unfold remove_property. wp_read ltac:(done).
  destruct (property_index _ 0 a) as [[i p]|]; [|by wp_steps]. apply wp_bind, (wp_mono _ (λ _ s', ws_ok s' ∧ windows s' = windows s1)).
  { case_decide; [by apply release_atom_ok|by wp_steps]. }
  intros _ s2 [Hs2 HW2]. rewrite <-HW2 in Hr. apply wp_bind. eapply props_upd; [done|done|done|done|]. intros s3 Hs3 _. by wp_steps.
Qed.

(** ** Creation *)

Lemma find_parent_ok s ph : ws_ok s → wp (find_parent ph) (λ o s', ws_ok s' ∧ windows s' = windows s ∧
  match o with Some p => s' = s ∧ (p = 0 ∨ live (windows s) p) | None => True end) s.
Proof.
  intros Hs. unfold find_parent, set_error. destruct (ph =? 0); [wp_steps; auto|].
  apply wp_bind, (get_window_of s); [done|intros _; cbn; wp_steps; split; [by apply ws_ok_error|done]|]. intros p r _ Hr Hh Hp.
  rewrite (proj2 (Z.eqb_neq p 0)) by done. destruct (t_rooted _ (fo_tree _ (ws_forest _ _ Hs)) p r Hr) as [l Hl].
  apply wp_bind, (orphan_test_ok s p l); [done|intros _; wp_steps; split; [by apply ws_ok_error|done]|]. intros _ _. wp_steps. split_and!; [done..|].
  right. apply live_lookup. eauto.
Qed.

Lemma toplevel_owner_ok s w r : ws_ok s → windows s !! w = Some r → w_handle r ≠ 0 → w_parent r ≠ 0 →
  wp (n <- tree_fuel; toplevel_owner n w) (λ x s', s' = s ∧ is_Some (windows s !! x)) s.
Proof.
  intros Hs Hr Hh Hp. pose proof (fo_tree _ (ws_forest _ _ Hs)) as HW. destruct (t_rooted _ HW w r Hr) as [l Hl].
  unfold tree_fuel. wp_steps. pose proof (path_length _ _ _ Hl) as Hn. revert Hn. generalize (base.size (windows s)) as n. clear Hh. revert r Hr Hp.
  induction Hl as [|w r' l Hw Hr' Hl IH]; intros r Hr Hp n Hn; [by rewrite (t_null _ HW) in Hr|].
  assert (r' = r) as -> by congruence. destruct n as [|n]; [simpl in Hn; lia|]. cbn [toplevel_owner]. wp_read ltac:(done).
  destruct (negb _); [wp_steps; eauto|]. destruct (t_member _ HW w r Hr Hp) as (rp & Hrp & _). unfold is_desktop_window.
  apply wp_bind. wp_read ltac:(done). wp_steps. destruct (Z.eqb_spec (w_parent rp) 0) as [E|E]; [wp_steps; eauto|].
  apply (IH rp Hrp E). simpl in Hn. lia.
Qed.
(** ** Parents *)

(** When [set_parent] is refused before the test of the ancestors, for the window
    [w] and the new parent [q] of handle [ph]. *)
Definition parent_refused (s : wstate) (w q ph : Z) : Prop :=
  w = 0 ∨ (ph ≠ 0 ∧ q = 0) ∨
  (∃ r rq, windows s !! w = Some r ∧ windows s !! q = Some rq ∧ w_parent rq ≠ 0 ∧ is_dpi_awareness_compatible r rq = false) ∨
  (∃ r, windows s !! w = Some r ∧ w_parent r = 0) ∨ orphaned (windows s) w ∨ (q ≠ 0 ∧ orphaned (windows s) q).

(** The window and the parent a request names. *)
Definition parent_of (s : wstate) (ph : Z) : Z := if ph =? 0 then 0 else window_of s ph.

Lemma resolve_parent_ok s ph : ws_ok s →
  wp (if ph =? 0 then ret 0 else get_window ph) (λ q s', q = parent_of s ph ∧
    (q = 0 ∧ ph ≠ 0 ∧ s' = set_win_error WIN_INVALID_WINDOW_HANDLE s ∨
     s' = s ∧ (q = 0 ∧ ph = 0 ∨ ph ≠ 0 ∧ q ≠ 0 ∧ ∃ rq, windows s !! q = Some rq ∧ w_handle rq ≠ 0))) s.
Proof.
  intros Hs. unfold parent_of. destruct (Z.eqb_spec ph 0) as [E|E]; [wp_steps; split; [done|right; auto]|].
  apply (get_window_of s); [done|intros ->; by auto|]. intros q rq -> Hq Hhq Hq0. split; [done|]. right. split; [done|]. right. eauto.
Qed.

(** The tests that follow, and the move. *)
Lemma set_parent_checks s w r q ph : ws_ok s → windows s !! w = Some r → w_handle r ≠ 0 → w ≠ 0 → (ph = 0 ↔ q = 0) →
  (q ≠ 0 → ∃ rq, windows s !! q = Some rq ∧ w_handle rq ≠ 0) →
  wp (dpi_ok <- (if q =? 0 then ret true else rp <- win q; ret ((w_parent rp =? 0) || is_dpi_awareness_compatible r rp));
      if negb dpi_ok then set_error WIN_INVALID_STATE_TRANSITION ;; ret (0, 0)
      else
        refused <- (if w_parent r =? 0 then ret true
                    else o <- is_orphan_window w; if o : bool then ret true else if q =? 0 then ret false else is_orphan_window q);
        if refused : bool then set_error WIN_INVALID_PARAMETER ;; ret (0, 0)
        else
          ro <- win (w_parent r);
          full <- (if q =? 0 then ret 0 else rp <- win q; ret (w_handle rp));
          set_parent_window w q ;;
          ret (w_handle ro, full)) (λ _ s', ws_ok s' ∧
    (windows s' = windows s ∧ (parent_refused s w q ph ∨ q ≠ 0 ∧ under (windows s) w q) ∨
     ¬ parent_refused s w q ph ∧ parent_set s s' w q)) s.
Proof.
  intros Hs Hr Hh Hw Hph Hq. pose proof (fo_tree _ (ws_forest _ _ Hs)) as HT. destruct (t_rooted _ HT w r Hr) as [l Hl].
  assert (Hno : ∀ e, parent_refused s w q ph → ws_ok (set_win_error e s) ∧ (windows s = windows s ∧ (parent_refused s w q ph ∨ q ≠ 0 ∧ under (windows s) w q) ∨
    ¬ parent_refused s w q ph ∧ parent_set s (set_win_error e s) w q)) by (intros e ?; split; [by apply ws_ok_error|auto]).
  unfold set_error. apply wp_bind, (wp_mono _ (λ b s', s' = s ∧ b = negb (bool_decide (q ≠ 0)) ||
    match windows s !! q with Some rq => (w_parent rq =? 0) || is_dpi_awareness_compatible r rq | None => true end)).
  { destruct (Z.eqb_spec q 0) as [->|E]; [by wp_steps|]. destruct (Hq E) as (rq & Hrq & _). wp_read ltac:(done). wp_steps.
    split; [done|]. by rewrite Hrq, bool_decide_eq_true_2. }
  intros b s' [-> Hb]. destruct b; cbn [negb].
  2:{ wp_steps. apply Hno. case_bool_decide as E; [|done]. destruct (Hq E) as (rq & Hrq & _). rewrite Hrq in Hb. cbn in Hb.
      symmetry in Hb. apply orb_false_iff in Hb as [Hp%Z.eqb_neq Hd]. right. right. left. by exists r, rq. }
  assert (Hdpi : ¬ ∃ r' rq, windows s !! w = Some r' ∧ windows s !! q = Some rq ∧ w_parent rq ≠ 0 ∧ is_dpi_awareness_compatible r' rq = false).
  { intros (r' & rq & Hr' & Hrq & Hp & Hd). assert (r' = r) as -> by congruence. rewrite Hrq, Hd, (proj2 (Z.eqb_neq _ 0)) in Hb by done.
    rewrite bool_decide_eq_true_2 in Hb; [done|]. intros ->. by rewrite (t_null _ HT) in Hrq. }
  clear Hb. apply wp_bind, (wp_mono _ (λ b s', s' = s ∧ if b : bool then parent_refused s w q ph
    else ¬ parent_refused s w q ph ∧ w_parent r ≠ 0 ∧ ∀ x rx, x ∈ l → windows s !! x = Some rx → w_is_orphan rx = false)).
  { assert (Hfine : w_parent r ≠ 0 → ¬ orphaned (windows s) w → (q ≠ 0 → ¬ orphaned (windows s) q) → ¬ parent_refused s w q ph).
    { intros H1 H2 H3 [?|[?|[?|[(r' & ? & ?)|[?|[? ?]]]]]]; [done|tauto|done|congruence|done|by apply H3]. }
    destruct (Z.eqb_spec (w_parent r) 0) as [E|E]; [wp_steps; split; [done|]; right; right; right; left; eauto|].
    apply wp_bind, (orphan_test_ok s w l); [done|intros Ho; wp_steps; split; [done|]; do 4 right; by left|].
    intros Ho Hall. destruct (Z.eqb_spec q 0) as [E'|E']; [wp_steps; split_and!; auto; by apply Hfine|]. destruct (Hq E') as (rq & Hrq & _).
    destruct (t_rooted _ HT q rq Hrq) as [k Hk]. apply (orphan_test_ok s q k); [done|intros Hoq; split; [done|]; do 5 right; done|].
    intros Hoq _. split_and!; auto. }
  intros b s' [-> Hb]. destruct b; [wp_steps; by apply Hno|]. destruct Hb as (Hnr & Hp & Hall).
  destruct (parent_live (windows s) w r l HT Hl Hw Hr Hp Hall) as (rp & Hrp & Hhp). wp_read ltac:(done).
  apply wp_bind, (wp_mono _ (λ _ s', s' = s)).
  { destruct (Z.eqb_spec q 0) as [E|E]; [by wp_steps|]. destruct (Hq E) as (rq & Hrq & _). wp_read ltac:(done). by wp_steps. }
  intros full s' ->. apply wp_bind. eapply wp_mono; [eapply (set_parent_step to_lower s w q r); eauto|].
  { destruct (decide (q = 0)) as [?|E]; [by left|right]. apply live_lookup. eauto. }
  cbv beta. intros _ s' [Hs' Hor]. wp_steps. split; [done|]. destruct Hor as [(? & ? & ? & _)|?]; auto.
Qed.

Lemma req_set_parent_ok s h ph : ws_ok s →
  wp (req_set_parent h ph) (λ _ s', ws_ok s' ∧
    let w := window_of s h in let q := parent_of s ph in
    (windows s' = windows s ∧ (parent_refused s w q ph ∨ q ≠ 0 ∧ under (windows s) w q) ∨
     ¬ parent_refused s w q ph ∧ parent_set s s' w q)) s.
Proof.
  intros Hs. unfold req_set_parent.
  apply wp_bind, (get_window_of s); [done|intros E; wp_steps; split; [by apply ws_ok_error|left; split; [done|left; by left]]|].
  intros w r Ew Hr Hh Hw. cbv zeta. rewrite <-Ew, (proj2 (Z.eqb_neq w 0)) by done.
  apply wp_bind. eapply wp_mono; [by apply resolve_parent_ok|]. cbv beta. intros q s' [Eq Hq]. rewrite <-Eq.
  destruct Hq as [(Ez & Hph & ->)|[-> Hq]].
  { rewrite Ez, (proj2 (Z.eqb_neq ph 0)) by done. cbn. wp_steps. split; [by apply ws_ok_error|]. left. split; [done|]. left. right. by left. }
  assert (Hiff : (ph = 0 ↔ q = 0) ∧ (q ≠ 0 → ∃ rq, windows s !! q = Some rq ∧ w_handle rq ≠ 0)).
  { destruct Hq as [[-> ->]|(? & ? & ?)]; [done|]. split; [tauto|done]. }
  destruct Hiff as [Hiff Hlive]. assert (Hqq : negb (ph =? 0) && (q =? 0) = false).
  { destruct (Z.eqb_spec ph 0) as [?|?]; [done|]. destruct (Z.eqb_spec q 0); [tauto|done]. }
  rewrite Hqq. wp_read ltac:(done). by apply set_parent_checks.
Qed.
End requests.
