(* ===== verification/WindowMachine.v ===== *)
(** * Windows: the requests as a machine

    The requests of the clients that change the windows, and the end of a thread,
    as one step relation; its invariant, by induction on the sequence of
    requests.

    ** Windows: sample states

    Small states reached from an empty one by requests, for the evaluation of the
    definitions on concrete inputs. *)

From stdpp Require Import base list gmap fin_maps relations.
From S2P Require Import Prelude Region Atom AtomThms UserHandle UserHandleThms Window WindowOps WindowReqs WindowTree.
From S2P Require Import WindowLink WindowParent WindowInv WindowDestroy WindowThread WindowCreate WindowProps WindowMoves.

Open Scope Z_scope.
Open Scope server_scope.

(** ** Creation *)

(** The other components answer, memory is available, and the message window is
    not asked for twice before there is a desktop window. *)
Record env_ok (s : wstate) (e : create_env) : Prop := {
  en_desktop : ce_desktop e ≠ 0 ∧ ce_class e ≠ 0;
  en_known : ∃ d, desktops s !! ce_desktop e = Some d ∧
    (ce_is_desktop e = false → ce_is_message e = true → top_window d = 0 → msg_window d = 0);
  en_thread : ∃ th, threads s !! current s = Some th ∧ current s ≠ 0 ∧ th_queue th || ce_queue e = true;
  en_memory : ∃ w x, ce_addr e = Some w ∧ windows s !! w = None ∧ w ≠ 0 ∧ ce_shared e = Some x;
  en_handles : can_alloc (users s);
}.

Section create.
Context (to_lower : Z → Z).
Notation ws_ok := (ws_ok to_lower).

(** [create_window] in a good environment. *)
Lemma create_window_env s e parent owner ctx : ws_ok s → env_ok s e → (parent = 0 ∨ live (windows s) parent) →
  (owner = 0 ∨ is_Some (windows s !! owner)) →
  wp (create_window e parent owner ctx) (λ x s', ws_ok s' ∧ (x ≠ 0 → ∃ r, windows s' !! x = Some r ∧ w_is_linked r = false ∧
    (w_parent r ≠ 0 → is_Some (windows s' !! w_parent r)))) s.
Proof.
  intros Hs [[Hd0 Hc0] (d & Hd & Hroot) (th & Hth & Hcur & Hq) (w & x & Hw & Hfresh & Hw0 & Hx) Hal] Hpar Hown.
  assert (Hpp : actual_parent e d parent ≠ 0 → is_Some (windows s !! actual_parent e d parent)).
  { destruct (dk_roots _ _ (ws_desktops _ _ Hs) _ d Hd) as [Ht _]. unfold actual_parent. intros Hne.
    assert (Htop : top_window d ≠ 0 → is_Some (windows s !! top_window d)) by (intros ?; destruct Ht as [?|(r & Hr & _)]; [done|eauto]).
    destruct Hpar as [->|(r & Hr & _)%live_lookup]; [|destruct (negb (parent =? 0)); [eauto|]]; cbn in *; repeat case_match; try done; auto. }
  eapply wp_mono; [eapply (create_window_ok to_lower s e parent owner ctx w x d th)|]; [done..| |].
  - intros Href. split; [done|done|done| |done|done]. intros E. unfold refused in Href. apply orb_false_iff in Href as [Href _].
    unfold actual_parent in E. destruct (Z.eqb_spec parent 0) as [Ep|Ep]; cbn in E; [|done]. destruct (ce_is_desktop e); [done|].
    destruct (ce_is_message e) eqn:Em; cbn in *.
    + destruct (Z.eqb_spec (msg_window d) 0) as [?|Hm]; [done|]. cbn in E. by destruct Hm; apply Hroot.
    + by rewrite E in Href.
  - cbv beta. intros y s' Hy. destruct (refused s e d parent).
    { destruct Hy as [-> [c ->]]. split; [by apply ws_ok_calls, ws_ok_error|done]. }
    destruct Hy as [-> [h Hc]]. split; [apply Hc|]. intros _. rewrite (cr_windows _ _ _ _ _ _ _ _ _ Hc), created_self. eexists. split_and!; [done|done|].
    change (w_parent (newborn _ _ ?q _ _ _)) with q. intros Hne. destruct (Hpp Hne) as [rq Hrq].
    destruct (created_new (windows s) (actual_parent e d parent) w (newborn e (current s) (actual_parent e d parent) h (owner_handle s owner)
      (context_in s (actual_parent e d parent) ctx)) Hfresh _ rq Hrq) as (rq' & Hrq' & _). by exists rq'.
Qed.

Lemma find_owner_ok s oh parent : ws_ok s → (parent = 0 ∨ live (windows s) parent) →
  wp (find_owner oh parent) (λ o s', ws_ok s' ∧ match o with Some x => s' = s ∧ (x = 0 ∨ is_Some (windows s !! x)) | None => True end) s.
Proof.
  intros Hs Hpar. unfold find_owner, set_error. destruct (oh =? 0); [wp_steps; auto|].
  apply wp_bind, (get_window_of to_lower s); [done|intros _; cbn; wp_steps; split; [by apply ws_ok_error|done]|]. intros w r _ Hr Hh Hw.
  rewrite (proj2 (Z.eqb_neq w 0)) by done. unfold is_desktop_window. apply wp_bind. wp_read ltac:(done). wp_steps.
  destruct (Z.eqb_spec (w_parent r) 0) as [E|E]; [wp_steps; auto|]. apply wp_bind, (wp_mono _ (λ _ s', s' = s)).
  { destruct Hpar as [->|Hl]; [by apply wp_ret|]. rewrite (proj2 (Z.eqb_neq parent 0)) by (by eapply live_nonzero).
    apply live_lookup in Hl as (rp & Hrp & _). wp_read ltac:(done). by wp_steps. }
  intros b s' ->. destruct b; cbn [negb]; [|wp_steps; split; [by apply ws_ok_error|done]].
  eapply wp_bind2; [by apply (toplevel_owner_ok to_lower s w r)|]. cbv beta. intros x s' [-> Hx]. wp_steps. auto.
Qed.

Lemma req_create_window_ok s e ph oh ctx style ex : ws_ok s → env_ok s e →
  wp (req_create_window e ph oh ctx style ex) (λ _ s', ws_ok s') s.
Proof.
  intros Hs He. unfold req_create_window. apply wp_bind. eapply wp_mono; [by apply (find_parent_ok to_lower)|]. cbv beta.
  intros [p|] s' (Hs' & _ & Hp); [|by wp_steps]. destruct Hp as [-> Hp]. apply wp_bind. eapply wp_mono; [by apply find_owner_ok|]. cbv beta.
  intros [o|] s' [Hs2 Ho]; [|by wp_steps]. destruct Ho as [-> Ho]. apply wp_bind. eapply wp_mono; [by apply create_window_env|]. cbv beta.
  intros w s1 [Hs1 Hw]. destruct (Z.eqb_spec w 0) as [E|E]; [by wp_steps|]. destruct (Hw E) as (r & Hr & Hl & Hpar).
  assert (Hk : ∀ r', core r' = core r → marks r' = marks r → ws_ok (set_windows (<[w:=r']> (windows s1)) s1)).
  { intros r' Hc Hm. apply ws_keeps; [done|]. apply (keeps_unlinked (windows s1) w r); [apply Hs1|done..]. }
  wp_write ltac:(done). wp_write ltac:(apply lookup_insert_eq). rewrite insert_insert_eq. set (r' := set_w_ex_style ex _).
  wp_read ltac:(apply lookup_insert_eq). apply wp_bind, (wp_mono _ (λ _ s', s' = set_windows (<[w:=r']> (windows s1)) s1)).
  - change (w_parent r') with (w_parent r). destruct (Z.eqb_spec (w_parent r) 0) as [Ep|Ep]; [by wp_steps|]. destruct (Hpar Ep) as [rp Hrp].
    destruct (decide (w_parent r = w)) as [E'|E'].
    + wp_read ltac:(rewrite E'; apply lookup_insert_eq). by wp_steps.
    + wp_read ltac:(rewrite windows_set, lookup_insert_ne by done; exact Hrp). by wp_steps.
  - intros ph' s' ->. wp_steps. by apply Hk.
Qed.
End create.

(** ** The machine *)

Inductive win_request :=
| R_create (e : create_env) (parent owner ctx style ex_style : Z)
| R_set_parent (handle parent : Z)
| R_destroy (handle : Z)
| R_exit (thread : Z)
| R_set_pos (handle previous swp_flags paint_flags : Z) (window_rect client_rect : rectangle) (extra : list rectangle) (vis_rgn : bool)
| R_set_info (handle offset info : Z)
| R_set_property (handle : Z) (name : list Z) (atom data : Z) (alloc : bool)
| R_remove_property (handle : Z) (name : list Z) (atom : Z).

(** The request served, for the client thread [current]. *)
Definition serve (to_lower : Z → Z) (q : win_request) : WM unit :=
  match q with
  | R_create e p o ctx st ex => req_create_window e p o ctx st ex ;; ret tt
  | R_set_parent h p => req_set_parent h p ;; ret tt
  | R_destroy h => req_destroy_window h
  | R_exit t => destroy_thread_windows t
  | R_set_pos h p sf pf wr cr x v => req_set_window_pos h p sf pf wr cr x v ;; ret tt
  | R_set_info h o i => req_set_window_info h o i ;; ret tt
  | R_set_property h n a d al => req_set_window_property to_lower h n a d al
  | R_remove_property h n a => req_remove_window_property to_lower h n a ;; ret tt
  end.

Definition admissible (s : wstate) (q : win_request) : Prop :=
  match q with
  | R_create e _ _ _ _ _ => env_ok s e
  | R_destroy _ => current s ≠ 0
  | R_exit t => t ≠ 0
  | R_set_pos _ p _ _ _ _ _ _ => ∀ rq, windows s !! window_of s p = Some rq → w_is_linked rq = true
  | _ => True
  end.

(** A client thread is scheduled. *)
Definition serving (t : Z) (s : wstate) : wstate :=
  WState (windows s) (desktops s) (threads s) (users s) (gatoms s) t (win_error s) (win_calls s).

Definition win_step (to_lower : Z → Z) (s s' : wstate) : Prop :=
  ∃ t q, admissible (serving t s) q ∧ serve to_lower q (serving t s) = Done tt s'.

Section machine.
Context (to_lower : Z → Z).
Notation ws_ok := (ws_ok to_lower).

Lemma serving_ok s t : ws_ok s → ws_ok (serving t s).
Proof. by intros [A B C D E]. Qed.

Lemma wp_drop {A} (m : WM A) (P : wstate → Prop) s : wp m (λ _ s', P s') s → wp (m ;; ret tt) (λ _ s', P s') s.
Proof. intros Hm. apply wp_bind. eapply wp_mono; [exact Hm|]. cbv beta. intros _ s' Hs'. by wp_steps. Qed.

Lemma serve_ok s q : ws_ok s → admissible s q → wp (serve to_lower q) (λ _ s', ws_ok s') s.
Proof.
  intros Hs Ha. destruct q; cbn [serve admissible] in *; try apply wp_drop.
  - by apply req_create_window_ok.
  - eapply wp_mono; [by apply (req_set_parent_ok to_lower)|]. by intros _ s' [? _].
  - by apply req_destroy_window_ok.
  - eapply wp_mono; [by apply (destroy_thread_windows_ok to_lower)|]. by intros _ s' [? _].
  - eapply wp_mono; [by apply (req_set_window_pos_ok to_lower)|]. cbv beta. intros _ s'. by apply steady_ok.
  - eapply wp_mono; [by apply (req_set_window_info_ok to_lower)|]. cbv beta. intros _ s'. by apply steady_ok.
  - by apply req_set_window_property_ok.
  - by apply req_remove_window_property_ok.
Qed.

Lemma win_steps_ok s s' : ws_ok s → rtc (win_step to_lower) s s' → ws_ok s'.
Proof.
  intros Hs. induction 1 as [|s s1 s2 (t & q & Ha & Hq) _ IH]; [done|]. apply IH.
  pose proof (serve_ok (serving t s) q (serving_ok s t Hs) Ha) as Hw. unfold wp in Hw. by rewrite Hq in Hw.
Qed.
End machine.

(** * Windows: sample states *)

(** One desktop, two threads, no windows. *)
Definition no_windows : wstate :=
  WState ∅ {[1 := Desktop 0 0 0 0 0 0]} {[10 := WinThread true 0 10 1; 11 := WinThread true 0 11 1]}
    empty_users (create_atom_table []) 10 0 [].

Lemma no_windows_ok : ws_ok ascii_lower no_windows.
Proof.
  split.
  - split; [split|..]; try done; intros ? ?; cbn; by rewrite lookup_empty.
  - split; [apply replicate_uh_ok; auto|by intros w|]. intros i e Hi. cbn in Hi. lia.
  - split; [done|]. intros t th Ht _. cbn. rewrite msum_empty. cbn in Ht.
    apply lookup_insert_Some in Ht as [[_ <-]|[_ Ht]]; [done|]. by apply lookup_singleton_Some in Ht as [_ <-].
  - split; [done|]. intros d x Hd. cbn in Hd. apply lookup_singleton_Some in Hd as [_ <-]. split; by left.
  - apply create_atom_table_ok.
Qed.

(** The window at [a], of the ordinary class, or of the desktop or message class. *)
Definition env (a : Z) (is_desktop is_message : bool) : create_env := CreateEnv 1 5 is_desktop is_message (Some a) (Some (0, a)) true.

Definition play (t : Z) (q : win_request) (s : wstate) : wstate :=
  match serve ascii_lower q (serving t s) with Done _ s' => s' | Fault _ => s end.

(** The handle of the [i]-th window created. *)
Definition nth_handle (i : Z) : Z := entry_handle i 1.

Definition no_rect : rectangle := Rect 0 0 10 10.
Definition show (h previous : Z) : win_request := R_set_pos h previous 0 0 no_rect no_rect [] true.

(** The desktop window 100; below it the windows 101 and 102; below 101 the
    windows 103, 105 (not in the Z-order) and, of another thread, 104. *)
Definition with_desktop : wstate := play 10 (R_create (env 100 true false) 0 0 0 0 0) no_windows.
Definition with_two : wstate :=
  play 10 (show (nth_handle 2) 0) (play 10 (R_create (env 102 false false) 0 0 0 0 0)
    (play 10 (show (nth_handle 1) 0) (play 10 (R_create (env 101 false false) 0 0 0 0 0) with_desktop))).
Definition with_children : wstate :=
  play 11 (show (nth_handle 4) 0) (play 11 (R_create (env 104 false false) (nth_handle 1) 0 0 0 0)
    (play 10 (show (nth_handle 3) 0) (play 10 (R_create (env 103 false false) (nth_handle 1) 0 0 0 0) with_two))).
Definition with_unlinked : wstate := play 10 (R_create (env 105 false false) (nth_handle 1) 0 0 0 0) with_children.

Example sample_forest : (w_children <$> windows with_unlinked !! 100, w_children <$> windows with_unlinked !! 101,
  w_unlinked <$> windows with_unlinked !! 101, nb_handles (users with_unlinked)) = (Some [102; 101], Some [104; 103], Some [105], 6).
Proof. vm_compute. reflexivity. Qed.

(** ** They are reached by admissible requests *)

Definition env_check (s : wstate) (e : create_env) : bool :=
  match desktops s !! ce_desktop e, threads s !! current s, ce_addr e, ce_shared e with
  | Some d, Some th, Some w, Some _ =>
      negb (ce_desktop e =? 0) && negb (ce_class e =? 0) && negb (current s =? 0) && (th_queue th || ce_queue e) &&
      (ce_is_desktop e || negb (ce_is_message e) || negb (top_window d =? 0) || (msg_window d =? 0)) &&
      (match windows s !! w with None => negb (w =? 0) | Some _ => false end) &&
      (nb_handles (users s) <? MAX_USER_HANDLES)
  | _, _, _, _ => false
  end.

Lemma env_check_ok s e : env_check s e = true → env_ok s e.
Proof.
  unfold env_check. destruct (desktops s !! ce_desktop e) as [d|] eqn:Hd; [|done]. destruct (threads s !! current s) as [th|] eqn:Hth; [|done].
  destruct (ce_addr e) as [w|] eqn:Hw; [|done]. destruct (ce_shared e) as [x|] eqn:Hx; [|done].
  rewrite !andb_true_iff. intros ((((((H1 & H2) & H3) & H4) & H5) & H6) & H7).
  apply negb_true_iff, Z.eqb_neq in H1, H2, H3. apply Z.ltb_lt in H7. split.
  - done.
  - exists d. split; [done|]. intros E1 E2 E3. rewrite E1, E2, E3 in H5. by apply Z.eqb_eq in H5.
  - by exists th.
  - destruct (windows s !! w) eqn:E; [done|]. apply negb_true_iff, Z.eqb_neq in H6. by exists w, x.
  - by right.
Qed.

Definition admissible_check (s : wstate) (q : win_request) : bool :=
  match q with
  | R_create e _ _ _ _ _ => env_check s e
  | R_destroy _ => negb (current s =? 0)
  | R_exit t => negb (t =? 0)
  | R_set_pos _ p _ _ _ _ _ _ => match windows s !! window_of s p with Some rq => w_is_linked rq | None => true end
  | _ => true
  end.

Lemma admissible_check_ok s q : admissible_check s q = true → admissible s q.
Proof.
  destruct q; cbn; try done; [apply env_check_ok|by intros ?%negb_true_iff%Z.eqb_neq|by intros ?%negb_true_iff%Z.eqb_neq|].
  intros Hc rq Hrq. by rewrite Hrq in Hc.
Qed.

(** One more request. *)
Lemma play_step s0 t q s : rtc (win_step ascii_lower) s0 s → ws_ok ascii_lower s → admissible_check (serving t s) q = true →
  rtc (win_step ascii_lower) s0 (play t q s) ∧ ws_ok ascii_lower (play t q s).
Proof.
  intros Hrtc Hs Hc. apply admissible_check_ok in Hc.
  pose proof (serve_ok ascii_lower (serving t s) q (serving_ok ascii_lower s t Hs) Hc) as Hw. unfold wp in Hw. unfold play.
  destruct (serve ascii_lower q (serving t s)) as [[] s'|f] eqn:Eq; [|done]. split; [|done]. eapply rtc_r; [done|]. by exists t, q.
Qed.

Definition reached (s : wstate) : Prop := rtc (win_step ascii_lower) no_windows s ∧ ws_ok ascii_lower s.

Lemma reached_play t q s : reached s → admissible_check (serving t s) q = true → reached (play t q s).
Proof. intros [H1 H2] Hc. by apply play_step. Qed.

Lemma reached_start : reached no_windows.
Proof. split; [done|apply no_windows_ok]. Qed.

Lemma with_desktop_ok : reached with_desktop.
Proof. apply reached_play; [apply reached_start|vm_compute; reflexivity]. Qed.
Lemma with_two_ok : reached with_two.
Proof. unfold with_two. do 4 (apply reached_play; [|vm_compute; reflexivity]). apply with_desktop_ok. Qed.
Lemma with_children_ok : reached with_children.
Proof. unfold with_children. do 4 (apply reached_play; [|vm_compute; reflexivity]). apply with_two_ok. Qed.
Lemma with_unlinked_ok : reached with_unlinked.
Proof. unfold with_unlinked. apply reached_play; [|vm_compute; reflexivity]. apply with_children_ok. Qed.
