(* ===== verification/WindowList.v ===== *)
(** * Windows: the list of the descendants

    [get_window_list] on the children of a window gives all its linked
    descendants, each once, in the order of a walk that visits a window before its
    children and siblings from the top of the Z-order down; the array of the reply
    holds the first of them, and the count is the number of them all.

    ** Windows: owners

    [set_window_owner] refuses an owner that the window owns itself, through any
    number of owners; the chains of owners stay finite. *)

From stdpp Require Import base list gmap fin_maps.
From S2P Require Import Prelude Region Atom AtomThms UserHandle UserHandleThms Window WindowOps WindowReqs.
From S2P Require Import WindowTree WindowLink WindowParent WindowInv WindowDestroy WindowThread WindowCreate WindowProps WindowMoves.

Open Scope Z_scope.
Open Scope server_scope.

(** ** The reference: a preorder walk *)

(** [x] is [c] or below it, through linked children. *)
Inductive descends (W : winmap) (c : Z) : Z → Prop :=
| descends_here : descends W c c
| descends_child x y rx : descends W c x → W !! x = Some rx → y ∈ w_children rx → descends W c y.

(** The walk over the windows [l] and what is below them, at most [n] levels. *)
Inductive preorder (W : winmap) : nat → list Z → list Z → Prop :=
| preorder_nil n : preorder W n [] []
| preorder_cons n c rc l lc lr : W !! c = Some rc → preorder W n (w_children rc) lc → preorder W (S n) l lr →
    preorder W (S n) (c :: l) (c :: lc ++ lr).

Lemma descends_down W c rc x : W !! c = Some rc → descends W c x ↔ x = c ∨ ∃ d, d ∈ w_children rc ∧ descends W d x.
Proof.
  intros Hc. split.
  - induction 1 as [|x y rx Hx IH Hrx Hy]; [by left|]. right. destruct IH as [->|(d & Hd & Hdx)].
    + exists y. assert (rx = rc) as -> by congruence. split; [done|constructor].
    + exists d. split; [done|]. by eapply descends_child.
  - intros [->|(d & Hd & Hdx)]; [constructor|]. induction Hdx as [|x y rx Hx IH Hrx Hy]; [|by eapply descends_child].
    by apply (descends_child W c c d rc (descends_here W c)).
Qed.

Lemma descends_under W c x : tree_ok W → rooted W c → c ≠ 0 → descends W c x → under W c x.
Proof.
  intros HW Hc Hc0. induction 1 as [|x y rx Hx IH Hrx Hy]; [by apply under_refl|].
  destruct (t_children _ HW x rx y Hrx Hy) as (ry & Hry & E & _). eapply under_step; [|done|by rewrite E].
  intros ->. by rewrite (t_null _ HW) in Hry.
Qed.

Lemma descends_disjoint W c d rc rd x : tree_ok W → W !! c = Some rc → W !! d = Some rd → w_parent rc = w_parent rd → c ≠ d →
  descends W c x → ¬ descends W d x.
Proof.
  intros HW Hc Hd Ep Hne Hcx Hdx.
  assert (c ≠ 0 ∧ d ≠ 0) as [Hc0 Hd0] by (split; intros ->; by rewrite (t_null _ HW) in *).
  apply descends_under in Hcx; [|done|by eapply t_rooted|done]. apply descends_under in Hdx; [|done|by eapply t_rooted|done].
  destruct (under_total W c d x Hcx Hdx) as [Hu|Hu].
  - apply (under_inv W c d rd Hd) in Hu as [?|Hu]; [done|]. rewrite <-Ep in Hu. by apply (not_under_parent W c rc Hc).
  - apply (under_inv W d c rc Hc) in Hu as [?|Hu]; [done|]. rewrite Ep in Hu. by apply (not_under_parent W d rd Hd).
Qed.

Lemma preorder_elem W n l lr x : preorder W n l lr → x ∈ lr ↔ ∃ c, c ∈ l ∧ descends W c x.
Proof.
  induction 1 as [|n c rc l lc lr Hc _ IHc _ IHl]; [set_solver|]. rewrite elem_of_cons, elem_of_app, IHc, IHl. split.
  - intros [->|[(d & Hd & Hdx)|(d & Hd & Hdx)]]; [exists c; split; [by left|constructor]| |exists d; split; [by right|done]].
    exists c. split; [by left|]. apply (descends_down W c rc x Hc). eauto.
  - intros (d & Hd & Hdx). apply elem_of_cons in Hd as [->|Hd]; [|eauto]. apply (descends_down W c rc x Hc) in Hdx as [->|?]; auto.
Qed.

(** Each window is visited once. *)
Lemma preorder_nodup W n l lr p : tree_ok W → preorder W n l lr → NoDup l →
  (∀ c, c ∈ l → ∃ rc, W !! c = Some rc ∧ w_parent rc = p) → NoDup lr.
Proof.
  intros HW Hpre. revert p. induction Hpre as [|n c rc l lc lr Hc Hpc IHc Hpl IHl]; intros p Hnd Hp; [constructor|].
  apply NoDup_cons in Hnd as [Hcl Hnd]. destruct (Hp c) as (rc' & Hrc' & Epc); [by left|]. assert (rc' = rc) as -> by congruence.
  assert (Hc0 : c ≠ 0) by (intros ->; by rewrite (t_null _ HW) in Hc).
  assert (Hlr : ∀ x, x ∈ lr → ¬ descends W c x).
  { intros x Hx Hcx. apply (preorder_elem _ _ _ _ x Hpl) in Hx as (d & Hd & Hdx). destruct (Hp d) as (rd & Hrd & Epd); [by right|].
    apply (descends_disjoint W c d rc rd x); try done; [congruence|by intros ->]. }
  apply NoDup_cons. split; [rewrite elem_of_app; intros [Hin|Hin]|].
  - apply (preorder_elem _ _ _ _ c Hpc) in Hin as (d & Hd & Hdc). destruct (t_children _ HW c rc d Hc Hd) as (rd & Hrd & Epd & _).
    apply descends_under in Hdc; [|done|by eapply t_rooted|intros ->; by rewrite (t_null _ HW) in Hrd].
    apply (not_under_parent W d rd Hrd). by rewrite Epd.
  - apply (Hlr c Hin). constructor.
  - apply NoDup_app. split_and!.
    + apply (IHc c); [by apply (t_nodup _ HW c)|]. intros d Hd. destruct (t_children _ HW c rc d Hc Hd) as (rd & ? & ? & _). eauto.
    + intros x Hx Hx'. apply (Hlr x Hx'). apply (preorder_elem _ _ _ _ x Hpc) in Hx as (d & Hd & Hdx).
      apply (descends_down W c rc x Hc). eauto.
    + apply (IHl p Hnd). intros d Hd. apply Hp. by right.
Qed.

Lemma deep_zero W c rc : tree_ok W → W !! c = Some rc → ¬ deep W c 0.
Proof.
  intros HW Hc Hd. destruct (t_rooted _ HW c rc Hc) as [l Hl]. specialize (Hd c l l Hl Hl). rewrite Nat.add_0_r in Hd.
  apply (Nat.lt_irrefl (length l)), Hd, (path_head W); [done|]. intros ->. by rewrite (t_null _ HW) in Hc.
Qed.

(** The walk ends. *)
Lemma preorder_exists W n l : tree_ok W → (∀ c, c ∈ l → is_Some (W !! c) ∧ deep W c n) → ∃ lr, preorder W n l lr.
Proof.
  intros HW. revert l. induction n as [|n IH]; intros l Hl.
  { destruct l as [|c l]; [exists []; constructor|]. destruct (Hl c) as [[rc Hrc] Hd]; [by left|]. by destruct (deep_zero W c rc HW Hrc). }
  induction l as [|c l IHl]; [exists []; constructor|]. destruct (Hl c) as [[rc Hrc] Hd]; [by left|].
  destruct IHl as [lr Hlr]; [intros d Hd'; apply Hl; by right|].
  destruct (IH (w_children rc)) as [lc Hlc]; [|exists (c :: lc ++ lr); by econstructor].
  intros d Hdc. destruct (t_children _ HW c rc d Hrc Hdc) as (rd & Hrd & Ep & _). split; [by exists rd|].
  eapply deep_child; [done|done|..|done]; intros ->; by rewrite (t_null _ HW) in *.
Qed.

(** ** The array *)

(** The handles of the windows of a thread (of any, for 0). *)
Definition of_thread (W : winmap) (thread x : Z) : Prop := thread = 0 ∨ thread_at W x = thread.
#[export] Instance of_thread_dec W thread x : Decision (of_thread W thread x).
Proof. unfold of_thread. apply _. Defined.

Definition handles_in (W : winmap) (thread : Z) (l : list Z) : list Z := handle_at W <$> filter (of_thread W thread) l.

(** The array and the count when the handles [hs] were given. *)
Definition array_of (max_count : Z) (hs : list Z) : list Z * Z := (take (Z.to_nat max_count) hs, Z.of_nat (length hs)).

Lemma handles_in_app W thread l k : handles_in W thread (l ++ k) = handles_in W thread l ++ handles_in W thread k.
Proof. unfold handles_in. by rewrite filter_app, fmap_app. Qed.
Lemma handles_in_length W thread l : (length (handles_in W thread l) ≤ length l)%nat.
Proof. unfold handles_in. rewrite length_fmap. apply length_filter. Qed.

Section listing.
Context (class_atom : Z → Z) (s : wstate) (thread max_count : Z).
Notation W := (windows s).

Lemma append_window_ok c rc hs : W !! c = Some rc → Z.of_nat (length hs) + 1 < 4294967296 →
  wp (append_window_to_list class_atom c thread 0 max_count (array_of max_count hs))
    (λ o s', s' = s ∧ o = array_of max_count (hs ++ handles_in W thread [c])) s.
Proof.
  intros Hc Hlen. unfold append_window_to_list. wp_read ltac:(done). unfold handles_in. rewrite filter_cons.
  destruct (negb (thread =? 0) && negb (w_thread rc =? thread)) eqn:Hthr.
  - apply andb_true_iff in Hthr as [Ht%negb_true_iff%Z.eqb_neq Hw%negb_true_iff%Z.eqb_neq].
    rewrite decide_False; [cbn; rewrite app_nil_r; by wp_steps|]. intros [?|E]; [done|]. by rewrite (thread_at_lookup _ c rc) in E.
  - rewrite decide_True; [|apply andb_false_iff in Hthr as [Ht%negb_false_iff%Z.eqb_eq|Hw%negb_false_iff%Z.eqb_eq]; [by left|right; by rewrite (thread_at_lookup _ c rc)]].
    cbn [negb andb Z.eqb]. wp_steps. split; [done|]. unfold array_of. cbn [fst snd fmap list_fmap filter list_filter].
    rewrite (handle_at_lookup _ c rc) by done. rewrite length_app. cbn [length]. f_equal.
    + destruct (Z.ltb_spec (Z.of_nat (length hs)) max_count) as [Hl|Hl].
      * rewrite !take_ge; [done|rewrite length_app; cbn; lia|lia].
      * rewrite take_app_le by lia. done.
    + rewrite w32_small by (unfold u32; lia). lia.
Qed.

(** A pass over the windows [l], and what is below them. *)
Lemma list_below_ok n l lr hs : preorder W n l lr → Z.of_nat (length hs) + Z.of_nat (length lr) < 4294967296 →
  wp (for_each (λ c out, out <- append_window_to_list class_atom c thread 0 max_count out;
                 list_descendants class_atom n c thread max_count out) l (array_of max_count hs))
    (λ o s', s' = s ∧ o = array_of max_count (hs ++ handles_in W thread lr)) s.
Proof.
  intros Hpre. revert hs. induction Hpre as [n|n c rc l lc lr Hc Hpc IHc Hpl IHl]; intros hs Hlen.
  { cbn. wp_steps. by rewrite app_nil_r. }
  cbn [length] in Hlen. rewrite length_app in Hlen.
  cbn [for_each]. apply wp_bind, wp_bind. eapply wp_mono; [apply (append_window_ok c rc); [done|lia]|]. cbv beta. intros o s' [-> ->].
  cbn [list_descendants]. wp_read ltac:(done). pose proof (handles_in_length W thread [c]) as Hc1. cbn [length] in Hc1.
  eapply wp_mono; [apply IHc; rewrite length_app; lia|]. cbv beta. intros o s' [-> ->].
  pose proof (handles_in_length W thread lc).
  eapply wp_mono; [apply IHl; rewrite !length_app; lia|]. cbv beta. intros o s' [-> ->]. split; [done|].
  change (c :: lc ++ lr) with ([c] ++ lc ++ lr). by rewrite !handles_in_app, !app_assoc.
Qed.
End listing.

(** There are no more live windows than entries in the handle table. *)
Lemma live_bound to_lower s (l : list Z) : ws_ok to_lower s → NoDup l → (∀ x, x ∈ l → live (windows s) x) →
  (Z.of_nat (length l) <= nb_handles (users s)).
Proof.
  intros Hs Hnd Hl. pose proof (uo_nb _ (ho_table _ _ (ws_handles _ _ Hs))) as Hnb.
  assert (Hinj : NoDup (index_at (windows s) <$> l)).
  { apply NoDup_fmap_2_strong; [|done]. intros x y Hx Hy E.
    destruct (index_owned to_lower s x Hs (Hl x Hx)) as (_ & _ & _ & _ & _ & Ho).
    destruct (index_owned to_lower s y Hs (Hl y Hy)) as (_ & _ & _ & _ & _ & Ho'). rewrite E in Ho. congruence. }
  rewrite <-(length_fmap (index_at (windows s))). rewrite <-(Z2Nat.id (nb_handles (users s))) by lia.
  rewrite <-(length_seqZ 0 (nb_handles (users s))). apply Nat2Z.inj_le, submseteq_length, NoDup_submseteq; [done|].
  intros i (x & -> & Hx)%list_elem_of_fmap. apply elem_of_seqZ. destruct (index_owned to_lower s x Hs (Hl x Hx)) as (_ & Hi & _). lia.
Qed.

Lemma descends_live W c x : tree_ok W → live W c → descends W c x → live W x.
Proof. intros HW Hc. induction 1 as [|x y rx Hx IH Hrx Hy]; [done|]. by apply (children_live W x rx). Qed.

(** The reply for the descendants of [w]. *)
Lemma get_descendants_ok to_lower class_atom s w r cur_desktop thread max_count : ws_ok to_lower s → windows s !! w = Some r →
  wp (get_window_list class_atom cur_desktop 0 w thread true max_count) (λ o s', s' = s ∧ ∃ n l, preorder (windows s) n (w_children r) l ∧
    NoDup l ∧ (∀ x, x ∈ l ↔ x ≠ w ∧ descends (windows s) w x) ∧
    o = array_of max_count (handles_in (windows s) thread l)) s.
Proof.
  intros Hs Hr. pose proof (fo_tree _ (ws_forest _ _ Hs)) as HW. assert (Hw : w ≠ 0) by (intros ->; by rewrite (t_null _ HW) in Hr).
  unfold get_window_list. cbn [negb Z.eqb]. rewrite (proj2 (Z.eqb_neq w 0)) by done. unfold tree_fuel. wp_steps.
  pose proof (deep_size (windows s) w) as Hd. destruct (base.size (windows s)) as [|n] eqn:Hn; [by destruct (deep_zero (windows s) w r HW Hr)|].
  destruct (preorder_exists (windows s) n (w_children r) HW) as [l Hl].
  { intros c Hc. destruct (t_children _ HW w r c Hr Hc) as (rc & Hrc & Ep & _). split; [by exists rc|].
    eapply deep_child; [done|done|..|done|done]. intros ->. by rewrite (t_null _ HW) in Hrc. }
  assert (Hnd : NoDup l).
  { eapply (preorder_nodup (windows s) n _ l w); [done|done|by apply (t_nodup _ HW w)|]. intros c Hc.
    destruct (t_children _ HW w r c Hr Hc) as (rc & ? & ? & _). eauto. }
  assert (Hll : Z.of_nat (length l) <= nb_handles (users s)).
  { apply (live_bound to_lower); [done|done|]. intros x (c & Hc & Hcx)%(preorder_elem _ _ _ _ _ Hl).
    eapply descends_live; [done| |done]. by apply (children_live (windows s) w r). }
  pose proof (uo_nb _ (ho_table _ _ (ws_handles _ _ Hs))) as Hnb. rewrite max_user_handles in Hnb.
  cbn [list_descendants]. wp_read ltac:(done).
  replace ([], 0) with (array_of max_count []) by (unfold array_of; by rewrite take_nil).
  eapply wp_mono; [apply (list_below_ok class_atom s thread max_count n _ l); [done|cbn; lia]|].
  cbv beta. intros o s' [-> ->]. split; [done|]. exists n, l. split_and!; [done|done| |done]. intros x. rewrite (preorder_elem _ _ _ _ x Hl). split.
  - intros (c & Hc & Hcx). split; [|apply (descends_down _ w r x Hr); eauto]. intros ->.
    destruct (t_children _ HW w r c Hr Hc) as (rc & Hrc & Ep & _). apply descends_under in Hcx; [|done|by eapply t_rooted|intros ->; by rewrite (t_null _ HW) in Hrc].
    apply (not_under_parent (windows s) c rc Hrc). by rewrite Ep.
  - intros [Hne Hx]. apply (descends_down _ w r x Hr) in Hx as [?|?]; done.
Qed.

(** * Windows: owners *)

(** The owner of a window, 0 when it has none or a stale handle. *)
Definition owner_of (s : wstate) (r : window) : Z := if w_owner r =? 0 then 0 else window_of s (w_owner r).

(** The chain of owners from a window on. *)
Inductive owners (s : wstate) : Z → list Z → Prop :=
| owners_end : owners s 0 []
| owners_next x r l : x ≠ 0 → windows s !! x = Some r → owners s (owner_of s r) l → owners s x (x :: l).

(** Every live window has a finite chain of owners. *)
Definition acyclic (s : wstate) : Prop := ∀ x, live (windows s) x → ∃ l, owners s x l.

Lemma owners_unique s x l k : owners s x l → owners s x k → l = k.
Proof.
  intros Hl. revert k. induction Hl as [|x r l Hx Hr Hl IH]; intros k Hk; inversion Hk; simplify_eq; [done|]. f_equal. by apply IH.
Qed.

Lemma owners_split s x l y : owners s x l → y ∈ l → ∃ l1 l2, l = l1 ++ l2 ∧ owners s y l2.
Proof.
  induction 1 as [|x r l Hx Hr Hl IH]; [by intros ?%not_elem_of_nil|].
  intros [->|Hy]%elem_of_cons; [exists [], (x :: l); split; [done|by econstructor]|].
  destruct (IH Hy) as (l1 & l2 & -> & Ho). by exists (x :: l1), l2.
Qed.

Lemma owners_nodup s x l : owners s x l → NoDup l.
Proof.
  induction 1 as [|x r l Hx Hr Hl IH]; constructor; [|done]. intros Hin.
  destruct (owners_split _ _ _ _ Hl Hin) as (l1 & l2 & -> & Ho). assert (Ho' : owners s x (x :: l1 ++ l2)) by (by econstructor).
  pose proof (owners_unique _ _ _ _ Ho Ho') as E. apply (f_equal length) in E. simpl in E. rewrite length_app in E. lia.
Qed.

Lemma owners_length s x l : owners s x l → (length l ≤ base.size (windows s))%nat.
Proof.
  intros Hl. rewrite <-size_dom, <-(size_list_to_set (C:=gset Z)) by (by eapply owners_nodup).
  apply subseteq_size. intros a Ha%elem_of_list_to_set. apply elem_of_dom.
  induction Hl as [|x r l Hx Hr Hl IH]; [by apply not_elem_of_nil in Ha|]. apply elem_of_cons in Ha as [->|Ha]; eauto.
Qed.

Section owner.
Context (to_lower : Z → Z).
Notation ws_ok := (ws_ok to_lower).

(** The loop: whether [w] is on the chain; a stale owner leaves an error. *)
Lemma owner_loop_ok s w x l n : ws_ok s → owners s x l → (length l ≤ n)%nat →
  wp (owner_loop n w x) (λ b s', b = bool_decide (w ≠ 0 ∧ w ∈ l) ∧ ∃ e, s' = set_win_error e s) s.
Proof.
  intros Hs Hl. revert n. induction Hl as [|x r l Hx Hr Hl IH]; intros n Hn.
  { destruct n; cbn [owner_loop]; rewrite Z.eqb_refl; wp_steps; (split; [by rewrite bool_decide_eq_false_2 by set_solver|]);
      exists (win_error s); by destruct s. }
  destruct n as [|n]; [simpl in Hn; lia|]. cbn [owner_loop]. rewrite (proj2 (Z.eqb_neq x 0)) by done.
  destruct (Z.eqb_spec x w) as [->|Hxw].
  { wp_steps. split; [rewrite bool_decide_eq_true_2; [done|set_solver]|]. exists (win_error s). by destruct s. }
  wp_read ltac:(done). assert (Hsame : bool_decide (w ≠ 0 ∧ w ∈ x :: l) = bool_decide (w ≠ 0 ∧ w ∈ l)).
  { apply bool_decide_ext. rewrite elem_of_cons. naive_solver. }
  rewrite Hsame. simpl in Hn. unfold owner_of in *. apply wp_bind. destruct (w_owner r =? 0); [apply wp_ret, IH; lia|].
  apply (get_window_of to_lower s); [done| |intros y ry -> _ _ _; apply IH; lia].
  intros E. rewrite E in *. inversion Hl; [|done]. subst. destruct n; cbn; wp_steps; (split; [|by eexists]); by rewrite bool_decide_eq_false_2 by set_solver.
Qed.

(** A live window's handle gives it back. *)
Lemma window_of_handle s x : ws_ok s → live (windows s) x → window_of s (handle_at (windows s) x) = x.
Proof.
  intros Hs Hx. destruct (ho_window _ _ (ws_handles _ _ Hs) x Hx) as (i & e & Hi & He & Hty & Hh & Hob).
  pose proof (ho_table _ _ (ws_handles _ _ Hs)) as Hu. pose proof (get_user_object_ok (users s) (handle_at (windows s) x) NTUSER_OBJ_WINDOW Hu) as Hw.
  pose proof (uo_gen _ Hu i e Hi He). pose proof (uo_nb _ Hu). destruct (entry_handle_parts i (ue_generation e)) as [Hidx Hgen]; [lia|lia|].
  assert (Ht : target (users s) (handle_at (windows s) x) = Some i).
  { rewrite Hh, (target_new (users s) i e) by done. rewrite Hty. unfold accepts. by rewrite Hgen, Z.eqb_refl, !orb_true_r. }
  unfold window_of. pose proof (handle_to_entry_ok (users s) (handle_at (windows s) x) Hu) as He2. unfold get_user_object, st_bind, wp in *.
  destruct (handle_to_entry (handle_at (windows s) x) (users s)) as [o u|]; [|done]. destruct He2 as [-> ->]. rewrite Ht.
  pose proof (wp_get_user_entry (users s) i e (λ e' u, e' = e ∧ u = users s) He ltac:(done)) as Hg. unfold wp in Hg.
  destruct (get_user_entry i (users s)) as [e' u|]; [|done]. destruct Hg as [-> ->]. rewrite Hty, Z.eqb_refl. cbn [negb].
  unfold get_server_object, st_bind, get. unfold object_of in Hob. destruct (Z.leb_spec 0 i); [|lia].
  pose proof (wp_arr_get (server_objects (users s)) i x (λ y u, y = x) (users s)) as Hag. unfold wp in Hag. specialize (Hag ltac:(lia) Hob ltac:(done)).
  by destruct (arr_get (server_objects (users s)) i (users s)).
Qed.
Lemma owners_error s e x l : owners s x l → owners (set_win_error e s) x l.
Proof. induction 1 as [|x r l Hx Hr Hl IH]; [constructor|]. by eapply owners_next. Qed.

(** The chains with the owner of [w] changed. *)
Lemma owners_same s s' w x l : (∀ y r, y ≠ w → windows s !! y = Some r → windows s' !! y = Some r) → users s' = users s → w ∉ l →
  owners s x l → owners s' x l.
Proof.
  intros HW Hu Hw. induction 1 as [|x r l Hx Hr Hl IH]; [constructor|]. apply not_elem_of_cons in Hw as [Hxw Hw].
  econstructor; [done|by apply HW|]. assert (owner_of s' r = owner_of s r) as -> by (unfold owner_of, window_of; by rewrite Hu). by apply IH.
Qed.

Lemma acyclic_set s w r o lo h : acyclic s → windows s !! w = Some r → owners s o lo → w ∉ lo →
  (if h =? 0 then 0 else window_of s h) = o → acyclic (set_windows (<[w:=set_w_owner h r]> (windows s)) s).
Proof.
  intros Ha Hr Ho Hw Eo. set (s' := set_windows _ s).
  assert (Hsame : ∀ y ry, y ≠ w → windows s !! y = Some ry → windows s' !! y = Some ry) by (intros y ry Hy; unfold s'; cbn; by rewrite lookup_insert_ne).
  assert (Hself : windows s' !! w = Some (set_w_owner h r)) by apply lookup_insert_eq.
  assert (Ho' : owners s' o lo) by (by eapply owners_same).
  assert (Hww : w ≠ 0 → owners s' w (w :: lo)).
  { intros Hw0. econstructor; [done|done|]. unfold owner_of. cbn [w_owner set_w_owner]. change (window_of s' h) with (window_of s h). by rewrite Eo. }
  intros x Hx. assert (Hxs : live (windows s) x).
  { unfold live in *. unfold s' in Hx. cbn in Hx. rewrite handle_insert in Hx. case_decide as E; [|done]. subst x. by rewrite (handle_at_lookup _ w r). }
  destruct (Ha x Hxs) as [l Hl]. clear Hx Hxs. induction Hl as [|x rx l Hx0 Hrx Hl IH]; [exists []; constructor|].
  destruct (decide (x = w)) as [->|Hxw]; [by exists (w :: lo); apply Hww|]. destruct IH as [l' Hl']. exists (x :: l').
  econstructor; [done|by apply Hsame|]. exact Hl'.
Qed.

(** When a new owner is refused: no such window, a desktop window, or a chain of
    owners [l] on which the window is. *)
Definition owner_refused (s : wstate) (w o oh : Z) (l : list Z) : Prop :=
  w = 0 ∨ (oh ≠ 0 ∧ o = 0) ∨ (∃ r, windows s !! w = Some r ∧ w_parent r = 0) ∨ w ∈ l.

Lemma acyclic_error s e : acyclic s → acyclic (set_win_error e s).
Proof. intros Ha x Hx. destruct (Ha x Hx) as [l Hl]. exists l. by apply owners_error. Qed.

Lemma parent_acyclic s oh : ws_ok s → acyclic s → ∃ l, owners s (parent_of s oh) l.
Proof.
  intros Hs Ha. pose proof (resolve_parent_ok to_lower s oh Hs) as Hw. unfold wp in Hw.
  destruct ((if oh =? 0 then ret 0 else get_window oh) s) as [q s'|f]; [|done]. destruct Hw as [Eq Hq]. rewrite <-Eq.
  destruct Hq as [(-> & _)|[_ [[-> _]|(_ & _ & rq & Hrq & Hh)]]]; [exists []; constructor..|]. apply Ha, live_lookup. eauto.
Qed.

Lemma req_set_window_owner_ok s h oh : ws_ok s → acyclic s →
  wp (req_set_window_owner h oh) (λ _ s', ws_ok s' ∧ acyclic s' ∧
    let w := window_of s h in let o := parent_of s oh in
    ∃ l, owners s o l ∧ (owner_refused s w o oh l ∧ windows s' = windows s ∨
      ¬ owner_refused s w o oh l ∧ ∃ r, windows s !! w = Some r ∧
        windows s' = <[w:=set_w_owner (handle_at (windows s) o) r]> (windows s))) s.
Proof.
  intros Hs Ha. destruct (parent_acyclic s oh Hs Ha) as [l Hl]. pose proof (t_null _ (fo_tree _ (ws_forest _ _ Hs))) as H0.
  assert (Hno : ∀ e w o (P : Prop), owners s o l → owner_refused s w o oh l → ws_ok (set_win_error e s) ∧ acyclic (set_win_error e s) ∧
    ∃ l, owners s o l ∧ (owner_refused s w o oh l ∧ windows s = windows s ∨ ¬ owner_refused s w o oh l ∧ P)).
  { intros e w o P Ho Href. split_and!; [by apply ws_ok_error|by apply acyclic_error|]. exists l. auto. }
  unfold req_set_window_owner, set_error.
  apply wp_bind, (get_window_of to_lower s); [done|intros E; cbn; wp_steps; rewrite E; apply Hno; [done|by left]|].
  intros w r Ew Hr Hh Hw. cbv zeta. rewrite (proj2 (Z.eqb_neq w 0)) by done. rewrite <-Ew.
  apply wp_bind. eapply wp_mono; [by apply (resolve_parent_ok to_lower)|]. cbv beta. intros o s' [Eo Ho]. rewrite <-Eo in *.
  destruct Ho as [(Ez & Hoh & ->)|[-> Ho]].
  { rewrite Ez, (proj2 (Z.eqb_neq oh 0)) by done. cbn. wp_steps. rewrite <-Ez. apply Hno; [done|]. right. by left. }
  assert (Hnz : negb (oh =? 0) && (o =? 0) = false).
  { destruct Ho as [[-> ->]|(_ & Ho & _)]; [done|]. rewrite (proj2 (Z.eqb_neq o 0)) by done. apply andb_false_r. }
  rewrite Hnz. wp_read ltac:(done). destruct (Z.eqb_spec (w_parent r) 0) as [Ep|Ep]; [wp_steps; apply Hno; [done|]; right; right; left; eauto|].
  unfold tree_fuel. wp_steps. eapply wp_mono; [apply (owner_loop_ok s w o l); [done|done|by eapply owners_length]|]. cbv beta. intros b s' [-> [e ->]].
  case_bool_decide as Hin; [wp_steps; apply Hno; [done|]; do 3 right; apply Hin|].
  assert (Hwl : w ∉ l) by (intros Hwl; by apply Hin).
  apply wp_bind, (wp_mono _ (λ f s', f = handle_at (windows s) o ∧ s' = set_win_error e s)).
  { destruct Ho as [[-> _]|(_ & Ho & ro & Hro & _)]; [apply wp_ret; unfold handle_at; by rewrite H0|].
    rewrite (proj2 (Z.eqb_neq o 0)) by done. wp_read ltac:(done). wp_steps. by rewrite (handle_at_lookup _ o ro). }
  intros f s' [-> ->]. wp_write ltac:(done). wp_steps.
  split_and!; [by apply (bland_ok to_lower (set_win_error e s) w r); [apply ws_ok_error|..]| |].
  - apply (acyclic_set (set_win_error e s) w r o l); [by apply acyclic_error|done|by apply owners_error|done|].
    change (window_of (set_win_error e s)) with (window_of s). destruct Ho as [[-> _]|(_ & Ho & ro & Hro & Hho)].
    + unfold handle_at. by rewrite H0.
    + assert (Hlo : live (windows s) o) by (apply live_lookup; eauto). rewrite (window_of_handle s o Hs Hlo).
      destruct (Z.eqb_spec (handle_at (windows s) o) 0) as [E|E]; [by destruct Hlo|done].
  - exists l. split; [done|]. right. split; [|eauto]. intros [?|[[? ?]|[(r' & Hr' & ?)|?]]]; [done| |congruence|done].
    destruct Ho as [[_ ?]|(_ & ? & _)]; done.
Qed.
End owner.
