(* ===== verification/WindowSpecs.v ===== *)
(** * Windows: what the window tree promises

    The theorems about the window tree, with instances on the sample states, and
    the evaluation of some requests that go wrong. *)

From stdpp Require Import base list gmap fin_maps relations.
From S2P Require Import Prelude Atom AtomThms UserHandle UserHandleThms Region Window WindowOps WindowReqs.
From S2P Require Import WindowTree WindowLink WindowParent WindowInv WindowDestroy WindowThread WindowCreate.
From S2P Require Import WindowProps WindowMoves WindowMachine WindowList.

Open Scope Z_scope.
Open Scope server_scope.

(** A window of a sample state. *)
Definition no_window : window := new_window (env 0 false false) 0 0 0 0.
Definition win_at (s : wstate) (w : Z) : window := default no_window (windows s !! w).

(** ** The machine *)

(** C12: whatever sequence of admissible requests is served, for whatever threads
    (windows created, reparented, moved in the Z-order, restyled, given properties,
    destroyed, their threads ended), the windows stay a forest: every window is
    once in one list of its parent, below itself nowhere, referenced exactly as
    often as its count says, with topmost windows above the others; handles,
    threads, desktops and atoms agree with it; and the next admissible request ends
    without a fault.  Admissible ([admissible], [env_ok]) means: a creation finds a
    known desktop and a class, a thread that has or gets a queue, memory and a free
    user handle, and is not for a second message window before the desktop window; a
    destruction is asked for by a thread; the thread that ends is not null; and a
    window is moved in the Z-order below a window that is in it.  Outside,
    [moved_below_unlinked], [second_message_window_asserts] and
    [failed_queue_reads_entry] show what goes wrong; [init_window_info], which may
    break the order of topmost windows ([init_info_topmost]), and
    [set_window_owner] are not among the requests. *)
Theorem window_requests_invariant to_lower s s' :
  ws_ok to_lower s → rtc (win_step to_lower) s s' →
  ws_ok to_lower s' ∧ ∀ t q, admissible (serving t s') q → ∃ s'', serve to_lower q (serving t s') = Done tt s''.
Proof.
  intros Hs Hrtc. pose proof (win_steps_ok to_lower s s' Hs Hrtc) as Hs'. split; [done|]. intros t q Ha.
  pose proof (serve_ok to_lower (serving t s') q (serving_ok to_lower s' t Hs') Ha) as Hw. unfold wp in Hw.
  destruct (serve to_lower q (serving t s')) as [[] s''|f]; [eauto|done].
Qed.

Lemma window_requests_witness :
  ws_ok ascii_lower with_unlinked ∧
  ∀ t q, admissible (serving t with_unlinked) q → ∃ s'', serve ascii_lower q (serving t with_unlinked) = Done tt s''.
Proof. exact (window_requests_invariant ascii_lower no_windows with_unlinked no_windows_ok (proj1 with_unlinked_ok)). Defined.

(** ** The Z-order *)

(** C13: [link_window] puts a window where the reference function on lists says:
    at the bottom, on top of all or of the windows that are not topmost (but above
    its owner), or just below [previous]; the topmost bit follows the place, the
    result says whether the window above it changed, and the topmost windows of the
    parent are still above the others. *)
Theorem link_window_spec s w r rp previous :
  forest_ok (windows s) → windows s !! w = Some r → w_parent r ≠ 0 → w_handle r ≠ 0 →
  windows s !! w_parent r = Some rp → (∀ q, previous = WinAt q → q ∈ others w rp) →
  wp (link_window w previous) (λ b s',
    if link_noop previous r then b = false ∧ s' = s
    else
      let zl := z_link (windows s) previous w r (others w rp) in
      s' = set_windows (link_map w (w_parent r) (apply_top (snd zl) (link_base previous r)) rp (fst zl) (windows s)) s ∧
      b = link_result w r rp (fst zl) ∧ forest_ok (windows s')) s.
Proof.
  intros Hf Hr Hp Hh Hrp Hprev. eapply wp_mono; [apply (link_window_ok s w r rp previous); [apply Hf|done..]|]. cbv beta.
  intros b s' Hs'. destruct (link_noop previous r); [done|]. destruct Hs' as [-> ->]. split_and!; [done|done|]. by apply link_state_ok.
Qed.

Lemma link_window_witness :
  wp (link_window 103 WINPTR_TOPMOST) (λ b s',
    let r := win_at with_children 103 in let rp := win_at with_children 101 in
    if link_noop WINPTR_TOPMOST r then b = false ∧ s' = with_children
    else
      let zl := z_link (windows with_children) WINPTR_TOPMOST 103 r (others 103 rp) in
      s' = set_windows (link_map 103 (w_parent r) (apply_top (snd zl) (link_base WINPTR_TOPMOST r)) rp (fst zl) (windows with_children)) with_children ∧
      b = link_result 103 r rp (fst zl) ∧ forest_ok (windows s')) with_children.
Proof.
  apply (link_window_spec with_children 103 (win_at with_children 103) (win_at with_children 101) WINPTR_TOPMOST).
  - apply (ws_forest _ _ (proj2 with_children_ok)).
  - vm_compute. reflexivity.
  - vm_compute. discriminate.
  - vm_compute. discriminate.
  - vm_compute. reflexivity.
  - intros q [=].
Defined.

(** ** Parents *)

(** C14: [set_parent] moves the window under the new parent (in the Z-order, as a
    linked child) or makes it an orphan, unless it is refused: for a handle that is
    not one of a window, a desktop window, an orphan, an incompatible DPI
    awareness, or a new parent at or below the window itself, and then no window
    changes.  The invariant is kept and there is no fault. *)
Theorem req_set_parent_spec to_lower s h ph :
  ws_ok to_lower s →
  wp (req_set_parent h ph) (λ _ s', ws_ok to_lower s' ∧
    let w := window_of s h in let q := parent_of s ph in
    (windows s' = windows s ∧ (parent_refused s w q ph ∨ q ≠ 0 ∧ under (windows s) w q) ∨
     ¬ parent_refused s w q ph ∧ parent_set s s' w q)) s.
Proof. apply req_set_parent_ok. Qed.

Lemma req_set_parent_witness :
  wp (req_set_parent (nth_handle 2) (nth_handle 3)) (λ _ s', ws_ok ascii_lower s' ∧
    let w := window_of with_children (nth_handle 2) in let q := parent_of with_children (nth_handle 3) in
    (windows s' = windows with_children ∧ (parent_refused with_children w q (nth_handle 3) ∨ q ≠ 0 ∧ under (windows with_children) w q) ∨
     ¬ parent_refused with_children w q (nth_handle 3) ∧ parent_set with_children s' w q)) with_children.
Proof. exact (req_set_parent_spec ascii_lower with_children (nth_handle 2) (nth_handle 3) (proj2 with_children_ok)). Defined.

(** ** Creation and destruction *)

(** C17: [create_window] on a known desktop and with a class, for a thread that has
    or gets a queue, with an existing owner and parent, memory at an address not in
    use, a free user handle and, for a window without parent, no such root on the
    desktop yet ([can_create]).  It is refused (access denied, nothing else changing)
    when there is no desktop window to be the parent or the parent is on another
    desktop, and otherwise adds exactly one window: a new handle, at the head of the
    unlinked list of the parent, which gets one reference, or as the root of its
    desktop.  Without these conditions the code crashes or writes out of bounds:
    see [failed_queue_reads_entry] and [second_message_window_asserts], and a full
    table of user handles is not noticed. *)
Theorem create_window_spec to_lower s e parent owner ctx w shared d th :
  ws_ok to_lower s → ce_desktop e ≠ 0 → ce_class e ≠ 0 →
  ce_addr e = Some w → ce_shared e = Some shared → th_queue th || ce_queue e = true →
  (owner = 0 ∨ is_Some (windows s !! owner)) → desktops s !! ce_desktop e = Some d →
  (actual_parent e d parent ≠ 0 → is_Some (windows s !! actual_parent e d parent)) →
  (refused s e d parent = false → can_create s e (actual_parent e d parent) w d th) →
  wp (create_window e parent owner ctx) (λ x s',
    let q := actual_parent e d parent in
    if refused s e d parent then x = 0 ∧ ∃ c, s' = set_win_calls c (set_win_error WIN_ACCESS_DENIED s)
    else x = w ∧ ∃ h, h ≠ 0 ∧ ws_ok to_lower s' ∧
      windows s' = created_map (windows s) q w (newborn e (current s) q h (owner_handle s owner) (context_in s q ctx)) ∧
      desktops s' = (if q =? 0 then <[ce_desktop e:=with_root e w d]> (desktops s) else desktops s)) s.
Proof.
  intros Hs H1 H2 H3 H4 H5 H6 H7 H8 H9. eapply wp_mono; [by apply (create_window_ok to_lower s e parent owner ctx w shared d th)|].
  cbv beta zeta. intros x s'. destruct (refused s e d parent); [done|]. intros [-> (h & [A B C (d' & Hd' & D) _])]. split; [done|].
  exists h. split_and!; [done|done|done|]. assert (d' = d) as -> by congruence. done.
Qed.

Lemma create_window_witness :
  wp (create_window (env 106 false false) 101 102 0) (λ x s',
    let e := env 106 false false in
    let d := Desktop 100 0 0 0 0 0 in
    let q := actual_parent e d 101 in
    if refused with_unlinked e d 101 then x = 0 ∧ ∃ c, s' = set_win_calls c (set_win_error WIN_ACCESS_DENIED with_unlinked)
    else x = 106 ∧ ∃ h, h ≠ 0 ∧ ws_ok ascii_lower s' ∧
      windows s' = created_map (windows with_unlinked) q 106 (newborn e (current with_unlinked) q h (owner_handle with_unlinked 102) (context_in with_unlinked q 0)) ∧
      desktops s' = (if q =? 0 then <[ce_desktop e:=with_root e 106 d]> (desktops with_unlinked) else desktops with_unlinked)) with_unlinked.
Proof.
  apply (create_window_spec ascii_lower with_unlinked (env 106 false false) 101 102 0 106 (0, 106) (Desktop 100 0 0 0 0 0) (WinThread true 5 10 1)).
  - apply with_unlinked_ok.
  - discriminate.
  - discriminate.
  - reflexivity.
  - reflexivity.
  - reflexivity.
  - right. exists (win_at with_unlinked 102). vm_compute. reflexivity.
  - vm_compute. reflexivity.
  - intros _. exists (win_at with_unlinked 101). vm_compute. reflexivity.
  - intros _. split.
    + split; [vm_compute; reflexivity|discriminate].
    + intros _. exists (win_at with_unlinked 101). vm_compute. reflexivity.
    + vm_compute. reflexivity.
    + discriminate.
    + split; [vm_compute; reflexivity|vm_compute; discriminate].
    + right. vm_compute. reflexivity.
Defined.

(** C15: destroying a window ends, and the windows that are gone afterwards are
    exactly the window, its linked children of the same thread, or of none, and so
    on down; every other window is left as it was but for the children it lost,
    and the invariant holds. *)
Theorem destroy_window_spec to_lower s w r :
  ws_ok to_lower s → windows s !! w = Some r → w_handle r ≠ 0 → w_parent r ≠ 0 →
  wp (destroy_window w) (λ _ s', ws_ok to_lower s' ∧ killed (windows s) (windows s') ∧
    (∀ x, live (windows s) x → (live (windows s') x ↔ ¬ doomed (windows s) w x)) ∧
    nb_handles (users s') = nb_handles (users s)) s.
Proof.
  intros Hs Hr Hh Hp. eapply wp_mono; [by apply (destroy_window_ok to_lower s w r)|]. cbv beta. by intros _ s' (A & B & C & D & _).
Qed.

Lemma destroy_window_witness :
  wp (destroy_window 101) (λ _ s', ws_ok ascii_lower s' ∧ killed (windows with_unlinked) (windows s') ∧
    (∀ x, live (windows with_unlinked) x → (live (windows s') x ↔ ¬ doomed (windows with_unlinked) 101 x)) ∧
    nb_handles (users s') = nb_handles (users with_unlinked)) with_unlinked.
Proof.
  apply (destroy_window_spec ascii_lower with_unlinked 101 (win_at with_unlinked 101)).
  - apply with_unlinked_ok.
  - vm_compute. reflexivity.
  - vm_compute. discriminate.
  - vm_compute. discriminate.
Defined.

(** C16: when a thread ends, the walk over the handle table, which the destructions
    change under it, leaves no window of the thread; the windows that are gone are
    exactly those that go with a window of the thread other than a desktop
    window. *)
Theorem destroy_thread_windows_spec to_lower s t :
  t ≠ 0 → ws_ok to_lower s →
  wp (destroy_thread_windows t) (λ _ s', ws_ok to_lower s' ∧ (∀ x, thread_at (windows s') x ≠ t) ∧
    (∀ x, live (windows s') x → live (windows s) x) ∧
    (∀ x, live (windows s) x → (live (windows s') x ↔ ¬ thread_doomed (windows s) t x))) s.
Proof.
  intros Ht Hs. eapply wp_mono; [by apply (destroy_thread_windows_ok to_lower s t)|]. cbv beta. by intros _ s' (A & B & _ & C & D).
Qed.

Lemma destroy_thread_windows_witness :
  wp (destroy_thread_windows 11) (λ _ s', ws_ok ascii_lower s' ∧ (∀ x, thread_at (windows s') x ≠ 11) ∧
    (∀ x, live (windows s') x → live (windows with_unlinked) x) ∧
    (∀ x, live (windows with_unlinked) x → (live (windows s') x ↔ ¬ thread_doomed (windows with_unlinked) 11 x))) with_unlinked.
Proof. apply (destroy_thread_windows_spec ascii_lower with_unlinked 11); [discriminate|apply with_unlinked_ok]. Defined.

(** ** Lists, owners and properties *)

(** C18: the list of the children of a window (with theirs) is the preorder walk of
    its linked descendants, each once; the count is that of all those of the thread
    asked for, and the array holds the first of them. *)
Theorem get_window_list_preorder to_lower class_atom s w r cur_desktop thread max_count :
  ws_ok to_lower s → windows s !! w = Some r →
  wp (get_window_list class_atom cur_desktop 0 w thread true max_count) (λ o s', s' = s ∧
    ∃ n l, preorder (windows s) n (w_children r) l ∧ NoDup l ∧
      (∀ x, x ∈ l ↔ x ≠ w ∧ descends (windows s) w x) ∧
      o = (take (Z.to_nat max_count) (handles_in (windows s) thread l), Z.of_nat (length (handles_in (windows s) thread l)))) s.
Proof. apply get_descendants_ok. Qed.

Lemma get_window_list_witness :
  wp (get_window_list (λ _, 0) 1 0 100 10 true 8) (λ o s', s' = with_unlinked ∧
    ∃ n l, preorder (windows with_unlinked) n (w_children (win_at with_unlinked 100)) l ∧ NoDup l ∧
      (∀ x, x ∈ l ↔ x ≠ 100 ∧ descends (windows with_unlinked) 100 x) ∧
      o = (take 8 (handles_in (windows with_unlinked) 10 l), Z.of_nat (length (handles_in (windows with_unlinked) 10 l)))) with_unlinked.
Proof.
  apply (get_window_list_preorder ascii_lower (λ _, 0) with_unlinked 100 (win_at with_unlinked 100) 1 10 8); [apply with_unlinked_ok|].
  vm_compute. reflexivity.
Defined.

(** C19: [set_window_owner] ends while the chains of owners are finite, refuses an
    owner whose chain comes back to the window (and a desktop window and handles of
    no window), otherwise changes exactly the owner, and all chains stay finite. *)
Theorem set_window_owner_acyclic to_lower s h oh :
  ws_ok to_lower s → acyclic s →
  wp (req_set_window_owner h oh) (λ _ s', ws_ok to_lower s' ∧ acyclic s' ∧
    let w := window_of s h in let o := parent_of s oh in
    ∃ l, owners s o l ∧ (owner_refused s w o oh l ∧ windows s' = windows s ∨
      ¬ owner_refused s w o oh l ∧ ∃ r, windows s !! w = Some r ∧
        windows s' = <[w:=set_w_owner (handle_at (windows s) o) r]> (windows s))) s.
Proof. apply req_set_window_owner_ok. Qed.

Lemma no_owner_acyclic s : (∀ x r, windows s !! x = Some r → w_owner r = 0 ∧ x ≠ 0) → acyclic s.
Proof.
  intros Ho x (r & Hr & _)%live_lookup. destruct (Ho x r Hr) as [E Hx]. exists [x]. econstructor; [done|done|].
  unfold owner_of. rewrite E. constructor.
Qed.

Lemma set_window_owner_witness :
  wp (req_set_window_owner (nth_handle 2) (nth_handle 1)) (λ _ s', ws_ok ascii_lower s' ∧ acyclic s' ∧
    let w := window_of with_two (nth_handle 2) in let o := parent_of with_two (nth_handle 1) in
    ∃ l, owners with_two o l ∧ (owner_refused with_two w o (nth_handle 1) l ∧ windows s' = windows with_two ∨
      ¬ owner_refused with_two w o (nth_handle 1) l ∧ ∃ r, windows with_two !! w = Some r ∧
        windows s' = <[w:=set_w_owner (handle_at (windows with_two) o) r]> (windows with_two))) with_two.
Proof.
  apply (set_window_owner_acyclic ascii_lower with_two (nth_handle 2) (nth_handle 1)); [apply with_two_ok|].
  apply no_owner_acyclic. intros x r Hr. split.
  - revert x r Hr. apply (bool_decide_unpack (map_Forall (λ _ r, w_owner r = 0) (windows with_two))). vm_compute. exact I.
  - intros ->. by rewrite (t_null _ (fo_tree _ (ws_forest _ _ (proj2 with_two_ok)))) in Hr.
Defined.

(** C20: the property array of a window, with its free entries, implements a map
    from atoms to values: [set_property] inserts, unless the array cannot grow or
    the string atom does not exist, [remove_property] deletes and returns the old
    value, [get_property] looks up; no atom gets two entries. *)
Theorem window_properties_refine to_lower s w r atom data type alloc :
  ws_ok to_lower s → windows s !! w = Some r → props_ok (w_properties r) → atom ≠ 0 → type ≠ PROP_TYPE_FREE →
  wp (set_property w atom data type alloc) (λ _ s', ∃ l', props_set to_lower s s' w r l' ∧
    (l' = w_properties r ∧ set_refused s (w_properties r) atom type alloc ∨
     inserted (w_properties r) l' atom (Some (type, data)))) s ∧
  wp (remove_property w atom) (λ x s', ∃ l', props_set to_lower s s' w r l' ∧ inserted (w_properties r) l' atom None ∧
    x = default 0 (snd <$> prop_at (w_properties r) atom)) s ∧
  wp (get_property w atom) (λ x s', s' = s ∧ x = default 0 (snd <$> prop_at (w_properties r) atom)) s.
Proof.
  intros Hs Hr Hl Ha Ht. split_and!; [by apply (set_property_ok to_lower)|by apply remove_property_ok|by apply get_property_ok].
Qed.

(** A window with the properties 7 and, removed, 8. *)
Definition with_props : wstate :=
  play 10 (R_remove_property (nth_handle 1) [] 8) (play 10 (R_set_property (nth_handle 1) [] 7 70 true)
    (play 10 (R_set_property (nth_handle 1) [] 8 80 true) with_two)).

Lemma with_props_ok : reached with_props.
Proof. unfold with_props. do 3 (apply reached_play; [|vm_compute; reflexivity]). apply with_two_ok. Qed.

Lemma one_free_ok : props_ok [Property PROP_TYPE_FREE 8 80; Property PROP_TYPE_ATOM 7 70].
Proof. intros [|[|i]] [|[|j]] p q Hp Hq; simplify_eq/=; by unfold used. Qed.

Lemma window_properties_witness :
  wp (set_property 101 9 90 PROP_TYPE_ATOM true) (λ _ s', ∃ l', props_set ascii_lower with_props s' 101 (win_at with_props 101) l' ∧
    (l' = w_properties (win_at with_props 101) ∧ set_refused with_props (w_properties (win_at with_props 101)) 9 PROP_TYPE_ATOM true ∨
     inserted (w_properties (win_at with_props 101)) l' 9 (Some (PROP_TYPE_ATOM, 90)))) with_props ∧
  wp (remove_property 101 9) (λ x s', ∃ l', props_set ascii_lower with_props s' 101 (win_at with_props 101) l' ∧
    inserted (w_properties (win_at with_props 101)) l' 9 None ∧
    x = default 0 (snd <$> prop_at (w_properties (win_at with_props 101)) 9)) with_props ∧
  wp (get_property 101 9) (λ x s', s' = with_props ∧ x = default 0 (snd <$> prop_at (w_properties (win_at with_props 101)) 9)) with_props.
Proof.
  apply (window_properties_refine ascii_lower with_props 101 (win_at with_props 101) 9 90 PROP_TYPE_ATOM true).
  - apply with_props_ok.
  - vm_compute. reflexivity.
  - assert (E : w_properties (win_at with_props 101) = [Property PROP_TYPE_FREE 8 80; Property PROP_TYPE_ATOM 7 70]) by (vm_compute; reflexivity).
    rewrite E. apply one_free_ok.
  - discriminate.
  - discriminate.
Defined.

(** ** Requests that go wrong *)

Definition fault_of {A} (r : outcome wstate A) : option fault := match r with Done _ _ => None | Fault f => Some f end.

(** The message window is asked for twice on a desktop that has no desktop window:
    the second time the parent falls back on the missing desktop window, and the
    assertion that there is no message window fails. *)
Theorem second_message_window_asserts :
  fault_of (serve ascii_lower (R_create (env 101 false true) 0 0 0 0 0) (play 10 (R_create (env 100 false true) 0 0 0 0 0) no_windows)) =
  Some AssertFailed.
Proof. vm_compute. reflexivity. Qed.

(** The state after a computation, and whether it ended. *)
Definition after_run {A} (m : WM A) (s : wstate) : wstate := match m s with Done _ s' => s' | Fault _ => s end.

(** A thread without a message queue creates a window and the queue cannot be made:
    the new window is released before its list entry was linked anywhere. *)
Theorem failed_queue_reads_entry :
  fault_of (create_window (CreateEnv 1 5 false false (Some 101) (Some (0, 101)) false) 0 0 0
    (set_threads {[10 := WinThread false 0 10 1]} with_desktop)) = Some Uninitialized.
Proof. vm_compute. reflexivity. Qed.

(** Destroying 101: the child 105 that is not in the Z-order stays alive below a
    destroyed parent, and the child 104 of the other thread is notified twice. *)
Theorem unlinked_child_survives :
  let s := after_run (destroy_window 101) with_unlinked in
  (negb (handle_at (windows s) 105 =? 0), handle_at (windows s) 101, w_parent <$> windows s !! 105,
   length (filter (λ c, c = C_send_notify_message (nth_handle 4) WM_WINE_DESTROYWINDOW) (win_calls s))) = (true, 0, Some 101, 2%nat).
Proof. vm_compute. reflexivity. Qed.

(** Moving 103 below 105, which is not in the Z-order, marks it as linked but puts
    it in the list of the windows that are not. *)
Theorem moved_below_unlinked :
  let s := after_run (link_window 103 (WinAt 105)) with_unlinked in
  (w_is_linked <$> windows s !! 103, w_children <$> windows s !! 101, w_unlinked <$> windows s !! 101) =
  (Some true, Some [104], Some [105; 103]).
Proof. vm_compute. reflexivity. Qed.

(** The siblings of a window that is not in the Z-order: the walk meets the head of
    the other list and takes it for a window. *)
Theorem unlinked_siblings_walk :
  fault_of (get_window_list (λ _, 0) 1 0 105 0 false 8 with_unlinked) = Some OutOfBounds.
Proof. vm_compute. reflexivity. Qed.

(** The owner 101 of 102 is gone; 102 becomes the owner of 103: the owner is set,
    and the request reports an invalid window handle. *)
Theorem stale_owner_reported :
  let s := after_run (set_error 0 ;; req_set_window_owner (nth_handle 2) (nth_handle 1) ;; destroy_window 101 ;;
                      req_create_window (env 106 false false) 0 0 0 0 0) with_two in
  let s' := after_run (req_set_window_owner (handle_at (windows s) 106) (nth_handle 2)) s in
  (win_error s, w_owner <$> windows s' !! 106, win_error s') = (0, Some (nth_handle 2), WIN_INVALID_WINDOW_HANDLE).
Proof. vm_compute. reflexivity. Qed.

(** A property is set by the name "Sys" and then by its atom: the entry becomes one
    without a reference on the atom, so removing it keeps the atom for ever. *)
Theorem retyped_property_keeps_atom :
  let name := [83; 121; 115] in
  let h := nth_handle 1 in
  let s := after_run (req_set_window_property ascii_lower h name 0 5 true ;;
                      req_set_window_property ascii_lower h [] 0xc001 6 true ;;
                      req_remove_window_property ascii_lower h [] 0xc001) with_two in
  (prop_at (w_properties (win_at s 101)) 0xc001, names (gatoms s) 0xc001) = (None, Some (name, 1)).
Proof. vm_compute. reflexivity. Qed.

(** [init_window_info] makes a linked window topmost without moving it above the
    others. *)
Theorem init_info_topmost :
  let s := after_run (req_init_window_info (nth_handle 1) 0 WS_EX_TOPMOST) with_two in
  (w_children <$> windows s !! 100, is_topmost (win_at s 102), is_topmost (win_at s 101)) = (Some [102; 101], false, true).
Proof. vm_compute. reflexivity. Qed.

(** The parents of 103 (101 and 100) for a reply of 6 bytes: the remaining length
    goes from 6 over 2 to a very large number without meeting 0, and the second
    handle is stored past the end of the buffer. *)
Theorem parents_past_the_buffer :
  (fault_of (req_get_window_parents (nth_handle 3) 6 true with_children),
   match req_get_window_parents (nth_handle 3) 4 true with_children with Done x _ => Some x | Fault _ => None end) =
  (Some OutOfBounds, Some (2, [nth_handle 1])).
Proof. vm_compute. reflexivity. Qed.
